(* ===== verification/_CoqProject ===== *)
-Q . S2P
Prelude.v
String8.v
Base64.v
U8Buf.v
WsFrame.v
Url.v
GrowArr.v
Header.v
Psl.v
AltSvc.v
HttpDate.v
Cookie.v
SecFetch.v
Redirect.v
Session.v
OriginCache.v
DnsCache.v
CertPin.v
Proxy.v
H1.v
H3Control.v
H3Session.v
PartialState.v
Manager.v
H2.v
H2Safe.v
H2Props.v
Json.v
Persist.v
Ja4.v
Arena.v
Ring.v
ReqHeaders.v
Profile.v
Decompress.v
SslPump.v
ConnTypes.v
Connection.v
TcpRequest.v
TlsStream.v
QuicTypes.v
QuicConn.v
QuicRequest.v
QuicInv.v
QuicProps.v
QuicTrace.v
WsConn.v
PoolState.v
Pool.v
PoolInv.v
PoolSafe.v
PoolFrame.v
PoolProps.v
H2Pool.v
Dispatch.v
DispatchProps.v
