(* ===== verification/Prelude.v ===== *)
(** * holytls: a verification development

    holytls is an HTTP client in C that imitates the network fingerprint of a
    browser. This library is a model of its own logic, file by file, with the
    theorems that make each part correct. It is a shallow embedding: a C
    function is a Rocq function of the same name where the name is free, an
    integer is a [Z] wrapped where the code wraps it, a string is the list of
    its bytes, a struct is a record, and code that changes state takes and
    returns the state. This file holds the notations, the automation and the
    lemmas the other files share.

    ** Parts

    Text and memory:
    - [String8] (src/base/string8.h, string8.c): views, number formatting and
      parsing, splitting and joining. [Base64], [U8Buf]: base64.c, u8buf.c.
    - [Arena] (src/base/arena.c): the block allocator, its scopes and its
      recycling. Most other files take its copies for granted: a copy into an
      arena is the identity on contents. [GrowArr] is the array in an arena that
      header.c and cookie.c grow.
    - [Ring] (src/base/ring_alloc.h): the ring of the socket writes.

    Values of the protocols:
    - [Url], [AltSvc], [HttpDate], [Cookie], [Psl], [SecFetch], [Header] (with
      header_order.c), all of src/core/; [Json] and [Persist] for the snapshots
      of a session; [Ja4] (src/tls/ja4.c), the ClientHello parser and its
      fingerprint; [Proxy] (src/net/proxy.c), the proxy URL and the framing of
      CONNECT and SOCKS5.
    - [WsFrame] (src/ws/ws_frame.c), WebSocket frames. [H3Control]
      (src/h3/h3_control.c), varints and the control stream.

    Sessions of a protocol, over a transport that takes bytes:
    - [H1] (src/h1/h1.c), [H3Session] (src/h3/h3_session.c), [WsConn]
      (src/ws/ws.c), [Decompress] (src/core/decompress.c).
    - [H2] (src/h2/h2.c), requests and WebSockets multiplexed over nghttp2, in
      the monad of [PartialState]; [H2Safe] and [H2Props]: its invariant and what
      follows; [H2Pool]: it implements what the pool asks of a session.

    The client:
    - [ReqHeaders] (the headers of a request, the hooks), [Redirect] (the
      redirect loop), [OriginCache] (Alt-Svc, ECH and resumption tables) and
      [TcpRequest] (one request over a connection), all of src/core/client.c;
      [Session] (src/core/session.c), the cookie-aware loop; [Manager]
      (src/core/manager.c), the registry of sessions; [DnsCache], [CertPin].
    - [Dispatch] (src/core/client.c, ech.c): from a request to the transport that
      gets it, across redirects and ECH prefetches; [DispatchProps].
    - [Profile] (src/profile/): the tables of the browsers, their registry, the
      generated sec-ch-ua lists.

    Transports:
    - [SslPump] (src/tls/ssl_conn.c), the TLS engine over two memory BIOs;
      [ConnTypes] and [Connection] (src/net/connection.c), the TCP connection
      that resolves, connects, negotiates a proxy tunnel and runs the TLS
      handshake. Its functions are transformers of one state: the connection,
      the socket as libuv sees it, and the owner's part, which the owner's
      callbacks transform. [TcpRequest], [WsConn] and [TlsStream]
      (src/core/tls_stream.c) are three owners.
    - [QuicTypes] and [QuicConn] (src/net/quic_connection.c), the QUIC connection
      over ngtcp2 and the handles of libuv; [QuicRequest] (src/core/client.c),
      one request over it with the HTTP/3 session of [H3Session]; [QuicInv],
      [QuicProps] and [QuicTrace]: its invariant, its safety, what it sends.

    The connection pool:
    - [PoolState] (src/core/pool.h) and [Pool] (src/core/pool.c): requests and
      connections in a store, every operation and every callback in a monad
      that fails on memory that was given back; [PoolInv], [PoolSafe],
      [PoolFrame] and [PoolProps]: its invariant, that every event keeps it, which
      events can read a released HTTP/1.1 session ([p_stale]), what follows. A
      send or a read of nghttp2 is a run ([H2Run]) that hands each response
      to the pool's callback in the middle and goes on with the session the
      callback leaves; a flush of a QUIC connection may call its close callback
      before it returns.

    ** What the theorems show

    - Peers cannot corrupt or hang the parsers: [WsFrame], [H1], [Ja4],
      [AltSvc], [Cookie], [HttpDate], [Url] are total; [ws_parser_feed_app],
      [ws_inbound], [h1_response_refines] and [h2_response_refines] say that the
      result does not depend on how the bytes were cut into reads
      ([ws_inbound] over HTTP/1.1, for uncompressed messages);
      [tls_read_result] is each result of a raw read; [ws_parser_feed_inv] and
      [stream_decoder_capped] bound what is buffered or handed out.
    - What goes on the wire is what was asked for: [h1_request_roundtrip],
      [h3_request_wire], [build_ordered_headers_spec],
      [hooks_keep_fingerprint], [h2_upload_exact], [quic_streams_exact], and the
      round trips of frames, URLs, cookies, dates, proxies and snapshots;
      [profile_registry_ok] and [sec_ch_ua_spec] for the fingerprints (the
      registered ids of the certificate compressions are not checked: zstd's is
      4 in profile.h, 3 at IANA).
    - Security rules: [cookie_store_scope], [cookie_header_spec],
      [session_cookie_isolation], [redirect_chain_credentials],
      [cert_pin_enforced], [url_parse_safe], [ws_connect_verified],
      [redirect_hop_spec], [client_route_spec] (which proxy and which transport a
      request may use; a request forced to HTTP/2 still offers HTTP/1.1 to the
      server, against the comment of client.h).
    - State machines: [tcp_request_safe] (one outcome, at most two attempts,
      0-RTT only for what may be replayed) for every order of events;
      [pool_never_dangles], [pool_request_once], [pool_bounds],
      [pool_flush_drains] for the pool, in the runs its laws and
      [pool_enabled] leave; [h2_never_dangles], [h2_request_once] and
      [h2_windows_replenished] (the window of the connection and of each stream)
      for the HTTP/2 session, decoders that do not return included; [quic_request_safe] for a
      request over QUIC; [client_request_once] for the client as a whole;
      [manager_safe] and [manager_create_spec] for the registry of sessions;
      [ring_fifo] for the ring under stale cached indices;
      [arena_allocations_safe].
    - Refinements: the cookie jar and the resumption cache are maps with
      eviction, the public suffix lookup is the published algorithm, the HTTP
      sessions deliver what the stream denotes; [pool_over_session]: the HTTP/2
      session keeps the laws of the interface the pool is proved against.
    - Some theorems are about what goes wrong: [gzip_trailing_bytes_hang],
      [ws_final_block_hangs], [timeout_while_resolving],
      [failed_after_ready_hangs], [h3_reset_truncates],
      [pool_h1_timeout_crosses], [pool_evict_strands], [pool_h3_retry_deaf],
      [pool_submit_answered], [pool_send_closes], [pool_connect_refused],
      [pool_h1_reads_released], [tls_read_error_is_close].

    ** Code outside of src/

    It is an interface or an argument, and what is assumed of it is a law:
    picohttpparser ([PhrApi]; [phr_parser_laws], [chunk_decoder_laws]),
    BoringSSL ([BoringSSL], no law), libuv ([Uv], no law), nghttp2 ([NgHttp2];
    [H2Safe.ng_laws], for the window of the connection and for that of each
    stream, and, for the pool, [send_laws]), nghttp3 ([Qpack], no law),
    ngtcp2 ([QuicTypes.QuicApi]; [QuicInv.ng_laws]: it runs out of packets to
    write, and the handshake ends once), zlib,
    brotli and zstd ([codec_laws]), yyjson ([json_text_law]), malloc
    ([malloc_law]), the random bytes of an id ([mgr_laws]), SHA-1, SHA-256, MD5,
    the clocks and the network. The witness of a theorem with a law instantiates
    it with a concrete function.

    A component that another one calls is an interface there too, with the laws
    the client needs: [H2Mux] with [h2_laws] (kept by [H2Pool]), [QuicStreams]
    and the pool's QUIC connection with [quic_laws] for the pool, [H2Api] and
    [H2WsApi] for a single request and a WebSocket. Where a theorem has a caller
    with callbacks, these are programs of the same operations. The hypothesis
    [QuicProps.calm] leaves out the answers of the resolver that the code neither
    cancels nor guards against.

    The pool is proved under [pool_laws], which are of two kinds. Documented
    behaviour: [h2_laws] (the frames and the responses of a call are those of
    open streams) and [quic_laws]. Restrictions, which no document promises and
    each of which has a theorem above that shows what the code does without it:
    [h2_calm] (no response inside of a submission or a cancellation) and, in
    [H2Pool], [send_calm] of nghttp2, from which it follows; [quic_calm] (no close
    inside of a send); [conn_connect] does not fail before it returns; the path
    outside of the pool makes no callback before it returns. [pool_enabled] leaves
    out the sweeps, evictions and drains that close a connection with waiting
    requests.

    ** Bounds and fuel

    - A loop of the code that is not structural runs by [loop_pow 64], up to
      2^64 rounds: where it ends, a theorem says so within that bound
      ([loop_pow_64] from a decreasing measure); where it does not
      ([loop_pow_spins]), that is the theorem. [double_until 64] is the growth
      of a buffer, enough for every 64-bit size ([double_until_64]).
    - A fuel that is the length of the input is enough by construction: each
      round consumes a byte or an element. The flush of the pool has the length
      of its queue, and [pool_flush_drains] shows that this is enough.
    - [pool_acquire] comes back to itself through a retry; its depth is the
      number of retries left plus one, and the invariant shows that the bottom
      is never reached ([pool_never_dangles] would fail there).
    - A close of a QUIC connection without handles runs its last callback at
      once, which may connect again once: [CLOSE_DEPTH] is two. The callbacks of
      the client call each other at most [CB_DEPTH] deep (a prefetch, a redirect,
      the caller). [quic_request_safe] and [client_request_once] would fail at
      the bottom of either.
    - Callbacks of the callers nest to any depth [n], a parameter of the
      theorems.
    - Arrays of 2^63 slots (of 2^62 in the manager), strings of 2^31 bytes in a
      [printf] and rings of more than 2^61 bytes are excluded where a theorem
      needs it.

    ** Not modelled

    - Glue without logic of its own: src/net/loop.c runs libuv (its timers are
      events of the models that arm them); src/tls/ssl_ctx.c hands a profile to
      BoringSSL call by call; keylog.c appends lines to a file; cert_compress.c
      calls one decoder each; the file wrappers of persist; freeing memory.
    - The memory order of the ring's atomics: its operations are atomic steps.
    - Timing fields, the post hook and the resumed flag of a response.
    - Of src/net/quic_connection.c: the callbacks that only draw random bytes
      for ngtcp2, and the debug log.
    - src/capi: the C binding, which unpacks handles and options around the
      client.
    - The public suffix list, a generated table, is an argument. *)
From stdpp Require Export base numbers list strings option sets.
From Stdlib Require Export ZArith Lia ZifyNat.

#[global] Open Scope Z_scope.

(** ** Machine integers

    A [w]-bit unsigned integer of the C code is a [Z]; [wrapN] is the
    reduction a cast or an arithmetic operation performs at that width. *)
Definition wrap8 (x : Z) : Z := x mod 2 ^ 8.
Definition wrap16 (x : Z) : Z := x mod 2 ^ 16.
Definition wrap32 (x : Z) : Z := x mod 2 ^ 32.
Definition wrap64 (x : Z) : Z := x mod 2 ^ 64.
Definition U64_MAX : Z := 2 ^ 64 - 1.

(** A byte, and a string of bytes: the contents of a [String8]. *)
Definition is_byte (b : Z) : Prop := 0 <= b < 256.
Abbreviation bytes := (list Z).
Definition bytes_ok (s : bytes) : Prop := Forall is_byte s.
Definition u64_ok (x : Z) : Prop := 0 <= x <= U64_MAX.

(** The bytes of a C string literal. *)
Fixpoint lit (s : string) : bytes :=
  match s with
  | EmptyString => []
  | String a s' => Z.of_N (Ascii.N_of_ascii a) :: lit s'
  end.

(** The size of a view as a [U64] value. *)
Definition zlen (s : bytes) : Z := Z.of_nat (length s).

(** Character constants. *)
Abbreviation ch_tab := 9 (only parsing).
Abbreviation ch_nl := 10 (only parsing).
Abbreviation ch_vt := 11 (only parsing).
Abbreviation ch_ff := 12 (only parsing).
Abbreviation ch_cr := 13 (only parsing).
Abbreviation ch_space := 32 (only parsing).
Abbreviation ch_hash := 35 (only parsing).
Abbreviation ch_percent := 37 (only parsing).
Abbreviation ch_plus := 43 (only parsing).
Abbreviation ch_comma := 44 (only parsing).
Abbreviation ch_minus := 45 (only parsing).
Abbreviation ch_dot := 46 (only parsing).
Abbreviation ch_slash := 47 (only parsing).
Abbreviation ch_0 := 48 (only parsing).
Abbreviation ch_9 := 57 (only parsing).
Abbreviation ch_colon := 58 (only parsing).
Abbreviation ch_semi := 59 (only parsing).
Abbreviation ch_eq := 61 (only parsing).
Abbreviation ch_qmark := 63 (only parsing).
Abbreviation ch_at := 64 (only parsing).
Abbreviation ch_A := 65 (only parsing).
Abbreviation ch_F := 70 (only parsing).
Abbreviation ch_Z := 90 (only parsing).
Abbreviation ch_lbrack := 91 (only parsing).
Abbreviation ch_rbrack := 93 (only parsing).
Abbreviation ch_under := 95 (only parsing).
Abbreviation ch_a := 97 (only parsing).
Abbreviation ch_f := 102 (only parsing).
Abbreviation ch_z := 122 (only parsing).
Abbreviation ch_tilde := 126 (only parsing).

(** A line end. *)
Definition crlf : bytes := [ch_cr; ch_nl].

(** ** Proof automation

    [bsolve] turns the boolean tests the definitions are written with into
    arithmetic facts, in the goal and in the context, and calls [lia]. *)
Create HintDb holy.

Ltac bool_props :=
  repeat match goal with
  | H : _ && _ = true |- _ => apply andb_true_iff in H; destruct H
  | H : _ || _ = false |- _ => apply orb_false_iff in H; destruct H
  | H : negb _ = true |- _ => apply negb_true_iff in H
  | H : negb _ = false |- _ => apply negb_false_iff in H
  | H : (_ =? _) = true |- _ => apply Z.eqb_eq in H
  | H : (_ =? _) = false |- _ => apply Z.eqb_neq in H
  | H : (_ <? _) = true |- _ => apply Z.ltb_lt in H
  | H : (_ <? _) = false |- _ => apply Z.ltb_ge in H
  | H : (_ <=? _) = true |- _ => apply Z.leb_le in H
  | H : (_ <=? _) = false |- _ => apply Z.leb_gt in H
  | H : (_ >? _) = true |- _ => rewrite Z.gtb_ltb in H; apply Z.ltb_lt in H
  | H : (_ >? _) = false |- _ => rewrite Z.gtb_ltb in H; apply Z.ltb_ge in H
  | H : (_ >=? _) = true |- _ => rewrite Z.geb_leb in H; apply Z.leb_le in H
  | H : (_ >=? _) = false |- _ => rewrite Z.geb_leb in H; apply Z.leb_gt in H
  | H : (_ =? _)%nat = true |- _ => apply Nat.eqb_eq in H
  | H : (_ =? _)%nat = false |- _ => apply Nat.eqb_neq in H
  | H : (_ <? _)%nat = true |- _ => apply Nat.ltb_lt in H
  | H : (_ <? _)%nat = false |- _ => apply Nat.ltb_ge in H
  | H : (_ <=? _)%nat = true |- _ => apply Nat.leb_le in H
  | H : (_ <=? _)%nat = false |- _ => apply Nat.leb_gt in H
  end.

(** Split on the condition of an innermost [if] of the goal. *)
Ltac case_if :=
  match goal with
  | |- context [if ?b then _ else _] =>
      lazymatch b with
      | context [if _ then _ else _] => fail
      | _ => destruct b eqn:?
      end
  end; bool_props.

Ltac bsolve := repeat case_if; bool_props; subst; try lia; auto with holy.

(** ** Shared lemmas on bytes and lists *)

Lemma bytes_ok_app a b : bytes_ok (a ++ b) <-> bytes_ok a /\ bytes_ok b.
Proof. apply Forall_app. Qed.

Lemma bytes_ok_cons x s : bytes_ok (x :: s) <-> is_byte x /\ bytes_ok s.
Proof. apply Forall_cons_iff. Qed.

Lemma bytes_ok_nil : bytes_ok [].
Proof. constructor. Qed.

Lemma bytes_ok_take n s : bytes_ok s -> bytes_ok (take n s).
Proof. apply Forall_take. Qed.

Lemma bytes_ok_drop n s : bytes_ok s -> bytes_ok (drop n s).
Proof. apply Forall_drop. Qed.

#[export] Hint Resolve bytes_ok_nil bytes_ok_take bytes_ok_drop : holy.

Lemma lit_bytes_ok s : bytes_ok (lit s).
Proof.
  induction s as [|a s IH]; simpl; constructor; [|exact IH].
  unfold is_byte. pose proof (Ascii.N_ascii_bounded a). lia.
Qed.

#[export] Hint Resolve lit_bytes_ok : holy.

Lemma zlen_nonneg s : 0 <= zlen s.
Proof. unfold zlen. lia. Qed.

Lemma zlen_pos (d : bytes) : d <> [] -> 1 <= zlen d.
Proof. destruct d; [done|]. unfold zlen. simpl. lia. Qed.

Lemma zlen_app a b : zlen (a ++ b) = zlen a + zlen b.
Proof. unfold zlen. rewrite length_app. lia. Qed.

(** Induction on the length of a list: the shape of loops that consume more
    than one element per round. *)
Lemma length_ind {A} (P : list A -> Prop) :
  (forall l, (forall l', (length l' < length l)%nat -> P l') -> P l) ->
  forall l, P l.
Proof.
  intros H l. remember (length l) as n eqn:E. revert l E.
  induction (lt_wf n) as [n _ IH]. intros l ->. apply H.
  intros l' Hl. eapply IH; eauto.
Qed.

(** A filter that rejects nothing changes nothing. *)
Lemma filter_all {A} (P : A -> Prop) `{forall x, Decision (P x)} (l : list A) :
  Forall P l -> filter P l = l.
Proof.
  induction 1 as [|x l Hx _ IH]; [done|]. by rewrite filter_cons_True, IH.
Qed.

(** A decidable fact about the integers of a range, by evaluation. *)
Lemma range_check (P : Z -> bool) (n : Z) :
  forallb P (seqZ 0 n) = true -> forall v, 0 <= v < n -> P v = true.
Proof.
  intros H v Hv. rewrite forallb_forall in H. apply H.
  apply list_elem_of_In, elem_of_seqZ. lia.
Qed.

(** ** Bit operations as arithmetic *)

Lemma lor_disjoint_add a b k :
  0 <= k -> 0 <= b < 2 ^ k -> Z.lor (a * 2 ^ k) b = a * 2 ^ k + b.
Proof.
  intros Hk Hb. pose proof (Z.add_lor_land (a * 2 ^ k) b) as E.
  enough (Z.land (a * 2 ^ k) b = 0) by lia. clear E.
  apply Z.bits_inj'. intros i Hi. rewrite Z.land_spec, Z.bits_0.
  destruct (Z.lt_ge_cases i k) as [Hl|Hl].
  - rewrite Z.mul_pow2_bits_low by lia. done.
  - assert (Z.testbit b i = false) as ->; [|apply andb_false_r].
    rewrite <-(Z.mod_small b (2 ^ k)) by lia. apply Z.mod_pow2_bits_high. lia.
Qed.

Lemma lor_shiftl_add a b k :
  0 <= k -> 0 <= b < 2 ^ k -> Z.lor (Z.shiftl a k) b = a * 2 ^ k + b.
Proof. intros. rewrite Z.shiftl_mul_pow2 by lia. by apply lor_disjoint_add. Qed.

Lemma land_mask x k : 0 <= k -> Z.land x (2 ^ k - 1) = x mod 2 ^ k.
Proof. intros. rewrite <-Z.land_ones by lia. rewrite Z.ones_equiv. done. Qed.

Lemma shiftr_div x k : 0 <= k -> Z.shiftr x k = x / 2 ^ k.
Proof. apply Z.shiftr_div_pow2. Qed.

(** A linear goal with divisions and remainders by constants. *)
Ltac divmod := Z.to_euclidean_division_equations; lia.
Ltac ndivmod := zify; divmod.

(** ** Capacity doubling

    [while (cap < need) cap *= 2;], the growth loop of every growable buffer
    of the code, at 64 bits. [fuel] bounds the rounds: from a positive
    capacity, 64 rounds reach any [need] up to 2^63. *)
Fixpoint double_until (fuel : nat) (cap need : Z) : Z :=
  if cap <? need then
    match fuel with
    | O => cap
    | S fuel' => double_until fuel' (wrap64 (cap * 2)) need
    end
  else cap.

Lemma double_until_spec fuel cap need :
  0 < cap -> need <= 2 ^ 63 -> need <= cap * 2 ^ Z.of_nat fuel ->
  need <= double_until fuel cap need /\
  cap <= double_until fuel cap need <= Z.max cap (2 * need - 1).
Proof.
  revert cap; induction fuel as [|fuel IH]; intros cap Hc Hn Hf; simpl.
  - rewrite Z.pow_0_r in Hf. destruct (Z.ltb_spec cap need); lia.
  - destruct (Z.ltb_spec cap need) as [Hl|Hl]; [|lia].
    rewrite Nat2Z.inj_succ, Z.pow_succ_r in Hf by lia.
    unfold wrap64. rewrite Z.mod_small by lia.
    destruct (IH (cap * 2)) as [H1 H2]; [lia|lia|lia|]. lia.
Qed.

Lemma double_until_64 cap need :
  0 < cap -> need <= 2 ^ 63 ->
  need <= double_until 64 cap need /\ cap <= double_until 64 cap need <= Z.max cap (2 * need - 1).
Proof.
  intros. apply double_until_spec; try done. change (Z.of_nat 64) with 64. nia.
Qed.

Lemma double_until_fuel f g cap need :
  0 < cap -> need <= 2 ^ 63 -> need <= cap * 2 ^ Z.of_nat f -> need <= cap * 2 ^ Z.of_nat g ->
  double_until f cap need = double_until g cap need.
Proof.
  revert g cap; induction f as [|f IH]; intros g cap Hc Hn Hf Hg.
  - rewrite Z.pow_0_r in Hf. destruct g; cbn [double_until];
      rewrite (proj2 (Z.ltb_ge cap need)) by lia; done.
  - destruct g as [|g].
    + rewrite Z.pow_0_r in Hg. cbn [double_until].
      rewrite (proj2 (Z.ltb_ge cap need)) by lia. done.
    + cbn [double_until]. destruct (Z.ltb_spec cap need); [|done].
      rewrite !Nat2Z.inj_succ, !Z.pow_succ_r in * by lia.
      unfold wrap64. rewrite Z.mod_small by lia. apply IH; lia.
Qed.

(** Growing in two rounds is growing once. *)
Lemma double_until_compose f g cap n1 n2 :
  0 < cap -> n1 <= n2 -> n2 <= 2 ^ 63 -> n2 <= cap * 2 ^ Z.of_nat f ->
  n2 <= double_until f cap n1 * 2 ^ Z.of_nat g ->
  double_until g (double_until f cap n1) n2 = double_until f cap n2.
Proof.
  revert cap; induction f as [|f IH]; intros cap Hc H12 Hn Hf Hg.
  - rewrite Z.pow_0_r in Hf.
    assert (E : double_until 0 cap n1 = cap).
    { simpl. by rewrite (proj2 (Z.ltb_ge cap n1)) by lia. }
    rewrite E in *. apply double_until_fuel; [lia..|rewrite Z.pow_0_r; lia].
  - cbn [double_until] in Hg |- *. destruct (Z.ltb_spec cap n1).
    + rewrite (proj2 (Z.ltb_lt cap n2)) by lia.
      rewrite Nat2Z.inj_succ, Z.pow_succ_r in Hf by lia. unfold wrap64 in *.
      rewrite Z.mod_small in * by lia. apply IH; lia.
    + change (if cap <? n2 then double_until f (wrap64 (cap * 2)) n2 else cap)
        with (double_until (S f) cap n2). apply double_until_fuel; lia.
Qed.

Lemma double_until_id f cap need : need <= cap -> double_until f cap need = cap.
Proof. intros. destruct f; simpl; by rewrite (proj2 (Z.ltb_ge cap need)) by lia. Qed.

Lemma double_until_64_compose cap n1 n2 :
  0 < cap -> n1 <= n2 -> n2 <= 2 ^ 63 ->
  double_until 64 (double_until 64 cap n1) n2 = double_until 64 cap n2 /\
  cap <= double_until 64 cap n1 <= double_until 64 cap n2.
Proof.
  intros Hc H12 Hn. destruct (double_until_64 cap n1) as [_ H1]; [lia..|].
  assert (E : double_until 64 (double_until 64 cap n1) n2 = double_until 64 cap n2).
  { apply double_until_compose; try lia; change (Z.of_nat 64) with 64; nia. }
  split; [done|]. split; [lia|]. rewrite <-E.
  destruct (double_until_64 (double_until 64 cap n1) n2); lia.
Qed.

#[global] Arguments double_until : simpl never.

Lemma elem_of_take_in {A} (x : A) n l : x ∈ take n l -> x ∈ l.
Proof. intros H. rewrite <-(take_drop n l). apply elem_of_app. by left. Qed.
Lemma elem_of_drop_in {A} (x : A) n l : x ∈ drop n l -> x ∈ l.
Proof. intros H. rewrite <-(take_drop n l). apply elem_of_app. by right. Qed.
#[export] Hint Resolve elem_of_take_in elem_of_drop_in : holy.

(** ** Loops

    A [do]/[for] loop whose number of rounds the program does not bound: [step]
    is one round, [inr] its exit. [loop_pow k] runs up to [2 ^ k] rounds, so
    that [k = 64] outlasts any loop that makes progress on 64-bit sizes, and
    still evaluates in the rounds the loop takes; [inl] is a loop that is
    still running. *)
Fixpoint loop_pow {S R : Type} (k : nat) (step : S -> S + R) (s : S) : S + R :=
  match k with
  | O => step s
  | Datatypes.S k' =>
      match loop_pow k' step s with
      | inl s' => loop_pow k' step s'
      | inr r => inr r
      end
  end.

(** A loop that keeps an invariant and decreases a measure below [2 ^ k]
    exits, with what its last round gives. *)
Lemma loop_pow_exits {S R} (step : S -> S + R) (I : S -> Prop) (Q : R -> Prop) (m : S -> Z) :
  (forall s, I s -> match step s with inl s' => I s' /\ 0 <= m s' < m s | inr r => Q r end) ->
  forall k s, I s -> match loop_pow k step s with
              | inl s' => I s' /\ 0 <= m s' /\ m s' + 2 ^ Z.of_nat k <= m s
              | inr r => Q r
              end.
Proof.
  intros Hs k. induction k as [|k IH]; intros s HI; cbn [loop_pow].
  - specialize (Hs s HI). destruct (step s); [|done]. rewrite Z.pow_0_r. destruct Hs. split; [done|]. lia.
  - pose proof (IH s HI) as H1. destruct (loop_pow k step s) as [s1|]; [|done]. destruct H1 as (HI1 & ? & ?).
    pose proof (IH s1 HI1) as H2. destruct (loop_pow k step s1) as [s2|]; [|done].
    rewrite Nat2Z.inj_succ, Z.pow_succ_r by lia. destruct H2 as (? & ? & ?). split; [done|]. lia.
Qed.

Lemma loop_pow_64 {S R} (step : S -> S + R) (I : S -> Prop) (Q : R -> Prop) (m : S -> Z) s :
  (forall s, I s -> match step s with inl s' => I s' /\ 0 <= m s' < m s | inr r => Q r end) ->
  I s -> m s < 2 ^ 64 -> exists r, loop_pow 64 step s = inr r /\ Q r.
Proof.
  intros Hs HI Hm. pose proof (loop_pow_exits step I Q m Hs 64 s HI) as H.
  destruct (loop_pow 64 step s) as [s'|r]; [|by exists r].
  change (Z.of_nat 64) with 64 in H. lia.
Qed.

(** What an invariant gives when the loop exits, if it does. *)
Lemma loop_pow_inv {S R} (step : S -> S + R) (I : S -> Prop) (Q : R -> Prop) :
  (forall s, I s -> match step s with inl s' => I s' | inr r => Q r end) ->
  forall k s, I s -> match loop_pow k step s with inl s' => I s' | inr r => Q r end.
Proof.
  intros Hs k. induction k as [|k IH]; intros s HI; cbn [loop_pow]; [by apply Hs|].
  pose proof (IH s HI) as H1. destruct (loop_pow k step s) as [s1|]; [|done]. by apply IH.
Qed.

(** A loop that can only repeat never exits. *)
Lemma loop_pow_spins {S R} (step : S -> S + R) (I : S -> Prop) :
  (forall s, I s -> exists s', step s = inl s' /\ I s') ->
  forall k s, I s -> exists s', loop_pow k step s = inl s' /\ I s'.
Proof.
  intros Hs k. induction k as [|k IH]; intros s HI; cbn [loop_pow]; [by apply Hs|].
  destruct (IH s HI) as (s1 & -> & H1). by apply IH.
Qed.
#[global] Arguments loop_pow : simpl never.
