(* ===== verification/String8.v ===== *)
(** * base/string8: the length-and-pointer string type

    A [String8] view is its contents, a list of bytes; the functions that
    advance a [String8 *] return the head together with the advanced view.
    Byte offsets are [nat]; values the code computes in [U64] arithmetic
    ([str8_to_u64], [str8_from_u64]) are [Z] kept at their width.
    [str8_list_join] fills an arena buffer that is not zeroed, so its result
    is modelled as a buffer of cells in which [None] is an uninitialised byte. *)
From S2P Require Import Prelude.

(** ** Character classes (string8.h) *)

Definition ascii_is_space (c : Z) : bool :=
  (c =? ch_space) || (c =? ch_tab) || (c =? ch_nl) || (c =? ch_cr) ||
  (c =? ch_vt) || (c =? ch_ff).

Definition char_is_digit (c : Z) : bool := (ch_0 <=? c) && (c <=? ch_9).
Definition char_is_upper (c : Z) : bool := (ch_A <=? c) && (c <=? ch_Z).
Definition char_is_lower (c : Z) : bool := (ch_a <=? c) && (c <=? ch_z).
Definition char_is_alpha (c : Z) : bool := char_is_upper c || char_is_lower c.
Definition char_is_alnum (c : Z) : bool := char_is_alpha c || char_is_digit c.
Definition char_is_hex (c : Z) : bool :=
  char_is_digit c || ((ch_a <=? c) && (c <=? ch_f)) || ((ch_A <=? c) && (c <=? ch_F)).
Definition char_to_upper (c : Z) : Z := if char_is_lower c then wrap8 (c - 32) else c.
Definition char_to_lower (c : Z) : Z := if char_is_upper c then wrap8 (c + 32) else c.

Definition hex_digits_lower : bytes := Eval vm_compute in lit "0123456789abcdef".
Definition hex_digit_lower (v : Z) : Z :=
  nth (Z.to_nat (Z.land v 15)) hex_digits_lower 0.

(** ** Comparison *)

(** [memcmp] on the first [n] bytes: the sign of the first difference. *)
Fixpoint MemoryCompare (a b : bytes) (n : nat) {struct n} : Z :=
  match n with
  | O => 0
  | S n' =>
      match a, b with
      | x :: a', y :: b' =>
          if x =? y then MemoryCompare a' b' n'
          else if x <? y then -1 else 1
      | _, _ => 0
      end
  end.

Definition str8_match (a b : bytes) : bool :=
  (length a =? length b)%nat &&
  ((length a =? 0)%nat || (MemoryCompare a b (length a) =? 0)).

Fixpoint match_ci_loop (a b : bytes) : bool :=
  match a, b with
  | x :: a', y :: b' =>
      if char_to_lower x =? char_to_lower y then match_ci_loop a' b' else false
  | _, _ => true
  end.
Definition str8_match_ci (a b : bytes) : bool :=
  if negb (length a =? length b)%nat then false else match_ci_loop a b.

Definition str8_starts_with (s prefix : bytes) : bool :=
  (length prefix <=? length s)%nat &&
  (MemoryCompare s prefix (length prefix) =? 0).
Definition str8_ends_with (s suffix : bytes) : bool :=
  (length suffix <=? length s)%nat &&
  (MemoryCompare (drop (length s - length suffix) s) suffix (length suffix) =? 0).

(** ** Sub-views *)

Definition str8_prefix (s : bytes) (n : nat) : bytes :=
  take (if (n <? length s)%nat then n else length s) s.
Definition str8_skip (s : bytes) (n : nat) : bytes :=
  let n := if (length s <? n)%nat then length s else n in drop n s.
Definition str8_postfix (s : bytes) (n : nat) : bytes :=
  let n := if (length s <? n)%nat then length s else n in drop (length s - n) s.
Definition str8_chop (s : bytes) (n : nat) : bytes :=
  let n := if (length s <? n)%nat then length s else n in take (length s - n) s.
Definition str8_substr (s : bytes) (min max : nat) : bytes :=
  let min := if (length s <? min)%nat then length s else min in
  let max := if (length s <? max)%nat then length s else max in
  let max := if (max <? min)%nat then min else max in
  take (max - min) (drop min s).

Fixpoint str8_trim_left (s : bytes) : bytes :=
  match s with
  | c :: s' => if ascii_is_space c then str8_trim_left s' else s
  | [] => []
  end.
(** The loop counts down from the end: the bytes kept are those up to the last
    one that is not a space. *)
Fixpoint trim_right_len (s : bytes) : nat :=
  match s with
  | [] => O
  | c :: s' =>
      match trim_right_len s' with
      | O => if ascii_is_space c then O else 1%nat
      | S n => S (S n)
      end
  end.
Definition str8_trim_right (s : bytes) : bytes := take (trim_right_len s) s.
Definition str8_trim (s : bytes) : bytes := str8_trim_left (str8_trim_right s).

Definition str8_chop_left (s : bytes) (n : nat) : bytes * bytes :=
  let n := if (length s <? n)%nat then length s else n in (take n s, drop n s).
Definition str8_chop_right (s : bytes) (n : nat) : bytes * bytes :=
  let n := if (length s <? n)%nat then length s else n in
  (drop (length s - n) s, take (length s - n) s).

(** ** Searching *)

(** Index of the first byte equal to [c]; [None] is the C function's 0. *)
Fixpoint str8_index_of (s : bytes) (c : Z) : option nat :=
  match s with
  | [] => None
  | x :: s' => if x =? c then Some O
               else match str8_index_of s' c with Some i => Some (S i) | None => None end
  end.
(** Index of the last byte equal to [c]. *)
Fixpoint str8_rindex_of (s : bytes) (c : Z) : option nat :=
  match s with
  | [] => None
  | x :: s' => match str8_rindex_of s' c with
               | Some i => Some (S i)
               | None => if x =? c then Some O else None
               end
  end.

(** The scan of [str8_find] from offset [i] of the whole string, [hay] being
    the rest from there. *)
Fixpoint find_loop (i : Z) (hay needle : bytes) : Z :=
  if (length needle <=? length hay)%nat then
    if MemoryCompare hay needle (length needle) =? 0 then i
    else match hay with [] => -1 | _ :: hay' => find_loop (i + 1) hay' needle end
  else -1.
Definition str8_find (hay needle : bytes) : Z :=
  if (length needle =? 0)%nat then 0
  else if (length hay <? length needle)%nat then -1
  else find_loop 0 hay needle.
Definition str8_contains (hay needle : bytes) : bool := 0 <=? str8_find hay needle.

(** The downward scan of [str8_rfind]: offset [i], then [i - 1], ... *)
Fixpoint rfind_loop (i : nat) (hay needle : bytes) : Z :=
  if MemoryCompare (drop i hay) needle (length needle) =? 0 then Z.of_nat i
  else match i with O => -1 | S i' => rfind_loop i' hay needle end.
Definition str8_rfind (hay needle : bytes) : Z :=
  if (length needle =? 0)%nat then Z.of_nat (length hay)
  else if (length hay <? length needle)%nat then -1
  else rfind_loop (length hay - length needle) hay needle.

(** Inner loop of [str8_find_ci]: do the bytes at this offset match? *)
Fixpoint ci_prefix (hay needle : bytes) : bool :=
  match needle, hay with
  | [], _ => true
  | y :: n', x :: h' =>
      if char_to_lower x =? char_to_lower y then ci_prefix h' n' else false
  | _ :: _, [] => false
  end.
Fixpoint find_ci_loop (i : Z) (hay needle : bytes) : Z :=
  if (length needle <=? length hay)%nat then
    if ci_prefix hay needle then i
    else match hay with [] => -1 | _ :: hay' => find_ci_loop (i + 1) hay' needle end
  else -1.
Definition str8_find_ci (hay needle : bytes) : Z :=
  if (length needle =? 0)%nat then 0
  else if (length hay <? length needle)%nat then -1
  else find_ci_loop 0 hay needle.
Definition str8_contains_ci (hay needle : bytes) : bool := 0 <=? str8_find_ci hay needle.

Definition str8_skip_last_slash (s : bytes) : bytes :=
  match str8_rindex_of s ch_slash with Some i => str8_skip s (i + 1) | None => s end.
Definition str8_chop_last_slash (s : bytes) : bytes :=
  match str8_rindex_of s ch_slash with Some i => str8_prefix s i | None => s end.
Definition str8_skip_last_dot (s : bytes) : bytes :=
  match str8_rindex_of s ch_dot with Some i => str8_skip s (i + 1) | None => s end.
Definition str8_chop_last_dot (s : bytes) : bytes :=
  match str8_rindex_of s ch_dot with Some i => str8_prefix s i | None => s end.

(** ** Splitting *)

(** Length of the longest prefix of bytes different from [delim]. *)
Fixpoint scan_until (s : bytes) (delim : Z) : nat :=
  match s with
  | [] => O
  | x :: s' => if x =? delim then O else S (scan_until s' delim)
  end.
Definition str8_chop_by_delim (s : bytes) (delim : Z) : bytes * bytes :=
  let i := scan_until s delim in
  let j := if (i <? length s)%nat then S i else i in
  (take i s, drop j s).

Definition str8_chop_by_str (s delim : bytes) : bytes * bytes :=
  let idx := str8_find s delim in
  if idx <? 0 then (s, drop (length s) s)
  else (take (Z.to_nat idx) s, drop (Z.to_nat idx + length delim) s).

Definition str8_try_chop_by_delim (s : bytes) (delim : Z) : option (bytes * bytes) :=
  match str8_index_of s delim with
  | None => None
  | Some idx => Some (take idx s, drop (idx + 1) s)
  end.

Fixpoint str8_take_left_while (s : bytes) (pred : Z -> bool) : bytes :=
  match s with
  | [] => []
  | x :: s' => if pred x then x :: str8_take_left_while s' pred else []
  end.
Definition str8_chop_left_while (s : bytes) (pred : Z -> bool) : bytes * bytes :=
  let head := str8_take_left_while s pred in (head, drop (length head) s).

Definition str8_chop_line (s : bytes) : bytes * bytes :=
  let i := scan_until s ch_nl in
  let line := take i s in
  let line := if (0 <? length line)%nat && (nth (length line - 1) line 0 =? ch_cr)
              then take (length line - 1) line else line in
  let j := if (i <? length s)%nat then S i else i in
  (line, drop j s).

(** ** Numbers *)

Fixpoint to_u64_loop (r : Z) (s : bytes) : Z :=
  match s with
  | [] => r
  | c :: s' =>
      if (c <? ch_0) || (ch_9 <? c) then r
      else
        let d := c - ch_0 in
        if (U64_MAX - d) / 10 <? r then U64_MAX
        else to_u64_loop (wrap64 (r * 10 + d)) s'
  end.
Definition str8_to_u64 (s : bytes) : Z := to_u64_loop 0 s.

Fixpoint chop_u64_loop (r : Z) (s : bytes) : Z * bytes :=
  match s with
  | [] => (r, [])
  | c :: s' =>
      if (ch_0 <=? c) && (c <=? ch_9) then
        let d := c - ch_0 in
        chop_u64_loop (if (U64_MAX - d) / 10 <? r then U64_MAX else wrap64 (r * 10 + d)) s'
      else (r, s)
  end.
Definition str8_chop_u64 (s : bytes) : Z * bytes := chop_u64_loop 0 s.

(** The [do ... while (value && n < sizeof tmp)] loop; [room] is what is left
    of the 64-byte buffer. *)
Fixpoint from_u64_digits (room : nat) (value radix : Z) : bytes :=
  match room with
  | O => []
  | S room' =>
      let value' := value / radix in
      hex_digit_lower (wrap8 (value mod radix)) ::
      (if value' =? 0 then [] else from_u64_digits room' value' radix)
  end.
Definition str8_from_u64 (value radix : Z) (min_digits : nat) : bytes :=
  let radix := if (radix <? 2) || (16 <? radix) then 10 else radix in
  let tmp := from_u64_digits 64 value radix in
  let tmp := tmp ++ replicate (Nat.min min_digits 64 - length tmp) ch_0 in
  rev tmp.

Fixpoint hex_encode (bs : bytes) : bytes :=
  match bs with
  | [] => []
  | b :: bs' => hex_digit_lower (Z.shiftr b 4) :: hex_digit_lower b :: hex_encode bs'
  end.

(** ** Lists of strings *)

Record String8List := mkList {
  strings : list bytes;   (* the queue first .. last *)
  node_count : Z;
  total_size : Z
}.
Definition str8_list_empty : String8List := mkList [] 0 0.
Definition str8_list_push (l : String8List) (s : bytes) : String8List :=
  mkList (strings l ++ [s]) (wrap64 (node_count l + 1)) (wrap64 (total_size l + zlen s)).

(** [while (rem.size)]: every round consumes at least one byte, so the length
    of the string is enough fuel. *)
Fixpoint split_loop (fuel : nat) (list : String8List) (rem : bytes) (delim : Z) : String8List :=
  match fuel, rem with
  | _, [] => list
  | O, _ => list
  | S fuel', _ =>
      let (tok, rem') := str8_chop_by_delim rem delim in
      let list' := if (0 <? length tok)%nat then str8_list_push list tok else list in
      split_loop fuel' list' rem' delim
  end.
Definition str8_split (s : bytes) (delim : Z) : String8List :=
  split_loop (length s) str8_list_empty s delim.

(** A buffer whose cells may be uninitialised, and [MemoryCopy] into it. *)
Abbreviation buffer := (list (option Z)).
Definition buf_write (d : buffer) (off : nat) (src : bytes) : buffer :=
  take off d ++ (Some <$> src) ++ drop (off + length src) d.

Fixpoint join_loop (d : buffer) (off : nat) (nodes : list bytes) (sep : bytes) : buffer :=
  match nodes with
  | [] => d
  | s :: nodes' =>
      let sep_here := negb (off =? 0)%nat && (0 <? length sep)%nat in
      let d := if sep_here then buf_write d off sep else d in
      let off := if sep_here then (off + length sep)%nat else off in
      join_loop (buf_write d off s) (off + length s) nodes' sep
  end.
Definition str8_list_join (l : String8List) (sep : bytes) : buffer :=
  let sep_total := if 1 <? node_count l then zlen sep * (node_count l - 1) else 0 in
  let total := Z.to_nat (wrap64 (total_size l + sep_total)) in
  let d := replicate (total + 1) None in
  let d := join_loop d 0 (strings l) sep in
  take total (buf_write d total [0]).

(** ** Arena copies *)

Definition push_str8_copy (s : bytes) : bytes := s.
Definition push_str8_cat (a b : bytes) : bytes := a ++ b.
Definition push_str8_cstr (s : bytes) : bytes := s ++ [0].

(** The bytes before the first NUL: what [strlen] and a [%s] conversion see.
    [pct_s] is [STR8_Fmt] applied to a view whose size fits in an [int]. *)
Definition str8_cstring (c : bytes) : bytes := take (scan_until c 0) c.
Definition pct_s (s : bytes) : bytes := take (scan_until s 0) s.
(** [%u] of an [unsigned]. *)
Definition pct_u (v : Z) : bytes := str8_from_u64 (wrap32 v) 10 0.

(** ** Comparison: reflection lemmas *)

Lemma MemoryCompare_eq (n : nat) (a b : bytes) :
  (n <= length a)%nat -> (n <= length b)%nat ->
  MemoryCompare a b n = 0 <-> take n a = take n b.
Proof.
  revert a b; induction n as [|n IH]; intros a b Ha Hb; [done|].
  destruct a as [|x a], b as [|y b]; simpl in *; try lia.
  destruct (Z.eqb_spec x y) as [->|Hne].
  - rewrite IH by lia. split; congruence.
  - destruct (x <? y); split; congruence.
Qed.

Lemma str8_match_eq (a b : bytes) : str8_match a b = true <-> a = b.
Proof.
  unfold str8_match. rewrite andb_true_iff, orb_true_iff, !Nat.eqb_eq, Z.eqb_eq.
  split.
  - intros [Hl [H0|Hc]].
    + destruct a, b; simpl in *; (lia || done).
    + apply MemoryCompare_eq in Hc; [|lia..].
      rewrite firstn_all, Hl, firstn_all in Hc. done.
  - intros ->. split; [done|]. right. by apply MemoryCompare_eq.
Qed.

Lemma str8_match_refl a : str8_match a a = true.
Proof. by apply str8_match_eq. Qed.

Lemma str8_match_false (a b : bytes) : str8_match a b = false <-> a <> b.
Proof. rewrite <-not_true_iff_false, str8_match_eq. done. Qed.

(** Equality up to ASCII case. *)
Definition lower (s : bytes) : bytes := char_to_lower <$> s.

Lemma match_ci_loop_eq (a b : bytes) :
  length a = length b -> match_ci_loop a b = true <-> lower a = lower b.
Proof.
  revert b; induction a as [|x a IH]; intros [|y b] Hl; simpl in *; try lia; [done|].
  destruct (Z.eqb_spec (char_to_lower x) (char_to_lower y)) as [E|E].
  - rewrite IH by lia. unfold lower. simpl. split; congruence.
  - unfold lower. simpl. split; congruence.
Qed.

Lemma str8_match_ci_eq (a b : bytes) : str8_match_ci a b = true <-> lower a = lower b.
Proof.
  unfold str8_match_ci. destruct (Nat.eqb_spec (length a) (length b)) as [E|E]; simpl.
  - by apply match_ci_loop_eq.
  - split; [done|]. intros H. apply (f_equal length) in H.
    unfold lower in H. rewrite !length_fmap in H. done.
Qed.

Lemma str8_match_ci_false (a b : bytes) : str8_match_ci a b = false <-> lower a <> lower b.
Proof. rewrite <-not_true_iff_false, str8_match_ci_eq. done. Qed.

Lemma str8_match_ci_refl a : str8_match_ci a a = true.
Proof. by apply str8_match_ci_eq. Qed.

Lemma str8_match_ci_sym a b : str8_match_ci a b = str8_match_ci b a.
Proof.
  apply eq_true_iff_eq. rewrite !str8_match_ci_eq. split; congruence.
Qed.

Lemma str8_match_ci_length a b : str8_match_ci a b = true -> length a = length b.
Proof.
  intros H%str8_match_ci_eq. apply (f_equal length) in H.
  unfold lower in H. by rewrite !length_fmap in H.
Qed.

#[export] Hint Resolve str8_match_refl str8_match_ci_refl : holy.

Lemma char_to_lower_idem c : char_to_lower (char_to_lower c) = char_to_lower c.
Proof.
  unfold char_to_lower at 2 3. destruct (char_is_upper c) eqn:E.
  - unfold char_is_upper in E. bool_props. unfold wrap8.
    rewrite Z.mod_small by lia. unfold char_to_lower, char_is_upper. bsolve.
  - unfold char_to_lower. by rewrite E.
Qed.

Lemma char_to_lower_dot c : char_to_lower c = ch_dot <-> c = ch_dot.
Proof.
  split; [|by intros ->]. unfold char_to_lower, char_is_upper, wrap8. case_if; [|done].
  rewrite Z.mod_small by lia. lia.
Qed.

Lemma lower_idem s : lower (lower s) = lower s.
Proof.
  unfold lower. rewrite <-list_fmap_compose. apply list_fmap_ext.
  intros i x _. apply char_to_lower_idem.
Qed.

Lemma lower_length s : length (lower s) = length s.
Proof. apply length_fmap. Qed.

Lemma str8_starts_with_spec (s p : bytes) :
  str8_starts_with s p = true <-> exists r, s = p ++ r.
Proof.
  unfold str8_starts_with. rewrite andb_true_iff, Nat.leb_le, Z.eqb_eq. split.
  - intros [Hl H%MemoryCompare_eq]; [|lia..].
    rewrite (firstn_all p) in H. exists (drop (length p) s).
    rewrite <-H at 1. by rewrite take_drop.
  - intros [r ->]. rewrite length_app. split; [lia|].
    apply MemoryCompare_eq; [rewrite length_app; lia|lia|].
    by rewrite take_app_length, firstn_all.
Qed.

Lemma str8_ends_with_spec (s p : bytes) :
  str8_ends_with s p = true <-> exists r, s = r ++ p.
Proof.
  unfold str8_ends_with. rewrite andb_true_iff, Nat.leb_le, Z.eqb_eq. split.
  - intros [Hl H%MemoryCompare_eq]; [|rewrite ?length_drop; lia..].
    rewrite (firstn_all p), take_ge in H by (rewrite length_drop; lia).
    exists (take (length s - length p) s). rewrite <-H at 2. by rewrite take_drop.
  - intros [r ->]. rewrite length_app. split; [lia|].
    rewrite drop_app_length' by lia. by apply MemoryCompare_eq.
Qed.

(** ** Sub-views: the clamped forms are [take] and [drop] *)

Lemma str8_prefix_take s n : str8_prefix s n = take n s.
Proof.
  unfold str8_prefix. destruct (Nat.ltb_spec n (length s)); [done|].
  rewrite firstn_all, take_ge; [done|lia].
Qed.

Lemma str8_skip_drop s n : str8_skip s n = drop n s.
Proof.
  unfold str8_skip. destruct (Nat.ltb_spec (length s) n); [|done].
  rewrite drop_all, drop_ge; [done|lia].
Qed.

Lemma str8_substr_spec s lo hi :
  str8_substr s lo hi = take (hi - lo) (drop lo s).
Proof.
  unfold str8_substr.
  destruct (Nat.ltb_spec (length s) lo), (Nat.ltb_spec (length s) hi);
    repeat match goal with |- context [(?a <? ?b)%nat] => destruct (Nat.ltb_spec a b) end;
    try lia; rewrite ?drop_all, ?(drop_ge s lo) by lia; rewrite ?take_nil; try done.
  - rewrite !take_ge; rewrite ?length_drop; (done || lia).
  - f_equal. lia.
Qed.

Lemma str8_trim_left_suffix s : exists w,
  s = w ++ str8_trim_left s /\ Forall (fun c => ascii_is_space c = true) w.
Proof.
  induction s as [|c s [w [E F]]]; simpl; [by exists []|].
  destruct (ascii_is_space c) eqn:Ec.
  - exists (c :: w). simpl. rewrite <-E. auto.
  - by exists [].
Qed.

(** ** Searching *)

(** [occurs_at hay needle i]: [needle] is found in [hay] at offset [i]. *)
Definition occurs_at (hay needle : bytes) (i : nat) : Prop :=
  exists pre post, hay = pre ++ needle ++ post /\ length pre = i.

Lemma occurs_at_cons x hay needle i :
  occurs_at (x :: hay) needle (S i) <-> occurs_at hay needle i.
Proof.
  split.
  - intros (pre & post & E & Hl). destruct pre as [|y pre]; simpl in *; [lia|].
    exists pre, post. split; [naive_solver|lia].
  - intros (pre & post & -> & Hl). exists (x :: pre), post. simpl. split; [done|lia].
Qed.

Lemma occurs_at_0 hay needle :
  occurs_at hay needle 0 <->
  (length needle <= length hay)%nat /\ MemoryCompare hay needle (length needle) = 0.
Proof.
  split.
  - intros (pre & post & -> & Hl). destruct pre; [|simpl in *; lia].
    simpl. rewrite length_app. split; [lia|].
    apply MemoryCompare_eq; [rewrite length_app; lia|lia|].
    by rewrite take_app_length, firstn_all.
  - intros [Hl H%MemoryCompare_eq]; [|lia..].
    rewrite (firstn_all needle) in H. exists [], (drop (length needle) hay).
    simpl. split; [|done]. rewrite <-H at 1. by rewrite take_drop.
Qed.

Lemma occurs_at_bound hay needle i :
  occurs_at hay needle i -> (i + length needle <= length hay)%nat.
Proof. intros (pre & post & -> & <-). rewrite !length_app. lia. Qed.

(** The scan returns the first offset of an occurrence, or -1 when there is
    none. *)
Lemma find_loop_spec (hay needle : bytes) (i : Z) :
  needle <> [] ->
  (exists k, find_loop i hay needle = i + Z.of_nat k /\ occurs_at hay needle k /\
             forall j, (j < k)%nat -> ~ occurs_at hay needle j) \/
  (find_loop i hay needle = -1 /\ forall j, ~ occurs_at hay needle j).
Proof.
  intros Hn. revert i; induction hay as [|x hay IH]; intros i.
  - right. destruct needle as [|y needle]; [done|]. split; [done|].
    intros j Hj%occurs_at_bound. simpl in *. lia.
  - simpl. destruct (length needle <=? S (length hay))%nat eqn:El; bool_props.
    + destruct (MemoryCompare (x :: hay) needle (length needle) =? 0) eqn:Ec; bool_props.
      * left. exists O. split; [lia|]. split; [|lia].
        apply occurs_at_0. simpl. auto.
      * assert (Hno : ~ occurs_at (x :: hay) needle 0).
        { rewrite occurs_at_0. simpl. tauto. }
        destruct (IH (i + 1)) as [(k & E & Hk & Hmin)|[E Hnone]].
        -- left. exists (S k). split; [lia|]. split; [by apply occurs_at_cons|].
           intros [|j] Hj; [done|]. rewrite occurs_at_cons. apply Hmin. lia.
        -- right. split; [done|]. intros [|j]; [done|]. rewrite occurs_at_cons. auto.
    + right. split; [done|]. intros j Hj%occurs_at_bound. simpl in *. lia.
Qed.

Lemma str8_find_cases (hay needle : bytes) :
  (exists k, str8_find hay needle = Z.of_nat k /\ occurs_at hay needle k /\
             forall j, (j < k)%nat -> ~ occurs_at hay needle j) \/
  (str8_find hay needle = -1 /\ forall j, ~ occurs_at hay needle j).
Proof.
  unfold str8_find. destruct (Nat.eqb_spec (length needle) 0) as [E0|E0].
  - left. exists O. split; [done|]. split; [|lia].
    apply occurs_at_0. destruct needle; simpl in *; [split; [lia|done]|lia].
  - destruct (Nat.ltb_spec (length hay) (length needle)).
    + right. split; [done|]. intros j Hj%occurs_at_bound. lia.
    + destruct (find_loop_spec hay needle 0) as [(k & ? & ?)|]; auto.
      * by intros ->.
      * left. exists k. split; [lia|done].
Qed.

(** ** Splitting *)

Lemma scan_until_le s d : (scan_until s d <= length s)%nat.
Proof. induction s as [|x s IH]; simpl; [lia|]. destruct (x =? d); lia. Qed.

Lemma scan_until_notin s d : d ∉ take (scan_until s d) s.
Proof.
  induction s as [|x s IH]; simpl; [by apply not_elem_of_nil|].
  destruct (Z.eqb_spec x d); [by apply not_elem_of_nil|].
  apply not_elem_of_cons. auto.
Qed.

Lemma scan_until_hit s d :
  (scan_until s d < length s)%nat ->
  s = take (scan_until s d) s ++ d :: drop (S (scan_until s d)) s.
Proof.
  induction s as [|x s IH]; simpl; [lia|].
  destruct (Z.eqb_spec x d) as [->|]; [done|].
  intros Hl. simpl. f_equal. apply IH. lia.
Qed.

Lemma scan_until_app_notin a b d :
  d ∉ a -> scan_until (a ++ b) d = (length a + scan_until b d)%nat.
Proof.
  induction a as [|x a IH]; simpl; [done|].
  intros [Hx Ha]%not_elem_of_cons. destruct (Z.eqb_spec x d); [by subst|].
  by rewrite IH.
Qed.

(** What [str8_chop_by_delim] promises: the head holds no delimiter, and the
    string is the head, the delimiter and the rest, or the head alone. *)
Lemma chop_by_delim_spec s d h r :
  str8_chop_by_delim s d = (h, r) ->
  (d ∉ h) /\ ((s = h ++ d :: r) \/ (s = h /\ r = [])).
Proof.
  unfold str8_chop_by_delim. intros [= <- <-]. split; [apply scan_until_notin|].
  destruct (Nat.ltb_spec (scan_until s d) (length s)) as [Hl|Hl].
  - left. by apply scan_until_hit.
  - right. pose proof (scan_until_le s d). split.
    + rewrite take_ge; [done|lia].
    + apply drop_ge. lia.
Qed.

Lemma chop_by_delim_app h d r :
  d ∉ h -> str8_chop_by_delim (h ++ d :: r) d = (h, r).
Proof.
  intros Hd. unfold str8_chop_by_delim.
  rewrite scan_until_app_notin by done. simpl. rewrite Z.eqb_refl, Nat.add_0_r.
  rewrite length_app. simpl. destruct (Nat.ltb_spec (length h) (length h + S (length r))); [|lia].
  rewrite take_app_length. f_equal.
  change (d :: r) with ([d] ++ r). rewrite app_assoc.
  apply drop_app_length'. rewrite length_app. simpl. lia.
Qed.

Lemma chop_by_delim_none h d : d ∉ h -> str8_chop_by_delim h d = (h, []).
Proof.
  intros Hd. unfold str8_chop_by_delim.
  assert (scan_until h d = length h) as ->.
  { rewrite <-(app_nil_r h) at 1. rewrite scan_until_app_notin by done. simpl. lia. }
  rewrite Nat.ltb_irrefl, firstn_all, drop_all. done.
Qed.

Lemma chop_by_delim_shorter s d h r :
  str8_chop_by_delim s d = (h, r) -> s <> [] -> (length r < length s)%nat.
Proof.
  intros H%chop_by_delim_spec Hs. destruct H as [_ [->|[-> ->]]].
  - rewrite length_app. simpl. lia.
  - destruct h; simpl; [done|lia].
Qed.

Lemma chop_by_delim_bytes_ok s d h r :
  str8_chop_by_delim s d = (h, r) -> bytes_ok s -> bytes_ok h /\ bytes_ok r.
Proof.
  unfold str8_chop_by_delim. intros [= <- <-] H. split; eauto with holy.
Qed.

Lemma str8_index_of_spec s c :
  match str8_index_of s c with
  | Some i => (i < length s)%nat /\ s = take i s ++ c :: drop (S i) s /\ (c ∉ take i s)
  | None => c ∉ s
  end.
Proof.
  induction s as [|x s IH]; simpl; [by apply not_elem_of_nil|].
  destruct (Z.eqb_spec x c) as [->|Hx].
  - simpl. split; [lia|]. split; [done|]. apply not_elem_of_nil.
  - destruct (str8_index_of s c) as [i|].
    + destruct IH as (Hi & E & Hn). simpl. split; [lia|]. split.
      * by rewrite <-E.
      * apply not_elem_of_cons. auto.
    + apply not_elem_of_cons. auto.
Qed.

Lemma str8_index_of_app a c b : c ∉ a -> str8_index_of (a ++ c :: b) c = Some (length a).
Proof.
  induction a as [|x a IH]; simpl; intros Hn; [by rewrite Z.eqb_refl|].
  apply not_elem_of_cons in Hn as [Hx Hn]. destruct (Z.eqb_spec x c); [congruence|]. by rewrite IH.
Qed.

Lemma str8_index_of_none a c : c ∉ a -> str8_index_of a c = None.
Proof.
  intros H. pose proof (str8_index_of_spec a c) as Hs. destruct (str8_index_of a c) as [i|]; [|done].
  destruct Hs as (_ & E & _). destruct H. rewrite E. apply elem_of_app. right. apply elem_of_cons. by left.
Qed.

Lemma str8_rindex_of_spec s c :
  match str8_rindex_of s c with
  | Some i => (i < length s)%nat /\ s = take i s ++ c :: drop (S i) s /\ (c ∉ drop (S i) s)
  | None => c ∉ s
  end.
Proof.
  induction s as [|x s IH]; simpl; [by apply not_elem_of_nil|].
  destruct (str8_rindex_of s c) as [i|].
  - destruct IH as (Hi & E & Hn). simpl. split; [lia|]. split; [|done]. by rewrite <-E.
  - destruct (Z.eqb_spec x c) as [->|Hx].
    + simpl. split; [lia|]. by split.
    + apply not_elem_of_cons. auto.
Qed.

Lemma str8_rindex_of_app a c b : c ∉ b -> str8_rindex_of (a ++ c :: b) c = Some (length a).
Proof.
  intros Hb. assert (Hn : str8_rindex_of b c = None).
  { pose proof (str8_rindex_of_spec b c) as H. destruct (str8_rindex_of b c) as [i|]; [|done].
    destruct H as (_ & E & _). destruct Hb. rewrite E. set_solver. }
  induction a as [|x a IH]; simpl; [by rewrite Hn, Z.eqb_refl|]. by rewrite IH.
Qed.

Lemma str8_rindex_of_none a c : c ∉ a -> str8_rindex_of a c = None.
Proof.
  intros H. pose proof (str8_rindex_of_spec a c) as Hs.
  destruct (str8_rindex_of a c) as [i|]; [|done].
  destruct Hs as (_ & E & _). destruct H. rewrite E. set_solver.
Qed.

Lemma scan_until_none s c : c ∉ s -> scan_until s c = length s.
Proof.
  intros H. rewrite <-(app_nil_r s) at 1. rewrite scan_until_app_notin by done. simpl. lia.
Qed.

Lemma pct_s_id s : 0 ∉ s -> pct_s s = s.
Proof. intros H. unfold pct_s. by rewrite scan_until_none, firstn_all. Qed.

(** The first occurrence of a separator that starts with a byte the prefix
    does not contain. *)
Lemma str8_find_first a c d r :
  c ∉ a -> str8_find (a ++ (c :: d) ++ r) (c :: d) = Z.of_nat (length a).
Proof.
  intros Ha. assert (Hocc : occurs_at (a ++ (c :: d) ++ r) (c :: d) (length a)).
  { unfold occurs_at. exists a, r. done. }
  destruct (str8_find_cases (a ++ (c :: d) ++ r) (c :: d)) as [(k & -> & Hk & Hmin)|[_ Hno]]; [|by destruct (Hno (length a))].
  f_equal. destruct (lt_eq_lt_dec k (length a)) as [[Hlt|]|Hgt]; [|done|by destruct (Hmin _ Hgt)].
  destruct Hk as (x & y & E & El). exfalso. apply Ha.
  assert (Hc : (a ++ (c :: d) ++ r) !! k = Some c) by (rewrite E, <-El; by apply list_lookup_middle).
  rewrite lookup_app_l in Hc by done. by apply list_elem_of_lookup_2 in Hc.
Qed.

(** A string without a terminator inside: what a [char *] argument holds. *)
Definition c_string (s : bytes) : Prop := 0 ∉ s.
Lemma cstring_id s : c_string s -> str8_cstring s = s.
Proof. apply pct_s_id. Qed.
Lemma cstring_terminated s r : c_string s -> str8_cstring (s ++ 0 :: r) = s.
Proof.
  intros H. unfold str8_cstring. rewrite scan_until_app_notin by done. simpl. rewrite Nat.add_0_r. apply take_app_length.
Qed.

Lemma strings_push l s : strings (str8_list_push l s) = strings l ++ [s].
Proof. done. Qed.

Lemma split_loop_step fuel l s d tok rem :
  s <> [] -> str8_chop_by_delim s d = (tok, rem) ->
  split_loop (S fuel) l s d =
  split_loop fuel (if (0 <? length tok)%nat then str8_list_push l tok else l) rem d.
Proof.
  intros Hs E. destruct s as [|x s]; [done|].
  change (split_loop (S fuel) l (x :: s) d) with
    (let (tok, rem') := str8_chop_by_delim (x :: s) d in
     split_loop fuel (if (0 <? length tok)%nat then str8_list_push l tok else l) rem' d).
  by rewrite E.
Qed.

(** The tokens [str8_split] adds: [P] collects what holds of each of them, and
    concatenating them gives the input without its delimiters. *)
Lemma split_loop_spec fuel l s d :
  (length s <= fuel)%nat ->
  exists toks, strings (split_loop fuel l s d) = strings l ++ toks /\
    Forall (fun t => t <> [] /\ d ∉ t) toks /\
    concat toks = filter (fun c => c <> d) s.
Proof.
  revert l s; induction fuel as [|fuel IH]; intros l s Hl.
  - destruct s; simpl in *; [|lia]. exists []. by rewrite app_nil_r.
  - destruct s as [|x s']; [exists []; by rewrite app_nil_r|].
    remember (x :: s') as s eqn:Es.
    destruct (str8_chop_by_delim s d) as [tok rem] eqn:Ec.
    rewrite (split_loop_step _ _ _ _ tok rem) by (subst; done).
    pose proof (chop_by_delim_shorter _ _ _ _ Ec ltac:(by subst)) as Hsh.
    destruct (IH (if (0 <? length tok)%nat then str8_list_push l tok else l) rem ltac:(lia))
      as (toks & E1 & E2 & E3).
    rewrite E1. apply chop_by_delim_spec in Ec as [Hn Hs].
    assert (Hf : filter (fun c => c <> d) tok = tok).
    { apply filter_all. apply list.Forall_forall. intros c Hc ->. contradiction. }
    assert (Hcat : filter (fun c => c <> d) s = tok ++ concat toks).
    { rewrite E3. destruct Hs as [->|[-> ->]].
      - rewrite list.filter_app, Hf, filter_cons_False by naive_solver. done.
      - by rewrite Hf, app_nil_r. }
    destruct tok as [|c tok]; simpl.
    + exists toks. split; [done|]. split; [done|]. by rewrite Hcat.
    + exists ((c :: tok) :: toks). rewrite <-app_assoc. split; [done|].
      split; [constructor; [split; done|done]|]. by rewrite Hcat.
Qed.

(** ** Numbers *)

(** The value of the leading decimal digits of [s], without a bound. *)
Fixpoint leading_value (acc : Z) (s : bytes) : Z :=
  match s with
  | [] => acc
  | c :: s' => if char_is_digit c then leading_value (acc * 10 + (c - ch_0)) s' else acc
  end.

Lemma leading_value_ge acc s : 0 <= acc -> acc <= leading_value acc s.
Proof.
  revert acc; induction s as [|c s IH]; intros acc H; simpl; [lia|].
  destruct (char_is_digit c) eqn:E; [|lia]. unfold char_is_digit in E. bool_props.
  etransitivity; [|apply IH; lia]. lia.
Qed.

(** The guard [r > (MAX - d) / 10] is exactly the overflow of [r * 10 + d]. *)
Lemma u64_guard r d :
  0 <= d <= 9 -> (U64_MAX - d) / 10 < r <-> U64_MAX < r * 10 + d.
Proof. unfold U64_MAX. intros Hd. Z.to_euclidean_division_equations. lia. Qed.

Lemma to_u64_loop_spec r s :
  0 <= r <= U64_MAX -> to_u64_loop r s = Z.min U64_MAX (leading_value r s).
Proof.
  revert r; induction s as [|c s IH]; intros r Hr; simpl; [lia|].
  unfold char_is_digit.
  destruct ((c <? 48) || (57 <? c)) eqn:E.
  - destruct ((48 <=? c) && (c <=? 57)) eqn:E'; [|lia].
    apply orb_true_iff in E. bool_props. lia.
  - bool_props. rewrite (proj2 (Z.leb_le 48 c)), (proj2 (Z.leb_le c 57)) by lia. simpl.
    pose proof (u64_guard r (c - 48) ltac:(lia)) as Hg.
    destruct ((U64_MAX - (c - 48)) / 10 <? r) eqn:Eg; bool_props.
    + apply Hg in Eg.
      pose proof (leading_value_ge (r * 10 + (c - 48)) s ltac:(lia)). lia.
    + assert (r * 10 + (c - 48) <= U64_MAX) by lia.
      unfold wrap64. unfold U64_MAX in *. rewrite Z.mod_small by lia.
      apply IH. lia.
Qed.

Lemma chop_u64_loop_fst r s :
  0 <= r <= U64_MAX -> fst (chop_u64_loop r s) = Z.min U64_MAX (leading_value r s).
Proof.
  revert r; induction s as [|c s IH]; intros r Hr; simpl; [lia|].
  unfold char_is_digit. destruct ((48 <=? c) && (c <=? 57)) eqn:E; [|simpl; lia].
  bool_props. pose proof (u64_guard r (c - 48) ltac:(lia)) as Hg.
  destruct ((U64_MAX - (c - 48)) / 10 <? r) eqn:Eg; bool_props.
  - apply Hg in Eg. rewrite IH by lia.
    pose proof (leading_value_ge (r * 10 + (c - 48)) s ltac:(lia)).
    pose proof (leading_value_ge U64_MAX s ltac:(unfold U64_MAX; lia)). lia.
  - unfold wrap64. rewrite Z.mod_small by (unfold U64_MAX in *; lia).
    apply IH. lia.
Qed.

Lemma chop_u64_loop_snd r s :
  exists ds, s = ds ++ snd (chop_u64_loop r s) /\
    Forall (fun c => char_is_digit c = true) ds /\
    match snd (chop_u64_loop r s) with [] => True | c :: _ => char_is_digit c = false end.
Proof.
  revert r; induction s as [|c s IH]; intros r; simpl; [by exists []|].
  destruct ((48 <=? c) && (c <=? 57)) eqn:E.
  - destruct (IH (if (U64_MAX - (c - 48)) / 10 <? r then U64_MAX
                  else wrap64 (r * 10 + (c - 48)))) as (ds & E1 & E2 & E3).
    exists (c :: ds). simpl. rewrite <-E1. auto.
  - exists []. auto.
Qed.

(** Value of a numeral in a radix, most significant digit first. *)
Definition hex_val (c : Z) : Z :=
  if char_is_digit c then c - ch_0 else if char_is_lower c then c - ch_a + 10 else 0.
Definition radix_value (r : Z) (s : bytes) : Z :=
  fold_left (fun acc c => acc * r + hex_val c) s 0.

Lemma hex_val_digit_lower v : 0 <= v < 16 -> hex_val (hex_digit_lower v) = v.
Proof.
  intros H. apply Z.eqb_eq.
  apply (range_check (fun v => hex_val (hex_digit_lower v) =? v) 16); [done|lia].
Qed.

Lemma hex_digit_lower_land v : 0 <= v -> hex_digit_lower v = hex_digit_lower (v mod 16).
Proof.
  intros H. unfold hex_digit_lower. change 15 with (Z.ones 4).
  rewrite !Z.land_ones by lia. by rewrite Zmod_mod.
Qed.

Fixpoint lsb_value (r : Z) (ds : bytes) : Z :=
  match ds with [] => 0 | c :: ds' => hex_val c + r * lsb_value r ds' end.

Lemma radix_value_rev r ds : radix_value r (rev ds) = lsb_value r ds.
Proof.
  unfold radix_value. rewrite <-fold_left_rev_right, rev_involutive.
  induction ds as [|c ds IH]; simpl; [done|]. rewrite IH. lia.
Qed.

Lemma lsb_value_app_zeros r ds n : lsb_value r (ds ++ replicate n ch_0) = lsb_value r ds.
Proof.
  induction ds as [|c ds IH]; simpl; [|by rewrite IH].
  induction n as [|n IH]; simpl; [done|]. rewrite IH. change (hex_val 48) with 0. lia.
Qed.

Lemma from_u64_digits_value room v r :
  2 <= r <= 16 -> 0 <= v < r ^ Z.of_nat room -> lsb_value r (from_u64_digits room v r) = v.
Proof.
  intros Hr. revert v; induction room as [|room IH]; intros v Hv.
  - rewrite Z.pow_0_r in Hv. simpl. lia.
  - rewrite Nat2Z.inj_succ, Z.pow_succ_r in Hv by lia.
    pose proof (Z.mod_pos_bound v r ltac:(lia)) as Hm.
    pose proof (Z.div_mod v r ltac:(lia)) as Hd.
    cbn [from_u64_digits lsb_value]. unfold wrap8. rewrite (Z.mod_small (v mod r)) by lia.
    rewrite hex_val_digit_lower by lia.
    destruct (Z.eqb_spec (v / r) 0) as [E|E]; simpl; [lia|].
    rewrite IH; [lia|]. split; [apply Z.div_pos; lia|].
    apply Z.div_lt_upper_bound; lia.
Qed.

Lemma leading_value_fold acc s :
  Forall (fun c => char_is_digit c = true) s ->
  leading_value acc s = fold_left (fun acc c => acc * 10 + hex_val c) s acc.
Proof.
  intros H. revert acc; induction H as [|c s Hc _ IH]; intros acc; simpl; [done|].
  rewrite Hc, IH. unfold hex_val. by rewrite Hc.
Qed.

Lemma hex_digit_is_digit v : 0 <= v < 10 -> char_is_digit (hex_digit_lower v) = true.
Proof. apply (range_check (fun v => char_is_digit (hex_digit_lower v)) 10). reflexivity. Qed.

Lemma from_u64_digits_digit room v :
  Forall (fun c => char_is_digit c = true) (from_u64_digits room v 10).
Proof.
  revert v; induction room as [|room IH]; intros v; cbn [from_u64_digits]; [constructor|].
  pose proof (Z.mod_pos_bound v 10 ltac:(lia)). unfold wrap8. rewrite Z.mod_small by lia.
  constructor; [by apply hex_digit_is_digit|]. destruct (v / 10 =? 0); [constructor|apply IH].
Qed.

Lemma from_u64_digits_nonempty room v r : from_u64_digits (S room) v r <> [].
Proof. done. Qed.

(** Decimal numerals: digits only, and the value is read back. *)
Lemma str8_from_u64_decimal v md :
  0 <= v < 2 ^ 64 ->
  Forall (fun c => char_is_digit c = true) (str8_from_u64 v 10 md) /\
  leading_value 0 (str8_from_u64 v 10 md) = v /\ str8_from_u64 v 10 md <> [].
Proof.
  intros Hv. assert (Hd : Forall (fun c => char_is_digit c = true) (str8_from_u64 v 10 md)).
  { unfold str8_from_u64. change ((10 <? 2) || (16 <? 10)) with false. cbv iota. apply Forall_rev, Forall_app. split.
    - apply from_u64_digits_digit.
    - by apply Forall_replicate. }
  split; [done|]. rewrite leading_value_fold by done.
  change (fold_left _ _ 0) with (radix_value 10 (str8_from_u64 v 10 md)).
  split.
  - unfold str8_from_u64. change ((10 <? 2) || (16 <? 10)) with false. cbv iota. rewrite radix_value_rev, lsb_value_app_zeros.
    apply from_u64_digits_value; [lia|]. change (Z.of_nat 64) with 64. lia.
  - unfold str8_from_u64. intros H%(f_equal length).
    rewrite length_rev, length_app in H.
    pose proof (from_u64_digits_nonempty 63 v (if (10 <? 2) || (16 <? 10) then 10 else 10)) as Hne.
    destruct (from_u64_digits 64 _ _); [done|]. simpl in H. lia.
Qed.

(** ** Joining *)

Fixpoint intercalate (sep : bytes) (ss : list bytes) : bytes :=
  match ss with
  | [] => []
  | [s] => s
  | s :: ss' => s ++ sep ++ intercalate sep ss'
  end.

(** The list a sequence of [str8_list_push] calls builds. *)
Definition str8_list_of (ss : list bytes) : String8List :=
  fold_left str8_list_push ss str8_list_empty.
Definition sizes (ss : list bytes) : Z := zlen (concat ss).

Lemma str8_list_of_spec ss l :
  0 <= node_count l -> 0 <= total_size l ->
  node_count l + Z.of_nat (length ss) < 2 ^ 64 -> total_size l + sizes ss < 2 ^ 64 ->
  fold_left str8_list_push ss l =
    mkList (strings l ++ ss) (node_count l + Z.of_nat (length ss)) (total_size l + sizes ss).
Proof.
  unfold sizes. revert l; induction ss as [|s ss IH]; intros l Hn Ht Hnb Htb.
  - simpl. unfold zlen. simpl. rewrite app_nil_r, !Z.add_0_r. by destruct l.
  - cbn [fold_left concat length] in *. rewrite Nat2Z.inj_succ, zlen_app in *.
    pose proof (zlen_nonneg s). pose proof (zlen_nonneg (concat ss)).
    unfold str8_list_push at 2. unfold wrap64. rewrite !Z.mod_small by lia.
    rewrite IH; cbn [strings node_count total_size]; [|lia..].
    rewrite <-app_assoc. f_equal; lia.
Qed.

Lemma buf_write_fill (w src : bytes) (m off : nat) :
  off = length w -> (length src <= m)%nat ->
  buf_write ((Some <$> w) ++ replicate m None) off src =
  (Some <$> (w ++ src)) ++ replicate (m - length src) None.
Proof.
  intros -> Hm. unfold buf_write.
  rewrite take_app_length' by (by rewrite length_fmap).
  rewrite <-(length_fmap Some w), drop_app_add, drop_replicate.
  by rewrite fmap_app, <-app_assoc.
Qed.

(** The loop writes consecutive runs: from a non-empty prefix [w] on, a
    separator precedes every string. *)
Lemma join_loop_spec w m nodes sep :
  w <> [] -> (length (concat (map (app sep) nodes)) <= m)%nat ->
  join_loop ((Some <$> w) ++ replicate m None) (length w) nodes sep =
  (Some <$> (w ++ concat (map (app sep) nodes))) ++
  replicate (m - length (concat (map (app sep) nodes))) None.
Proof.
  revert w m; induction nodes as [|s nodes IH]; intros w m Hw Hm; cbn [map concat] in *.
  - simpl. by rewrite app_nil_r, Nat.sub_0_r.
  - rewrite !length_app in *. cbn [join_loop].
    replace (negb (length w =? 0)%nat) with true by (destruct w; done). simpl.
    assert (Hstep : forall v k, v <> [] -> (length s + length (concat (map (app sep) nodes)) <= k)%nat ->
      join_loop (buf_write ((Some <$> v) ++ replicate k None) (length v) s)
        (length v + length s) nodes sep =
      (Some <$> (v ++ s ++ concat (map (app sep) nodes))) ++
      replicate (k - (length s + length (concat (map (app sep) nodes)))) None).
    { intros v k Hv Hk. rewrite buf_write_fill by lia.
      rewrite <-length_app, IH; [|destruct v; done|lia].
      rewrite <-app_assoc. do 2 f_equal. lia. }
    destruct (Nat.ltb_spec 0 (length sep)) as [Hs|Hs].
    + rewrite buf_write_fill by lia. rewrite <-length_app, Hstep; [|destruct w; done|lia].
      rewrite <-!app_assoc. do 2 f_equal. lia.
    + destruct sep; simpl in Hs; [|lia]. rewrite Hstep by (simpl in *; done || lia).
      done.
Qed.

Lemma intercalate_cons sep s ss :
  intercalate sep (s :: ss) = s ++ concat (map (app sep) ss).
Proof.
  revert s; induction ss as [|t ss IH]; intros s; cbn [map concat].
  - simpl. by rewrite app_nil_r.
  - change (intercalate sep (s :: t :: ss)) with (s ++ sep ++ intercalate sep (t :: ss)).
    rewrite IH. by rewrite <-app_assoc.
Qed.

Lemma concat_sep_length sep (ss : list bytes) :
  zlen (concat (map (app sep) ss)) = sizes ss + zlen sep * Z.of_nat (length ss).
Proof.
  unfold sizes. induction ss as [|s ss IH]; cbn [map concat length].
  - unfold zlen. simpl. lia.
  - rewrite !zlen_app, IH. lia.
Qed.

(** Leading empty strings leave [off] at 0, so they write nothing. *)
Lemma join_loop_leading d (n : nat) (nodes : list bytes) sep :
  join_loop d 0 (replicate n [] ++ nodes) sep = join_loop d 0 nodes sep.
Proof.
  induction n as [|n IH]; [done|]. simpl.
  unfold buf_write. simpl. exact IH.
Qed.

Lemma sizes_leading (n : nat) ss : sizes (replicate n [] ++ ss) = sizes ss.
Proof. induction n as [|n IH]; [done|]. exact IH. Qed.

Lemma intercalate_zlen sep s ss :
  zlen (intercalate sep (s :: ss)) = sizes (s :: ss) + zlen sep * Z.of_nat (length ss).
Proof.
  rewrite intercalate_cons, zlen_app, concat_sep_length. unfold sizes.
  cbn [concat]. rewrite zlen_app. lia.
Qed.

Lemma join_loop_all (k rest : nat) s ss sep :
  s <> [] ->
  join_loop (replicate (length (intercalate sep (s :: ss)) + rest) None) 0
    (replicate k [] ++ s :: ss) sep =
  (Some <$> intercalate sep (s :: ss)) ++ replicate rest None.
Proof.
  intros Hs. rewrite join_loop_leading, intercalate_cons, length_app.
  cbn [join_loop]. simpl negb. cbn [andb].
  set (n := length (concat (map (app sep) ss))).
  change (replicate (length s + n + rest) None)
    with ((Some <$> []) ++ replicate (length s + n + rest) (@None Z)).
  rewrite buf_write_fill by (simpl; lia). cbn [app Nat.add length].
  rewrite join_loop_spec by (done || lia). fold n.
  do 2 f_equal. lia.
Qed.

(** ** Properties *)

(** [str8_find] returns the offset of the first occurrence of [needle] in
    [hay] (0 for an empty needle), and -1 exactly when there is none. *)
Theorem str8_find_spec (hay needle : bytes) (r : Z) :
  str8_find hay needle = r <->
  (r = -1 /\ forall j, ~ occurs_at hay needle j) \/
  (exists k, r = Z.of_nat k /\ occurs_at hay needle k /\
             forall j, (j < k)%nat -> ~ occurs_at hay needle j).
Proof.
  destruct (str8_find_cases hay needle) as [(k & E & Hk & Hmin)|[E Hnone]]; rewrite E; split.
  - intros <-. right. eauto.
  - intros [[-> Hno]|(j & -> & Hj & Hjm)]; [by destruct (Hno k)|].
    destruct (Nat.lt_trichotomy j k) as [Hl|[->|Hl]]; [|done|].
    + by destruct (Hmin j).
    + by destruct (Hjm k).
  - intros <-. by left.
  - intros [[-> _]|(j & -> & Hj & _)]; [done|]. by destruct (Hnone j).
Qed.

(** Splitting on a delimiter: every token is non-empty and holds no
    delimiter, and the tokens in order are the input with its delimiters
    removed; nothing is lost or reordered. *)
Theorem str8_split_spec (s : bytes) (d : Z) :
  Forall (fun t => t <> [] /\ (d ∉ t)) (strings (str8_split s d)) /\
  concat (strings (str8_split s d)) = filter (fun c => c <> d) s.
Proof.
  destruct (split_loop_spec (length s) str8_list_empty s d) as (toks & E & H1 & H2); [lia|].
  unfold str8_split. rewrite E. by split.
Qed.

(** Decimal parsing saturates and never wraps: both [str8_to_u64] and
    [str8_chop_u64] return the mathematical value of the leading digits
    clamped to 2^64 - 1, and [str8_chop_u64] stops at the first non-digit. *)
Theorem u64_parse_saturates (s : bytes) :
  str8_to_u64 s = Z.min U64_MAX (leading_value 0 s) /\
  fst (str8_chop_u64 s) = str8_to_u64 s /\
  exists ds, s = ds ++ snd (str8_chop_u64 s) /\
    Forall (fun c => char_is_digit c = true) ds /\
    match snd (str8_chop_u64 s) with [] => True | c :: _ => char_is_digit c = false end.
Proof.
  unfold str8_to_u64, str8_chop_u64.
  rewrite chop_u64_loop_fst, to_u64_loop_spec by (unfold U64_MAX; lia).
  split; [done|]. split; [done|]. apply chop_u64_loop_snd.
Qed.

(** Formatting loses nothing: for every 64-bit value and every radix the
    function accepts, the digits written (at most 64, so the buffer never
    truncates) read back as the value, whatever the zero padding. *)
Theorem str8_from_u64_value (v r : Z) (min_digits : nat) :
  u64_ok v -> 2 <= r <= 16 ->
  radix_value r (str8_from_u64 v r min_digits) = v.
Proof.
  unfold u64_ok, U64_MAX. intros Hv Hr. unfold str8_from_u64.
  rewrite (proj2 (Z.ltb_ge r 2)), (proj2 (Z.ltb_ge 16 r)) by lia. cbn [orb].
  rewrite radix_value_rev, lsb_value_app_zeros. apply from_u64_digits_value; [done|].
  split; [lia|]. apply Z.lt_le_trans with (2 ^ 64); [lia|].
  change (Z.of_nat 64) with 64. apply Z.pow_le_mono_l. lia.
Qed.

Lemma str8_from_u64_value_witness :
  u64_ok U64_MAX /\ radix_value 2 (str8_from_u64 U64_MAX 2 0) = U64_MAX.
Proof.
  split; [unfold u64_ok, U64_MAX; lia|].
  apply (str8_from_u64_value U64_MAX 2 0); [unfold u64_ok, U64_MAX; lia|lia].
Defined.

(** The contents of a join, for any number [k] of empty strings in front of
    the first non-empty one. With [k = 0] the result is fully written: the
    strings with the separator between them. Each leading empty string adds
    the size of one separator that is never written, so the end of the result
    is uninitialised memory. *)
Theorem str8_list_join_spec (k : nat) (s : bytes) (ss : list bytes) (sep : bytes) :
  s <> [] ->
  Z.of_nat (k + S (length ss)) < 2 ^ 64 ->
  sizes (s :: ss) + zlen sep * Z.of_nat (k + length ss) < 2 ^ 64 ->
  str8_list_join (str8_list_of (replicate k [] ++ s :: ss)) sep =
  (Some <$> intercalate sep (s :: ss)) ++ replicate (k * length sep) None.
Proof.
  intros Hs Hn Ht. pose proof (zlen_nonneg sep) as Hsep.
  assert (Hsz : 0 <= sizes (s :: ss)) by apply zlen_nonneg.
  assert (Hb : sizes (replicate k [] ++ s :: ss) < 2 ^ 64) by (rewrite sizes_leading; nia).
  unfold str8_list_of. rewrite str8_list_of_spec; simpl node_count; simpl total_size;
    [|try lia..]; [|rewrite ?length_app, ?length_replicate; simpl; lia].
  unfold str8_list_join. cbn [strings node_count total_size app str8_list_empty].
  rewrite sizes_leading, !length_app, !length_replicate. cbn [length].
  assert (Hst : (if 1 <? 0 + Z.of_nat (k + S (length ss))
                 then zlen sep * (0 + Z.of_nat (k + S (length ss)) - 1) else 0) =
                zlen sep * Z.of_nat (k + length ss)).
  { destruct (Z.ltb_spec 1 (0 + Z.of_nat (k + S (length ss)))); [f_equal; lia|].
    replace (k + length ss)%nat with O by lia. lia. }
  rewrite Hst. unfold wrap64. rewrite Z.mod_small by nia.
  set (W := intercalate sep (s :: ss)).
  replace (Z.to_nat (0 + sizes (s :: ss) + zlen sep * Z.of_nat (k + length ss)))
    with (length W + k * length sep)%nat.
  2:{ pose proof (intercalate_zlen sep s ss) as E. fold W in E. unfold zlen in *. nia. }
  pose proof (join_loop_all k (k * length sep + 1) s ss sep Hs) as HJ. fold W in HJ.
  rewrite <-Nat.add_assoc, HJ.
  unfold buf_write. rewrite take_app_le.
  2:{ rewrite length_take, length_app, length_fmap, length_replicate. lia. }
  rewrite take_take, Nat.min_id, take_app_ge by (rewrite length_fmap; lia).
  rewrite length_fmap, take_replicate. do 2 f_equal. lia.
Qed.

Lemma str8_list_join_spec_witness :
  (str8_list_join (str8_list_of [lit "1301"; lit ""; lit "1303"]) (lit ",") =
   (Some <$> lit "1301,,1303") ++ []) /\
  (str8_list_join (str8_list_of [lit ""; lit "1301"]) (lit ",") =
   (Some <$> lit "1301") ++ [None]).
Proof.
  split.
  - apply (str8_list_join_spec 0 (lit "1301") [lit ""; lit "1303"] (lit ",")); done.
  - apply (str8_list_join_spec 1 (lit "1301") [] (lit ",")); done.
Defined.
