(* ===== verification/Base64.v ===== *)
(** * base/base64: RFC 4648 base64, standard and URL-safe

    [base64_encode] walks the input three bytes at a time and
    [base64_decode] four characters at a time, as the loops of the code do; a
    [return str8_zero()] inside the decoder's loop is [None] here, and the
    function returns the empty string for it. *)
From S2P Require Import Prelude String8.

Definition k_b64_enc : bytes :=
  Eval vm_compute in lit "ABCDEFGHIJKLMNOPQRSTUVWXYZabcdefghijklmnopqrstuvwxyz0123456789+/".
Definition b64_char (i : Z) : Z := nth (Z.to_nat i) k_b64_enc 0.

Fixpoint encode_loop (s : bytes) : bytes :=
  match s with
  | x :: y :: z :: rest =>
      let n := Z.lor (Z.lor (Z.shiftl x 16) (Z.shiftl y 8)) z in
      b64_char (Z.land (Z.shiftr n 18) 63) :: b64_char (Z.land (Z.shiftr n 12) 63) ::
      b64_char (Z.land (Z.shiftr n 6) 63) :: b64_char (Z.land n 63) :: encode_loop rest
  | [x] =>
      let n := Z.shiftl x 16 in
      [b64_char (Z.land (Z.shiftr n 18) 63); b64_char (Z.land (Z.shiftr n 12) 63);
       ch_eq; ch_eq]
  | [x; y] =>
      let n := Z.lor (Z.shiftl x 16) (Z.shiftl y 8) in
      [b64_char (Z.land (Z.shiftr n 18) 63); b64_char (Z.land (Z.shiftr n 12) 63);
       b64_char (Z.land (Z.shiftr n 6) 63); ch_eq]
  | [] => []
  end.
Definition base64_encode (s : bytes) : bytes :=
  if (length s =? 0)%nat then [] else encode_loop s.

(** 0..63 data, 0xfe padding, 0xff invalid. *)
Definition b64_rev (c : Z) : Z :=
  if (ch_A <=? c) && (c <=? ch_Z) then wrap8 (c - ch_A)
  else if (ch_a <=? c) && (c <=? ch_z) then wrap8 (c - ch_a + 26)
  else if (ch_0 <=? c) && (c <=? ch_9) then wrap8 (c - ch_0 + 52)
  else if c =? ch_plus then 62
  else if c =? ch_slash then 63
  else if c =? ch_eq then 254
  else 255.

Fixpoint decode_loop (s : bytes) : option bytes :=
  match s with
  | c1 :: c2 :: c3 :: c4 :: rest =>
      let a := b64_rev c1 in let b := b64_rev c2 in
      let c := b64_rev c3 in let d := b64_rev c4 in
      if (64 <=? a) || (64 <=? b) then None
      else if (c =? 255) || (d =? 255) then None
      else
        let c_pad := c =? 254 in let d_pad := d =? 254 in
        if c_pad && negb d_pad then None
        else if (c_pad || d_pad) && negb (length rest =? 0)%nat then None
        else
          let n := Z.lor (Z.shiftl a 18) (Z.shiftl b 12) in
          let out := [Z.land (Z.shiftr n 16) 255] in
          let out :=
            if c_pad then out
            else
              let n := Z.lor n (Z.shiftl c 6) in
              let out := out ++ [Z.land (Z.shiftr n 8) 255] in
              if d_pad then out
              else let n := Z.lor n d in out ++ [Z.land n 255] in
          match decode_loop rest with Some r => Some (out ++ r) | None => None end
  | _ => Some []
  end.
Definition base64_decode (s : bytes) : bytes :=
  if (length s =? 0)%nat || negb (length s mod 4 =? 0)%nat then []
  else match decode_loop s with Some r => r | None => [] end.

(** Drop the padding counted from the end. *)
Fixpoint unpadded_len (s : bytes) : nat :=
  match s with
  | [] => O
  | c :: s' => match unpadded_len s' with
               | O => if c =? ch_eq then O else 1%nat
               | S n => S (S n)
               end
  end.
Definition to_url_char (c : Z) : Z :=
  if c =? ch_plus then ch_minus else if c =? ch_slash then ch_under else c.
Definition base64url_encode (raw : bytes) : bytes :=
  let s := base64_encode raw in
  let n := unpadded_len s in
  to_url_char <$> take n s.

Definition from_url_char (c : Z) : Z :=
  if c =? ch_minus then ch_plus else if c =? ch_under then ch_slash else c.
Definition base64url_decode (s : bytes) : bytes :=
  if (length s =? 0)%nat then []
  else
    let pad := ((4 - length s mod 4) mod 4)%nat in
    if (pad =? 3)%nat then []
    else base64_decode ((from_url_char <$> s) ++ replicate pad ch_eq).

(** ** The alphabet *)

Lemma b64_rev_char i : 0 <= i < 64 -> b64_rev (b64_char i) = i.
Proof.
  intros H. apply Z.eqb_eq.
  apply (range_check (fun i => b64_rev (b64_char i) =? i) 64); [done|lia].
Qed.

(** The characters of the alphabet are plain: never padding, never the
    URL-safe substitutes. *)
Lemma b64_char_plain i : 0 <= i < 64 ->
  b64_char i <> ch_eq /\ b64_char i <> ch_minus /\ b64_char i <> ch_under.
Proof.
  intros H.
  pose proof (range_check (fun i => negb (b64_char i =? 61) && negb (b64_char i =? 45) &&
    negb (b64_char i =? 95)) 64 eq_refl i ltac:(lia)) as Hc.
  simpl in Hc. bool_props. done.
Qed.

(** ** The six-bit groups as arithmetic *)

Section Groups.
Context (x y z : Z) (Hx : is_byte x) (Hy : is_byte y) (Hz : is_byte z).

Lemma word3 : Z.lor (Z.lor (Z.shiftl x 16) (Z.shiftl y 8)) z = x * 65536 + y * 256 + z.
Proof using Hx Hy Hz.
  unfold is_byte in *. rewrite (Z.shiftl_mul_pow2 y 8) by lia.
  rewrite lor_shiftl_add by lia.
  replace (x * 2 ^ 16 + y * 2 ^ 8) with ((x * 2 ^ 8 + y) * 2 ^ 8) by lia.
  rewrite lor_disjoint_add by lia. lia.
Qed.

Lemma word2 : Z.lor (Z.shiftl x 16) (Z.shiftl y 8) = x * 65536 + y * 256.
Proof using Hx Hy.
  clear z Hz. unfold is_byte in *. rewrite (Z.shiftl_mul_pow2 y 8) by lia.
  rewrite lor_shiftl_add by lia. lia.
Qed.
End Groups.

Section Sextets.
Context (a b c d : Z) (Ha : 0 <= a < 64) (Hb : 0 <= b < 64) (Hc : 0 <= c < 64)
  (Hd : 0 <= d < 64).

Lemma quad2 : Z.lor (Z.shiftl a 18) (Z.shiftl b 12) = a * 262144 + b * 4096.
Proof using Ha Hb.
  clear c Hc d Hd. rewrite (Z.shiftl_mul_pow2 b 12) by lia. rewrite lor_shiftl_add by lia. lia.
Qed.

Lemma quad3 : Z.lor (a * 262144 + b * 4096) (Z.shiftl c 6) = a * 262144 + b * 4096 + c * 64.
Proof using Ha Hb Hc.
  clear d Hd. rewrite (Z.shiftl_mul_pow2 c 6) by lia.
  replace (a * 262144 + b * 4096) with ((a * 64 + b) * 2 ^ 12) by lia.
  rewrite lor_disjoint_add by lia. lia.
Qed.

Lemma quad4 : Z.lor (a * 262144 + b * 4096 + c * 64) d = a * 262144 + b * 4096 + c * 64 + d.
Proof using Ha Hb Hc Hd.
  replace (a * 262144 + b * 4096 + c * 64) with ((a * 4096 + b * 64 + c) * 2 ^ 6) by lia.
  rewrite lor_disjoint_add by lia. lia.
Qed.
End Sextets.

Lemma land63 n k : 0 <= k -> Z.land (Z.shiftr n k) 63 = (n / 2 ^ k) mod 64.
Proof. intros. rewrite shiftr_div by lia. apply (land_mask _ 6). lia. Qed.
Lemma land63_0 n : Z.land n 63 = n mod 64.
Proof. apply (land_mask _ 6). lia. Qed.
Lemma land255 n k : 0 <= k -> Z.land (Z.shiftr n k) 255 = (n / 2 ^ k) mod 256.
Proof. intros. rewrite shiftr_div by lia. apply (land_mask _ 8). lia. Qed.
Lemma land255_0 n : Z.land n 255 = n mod 256.
Proof. apply (land_mask _ 8). lia. Qed.

(** ** One quad of the decoder *)

Section Quads.
Context (a b c d : Z) (Ha : 0 <= a < 64) (Hb : 0 <= b < 64) (Hc : 0 <= c < 64)
  (Hd : 0 <= d < 64).

Ltac sextet_tests :=
  repeat match goal with
  | |- context [?l <=? ?v] => rewrite (proj2 (Z.leb_gt l v)) by lia
  | |- context [?v =? ?k] => rewrite (proj2 (Z.eqb_neq v k)) by lia
  end; cbn [orb andb negb].

Lemma decode_quad_full rest :
  decode_loop (b64_char a :: b64_char b :: b64_char c :: b64_char d :: rest) =
  match decode_loop rest with
  | Some r => Some (a * 4 + b / 16 :: (b mod 16) * 16 + c / 4 :: (c mod 4) * 64 + d :: r)
  | None => None
  end.
Proof using Ha Hb Hc Hd.
  cbn [decode_loop]. rewrite !b64_rev_char by lia. sextet_tests.
  rewrite quad2, quad3, quad4 by lia. rewrite !land255, !land255_0 by lia.
  destruct (decode_loop rest); [|done]. cbn [app]. do 2 f_equal; [divmod|].
  f_equal; [divmod|]. f_equal. divmod.
Qed.

Lemma decode_quad_pad1 :
  decode_loop [b64_char a; b64_char b; b64_char c; ch_eq] =
  Some [a * 4 + b / 16; (b mod 16) * 16 + c / 4].
Proof using Ha Hb Hc.
  clear d Hd. cbn [decode_loop]. rewrite !b64_rev_char by lia.
  change (b64_rev 61) with 254. change (254 =? 255) with false.
  change (254 =? 254) with true. sextet_tests. simpl length. cbn [Nat.eqb negb andb].
  rewrite quad2, quad3 by lia. rewrite !land255 by lia. cbn [app].
  do 2 f_equal; [divmod|]. f_equal. divmod.
Qed.

Lemma decode_quad_pad2 :
  decode_loop [b64_char a; b64_char b; ch_eq; ch_eq] = Some [a * 4 + b / 16].
Proof using Ha Hb.
  clear c Hc d Hd. cbn [decode_loop]. rewrite !b64_rev_char by lia.
  change (b64_rev 61) with 254. change (254 =? 255) with false.
  change (254 =? 254) with true. sextet_tests. simpl length. cbn [Nat.eqb negb andb].
  rewrite quad2 by lia. rewrite !land255 by lia. cbn [app].
  do 2 f_equal. divmod.
Qed.
End Quads.

Lemma sextet_bound n : 0 <= n mod 64 < 64.
Proof. apply Z.mod_pos_bound. lia. Qed.
#[local] Hint Resolve sextet_bound : core.

Lemma decode_encode_loop s : bytes_ok s -> decode_loop (encode_loop s) = Some s.
Proof.
  induction s as [s IH] using length_ind. intros Hs.
  destruct s as [|x [|y [|z rest]]]; [done| | |].
  - apply bytes_ok_cons in Hs as [Hx _]. unfold is_byte in Hx.
    cbn [encode_loop]. rewrite !land63 by lia.
    rewrite decode_quad_pad2 by auto. rewrite !Z.shiftl_mul_pow2 by lia.
    do 2 f_equal. divmod.
  - apply bytes_ok_cons in Hs as [Hx [Hy _]%bytes_ok_cons]. 
    cbn [encode_loop]. rewrite word2 by done. unfold is_byte in *. rewrite !land63 by lia.
    rewrite decode_quad_pad1 by auto. do 2 f_equal; [divmod|]. f_equal. divmod.
  - apply bytes_ok_cons in Hs as [Hx [Hy [Hz Hr]%bytes_ok_cons]%bytes_ok_cons].
    cbn [encode_loop]. rewrite word3 by done. unfold is_byte in *.
    rewrite !land63, !land63_0 by lia. rewrite decode_quad_full by auto.
    rewrite IH by (simpl; lia || done). do 2 f_equal; [divmod|].
    f_equal; [divmod|]. f_equal. divmod.
Qed.

Lemma encode_loop_length s : (length (encode_loop s) = (length s + 2) / 3 * 4)%nat.
Proof.
  induction s as [s IH] using length_ind.
  destruct s as [|x [|y [|z rest]]]; [done..|].
  cbn [encode_loop length]. rewrite IH by (simpl; lia).
  replace (S (S (S (length rest))) + 2)%nat with (length rest + 2 + 1 * 3)%nat by lia.
  rewrite Nat.div_add by lia. lia.
Qed.

Lemma base64_encode_length s : (length (base64_encode s) = (length s + 2) / 3 * 4)%nat.
Proof.
  unfold base64_encode. destruct (Nat.eqb_spec (length s) 0) as [E|E].
  - rewrite E. done.
  - apply encode_loop_length.
Qed.

Lemma base64_encode_loop s : base64_encode s = encode_loop s.
Proof. destruct s; done. Qed.

(** ** The shape of encoded text: alphabet characters, then padding *)

Definition plain (c : Z) : Prop := c <> ch_eq /\ c <> ch_minus /\ c <> ch_under.

Lemma encode_shape s : exists body p,
  encode_loop s = body ++ replicate p ch_eq /\ (p <= 2)%nat /\ Forall plain body.
Proof.
  induction s as [s IH] using length_ind.
  destruct s as [|x [|y [|z rest]]]; cbn [encode_loop]; rewrite ?land63, ?land63_0 by lia.
  - exists [], O. auto with lia.
  - eexists [_; _], 2%nat. split; [done|]. split; [lia|].
    repeat constructor; apply b64_char_plain; auto.
  - eexists [_; _; _], 1%nat. split; [done|]. split; [lia|].
    repeat constructor; apply b64_char_plain; auto.
  - destruct (IH rest) as (body & p & -> & Hp & Hb); [simpl; lia|].
    eexists (_ :: _ :: _ :: _ :: body), p. split; [done|]. split; [done|].
    repeat constructor; try (apply b64_char_plain; auto). done.
Qed.

Lemma encode_loop_c_string s : c_string (encode_loop s).
Proof.
  assert (Hn : forall i, 0 <= i < 64 -> b64_char i <> 0).
  { intros i Hi E. pose proof (range_check (fun i => negb (b64_char i =? 0)) 64 eq_refl i Hi) as Hc.
    cbv beta in Hc. bool_props. done. }
  unfold c_string. induction s as [s IH] using length_ind.
  destruct s as [|x [|y [|z rest]]]; cbn [encode_loop]; rewrite ?land63, ?land63_0 by lia.
  - apply not_elem_of_nil.
  - rewrite !not_elem_of_cons. repeat split; try (apply not_eq_sym, Hn; auto); try done. apply not_elem_of_nil.
  - rewrite !not_elem_of_cons. repeat split; try (apply not_eq_sym, Hn; auto); try done. apply not_elem_of_nil.
  - rewrite !not_elem_of_cons. repeat split; try (apply not_eq_sym, Hn; auto). apply IH. simpl. lia.
Qed.

Lemma unpadded_len_pads p : unpadded_len (replicate p ch_eq) = O.
Proof. induction p as [|p IH]; simpl; [done|]. by rewrite IH. Qed.

Lemma unpadded_len_shape body p :
  Forall plain body -> unpadded_len (body ++ replicate p ch_eq) = length body.
Proof.
  induction 1 as [|c body Hc _ IH]; simpl; [apply unpadded_len_pads|].
  rewrite IH. destruct body; simpl; [|done].
  destruct (Z.eqb_spec c 61) as [->|]; [|done]. unfold plain in Hc. lia.
Qed.

Lemma from_to_url_char c : plain c -> from_url_char (to_url_char c) = c.
Proof. unfold plain, from_url_char, to_url_char. intros. bsolve. Qed.

Lemma url_chars_cancel body :
  Forall plain body -> from_url_char <$> (to_url_char <$> body) = body.
Proof.
  induction 1 as [|c body Hc _ IH]; [done|].
  rewrite !fmap_cons, IH, from_to_url_char; done.
Qed.

Lemma b64_rev_cases c :
  0 <= b64_rev c < 64 \/ (b64_rev c = 254 /\ c = ch_eq) \/ b64_rev c = 255.
Proof.
  unfold b64_rev, wrap8. repeat case_if; rewrite ?Z.mod_small by lia; lia.
Qed.

(** The input a successful decode has read: alphabet characters, at most two
    of padding at the end, three bytes out per quad less the padding. *)
Lemma decode_loop_shape s r :
  (length s mod 4 = 0)%nat -> decode_loop s = Some r ->
  exists body p, s = body ++ replicate p ch_eq /\ (p <= 2)%nat /\
    Forall (fun c => 0 <= b64_rev c < 64) body /\ (length r + p = length s / 4 * 3)%nat.
Proof.
  revert r; induction s as [s IH] using length_ind. intros r Hm H.
  destruct s as [|c1 [|c2 [|c3 [|c4 rest]]]]; try (simpl in Hm; discriminate).
  { injection H as <-. exists [], O. auto with lia. }
  cbn [decode_loop] in H.
  destruct (b64_rev_cases c1) as [H1|[[E1 _]|E1]]; [|rewrite E1 in H; discriminate..].
  destruct (b64_rev_cases c2) as [H2|[[E2 _]|E2]];
    [|rewrite E2, orb_true_r in H; discriminate..].
  rewrite (proj2 (Z.leb_gt 64 (b64_rev c1))), (proj2 (Z.leb_gt 64 (b64_rev c2))) in H by lia.
  cbn [orb] in H.
  destruct (b64_rev_cases c3) as [H3|[[E3 ->]|E3]]; [| |rewrite E3 in H; discriminate];
  destruct (b64_rev_cases c4) as [H4|[[E4 ->]|E4]];
    try (rewrite E4, orb_true_r in H; discriminate);
    try rewrite E3 in H; try rewrite E4 in H;
    rewrite ?(proj2 (Z.eqb_neq (b64_rev c3) 255)), ?(proj2 (Z.eqb_neq (b64_rev c4) 255)),
      ?(proj2 (Z.eqb_neq (b64_rev c3) 254)), ?(proj2 (Z.eqb_neq (b64_rev c4) 254)) in H by lia;
    simpl in H; try discriminate H;
    destruct rest as [|c5 rest]; try discriminate H.
  1: { injection H as <-. exists [c1; c2; c3; c4], O. repeat constructor; lia. }
  2: { injection H as <-. exists [c1; c2; c3], 1%nat. repeat constructor; lia. }
  2: { injection H as <-. exists [c1; c2], 2%nat. repeat constructor; lia. }
  destruct (decode_loop (c5 :: rest)) as [r'|] eqn:E; [|discriminate]. injection H as <-.
  destruct (IH (c5 :: rest) ltac:(simpl; lia) r') as (body & p & Es & Hp & Hb & Hl).
  { revert Hm. cbn [length]. intros. ndivmod. }
  { done. }
  exists (c1 :: c2 :: c3 :: c4 :: body), p. rewrite Es. split; [done|]. split; [done|].
  split; [do 4 (constructor; [lia|]); done|]. rewrite Es in Hl. cbn [length app] in *. ndivmod.
Qed.

Lemma base64_decode_encode (s : bytes) : bytes_ok s -> base64_decode (base64_encode s) = s.
Proof.
  intros Hs. unfold base64_decode. rewrite base64_encode_length.
  destruct s as [|x s]; [done|]. set (l := length (x :: s)).
  assert (Hl : (l <> 0)%nat) by done.
  assert (Hpos : ((l + 2) / 3 * 4 =? 0)%nat = false).
  { apply Nat.eqb_neq. ndivmod. }
  rewrite Hpos. rewrite Nat.Div0.mod_mul. simpl.
  rewrite base64_encode_loop, decode_encode_loop; done.
Qed.

(** ** Properties *)

(** Encoding then decoding returns the bytes, for every byte string. *)
Theorem base64_roundtrip (s : bytes) : bytes_ok s -> base64_decode (base64_encode s) = s.
Proof. apply base64_decode_encode. Qed.

Lemma base64_roundtrip_witness :
  bytes_ok (lit "foobar") /\ base64_encode (lit "foobar") = lit "Zm9vYmFy" /\
  base64_decode (base64_encode (lit "foobar")) = lit "foobar".
Proof.
  split; [apply lit_bytes_ok|]. split; [reflexivity|].
  apply (base64_roundtrip (lit "foobar")). apply lit_bytes_ok.
Defined.

(** The URL-safe form round-trips too: the substituted alphabet and the
    stripped padding are restored exactly before the strict decode. *)
Theorem base64url_roundtrip (s : bytes) :
  bytes_ok s -> base64url_decode (base64url_encode s) = s.
Proof.
  intros Hs. destruct (encode_shape s) as (body & p & E & Hp & Hb).
  pose proof (base64_encode_length s) as Hlen.
  unfold base64url_encode. rewrite base64_encode_loop in *. rewrite E in Hlen |- *.
  rewrite unpadded_len_shape, take_app_length by done.
  rewrite length_app, length_replicate in Hlen.
  unfold base64url_decode. rewrite length_fmap.
  destruct (Nat.eqb_spec (length body) 0) as [H0|H0].
  - destruct s as [|x s]; [done|]. exfalso.
    destruct body; [|done]. apply (f_equal decode_loop) in E.
    rewrite decode_encode_loop in E by done.
    destruct p as [|[|[|]]]; simpl in E; (lia || discriminate).
  - assert (Hpad : ((4 - length body mod 4) mod 4 = p)%nat).
    { ndivmod. }
    rewrite Hpad. destruct (Nat.eqb_spec p 3); [lia|].
    rewrite url_chars_cancel by done. rewrite <-E, <-base64_encode_loop.
    unfold base64_decode. rewrite base64_encode_length, Nat.Div0.mod_mul.
    rewrite base64_encode_loop, decode_encode_loop by done.
    destruct s; [done|]. destruct (Nat.eqb_spec ((length (z :: s) + 2) / 3 * 4) 0); [|done].
    simpl length in *. ndivmod.
Qed.

Lemma base64url_roundtrip_witness :
  bytes_ok [251; 255; 254; 63] /\ base64url_encode [251; 255; 254; 63] = lit "-__-Pw" /\
  base64url_decode (base64url_encode [251; 255; 254; 63]) = [251; 255; 254; 63].
Proof.
  assert (H : bytes_ok [251; 255; 254; 63]) by (repeat constructor; lia).
  split; [exact H|]. split; [reflexivity|]. exact (base64url_roundtrip _ H).
Defined.

(** The decoder is strict. A non-empty result means that the input is a
    multiple of four characters, all of the alphabet but for one or two
    padding characters at the very end, and that exactly three bytes per quad
    less the padding were produced; everything else decodes to nothing. *)
Theorem base64_decode_strict (s : bytes) :
  base64_decode s <> [] ->
  (length s mod 4 = 0)%nat /\
  exists body p, s = body ++ replicate p ch_eq /\ (p <= 2)%nat /\
    Forall (fun c => 0 <= b64_rev c < 64) body /\
    (length (base64_decode s) + p = length s / 4 * 3)%nat.
Proof.
  unfold base64_decode.
  destruct (Nat.eqb_spec (length s) 0); [done|].
  destruct (Nat.eqb_spec (length s mod 4) 0) as [Hm|]; [|done]. cbn [orb negb].
  destruct (decode_loop s) as [r|] eqn:E; [|done]. intros _.
  split; [done|]. by apply decode_loop_shape.
Qed.

Lemma base64_decode_strict_witness :
  base64_decode (lit "Zm8=") <> [] /\ base64_decode (lit "Z=8=") = [] /\
  (length (lit "Zm8=") mod 4 = 0)%nat.
Proof.
  split; [discriminate|]. split; [reflexivity|].
  apply (base64_decode_strict (lit "Zm8=")). discriminate.
Defined.
