(* ===== verification/U8Buf.v ===== *)
(** * base/u8buf: the growable byte buffer

    A buffer is the bytes written so far and its capacity; growth copies into a
    fresh run, so the contents are what the operations observe. *)
From S2P Require Import Prelude String8.

Record U8Buf := mkU8Buf {
  u8_v : bytes;    (* v[0 .. len) *)
  u8_cap : Z
}.
Definition u8_len (b : U8Buf) : Z := zlen (u8_v b).

Definition u8buf_init (cap : Z) : U8Buf := mkU8Buf [] cap.

Definition u8buf_reserve (b : U8Buf) (need : Z) : U8Buf :=
  if wrap64 (u8_len b + need) <=? u8_cap b then b
  else
    let ncap := if negb (u8_cap b =? 0) then u8_cap b else 64 in
    let ncap := double_until 64 ncap (wrap64 (u8_len b + need)) in
    mkU8Buf (u8_v b) ncap.

Definition u8buf_push (b : U8Buf) (x : Z) : U8Buf :=
  let b := u8buf_reserve b 1 in mkU8Buf (u8_v b ++ [x]) (u8_cap b).

Definition u8buf_append (b : U8Buf) (p : bytes) : U8Buf :=
  if (length p =? 0)%nat then b
  else let b := u8buf_reserve b (zlen p) in mkU8Buf (u8_v b ++ p) (u8_cap b).

Definition u8buf_str8 (b : U8Buf) : bytes := u8_v b.

(** ** Invariant: the bytes written fit in the capacity *)

Definition u8_wf (b : U8Buf) : Prop := 0 <= u8_cap b /\ u8_len b <= u8_cap b.

Lemma u8buf_init_wf cap : 0 <= cap -> u8_wf (u8buf_init cap).
Proof. unfold u8_wf, u8_len, zlen. simpl. lia. Qed.

Lemma u8buf_reserve_v b n : u8_v (u8buf_reserve b n) = u8_v b.
Proof. unfold u8buf_reserve. by case_if. Qed.

Lemma u8buf_reserve_room b n :
  u8_wf b -> 0 <= n -> u8_len b + n <= 2 ^ 63 ->
  u8_len b + n <= u8_cap (u8buf_reserve b n) /\ u8_cap b <= u8_cap (u8buf_reserve b n).
Proof.
  unfold u8_wf, u8buf_reserve, u8_len. pose proof (zlen_nonneg (u8_v b)) as H0.
  intros [Hc Hl] Hn Hs. unfold wrap64. rewrite Z.mod_small by lia.
  destruct (Z.leb_spec (zlen (u8_v b) + n) (u8_cap b)); [lia|]. simpl.
  destruct (Z.eqb_spec (u8_cap b) 0) as [E|E]; simpl.
  - pose proof (double_until_64 64 (zlen (u8_v b) + n)). lia.
  - pose proof (double_until_64 (u8_cap b) (zlen (u8_v b) + n)). lia.
Qed.

Lemma u8buf_push_v b x : u8_v (u8buf_push b x) = u8_v b ++ [x].
Proof. unfold u8buf_push. simpl. by rewrite u8buf_reserve_v. Qed.

Lemma u8buf_append_v b p : u8_v (u8buf_append b p) = u8_v b ++ p.
Proof.
  unfold u8buf_append. destruct p as [|x p]; [simpl; by rewrite app_nil_r|].
  simpl. by rewrite u8buf_reserve_v.
Qed.

Create Rewrite HintDb u8buf.
#[export] Hint Rewrite u8buf_push_v u8buf_append_v u8buf_reserve_v : u8buf.

(** ** Properties *)

(** Appending keeps the buffer within its capacity: every write lands
    inside the run that was reserved for it, the growth loop terminates with
    enough room, and the bytes written before are kept. *)
Theorem u8buf_append_fits (b : U8Buf) (p : bytes) :
  u8_wf b -> u8_len b + zlen p <= 2 ^ 63 ->
  u8_wf (u8buf_append b p) /\ u8buf_str8 (u8buf_append b p) = u8buf_str8 b ++ p.
Proof.
  intros Hwf Hs. split; [|apply u8buf_append_v].
  unfold u8buf_append. destruct (Nat.eqb_spec (length p) 0); [done|].
  destruct (u8buf_reserve_room b (zlen p) Hwf (zlen_nonneg p) Hs) as [H1 H2].
  unfold u8_wf, u8_len in *. cbn [u8_v u8_cap]. rewrite zlen_app, u8buf_reserve_v. lia.
Qed.

Lemma u8buf_append_fits_witness :
  u8_wf (u8buf_init 0) /\
  u8_wf (u8buf_append (u8buf_init 0) (replicate 100 7)) /\
  u8_cap (u8buf_append (u8buf_init 0) (replicate 100 7)) = 128.
Proof.
  split; [by apply u8buf_init_wf|]. split; [|reflexivity].
  apply (u8buf_append_fits (u8buf_init 0) (replicate 100 7)); [by apply u8buf_init_wf|done].
Defined.
