(* ===== verification/WsFrame.v ===== *)
(** * ws/ws_frame: the RFC 6455 frame codec

    [ws_frame_build] appends one masked client frame to a [U8Buf];
    [ws_parser_feed] is the incremental parser of server frames. The parser's
    arrays are modelled by their written prefix: [hdr] is [hdr[0 .. hdr_have)],
    [ctrl] is [ctrl[0 .. ctrl_len)], [msg] is [msg[0 .. msg_len)]. The events
    handed to the callback are returned as a list, in order. [realloc] is the
    C library's: whether a request of a size succeeds is a parameter. *)
From S2P Require Import Prelude String8 U8Buf.

Abbreviation WsOp_Continuation := 0 (only parsing).
Abbreviation WsOp_Text := 1 (only parsing).
Abbreviation WsOp_Binary := 2 (only parsing).
Abbreviation WsOp_Close := 8 (only parsing).
Abbreviation WsOp_Ping := 9 (only parsing).
Abbreviation WsOp_Pong := 10 (only parsing).

(** ** Building client frames *)

(** [out->v[off + i] ^= mask_key[i & 3]] for every [i]. *)
Fixpoint mask_loop (i : Z) (payload key : bytes) : bytes :=
  match payload with
  | [] => []
  | x :: rest => Z.lxor x (nth (Z.to_nat (Z.land i 3)) key 0) :: mask_loop (i + 1) rest key
  end.

Definition ws_frame_build (out : U8Buf) (op : Z) (fin rsv1 : bool) (payload mask_key : bytes) : U8Buf :=
  let len := zlen payload in
  let out := u8buf_push out
    (wrap8 (Z.lor (Z.lor (if fin then 128 else 0) (if rsv1 then 64 else 0)) (Z.land op 15))) in
  let out :=
    if len <? 126 then u8buf_push out (wrap8 (Z.lor 128 len))
    else if len <=? 65535 then
      u8buf_push (u8buf_push (u8buf_push out (Z.lor 128 126)) (wrap8 (Z.shiftr len 8))) (wrap8 len)
    else
      fold_left (fun b i => u8buf_push b (wrap8 (Z.shiftr len (i * 8)))) [7; 6; 5; 4; 3; 2; 1; 0]
        (u8buf_push out (Z.lor 128 127)) in
  let out := u8buf_append out mask_key in
  let off := length (u8_v out) in
  let out := if negb (len =? 0) then u8buf_append out payload else out in
  mkU8Buf (take off (u8_v out) ++ mask_loop 0 (drop off (u8_v out)) mask_key) (u8_cap out).

(** ** The receive parser *)

Inductive WsEventKind := WsEvent_Message | WsEvent_Ping | WsEvent_Pong | WsEvent_Close.

Record WsEvent := mkEvent {
  ev_kind : WsEventKind;
  ev_op : Z;
  ev_data : bytes;
  ev_close_code : Z;
  ev_compressed : bool
}.

Record WsParser := mkParser {
  hdr : bytes;
  hdr_need : Z;
  in_payload : bool;
  cur_fin : bool;
  cur_op : Z;
  cur_control : bool;
  payload_remaining : Z;
  allow_rsv1 : bool;
  msg_rsv1 : bool;
  msg : bytes;
  msg_cap : Z;
  msg_op : Z;
  in_message : bool;
  max_message : Z;
  ctrl : bytes;
  dead : bool
}.

Definition ws_parser_init (max : Z) : WsParser :=
  mkParser [] 0 false false 0 false 0 false false [] 0 0 false
    (if negb (max =? 0) then max else Z.shiftl 64 20) [] false.

Definition set_hdr h n (p : WsParser) := mkParser h n (in_payload p) (cur_fin p) (cur_op p)
  (cur_control p) (payload_remaining p) (allow_rsv1 p) (msg_rsv1 p) (msg p) (msg_cap p)
  (msg_op p) (in_message p) (max_message p) (ctrl p) (dead p).
Definition set_in_payload b (p : WsParser) := mkParser (hdr p) (hdr_need p) b (cur_fin p)
  (cur_op p) (cur_control p) (payload_remaining p) (allow_rsv1 p) (msg_rsv1 p) (msg p)
  (msg_cap p) (msg_op p) (in_message p) (max_message p) (ctrl p) (dead p).
Definition set_frame fin op plen (p : WsParser) := mkParser (hdr p) (hdr_need p) (in_payload p)
  fin op (cur_control p) plen (allow_rsv1 p) (msg_rsv1 p) (msg p) (msg_cap p) (msg_op p)
  (in_message p) (max_message p) (ctrl p) (dead p).
Definition set_control b (p : WsParser) := mkParser (hdr p) (hdr_need p) (in_payload p)
  (cur_fin p) (cur_op p) b (payload_remaining p) (allow_rsv1 p) (msg_rsv1 p) (msg p)
  (msg_cap p) (msg_op p) (in_message p) (max_message p) (ctrl p) (dead p).
Definition set_remaining n (p : WsParser) := mkParser (hdr p) (hdr_need p) (in_payload p)
  (cur_fin p) (cur_op p) (cur_control p) n (allow_rsv1 p) (msg_rsv1 p) (msg p) (msg_cap p)
  (msg_op p) (in_message p) (max_message p) (ctrl p) (dead p).
Definition set_msg m cap (p : WsParser) := mkParser (hdr p) (hdr_need p) (in_payload p)
  (cur_fin p) (cur_op p) (cur_control p) (payload_remaining p) (allow_rsv1 p) (msg_rsv1 p) m
  cap (msg_op p) (in_message p) (max_message p) (ctrl p) (dead p).
Definition set_message inm op rsv (p : WsParser) := mkParser (hdr p) (hdr_need p)
  (in_payload p) (cur_fin p) (cur_op p) (cur_control p) (payload_remaining p) (allow_rsv1 p)
  rsv (msg p) (msg_cap p) op inm (max_message p) (ctrl p) (dead p).
Definition set_ctrl c (p : WsParser) := mkParser (hdr p) (hdr_need p) (in_payload p)
  (cur_fin p) (cur_op p) (cur_control p) (payload_remaining p) (allow_rsv1 p) (msg_rsv1 p)
  (msg p) (msg_cap p) (msg_op p) (in_message p) (max_message p) c (dead p).
Definition ws_parser_allow_compression (p : WsParser) := mkParser (hdr p) (hdr_need p)
  (in_payload p) (cur_fin p) (cur_op p) (cur_control p) (payload_remaining p) true
  (msg_rsv1 p) (msg p) (msg_cap p) (msg_op p) (in_message p) (max_message p) (ctrl p) (dead p).

Definition ws_fail (p : WsParser) : WsParser := mkParser (hdr p) (hdr_need p) (in_payload p)
  (cur_fin p) (cur_op p) (cur_control p) (payload_remaining p) (allow_rsv1 p) (msg_rsv1 p)
  (msg p) (msg_cap p) (msg_op p) (in_message p) (max_message p) (ctrl p) true.

(** What a feed returns: the parser after it and the events delivered.
    [FeedOk] is the C function's [len], [FeedErr] its -1. *)
Inductive feed_result :=
  | FeedOk (p : WsParser) (evs : list WsEvent)
  | FeedErr (p : WsParser) (evs : list WsEvent)
  | OutOfFuel.

Definition hdr_at (p : WsParser) (i : nat) : Z := nth i (hdr p) 0.
Definition flag (b m : Z) : bool := negb (Z.land b m =? 0).

(** The payload length a complete header announces. *)
Definition frame_len (p : WsParser) : Z :=
  let l7 := Z.land (hdr_at p 1) 127 in
  if l7 <? 126 then l7
  else if l7 =? 126 then Z.lor (Z.shiftl (hdr_at p 2) 8) (hdr_at p 3)
  else fold_left (fun plen k => Z.lor (wrap64 (Z.shiftl plen 8)) (hdr_at p (2 + k)%nat))
         [0; 1; 2; 3; 4; 5; 6; 7]%nat 0.

Definition ws_begin_frame (p : WsParser) : bool * WsParser :=
  let fin := flag (hdr_at p 0) 128 in
  let op := Z.land (hdr_at p 0) 15 in
  let rsv1 := flag (hdr_at p 0) 64 in
  let plen := frame_len p in
  let p := set_frame fin op plen p in
  if rsv1 && negb (allow_rsv1 p) then (false, p)
  else if flag op 8 then
    if negb fin || (125 <? plen) then (false, p)
    else if rsv1 then (false, p)
    else if negb (op =? WsOp_Close) && negb (op =? WsOp_Ping) && negb (op =? WsOp_Pong)
    then (false, p)
    else (true, set_ctrl [] (set_control true p))
  else
    if negb (op =? WsOp_Text) && negb (op =? WsOp_Binary) && negb (op =? WsOp_Continuation)
    then (false, p)
    else
      let p := set_control false p in
      if op =? WsOp_Continuation then
        if negb (in_message p) then (false, p)
        else if rsv1 then (false, p)
        else (true, p)
      else if in_message p then (false, p)
      else (true, set_msg [] (msg_cap p) (set_message true op rsv1 p)).

Definition ws_frame_done (p : WsParser) : WsParser * list WsEvent :=
  if cur_control p then
    let ev :=
      if cur_op p =? WsOp_Ping then mkEvent WsEvent_Ping (cur_op p) (ctrl p) 0 false
      else if cur_op p =? WsOp_Pong then mkEvent WsEvent_Pong (cur_op p) (ctrl p) 0 false
      else if (2 <=? length (ctrl p))%nat then
        mkEvent WsEvent_Close (cur_op p) (drop 2 (ctrl p))
          (wrap16 (Z.lor (Z.shiftl (nth 0 (ctrl p) 0) 8) (nth 1 (ctrl p) 0))) false
      else mkEvent WsEvent_Close (cur_op p) [] 0 false in
    (set_control false p, [ev])
  else if cur_fin p then
    (set_msg [] (msg_cap p) (set_message false (msg_op p) (msg_rsv1 p) p),
     [mkEvent WsEvent_Message (msg_op p) (msg p) 0 (msg_rsv1 p)])
  else (p, []).

Section Feed.
Context (realloc_ok : Z -> bool).

Definition ws_msg_append (p : WsParser) (d : bytes) : option WsParser :=
  let n := zlen d in
  if n =? 0 then Some p
  else if max_message p <? zlen (msg p) + n then None
  else if msg_cap p <? zlen (msg p) + n then
    let cap := if negb (msg_cap p =? 0) then msg_cap p else 4096 in
    let cap := double_until 64 cap (zlen (msg p) + n) in
    if realloc_ok cap then Some (set_msg (msg p ++ d) cap p) else None
  else Some (set_msg (msg p ++ d) (msg_cap p) p).

(** The header is complete: [ws_begin_frame], and a zero-length frame ends at
    once. *)
Definition header_complete (p : WsParser) : feed_result :=
  let (ok, p) := ws_begin_frame p in
  if ok then
    let p := set_in_payload true (set_hdr [] (hdr_need p) p) in
    if payload_remaining p =? 0 then
      let (p, evs) := ws_frame_done p in FeedOk (set_in_payload false p) evs
    else FeedOk p []
  else FeedErr (ws_fail p) [].

(** One header byte. The result is the parser and the events, or a failure. *)
Definition feed_header_byte (p : WsParser) (b : Z) : feed_result :=
  let h := hdr p ++ [b] in
  let have := zlen h in
  let p := set_hdr h (hdr_need p) p in
  if (have =? 2) && flag (hdr_at p 1) 128 then FeedErr (ws_fail p) []
  else if (have =? 2) && flag (hdr_at p 0) 48 then FeedErr (ws_fail p) []
  else
    let l7 := Z.land (hdr_at p 1) 127 in
    let p := if have =? 2
             then set_hdr h (if l7 =? 126 then 4 else if l7 =? 127 then 10 else 2) p
             else p in
    if (2 <=? have) && (have =? hdr_need p) then header_complete p
    else FeedOk p [].

(** One run of payload bytes: the result and the number of bytes taken. *)
Definition feed_payload (p : WsParser) (data : bytes) : feed_result * nat :=
  let avail := zlen data in
  let n := if avail <? payload_remaining p then avail else payload_remaining p in
  let chunk := take (Z.to_nat n) data in
  match (if cur_control p then Some (set_ctrl (ctrl p ++ chunk) p) else ws_msg_append p chunk) with
  | None => (FeedErr (ws_fail p) [], O)
  | Some p =>
      let p := set_remaining (payload_remaining p - n) p in
      if payload_remaining p =? 0 then
        let (p, evs) := ws_frame_done p in (FeedOk (set_in_payload false p) evs, Z.to_nat n)
      else (FeedOk p [], Z.to_nat n)
  end.

Fixpoint feed_loop (fuel : nat) (p : WsParser) (data : bytes) (acc : list WsEvent) : feed_result :=
  match data with
  | [] => FeedOk p acc
  | b :: rest =>
      match fuel with
      | O => OutOfFuel
      | S fuel' =>
          let (r, n) := if in_payload p then feed_payload p data
                        else (feed_header_byte p b, 1%nat) in
          match r with
          | FeedOk p' evs => feed_loop fuel' p' (drop n data) (acc ++ evs)
          | FeedErr p' evs => FeedErr p' (acc ++ evs)
          | OutOfFuel => OutOfFuel
          end
      end
  end.

Definition ws_parser_feed (p : WsParser) (data : bytes) : feed_result :=
  if dead p then FeedErr p [] else feed_loop (length data) p data [].

End Feed.

(** ** Invariant of a live parser

    [hdr_have] stays below the 10 bytes of the header array at every write, a
    control payload fits in its 125 bytes, a payload in progress has bytes
    outstanding, and the reassembled message respects the ceiling. *)
Record ws_inv (p : WsParser) : Prop := {
  inv_dead : dead p = false;
  inv_hdr_bytes : bytes_ok (hdr p);
  inv_hdr_short : (length (hdr p) < 10)%nat;
  inv_hdr_need : (2 <= length (hdr p))%nat ->
    zlen (hdr p) < hdr_need p /\ hdr_need p <= 10;
  inv_payload : in_payload p = true -> hdr p = [] /\ 0 < payload_remaining p;
  inv_ctrl : in_payload p = true -> cur_control p = true ->
    zlen (ctrl p) + payload_remaining p <= 125;
  inv_max : 0 < max_message p <= 2 ^ 63;
  inv_msg : zlen (msg p) <= max_message p;
  inv_cap : 0 <= msg_cap p
}.

Lemma ws_parser_init_inv max : 0 <= max <= 2 ^ 63 -> ws_inv (ws_parser_init max).
Proof.
  intros Hm. assert (Hk : 0 < max_message (ws_parser_init max) <= 2 ^ 63).
  { simpl. destruct (Z.eqb_spec max 0); simpl; [split; done|lia]. }
  constructor; try done; [apply bytes_ok_nil|simpl; lia|simpl; lia|].
  change (0 <= max_message (ws_parser_init max)). lia.
Qed.

Lemma ws_parser_allow_compression_inv p : ws_inv p -> ws_inv (ws_parser_allow_compression p).
Proof. intros []. by constructor. Qed.

Lemma land_nonneg_l a b : 0 <= b -> 0 <= Z.land a b.
Proof. intros. apply Z.land_nonneg. auto. Qed.

Lemma hdr_at_nonneg p i : bytes_ok (hdr p) -> 0 <= hdr_at p i.
Proof.
  intros H. unfold hdr_at. destruct (nth_in_or_default i (hdr p) 0) as [Hi| ->]; [|lia].
  unfold bytes_ok in H. rewrite List.Forall_forall in H. apply H in Hi. unfold is_byte in Hi. lia.
Qed.

Lemma frame_len_nonneg p : bytes_ok (hdr p) -> 0 <= frame_len p.
Proof.
  intros H. unfold frame_len. repeat case_if.
  - apply land_nonneg_l. lia.
  - apply Z.lor_nonneg. split; [apply Z.shiftl_nonneg|]; by apply hdr_at_nonneg.
  - cbn [fold_left]. apply Z.lor_nonneg. split; [|by apply hdr_at_nonneg].
    unfold wrap64. apply Z.mod_pos_bound. lia.
Qed.

(** The facts about [ws_begin_frame] and [ws_frame_done] the invariant needs:
    which fields they leave alone, and what holds of an accepted header. *)
Lemma ws_begin_frame_frame p ok p' :
  ws_begin_frame p = (ok, p') ->
  hdr p' = hdr p /\ hdr_need p' = hdr_need p /\ in_payload p' = in_payload p /\
  payload_remaining p' = frame_len p /\ max_message p' = max_message p /\
  msg_cap p' = msg_cap p /\ dead p' = dead p /\ allow_rsv1 p' = allow_rsv1 p /\
  (msg p' = msg p \/ msg p' = []) /\
  (ok = true -> cur_control p' = true -> ctrl p' = [] /\ frame_len p <= 125).
Proof.
  unfold ws_begin_frame. set (L := frame_len p).
  repeat case_if; intros [= <- <-]; simpl; repeat split; auto; try discriminate.
  all: repeat match goal with H : _ || _ = false |- _ => apply orb_false_iff in H; destruct H end.
  all: bool_props; intros; auto; lia.
Qed.

Lemma ws_frame_done_frame p p' evs :
  ws_frame_done p = (p', evs) ->
  hdr p' = hdr p /\ hdr_need p' = hdr_need p /\ in_payload p' = in_payload p /\
  payload_remaining p' = payload_remaining p /\ max_message p' = max_message p /\
  msg_cap p' = msg_cap p /\ dead p' = dead p /\ allow_rsv1 p' = allow_rsv1 p /\
  (msg p' = msg p \/ msg p' = []) /\ ctrl p' = ctrl p.
Proof.
  unfold ws_frame_done. repeat case_if; intros [= <- <-]; simpl; repeat split; auto.
Qed.

(** Completing a frame from an idle header leaves a parser that satisfies the
    invariant, whatever the payload state was. *)
Lemma ws_frame_done_inv p p' evs :
  ws_frame_done p = (p', evs) -> dead p = false -> hdr p = [] ->
  0 < max_message p <= 2 ^ 63 -> zlen (msg p) <= max_message p -> 0 <= msg_cap p ->
  ws_inv (set_in_payload false p').
Proof.
  intros H%ws_frame_done_frame Hd Hh Hmax Hm Hc.
  destruct H as (E1 & E2 & E3 & E4 & E5 & E6 & E7 & E8 & E9 & E10).
  assert (zlen (msg p') <= max_message p').
  { rewrite E5. destruct E9 as [->| ->]; [done|]. unfold zlen. simpl. lia. }
  constructor; simpl; rewrite ?E1, ?E7, ?E5, ?E6, ?Hh; simpl; try done; try lia; auto with holy.
Qed.

Section FeedInvariant.
Context (realloc_ok : Z -> bool).
#[local] Abbreviation ws_msg_append := (ws_msg_append realloc_ok).
#[local] Abbreviation feed_payload := (feed_payload realloc_ok).
#[local] Abbreviation feed_loop := (feed_loop realloc_ok).

(** Appending changes the message and its capacity and nothing else. *)
Lemma ws_msg_append_inv p d p' :
  ws_msg_append p d = Some p' -> 0 < max_message p <= 2 ^ 63 ->
  zlen (msg p) <= max_message p -> 0 <= msg_cap p ->
  exists cap, p' = set_msg (msg p ++ d) cap p /\ 0 <= cap /\
    zlen (msg p ++ d) <= max_message p.
Proof.
  unfold WsFrame.ws_msg_append. rewrite zlen_app. pose proof (zlen_nonneg d). intros H1 Hmax Hm Hc.
  destruct (Z.eqb_spec (zlen d) 0) as [E|E].
  { injection H1 as <-. exists (msg_cap p).
    assert (d = []) as -> by (destruct d; [done|unfold zlen in E; simpl in E; lia]).
    rewrite app_nil_r. split; [by destruct p|]. lia. }
  destruct (Z.ltb_spec (max_message p) (zlen (msg p) + zlen d)); [discriminate|].
  destruct (Z.ltb_spec (msg_cap p) (zlen (msg p) + zlen d)).
  - destruct (realloc_ok _); [|discriminate]. injection H1 as <-.
    eexists. split; [done|]. split; [|lia].
    destruct (Z.eqb_spec (msg_cap p) 0); simpl.
    + pose proof (double_until_64 4096 (zlen (msg p) + zlen d)). lia.
    + pose proof (double_until_64 (msg_cap p) (zlen (msg p) + zlen d)). lia.
  - injection H1 as <-. exists (msg_cap p). auto with lia.
Qed.

Lemma feed_header_byte_inv p b :
  ws_inv p -> in_payload p = false -> is_byte b ->
  match feed_header_byte p b with
  | FeedOk p' _ => ws_inv p'
  | FeedErr p' evs => dead p' = true /\ evs = []
  | OutOfFuel => False
  end.
Proof.
  intros Hi Hp Hb. destruct Hi as [Hd Hhb Hs Hn _ _ Hmax Hm Hc].
  assert (Hh : bytes_ok (hdr p ++ [b])) by (apply bytes_ok_app; split; [done|apply bytes_ok_cons; auto with holy]).
  unfold feed_header_byte, header_complete. rewrite zlen_app. change (zlen [b]) with 1.
  destruct ((zlen (hdr p) + 1 =? 2) && flag _ 128); [done|].
  destruct ((zlen (hdr p) + 1 =? 2) && flag _ 48); [done|].
  match goal with |- context [if ?c then 4 else if ?d then 10 else 2] =>
    set (need := if c then 4 else if d then 10 else 2) end.
  assert (Hneed : need = 2 \/ need = 4 \/ need = 10) by (unfold need; repeat case_if; auto).
  match goal with |- context [if zlen (hdr p) + 1 =? 2 then ?x else ?y] =>
    set (q := if zlen (hdr p) + 1 =? 2 then x else y) end.
  assert (Hq : exists n, q = set_hdr (hdr p ++ [b]) n p /\
    (2 <= zlen (hdr p) + 1 -> zlen (hdr p) + 1 <= n <= 10)).
  { unfold q. destruct (Z.eqb_spec (zlen (hdr p) + 1) 2).
    - exists need. split; [done|]. lia.
    - exists (hdr_need p). split; [done|]. unfold zlen in *. lia. }
  clearbody q. destruct Hq as (n & -> & Hqn). cbn [hdr_need set_hdr].
  destruct ((2 <=? _) && (_ =? n)) eqn:Edone; bool_props.
  - destruct (ws_begin_frame _) as [ok p'] eqn:Eb.
    apply ws_begin_frame_frame in Eb as (E1 & E2 & E3 & E4 & E5 & E6 & E7 & E8 & E9 & E10).
    simpl in E1, E2, E3, E5, E6, E7, E9. destruct ok; [|done].
    assert (Hm' : zlen (msg p') <= max_message p').
    { rewrite E5. destruct E9 as [->| ->]; [done|]. change (zlen []) with 0. lia. }
    simpl. destruct (Z.eqb_spec (payload_remaining p') 0).
    + destruct (ws_frame_done _) as [p'' evs] eqn:Ed.
      eapply ws_frame_done_inv; [exact Ed|simpl..]; congruence || lia.
    + pose proof (frame_len_nonneg (set_hdr (hdr p ++ [b]) n p) Hh).
      constructor; simpl; try done; rewrite ?E4, ?E5, ?E6 in *; try congruence; try lia; auto with holy.
      * intros _. split; [done|lia].
      * intros _ Hcc. destruct (E10 eq_refl Hcc) as [-> ?]. change (zlen []) with 0. lia.
  - constructor; simpl; try done; rewrite ?Hp; try done; unfold zlen in *; rewrite ?length_app; simpl.
    + apply andb_false_iff in Edone as [E|E]; bool_props; lia.
    + intros H2. apply andb_false_iff in Edone as [E|E]; bool_props; lia.
Qed.

(** The parser after a run of [n] payload bytes, before a completed frame is
    handed over. *)
Lemma feed_payload_inv p data :
  ws_inv p -> in_payload p = true -> data <> [] ->
  match feed_payload p data with
  | (FeedOk p' _, n) => ws_inv p' /\ (1 <= n <= length data)%nat
  | (FeedErr p' evs, _) => dead p' = true /\ evs = []
  | (OutOfFuel, _) => False
  end.
Proof.
  intros Hi Hp Hne. destruct Hi as [Hd Hhb Hs Hn Hpay Hctl Hmax Hm Hc].
  destruct (Hpay Hp) as [Hh Hrem]. specialize (Hctl Hp).
  assert (Hav : 1 <= zlen data) by (by apply zlen_pos).
  unfold WsFrame.feed_payload.
  set (n := if zlen data <? payload_remaining p then _ else _).
  assert (Hnb : 1 <= n <= zlen data /\ n <= payload_remaining p)
    by (unfold n; case_if; lia).
  assert (Hnn : (1 <= Z.to_nat n <= length data)%nat) by (unfold zlen in *; lia).
  set (chunk := take (Z.to_nat n) data).
  assert (Hlen : zlen chunk = n) by (unfold chunk, zlen; rewrite length_take; lia).
  set (o := if cur_control p then _ else _).
  assert (Ho : match o with
    | None => True
    | Some q => dead q = false /\ hdr q = [] /\ in_payload q = true /\
        max_message q = max_message p /\ payload_remaining q = payload_remaining p /\
        zlen (msg q) <= max_message p /\ 0 <= msg_cap q /\ cur_control q = cur_control p /\
        (cur_control p = true -> zlen (ctrl q) = zlen (ctrl p) + n)
    end).
  { unfold o. destruct (cur_control p) eqn:Ecc.
    - simpl. rewrite zlen_app, Hlen. repeat split; auto.
    - destruct (ws_msg_append p chunk) as [q|] eqn:Ea; [|done].
      apply ws_msg_append_inv in Ea as (cap & -> & ? & ?); [|done..]. simpl. repeat split; auto. done. }
  clearbody o. destruct o as [q|]; [|done].
  destruct Ho as (Qd & Qh & Qp & Qmax & Qr & Qm & Qc & Qcc & Qctl). simpl. rewrite Qr.
  destruct (Z.eqb_spec (payload_remaining p - n) 0).
  - destruct (ws_frame_done _) as [q' evs] eqn:Ed. split; [|done].
    eapply ws_frame_done_inv; [exact Ed|simpl; congruence || lia..].
  - split; [|done]. constructor; simpl; rewrite ?Qh, ?Qmax; try done; auto with holy;
      try (simpl; lia); try (intros _; split; [done|lia]).
    intros _ Hcc. rewrite Qcc in Hcc. rewrite Qctl by done. specialize (Hctl Hcc). lia.
Qed.

(** One round of the loop of [ws_parser_feed]. *)
Definition feed_step (p : WsParser) (data : bytes) : feed_result * nat :=
  if in_payload p then feed_payload p data
  else match data with [] => (FeedOk p [], O) | b :: _ => (feed_header_byte p b, 1%nat) end.

Lemma feed_step_inv p data :
  ws_inv p -> bytes_ok data -> data <> [] ->
  match feed_step p data with
  | (FeedOk p' _, n) => ws_inv p' /\ (1 <= n <= length data)%nat
  | (FeedErr p' evs, _) => dead p' = true /\ evs = []
  | (OutOfFuel, _) => False
  end.
Proof.
  intros Hi Hb Hne. unfold feed_step. destruct (in_payload p) eqn:Ep.
  - by apply feed_payload_inv.
  - destruct data as [|b data]; [done|]. apply bytes_ok_cons in Hb as [Hb _].
    pose proof (feed_header_byte_inv p b Hi Ep Hb) as H.
    destruct (feed_header_byte p b); [|done..]. simpl. split; [done|lia].
Qed.

Definition add_events (evs : list WsEvent) (r : feed_result) : feed_result :=
  match r with
  | FeedOk p e => FeedOk p (evs ++ e)
  | FeedErr p e => FeedErr p (evs ++ e)
  | OutOfFuel => OutOfFuel
  end.

Lemma feed_loop_unfold fuel p data acc :
  data <> [] ->
  feed_loop (S fuel) p data acc =
  match feed_step p data with
  | (FeedOk p' evs, n) => feed_loop fuel p' (drop n data) (acc ++ evs)
  | (FeedErr p' evs, _) => FeedErr p' (acc ++ evs)
  | (OutOfFuel, _) => OutOfFuel
  end.
Proof.
  intros Hne. destruct data as [|b data]; [done|].
  cbn [WsFrame.feed_loop]. unfold feed_step. destruct (in_payload p).
  - by destruct (feed_payload p (b :: data)) as [[] n].
  - by destruct (feed_header_byte p b).
Qed.

Lemma feed_loop_acc fuel p data acc :
  feed_loop fuel p data acc = add_events acc (feed_loop fuel p data []).
Proof.
  revert p data acc; induction fuel as [|fuel IH]; intros p data acc;
    (destruct data as [|b data]; [simpl; by rewrite app_nil_r|]); [done|].
  rewrite !feed_loop_unfold by done.
  destruct (feed_step p (b :: data)) as [[p' evs|p' evs|] n]; simpl; [|done..].
  rewrite IH, (IH _ _ evs). destruct (feed_loop fuel p' _ []); simpl; by rewrite ?app_assoc.
Qed.

(** Fuel beyond the length of the input changes nothing. *)
Lemma feed_loop_fuel fuel p data acc :
  ws_inv p -> bytes_ok data -> (length data <= fuel)%nat ->
  feed_loop fuel p data acc = feed_loop (length data) p data acc.
Proof.
  intros Hi Hb Hl. remember (length data) as m eqn:Em.
  assert (Hm : (length data <= m)%nat) by lia. clear Em.
  revert fuel p data acc Hi Hb Hl Hm; induction m as [|m IH]; intros fuel p data acc Hi Hb Hl Hm.
  - destruct data; [by destruct fuel|simpl in *; lia].
  - destruct data as [|b data]; [by destruct fuel|]. destruct fuel as [|fuel]; [lia|].
    rewrite !feed_loop_unfold by done.
    pose proof (feed_step_inv p (b :: data) Hi Hb ltac:(done)) as Hs.
    destruct (feed_step p (b :: data)) as [[p' evs|p' evs|] n]; [|done..].
    destruct Hs as [Hi' Hn]. apply IH; auto with holy; rewrite ?length_drop; simpl in *; lia.
Qed.

(** ** Chunk independence *)

Definition run (p : WsParser) (data : bytes) : feed_result := feed_loop (length data) p data [].

Lemma run_step p data :
  ws_inv p -> bytes_ok data -> data <> [] ->
  run p data =
  match feed_step p data with
  | (FeedOk p' evs, n) => add_events evs (run p' (drop n data))
  | (FeedErr p' evs, _) => FeedErr p' evs
  | (OutOfFuel, _) => OutOfFuel
  end.
Proof.
  intros Hi Hb Hne. unfold run. destruct data as [|b data]; [done|].
  cbn [length]. rewrite feed_loop_unfold by done.
  pose proof (feed_step_inv p (b :: data) Hi Hb Hne) as Hs.
  destruct (feed_step p (b :: data)) as [[p' evs|p' evs|] n]; [|done..].
  destruct Hs as [Hi' Hn]. cbn [app]. rewrite feed_loop_acc. f_equal.
  apply feed_loop_fuel; auto with holy. rewrite length_drop. simpl in *. lia.
Qed.

(** Two outcomes a caller cannot tell apart: the same parser and events, or
    two dead parsers after the same events. *)
Inductive feed_equiv : feed_result -> feed_result -> Prop :=
  | fe_ok p evs : feed_equiv (FeedOk p evs) (FeedOk p evs)
  | fe_err p q evs : dead p = true -> dead q = true ->
      feed_equiv (FeedErr p evs) (FeedErr q evs).

#[export] Instance add_events_proper evs : Proper (feed_equiv ==> feed_equiv) (add_events evs).
Proof. intros r r' []; simpl; by constructor. Qed.

(** The loop never runs out of fuel; a failure leaves a dead parser, a success
    one that satisfies the invariant. *)
Lemma run_total p data :
  ws_inv p -> bytes_ok data ->
  match run p data with
  | FeedOk p' _ => ws_inv p'
  | FeedErr p' _ => dead p' = true
  | OutOfFuel => False
  end.
Proof.
  revert p; induction data as [data IH] using length_ind. intros p Hi Hb.
  destruct data as [|b data]; [done|]. rewrite run_step by done.
  pose proof (feed_step_inv p (b :: data) Hi Hb ltac:(done)) as Hs.
  destruct (feed_step p (b :: data)) as [[p' evs|p' evs|] n]; [|naive_solver..].
  destruct Hs as [Hi' Hn]. specialize (IH (drop n (b :: data))).
  rewrite length_drop in IH. specialize (IH ltac:(simpl in *; lia) p' Hi' (bytes_ok_drop n _ Hb)).
  by destruct (run p' (drop n (b :: data))).
Qed.

Lemma run_refl p data : ws_inv p -> bytes_ok data -> feed_equiv (run p data) (run p data).
Proof.
  intros Hi Hb. pose proof (run_total p data Hi Hb). destruct (run p data); [by constructor..|done].
Qed.

Lemma run_nil p : run p [] = FeedOk p [].
Proof. done. Qed.

Lemma add_events_nil r : add_events [] r = r.
Proof. by destruct r. Qed.

Lemma add_events_app e1 e2 r : add_events e1 (add_events e2 r) = add_events (e1 ++ e2) r.
Proof. destruct r; simpl; by rewrite ?app_assoc. Qed.

Section Monotone.
Context (realloc_mono : forall c c', c' <= c -> realloc_ok c = true -> realloc_ok c' = true).

Lemma ws_msg_append_over p d :
  d <> [] -> max_message p < zlen (msg p) + zlen d -> ws_msg_append p d = None.
Proof.
  intros Hd%zlen_pos Hm. unfold WsFrame.ws_msg_append.
  rewrite (proj2 (Z.eqb_neq (zlen d) 0)), (proj2 (Z.ltb_lt (max_message p) _)) by lia. done.
Qed.

Lemma ws_msg_append_app p a b :
  0 < max_message p <= 2 ^ 63 -> zlen (msg p) <= max_message p -> 0 <= msg_cap p ->
  a <> [] -> b <> [] ->
  ws_msg_append p (a ++ b) =
  match ws_msg_append p a with Some q => ws_msg_append q b | None => None end.
Proof using realloc_mono.
  intros Hmax Hm Hc Ha Hb. pose proof (zlen_pos a Ha) as Pa. pose proof (zlen_pos b Hb) as Pb.
  destruct (Z.lt_ge_cases (max_message p) (zlen (msg p) + zlen (a ++ b))) as [Ho|Ho].
  { rewrite ws_msg_append_over by (destruct a; done).
    destruct (ws_msg_append p a) as [q|] eqn:Eq; [|done].
    apply ws_msg_append_inv in Eq as (cap & -> & _ & _); [|done..].
    symmetry. apply ws_msg_append_over; [done|]. simpl. rewrite !zlen_app in *. lia. }
  unfold WsFrame.ws_msg_append. rewrite zlen_app in *.
  set (la := zlen a) in *. set (lb := zlen b) in *. set (lm := zlen (msg p)) in *.
  assert (Hlm : 0 <= lm) by apply zlen_nonneg.
  rewrite (proj2 (Z.eqb_neq (la + lb) 0)), (proj2 (Z.eqb_neq la 0)) by lia.
  rewrite (proj2 (Z.ltb_ge (max_message p) (lm + (la + lb)))),
    (proj2 (Z.ltb_ge (max_message p) (lm + la))) by lia.
  set (base := if negb (msg_cap p =? 0) then msg_cap p else 4096).
  assert (Hbase : 0 < base) by (unfold base; case_if; lia).
  destruct (double_until_64_compose base (lm + la) (lm + (la + lb))) as (Hcomp & Hle); [lia..|].
  destruct (Z.ltb_spec (msg_cap p) (lm + la)).
  - rewrite (proj2 (Z.ltb_lt (msg_cap p) (lm + (la + lb)))) by lia.
    set (c1 := double_until 64 base (lm + la)) in *.
    set (c2 := double_until 64 base (lm + (la + lb))) in *.
    destruct (realloc_ok c1) eqn:E1.
    + simpl. rewrite zlen_app. fold lm la lb.
      rewrite (proj2 (Z.eqb_neq lb 0)) by lia.
      replace (lm + la + lb) with (lm + (la + lb)) by lia.
      rewrite (proj2 (Z.ltb_ge (max_message p) (lm + (la + lb)))) by lia.
      rewrite (proj2 (Z.eqb_neq c1 0)) by lia. cbn [negb]. rewrite Hcomp.
      destruct (Z.ltb_spec c1 (lm + (la + lb))) as [Hl|Hl].
      * destruct (realloc_ok c2); [|done]. by rewrite app_assoc.
      * assert (c2 = c1) as ->.
        { rewrite <-Hcomp. by apply double_until_id. }
        rewrite E1, app_assoc. done.
    + destruct (realloc_ok c2) eqn:E2; [|done].
      by rewrite (realloc_mono c2 c1) in E1 by (lia || done).
  - simpl. rewrite zlen_app. fold lm la lb. rewrite (proj2 (Z.eqb_neq lb 0)) by lia.
    replace (lm + la + lb) with (lm + (la + lb)) by lia.
    rewrite (proj2 (Z.ltb_ge (max_message p) (lm + (la + lb)))) by lia.
    fold base. by rewrite app_assoc.
Qed.

(** A run that reaches the end of the frame does not look further. *)
Lemma feed_payload_done p a b :
  payload_remaining p <= zlen a -> feed_payload p (a ++ b) = feed_payload p a.
Proof.
  intros Hr. unfold WsFrame.feed_payload. rewrite zlen_app. pose proof (zlen_nonneg b).
  rewrite !(proj2 (Z.ltb_ge _ (payload_remaining p))) by lia.
  rewrite take_app_le by (unfold zlen in *; lia). done.
Qed.

(** The length and the bytes of a run over [a ++ b] that passes the end of [a]. *)
Lemma run_length_app (a b : bytes) (rem : Z) :
  b <> [] -> zlen a < rem ->
  let nb := if zlen b <? rem - zlen a then zlen b else rem - zlen a in
  let n := if zlen (a ++ b) <? rem then zlen (a ++ b) else rem in
  n = zlen a + nb /\ take (Z.to_nat n) (a ++ b) = a ++ take (Z.to_nat nb) b /\
  Z.to_nat n = (length a + Z.to_nat nb)%nat /\ take (Z.to_nat nb) b <> [].
Proof.
  intros Hb Hr nb n. pose proof (zlen_pos b Hb). pose proof (zlen_nonneg a).
  assert (Hnb : 0 < nb) by (unfold nb; case_if; lia).
  assert (En : n = zlen a + nb).
  { unfold n, nb. rewrite zlen_app. destruct (Z.ltb_spec (zlen a + zlen b) rem);
      case_if; lia. }
  assert (Ez : Z.to_nat n = (length a + Z.to_nat nb)%nat) by (rewrite En; unfold zlen; lia).
  repeat split; [done|by rewrite Ez, take_app_add|done|].
  destruct b; [done|]. replace (Z.to_nat nb) with (S (Z.to_nat (nb - 1))) by lia. done.
Qed.

(** A run cut in two: the first part leaves a parser still in the payload, and
    the second part then does what the whole run does. *)
Lemma feed_payload_split p a b :
  ws_inv p -> in_payload p = true -> a <> [] -> b <> [] -> zlen a < payload_remaining p ->
  match feed_payload p a with
  | (FeedOk p1 evs, n) =>
      evs = [] /\ n = length a /\ in_payload p1 = true /\
      match feed_payload p (a ++ b), feed_payload p1 b with
      | (FeedOk q e, m), (FeedOk q' e', m') => q = q' /\ e = e' /\ m = (length a + m')%nat
      | (FeedErr _ e, _), (FeedErr _ e', _) => e = e'
      | _, _ => False
      end
  | (FeedErr _ e, _) => match feed_payload p (a ++ b) with (FeedErr _ e', _) => e = e' | _ => False end
  | (OutOfFuel, _) => False
  end.
Proof using realloc_mono.
  intros Hi Hp Ha Hb Hr. destruct Hi as [Hd Hhb Hs Hn Hpay Hctl Hmax Hm Hc].
  pose proof (zlen_pos a Ha) as Pa. pose proof (zlen_pos b Hb) as Pb.
  unfold WsFrame.feed_payload. rewrite (proj2 (Z.ltb_lt (zlen a) _)) by lia.
  assert (Hta : Z.to_nat (zlen a) = length a) by (unfold zlen; lia).
  rewrite !Hta, firstn_all.
  destruct (run_length_app a b (payload_remaining p)) as (Hmin & Htk & Hmn & Hcb); [done..|].
  rewrite Htk, Hmn, Hmin.
  set (nb := if zlen b <? payload_remaining p - zlen a then zlen b else payload_remaining p - zlen a) in *.
  set (cb := take (Z.to_nat nb) b) in *.
  destruct (cur_control p) eqn:Ecc.
  - simpl. rewrite (proj2 (Z.eqb_neq (payload_remaining p - zlen a) 0)) by lia. simpl.
    rewrite Ecc. fold nb cb. simpl. rewrite <-app_assoc.
    replace (payload_remaining p - (zlen a + nb)) with (payload_remaining p - zlen a - nb) by lia.
    repeat split; auto. destruct (_ =? 0); [|done].
    by destruct (ws_frame_done _).
  - rewrite ws_msg_append_app by done. destruct (ws_msg_append p a) as [q|] eqn:Ea; [|done].
    apply ws_msg_append_inv in Ea as (cap & -> & ? & ?); [|done..]. simpl.
    rewrite (proj2 (Z.eqb_neq (payload_remaining p - zlen a) 0)) by lia. simpl.
    rewrite Ecc. fold nb cb. repeat split; auto.
    assert (Hap : WsFrame.ws_msg_append realloc_ok
        (set_remaining (payload_remaining p - zlen a) (set_msg (msg p ++ a) cap p)) cb =
      option_map (set_remaining (payload_remaining p - zlen a))
        (ws_msg_append (set_msg (msg p ++ a) cap p) cb)).
    { unfold WsFrame.ws_msg_append. simpl. repeat case_if; done. }
    rewrite Hap. destruct (ws_msg_append (set_msg (msg p ++ a) cap p) cb) as [q|] eqn:Eb; [|done].
    apply ws_msg_append_inv in Eb as (cap' & -> & ? & ?); [|done..]. simpl.
    replace (payload_remaining p - (zlen a + nb)) with (payload_remaining p - zlen a - nb) by lia.
    destruct (_ =? 0); [|done]. by destruct (ws_frame_done _).
Qed.

(** What feeding [b] after an outcome gives. *)
Definition and_then (r : feed_result) (b : bytes) : feed_result :=
  match r with FeedOk p evs => add_events evs (run p b) | _ => r end.

Lemma and_then_add_events evs r b : and_then (add_events evs r) b = add_events evs (and_then r b).
Proof. destruct r; simpl; by rewrite ?add_events_app. Qed.

Lemma run_app p a b :
  ws_inv p -> bytes_ok a -> bytes_ok b -> feed_equiv (run p (a ++ b)) (and_then (run p a) b).
Proof using realloc_mono.
  revert p; induction a as [a IH] using length_ind. intros p Hi Ha Hb.
  destruct a as [|x a']; [simpl; rewrite add_events_nil; by apply run_refl|].
  destruct b as [|y b'].
  { rewrite app_nil_r. pose proof (run_total p (x :: a') Hi Ha) as Ht.
    destruct (run p (x :: a')); simpl; rewrite ?app_nil_r; [by constructor..|done]. }
  set (a := x :: a') in *. set (b := y :: b') in *.
  assert (Na : a <> []) by done. assert (Nb : b <> []) by done.
  assert (Nab : a ++ b <> []) by done. clearbody a b. clear x a' y b'.
  assert (Hab : bytes_ok (a ++ b)) by (by apply bytes_ok_app).
  pose proof (feed_step_inv p a Hi Ha Na) as Hsa.
  (* when the step looks at [a] alone, the induction hypothesis applies *)
  assert (Hsame : feed_step p (a ++ b) = feed_step p a ->
    feed_equiv (run p (a ++ b)) (and_then (run p a) b)).
  { intros E. rewrite (run_step p (a ++ b)), (run_step p a), E by done.
    destruct (feed_step p a) as [[p' evs|p' evs|] n]; [|by destruct Hsa; simplify_eq; constructor|done].
    destruct Hsa as [Hi' Hn]. rewrite and_then_add_events, drop_app_le by lia.
    apply add_events_proper. apply IH; auto with holy. rewrite length_drop. simpl in *. lia. }
  destruct (in_payload p) eqn:Ep; [|apply Hsame; unfold feed_step; rewrite Ep; by destruct a].
  destruct (Z.lt_ge_cases (zlen a) (payload_remaining p)) as [Hr|Hr].
  2:{ apply Hsame. unfold feed_step. rewrite Ep. by apply feed_payload_done. }
  clear Hsame IH. pose proof (feed_payload_split p a b Hi Ep Na Nb Hr) as Hs.
  pose proof (feed_step_inv p (a ++ b) Hi Hab Nab) as Hsab.
  rewrite (run_step p (a ++ b)), (run_step p a) by done.
  unfold feed_step in *. rewrite Ep in *.
  destruct (feed_payload p a) as [[p1 evs|p1 evs|] n]; [| |done].
  - destruct Hs as (-> & -> & Ep1 & Hs). destruct Hsa as [Hi1 _].
    rewrite drop_all, run_nil. simpl. rewrite (run_step p1 b) by done.
    pose proof (feed_step_inv p1 b Hi1 Hb Nb) as Hsb.
    unfold feed_step in *. rewrite Ep1 in *.
    destruct (feed_payload p (a ++ b)) as [[q e|q e|] m], (feed_payload p1 b) as [[q' e'|q' e'|] m'];
      try done.
    + destruct Hs as (-> & -> & ->). rewrite drop_app_add, add_events_nil.
      apply add_events_proper, run_refl; [naive_solver|auto with holy].
    + subst. simpl. constructor; naive_solver.
  - destruct (feed_payload p (a ++ b)) as [[]]; [done| |done].
    simpl in *. destruct Hsa, Hsab. simplify_eq. by constructor.
Qed.
End Monotone.
End FeedInvariant.

(** ** Frames on the wire, by the RFC

    An unmasked server frame, and its length field. *)
Definition be64 (n : Z) : bytes := map (fun i => (n / 2 ^ (8 * i)) mod 256) [7; 6; 5; 4; 3; 2; 1; 0].
Definition len_field (n : Z) : bytes :=
  if n <? 126 then [n]
  else if n <=? 65535 then [126; n / 256; n mod 256]
  else 127 :: be64 n.
Definition first_byte (op : Z) (fin rsv1 : bool) : Z :=
  (if fin then 128 else 0) + (if rsv1 then 64 else 0) + op.
Definition server_frame (op : Z) (fin rsv1 : bool) (payload : bytes) : bytes :=
  first_byte op fin rsv1 :: len_field (zlen payload) ++ payload.

Lemma first_byte_fields op fin rsv1 :
  0 <= op < 16 ->
  let b := first_byte op fin rsv1 in
  flag b 128 = fin /\ flag b 64 = rsv1 /\ Z.land b 15 = op /\ flag b 48 = false /\ is_byte b.
Proof.
  intros Ho b.
  assert (H : eqb (flag b 128) fin && eqb (flag b 64) rsv1 && (Z.land b 15 =? op) &&
              negb (flag b 48) = true).
  { revert b. apply (range_check (fun op => let b := first_byte op fin rsv1 in
      eqb (flag b 128) fin && eqb (flag b 64) rsv1 && (Z.land b 15 =? op) &&
      negb (flag b 48)) 16); [|done]. destruct fin, rsv1; reflexivity. }
  bool_props. repeat split; try (by apply eqb_prop); try done;
    unfold b, first_byte; destruct fin, rsv1; lia.
Qed.

Lemma low7 n : 0 <= n < 128 -> flag n 128 = false /\ Z.land n 127 = n.
Proof.
  intros H. pose proof (range_check (fun n => negb (flag n 128) && (Z.land n 127 =? n)) 128
    eq_refl n H) as E. simpl in E. bool_props. done.
Qed.

Lemma be_step n j k :
  0 <= n < 2 ^ 64 -> 0 <= j -> k = j + 1 ->
  Z.lor (wrap64 (Z.shiftl (n / 2 ^ (8 * k)) 8)) ((n / 2 ^ (8 * j)) mod 256) = n / 2 ^ (8 * j).
Proof.
  intros Hn Hj ->. replace (8 * (j + 1)) with (8 * j + 8) by lia.
  rewrite Z.pow_add_r, <-Z.div_div by lia. change (2 ^ 8) with 256.
  set (q := n / 2 ^ (8 * j)).
  assert (Hq : 0 <= q < 2 ^ 64).
  { unfold q. split; [apply Z.div_pos; lia|]. apply Z.div_lt_upper_bound; [lia|].
    assert (1 <= 2 ^ (8 * j)) by (pose proof (Z.pow_pos_nonneg 2 (8 * j)); lia). nia. }
  pose proof (Z.div_mod q 256 ltac:(lia)). pose proof (Z.mod_pos_bound q 256 ltac:(lia)).
  rewrite Z.shiftl_mul_pow2 by lia. unfold wrap64. rewrite Z.mod_small by lia.
  rewrite lor_disjoint_add by lia. lia.
Qed.

(** The length field is read back, and is as long as the header announces. *)
Lemma len_field_spec n b0 need p :
  0 <= n < 2 ^ 64 -> frame_len (set_hdr (b0 :: len_field n) need p) = n.
Proof.
  intros Hn. unfold len_field, frame_len, hdr_at. cbn [hdr set_hdr].
  destruct (Z.ltb_spec n 126); [|destruct (Z.leb_spec n 65535)].
  - cbn [nth]. rewrite (proj2 (low7 n ltac:(lia))). by rewrite (proj2 (Z.ltb_lt n 126)).
  - cbn [nth]. change (Z.land 126 127) with 126.
    change (126 <? 126) with false. change (126 =? 126) with true. cbv iota.
    rewrite lor_shiftl_add; [|lia|apply Z.mod_pos_bound; lia].
    change (2 ^ 8) with 256. pose proof (Z.div_mod n 256 ltac:(lia)). lia.
  - cbn [nth be64 map fold_left Nat.add]. change (Z.land 127 127) with 127.
    change (127 <? 126) with false. change (127 =? 126) with false. cbv iota.
    assert (Hz : 0 = n / 2 ^ (8 * 8)) by (symmetry; apply Z.div_small; exact Hn).
    rewrite Hz at 1. rewrite (be_step n 7 8) by lia.
    rewrite (be_step n 6 7), (be_step n 5 6), (be_step n 4 5), (be_step n 3 4),
      (be_step n 2 3), (be_step n 1 2), (be_step n 0 1) by lia. change (2 ^ (8 * 0)) with 1. apply Z.div_1_r.
Qed.

(** ** Parsing a wire frame *)

Section Wire.
Context (realloc_ok : Z -> bool).
#[local] Abbreviation run := (run realloc_ok).
#[local] Abbreviation and_then := (and_then realloc_ok).

Lemma run_header_byte p b rest :
  ws_inv p -> in_payload p = false -> is_byte b -> bytes_ok rest ->
  run p (b :: rest) = and_then (feed_header_byte p b) rest.
Proof.
  intros Hi Hp Hb Hr. rewrite run_step by (done || by apply bytes_ok_cons).
  unfold feed_step. rewrite Hp. by destruct (feed_header_byte p b).
Qed.

(** The extended length bytes, once the second byte has announced them. *)
Lemma run_header_tail tl p rest :
  ws_inv p -> in_payload p = false -> (2 <= length (hdr p))%nat -> tl <> [] ->
  hdr_need p = zlen (hdr p) + zlen tl -> bytes_ok (tl ++ rest) ->
  run p (tl ++ rest) = and_then (header_complete (set_hdr (hdr p ++ tl) (hdr_need p) p)) rest.
Proof.
  revert p; induction tl as [|b tl IH]; intros p Hi Hp H2 Hne Hn Hb; [done|].
  cbn [app] in *. apply bytes_ok_cons in Hb as [Hb Hr].
  rewrite run_header_byte by done.
  assert (Hlen : zlen (hdr p ++ [b]) = zlen (hdr p) + 1) by (rewrite zlen_app; done).
  assert (Hfeed : feed_header_byte p b =
    if zlen (hdr p) + 1 =? hdr_need p
    then header_complete (set_hdr (hdr p ++ [b]) (hdr_need p) p)
    else FeedOk (set_hdr (hdr p ++ [b]) (hdr_need p) p) []).
  { unfold feed_header_byte. rewrite Hlen.
    rewrite (proj2 (Z.eqb_neq (zlen (hdr p) + 1) 2)) by (unfold zlen; lia). cbn [andb].
    rewrite (proj2 (Z.leb_le 2 _)) by (unfold zlen; lia). done. }
  pose proof (feed_header_byte_inv realloc_ok p b Hi Hp Hb) as Hinv.
  rewrite Hfeed in *. replace (zlen (b :: tl)) with (1 + zlen tl) in Hn by (unfold zlen; simpl; lia).
  destruct tl as [|b' tl].
  - rewrite (proj2 (Z.eqb_eq _ _)) by (change (zlen []) with 0 in Hn; lia). done.
  - pose proof (zlen_pos (b' :: tl) ltac:(done)).
    rewrite (proj2 (Z.eqb_neq _ _)) in * by lia. cbn [WsFrame.and_then].
    rewrite add_events_nil, IH; simpl; rewrite <-?app_assoc; try done.
    + rewrite length_app. lia.
    + rewrite Hlen. lia.
Qed.

Definition header_need (n : Z) : Z := if n <? 126 then 2 else if n <=? 65535 then 4 else 10.

Lemma len_field_bytes n : 0 <= n < 2 ^ 64 -> bytes_ok (len_field n).
Proof.
  intros Hn. unfold len_field. repeat case_if.
  - repeat constructor; lia.
  - repeat (apply bytes_ok_cons; split; [|]); auto with holy; unfold is_byte; try divmod; lia.
  - unfold be64. cbn [map]. repeat (apply bytes_ok_cons; split; [|]); auto with holy;
      unfold is_byte; [lia|apply Z.mod_pos_bound; lia..].
Qed.

(** A whole header, from an idle parser. *)
Lemma run_header p b0 n rest :
  ws_inv p -> in_payload p = false -> hdr p = [] -> is_byte b0 -> flag b0 48 = false ->
  0 <= n < 2 ^ 64 -> bytes_ok rest ->
  run p (b0 :: len_field n ++ rest) =
  and_then (header_complete (set_hdr (b0 :: len_field n) (header_need n) p)) rest.
Proof.
  intros Hi Hp Hh Hb0 Hf Hn Hr. pose proof (len_field_bytes n Hn) as Hlf.
  assert (Hfr : bytes_ok (len_field n ++ rest)) by (by apply bytes_ok_app).
  rewrite run_header_byte by done.
  pose proof (feed_header_byte_inv realloc_ok p b0 Hi Hp Hb0) as Hi1. revert Hi1.
  unfold feed_header_byte at 1 2. rewrite Hh. cbn [app].
  change (zlen [b0] =? 2) with false. change (2 <=? zlen [b0]) with false. cbn [andb].
  intros Hi1. cbn [WsFrame.and_then]. rewrite add_events_nil.
  set (p1 := set_hdr [b0] (hdr_need p) p) in *.
  unfold header_need, len_field in *. destruct (Z.ltb_spec n 126).
  - cbn [app] in *. apply bytes_ok_cons in Hfr as [Hbn _].
    rewrite run_header_byte by done. f_equal.
    unfold feed_header_byte. simpl. change (zlen [b0; n] =? 2) with true.
    change (2 <=? zlen [b0; n]) with true. unfold hdr_at. simpl. rewrite Hf.
    destruct (low7 n) as [-> ->]; [lia|]. simpl.
    rewrite (proj2 (Z.eqb_neq n 126)), (proj2 (Z.eqb_neq n 127)) by lia. done.
  - set (l7 := if n <=? 65535 then 126 else 127).
    set (tl := if n <=? 65535 then [n / 256; n mod 256] else be64 n).
    replace (if n <=? 65535 then [126; n / 256; n mod 256] else 127 :: be64 n)
      with (l7 :: tl) in * by (unfold l7, tl; by destruct (n <=? 65535)).
    set (need := if n <=? 65535 then 4 else 10).
    cbn [app] in *. apply bytes_ok_cons in Hfr as [Hbn Hft].
    rewrite run_header_byte by done.
    pose proof (feed_header_byte_inv realloc_ok p1 l7 Hi1 Hp Hbn) as Hi2.
    assert (E : feed_header_byte p1 l7 = FeedOk (set_hdr [b0; l7] need p) []).
    { unfold feed_header_byte. simpl. change (zlen [b0; l7] =? 2) with true.
      change (2 <=? zlen [b0; l7]) with true. unfold hdr_at. simpl. rewrite Hf.
      unfold l7, need. by destruct (n <=? 65535). }
    rewrite E in *. cbn [WsFrame.and_then]. rewrite add_events_nil.
    rewrite run_header_tail; try done.
    + unfold tl. by destruct (n <=? 65535).
    + cbn [hdr hdr_need set_hdr]. unfold tl, need. by destruct (n <=? 65535).
Qed.

Lemma ws_msg_append_ok p d :
  (forall c, realloc_ok c = true) -> zlen (msg p) + zlen d <= max_message p ->
  exists cap, ws_msg_append realloc_ok p d = Some (set_msg (msg p ++ d) cap p).
Proof.
  intros Hr Hm. unfold ws_msg_append.
  destruct (Z.eqb_spec (zlen d) 0) as [E|E].
  { assert (d = []) as -> by (destruct d; [done|unfold zlen in E; simpl in E; lia]).
    exists (msg_cap p). rewrite app_nil_r. by destruct p. }
  rewrite (proj2 (Z.ltb_ge (max_message p) _)) by lia.
  case_if; [rewrite Hr|]; eauto.
Qed.
(** A parser between two frames, with [m] collected of a message when [inm]. *)
Record idle (p : WsParser) (inm : bool) (op : Z) (rsv : bool) (m : bytes) : Prop := {
  idle_inv : ws_inv p;
  idle_payload : in_payload p = false;
  idle_hdr : hdr p = [];
  idle_in : in_message p = inm;
  idle_msg : inm = true -> msg_op p = op /\ msg_rsv1 p = rsv /\ msg p = m
}.

(** An accepted data frame header: the first of a message, or a continuation. *)
Lemma begin_data p (first : bool) op rsv fin n need :
  0 <= n < 2 ^ 64 -> op = WsOp_Text \/ op = WsOp_Binary ->
  in_message p = negb first -> (first = true -> rsv = true -> allow_rsv1 p = true) ->
  exists q, ws_begin_frame
      (set_hdr (first_byte (if first then op else WsOp_Continuation) fin (first && rsv) :: len_field n) need p)
    = (true, q) /\
  cur_fin q = fin /\ cur_control q = false /\ payload_remaining q = n /\ in_message q = true /\
  max_message q = max_message p /\ allow_rsv1 q = allow_rsv1 p /\ msg_cap q = msg_cap p /\
  dead q = dead p /\
  (if first then msg_op q = op /\ msg_rsv1 q = rsv /\ msg q = []
   else msg_op q = msg_op p /\ msg_rsv1 q = msg_rsv1 p /\ msg q = msg p).
Proof.
  intros Hn Hop Him Hrsv. unfold ws_begin_frame. rewrite len_field_spec by done.
  change (hdr_at (set_hdr (?b :: _) _ _) 0) with b.
  destruct (first_byte_fields (if first then op else 0) fin (first && rsv)) as (-> & -> & -> & _).
  { destruct first; lia. }
  cbn [allow_rsv1 set_frame set_hdr].
  destruct first; cbn [andb negb] in *.
  - replace (rsv && negb (allow_rsv1 p)) with false.
    2:{ destruct rsv; [|done]. by rewrite Hrsv. }
    assert (flag op 8 = false) as -> by (destruct Hop; by subst).
    assert (negb (op =? 1) && negb (op =? 2) && negb (op =? 0) = false) as ->
      by (destruct Hop; by subst).
    rewrite (proj2 (Z.eqb_neq op 0)) by lia. simpl. rewrite Him. eexists. split; [done|].
    simpl. repeat split; auto.
  - simpl. rewrite Him. eexists. split; [done|]. simpl. repeat split; auto.
Qed.

(** Closing a data frame: the message is delivered on FIN, kept otherwise. *)
Lemma close_data q op rsv fin m :
  cur_control q = false -> cur_fin q = fin -> in_message q = true ->
  msg_op q = op -> msg_rsv1 q = rsv -> msg q = m ->
  dead q = false -> hdr q = [] -> 0 < max_message q <= 2 ^ 63 -> zlen m <= max_message q ->
  0 <= msg_cap q ->
  exists p', ws_frame_done q =
      (p', if fin then [mkEvent WsEvent_Message op m 0 rsv] else []) /\
    max_message p' = max_message q /\ allow_rsv1 p' = allow_rsv1 q /\
    idle (set_in_payload false p') (negb fin) op rsv m.
Proof.
  intros Q1 Q2 Q3 Q4 Q5 Q6 Qd Qh Qm Ql Qc.
  destruct (ws_frame_done q) as [p' evs] eqn:Ed. exists p'.
  pose proof (ws_frame_done_inv q p' evs Ed Qd Qh Qm ltac:(by rewrite Q6) Qc) as Hinv.
  revert Ed. unfold ws_frame_done. rewrite Q1, Q2, Q4, Q5, Q6.
  destruct fin; intros [= <- <-]; (split; [done|]; split; [done|]; split; [done|]);
    by constructor.
Qed.

(** A payload that arrives in one piece, followed by anything. *)
Lemma payload_whole q d rest :
  (forall c, realloc_ok c = true) -> ws_inv q -> cur_control q = false ->
  payload_remaining q = zlen d -> zlen (msg q) + zlen d <= max_message q ->
  exists cap, 0 <= cap /\ feed_payload realloc_ok q (d ++ rest) =
    let (p, evs) := ws_frame_done (set_remaining 0 (set_msg (msg q ++ d) cap q)) in
    (FeedOk (set_in_payload false p) evs, length d).
Proof.
  intros Hre Hi Hcc Hrem Hm. unfold feed_payload. rewrite Hrem, Hcc, zlen_app.
  rewrite (proj2 (Z.ltb_ge (zlen d + zlen rest) _)) by (pose proof (zlen_nonneg rest); lia).
  assert (Hto : Z.to_nat (zlen d) = length d) by (unfold zlen; lia).
  rewrite Hto, take_app_length. destruct (ws_msg_append_ok q d Hre Hm) as [cap Ecap].
  exists cap. rewrite Ecap. split.
  - apply ws_msg_append_inv in Ecap as (cap' & Ecap & ? & _); try apply Hi.
    apply (f_equal msg_cap) in Ecap. simpl in Ecap. by rewrite Ecap.
  - simpl. rewrite Hrem, Z.sub_diag. simpl. by destruct (ws_frame_done _).
Qed.

Lemma data_frame_step p (first : bool) op rsv m fin payload rest :
  (forall c, realloc_ok c = true) -> op = WsOp_Text \/ op = WsOp_Binary ->
  idle p (negb first) op rsv m -> (first = true -> m = []) ->
  (rsv = true -> allow_rsv1 p = true) -> zlen m + zlen payload <= max_message p ->
  bytes_ok payload -> bytes_ok rest ->
  exists p', max_message p' = max_message p /\ allow_rsv1 p' = allow_rsv1 p /\
    idle p' (negb fin) op rsv (m ++ payload) /\
    run p (server_frame (if first then op else WsOp_Continuation) fin (first && rsv) payload ++ rest) =
    add_events (if fin then [mkEvent WsEvent_Message op (m ++ payload) 0 rsv] else []) (run p' rest).
Proof.
  intros Hre Hop [Hi Hp Hh Him Hms] Hfirst Hrsv Hmax Hbp Hbr.
  pose proof (inv_max p Hi) as HM. pose proof (inv_cap p Hi) as Hcap.
  pose proof (inv_dead p Hi) as Hdead. pose proof (zlen_nonneg m) as Hm0.
  assert (Hn : 0 <= zlen payload < 2 ^ 64) by (pose proof (zlen_nonneg payload); lia).
  destruct (first_byte_fields (if first then op else 0) fin (first && rsv))
    as (_ & _ & _ & Hf48 & Hb0); [destruct first; lia|].
  unfold server_frame. cbn [app].
  rewrite <-app_assoc, run_header by (done || by apply bytes_ok_app).
  destruct (begin_data p first op rsv fin (zlen payload) (header_need (zlen payload)))
    as (q & Eb & Q1 & Q2 & Q3 & Q4 & Q5 & Q6 & Q7 & Q8 & Q9); [done..|auto|].
  assert (Qm : msg_op q = op /\ msg_rsv1 q = rsv /\ msg q = m).
  { destruct first; [destruct Q9 as (?&?&?); rewrite Hfirst; auto|].
    destruct Q9 as (->&->&->). by apply Hms. }
  destruct Qm as (Qo & Qr & Qms). clear Q9.
  unfold header_complete. rewrite Eb. set (q' := set_in_payload true (set_hdr [] (hdr_need q) q)).
  change (payload_remaining q') with (payload_remaining q). rewrite Q3.
  destruct (Z.eqb_spec (zlen payload) 0) as [E0|E0].
  - assert (payload = []) as -> by (destruct payload; [done|unfold zlen in E0; simpl in E0; lia]).
    rewrite app_nil_r.
    destruct (close_data q' op rsv fin m) as (p' & Ed & E1 & E2 & E3);
      simpl; try done; try congruence; try lia.
    rewrite Ed. exists (set_in_payload false p'). simpl in *.
    split; [congruence|]. split; [congruence|]. by split.
  - assert (Hne : payload <> []) by (by intros ->).
    cbn [WsFrame.and_then]. rewrite add_events_nil.
    assert (Hq' : ws_inv q').
    { pose proof (zlen_pos payload Hne).
      constructor; simpl; try done; try congruence; rewrite ?Q5, ?Qms; auto with holy; try lia;
        try (intros _; split; [done|lia]); simpl; lia. }
    rewrite run_step; [|done|by apply bytes_ok_app|destruct payload; done].
    unfold feed_step. change (in_payload q') with true. cbv iota.
    destruct (payload_whole q' payload rest) as (cap & Hc & E); simpl; try done; [congruence|].
    rewrite E. change (msg q') with (msg q). rewrite Qms.
    destruct (close_data (set_remaining 0 (set_msg (m ++ payload) cap q')) op rsv fin (m ++ payload))
      as (p' & Ed & E1 & E2 & E3); simpl; rewrite ?zlen_app; try done; try congruence; try lia.
    rewrite Ed, drop_app_length. exists (set_in_payload false p'). simpl in *.
    split; [congruence|]. split; [congruence|]. by split.
Qed.

(** The frames of one message: the first carries the opcode and RSV1, the last
    one FIN. *)
Fixpoint message_frames (first : bool) (op : Z) (rsv1 : bool) (parts : list bytes) : bytes :=
  match parts with
  | [] => []
  | [d] => server_frame (if first then op else WsOp_Continuation) true (first && rsv1) d
  | d :: parts' =>
      server_frame (if first then op else WsOp_Continuation) false (first && rsv1) d ++
      message_frames false op rsv1 parts'
  end.

Lemma server_frame_bytes op fin rsv1 d :
  0 <= op < 16 -> zlen d < 2 ^ 64 -> bytes_ok d -> bytes_ok (server_frame op fin rsv1 d).
Proof.
  intros Ho Hl Hd. unfold server_frame. apply bytes_ok_cons. split.
  - by apply (first_byte_fields op fin rsv1).
  - apply bytes_ok_app. split; [|done]. apply len_field_bytes. pose proof (zlen_nonneg d). lia.
Qed.

Lemma message_frames_bytes first op rsv parts :
  0 <= op < 16 -> zlen (concat parts) < 2 ^ 64 -> bytes_ok (concat parts) ->
  bytes_ok (message_frames first op rsv parts).
Proof.
  intros Ho. revert first; induction parts as [|d parts IH]; intros first Hl Hb; [apply bytes_ok_nil|].
  cbn [concat] in *. rewrite zlen_app in Hl. apply bytes_ok_app in Hb as [Hbd Hbp].
  pose proof (zlen_nonneg d). pose proof (zlen_nonneg (concat parts)).
  assert (Hop : 0 <= (if first then op else 0) < 16) by (destruct first; lia).
  destruct parts as [|d' parts]; [apply server_frame_bytes; lia || done|].
  change (message_frames first op rsv (d :: d' :: parts)) with
    (server_frame (if first then op else 0) false (first && rsv) d ++
     message_frames false op rsv (d' :: parts)).
  apply bytes_ok_app. split; [apply server_frame_bytes; lia || done|].
  apply IH; lia || done.
Qed.

Lemma message_frames_run p (first : bool) op rsv m parts rest :
  (forall c, realloc_ok c = true) -> op = WsOp_Text \/ op = WsOp_Binary ->
  idle p (negb first) op rsv m -> (first = true -> m = []) -> parts <> [] ->
  (rsv = true -> allow_rsv1 p = true) -> zlen m + zlen (concat parts) <= max_message p ->
  bytes_ok (concat parts) -> bytes_ok rest ->
  exists p', max_message p' = max_message p /\ allow_rsv1 p' = allow_rsv1 p /\
    idle p' false op rsv (m ++ concat parts) /\
    run p (message_frames first op rsv parts ++ rest) =
    add_events [mkEvent WsEvent_Message op (m ++ concat parts) 0 rsv] (run p' rest).
Proof.
  intros Hre Hop. revert p first m; induction parts as [|d parts IH];
    intros p first m Hid Hf Hne Hrsv Hmax Hb Hr; [done|].
  cbn [concat] in *. rewrite zlen_app in Hmax. apply bytes_ok_app in Hb as [Hbd Hbp].
  pose proof (zlen_nonneg m). pose proof (zlen_nonneg (concat parts)).
  assert (HM : max_message p <= 2 ^ 63) by apply (inv_max p (idle_inv _ _ _ _ _ Hid)).
  destruct parts as [|d' parts].
  { rewrite app_nil_r. apply (data_frame_step p first op rsv m true); auto with lia. }
  change (message_frames first op rsv (d :: d' :: parts)) with
    (server_frame (if first then op else 0) false (first && rsv) d ++
     message_frames false op rsv (d' :: parts)).
  assert (Hbr : bytes_ok (message_frames false op rsv (d' :: parts) ++ rest)).
  { apply bytes_ok_app. split; [|done]. pose proof (zlen_nonneg d).
    apply message_frames_bytes; lia || done. }
  destruct (data_frame_step p first op rsv m false d _ Hre Hop Hid Hf Hrsv ltac:(lia) Hbd Hbr)
    as (p1 & E1 & E2 & E3 & E4).
  destruct (IH p1 false (m ++ d) E3) as (p2 & F1 & F2 & F3 & F4); try done.
  { by rewrite E2. }
  { rewrite E1, zlen_app. lia. }
  exists p2. rewrite <-app_assoc, E4, F4. rewrite app_assoc.
  split; [congruence|]. split; [congruence|]. split; [done|]. by rewrite add_events_nil.
Qed.
End Wire.

(** ** Client frames *)

Definition client_len_field (n : Z) : bytes :=
  match len_field n with [] => [] | b :: rest => 128 + b :: rest end.

Lemma first_byte_built op (fin rsv1 : bool) :
  0 <= op < 16 ->
  wrap8 (Z.lor (Z.lor (if fin then 128 else 0) (if rsv1 then 64 else 0)) (Z.land op 15)) =
  first_byte op fin rsv1.
Proof.
  intros Ho. apply Z.eqb_eq.
  apply (range_check (fun op => wrap8 (Z.lor (Z.lor (if fin then 128 else 0)
    (if rsv1 then 64 else 0)) (Z.land op 15)) =? first_byte op fin rsv1) 16); [|done].
  destruct fin, rsv1; reflexivity.
Qed.

Lemma len_byte_built n : 0 <= n < 126 -> wrap8 (Z.lor 128 n) = 128 + n.
Proof.
  intros Hn. apply Z.eqb_eq.
  apply (range_check (fun n => wrap8 (Z.lor 128 n) =? 128 + n) 126); [reflexivity|done].
Qed.

(** Everything [ws_frame_build] writes: the header with the mask bit, the key,
    the masked payload. *)
Lemma ws_frame_build_bytes out op fin rsv1 payload key :
  0 <= op < 16 ->
  u8_v (ws_frame_build out op fin rsv1 payload key) =
  u8_v out ++ first_byte op fin rsv1 :: client_len_field (zlen payload) ++ key ++
  mask_loop 0 payload key.
Proof.
  intros Ho. unfold ws_frame_build. rewrite first_byte_built by done.
  set (o1 := u8buf_push out (first_byte op fin rsv1)).
  set (n := zlen payload). assert (Hn : 0 <= n) by apply zlen_nonneg.
  match goal with |- context [u8buf_append (if n <? 126 then ?x else ?y) key] =>
    set (o2 := if n <? 126 then x else y) end.
  assert (H2 : u8_v o2 = u8_v out ++ first_byte op fin rsv1 :: client_len_field n).
  { unfold o2, client_len_field, len_field, o1. cbn [fold_left].
    destruct (Z.ltb_spec n 126); [|destruct (Z.leb_spec n 65535)];
      autorewrite with u8buf; rewrite <-!app_assoc; cbn [app].
    - by rewrite len_byte_built by lia.
    - rewrite shiftr_div by lia. unfold wrap8. rewrite (Z.mod_small (n / 2 ^ 8)) by divmod. done.
    - unfold be64, wrap8. cbn [map]. rewrite !shiftr_div by lia. done. }
  clearbody o2. set (o3 := u8buf_append o2 key).
  assert (H3 : u8_v o3 = u8_v o2 ++ key) by apply u8buf_append_v.
  set (o4 := if negb (n =? 0) then u8buf_append o3 payload else o3).
  assert (H4 : u8_v o4 = u8_v o3 ++ payload).
  { unfold o4. destruct (Z.eqb_spec n 0) as [E|E]; simpl; [|apply u8buf_append_v].
    destruct payload; [by rewrite app_nil_r|]. unfold n, zlen in E. simpl in E. lia. }
  cbn [u8_v]. rewrite H4, take_app_length, drop_app_length, H3, H2.
  by rewrite <-!app_assoc.
Qed.

Lemma mask_loop_length i p key : length (mask_loop i p key) = length p.
Proof. revert i; induction p as [|x p IH]; intros i; simpl; [done|]. by rewrite IH. Qed.

(** Masking twice with the same key restores the payload. *)
Lemma mask_loop_involutive i p key : mask_loop i (mask_loop i p key) key = p.
Proof.
  revert i; induction p as [|x p IH]; intros i; simpl; [done|].
  by rewrite IH, Z.lxor_assoc, Z.lxor_nilpotent, Z.lxor_0_r.
Qed.

(** What a server reads out of a masked frame: the mask bit and key removed,
    the payload unmasked. *)
Definition strip_mask (frame : bytes) : bytes :=
  match frame with
  | b0 :: b1 :: rest =>
      let l7 := Z.land b1 127 in
      let ext := if l7 =? 126 then 2%nat else if l7 =? 127 then 8%nat else O in
      b0 :: b1 - 128 :: take ext rest ++
      mask_loop 0 (drop 4 (drop ext rest)) (take 4 (drop ext rest))
  | _ => frame
  end.

Lemma strip_mask_client op fin rsv1 payload key :
  length key = 4%nat -> zlen payload < 2 ^ 64 ->
  strip_mask (first_byte op fin rsv1 :: client_len_field (zlen payload) ++ key ++
              mask_loop 0 payload key) = server_frame op fin rsv1 payload.
Proof.
  intros Hk Hl. pose proof (zlen_nonneg payload) as H0. set (n := zlen payload) in *.
  assert (Htail : forall tl ext, length tl = ext ->
    take ext (tl ++ key ++ mask_loop 0 payload key) ++
    mask_loop 0 (drop 4 (drop ext (tl ++ key ++ mask_loop 0 payload key)))
      (take 4 (drop ext (tl ++ key ++ mask_loop 0 payload key))) = tl ++ payload).
  { intros tl ext <-. rewrite take_app_length, drop_app_length.
    rewrite <-Hk, take_app_length, drop_app_length. by rewrite mask_loop_involutive. }
  unfold server_frame, client_len_field, len_field. fold n.
  assert (Hl7 : forall k, 0 <= k < 128 -> Z.land (128 + k) 127 = k /\ 128 + k - 128 = k).
  { intros k Hk'. split; [|lia]. rewrite (land_mask _ 7) by lia. divmod. }
  destruct (Z.ltb_spec n 126); [|destruct (Z.leb_spec n 65535)]; cbn [app strip_mask].
  - destruct (Hl7 n) as [-> ->]; [lia|].
    rewrite (proj2 (Z.eqb_neq n 126)), (proj2 (Z.eqb_neq n 127)) by lia.
    do 2 f_equal. by apply (Htail []).
  - destruct (Hl7 126) as [-> ->]; [lia|]. do 2 f_equal.
    by apply (Htail [n / 256; n mod 256]).
  - destruct (Hl7 127) as [-> ->]; [lia|]. do 2 f_equal. by apply (Htail (be64 n)).
Qed.

(** ** Properties *)

(** Memory safety and liveness of the parser. Feeding any bytes to a parser
    that satisfies the invariant terminates with a result; it consumes
    everything and preserves the invariant (the header array, the control
    array and the message ceiling are never exceeded), or it fails and leaves
    a dead parser, and every later feed fails at once without an event. *)
Theorem ws_parser_feed_inv (realloc_ok : Z -> bool) (p : WsParser) (data : bytes) :
  ws_inv p -> bytes_ok data ->
  match ws_parser_feed realloc_ok p data with
  | FeedOk p' _ => ws_inv p'
  | FeedErr p' _ => dead p' = true /\
      forall more, ws_parser_feed realloc_ok p' more = FeedErr p' []
  | OutOfFuel => False
  end.
Proof.
  intros Hi Hb. pose proof (run_total realloc_ok p data Hi Hb) as H.
  unfold ws_parser_feed. rewrite (inv_dead p Hi). fold (run realloc_ok p data).
  destruct (run realloc_ok p data); [done| |done]. split; [done|]. intros. by rewrite H.
Qed.

Definition always (_ : Z) : bool := true.

Lemma ws_parser_feed_inv_witness :
  ws_inv (ws_parser_init 0) /\ bytes_ok [129; 2; 104; 105] /\
  match ws_parser_feed always (ws_parser_init 0) [129; 2; 104; 105] with
  | FeedOk p' _ => ws_inv p'
  | FeedErr p' _ => dead p' = true /\ forall more, ws_parser_feed always p' more = FeedErr p' []
  | OutOfFuel => False
  end.
Proof.
  assert (Hi : ws_inv (ws_parser_init 0)) by (apply ws_parser_init_inv; lia).
  assert (Hb : bytes_ok [129; 2; 104; 105]) by (repeat constructor; lia).
  split; [exact Hi|]. split; [exact Hb|]. exact (ws_parser_feed_inv always _ _ Hi Hb).
Defined.

(** C13. The way the transport cuts the stream does not matter: feeding [a ++ b]
    at once delivers the same events and leaves the same parser as feeding
    [a] and then [b] (or both die after the same events). [realloc] is
    assumed to grant any request smaller than one it grants. *)
Theorem ws_parser_feed_app (realloc_ok : Z -> bool) (p : WsParser) (a b : bytes) :
  (forall c c', c' <= c -> realloc_ok c = true -> realloc_ok c' = true) ->
  ws_inv p -> bytes_ok a -> bytes_ok b ->
  feed_equiv (ws_parser_feed realloc_ok p (a ++ b))
    match ws_parser_feed realloc_ok p a with
    | FeedOk p' evs => add_events evs (ws_parser_feed realloc_ok p' b)
    | r => r
    end.
Proof.
  intros Hmono Hi Ha Hb. unfold ws_parser_feed. rewrite (inv_dead p Hi).
  fold (run realloc_ok p (a ++ b)) (run realloc_ok p a).
  pose proof (run_app realloc_ok Hmono p a b Hi Ha Hb) as H.
  pose proof (run_total realloc_ok p a Hi Ha) as Ht.
  destruct (run realloc_ok p a) as [p' evs|p' evs|]; [|done..].
  rewrite (inv_dead p' Ht). exact H.
Qed.

Lemma ws_parser_feed_app_witness :
  ws_inv (ws_parser_init 0) /\
  feed_equiv (ws_parser_feed always (ws_parser_init 0) ([129; 2] ++ [104; 105]))
    match ws_parser_feed always (ws_parser_init 0) [129; 2] with
    | FeedOk p' evs => add_events evs (ws_parser_feed always p' [104; 105])
    | r => r
    end.
Proof.
  assert (Hi : ws_inv (ws_parser_init 0)) by (apply ws_parser_init_inv; lia).
  split; [exact Hi|].
  apply (ws_parser_feed_app always); [done|exact Hi|repeat constructor; lia..].
Defined.

Lemma ws_parser_init_idle max op rsv :
  0 <= max <= 2 ^ 63 -> idle (ws_parser_init max) false op rsv [].
Proof. intros H. constructor; try done. by apply ws_parser_init_inv. Qed.

(** Reassembly: from a parser between messages, the frames of a text or
    binary message fragmented in any way (RSV1 on the first when negotiated)
    deliver exactly one event, the concatenated payload with the opcode and
    the compression mark of the first frame, provided it fits the ceiling; the
    parser is then ready for the bytes that follow. *)
Theorem ws_message_reassembly (realloc_ok : Z -> bool) p op rsv parts rest :
  (forall c, realloc_ok c = true) -> op = WsOp_Text \/ op = WsOp_Binary ->
  idle p false op rsv [] -> parts <> [] -> (rsv = true -> allow_rsv1 p = true) ->
  zlen (concat parts) <= max_message p -> bytes_ok (concat parts) -> bytes_ok rest ->
  exists p', idle p' false op rsv (concat parts) /\ max_message p' = max_message p /\
    ws_parser_feed realloc_ok p (message_frames true op rsv parts ++ rest) =
    add_events [mkEvent WsEvent_Message op (concat parts) 0 rsv] (ws_parser_feed realloc_ok p' rest).
Proof.
  intros Hre Hop Hid Hne Hrsv Hmax Hb Hr.
  destruct (message_frames_run realloc_ok p true op rsv [] parts rest) as (p' & E1 & E2 & E3 & E4);
    try done.
  exists p'. split; [done|]. split; [done|].
  unfold ws_parser_feed. rewrite (inv_dead p (idle_inv _ _ _ _ _ Hid)).
  rewrite (inv_dead p' (idle_inv _ _ _ _ _ E3)). exact E4.
Qed.

Lemma ws_message_reassembly_witness :
  exists p', idle p' false WsOp_Text false (lit "hello") /\
    max_message p' = max_message (ws_parser_init 0) /\
    ws_parser_feed always (ws_parser_init 0)
      (message_frames true WsOp_Text false [lit "he"; lit ""; lit "llo"] ++ [137; 0]) =
    add_events [mkEvent WsEvent_Message 1 (lit "hello") 0 false] (ws_parser_feed always p' [137; 0]).
Proof.
  apply (ws_message_reassembly always (ws_parser_init 0) 1 false [lit "he"; lit ""; lit "llo"] [137; 0]);
    try done; [by left|by apply ws_parser_init_idle|repeat constructor; lia|repeat constructor; lia].
Defined.

(** The builder and the parser agree on the wire format. Removing the mask
    the way a server does from the frame [ws_frame_build] appended gives a
    well-formed RFC 6455 frame for the payload, and the parser, fed that
    frame in a fresh session, delivers the payload as one message. *)
Theorem ws_frame_build_roundtrip (out : U8Buf) op rsv payload key max :
  op = WsOp_Text \/ op = WsOp_Binary -> length key = 4%nat -> bytes_ok payload ->
  0 < max <= 2 ^ 63 -> zlen payload <= max ->
  exists frame p',
    u8_v (ws_frame_build out op true rsv payload key) = u8_v out ++ frame /\
    strip_mask frame = server_frame op true rsv payload /\
    ws_parser_feed always (ws_parser_allow_compression (ws_parser_init max)) (strip_mask frame) =
    FeedOk p' [mkEvent WsEvent_Message op payload 0 rsv].
Proof.
  intros Hop Hk Hb Hmax Hl.
  eexists. rewrite ws_frame_build_bytes by lia.
  destruct (message_frames_run always (ws_parser_allow_compression (ws_parser_init max))
    true op rsv [] [payload] []) as (p' & _ & _ & _ & E); try done.
  - constructor; try done. apply ws_parser_allow_compression_inv, ws_parser_init_inv. lia.
  - cbn [concat]. rewrite app_nil_r. change (zlen []) with 0.
    change (max_message _) with (if negb (max =? 0) then max else Z.shiftl 64 20).
    rewrite (proj2 (Z.eqb_neq max 0)) by lia. simpl. lia.
  - cbn [concat]. by rewrite app_nil_r.
  - apply bytes_ok_nil.
  - exists p'. split; [done|]. rewrite strip_mask_client by (done || lia). split; [done|].
    cbn [concat app message_frames andb] in E. rewrite !app_nil_r in E. exact E.
Qed.

Lemma ws_frame_build_roundtrip_witness :
  exists frame p',
    u8_v (ws_frame_build (u8buf_init 0) WsOp_Text true false (lit "hi") [1; 2; 3; 4]) = [] ++ frame /\
    strip_mask frame = server_frame WsOp_Text true false (lit "hi") /\
    ws_parser_feed always (ws_parser_allow_compression (ws_parser_init 64)) (strip_mask frame) =
    FeedOk p' [mkEvent WsEvent_Message 1 (lit "hi") 0 false].
Proof.
  apply (ws_frame_build_roundtrip (u8buf_init 0) 1 false (lit "hi") [1; 2; 3; 4] 64);
    [by left|done|apply lit_bytes_ok|lia|done].
Defined.

(** The RFC 6455 (and RFC 7692) rules for a server frame header: reserved bits
    clear, RSV1 only on the first frame of a message and only when negotiated,
    a known opcode in the right place, control frames whole and short. *)
Definition legal_header (allow inm : bool) (b0 n : Z) : bool :=
  let op := Z.land b0 15 in
  let starts := (op =? WsOp_Text) || (op =? WsOp_Binary) in
  let control := (op =? WsOp_Close) || (op =? WsOp_Ping) || (op =? WsOp_Pong) in
  negb (flag b0 48) &&
  (negb (flag b0 64) || (allow && starts)) &&
  ((starts && negb inm) || ((op =? WsOp_Continuation) && inm) ||
   (control && flag b0 128 && (n <=? 125))).

Lemma flag_op_8 op : 0 <= op < 16 -> flag op 8 = (8 <=? op).
Proof.
  intros H. apply eqb_prop.
  exact (range_check (fun op => eqb (flag op 8) (8 <=? op)) 16 eq_refl op H).
Qed.

Lemma ws_begin_frame_legal p b0 n need :
  0 <= n < 2 ^ 64 -> flag b0 48 = false ->
  fst (ws_begin_frame (set_hdr (b0 :: len_field n) need p)) =
  legal_header (allow_rsv1 p) (in_message p) b0 n.
Proof.
  intros Hn Hf. unfold ws_begin_frame, legal_header. rewrite len_field_spec, Hf by done.
  change (hdr_at (set_hdr (?b :: _) _ _) 0) with b.
  assert (Hop : 0 <= Z.land b0 15 < 16).
  { rewrite (land_mask _ 4) by lia. apply Z.mod_pos_bound. lia. }
  set (op := Z.land b0 15) in *. rewrite flag_op_8 by done.
  cbn [allow_rsv1 set_frame set_hdr in_message set_control].
  destruct (flag b0 64), (flag b0 128), (allow_rsv1 p), (in_message p);
    repeat (case_if; simpl); bool_props; try done; try lia;
    repeat match goal with |- context [?x =? ?y] => destruct (Z.eqb_spec x y) end;
    repeat match goal with |- context [?x <=? ?y] => destruct (Z.leb_spec x y) end;
    simpl; try done; lia.
Qed.

Lemma reserved_bits_fail realloc_ok p b0 b1 rest :
  ws_inv p -> in_payload p = false -> hdr p = [] -> is_byte b0 -> is_byte b1 -> bytes_ok rest ->
  flag b1 128 = true \/ flag b0 48 = true ->
  exists q, run realloc_ok p (b0 :: b1 :: rest) = FeedErr q [].
Proof.
  intros Hi Hp Hh Hb0 Hb1 Hr Hbad.
  rewrite run_header_byte by (done || by apply bytes_ok_cons).
  pose proof (feed_header_byte_inv realloc_ok p b0 Hi Hp Hb0) as Hi1. revert Hi1.
  unfold feed_header_byte at 1 2. rewrite Hh. cbn [app].
  change (zlen [b0] =? 2) with false. change (2 <=? zlen [b0]) with false. cbn [andb].
  intros Hi1. cbn [and_then]. rewrite add_events_nil, run_header_byte by done.
  unfold feed_header_byte. simpl. change (zlen [b0; b1] =? 2) with true.
  change (hdr_at _ 1) with b1. change (hdr_at _ 0) with b0. cbn [andb].
  destruct (flag b1 128); [by eexists|]. destruct Hbad as [?| ->]; [done|]. by eexists.
Qed.

(** Protocol violations. From a parser between frames, a complete header
    kills the parser, with no event delivered, exactly when it breaks a rule
    of [legal_header]; a masked frame is refused whatever it says. *)
Theorem ws_header_violations (realloc_ok : Z -> bool) p inm op rsv m b0 n :
  idle p inm op rsv m -> is_byte b0 -> 0 <= n < 2 ^ 64 ->
  ((exists q, ws_parser_feed realloc_ok p (b0 :: len_field n) = FeedErr q []) <->
   legal_header (allow_rsv1 p) inm b0 n = false) /\
  (forall b1, 128 <= b1 < 256 ->
   exists q, ws_parser_feed realloc_ok p [b0; b1] = FeedErr q []).
Proof.
  intros [Hi Hp Hh Him _] Hb0 Hn. unfold ws_parser_feed. rewrite (inv_dead p Hi).
  fold (run realloc_ok p (b0 :: len_field n)). split.
  - destruct (flag b0 48) eqn:Hf.
    { unfold legal_header. rewrite Hf. simpl. split; [done|intros _].
      pose proof (len_field_bytes realloc_ok n Hn) as Hlb. destruct (len_field n) as [|b1 tl] eqn:El.
      - unfold len_field in El. revert El. repeat case_if; done.
      - apply bytes_ok_cons in Hlb as [? ?]. apply reserved_bits_fail; auto. }
    rewrite <-(app_nil_r (len_field n)), run_header by (done || apply bytes_ok_nil).
    subst inm. rewrite <-(ws_begin_frame_legal p b0 n (header_need n)) by done.
    unfold header_complete. destruct (ws_begin_frame _) as [[] q]; simpl.
    + split; [|done]. intros [q' E]. exfalso. revert E.
      destruct (_ =? 0); [destruct (ws_frame_done _)|]; done.
    + split; [done|]. by eexists.
  - intros b1 Hb1. fold (run realloc_ok p [b0; b1]).
    apply reserved_bits_fail; try done; [unfold is_byte; lia|apply bytes_ok_nil|].
    left. pose proof (range_check (fun k => flag (128 + k) 128) 128 eq_refl (b1 - 128) ltac:(lia)) as E.
    simpl in E. replace (128 + (b1 - 128)) with b1 in E by lia. done.
Qed.

Lemma ws_header_violations_witness :
  idle (ws_parser_init 0) false 1 false [] /\
  ((exists q, ws_parser_feed always (ws_parser_init 0) (137 :: len_field 126) = FeedErr q []) <->
   legal_header false false 137 126 = false) /\
  (forall b1, 128 <= b1 < 256 ->
   exists q, ws_parser_feed always (ws_parser_init 0) [137; b1] = FeedErr q []).
Proof.
  split; [by apply ws_parser_init_idle|].
  apply (ws_header_violations always (ws_parser_init 0) false 1 false []);
    [by apply ws_parser_init_idle|split; lia|lia].
Defined.
