(* ===== verification/Url.v ===== *)
(** * core/url: the http(s) URL parser, reference resolution, percent-encoding

    The pointer scans of [url_parse] become scans of lists: [auth], [tail] are
    the bytes [auth .. ae) and [ae .. end) of the code. A [return r] before the
    end leaves [ok] false and the fields assigned so far, as in the code.
    [push_str8f] with [STR8_Fmt] is concatenation of the operands up to their
    first NUL ([pct_s]); operands are assumed to be shorter than 2^31 bytes. *)
From S2P Require Import Prelude String8.

Record ParsedUrl := mkUrl {
  ok : bool;
  https : bool;
  scheme : bytes;
  host : bytes;
  authority : bytes;
  path : bytes;
  port : Z
}.

(** ** Ports *)

Fixpoint parse_port_loop (p : Z) (s : bytes) : Z :=
  match s with
  | [] => p
  | c :: s' =>
      if (c <? ch_0) || (ch_9 <? c) then -1
      else
        let p := wrap32 (p * 10 + (c - ch_0)) in
        if 65535 <? p then -1 else parse_port_loop p s'
  end.
Definition url_parse_port (s : bytes) (def : Z) : Z :=
  match s with [] => def | _ => parse_port_loop 0 s end.

(** ** Parsing *)

(** Offset of the first "://". *)
Fixpoint find_sep (s : bytes) : option nat :=
  match s with
  | [] => None
  | c :: s' =>
      match c, s' with
      | 58, 47 :: 47 :: _ => Some O
      | _, _ => match find_sep s' with Some i => Some (S i) | None => None end
      end
  end.

(** Length of the authority: up to '/', '?' or the end. *)
Fixpoint authority_len (s : bytes) : nat :=
  match s with
  | [] => O
  | c :: s' => if (c =? ch_slash) || (c =? ch_qmark) then O else S (authority_len s')
  end.

Definition bad_authority_byte (c : Z) : bool := (c <=? 32) || (c =? 127).
Definition bad_path_byte (c : Z) : bool := (c =? ch_cr) || (c =? ch_nl) || (c =? 0).

(** [host] and [port] of an authority; [None] is a malformed IPv6 literal. *)
Definition split_host_port (authority : bytes) (def : Z) : option (bytes * Z) :=
  match authority with
  | 91 :: _ =>
      match str8_index_of authority ch_rbrack with
      | None => None
      | Some rb =>
          let host := take (rb - 1) (drop 1 authority) in
          if (rb + 1 <? length authority)%nat then
            if negb (nth (rb + 1) authority 0 =? ch_colon) then None
            else Some (host, url_parse_port (drop (rb + 2) authority) def)
          else Some (host, def)
      end
  | _ =>
      match str8_rindex_of authority ch_colon with
      | None => Some (authority, def)
      | Some colon => Some (take colon authority, url_parse_port (drop (colon + 1) authority) def)
      end
  end.

Definition url_parse (u : bytes) : ParsedUrl :=
  let zero := mkUrl false false [] [] [] [] 0 in
  match find_sep u with
  | None => zero
  | Some sep =>
      let scheme := take sep u in
      let is_https := str8_match_ci scheme (lit "https") in
      if negb is_https && negb (str8_match_ci scheme (lit "http"))
      then mkUrl false false scheme [] [] [] 0
      else
        let rest := drop (sep + 3) u in
        let rest := take (scan_until rest ch_hash) rest in
        let auth := take (authority_len rest) rest in
        let tail := drop (authority_len rest) rest in
        if existsb bad_authority_byte auth || existsb bad_path_byte tail
        then mkUrl false is_https scheme [] [] [] 0
        else
          let authority := match str8_rindex_of auth ch_at with
                           | Some i => drop (i + 1) auth
                           | None => auth
                           end in
          let failed := mkUrl false is_https scheme [] authority [] 0 in
          match split_host_port authority (if is_https then 443 else 80) with
          | None => failed
          | Some (host, port) =>
              if (port <? 0) || (length host =? 0)%nat then failed
              else
                let path := if (0 <? length tail)%nat then tail else lit "/" in
                let path := if (length path =? 0)%nat then lit "/" else path in
                mkUrl true is_https scheme host authority path (wrap16 port)
          end
  end.

(** ** Resolution of a reference *)

Definition url_resolve (base ref : bytes) : bytes :=
  if ok (url_parse ref) then push_str8_copy ref
  else
    let b := url_parse base in
    if negb (ok b) then push_str8_copy ref
    else if str8_starts_with ref (lit "//") then
      pct_s (scheme b) ++ lit ":" ++ pct_s ref
    else if match ref with c :: _ => c =? ch_slash | [] => false end then
      pct_s (scheme b) ++ lit "://" ++ pct_s (authority b) ++ pct_s ref
    else
      let basepath := path b in
      let basepath := match str8_index_of basepath ch_qmark with
                      | Some q => str8_prefix basepath q
                      | None => basepath
                      end in
      let dir := str8_chop_last_slash basepath in
      pct_s (scheme b) ++ lit "://" ++ pct_s (authority b) ++ pct_s dir ++ lit "/" ++ pct_s ref.

(** ** Percent-encoding *)

Definition hex_digits_upper : bytes := Eval vm_compute in lit "0123456789ABCDEF".
Definition hex_digit_upper (v : Z) : Z := nth (Z.to_nat v) hex_digits_upper 0.
Definition unreserved (c : Z) : bool :=
  char_is_alnum c || (c =? ch_minus) || (c =? ch_under) || (c =? ch_dot) || (c =? ch_tilde).
Fixpoint url_encode_component (s : bytes) : bytes :=
  match s with
  | [] => []
  | c :: s' =>
      if unreserved c then c :: url_encode_component s'
      else ch_percent :: hex_digit_upper (Z.shiftr c 4) :: hex_digit_upper (Z.land c 15) ::
           url_encode_component s'
  end.

Example url_ex1 : url_parse (lit "HTTPS://u:p@a@Example.com:8443/p?q#frag") =
  mkUrl true true (lit "HTTPS") (lit "Example.com") (lit "Example.com:8443") (lit "/p?q") 8443.
Proof. reflexivity. Qed.
Example url_ex2 : url_parse (lit "http://[::1]:80?x") =
  mkUrl true false (lit "http") (lit "::1") (lit "[::1]:80") (lit "?x") 80.
Proof. reflexivity. Qed.
Example url_ex3 : ok (url_parse (lit "http://h:99999/")) = false.
Proof. reflexivity. Qed.

(** ** Lemmas on the scans *)

Lemma find_sep_app a r : 58 ∉ a -> find_sep (a ++ 58 :: 47 :: 47 :: r) = Some (length a).
Proof.
  induction a as [|x a IH]; [done|]. intros [Hx Ha]%not_elem_of_cons.
  specialize (IH Ha). cbn [app find_sep length]. rewrite IH.
  destruct x as [|x|x]; try done. repeat (destruct x as [x|x|]; try done).
Qed.

Lemma authority_len_le s : (authority_len s <= length s)%nat.
Proof. induction s as [|c s IH]; simpl; [lia|]. destruct (_ || _); lia. Qed.

Lemma authority_len_app a t :
  Forall (fun c => c <> ch_slash /\ c <> ch_qmark) a ->
  match t with [] => True | c :: _ => c = ch_slash \/ c = ch_qmark end ->
  authority_len (a ++ t) = length a.
Proof.
  induction 1 as [|c a [H1 H2] _ IH]; intros Ht; simpl.
  - destruct t as [|c t]; [done|]. simpl. by destruct Ht; subst.
  - rewrite (proj2 (Z.eqb_neq c 47)), (proj2 (Z.eqb_neq c 63)) by done. simpl. by rewrite IH.
Qed.

Lemma authority_len_spec s :
  Forall (fun c => c <> ch_slash /\ c <> ch_qmark) (take (authority_len s) s) /\
  match drop (authority_len s) s with [] => True | c :: _ => c = ch_slash \/ c = ch_qmark end.
Proof.
  induction s as [|c s [IH1 IH2]]; simpl; [split; [constructor|done]|].
  destruct ((c =? 47) || (c =? 63)) eqn:E; simpl.
  - split; [constructor|]. apply orb_true_iff in E as [E|E]; bool_props; auto.
  - bool_props. auto.
Qed.

Lemma existsb_false (f : Z -> bool) s :
  existsb f s = false <-> Forall (fun c => f c = false) s.
Proof.
  induction s as [|c s IH]; simpl; [split; [constructor|done]|].
  rewrite orb_false_iff, Forall_cons_iff, IH. done.
Qed.

Lemma scheme_no_colon s (a : string) :
  lower s = lit a -> a = "http"%string \/ a = "https"%string ->
  (58 ∉ s) /\ (0 ∉ s).
Proof.
  intros E Ha.
  assert (Hc : forall c, c ∈ s -> char_to_lower c ∈ lit a).
  { intros c Hc. rewrite <-E. unfold lower. by apply list_elem_of_fmap_2. }
  split; intros Hin%Hc; destruct Ha; subst; simpl in Hin;
    repeat (apply elem_of_cons in Hin as [Hin|Hin]; [vm_compute in Hin; discriminate|]);
    by apply not_elem_of_nil in Hin.
Qed.

Lemma scheme_cases s :
  str8_match_ci s (lit "https") || str8_match_ci s (lit "http") = true ->
  (58 ∉ s) /\ (0 ∉ s).
Proof.
  intros [H|H]%orb_true_iff; apply str8_match_ci_eq in H.
  - apply (scheme_no_colon s "https"); auto.
  - apply (scheme_no_colon s "http"); auto.
Qed.

(** ** The inverse of the grammar

    [good_authority]: the bytes an authority without userinfo may hold;
    [good_tail]: an empty path, or one that starts with '/' or '?'. *)
Definition good_authority (a : bytes) : Prop :=
  Forall (fun c => 32 < c /\ c <> 127 /\ c <> ch_slash /\ c <> ch_qmark /\ c <> ch_hash /\ c <> ch_at) a.
Definition good_tail (t : bytes) : Prop :=
  Forall (fun c => bad_path_byte c = false /\ c <> ch_hash) t /\
  match t with [] => True | c :: _ => c = ch_slash \/ c = ch_qmark end.

Definition is_http_scheme (s : bytes) : bool :=
  str8_match_ci s (lit "https") || str8_match_ci s (lit "http").

(** A URL put together from its parts is parsed into them. *)
Lemma url_parse_parts sch auth tail :
  is_http_scheme sch = true -> good_authority auth -> good_tail tail ->
  url_parse (sch ++ lit "://" ++ auth ++ tail) =
  let is_https := str8_match_ci sch (lit "https") in
  match split_host_port auth (if is_https then 443 else 80) with
  | None => mkUrl false is_https sch [] auth [] 0
  | Some (host, port) =>
      if (port <? 0) || (length host =? 0)%nat then mkUrl false is_https sch [] auth [] 0
      else mkUrl true is_https sch host auth (if (0 <? length tail)%nat then tail else lit "/")
             (wrap16 port)
  end.
Proof.
  intros Hs Ha [Ht Ht0]. destruct (scheme_cases _ Hs) as [Hcol _].
  unfold url_parse. change (lit "://" ++ auth ++ tail) with (58 :: 47 :: 47 :: auth ++ tail).
  rewrite find_sep_app by done. rewrite take_app_length.
  assert (Hgo : negb (str8_match_ci sch (lit "https")) && negb (str8_match_ci sch (lit "http")) = false).
  { rewrite <-negb_orb. unfold is_http_scheme in Hs. by rewrite Hs. }
  rewrite Hgo. cbv zeta.
  rewrite drop_app_add. change (drop 3 (58 :: 47 :: 47 :: auth ++ tail)) with (auth ++ tail).
  assert (Hhash : ch_hash ∉ auth ++ tail).
  { rewrite elem_of_app. unfold good_authority in Ha. rewrite Forall_forall in Ha, Ht.
    intros [H|H]; [apply Ha in H|apply Ht in H]; naive_solver. }
  rewrite scan_until_none, firstn_all by done.
  rewrite authority_len_app; [|by eapply Forall_impl; [exact Ha|]; naive_solver|done].
  rewrite take_app_length, drop_app_length.
  assert (E1 : existsb bad_authority_byte auth = false).
  { apply existsb_false. eapply Forall_impl; [exact Ha|]. intros c (?&?&_).
    unfold bad_authority_byte. destruct (Z.leb_spec c 32), (Z.eqb_spec c 127); simpl; lia || done. }
  assert (E2 : existsb bad_path_byte tail = false).
  { apply existsb_false. eapply Forall_impl; [exact Ht|]. naive_solver. }
  rewrite E1, E2. cbn [orb].
  rewrite str8_rindex_of_none.
  2:{ unfold good_authority in Ha. rewrite Forall_forall in Ha. intros H%Ha. naive_solver. }
  destruct (split_host_port auth _) as [[hst prt]|]; [|done].
  destruct ((prt <? 0) || _); [done|]. by destruct tail.
Qed.

Lemma parse_port_loop_bound p s : 0 <= p <= 65535 -> -1 <= parse_port_loop p s <= 65535.
Proof.
  revert p; induction s as [|c s IH]; intros p Hp; simpl; [lia|].
  destruct ((c <? 48) || (57 <? c)); [lia|].
  assert (0 <= wrap32 (p * 10 + (c - 48))) by (apply Z.mod_pos_bound; lia).
  destruct (Z.ltb_spec 65535 (wrap32 (p * 10 + (c - 48)))); [lia|]. apply IH. lia.
Qed.

Lemma url_parse_port_bound s def : 0 <= def <= 65535 -> -1 <= url_parse_port s def <= 65535.
Proof. intros H. destruct s; [simpl; lia|]. apply parse_port_loop_bound. lia. Qed.

Lemma split_host_port_bound a def h p :
  0 <= def <= 65535 -> split_host_port a def = Some (h, p) -> -1 <= p <= 65535.
Proof.
  intros Hd H. pose proof (fun s => url_parse_port_bound s def Hd) as Hb.
  assert (Hor : p = def \/ exists s, p = url_parse_port s def).
  { revert H. unfold split_host_port. repeat case_match; intros [= <- <-]; eauto. }
  destruct Hor as [->|[s ->]]; [lia|]. apply Hb.
Qed.

Lemma split_host_port_sub a def h p :
  split_host_port a def = Some (h, p) -> forall c, c ∈ h -> c ∈ a.
Proof.
  unfold split_host_port.
  repeat case_match; intros [= <- <-] c Hc; eauto using elem_of_take_in, elem_of_drop_in.
  all: apply elem_of_cons; right; eauto using elem_of_take_in, elem_of_drop_in.
Qed.

Lemma url_parse_inv u :
  ok (url_parse u) = true ->
  exists sch auth tail h p,
    is_http_scheme sch = true /\ good_authority auth /\ good_tail tail /\
    split_host_port auth (if str8_match_ci sch (lit "https") then 443 else 80) = Some (h, p) /\
    0 <= p <= 65535 /\ h <> [] /\
    url_parse u = mkUrl true (str8_match_ci sch (lit "https")) sch h auth
      (if (0 <? length tail)%nat then tail else lit "/") p.
Proof.
  unfold url_parse. destruct (find_sep u) as [sep|]; [|done].
  set (sch := take sep u).
  destruct (negb (str8_match_ci sch (lit "https")) && negb (str8_match_ci sch (lit "http"))) eqn:Hs;
    [done|]. cbv zeta.
  set (rest := take _ (drop (sep + 3) u)).
  assert (Hhash : ch_hash ∉ rest) by apply scan_until_notin.
  destruct (authority_len_spec rest) as [Hal Htl].
  set (raw := take (authority_len rest) rest) in *.
  set (tail := drop (authority_len rest) rest) in *.
  assert (Hrt : rest = raw ++ tail) by (symmetry; apply take_drop).
  destruct (existsb bad_authority_byte raw || existsb bad_path_byte tail) eqn:Ebad; [done|].
  apply orb_false_iff in Ebad as [Eb1%existsb_false Eb2%existsb_false].
  set (auth := match str8_rindex_of raw ch_at with Some i => _ | None => _ end).
  assert (Hga : good_authority auth).
  { assert (Hraw : Forall (fun c => 32 < c /\ c <> 127 /\ c <> 47 /\ c <> 63 /\ c <> 35) raw).
    { apply Forall_forall. intros c Hc. rewrite Forall_forall in Hal, Eb1.
      specialize (Hal c Hc). specialize (Eb1 c Hc). unfold bad_authority_byte in Eb1.
      bool_props. repeat split; try lia; try tauto. intros ->. apply Hhash. rewrite Hrt. set_solver. }
    pose proof (str8_rindex_of_spec raw ch_at) as Hr. unfold auth, good_authority.
    destruct (str8_rindex_of raw ch_at) as [i|].
    - destruct Hr as (_ & _ & Hn). apply Forall_forall. intros c Hc.
      rewrite Nat.add_1_r in Hc. rewrite Forall_forall in Hraw.
      assert (c ∈ raw). { rewrite <-(take_drop (S i) raw). set_solver. }
      specialize (Hraw c H). repeat split; try tauto. by intros ->.
    - rewrite Forall_forall in Hraw |- *. intros c Hc. specialize (Hraw c Hc).
      repeat split; try tauto. by intros ->. }
  assert (Hgt : good_tail tail).
  { split; [|done]. rewrite Forall_forall in Eb2 |- *. intros c Hc. split; [by apply Eb2|].
    intros ->. apply Hhash. rewrite Hrt. set_solver. }
  destruct (split_host_port auth _) as [[h p]|] eqn:Esp; [|done].
  destruct ((p <? 0) || (length h =? 0)%nat) eqn:Ep; [done|]. bool_props. intros _.
  assert (Hpb : 0 <= p <= 65535).
  { apply split_host_port_bound in Esp; [lia|]. destruct (str8_match_ci _ _); lia. }
  exists sch, auth, tail, h, p. repeat split; try done; try lia; try apply Hgt.
  - unfold is_http_scheme. rewrite <-negb_orb in Hs. by apply negb_false_iff.
  - by intros ->.
  - unfold wrap16. rewrite Z.mod_small by lia.
    destruct tail; done.
Qed.

Lemma parse_port_loop_digits p s :
  0 <= p <= 65535 -> Forall (fun c => char_is_digit c = true) s ->
  leading_value p s <= 65535 -> parse_port_loop p s = leading_value p s.
Proof.
  intros Hp Hs. revert p Hp; induction Hs as [|c s Hc _ IH]; intros p Hp Hv; simpl in *; [done|].
  rewrite Hc in *. unfold char_is_digit in Hc. bool_props.
  rewrite (proj2 (Z.ltb_ge c 48)), (proj2 (Z.ltb_ge 57 c)) by lia. simpl.
  pose proof (leading_value_ge (p * 10 + (c - 48)) s ltac:(lia)).
  unfold wrap32. rewrite Z.mod_small by lia.
  rewrite (proj2 (Z.ltb_ge 65535 _)) by lia. apply IH; [lia|done].
Qed.

(** [host:port] is split at the last colon. *)
Lemma split_host_port_decimal hst p def md :
  match hst with [] => False | c :: _ => c <> ch_lbrack end -> 0 <= p <= 65535 ->
  split_host_port (hst ++ ch_colon :: str8_from_u64 p 10 md) def = Some (hst, p).
Proof.
  intros Hh Hp. destruct (str8_from_u64_decimal p md) as (Hd & Hv & Hne); [lia|].
  assert (Hnc : ch_colon ∉ str8_from_u64 p 10 md).
  { rewrite Forall_forall in Hd. intros H%Hd. discriminate. }
  assert (Hr := str8_rindex_of_app hst ch_colon _ Hnc).
  assert (Hport : url_parse_port (str8_from_u64 p 10 md) def = p).
  { unfold url_parse_port. destruct (str8_from_u64 p 10 md) eqn:E; [done|]. rewrite <-E in *.
    rewrite parse_port_loop_digits; [done|lia|done|lia]. }
  set (ds := str8_from_u64 p 10 md) in *. clearbody ds.
  assert (Hu : split_host_port (hst ++ ch_colon :: ds) def =
    match str8_rindex_of (hst ++ ch_colon :: ds) ch_colon with
    | None => Some (hst ++ ch_colon :: ds, def)
    | Some colon => Some (take colon (hst ++ ch_colon :: ds),
        url_parse_port (drop (colon + 1) (hst ++ ch_colon :: ds)) def)
    end).
  { destruct hst as [|c hst]; [done|]. cbn [app split_host_port].
    destruct c as [|c|c]; try done. repeat (destruct c as [c|c|]; try done). }
  rewrite Hu, Hr, take_app_length, drop_app_add. do 2 f_equal. exact Hport.
Qed.

(** ** Properties *)

(** C25. What an accepted URL guarantees: an http or https scheme, a non-empty
    host, an authority free of control characters, spaces, userinfo and path
    delimiters, a port that fits in 16 bits, and a request path free of
    CR, LF, NUL and '#', so nothing can be injected into a request line or a
    Host header. The path starts with '/' or, when the URL has no path, with
    the '?' of its query. *)
Theorem url_parse_safe (u : bytes) :
  ok (url_parse u) = true ->
  let r := url_parse u in
  is_http_scheme (scheme r) = true /\
  host r <> [] /\ Forall (fun c => 32 < c /\ c <> 127) (host r) /\
  good_authority (authority r) /\ 0 <= port r <= 65535 /\
  Forall (fun c => bad_path_byte c = false /\ c <> ch_hash) (path r) /\
  exists c t, path r = c :: t /\ (c = ch_slash \/ c = ch_qmark).
Proof.
  intros H. apply url_parse_inv in H
    as (sch & auth & tail & h & p & Hs & Ha & [Ht Ht0] & Hsp & Hp & Hh & ->). simpl.
  split; [done|]. split; [done|]. split.
  { apply Forall_forall. intros c Hc. apply (split_host_port_sub _ _ _ _ Hsp) in Hc.
    unfold good_authority in Ha. rewrite Forall_forall in Ha. apply Ha in Hc. tauto. }
  split; [done|]. split; [done|].
  destruct tail as [|c t]; simpl.
  - split; [by repeat constructor|]. exists 47, []. auto.
  - split; [done|]. exists c, t. auto.
Qed.

Lemma url_parse_safe_witness :
  ok (url_parse (lit "https://host?q=1")) = true /\
  path (url_parse (lit "https://host?q=1")) = lit "?q=1" /\
  (exists c t, path (url_parse (lit "https://host?q=1")) = c :: t /\ (c = ch_slash \/ c = ch_qmark)).
Proof.
  split; [reflexivity|]. split; [reflexivity|].
  apply (url_parse_safe (lit "https://host?q=1")). reflexivity.
Defined.

(** Printing and parsing agree: scheme://host:port followed by a path (or
    a query, or nothing) parses into exactly these parts, for every host of
    authority bytes without a leading bracket and every 16-bit port. *)
Theorem url_parse_roundtrip (sch hst tail : bytes) (p : Z) :
  is_http_scheme sch = true -> good_authority hst ->
  match hst with [] => False | c :: _ => c <> ch_lbrack end ->
  0 <= p <= 65535 -> good_tail tail ->
  url_parse (sch ++ lit "://" ++ (hst ++ ch_colon :: str8_from_u64 p 10 0) ++ tail) =
  mkUrl true (str8_match_ci sch (lit "https")) sch hst (hst ++ ch_colon :: str8_from_u64 p 10 0)
    (if (0 <? length tail)%nat then tail else lit "/") p.
Proof.
  intros Hs Hg Hh Hp Ht.
  rewrite url_parse_parts; [|done| |done].
  - cbv zeta. rewrite split_host_port_decimal by done.
    rewrite (proj2 (Z.ltb_ge p 0)) by lia. destruct hst as [|c hst]; [done|]. simpl.
    unfold wrap16. by rewrite Z.mod_small by lia.
  - apply Forall_app. split; [done|]. constructor; [lia|].
    destruct (str8_from_u64_decimal p 0) as (Hd & _); [lia|].
    eapply Forall_impl; [exact Hd|]. intros c Hc. unfold char_is_digit in Hc. bool_props. lia.
Qed.

Lemma url_parse_roundtrip_witness :
  good_tail (lit "/a?b") /\
  url_parse (lit "https" ++ lit "://" ++ (lit "tls.peet.ws" ++ 58 :: str8_from_u64 8443 10 0) ++ lit "/a?b") =
  mkUrl true true (lit "https") (lit "tls.peet.ws") (lit "tls.peet.ws:8443") (lit "/a?b") 8443.
Proof.
  assert (Ht : good_tail (lit "/a?b")).
  { split; [repeat constructor; discriminate|by left]. }
  split; [exact Ht|].
  apply (url_parse_roundtrip (lit "https") (lit "tls.peet.ws") (lit "/a?b") 8443);
    [reflexivity|repeat constructor; discriminate|done|lia|exact Ht].
Defined.

(** An absolute-path reference stays on the origin of its base: the
    resolved URL parses to the scheme, host, port and authority of the base,
    and its path is the reference itself. *)
Theorem url_resolve_absolute_path (base ref : bytes) :
  ok (url_parse base) = true -> good_tail ref ->
  (exists r, ref = ch_slash :: r) -> str8_starts_with ref (lit "//") = false ->
  let b := url_parse base in
  url_parse (url_resolve base ref) =
  mkUrl true (https b) (scheme b) (host b) (authority b) ref (port b).
Proof.
  intros Hb Ht [r Er] Hnn b. unfold url_resolve.
  assert (Href : ok (url_parse ref) = false).
  { apply not_true_iff_false. intros (sch & au & ta & ho & po & Hs & _ & _ & _ & _ & _ & E)%url_parse_inv.
    unfold url_parse in E. destruct (find_sep ref) as [sep|]; [|discriminate].
    assert (Esch : take sep ref = sch).
    { apply (f_equal scheme) in E. simpl in E. rewrite <-E. by repeat case_match. }
    unfold is_http_scheme in Hs. rewrite <-Esch, Er in Hs.
    apply orb_true_iff in Hs as [Hs|Hs]; apply str8_match_ci_eq in Hs; by destruct sep. }
  rewrite Href. fold b. unfold b. rewrite Hb. cbn [negb]. rewrite Hnn, Er. cbv iota.
  change (47 =? 47) with true. cbv iota. rewrite <-Er.
  apply url_parse_inv in Hb as (sch & auth & tail & h & p & Hs & Ha & _ & Hsp & Hp & Hh & ->).
  cbn [scheme authority https host port].
  rewrite !pct_s_id.
  - rewrite url_parse_parts by done. cbv zeta. rewrite Hsp.
    rewrite (proj2 (Z.ltb_ge p 0)) by lia. destruct h as [|c h]; [done|]. simpl.
    rewrite Er. unfold wrap16. by rewrite Z.mod_small by lia.
  - destruct Ht as [Ht _]. rewrite Forall_forall in Ht. intros H%Ht. naive_solver.
  - unfold good_authority in Ha. rewrite Forall_forall in Ha. intros H%Ha. lia.
  - apply (scheme_cases sch Hs).
Qed.

Lemma url_resolve_absolute_path_witness :
  ok (url_parse (lit "https://u@a.com:444/x/y?z")) = true /\
  url_parse (url_resolve (lit "https://u@a.com:444/x/y?z") (lit "/login?n=1")) =
  mkUrl true true (lit "https") (lit "a.com") (lit "a.com:444") (lit "/login?n=1") 444.
Proof.
  split; [reflexivity|].
  apply (url_resolve_absolute_path (lit "https://u@a.com:444/x/y?z") (lit "/login?n=1")).
  - reflexivity.
  - split; [repeat constructor; discriminate|by left].
  - by exists (lit "login?n=1").
  - reflexivity.
Defined.

(** Percent-decoding, by RFC 3986. *)
Definition hex_val_upper (c : Z) : Z :=
  if char_is_digit c then c - ch_0 else c - ch_A + 10.
Fixpoint percent_decode (s : bytes) : bytes :=
  match s with
  | 37 :: h :: l :: s' => hex_val_upper h * 16 + hex_val_upper l :: percent_decode s'
  | c :: s' => c :: percent_decode s'
  | [] => []
  end.

Lemma percent_decode_byte c s :
  is_byte c ->
  percent_decode (if unreserved c then c :: s
    else ch_percent :: hex_digit_upper (Z.shiftr c 4) :: hex_digit_upper (Z.land c 15) :: s) =
  c :: percent_decode s.
Proof.
  intros Hc. destruct (unreserved c) eqn:Eu.
  - assert (c <> 37) by (by intros ->). cbn [percent_decode].
    destruct c as [|c|c]; try done. repeat (destruct c as [c|c|]; try done).
  - cbn [percent_decode]. f_equal. apply Z.eqb_eq.
    apply (range_check (fun c => hex_val_upper (hex_digit_upper (Z.shiftr c 4)) * 16 +
      hex_val_upper (hex_digit_upper (Z.land c 15)) =? c) 256); [reflexivity|exact Hc].
Qed.

(** Percent-encoding is reversible and safe: decoding gives the bytes back,
    the output holds only unreserved characters and '%', and it fits the
    three-bytes-per-byte buffer the code allocates. *)
Theorem url_encode_component_spec (s : bytes) :
  bytes_ok s ->
  percent_decode (url_encode_component s) = s /\
  Forall (fun c => unreserved c || (c =? ch_percent) = true) (url_encode_component s) /\
  (length (url_encode_component s) <= length s * 3)%nat.
Proof.
  induction s as [|c s IH]; intros Hs; [split; [done|split; [constructor|simpl; lia]]|].
  apply bytes_ok_cons in Hs as [Hc Hs]. destruct (IH Hs) as (E1 & E2 & E3).
  cbn [url_encode_component]. rewrite percent_decode_byte, E1 by done. split; [done|].
  assert (Hhex : forall v, 0 <= v < 16 -> unreserved (hex_digit_upper v) = true).
  { apply (range_check (fun v => unreserved (hex_digit_upper v)) 16). reflexivity. }
  unfold is_byte in Hc. destruct (unreserved c) eqn:Eu; (split; [|simpl; lia]).
  - constructor; [by rewrite Eu|done].
  - constructor; [done|]. constructor; [|constructor; [|done]]; rewrite Hhex; try done.
    + rewrite shiftr_div by lia. split; [apply Z.div_pos; lia|apply Z.div_lt_upper_bound; lia].
    + rewrite (land_mask _ 4) by lia. apply Z.mod_pos_bound. lia.
Qed.

Lemma url_encode_component_spec_witness :
  url_encode_component (lit "a b/") = lit "a%20b%2F" /\
  percent_decode (url_encode_component (lit "a b/")) = lit "a b/".
Proof.
  split; [reflexivity|]. apply (url_encode_component_spec (lit "a b/")). apply lit_bytes_ok.
Defined.
