(* ===== verification/GrowArr.v ===== *)
(** * Growable arrays in an arena

    [HeaderList] (core/header.c) and [CookieJar] (core/cookie.c) keep their
    elements in an array of [cap] slots of which the first [count] are
    written; a full array is copied into one twice as large (the old one is
    abandoned to the arena). A slot that was never written is [None].
    The representation relation [ga_rep a l] says that the array holds the
    list [l]; every operation is proved to refine the operation on lists.
    Sizes are [nat]: an array of 2^63 slots cannot be allocated. *)
From S2P Require Import Prelude.

Record garr (A : Type) := mkGarr {
  ga_v : list (option A);
  ga_count : nat;
  ga_cap : nat
}.
Arguments mkGarr {A}.
Arguments ga_v {A}.
Arguments ga_count {A}.
Arguments ga_cap {A}.

Section growarr.
Context {A : Type}.
Implicit Types (a : garr A) (l : list A).

Definition ga_empty : garr A := mkGarr [] 0 0.

(** [if (count == cap) { newcap = cap ? cap * 2 : init; ... }] *)
Definition ga_grow (init : nat) a : garr A :=
  if (ga_count a =? ga_cap a)%nat then
    let newcap := if (ga_cap a =? 0)%nat then init else (ga_cap a * 2)%nat in
    mkGarr (take (ga_count a) (ga_v a) ++ replicate (newcap - ga_count a) None)
      (ga_count a) newcap
  else a.
(** [v[count++] = x] after growing. *)
Definition ga_push (init : nat) a (x : A) : garr A :=
  let a := ga_grow init a in
  mkGarr (<[ga_count a := Some x]> (ga_v a)) (S (ga_count a)) (ga_cap a).
(** [v[i]], for the written slots. *)
Definition ga_get a (i : nat) : option A :=
  if (i <? ga_count a)%nat then mjoin (ga_v a !! i) else None.
(** [v[i] = x] *)
Definition ga_set a (i : nat) (x : A) : garr A :=
  mkGarr (<[i := Some x]> (ga_v a)) (ga_count a) (ga_cap a).
(** [memmove(&v[i], &v[i+1], (count-i-1) * sizeof *v); count--] *)
Definition ga_remove_at a (i : nat) : garr A :=
  let n := (ga_count a - i - 1)%nat in
  mkGarr
    (if (i + 1 <? ga_count a)%nat
     then take i (ga_v a) ++ take n (drop (i + 1) (ga_v a)) ++ drop (i + n) (ga_v a)
     else ga_v a)
    (ga_count a - 1) (ga_cap a).

(** The written elements, in order. *)
Definition ga_list a : list A := omap id (take (ga_count a) (ga_v a)).

Definition ga_rep a l : Prop :=
  exists rest, ga_v a = (Some <$> l) ++ rest /\ ga_count a = length l /\
               ga_cap a = length (ga_v a).
Definition ga_wf a : Prop := ga_rep a (ga_list a).

Lemma omap_id_fmap l : omap id (Some <$> l) = l.
Proof. induction l as [|x l IH]; [done|]. simpl. f_equal. exact IH. Qed.

Lemma ga_rep_list a l : ga_rep a l -> ga_list a = l.
Proof.
  intros (rest & Hv & Hc & _). unfold ga_list.
  rewrite Hv, Hc, take_app_length' by by rewrite length_fmap. apply omap_id_fmap.
Qed.

Lemma ga_rep_wf a l : ga_rep a l -> ga_wf a.
Proof. intros H. unfold ga_wf. by rewrite (ga_rep_list a l H). Qed.

Lemma ga_empty_rep : ga_rep ga_empty [].
Proof. by exists []. Qed.

Lemma ga_grow_rep init a l :
  (0 < init)%nat -> ga_rep a l -> ga_rep (ga_grow init a) l /\ (length l < ga_cap (ga_grow init a))%nat.
Proof.
  intros Hi (rest & Hv & Hc & Hcap). unfold ga_grow.
  destruct (Nat.eqb_spec (ga_count a) (ga_cap a)) as [E|E].
  - cbv zeta. set (newcap := if (ga_cap a =? 0)%nat then init else (ga_cap a * 2)%nat).
    assert (Hn : (length l < newcap)%nat) by (subst newcap; destruct (Nat.eqb_spec (ga_cap a) 0); lia).
    split; [|exact Hn]. eexists. simpl. rewrite Hv, Hc, take_app_length' by by rewrite length_fmap.
    split; [done|]. split; [done|]. rewrite length_app, length_fmap, length_replicate. lia.
  - split; [by exists rest|]. rewrite Hcap, Hv, length_app, length_fmap in *. lia.
Qed.

Lemma ga_push_rep init a l x :
  (0 < init)%nat -> ga_rep a l -> ga_rep (ga_push init a x) (l ++ [x]).
Proof.
  intros Hi H. destruct (ga_grow_rep init a l Hi H) as [(rest & Hv & Hc & Hcap) Hlt].
  unfold ga_push. cbv zeta. rewrite Hv, Hc.
  rewrite Hcap, Hv, length_app, length_fmap in Hlt.
  destruct rest as [|r rest]; [simpl in Hlt; lia|]. exists rest. simpl.
  rewrite insert_app_r_alt by (rewrite length_fmap; lia).
  rewrite length_fmap, Nat.sub_diag. simpl. rewrite fmap_app, length_app. simpl.
  split; [by rewrite <-app_assoc|]. split; [lia|].
  rewrite Hcap, Hv, !length_app. simpl. lia.
Qed.

Lemma ga_get_rep a l i : ga_rep a l -> ga_get a i = l !! i.
Proof.
  intros (rest & Hv & Hc & _). unfold ga_get. rewrite Hv, Hc.
  destruct (Nat.ltb_spec i (length l)).
  - rewrite lookup_app_l by by rewrite length_fmap. rewrite list_lookup_fmap.
    by destruct (l !! i).
  - symmetry. apply lookup_ge_None. lia.
Qed.

Lemma ga_set_rep a l i x : (i < length l)%nat -> ga_rep a l -> ga_rep (ga_set a i x) (<[i:=x]> l).
Proof.
  intros Hi (rest & Hv & Hc & Hcap). exists rest. simpl.
  rewrite Hv, insert_app_l by by rewrite length_fmap.
  rewrite list_fmap_insert, length_insert.
  split; [done|]. split; [done|]. rewrite Hcap, Hv. by rewrite !length_app, length_insert, !length_fmap.
Qed.

Lemma ga_remove_at_rep a l i :
  (i < length l)%nat -> ga_rep a l -> ga_rep (ga_remove_at a i) (delete i l).
Proof.
  intros Hi (rest & Hv & Hc & Hcap). unfold ga_remove_at. cbv zeta. rewrite Hc.
  assert (Hl : length (delete i l) = (length l - 1)%nat).
  { rewrite length_delete by by apply lookup_lt_is_Some. lia. }
  rewrite delete_take_drop in *.
  exists ((Some <$> drop (length l - 1) l) ++ rest). simpl.
  split; [|split; [lia|]].
  - destruct (Nat.ltb_spec (i + 1) (length l)).
    + rewrite Hv, fmap_app, <-app_assoc. rewrite take_app_le by (rewrite length_fmap; lia).
      rewrite (drop_app_le _ _ (i + 1)) by (rewrite length_fmap; lia).
      rewrite (drop_app_le _ _ (i + _)) by (rewrite length_fmap; lia).
      rewrite !fmap_take, !fmap_drop.
      rewrite take_app_length'; [|rewrite length_drop, length_fmap; lia].
      replace (i + (length l - i - 1))%nat with (length l - 1)%nat by lia.
      by rewrite (Nat.add_1_r i).
    + replace i with (length l - 1)%nat by lia.
      rewrite (drop_ge l) by lia. rewrite app_nil_r, app_assoc, <-fmap_app, take_drop. done.
  - rewrite Hcap. destruct (Nat.ltb_spec (i + 1) (length l)); [|done].
    rewrite Hv, !length_app, !length_take, !length_drop, !length_app, length_fmap. lia.
Qed.

Lemma ga_wf_push init a x : (0 < init)%nat -> ga_wf a ->
  ga_wf (ga_push init a x) /\ ga_list (ga_push init a x) = ga_list a ++ [x].
Proof.
  intros Hi H. pose proof (ga_push_rep init a _ x Hi H) as Hp.
  split; [by eapply ga_rep_wf|by apply ga_rep_list].
Qed.

End growarr.

#[export] Hint Resolve ga_empty_rep : holy.
