(* ===== verification/Header.v ===== *)
(** * Headers: core/header.h, core/header.c, core/header_order.c

    The ordered header list, the fixed-storage header builder, the split of a
    Cookie value into crumbs, the merge of a profile's default headers with
    the caller's, and the reordering of a list by a list of names. *)
From S2P Require Import Prelude String8 GrowArr.

Record Header := mkHeader {
  h_name : bytes;
  h_value : bytes;
  h_flags : Z
}.
(** profile.h: a header the browser sends by default; [None] is a null
    [wire_name]. *)
Record DefaultHeader := mkDefault {
  d_name : bytes;
  d_value : bytes;
  d_wire_name : option bytes
}.

#[export] Instance Header_eq_dec : EqDecision Header.
Proof. solve_decision. Defined.

(** ** HeaderList *)
Abbreviation HeaderList := (garr Header).

Definition header_list_init : HeaderList := ga_empty.
Definition header_list_push (list : HeaderList) (name value : bytes) (flags : Z) : HeaderList :=
  ga_push 8 list (mkHeader name value flags).

(** The loop of [header_list_get_ci]; the pointer it returns is the index of
    the slot. *)
Fixpoint get_ci_loop (list : HeaderList) (name : bytes) (rounds i : nat) : option nat :=
  match rounds with
  | O => None
  | S rounds' =>
      match ga_get list i with
      | Some h => if str8_match_ci (h_name h) name then Some i
                  else get_ci_loop list name rounds' (S i)
      | None => None
      end
  end.
Definition header_list_get_ci (list : HeaderList) (name : bytes) : option nat :=
  get_ci_loop list name (ga_count list) 0.
(** Dereferencing that pointer, for reading and for writing. *)
Definition header_list_value (list : HeaderList) (name : bytes) : option bytes :=
  i ← header_list_get_ci list name; h_value <$> ga_get list i.
Definition header_list_set_value (list : HeaderList) (i : nat) (v : bytes) : HeaderList :=
  match ga_get list i with
  | Some h => ga_set list i (mkHeader (h_name h) v (h_flags h))
  | None => list
  end.
Definition header_list_has_ci (list : HeaderList) (name : bytes) : bool :=
  match header_list_get_ci list name with Some _ => true | None => false end.

(** ** HdrBuf: the caller's storage, no growth *)
Abbreviation HdrBuf := (garr Header).

Definition hdrbuf_init (storage : list (option Header)) (cap : nat) : HdrBuf :=
  mkGarr storage 0 cap.
Definition hdrbuf_add (b : HdrBuf) (name value : bytes) : HdrBuf :=
  if (ga_cap b <=? ga_count b)%nat then b
  else mkGarr (<[ga_count b := Some (mkHeader name value 0)]> (ga_v b)) (ga_count b + 1) (ga_cap b).
Definition hdrbuf_add_opt (b : HdrBuf) (name value : bytes) : HdrBuf :=
  if (0 <? length value)%nat then hdrbuf_add b name value else b.
Definition hdrbuf_lit (b : HdrBuf) (name value : bytes) : HdrBuf :=
  hdrbuf_add b (str8_cstring name) (str8_cstring value).

(** ** Cookie crumbs

    [out] collects the crumbs written (at most [cap]), [n] counts all; each
    round consumes at least two bytes, so [length rest] rounds are enough. *)
Fixpoint crumbs_loop (fuel : nat) (rest : bytes) (out : list bytes) (n cap : nat) : list bytes * nat :=
  let at_ := str8_find rest (lit "; ") in
  let crumb := if at_ <? 0 then rest else str8_prefix rest (Z.to_nat at_) in
  let '(out, n) :=
    if (0 <? length crumb)%nat
    then (if (n <? cap)%nat then out ++ [crumb] else out, (n + 1)%nat)
    else (out, n) in
  if at_ <? 0 then (out, n)
  else match fuel with
       | O => (out, n)
       | S fuel' => crumbs_loop fuel' (str8_skip rest (Z.to_nat at_ + 2)) out n cap
       end.
Definition cookie_crumbs (value : bytes) (cap : nat) : list bytes * nat :=
  crumbs_loop (length value) value [] 0 cap.

(** ** build_ordered_headers *)

(** The first caller header of that name: its value overrides the default. *)
Fixpoint caller_override (caller : list Header) (name : bytes) : option bytes :=
  match caller with
  | [] => None
  | h :: caller' =>
      if str8_match_ci (h_name h) name then Some (h_value h) else caller_override caller' name
  end.
Fixpoint ordered_defaults (defaults : list DefaultHeader) (caller : list Header) (out : HeaderList) : HeaderList :=
  match defaults with
  | [] => out
  | d :: defaults' =>
      let name := str8_cstring (d_name d) in
      let value := match caller_override caller name with
                   | Some v => v
                   | None => str8_cstring (d_value d)
                   end in
      ordered_defaults defaults' caller
        (if (0 <? length value)%nat then header_list_push out name (push_str8_copy value) 0 else out)
  end.
Fixpoint is_default (defaults : list DefaultHeader) (name : bytes) : bool :=
  match defaults with
  | [] => false
  | d :: defaults' => str8_match_ci name (str8_cstring (d_name d)) || is_default defaults' name
  end.
Fixpoint ordered_extra (defaults : list DefaultHeader) (caller : list Header) (out : HeaderList) : HeaderList :=
  match caller with
  | [] => out
  | h :: caller' =>
      ordered_extra defaults caller'
        (if (length (h_value h) =? 0)%nat then out
         else if is_default defaults (h_name h) then out
         else header_list_push out (push_str8_copy (h_name h)) (push_str8_copy (h_value h)) 0)
  end.
Definition build_ordered_headers (defaults : list DefaultHeader) (caller : list Header) (out : HeaderList) : HeaderList :=
  ordered_extra defaults caller (ordered_defaults defaults caller out).

(** ** reorder_headers *)

(** The first slot that is not used and whose name matches. *)
Fixpoint claim (v : list Header) (used : list bool) (o : bytes) : option nat :=
  match v, used with
  | h :: v', u :: used' =>
      if negb u && str8_match_ci (h_name h) o then Some 0%nat else S <$> claim v' used' o
  | _, _ => None
  end.
Fixpoint reorder_listed (v : list Header) (used : list bool) (order : list bytes) (out : list Header) : list bool * list Header :=
  match order with
  | [] => (used, out)
  | o :: order' =>
      match claim v used o with
      | Some i =>
          match v !! i with
          | Some h => reorder_listed v (<[i := true]> used) order' (out ++ [h])
          | None => reorder_listed v used order' out
          end
      | None => reorder_listed v used order' out
      end
  end.
Fixpoint reorder_rest (v : list Header) (used : list bool) (out : list Header) : list Header :=
  match v, used with
  | h :: v', u :: used' => reorder_rest v' used' (if u then out else out ++ [h])
  | _, _ => out
  end.
(** [MemoryCopy(list->v, out, n * sizeof(Header))] *)
Definition reorder_headers (lst : HeaderList) (order : list bytes) : HeaderList :=
  if (length order =? 0)%nat || (ga_count lst =? 0)%nat then lst
  else
    let n := ga_count lst in
    let v := ga_list lst in
    let '(used, out) := reorder_listed v (replicate n false) order [] in
    let out := reorder_rest v used out in
    mkGarr ((Some <$> take n out) ++ drop n (ga_v lst)) n (ga_cap lst).

(** ** Lookup and push *)

Definition named (n : bytes) (h : Header) : Prop := lower (h_name h) = lower n.
#[export] Instance named_dec n h : Decision (named n h).
Proof. unfold named. apply _. Defined.

Lemma str8_match_ci_named n h : str8_match_ci (h_name h) n = bool_decide (named n h).
Proof.
  apply Bool.eq_iff_eq_true. rewrite bool_decide_eq_true. apply str8_match_ci_eq.
Qed.

Lemma get_ci_loop_spec hl l n rounds i :
  ga_rep hl l -> (rounds + i = length l)%nat ->
  get_ci_loop hl n rounds i = (fun p => (i + fst p)%nat) <$> list_find (named n) (drop i l).
Proof.
  intros Hr. revert i; induction rounds as [|rounds IH]; intros i Hi; cbn [get_ci_loop].
  - by rewrite drop_ge by lia.
  - rewrite (ga_get_rep _ _ _ Hr).
    destruct (l !! i) as [h|] eqn:Ei; [|apply lookup_ge_None in Ei; lia].
    rewrite (drop_S _ _ _ Ei). cbn [list_find]. rewrite str8_match_ci_named.
    unfold bool_decide. destruct (named_dec n h); simpl; [by rewrite Nat.add_0_r|].
    rewrite IH by lia. destruct (list_find (named n) (drop (S i) l)) as [[k h']|]; simpl; [|done].
    f_equal. lia.
Qed.

(** What a lookup returns on the represented list. *)
Definition find_value (n : bytes) (l : list Header) : option bytes :=
  h_value ∘ snd <$> list_find (named n) l.

Lemma header_list_get_ci_rep hl l n : ga_rep hl l -> header_list_get_ci hl n = fst <$> list_find (named n) l.
Proof.
  intros Hr. unfold header_list_get_ci. assert (Hc : ga_count hl = length l) by (destruct Hr as (? & _ & ? & _); done).
  rewrite Hc, (get_ci_loop_spec hl l), drop_0 by (done || lia). by destruct (list_find (named n) l) as [[k h]|].
Qed.

Lemma header_list_has_ci_rep hl l n : ga_rep hl l -> header_list_has_ci hl n = bool_decide (is_Some (find_value n l)).
Proof.
  intros Hr. unfold header_list_has_ci, find_value. rewrite (header_list_get_ci_rep hl l n Hr).
  by destruct (list_find (named n) l) as [[k h]|].
Qed.

Lemma header_list_value_rep hl l n : ga_rep hl l -> header_list_value hl n = find_value n l.
Proof.
  intros Hr. unfold header_list_value, header_list_get_ci, find_value.
  assert (Hc : ga_count hl = length l) by (destruct Hr as (? & _ & ? & _); done).
  rewrite Hc, (get_ci_loop_spec hl l) by (done || lia). rewrite drop_0.
  destruct (list_find (named n) l) as [[k h]|] eqn:E; [|done]. simpl.
  rewrite (ga_get_rep _ _ _ Hr).
  apply list_find_Some in E as (-> & _). done.
Qed.

Lemma find_value_nil n : find_value n [] = None.
Proof. done. Qed.
Lemma find_value_cons n h l :
  find_value n (h :: l) = if decide (named n h) then Some (h_value h) else find_value n l.
Proof.
  unfold find_value. cbn [list_find]. destruct (decide (named n h)); [done|].
  by destruct (list_find (named n) l) as [[k h']|].
Qed.
Lemma find_value_app n l1 l2 :
  find_value n (l1 ++ l2) = match find_value n l1 with Some v => Some v | None => find_value n l2 end.
Proof.
  induction l1 as [|h l1 IH]; [done|]. rewrite <-app_comm_cons, !find_value_cons.
  by destruct (decide _).
Qed.

Lemma header_list_push_rep hl l n v f :
  ga_rep hl l -> ga_rep (header_list_push hl n v f) (l ++ [mkHeader n v f]).
Proof. apply ga_push_rep. lia. Qed.
#[export] Hint Resolve header_list_push_rep : holy.

(** ** Crumbs *)

Lemma occurs_at_pair hay x y i :
  occurs_at hay [x; y] i <-> hay !! i = Some x /\ hay !! S i = Some y.
Proof.
  split.
  - intros (pre & post & -> & <-). split.
    + by rewrite lookup_app_r, Nat.sub_diag by lia.
    + rewrite lookup_app_r by lia. by replace (S (length pre) - length pre)%nat with 1%nat by lia.
  - intros [Hx Hy]. exists (take i hay), (drop (S (S i)) hay).
    apply lookup_lt_Some in Hx as Hlt.
    split; [|rewrite length_take; lia]. simpl.
    rewrite <-(take_drop i hay) at 1. f_equal. by rewrite (drop_S _ _ _ Hx), (drop_S _ _ _ Hy).
Qed.

Definition crumb_ok (c : bytes) : Prop := c <> [] /\ forall j, ~ occurs_at c (lit "; ") j.

Lemma find_crumb_sep c r :
  (forall j, ~ occurs_at c (lit "; ") j) -> str8_find (c ++ lit "; " ++ r) (lit "; ") = Z.of_nat (length c).
Proof.
  intros Hc. set (hay := c ++ lit "; " ++ r).
  assert (Hat : occurs_at hay (lit "; ") (length c)) by by exists c, r.
  destruct (str8_find_cases hay (lit "; ")) as [(k & E & Hk & Hmin)|[_ Hno]]; [|by destruct (Hno _ Hat)].
  rewrite E. f_equal. destruct (Nat.lt_trichotomy k (length c)) as [Hlt|[He|Hgt]]; [|done|].
  - exfalso. apply occurs_at_pair in Hk as [Hx Hy]. unfold hay in Hx, Hy.
    rewrite lookup_app_l in Hx by lia.
    destruct (decide (S k < length c)%nat).
    + rewrite lookup_app_l in Hy by lia. apply (Hc k). by apply occurs_at_pair.
    + rewrite lookup_app_r in Hy by lia. by replace (S k - length c)%nat with 0%nat in Hy by lia.
  - by destruct (Hmin _ Hgt).
Qed.

Lemma find_none c : (forall j, ~ occurs_at c (lit "; ") j) -> str8_find c (lit "; ") = -1.
Proof.
  intros Hc. destruct (str8_find_cases c (lit "; ")) as [(k & _ & Hk & _)|[E _]]; [|done].
  by destruct (Hc k).
Qed.

Lemma intercalate_cons2 sep s s' ss :
  intercalate sep (s :: s' :: ss) = s ++ sep ++ intercalate sep (s' :: ss).
Proof. done. Qed.

Lemma crumbs_loop_join fuel c cs out n cap :
  Forall crumb_ok (c :: cs) -> (length (intercalate (lit "; ") (c :: cs)) <= fuel)%nat ->
  crumbs_loop fuel (intercalate (lit "; ") (c :: cs)) out n cap =
  (out ++ take (cap - n) (c :: cs), (n + length (c :: cs))%nat).
Proof.
  revert c fuel out n; induction cs as [|c' cs IH]; intros c fuel out n Hok Hf;
    apply Forall_cons_iff in Hok as [[Hne Hno] Hok].
  - cbn [intercalate] in *. assert (E : crumbs_loop fuel c out n cap =
      (if (n <? cap)%nat then out ++ [c] else out, (n + 1)%nat)).
    { destruct fuel; cbn [crumbs_loop]; rewrite find_none by done; simpl; by destruct c. }
    rewrite E. destruct (Nat.ltb_spec n cap) as [Hl|Hl].
    + destruct (cap - n)%nat as [|m] eqn:Em; [lia|]. simpl. by rewrite take_nil.
    + replace (cap - n)%nat with 0%nat by lia. simpl. by rewrite app_nil_r.
  - rewrite intercalate_cons2 in *. rewrite !length_app in Hf. change (length (lit "; ")) with 2%nat in Hf.
    destruct fuel as [|fuel]; [lia|]. cbn [crumbs_loop]. rewrite find_crumb_sep by done.
    rewrite (proj2 (Z.ltb_ge _ _)) by lia. rewrite Nat2Z.id, str8_prefix_take, take_app_length.
    rewrite (proj2 (Nat.ltb_lt 0 (length c))) by (destruct c; [done|simpl; lia]).
    rewrite str8_skip_drop, drop_app_add. change (drop 2 (lit "; " ++ ?x)) with x.
    rewrite IH by (done || lia). f_equal; [|simpl; lia].
    destruct (Nat.ltb_spec n cap) as [Hl|Hl].
    + replace (cap - n)%nat with (S (cap - (n + 1)))%nat by lia. cbn [take]. by rewrite <-app_assoc.
    + by replace (cap - n)%nat with 0%nat by lia; replace (cap - (n + 1))%nat with 0%nat by lia.
Qed.

(** ** The merge of defaults and caller headers *)

Definition nonempty (v : bytes) : option bytes := if (0 <? length v)%nat then Some v else None.
Lemma nonempty_Some v w : nonempty v = Some w -> w <> [].
Proof. unfold nonempty. destruct v; simpl; congruence. Qed.
Definition slot_value (caller : list Header) (d : DefaultHeader) : bytes :=
  default (str8_cstring (d_value d)) (caller_override caller (str8_cstring (d_name d))).
(** The headers the two loops push. *)
Definition default_part (caller : list Header) (ds : list DefaultHeader) : list Header :=
  omap (fun d => (fun v => mkHeader (str8_cstring (d_name d)) v 0) <$> nonempty (slot_value caller d)) ds.
Definition extra_part (ds : list DefaultHeader) (caller : list Header) : list Header :=
  omap (fun h => if is_default ds (h_name h) then None
                 else (fun v => mkHeader (h_name h) v 0) <$> nonempty (h_value h)) caller.

Lemma ordered_defaults_rep ds caller hl l :
  ga_rep hl l -> ga_rep (ordered_defaults ds caller hl) (l ++ default_part caller ds).
Proof.
  revert hl l; induction ds as [|d ds IH]; intros hl l Hr; cbn [ordered_defaults].
  - by rewrite app_nil_r.
  - unfold default_part. cbn [omap list_omap]. fold (default_part caller ds).
    change (match caller_override caller (str8_cstring (d_name d)) with Some v => v | None => _ end)
      with (slot_value caller d). unfold nonempty.
    destruct (0 <? length (slot_value caller d))%nat; simpl; [|by apply IH].
    rewrite cons_middle, app_assoc. apply IH, header_list_push_rep, Hr.
Qed.

Lemma ordered_extra_rep ds caller hl l :
  ga_rep hl l -> ga_rep (ordered_extra ds caller hl) (l ++ extra_part ds caller).
Proof.
  revert hl l; induction caller as [|h caller IH]; intros hl l Hr; cbn [ordered_extra].
  - by rewrite app_nil_r.
  - unfold extra_part. cbn [omap list_omap]. fold (extra_part ds caller).
    unfold nonempty. destruct (h_value h) as [|x v] eqn:Ev; simpl.
    + destruct (is_default ds (h_name h)); by apply IH.
    + destruct (is_default ds (h_name h)); [by apply IH|].
      simpl. rewrite cons_middle, app_assoc. apply IH, header_list_push_rep, Hr.
Qed.

Lemma build_ordered_headers_rep ds caller hl l :
  ga_rep hl l ->
  ga_rep (build_ordered_headers ds caller hl) (l ++ default_part caller ds ++ extra_part ds caller).
Proof.
  intros Hr. unfold build_ordered_headers. rewrite app_assoc.
  by apply ordered_extra_rep, ordered_defaults_rep.
Qed.

(** The default of a name. *)
Definition default_named (n : bytes) (d : DefaultHeader) : Prop :=
  lower (str8_cstring (d_name d)) = lower n.
#[export] Instance default_named_dec n d : Decision (default_named n d).
Proof. unfold default_named. apply _. Defined.
Definition default_of (n : bytes) (ds : list DefaultHeader) : option bytes :=
  (fun p => str8_cstring (d_value (snd p))) <$> list_find (default_named n) ds.

Lemma default_of_cons n d ds :
  default_of n (d :: ds) =
  if decide (default_named n d) then Some (str8_cstring (d_value d)) else default_of n ds.
Proof.
  unfold default_of. cbn [list_find]. destruct (decide (default_named n d)); [done|].
  by destruct (list_find (default_named n) ds) as [[k d']|].
Qed.

Lemma is_default_spec ds n : is_default ds n = bool_decide (is_Some (default_of n ds)).
Proof.
  induction ds as [|d ds IH]; [done|]. rewrite default_of_cons. cbn [is_default].
  destruct (decide (default_named n d)) as [E|E].
  - rewrite (proj2 (str8_match_ci_eq _ _)) by done. symmetry. apply bool_decide_eq_true. by eexists.
  - rewrite IH, (proj2 (str8_match_ci_false _ _)); [done|]. intros E'. by apply E.
Qed.

Lemma caller_override_find caller n : caller_override caller n = find_value n caller.
Proof.
  induction caller as [|h caller IH]; [done|]. cbn [caller_override].
  rewrite find_value_cons, str8_match_ci_named, IH.
  unfold bool_decide. by destruct (decide (named n h)), (named_dec n h).
Qed.

Lemma find_value_ci n m l : lower n = lower m -> find_value n l = find_value m l.
Proof.
  intros E. induction l as [|h l IH]; [done|]. rewrite !find_value_cons, IH.
  destruct (decide (named n h)), (decide (named m h)); unfold named in *; try done; congruence.
Qed.

Lemma default_of_ci n m ds : lower n = lower m -> default_of n ds = default_of m ds.
Proof.
  intros E. induction ds as [|d ds IH]; [done|]. rewrite !default_of_cons, IH.
  destruct (decide (default_named n d)), (decide (default_named m d));
    unfold default_named in *; try done; congruence.
Qed.

Lemma find_value_default_part caller ds n :
  NoDup (lower ∘ str8_cstring ∘ d_name <$> ds) ->
  find_value n (default_part caller ds) =
  default_of n ds ≫= fun dv => nonempty (default dv (find_value n caller)).
Proof.
  induction ds as [|d ds IH]; [done|]. intros [Hd Hnd]%NoDup_cons.
  unfold default_part. cbn [omap list_omap]. fold (default_part caller ds).
  rewrite default_of_cons. specialize (IH Hnd).
  destruct (decide (default_named n d)) as [E|E].
  - simpl. unfold slot_value. rewrite caller_override_find, (find_value_ci (str8_cstring (d_name d)) n) by done.
    destruct (nonempty (default _ _)) as [v|]; simpl.
    + rewrite find_value_cons. by rewrite decide_True by exact E.
    + rewrite IH. assert (Hnone : default_of n ds = None); [|by rewrite Hnone].
      unfold default_of. destruct (list_find (default_named n) ds) as [[k d']|] eqn:Ef; [|done].
      exfalso. apply list_find_Some in Ef as (Hk & Hdn & _). apply Hd.
      apply list_elem_of_fmap. exists d'. split; [|by eapply list_elem_of_lookup_2].
      unfold default_named in *. simpl. congruence.
  - destruct (nonempty (slot_value caller d)); simpl; [|done].
    rewrite find_value_cons, decide_False; [done|]. exact E.
Qed.

Lemma find_value_extra_part ds caller n :
  find_value n (extra_part ds caller) =
  if is_default ds n then None else find_value n (filter (fun h => h_value h <> []) caller).
Proof.
  induction caller as [|h caller IH]; [by destruct (is_default ds n)|].
  unfold extra_part. cbn [omap list_omap]. fold (extra_part ds caller).
  assert (Hci : named n h -> is_default ds (h_name h) = is_default ds n).
  { intros E. rewrite !is_default_spec. by rewrite (default_of_ci _ n) by exact E. }
  destruct (h_value h) as [|x v] eqn:Ev.
  - rewrite filter_cons_False by (rewrite Ev; auto). by destruct (is_default ds (h_name h)).
  - rewrite filter_cons_True by by rewrite Ev.
    rewrite find_value_cons. destruct (is_default ds (h_name h)) eqn:Ed.
    + destruct (decide (named n h)) as [E|E]; [|done]. by rewrite IH, <-(Hci E).
    + simpl. rewrite find_value_cons. simpl.
      destruct (decide (named n h)) as [E|E].
      * rewrite decide_True by exact E. by rewrite <-(Hci E), Ev.
      * by rewrite decide_False by exact E.
Qed.

Lemma default_part_spec caller ds :
  default_part caller ds = omap (fun d => (fun v => mkHeader (str8_cstring (d_name d)) v 0) <$>
    nonempty (default (str8_cstring (d_value d)) (find_value (str8_cstring (d_name d)) caller))) ds.
Proof.
  unfold default_part. induction ds as [|d ds IH]; [done|]. cbn [omap list_omap]. rewrite IH. unfold slot_value. by rewrite caller_override_find.
Qed.
Lemma extra_part_spec ds caller :
  extra_part ds caller = (fun h => mkHeader (h_name h) (h_value h) 0) <$>
    filter (fun h => h_value h <> [] /\ default_of (h_name h) ds = None) caller.
Proof.
  induction caller as [|h caller IH]; [done|]. unfold extra_part. cbn [omap list_omap]. fold (extra_part ds caller). rewrite filter_cons, is_default_spec, IH.
  destruct (default_of (h_name h) ds) as [v|]; cbn [bool_decide].
  - rewrite decide_False by (by intros [_ [=]]). by rewrite bool_decide_true by by eexists.
  - rewrite bool_decide_false by (by intros [x [=]]). destruct (h_value h) as [|b v] eqn:Ev; cbn.
    + rewrite decide_False; [done|]. by intros [? _].
    + rewrite decide_True; [|done]. cbn. by rewrite Ev.
Qed.

(** ** Reordering

    The reference: each name takes the first remaining header it matches out
    of the list. *)
Fixpoint pull (order : list bytes) (l : list Header) : list Header * list Header :=
  match order with
  | [] => ([], l)
  | o :: order' =>
      match list_find (named o) l with
      | Some (k, h) => let '(f, b) := pull order' (delete k l) in (h :: f, b)
      | None => pull order' l
      end
  end.

(** The headers whose slot is not used. *)
Fixpoint unused (v : list Header) (used : list bool) : list Header :=
  match v, used with
  | h :: v', u :: used' => if u then unused v' used' else h :: unused v' used'
  | _, _ => []
  end.

Lemma claim_spec v used o :
  length used = length v ->
  match claim v used o with
  | Some i => exists h k, v !! i = Some h /\
      list_find (named o) (unused v used) = Some (k, h) /\
      unused v (<[i:=true]> used) = delete k (unused v used)
  | None => list_find (named o) (unused v used) = None
  end.
Proof.
  revert used; induction v as [|h v IH]; intros [|u used] Hl; simplify_eq/=; [done|].
  specialize (IH used Hl). rewrite str8_match_ci_named. unfold bool_decide.
  destruct u; simpl.
  - destruct (claim v used o) as [i|]; simpl; [|done]. exact IH.
  - destruct (named_dec o h) as [E|E]; simpl.
    + by exists h, 0%nat.
    + destruct (claim v used o) as [i|]; simpl.
      * destruct IH as (h' & k & Hi & Hf & Hu). exists h', (S k). rewrite Hf. split; [done|].
        split; [done|]. simpl. f_equal. exact Hu.
      * by rewrite IH.
Qed.

Lemma reorder_listed_spec v used order out :
  length used = length v ->
  exists used', reorder_listed v used order out = (used', out ++ fst (pull order (unused v used))) /\
    unused v used' = snd (pull order (unused v used)) /\ length used' = length v.
Proof.
  revert used out; induction order as [|o order IH]; intros used out Hl; cbn [reorder_listed pull].
  - exists used. by rewrite app_nil_r.
  - pose proof (claim_spec v used o Hl) as Hc. destruct (claim v used o) as [i|].
    + destruct Hc as (h & k & Hi & Hf & Hu). rewrite Hi, Hf.
      destruct (IH (<[i:=true]> used) (out ++ [h])) as (used' & E1 & E2 & E3).
      { by rewrite length_insert. }
      rewrite Hu in E1, E2. exists used'. rewrite E1.
      destruct (pull order (delete k (unused v used))) as [f b]. simpl in *.
      by rewrite <-app_assoc.
    + rewrite Hc. by apply IH.
Qed.

Lemma reorder_rest_spec v used out :
  length used = length v -> reorder_rest v used out = out ++ unused v used.
Proof.
  revert used out; induction v as [|h v IH]; intros [|u used] out Hl; simplify_eq/=;
    [by rewrite app_nil_r|].
  rewrite IH by done. destruct u; [done|]. by rewrite <-app_assoc.
Qed.

Lemma unused_all v : unused v (replicate (length v) false) = v.
Proof. induction v as [|h v IH]; simpl; [done|]. by rewrite IH. Qed.

Lemma pull_perm order l : fst (pull order l) ++ snd (pull order l) ≡ₚ l.
Proof.
  revert l; induction order as [|o order IH]; intros l; [done|]. cbn [pull].
  destruct (list_find (named o) l) as [[k h]|] eqn:Ef; [|apply IH].
  apply list_find_Some in Ef as (Hk & _). specialize (IH (delete k l)).
  destruct (pull order (delete k l)) as [f b]. simpl in *. rewrite IH.
  symmetry. by apply delete_Permutation.
Qed.

Lemma pull_back order l : snd (pull order l) `sublist_of` l.
Proof.
  revert l; induction order as [|o order IH]; intros l; [done|]. cbn [pull].
  destruct (list_find (named o) l) as [[k h]|]; [|apply IH].
  specialize (IH (delete k l)). destruct (pull order (delete k l)) as [f b]. simpl in *.
  etrans; [exact IH|]. apply sublist_delete.
Qed.

Lemma pull_front order l :
  (lower ∘ h_name <$> fst (pull order l)) `sublist_of` (lower <$> order).
Proof.
  revert l; induction order as [|o order IH]; intros l; [done|]. cbn [pull].
  destruct (list_find (named o) l) as [[k h]|] eqn:Ef.
  - apply list_find_Some in Ef as (_ & Hn & _). specialize (IH (delete k l)).
    destruct (pull order (delete k l)) as [f b]. simpl in *. unfold named in Hn.
    rewrite Hn. by constructor.
  - constructor. apply IH.
Qed.

Lemma pull_named order l h :
  h ∈ snd (pull order l) -> lower (h_name h) ∈ (lower <$> order) ->
  exists h', h' ∈ fst (pull order l) /\ lower (h_name h') = lower (h_name h).
Proof.
  revert l; induction order as [|o order IH]; intros l Hb Ho; [set_solver|]. cbn [pull] in *.
  rewrite fmap_cons in Ho. apply elem_of_cons in Ho.
  destruct (list_find (named o) l) as [[k h0]|] eqn:Ef.
  - apply list_find_Some in Ef as (_ & Hn & _). specialize (IH (delete k l)).
    destruct (pull order (delete k l)) as [f b]. simpl in *.
    destruct Ho as [Ho|Ho].
    + exists h0. split; [set_solver|]. unfold named in Hn. congruence.
    + destruct (IH Hb Ho) as (h' & ? & ?). exists h'. split; [set_solver|done].
  - destruct Ho as [Ho|Ho]; [|by apply IH]. exfalso.
    eapply list_find_None in Ef. rewrite Forall_forall in Ef. apply (Ef h); [|done].
    eapply (sublist_subseteq _ _ (pull_back order l)), Hb.
Qed.

Lemma reorder_headers_rep hl l order :
  ga_rep hl l -> ga_rep (reorder_headers hl order) (fst (pull order l) ++ snd (pull order l)).
Proof.
  intros Hr. pose proof (ga_rep_list _ _ Hr) as El. destruct Hr as (rest & Hv & Hc & Hcap).
  assert (Hr : ga_rep hl l) by by exists rest.
  unfold reorder_headers. destruct (Nat.eqb_spec (length order) 0) as [E0|E0].
  { destruct order; [|done]. simpl. exact Hr. }
  destruct (Nat.eqb_spec (ga_count hl) 0) as [E1|E1].
  { assert (l = []) as -> by (destruct l; [done|simpl in *; lia]).
    pose proof (pull_perm order []) as Hp. apply Permutation_nil_r in Hp. by rewrite Hp. }
  simpl. rewrite El, Hc.
  destruct (reorder_listed_spec l (replicate (length l) false) order []) as (used' & E & Hu & Hlen).
  { by rewrite length_replicate. }
  rewrite E, reorder_rest_spec, Hu, unused_all by done. simpl.
  set (res := fst _ ++ snd _).
  assert (Hlr : length res = length l) by apply Permutation_length, pull_perm.
  rewrite <-Hlr, firstn_all. exists rest. simpl. rewrite Hv.
  rewrite drop_app_length' by (by rewrite length_fmap). split; [done|]. split; [done|].
  rewrite Hcap, Hv, !length_app, !length_fmap. lia.
Qed.

(** ** Properties *)

(** Splitting a Cookie value undoes joining it: the crumbs of
    "c1; c2; ..." are c1, c2, ..., of which at most [cap] are written while
    all of them are counted. *)
Theorem cookie_crumbs_join (c : bytes) (cs : list bytes) (cap : nat) :
  Forall crumb_ok (c :: cs) ->
  cookie_crumbs (intercalate (lit "; ") (c :: cs)) cap =
  (take cap (c :: cs), length (c :: cs)).
Proof.
  intros Hok. unfold cookie_crumbs. rewrite crumbs_loop_join by done.
  by rewrite Nat.sub_0_r.
Qed.

Lemma cookie_crumbs_join_witness :
  intercalate (lit "; ") [lit "a=1"; lit "b=2"; lit "c=3"] = lit "a=1; b=2; c=3" /\
  cookie_crumbs (lit "a=1; b=2; c=3") 2 = ([lit "a=1"; lit "b=2"], 3%nat).
Proof.
  split; [reflexivity|].
  apply (cookie_crumbs_join (lit "a=1") [lit "b=2"; lit "c=3"] 2).
  repeat constructor; try discriminate;
    intros [|[|[|[|j]]]] [H1 H2]%occurs_at_pair; discriminate.
Defined.

(** C33. The merged header list: the profile's headers in the profile's order and
    spelling, each with the value of the caller's first header of its name or
    else the profile's own, but for those whose value is then empty (a
    placeholder, or a default the caller suppresses); then, in the caller's
    order, every header of the caller that has a value and a name the profile
    does not list. Where the profile names nothing twice, looking a name up
    gives, for a name the profile lists, the caller's first value or else the
    profile's, and for any other name the caller's first value that is not
    empty. *)
Theorem build_ordered_headers_spec (defaults : list DefaultHeader) (caller : list Header) :
  let out := build_ordered_headers defaults caller header_list_init in
  ga_list out =
    omap (fun d => (fun v => mkHeader (str8_cstring (d_name d)) v 0) <$>
            nonempty (default (str8_cstring (d_value d)) (find_value (str8_cstring (d_name d)) caller))) defaults ++
    ((fun h => mkHeader (h_name h) (h_value h) 0) <$>
       filter (fun h => h_value h <> [] /\ default_of (h_name h) defaults = None) caller) /\
  (NoDup (lower ∘ str8_cstring ∘ d_name <$> defaults) -> forall n, header_list_value out n =
     match default_of n defaults with
     | Some dv => nonempty (default dv (find_value n caller))
     | None => find_value n (filter (fun h => h_value h <> []) caller)
     end).
Proof.
  intros out.
  assert (Hr : ga_rep out (default_part caller defaults ++ extra_part defaults caller))
    by apply (build_ordered_headers_rep defaults caller header_list_init []), ga_empty_rep.
  rewrite (ga_rep_list _ _ Hr). split; [by rewrite default_part_spec, extra_part_spec|].
  intros Hnd n. rewrite (header_list_value_rep _ _ n Hr), find_value_app.
  rewrite find_value_default_part, find_value_extra_part, is_default_spec by done.
  destruct (default_of n defaults) as [dv|]; simpl; [|done]. by destruct (nonempty _).
Qed.

Lemma build_ordered_headers_spec_witness :
  header_list_value
    (build_ordered_headers
       [mkDefault (lit "user-agent") (lit "UA") None; mkDefault (lit "cookie") [] None]
       [mkHeader (lit "X-Y") (lit "1") 0; mkHeader (lit "Cookie") (lit "a=b") 0] header_list_init)
    (lit "COOKIE") = Some (lit "a=b").
Proof.
  apply (proj2 (build_ordered_headers_spec
    [mkDefault (lit "user-agent") (lit "UA") None; mkDefault (lit "cookie") [] None]
    [mkHeader (lit "X-Y") (lit "1") 0; mkHeader (lit "Cookie") (lit "a=b") 0])).
  apply (bool_decide_unpack _). reflexivity.
Defined.

(** Reordering loses and duplicates nothing: the result is a permutation
    that starts with headers named in [order], in that order, followed by the
    others in their original relative order; a header that is named in
    [order] and is not in front has the name of one that is. *)
Theorem reorder_headers_spec (hl : HeaderList) (order : list bytes) :
  ga_wf hl ->
  let out := reorder_headers hl order in
  ga_wf out /\ ga_list out ≡ₚ ga_list hl /\
  exists front back, ga_list out = front ++ back /\ back `sublist_of` ga_list hl /\
    (lower ∘ h_name <$> front) `sublist_of` (lower <$> order) /\
    forall h, h ∈ back -> lower (h_name h) ∈ (lower <$> order) ->
      exists h', h' ∈ front /\ lower (h_name h') = lower (h_name h).
Proof.
  intros Hwf out. pose proof (reorder_headers_rep hl _ order Hwf) as Hr.
  fold out in Hr. rewrite (ga_rep_list _ _ Hr). split; [by eapply ga_rep_wf|].
  split; [apply pull_perm|]. eexists _, _. split; [done|].
  split; [apply pull_back|]. split; [apply pull_front|]. apply pull_named.
Qed.

Lemma reorder_headers_spec_witness :
  let hl := header_list_push (header_list_push (header_list_push header_list_init
              (lit "a") (lit "1") 0) (lit "b") (lit "2") 0) (lit "a") (lit "3") 0 in
  let out := reorder_headers hl [lit "B"; lit "A"] in
  ga_list out = [mkHeader (lit "b") (lit "2") 0; mkHeader (lit "a") (lit "1") 0; mkHeader (lit "a") (lit "3") 0] /\
  ga_list out ≡ₚ ga_list hl.
Proof.
  intros hl out. split; [reflexivity|].
  apply (reorder_headers_spec hl [lit "B"; lit "A"]).
  eapply ga_rep_wf. repeat apply header_list_push_rep. apply ga_empty_rep.
Defined.
