(* ===== verification/Psl.v ===== *)
(** * The public suffix list: core/psl.c

    The lookup of a domain in the three sorted tables of the embedded list.
    The generated tables (core/psl_data.h) are the parameters [exact_tbl],
    [wildcard_tbl] and [exception_tbl]: the strings the offset tables point
    at, in table order. What the code relies on is that each is "sorted by
    strcmp for binary search" (the header comment of psl_data.h), which is
    [sorted_tbl]. *)
From S2P Require Import Prelude String8.
From Stdlib Require Import Sorting.Sorted.

(** strcmp of two strings without NUL: their terminators end the scan. *)
Fixpoint strcmp (a b : bytes) : Z :=
  match a, b with
  | [], [] => 0
  | [], y :: _ => - y
  | x :: _, [] => x
  | x :: a', y :: b' => if x =? y then strcmp a' b' else x - y
  end.

(** The binary search; each round halves the interval at least, so
    [length tbl] rounds are enough. *)
Fixpoint psl_search (fuel : nat) (tbl : list bytes) (lo hi : nat) (key : bytes) : bool :=
  if (lo <? hi)%nat then
    match fuel with
    | O => false
    | S fuel' =>
        let mid := (lo + (hi - lo) / 2)%nat in
        let c := strcmp key (nth mid tbl []) in
        if c =? 0 then true
        else if c <? 0 then psl_search fuel' tbl lo mid key
        else psl_search fuel' tbl (mid + 1) hi key
    end
  else false.
Definition psl_table_has (tbl : list bytes) (key : bytes) : bool :=
  psl_search (length tbl) tbl 0 (length tbl) key.

Section tables.
Context (exact_tbl wildcard_tbl exception_tbl : list bytes).

(** [d] is the NUL-terminated buffer: the tests see it up to its first NUL. *)
Definition psl_is_public_suffix (domain : bytes) : bool :=
  if (length domain =? 0)%nat || (256 <=? length domain)%nat then false
  else
    let d := map (fun ch => if (ch_A <=? ch) && (ch <=? ch_Z) then wrap8 (ch + 32) else ch) domain in
    let n := length domain in
    let n := if nth (n - 1) d 0 =? ch_dot then (n - 1)%nat else n in
    if (n =? 0)%nat then false
    else
      let d := str8_cstring (take n d ++ [0]) in
      if psl_table_has exception_tbl d then false
      else if psl_table_has exact_tbl d then true
      else match str8_index_of d ch_dot with
           | None => true
           | Some dot => psl_table_has wildcard_tbl (drop (dot + 1) d)
           end.

End tables.

(** ** strcmp orders strings *)

Definition no_nul (s : bytes) : Prop := Forall (fun c => 0 < c) s.
Definition strcmp_lt (a b : bytes) : Prop := strcmp a b < 0.
Definition sorted_tbl (t : list bytes) : Prop := StronglySorted strcmp_lt t /\ Forall no_nul t.

Lemma strcmp_refl a : strcmp a a = 0.
Proof. induction a as [|x a IH]; simpl; [done|]. by rewrite Z.eqb_refl. Qed.

Lemma strcmp_eq a b : no_nul a -> no_nul b -> strcmp a b = 0 -> a = b.
Proof.
  intros Ha. revert b; induction Ha as [|x a Hx _ IH]; intros b Hb; destruct Hb as [|y b Hy Hb]; simpl.
  - done.
  - lia.
  - lia.
  - destruct (Z.eqb_spec x y) as [->|]; [|lia]. intros. f_equal. auto.
Qed.

Lemma strcmp_anti a b : strcmp a b = - strcmp b a.
Proof.
  revert b; induction a as [|x a IH]; intros [|y b]; simpl; try lia.
  rewrite (Z.eqb_sym y x). destruct (Z.eqb_spec x y); [apply IH|lia].
Qed.

Lemma strcmp_trans a b c :
  no_nul a -> no_nul b -> no_nul c -> strcmp a b < 0 -> strcmp b c < 0 -> strcmp a c < 0.
Proof.
  intros Ha. revert b c; induction Ha as [|x a Hx Ha IH]; intros b c Hb Hc;
    destruct Hb as [|y b Hy Hb]; destruct Hc as [|z c Hz Hc]; simpl; try lia.
  destruct (Z.eqb_spec x y), (Z.eqb_spec y z), (Z.eqb_spec x z); subst; try lia. by apply IH.
Qed.

(** ** The binary search decides membership *)

Lemma sorted_tbl_lookup t i j a b :
  StronglySorted strcmp_lt t -> (i < j)%nat -> t !! i = Some a -> t !! j = Some b -> strcmp a b < 0.
Proof.
  intros Hs. revert i j; induction Hs as [|x t Hs IH Hx]; intros i j Hij Hi Hj; [done|].
  destruct j as [|j]; [lia|]. destruct i as [|i]; simplify_eq/=.
  - rewrite Forall_forall in Hx. apply Hx. by eapply list_elem_of_lookup_2.
  - apply (IH i j); [lia|done..].
Qed.

Lemma psl_search_spec fuel tbl lo hi key :
  sorted_tbl tbl -> no_nul key -> (hi <= length tbl)%nat -> (hi - lo <= fuel)%nat ->
  psl_search fuel tbl lo hi key = true <->
  exists i, (lo <= i < hi)%nat /\ tbl !! i = Some key.
Proof.
  intros [Hs Hn] Hk. revert lo hi; induction fuel as [|fuel IH]; intros lo hi Hhi Hf; cbn [psl_search].
  { rewrite (proj2 (Nat.ltb_ge lo hi)) by lia. split; [done|]. intros (i & ? & _). lia. }
  destruct (Nat.ltb_spec lo hi) as [Hlt|Hge].
  2:{ split; [done|]. intros (i & ? & _). lia. }
  set (mid := (lo + (hi - lo) / 2)%nat).
  assert (Hmid : (lo <= mid < hi)%nat) by (subst mid; ndivmod).
  destruct (lookup_lt_is_Some_2 tbl mid) as [m Hm]; [lia|].
  assert (Hnth : nth mid tbl [] = m) by (erewrite <-nth_lookup_Some; done). rewrite Hnth.
  assert (Hmn : no_nul m) by (rewrite Forall_forall in Hn; apply Hn; by eapply list_elem_of_lookup_2).
  destruct (Z.eqb_spec (strcmp key m) 0) as [E|E].
  - apply strcmp_eq in E as ->; [|done..]. split; [|done]. intros _. by exists mid.
  - destruct (Z.ltb_spec (strcmp key m) 0) as [Hl|Hl]; rewrite IH by lia; split;
      intros (i & Hi & Hik); exists i; (split; [|done]); try lia.
    + destruct (Nat.lt_trichotomy i mid) as [?|[->|Hgt]]; [lia| |].
      * simplify_eq. by rewrite strcmp_refl in E.
      * pose proof (sorted_tbl_lookup _ _ _ _ _ Hs Hgt Hm Hik). rewrite strcmp_anti in Hl. lia.
    + destruct (Nat.lt_trichotomy i mid) as [Hgt|[->|?]]; [| |lia].
      * pose proof (sorted_tbl_lookup _ _ _ _ _ Hs Hgt Hik Hm). lia.
      * simplify_eq. by rewrite strcmp_refl in E.
Qed.

Lemma psl_table_has_spec tbl key :
  sorted_tbl tbl -> no_nul key -> psl_table_has tbl key = bool_decide (key ∈ tbl).
Proof.
  intros Ht Hk. apply Bool.eq_iff_eq_true. rewrite bool_decide_eq_true.
  unfold psl_table_has. rewrite psl_search_spec by (done || lia).
  rewrite list_elem_of_lookup. split.
  - intros (i & _ & H). by exists i.
  - intros (i & H). exists i. split; [|done]. apply lookup_lt_Some in H. lia.
Qed.

(** ** The published algorithm, on labels

    https://publicsuffix.org/list/: a rule matches a domain whose last labels
    are the labels of the rule, a wildcard label matching any one label; an
    exception rule prevails and gives its labels less the first; otherwise the
    matching rule with the most labels prevails, and without a match the rule
    is "*". The public suffix is made of that many last labels. *)
Fixpoint labels (s : bytes) : list bytes :=
  match s with
  | [] => [[]]
  | c :: s' =>
      if c =? ch_dot then [] :: labels s'
      else match labels s' with
           | l :: ls => (c :: l) :: ls
           | [] => [[c]]
           end
  end.

Section algorithm.
Context (exact_tbl wildcard_tbl exception_tbl : list bytes).

Definition matching_lengths (d : list bytes) : list nat :=
  1%nat ::
  omap (fun r => if decide (labels r `suffix_of` d) then Some (length (labels r)) else None) exact_tbl ++
  omap (fun p => if decide (labels p `suffix_of` d /\ (length (labels p) < length d)%nat)
                 then Some (S (length (labels p))) else None) wildcard_tbl.

(** The number of labels of the public suffix of [d]. *)
Definition suffix_labels (d : bytes) : nat :=
  match list_find (fun e => labels e `suffix_of` labels d) exception_tbl with
  | Some (_, e) => length (labels e) - 1
  | None => max_list (matching_lengths (labels d))
  end.

End algorithm.

Lemma labels_not_nil s : labels s <> [].
Proof. destruct s as [|c s]; simpl; [done|]. destruct (c =? ch_dot); [done|]. by destruct (labels s). Qed.

Lemma labels_length_pos s : (0 < length (labels s))%nat.
Proof. pose proof (labels_not_nil s). destruct (labels s); simpl; [done|lia]. Qed.

Lemma labels_inj a b : labels a = labels b -> a = b.
Proof.
  revert b; induction a as [|x a IH]; intros [|y b]; simpl; [done|..].
  - destruct (y =? ch_dot); destruct (labels b) eqn:E; intros; simplify_eq; by destruct (labels_not_nil b).
  - destruct (x =? ch_dot); destruct (labels a) eqn:E; intros; simplify_eq; by destruct (labels_not_nil a).
  - destruct (Z.eqb_spec x ch_dot) as [->|Hx], (Z.eqb_spec y ch_dot) as [->|Hy].
    + intros [=H]. f_equal. auto.
    + destruct (labels b) eqn:E; [by destruct (labels_not_nil b)|]. intros; simplify_eq.
    + destruct (labels a) eqn:E; [by destruct (labels_not_nil a)|]. intros; simplify_eq.
    + destruct (labels a) as [|la las] eqn:Ea; [by destruct (labels_not_nil a)|].
      destruct (labels b) as [|lb lbs] eqn:Eb; [by destruct (labels_not_nil b)|].
      intros [= -> -> ->]. f_equal. apply IH. by rewrite Eb.
Qed.

(** The first dot separates the first label from the others. *)
Lemma labels_index s :
  match str8_index_of s ch_dot with
  | None => labels s = [s]
  | Some k => labels s = take k s :: labels (drop (k + 1) s)
  end.
Proof.
  induction s as [|c s IH]; [done|]. cbn [str8_index_of labels].
  destruct (c =? ch_dot); [done|].
  destruct (str8_index_of s ch_dot); simpl; by rewrite IH.
Qed.

Lemma max_list_elem (l : list nat) : l <> [] -> max_list l ∈ l.
Proof.
  induction l as [|x l IH]; [done|]. intros _. simpl. destruct l as [|y l].
  - simpl. rewrite Nat.max_0_r. set_solver.
  - destruct (Nat.max_spec x (max_list (y :: l))) as [[_ ->]|[_ ->]]; [|set_solver].
    apply elem_of_cons. right. by apply IH.
Qed.

Section decides.
Context (exact_tbl wildcard_tbl exception_tbl : list bytes).

(** Every matching rule has at most the labels of the domain; one has all of
    them exactly when the domain is a single label, an exact rule, or a child
    of a wildcard's parent. *)
Lemma matching_lengths_all d :
  max_list (matching_lengths exact_tbl wildcard_tbl (labels d)) = length (labels d) <->
  length (labels d) = 1%nat \/ d ∈ exact_tbl \/
  (exists p x, p ∈ wildcard_tbl /\ labels d = x :: labels p).
Proof.
  set (ml := matching_lengths _ _ _). pose proof (labels_length_pos d) as Hpos.
  assert (Hle : forall n, n ∈ ml -> (n <= length (labels d))%nat).
  { intros n. unfold ml, matching_lengths. rewrite elem_of_cons, elem_of_app, !list_elem_of_omap.
    intros [->|[(r & _ & Hr)|(p & _ & Hp)]]; [lia|..]; case_decide as Hd; simplify_eq.
    - by apply suffix_length.
    - lia. }
  assert (Hmax : max_list ml = length (labels d) <-> length (labels d) ∈ ml).
  { split; [intros <-; by apply max_list_elem|]. intros Hin.
    apply Nat.le_antisymm; [apply Hle, max_list_elem; done|by apply max_list_elem_of_le]. }
  rewrite Hmax. unfold ml, matching_lengths.
  rewrite elem_of_cons, elem_of_app, !list_elem_of_omap. split.
  - intros [E|[(r & Hr & E)|(p & Hp & E)]]; [by left|..]; case_decide as Hd; simplify_eq.
    + right; left. apply suffix_length_eq in Hd; [|lia].
      apply labels_inj in Hd. by subst.
    + right; right. destruct Hd as [[k Hk] _]. rewrite Hk, length_app in *.
      destruct k as [|x [|y k]]; simpl in *; [lia| |lia]. by exists p, x.
  - intros [E|[Hd|(p & x & Hp & E)]]; [by left|..].
    + right; left. exists d. by rewrite decide_True.
    + right; right. exists p. rewrite E. split; [done|]. rewrite decide_True; [done|].
      split; [by exists [x]|simpl; lia].
Qed.

Lemma no_nul_drop n s : no_nul s -> no_nul (drop n s).
Proof. apply Forall_drop. Qed.

(** The tests on the prepared key decide the algorithm. *)
Lemma psl_key_spec d :
  sorted_tbl exact_tbl -> sorted_tbl wildcard_tbl -> sorted_tbl exception_tbl -> no_nul d ->
  (forall e, e ∈ exception_tbl -> labels e `suffix_of` labels d -> e = d) ->
  (if psl_table_has exception_tbl d then false
   else if psl_table_has exact_tbl d then true
   else match str8_index_of d ch_dot with
        | None => true
        | Some dot => psl_table_has wildcard_tbl (drop (dot + 1) d)
        end) =
  (suffix_labels exact_tbl wildcard_tbl exception_tbl d =? length (labels d))%nat.
Proof.
  intros Hx Hw He Hd Hexc. rewrite !psl_table_has_spec by (auto using no_nul_drop).
  unfold suffix_labels. pose proof (labels_length_pos d) as Hpos.
  destruct (list_find _ exception_tbl) as [[k e]|] eqn:Ef.
  - apply list_find_Some in Ef as (Hk & Hs & _). apply list_elem_of_lookup_2 in Hk.
    pose proof (Hexc e Hk Hs); subst e. rewrite bool_decide_true by done.
    symmetry. apply Nat.eqb_neq. lia.
  - apply list_find_None in Ef. rewrite Forall_forall in Ef.
    rewrite bool_decide_false by (intros Hin; by apply (Ef d)).
    apply Bool.eq_iff_eq_true. rewrite Nat.eqb_eq, matching_lengths_all.
    pose proof (labels_index d) as Hl.
    destruct (bool_decide_reflect (d ∈ exact_tbl)) as [Hin|Hin]; [tauto|].
    destruct (str8_index_of d ch_dot) as [dot|].
    + rewrite psl_table_has_spec, bool_decide_eq_true by auto using no_nul_drop.
      pose proof (labels_length_pos (drop (dot + 1) d)). rewrite Hl. simpl. split.
      * intros Hw'. right; right. eauto.
      * intros [?|[?|(p & x & Hp & [= _ E])]]; [lia|done|].
        apply labels_inj in E. by subst.
    + rewrite Hl. split; [|done]. by left.
Qed.

End decides.

(** The key the tests see: lower case, without one trailing dot. *)
Definition psl_key (domain : bytes) : bytes :=
  let d := lower domain in
  if nth (length d - 1) d 0 =? ch_dot then take (length d - 1) d else d.

Lemma psl_lower domain :
  map (fun ch => if (ch_A <=? ch) && (ch <=? ch_Z) then wrap8 (ch + 32) else ch) domain = lower domain.
Proof. done. Qed.

Lemma char_to_lower_pos c : 0 < c -> 0 < char_to_lower c.
Proof.
  intros. unfold char_to_lower, char_is_upper, wrap8. case_if; [|lia]. rewrite Z.mod_small; lia.
Qed.

Lemma no_nul_lower s : no_nul s -> no_nul (lower s).
Proof.
  intros H. unfold no_nul, lower. apply Forall_fmap. eapply Forall_impl; [exact H|].
  intros c Hc. by apply char_to_lower_pos.
Qed.

Lemma no_nul_cstring s : no_nul s -> str8_cstring (s ++ [0]) = s.
Proof.
  intros H. unfold str8_cstring. rewrite scan_until_app_notin.
  - simpl. by rewrite Nat.add_0_r, take_app_length.
  - unfold no_nul in H. rewrite Forall_forall in H. intros H0%H. lia.
Qed.

Lemma psl_is_public_suffix_key ex wi xc domain :
  no_nul domain -> (0 < length domain < 256)%nat -> psl_key domain <> [] ->
  psl_is_public_suffix ex wi xc domain =
  let d := psl_key domain in
  if psl_table_has xc d then false
  else if psl_table_has ex d then true
  else match str8_index_of d ch_dot with
       | None => true
       | Some dot => psl_table_has wi (drop (dot + 1) d)
       end.
Proof.
  intros Hn Hl Hk. unfold psl_is_public_suffix.
  rewrite (proj2 (Nat.eqb_neq _ _)), (proj2 (Nat.leb_gt _ _)) by lia. cbn [orb].
  rewrite psl_lower. unfold psl_key in *. rewrite lower_length in *. cbv zeta in *.
  set (d := lower domain) in *. assert (Hd : no_nul d) by by apply no_nul_lower.
  destruct (nth (length domain - 1) d 0 =? ch_dot).
  - rewrite (proj2 (Nat.eqb_neq _ _)).
    + rewrite no_nul_cstring; [done|]. by apply Forall_take.
    + intros E. apply Hk. by rewrite E.
  - rewrite (proj2 (Nat.eqb_neq _ _)) by lia.
    rewrite take_ge by (unfold d; rewrite lower_length; lia). by rewrite no_nul_cstring.
Qed.

(** ** Properties *)

(** C35. [psl_is_public_suffix] decides the published algorithm: on sorted
    tables, a domain of fewer than 256 bytes is reported exactly when its
    public suffix, computed label by label over all rules, is the whole
    domain. The domain must not lie below an exception rule. *)
Theorem psl_is_public_suffix_spec (exact_tbl wildcard_tbl exception_tbl : list bytes) (domain : bytes) :
  sorted_tbl exact_tbl -> sorted_tbl wildcard_tbl -> sorted_tbl exception_tbl ->
  no_nul domain -> (0 < length domain < 256)%nat -> psl_key domain <> [] ->
  (forall e, e ∈ exception_tbl -> labels e `suffix_of` labels (psl_key domain) -> e = psl_key domain) ->
  psl_is_public_suffix exact_tbl wildcard_tbl exception_tbl domain =
  (suffix_labels exact_tbl wildcard_tbl exception_tbl (psl_key domain)
     =? length (labels (psl_key domain)))%nat.
Proof.
  intros Hx Hw He Hn Hl Hk Hexc. rewrite psl_is_public_suffix_key by done. cbv zeta.
  apply psl_key_spec; try done. unfold psl_key. cbv zeta.
  case_if; [apply Forall_take|]; by apply no_nul_lower.
Qed.

Lemma psl_is_public_suffix_spec_witness :
  (let ex := [lit "ck"; lit "co.uk"; lit "com"; lit "github.io"; lit "uk"] in
   let wi := [lit "ck"] in let xc := [lit "www.ck"] in
   psl_is_public_suffix ex wi xc (lit "GitHub.io.") = true /\
   (suffix_labels ex wi xc (lit "github.io") =? 2)%nat = true /\
   psl_is_public_suffix ex wi xc (lit "www.ck") = false /\
   psl_is_public_suffix ex wi xc (lit "a.ck") = true).
Proof.
  intros ex wi xc.
  assert (Hs : sorted_tbl ex /\ sorted_tbl wi /\ sorted_tbl xc).
  { unfold sorted_tbl, no_nul, strcmp_lt. repeat split; repeat constructor. }
  destruct Hs as (Hx & Hw & He).
  assert (Hp : psl_is_public_suffix ex wi xc (lit "GitHub.io.") =
    (suffix_labels ex wi xc (lit "github.io") =? 2)%nat).
  { apply (psl_is_public_suffix_spec ex wi xc (lit "GitHub.io.")); try done.
    - unfold no_nul. repeat constructor.
    - simpl. lia.
    - intros e ->%list_elem_of_singleton [k Hk].
      destruct k as [|? [|? [|? k]]]; discriminate Hk. }
  rewrite <-Hp. repeat split; reflexivity.
Defined.
