(* ===== verification/AltSvc.v ===== *)
(** * Alt-Svc: core/alt_svc.c

    The parser of an Alt-Svc response header, reduced to "is HTTP/3
    advertised, and for how long". *)
From S2P Require Import Prelude String8.

Record AltSvcInfo := mkAltSvc {
  as_h3 : bool;
  as_ma_seconds : Z
}.

Definition alt_svc_parse (s : bytes) : AltSvcInfo :=
  let r := mkAltSvc false 86400 in
  if str8_contains s (lit "clear") then r
  else
    let r := if str8_contains s (lit "h3=") || str8_contains s (lit "h3-")
             then mkAltSvc true (as_ma_seconds r) else r in
    let p := str8_find s (lit "ma=") in
    if 0 <=? p then
      let after := str8_skip s (Z.to_nat p + 3) in
      match after with
      | c :: _ =>
          if (ch_0 <=? c) && (c <=? ch_9) then mkAltSvc (as_h3 r) (fst (str8_chop_u64 after)) else r
      | [] => r
      end
    else r.

(** An occurrence starts with the first byte of the needle. *)
Lemma occurs_at_head hay x needle i : occurs_at hay (x :: needle) i -> hay !! i = Some x.
Proof. intros (pre & post & -> & <-). by rewrite lookup_app_r, Nat.sub_diag by lia. Qed.

Lemma str8_contains_false hay x needle : x ∉ hay -> str8_contains hay (x :: needle) = false.
Proof.
  intros Hx. unfold str8_contains. destruct (str8_find_cases hay (x :: needle)) as [(k & _ & Hk & _)|[-> _]]; [|done].
  destruct Hx. eapply list_elem_of_lookup_2, occurs_at_head, Hk.
Qed.

(** The occurrence behind a prefix without the needle's first byte. *)
Lemma str8_find_after pre x needle post :
  x ∉ pre -> str8_find (pre ++ (x :: needle) ++ post) (x :: needle) = Z.of_nat (length pre).
Proof.
  intros Hx. set (hay := pre ++ _ ++ _).
  assert (Hat : occurs_at hay (x :: needle) (length pre)) by by exists pre, post.
  destruct (str8_find_cases hay (x :: needle)) as [(k & -> & Hk & Hmin)|[_ Hno]]; [|by destruct (Hno _ Hat)].
  f_equal. destruct (Nat.lt_trichotomy k (length pre)) as [Hl|[?|Hl]]; [|done|by destruct (Hmin _ Hl)].
  apply occurs_at_head in Hk. unfold hay in Hk. rewrite lookup_app_l in Hk by done.
  destruct Hx. by eapply list_elem_of_lookup_2.
Qed.

(** h3=":port"; ma=seconds *)
Definition advert (port ma : Z) : bytes :=
  lit "h3=" ++ [34; ch_colon] ++ str8_from_u64 port 10 0 ++ [34] ++ lit "; " ++ lit "ma=" ++ str8_from_u64 ma 10 0.

Lemma digits_notin p x : 0 <= p < 2 ^ 64 -> 58 <= x -> x ∉ str8_from_u64 p 10 0.
Proof.
  intros Hp Hx. destruct (str8_from_u64_decimal p 0 Hp) as (Hd & _).
  rewrite Forall_forall in Hd. intros H%Hd. unfold char_is_digit in H. bool_props. lia.
Qed.

(** ** Properties *)

(** An advertisement h3=":port"; ma=seconds is read back exactly: HTTP/3
    is offered, for the advertised 64-bit number of seconds. *)
Theorem alt_svc_parse_advert (port ma : Z) :
  0 <= port <= 65535 -> u64_ok ma ->
  alt_svc_parse (advert port ma) = mkAltSvc true ma.
Proof.
  unfold u64_ok, U64_MAX. intros Hp Hm. unfold alt_svc_parse.
  destruct (str8_from_u64_decimal ma 0) as (Hd & Hv & Hne); [lia|].
  pose proof (digits_notin port 99 ltac:(lia) ltac:(lia)) as Hp1.
  pose proof (digits_notin ma 99 ltac:(lia) ltac:(lia)) as Hm1.
  pose proof (digits_notin port 109 ltac:(lia) ltac:(lia)) as Hp2.
  unfold advert. set (pd := str8_from_u64 port 10 0) in *. set (md := str8_from_u64 ma 10 0) in *.
  clearbody pd md. set (s := lit "h3=" ++ _).
  assert (Hc : str8_contains s (lit "clear") = false).
  { apply str8_contains_false. unfold s. rewrite !elem_of_app. simpl. set_solver by lia. }
  assert (Hh : str8_contains s (lit "h3=") = true).
  { unfold str8_contains, s. apply Z.leb_le.
    assert (Hf : str8_find (lit "h3=" ++ [34; ch_colon] ++ pd ++ [34] ++ lit "; " ++ lit "ma=" ++ md) (lit "h3=") = 0)
      by (apply (str8_find_after [] 104 (lit "3=")); set_solver). by rewrite Hf. }
  rewrite Hc, Hh. cbn [orb as_h3 as_ma_seconds].
  set (pre := lit "h3=" ++ [34; ch_colon] ++ pd ++ [34] ++ lit "; ").
  assert (E : s = pre ++ (109 :: lit "a=") ++ md).
  { unfold s, pre. by rewrite <-!app_assoc. }
  assert (Hf : str8_find s (lit "ma=") = Z.of_nat (length pre)).
  { rewrite E. apply str8_find_after. unfold pre. rewrite !elem_of_app. simpl. set_solver by lia. }
  rewrite Hf, (proj2 (Z.leb_le _ _)) by lia.
  rewrite Nat2Z.id, str8_skip_drop, E, drop_app_add.
  change (drop 3 ((109 :: lit "a=") ++ ?x)) with x. destruct md as [|c ds]; [done|].
  apply Forall_cons_iff in Hd as Hd'. destruct Hd' as [Hcd _]. unfold char_is_digit in Hcd.
  rewrite Hcd. f_equal. unfold str8_chop_u64. rewrite chop_u64_loop_fst by (unfold U64_MAX; lia).
  rewrite Hv. unfold U64_MAX. lia.
Qed.

Lemma alt_svc_parse_advert_witness :
  alt_svc_parse (advert 443 2592000) = mkAltSvc true 2592000.
Proof. apply (alt_svc_parse_advert 443 2592000); unfold u64_ok, U64_MAX; lia. Defined.
