(* ===== verification/HttpDate.v ===== *)
(** * HTTP dates: the first part of core/cookie.c

    The tokenizing date parser of RFC 6265 section 5.1.1 and the day count of
    a Gregorian date. The S64 arithmetic stays far inside its range (years
    have at most four digits), so it is plain [Z] with C's truncating
    division. *)
From S2P Require Import Prelude String8.

Definition k_months : list bytes :=
  Eval vm_compute in
  [lit "jan"; lit "feb"; lit "mar"; lit "apr"; lit "may"; lit "jun";
   lit "jul"; lit "aug"; lit "sep"; lit "oct"; lit "nov"; lit "dec"].

Fixpoint month_loop (ms : list bytes) (i : Z) (t0 t1 t2 : Z) : Z :=
  match ms with
  | [m0; m1; m2] :: ms' =>
      if (char_to_lower t0 =? m0) && (char_to_lower t1 =? m1) && (char_to_lower t2 =? m2)
      then i + 1 else month_loop ms' (i + 1) t0 t1 t2
  | _ => 0
  end.
Definition cookie_month_of (t : bytes) : Z :=
  match t with
  | t0 :: t1 :: t2 :: _ => month_loop k_months 0 t0 t1 t2
  | _ => 0
  end.

Definition cookie_all_digits (t : bytes) : bool :=
  if (length t =? 0)%nat then false else forallb char_is_digit t.

Definition cookie_days_from_civil (y m d : Z) : Z :=
  let y := y - (if m <=? 2 then 1 else 0) in
  let era := Z.quot (if 0 <=? y then y else y - 399) 400 in
  let yoe := y - era * 400 in
  let doy := Z.quot (153 * (m + (if 2 <? m then -3 else 9)) + 2) 5 + d - 1 in
  let doe := yoe * 365 + Z.quot yoe 4 - Z.quot yoe 100 + doy in
  era * 146097 + doe - 719468.

(** The fields found so far; [None] is a [have_] flag that is not set. *)
Record DateState := mkDate {
  ds_time : option (Z * Z * Z);
  ds_day : option Z;
  ds_month : option Z;
  ds_year : option Z
}.

Definition date_char (c : Z) : bool := char_is_alnum c || (c =? ch_colon).
Fixpoint count_colons (t : bytes) : nat :=
  match t with [] => O | c :: t' => if c =? ch_colon then S (count_colons t') else count_colons t' end.

Definition date_time (tok : bytes) : option (Z * Z * Z) :=
  if (count_colons tok =? 2)%nat then
    let '(a, t) := str8_chop_by_delim tok ch_colon in
    let '(b, t) := str8_chop_by_delim t ch_colon in
    if cookie_all_digits a && cookie_all_digits b && cookie_all_digits t
    then Some (str8_to_u64 a, str8_to_u64 b, str8_to_u64 t) else None
  else None.

(** The tests on one token, in the order of the loop body. *)
Definition date_token (st : DateState) (tok : bytes) : DateState :=
  match (match ds_time st with Some _ => None | None => date_time tok end) with
  | Some t => mkDate (Some t) (ds_day st) (ds_month st) (ds_year st)
  | None =>
      if negb (bool_decide (is_Some (ds_day st))) && (length tok <=? 2)%nat && cookie_all_digits tok
      then mkDate (ds_time st) (Some (str8_to_u64 tok)) (ds_month st) (ds_year st)
      else if negb (bool_decide (is_Some (ds_month st))) && negb (cookie_month_of tok =? 0)
      then mkDate (ds_time st) (ds_day st) (Some (cookie_month_of tok)) (ds_year st)
      else if negb (bool_decide (is_Some (ds_year st))) && (2 <=? length tok)%nat &&
              (length tok <=? 4)%nat && cookie_all_digits tok
      then mkDate (ds_time st) (ds_day st) (ds_month st) (Some (str8_to_u64 tok))
      else st
  end.

(** The token loop on the bytes from [i] on; a round that does not end the
    loop consumes a token. *)
Fixpoint skip_delims (s : bytes) : bytes :=
  match s with
  | c :: s' => if date_char c then s else skip_delims s'
  | [] => []
  end.
Fixpoint date_loop (fuel : nat) (s : bytes) (st : DateState) : DateState :=
  match fuel with
  | O => st
  | S fuel' =>
      let s := skip_delims s in
      let tok := str8_take_left_while s date_char in
      if (length tok =? 0)%nat then st
      else date_loop fuel' (drop (length tok) s) (date_token st tok)
  end.

Definition http_date_parse (s : bytes) : Z :=
  match date_loop (length s) s (mkDate None None None None) with
  | mkDate (Some (hh, mm, ss)) (Some day) (Some month) (Some year) =>
      let year := if (70 <=? year) && (year <=? 99) then year + 1900
                  else if year <=? 69 then year + 2000 else year in
      if (day <? 1) || (31 <? day) || (month <? 1) || (12 <? month) || (23 <? hh) || (59 <? mm) ||
         (59 <? ss) || (year <? 1601)
      then 0
      else
        let days := cookie_days_from_civil year month day in
        let epoch := days * 86400 + hh * 3600 + mm * 60 + ss in
        if epoch <? 0 then 0 else epoch
  | _ => 0
  end.

(** ** The Gregorian calendar, as a reference *)

Definition leap (y : Z) : bool :=
  (y mod 4 =? 0) && negb (y mod 100 =? 0) || (y mod 400 =? 0).
Definition month_days (y m : Z) : Z :=
  if m =? 2 then (if leap y then 29 else 28)
  else if (m =? 4) || (m =? 6) || (m =? 9) || (m =? 11) then 30 else 31.
Definition next_day (date : Z * Z * Z) : Z * Z * Z :=
  let '(y, m, d) := date in
  if d <? month_days y m then (y, m, d + 1)
  else if m <? 12 then (y, m + 1, 1) else (y + 1, 1, 1).
Definition valid_date (date : Z * Z * Z) : Prop :=
  let '(y, m, d) := date in 1 <= y /\ 1 <= m <= 12 /\ 1 <= d <= month_days y m.
Definition days_of (date : Z * Z * Z) : Z :=
  let '(y, m, d) := date in cookie_days_from_civil y m d.

(** The count in closed form, by calendar month of a year that starts in March. *)
Lemma days_from_civil_closed y m d :
  1 <= y -> 1 <= m <= 12 ->
  cookie_days_from_civil y m d =
  let y' := if m <=? 2 then y - 1 else y in
  y' * 365 + y' / 4 - y' / 100 + y' / 400 +
  (153 * (m + (if 2 <? m then -3 else 9)) + 2) / 5 + d - 1 - 719468.
Proof.
  intros Hy Hm. unfold cookie_days_from_civil. cbv zeta.
  replace (y - (if m <=? 2 then 1 else 0)) with (if m <=? 2 then y - 1 else y) by (case_if; lia).
  set (y' := if m <=? 2 then y - 1 else y). assert (Hy' : 0 <= y') by (subst y'; case_if; lia).
  rewrite (proj2 (Z.leb_le 0 y')) by lia.
  set (mp := m + _). assert (Hmp : 0 <= mp) by (subst mp; case_if; lia).
  rewrite (Z.quot_div_nonneg (153 * mp + 2)), (Z.quot_div_nonneg y') by lia.
  assert (0 <= y' - y' / 400 * 400) by divmod.
  rewrite !(Z.quot_div_nonneg (y' - _)) by lia.
  clearbody y' mp. generalize ((153 * mp + 2) / 5). intros doy. divmod.
Qed.

Lemma months m : 1 <= m <= 12 ->
  m = 1 \/ m = 2 \/ m = 3 \/ m = 4 \/ m = 5 \/ m = 6 \/ m = 7 \/ m = 8 \/ m = 9 \/ m = 10 \/ m = 11 \/ m = 12.
Proof. lia. Qed.

Lemma month_days_bound y m : 28 <= month_days y m <= 31.
Proof. unfold month_days. repeat case_if; lia. Qed.

(** The year turns in March: its last day is the leap day. *)
Lemma leap_step y : 1 <= y ->
  y * 365 + y / 4 - y / 100 + y / 400 =
  (y - 1) * 365 + (y - 1) / 4 - (y - 1) / 100 + (y - 1) / 400 + (if leap y then 366 else 365).
Proof.
  intros Hy. unfold leap.
  destruct (y mod 4 =? 0) eqn:E4, (y mod 100 =? 0) eqn:E1, (y mod 400 =? 0) eqn:E0;
    bool_props; cbn [andb orb negb]; divmod.
Qed.

Lemma days_from_civil_next y m d :
  valid_date (y, m, d) -> days_of (next_day (y, m, d)) = days_of (y, m, d) + 1.
Proof.
  unfold valid_date, days_of, next_day. intros (Hy & Hm & Hd).
  destruct (Z.ltb_spec d (month_days y m)) as [Hlt|Hge].
  { rewrite !days_from_civil_closed by lia. cbv zeta. lia. }
  assert (d = month_days y m) as -> by lia. clear Hd Hge.
  pose proof (leap_step y Hy) as Hl.
  apply months in Hm. unfold month_days.
  repeat (destruct Hm as [Hm|Hm]); subst m; cbn [Z.ltb Z.compare Pos.compare Pos.compare_cont];
    rewrite !days_from_civil_closed by lia; cbn -[Z.div Z.mul leap]; try destruct (leap y);
    repeat case_if; try lia; divmod.
Qed.

Lemma next_day_valid date : valid_date date -> valid_date (next_day date).
Proof.
  destruct date as [[y m] d]. unfold valid_date, next_day. intros (Hy & Hm & Hd).
  repeat case_if; try lia.
  - pose proof (month_days_bound y (m + 1)). lia.
  - pose proof (month_days_bound (y + 1) 1). lia.
Qed.

(** ** The token loop *)

Lemma take_while_all p s d rest :
  Forall (fun c => p c = true) s -> p d = false -> str8_take_left_while (s ++ d :: rest) p = s.
Proof.
  intros Hs Hd. induction Hs as [|c s Hc _ IH]; simpl; [by rewrite Hd|]. by rewrite Hc, IH.
Qed.

Lemma date_loop_skip fuel d s st : date_char d = false -> date_loop fuel (d :: s) st = date_loop fuel s st.
Proof. intros Hd. destruct fuel; [done|]. cbn [date_loop skip_delims]. by rewrite Hd. Qed.

Lemma date_loop_tok fuel tok d rest st :
  tok <> [] -> Forall (fun c => date_char c = true) tok -> date_char d = false ->
  date_loop (S fuel) (tok ++ d :: rest) st = date_loop fuel rest (date_token st tok).
Proof.
  intros Hne Ht Hd. cbn [date_loop].
  assert (Hsk : skip_delims (tok ++ d :: rest) = tok ++ d :: rest).
  { destruct Ht as [|c tok Hc]; [done|]. simpl. by rewrite Hc. }
  rewrite Hsk, take_while_all by done.
  destruct (Nat.eqb_spec (length tok) 0) as [E|E]; [destruct tok; done|].
  rewrite drop_app_length. by apply date_loop_skip.
Qed.

(** Decimal fields of fixed width. *)
Definition two (n : Z) : bytes := [ch_0 + n / 10; ch_0 + n mod 10].
Definition four (n : Z) : bytes := two (n / 100) ++ two (n mod 100).

Lemma char_is_digit_plus k : 0 <= k <= 9 -> char_is_digit (48 + k) = true.
Proof. intros. unfold char_is_digit. apply andb_true_iff. split; apply Z.leb_le; lia. Qed.

Lemma two_digits n : 0 <= n < 100 -> Forall (fun c => char_is_digit c = true) (two n).
Proof. intros. repeat constructor; apply char_is_digit_plus; divmod. Qed.

Lemma four_digits n : 0 <= n < 10000 -> Forall (fun c => char_is_digit c = true) (four n).
Proof. intros. apply Forall_app. split; apply two_digits; divmod. Qed.

Lemma leading_value_two acc n s :
  0 <= n < 100 -> leading_value acc (two n ++ s) = leading_value (acc * 100 + n) s.
Proof.
  intros. simpl. rewrite !char_is_digit_plus by divmod. f_equal. divmod.
Qed.

Lemma two_value n : 0 <= n < 100 -> str8_to_u64 (two n) = n.
Proof.
  intros. unfold str8_to_u64. rewrite to_u64_loop_spec by (unfold U64_MAX; lia).
  rewrite <-(app_nil_r (two n)), leading_value_two by done. simpl. unfold U64_MAX. lia.
Qed.

Lemma four_value n : 0 <= n < 10000 -> str8_to_u64 (four n) = n.
Proof.
  intros. unfold str8_to_u64, four. rewrite to_u64_loop_spec by (unfold U64_MAX; lia).
  rewrite leading_value_two by divmod. rewrite <-(app_nil_r (two (n mod 100))), leading_value_two by divmod.
  simpl. unfold U64_MAX. divmod.
Qed.

Lemma all_digits_true t : t <> [] -> Forall (fun c => char_is_digit c = true) t -> cookie_all_digits t = true.
Proof.
  intros Hne Ht. unfold cookie_all_digits. destruct t; [done|].
  change (length (z :: t) =? 0)%nat with false. cbv iota.
  apply forallb_forall. intros c Hc. rewrite Forall_forall in Ht. apply Ht. by apply list_elem_of_In.
Qed.

Lemma digits_date_char t :
  Forall (fun c => char_is_digit c = true) t -> Forall (fun c => date_char c = true) t.
Proof.
  intros Ht. eapply Forall_impl; [exact Ht|]. intros c Hc. unfold date_char, char_is_alnum.
  by rewrite Hc, orb_true_r.
Qed.

Lemma digits_no_colon t :
  Forall (fun c => char_is_digit c = true) t -> (ch_colon ∉ t) /\ count_colons t = 0%nat.
Proof.
  induction 1 as [|c t Hc _ [IH1 IH2]]; [split; [set_solver|done]|].
  assert (c <> 58) by (intros ->; discriminate). split; [set_solver|].
  simpl. by rewrite (proj2 (Z.eqb_neq c 58)).
Qed.

Lemma count_colons_app a b : count_colons (a ++ b) = (count_colons a + count_colons b)%nat.
Proof. induction a as [|c a IH]; simpl; [done|]. destruct (c =? 58); simpl; lia. Qed.

Definition hms (h mi s : Z) : bytes := two h ++ ch_colon :: two mi ++ ch_colon :: two s.

Lemma date_time_hms h mi s :
  0 <= h < 100 -> 0 <= mi < 100 -> 0 <= s < 100 -> date_time (hms h mi s) = Some (h, mi, s).
Proof.
  intros Hh Hm Hs. unfold date_time, hms.
  destruct (digits_no_colon _ (two_digits h Hh)) as [Nh Ch].
  destruct (digits_no_colon _ (two_digits mi Hm)) as [Nm Cm].
  destruct (digits_no_colon _ (two_digits s Hs)) as [_ Cs].
  assert (Hc : count_colons (two h ++ 58 :: two mi ++ 58 :: two s) = 2%nat).
  { rewrite count_colons_app, Ch. cbn [count_colons]. change (58 =? 58) with true. cbv iota.
    rewrite count_colons_app, Cm. cbn [count_colons]. change (58 =? 58) with true. cbv iota. by rewrite Cs. }
  rewrite Hc. change (2 =? 2)%nat with true. cbv iota.
  rewrite chop_by_delim_app by done. rewrite chop_by_delim_app by done.
  rewrite !all_digits_true by (done || by apply two_digits). cbn [andb].
  by rewrite !two_value by done.
Qed.

Lemma date_time_digits t : Forall (fun c => char_is_digit c = true) t -> date_time t = None.
Proof. intros Ht. unfold date_time. by rewrite (proj2 (digits_no_colon t Ht)). Qed.

Lemma month_of_digits t : Forall (fun c => char_is_digit c = true) t -> cookie_month_of t = 0.
Proof.
  intros Ht. destruct t as [|t0 [|t1 [|t2 t]]]; try done.
  apply Forall_cons_iff in Ht as [H0 _]. unfold char_is_digit in H0. bool_props.
  unfold cookie_month_of. assert (Hl : char_to_lower t0 = t0).
  { unfold char_to_lower, char_is_upper. case_if; [lia|done]. }
  cbn [month_loop k_months]. rewrite Hl.
  rewrite !(proj2 (Z.eqb_neq t0 _)) by lia. done.
Qed.

(** ** The preferred format: "Sun, 06 Nov 1994 08:49:37 GMT" *)

Definition weekday_names : list bytes :=
  [lit "Sun"; lit "Mon"; lit "Tue"; lit "Wed"; lit "Thu"; lit "Fri"; lit "Sat"].
Definition month_names : list bytes :=
  [lit "Jan"; lit "Feb"; lit "Mar"; lit "Apr"; lit "May"; lit "Jun";
   lit "Jul"; lit "Aug"; lit "Sep"; lit "Oct"; lit "Nov"; lit "Dec"].
Definition http_date (weekday : bytes) (y m d h mi s : Z) : bytes :=
  weekday ++ (ch_comma :: ch_space :: two d ++ (ch_space :: nth (Z.to_nat (m - 1)) month_names [] ++
  (ch_space :: four y ++ (ch_space :: hms h mi s ++ (ch_space :: lit "GMT"))))).

Lemma date_loop_last fuel tok st :
  tok <> [] -> Forall (fun c => date_char c = true) tok ->
  date_loop (S (S fuel)) tok st = date_token st tok.
Proof.
  intros Hne Ht. cbn [date_loop].
  assert (Hsk : skip_delims tok = tok).
  { destruct Ht as [|c tok Hc]; [done|]. simpl. by rewrite Hc. }
  assert (Htk : str8_take_left_while tok date_char = tok).
  { clear Hne Hsk. induction Ht as [|c tok Hc _ IH]; simpl; [done|]. by rewrite Hc, IH. }
  rewrite Hsk, Htk. destruct (Nat.eqb_spec (length tok) 0) as [E|E]; [destruct tok; done|].
  by rewrite drop_all.
Qed.

Lemma date_token_name tok st :
  date_time tok = None -> cookie_all_digits tok = false -> cookie_month_of tok = 0 \/ ds_month st <> None ->
  date_token st tok = st.
Proof.
  intros Ht Hd Hm. unfold date_token. rewrite Ht, Hd, !andb_false_r.
  destruct (ds_time st); (destruct Hm as [->|Hm]; [by rewrite andb_false_r|]);
    destruct (ds_month st); done.
Qed.

Lemma month_name_token m st :
  1 <= m <= 12 -> ds_month st = None ->
  let t := nth (Z.to_nat (m - 1)) month_names [] in
  t <> [] /\ Forall (fun c => date_char c = true) t /\ length t = 3%nat /\
  date_token st t = mkDate (ds_time st) (ds_day st) (Some m) (ds_year st).
Proof.
  intros Hm Hs. destruct st as [ti da mo ye]. simpl in Hs. subst mo.
  apply months in Hm. repeat (destruct Hm as [Hm|Hm]); subst m;
    (split; [done|]; split; [by repeat constructor|]; split; [done|]); by destruct ti, da.
Qed.

(** Parsing the format gives the fields back. *)
Lemma http_date_fields w y m d h mi s fuel :
  w ∈ weekday_names -> 1 <= m <= 12 -> 0 <= d < 100 -> 0 <= y < 10000 ->
  0 <= h < 100 -> 0 <= mi < 100 -> 0 <= s < 100 ->
  date_loop (S (S (S (S (S (S (S fuel))))))) (http_date w y m d h mi s) (mkDate None None None None) =
  mkDate (Some (h, mi, s)) (Some d) (Some m) (Some y).
Proof.
  intros Hw Hm Hd Hy Hh Hmi Hs. unfold http_date.
  assert (Hwk : w <> [] /\ Forall (fun c => date_char c = true) w /\
                date_token (mkDate None None None None) w = mkDate None None None None).
  { unfold weekday_names in Hw. rewrite !elem_of_cons in Hw.
    repeat (destruct Hw as [->|Hw]); [.. |set_solver];
      (split; [done|]; split; [by repeat constructor|done]). }
  destruct Hwk as (Hw1 & Hw2 & Hw3).
  rewrite date_loop_tok, Hw3, date_loop_skip by done.
  rewrite date_loop_tok by (done || by apply digits_date_char, two_digits).
  assert (E1 : date_token (mkDate None None None None) (two d) = mkDate None (Some d) None None).
  { unfold date_token. cbn [ds_time ds_day ds_month ds_year].
    rewrite date_time_digits, all_digits_true by (done || by apply two_digits).
    cbn -[two str8_to_u64]. by rewrite two_value. }
  rewrite E1. destruct (month_name_token m (mkDate None (Some d) None None) Hm eq_refl) as (Hn1 & Hn2 & _ & Hn3).
  rewrite date_loop_tok, Hn3 by done. cbn [ds_time ds_day ds_year].
  pose proof (four_digits y Hy) as H4.
  rewrite date_loop_tok by (done || by apply digits_date_char).
  assert (E2 : date_token (mkDate None (Some d) (Some m) None) (four y) = mkDate None (Some d) (Some m) (Some y)).
  { unfold date_token. cbn [ds_time ds_day ds_month ds_year].
    rewrite date_time_digits, all_digits_true by done.
    cbn -[four str8_to_u64]. by rewrite four_value. }
  rewrite E2. assert (Hhms : Forall (fun c => date_char c = true) (hms h mi s)).
  { unfold hms. apply Forall_app. split; [by apply digits_date_char, two_digits|].
    constructor; [done|]. apply Forall_app. split; [by apply digits_date_char, two_digits|].
    constructor; [done|]. by apply digits_date_char, two_digits. }
  rewrite date_loop_tok by done.
  assert (E3 : date_token (mkDate None (Some d) (Some m) (Some y)) (hms h mi s) =
               mkDate (Some (h, mi, s)) (Some d) (Some m) (Some y)).
  { unfold date_token. cbn [ds_time ds_day ds_month ds_year]. by rewrite date_time_hms. }
  rewrite E3. rewrite date_loop_last by (done || by repeat constructor). done.
Qed.

(** ** Properties *)

(** [cookie_days_from_civil] is the Gregorian calendar: day 0 is
    1970-01-01, and stepping day by day from the first of January of year 1
    with the leap-year rules of the calendar counts up by one each day. *)
Theorem cookie_days_from_civil_counts (n : nat) :
  days_of (1970, 1, 1) = 0 /\
  days_of (Nat.iter n next_day (1, 1, 1)) = Z.of_nat n - 719162 /\
  valid_date (Nat.iter n next_day (1, 1, 1)).
Proof.
  split; [reflexivity|]. induction n as [|n [IH1 IH2]]; [by split|].
  change (Nat.iter (S n) next_day (1, 1, 1)) with (next_day (Nat.iter n next_day (1, 1, 1))).
  destruct (Nat.iter n next_day (1, 1, 1)) as [[y m] d].
  split; [|by apply next_day_valid].
  rewrite days_from_civil_next, IH1 by done. lia.
Qed.

(** Parsing a date in the preferred HTTP format gives its epoch seconds:
    for every weekday, every calendar date of the years 1601 to 9999 and every
    time of day, clamped at 0 before 1970. *)
Theorem http_date_parse_roundtrip (w : bytes) (y m d h mi s : Z) :
  w ∈ weekday_names -> valid_date (y, m, d) -> 1601 <= y <= 9999 ->
  0 <= h <= 23 -> 0 <= mi <= 59 -> 0 <= s <= 59 ->
  http_date_parse (http_date w y m d h mi s) =
  Z.max 0 (days_of (y, m, d) * 86400 + h * 3600 + mi * 60 + s).
Proof.
  intros Hw (_ & Hm & Hd) Hy Hh Hmi Hs. pose proof (month_days_bound y m) as Hb.
  destruct (month_name_token m (mkDate None None None None) Hm eq_refl) as (_ & _ & Hn & _).
  unfold http_date_parse.
  assert (Hl : exists f, length (http_date w y m d h mi s) = S (S (S (S (S (S (S f))))))).
  { unfold http_date. rewrite length_app. cbn [length]. rewrite length_app. cbn [length two].
    rewrite length_app, Hn.
    set (r := length (32 :: _)). exists (length w + r + 1)%nat. lia. }
  destruct Hl as [f ->]. rewrite http_date_fields by (done || lia). cbv zeta.
  rewrite (proj2 (Z.leb_gt y 99)), (proj2 (Z.leb_gt y 69)), andb_false_r by lia.
  rewrite (proj2 (Z.ltb_ge d 1)), (proj2 (Z.ltb_ge 31 d)), (proj2 (Z.ltb_ge m 1)), (proj2 (Z.ltb_ge 12 m)),
    (proj2 (Z.ltb_ge 23 h)), (proj2 (Z.ltb_ge 59 mi)), (proj2 (Z.ltb_ge 59 s)), (proj2 (Z.ltb_ge y 1601)) by lia.
  cbn [orb]. unfold days_of. case_if; lia.
Qed.

Lemma http_date_parse_roundtrip_witness :
  http_date (lit "Sun") 1994 11 6 8 49 37 = lit "Sun, 06 Nov 1994 08:49:37 GMT" /\
  http_date_parse (lit "Sun, 06 Nov 1994 08:49:37 GMT") = 784111777.
Proof.
  split; [reflexivity|].
  refine (eq_trans (http_date_parse_roundtrip (lit "Sun") 1994 11 6 8 49 37 _ _ _ _ _ _) _);
    try lia; [set_solver|by repeat split|reflexivity].
Defined.
