(* ===== verification/Cookie.v ===== *)
(** * The cookie jar: core/cookie.c

    Domain and path matching, the jar (a growable array of cookies), the
    Set-Cookie parser and the Cookie request header. The public suffix tables
    are parameters (see Psl). Strings are copied into the jar's arena, which
    is the identity on contents. *)
From S2P Require Import Prelude String8 U8Buf Url GrowArr Psl HttpDate.
From Stdlib Require Import Sorting.Sorted.

(** ** Matching (RFC 6265 sections 5.1.3 and 5.1.4) *)

Definition is_alpha_ascii (ch : Z) : bool :=
  (ch_a <=? ch) && (ch <=? ch_z) || (ch_A <=? ch) && (ch <=? ch_Z).
Definition cookie_host_is_ip (host : bytes) : bool :=
  let has_colon := existsb (fun ch => ch =? ch_colon) host in
  let has_alpha := existsb is_alpha_ascii host in
  if has_colon then true
  else if has_alpha || (length host =? 0)%nat then false
  else true.

Definition cookie_domain_match (host dom : bytes) : bool :=
  if str8_match_ci host dom then true
  else if (length host <=? length dom)%nat then false
  else
    let tail := str8_skip host (length host - length dom) in
    if negb (str8_match_ci tail dom) then false
    else nth (length host - length dom - 1) host 0 =? ch_dot.

Definition cookie_strip_query (path : bytes) : bytes :=
  match str8_index_of path ch_qmark with
  | Some q => str8_prefix path q
  | None => path
  end.

Definition cookie_path_match (req_path cp : bytes) : bool :=
  let req := cookie_strip_query req_path in
  let req := if (length req =? 0)%nat then lit "/" else req in
  if str8_match req cp then true
  else if (length cp =? 0)%nat || (length req <=? length cp)%nat then false
  else if negb (str8_starts_with req cp) then false
  else if nth (length cp - 1) cp 0 =? ch_slash then true
  else nth (length cp) req 0 =? ch_slash.

Definition cookie_default_path (path : bytes) : bytes :=
  let path := cookie_strip_query path in
  match path with
  | [] => lit "/"
  | c :: _ =>
      if negb (c =? ch_slash) then lit "/"
      else match str8_rindex_of path ch_slash with
           | None => lit "/"
           | Some last => if (last =? 0)%nat then lit "/" else str8_prefix path last
           end
  end.

(** ** The jar *)

Record Cookie := mkCookie {
  c_name : bytes;
  c_value : bytes;
  c_domain : bytes;
  c_path : bytes;
  c_expires_epoch : Z;
  c_host_only : bool;
  c_secure : bool;
  c_http_only : bool;
  c_same_site : Z
}.
Record CookieJar := mkJar {
  j_v : garr Cookie;
  j_max_cookies : Z
}.

Definition cookie_jar_init : CookieJar := mkJar ga_empty 3000.

(** [cookie_jar_push] with the assignments its caller makes. *)
Definition cookie_jar_push (jar : CookieJar) (c : Cookie) : CookieJar :=
  mkJar (ga_push 16 (j_v jar) c) (j_max_cookies jar).
Definition cookie_jar_remove_at (jar : CookieJar) (i : nat) : CookieJar :=
  mkJar (ga_remove_at (j_v jar) i) (j_max_cookies jar).

Definition cookie_expired (now : Z) (c : Cookie) : bool :=
  negb (c_expires_epoch c =? 0) && (c_expires_epoch c <=? now).

(** The two compacting loops; [rounds] is [count - i], which every round
    lowers by one. The first component counts the removals. *)
Fixpoint remove_loop (p : Cookie -> bool) (rounds i : nat) (removed : Z) (jar : CookieJar) : Z * CookieJar :=
  match rounds with
  | O => (removed, jar)
  | S rounds' =>
      match ga_get (j_v jar) i with
      | Some c => if p c then remove_loop p rounds' i (removed + 1) (cookie_jar_remove_at jar i)
                  else remove_loop p rounds' (S i) removed jar
      | None => (removed, jar)
      end
  end.
Definition cookie_jar_evict_expired (jar : CookieJar) (now : Z) : CookieJar :=
  snd (remove_loop (cookie_expired now) (ga_count (j_v jar)) 0 0 jar).
Definition cookie_jar_remove (jar : CookieJar) (name : bytes) : Z * CookieJar :=
  remove_loop (fun c => str8_match (c_name c) name) (ga_count (j_v jar)) 0 0 jar.

(** A scan of the jar from slot [i] on. *)
Fixpoint scan_jar (p : Cookie -> bool) (rounds i : nat) (jar : CookieJar) : option nat :=
  match rounds with
  | O => None
  | S rounds' =>
      match ga_get (j_v jar) i with
      | Some c => if p c then Some i else scan_jar p rounds' (S i) jar
      | None => None
      end
  end.
Definition cookie_jar_get (jar : CookieJar) (name : bytes) : bytes :=
  match scan_jar (fun c => str8_match (c_name c) name) (ga_count (j_v jar)) 0 jar with
  | Some i => match ga_get (j_v jar) i with Some c => c_value c | None => [] end
  | None => []
  end.
Definition cookie_is (name domain path : bytes) (c : Cookie) : bool :=
  str8_match (c_name c) name && str8_match_ci (c_domain c) domain && str8_match (c_path c) path.
(** [None] is -1. *)
Definition cookie_jar_find (jar : CookieJar) (name domain path : bytes) : option nat :=
  scan_jar (cookie_is name domain path) (ga_count (j_v jar)) 0 jar.

Definition cookie_jar_put (jar : CookieJar) (c : Cookie) : CookieJar :=
  match cookie_jar_find jar (c_name c) (c_domain c) (c_path c) with
  | Some i => mkJar (ga_set (j_v jar) i c) (j_max_cookies jar)
  | None =>
      if j_max_cookies jar <=? Z.of_nat (ga_count (j_v jar)) then jar
      else cookie_jar_push jar c
  end.

(** ** Set-Cookie *)

(** The locals of the attribute loop. *)
Record AttrState := mkAttr {
  a_domain : bytes;
  a_host_only : bool;
  a_secure : bool;
  a_http_only : bool;
  a_has_expiry : bool;
  a_expired_now : bool;
  a_maxage_set : bool;
  a_same_site : Z;
  a_expires : Z;
  a_path : bytes
}.

Definition attr_expires (now : Z) (val : bytes) (st : AttrState) : AttrState :=
  if a_maxage_set st then st
  else
    let ep := http_date_parse val in
    if ep =? 0 then st
    else mkAttr (a_domain st) (a_host_only st) (a_secure st) (a_http_only st) true
           (if ep <=? now then true else a_expired_now st) (a_maxage_set st) (a_same_site st) ep (a_path st).
Definition attr_max_age (now : Z) (val : bytes) (st : AttrState) : AttrState :=
  let neg := match val with c :: _ => c =? ch_minus | [] => false end in
  let secs := str8_to_u64 (if neg then str8_skip val 1 else val) in
  let '(expired, expires) := if neg || (secs =? 0) then (true, 1) else (false, wrap64 (now + secs)) in
  mkAttr (a_domain st) (a_host_only st) (a_secure st) (a_http_only st) true expired true
    (a_same_site st) expires (a_path st).
Definition attr_domain (val : bytes) (st : AttrState) : AttrState :=
  let d := match val with c :: _ => if c =? ch_dot then str8_skip val 1 else val | [] => val end in
  if (0 <? length d)%nat
  then mkAttr d false (a_secure st) (a_http_only st) (a_has_expiry st) (a_expired_now st)
         (a_maxage_set st) (a_same_site st) (a_expires st) (a_path st)
  else st.
Definition attr_path (val : bytes) (st : AttrState) : AttrState :=
  match val with
  | c :: _ =>
      if c =? ch_slash
      then mkAttr (a_domain st) (a_host_only st) (a_secure st) (a_http_only st) (a_has_expiry st)
             (a_expired_now st) (a_maxage_set st) (a_same_site st) (a_expires st) val
      else st
  | [] => st
  end.
Definition attr_flags (secure http_only : bool) (same_site : Z) (st : AttrState) : AttrState :=
  mkAttr (a_domain st) (a_host_only st) secure http_only (a_has_expiry st) (a_expired_now st)
    (a_maxage_set st) same_site (a_expires st) (a_path st).

(** One round of the loop, on a trimmed, non-empty attribute. *)
Definition cookie_attr (now : Z) (st : AttrState) (attr : bytes) : AttrState :=
  let '(an, val) :=
    match str8_index_of attr ch_eq with
    | Some e2 => (str8_trim (str8_prefix attr e2), str8_trim (str8_skip attr (e2 + 1)))
    | None => (attr, [])
    end in
  if str8_match_ci an (lit "expires") then attr_expires now val st
  else if str8_match_ci an (lit "max-age") then attr_max_age now val st
  else if str8_match_ci an (lit "domain") then attr_domain val st
  else if str8_match_ci an (lit "path") then attr_path val st
  else if str8_match_ci an (lit "secure") then attr_flags true (a_http_only st) (a_same_site st) st
  else if str8_match_ci an (lit "httponly") then attr_flags (a_secure st) true (a_same_site st) st
  else if str8_match_ci an (lit "samesite") then
    attr_flags (a_secure st) (a_http_only st)
      (if str8_match_ci val (lit "strict") then 2 else if str8_match_ci val (lit "none") then 3 else 1) st
  else st.

Fixpoint cookie_attrs (fuel : nat) (now : Z) (av : bytes) (st : AttrState) : AttrState :=
  match av with
  | [] => st
  | _ =>
      match fuel with
      | O => st
      | S fuel' =>
          let '(attr, av) := str8_chop_by_delim av ch_semi in
          let attr := str8_trim attr in
          cookie_attrs fuel' now av (if (length attr =? 0)%nat then st else cookie_attr now st attr)
      end
  end.

Section psl.
Context (exact_tbl wildcard_tbl exception_tbl : list bytes).

Definition is_suffix (d : bytes) : bool := psl_is_public_suffix exact_tbl wildcard_tbl exception_tbl d.

(** The scope of a cookie that came with a Domain attribute: [None] rejects
    it, otherwise the domain and whether it is host-only. *)
Definition cookie_scope (host domain : bytes) : option (bytes * bool) :=
  if existsb (fun ch => 128 <=? ch) domain then None
  else if cookie_host_is_ip host then
    if negb (str8_match_ci domain host) then None else Some (host, true)
  else if is_suffix domain then
    if negb (str8_match_ci domain host) then None else Some (host, true)
  else if negb (cookie_domain_match host domain) then None
  else Some (domain, false).

(** What a Set-Cookie value asks for: the body of [cookie_jar_store] up to
    its accesses to the jar. *)
Inductive SetCookie :=
| SC_ignore
| SC_delete (name domain path : bytes)
| SC_put (c : Cookie).

Definition parse_set_cookie (req : ParsedUrl) (sc : bytes) (now : Z) : SetCookie :=
  let '(nv, av) := str8_chop_by_delim sc ch_semi in
  let nv := str8_trim nv in
  match str8_index_of nv ch_eq with
  | None => SC_ignore
  | Some eq =>
      let name := str8_trim (str8_prefix nv eq) in
      let value := str8_trim (str8_skip nv (eq + 1)) in
      if (length name =? 0)%nat then SC_ignore
      else
        let st := cookie_attrs (length av) now av
          (mkAttr (host req) true false false false false false 0 0 (cookie_default_path (path req))) in
        match (if a_host_only st then Some (a_domain st, true)
               else cookie_scope (host req) (a_domain st)) with
        | None => SC_ignore
        | Some (domain, host_only) =>
            if a_expired_now st then SC_delete name domain (a_path st)
            else SC_put (mkCookie name value domain (a_path st)
                   (if a_has_expiry st then a_expires st else 0)
                   host_only (a_secure st) (a_http_only st) (a_same_site st))
        end
  end.

Definition cookie_jar_store (jar : CookieJar) (req : ParsedUrl) (sc : bytes) (now : Z) : CookieJar :=
  match parse_set_cookie req sc now with
  | SC_ignore => jar
  | SC_delete name domain path =>
      match cookie_jar_find jar name domain path with
      | Some i => cookie_jar_remove_at jar i
      | None => jar
      end
  | SC_put c => cookie_jar_put jar c
  end.

End psl.

(** ** The Cookie header *)

Definition cookie_sent (req : ParsedUrl) (c : Cookie) : bool :=
  let dm := if c_host_only c then str8_match_ci (host req) (c_domain c)
            else cookie_domain_match (host req) (c_domain c) in
  if negb dm then false
  else if negb (cookie_path_match (path req) (c_path c)) then false
  else if c_secure c && negb (https req) then false
  else true.
(** The indices [idx[0..n)] of the cookies to send, from slot [i] on. *)
Fixpoint select_loop (req : ParsedUrl) (jar : CookieJar) (rounds i : nat) : list nat :=
  match rounds with
  | O => []
  | S rounds' =>
      match ga_get (j_v jar) i with
      | Some c => if cookie_sent req c then i :: select_loop req jar rounds' (S i)
                  else select_loop req jar rounds' (S i)
      | None => []
      end
  end.

Definition path_size (jar : CookieJar) (i : nat) : nat :=
  match ga_get (j_v jar) i with Some c => length (c_path c) | None => 0%nat end.
(** The inner loop of the insertion sort: [pre] is [idx[0..b)] reversed; the
    slots with a shorter path move up by one. *)
Fixpoint sort_insert (jar : CookieJar) (pre : list nat) (key : nat) : list nat :=
  match pre with
  | [] => [key]
  | i :: pre' => if (path_size jar i <? path_size jar key)%nat then i :: sort_insert jar pre' key
                 else key :: pre
  end.
Fixpoint sort_loop (jar : CookieJar) (pre rest : list nat) : list nat :=
  match rest with
  | [] => rev pre
  | key :: rest' => sort_loop jar (sort_insert jar pre key) rest'
  end.
Definition sort_idx (jar : CookieJar) (idx : list nat) : list nat :=
  match idx with [] => [] | i :: rest => sort_loop jar [i] rest end.

Fixpoint emit_loop (jar : CookieJar) (k : nat) (idx : list nat) (buf : U8Buf) : U8Buf :=
  match idx with
  | [] => buf
  | i :: idx' =>
      match ga_get (j_v jar) i with
      | Some c =>
          let buf := if (k =? 0)%nat then buf else u8buf_append buf (lit "; ") in
          let buf := u8buf_append buf (c_name c) in
          let buf := u8buf_push buf ch_eq in
          emit_loop jar (S k) idx' (u8buf_append buf (c_value c))
      | None => buf
      end
  end.

(** The header value ([[]] for [str8_zero()]) and the jar, whose expired
    cookies are gone. *)
Definition cookie_jar_cookie_header (jar : CookieJar) (req : ParsedUrl) (now : Z) : bytes * CookieJar :=
  let jar := cookie_jar_evict_expired jar now in
  if (ga_count (j_v jar) =? 0)%nat then ([], jar)
  else
    let idx := select_loop req jar (ga_count (j_v jar)) 0 in
    if (length idx =? 0)%nat then ([], jar)
    else (u8buf_str8 (emit_loop jar 0 (sort_idx jar idx) (u8buf_init 128)), jar).

(** ** The jar as a list, and as a map from keys to cookies *)

#[export] Instance Cookie_eq_dec : EqDecision Cookie.
Proof. solve_decision. Defined.

Definition jar_list (jar : CookieJar) : list Cookie := ga_list (j_v jar).
Definition jar_rep (jar : CookieJar) (l : list Cookie) : Prop := ga_rep (j_v jar) l.

(** The identity of a cookie: name, domain (ignoring case) and path. *)
Definition cookie_key (c : Cookie) : bytes * bytes * bytes :=
  (c_name c, lower (c_domain c), c_path c).
Definition jar_lookup (l : list Cookie) (k : bytes * bytes * bytes) : option Cookie :=
  snd <$> list_find (fun c => cookie_key c = k) l.

Lemma cookie_is_key n d p c : cookie_is n d p c = bool_decide (cookie_key c = (n, lower d, p)).
Proof.
  apply Bool.eq_iff_eq_true. unfold cookie_is, cookie_key.
  rewrite bool_decide_eq_true, !andb_true_iff, !str8_match_eq, str8_match_ci_eq.
  split; [intros [[-> ->] ->]; done|intros [= H1 H2 H3]; done].
Qed.

Lemma jar_rep_count jar l : jar_rep jar l -> ga_count (j_v jar) = length l.
Proof. by intros (? & _ & ? & _). Qed.

Lemma jar_rep_list jar l : jar_rep jar l -> jar_list jar = l.
Proof. apply ga_rep_list. Qed.

Lemma scan_jar_spec (p : Cookie -> bool) rounds i jar l :
  jar_rep jar l -> (rounds + i = length l)%nat ->
  scan_jar p rounds i jar = (fun q => (i + fst q)%nat) <$> list_find (fun c => p c = true) (drop i l).
Proof.
  intros Hr. revert i; induction rounds as [|rounds IH]; intros i Hi; cbn [scan_jar].
  - by rewrite drop_ge by lia.
  - rewrite (ga_get_rep _ _ _ Hr).
    destruct (l !! i) as [c|] eqn:Ei; [|apply lookup_ge_None in Ei; lia].
    rewrite (drop_S _ _ _ Ei). cbn [list_find]. destruct (decide (p c = true)) as [E|E].
    + rewrite E. simpl. by rewrite Nat.add_0_r.
    + apply not_true_iff_false in E. rewrite E, IH by lia.
      destruct (list_find _ (drop (S i) l)) as [[k c']|]; simpl; [|done]. f_equal. lia.
Qed.

Lemma list_find_ext' {A} (P Q : A -> Prop) `{forall x, Decision (P x)} `{forall x, Decision (Q x)} l :
  (forall x, P x <-> Q x) -> list_find P l = list_find Q l.
Proof.
  intros HPQ. induction l as [|x l IH]; [done|]. cbn [list_find].
  destruct (decide (P x)), (decide (Q x)); try done; [naive_solver..|]. by rewrite IH.
Qed.

Lemma cookie_jar_find_spec jar l n d p :
  jar_rep jar l ->
  cookie_jar_find jar n d p = fst <$> list_find (fun c => cookie_key c = (n, lower d, p)) l.
Proof.
  intros Hr. unfold cookie_jar_find. rewrite (jar_rep_count _ _ Hr), (scan_jar_spec _ _ _ _ l) by (done || lia).
  rewrite drop_0, (list_find_ext' _ (fun c => cookie_key c = (n, lower d, p))).
  - done.
  - intros c. by rewrite cookie_is_key, bool_decide_eq_true.
Qed.

(** The compacting loops are filters. *)
Definition rejects (p : Cookie -> bool) (c : Cookie) : Prop := p c = false.
#[export] Instance rejects_dec p c : Decision (rejects p c).
Proof. unfold rejects. apply _. Defined.

Lemma delete_middle {A} (pre : list A) x rest : delete (length pre) (pre ++ x :: rest) = pre ++ rest.
Proof. induction pre as [|y pre IH]; simpl; [done|]. f_equal. exact IH. Qed.

Lemma remove_loop_spec p rest pre removed jar :
  jar_rep jar (pre ++ rest) ->
  exists jar', remove_loop p (length rest) (length pre) removed jar =
      (removed + Z.of_nat (length rest - length (filter (rejects p) rest)), jar') /\
    jar_rep jar' (pre ++ filter (rejects p) rest) /\ j_max_cookies jar' = j_max_cookies jar.
Proof.
  revert pre removed jar; induction rest as [|c rest IH]; intros pre removed jar Hr; cbn [remove_loop length].
  - exists jar. split; [f_equal; simpl; lia|done].
  - rewrite (ga_get_rep _ _ _ Hr), lookup_app_r, Nat.sub_diag by lia. simpl.
    assert (Hlen : (length (filter (rejects p) rest) <= length rest)%nat) by apply length_filter.
    destruct (p c) eqn:Ep.
    + rewrite filter_cons_False by (unfold rejects; by rewrite Ep).
      destruct (IH pre (removed + 1) (cookie_jar_remove_at jar (length pre))) as (jar' & E & Hr' & Hm).
      { unfold jar_rep, cookie_jar_remove_at. simpl. rewrite <-(delete_middle pre c rest).
        apply ga_remove_at_rep; [rewrite length_app; simpl; lia|done]. }
      exists jar'. rewrite E. split; [f_equal; lia|]. by split.
    + rewrite filter_cons_True by done.
      destruct (IH (pre ++ [c]) removed jar) as (jar' & E & Hr' & Hm).
      { by rewrite <-app_assoc. }
      rewrite length_app, Nat.add_1_r in E. exists jar'. rewrite E. split; [done|].
      rewrite <-app_assoc in Hr'. by split.
Qed.

Lemma cookie_jar_evict_expired_rep jar l now :
  jar_rep jar l ->
  jar_rep (cookie_jar_evict_expired jar now) (filter (rejects (cookie_expired now)) l) /\
  j_max_cookies (cookie_jar_evict_expired jar now) = j_max_cookies jar.
Proof.
  intros Hr. unfold cookie_jar_evict_expired. rewrite (jar_rep_count _ _ Hr).
  destruct (remove_loop_spec (cookie_expired now) l [] 0 jar Hr) as (jar' & E & Hr' & Hm).
  change (length []) with 0%nat in E. by rewrite E.
Qed.

Lemma cookie_jar_remove_rep jar l n :
  jar_rep jar l ->
  let r := cookie_jar_remove jar n in
  jar_rep (snd r) (filter (fun c => c_name c <> n) l) /\
  fst r = Z.of_nat (length l - length (filter (fun c => c_name c <> n) l)).
Proof.
  intros Hr r. unfold r, cookie_jar_remove. rewrite (jar_rep_count _ _ Hr).
  destruct (remove_loop_spec (fun c => str8_match (c_name c) n) l [] 0 jar Hr) as (jar' & E & Hr' & _).
  change (length []) with 0%nat in E. rewrite E. simpl. assert (Ef : filter (rejects (fun c => str8_match (c_name c) n)) l = filter (fun c => c_name c <> n) l).
  { apply list_filter_iff. intros c. unfold rejects. apply str8_match_false. }
  rewrite Ef in *. done.
Qed.

(** ** put, on lists *)

Definition put_list (max : Z) (l : list Cookie) (c : Cookie) : list Cookie :=
  match list_find (fun c' => cookie_key c' = cookie_key c) l with
  | Some (i, _) => <[i := c]> l
  | None => if max <=? Z.of_nat (length l) then l else l ++ [c]
  end.

Lemma cookie_jar_put_rep jar l c :
  jar_rep jar l ->
  jar_rep (cookie_jar_put jar c) (put_list (j_max_cookies jar) l c) /\
  j_max_cookies (cookie_jar_put jar c) = j_max_cookies jar.
Proof.
  intros Hr. unfold cookie_jar_put, put_list. rewrite (cookie_jar_find_spec _ _ _ _ _ Hr).
  change (c_name c, lower (c_domain c), c_path c) with (cookie_key c).
  destruct (list_find _ l) as [[i c']|] eqn:Ef; simpl.
  - apply list_find_Some in Ef as (Hi & _). split; [|done].
    apply ga_set_rep; [by eapply lookup_lt_Some|done].
  - rewrite (jar_rep_count _ _ Hr). destruct (_ <=? _); split; try done.
    apply ga_push_rep; [lia|done].
Qed.

Definition delete_key (l : list Cookie) (k : bytes * bytes * bytes) : list Cookie :=
  match list_find (fun c => cookie_key c = k) l with
  | Some (i, _) => delete i l
  | None => l
  end.

Lemma remove_found_rep jar l n d p :
  jar_rep jar l ->
  let jar' := match cookie_jar_find jar n d p with
              | Some i => cookie_jar_remove_at jar i
              | None => jar
              end in
  jar_rep jar' (delete_key l (n, lower d, p)) /\ j_max_cookies jar' = j_max_cookies jar.
Proof.
  intros Hr jar'. unfold jar', delete_key. rewrite (cookie_jar_find_spec _ _ _ _ _ Hr).
  destruct (list_find _ l) as [[i c]|] eqn:Ef; simpl; [|done].
  apply list_find_Some in Ef as (Hi & _). split; [|done].
  apply ga_remove_at_rep; [by eapply lookup_lt_Some|done].
Qed.

Lemma jar_lookup_cons c l k :
  jar_lookup (c :: l) k = if decide (cookie_key c = k) then Some c else jar_lookup l k.
Proof.
  unfold jar_lookup. cbn [list_find]. destruct (decide (cookie_key c = k)); [done|].
  by destruct (list_find _ l) as [[i c']|].
Qed.

Lemma jar_lookup_app l1 l2 k :
  jar_lookup (l1 ++ l2) k = match jar_lookup l1 k with Some c => Some c | None => jar_lookup l2 k end.
Proof.
  induction l1 as [|c l1 IH]; [done|]. rewrite <-app_comm_cons, !jar_lookup_cons.
  by destruct (decide _).
Qed.

Lemma jar_lookup_None l k : jar_lookup l k = None <-> k ∉ (cookie_key <$> l).
Proof.
  induction l as [|c l IH]; [split; [intros _; set_solver|done]|].
  rewrite jar_lookup_cons, fmap_cons, not_elem_of_cons. destruct (decide (cookie_key c = k)); naive_solver.
Qed.

(** Where a key is found: the first cookie of that key. *)
Lemma key_find_split l k :
  match list_find (fun c => cookie_key c = k) l with
  | Some (i, c) => exists l1 l2, l = l1 ++ c :: l2 /\ length l1 = i /\ cookie_key c = k /\ jar_lookup l1 k = None
  | None => jar_lookup l k = None
  end.
Proof.
  induction l as [|c l IH]; [done|]. cbn [list_find].
  destruct (decide (cookie_key c = k)) as [E|E]; [by exists [], l|].
  destruct (list_find _ l) as [[i c']|]; simpl.
  - destruct IH as (l1 & l2 & -> & <- & Hk & Hn). exists (c :: l1), l2.
    rewrite jar_lookup_cons. by destruct (decide _).
  - rewrite jar_lookup_cons. by destruct (decide _).
Qed.

Lemma insert_middle {A} (l1 : list A) x y l2 : <[length l1 := y]> (l1 ++ x :: l2) = l1 ++ y :: l2.
Proof. induction l1 as [|z l1 IH]; simpl; [done|]. f_equal. exact IH. Qed.

(** [put] is insertion into the map, unless the jar is full and the key is
    new; the removal of an expired cookie is deletion. *)
Lemma put_list_lookup max l c k :
  jar_lookup (put_list max l c) k =
  if decide (k = cookie_key c)
  then if bool_decide (is_Some (jar_lookup l k)) || (Z.of_nat (length l) <? max) then Some c else None
  else jar_lookup l k.
Proof.
  unfold put_list. pose proof (key_find_split l (cookie_key c)) as Hs.
  destruct (list_find _ l) as [[i c']|].
  - destruct Hs as (l1 & l2 & -> & <- & Hk & Hn). rewrite insert_middle, !jar_lookup_app, !jar_lookup_cons.
    destruct (decide (k = cookie_key c)) as [->|E].
    + rewrite Hn. destruct (decide (cookie_key c = cookie_key c)); [|done].
      destruct (decide (cookie_key c' = cookie_key c)); [done|naive_solver].
    + destruct (decide (cookie_key c = k)); [naive_solver|].
      destruct (decide (cookie_key c' = k)); [congruence|done].
  - destruct (decide (k = cookie_key c)) as [->|E].
    + rewrite Hs. rewrite bool_decide_false by by intros [? ?]. cbn [orb].
      destruct (Z.leb_spec max (Z.of_nat (length l))), (Z.ltb_spec (Z.of_nat (length l)) max); try lia; [done|].
      rewrite jar_lookup_app, Hs, jar_lookup_cons. by destruct (decide _).
    + destruct (_ <=? _); [done|]. rewrite jar_lookup_app, jar_lookup_cons.
      destruct (decide (cookie_key c = k)); [naive_solver|]. by destruct (jar_lookup l k).
Qed.

Lemma delete_key_lookup l k k' :
  NoDup (cookie_key <$> l) ->
  jar_lookup (delete_key l k) k' = if decide (k' = k) then None else jar_lookup l k'.
Proof.
  intros Hnd. unfold delete_key. pose proof (key_find_split l k) as Hs.
  destruct (list_find _ l) as [[i c]|].
  - destruct Hs as (l1 & l2 & -> & <- & Hk & Hn). rewrite delete_middle, !jar_lookup_app, jar_lookup_cons.
    rewrite fmap_app, fmap_cons in Hnd. apply NoDup_app in Hnd as (_ & _ & [Hc _]%NoDup_cons).
    destruct (decide (k' = k)) as [->|E].
    + rewrite Hn. apply jar_lookup_None. by rewrite <-Hk.
    + by destruct (decide (cookie_key c = k')); [congruence|].
  - destruct (decide (k' = k)) as [->|]; done.
Qed.

Lemma put_list_keys max l c : NoDup (cookie_key <$> l) -> NoDup (cookie_key <$> put_list max l c).
Proof.
  intros Hnd. unfold put_list. pose proof (key_find_split l (cookie_key c)) as Hs.
  destruct (list_find _ l) as [[i c']|].
  - destruct Hs as (l1 & l2 & -> & <- & Hk & Hn). rewrite insert_middle.
    rewrite fmap_app, fmap_cons in *. by rewrite <-Hk.
  - destruct (_ <=? _); [done|]. rewrite fmap_app. apply NoDup_app. split; [done|].
    apply jar_lookup_None in Hs. split; [|apply NoDup_singleton].
    intros k Hk ->%list_elem_of_singleton. done.
Qed.

Lemma delete_key_sublist l k : delete_key l k `sublist_of` l.
Proof. unfold delete_key. destruct (list_find _ l) as [[i c]|]; [apply sublist_delete|done]. Qed.

Lemma put_list_elem max l c x : x ∈ put_list max l c -> x = c \/ x ∈ l.
Proof.
  unfold put_list. pose proof (key_find_split l (cookie_key c)) as Hs.
  destruct (list_find _ l) as [[i c']|].
  - destruct Hs as (l1 & l2 & -> & <- & _). rewrite insert_middle, !elem_of_app, !elem_of_cons. tauto.
  - destruct (_ <=? _); [by right|]. rewrite elem_of_app, list_elem_of_singleton. tauto.
Qed.

Lemma put_list_length max l c :
  (length (put_list max l c) <= length l)%nat \/
  (length (put_list max l c) = S (length l) /\ Z.of_nat (length l) < max).
Proof.
  unfold put_list. destruct (list_find _ l) as [[i c']|].
  - left. by rewrite length_insert.
  - destruct (Z.leb_spec max (Z.of_nat (length l))); [by left|right].
    rewrite length_app. simpl. lia.
Qed.

(** ** Domain and path matching *)

Lemma lower_app a b : lower (a ++ b) = lower a ++ lower b.
Proof. apply fmap_app. Qed.

Lemma split_tail (s : bytes) n : (n < length s)%nat ->
  s = take (length s - n - 1) s ++ nth (length s - n - 1) s 0 :: drop (length s - n) s.
Proof.
  intros Hn. destruct (lookup_lt_is_Some_2 s (length s - n - 1)) as [c Hc]; [lia|].
  rewrite <-(take_drop (length s - n - 1) s) at 1. f_equal.
  rewrite (drop_S _ _ _ Hc). f_equal; [|f_equal; lia].
  symmetry. apply nth_lookup_Some with (d := 0) in Hc. done.
Qed.

Lemma cookie_domain_match_iff host dom :
  cookie_domain_match host dom = true <->
  lower host = lower dom \/ exists pre, lower host = pre ++ ch_dot :: lower dom.
Proof.
  unfold cookie_domain_match. destruct (str8_match_ci host dom) eqn:E.
  { apply str8_match_ci_eq in E. split; auto. }
  apply str8_match_ci_false in E.
  destruct (Nat.leb_spec (length host) (length dom)) as [Hl|Hl].
  { split; [done|]. intros [?|[pre Hp]]; [done|]. apply (f_equal length) in Hp.
    rewrite length_app in Hp. simpl in Hp. rewrite !lower_length in Hp. lia. }
  rewrite str8_skip_drop. pose proof (split_tail host (length dom) Hl) as Hs.
  set (pre := take _ host) in Hs. set (h := nth _ host 0) in *. set (tl := drop _ host) in *.
  assert (Htl : length tl = length dom) by (unfold tl; rewrite length_drop; lia).
  clearbody pre h tl. subst host. rewrite lower_app.
  change (lower (h :: tl)) with (char_to_lower h :: lower tl).
  split.
  - destruct (str8_match_ci tl dom) eqn:Em; simpl; [|done]. intros Hd. bool_props. subst h.
    right. exists (lower pre). apply str8_match_ci_eq in Em. by rewrite Em.
  - intros [?|[pre' Hp]]; [by rewrite lower_app in E|].
    apply app_inj_2 in Hp as [_ Hp]; [|simpl; by rewrite !lower_length, Htl].
    injection Hp as Hh Ht. apply char_to_lower_dot in Hh as ->.
    by rewrite (proj2 (str8_match_ci_eq _ _) Ht).
Qed.

(** The path a request is matched with. *)
Definition request_path (p : bytes) : bytes :=
  let r := cookie_strip_query p in if (length r =? 0)%nat then lit "/" else r.

Lemma nth_last (s : bytes) : s <> [] -> last s = Some (nth (length s - 1) s 0).
Proof.
  intros Hs. destruct s as [|x s _] using rev_ind; [done|].
  rewrite last_snoc, length_app. simpl. rewrite Nat.add_sub. by rewrite nth_middle.
Qed.

Lemma cookie_path_match_iff p cp :
  cookie_path_match p cp = true <->
  request_path p = cp \/
  (cp <> [] /\ exists c t, request_path p = cp ++ c :: t /\ (c = ch_slash \/ last cp = Some ch_slash)).
Proof.
  unfold cookie_path_match. cbv zeta. fold (request_path p). set (r := request_path p).
  destruct (str8_match r cp) eqn:E; [apply str8_match_eq in E; split; auto|].
  apply str8_match_false in E.
  destruct (Nat.eqb_spec (length cp) 0) as [E0|E0]; cbn [orb].
  { destruct cp; [|done]. naive_solver. }
  assert (Hcp : cp <> []) by by intros ->.
  destruct (Nat.leb_spec (length r) (length cp)) as [Hl|Hl].
  { split; [done|]. intros [?|(_ & c & t & Hr & _)]; [done|]. rewrite Hr, length_app in Hl. simpl in Hl. lia. }
  rewrite (nth_last cp Hcp).
  destruct (str8_starts_with r cp) eqn:Es; cbn [negb].
  2:{ split; [done|]. intros [?|(_ & c & t & Hr & _)]; [done|].
      rewrite (proj2 (str8_starts_with_spec r cp)) in Es; [done|by eexists]. }
  apply str8_starts_with_spec in Es as [t Et]. rewrite Et in *. destruct t as [|c t].
  { rewrite app_nil_r in Hl. lia. }
  rewrite nth_middle. destruct (Z.eqb_spec (nth (length cp - 1) cp 0) 47) as [Es|Es].
  { split; [|done]. intros _. right. split; [done|]. exists c, t. rewrite Es. auto. }
  rewrite Z.eqb_eq. split.
  - intros ->. right. split; [done|]. eauto.
  - intros [?|(_ & c' & t' & Ht & [->|Hlast])]; [done| |congruence].
    apply app_inv_head in Ht. congruence.
Qed.

(** ** Set-Cookie *)

Lemma cookie_attr_host_only now h st attr :
  (a_host_only st = true -> a_domain st = h) ->
  a_host_only (cookie_attr now st attr) = true -> a_domain (cookie_attr now st attr) = h.
Proof.
  intros Hst. unfold cookie_attr. destruct (str8_index_of attr ch_eq);
    unfold attr_expires, attr_max_age, attr_domain, attr_path, attr_flags;
    repeat (case_match; simpl; try done).
Qed.

Lemma cookie_attrs_host_only fuel now h av st :
  (a_host_only st = true -> a_domain st = h) ->
  a_host_only (cookie_attrs fuel now av st) = true -> a_domain (cookie_attrs fuel now av st) = h.
Proof.
  revert av st; induction fuel as [|fuel IH]; intros av st Hst; destruct av as [|x av]; try done.
  cbn [cookie_attrs]. destruct (str8_chop_by_delim (x :: av) ch_semi) as [attr av'].
  apply IH. destruct (_ =? 0)%nat; [done|]. by apply cookie_attr_host_only.
Qed.

Section store.
Context (exact_tbl wildcard_tbl exception_tbl : list bytes).
Local Abbreviation suffix := (is_suffix exact_tbl wildcard_tbl exception_tbl).
Local Abbreviation parse := (parse_set_cookie exact_tbl wildcard_tbl exception_tbl).
Local Abbreviation store := (cookie_jar_store exact_tbl wildcard_tbl exception_tbl).

(** A domain cookie never covers a public suffix. *)
Definition scope_safe (c : Cookie) : Prop :=
  c_host_only c = false -> suffix (c_domain c) = false /\ Forall (fun ch => ch < 128) (c_domain c).
(** The cookie covers the host, in the words of RFC 6265 section 5.1.3: a host-only
    one its own host; a domain cookie the hosts of its domain, which are names:
    the domain itself, or labels put before it. *)
Definition dotted_quad (host : bytes) : Prop :=
  exists a b c d, host = a ++ ch_dot :: b ++ ch_dot :: c ++ ch_dot :: d /\
    Forall (fun n => n <> [] /\ Forall (fun ch => ch_0 <= ch <= ch_9) n) [a; b; c; d].
Definition ip_address (host : bytes) : Prop := ch_colon ∈ host \/ dotted_quad host.
Definition covers (host : bytes) (c : Cookie) : Prop :=
  if c_host_only c then c_domain c = host
  else ~ ip_address host /\
       (lower host = lower (c_domain c) \/ exists labels, lower host = labels ++ ch_dot :: lower (c_domain c)).

Lemma ip_address_is_ip host : ip_address host -> cookie_host_is_ip host = true.
Proof.
  unfold cookie_host_is_ip. intros [Hc|(a & b & c & d & -> & Hd)].
  - assert (E : existsb (fun ch => ch =? ch_colon) host = true); [|by rewrite E].
    apply existsb_exists. exists ch_colon. split; [by apply list_elem_of_In|done].
  - destruct (existsb (fun ch => ch =? ch_colon) _); [done|].
    assert (Hn : Forall (fun ch => is_alpha_ascii ch = false) (a ++ ch_dot :: b ++ ch_dot :: c ++ ch_dot :: d)).
    { assert (Hdig : forall n, Forall (fun ch => ch_0 <= ch <= ch_9) n -> Forall (fun ch => is_alpha_ascii ch = false) n).
      { intros n Hn. eapply Forall_impl; [exact Hn|]. intros ch Hch. cbv beta in Hch. unfold is_alpha_ascii.
        lia. }
      rewrite !Forall_cons in Hd. destruct Hd as ([_ ?] & [_ ?] & [_ ?] & [_ ?] & _).
      repeat first [apply Forall_app; split | apply Forall_cons; split]; auto. }
    assert (E : existsb is_alpha_ascii (a ++ ch_dot :: b ++ ch_dot :: c ++ ch_dot :: d) = false).
    { apply not_true_iff_false. intros (ch & Hin & Hch)%existsb_exists. rewrite Forall_forall in Hn.
      rewrite Hn in Hch; [done|]. by apply list_elem_of_In. }
    rewrite E. by destruct a.
Qed.

Lemma cookie_scope_ok h d d' ho n v p e s ht ss :
  cookie_scope exact_tbl wildcard_tbl exception_tbl h d = Some (d', ho) ->
  scope_safe (mkCookie n v d' p e ho s ht ss) /\ covers h (mkCookie n v d' p e ho s ht ss).
Proof.
  unfold cookie_scope, scope_safe, covers. destruct (existsb _ d) eqn:Ex; [done|].
  destruct (cookie_host_is_ip h) eqn:Ei.
  { destruct (negb _); [done|]. by intros [= <- <-]. }
  destruct (suffix d) eqn:Es.
  { destruct (negb _); [done|]. by intros [= <- <-]. }
  destruct (cookie_domain_match h d) eqn:Em; simpl; [|done]. intros [= <- <-]. simpl.
  split; [|split; [by intros Hip%ip_address_is_ip; rewrite Hip in Ei|by apply cookie_domain_match_iff]].
  intros _. split; [done|]. apply Forall_forall. intros c Hc.
  apply not_true_iff_false in Ex. destruct (Z.leb_spec 128 c); [|done]. exfalso. apply Ex.
  apply existsb_exists. exists c. split; [by apply list_elem_of_In|]. lia.
Qed.

Lemma parse_set_cookie_scope req sc now c :
  parse req sc now = SC_put c -> scope_safe c /\ covers (host req) c.
Proof.
  unfold parse_set_cookie. destruct (str8_chop_by_delim sc ch_semi) as [nv av].
  destruct (str8_index_of _ ch_eq); [|done]. destruct (_ =? 0)%nat; [done|].
  set (st0 := mkAttr _ _ _ _ _ _ _ _ _ _). set (st := cookie_attrs _ _ _ _).
  assert (Hh : a_host_only st = true -> a_domain st = host req) by by apply cookie_attrs_host_only.
  clearbody st. destruct (a_host_only st) eqn:Eh.
  - destruct (a_expired_now st); [done|]. intros [= <-]. unfold scope_safe, covers. simpl. split; [done|auto].
  - destruct (cookie_scope _ _ _ _ _) as [[d ho]|] eqn:Es; [|done].
    destruct (a_expired_now st); [done|]. intros [= <-]. by eapply cookie_scope_ok.
Qed.

(** ** The jar invariant: no more cookies than the cap, one per key, and no
    cookie for a public suffix. *)
Definition jar_inv (jar : CookieJar) : Prop :=
  jar_rep jar (jar_list jar) /\ Z.of_nat (length (jar_list jar)) <= j_max_cookies jar /\
  NoDup (cookie_key <$> jar_list jar) /\ Forall scope_safe (jar_list jar).

Lemma jar_inv_rep jar l :
  jar_rep jar l -> Z.of_nat (length l) <= j_max_cookies jar ->
  NoDup (cookie_key <$> l) -> Forall scope_safe l -> jar_inv jar.
Proof. intros Hr. unfold jar_inv. by rewrite (jar_rep_list _ _ Hr). Qed.

Lemma jar_inv_sublist jar jar' l' :
  jar_inv jar -> jar_rep jar' l' -> j_max_cookies jar' = j_max_cookies jar ->
  l' `sublist_of` jar_list jar -> jar_inv jar'.
Proof.
  intros (_ & Hlen & Hnd & Hs) Hr Hm Hsub. apply (jar_inv_rep _ l'); [done| | |].
  - apply sublist_length in Hsub. lia.
  - eapply sublist_NoDup; [exact Hnd|]. by apply fmap_sublist.
  - apply Forall_forall. intros c Hc. rewrite Forall_forall in Hs. apply Hs.
    by eapply sublist_subseteq.
Qed.

Lemma jar_inv_put jar c : jar_inv jar -> scope_safe c -> jar_inv (cookie_jar_put jar c).
Proof.
  intros (Hr & Hlen & Hnd & Hs) Hc. destruct (cookie_jar_put_rep jar _ c Hr) as [Hr' Hm].
  apply (jar_inv_rep _ _ Hr').
  - rewrite Hm. destruct (put_list_length (j_max_cookies jar) (jar_list jar) c); lia.
  - by apply put_list_keys.
  - apply Forall_forall. intros x [->|Hx]%put_list_elem; [done|]. rewrite Forall_forall in Hs. auto.
Qed.

End store.

(** ** The Cookie header *)

Lemma filter_rev {A} (P : A -> Prop) `{forall x, Decision (P x)} (l : list A) :
  filter P (rev l) = rev (filter P l).
Proof.
  induction l as [|x l IH]; [done|]. simpl. rewrite filter_app, IH.
  destruct (decide (P x)).
  - by rewrite filter_cons_True, (filter_cons_True _ x l).
  - by rewrite filter_cons_False, (filter_cons_False _ x l), app_nil_r.
Qed.

Lemma StronglySorted_snoc' {A} (R : A -> A -> Prop) l x :
  StronglySorted R l -> Forall (fun y => R y x) l -> StronglySorted R (l ++ [x]).
Proof.
  induction 1 as [|y l Hs IH Hy]; intros Hx; simpl; [repeat constructor|].
  apply Forall_cons_iff in Hx as [Hyx Hx]. constructor; [by apply IH|].
  apply Forall_app. split; [done|]. by repeat constructor.
Qed.

Lemma StronglySorted_rev' {A} (R : A -> A -> Prop) l :
  StronglySorted R l -> StronglySorted (fun x y => R y x) (rev l).
Proof.
  induction 1 as [|x l Hs IH Hx]; simpl; [constructor|]. apply StronglySorted_snoc'; [done|].
  by apply Forall_rev.
Qed.

Section sorting.
Context (jar : CookieJar).
Local Abbreviation f := (path_size jar).

Lemma sort_insert_perm pre key : sort_insert jar pre key ≡ₚ key :: pre.
Proof.
  induction pre as [|i pre IH]; cbn [sort_insert]; [done|].
  destruct (_ <? _)%nat; [|done]. rewrite IH. by apply Permutation_swap.
Qed.

Lemma sort_insert_stable pre key n :
  filter (fun i => f i = n) (sort_insert jar pre key) = filter (fun i => f i = n) (key :: pre).
Proof.
  induction pre as [|i pre IH]; cbn [sort_insert]; [done|].
  destruct (Nat.ltb_spec (f i) (f key)) as [Hl|]; [|done].
  rewrite !filter_cons in *. rewrite IH.
  destruct (decide (f i = n)), (decide (f key = n)); try done. lia.
Qed.

Lemma sort_insert_sorted pre key :
  StronglySorted (fun i j => (f i <= f j)%nat) pre ->
  StronglySorted (fun i j => (f i <= f j)%nat) (sort_insert jar pre key).
Proof.
  induction 1 as [|i pre Hs IH Hi]; cbn [sort_insert]; [repeat constructor|].
  destruct (Nat.ltb_spec (f i) (f key)) as [Hl|Hl].
  - constructor; [done|]. apply Forall_forall. intros j Hj. rewrite sort_insert_perm in Hj.
    apply elem_of_cons in Hj as [->|Hj]; [lia|]. rewrite Forall_forall in Hi. by apply Hi.
  - constructor; [by constructor|]. constructor; [done|]. eapply Forall_impl; [exact Hi|]. simpl. lia.
Qed.

Lemma sort_loop_perm pre rest : sort_loop jar pre rest ≡ₚ rev pre ++ rest.
Proof.
  revert pre; induction rest as [|key rest IH]; intros pre; cbn [sort_loop]; [by rewrite app_nil_r|].
  rewrite IH, <-!Permutation_rev, sort_insert_perm. apply Permutation_middle.
Qed.

Lemma sort_loop_stable pre rest n :
  filter (fun i => f i = n) (sort_loop jar pre rest) = filter (fun i => f i = n) (rev pre ++ rest).
Proof.
  revert pre; induction rest as [|key rest IH]; intros pre; cbn [sort_loop]; [by rewrite app_nil_r|].
  rewrite IH, !filter_app, !filter_rev, sort_insert_stable, !filter_cons.
  destruct (decide (f key = n)); [|done]. simpl. by rewrite <-app_assoc.
Qed.

Lemma sort_loop_sorted pre rest :
  StronglySorted (fun i j => (f i <= f j)%nat) pre ->
  StronglySorted (fun i j => (f j <= f i)%nat) (sort_loop jar pre rest).
Proof.
  revert pre; induction rest as [|key rest IH]; intros pre Hs; cbn [sort_loop].
  - by apply StronglySorted_rev'.
  - by apply IH, sort_insert_sorted.
Qed.

Lemma sort_idx_spec idx :
  sort_idx jar idx ≡ₚ idx /\
  StronglySorted (fun i j => (f j <= f i)%nat) (sort_idx jar idx) /\
  forall n, filter (fun i => f i = n) (sort_idx jar idx) = filter (fun i => f i = n) idx.
Proof.
  destruct idx as [|i rest]; [by repeat constructor|]. cbn [sort_idx]. split; [|split].
  - apply sort_loop_perm.
  - apply sort_loop_sorted. repeat constructor.
  - intros n. apply sort_loop_stable.
Qed.

End sorting.

(** The cookies at a list of slots. *)
Definition cookies_at (l : list Cookie) (idx : list nat) : list Cookie := omap (fun i => l !! i) idx.

Lemma select_loop_spec req jar l rounds i :
  jar_rep jar l -> (rounds + i = length l)%nat ->
  Forall (fun j => (j < length l)%nat) (select_loop req jar rounds i) /\
  cookies_at l (select_loop req jar rounds i) = filter (fun c => cookie_sent req c = true) (drop i l).
Proof.
  intros Hr. revert i; induction rounds as [|rounds IH]; intros i Hi; cbn [select_loop].
  - rewrite drop_ge by lia. done.
  - rewrite (ga_get_rep _ _ _ Hr).
    destruct (l !! i) as [c|] eqn:Ei; [|apply lookup_ge_None in Ei; lia].
    destruct (IH (S i)) as [IH1 IH2]; [lia|]. rewrite (drop_S _ _ _ Ei), filter_cons.
    destruct (cookie_sent req c); simpl; [|done].
    split; [constructor; [by eapply lookup_lt_Some|done]|].
    unfold cookies_at. simpl. rewrite Ei. f_equal. exact IH2.
Qed.

Lemma cookies_at_cons l i idx c : l !! i = Some c -> cookies_at l (i :: idx) = c :: cookies_at l idx.
Proof. intros E. unfold cookies_at. simpl. by rewrite E. Qed.

Definition cookie_pair (c : Cookie) : bytes := c_name c ++ ch_eq :: c_value c.

Lemma emit_loop_spec jar l k idx buf :
  jar_rep jar l -> Forall (fun j => (j < length l)%nat) idx ->
  u8_v (emit_loop jar k idx buf) =
  u8_v buf ++ (if (k =? 0)%nat then intercalate (lit "; ") (cookie_pair <$> cookies_at l idx)
               else concat ((fun c => lit "; " ++ cookie_pair c) <$> cookies_at l idx)).
Proof.
  intros Hr Hidx. revert k buf; induction Hidx as [|i idx Hi _ IH]; intros k buf; cbn [emit_loop].
  - destruct k; simpl; by rewrite app_nil_r.
  - rewrite (ga_get_rep _ _ _ Hr).
    destruct (lookup_lt_is_Some_2 l i Hi) as [c Hc]. rewrite Hc, IH, (cookies_at_cons _ _ _ _ Hc).
    change (S k =? 0)%nat with false. cbv iota.
    destruct (Nat.eqb_spec k 0); autorewrite with u8buf; rewrite !fmap_cons.
    + rewrite intercalate_cons, map_map. unfold cookie_pair at 2.
      by rewrite <-!app_assoc.
    + cbn [concat]. unfold cookie_pair at 2. by rewrite <-!app_assoc.
Qed.

Definition plen (c : Cookie) : nat := length (c_path c).

Lemma path_size_rep jar l i c : jar_rep jar l -> l !! i = Some c -> path_size jar i = plen c.
Proof. intros Hr Hc. unfold path_size. by rewrite (ga_get_rep _ _ _ Hr), Hc. Qed.

Lemma cookies_at_elem l idx c : c ∈ cookies_at l idx <-> exists i, i ∈ idx /\ l !! i = Some c.
Proof. unfold cookies_at. by rewrite list_elem_of_omap. Qed.

Lemma cookies_at_sorted jar l idx :
  jar_rep jar l -> Forall (fun j => (j < length l)%nat) idx ->
  StronglySorted (fun i j => (path_size jar j <= path_size jar i)%nat) idx ->
  StronglySorted (fun a b => (plen b <= plen a)%nat) (cookies_at l idx).
Proof.
  intros Hr Hidx Hs. induction Hs as [|i idx Hs IH Hi]; [constructor|].
  apply Forall_cons_iff in Hidx as [Hl Hidx]. destruct (lookup_lt_is_Some_2 l i Hl) as [c Hc].
  rewrite (cookies_at_cons _ _ _ _ Hc). constructor; [by apply IH|].
  apply Forall_forall. intros d (j & Hj & Hd)%cookies_at_elem. rewrite Forall_forall in Hi.
  apply Hi in Hj. by rewrite (path_size_rep _ _ _ _ Hr Hc), (path_size_rep _ _ _ _ Hr Hd) in Hj.
Qed.

Lemma cookies_at_filter jar l idx n :
  jar_rep jar l -> Forall (fun j => (j < length l)%nat) idx ->
  filter (fun c => plen c = n) (cookies_at l idx) =
  cookies_at l (filter (fun i => path_size jar i = n) idx).
Proof.
  intros Hr Hidx. induction Hidx as [|i idx Hl _ IH]; [done|].
  destruct (lookup_lt_is_Some_2 l i Hl) as [c Hc].
  rewrite (cookies_at_cons _ _ _ _ Hc), !filter_cons, IH, (path_size_rep _ _ _ _ Hr Hc).
  destruct (decide (plen c = n)); [|done]. by rewrite (cookies_at_cons _ _ _ _ Hc).
Qed.

(** When a cookie is sent, in the words of RFC 6265 section 5.4. *)
Definition rfc_sent (req : ParsedUrl) (c : Cookie) : Prop :=
  (if c_host_only c then lower (host req) = lower (c_domain c)
   else lower (host req) = lower (c_domain c) \/
        exists pre, lower (host req) = pre ++ ch_dot :: lower (c_domain c)) /\
  (request_path (path req) = c_path c \/
   c_path c <> [] /\ exists ch t, request_path (path req) = c_path c ++ ch :: t /\
     (ch = ch_slash \/ last (c_path c) = Some ch_slash)) /\
  (c_secure c = true -> https req = true).

Lemma cookie_sent_rfc req c : cookie_sent req c = true <-> rfc_sent req c.
Proof.
  unfold cookie_sent, rfc_sent. rewrite <-cookie_path_match_iff.
  destruct (c_host_only c); [rewrite <-str8_match_ci_eq|rewrite <-cookie_domain_match_iff];
    [destruct (str8_match_ci _ _)|destruct (cookie_domain_match _ _)];
    destruct (cookie_path_match _ _), (c_secure c), (https req); simpl; intuition discriminate.
Qed.

(** Cookies to send, longest path first and otherwise in jar order. *)
Definition longest_first (sel sorted : list Cookie) : Prop :=
  sorted ≡ₚ sel /\ StronglySorted (fun a b => (plen b <= plen a)%nat) sorted /\
  forall n, filter (fun c => plen c = n) sorted = filter (fun c => plen c = n) sel.

Lemma header_selected req jar l :
  jar_rep jar l ->
  let idx := select_loop req jar (length l) 0 in
  let sel := filter (fun c => cookie_sent req c = true) l in
  Forall (fun j => (j < length l)%nat) (sort_idx jar idx) /\
  length idx = length sel /\
  longest_first sel (cookies_at l (sort_idx jar idx)).
Proof.
  intros Hr idx sel. destruct (select_loop_spec req jar l (length l) 0 Hr) as [Hok Hsel]; [lia|].
  rewrite drop_0 in Hsel. fold idx in Hok, Hsel. fold sel in Hsel.
  destruct (sort_idx_spec jar idx) as (Hp & Hs & Hst).
  assert (Hok' : Forall (fun j => (j < length l)%nat) (sort_idx jar idx)) by by rewrite Hp.
  split; [done|]. split.
  - rewrite <-Hsel. clear -Hok. induction Hok as [|i idx Hi _ IH]; [done|].
    destruct (lookup_lt_is_Some_2 l i Hi) as [c Hc]. rewrite (cookies_at_cons _ _ _ _ Hc). simpl. by rewrite IH.
  - rewrite <-Hsel. split; [unfold cookies_at; by rewrite Hp|].
    split; [by apply (cookies_at_sorted jar)|]. intros n.
    by rewrite !(cookies_at_filter jar), Hst.
Qed.

Lemma cookie_jar_cookie_header_rep jar l req now :
  jar_rep jar l ->
  let live := filter (rejects (cookie_expired now)) l in
  let r := cookie_jar_cookie_header jar req now in
  jar_rep (snd r) live /\
  exists sorted, longest_first (filter (fun c => cookie_sent req c = true) live) sorted /\
    fst r = intercalate (lit "; ") (cookie_pair <$> sorted).
Proof.
  intros Hr live r. unfold r, cookie_jar_cookie_header.
  destruct (cookie_jar_evict_expired_rep jar l now Hr) as [Hr' _]. fold live in Hr'.
  set (jar' := cookie_jar_evict_expired jar now) in *. rewrite (jar_rep_count _ _ Hr').
  destruct (header_selected req jar' live Hr') as (Hok & Hlen & Hsort).
  destruct (Nat.eqb_spec (length live) 0) as [E|E].
  { split; [done|]. destruct live; [|done]. exists []. by repeat constructor. }
  cbv zeta. destruct (Nat.eqb_spec (length (select_loop req jar' (length live) 0)) 0) as [E1|E1].
  { split; [done|]. rewrite Hlen in E1. destruct (filter _ live); [|done].
    exists []. by repeat constructor. }
  split; [done|]. eexists. split; [exact Hsort|]. cbn [fst]. unfold u8buf_str8.
  by rewrite (emit_loop_spec _ _ _ _ _ Hr' Hok).
Qed.

(** ** Storing a plain pair *)

Definition trimmed (s : bytes) : Prop :=
  match s with [] => True | c :: _ => ascii_is_space c = false end /\
  match last s with None => True | Some c => ascii_is_space c = false end.

Lemma trim_right_len_snoc s c : ascii_is_space c = false -> trim_right_len (s ++ [c]) = S (length s).
Proof.
  intros Hc. induction s as [|x s IH]; simpl; [by rewrite Hc|]. by rewrite IH.
Qed.

Lemma trimmed_id s : trimmed s -> str8_trim s = s.
Proof.
  intros [Hf Hl]. unfold str8_trim, str8_trim_right.
  destruct s as [|c s _] using rev_ind; [done|]. rewrite last_snoc in Hl.
  rewrite trim_right_len_snoc, take_ge by (done || rewrite length_app; simpl; lia).
  destruct s; simpl in *; by rewrite Hf.
Qed.

(** A request path is within its own default path. *)
Lemma default_path_matches p :
  match p with [] => True | c :: _ => c = ch_slash \/ c = ch_qmark end ->
  cookie_path_match p (cookie_default_path p) = true.
Proof.
  intros Hp. apply cookie_path_match_iff. unfold cookie_default_path, request_path. cbv zeta.
  set (r := cookie_strip_query p). destruct r as [|c t] eqn:Er; [by left|].
  assert (Hc : c = ch_slash).
  { subst r. unfold cookie_strip_query in Er. destruct p as [|x p]; [discriminate Er|].
    destruct Hp as [->| ->]; [|discriminate Er].
    destruct (str8_index_of _ _) as [q|] eqn:Eq; [|by injection Er].
    rewrite str8_prefix_take in Er. destruct q; [discriminate Er|]. by injection Er. }
  subst c. clear Er. cbn [Z.eqb Pos.eqb negb]. set (r' := ch_slash :: t).
  pose proof (str8_rindex_of_spec r' ch_slash) as Hs. destruct (str8_rindex_of r' ch_slash) as [k|].
  2:{ destruct Hs. unfold r'. set_solver. }
  destruct (Nat.eqb_spec k 0) as [->|Hk]; cbn [length Nat.eqb].
  - destruct t as [|x t]; [by left|]. right. split; [done|]. exists x, t. split; [done|by right].
  - right. rewrite str8_prefix_take. destruct Hs as (Hlt & E & _). split.
    + unfold r'. by destruct k.
    + exists ch_slash, (drop (S k) r'). split; [exact E|by left].
Qed.

Section plain.
Context (exact_tbl wildcard_tbl exception_tbl : list bytes).

Lemma parse_plain_pair req name value now :
  trimmed name -> trimmed value -> name <> [] -> ch_eq ∉ name -> ch_semi ∉ name -> ch_semi ∉ value ->
  parse_set_cookie exact_tbl wildcard_tbl exception_tbl req (name ++ ch_eq :: value) now =
  SC_put (mkCookie name value (host req) (cookie_default_path (path req)) 0 true false false 0).
Proof.
  intros Hn Hv Hne Heq Hs1 Hs2. unfold parse_set_cookie.
  rewrite chop_by_delim_none by (rewrite elem_of_app, elem_of_cons; naive_solver).
  assert (Hnv : trimmed (name ++ ch_eq :: value)).
  { destruct Hn as [Hn1 Hn2], Hv as [Hv1 Hv2]. split.
    - by destruct name.
    - rewrite last_app_cons. destruct value as [|x value]; [done|]. by rewrite last_cons_cons. }
  rewrite (trimmed_id _ Hnv), str8_index_of_app by done.
  rewrite str8_prefix_take, str8_skip_drop, take_app_length, drop_app_add. cbn [drop].
  rewrite !trimmed_id by done.
  destruct (Nat.eqb_spec (length name) 0); [destruct name; done|]. done.
Qed.

End plain.

(** ** The operations keep the invariant *)

Section operations.
Context (exact_tbl wildcard_tbl exception_tbl : list bytes).
Local Abbreviation store := (cookie_jar_store exact_tbl wildcard_tbl exception_tbl).
Local Abbreviation inv := (jar_inv exact_tbl wildcard_tbl exception_tbl).

Lemma jar_inv_evict jar now : inv jar -> inv (cookie_jar_evict_expired jar now).
Proof.
  intros Hinv. pose proof Hinv as (Hr & _).
  destruct (cookie_jar_evict_expired_rep jar _ now Hr) as [Hr' Hm].
  eapply jar_inv_sublist; [exact Hinv|exact Hr'|exact Hm|]. apply sublist_filter.
Qed.

Lemma jar_inv_cookie_header jar req now : inv jar -> inv (snd (cookie_jar_cookie_header jar req now)).
Proof.
  intros Hinv%(jar_inv_evict _ now). unfold cookie_jar_cookie_header. repeat case_match; done.
Qed.

Lemma jar_inv_store jar req sc now : inv jar -> inv (store jar req sc now).
Proof.
  intros Hinv. pose proof Hinv as (Hr & _). unfold cookie_jar_store.
  destruct (parse_set_cookie _ _ _ req sc now) as [|n d p|c] eqn:Ep; [done| |].
  - destruct (remove_found_rep jar _ n d p Hr) as [Hr' Hm].
    eapply jar_inv_sublist; [exact Hinv|exact Hr'|exact Hm|]. apply delete_key_sublist.
  - apply jar_inv_put; [done|]. by apply parse_set_cookie_scope in Ep as [? _].
Qed.

Lemma jar_inv_remove jar name : inv jar -> inv (snd (cookie_jar_remove jar name)).
Proof.
  intros Hinv. pose proof Hinv as (Hr & _).
  pose proof (cookie_jar_remove_rep jar _ name Hr) as [Hr' _].
  eapply jar_inv_sublist; [exact Hinv|exact Hr'| |apply sublist_filter].
  unfold cookie_jar_remove. rewrite (jar_rep_count _ _ Hr).
  destruct (remove_loop_spec (fun c => str8_match (c_name c) name) (jar_list jar) [] 0 jar Hr)
    as (jar' & E & _ & Hm). change (length []) with 0%nat in E. by rewrite E.
Qed.

(** A cookie that a store adds is in scope of the request. *)
Lemma store_elem jar req sc now c :
  inv jar -> c ∈ jar_list (store jar req sc now) ->
  c ∈ jar_list jar \/
  (scope_safe exact_tbl wildcard_tbl exception_tbl c /\ covers (host req) c).
Proof.
  intros (Hr & _). unfold cookie_jar_store.
  destruct (parse_set_cookie _ _ _ req sc now) as [|n d p|c'] eqn:Ep; [by left| |].
  - destruct (remove_found_rep jar _ n d p Hr) as [Hr' _]. rewrite (jar_rep_list _ _ Hr').
    intros Hc. left. by eapply (sublist_subseteq _ _ (delete_key_sublist _ _)).
  - destruct (cookie_jar_put_rep jar _ c' Hr) as [Hr' _]. rewrite (jar_rep_list _ _ Hr').
    intros [->|Hc]%put_list_elem; [right|by left]. by eapply parse_set_cookie_scope.
Qed.

Lemma cookie_header_elem jar req now c :
  inv jar -> c ∈ jar_list (snd (cookie_jar_cookie_header jar req now)) -> c ∈ jar_list jar.
Proof.
  intros (Hr & _). destruct (cookie_jar_cookie_header_rep jar _ req now Hr) as [Hr' _].
  rewrite (jar_rep_list _ _ Hr'), list_elem_of_filter. by intros [_ ?].
Qed.

End operations.

(** ** Properties *)

Section properties.
Context (exact_tbl wildcard_tbl exception_tbl : list bytes).
Local Abbreviation store := (cookie_jar_store exact_tbl wildcard_tbl exception_tbl).
Local Abbreviation inv := (jar_inv exact_tbl wildcard_tbl exception_tbl).

(** Every jar operation a response or a request triggers keeps the jar
    invariant: at most [max_cookies] cookies, one per name, domain and path,
    and no domain cookie whose domain is a public suffix or holds non-ASCII
    bytes. *)
Theorem cookie_jar_invariant (jar : CookieJar) (req : ParsedUrl) (sc name : bytes) (now : Z) :
  inv jar ->
  inv (store jar req sc now) /\ inv (cookie_jar_evict_expired jar now) /\
  inv (snd (cookie_jar_remove jar name)) /\ inv (snd (cookie_jar_cookie_header jar req now)).
Proof.
  intros Hinv. auto using jar_inv_store, jar_inv_evict, jar_inv_remove, jar_inv_cookie_header.
Qed.

(** C18. A response can only set cookies for its own host: every cookie of the
    jar after a store was there before, or covers the host of the request that
    stored it by RFC 6265: it is for that very host alone, or else the host is a name
    (no IP address), and the cookie's domain is the host or the host with leading
    labels removed, in ASCII, and no public suffix. (A Domain attribute that is an IP
    address or a public suffix is accepted for the host itself only: the cookie
    is then for that host alone.) *)
Theorem cookie_store_scope (jar : CookieJar) (req : ParsedUrl) (sc : bytes) (now : Z) (c : Cookie) :
  inv jar -> c ∈ jar_list (store jar req sc now) ->
  c ∈ jar_list jar \/
  (if c_host_only c then c_domain c = host req
   else ~ ip_address (host req) /\
        (lower (host req) = lower (c_domain c) \/
         exists labels, lower (host req) = labels ++ lit "." ++ lower (c_domain c)) /\
        Forall (fun ch => ch < 128) (c_domain c) /\
        psl_is_public_suffix exact_tbl wildcard_tbl exception_tbl (c_domain c) = false).
Proof.
  intros Hinv [?|[Hs Hc]]%store_elem; [by left| |done]. right. unfold scope_safe, covers in *.
  destruct (c_host_only c); [done|]. by destruct Hc, (Hs eq_refl).
Qed.

(** C30. The jar is a map from (name, domain, path) to cookies. Storing what a
    Set-Cookie value parses to inserts it, replacing the cookie of that key
    (a new key is refused when the jar is full, expired cookies counted);
    a value that is expired on arrival deletes its key; other keys keep their
    cookies. *)
Theorem cookie_store_refines_map (jar : CookieJar) (req : ParsedUrl) (sc : bytes) (now : Z) k :
  inv jar ->
  jar_lookup (jar_list (store jar req sc now)) k =
  match parse_set_cookie exact_tbl wildcard_tbl exception_tbl req sc now with
  | SC_ignore => jar_lookup (jar_list jar) k
  | SC_delete n d p => if decide (k = (n, lower d, p)) then None else jar_lookup (jar_list jar) k
  | SC_put c =>
      if decide (k = cookie_key c) then
        if bool_decide (is_Some (jar_lookup (jar_list jar) k)) ||
           (Z.of_nat (length (jar_list jar)) <? j_max_cookies jar)
        then Some c else None
      else jar_lookup (jar_list jar) k
  end.
Proof.
  intros (Hr & _ & Hnd & _). unfold cookie_jar_store.
  destruct (parse_set_cookie _ _ _ req sc now) as [|n d p|c]; [done| |].
  - destruct (remove_found_rep jar _ n d p Hr) as [Hr' _]. rewrite (jar_rep_list _ _ Hr').
    by apply delete_key_lookup.
  - destruct (cookie_jar_put_rep jar _ c Hr) as [Hr' _]. rewrite (jar_rep_list _ _ Hr').
    apply put_list_lookup.
Qed.

(** C21. The Cookie header of a request names exactly the cookies of the jar
    that are not expired and that RFC 6265 section 5.4 selects for the request
    (domain, path and secure), each once, longest path first and in jar order
    among equal lengths, joined as name=value pairs with "; "; the expired
    ones are gone from the jar. *)
Theorem cookie_header_spec (jar : CookieJar) (req : ParsedUrl) (now : Z) :
  inv jar ->
  let live := filter (rejects (cookie_expired now)) (jar_list jar) in
  let r := cookie_jar_cookie_header jar req now in
  jar_list (snd r) = live /\
  exists sel sorted, sel `sublist_of` live /\
    (forall c, c ∈ sel <-> c ∈ live /\ rfc_sent req c) /\
    longest_first sel sorted /\ fst r = intercalate (lit "; ") (cookie_pair <$> sorted).
Proof.
  intros (Hr & _) live r.
  destruct (cookie_jar_cookie_header_rep jar _ req now Hr) as (Hr' & sorted & Hs & E).
  split; [by apply jar_rep_list|].
  exists (filter (fun c => cookie_sent req c = true) live), sorted.
  split; [apply sublist_filter|]. split; [|done].
  intros c. rewrite list_elem_of_filter, cookie_sent_rfc. tauto.
Qed.

(** Store, then send: a plain name=value from a request is sent back, as
    it was, on the next request to the same URL, until the jar changes. *)
Theorem cookie_store_send (req : ParsedUrl) (name value : bytes) (now now' : Z) :
  trimmed name -> trimmed value -> name <> [] -> ch_eq ∉ name -> ch_semi ∉ name -> ch_semi ∉ value ->
  match path req with [] => True | c :: _ => c = ch_slash \/ c = ch_qmark end ->
  fst (cookie_jar_cookie_header (store cookie_jar_init req (name ++ ch_eq :: value) now) req now') =
  name ++ ch_eq :: value.
Proof.
  intros Hn Hv Hne Heq Hs1 Hs2 Hp. unfold cookie_jar_store. rewrite parse_plain_pair by done.
  set (c := mkCookie _ _ _ _ _ _ _ _ _).
  assert (Hr0 : jar_rep cookie_jar_init []) by apply ga_empty_rep.
  destruct (cookie_jar_put_rep cookie_jar_init [] c Hr0) as [Hr _].
  change (put_list _ [] c) with [c] in Hr.
  destruct (cookie_jar_cookie_header_rep _ _ req now' Hr) as (_ & sorted & (Hs & _) & ->).
  rewrite filter_cons_True in Hs by done. rewrite filter_cons_True in Hs.
  - apply Permutation_singleton_r in Hs as ->. done.
  - apply cookie_sent_rfc. split; [done|]. split; [|done].
    apply cookie_path_match_iff. by apply default_path_matches.
Qed.

End properties.

(** What a positive Max-Age of [secs] seconds does: the cookie expires at
    now + secs when that fits in 64 bits, and is live until then; when it does
    not fit the sum wraps around, and a cookie meant to outlive everything is
    already expired when it is stored (or, for a wrapped sum of 0, becomes a
    session cookie). *)
Theorem cookie_max_age_wraps (now : Z) (val : bytes) (st : AttrState) (c : Cookie) :
  let secs := Z.min U64_MAX (leading_value 0 val) in
  0 < now <= U64_MAX -> 0 < secs -> match val with ch :: _ => ch <> ch_minus | [] => True end ->
  let st' := attr_max_age now val st in
  a_expired_now st' = false /\ a_has_expiry st' = true /\
  (now + secs <= U64_MAX -> a_expires st' = now + secs) /\
  (U64_MAX < now + secs -> a_expires st' = now + secs - 2 ^ 64 /\ a_expires st' < now) /\
  (c_expires_epoch c = a_expires st' ->
   cookie_expired now c = (U64_MAX <? now + secs) && negb (now + secs =? 2 ^ 64)).
Proof.
  intros secs Hnow Hsecs Hneg st'.
  assert (Hs : str8_to_u64 val = secs).
  { unfold str8_to_u64. apply to_u64_loop_spec. unfold U64_MAX. lia. }
  assert (Hst : a_expired_now st' = false /\ a_has_expiry st' = true /\ a_expires st' = wrap64 (now + secs)).
  { unfold st', attr_max_age. cbv zeta.
    assert (Hn : match val with ch :: _ => ch =? ch_minus | [] => false end = false).
    { destruct val; [done|]. by apply Z.eqb_neq. }
    rewrite Hn, Hs, (proj2 (Z.eqb_neq secs 0)) by lia. done. }
  destruct Hst as (-> & -> & ->). unfold wrap64, cookie_expired, U64_MAX in *.
  assert (Hsec : secs <= 2 ^ 64 - 1) by (unfold secs; lia). clearbody secs.
  assert (Hw : (now + secs) mod 2 ^ 64 = if 2 ^ 64 - 1 <? now + secs then now + secs - 2 ^ 64 else now + secs)
    by (destruct (Z.ltb_spec (2 ^ 64 - 1) (now + secs)); divmod).
  rewrite Hw. split; [done|]. split; [done|].
  destruct (Z.ltb_spec (2 ^ 64 - 1) (now + secs)).
  - split; [lia|]. split; [lia|]. intros ->. rewrite (proj2 (Z.leb_le _ _)), andb_true_r by lia.
    cbn [andb]. f_equal. lia.
  - split; [lia|]. split; [lia|]. intros ->. by rewrite (proj2 (Z.leb_gt _ _)), andb_false_r by lia.
Qed.

(** The tables of the witnesses below. *)
Definition demo_exact : list bytes := [lit "co.uk"; lit "com"].

Lemma jar_inv_init ex wi xc : jar_inv ex wi xc cookie_jar_init.
Proof. split; [apply ga_empty_rep|]. by repeat constructor. Qed.
Definition demo_req : ParsedUrl := url_parse (lit "https://a.example.com/dir/page?q=1").
Definition demo_jar : CookieJar :=
  cookie_jar_store demo_exact [] [] cookie_jar_init demo_req (lit "id=1; Domain=.Example.com; Path=/dir; Secure") 1000.
Definition demo_cookie : Cookie :=
  mkCookie (lit "id") (lit "1") (lit "Example.com") (lit "/dir") 0 false true false 0.

Lemma cookie_jar_invariant_witness :
  jar_list demo_jar = [demo_cookie] /\
  jar_inv demo_exact [] [] (cookie_jar_store demo_exact [] [] demo_jar demo_req (lit "k=v; Domain=co.uk") 1000) /\
  jar_list (cookie_jar_store demo_exact [] [] demo_jar demo_req (lit "k=v; Domain=com") 1000) = [demo_cookie].
Proof.
  split; [vm_compute; reflexivity|]. split; [|vm_compute; reflexivity].
  apply (cookie_jar_invariant demo_exact [] [] demo_jar demo_req (lit "k=v; Domain=co.uk") [] 1000).
  apply (cookie_jar_invariant demo_exact [] [] cookie_jar_init demo_req
    (lit "id=1; Domain=.Example.com; Path=/dir; Secure") [] 1000).
  apply jar_inv_init.
Defined.

Lemma cookie_store_scope_witness :
  demo_cookie ∈ jar_list demo_jar /\ ~ ip_address (host demo_req) /\
  psl_is_public_suffix demo_exact [] [] (c_domain demo_cookie) = false.
Proof.
  assert (Hin : demo_cookie ∈ jar_list demo_jar).
  { replace (jar_list demo_jar) with [demo_cookie] by (vm_compute; reflexivity). set_solver. }
  split; [exact Hin|].
  destruct (cookie_store_scope demo_exact [] [] cookie_jar_init demo_req
    (lit "id=1; Domain=.Example.com; Path=/dir; Secure") 1000 demo_cookie
    (jar_inv_init _ _ _) Hin) as [H|(H1 & _ & _ & H2)]; [|split; [exact H1|exact H2]].
  by apply not_elem_of_nil in H.
Defined.

Lemma cookie_store_refines_map_witness :
  jar_lookup (jar_list (cookie_jar_store demo_exact [] [] cookie_jar_init demo_req (lit "a=b; max-age=0") 5))
    (lit "a", lit "a.example.com", lit "/dir") = None /\
  parse_set_cookie demo_exact [] [] demo_req (lit "a=b; max-age=0") 5 =
    SC_delete (lit "a") (lit "a.example.com") (lit "/dir").
Proof.
  split; [|vm_compute; reflexivity].
  refine (eq_trans (cookie_store_refines_map demo_exact [] [] cookie_jar_init demo_req
    (lit "a=b; max-age=0") 5 _ (jar_inv_init _ _ _)) _).
  vm_compute. reflexivity.
Defined.

Lemma cookie_header_spec_witness :
  jar_inv demo_exact [] [] demo_jar /\
  jar_list (snd (cookie_jar_cookie_header demo_jar demo_req 2000)) = [demo_cookie] /\
  fst (cookie_jar_cookie_header demo_jar demo_req 2000) = lit "id=1".
Proof.
  assert (Hinv : jar_inv demo_exact [] [] demo_jar).
  { assert (E : jar_list demo_jar = [demo_cookie]) by (vm_compute; reflexivity).
    unfold jar_inv. rewrite E. split.
    - exists (replicate 15 None). split; [vm_compute; reflexivity|split; vm_compute; reflexivity].
    - split; [vm_compute; discriminate|]. split; [apply NoDup_singleton|].
      repeat constructor; vm_compute; reflexivity. }
  split; [exact Hinv|]. split; [|vm_compute; reflexivity].
  refine (eq_trans (proj1 (cookie_header_spec demo_exact [] [] demo_jar demo_req 2000 Hinv)) _).
  vm_compute. reflexivity.
Defined.

Lemma cookie_store_send_witness :
  fst (cookie_jar_cookie_header
         (cookie_jar_store demo_exact [] [] cookie_jar_init demo_req (lit "sid" ++ ch_eq :: lit "x y") 7)
         demo_req 8) = lit "sid=x y".
Proof.
  apply (cookie_store_send demo_exact [] [] demo_req (lit "sid") (lit "x y") 7 8);
    try (apply (bool_decide_unpack _); vm_compute; reflexivity); split; reflexivity.
Defined.

Lemma cookie_max_age_wraps_witness :
  cookie_expired 1700000000
    (mkCookie (lit "a") (lit "b") (lit "h") (lit "/")
       (a_expires (attr_max_age 1700000000 (lit "99999999999999999999")
          (mkAttr (lit "h") true false false false false false 0 0 (lit "/"))))
       true false false 0) = true /\
  fst (cookie_jar_cookie_header
         (cookie_jar_store demo_exact [] [] cookie_jar_init demo_req
            (lit "a=b; Max-Age=99999999999999999999") 1700000000) demo_req 1700000000) = [].
Proof.
  split; [|vm_compute; reflexivity].
  set (st := mkAttr _ _ _ _ _ _ _ _ _ _). set (c := mkCookie _ _ _ _ _ _ _ _ _).
  assert (Hc : cookie_expired 1700000000 c =
    (U64_MAX <? 1700000000 + U64_MAX) && negb (1700000000 + U64_MAX =? 2 ^ 64)).
  { apply (cookie_max_age_wraps 1700000000 (lit "99999999999999999999") st c); done. }
  rewrite Hc. reflexivity.
Defined.
