(* ===== verification/SecFetch.v ===== *)
(** * Fetch metadata: core/sec_fetch.c

    The Sec-Fetch-* headers of a request, and how Sec-Fetch-Site changes over
    a redirect. *)
From S2P Require Import Prelude String8 Url GrowArr Header.

Inductive FetchMode :=
| FetchMode_Default
| FetchMode_Navigate
| FetchMode_Cors
| FetchMode_NoCors
| FetchMode_SameOrigin.

#[export] Instance FetchMode_eq_dec : EqDecision FetchMode.
Proof. solve_decision. Defined.

(** The scan from the end stops at the second dot. *)
Definition sec_reg_domain (host : bytes) : bytes :=
  match str8_rindex_of host ch_dot with
  | None => host
  | Some dot1 =>
      match str8_rindex_of (take dot1 host) ch_dot with
      | None => host
      | Some dot2 => str8_skip host (dot2 + 1)
      end
  end.

Definition sec_fetch_site (url referer : bytes) : bytes :=
  if (length referer =? 0)%nat then lit "none"
  else
    let u := url_parse url in
    let r := url_parse referer in
    if negb (ok u) || negb (ok r) then lit "none"
    else if Bool.eqb (https u) (https r) && (port u =? port r) && str8_match_ci (host u) (host r)
    then lit "same-origin"
    else if str8_match_ci (sec_reg_domain (host u)) (sec_reg_domain (host r)) then lit "same-site"
    else lit "cross-site".

(** The values of Sec-Fetch-Mode, -Dest and -User. *)
Definition fetch_mode_values (mode : FetchMode) : bytes * bytes * bytes :=
  match mode with
  | FetchMode_Cors => (lit "cors", lit "empty", [])
  | FetchMode_NoCors => (lit "no-cors", lit "empty", [])
  | FetchMode_SameOrigin => (lit "same-origin", lit "empty", [])
  | FetchMode_Navigate | FetchMode_Default => (lit "navigate", lit "document", lit "?1")
  end.

Definition push_unless_has (out : HeaderList) (name value : bytes) : HeaderList :=
  if negb (header_list_has_ci out name) then header_list_push out name value 0 else out.

Definition sec_fetch_append (out : HeaderList) (mode : FetchMode) (url referer : bytes) : HeaderList :=
  let out := header_list_push out (lit "sec-fetch-site") (sec_fetch_site url referer) 0 in
  let '(m, dest, usr) := fetch_mode_values mode in
  let out := header_list_push out (lit "sec-fetch-mode") m 0 in
  let out := header_list_push out (lit "sec-fetch-dest") dest 0 in
  let out := header_list_push out (lit "sec-fetch-user") usr 0 in
  if bool_decide (mode = FetchMode_Navigate) then out
  else
    let out := push_unless_has out (lit "accept") (lit "*/*") in
    let out := push_unless_has out (lit "priority") (lit "u=1, i") in
    push_unless_has out (lit "upgrade-insecure-requests") [].

Definition sec_site_rank (s : bytes) : Z :=
  if str8_match s (lit "cross-site") then 3
  else if str8_match s (lit "same-site") then 2
  else if str8_match s (lit "same-origin") then 1
  else 0.

(** The loop keeps the value of the last header of each name. *)
Fixpoint site_and_referer (headers : list Header) (site referer : bytes) : bytes * bytes :=
  match headers with
  | [] => (site, referer)
  | h :: headers' =>
      if str8_match_ci (h_name h) (lit "sec-fetch-site") then site_and_referer headers' (h_value h) referer
      else if str8_match_ci (h_name h) (lit "referer") then site_and_referer headers' site (h_value h)
      else site_and_referer headers' site referer
  end.

(** The empty string is [str8_zero()]: nothing to recompute. *)
Definition sec_fetch_site_for_redirect (headers : list Header) (next_url : bytes) : bytes :=
  let '(site, referer) := site_and_referer headers [] [] in
  if (length site =? 0)%nat || (length referer =? 0)%nat then []
  else if str8_match site (lit "none") || str8_match site (lit "cross-site") then site
  else
    let rel := sec_fetch_site next_url referer in
    if sec_site_rank site <? sec_site_rank rel then rel else site.

Fixpoint merge_loop (out : HeaderList) (headers : list Header) (referer : bytes) : HeaderList * bytes :=
  match headers with
  | [] => (out, referer)
  | h :: headers' =>
      merge_loop (header_list_push out (h_name h) (h_value h) (h_flags h)) headers'
        (if str8_match_ci (h_name h) (lit "referer") then h_value h else referer)
  end.
Definition sec_fetch_merge (out : HeaderList) (mode : FetchMode) (url : bytes) (headers : list Header) : HeaderList :=
  let '(out, referer) := merge_loop out headers [] in sec_fetch_append out mode url referer.

(** ** Lemmas *)

Lemma merge_loop_rep headers hl l referer :
  ga_rep hl l -> ga_rep (fst (merge_loop hl headers referer)) (l ++ headers).
Proof.
  revert hl l referer; induction headers as [|h headers IH]; intros hl l referer Hr; cbn [merge_loop].
  - by rewrite app_nil_r.
  - rewrite cons_middle, app_assoc. apply IH.
    pose proof (header_list_push_rep hl l (h_name h) (h_value h) (h_flags h) Hr) as Hp. by destruct h.
Qed.

Lemma push_unless_has_rep hl l n v :
  ga_rep hl l -> exists l', ga_rep (push_unless_has hl n v) l' /\
    forall m, find_value m l' = match find_value m l with
      | Some w => Some w
      | None => find_value m [mkHeader n v 0]
      end.
Proof.
  intros Hr. unfold push_unless_has. rewrite (header_list_has_ci_rep _ _ _ Hr).
  destruct (bool_decide_reflect (is_Some (find_value n l))) as [[w Hw]|Hn]; simpl.
  - exists l. split; [done|]. intros m. destruct (find_value m l) eqn:Em; [done|].
    rewrite find_value_cons, decide_False; [done|]. intros E.
    rewrite (find_value_ci n m) in Hw by exact E. congruence.
  - exists (l ++ [mkHeader n v 0]). split; [by apply header_list_push_rep|]. intros m.
    by rewrite find_value_app.
Qed.

(** The last Referer of a header list. *)
Definition last_referer (headers : list Header) : bytes :=
  snd (merge_loop header_list_init headers []).

Lemma merge_loop_referer hl hl' headers r : snd (merge_loop hl headers r) = snd (merge_loop hl' headers r).
Proof. revert hl hl' r; induction headers as [|h headers IH]; intros hl hl' r; simpl; [done|]. apply IH. Qed.

(** The headers the merge adds behind the caller's. *)
Definition synth (mode : FetchMode) (site : bytes) : list Header :=
  let '(m, dest, usr) := fetch_mode_values mode in
  [mkHeader (lit "sec-fetch-site") site 0; mkHeader (lit "sec-fetch-mode") m 0;
   mkHeader (lit "sec-fetch-dest") dest 0; mkHeader (lit "sec-fetch-user") usr 0] ++
  (if bool_decide (mode = FetchMode_Navigate) then []
   else [mkHeader (lit "accept") (lit "*/*") 0; mkHeader (lit "priority") (lit "u=1, i") 0;
         mkHeader (lit "upgrade-insecure-requests") [] 0]).

Lemma sec_fetch_append_lookup hl l mode url referer n :
  ga_rep hl l ->
  header_list_value (sec_fetch_append hl mode url referer) n =
  find_value n (l ++ synth mode (sec_fetch_site url referer)).
Proof.
  intros Hr. unfold sec_fetch_append, synth. destruct (fetch_mode_values mode) as [[m dest] usr].
  set (site := sec_fetch_site url referer). set (four := [_; _; _; _]).
  set (hl4 := header_list_push _ (lit "sec-fetch-user") usr 0).
  assert (H4 : ga_rep hl4 (l ++ four)).
  { assert (E : forall a b c d : Header, l ++ [a; b; c; d] = (((l ++ [a]) ++ [b]) ++ [c]) ++ [d])
      by (intros; by rewrite <-!app_assoc).
    unfold hl4, four. rewrite E. repeat apply header_list_push_rep. exact Hr. }
  clearbody hl4. destruct (bool_decide (mode = FetchMode_Navigate)).
  { rewrite app_nil_r. by apply header_list_value_rep. }
  destruct (push_unless_has_rep hl4 _ (lit "accept") (lit "*/*") H4) as (l1 & H1 & E1).
  destruct (push_unless_has_rep _ _ (lit "priority") (lit "u=1, i") H1) as (l2 & H2 & E2).
  destruct (push_unless_has_rep _ _ (lit "upgrade-insecure-requests") [] H2) as (l3 & H3 & E3).
  rewrite (header_list_value_rep _ _ _ H3), E3, E2, E1, !app_assoc, (find_value_app n (l ++ four)).
  destruct (find_value n (l ++ four)); [done|].
  rewrite !find_value_cons. repeat (case_decide; [done|]). done.
Qed.

(** ** Properties *)

(** Over a redirect Sec-Fetch-Site only ever moves towards cross-site: the
    recomputed value is the running value or the relation of the initiator to
    the new URL, whichever is further, and "none" and "cross-site" stay. *)
Theorem sec_fetch_redirect_monotone (headers : list Header) (next_url site referer : bytes) :
  site_and_referer headers [] [] = (site, referer) -> site <> [] -> referer <> [] ->
  let site' := sec_fetch_site_for_redirect headers next_url in
  sec_site_rank site <= sec_site_rank site' /\
  (site = lit "none" \/ site = lit "cross-site" -> site' = site) /\
  (site <> lit "none" ->
   sec_site_rank site' = Z.max (sec_site_rank site) (sec_site_rank (sec_fetch_site next_url referer))).
Proof.
  intros E Hs Hr site'. unfold site', sec_fetch_site_for_redirect. rewrite E.
  rewrite (proj2 (Nat.eqb_neq (length site) 0)), (proj2 (Nat.eqb_neq (length referer) 0))
    by (intros ?%length_zero_iff_nil; done). cbn [orb].
  assert (Hmax : forall s, sec_site_rank s <= 3) by (intros s; unfold sec_site_rank; bsolve).
  destruct (str8_match site (lit "none")) eqn:En.
  { apply str8_match_eq in En as ->. split; [done|]. by split. }
  destruct (str8_match site (lit "cross-site")) eqn:Ec; cbn [orb].
  { apply str8_match_eq in Ec as ->. split; [done|]. split; [done|]. intros _.
    pose proof (Hmax (sec_fetch_site next_url referer)). change (sec_site_rank (lit "cross-site")) with 3. lia. }
  apply str8_match_false in En, Ec.
  destruct (Z.ltb_spec (sec_site_rank site) (sec_site_rank (sec_fetch_site next_url referer))).
  - split; [lia|]. split; [tauto|]. lia.
  - split; [lia|]. split; [tauto|]. lia.
Qed.

Lemma sec_fetch_redirect_monotone_witness :
  let hs := [mkHeader (lit "Sec-Fetch-Site") (lit "same-origin") 0; mkHeader (lit "referer") (lit "https://a.x.com/") 0] in
  sec_fetch_site_for_redirect hs (lit "https://b.x.com/") = lit "same-site" /\
  sec_site_rank (sec_fetch_site_for_redirect hs (lit "https://b.x.com/")) =
  Z.max (sec_site_rank (lit "same-origin")) (sec_site_rank (sec_fetch_site (lit "https://b.x.com/") (lit "https://a.x.com/"))).
Proof.
  intros hs. split; [vm_compute; reflexivity|].
  apply (sec_fetch_redirect_monotone hs (lit "https://b.x.com/") (lit "same-origin") (lit "https://a.x.com/"));
    [vm_compute; reflexivity|done..].
Defined.

(** The merged request headers: the caller's headers come first and win;
    behind them stand the coherent Sec-Fetch-* headers of the mode, and for a
    fetch the Accept and Priority of a fetch and an empty
    Upgrade-Insecure-Requests, which suppresses the profile's. *)
Theorem sec_fetch_merge_spec (mode : FetchMode) (url : bytes) (headers : list Header) (n : bytes) :
  header_list_value (sec_fetch_merge header_list_init mode url headers) n =
  find_value n (headers ++ synth mode (sec_fetch_site url (last_referer headers))).
Proof.
  unfold sec_fetch_merge, last_referer.
  pose proof (merge_loop_rep headers header_list_init [] [] ga_empty_rep) as Hr.
  destruct (merge_loop header_list_init headers []) as [hl referer]. by apply sec_fetch_append_lookup.
Qed.
