(* ===== verification/Redirect.v ===== *)
(** * Redirects: the redirect loop of core/client.c

    One hop of a redirect chain ([redirect_prepare_hop]) and the loop around it
    ([client_redirect_cb]). The dispatch of a request to the network is a
    parameter: it gets the state of the chain and answers with a response.
    Timing fields are not modelled. *)
From S2P Require Import Prelude String8 Url GrowArr Header SecFetch.

Inductive Method :=
| Method_GET | Method_POST | Method_PUT | Method_DELETE | Method_HEAD | Method_PATCH | Method_OPTIONS.

#[export] Instance Method_eq_dec : EqDecision Method.
Proof. solve_decision. Defined.

Definition method_str (m : Method) : bytes :=
  match m with
  | Method_GET => lit "GET"
  | Method_POST => lit "POST"
  | Method_PUT => lit "PUT"
  | Method_DELETE => lit "DELETE"
  | Method_HEAD => lit "HEAD"
  | Method_PATCH => lit "PATCH"
  | Method_OPTIONS => lit "OPTIONS"
  end.

(** The fields of a [Response] the redirect loop reads and the body. *)
Record Response := mkResponse {
  r_ok : bool;
  r_status : Z;
  r_headers : list Header;
  r_body : bytes
}.

Definition is_redirect_status (s : Z) : bool :=
  (s =? 301) || (s =? 302) || (s =? 303) || (s =? 307) || (s =? 308).

(** The next method and [*drop_body]. *)
Definition redirect_next_method (m : Method) (status : Z) : Method * bool :=
  if status =? 303 then (Method_GET, true)
  else if ((status =? 301) || (status =? 302)) && bool_decide (m = Method_POST) then (Method_GET, true)
  else (m, false).

Record RedirectHop := mkHop {
  hop_next_url : bytes;
  hop_next_method : Method;
  hop_drop_body : bool;
  hop_headers : HeaderList
}.

(** The first Location header, or the empty string. *)
Fixpoint location_of (headers : list Header) : bytes :=
  match headers with
  | [] => []
  | h :: headers' => if str8_match_ci (h_name h) (lit "location") then h_value h else location_of headers'
  end.

(** The loop that rebuilds the carried headers. *)
Fixpoint carry_headers (drop_body cross : bool) (new_site : bytes) (carried : list Header) (out : HeaderList) : HeaderList :=
  match carried with
  | [] => out
  | h :: carried' =>
      let name := h_name h in
      if drop_body && (str8_match_ci name (lit "content-length") || str8_match_ci name (lit "content-type"))
      then carry_headers drop_body cross new_site carried' out
      else if cross && str8_match_ci name (lit "authorization")
      then carry_headers drop_body cross new_site carried' out
      else
        let value := if (0 <? length new_site)%nat && str8_match_ci name (lit "sec-fetch-site")
                     then new_site else h_value h in
        carry_headers drop_body cross new_site carried' (header_list_push out name value (h_flags h))
  end.

(** [None] delivers the response instead of following. *)
Definition redirect_prepare_hop (cur_url : bytes) (m : Method) (carried : list Header) (r : Response) : option RedirectHop :=
  if negb (r_ok r) || negb (is_redirect_status (r_status r)) then None
  else
    let loc := location_of (r_headers r) in
    if (length loc =? 0)%nat then None
    else
      let next := url_resolve cur_url loc in
      let npu := url_parse next in
      if negb (ok npu) || negb (https npu) then None
      else
        let '(next_method, drop_body) := redirect_next_method m (r_status r) in
        let cpu := url_parse cur_url in
        let cross := negb (ok cpu && str8_match_ci (host cpu) (host npu)) in
        let new_site := sec_fetch_site_for_redirect carried next in
        Some (mkHop next next_method drop_body
                (carry_headers drop_body cross new_site carried header_list_init)).

(** ** The loop *)
Record RedirectState := mkRedirect {
  rs_method : Method;
  rs_headers : list Header;
  rs_body : bytes;
  rs_cur_url : bytes;
  rs_left : Z
}.

(** A callback either dispatches the next hop or delivers the response. *)
Inductive RedirectAction :=
| RA_dispatch (st : RedirectState)
| RA_deliver (r : Response).

Definition client_redirect_cb (st : RedirectState) (r : Response) : RedirectAction :=
  match (if 0 <? rs_left st
         then redirect_prepare_hop (rs_cur_url st) (rs_method st) (rs_headers st) r else None) with
  | Some hop =>
      RA_dispatch (mkRedirect (hop_next_method hop) (ga_list (hop_headers hop))
        (if hop_drop_body hop then [] else rs_body st) (hop_next_url hop) (wrap64 (rs_left st - 1)))
  | None => RA_deliver r
  end.

Section loop.
(** The network: the response to a dispatched hop. *)
Context (dispatch : RedirectState -> Response).

(** The hops dispatched, in order, and the response delivered; [None] when
    the fuel does not reach the end of the chain. *)
Fixpoint redirect_chain (fuel : nat) (st : RedirectState) (r : Response) : option (list RedirectState * Response) :=
  match client_redirect_cb st r with
  | RA_deliver r => Some ([], r)
  | RA_dispatch st' =>
      match fuel with
      | O => None
      | S fuel' =>
          match redirect_chain fuel' st' (dispatch st') with
          | Some (hops, r') => Some (st' :: hops, r')
          | None => None
          end
      end
  end.

(** [client_request] with redirects: the first dispatch, then the loop. *)
Definition redirect_request (fuel : nat) (st : RedirectState) : option (list RedirectState * Response) :=
  match redirect_chain fuel st (dispatch st) with
  | Some (hops, r) => Some (st :: hops, r)
  | None => None
  end.

End loop.

(** ** The carried headers *)

Definition carry_one (drop_body cross : bool) (new_site : bytes) (h : Header) : option Header :=
  if drop_body && (str8_match_ci (h_name h) (lit "content-length") || str8_match_ci (h_name h) (lit "content-type"))
  then None
  else if cross && str8_match_ci (h_name h) (lit "authorization") then None
  else Some (mkHeader (h_name h)
         (if (0 <? length new_site)%nat && str8_match_ci (h_name h) (lit "sec-fetch-site")
          then new_site else h_value h) (h_flags h)).

Lemma carry_headers_rep db cr site carried hl l :
  ga_rep hl l -> ga_rep (carry_headers db cr site carried hl) (l ++ omap (carry_one db cr site) carried).
Proof.
  revert hl l; induction carried as [|h carried IH]; intros hl l Hr; cbn [carry_headers].
  - by rewrite app_nil_r.
  - change (omap (carry_one db cr site) (h :: carried)) with
      (match carry_one db cr site h with
       | Some y => y :: omap (carry_one db cr site) carried
       | None => omap (carry_one db cr site) carried end).
    unfold carry_one at 1. cbv zeta.
    destruct (db && _); [by apply IH|]. destruct (cr && _); [by apply IH|].
    rewrite cons_middle, app_assoc. apply IH, header_list_push_rep, Hr.
Qed.

Lemma carry_headers_list db cr site carried :
  ga_list (carry_headers db cr site carried header_list_init) = omap (carry_one db cr site) carried.
Proof. apply ga_rep_list, (carry_headers_rep _ _ _ _ _ []), ga_empty_rep. Qed.

Lemma carry_sublist db cr site carried :
  (h_name <$> omap (carry_one db cr site) carried) `sublist_of` (h_name <$> carried).
Proof.
  induction carried as [|h carried IH]; [done|]. simpl. unfold carry_one at 1.
  destruct (db && _); [by constructor|]. destruct (cr && _); by constructor.
Qed.

Definition has_header (n : bytes) (hs : list Header) : Prop := exists h, h ∈ hs /\ lower (h_name h) = lower n.

Lemma has_header_sublist n hs hs' :
  (h_name <$> hs') `sublist_of` (h_name <$> hs) -> has_header n hs' -> has_header n hs.
Proof.
  intros Hs (h & Hin & E). apply (list_elem_of_fmap_2 h_name) in Hin.
  apply (sublist_subseteq _ _ Hs) in Hin. apply list_elem_of_fmap in Hin as (h' & Eh & Hin).
  exists h'. split; [done|]. by rewrite <-Eh.
Qed.

Lemma carry_drops db cr site carried n :
  db && (str8_match_ci n (lit "content-length") || str8_match_ci n (lit "content-type")) = true \/
  cr && str8_match_ci n (lit "authorization") = true ->
  ~ has_header n (omap (carry_one db cr site) carried).
Proof.
  intros Hn (h & (h0 & _ & E)%list_elem_of_omap & El). unfold carry_one in E.
  assert (Hm : forall s, lower (h_name h0) = lower n -> str8_match_ci (h_name h0) s = str8_match_ci n s).
  { intros s E0. apply Bool.eq_iff_eq_true. rewrite !str8_match_ci_eq. by rewrite E0. }
  destruct (db && (str8_match_ci (h_name h0) _ || _)) eqn:E1; [done|].
  destruct (cr && str8_match_ci (h_name h0) _) eqn:E2; [done|]. simplify_eq. simpl in El.
  rewrite (Hm (lit "content-length")), (Hm (lit "content-type")) in E1 by done.
  rewrite (Hm (lit "authorization")) in E2 by done. destruct Hn; congruence.
Qed.

(** What a hop that is followed looks like. *)
Lemma redirect_prepare_hop_inv cur m carried r hop :
  redirect_prepare_hop cur m carried r = Some hop ->
  exists site,
    r_ok r = true /\ is_redirect_status (r_status r) = true /\
    hop_next_url hop = url_resolve cur (location_of (r_headers r)) /\
    ok (url_parse (hop_next_url hop)) = true /\ https (url_parse (hop_next_url hop)) = true /\
    (hop_next_method hop, hop_drop_body hop) = redirect_next_method m (r_status r) /\
    site = sec_fetch_site_for_redirect carried (hop_next_url hop) /\
    ga_list (hop_headers hop) =
      omap (carry_one (hop_drop_body hop)
        (negb (ok (url_parse cur) && str8_match_ci (host (url_parse cur)) (host (url_parse (hop_next_url hop)))))
        site) carried /\
    location_of (r_headers r) <> [].
Proof.
  unfold redirect_prepare_hop. intros H. eexists.
  destruct (negb (r_ok r) || _) eqn:E1; [done|]. bool_props.
  destruct (Nat.eqb_spec (length (location_of (r_headers r))) 0) as [|Hne]; [done|]. set (next := url_resolve cur _) in *.
  destruct (negb (ok (url_parse next)) || _) eqn:E2; [done|]. bool_props. destruct (redirect_next_method m (r_status r)) as [nm db]. injection H as <-.
  cbn [hop_next_url hop_next_method hop_drop_body hop_headers].
  repeat (split; [done|]). split; [apply carry_headers_list|]. by intros E; rewrite E in Hne.
Qed.

(** ** Properties *)

Lemma location_of_find hs : location_of hs = default [] (find_value (lit "location") hs).
Proof.
  induction hs as [|h hs IH]; [done|]. cbn [location_of]. rewrite find_value_cons, IH.
  destruct (str8_match_ci _ _) eqn:E; [apply str8_match_ci_eq in E|apply str8_match_ci_false in E].
  - by rewrite decide_True.
  - by rewrite decide_False.
Qed.

(** The carried headers as a filter and a map. *)
Definition stays (drop_body same_host : bool) (h : Header) : Prop :=
  ~ (drop_body = true /\ (lower (h_name h) = lit "content-length" \/ lower (h_name h) = lit "content-type")) /\
  ~ (same_host = false /\ lower (h_name h) = lit "authorization").
#[export] Instance stays_dec db sh h : Decision (stays db sh h).
Proof. unfold stays. apply _. Defined.
Definition resite (site : bytes) (h : Header) : Header :=
  if bool_decide (site <> [] /\ lower (h_name h) = lit "sec-fetch-site") then mkHeader (h_name h) site (h_flags h) else h.
Lemma carry_filter db sh site (carried : list Header) :
  omap (carry_one db (negb sh) site) carried = resite site <$> filter (stays db sh) carried.
Proof.
  assert (Hci : forall n l, lower (lit l) = lit l -> str8_match_ci n (lit l) = bool_decide (lower n = lit l)).
  { intros n l El. apply Bool.eq_iff_eq_true. by rewrite str8_match_ci_eq, bool_decide_eq_true, El. }
  induction carried as [|h l IH]; [done|]. rewrite filter_cons.
  change (omap (carry_one db (negb sh) site) (h :: l)) with
    (match carry_one db (negb sh) site h with
     | Some y => y :: omap (carry_one db (negb sh) site) l | None => omap (carry_one db (negb sh) site) l end).
  rewrite IH. unfold carry_one. rewrite !Hci by reflexivity.
  destruct (decide (stays db sh h)) as [[H1 H2]|Hs].
  - match goal with |- context [db && ?x] => assert (E1 : db && x = false)
      by (apply not_true_iff_false; rewrite andb_true_iff, orb_true_iff, !bool_decide_eq_true; exact H1) end.
    match goal with |- context [negb sh && ?x] => assert (E2 : negb sh && x = false)
      by (apply not_true_iff_false; rewrite andb_true_iff, negb_true_iff, bool_decide_eq_true; exact H2) end.
    rewrite E1, E2, fmap_cons. f_equal. unfold resite. destruct site, h as [n v fl]; cbn [length Nat.ltb Nat.leb andb h_name h_value h_flags].
    + rewrite bool_decide_false; [done|]. by intros [? _].
    + destruct (decide (lower n = lit "sec-fetch-site")).
      * by rewrite !bool_decide_true.
      * by rewrite !bool_decide_false by tauto.
  - destruct (db && _) eqn:E1; [done|]. destruct (negb sh && _) eqn:E2; [done|]. destruct Hs. split.
    + intros [-> Hn]. revert E1. apply not_false_iff_true. cbn [andb]. by rewrite orb_true_iff, !bool_decide_eq_true.
    + intros [-> Hn]. revert E2. apply not_false_iff_true. cbn [andb negb]. by rewrite bool_decide_eq_true.
Qed.

(** The same host, whatever the port and the case. *)
Definition same_host (cur next : bytes) : bool :=
  ok (url_parse cur) && bool_decide (lower (host (url_parse cur)) = lower (host (url_parse next))).

(** C22. A response is followed exactly when it is a successful 301, 302, 303, 307 or
    308 whose first Location header, not empty, resolves against the current URL to one
    that parses with the https scheme. The next hop goes to that very URL, by GET and
    without the body after a 303 and after a 301 or 302 of a POST, and else by the
    same method with the body. It carries the caller's headers in their order, no other,
    with their values (Sec-Fetch-Site is recomputed for the new URL), except that
    Authorization goes when the host changes and Content-Length and Content-Type go
    with the body. *)
Theorem redirect_hop_spec (cur : bytes) (m : Method) (carried : list Header) (r : Response) :
  let followed loc :=
    r_ok r = true /\ r_status r ∈ [301; 302; 303; 307; 308] /\
    find_value (lit "location") (r_headers r) = Some loc /\ loc <> [] /\
    ok (url_parse (url_resolve cur loc)) = true /\ https (url_parse (url_resolve cur loc)) = true in
  match redirect_prepare_hop cur m carried r with
  | None => forall loc, ~ followed loc
  | Some hop =>
      exists loc, followed loc /\ hop_next_url hop = url_resolve cur loc /\
      (if bool_decide (r_status r = 303 \/ (r_status r = 301 \/ r_status r = 302) /\ m = Method_POST)
       then hop_next_method hop = Method_GET /\ hop_drop_body hop = true
       else hop_next_method hop = m /\ hop_drop_body hop = false) /\
      ga_list (hop_headers hop) =
        resite (sec_fetch_site_for_redirect carried (hop_next_url hop))
          <$> filter (stays (hop_drop_body hop) (same_host cur (hop_next_url hop))) carried
  end.
Proof.
  intros followed.
  assert (Hst : is_redirect_status (r_status r) = true <-> r_status r ∈ [301; 302; 303; 307; 308]).
  { unfold is_redirect_status. rewrite !orb_true_iff, !Z.eqb_eq, !elem_of_cons, elem_of_nil. tauto. }
  destruct (redirect_prepare_hop cur m carried r) as [hop|] eqn:E.
  - apply redirect_prepare_hop_inv in E as (site & Hok & Hs & Hu & Ho & Hh & Hm & -> & Hl & Hne).
    rewrite location_of_find in Hu, Hne. destruct (find_value _ (r_headers r)) as [loc|] eqn:Ef; [|done]. cbn in Hu, Hne.
    exists loc. unfold followed. rewrite <-Hst, <-Hu. split; [done|]. split; [done|]. split.
    + unfold redirect_next_method in Hm. revert Hm. destruct (Z.eqb_spec (r_status r) 303) as [E|E].
      { rewrite bool_decide_true by auto. by intros [= -> ->]. }
      destruct ((_ || _) && _) eqn:E2; intros [= -> ->].
      * rewrite bool_decide_true; [done|]. rewrite andb_true_iff, orb_true_iff, !Z.eqb_eq, bool_decide_eq_true in E2. auto.
      * rewrite bool_decide_false; [done|]. intros [?|H]; [done|]. revert E2. apply not_false_iff_true.
        by rewrite andb_true_iff, orb_true_iff, !Z.eqb_eq, bool_decide_eq_true.
    + rewrite Hl, <-carry_filter. unfold same_host.
      assert (Hc : forall a b, str8_match_ci a b = bool_decide (lower a = lower b)); [|by rewrite Hc].
      intros a b. apply Bool.eq_iff_eq_true. by rewrite str8_match_ci_eq, bool_decide_eq_true.
  - intros loc (Hok & Hs & Hf & Hne & Ho & Hh). revert E. unfold redirect_prepare_hop.
    rewrite Hok, (proj2 Hst Hs), location_of_find, Hf. cbn [negb orb default]. destruct loc; [done|]. cbn [from_option length Nat.eqb id].
    rewrite Ho, Hh. cbn [negb orb]. by destruct (redirect_next_method m (r_status r)).
Qed.

(** A POST answered by a 302 to another port: followed by a GET that keeps the credentials. *)
Example redirect_hop_example :
  (fun hop => (hop_next_method hop, ga_list (hop_headers hop))) <$>
    redirect_prepare_hop (lit "https://a.com/x") Method_POST
      [mkHeader (lit "Authorization") (lit "Basic k") 0; mkHeader (lit "content-type") (lit "text/plain") 0;
       mkHeader (lit "x") (lit "1") 0]
      (mkResponse true 302 [mkHeader (lit "Location") (lit "https://a.com:8443/y") 0] []) =
  Some (Method_GET, [mkHeader (lit "Authorization") (lit "Basic k") 0; mkHeader (lit "x") (lit "1") 0]).
Proof. vm_compute. reflexivity. Qed.

Section chain.
Context (dispatch : RedirectState -> Response).

Lemma redirect_cb_dispatch st r st' :
  client_redirect_cb st r = RA_dispatch st' ->
  0 < rs_left st /\ rs_left st' = wrap64 (rs_left st - 1) /\
  exists hop, redirect_prepare_hop (rs_cur_url st) (rs_method st) (rs_headers st) r = Some hop /\
    rs_cur_url st' = hop_next_url hop /\ rs_headers st' = ga_list (hop_headers hop).
Proof.
  unfold client_redirect_cb. destruct (Z.ltb_spec 0 (rs_left st)); [|done].
  destruct (redirect_prepare_hop _ _ _ _) as [hop|] eqn:E; [|done]. intros [= <-].
  split; [done|]. split; [done|]. by exists hop.
Qed.

(** A redirect chain ends: with a budget of [left] redirects, at most
    [left] further hops are dispatched, one response is delivered, and every
    hop went to an https URL. *)
Theorem redirect_chain_terminates (st : RedirectState) (r : Response) :
  0 <= rs_left st <= U64_MAX ->
  exists hops r', redirect_chain dispatch (Z.to_nat (rs_left st)) st r = Some (hops, r') /\
    Z.of_nat (length hops) <= rs_left st /\
    Forall (fun h => https (url_parse (rs_cur_url h)) = true) hops.
Proof.
  remember (Z.to_nat (rs_left st)) as fuel eqn:Ef. revert st r Ef.
  induction fuel as [|fuel IH]; intros st r Ef Hl; cbn [redirect_chain];
    destruct (client_redirect_cb st r) as [st'|r'] eqn:E;
    try (exists [], r'; split; [done|]; split; [simpl; lia|constructor]).
  - apply redirect_cb_dispatch in E as (? & _). lia.
  - apply redirect_cb_dispatch in E as (Hpos & Hl' & hop & Hh & Hu & _).
    unfold wrap64, U64_MAX in *. rewrite Z.mod_small in Hl' by lia.
    destruct (IH st' (dispatch st')) as (hops & r' & -> & Hlen & Hf); [lia|lia|].
    exists (st' :: hops), r'. split; [done|]. split; [simpl; lia|]. constructor; [|done].
    rewrite Hu. by apply redirect_prepare_hop_inv in Hh as (? & _ & _ & _ & _ & ? & _).
Qed.

(** C31. Credentials do not travel: along a chain no hop carries a header the
    caller did not give, and a hop that still carries the caller's
    Authorization header goes to the host the chain started at. *)
Theorem redirect_chain_credentials (fuel : nat) (st : RedirectState) (r : Response) hops r' h :
  redirect_chain dispatch fuel st r = Some (hops, r') -> h ∈ hops ->
  (h_name <$> rs_headers h) `sublist_of` (h_name <$> rs_headers st) /\
  (has_header (lit "authorization") (rs_headers h) ->
   lower (host (url_parse (rs_cur_url h))) = lower (host (url_parse (rs_cur_url st)))).
Proof.
  revert st r hops; induction fuel as [|fuel IH]; intros st r hops; cbn [redirect_chain];
    destruct (client_redirect_cb st r) as [st'|r0] eqn:E; try (by intros [= <- <-] ?%not_elem_of_nil); try done.
  destruct (redirect_chain dispatch fuel st' (dispatch st')) as [[hops' r1]|] eqn:Ec; [|done].
  intros [= <- <-] Hh.
  apply redirect_cb_dispatch in E as (_ & _ & hop & Hp & Hu & Hhs).
  apply redirect_prepare_hop_inv in Hp as (site & _ & _ & _ & _ & _ & _ & _ & Hl & _).
  set (cr := negb _) in Hl.
  assert (Hsub : (h_name <$> rs_headers st') `sublist_of` (h_name <$> rs_headers st)).
  { rewrite Hhs, Hl. apply carry_sublist. }
  assert (Ha : has_header (lit "authorization") (rs_headers st') ->
    lower (host (url_parse (rs_cur_url st'))) = lower (host (url_parse (rs_cur_url st)))).
  { rewrite Hhs, Hl, Hu. intros Ha. symmetry. apply str8_match_ci_eq, not_false_iff_true.
    intros E. revert Ha. apply carry_drops. right. unfold cr. rewrite E. by rewrite andb_false_r. }
  apply elem_of_cons in Hh as [->|Hh]; [done|].
  destruct (IH _ _ _ Ec Hh) as [Hs' Ha']. split; [by etrans|].
  intros Hauth. rewrite (Ha' Hauth). apply Ha. by eapply has_header_sublist.
Qed.

End chain.

(** A server for the witnesses: every hop answers with a redirect. *)
Definition bouncer (_ : RedirectState) : Response :=
  mkResponse true 307 [mkHeader (lit "Location") (lit "/again") 0] [].
Definition demo_state : RedirectState :=
  mkRedirect Method_POST [mkHeader (lit "authorization") (lit "t") 0] (lit "b") (lit "https://h.com/") 2.

Lemma redirect_chain_terminates_witness :
  exists hops r', redirect_chain bouncer 2 demo_state (bouncer demo_state) = Some (hops, r') /\
    Z.of_nat (length hops) <= 2.
Proof.
  destruct (redirect_chain_terminates bouncer demo_state (bouncer demo_state)) as (hops & r' & H1 & H2 & _).
  - split; vm_compute; discriminate.
  - exists hops, r'. split; [exact H1|exact H2].
Defined.

Lemma redirect_chain_credentials_witness :
  exists hops r' h, redirect_chain bouncer 2 demo_state (bouncer demo_state) = Some (hops, r') /\ h ∈ hops /\
    lower (host (url_parse (rs_cur_url h))) = lower (host (url_parse (rs_cur_url demo_state))).
Proof.
  set (h := mkRedirect Method_POST [mkHeader (lit "authorization") (lit "t") 0] (lit "b") (lit "https://h.com/again") 1).
  set (h' := mkRedirect Method_POST [mkHeader (lit "authorization") (lit "t") 0] (lit "b") (lit "https://h.com/again") 0).
  assert (E : redirect_chain bouncer 2 demo_state (bouncer demo_state) = Some ([h; h'], bouncer h))
    by (vm_compute; reflexivity).
  exists [h; h'], (bouncer h), h. split; [exact E|]. split; [by apply elem_of_cons; left|].
  apply (redirect_chain_credentials bouncer 2 demo_state (bouncer demo_state) [h; h'] (bouncer h) h E);
    [by apply elem_of_cons; left|].
  eexists. split; [by apply list_elem_of_singleton|reflexivity].
Defined.
