(* ===== verification/Session.v ===== *)
(** * Sessions: core/session.c

    A session is a cookie jar and a redirect policy. A request runs hop by
    hop: each hop attaches the jar's cookies, each response is absorbed into
    the jar and either followed or delivered. The transport
    ([client_request]) and the wall clock are parameters. Timing fields and the
    callback's user data are not modelled; [sr_proxy] is the proxy URL that
    [session_request] resolved for the whole chain. *)
From Stdlib Require Import Sorting.Sorted.
From S2P Require Import Prelude String8 Url GrowArr Header Psl HttpDate Cookie SecFetch Redirect.

Record SessionConfig := mkConfig {
  cfg_cookies_enabled : bool;
  cfg_follow_redirects : bool;
  cfg_has_follow_redirects : bool;
  cfg_max_redirects : Z
}.
Record Session := mkSession {
  s_jar : CookieJar;
  s_cookies_enabled : bool;
  s_follow_redirects : bool;
  s_max_redirects : Z
}.

Definition session_config_default : SessionConfig := mkConfig true true true 10.

(** A null config is [None]. *)
Definition session_init_fields (cfg : option SessionConfig) : Session :=
  mkSession cookie_jar_init
    (match cfg with Some c => cfg_cookies_enabled c | None => true end)
    (match cfg with
     | Some c => if cfg_has_follow_redirects c then cfg_follow_redirects c else true
     | None => true
     end)
    (match cfg with Some c => cfg_max_redirects c | None => 10 end).
Definition session_init (cfg : option SessionConfig) : Session := session_init_fields cfg.
Definition session_create (cfg : option SessionConfig) : Session := session_init_fields cfg.

Definition set_jar (s : Session) (jar : CookieJar) : Session :=
  mkSession jar (s_cookies_enabled s) (s_follow_redirects s) (s_max_redirects s).

Record SessionReq := mkSessionReq {
  sr_method : Method;
  sr_caller_headers : HeaderList;
  sr_body : bytes;
  sr_cur_url : bytes;
  sr_left : Z;
  sr_proxy : bytes;
  sr_on_chunk : bool;
  sr_header_order : bytes
}.

(** The [RequestParams] of one hop. *)
Record HopParams := mkHopParams {
  hp_method : Method;
  hp_url : bytes;
  hp_headers : list Header;
  hp_body : bytes;
  hp_no_redirects : bool;
  hp_proxy : bytes;
  hp_on_chunk : bool;
  hp_header_order : bytes
}.

Definition push_all (out : HeaderList) (hs : list Header) : HeaderList :=
  fold_left (fun out h => header_list_push out (h_name h) (h_value h) (h_flags h)) hs out.

Definition session_dispatch_hop (s : Session) (req : SessionReq) (now : Z) : Session * HopParams :=
  let pu := url_parse (sr_cur_url req) in
  let hop := push_all header_list_init (ga_list (sr_caller_headers req)) in
  let '(s, hop) :=
    if s_cookies_enabled s && ok pu then
      let slot := header_list_get_ci hop (lit "cookie") in
      let slot_empty := match slot with
                        | Some i => match ga_get hop i with Some h => (length (h_value h) =? 0)%nat | None => true end
                        | None => true
                        end in
      if slot_empty then
        let '(cookie, jar) := cookie_jar_cookie_header (s_jar s) pu now in
        let s := set_jar s jar in
        if (0 <? length cookie)%nat then
          match slot with
          | Some i => (s, header_list_set_value hop i cookie)
          | None => (s, header_list_push hop (lit "cookie") cookie 0)
          end
        else (s, hop)
      else (s, hop)
    else (s, hop) in
  (s, mkHopParams (sr_method req) (sr_cur_url req) (ga_list hop) (sr_body req) true (sr_proxy req)
        (sr_on_chunk req) (sr_header_order req)).

Section psl.
Context (exact_tbl wildcard_tbl exception_tbl : list bytes).

(** Every Set-Cookie of a response, in order. *)
Fixpoint absorb_cookies (jar : CookieJar) (pu : ParsedUrl) (now : Z) (headers : list Header) : CookieJar :=
  match headers with
  | [] => jar
  | h :: headers' =>
      absorb_cookies
        (if str8_match_ci (h_name h) (lit "set-cookie")
         then cookie_jar_store exact_tbl wildcard_tbl exception_tbl jar pu (h_value h) now else jar)
        pu now headers'
  end.

Inductive SessionAction :=
| SA_dispatch (req : SessionReq)
| SA_deliver (r : Response).

Definition session_hop_cb (s : Session) (req : SessionReq) (r : Response) (now : Z) : Session * SessionAction :=
  let s :=
    if s_cookies_enabled s then
      let pu := url_parse (sr_cur_url req) in
      if ok pu then set_jar s (absorb_cookies (s_jar s) pu now (r_headers r)) else s
    else s in
  match (if s_follow_redirects s && negb (sr_on_chunk req) && (0 <? sr_left req)
         then redirect_prepare_hop (sr_cur_url req) (sr_method req) (ga_list (sr_caller_headers req)) r
         else None) with
  | Some hop =>
      (s, SA_dispatch (mkSessionReq (hop_next_method hop) (hop_headers hop)
            (if hop_drop_body hop then [] else sr_body req) (hop_next_url hop)
            (wrap64 (sr_left req - 1)) (sr_proxy req) (sr_on_chunk req) (sr_header_order req)))
  | None => (s, SA_deliver r)
  end.

(** The request [session_request] starts with. *)
Definition session_start (s : Session) (m : Method) (url : bytes) (headers : list Header) (body : bytes)
    (fetch_mode : FetchMode) (proxy : bytes) (on_chunk : bool) (header_order : bytes) : SessionReq :=
  let hs := if bool_decide (fetch_mode = FetchMode_Default) then headers
            else ga_list (sec_fetch_merge header_list_init fetch_mode url headers) in
  mkSessionReq m (push_all header_list_init hs) body (push_str8_copy url) (s_max_redirects s) proxy
    on_chunk header_order.

Section run.
(** The transport, and the clock at the dispatch and at the response of hop
    number [k]. *)
Context (transport : HopParams -> Response) (clock : nat -> Z * Z).

(** The hops that reach the transport and the response delivered to the
    caller, with the session afterwards. *)
Fixpoint session_chain (fuel k : nat) (s : Session) (req : SessionReq) : option (Session * list HopParams * Response) :=
  let '(s, p) := session_dispatch_hop s req (fst (clock k)) in
  let '(s, a) := session_hop_cb s req (transport p) (snd (clock k)) in
  match a with
  | SA_deliver r => Some (s, [p], r)
  | SA_dispatch req' =>
      match fuel with
      | O => None
      | S fuel' =>
          match session_chain fuel' (S k) s req' with
          | Some (s', ps, r) => Some (s', p :: ps, r)
          | None => None
          end
      end
  end.
Definition session_request (s : Session) (m : Method) (url : bytes) (headers : list Header) (body : bytes)
    (fetch_mode : FetchMode) (proxy : bytes) (on_chunk : bool) (header_order : bytes)
    : option (Session * list HopParams * Response) :=
  let req := session_start s m url headers body fetch_mode proxy on_chunk header_order in
  session_chain (Z.to_nat (s_max_redirects s)) 0 s req.

End run.
End psl.

(** ** One hop *)

Lemma push_all_rep hs hl l : ga_rep hl l -> ga_rep (push_all hl hs) (l ++ hs).
Proof.
  revert hl l; induction hs as [|h hs IH]; intros hl l Hr; cbn [push_all fold_left].
  - by rewrite app_nil_r.
  - rewrite cons_middle, app_assoc. apply IH.
    pose proof (header_list_push_rep hl l (h_name h) (h_value h) (h_flags h) Hr) as Hp. by destruct h.
Qed.

Lemma header_list_set_value_rep hl l i h v :
  ga_rep hl l -> l !! i = Some h ->
  ga_rep (header_list_set_value hl i v) (<[i := mkHeader (h_name h) v (h_flags h)]> l).
Proof.
  intros Hr Hi. unfold header_list_set_value. rewrite (ga_get_rep _ _ _ Hr), Hi.
  apply ga_set_rep; [by eapply lookup_lt_Some|done].
Qed.

(** Filling the first header of a name. *)
Lemma find_value_fill n l i h v :
  list_find (named n) l = Some (i, h) ->
  find_value n (<[i := mkHeader (h_name h) v (h_flags h)]> l) = Some v /\
  forall m, lower m <> lower n ->
    find_value m (<[i := mkHeader (h_name h) v (h_flags h)]> l) = find_value m l.
Proof.
  revert i; induction l as [|x l IH]; intros i; [done|]. cbn [list_find].
  destruct (decide (named n x)) as [E|E].
  - intros [= <- <-]. cbn [insert list_insert]. split.
    + rewrite find_value_cons, decide_True; [done|]. exact E.
    + intros m Hm. rewrite !find_value_cons.
      rewrite (decide_False (P := named m x)) by (unfold named in *; congruence).
      rewrite decide_False; [done|]. unfold named in *. simpl. congruence.
  - destruct (list_find (named n) l) as [[j h']|]; [|done]. intros [= <- <-].
    destruct (IH j eq_refl) as [IH1 IH2].
    change (<[S j := ?y]> (x :: l)) with (x :: <[j := y]> l). split.
    + rewrite find_value_cons, decide_False by done. exact IH1.
    + intros m Hm. rewrite !find_value_cons, IH2 by done. done.
Qed.

(** The cookie a hop sends: the caller's own non-empty one, or the jar's. *)
Definition hop_cookie (enabled : bool) (pu : ParsedUrl) (caller : option bytes) (cookie : bytes) : option bytes :=
  if enabled && ok pu then
    match caller with
    | Some (c :: v) => Some (c :: v)
    | Some [] => Some cookie
    | None => nonempty cookie
    end
  else caller.

Lemma session_dispatch_hop_spec s req now :
  let pu := url_parse (sr_cur_url req) in
  let caller := ga_list (sr_caller_headers req) in
  let r := session_dispatch_hop s req now in
  let hs := hp_headers (snd r) in
  find_value (lit "cookie") hs =
    hop_cookie (s_cookies_enabled s) pu (find_value (lit "cookie") caller)
      (fst (cookie_jar_cookie_header (s_jar s) pu now)) /\
  (forall n, lower n <> lower (lit "cookie") -> find_value n hs = find_value n caller) /\
  hp_url (snd r) = sr_cur_url req /\ hp_no_redirects (snd r) = true /\
  (s_jar (fst r) = s_jar s \/ s_jar (fst r) = snd (cookie_jar_cookie_header (s_jar s) pu now)) /\
  fst r = set_jar s (s_jar (fst r)).
Proof.
  intros pu caller r hs. unfold hs, r, session_dispatch_hop, hop_cookie. fold pu. fold caller. cbv zeta.
  pose proof (push_all_rep caller header_list_init [] ga_empty_rep) as Hr. rewrite app_nil_l in Hr.
  set (hop := push_all header_list_init caller) in *. clearbody hop.
  assert (Hs : s = set_jar s (s_jar s)) by by destruct s.
  destruct (s_cookies_enabled s && ok pu).
  2:{ simpl. rewrite (ga_rep_list _ _ Hr). auto 10. }
  rewrite (header_list_get_ci_rep _ _ _ Hr).
  destruct (cookie_jar_cookie_header (s_jar s) pu now) as [cookie jar]. cbn [fst snd].
  destruct (list_find (named (lit "cookie")) caller) as [[i h]|] eqn:Ef.
  - assert (Hfv : find_value (lit "cookie") caller = Some (h_value h)) by (unfold find_value; by rewrite Ef).
    pose proof (list_find_Some (named (lit "cookie")) caller i h) as [Hfs _].
    destruct (Hfs Ef) as (Hi & _). cbn [fmap option_fmap option_map fst].
    rewrite (ga_get_rep _ _ _ Hr), Hi, Hfv. destruct (h_value h) as [|c v] eqn:Ev; cbn [length Nat.eqb].
    + destruct (Nat.ltb_spec 0 (length cookie)) as [Hc|Hc]; cbn [fst snd hp_headers hp_url hp_no_redirects].
      * rewrite (ga_rep_list _ _ (header_list_set_value_rep _ _ _ _ cookie Hr Hi)).
        destruct (find_value_fill _ _ _ _ cookie Ef) as [E1 E2]. auto 10.
      * rewrite (ga_rep_list _ _ Hr). destruct cookie; [|simpl in Hc; lia]. rewrite Hfv. auto 10.
    + cbn [fst snd hp_headers hp_url hp_no_redirects]. rewrite (ga_rep_list _ _ Hr), Hfv. auto 10.
  - assert (Hfv : find_value (lit "cookie") caller = None) by (unfold find_value; by rewrite Ef).
    cbn [fmap option_fmap option_map]. rewrite Hfv. unfold nonempty.
    destruct (0 <? length cookie)%nat; cbn [fst snd hp_headers hp_url hp_no_redirects].
    + rewrite (ga_rep_list _ _ (header_list_push_rep _ _ (lit "cookie") cookie 0 Hr)).
      split; [by rewrite find_value_app, Hfv|]. split; [|auto 10].
      intros n Hn. rewrite find_value_app, find_value_cons, find_value_nil.
      rewrite decide_False by (intros E; apply Hn; symmetry; exact E). by destruct (find_value n caller).
    + rewrite (ga_rep_list _ _ Hr), Hfv. auto 10.
Qed.

(** ** The chain *)

Lemma find_value_has n l : is_Some (find_value n l) <-> has_header n l.
Proof.
  unfold has_header. induction l as [|h l IH].
  - split; [by intros [? ?]|]. intros (? & ?%not_elem_of_nil & _). done.
  - rewrite find_value_cons. destruct (decide (named n h)) as [E|E].
    + split; [|done]. intros _. exists h. split; [by left|exact E].
    + rewrite IH. split.
      * intros (h' & ? & ?). exists h'. split; [by right|done].
      * intros (h' & [->|?]%elem_of_cons & ?); [by destruct E|]. by exists h'.
Qed.

Section chain.
Context (exact_tbl wildcard_tbl exception_tbl : list bytes).
Context (transport : HopParams -> Response) (clock : nat -> Z * Z).
Local Abbreviation inv := (jar_inv exact_tbl wildcard_tbl exception_tbl).
Local Abbreviation hop_cb := (session_hop_cb exact_tbl wildcard_tbl exception_tbl).
Local Abbreviation chain := (session_chain exact_tbl wildcard_tbl exception_tbl transport clock).

Lemma absorb_cookies_inv jar pu now hs :
  inv jar -> inv (absorb_cookies exact_tbl wildcard_tbl exception_tbl jar pu now hs).
Proof.
  revert jar; induction hs as [|h hs IH]; intros jar Hinv; cbn [absorb_cookies]; [done|].
  apply IH. destruct (str8_match_ci _ _); [by apply jar_inv_store|done].
Qed.

Lemma absorb_cookies_elem jar pu now hs c :
  inv jar -> c ∈ jar_list (absorb_cookies exact_tbl wildcard_tbl exception_tbl jar pu now hs) ->
  c ∈ jar_list jar \/ covers (host pu) c.
Proof.
  revert jar; induction hs as [|h hs IH]; intros jar Hinv; cbn [absorb_cookies]; [by left|].
  destruct (str8_match_ci _ _); [|by apply IH]. intros [Hc|Hc]%IH; [|by right|by apply jar_inv_store].
  apply store_elem in Hc as [?|[_ ?]]; auto.
Qed.

Lemma dispatch_jar s req now c :
  inv (s_jar s) ->
  inv (s_jar (fst (session_dispatch_hop s req now))) /\
  (c ∈ jar_list (s_jar (fst (session_dispatch_hop s req now))) -> c ∈ jar_list (s_jar s)).
Proof.
  intros Hinv. destruct (session_dispatch_hop_spec s req now) as (_ & _ & _ & _ & [E|E] & _); rewrite E.
  - done.
  - split; [by apply jar_inv_cookie_header|by apply (cookie_header_elem exact_tbl wildcard_tbl exception_tbl)].
Qed.

Lemma hop_cb_jar s req r now c :
  inv (s_jar s) ->
  inv (s_jar (fst (hop_cb s req r now))) /\
  (c ∈ jar_list (s_jar (fst (hop_cb s req r now))) ->
   c ∈ jar_list (s_jar s) \/ covers (host (url_parse (sr_cur_url req))) c).
Proof.
  intros Hinv. unfold session_hop_cb. cbv zeta.
  set (s' := if s_cookies_enabled s then _ else s).
  assert (Hs : inv (s_jar s') /\ (c ∈ jar_list (s_jar s') ->
    c ∈ jar_list (s_jar s) \/ covers (host (url_parse (sr_cur_url req))) c)).
  { unfold s'. destruct (s_cookies_enabled s); [|auto]. destruct (ok _); [|auto].
    split; [by apply absorb_cookies_inv|by apply absorb_cookies_elem]. }
  clearbody s'. by destruct (if s_follow_redirects s' && _ && _ then _ else _).
Qed.

Lemma hop_cb_dispatch s req r now s' req' :
  hop_cb s req r now = (s', SA_dispatch req') ->
  0 < sr_left req /\ sr_left req' = wrap64 (sr_left req - 1) /\
  (h_name <$> ga_list (sr_caller_headers req')) `sublist_of` (h_name <$> ga_list (sr_caller_headers req)) /\
  sr_proxy req' = sr_proxy req.
Proof.
  unfold session_hop_cb. cbv zeta. set (s1 := if s_cookies_enabled s then _ else s). clearbody s1.
  destruct (s_follow_redirects s1 && negb (sr_on_chunk req) && (0 <? sr_left req)) eqn:E; [|done].
  bool_props. destruct (redirect_prepare_hop _ _ _ _) as [hop|] eqn:Eh; [|done].
  intros [= <- <-]. simpl. split; [done|]. split; [done|]. split; [|done].
  apply redirect_prepare_hop_inv in Eh as (site & _ & _ & _ & _ & _ & _ & _ & -> & _). apply carry_sublist.
Qed.

Lemma session_chain_step fuel k s req :
  exists s1 p s2 a, session_dispatch_hop s req (fst (clock k)) = (s1, p) /\
    hop_cb s1 req (transport p) (snd (clock k)) = (s2, a) /\
    chain fuel k s req =
      match a with
      | SA_deliver r => Some (s2, [p], r)
      | SA_dispatch req' =>
          match fuel with
          | O => None
          | S fuel' => match chain fuel' (S k) s2 req' with
                       | Some (s', ps, r) => Some (s', p :: ps, r)
                       | None => None
                       end
          end
      end.
Proof.
  destruct (session_dispatch_hop s req (fst (clock k))) as [s1 p] eqn:E1.
  destruct (hop_cb s1 req (transport p) (snd (clock k))) as [s2 a] eqn:E2.
  exists s1, p, s2, a. split; [done|]. split; [done|].
  destruct fuel; cbn [session_chain]; rewrite E1, E2; by destruct a.
Qed.

(** A hop and its callback, on the jar. *)
Lemma hop_jar s req k s1 p s2 a c :
  session_dispatch_hop s req (fst (clock k)) = (s1, p) ->
  hop_cb s1 req (transport p) (snd (clock k)) = (s2, a) -> inv (s_jar s) ->
  hp_url p = sr_cur_url req /\ inv (s_jar s2) /\
  (c ∈ jar_list (s_jar s2) -> c ∈ jar_list (s_jar s) \/ covers (host (url_parse (hp_url p))) c).
Proof.
  intros E1 E2 Hinv. destruct (dispatch_jar s req (fst (clock k)) c Hinv) as [Hi1 Hc1].
  destruct (session_dispatch_hop_spec s req (fst (clock k))) as (_ & _ & Hu & _).
  rewrite E1 in *. cbn [fst snd] in *.
  destruct (hop_cb_jar s1 req (transport p) (snd (clock k)) c Hi1) as [Hi2 Hc2]. rewrite E2 in *. cbn [fst] in *.
  rewrite Hu. split; [done|]. split; [done|]. intros [?|?]%Hc2; auto.
Qed.

(** *** The jar along a chain

    A hop uses the jar for its own URL: it drops the cookies expired at its dispatch, and
    the values of the Set-Cookie headers of its response are stored, in order. *)
Definition hop_stores (enabled : bool) (k : nat) (J : CookieJar) (p : HopParams) : CookieJar :=
  let pu := url_parse (hp_url p) in
  if enabled && ok pu
  then fold_left (fun J sc => cookie_jar_store exact_tbl wildcard_tbl exception_tbl J pu sc (snd (clock k)))
         (h_value <$> filter (named (lit "set-cookie")) (r_headers (transport p)))
         (cookie_jar_evict_expired J (fst (clock k)))
  else J.
(** The jar the hops [ps] leave, numbered from [k]. *)
Fixpoint jar_after (enabled : bool) (k : nat) (J : CookieJar) (ps : list HopParams) : CookieJar :=
  match ps with [] => J | p :: ps => jar_after enabled (S k) (hop_stores enabled k J p) ps end.

Lemma absorb_cookies_fold jar pu now hs :
  absorb_cookies exact_tbl wildcard_tbl exception_tbl jar pu now hs =
  fold_left (fun J sc => cookie_jar_store exact_tbl wildcard_tbl exception_tbl J pu sc now)
    (h_value <$> filter (named (lit "set-cookie")) hs) jar.
Proof.
  revert jar; induction hs as [|h hs IH]; intros jar; cbn [absorb_cookies]; [done|]. rewrite IH, filter_cons.
  destruct (str8_match_ci _ _) eqn:E.
  - apply str8_match_ci_eq in E. by rewrite decide_True.
  - apply str8_match_ci_false in E. by rewrite decide_False.
Qed.

Lemma cookie_header_evicts J pu now : snd (cookie_jar_cookie_header J pu now) = cookie_jar_evict_expired J now.
Proof. unfold cookie_jar_cookie_header. by repeat case_match. Qed.

(** A hop of a request whose caller sent no Cookie header: what it sends, and
    the jar after it. *)
Lemma hop_exact s req k s1 p s2 a :
  session_dispatch_hop s req (fst (clock k)) = (s1, p) ->
  hop_cb s1 req (transport p) (snd (clock k)) = (s2, a) ->
  ~ has_header (lit "cookie") (ga_list (sr_caller_headers req)) ->
  hp_url p = sr_cur_url req /\
  find_value (lit "cookie") (hp_headers p) =
    (if s_cookies_enabled s && ok (url_parse (hp_url p))
     then nonempty (fst (cookie_jar_cookie_header (s_jar s) (url_parse (hp_url p)) (fst (clock k)))) else None) /\
  s_cookies_enabled s2 = s_cookies_enabled s /\ s_jar s2 = hop_stores (s_cookies_enabled s) k (s_jar s) p.
Proof.
  intros E1 E2 Hno. destruct (session_dispatch_hop_spec s req (fst (clock k))) as (Hv & _ & Hu & _ & _ & Hs).
  assert (Hn : find_value (lit "cookie") (ga_list (sr_caller_headers req)) = None).
  { apply eq_None_not_Some. by rewrite find_value_has. }
  assert (Hj : s_jar (fst (session_dispatch_hop s req (fst (clock k)))) =
    if s_cookies_enabled s && ok (url_parse (sr_cur_url req)) then cookie_jar_evict_expired (s_jar s) (fst (clock k)) else s_jar s).
  { unfold session_dispatch_hop. cbv zeta. destruct (s_cookies_enabled s && _); [|done].
    rewrite (header_list_get_ci_rep _ _ _ (push_all_rep _ _ [] ga_empty_rep)), app_nil_l.
    unfold find_value in Hn. destruct (list_find _ _) as [[? ?]|]; [done|]. cbn [fmap option_fmap option_map].
    rewrite <-(cookie_header_evicts _ (url_parse (sr_cur_url req))). destruct (cookie_jar_cookie_header _ _ _) as [ck j].
    by destruct (0 <? _)%nat. }
  rewrite E1 in *. cbn [fst snd] in *. rewrite Hn in Hv. unfold hop_cookie in Hv. rewrite Hu. split; [done|]. split; [exact Hv|].
  assert (He : s_cookies_enabled s1 = s_cookies_enabled s) by (by rewrite Hs).
  unfold session_hop_cb in E2. cbv zeta in E2. unfold hop_stores. cbv zeta. rewrite Hu, <-absorb_cookies_fold.
  rewrite He in E2. set (s3 := if s_cookies_enabled s then _ else s1) in E2.
  assert (H3 : s_jar s3 = (if s_cookies_enabled s && ok (url_parse (sr_cur_url req))
    then absorb_cookies exact_tbl wildcard_tbl exception_tbl (cookie_jar_evict_expired (s_jar s) (fst (clock k)))
      (url_parse (sr_cur_url req)) (snd (clock k)) (r_headers (transport p)) else s_jar s) /\
    s_cookies_enabled s3 = s_cookies_enabled s).
  { unfold s3. destruct (s_cookies_enabled s), (ok _); cbn [andb] in Hj |- *; cbn; by rewrite ?Hj, ?He. }
  clearbody s3. destruct H3 as [H3 H4].
  by destruct (if s_follow_redirects s3 && _ && _ then _ else _); injection E2 as <- <-.
Qed.

Lemma hop_stores_inv enabled k J p : inv J -> inv (hop_stores enabled k J p).
Proof.
  intros Hinv. unfold hop_stores. cbv zeta. destruct (_ && _); [|done]. rewrite <-absorb_cookies_fold.
  by apply absorb_cookies_inv, jar_inv_evict.
Qed.
Lemma hop_stores_elem enabled k J p c :
  inv J -> c ∈ jar_list (hop_stores enabled k J p) -> c ∈ jar_list J \/ covers (host (url_parse (hp_url p))) c.
Proof.
  intros Hinv. unfold hop_stores. cbv zeta. destruct (_ && _); [|by left]. rewrite <-absorb_cookies_fold.
  intros [Hc|Hc]%absorb_cookies_elem; [|by right|by apply jar_inv_evict]. left.
  destruct Hinv as (Hr & _). destruct (cookie_jar_evict_expired_rep J _ (fst (clock k)) Hr) as [Hr' _].
  rewrite (jar_rep_list _ _ Hr'), list_elem_of_filter in Hc. tauto.
Qed.
Lemma jar_after_inv enabled k J ps : inv J -> inv (jar_after enabled k J ps).
Proof. revert k J; induction ps as [|p ps IH]; intros k J Hinv; [done|]. by apply IH, hop_stores_inv. Qed.
Lemma jar_after_elem enabled k J ps c :
  inv J -> c ∈ jar_list (jar_after enabled k J ps) ->
  c ∈ jar_list J \/ exists p, p ∈ ps /\ covers (host (url_parse (hp_url p))) c.
Proof.
  revert k J; induction ps as [|p ps IH]; intros k J Hinv; cbn [jar_after]; [by left|].
  intros [Hc|(p' & ? & ?)]%IH; [| |by apply hop_stores_inv].
  - apply hop_stores_elem in Hc as [?|?]; [by left| |done]. right. exists p. split; [by left|done].
  - right. exists p'. split; [by right|done].
Qed.

(** The chain, hop by hop. *)
Lemma session_chain_exact fuel k s req s' ps r :
  ~ has_header (lit "cookie") (ga_list (sr_caller_headers req)) ->
  chain fuel k s req = Some (s', ps, r) ->
  s_jar s' = jar_after (s_cookies_enabled s) k (s_jar s) ps /\
  forall ps1 p ps2, ps = ps1 ++ p :: ps2 ->
    find_value (lit "cookie") (hp_headers p) =
      (if s_cookies_enabled s && ok (url_parse (hp_url p))
       then nonempty (fst (cookie_jar_cookie_header (jar_after (s_cookies_enabled s) k (s_jar s) ps1) (url_parse (hp_url p))
         (fst (clock (k + length ps1))))) else None).
Proof.
  revert k s req s' ps r; induction fuel as [|fuel IH]; intros k s req s' ps r Hno E;
    match type of E with chain ?f _ _ _ = _ => destruct (session_chain_step f k s req) as (s1 & p1 & s2 & a & E1 & E2 & Ec) end;
    rewrite Ec in E; pose proof (hop_exact _ _ _ _ _ _ _ E1 E2 Hno) as (Hu & Hv & He & Hj);
    (destruct a as [req'|r'];
      [|injection E as <- <- <-; split; [by rewrite Hj|];
        intros [|p' ps1] p ps2 Ep; [|by destruct ps1]; injection Ep as <- <-; cbn [jar_after length]; by rewrite Nat.add_0_r]); [done|].
  destruct (chain fuel (S k) s2 req') as [[[s3 ps'] r3]|] eqn:Er; [|done]. injection E as <- <- <-.
  apply hop_cb_dispatch in E2 as (_ & _ & Hsub & _).
  assert (Hno2 : ~ has_header (lit "cookie") (ga_list (sr_caller_headers req'))) by (intros Hh; apply Hno; by eapply has_header_sublist).
  destruct (IH _ _ _ _ _ _ Hno2 Er) as [Hj' Hps]. rewrite He, Hj in Hj', Hps. split; [exact Hj'|].
  intros [|p' ps1] p ps2 Ep; [injection Ep as <- <-; cbn [jar_after length]; by rewrite Nat.add_0_r|].
  injection Ep as <- Ep. rewrite (Hps ps1 p ps2 Ep). cbn [jar_after length]. by rewrite Nat.add_succ_r.
Qed.

(** The Cookie header of a jar, as text: empty when no cookie is selected. *)
Lemma nonempty_header J pu now : inv J ->
  exists cs, NoDup cs /\ (forall c, c ∈ cs <-> c ∈ jar_list J /\ cookie_expired now c = false /\ rfc_sent pu c) /\
    StronglySorted (fun a b => (plen b <= plen a)%nat) cs /\
    nonempty (fst (cookie_jar_cookie_header J pu now)) =
      match cs with [] => None | _ => Some (intercalate (lit "; ") (cookie_pair <$> cs)) end.
Proof.
  intros (Hr & _ & Hnd & _). destruct (cookie_jar_cookie_header_rep J _ pu now Hr) as (_ & cs & (Hp & Hs & _) & ->).
  exists cs. split; [|split; [|split; [exact Hs|]]].
  - rewrite Hp. apply NoDup_filter, NoDup_filter. by apply (NoDup_fmap_1 cookie_key).
  - intros c. rewrite Hp, !list_elem_of_filter, cookie_sent_rfc. unfold rejects. tauto.
  - destruct cs as [|c [|c' cs]]; [done|..]; unfold nonempty; (rewrite (proj2 (Nat.ltb_lt _ _)); [done|]);
      cbn; unfold cookie_pair; rewrite ?length_app; cbn [length]; rewrite ?length_app; cbn; lia.
Qed.

(** ** Properties *)

(** C32. A session request ends: with a budget of [left] redirects at most
    [left] + 1 hops reach the transport, each as a single hop, one response is
    delivered, and the jar keeps its invariant. *)
Theorem session_chain_terminates (k : nat) (s : Session) (req : SessionReq) :
  inv (s_jar s) -> 0 <= sr_left req <= U64_MAX ->
  exists s' ps r, chain (Z.to_nat (sr_left req)) k s req = Some (s', ps, r) /\
    Z.of_nat (length ps) <= sr_left req + 1 /\ inv (s_jar s').
Proof.
  intros Hinv Hl. remember (Z.to_nat (sr_left req)) as fuel eqn:Ef. revert k s req Hinv Hl Ef.
  induction fuel as [|fuel IH]; intros k s req Hinv Hl Ef.
  - destruct (session_chain_step 0 k s req) as (s1 & p1 & s2 & a & E1 & E2 & Ec). rewrite Ec.
    destruct (hop_jar _ _ _ _ _ _ _ (mkCookie [] [] [] [] 0 true true true 0) E1 E2 Hinv) as (_ & Hi & _).
    destruct a as [req'|r]; [|exists s2, [p1], r; split; [done|]; split; [simpl; lia|done]].
    apply hop_cb_dispatch in E2 as (? & _). lia.
  - destruct (session_chain_step (S fuel) k s req) as (s1 & p1 & s2 & a & E1 & E2 & Ec). rewrite Ec.
    destruct (hop_jar _ _ _ _ _ _ _ (mkCookie [] [] [] [] 0 true true true 0) E1 E2 Hinv) as (_ & Hi & _).
    destruct a as [req'|r]; [|exists s2, [p1], r; split; [done|]; split; [simpl; lia|done]].
    apply hop_cb_dispatch in E2 as (Hp & Hl' & _). unfold wrap64, U64_MAX in *.
    rewrite Z.mod_small in Hl' by lia.
    destruct (IH (S k) s2 req') as (s' & ps & r & -> & Hlen & Hi'); [done|lia|lia|].
    exists s', (p1 :: ps), r. split; [done|]. split; [simpl; lia|done].
Qed.

(** C23. Cookies follow the jar, not the chain, on a request whose caller sets no
    Cookie header. At each hop the jar is the one the request started with, after the
    Set-Cookie values of the responses of the hops before it, each stored for that
    hop's own URL. The hop's Cookie header lists the cookies of that jar which are not
    expired and which RFC 6265 selects for the hop's URL, all of them, each once, longest
    path first; there is no Cookie header when there are none, when cookies are off or
    when the URL does not parse. So each of them was in the jar before the
    request, or covers the host of an earlier hop. *)
Theorem session_cookie_isolation (fuel k : nat) (s : Session) (req : SessionReq) s' ps r :
  inv (s_jar s) -> ~ has_header (lit "cookie") (ga_list (sr_caller_headers req)) ->
  chain fuel k s req = Some (s', ps, r) ->
  s_jar s' = jar_after (s_cookies_enabled s) k (s_jar s) ps /\
  forall ps1 p ps2, ps = ps1 ++ p :: ps2 ->
    let J := jar_after (s_cookies_enabled s) k (s_jar s) ps1 in
    let pu := url_parse (hp_url p) in
    exists cs, NoDup cs /\
      (forall c, c ∈ cs <-> c ∈ jar_list J /\ cookie_expired (fst (clock (k + length ps1))) c = false /\ rfc_sent pu c) /\
      StronglySorted (fun a b => (length (c_path b) <= length (c_path a))%nat) cs /\
      find_value (lit "cookie") (hp_headers p) =
        (if s_cookies_enabled s && ok pu && negb (bool_decide (cs = []))
         then Some (intercalate (lit "; ") (cookie_pair <$> cs)) else None) /\
      (forall c, c ∈ cs -> c ∈ jar_list (s_jar s) \/ exists p', p' ∈ ps1 /\ covers (host (url_parse (hp_url p'))) c).
Proof.
  intros Hinv Hno [Hj Hps]%session_chain_exact; [|done]. split; [exact Hj|]. intros ps1 p ps2 E J pu.
  destruct (nonempty_header J pu (fst (clock (k + length ps1)))) as (cs & Hnd & Hcs & Hs & Hn); [by apply jar_after_inv|].
  exists cs. split; [exact Hnd|]. split; [exact Hcs|]. split; [exact Hs|]. split.
  - rewrite (Hps _ _ _ E). fold J pu. rewrite Hn. destruct (s_cookies_enabled s && ok pu); [|done]. by destruct cs.
  - intros c (Hc & _)%Hcs. by eapply jar_after_elem.
Qed.

End chain.

(** The headers of one hop: the caller's, where an empty or missing Cookie
    is filled with the jar's cookies for the hop's URL (in place, when the
    caller left an empty slot); a Cookie the caller set is left alone, and so
    is every other header. *)
Theorem session_hop_headers (s : Session) (req : SessionReq) (now : Z) :
  let pu := url_parse (sr_cur_url req) in
  let caller := ga_list (sr_caller_headers req) in
  let hs := hp_headers (snd (session_dispatch_hop s req now)) in
  find_value (lit "cookie") hs =
    hop_cookie (s_cookies_enabled s) pu (find_value (lit "cookie") caller)
      (fst (cookie_jar_cookie_header (s_jar s) pu now)) /\
  (forall n, lower n <> lower (lit "cookie") -> find_value n hs = find_value n caller).
Proof. destruct (session_dispatch_hop_spec s req now) as (H1 & H2 & _). by split. Qed.

(** ** Witnesses: a login that sets a cookie and redirects *)

Definition login_server (p : HopParams) : Response :=
  if str8_match (hp_url p) (lit "https://a.com/login")
  then mkResponse true 302 [mkHeader (lit "Set-Cookie") (lit "sid=7; Path=/") 0; mkHeader (lit "location") (lit "/home") 0] []
  else mkResponse true 200 [] (lit "hi").
Definition login_clock (_ : nat) : Z * Z := (1000, 1001).
Definition login_session : Session := session_init (Some session_config_default).
Definition login_req : SessionReq :=
  session_start login_session Method_POST (lit "https://a.com/login") [] (lit "user=u") FetchMode_Default [] false [].

Lemma session_chain_terminates_witness :
  exists s' ps r, session_chain [] [] [] login_server login_clock 10 0 login_session login_req = Some (s', ps, r) /\
    Z.of_nat (length ps) <= 11.
Proof.
  destruct (session_chain_terminates [] [] [] login_server login_clock 0 login_session login_req)
    as (s' & ps & r & H1 & H2 & _).
  - apply jar_inv_init.
  - split; vm_compute; discriminate.
  - exists s', ps, r. split; [exact H1|exact H2].
Defined.

Definition login_hops : list HopParams :=
  [mkHopParams Method_POST (lit "https://a.com/login") [] (lit "user=u") true [] false [];
   mkHopParams Method_GET (lit "https://a.com/home") [mkHeader (lit "cookie") (lit "sid=7") 0] [] true [] false []].

Lemma session_cookie_isolation_witness :
  exists s' r,
    session_chain [] [] [] login_server login_clock 10 0 login_session login_req = Some (s', login_hops, r) /\
    exists cs, cs <> [] /\ Some (lit "sid=7") = Some (intercalate (lit "; ") (cookie_pair <$> cs)) /\
      Forall (fun c => rfc_sent (url_parse (lit "https://a.com/home")) c) cs.
Proof.
  assert (E : exists s' r, session_chain [] [] [] login_server login_clock 10 0 login_session login_req =
    Some (s', login_hops, r)) by (eexists _, _; vm_compute; reflexivity).
  destruct E as (s' & r & E). exists s', r. split; [exact E|].
  destruct (session_cookie_isolation [] [] [] login_server login_clock 10 0 login_session login_req s' login_hops r) as [_ H].
  - apply jar_inv_init.
  - intros (h & Hin & _). vm_compute in Hin. by apply not_elem_of_nil in Hin.
  - exact E.
  - destruct (H [mkHopParams Method_POST (lit "https://a.com/login") [] (lit "user=u") true [] false []]
      (mkHopParams Method_GET (lit "https://a.com/home") [mkHeader (lit "cookie") (lit "sid=7") 0] [] true [] false []) [] eq_refl)
      as (cs & _ & Hcs & _ & Hv & _).
    exists cs. assert (Hne : cs <> []) by (intros ->; revert Hv; vm_compute; discriminate). split; [exact Hne|]. split.
    + assert (Eb : bool_decide (cs = []) = false) by (by apply bool_decide_false). rewrite Eb in Hv.
      refine (eq_trans (eq_trans (eq_sym _) Hv) _); vm_compute; reflexivity.
    + apply Forall_forall. intros c (_ & _ & Hc)%Hcs. exact Hc.
Defined.
