(* ===== verification/OriginCache.v ===== *)
(** * Per-origin caches of the client: core/client.c

    Three fixed tables keyed by "host:port": the Alt-Svc cache (32 entries),
    the ECH config cache (32) and the TLS resumption cache (64). Each is the
    list of its used entries. The three share the way a slot is claimed: the
    entry of the origin, a fresh one while there is room, else the entry of
    least rank (expiry, or time of last use) is recycled. The loop clock
    ([uv_now]) is an argument; TLS sessions are values of a type parameter,
    and BoringSSL's [SSL_SESSION_copy_without_early_data] is a parameter. *)
From S2P Require Import Prelude String8 AltSvc.

(** [MemoryCopy(e->origin, origin.str, n); e->origin[n] = 0;] into a buffer of
    256 bytes, read back as a C string. *)
Definition store_origin (origin : bytes) : bytes :=
  str8_cstring (take (Nat.min (length origin) 255) origin ++ [0]).

Section table.
Context {E : Type} (key : E -> bytes) (rank : E -> Z).

Fixpoint find_entry (l : list E) (origin : bytes) : option nat :=
  match l with
  | [] => None
  | e :: l' => if str8_match origin (key e) then Some 0%nat else S <$> find_entry l' origin
  end.

(** [for (i = 1; ...) if (v[i].rank < e->rank) e = &v[i];] *)
Fixpoint argmin_loop (l : list E) (i best : nat) (best_rank : Z) : nat :=
  match l with
  | [] => best
  | e :: l' => if rank e <? best_rank then argmin_loop l' (S i) i (rank e)
               else argmin_loop l' (S i) best best_rank
  end.
Definition argmin (l : list E) : nat :=
  match l with [] => 0%nat | e :: l' => argmin_loop l' 1 0 (rank e) end.

(** The slot of an origin; a claimed slot holds [fresh]. *)
Definition claim_slot (cap : nat) (l : list E) (origin : bytes) (fresh : E) : list E * nat :=
  match find_entry l origin with
  | Some i => (l, i)
  | None =>
      if (length l <? cap)%nat then (l ++ [fresh], length l)
      else (<[argmin l := fresh]> l, argmin l)
  end.

End table.

(** ** Alt-Svc *)
Record AltSvcEntry := mkAltEntry {
  ae_origin : bytes;
  ae_h3 : bool;
  ae_expiry_ms : Z
}.
Definition ALT_SVC_CAP : nat := 32.

Definition client_note_alt_svc (cache : list AltSvcEntry) (origin value : bytes) (now : Z) : list AltSvcEntry :=
  let info := alt_svc_parse value in
  if negb (as_h3 info) then cache
  else
    let expiry := wrap64 (now + wrap64 (as_ma_seconds info * 1000)) in
    let '(cache, i) := claim_slot ae_origin ae_expiry_ms ALT_SVC_CAP cache origin
                         (mkAltEntry (store_origin origin) true expiry) in
    alter (fun e => mkAltEntry (ae_origin e) true expiry) i cache.

Fixpoint client_h3_available (cache : list AltSvcEntry) (origin : bytes) (now : Z) : bool :=
  match cache with
  | [] => false
  | e :: cache' =>
      if ae_h3 e && str8_match origin (ae_origin e) then now <? ae_expiry_ms e
      else client_h3_available cache' origin now
  end.

(** ** ECH configs *)
Record EchConfigEntry := mkEch {
  ee_origin : bytes;
  ee_config : bytes;      (* config[0 .. config_len) *)
  ee_expiry_ms : Z
}.
Definition ECH_CACHE_CAP : nat := 32.
Definition ECH_CACHE_TTL_MS : Z := 600000.

Fixpoint ech_cache_get (cache : list EchConfigEntry) (origin : bytes) (now : Z) : option EchConfigEntry :=
  match cache with
  | [] => None
  | e :: cache' =>
      if str8_match origin (ee_origin e) then (if now <? ee_expiry_ms e then Some e else None)
      else ech_cache_get cache' origin now
  end.
Definition ech_cache_put (cache : list EchConfigEntry) (origin config : bytes) (now : Z) : list EchConfigEntry :=
  let expiry := wrap64 (now + ECH_CACHE_TTL_MS) in
  let '(cache, i) := claim_slot ee_origin ee_expiry_ms ECH_CACHE_CAP cache origin
                       (mkEch (store_origin origin) [] expiry) in
  let config := take (Nat.min (length config) 512) config in
  alter (fun e => mkEch (ee_origin e) config expiry) i cache.

(** ** TLS resumption *)
Section resume.
Context {SSL_SESSION : Type} (copy_without_early_data : SSL_SESSION -> option SSL_SESSION).

Record ResumeCacheEntry := mkResume {
  re_origin : bytes;
  re_session : option SSL_SESSION;
  re_zrtt_tp : bytes;     (* zrtt_tp[0 .. zrtt_tp_len) *)
  re_last_used_ms : Z
}.
Definition RESUME_CACHE_CAP : nat := 64.

Definition touch (now : Z) (e : ResumeCacheEntry) : ResumeCacheEntry :=
  mkResume (re_origin e) (re_session e) (re_zrtt_tp e) now.

Definition resume_cache_get (cache : list ResumeCacheEntry) (origin : bytes) (now : Z) : option SSL_SESSION * list ResumeCacheEntry :=
  match find_entry re_origin cache origin with
  | Some i => (cache !! i ≫= re_session, alter (touch now) i cache)
  | None => (None, cache)
  end.

Definition resume_cache_slot (cache : list ResumeCacheEntry) (origin : bytes) (now : Z) : list ResumeCacheEntry * nat :=
  let '(cache, i) := claim_slot re_origin re_last_used_ms RESUME_CACHE_CAP cache origin
                       (mkResume (store_origin origin) None [] 0) in
  (alter (touch now) i cache, i).

Definition resume_cache_put (cache : list ResumeCacheEntry) (origin : bytes) (session : SSL_SESSION) (now : Z) : list ResumeCacheEntry :=
  let '(cache, i) := resume_cache_slot cache origin now in
  alter (fun e => mkResume (re_origin e) (Some session) (re_zrtt_tp e) (re_last_used_ms e)) i cache.

Definition strip_entry (e : ResumeCacheEntry) : ResumeCacheEntry :=
  mkResume (re_origin e)
    (match re_session e with
     | Some s => match copy_without_early_data s with Some s' => Some s' | None => Some s end
     | None => None
     end) [] (re_last_used_ms e).
Definition resume_cache_strip_early (cache : list ResumeCacheEntry) (origin : bytes) : list ResumeCacheEntry :=
  match find_entry re_origin cache origin with
  | Some i => alter strip_entry i cache
  | None => cache
  end.

Definition resume_cache_put_tp (cache : list ResumeCacheEntry) (origin tp : bytes) (now : Z) : list ResumeCacheEntry :=
  if (RESUME_CACHE_CAP <=? length cache)%nat && negb (bool_decide (is_Some (find_entry re_origin cache origin)))
  then cache
  else
    let '(cache, i) := resume_cache_slot cache origin now in
    alter (fun e => mkResume (re_origin e) (re_session e) (take (Nat.min (length tp) 256) tp) (re_last_used_ms e)) i cache.

Fixpoint resume_cache_tp (cache : list ResumeCacheEntry) (origin : bytes) : option bytes :=
  match cache with
  | [] => None
  | e :: cache' =>
      if str8_match origin (re_origin e) && (0 <? length (re_zrtt_tp e))%nat then Some (re_zrtt_tp e)
      else resume_cache_tp cache' origin
  end.

End resume.
Arguments ResumeCacheEntry : clear implicits.

(** ** Lemmas on tables *)

(** The origins a 256-byte buffer holds. *)
Definition valid_origin (o : bytes) : Prop := (length o <= 255)%nat /\ 0 ∉ o.

Lemma store_origin_valid o : valid_origin o -> store_origin o = o.
Proof.
  intros [Hl Hn]. unfold store_origin, str8_cstring. rewrite Nat.min_l by lia. rewrite firstn_all.
  rewrite scan_until_app_notin by done. simpl. by rewrite Nat.add_0_r, take_app_length.
Qed.

Section lemmas.
Context {E : Type} (key : E -> bytes) (rank : E -> Z).

(** The entry an origin is looked up in. *)
Definition entry_of (l : list E) (o : bytes) : option E := snd <$> list_find (fun e => key e = o) l.

Lemma entry_of_cons e l o : entry_of (e :: l) o = if decide (key e = o) then Some e else entry_of l o.
Proof.
  unfold entry_of. cbn [list_find]. destruct (decide (key e = o)); [done|].
  by destruct (list_find _ l) as [[i e']|].
Qed.

Lemma entry_of_app l1 l2 o :
  entry_of (l1 ++ l2) o = match entry_of l1 o with Some e => Some e | None => entry_of l2 o end.
Proof.
  induction l1 as [|e l1 IH]; [done|]. rewrite <-app_comm_cons, !entry_of_cons. by destruct (decide _).
Qed.

Lemma entry_of_None l o : entry_of l o = None <-> o ∉ (key <$> l).
Proof.
  induction l as [|e l IH]; [split; [intros _; apply not_elem_of_nil|done]|].
  rewrite entry_of_cons, fmap_cons, not_elem_of_cons. destruct (decide (key e = o)); naive_solver.
Qed.

Lemma find_entry_split l o :
  match find_entry key l o with
  | Some i => exists l1 e l2, l = l1 ++ e :: l2 /\ length l1 = i /\ key e = o /\ entry_of l1 o = None
  | None => entry_of l o = None
  end.
Proof.
  induction l as [|e l IH]; [done|]. cbn [find_entry]. destruct (str8_match o (key e)) eqn:Em.
  - apply str8_match_eq in Em. by exists [], e, l.
  - apply str8_match_false in Em. destruct (find_entry key l o) as [i|]; simpl.
    + destruct IH as (l1 & e' & l2 & -> & <- & Hk & Hn). exists (e :: l1), e', l2.
      rewrite entry_of_cons, decide_False by congruence. done.
    + rewrite entry_of_cons, decide_False by congruence. done.
Qed.

Lemma argmin_loop_spec l i best br seen :
  (forall e, e ∈ seen -> br <= rank e) ->
  i = length seen -> (best < i)%nat -> (exists e, seen !! best = Some e /\ rank e = br) ->
  exists e, (seen ++ l) !! argmin_loop rank l i best br = Some e /\
            forall e', e' ∈ seen ++ l -> rank e <= rank e'.
Proof.
  revert i best br seen; induction l as [|x l IH]; intros i best br seen Hle Hi Hb (e & He & Hr); cbn [argmin_loop].
  - rewrite app_nil_r. exists e. split; [done|]. intros e' Hin. rewrite Hr. by apply Hle.
  - assert (Happ : seen ++ x :: l = (seen ++ [x]) ++ l) by by rewrite <-app_assoc. rewrite Happ.
    destruct (Z.ltb_spec (rank x) br).
    + apply IH; [|rewrite length_app; simpl; lia|lia|].
      * intros y [Hy|Hy]%elem_of_app; [apply Hle in Hy; lia|].
        apply list_elem_of_singleton in Hy as ->. lia.
      * exists x. rewrite lookup_app_r, Hi, Nat.sub_diag by lia. done.
    + apply IH; [|rewrite length_app; simpl; lia|lia|].
      * intros y [Hy|Hy]%elem_of_app; [by apply Hle|].
        apply list_elem_of_singleton in Hy as ->. lia.
      * exists e. rewrite lookup_app_l by lia. done.
Qed.

Lemma argmin_spec l : l <> [] ->
  exists e, l !! argmin rank l = Some e /\ forall e', e' ∈ l -> rank e <= rank e'.
Proof.
  destruct l as [|x l]; [done|]. intros _. apply (argmin_loop_spec l 1 0 (rank x) [x]); [|done|lia|by exists x].
  intros e ->%list_elem_of_singleton. lia.
Qed.

Lemma alter_middle (f : E -> E) l1 x l2 : alter f (length l1) (l1 ++ x :: l2) = l1 ++ f x :: l2.
Proof. induction l1 as [|y l1 IH]; simpl; [done|]. f_equal. exact IH. Qed.
Lemma insert_at_middle l1 (x y : E) l2 : <[length l1 := y]> (l1 ++ x :: l2) = l1 ++ y :: l2.
Proof. induction l1 as [|z l1 IH]; simpl; [done|]. f_equal. exact IH. Qed.

(** Replacing the entry in the middle of a table with unique keys. *)
Lemma replace_keys l1 e e' l2 :
  NoDup (key <$> l1 ++ e :: l2) -> key e' = key e \/ (key e' ∉ (key <$> l1 ++ e :: l2)) ->
  NoDup (key <$> l1 ++ e' :: l2).
Proof.
  rewrite !fmap_app, !fmap_cons. intros Hnd [->|Hk]; [done|].
  rewrite elem_of_app, elem_of_cons in Hk.
  apply NoDup_app in Hnd as (H1 & H2 & [H3 H4]%NoDup_cons).
  apply NoDup_app. split; [done|]. split; [|apply NoDup_cons; split; [tauto|done]].
  intros x Hx [->|Hx2]%elem_of_cons; [tauto|]. apply (H2 x Hx). by right.
Qed.

(** What claiming and updating the slot of an origin does to the table. *)
Definition lost (cap : nat) (l : list E) (o o' : bytes) : Prop :=
  entry_of l o = None /\ length l = cap /\
  exists e, entry_of l o' = Some e /\ forall e', e' ∈ l -> rank e <= rank e'.

Lemma upsert_spec cap l o fresh upd :
  (0 < cap)%nat -> key fresh = o -> (forall e, key (upd e) = key e) ->
  NoDup (key <$> l) -> (length l <= cap)%nat ->
  let '(l', i) := claim_slot key rank cap l o fresh in
  let l2 := alter upd i l' in
  NoDup (key <$> l2) /\ (length l2 <= cap)%nat /\
  entry_of l2 o = Some (upd (default fresh (entry_of l o))) /\
  forall o', o' <> o -> entry_of l2 o' = entry_of l o' \/ (entry_of l2 o' = None /\ lost cap l o o').
Proof.
  intros Hcap Hf Hu Hnd Hl. unfold claim_slot. pose proof (find_entry_split l o) as Hs.
  destruct (find_entry key l o) as [i|].
  - destruct Hs as (l1 & e & l2 & -> & <- & Hk & Hn). rewrite alter_middle. split.
    { eapply replace_keys; [exact Hnd|]. left. apply Hu. }
    rewrite !length_app in *. split; [simpl in *; lia|]. split.
    + rewrite !entry_of_app, Hn, !entry_of_cons, !decide_True by (rewrite ?Hu; done). done.
    + intros o' Ho. left. rewrite !entry_of_app, !entry_of_cons, !decide_False by (rewrite ?Hu; congruence). done.
  - assert (Hno : key fresh ∉ (key <$> l)) by (rewrite Hf; by apply entry_of_None).
    destruct (Nat.ltb_spec (length l) cap) as [Hlt|Hge].
    + rewrite alter_middle. split.
      { rewrite fmap_app. apply NoDup_app. split; [done|]. split; [|apply NoDup_singleton].
        intros x Hx Hx2%list_elem_of_singleton. rewrite Hu in Hx2. by subst x. }
      rewrite length_app. split; [simpl; lia|]. split.
      * rewrite entry_of_app, Hs, entry_of_cons, decide_True by by rewrite Hu. done.
      * intros o' Ho. left. rewrite entry_of_app, entry_of_cons, decide_False by (rewrite Hu; congruence).
        by destruct (entry_of l o').
    + assert (Hne : l <> []) by (intros ->; simpl in Hge; lia).
      destruct (argmin_spec l Hne) as (e & He & Hmin).
      apply list_elem_of_split_length in He as (l1 & l2 & -> & ->).
      rewrite insert_at_middle, alter_middle. split.
      { eapply replace_keys; [exact Hnd|]. right. by rewrite Hu. }
      rewrite !length_app in *. split; [simpl in *; lia|].
      rewrite entry_of_app, entry_of_cons in Hs.
      destruct (entry_of l1 o) eqn:E1; [done|]. destruct (decide (key e = o)); [done|]. split.
      * rewrite entry_of_app, E1, entry_of_cons, decide_True by by rewrite Hu.
        by rewrite entry_of_app, E1, entry_of_cons, decide_False, Hs by done.
      * intros o' Ho. rewrite !entry_of_app, !entry_of_cons.
        rewrite (decide_False (P := key (upd fresh) = o')) by (rewrite Hu; congruence).
        destruct (entry_of l1 o') eqn:E1'; [by left|].
        destruct (decide (key e = o')) as [Ek|Ek]; [|by left]. right. split.
        { apply entry_of_None. rewrite fmap_app, fmap_cons in Hnd.
          apply NoDup_app in Hnd as (_ & _ & [Hn _]%NoDup_cons). by rewrite <-Ek. }
        split; [by rewrite entry_of_app, E1, entry_of_cons, decide_False|].
        split; [rewrite length_app; simpl in *; lia|]. exists e. split; [|done].
        by rewrite entry_of_app, E1', entry_of_cons, decide_True.
Qed.

End lemmas.

(** ** The three caches *)

Definition table_ok {E} (key : E -> bytes) (cap : nat) (l : list E) : Prop :=
  NoDup (key <$> l) /\ (length l <= cap)%nat.

Definition alt_ok (c : list AltSvcEntry) : Prop :=
  table_ok ae_origin ALT_SVC_CAP c /\ Forall (fun e => ae_h3 e = true) c.

Lemma client_h3_available_entry c o now :
  Forall (fun e => ae_h3 e = true) c ->
  client_h3_available c o now =
  match entry_of ae_origin c o with Some e => now <? ae_expiry_ms e | None => false end.
Proof.
  induction 1 as [|e c He _ IH]; [done|]. cbn [client_h3_available]. rewrite He, entry_of_cons, IH. cbn [andb].
  destruct (str8_match o (ae_origin e)) eqn:Em.
  - apply str8_match_eq in Em. by rewrite decide_True.
  - apply str8_match_false in Em. by rewrite decide_False by congruence.
Qed.

Lemma claim_slot_Forall {E} key rank (P : E -> Prop) cap l o fresh :
  Forall P l -> P fresh -> Forall P (fst (claim_slot key rank cap l o fresh)).
Proof.
  intros Hl Hf. unfold claim_slot. destruct (find_entry key l o); [done|].
  destruct (_ <? _)%nat; simpl; [|by apply Forall_insert]. apply Forall_app. split; [done|]. by constructor.
Qed.

Lemma ech_cache_get_entry c o now :
  ech_cache_get c o now =
  match entry_of ee_origin c o with
  | Some e => if now <? ee_expiry_ms e then Some e else None
  | None => None
  end.
Proof.
  induction c as [|e c IH]; [done|]. cbn [ech_cache_get]. rewrite entry_of_cons, IH.
  destruct (str8_match o (ee_origin e)) eqn:Em.
  - apply str8_match_eq in Em. by rewrite decide_True.
  - apply str8_match_false in Em. by rewrite decide_False by congruence.
Qed.

(** ** Properties *)

(** The Alt-Svc cache: after an origin advertised h3 for [ma] seconds, h3
    is available for it exactly until then; the other origins keep their
    answer, except that a full table drops the entry that expires first for a
    new origin. A value that advertises no h3 (the "clear" that revokes an
    advertisement included) leaves the table as it is. *)
Theorem alt_svc_cache_spec (c : list AltSvcEntry) (o v : bytes) (now t : Z) :
  alt_ok c -> valid_origin o ->
  let ma := as_ma_seconds (alt_svc_parse v) in
  0 <= now -> 0 <= ma -> now + ma * 1000 < 2 ^ 64 ->
  let c' := client_note_alt_svc c o v now in
  alt_ok c' /\
  (as_h3 (alt_svc_parse v) = true ->
   client_h3_available c' o t = (t <? now + ma * 1000) /\
   forall o', o' <> o -> client_h3_available c' o' t = client_h3_available c o' t \/
                         lost ae_origin ae_expiry_ms ALT_SVC_CAP c o o') /\
  (as_h3 (alt_svc_parse v) = false -> c' = c).
Proof.
  intros [[Hnd Hl] Hh] Ho ma Hnow Hma Hov c'. unfold c', client_note_alt_svc. fold ma.
  destruct (as_h3 (alt_svc_parse v)); cbn [negb]; [|split; [done|]; split; done].
  assert (Hw : wrap64 (now + wrap64 (ma * 1000)) = now + ma * 1000)
    by (unfold wrap64; rewrite !Z.mod_small by lia; done).
  rewrite Hw. set (expiry := now + ma * 1000) in *. set (fresh := mkAltEntry _ _ _).
  set (upd := fun e => mkAltEntry (ae_origin e) true expiry).
  pose proof (upsert_spec ae_origin ae_expiry_ms ALT_SVC_CAP c o fresh upd
    ltac:(unfold ALT_SVC_CAP; lia) (store_origin_valid o Ho) ltac:(done) Hnd Hl) as Hu.
  pose proof (claim_slot_Forall ae_origin ae_expiry_ms _ ALT_SVC_CAP c o fresh Hh eq_refl) as Hf.
  destruct (claim_slot _ _ _ c o fresh) as [l' i]. cbn [fst] in Hf. cbv zeta in Hu.
  destruct Hu as (Hnd' & Hl' & He & Hoth).
  assert (Hh' : Forall (fun e => ae_h3 e = true) (alter upd i l')) by (apply Forall_alter; done).
  split; [done|]. split; [|done]. intros _.
  split; [rewrite client_h3_available_entry, He by done; done|].
  intros o' Hne. rewrite !client_h3_available_entry by done.
  destruct (Hoth o' Hne) as [->|[_ ?]]; auto.
Qed.

Lemma alt_svc_cache_spec_witness :
  let o := lit "a.com:443" in
  let c := client_note_alt_svc [] o (advert 443 60) 1000 in
  client_h3_available c o 60999 = true /\ client_h3_available c o 61000 = false /\
  client_h3_available (client_note_alt_svc c o (lit "clear") 2000) o 60999 = true.
Proof.
  intros o c. split; [|split; vm_compute; reflexivity].
  refine (eq_trans (proj1 (proj1 (proj2 (alt_svc_cache_spec [] o (advert 443 60) 1000 60999 _ _ _ _ _)) _)) _);
    try (vm_compute; reflexivity); try (vm_compute; discriminate).
  - split; [split; [constructor|simpl; lia]|constructor].
  - split; [simpl; lia|]. apply (bool_decide_unpack _). vm_compute. reflexivity.
Defined.

(** The ECH cache: a resolved config (cut to 512 bytes; empty for "no ECH
    published") is what lookups of its origin return for ten minutes, and
    nothing afterwards; other origins keep theirs unless the full table drops
    the entry that expires first. *)
Theorem ech_cache_spec (c : list EchConfigEntry) (o config : bytes) (now t : Z) :
  table_ok ee_origin ECH_CACHE_CAP c -> valid_origin o ->
  0 <= now -> now + ECH_CACHE_TTL_MS < 2 ^ 64 ->
  let c' := ech_cache_put c o config now in
  table_ok ee_origin ECH_CACHE_CAP c' /\
  ech_cache_get c' o t =
    (if t <? now + ECH_CACHE_TTL_MS then Some (mkEch o (take 512 config) (now + ECH_CACHE_TTL_MS)) else None) /\
  forall o', o' <> o -> ech_cache_get c' o' t = ech_cache_get c o' t \/
                        lost ee_origin ee_expiry_ms ECH_CACHE_CAP c o o'.
Proof.
  intros [Hnd Hl] Ho Hnow Hov c'. unfold c', ech_cache_put.
  assert (Hw : wrap64 (now + ECH_CACHE_TTL_MS) = now + ECH_CACHE_TTL_MS)
    by (unfold wrap64; rewrite Z.mod_small; [done|]; unfold ECH_CACHE_TTL_MS in *; lia).
  assert (Hcfg : take (Nat.min (length config) 512) config = take 512 config)
    by (destruct (Nat.min_spec (length config) 512) as [[? ->]|[? ->]]; [rewrite !take_ge by lia|]; done).
  rewrite Hw, Hcfg. set (expiry := now + ECH_CACHE_TTL_MS) in *. set (fresh := mkEch _ _ _).
  set (upd := fun e => mkEch (ee_origin e) (take 512 config) expiry).
  pose proof (upsert_spec ee_origin ee_expiry_ms ECH_CACHE_CAP c o fresh upd
    ltac:(unfold ECH_CACHE_CAP; lia) (store_origin_valid o Ho) ltac:(done) Hnd Hl) as Hu.
  destruct (claim_slot _ _ _ c o fresh) as [l' i]. cbv zeta in Hu. destruct Hu as (Hnd' & Hl' & He & Hoth).
  split; [done|]. split.
  - rewrite ech_cache_get_entry, He. unfold upd. cbn [ee_expiry_ms].
    assert (Hk : ee_origin (default fresh (entry_of ee_origin c o)) = o).
    { unfold entry_of. destruct (list_find _ c) as [[j e]|] eqn:Ef; simpl.
      - by apply list_find_Some in Ef as (_ & ? & _).
      - by apply store_origin_valid. }
    by rewrite Hk.
  - intros o' Hne. rewrite !ech_cache_get_entry. destruct (Hoth o' Hne) as [->|[_ ?]]; auto.
Qed.

Lemma ech_cache_spec_witness :
  ech_cache_get (ech_cache_put [] (lit "a.com:443") (lit "cfg") 5) (lit "a.com:443") 600004 =
  Some (mkEch (lit "a.com:443") (lit "cfg") 600005).
Proof.
  refine (eq_trans (proj1 (proj2 (ech_cache_spec [] (lit "a.com:443") (lit "cfg") 5 600004 _ _ _ _))) _);
    try (vm_compute; reflexivity); try (vm_compute; discriminate).
  - split; [constructor|simpl; lia].
  - split; [simpl; lia|]. apply (bool_decide_unpack _). vm_compute. reflexivity.
Defined.

Section resume_properties.
Context {SSL_SESSION : Type} (copy_without_early_data : SSL_SESSION -> option SSL_SESSION).
Implicit Types (c : list (ResumeCacheEntry SSL_SESSION)).

Lemma resume_cache_get_entry c o t :
  fst (resume_cache_get c o t) = entry_of re_origin c o ≫= re_session.
Proof.
  unfold resume_cache_get. pose proof (find_entry_split re_origin c o) as Hs.
  destruct (find_entry re_origin c o) as [i|].
  - destruct Hs as (l1 & e & l2 & -> & <- & Hk & Hn). cbn [fst].
    rewrite lookup_app_r, Nat.sub_diag by lia. cbn [lookup list_lookup].
    by rewrite entry_of_app, Hn, entry_of_cons, decide_True.
  - by rewrite Hs.
Qed.

Lemma alter_alter {A} (f g : A -> A) (i : nat) (l : list A) : alter f i (alter g i l) = alter (fun x => f (g x)) i l.
Proof. revert i; induction l as [|x l IH]; intros [|i]; simpl; try done. f_equal. apply IH. Qed.

Lemma resume_slot_upd c o now (upd : ResumeCacheEntry SSL_SESSION -> ResumeCacheEntry SSL_SESSION) :
  table_ok re_origin RESUME_CACHE_CAP c -> valid_origin o -> (forall e, re_origin (upd e) = re_origin e) ->
  let fresh := mkResume (store_origin o) None [] 0 in
  let '(c', i) := resume_cache_slot c o now in
  let c2 := alter upd i c' in
  table_ok re_origin RESUME_CACHE_CAP c2 /\
  entry_of re_origin c2 o = Some (upd (touch now (default fresh (entry_of re_origin c o)))) /\
  forall o', o' <> o -> entry_of re_origin c2 o' = entry_of re_origin c o' \/
    (entry_of re_origin c2 o' = None /\ lost re_origin re_last_used_ms RESUME_CACHE_CAP c o o').
Proof.
  intros [Hnd Hl] Ho Hupd fresh. unfold resume_cache_slot. fold fresh.
  pose proof (upsert_spec re_origin re_last_used_ms RESUME_CACHE_CAP c o fresh
    (fun e => upd (touch now e)) ltac:(unfold RESUME_CACHE_CAP; lia) (store_origin_valid o Ho)
    (fun e => Hupd (touch now e)) Hnd Hl) as Hu.
  destruct (claim_slot _ _ _ c o fresh) as [l' i]. cbv zeta in Hu |- *. rewrite alter_alter.
  destruct Hu as (Hnd' & Hl' & He & Hoth). done.
Qed.

(** What changing the entry found for an origin does to every lookup. *)
Lemma alter_found_entry c o (f : ResumeCacheEntry SSL_SESSION -> ResumeCacheEntry SSL_SESSION) o' :
  (forall e, re_origin (f e) = re_origin e) ->
  entry_of re_origin (match find_entry re_origin c o with Some i => alter f i c | None => c end) o' =
  if decide (o' = o) then f <$> entry_of re_origin c o else entry_of re_origin c o'.
Proof.
  intros Hf. pose proof (find_entry_split re_origin c o) as Hs. destruct (find_entry re_origin c o) as [i|].
  - destruct Hs as (l1 & e & l2 & -> & <- & Hk & Hn).
    rewrite <-(Nat.add_0_r (length l1)), alter_app_r, !entry_of_app, Hn. cbn [alter list_alter].
    rewrite !entry_of_cons, Hf. destruct (decide (o' = o)) as [->|Hne].
    + by rewrite Hn, !decide_True.
    + by rewrite !(decide_False (P := re_origin e = o')) by congruence.
  - destruct (decide (o' = o)) as [->|]; [by rewrite Hs|done].
Qed.

Lemma resume_cache_get_snd c o t :
  snd (resume_cache_get c o t) =
  match find_entry re_origin c o with Some i => alter (touch t) i c | None => c end.
Proof. unfold resume_cache_get. by destruct (find_entry re_origin c o). Qed.

Lemma resume_cache_tp_entry c o : NoDup (re_origin <$> c) ->
  resume_cache_tp c o =
  entry_of re_origin c o ≫= (fun e => if (0 <? length (re_zrtt_tp e))%nat then Some (re_zrtt_tp e) else None).
Proof.
  induction c as [|e c IH]; [done|]. rewrite fmap_cons. intros [Hn Hnd]%NoDup_cons. cbn [resume_cache_tp].
  rewrite entry_of_cons, IH by done. destruct (str8_match o (re_origin e)) eqn:Em.
  - apply str8_match_eq in Em as ->. rewrite decide_True by done. cbn [andb mbind option_bind].
    rewrite (proj2 (entry_of_None _ re_last_used_ms _ _) Hn). by destruct (_ <? _)%nat.
  - apply str8_match_false in Em. by rewrite decide_False by congruence.
Qed.

(** An entry is the one of its origin. *)
Lemma entry_of_origin c o e : entry_of re_origin c o = Some e -> e = mkResume o (re_session e) (re_zrtt_tp e) (re_last_used_ms e).
Proof.
  unfold entry_of. destruct (list_find _ c) as [[j x]|] eqn:E; [|done]. intros [= <-].
  apply list_find_Some in E as (_ & <- & _). by destruct x.
Qed.

Lemma resume_put_entry c o (s : SSL_SESSION) now :
  table_ok re_origin RESUME_CACHE_CAP c -> valid_origin o ->
  let c1 := resume_cache_put c o s now in
  table_ok re_origin RESUME_CACHE_CAP c1 /\
  entry_of re_origin c1 o = Some (mkResume o (Some s) (from_option re_zrtt_tp [] (entry_of re_origin c o)) now) /\
  forall o', o' <> o -> entry_of re_origin c1 o' = entry_of re_origin c o' \/
    (entry_of re_origin c1 o' = None /\ lost re_origin re_last_used_ms RESUME_CACHE_CAP c o o').
Proof.
  intros Hok Ho. unfold resume_cache_put.
  pose proof (resume_slot_upd c o now
    (fun e => mkResume (re_origin e) (Some s) (re_zrtt_tp e) (re_last_used_ms e)) Hok Ho (fun _ => eq_refl)) as H1.
  destruct (resume_cache_slot c o now) as [c' i]. cbv zeta in H1 |- *. destruct H1 as (Hok1 & He1 & Ho1).
  split; [done|]. split; [|done]. rewrite He1. pose proof (store_origin_valid o Ho) as Hso.
  destruct (entry_of re_origin c o) as [e|] eqn:E; [by rewrite (entry_of_origin c o e E)|]. cbn. by rewrite Hso.
Qed.

Lemma resume_put_tp_entry c o (tp : bytes) now :
  table_ok re_origin RESUME_CACHE_CAP c -> valid_origin o ->
  let c2 := resume_cache_put_tp c o tp now in
  table_ok re_origin RESUME_CACHE_CAP c2 /\
  entry_of re_origin c2 o =
    match entry_of re_origin c o with
    | Some e => Some (mkResume o (re_session e) (take 256 tp) now)
    | None => if decide (length c = RESUME_CACHE_CAP) then None else Some (mkResume o None (take 256 tp) now)
    end /\
  forall o', o' <> o -> entry_of re_origin c2 o' = entry_of re_origin c o'.
Proof.
  intros Hok Ho. unfold resume_cache_put_tp.
  pose proof (resume_slot_upd c o now
    (fun e => mkResume (re_origin e) (re_session e) (take (Nat.min (length tp) 256) tp) (re_last_used_ms e))
    Hok Ho (fun _ => eq_refl)) as H2.
  assert (Hcfg : take (Nat.min (length tp) 256) tp = take 256 tp)
    by (destruct (Nat.min_spec (length tp) 256) as [[? ->]|[? ->]]; [rewrite !take_ge by lia|]; done).
  pose proof (find_entry_split re_origin c o) as Hs. pose proof (store_origin_valid o Ho) as Hso.
  destruct (resume_cache_slot c o now) as [c' i]. cbv zeta in H2 |- *. destruct H2 as (Hok2 & He2 & Ho2).
  destruct (find_entry re_origin c o) as [j|] eqn:Ef.
  - destruct Hs as (l1 & e & l2 & Hc & _ & Hk & Hn).
    assert (He : entry_of re_origin c o = Some e) by (rewrite Hc, entry_of_app, Hn, entry_of_cons; by apply decide_True).
    rewrite He in *. rewrite bool_decide_true, andb_false_r by done. split; [done|]. split.
    + rewrite He2, Hcfg. cbn. by rewrite Hk.
    + intros o' Hne. destruct (Ho2 o' Hne) as [?|[_ (? & _)]]; [done|congruence].
  - rewrite Hs in *. rewrite bool_decide_false by apply is_Some_None. rewrite andb_true_r. destruct Hok as [Hnd Hl].
    destruct (Nat.leb_spec RESUME_CACHE_CAP (length c)) as [Hge|Hlt].
    + rewrite decide_True by lia. done.
    + rewrite decide_False by lia. split; [done|]. split; [rewrite He2, Hcfg; cbn; by rewrite Hso|].
      intros o' Hne. destruct (Ho2 o' Hne) as [?|[_ (_ & ? & _)]]; [done|lia].
Qed.

(** C36. The resumption cache. Caching a ticket makes it the one offered for its
    origin, keeps the origin's transport parameters and counts as a use of it
    now; a new origin always gets a slot, and when the table is full the origin
    used least recently loses its entry, and no other. Caching QUIC transport
    parameters stores their first 256 bytes beside the origin's ticket, or in
    a slot of their own while there is one, and never takes another origin's
    entry. A lookup counts as a use of the origin it is for. Dropping 0-RTT for an
    origin replaces its ticket by the copy without early data (the ticket stays
    when the copy fails) and forgets its transport parameters. No operation
    touches another origin's entry but by that eviction. *)
Theorem resume_cache_spec c (o tp : bytes) (s : SSL_SESSION) (now t : Z) :
  table_ok re_origin 64 c -> valid_origin o ->
  let c1 := resume_cache_put c o s now in
  let c2 := resume_cache_put_tp c o tp now in
  let c3 := snd (resume_cache_get c o t) in
  let c4 := resume_cache_strip_early copy_without_early_data c o in
  table_ok re_origin 64 c1 /\ table_ok re_origin 64 c2 /\
  fst (resume_cache_get c1 o t) = Some s /\
  entry_of re_origin c1 o = Some (mkResume o (Some s) (from_option re_zrtt_tp [] (entry_of re_origin c o)) now) /\
  entry_of re_origin c2 o =
    match entry_of re_origin c o with
    | Some e => Some (mkResume o (re_session e) (take 256 tp) now)
    | None => if decide (length c = 64%nat) then None else Some (mkResume o None (take 256 tp) now)
    end /\
  (tp <> [] -> entry_of re_origin c o <> None -> resume_cache_tp c2 o = Some (take 256 tp)) /\
  fst (resume_cache_get c2 o t) = fst (resume_cache_get c o t) /\
  entry_of re_origin c3 o = (fun e => mkResume o (re_session e) (re_zrtt_tp e) t) <$> entry_of re_origin c o /\
  entry_of re_origin c4 o =
    (fun e => mkResume o ((fun s0 => default s0 (copy_without_early_data s0)) <$> re_session e) [] (re_last_used_ms e))
      <$> entry_of re_origin c o /\
  (forall o', o' <> o ->
     (entry_of re_origin c1 o' = entry_of re_origin c o' \/
      (entry_of re_origin c1 o' = None /\ entry_of re_origin c o = None /\ length c = 64%nat /\
       exists e', entry_of re_origin c o' = Some e' /\ forall e, e ∈ c -> re_last_used_ms e' <= re_last_used_ms e)) /\
     entry_of re_origin c2 o' = entry_of re_origin c o' /\
     entry_of re_origin c3 o' = entry_of re_origin c o' /\
     entry_of re_origin c4 o' = entry_of re_origin c o').
Proof.
  intros Hok Ho c1 c2 c3 c4. change 64%nat with RESUME_CACHE_CAP in *.
  pose proof (fun o' => alter_found_entry c o (touch t) o' (fun _ => eq_refl)) as Hget.
  pose proof (fun o' => alter_found_entry c o (strip_entry copy_without_early_data) o' (fun _ => eq_refl)) as Hstrip.
  rewrite <-resume_cache_get_snd in Hget.
  pose proof (resume_put_entry c o s now Hok Ho) as (Hok1 & He1 & Ho1).
  pose proof (resume_put_tp_entry c o tp now Hok Ho) as (Hok2 & He2 & Ho2).
  fold c1 in Hok1, He1, Ho1. fold c2 in Hok2, He2, Ho2.
  rewrite !resume_cache_get_entry, resume_cache_tp_entry, He1, He2 by apply Hok2.
  unfold c3, c4. rewrite Hget. unfold resume_cache_strip_early. rewrite Hstrip. rewrite !(decide_True (P := o = o)) by done.
  split_and!; try done.
  - intros Htp Hne. destruct (entry_of re_origin c o); [|done]. cbn [mbind option_bind re_zrtt_tp].
    rewrite (proj2 (Nat.ltb_lt _ _)); [done|]. rewrite length_take. destruct tp; [done|]. cbn [length]. lia.
  - destruct (entry_of re_origin c o); [done|]. by destruct (decide _).
  - destruct (entry_of re_origin c o) as [e|] eqn:E; [|done]. by rewrite (entry_of_origin c o e E) at 1.
  - destruct (entry_of re_origin c o) as [e|] eqn:E; [|done]. cbn [fmap option_fmap option_map]. unfold strip_entry.
    rewrite (entry_of_origin c o e E). cbn. f_equal. f_equal. destruct (re_session e) as [s0|]; [|done]. cbn.
    by destruct (copy_without_early_data s0).
  - intros o' Hne. rewrite Hget, Hstrip, !decide_False by done. split_and!; [exact (Ho1 o' Hne)|exact (Ho2 o' Hne)|done|done].
Qed.

End resume_properties.

Lemma resume_cache_spec_witness :
  fst (resume_cache_get (resume_cache_put [] (lit "a.com:443") 7 5) (lit "a.com:443") 9) = Some 7.
Proof.
  refine (proj1 (proj2 (proj2 (resume_cache_spec (fun s => Some s) [] (lit "a.com:443") (lit "tp") 7 5 9 _ _)))).
  - split; [constructor|simpl; lia].
  - split; [simpl; lia|]. apply (bool_decide_unpack _). vm_compute. reflexivity.
Defined.
