(* ===== verification/DnsCache.v ===== *)
(** * The DNS cache: net/dns_cache.c

    A table of 256 slots from host names to resolved addresses; a slot whose
    expiry is 0 is empty. Host names are C strings (lists without NUL), an
    address is its bytes. *)
From S2P Require Import Prelude String8 OriginCache.

Definition DNS_CACHE_CAP : nat := 256.

Record DnsCacheEntry := mkDns {
  de_host : bytes;
  de_addr : bytes;        (* addr[0 .. addr_len) *)
  de_expiry_ms : Z
}.
Record DnsCache := mkDnsCache {
  dc_v : list DnsCacheEntry;
  dc_ttl_ms : Z
}.

Definition dns_cache_init (ttl_ms : Z) : DnsCache :=
  mkDnsCache (replicate DNS_CACHE_CAP (mkDns [] [] 0)) ttl_ms.

Definition dns_host_eq (a b : bytes) : bool := str8_match_ci (str8_cstring a) (str8_cstring b).

(** The first slot that satisfies a test. *)
Fixpoint first_slot (p : DnsCacheEntry -> bool) (v : list DnsCacheEntry) : option nat :=
  match v with
  | [] => None
  | e :: v' => if p e then Some 0%nat else S <$> first_slot p v'
  end.
Definition dns_live (host : bytes) (e : DnsCacheEntry) : bool :=
  negb (de_expiry_ms e =? 0) && dns_host_eq (de_host e) host.
Definition free_entry (e : DnsCacheEntry) : DnsCacheEntry := mkDns (de_host e) (de_addr e) 0.

Definition dns_cache_get (dc : DnsCache) (host : bytes) (now_ms : Z) : option bytes * DnsCache :=
  if dc_ttl_ms dc =? 0 then (None, dc)
  else
    match first_slot (dns_live host) (dc_v dc) with
    | Some i =>
        match dc_v dc !! i with
        | Some e =>
            if de_expiry_ms e <=? now_ms
            then (None, mkDnsCache (alter free_entry i (dc_v dc)) (dc_ttl_ms dc))
            else (Some (de_addr e), dc)
        | None => (None, dc)
        end
    | None => (None, dc)
    end.

(** The slot [dns_cache_put] writes. *)
Definition dns_slot (v : list DnsCacheEntry) (host : bytes) (now_ms : Z) : nat :=
  match first_slot (dns_live host) v with
  | Some i => i
  | None =>
      match first_slot (fun e => (de_expiry_ms e =? 0) || (de_expiry_ms e <=? now_ms)) v with
      | Some i => i
      | None => argmin de_expiry_ms v
      end
  end.
Definition dns_cache_put (dc : DnsCache) (host addr : bytes) (now_ms : Z) : DnsCache :=
  if (dc_ttl_ms dc =? 0) || (length addr =? 0)%nat || (128 <? length addr)%nat then dc
  else
    let slot := dns_slot (dc_v dc) host now_ms in
    mkDnsCache (<[slot := mkDns (store_origin (str8_cstring host)) addr (wrap64 (now_ms + dc_ttl_ms dc))]> (dc_v dc))
      (dc_ttl_ms dc).

Definition dns_cache_evict (dc : DnsCache) (host : bytes) : DnsCache :=
  match first_slot (dns_live host) (dc_v dc) with
  | Some i => mkDnsCache (alter free_entry i (dc_v dc)) (dc_ttl_ms dc)
  | None => dc
  end.

(** ** Lookups on the table *)

(** The entry of a host: the first used slot of that name. *)
Definition used_for (h : bytes) (e : DnsCacheEntry) : Prop := de_expiry_ms e <> 0 /\ lower (de_host e) = lower h.
#[export] Instance used_for_dec h e : Decision (used_for h e).
Proof. unfold used_for. apply _. Defined.
Definition dns_entry (v : list DnsCacheEntry) (h : bytes) : option DnsCacheEntry := snd <$> list_find (used_for h) v.

Definition dns_ok (v : list DnsCacheEntry) : Prop :=
  length v = DNS_CACHE_CAP /\ Forall (fun e => c_string (de_host e)) v /\
  NoDup (lower ∘ de_host <$> filter (fun e => de_expiry_ms e <> 0) v).

Lemma dns_live_used h e : c_string h -> c_string (de_host e) -> dns_live h e = bool_decide (used_for h e).
Proof.
  intros Hh He. apply Bool.eq_iff_eq_true. unfold dns_live, used_for, dns_host_eq.
  rewrite !cstring_id, bool_decide_eq_true, andb_true_iff, negb_true_iff, Z.eqb_neq, str8_match_ci_eq by done. done.
Qed.

Lemma dns_entry_cons e v h : dns_entry (e :: v) h = if decide (used_for h e) then Some e else dns_entry v h.
Proof.
  unfold dns_entry. cbn [list_find]. destruct (decide (used_for h e)); [done|].
  by destruct (list_find _ v) as [[i e']|].
Qed.

Lemma dns_entry_app v1 v2 h :
  dns_entry (v1 ++ v2) h = match dns_entry v1 h with Some e => Some e | None => dns_entry v2 h end.
Proof.
  induction v1 as [|e v1 IH]; [done|]. rewrite <-app_comm_cons, !dns_entry_cons. by destruct (decide _).
Qed.

Lemma dns_entry_None v h : dns_entry v h = None <-> lower h ∉ (lower ∘ de_host <$> filter (fun e => de_expiry_ms e <> 0) v).
Proof.
  induction v as [|e v IH]; [split; [intros _; apply not_elem_of_nil|done]|].
  rewrite dns_entry_cons, filter_cons. unfold used_for. destruct (decide (de_expiry_ms e <> 0)) as [Hn|Hn].
  - rewrite fmap_cons, not_elem_of_cons. destruct (decide _) as [[_ E]|E]; simpl; naive_solver.
  - rewrite decide_False by tauto. exact IH.
Qed.

Lemma first_slot_split (p : DnsCacheEntry -> bool) v :
  match first_slot p v with
  | Some i => exists v1 e v2, v = v1 ++ e :: v2 /\ length v1 = i /\ p e = true /\ Forall (fun x => p x = false) v1
  | None => Forall (fun x => p x = false) v
  end.
Proof.
  induction v as [|e v IH]; [constructor|]. cbn [first_slot]. destruct (p e) eqn:Ep.
  - by exists [], e, v.
  - destruct (first_slot p v) as [i|]; simpl.
    + destruct IH as (v1 & e' & v2 & -> & <- & Hp & Hf). exists (e :: v1), e', v2. repeat split; try done. by constructor.
    + by constructor.
Qed.

Lemma dns_live_none v h :
  c_string h -> Forall (fun e => c_string (de_host e)) v -> Forall (fun x => dns_live h x = false) v -> dns_entry v h = None.
Proof.
  intros Hh Hc Hf. induction Hf as [|e v He _ IH]; [done|]. apply Forall_cons_iff in Hc as [Hce Hc].
  rewrite dns_entry_cons. rewrite dns_live_used in He by done. apply bool_decide_eq_false in He.
  rewrite decide_False by done. by apply IH.
Qed.

(** The answer of a lookup at time [t]. *)
Lemma dns_cache_get_entry dc h t :
  dns_ok (dc_v dc) -> c_string h -> dc_ttl_ms dc <> 0 ->
  fst (dns_cache_get dc h t) =
  match dns_entry (dc_v dc) h with
  | Some e => if de_expiry_ms e <=? t then None else Some (de_addr e)
  | None => None
  end.
Proof.
  intros (_ & Hc & _) Hh Ht. unfold dns_cache_get. rewrite (proj2 (Z.eqb_neq _ _)) by done.
  pose proof (first_slot_split (dns_live h) (dc_v dc)) as Hs.
  destruct (first_slot (dns_live h) (dc_v dc)) as [i|].
  - destruct Hs as (v1 & e & v2 & E & <- & Hp & Hf). rewrite E in *.
    rewrite list_lookup_middle by done. apply Forall_app in Hc as [Hc1 Hc2]. apply Forall_cons_iff in Hc2 as [Hce _].
    rewrite dns_entry_app, (dns_live_none v1), dns_entry_cons by done.
    rewrite dns_live_used in Hp by done. apply bool_decide_eq_true in Hp. rewrite decide_True by done.
    by destruct (_ <=? _).
  - by rewrite (dns_live_none (dc_v dc)).
Qed.

Abbreviation live_names v := (lower ∘ de_host <$> filter (fun e => de_expiry_ms e <> 0) v).

Lemma live_names_app v1 v2 : live_names (v1 ++ v2) = live_names v1 ++ live_names v2.
Proof. by rewrite filter_app, fmap_app. Qed.

Lemma live_names_cons e v :
  live_names (e :: v) = if decide (de_expiry_ms e <> 0) then lower (de_host e) :: live_names v else live_names v.
Proof. rewrite filter_cons. by destruct (decide _). Qed.

(** Writing an entry for [h] over a slot that is either the slot of [h], or
    any slot when [h] has none. *)
Lemma dns_replace v1 e v2 n h :
  NoDup (live_names (v1 ++ e :: v2)) -> de_expiry_ms n <> 0 -> lower (de_host n) = lower h ->
  dns_entry v1 h = None -> (used_for h e \/ dns_entry (e :: v2) h = None) ->
  NoDup (live_names (v1 ++ n :: v2)) /\ dns_entry (v1 ++ n :: v2) h = Some n /\
  forall h', lower h' <> lower h ->
    dns_entry (v1 ++ n :: v2) h' = dns_entry (v1 ++ e :: v2) h' \/
    (dns_entry (v1 ++ n :: v2) h' = None /\ dns_entry (v1 ++ e :: v2) h' = Some e).
Proof.
  intros Hnd Hn Hh H1 H2. rewrite live_names_app, live_names_cons in Hnd.
  assert (Hv2 : dns_entry v2 h = None).
  { destruct H2 as [[He Hk]|H2].
    - apply dns_entry_None. rewrite decide_True in Hnd by done.
      apply NoDup_app in Hnd as (_ & _ & [Hnin _]%NoDup_cons). by rewrite <-Hk.
    - rewrite dns_entry_cons in H2. by destruct (decide (used_for h e)). }
  assert (Hnd' : NoDup (live_names v1 ++ live_names v2)).
  { destruct (decide (de_expiry_ms e <> 0)); [|done]. apply NoDup_app in Hnd as (Ha & Hb & [_ Hc]%NoDup_cons).
    apply NoDup_app. split; [done|]. split; [|done]. intros x Hx Hx2. apply (Hb x Hx). by right. }
  split; [|split].
  - rewrite live_names_app, live_names_cons, decide_True by done. rewrite Hh.
    apply NoDup_app in Hnd' as (Ha & Hb & Hc). apply NoDup_app. split; [done|]. split.
    + intros x Hx [->|Hx2]%elem_of_cons; [|by apply (Hb x)]. by apply dns_entry_None in H1.
    + apply NoDup_cons. split; [by apply dns_entry_None|done].
  - by rewrite dns_entry_app, H1, dns_entry_cons, decide_True.
  - intros h' Hne. rewrite !dns_entry_app, !dns_entry_cons.
    rewrite (decide_False (P := used_for h' n)) by (unfold used_for; intros [_ ?]; congruence).
    destruct (dns_entry v1 h') eqn:E1; [by left|].
    destruct (decide (used_for h' e)) as [[He Hk]|]; [|by left]. right. split; [|done].
    apply dns_entry_None. rewrite decide_True in Hnd by done.
    apply NoDup_app in Hnd as (_ & _ & [Hnin _]%NoDup_cons). by rewrite <-Hk.
Qed.

(** The slot that is written. *)
Lemma dns_slot_split v h now :
  dns_ok v -> c_string h ->
  exists v1 e v2, v = v1 ++ e :: v2 /\ dns_slot v h now = length v1 /\ dns_entry v1 h = None /\
    (used_for h e \/ dns_entry (e :: v2) h = None) /\
    (used_for h e \/ de_expiry_ms e <= now \/ de_expiry_ms e = 0 \/
     ((forall x, x ∈ v -> now < de_expiry_ms x /\ de_expiry_ms e <= de_expiry_ms x) /\ dns_entry v h = None)).
Proof.
  intros (Hlen & Hc & _) Hh. unfold dns_slot.
  pose proof (first_slot_split (dns_live h) v) as H1. destruct (first_slot (dns_live h) v) as [i|].
  { destruct H1 as (v1 & e & v2 & -> & <- & Hp & Hf). apply Forall_app in Hc as [Hc1 Hc2].
    apply Forall_cons_iff in Hc2 as [Hce _]. rewrite dns_live_used in Hp by done. apply bool_decide_eq_true in Hp.
    exists v1, e, v2. split; [done|]. split; [done|]. split; [by apply dns_live_none|]. auto. }
  assert (Hnone : dns_entry v h = None) by by apply dns_live_none.
  assert (Hsplit : forall v1 e v2, v = v1 ++ e :: v2 -> dns_entry v1 h = None /\ dns_entry (e :: v2) h = None).
  { intros v1 e v2 ->. rewrite dns_entry_app in Hnone. by destruct (dns_entry v1 h). }
  pose proof (first_slot_split (fun e => (de_expiry_ms e =? 0) || (de_expiry_ms e <=? now)) v) as H2.
  destruct (first_slot _ v) as [i|].
  { destruct H2 as (v1 & e & v2 & E & <- & Hp & _). destruct (Hsplit _ _ _ E) as [? ?].
    exists v1, e, v2. split; [done|]. split; [done|]. split; [done|]. split; [auto|].
    apply orb_true_iff in Hp as [Hp|Hp]; bool_props; auto. }
  destruct (argmin_spec de_host de_expiry_ms v) as (e & He & Hmin); [by intros ->|].
  apply list_elem_of_split_length in He as (v1 & v2 & E & El). destruct (Hsplit _ _ _ E) as [? ?].
  exists v1, e, v2. split; [done|]. split; [done|]. split; [done|]. split; [auto|]. right; right; right.
  split; [|done]. intros x Hx. rewrite Forall_forall in H2. pose proof (H2 x Hx) as Hx2. cbv beta in Hx2.
  bool_props. split; [lia|by apply Hmin].
Qed.

(** ** Properties *)

(** The DNS cache: an address stored for a host is what lookups of that
    host (in any case) return for the configured time and not afterwards, also
    when it replaces an older one; at any later time other hosts get the answer
    they got before, except that a table full of live entries drops the one
    that expires first; the table keeps its size and one entry per host. *)
Theorem dns_cache_put_get (dc : DnsCache) (h addr : bytes) (now t : Z) :
  dns_ok (dc_v dc) -> c_string h -> (length h <= 255)%nat -> (0 < length addr <= 128)%nat ->
  0 < dc_ttl_ms dc -> 0 <= now -> now + dc_ttl_ms dc < 2 ^ 64 -> now <= t ->
  let dc' := dns_cache_put dc h addr now in
  dns_ok (dc_v dc') /\
  fst (dns_cache_get dc' h t) = (if t <? now + dc_ttl_ms dc then Some addr else None) /\
  forall h', c_string h' -> lower h' <> lower h ->
    fst (dns_cache_get dc' h' t) = fst (dns_cache_get dc h' t) \/
    (dns_entry (dc_v dc) h = None /\
     exists e, dns_entry (dc_v dc) h' = Some e /\
       forall x, x ∈ dc_v dc -> now < de_expiry_ms x /\ de_expiry_ms e <= de_expiry_ms x).
Proof.
  intros Hok Hh Hl Ha Httl Hnow Hov Ht dc'. unfold dc', dns_cache_put.
  rewrite (proj2 (Z.eqb_neq _ _)), (proj2 (Nat.eqb_neq _ _)), (proj2 (Nat.ltb_ge _ _)) by lia. cbn [orb].
  rewrite cstring_id, store_origin_valid by done.
  assert (Hw : wrap64 (now + dc_ttl_ms dc) = now + dc_ttl_ms dc) by (unfold wrap64; apply Z.mod_small; lia).
  rewrite Hw. set (n := mkDns h addr (now + dc_ttl_ms dc)).
  destruct (dns_slot_split (dc_v dc) h now Hok Hh) as (v1 & e & v2 & E & -> & H1 & H2 & H3).
  pose proof Hok as (Hlen & Hc & Hnd). rewrite E in *. rewrite insert_at_middle.
  destruct (dns_replace v1 e v2 n h Hnd ltac:(simpl; lia) eq_refl H1 H2) as (Hnd' & He & Hoth).
  assert (Hok' : dns_ok (v1 ++ n :: v2)).
  { split; [|split; [|done]].
    - rewrite length_app in *. simpl in *. done.
    - apply Forall_app in Hc as [Hc1 Hc2]. apply Forall_app. split; [done|].
      apply Forall_cons_iff in Hc2 as [_ Hc2]. by constructor. }
  split; [done|]. split.
  - rewrite dns_cache_get_entry by (done || simpl; lia). cbn [dc_v]. rewrite He. cbn [de_expiry_ms de_addr n].
    destruct (Z.leb_spec (now + dc_ttl_ms dc) t), (Z.ltb_spec t (now + dc_ttl_ms dc)); try lia; done.
  - intros h' Hh' Hne. rewrite !dns_cache_get_entry by (rewrite ?E; done || simpl; lia). cbn [dc_v]. rewrite E.
    destruct (Hoth h' Hne) as [->|[-> Hold]]; [by left|]. rewrite Hold.
    assert (Hu : used_for h' e).
    { unfold dns_entry in Hold. destruct (list_find _ _) as [[j x]|] eqn:Ef; [|done]. simplify_eq/=.
      by apply list_find_Some in Ef as (_ & ? & _). }
    destruct H3 as [[_ ?]|[?|[?|[Hall Hn]]]].
    + exfalso. destruct Hu as [_ ?]. congruence.
    + left. by rewrite (proj2 (Z.leb_le _ _)) by lia.
    + by destruct Hu.
    + right. split; [done|]. by exists e.
Qed.

Lemma dns_cache_put_get_witness :
  fst (dns_cache_get (dns_cache_put (dns_cache_init 60000) (lit "Example.com") [1; 2; 3; 4] 100) (lit "example.COM") 60099)
  = Some [1; 2; 3; 4] /\
  fst (dns_cache_get (dns_cache_put (dns_cache_init 60000) (lit "Example.com") [1; 2; 3; 4] 100) (lit "Example.com") 60100)
  = None.
Proof.
  split; [vm_compute; reflexivity|].
  refine (eq_trans (proj1 (proj2 (dns_cache_put_get (dns_cache_init 60000) (lit "Example.com") [1; 2; 3; 4] 100 60100
    _ _ _ _ _ _ _ _))) _); try done; try (vm_compute; reflexivity); try (vm_compute; discriminate).
  - split; [reflexivity|]. split.
    + apply Forall_replicate. apply not_elem_of_nil.
    + replace (live_names _) with (@nil bytes) by (vm_compute; reflexivity). constructor.
  - apply (bool_decide_unpack _). vm_compute. reflexivity.
  - simpl. lia.
  - simpl. lia.
Defined.

(** Eviction after a failed connect: the host misses until it is resolved
    again, and no other host is affected. *)
Theorem dns_cache_evict_spec (dc : DnsCache) (h : bytes) (t : Z) :
  dns_ok (dc_v dc) -> c_string h -> dc_ttl_ms dc <> 0 ->
  let dc' := dns_cache_evict dc h in
  dns_ok (dc_v dc') /\ fst (dns_cache_get dc' h t) = None /\
  forall h', c_string h' -> lower h' <> lower h -> fst (dns_cache_get dc' h' t) = fst (dns_cache_get dc h' t).
Proof.
  intros Hok Hh Httl dc'. unfold dc', dns_cache_evict. pose proof Hok as (Hlen & Hc & Hnd).
  pose proof (first_slot_split (dns_live h) (dc_v dc)) as Hs.
  destruct (first_slot (dns_live h) (dc_v dc)) as [i|].
  2:{ split; [done|]. split; [|done]. by rewrite dns_cache_get_entry, dns_live_none. }
  destruct Hs as (v1 & e & v2 & E & <- & Hp & Hf).
  assert (Hok' : dns_ok (v1 ++ free_entry e :: v2) /\ dns_entry (v1 ++ free_entry e :: v2) h = None /\
    forall h', lower h' <> lower h -> dns_entry (v1 ++ free_entry e :: v2) h' = dns_entry (v1 ++ e :: v2) h').
  { rewrite E in *. apply Forall_app in Hc as [Hc1 Hc2]. apply Forall_cons_iff in Hc2 as [Hce Hc2].
    rewrite dns_live_used in Hp by done. apply bool_decide_eq_true in Hp as [He Hk].
    rewrite live_names_app, live_names_cons, decide_True in Hnd by done.
    apply NoDup_app in Hnd as (Ha & Hb & [Hx Hy]%NoDup_cons). split; [split|split].
    - rewrite length_app in *. simpl in *. done.
    - split; [apply Forall_app; split; [done|by constructor]|].
      rewrite live_names_app, live_names_cons, decide_False by (simpl; tauto).
      apply NoDup_app. split; [done|]. split; [|done]. intros x Hx1 Hx2. apply (Hb x Hx1). by right.
    - rewrite dns_entry_app, (dns_live_none v1), dns_entry_cons by done.
      rewrite decide_False by (unfold used_for; simpl; tauto). apply dns_entry_None. by rewrite <-Hk.
    - intros h' Hne. rewrite !dns_entry_app, !dns_entry_cons.
      by rewrite !decide_False by (unfold used_for; simpl; intros [? ?]; congruence). }
  rewrite E, alter_middle. destruct Hok' as (Hok' & Hn & Hoth). cbn [dc_v].
  split; [done|]. split; [rewrite dns_cache_get_entry by done; cbn [dc_v]; by rewrite Hn|].
  intros h' Hh' Hne. rewrite !dns_cache_get_entry by (rewrite ?E in Hok |- *; done). cbn [dc_v].
  by rewrite E, Hoth.
Qed.

Lemma dns_cache_evict_spec_witness :
  fst (dns_cache_get (dns_cache_evict (dns_cache_init 60000) (lit "a")) (lit "a") 5) = None.
Proof.
  refine (proj1 (proj2 (dns_cache_evict_spec (dns_cache_init 60000) (lit "a") 5 _ _ _))); [|apply (bool_decide_unpack _); vm_compute; reflexivity|done].
  split; [reflexivity|]. split.
  - apply Forall_replicate. apply not_elem_of_nil.
  - replace (live_names _) with (@nil bytes) by (vm_compute; reflexivity). constructor.
Defined.
