(* ===== verification/CertPin.v ===== *)
(** * Public-key pinning: tls/cert_pin.c

    The pin store is the list of its used slots. X.509 and SHA-256 are
    BoringSSL's: the public key of a certificate, its DER encoding and the hash
    are parameters. A connection's verification is either the library's default
    or the pin check installed by [cert_pin_maybe_enable]; [connection_verify]
    is the decision the handshake takes. *)
From S2P Require Import Prelude String8 Base64.

Definition CERT_PIN_MAX : nat := 32.
Record CertPin := mkPin {
  pin_host : bytes;                 (* char host[256], as a C string *)
  spki_sha256 : bytes;              (* 32 bytes *)
  include_subdomains : bool
}.
Definition CertPinStore := list CertPin.

Definition pin_host_applies (p : CertPin) (host : bytes) : bool :=
  let ph := str8_cstring (pin_host p) in
  if str8_match_ci host ph then true
  else if negb (include_subdomains p) || (length host <=? length ph)%nat then false
  else
    let tail := str8_skip host (length host - length ph) in
    if negb (str8_match_ci tail ph) then false
    else nth (length host - length ph - 1) host 0 =? ch_dot.

Definition cert_pin_add (s : CertPinStore) (host spki_b64 : option bytes) (inc : bool) : bool * CertPinStore :=
  match host, spki_b64 with
  | Some host, Some spki_b64 =>
      if (CERT_PIN_MAX <=? length s)%nat then (false, s)
      else
        let raw := base64_decode (str8_cstring spki_b64) in
        if (length raw =? 32)%nat then
          let n := length (str8_cstring host) in
          let n := if (255 <? n)%nat then 255%nat else n in
          (true, s ++ [mkPin (take n host ++ [0]) raw inc])
        else (false, s)
  | _, _ => (false, s)
  end.

Definition cert_pin_host_has (s : CertPinStore) (host : option bytes) : bool :=
  match host with
  | None => false
  | Some host => let h := str8_cstring host in existsb (fun p => pin_host_applies p h) s
  end.

Definition cert_pin_match (s : CertPinStore) (host spki : option bytes) : bool :=
  match host, spki with
  | Some host, Some spki =>
      let h := str8_cstring host in
      existsb (fun p => pin_host_applies p h && (MemoryCompare (spki_sha256 p) spki 32 =? 0)) s
  | _, _ => false
  end.

Inductive verify_result := ssl_verify_ok | ssl_verify_invalid (alert : Z).
Definition SSL_AD_INTERNAL_ERROR : Z := 80.
Definition SSL_AD_BAD_CERTIFICATE : Z := 42.
Inductive verify_mode := verify_default | verify_pinned (host : bytes).

Section boringssl.
Context {X509 PUBKEY : Type}.
Context (X509_get_X509_PUBKEY : X509 -> option PUBKEY).
Context (i2d_X509_PUBKEY : PUBKEY -> option bytes).
Context (SHA256 : bytes -> bytes).

Definition cert_pin_compute_spki_sha256 (cert : option X509) : option bytes :=
  match cert with
  | None => None
  | Some cert =>
      match X509_get_X509_PUBKEY cert with
      | None => None
      | Some pk =>
          match i2d_X509_PUBKEY pk with
          | None => None
          | Some der => if (length der =? 0)%nat then None else Some (SHA256 der)
          end
      end
  end.

Definition cert_pin_verify_cb (host : option bytes) (s : option CertPinStore) (leaf : option X509) : verify_result :=
  match host, s with
  | Some host, Some s =>
      match leaf with
      | None => ssl_verify_invalid SSL_AD_BAD_CERTIFICATE
      | Some leaf =>
          let ok := match cert_pin_compute_spki_sha256 (Some leaf) with
                    | Some spki => cert_pin_match s (Some host) (Some spki)
                    | None => false
                    end in
          if ok then ssl_verify_ok else ssl_verify_invalid SSL_AD_BAD_CERTIFICATE
      end
  | _, _ => ssl_verify_invalid SSL_AD_INTERNAL_ERROR
  end.

Definition cert_pin_maybe_enable (s : option CertPinStore) (host : option bytes) : verify_mode :=
  match host with
  | None => verify_default
  | Some h =>
      if (length (str8_cstring h) =? 0)%nat then verify_default
      else match s with
           | None => verify_default
           | Some s => if negb (cert_pin_host_has s (Some h)) then verify_default else verify_pinned h
           end
  end.

(** The verdict of a connection to [host] whose library default is [dflt]. *)
Definition connection_verify (s : option CertPinStore) (host : option bytes) (leaf : option X509) (dflt : verify_result) :
    verify_result :=
  match cert_pin_maybe_enable s host with
  | verify_default => dflt
  | verify_pinned h => cert_pin_verify_cb (Some h) s leaf
  end.

End boringssl.

(** ** Which hosts a pin covers *)

Definition covers (p : CertPin) (host : bytes) : Prop :=
  let ph := str8_cstring (pin_host p) in
  lower host = lower ph \/
  (include_subdomains p = true /\ exists label, lower host = label ++ ch_dot :: lower ph).

Lemma pin_host_applies_covers p h : pin_host_applies p h = true <-> covers p h.
Proof.
  unfold pin_host_applies, covers. set (ph := str8_cstring (pin_host p)).
  destruct (str8_match_ci h ph) eqn:Em.
  { apply str8_match_ci_eq in Em. tauto. }
  apply str8_match_ci_false in Em. destruct (include_subdomains p); [|simpl; split; [done|intros [?|[? _]]; done]].
  cbn [negb orb]. destruct (Nat.leb_spec (length h) (length ph)) as [Hl|Hl].
  { split; [done|]. intros [?|[_ [l Hl2]]]; [done|]. apply (f_equal length) in Hl2.
    rewrite length_app in Hl2. simpl in Hl2. rewrite !lower_length in Hl2. lia. }
  rewrite str8_skip_drop. set (k := (length h - length ph - 1)%nat).
  replace (length h - length ph)%nat with (S k) by lia.
  assert (Hk : (k < length h)%nat) by lia.
  destruct (lookup_lt_is_Some_2 h k Hk) as [c Hc].
  assert (Hh : h = take k h ++ c :: drop (S k) h) by by rewrite take_drop_middle.
  rewrite (nth_lookup_Some _ _ _ _ Hc).
  assert (Hlow : lower h = lower (take k h) ++ char_to_lower c :: lower (drop (S k) h)).
  { unfold lower. rewrite Hh at 1. by rewrite fmap_app. }
  destruct (str8_match_ci (drop (S k) h) ph) eqn:Et; cbn [negb].
  - apply str8_match_ci_eq in Et. rewrite Z.eqb_eq. split.
    + intros ->. right. split; [done|]. eexists. rewrite Hlow, Et. done.
    + intros [?|[_ [l El]]]; [done|]. rewrite Hlow, Et in El.
      assert (length (lower (take k h)) = length l).
      { apply (f_equal length) in El. rewrite !length_app in El. simpl in El. lia. }
      apply app_inj_1 in El as [_ El]; [|done]. injection El as El. by apply char_to_lower_dot.
  - apply str8_match_ci_false in Et. split; [done|]. intros [?|[_ [l El]]]; [done|].
    rewrite Hlow in El.
    assert (length (lower (take k h)) = length l).
    { apply (f_equal length) in El. rewrite !length_app in El. simpl in El.
      rewrite !lower_length, length_drop, length_take in *. lia. }
    apply app_inj_1 in El as [_ El]; [|done]. injection El as _ El. done.
Qed.

Definition pins_ok (s : CertPinStore) : Prop :=
  (length s <= CERT_PIN_MAX)%nat /\ Forall (fun p => length (spki_sha256 p) = 32%nat) s.

(** The pin check as a statement about the store. *)
Definition pinned_key (s : CertPinStore) (host digest : bytes) : Prop :=
  exists p, p ∈ s /\ covers p host /\ spki_sha256 p = digest.

Lemma cert_pin_match_spec s h d :
  pins_ok s -> c_string h -> length d = 32%nat ->
  cert_pin_match s (Some h) (Some d) = true <-> pinned_key s h d.
Proof.
  intros [_ Hs] Hh Hd. unfold cert_pin_match, pinned_key. rewrite cstring_id, existsb_exists by done.
  rewrite Forall_forall in Hs. split; intros (p & Hin & Hp).
  - apply list_elem_of_In in Hin. apply andb_true_iff in Hp as [Hp Hc]. apply pin_host_applies_covers in Hp.
    exists p. split; [done|]. split; [done|]. apply Z.eqb_eq, MemoryCompare_eq in Hc; [|rewrite ?Hs; by rewrite ?Hd..].
    rewrite !take_ge in Hc by (rewrite ?Hs; by rewrite ?Hd). done.
  - destruct Hp as [Hp <-]. exists p. split; [by apply list_elem_of_In|]. apply andb_true_iff.
    split; [by apply pin_host_applies_covers|]. by apply Z.eqb_eq, MemoryCompare_eq; rewrite ?Hs.
Qed.

Lemma cert_pin_host_has_spec s h :
  c_string h -> cert_pin_host_has s (Some h) = true <-> exists p, p ∈ s /\ covers p h.
Proof.
  intros Hh. unfold cert_pin_host_has. rewrite cstring_id, existsb_exists by done.
  setoid_rewrite pin_host_applies_covers. by setoid_rewrite list_elem_of_In.
Qed.

(** Adding a pin in the documented format. *)
Lemma cert_pin_add_spec s h d inc :
  pins_ok s -> (length s < CERT_PIN_MAX)%nat -> c_string h -> (length h <= 255)%nat ->
  bytes_ok d -> length d = 32%nat ->
  cert_pin_add s (Some h) (Some (base64_encode d)) inc = (true, s ++ [mkPin (h ++ [0]) d inc]) /\
  pins_ok (s ++ [mkPin (h ++ [0]) d inc]).
Proof.
  intros [Hl Hs] Hc Hh Hlen Hd Hd32. unfold cert_pin_add. rewrite (proj2 (Nat.leb_gt _ _)) by done.
  assert (E : str8_cstring (base64_encode d) = base64_encode d).
  { apply cstring_id. rewrite base64_encode_loop. apply encode_loop_c_string. }
  rewrite E, base64_decode_encode, Hd32 by done. simpl. rewrite cstring_id by done.
  rewrite (proj2 (Nat.ltb_ge _ _)), take_ge by lia. split; [done|]. split.
  - rewrite length_app. simpl. unfold CERT_PIN_MAX in *. lia.
  - apply Forall_app. by split; [|constructor].
Qed.

Lemma pinned_key_snoc s h d inc host k :
  c_string h ->
  pinned_key (s ++ [mkPin (h ++ [0]) d inc]) host k <->
  pinned_key s host k \/ (covers (mkPin h d inc) host /\ k = d).
Proof.
  intros Hh.
  assert (Hcov : covers (mkPin (h ++ [0]) d inc) host <-> covers (mkPin h d inc) host).
  { unfold covers. simpl. by rewrite cstring_terminated, cstring_id by done. }
  unfold pinned_key. split.
  - intros (p & [Hp|Hp]%elem_of_app & Hc & Hk); [left; by exists p|].
    apply list_elem_of_singleton in Hp as ->. right. by rewrite <-Hcov.
  - intros [(p & Hp & Hc & Hk)|[Hc ->]].
    + exists p. split; [|done]. apply elem_of_app. by left.
    + eexists. split; [apply elem_of_app; right; by apply list_elem_of_singleton|]. by rewrite Hcov.
Qed.

(** ** Properties *)

(** C27. Pinning decides. Once a key has been pinned for a host, a connection
    to a host that the pin or an older pin covers is accepted exactly when the
    SHA-256 of the leaf's public key is one of the keys pinned for it, whatever
    the default verification says; a connection to any other host gets the
    default verdict. A pin covers its host in any case and, when asked to, the
    names below it at a label boundary. *)
Theorem cert_pin_enforced {X509 PUBKEY} (get_pk : X509 -> option PUBKEY) (i2d : PUBKEY -> option bytes)
    (sha : bytes -> bytes) (s : CertPinStore) (h d : bytes) (inc : bool) :
  (forall m, length (sha m) = 32%nat) ->
  pins_ok s -> (length s < CERT_PIN_MAX)%nat -> c_string h -> (length h <= 255)%nat ->
  bytes_ok d -> length d = 32%nat ->
  let '(ok, s') := cert_pin_add s (Some h) (Some (base64_encode d)) inc in
  ok = true /\ pins_ok s' /\
  forall host leaf dflt, c_string host -> host <> [] ->
    let verdict := connection_verify get_pk i2d sha (Some s') (Some host) (Some leaf) dflt in
    if bool_decide (cert_pin_host_has s' (Some host) = true)
    then (exists p, p ∈ s' /\ covers p host) /\
         (verdict = ssl_verify_ok \/ verdict = ssl_verify_invalid SSL_AD_BAD_CERTIFICATE) /\
         (verdict = ssl_verify_ok <->
          exists k, cert_pin_compute_spki_sha256 get_pk i2d sha (Some leaf) = Some k /\
            (pinned_key s host k \/ (covers (mkPin h d inc) host /\ k = d)))
    else ~ (exists p, p ∈ s' /\ covers p host) /\ verdict = dflt.
Proof.
  intros Hsha Hok Hc Hh Hl Hd H32. destruct (cert_pin_add_spec s h d inc Hok Hc Hh Hl Hd H32) as [-> Hok'].
  split; [done|]. split; [done|]. intros host leaf dflt Hhost Hne verdict. set (s' := s ++ _) in *.
  case_bool_decide as Hhas; unfold verdict, connection_verify, cert_pin_maybe_enable;
    rewrite cstring_id, (proj2 (Nat.eqb_neq _ _)) by (done || by destruct host).
  - rewrite Hhas. cbn [negb]. split; [by apply cert_pin_host_has_spec|].
    unfold cert_pin_verify_cb. destruct (cert_pin_compute_spki_sha256 _ _ _ _) as [k|] eqn:Ek.
    + assert (Hk : length k = 32%nat).
      { unfold cert_pin_compute_spki_sha256 in Ek. repeat case_match; simplify_eq. apply Hsha. }
      pose proof (cert_pin_match_spec s' host k Hok' Hhost Hk) as Hm.
      assert (Hp : pinned_key s' host k <-> pinned_key s host k \/ (covers (mkPin h d inc) host /\ k = d)).
      { apply pinned_key_snoc; done. }
      destruct (cert_pin_match s' _ _).
      * split; [by left|]. split; [|done]. intros _. exists k. split; [done|]. by apply Hp, Hm.
      * split; [by right|]. split; [done|]. intros (k' & [= <-] & Hx). apply Hp, Hm in Hx. done.
    + split; [by right|]. split; [done|]. by intros (? & ? & _).
  - apply not_true_is_false in Hhas as Hf. rewrite Hf. cbn [negb]. split; [|done].
    by rewrite <-cert_pin_host_has_spec.
Qed.

Definition demo_digest : bytes := replicate 32 7.

Definition demo_sha (m : bytes) : bytes := take 32 (m ++ replicate 32 0).
Definition demo_store : CertPinStore :=
  snd (cert_pin_add [] (Some (lit "example.com")) (Some (base64_encode demo_digest)) true).

Lemma demo_sha_length m : length (demo_sha m) = 32%nat.
Proof. unfold demo_sha. rewrite length_take, length_app, length_replicate. lia. Qed.

Lemma cert_pin_enforced_witness :
  connection_verify (X509 := bytes) Some Some demo_sha
    (Some demo_store) (Some (lit "WWW.Example.com")) (Some demo_digest) (ssl_verify_invalid 48) = ssl_verify_ok /\
  connection_verify (X509 := bytes) Some Some demo_sha
    (Some demo_store) (Some (lit "notexample.com")) (Some demo_digest) (ssl_verify_invalid 48) = ssl_verify_invalid 48.
Proof.
  split; [vm_compute; reflexivity|].
  pose proof (cert_pin_enforced (X509 := bytes) Some Some demo_sha []
    (lit "example.com") demo_digest true demo_sha_length
    ltac:(split; [simpl; unfold CERT_PIN_MAX; lia|constructor]) ltac:(simpl; unfold CERT_PIN_MAX; lia)
    ltac:(apply (bool_decide_unpack _); vm_compute; reflexivity) ltac:(simpl; lia)
    ltac:(apply Forall_replicate; unfold is_byte; lia) eq_refl) as H.
  rewrite (surjective_pairing (cert_pin_add _ _ _ _)) in H. destruct H as (_ & _ & H).
  specialize (H (lit "notexample.com") demo_digest (ssl_verify_invalid 48)
    ltac:(apply (bool_decide_unpack _); vm_compute; reflexivity) ltac:(discriminate)).
  rewrite bool_decide_false in H by (vm_compute; discriminate). exact (proj2 H).
Defined.
