(* ===== verification/Proxy.v ===== *)
(** * Proxy configuration and negotiation framing: net/proxy.c

    The pure layer under the tunnel set-up: the proxy URL, the HTTP CONNECT
    request and the scan of its response, and the SOCKS5 messages of RFC 1928
    and RFC 1929. The fields [host], [user] and [pass] are the C strings the
    fixed buffers hold; a message writer that takes [out] and [cap] returns the
    bytes it wrote, [None] where the code returns 0 for lack of room. *)
From S2P Require Import Prelude String8 Base64.

Inductive ProxyType := ProxyType_None | ProxyType_Http | ProxyType_Https | ProxyType_Socks5.
#[global] Instance ProxyType_eq_dec : EqDecision ProxyType.
Proof. solve_decision. Defined.

Record ProxyConfig := mkProxy {
  px_type : ProxyType;
  px_host : bytes;      (* char host[256] *)
  px_port : Z;
  px_user : bytes;      (* char user[128] *)
  px_pass : bytes       (* char pass[128] *)
}.

Definition proxy_copy_field (cap : nat) (s : bytes) : bytes :=
  let n := if (length s <? cap - 1)%nat then length s else (cap - 1)%nat in
  str8_cstring (take n s ++ [0]).

(** ** The proxy URL *)

Definition proxy_scheme (scheme : bytes) : option (ProxyType * Z) :=
  if str8_match scheme (lit "http") then Some (ProxyType_Http, 80)
  else if str8_match scheme (lit "https") then Some (ProxyType_Https, 443)
  else if str8_match scheme (lit "socks5") || str8_match scheme (lit "socks5h") then Some (ProxyType_Socks5, 1080)
  else None.

(** [[user:pass@]]: the credentials and what follows them. *)
Definition proxy_userinfo (rest : bytes) : bytes * bytes * bytes :=
  match str8_rindex_of rest ch_at with
  | Some at_ =>
      let userinfo := str8_prefix rest at_ in
      let rest := str8_skip rest (at_ + 1) in
      match str8_index_of userinfo ch_colon with
      | Some colon => (proxy_copy_field 128 (str8_prefix userinfo colon),
                       proxy_copy_field 128 (str8_skip userinfo (colon + 1)), rest)
      | None => (proxy_copy_field 128 userinfo, [], rest)
      end
  | None => ([], [], rest)
  end.

Definition proxy_host_port (rest : bytes) (default_port : Z) : option (bytes * Z) :=
  match rest with
  | 91 :: _ =>
      match str8_index_of rest ch_rbrack with
      | None => None
      | Some rb =>
          let host := str8_substr rest 1 rb in
          let after := str8_skip rest (rb + 1) in
          match after with
          | 58 :: _ => Some (host, wrap16 (str8_to_u64 (str8_skip after 1)))
          | _ => Some (host, default_port)
          end
      end
  | _ =>
      match str8_index_of rest ch_colon with
      | Some colon => Some (str8_prefix rest colon, wrap16 (str8_to_u64 (str8_skip rest (colon + 1))))
      | None => Some (rest, default_port)
      end
  end.

Definition proxy_parse (url : bytes) : option ProxyConfig :=
  let sep := str8_find url (lit "://") in
  if sep <? 0 then None
  else
    let scheme := str8_prefix url (Z.to_nat sep) in
    let rest := str8_skip url (Z.to_nat sep + 3) in
    match proxy_scheme scheme with
    | None => None
    | Some (type, default_port) =>
        let rest := match str8_index_of rest ch_slash with
                    | Some slash => str8_prefix rest slash
                    | None => rest
                    end in
        let '(user, pass, rest) := proxy_userinfo rest in
        match proxy_host_port rest default_port with
        | None => None
        | Some (host, port) =>
            if (length host =? 0)%nat || (port =? 0) then None
            else Some (mkProxy type (proxy_copy_field 256 host) port user pass)
        end
    end.

Definition proxy_to_url (p : ProxyConfig) : bytes :=
  let scheme := match px_type p with
                | ProxyType_Http => Some (lit "http")
                | ProxyType_Https => Some (lit "https")
                | ProxyType_Socks5 => Some (lit "socks5")
                | ProxyType_None => None
                end in
  match scheme with
  | None => []
  | Some scheme =>
      let v6 := existsb (fun c => c =? ch_colon) (px_host p) in
      let lb := if v6 then lit "[" else [] in
      let rb := if v6 then lit "]" else [] in
      match px_user p with
      | _ :: _ => scheme ++ lit "://" ++ pct_s (px_user p) ++ lit ":" ++ pct_s (px_pass p) ++ lit "@" ++
                  lb ++ pct_s (px_host p) ++ rb ++ lit ":" ++ pct_u (px_port p)
      | [] => scheme ++ lit "://" ++ lb ++ pct_s (px_host p) ++ rb ++ lit ":" ++ pct_u (px_port p)
      end
  end.

(** ** HTTP CONNECT *)

Definition proxy_hostport (host : bytes) (port : Z) : bytes :=
  match str8_index_of host ch_colon with
  | Some _ => lit "[" ++ pct_s host ++ lit "]:" ++ pct_u port
  | None => pct_s host ++ lit ":" ++ pct_u port
  end.


Definition proxy_http_connect_request (p : ProxyConfig) (target_host : bytes) (target_port : Z) : bytes :=
  let hp := proxy_hostport target_host target_port in
  match px_user p with
  | _ :: _ =>
      let cred := pct_s (px_user p) ++ lit ":" ++ pct_s (px_pass p) in
      let b64 := base64_encode cred in
      lit "CONNECT " ++ pct_s hp ++ lit " HTTP/1.1" ++ crlf ++ lit "Host: " ++ pct_s hp ++
      crlf ++ lit "Proxy-Authorization: Basic " ++ pct_s b64 ++ crlf ++ crlf
  | [] => lit "CONNECT " ++ pct_s hp ++ lit " HTTP/1.1" ++ crlf ++ lit "Host: " ++ pct_s hp ++ crlf ++ crlf
  end.

(** The offset just past the first CR LF CR LF, 0 when there is none. *)
Fixpoint header_block_end (i : nat) (buf : bytes) : nat :=
  match buf with
  | [] => 0%nat
  | c :: buf' =>
      match buf with
      | c0 :: c1 :: c2 :: c3 :: _ =>
          if (c0 =? ch_cr) && (c1 =? ch_nl) && (c2 =? ch_cr) && (c3 =? ch_nl) then (i + 4)%nat
          else header_block_end (S i) buf'
      | _ => 0%nat
      end
  end.

(** [(int)x] of a 64-bit value. *)
Definition to_int (x : Z) : Z :=
  let y := wrap32 x in if y <? 2 ^ 31 then y else y - 2 ^ 32.

Record connect_status := mkStatus { cs_consumed : nat; cs_complete : bool; cs_status : Z }.
Definition proxy_http_response_status (buf : bytes) : connect_status :=
  let end_ := header_block_end 0 buf in
  if (end_ =? 0)%nat then mkStatus 0 false 0
  else
    let line := take end_ buf in
    let status := match str8_index_of line ch_space with
                  | Some sp => to_int (str8_to_u64 (str8_trim_left (str8_skip line (sp + 1))))
                  | None => 0
                  end in
    mkStatus end_ true status.

(** ** SOCKS5 *)

Definition proxy_socks5_greeting (p : ProxyConfig) (cap : nat) : option bytes :=
  let auth := negb (length (px_user p) =? 0)%nat in
  let need := if auth then 4%nat else 3%nat in
  if (cap <? need)%nat then None
  else Some (if auth then [5; 2; 0; 2] else [5; 1; 0]).

Definition proxy_socks5_parse_method (buf : bytes) : option Z :=
  if (length buf <? 2)%nat then None else Some (nth 1 buf 0).

Definition proxy_socks5_userpass (p : ProxyConfig) (cap : nat) : option bytes :=
  let ulen := scan_until (px_user p) 0 in
  let plen := scan_until (px_pass p) 0 in
  if (255 <? ulen)%nat || (255 <? plen)%nat then None
  else
    let need := (3 + ulen + plen)%nat in
    if (cap <? need)%nat then None
    else Some ([1; wrap8 (Z.of_nat ulen)] ++ take ulen (px_user p) ++
               [wrap8 (Z.of_nat plen)] ++ take plen (px_pass p)).

Definition proxy_socks5_parse_userpass_reply (buf : bytes) : option bool :=
  if (length buf <? 2)%nat then None else Some (nth 1 buf 0 =? 0).

Definition port_bytes (port : Z) : bytes := [wrap8 (Z.shiftr port 8); wrap8 (Z.land port 255)].

Definition proxy_socks5_connect_request (target_host : bytes) (target_port : Z) (cap : nat) : option bytes :=
  if (255 <? length target_host)%nat then None
  else
    let need := (4 + 1 + length target_host + 2)%nat in
    if (cap <? need)%nat then None
    else Some ([5; 1; 0; 3; wrap8 (zlen target_host)] ++ target_host ++ port_bytes target_port).

(** Length of an address field by its type. *)
Definition socks5_addr_len (buf : bytes) : option nat :=
  match nth 3 buf 0 with
  | 1 => Some 4%nat
  | 4 => Some 16%nat
  | 3 => if (length buf <? 5)%nat then None else Some (S (Z.to_nat (nth 4 buf 0)))
  | _ => None
  end.

Record socks5_reply := mkReply {
  rp_total : nat;
  rp_ok : bool;
  rp_atyp : Z;
  rp_addr : bytes;      (* the bytes [bnd_addr] points at, up to the port *)
  rp_port : Z
}.
(** [None]: not complete (or malformed); the code returns 0. *)
Definition proxy_socks5_parse_reply (buf : bytes) : option socks5_reply :=
  if (length buf <? 4)%nat then None
  else match socks5_addr_len buf with
  | None => None
  | Some addr_len =>
      let total := (4 + addr_len + 2)%nat in
      if (length buf <? total)%nat then None
      else Some (mkReply total (nth 1 buf 0 =? 0) (nth 3 buf 0) (take addr_len (drop 4 buf))
                   (wrap16 (Z.lor (Z.shiftl (nth (total - 2) buf 0) 8) (nth (total - 1) buf 0))))
  end.

Definition proxy_socks5_udp_associate_request (cap : nat) : option bytes :=
  if (cap <? 10)%nat then None else Some ([5; 3; 0; 1] ++ replicate 6 0).

Definition proxy_socks5_udp_request_header (cap : nat) (atyp : Z) (addr : bytes) (port : Z) : option bytes :=
  let need := (4 + length addr + 2)%nat in
  if (cap <? need)%nat || (negb (atyp =? 1) && negb (atyp =? 4)) then None
  else Some ([0; 0; 0; atyp] ++ addr ++ port_bytes port).

Definition proxy_socks5_udp_header_len (buf : bytes) : nat :=
  if (length buf <? 4)%nat then 0%nat
  else match socks5_addr_len buf with
  | None => 0%nat
  | Some addr_len =>
      let total := (4 + addr_len + 2)%nat in
      if (length buf <? total)%nat then 0%nat else total
  end.

(** ** The URL: lemmas *)

Definition proxy_wf (p : ProxyConfig) : Prop :=
  px_type p <> ProxyType_None /\ 0 < px_port p < 2 ^ 16 /\
  (0 < length (px_host p) <= 255)%nat /\ (length (px_user p) <= 127)%nat /\ (length (px_pass p) <= 127)%nat /\
  c_string (px_host p) /\ c_string (px_user p) /\ c_string (px_pass p) /\
  (ch_slash ∉ px_host p) /\ (ch_slash ∉ px_user p) /\ (ch_slash ∉ px_pass p) /\
  (ch_at ∉ px_host p) /\ (ch_colon ∉ px_user p) /\
  (px_user p = [] -> px_pass p = []) /\
  (if decide (ch_colon ∈ px_host p) then ch_rbrack ∉ px_host p else head (px_host p) <> Some ch_lbrack).
#[global] Instance proxy_wf_dec p : Decision (proxy_wf p).
Proof. unfold proxy_wf, c_string. repeat apply and_dec; try apply _. case_decide; apply _. Defined.

Lemma proxy_copy_field_id cap s : (length s < cap)%nat -> c_string s -> proxy_copy_field cap s = s.
Proof.
  intros Hl Hs. unfold proxy_copy_field.
  assert (E : take (if (length s <? cap - 1)%nat then length s else (cap - 1)%nat) s = s).
  { apply take_ge. destruct (Nat.ltb_spec (length s) (cap - 1)); lia. }
  rewrite E. by apply cstring_terminated.
Qed.

Lemma pct_u_decimal v :
  0 <= v < 2 ^ 32 ->
  Forall (fun c => char_is_digit c = true) (pct_u v) /\ str8_to_u64 (pct_u v) = v.
Proof.
  intros Hv. unfold pct_u, wrap32. rewrite Z.mod_small by lia.
  destruct (str8_from_u64_decimal v 0) as (Hd & Hx & _); [lia|]. split; [done|].
  unfold str8_to_u64. rewrite to_u64_loop_spec, Hx by (unfold U64_MAX; lia). unfold U64_MAX. lia.
Qed.

Lemma pct_u_nonempty v : 0 <= v < 2 ^ 32 -> pct_u v <> [].
Proof.
  intros Hv. unfold pct_u, wrap32. rewrite Z.mod_small by lia. apply str8_from_u64_decimal. lia.
Qed.

Lemma pct_u_notin v c : 0 <= v < 2 ^ 32 -> char_is_digit c = false -> c ∉ pct_u v.
Proof.
  intros Hv Hc Hin. destruct (pct_u_decimal v Hv) as [Hd _]. rewrite Forall_forall in Hd.
  apply Hd in Hin. congruence.
Qed.

#[local] Arguments lit : simpl never.
#[local] Arguments pct_u : simpl never.

(** [host:port] with the brackets [proxy_to_url] adds. *)
Definition host_part (h : bytes) (port : Z) : bytes :=
  if decide (ch_colon ∈ h) then ch_lbrack :: h ++ ch_rbrack :: ch_colon :: pct_u port
  else h ++ ch_colon :: pct_u port.

Lemma proxy_host_port_part h port d :
  h <> [] -> 0 < port < 2 ^ 16 ->
  (if decide (ch_colon ∈ h) then ch_rbrack ∉ h else head h <> Some ch_lbrack) ->
  proxy_host_port (host_part h port) d = Some (h, port).
Proof.
  intros Hne Hp Hh. assert (Hport : wrap16 (str8_to_u64 (pct_u port)) = port).
  { rewrite (proj2 (pct_u_decimal port ltac:(lia))). unfold wrap16. apply Z.mod_small. lia. }
  unfold host_part. destruct (decide (ch_colon ∈ h)) as [Hc|Hc].
  - unfold proxy_host_port.
    change (ch_lbrack :: h ++ ch_rbrack :: ch_colon :: pct_u port)
      with ((ch_lbrack :: h) ++ ch_rbrack :: ch_colon :: pct_u port).
    rewrite str8_index_of_app by (apply not_elem_of_cons; split; [done|done]).
    rewrite !str8_skip_drop. cbn [app].
    change (ch_lbrack :: h ++ ch_rbrack :: ch_colon :: pct_u port)
      with ((ch_lbrack :: h) ++ ch_rbrack :: ch_colon :: pct_u port).
    rewrite (cons_middle ch_rbrack), app_assoc, drop_app_length' by (rewrite length_app; simpl; lia).
    change (drop 1 (ch_colon :: pct_u port)) with (pct_u port). rewrite Hport. f_equal. f_equal.
    rewrite <-app_assoc. rewrite str8_substr_spec by (rewrite ?length_app; simpl; lia). cbn [length app].
    change (drop 1 (ch_lbrack :: ?x)) with x. cbn [drop]. apply take_app_length'. lia.
  - assert (E : proxy_host_port (h ++ ch_colon :: pct_u port) d =
      match str8_index_of (h ++ ch_colon :: pct_u port) ch_colon with
      | Some colon => Some (str8_prefix (h ++ ch_colon :: pct_u port) colon,
                            wrap16 (str8_to_u64 (str8_skip (h ++ ch_colon :: pct_u port) (colon + 1))))
      | None => Some (h ++ ch_colon :: pct_u port, d)
      end).
    { destruct h as [|x h]; [done|]. cbn [app]. unfold proxy_host_port. simpl in Hh.
      destruct (decide (x = 91)) as [->|Hx]; [done|].
      destruct x as [|x|x]; try done. repeat (destruct x as [x|x|]; try done). }
    rewrite E, str8_index_of_app by done. rewrite str8_prefix_take, str8_skip_drop, take_app_length.
    rewrite (cons_middle ch_colon), app_assoc, drop_app_length' by (rewrite length_app; simpl; lia). by rewrite Hport.
Qed.

Lemma proxy_userinfo_creds u pw r :
  u <> [] -> (length u <= 127)%nat -> (length pw <= 127)%nat -> c_string u -> c_string pw ->
  ch_colon ∉ u -> ch_at ∉ r -> proxy_userinfo ((u ++ ch_colon :: pw) ++ ch_at :: r) = (u, pw, r).
Proof.
  intros Hne Hlu Hlp Hu Hp Hcu Hr. unfold proxy_userinfo. rewrite str8_rindex_of_app by done.
  rewrite str8_prefix_take, str8_skip_drop, take_app_length, str8_index_of_app by done.
  rewrite str8_prefix_take, str8_skip_drop, take_app_length.
  rewrite (cons_middle ch_colon u), app_assoc, drop_app_length' by (rewrite length_app; simpl; lia).
  rewrite (cons_middle ch_at _ r), app_assoc, drop_app_length' by (rewrite !length_app; simpl; lia).
  by rewrite !proxy_copy_field_id by (done || lia).
Qed.

Lemma proxy_userinfo_none r : ch_at ∉ r -> proxy_userinfo r = ([], [], r).
Proof. intros H. unfold proxy_userinfo. by rewrite str8_rindex_of_none. Qed.

Lemma host_part_notin c h port :
  0 < port < 2 ^ 16 -> c ∉ h -> c <> ch_lbrack -> c <> ch_rbrack -> c <> ch_colon -> char_is_digit c = false ->
  c ∉ host_part h port.
Proof.
  intros Hp Hh H1 H2 H3 Hd. pose proof (pct_u_notin port c ltac:(lia) Hd).
  unfold host_part. case_decide; rewrite ?not_elem_of_cons, not_elem_of_app, ?not_elem_of_cons; tauto.
Qed.

(** Parsing [scheme://rest]. *)
Lemma proxy_parse_scheme sch rest type def :
  ch_colon ∉ sch -> proxy_scheme sch = Some (type, def) -> ch_slash ∉ rest ->
  proxy_parse (sch ++ lit "://" ++ rest) =
  let '(user, pass, rest) := proxy_userinfo rest in
  match proxy_host_port rest def with
  | None => None
  | Some (host, port) =>
      if (length host =? 0)%nat || (port =? 0) then None
      else Some (mkProxy type (proxy_copy_field 256 host) port user pass)
  end.
Proof.
  intros Hs Hsch Hr. unfold proxy_parse. change (lit "://") with (ch_colon :: [ch_slash; ch_slash]).
  rewrite str8_find_first by done. rewrite (proj2 (Z.ltb_ge _ _)) by lia. rewrite Nat2Z.id.
  rewrite str8_prefix_take, str8_skip_drop, take_app_length, Hsch.
  rewrite app_assoc, drop_app_length' by (rewrite length_app; simpl; lia).
  by rewrite str8_index_of_none.
Qed.

Definition scheme_of (t : ProxyType) : bytes :=
  match t with
  | ProxyType_None => []
  | ProxyType_Http => lit "http"
  | ProxyType_Https => lit "https"
  | ProxyType_Socks5 => lit "socks5"
  end.

Lemma proxy_to_url_shape p :
  proxy_wf p ->
  proxy_to_url p = scheme_of (px_type p) ++ lit "://" ++
    (if decide (px_user p = []) then [] else (px_user p ++ ch_colon :: px_pass p) ++ [ch_at]) ++
    host_part (px_host p) (px_port p).
Proof.
  intros (Ht & _ & _ & _ & _ & Hh & Hu & Hp & _). unfold proxy_to_url, host_part.
  rewrite !pct_s_id by done.
  assert (Hv6 : existsb (fun c => c =? ch_colon) (px_host p) = bool_decide (ch_colon ∈ px_host p)).
  { apply Bool.eq_iff_eq_true. rewrite existsb_exists, bool_decide_eq_true. split.
    - intros (x & Hx & ->%Z.eqb_eq). by apply list_elem_of_In.
    - intros Hx. exists ch_colon. split; [by apply list_elem_of_In|done]. }
  rewrite Hv6. change (lit "[") with [ch_lbrack]. change (lit "]") with [ch_rbrack].
  change (lit ":") with [ch_colon]. change (lit "@") with [ch_at].
  destruct (px_type p); [done|..]; cbv iota; unfold scheme_of;
    (destruct (px_user p) as [|x u]; [rewrite decide_True by done|rewrite decide_False by done]);
    (destruct (decide (ch_colon ∈ px_host p)) as [Hc|Hc];
      [rewrite bool_decide_true by done|rewrite bool_decide_false by done]);
    rewrite <-?app_assoc; cbn [app]; rewrite <-?app_assoc; reflexivity.
Qed.

Lemma scheme_of_spec t : t <> ProxyType_None ->
  exists d, proxy_scheme (scheme_of t) = Some (t, d) /\ ch_colon ∉ scheme_of t.
Proof.
  intros H. destruct t; [done| exists 80 | exists 443 | exists 1080]; (split; [reflexivity|]);
    apply (bool_decide_unpack _); vm_compute; reflexivity.
Qed.

(** ** The CONNECT response: lemmas *)

Definition header_terminator : bytes := crlf ++ crlf.

Lemma header_block_end_spec buf i :
  (exists k, header_block_end i buf = (i + k + 4)%nat /\ occurs_at buf header_terminator k /\
             forall j, (j < k)%nat -> ~ occurs_at buf header_terminator j) \/
  (header_block_end i buf = 0%nat /\ forall j, ~ occurs_at buf header_terminator j).
Proof.
  revert i; induction buf as [|c buf IH]; intros i.
  { right. split; [done|]. intros j Hj%occurs_at_bound. simpl in Hj. lia. }
  destruct buf as [|c1 [|c2 [|c3 r]]].
  1-3: right; split; [done|]; intros j Hj%occurs_at_bound; simpl in Hj; lia.
  set (b := c1 :: c2 :: c3 :: r) in *.
  assert (Hhd : occurs_at (c :: b) header_terminator 0 <-> c = 13 /\ c1 = 10 /\ c2 = 13 /\ c3 = 10).
  { unfold b, occurs_at, header_terminator, crlf. split.
    - intros (pre & post & E & El). destruct pre; [|done]. by simplify_eq/=.
    - intros (-> & -> & -> & ->). by exists [], r. }
  change (header_block_end i (c :: b)) with
    (if (c =? 13) && (c1 =? 10) && (c2 =? 13) && (c3 =? 10) then (i + 4)%nat else header_block_end (S i) b).
  destruct ((c =? 13) && (c1 =? 10) && (c2 =? 13) && (c3 =? 10)) eqn:E.
  - left. exists 0%nat. split; [lia|]. split; [|lia]. apply Hhd. by bool_props.
  - assert (Hno : ~ occurs_at (c :: b) header_terminator 0).
    { rewrite Hhd. intros (-> & -> & -> & ->). done. }
    destruct (IH (S i)) as [(k & -> & Hk & Hmin)|[-> Hn]].
    + left. exists (S k). split; [lia|]. split; [by apply occurs_at_cons|].
      intros [|j] Hj; [done|]. rewrite occurs_at_cons. apply Hmin. lia.
    + right. split; [done|]. intros [|j]; [done|]. by rewrite occurs_at_cons.
Qed.

Lemma occurs_at_take hay needle n k :
  occurs_at (take n hay) needle k <-> occurs_at hay needle k /\ (k + length needle <= Nat.min n (length hay))%nat.
Proof.
  split.
  - intros H. pose proof (occurs_at_bound _ _ _ H) as Hb. rewrite length_take in Hb.
    destruct H as (pre & post & E & El). split; [|lia].
    exists pre, (post ++ drop n hay). split; [|done]. rewrite <-(take_drop n hay) at 1. by rewrite E, <-!app_assoc.
  - intros [(pre & post & -> & <-) Hl]. exists pre, (take (n - length pre - length needle) post). split; [|done].
    rewrite !take_app. f_equal. { apply take_ge. lia. } f_equal. apply take_ge. lia.
Qed.

Lemma header_block_end_take buf n :
  header_block_end 0 (take n buf) =
  if (header_block_end 0 buf <=? n)%nat then header_block_end 0 buf else 0%nat.
Proof.
  destruct (header_block_end_spec buf 0) as [(k & -> & Hk & Hmin)|[-> Hno]].
  - pose proof (occurs_at_bound _ _ _ Hk) as Hb. change (length header_terminator) with 4%nat in Hb.
    destruct (header_block_end_spec (take n buf) 0) as [(k' & -> & Hk' & Hmin')|[-> Hno]].
    + apply occurs_at_take in Hk' as [Hk' Hb']. change (length header_terminator) with 4%nat in Hb'.
      assert (k = k').
      { destruct (lt_eq_lt_dec k k') as [[Hl|]|Hl]; [|done|by destruct (Hmin _ Hl)].
        destruct (Hmin' k Hl). apply occurs_at_take. change (length header_terminator) with 4%nat. split; [done|lia]. }
      subst k'. rewrite (proj2 (Nat.leb_le _ _)) by lia. done.
    + destruct (Nat.leb_spec (0 + k + 4) n); [|done]. destruct (Hno k). apply occurs_at_take.
      change (length header_terminator) with 4%nat. split; [done|lia].
  - destruct (header_block_end_spec (take n buf) 0) as [(k' & -> & Hk' & _)|[-> _]]; [|by destruct n].
    apply occurs_at_take in Hk' as [Hk' _]. by destruct (Hno k').
Qed.

Lemma to_int_id x : 0 <= x < 2 ^ 31 -> to_int x = x.
Proof. intros. unfold to_int, wrap32. rewrite Z.mod_small by lia. by rewrite (proj2 (Z.ltb_lt _ _)) by lia. Qed.

Lemma leading_value_app acc ds r :
  Forall (fun c => char_is_digit c = true) ds ->
  (match r with c :: _ => char_is_digit c = false | [] => True end) ->
  leading_value acc (ds ++ r) = leading_value acc ds.
Proof.
  intros Hd Hr. revert acc. induction Hd as [|c ds Hc _ IH]; intros acc; simpl.
  - destruct r as [|c r]; [done|]. simpl. by rewrite Hr.
  - by rewrite Hc, IH.
Qed.

Lemma trim_left_digit c s : char_is_digit c = true -> str8_trim_left (c :: s) = c :: s.
Proof.
  intros H. simpl. unfold char_is_digit in H. bool_props. unfold ascii_is_space.
  repeat (rewrite (proj2 (Z.eqb_neq c _)) by lia). done.
Qed.

(** An occurrence does not straddle a byte that the needle does not have. *)
Lemma occurs_at_split a c b needle j :
  occurs_at (a ++ c :: b) needle j -> c ∉ needle ->
  occurs_at a needle j \/ occurs_at b needle (j - length a - 1).
Proof.
  intros H Hc. pose proof (occurs_at_bound _ _ _ H) as Hb. rewrite length_app in Hb. simpl in Hb.
  destruct (Nat.le_gt_cases (j + length needle) (length a)) as [Hl|Hl].
  - left. rewrite <-(take_app_length a (c :: b)). apply occurs_at_take. split; [done|]. rewrite length_app. lia.
  - destruct H as (pre & post & E & <-). destruct (Nat.le_gt_cases (length pre) (length a)) as [Hp|Hp].
    + exfalso. apply Hc. apply (list_elem_of_lookup_2 _ (length a - length pre)).
      assert (Hx : (a ++ c :: b) !! length a = Some c) by by apply list_lookup_middle.
      rewrite E, lookup_app_r, lookup_app_l in Hx by lia. done.
    + right. exists (drop (S (length a)) pre), post. split; [|rewrite length_drop; lia].
      apply (f_equal (drop (S (length a)))) in E. rewrite (drop_app_le pre) in E by lia.
      rewrite <-E, (cons_middle c a), app_assoc, drop_app_length' by (rewrite length_app; simpl; lia). done.
Qed.

(** The terminator found lies behind the status line. *)
Lemma header_block_end_behind (pre post : bytes) k :
  (forall j, ~ occurs_at (pre ++ take 3 post) header_terminator j) -> occurs_at post header_terminator k ->
  exists m, header_block_end 0 (pre ++ post) = (length pre + m + 4)%nat /\ occurs_at post header_terminator m.
Proof.
  intros Hno Hk. destruct (header_block_end_spec (pre ++ post) 0) as [(j & -> & Hj & _)|[_ Hn]].
  - destruct (Nat.lt_ge_cases j (length pre)) as [Hl|Hl].
    + exfalso. pose proof (occurs_at_bound _ _ _ Hj) as Hb. apply (Hno j).
      replace (pre ++ take 3 post) with (take (length pre + 3) (pre ++ post)) by (rewrite take_app; f_equal; [apply take_ge; lia|f_equal; lia]).
      apply occurs_at_take. change (length header_terminator) with 4%nat in *. split; [done|lia].
    + exists (j - length pre)%nat. split; [lia|]. destruct Hj as (a & b & E & El).
      exists (drop (length pre) a), b. split; [|rewrite length_drop; lia].
      apply (f_equal (drop (length pre))) in E. rewrite drop_app_length, drop_app_le in E by lia. done.
  - exfalso. apply (Hn (length pre + k)%nat). destruct Hk as (a & b & -> & <-).
    exists (pre ++ a), b. by rewrite <-app_assoc, length_app.
Qed.

Lemma connect_status_line version code reason k :
  ch_space ∉ version -> 0 <= code < 2 ^ 31 -> occurs_at reason header_terminator k ->
  (forall j, ~ occurs_at version header_terminator j) ->
  cs_status (proxy_http_response_status (version ++ ch_space :: pct_u code ++ ch_space :: reason)) = code.
Proof.
  intros Hv Hc Hk Hnv. set (pre := version ++ ch_space :: pct_u code ++ [ch_space]).
  assert (E : version ++ ch_space :: pct_u code ++ ch_space :: reason = pre ++ reason).
  { unfold pre. rewrite <-app_assoc. simpl. by rewrite <-app_assoc. }
  assert (Hsp : forall j, ~ occurs_at (pre ++ take 3 reason) header_terminator j).
  { assert (Hst : ch_space ∉ header_terminator) by (apply (bool_decide_unpack _); vm_compute; reflexivity).
    intros j Hj. unfold pre in Hj. rewrite <-app_assoc in Hj. cbn [app] in Hj.
    apply occurs_at_split in Hj as [Hj|Hj]; [by apply (Hnv j)| |done].
    rewrite <-app_assoc in Hj. cbn [app] in Hj. apply occurs_at_split in Hj as [Hj|Hj]; [| |done].
    - destruct Hj as (a & b & Ep & _). destruct (pct_u_notin code ch_cr ltac:(lia) eq_refl). rewrite Ep.
      apply elem_of_app. right. apply elem_of_cons. by left.
    - apply occurs_at_bound in Hj. rewrite length_take in Hj. change (length header_terminator) with 4%nat in Hj. lia. }
  destruct (header_block_end_behind pre reason k Hsp Hk) as (m & Hm & Ho).
  unfold proxy_http_response_status. rewrite E, Hm, (proj2 (Nat.eqb_neq _ _)) by lia. cbn [cs_status].
  rewrite take_app, (take_ge pre) by lia. unfold pre. rewrite <-app_assoc. cbn [app].
  rewrite str8_index_of_app by done.
  rewrite str8_skip_drop, (cons_middle ch_space version), app_assoc, drop_app_length' by (rewrite length_app; simpl; lia).
  destruct (pct_u_decimal code ltac:(lia)) as [Hd Hval]. rewrite <-app_assoc.
  pose proof (pct_u_nonempty code ltac:(lia)) as Hne.
  destruct (pct_u code) as [|c ds]; [done|]. apply Forall_cons_iff in Hd as [Hc1 Hd2].
  cbn [app]. rewrite trim_left_digit by done. change (c :: ds ++ ?x) with ((c :: ds) ++ x).
  unfold str8_to_u64 in *. rewrite to_u64_loop_spec in * by (unfold U64_MAX; lia).
  rewrite leading_value_app by (by constructor). rewrite Hval. by apply to_int_id.
Qed.

(** ** SOCKS5: lemmas *)

(** An address field: the type and the bytes that encode it. *)
Inductive socks5_addr : Z -> bytes -> Prop :=
| addr_ipv4 a : length a = 4%nat -> socks5_addr 1 a
| addr_ipv6 a : length a = 16%nat -> socks5_addr 4 a
| addr_domain name : (length name <= 255)%nat -> socks5_addr 3 (Z.of_nat (length name) :: name).

Lemma port_bytes_value p :
  0 <= p < 2 ^ 16 ->
  exists hi lo, port_bytes p = [hi; lo] /\ is_byte hi /\ is_byte lo /\ wrap16 (Z.lor (Z.shiftl hi 8) lo) = p.
Proof.
  intros Hp. exists (p / 256), (p mod 256). unfold port_bytes, wrap8, is_byte.
  rewrite shiftr_div by lia. change 255 with (2 ^ 8 - 1). rewrite land_mask by lia. change (2 ^ 8) with 256.
  assert (p / 256 < 256) by (apply Z.div_lt_upper_bound; lia). assert (0 <= p / 256) by (apply Z.div_pos; lia).
  pose proof (Z.mod_pos_bound p 256 ltac:(lia)).
  rewrite Z.mod_small, (Z.mod_small (p mod 256)) by lia. split; [done|]. split; [lia|]. split; [lia|].
  rewrite lor_shiftl_add by lia. change (2 ^ 8) with 256. unfold wrap16.
  replace (p / 256 * 256 + p mod 256) with p by (pose proof (Z.div_mod p 256); lia). apply Z.mod_small. lia.
Qed.

Lemma socks5_addr_len_take x y z atyp addr rest n :
  socks5_addr atyp addr -> (4 + length addr <= n)%nat ->
  socks5_addr_len (take n ([x; y; z; atyp] ++ addr ++ rest)) = Some (length addr).
Proof.
  intros Ha Hn. do 4 (destruct n as [|n]; [simpl in Hn; lia|]). unfold socks5_addr_len.
  inversion Ha as [a Hl|a Hl|name Hl]; subst; cbn [app take nth]; [by rewrite Hl..|].
  simpl in Hn. destruct n as [|n]; [lia|]. simpl. by rewrite Nat2Z.id.
Qed.

(** Too few bytes: the message is not complete. *)
Lemma socks5_addr_len_short x y z atyp addr rest n :
  socks5_addr atyp addr -> (4 <= n)%nat -> (n < 4 + length addr)%nat ->
  match socks5_addr_len (take n ([x; y; z; atyp] ++ addr ++ rest)) with
  | Some l => l = length addr
  | None => True
  end.
Proof.
  intros Ha Hn _. do 4 (destruct n as [|n]; [lia|]). unfold socks5_addr_len.
  inversion Ha as [a Hl|a Hl|name Hl]; subst; cbn [app take nth]; [by rewrite Hl..|].
  destruct n as [|n]; simpl; [done|]. by rewrite Nat2Z.id.
Qed.

Lemma socks5_reply_take (ver rep rsv atyp : Z) (addr : bytes) (port : Z) (tail : bytes) (n : nat) :
  socks5_addr atyp addr -> 0 <= port < 2 ^ 16 ->
  let msg := [ver; rep; rsv; atyp] ++ addr ++ port_bytes port in
  proxy_socks5_parse_reply (take n (msg ++ tail)) =
  if (n <? length msg)%nat then None else Some (mkReply (length msg) (rep =? 0) atyp addr port).
Proof.
  intros Ha Hp msg. destruct (port_bytes_value port Hp) as (hi & lo & Epb & _ & _ & Hv).
  assert (Em : msg ++ tail = [ver; rep; rsv; atyp] ++ addr ++ port_bytes port ++ tail).
  { unfold msg. by rewrite <-!app_assoc. }
  assert (Hlen : length msg = (4 + length addr + 2)%nat).
  { unfold msg. rewrite !length_app, Epb. simpl. lia. }
  unfold proxy_socks5_parse_reply. rewrite length_take, length_app, Em.
  destruct (Nat.ltb_spec n (length msg)) as [Hn|Hn].
  - destruct (Nat.ltb_spec (Nat.min n (length msg + length tail)) 4) as [|H4]; [done|].
    destruct (Nat.lt_ge_cases n (4 + length addr)) as [Hs|Hs].
    + pose proof (socks5_addr_len_short ver rep rsv atyp addr (port_bytes port ++ tail) n Ha ltac:(lia) Hs) as Hx.
      destruct (socks5_addr_len _) as [l|]; [|done]. subst l. rewrite (proj2 (Nat.ltb_lt _ _)) by lia. done.
    + rewrite socks5_addr_len_take by done. rewrite (proj2 (Nat.ltb_lt _ _)) by lia. done.
  - rewrite (proj2 (Nat.ltb_ge _ _)) by lia. rewrite socks5_addr_len_take by (done || lia).
    rewrite (proj2 (Nat.ltb_ge _ _)) by lia. f_equal.
    assert (Et : take n ([ver; rep; rsv; atyp] ++ addr ++ port_bytes port ++ tail) = msg ++ take (n - length msg) tail).
    { rewrite <-Em, take_app, (take_ge msg) by lia. done. }
    rewrite Et. unfold msg. rewrite <-!app_assoc, Epb. cbn [app nth].
    change (drop 4 (_ :: _ :: _ :: _ :: ?x)) with x. rewrite take_app_length.
    replace (4 + length addr + 2 - 2)%nat with (4 + length addr)%nat by lia.
    replace (4 + length addr + 2 - 1)%nat with (4 + S (length addr))%nat by lia.
    cbn [Nat.add nth]. rewrite !app_nth2 by lia.
    replace (length addr - length addr)%nat with 0%nat by lia.
    replace (S (length addr) - length addr)%nat with 1%nat by lia. cbn [nth]. rewrite Hv. f_equal.
    cbn [length]. rewrite length_app. done.
Qed.

Lemma socks5_reply_whole ver rep rsv atyp addr port tail :
  socks5_addr atyp addr -> 0 <= port < 2 ^ 16 ->
  let msg := [ver; rep; rsv; atyp] ++ addr ++ port_bytes port in
  proxy_socks5_parse_reply (msg ++ tail) = Some (mkReply (length msg) (rep =? 0) atyp addr port).
Proof.
  intros Ha Hp msg. pose proof (socks5_reply_take ver rep rsv atyp addr port tail (length (msg ++ tail)) Ha Hp) as H.
  cbv zeta in H. fold msg in H. rewrite take_ge in H by lia. rewrite H.
  by rewrite (proj2 (Nat.ltb_ge _ _)) by (rewrite length_app; lia).
Qed.

(** The two address scans agree on the length. *)
Lemma socks5_udp_len_reply buf :
  proxy_socks5_udp_header_len buf = match proxy_socks5_parse_reply buf with Some r => rp_total r | None => 0%nat end.
Proof.
  unfold proxy_socks5_udp_header_len, proxy_socks5_parse_reply. destruct (_ <? 4)%nat; [done|].
  destruct (socks5_addr_len buf); [|done]. by destruct (_ <? _)%nat.
Qed.

Lemma socks5_udp_len_whole ver rep rsv atyp addr port tail :
  socks5_addr atyp addr -> 0 <= port < 2 ^ 16 ->
  let msg := [ver; rep; rsv; atyp] ++ addr ++ port_bytes port in
  proxy_socks5_udp_header_len (msg ++ tail) = length msg.
Proof. intros Ha Hp msg. unfold msg. by rewrite socks5_udp_len_reply, socks5_reply_whole. Qed.

(** ** Properties *)

(** Proxy URLs round-trip: printing a well-formed configuration (a host
    without '/' or '@', a user without ':', no '/' in the credentials, fields
    within their buffers) and parsing the result gives the configuration back,
    with IPv6 literals bracketed and with a '@' or ':' in the password. *)
Theorem proxy_url_roundtrip (p : ProxyConfig) :
  proxy_wf p -> proxy_parse (proxy_to_url p) = Some p.
Proof.
  intros Hwf. rewrite proxy_to_url_shape by done.
  destruct Hwf as (Ht & Hport & Hhl & Hul & Hpl & Hh & Hu & Hp & Sh & Su & Sp & Ah & Cu & Hnp & Hv6).
  destruct (scheme_of_spec _ Ht) as (d & Hs & Hsc).
  assert (Hne : px_host p <> []) by (destruct (px_host p); [simpl in Hhl; lia|done]).
  pose proof (host_part_notin ch_slash _ _ Hport Sh ltac:(done) ltac:(done) ltac:(done) eq_refl) as Hsl.
  pose proof (host_part_notin ch_at _ _ Hport Ah ltac:(done) ltac:(done) ltac:(done) eq_refl) as Hat.
  rewrite (proxy_parse_scheme _ _ _ _ Hsc Hs).
  2:{ destruct (decide (px_user p = [])); [exact Hsl|]. rewrite !not_elem_of_app, !not_elem_of_cons.
      repeat split; try done; apply not_elem_of_nil. }
  assert (E : proxy_userinfo ((if decide (px_user p = []) then [] else (px_user p ++ ch_colon :: px_pass p) ++ [ch_at]) ++
      host_part (px_host p) (px_port p)) = (px_user p, px_pass p, host_part (px_host p) (px_port p))).
  { destruct (decide (px_user p = [])) as [Hn|Hn].
    - rewrite Hnp, Hn by done. by apply proxy_userinfo_none.
    - rewrite <-app_assoc. cbn [app]. by apply proxy_userinfo_creds. }
  rewrite E, proxy_host_port_part by done.
  rewrite (proj2 (Nat.eqb_neq _ _)), (proj2 (Z.eqb_neq _ _)) by lia. cbn [orb].
  rewrite proxy_copy_field_id by (done || lia). by destruct p.
Qed.

Definition demo_proxy : ProxyConfig :=
  mkProxy ProxyType_Socks5 (lit "2001:db8::1") 1081 (lit "me") (lit "p@ss:w").

Lemma proxy_url_roundtrip_witness :
  proxy_to_url demo_proxy = lit "socks5://me:p@ss:w@[2001:db8::1]:1081" /\
  proxy_parse (proxy_to_url demo_proxy) = Some demo_proxy.
Proof.
  split; [vm_compute; reflexivity|]. apply proxy_url_roundtrip.
  apply (bool_decide_unpack _). vm_compute. reflexivity.
Defined.

(** The CONNECT response is recognised however it is fragmented: on a
    prefix of what the proxy sends the scan waits until the blank line has
    arrived and from then on gives the same answer, which is the offset just
    past the first blank line and, for a status line "version code reason",
    the code. *)
Theorem proxy_connect_response (buf : bytes) :
  (forall n, proxy_http_response_status (take n buf) =
     if cs_complete (proxy_http_response_status buf) && (cs_consumed (proxy_http_response_status buf) <=? n)%nat
     then proxy_http_response_status buf else mkStatus 0 false 0) /\
  (cs_complete (proxy_http_response_status buf) = true <-> exists k, occurs_at buf header_terminator k) /\
  (forall version code reason, ch_space ∉ version -> 0 <= code < 2 ^ 31 ->
     buf = version ++ ch_space :: pct_u code ++ ch_space :: reason ->
     (exists k, occurs_at reason header_terminator k) -> (forall k, ~ occurs_at version header_terminator k) ->
     cs_status (proxy_http_response_status buf) = code).
Proof.
  split; [|split].
  - intros n. unfold proxy_http_response_status. rewrite header_block_end_take.
    destruct (Nat.eqb_spec (header_block_end 0 buf) 0) as [E|E].
    { rewrite E. simpl. by destruct n. }
    cbn [cs_complete cs_consumed andb]. destruct (Nat.leb_spec (header_block_end 0 buf) n) as [Hn|Hn]; [|done].
    rewrite (proj2 (Nat.eqb_neq _ _)) by done. rewrite take_take, Nat.min_l by done. done.
  - unfold proxy_http_response_status. destruct (header_block_end_spec buf 0) as [(k & -> & Hk & _)|[-> Hno]].
    + rewrite (proj2 (Nat.eqb_neq _ _)) by lia. split; [by exists k|done].
    + simpl. split; [done|]. intros [k Hk]. by destruct (Hno k).
  - intros version code reason Hv Hc -> [k Hk] Hnv. by apply connect_status_line with k.
Qed.

Lemma proxy_connect_response_witness :
  proxy_http_response_status (take 30 (lit "HTTP/1.1 407 Nope" ++ crlf ++ lit "X: y" ++ crlf ++ crlf ++ lit "tail")) =
    mkStatus 27 true 407 /\
  proxy_http_response_status (take 26 (lit "HTTP/1.1 407 Nope" ++ crlf ++ lit "X: y" ++ crlf ++ crlf ++ lit "tail")) =
    mkStatus 0 false 0.
Proof.
  split.
  - refine (eq_trans (proj1 (proxy_connect_response _) _) _). vm_compute. reflexivity.
  - refine (eq_trans (proj1 (proxy_connect_response _) _) _). vm_compute. reflexivity.
Defined.

(** SOCKS5 replies are parsed however they are fragmented: a reply with an
    IPv4, IPv6 or domain address, followed by anything, is incomplete until its
    last byte has arrived, and then gives its length, whether the proxy
    succeeded, and the bound address and port. *)
Theorem socks5_reply_incremental (ver rep rsv atyp : Z) (addr : bytes) (port : Z) (tail : bytes) (n : nat) :
  socks5_addr atyp addr -> 0 <= port < 2 ^ 16 ->
  let msg := [ver; rep; rsv; atyp] ++ addr ++ port_bytes port in
  proxy_socks5_parse_reply (take n (msg ++ tail)) =
  if (n <? length msg)%nat then None else Some (mkReply (length msg) (rep =? 0) atyp addr port).
Proof. apply socks5_reply_take. Qed.

Lemma socks5_reply_incremental_witness :
  proxy_socks5_parse_reply (take 10 ([5; 0; 0; 1; 10; 0; 0; 1; 4; 56] ++ [9; 9])) =
  Some (mkReply 10 true 1 [10; 0; 0; 1] 1080).
Proof.
  exact (socks5_reply_incremental 5 0 0 1 [10; 0; 0; 1] 1080 [9; 9] 10 (addr_ipv4 [10; 0; 0; 1] eq_refl) ltac:(lia)).
Defined.

(** SOCKS5 requests carry what they were asked to. The CONNECT request, in
    a buffer with room for it, is read back by the address parser to the target
    host (as a domain name) and port; and a datagram prefixed with the UDP
    request header is stripped back to its payload, the address and port being
    those of the target. *)
Theorem socks5_request_roundtrip (host addr payload : bytes) (port atyp : Z) (cap : nat) :
  0 <= port < 2 ^ 16 -> (length host <= 255)%nat -> (7 + length host <= cap)%nat ->
  socks5_addr atyp addr -> atyp <> 3 -> (6 + length addr <= cap)%nat ->
  (exists req, proxy_socks5_connect_request host port cap = Some req /\
     proxy_socks5_parse_reply req = Some (mkReply (length req) false 3 (zlen host :: host) port)) /\
  (exists hdr, proxy_socks5_udp_request_header cap atyp addr port = Some hdr /\
     drop (proxy_socks5_udp_header_len (hdr ++ payload)) (hdr ++ payload) = payload /\
     proxy_socks5_parse_reply (hdr ++ payload) = Some (mkReply (length hdr) true atyp addr port)).
Proof.
  intros Hp Hh Hc Ha H3 Hc2. split.
  - unfold proxy_socks5_connect_request. rewrite !(proj2 (Nat.ltb_ge _ _)) by lia.
    eexists. split; [reflexivity|]. unfold wrap8. rewrite Z.mod_small by (unfold zlen; lia).
    change ([5; 1; 0; 3; zlen host] ++ host ++ port_bytes port)
      with ([5; 1; 0; 3] ++ (Z.of_nat (length host) :: host) ++ port_bytes port).
    rewrite <-(app_nil_r (_ ++ _ ++ port_bytes port)) at 1.
    by rewrite (socks5_reply_whole 5 1 0 3 (Z.of_nat (length host) :: host) port []) by (done || by constructor).
  - unfold proxy_socks5_udp_request_header. rewrite (proj2 (Nat.ltb_ge _ _)) by lia.
    assert (Hat : negb (atyp =? 1) && negb (atyp =? 4) = false) by (by inversion Ha; subst).
    rewrite Hat. cbn [orb]. eexists. split; [reflexivity|].
    rewrite (socks5_reply_whole 0 0 0 atyp addr port payload), socks5_udp_len_whole by done.
    split; [|done]. apply drop_app_length.
Qed.

Lemma socks5_request_roundtrip_witness :
  proxy_socks5_connect_request (lit "a.b") 443 64 = Some [5; 1; 0; 3; 3; 97; 46; 98; 1; 187] /\
  drop (proxy_socks5_udp_header_len ([0; 0; 0; 1; 10; 0; 0; 1; 1; 187] ++ lit "xyz"))
    ([0; 0; 0; 1; 10; 0; 0; 1; 1; 187] ++ lit "xyz") = lit "xyz".
Proof.
  split; [reflexivity|].
  destruct (socks5_request_roundtrip (lit "a.b") [10; 0; 0; 1] (lit "xyz") 443 1 64) as [_ (hdr & [= <-] & H & _)];
    [lia|simpl; lia|simpl; lia|by constructor|lia|simpl; lia|]. exact H.
Defined.
