(* ===== verification/H1.v ===== *)
(** * The HTTP/1.1 session: h1/h1.c

    One request and one response over a connection. The request goes to the
    transport ([h1_sent] collects what [send_fn] was given); received bytes are
    fed to [h1_session_recv]; the response callback's invocations are collected
    in [h1_out]. picohttpparser is a parameter: [phr_parse_response] with its
    three results, and [phr_decode_chunked] on an abstract decoder state; it
    returns the decoded bytes it leaves at the front of the buffer. *)
From S2P Require Import Prelude String8 U8Buf GrowArr Header.

Definition H1_MAX_HEADERS : nat := 128.
Definition H1_MAX_HEADER_REGION : Z := 64 * 1024.

Inductive phr_result :=
| phr_partial
| phr_error
| phr_done (rc : nat) (minor status : Z) (hdr : list (bytes * bytes)).
Inductive chunk_result := chunk_partial | chunk_error | chunk_done (trailing : nat).

Inductive H1State :=
| H1State_Headers | H1State_BodyLength | H1State_BodyChunked | H1State_BodyClose | H1State_Done | H1State_Error.
#[global] Instance H1State_eq_dec : EqDecision H1State.
Proof. solve_decision. Defined.

Record H1Response := mkH1Response {
  r_status : Z;
  r_headers : HeaderList;
  r_body : bytes;
  r_ok : bool;
  r_keep_alive : bool
}.

Record H1Session {D : Type} := mkH1 {
  h1_cb : bool;                 (* a response callback is set *)
  h1_is_head : bool;
  h1_state : H1State;
  h1_in : U8Buf;
  h1_parsed_off : nat;
  h1_header_end : nat;
  h1_status : Z;
  h1_http_minor : Z;
  h1_headers : HeaderList;
  h1_content_length : Z;
  h1_body : U8Buf;
  h1_chunk_dec : D;
  h1_delivered : bool;
  h1_sent : list bytes;
  h1_out : list H1Response
}.
Arguments H1Session : clear implicits.

Section h1.
Context {D : Type} (chunk_zero : D) (consume_trailer : D -> D).
Context (phr_parse_response : bytes -> nat -> nat -> phr_result).
Context (phr_decode_chunked : D -> bytes -> D * bytes * chunk_result).
Implicit Types s : H1Session D.

Definition h1_session_alloc : H1Session D :=
  mkH1 D false false H1State_Headers (u8buf_init (16 * 1024)) 0 0 0 0 header_list_init 0 (u8buf_init 0)
    chunk_zero false [] [].

Definition set_state (st : H1State) s : H1Session D :=
  mkH1 D (h1_cb s) (h1_is_head s) st (h1_in s) (h1_parsed_off s) (h1_header_end s) (h1_status s) (h1_http_minor s)
    (h1_headers s) (h1_content_length s) (h1_body s) (h1_chunk_dec s) (h1_delivered s) (h1_sent s) (h1_out s).
Definition set_in (b : U8Buf) (off : nat) s : H1Session D :=
  mkH1 D (h1_cb s) (h1_is_head s) (h1_state s) b off (h1_header_end s) (h1_status s) (h1_http_minor s)
    (h1_headers s) (h1_content_length s) (h1_body s) (h1_chunk_dec s) (h1_delivered s) (h1_sent s) (h1_out s).
Definition set_head (status minor : Z) (hend : nat) (hs : HeaderList) s : H1Session D :=
  mkH1 D (h1_cb s) (h1_is_head s) (h1_state s) (h1_in s) (h1_parsed_off s) hend status minor
    hs (h1_content_length s) (h1_body s) (h1_chunk_dec s) (h1_delivered s) (h1_sent s) (h1_out s).
Definition set_length (n : Z) s : H1Session D :=
  mkH1 D (h1_cb s) (h1_is_head s) (h1_state s) (h1_in s) (h1_parsed_off s) (h1_header_end s) (h1_status s) (h1_http_minor s)
    (h1_headers s) n (h1_body s) (h1_chunk_dec s) (h1_delivered s) (h1_sent s) (h1_out s).
Definition set_body (b : U8Buf) (d : D) s : H1Session D :=
  mkH1 D (h1_cb s) (h1_is_head s) (h1_state s) (h1_in s) (h1_parsed_off s) (h1_header_end s) (h1_status s) (h1_http_minor s)
    (h1_headers s) (h1_content_length s) b d (h1_delivered s) (h1_sent s) (h1_out s).

(** ** The request *)

Definition h1_put (b : U8Buf) (x : bytes) : U8Buf := u8buf_append b x.

Fixpoint h1_put_headers (out : U8Buf) (hs : list Header) : U8Buf :=
  match hs with
  | [] => out
  | h :: hs' =>
      if str8_match_ci (h_name h) (lit "host") || str8_match_ci (h_name h) (lit "connection")
      then h1_put_headers out hs'
      else
        let out := h1_put out (h_name h) in
        let out := u8buf_append out (lit ": ") in
        let out := h1_put out (h_value h) in
        let out := u8buf_append out crlf in
        h1_put_headers out hs'
  end.

Definition h1_request_bytes (method authority path : bytes) (hs : list Header) (body : bytes) : bytes :=
  let out := u8buf_init (512 + zlen body) in
  let out := h1_put out method in
  let out := u8buf_push out ch_space in
  let out := h1_put out path in
  let out := u8buf_append out (lit " HTTP/1.1" ++ crlf) in
  let out := u8buf_append out (lit "Host: ") in
  let out := h1_put out authority in
  let out := u8buf_append out crlf in
  let out := h1_put_headers out hs in
  let out := u8buf_append out crlf in
  let out := if (0 <? length body)%nat then u8buf_append out body else out in
  u8_v out.

Definition h1_session_submit_request s (method authority path : bytes) (hs : list Header) (body : bytes)
    (is_head cb : bool) : Z * H1Session D :=
  (0, mkH1 D cb is_head (h1_state s) (h1_in s) (h1_parsed_off s) (h1_header_end s) (h1_status s) (h1_http_minor s)
    (h1_headers s) (h1_content_length s) (h1_body s) (h1_chunk_dec s) (h1_delivered s)
    (h1_sent s ++ [h1_request_bytes method authority path hs body]) (h1_out s)).

(** ** The response *)

Definition h1_compute_keep_alive s : bool :=
  if bool_decide (h1_state s = H1State_BodyClose) then false
  else
    let cn := header_list_value (h1_headers s) (lit "connection") in
    let closes := match cn with Some v => str8_contains_ci v (lit "close") | None => false end in
    if closes then false
    else if 1 <=? h1_http_minor s then true
    else match cn with Some v => str8_contains_ci v (lit "keep-alive") | None => false end.

Definition h1_response s (keep : bool) : H1Response :=
  mkH1Response (h1_status s) (h1_headers s) (u8_v (h1_body s)) (negb (h1_status s =? 0)) keep.

Definition h1_deliver s : H1Session D :=
  if h1_delivered s then s
  else
    let keep := h1_compute_keep_alive s in
    mkH1 D (h1_cb s) (h1_is_head s) H1State_Done (h1_in s) (h1_parsed_off s) (h1_header_end s) (h1_status s)
      (h1_http_minor s) (h1_headers s) (h1_content_length s) (h1_body s) (h1_chunk_dec s) true (h1_sent s)
      (if h1_cb s then h1_out s ++ [h1_response s keep] else h1_out s).

(** [true]: the code returns 0; [false]: -1. *)
Definition h1_feed_chunked s (data : bytes) : bool * H1Session D :=
  if (length data =? 0)%nat then (true, s)
  else
    let decoded_len := length (u8_v (h1_body s)) in
    let body := u8buf_append (h1_body s) data in
    let '(dec, payload, r) := phr_decode_chunked (h1_chunk_dec s) (drop decoded_len (u8_v body)) in
    let s := set_body (mkU8Buf (take decoded_len (u8_v body) ++ payload) (u8_cap body)) dec s in
    match r with
    | chunk_error => (false, s)
    | chunk_done _ => (true, h1_deliver s)
    | chunk_partial => (true, s)
    end.

Definition h1_feed_body s (data : bytes) : bool * H1Session D :=
  match h1_state s with
  | H1State_BodyLength =>
      let need := wrap64 (h1_content_length s - u8_len (h1_body s)) in
      let n := if zlen data <? need then zlen data else need in
      let s := set_body (u8buf_append (h1_body s) (take (Z.to_nat n) data)) (h1_chunk_dec s) s in
      (true, if h1_content_length s <=? u8_len (h1_body s) then h1_deliver s else s)
  | H1State_BodyChunked =>
      let '(ok, s) := h1_feed_chunked s data in
      if ok then (true, s) else (false, set_state H1State_Error s)
  | H1State_BodyClose => (true, set_body (u8buf_append (h1_body s) data) (h1_chunk_dec s) s)
  | _ => (true, s)
  end.

Definition h1_begin_body s : H1Session D :=
  if h1_is_head s || (h1_status s =? 204) || (h1_status s =? 304) || ((100 <=? h1_status s) && (h1_status s <? 200))
  then h1_deliver s
  else
    let te := header_list_value (h1_headers s) (lit "transfer-encoding") in
    if match te with Some v => str8_contains_ci v (lit "chunked") | None => false end
    then set_state H1State_BodyChunked (set_body (h1_body s) (consume_trailer (h1_chunk_dec s)) s)
    else match header_list_value (h1_headers s) (lit "content-length") with
    | Some cl =>
        let s := set_state H1State_BodyLength (set_length (str8_to_u64 cl) s) in
        if h1_content_length s =? 0 then h1_deliver s else s
    | None => set_state H1State_BodyClose s
    end.

Fixpoint h1_copy_headers (hs : HeaderList) (hdr : list (bytes * bytes)) : HeaderList :=
  match hdr with
  | [] => hs
  | (n, v) :: hdr' =>
      if (length n =? 0)%nat then h1_copy_headers hs hdr'
      else h1_copy_headers (header_list_push hs (push_str8_copy n) (push_str8_copy v) 0) hdr'
  end.

(** The result is the return value: [Some] of the bytes consumed, [None] for -1. *)
Definition h1_session_recv s (data : bytes) : option Z * H1Session D :=
  match h1_state s with
  | H1State_Error => (None, s)
  | H1State_Done => (Some (zlen data), s)
  | H1State_Headers =>
      let s := set_in (u8buf_append (h1_in s) data) (h1_parsed_off s) s in
      if H1_MAX_HEADER_REGION <? u8_len (h1_in s) then (None, set_state H1State_Error s)
      else match phr_parse_response (u8_v (h1_in s)) H1_MAX_HEADERS (h1_parsed_off s) with
      | phr_partial => (Some (zlen data), set_in (h1_in s) (length (u8_v (h1_in s))) s)
      | phr_error => (None, set_state H1State_Error s)
      | phr_done rc minor status hdr =>
          let s := set_head status (wrap32 minor) rc (h1_copy_headers (h1_headers s) hdr) s in
          let s := h1_begin_body s in
          if bool_decide (h1_state s = H1State_Done) || bool_decide (h1_state s = H1State_Error)
          then (Some (zlen data), s)
          else
            let extra := drop (h1_header_end s) (u8_v (h1_in s)) in
            if (length extra =? 0)%nat then (Some (zlen data), s)
            else let '(ok, s) := h1_feed_body s extra in
                 (if ok then Some (zlen data) else None, s)
      end
  | _ =>
      let '(ok, s) := h1_feed_body s data in
      (if ok then Some (zlen data) else None, s)
  end.

Definition h1_session_eof s : H1Session D :=
  if h1_delivered s then s
  else if bool_decide (h1_state s = H1State_BodyClose) then h1_deliver s else s.

(** What the transport does with a session: deliveries of received bytes, then
    possibly the end of the stream. *)
Inductive h1_event := h1_data (c : bytes) | h1_end.
Definition h1_step s (e : h1_event) : H1Session D :=
  match e with h1_data c => snd (h1_session_recv s c) | h1_end => h1_session_eof s end.
Definition h1_run s (es : list h1_event) : H1Session D := foldl h1_step s es.

End h1.

(** ** The response a byte stream denotes *)

Inductive framing := NoBody | LengthBody (n : Z) | ChunkedBody | UntilClose.

#[global] Instance framing_eq_dec : EqDecision framing.
Proof. solve_decision. Defined.

Definition header_fields (hdr : list (bytes * bytes)) : list Header :=
  (fun nv => mkHeader nv.1 nv.2 0) <$> filter (fun nv => nv.1 <> []) hdr.

Definition framing_of (is_head : bool) (status : Z) (hs : list Header) : framing :=
  if is_head || bool_decide (status = 204) || bool_decide (status = 304) || bool_decide (100 <= status < 200) then NoBody
  else if match find_value (lit "transfer-encoding") hs with
          | Some v => str8_contains_ci v (lit "chunked") | None => false end then ChunkedBody
  else match find_value (lit "content-length") hs with
       | Some v => LengthBody (str8_to_u64 v)
       | None => UntilClose
       end.

(** RFC 9112 section 9.3: whether the connection persists. *)
Definition persists (f : framing) (minor : Z) (hs : list Header) : bool :=
  match f with
  | UntilClose => false
  | _ =>
      match find_value (lit "connection") hs with
      | Some v => if str8_contains_ci v (lit "close") then false
                  else bool_decide (1 <= minor) || str8_contains_ci v (lit "keep-alive")
      | None => bool_decide (1 <= minor)
      end
  end.

Lemma h1_copy_headers_rep hl l hdr :
  ga_rep hl l -> ga_rep (h1_copy_headers hl hdr) (l ++ header_fields hdr).
Proof.
  revert hl l; induction hdr as [|[n v] hdr IH]; intros hl l Hr; cbn [h1_copy_headers].
  - by rewrite app_nil_r.
  - unfold header_fields in *. destruct n as [|x n]; cbn [length Nat.eqb].
    + rewrite filter_cons_False by (simpl; tauto). by apply IH.
    + rewrite filter_cons_True by done. rewrite fmap_cons, cons_middle, app_assoc.
      apply IH. by apply header_list_push_rep.
Qed.

(** What the code relies on in picohttpparser's chunked decoder: it can be fed
    piecewise, and a verdict is not changed by what follows. *)
Record chunk_decoder_laws {D} (decode : D -> bytes -> D * bytes * chunk_result) : Prop := {
  chunk_more d a d' o b :
    b <> [] -> decode d a = (d', o, chunk_partial) ->
    decode d (a ++ b) = let '(d2, o2, r) := decode d' b in (d2, o ++ o2, r);
  chunk_end d a d' o k b :
    decode d a = (d', o, chunk_done k) -> exists d2 k2, decode d (a ++ b) = (d2, o, chunk_done k2);
  chunk_bad d a d' o b :
    decode d a = (d', o, chunk_error) -> exists d2 o2, decode d (a ++ b) = (d2, o2, chunk_error)
}.

(** And in its response parser: a complete or malformed response stays so
    whatever follows, a complete one is determined by the bytes it consumed, and
    the length of an earlier attempt that was not complete (the [last_len]
    argument) never makes a response complete or keeps one from being so. *)
Record phr_parser_laws (parse : bytes -> nat -> nat -> phr_result) : Prop := {
  phr_empty n : parse [] n 0%nat = phr_partial;
  phr_done_stable b n rc mi st hd t :
    parse b n 0%nat = phr_done rc mi st hd -> (rc <= length b)%nat /\ parse (take rc b ++ t) n 0%nat = phr_done rc mi st hd;
  phr_error_stable b n t : parse b n 0%nat = phr_error -> parse (b ++ t) n 0%nat = phr_error;
  phr_last_len b n t :
    (forall rc mi st hd, parse b n 0%nat <> phr_done rc mi st hd) ->
    match parse (b ++ t) n 0%nat with
    | phr_error => parse (b ++ t) n (length b) = phr_partial \/ parse (b ++ t) n (length b) = phr_error
    | r => parse (b ++ t) n (length b) = r
    end
}.

Section response.
Context {D : Type} (chunk_zero : D) (consume_trailer : D -> D).
Context (phr_decode_chunked : D -> bytes -> D * bytes * chunk_result).
Context (Hdec : chunk_decoder_laws phr_decode_chunked).
Context (is_head : bool) (status minor : Z) (hdr : list (bytes * bytes)).
Implicit Types s : H1Session D.

Let H : HeaderList := h1_copy_headers header_list_init hdr.
Let hs : list Header := header_fields hdr.
Let f : framing := framing_of is_head status hs.
Let d1 : D := consume_trailer chunk_zero.

Definition the_response (body : bytes) : H1Response :=
  mkH1Response status (h1_copy_headers header_list_init hdr) body (negb (status =? 0))
    (persists (framing_of is_head status (header_fields hdr)) minor (header_fields hdr)).

(** The responses delivered once [q] has been received after the headers, and
    whether the stream has ended. *)
Definition responses (q : bytes) (ended : bool) : list H1Response :=
  match framing_of is_head status (header_fields hdr) with
  | NoBody => [the_response []]
  | LengthBody n => if bool_decide (n <= zlen q) then [the_response (take (Z.to_nat n) q)] else []
  | ChunkedBody =>
      match q with
      | [] => []
      | _ => match phr_decode_chunked (consume_trailer chunk_zero) q with
             | (_, o, chunk_done _) => [the_response o]
             | _ => []
             end
      end
  | UntilClose => if ended then [the_response q] else []
  end.

Definition settled s (rs : list H1Response) : Prop :=
  (h1_state s = H1State_Done \/ h1_state s = H1State_Error) /\
  (h1_delivered s = bool_decide (rs <> [])) /\ h1_out s = rs.
Definition reading s (st : H1State) (body : bytes) (d : D) : Prop :=
  h1_state s = st /\ u8_v (h1_body s) = body /\ h1_chunk_dec s = d /\ h1_delivered s = false /\ h1_out s = [].
Definition head_known s : Prop :=
  h1_cb s = true /\ h1_is_head s = is_head /\ h1_status s = status /\ h1_http_minor s = minor /\ h1_headers s = H.

(** The session after the headers and [q]. *)
Definition body_state s (q : bytes) : Prop :=
  match f with
  | NoBody => settled s (responses q false)
  | LengthBody n =>
      if bool_decide (n <= zlen q) then settled s (responses q false)
      else reading s H1State_BodyLength q (h1_chunk_dec s) /\ h1_content_length s = n
  | ChunkedBody =>
      match q with
      | [] => reading s H1State_BodyChunked [] d1
      | _ => match phr_decode_chunked d1 q with
             | (d, o, chunk_partial) => reading s H1State_BodyChunked o d
             | _ => settled s (responses q false)
             end
      end
  | UntilClose => reading s H1State_BodyClose q (h1_chunk_dec s)
  end.

Lemma H_rep : ga_rep H hs.
Proof. apply (h1_copy_headers_rep header_list_init []). apply ga_empty_rep. Qed.

Lemma keep_alive_persists s :
  head_known s -> h1_state s = H1State_BodyClose <-> f = UntilClose ->
  h1_compute_keep_alive s = persists f minor hs.
Proof.
  intros (_ & _ & _ & Hm & Hh) Hst. unfold h1_compute_keep_alive, persists. rewrite Hh, Hm.
  rewrite (header_list_value_rep _ _ _ H_rep).
  case_bool_decide as Hc; [by rewrite (proj1 Hst)|].
  assert (Hf : forall A (x y : A), match f with UntilClose => x | _ => y end = y).
  { intros A x y. destruct f; try done. destruct Hc. by apply Hst. }
  rewrite Hf. destruct (find_value _ hs) as [v|]; [|by case_bool_decide; destruct (Z.leb_spec 1 minor); try lia].
  destruct (str8_contains_ci v (lit "close")); [done|].
  by case_bool_decide; destruct (Z.leb_spec 1 minor); try lia.
Qed.

Lemma deliver_settled s body :
  head_known s -> h1_delivered s = false -> h1_out s = [] -> u8_v (h1_body s) = body ->
  h1_state s = H1State_BodyClose <-> f = UntilClose ->
  settled (h1_deliver s) [the_response body].
Proof.
  intros Hk Hd Ho Hb Hst. unfold h1_deliver, settled. rewrite Hd. cbn [h1_state h1_delivered h1_out].
  split; [by left|]. split; [done|]. rewrite (keep_alive_persists s Hk Hst).
  destruct Hk as (-> & _ & Hs & _ & Hh). rewrite Ho. unfold h1_response, the_response. by rewrite Hs, Hh, Hb.
Qed.

Lemma head_known_deliver s : head_known s -> head_known (h1_deliver s).
Proof. unfold h1_deliver. by destruct (h1_delivered s). Qed.

Lemma to_u64_bound v : 0 <= str8_to_u64 v <= U64_MAX.
Proof.
  unfold str8_to_u64. rewrite to_u64_loop_spec by (unfold U64_MAX; lia).
  pose proof (leading_value_ge 0 v ltac:(lia)). unfold U64_MAX in *. lia.
Qed.

Lemma length_framing n : f = LengthBody n -> 0 <= n <= U64_MAX.
Proof.
  unfold f, framing_of. destruct (is_head || _ || _ || _); [done|]. destruct (match _ with Some _ => _ | None => _ end); [done|].
  destruct (find_value _ _); [|done]. intros [= <-]. apply to_u64_bound.
Qed.

Lemma begin_body_state s :
  head_known s -> reading s H1State_Headers [] chunk_zero ->
  body_state (h1_begin_body consume_trailer s) [] /\ head_known (h1_begin_body consume_trailer s) /\
  h1_state (h1_begin_body consume_trailer s) <> H1State_Headers.
Proof.
  intros Hk (Hst & Hb & Hdc & Hd & Ho).
  assert (Hnc : forall g, f = g -> g <> UntilClose -> h1_state s = H1State_BodyClose <-> f = UntilClose).
  { intros g -> Hg. rewrite Hst. split; [done|]. intros. by destruct Hg. }
  unfold body_state, h1_begin_body, f, framing_of, responses. pose proof Hk as (Hcb & Hih & Hss & Hm & Hh).
  rewrite Hih, Hss, Hh, !(header_list_value_rep _ _ _ H_rep). fold hs.
  assert (Hg : is_head || (status =? 204) || (status =? 304) || ((100 <=? status) && (status <? 200)) =
    is_head || bool_decide (status = 204) || bool_decide (status = 304) || bool_decide (100 <= status < 200)).
  { f_equal; [f_equal; [f_equal|]|]; apply Bool.eq_iff_eq_true;
      rewrite ?andb_true_iff, bool_decide_eq_true, ?Z.eqb_eq, ?Z.leb_le, ?Z.ltb_lt; lia. }
  rewrite Hg. clear Hg. destruct (is_head || _ || _ || _) eqn:E1.
  { assert (Hf : f = NoBody) by (unfold f, framing_of; by rewrite E1).
    split; [|split; [by apply head_known_deliver|]].
    - unfold framing_of. rewrite E1. apply deliver_settled; [done..|]. apply (Hnc NoBody Hf). done.
    - unfold h1_deliver. by rewrite Hd. }
  destruct (match find_value (lit "transfer-encoding") hs with Some _ => _ | None => _ end) eqn:E2.
  { split; [|split; [done|done]]. unfold reading, set_state, set_body, d1. cbn. by rewrite Hdc. }
  destruct (find_value (lit "content-length") hs) as [cl|] eqn:E3; [|done].
  assert (Hf : f = LengthBody (str8_to_u64 cl)) by (unfold f, framing_of; fold hs; by rewrite E1, E2, E3).
  pose proof (length_framing _ Hf) as Hn. cbn [h1_content_length set_state set_length].
  change (zlen []) with 0. destruct (Z.eqb_spec (str8_to_u64 cl) 0) as [E0|E0].
  - rewrite E0 in *. rewrite bool_decide_true by lia. split; [|split; [by apply head_known_deliver|]].
    + unfold framing_of. fold hs. rewrite E1, E2, E3, E0. apply deliver_settled; try done. by rewrite Hf.
    + unfold h1_deliver. cbn [h1_delivered set_state set_length]. by rewrite Hd.
  - rewrite bool_decide_false by lia. done.
Qed.

Lemma settled_feed s rs c : settled s rs -> h1_feed_body phr_decode_chunked s c = (true, s).
Proof. intros [[E|E] _]; unfold h1_feed_body; by rewrite E. Qed.

Lemma head_known_body s b d : head_known s -> head_known (set_body b d s).
Proof. done. Qed.

Lemma feed_length s q c n :
  f = LengthBody n -> zlen q < n -> head_known s -> reading s H1State_BodyLength q (h1_chunk_dec s) ->
  h1_content_length s = n ->
  let s' := snd (h1_feed_body phr_decode_chunked s c) in
  head_known s' /\ body_state s' (q ++ c).
Proof.
  intros Hf Hq Hk (Hst & Hb & _ & Hd & Ho) Hcl s'. pose proof (length_framing n Hf) as Hn. unfold U64_MAX in Hn.
  pose proof (zlen_nonneg q). pose proof (zlen_nonneg c).
  unfold s', h1_feed_body. rewrite Hst. cbv zeta.
  assert (Hul : u8_len (h1_body s) = zlen q) by (unfold u8_len; by rewrite Hb). rewrite Hul, Hcl.
  assert (Hw : wrap64 (n - zlen q) = n - zlen q) by (unfold wrap64; apply Z.mod_small; lia). rewrite Hw.
  set (k := if zlen c <? n - zlen q then zlen c else n - zlen q).
  set (s1 := set_body (u8buf_append (h1_body s) (take (Z.to_nat k) c)) (h1_chunk_dec s) s). cbn [snd].
  assert (Hb1 : u8_v (h1_body s1) = q ++ take (Z.to_nat k) c).
  { unfold s1, set_body. cbn [h1_body]. by rewrite u8buf_append_v, Hb. }
  assert (Hk1 : head_known s1) by done. unfold u8_len. rewrite Hb1, zlen_app.
  change (h1_content_length s1) with (h1_content_length s). rewrite Hcl.
  unfold body_state. rewrite Hf, zlen_app. destruct (Z.ltb_spec (zlen c) (n - zlen q)) as [Hc|Hc].
  - subst k. unfold zlen in Hb1 |- *. rewrite Nat2Z.id, take_ge in Hb1 |- * by lia.
    rewrite (proj2 (Z.leb_gt _ _)), bool_decide_false by (unfold zlen in *; lia).
    split; [done|]. done.
  - subst k. assert (Hlen : zlen (take (Z.to_nat (n - zlen q)) c) = n - zlen q).
    { unfold zlen in *. rewrite length_take. lia. }
    rewrite Hlen, (proj2 (Z.leb_le _ _)), bool_decide_true by lia.
    split; [by apply head_known_deliver|]. unfold responses. fold hs f. rewrite Hf, zlen_app, bool_decide_true by lia.
    apply deliver_settled; try done.
    + rewrite Hb1, take_app, (take_ge q) by (unfold zlen in *; lia). f_equal. f_equal. unfold zlen in *. lia.
    + change (h1_state s1) with (h1_state s). by rewrite Hst, Hf.
Qed.

Lemma feed_chunked s q o d c :
  f = ChunkedBody -> c <> [] -> head_known s -> reading s H1State_BodyChunked o d ->
  (q = [] /\ o = [] /\ d = d1 \/ q <> [] /\ phr_decode_chunked d1 q = (d, o, chunk_partial)) ->
  let s' := snd (h1_feed_body phr_decode_chunked s c) in
  head_known s' /\ body_state s' (q ++ c).
Proof.
  intros Hf Hc Hk (Hst & Hb & Hdc & Hd & Ho) Hq s'.
  assert (Hall : phr_decode_chunked d1 (q ++ c) = let '(d2, o2, r) := phr_decode_chunked d c in (d2, o ++ o2, r)).
  { destruct Hq as [(-> & -> & ->)|[_ Hp]]; [simpl; by destruct (phr_decode_chunked d1 c) as [[? ?] ?]|].
    by apply (chunk_more _ Hdec). }
  unfold s', h1_feed_body, h1_feed_chunked. rewrite Hst, Hdc.
  destruct (Nat.eqb_spec (length c) 0) as [E|_]; [by destruct c|].
  rewrite u8buf_append_v, Hb, drop_app_length, take_app_length.
  destruct (phr_decode_chunked d c) as [[d2 o2] r]. unfold body_state. rewrite Hf.
  assert (Hne : q ++ c <> []) by (destruct q; [by destruct c|done]).
  assert (Hrs : responses (q ++ c) false = match r with chunk_done _ => [the_response (o ++ o2)] | _ => [] end).
  { unfold responses. fold hs f d1. rewrite Hf. destruct (q ++ c) as [|y l]; [done|]. rewrite Hall. by destruct r. }
  destruct (q ++ c) as [|y l]; [done|]. rewrite Hall, Hrs.
  destruct r as [| |k]; cbn [snd].
  - done.
  - split; [done|]. split; [by right|]. done.
  - split; [by apply head_known_deliver|]. apply deliver_settled; try done.
    change (h1_state (set_body _ _ s)) with (h1_state s). by rewrite Hst, Hf.
Qed.

(** A verdict is not changed by later bytes. *)
Lemma settled_stable s q c :
  body_state s q -> (h1_state s = H1State_Done \/ h1_state s = H1State_Error) -> body_state s (q ++ c).
Proof.
  unfold body_state. intros Hs Hst. assert (Hnr : forall st o d, reading s st o d -> st = H1State_Done \/ st = H1State_Error).
  { intros st o d (<- & _). done. }
  destruct f as [|n| |] eqn:Hf.
  - unfold responses in *. fold hs f in Hs |- *. by rewrite Hf in *.
  - rewrite zlen_app. pose proof (zlen_nonneg c). pose proof (length_framing n Hf).
    case_bool_decide as Hq; [|by destruct (Hnr _ _ _ (proj1 Hs))]. rewrite bool_decide_true by lia.
    unfold responses in *. fold hs f in Hs |- *. rewrite Hf in *. rewrite zlen_app, bool_decide_true in * by lia.
    rewrite take_app, (proj2 (Nat.sub_0_le _ _)) by (unfold zlen in *; lia). by rewrite take_0, app_nil_r.
  - destruct q as [|x q]; [by destruct (Hnr _ _ _ Hs)|]. cbn [app]. unfold responses in *. fold hs f d1 in Hs |- *.
    rewrite Hf in *. destruct (phr_decode_chunked d1 (x :: q)) as [[d o] r] eqn:E. change (x :: q ++ c) with ((x :: q) ++ c).
    destruct r as [| |k]; [by destruct (Hnr _ _ _ Hs)|..].
    + destruct (chunk_bad _ Hdec _ _ _ _ c E) as (d2 & o2 & ->). done.
    + destruct (chunk_end _ Hdec _ _ _ _ _ c E) as (d2 & k2 & ->). done.
  - by destruct (Hnr _ _ _ Hs).
Qed.

Lemma body_feed s q c :
  head_known s -> body_state s q ->
  let s' := snd (h1_feed_body phr_decode_chunked s c) in head_known s' /\ body_state s' (q ++ c).
Proof.
  intros Hk Hs s'. pose proof Hs as Hs0.
  assert (Hid : settled s (responses q false) -> head_known s' /\ body_state s' (q ++ c)).
  { intros Hset. unfold s'. rewrite (settled_feed _ _ c Hset). split; [done|]. apply settled_stable; [done|apply Hset]. }
  unfold body_state in Hs. destruct f as [|n| |] eqn:Hf.
  - by apply Hid.
  - case_bool_decide as Hq; [by apply Hid|]. apply (feed_length s q c n); try done; [lia|apply Hs..].
  - assert (Hnil : forall o d, c = [] -> reading s H1State_BodyChunked o d -> head_known s' /\ body_state s' (q ++ c)).
    { intros o d -> Hr. rewrite app_nil_r. unfold s', h1_feed_body. rewrite (proj1 Hr). done. }
    destruct (decide (c = [])) as [Hc|Hc].
    { destruct q as [|x q]; [by apply (Hnil _ _ Hc Hs)|]. destruct (phr_decode_chunked d1 _) as [[d o] [| |k]];
        [by apply (Hnil _ _ Hc Hs)|by apply Hid..]. }
    destruct q as [|x q].
    { apply (feed_chunked s [] [] d1 c); try done. by left. }
    destruct (phr_decode_chunked d1 (x :: q)) as [[d o] [| |k]] eqn:E; [|by apply Hid..].
    apply (feed_chunked s (x :: q) o d c); try done. by right.
  - destruct Hs as (Hst & Hb & _ & Hd & Ho). unfold s', h1_feed_body. rewrite Hst. split; [done|].
    unfold body_state. rewrite Hf. repeat (split; [done|]). split; [|done].
    cbn [snd set_body h1_body]. by rewrite u8buf_append_v, Hb.
Qed.

Lemma body_state_not_headers s q : body_state s q -> h1_state s <> H1State_Headers.
Proof.
  unfold body_state. intros Hs.
  assert (Hset : settled s (responses q false) -> h1_state s <> H1State_Headers) by (intros [[->| ->] _]; done).
  assert (Hrd : forall st o d, reading s st o d -> st <> H1State_Headers -> h1_state s <> H1State_Headers)
    by (intros st o d (-> & _); done).
  destruct f; [auto|case_bool_decide; [auto|by eapply Hrd; [apply Hs|]]| |by eapply Hrd].
  destruct q; [by eapply Hrd|]. destruct (phr_decode_chunked _ _) as [[? ?] [| |]]; [by eapply Hrd|auto..].
Qed.

Lemma body_state_out s q : body_state s q -> h1_out s = responses q false.
Proof.
  unfold body_state. intros Hs.
  assert (Hset : settled s (responses q false) -> h1_out s = responses q false) by (intros (_ & _ & ?); done).
  assert (Hrd : forall st o d, reading s st o d -> responses q false = [] -> h1_out s = responses q false)
    by (intros st o d (_ & _ & _ & _ & ->) ->; done).
  unfold responses in *. fold hs f d1 in Hs, Hset, Hrd |- *. destruct f as [|n| |]; [auto| | |by eapply Hrd].
  - case_bool_decide; [auto|]. by eapply Hrd; [apply Hs|].
  - destruct q; [by eapply Hrd|]. destruct (phr_decode_chunked _ _) as [[? ?] [| |]]; [by eapply Hrd|auto..].
Qed.

Lemma body_state_eof s q : head_known s -> body_state s q -> h1_out (h1_session_eof s) = responses q true.
Proof.
  intros Hk Hs. pose proof (body_state_out _ _ Hs) as Hout. destruct (decide (f = UntilClose)) as [Hf|Hf].
  - unfold body_state in Hs. rewrite Hf in Hs. destruct Hs as (Hst & Hb & _ & Hd & Ho).
    unfold h1_session_eof. rewrite Hd, bool_decide_true by done. unfold responses. fold hs f. rewrite Hf.
    by apply (deliver_settled s q).
  - assert (Hr : responses q true = responses q false) by (unfold responses; fold hs f; by destruct f).
    rewrite Hr, <-Hout. unfold h1_session_eof. destruct (h1_delivered s) eqn:Ed; [done|].
    case_bool_decide as Hst; [|done]. exfalso.
    assert (Hset : settled s (responses q false) -> False) by (intros [[?|?] _]; congruence).
    assert (Hrd : forall st o d, reading s st o d -> st <> H1State_BodyClose -> False) by (intros st o d (? & _); congruence).
    unfold body_state in Hs. destruct f as [|n| |]; [auto| | |done].
    + case_bool_decide; [auto|]. by eapply Hrd; [apply Hs|].
    + destruct q; [by eapply Hrd|]. destruct (phr_decode_chunked _ _) as [[? ?] [| |]]; [by eapply Hrd|auto..].
Qed.

End response.

(** ** Whole sessions *)

Section session.
Context {D : Type} (chunk_zero : D) (consume_trailer : D -> D).
Context (parse : bytes -> nat -> nat -> phr_result).
Context (decode : D -> bytes -> D * bytes * chunk_result).
Context (Hparse : phr_parser_laws parse) (Hdec : chunk_decoder_laws decode).
Context (is_head : bool).
Implicit Types s : H1Session D.

Abbreviation recv := (h1_session_recv consume_trailer parse decode).
Abbreviation parse0 b := (parse b H1_MAX_HEADERS 0%nat).
Abbreviation body_state_of st mi hd := (body_state chunk_zero consume_trailer decode is_head st (wrap32 mi) hd).
Abbreviation head_of st mi hd := (head_known (D := D) is_head st (wrap32 mi) hd).

(** The responses a stream denotes. *)
Definition h1_denotes (b : bytes) (ended : bool) : list H1Response :=
  match parse b H1_MAX_HEADERS 0%nat with
  | phr_done rc mi st hd => responses chunk_zero consume_trailer decode is_head st (wrap32 mi) hd (drop rc b) ended
  | _ => []
  end.

Definition waiting s : Prop :=
  h1_cb s = true /\ h1_is_head s = is_head /\ h1_headers s = header_list_init /\
  u8_v (h1_body s) = [] /\ h1_chunk_dec s = chunk_zero /\ h1_delivered s = false /\ h1_out s = [].

Definition h1_inv (b : bytes) s : Prop :=
  match parse b H1_MAX_HEADERS 0%nat with
  | phr_done rc mi st hd => head_of st mi hd s /\ body_state_of st mi hd s (drop rc b)
  | r => waiting s /\
         ((h1_state s = H1State_Headers /\ u8_v (h1_in s) = b /\ h1_parsed_off s = length b) \/
          (h1_state s = H1State_Error /\ r = phr_error))
  end.

Lemma recv_not_headers s c :
  h1_state s <> H1State_Headers -> snd (recv s c) = snd (h1_feed_body decode s c).
Proof.
  intros Hst. unfold h1_session_recv, h1_feed_body. destruct (h1_state s); try done.
  - by destruct (h1_feed_chunked _ _ _) as [[] ?].
Qed.

Lemma parse_done_app b c rc mi st hd :
  parse0 b = phr_done rc mi st hd -> parse0 (b ++ c) = phr_done rc mi st hd /\ (rc <= length b)%nat.
Proof.
  intros Hp. destruct (phr_done_stable _ Hparse _ _ _ _ _ _ (drop rc b ++ c) Hp) as [Hl H].
  by rewrite app_assoc, take_drop in H.
Qed.

(** The step that completes the headers. *)
Lemma recv_head s b c rc mi st hd :
  waiting s -> h1_state s = H1State_Headers -> u8_v (h1_in s) = b -> zlen (b ++ c) <= H1_MAX_HEADER_REGION ->
  parse (b ++ c) H1_MAX_HEADERS (h1_parsed_off s) = phr_done rc mi st hd ->
  head_of st mi hd (snd (recv s c)) /\ body_state_of st mi hd (snd (recv s c)) (drop rc (b ++ c)).
Proof.
  intros (Hcb & Hih & Hh & Hb & Hdc & Hd & Ho) Hst Hin Hlen Hp. unfold h1_session_recv. rewrite Hst.
  cbn [set_in h1_in h1_parsed_off]. unfold u8_len. rewrite u8buf_append_v, Hin.
  rewrite (proj2 (Z.ltb_ge _ _)) by done. rewrite Hp. cbv zeta.
  set (s1 := set_head st (wrap32 mi) rc _ _).
  assert (Hk1 : head_of st mi hd s1).
  { unfold s1, head_known. cbn. rewrite Hh. done. }
  destruct (begin_body_state chunk_zero consume_trailer decode is_head st (wrap32 mi) hd s1 Hk1) as (Hbs & Hk2 & Hne).
  { unfold s1, reading. by cbn. }
  assert (Hin2 : u8_v (h1_in (h1_begin_body consume_trailer s1)) = b ++ c /\
                 h1_header_end (h1_begin_body consume_trailer s1) = rc).
  { unfold h1_begin_body. assert (Hdl : forall s, h1_in (h1_deliver s) = h1_in s /\ h1_header_end (h1_deliver s) = h1_header_end s)
      by (intros s'; unfold h1_deliver; by destruct (h1_delivered s')).
    assert (Hs1 : u8_v (h1_in s1) = b ++ c /\ h1_header_end s1 = rc).
    { unfold s1. cbn [set_head set_in h1_in h1_header_end]. by rewrite u8buf_append_v, Hin. }
    destruct (h1_is_head s1 || _ || _ || _); [by rewrite !(proj1 (Hdl _)), !(proj2 (Hdl _))|].
    destruct (match header_list_value _ _ with Some _ => _ | None => _ end); [done|].
    destruct (header_list_value _ _); [|done]. destruct (_ =? 0); [|done]. by rewrite !(proj1 (Hdl _)), !(proj2 (Hdl _)). }
  destruct Hin2 as [Hin2 Hhe]. set (s2 := h1_begin_body consume_trailer s1) in *.
  destruct (_ || _) eqn:Edone.
  - cbn [snd]. split; [done|]. change (drop rc (b ++ c)) with ([] ++ drop rc (b ++ c)).
    apply settled_stable; [done..|]. apply orb_true_iff in Edone as [E|E]; apply bool_decide_eq_true in E; auto.
  - rewrite Hin2, Hhe. destruct (Nat.eqb_spec (length (drop rc (b ++ c))) 0) as [E0|E0].
    + cbn [snd]. split; [done|]. apply length_zero_iff_nil in E0. by rewrite E0.
    + destruct (body_feed chunk_zero consume_trailer decode Hdec is_head st (wrap32 mi) hd s2 [] (drop rc (b ++ c)) Hk2 Hbs)
        as [Hk3 Hb3]. by destruct (h1_feed_body decode s2 _) as [[] ?].
Qed.

Lemma h1_inv_step b c s :
  h1_inv b s -> (h1_state s = H1State_Headers -> zlen (b ++ c) <= H1_MAX_HEADER_REGION) ->
  h1_inv (b ++ c) (snd (recv s c)).
Proof.
  unfold h1_inv. intros Hi Hlim. destruct (parse0 b) as [| |rc mi st hd] eqn:Ep.
  3:{ destruct (parse_done_app b c _ _ _ _ Ep) as [-> Hl]. destruct Hi as [Hk Hb].
      rewrite recv_not_headers by (by eapply body_state_not_headers).
      rewrite drop_app_le by done. by apply body_feed. }
  all: assert (Hnd : forall rc mi st hd, parse0 b <> phr_done rc mi st hd) by (intros; by rewrite Ep).
  all: pose proof (phr_last_len _ Hparse b H1_MAX_HEADERS c Hnd) as Hll.
  all: destruct Hi as [Hw [(Hst & Hin & Hoff)|[Hst He]]]; try done.
  3:{ rewrite (phr_error_stable _ Hparse _ _ c Ep). unfold h1_session_recv. rewrite Hst. split; [done|]. by right. }
  all: specialize (Hlim Hst).
  all: pose proof (recv_head s b c) as Hrh; rewrite Hoff in Hrh.
  all: destruct (parse0 (b ++ c)) as [| |rc mi st hd] eqn:Ep2; [..|by apply Hrh].
  all: clear Hrh; unfold h1_session_recv; rewrite Hst; cbn [set_in h1_in h1_parsed_off]; unfold u8_len;
       rewrite u8buf_append_v, Hin, Hoff, (proj2 (Z.ltb_ge _ _)) by done.
  all: try destruct Hll as [Hll|Hll]; rewrite Hll; (split; [done|]).
  all: try (by right).
  all: left; cbn [snd set_in h1_state h1_in h1_parsed_off]; rewrite u8buf_append_v, Hin; done.
Qed.

Lemma h1_inv_out b s : h1_inv b s -> h1_out s = h1_denotes b false.
Proof.
  unfold h1_inv, h1_denotes. destruct (parse0 b); [intros [(_ & _ & _ & _ & _ & _ & ->) _]; done..|].
  intros [_ Hb]. by apply body_state_out.
Qed.

Lemma h1_inv_eof b s : h1_inv b s -> h1_out (h1_session_eof s) = h1_denotes b true.
Proof.
  unfold h1_inv, h1_denotes.
  assert (Hno : waiting s -> h1_state s <> H1State_BodyClose -> h1_out (h1_session_eof s) = []).
  { intros (_ & _ & _ & _ & _ & Hd & Ho) Hst. unfold h1_session_eof. by rewrite Hd, bool_decide_false. }
  destruct (parse0 b).
  1,2: intros [Hw [(Hst & _)|(Hst & _)]]; apply Hno; congruence.
  intros [Hk Hb]. by apply body_state_eof.
Qed.

(** The chunks arrive while the header region stays within its limit: the
    headers and any one chunk fit in it. *)
Definition header_length (data : bytes) : nat :=
  match parse data H1_MAX_HEADERS 0%nat with phr_done rc _ _ _ => rc | _ => length data end.

Lemma h1_inv_headers_short b t s :
  h1_inv b s -> h1_state s = H1State_Headers -> (length b <= header_length (b ++ t))%nat.
Proof.
  intros Hi Hst. unfold header_length. destruct (parse0 (b ++ t)) as [| |rc mi st hd] eqn:E; [rewrite length_app; lia..|].
  destruct (Nat.le_gt_cases (length b) rc) as [|Hl]; [done|]. exfalso.
  destruct (phr_done_stable _ Hparse _ _ _ _ _ _ (drop rc b) E) as [_ Hp].
  rewrite take_app_le, take_drop in Hp by lia. unfold h1_inv in Hi. rewrite Hp in Hi.
  by apply (body_state_not_headers _ _ _ _ _ _ _ _ _ (proj2 Hi)).
Qed.

Lemma h1_run_inv cs b s :
  h1_inv b s -> Forall (fun c => Z.of_nat (header_length (b ++ concat cs)) + zlen c <= H1_MAX_HEADER_REGION) cs ->
  h1_inv (b ++ concat cs) (h1_run consume_trailer parse decode s (h1_data <$> cs)).
Proof.
  revert b s; induction cs as [|c cs IH]; intros b s Hi Hl; simpl.
  - by rewrite app_nil_r.
  - simpl in Hl. rewrite app_assoc in Hl |- *. apply Forall_cons_iff in Hl as [Hc Hl]. apply IH; [|done].
    apply h1_inv_step; [done|]. intros Hst. rewrite zlen_app.
    pose proof (h1_inv_headers_short b (c ++ concat cs) s Hi Hst) as Hs. rewrite app_assoc in Hs. unfold zlen in *. lia.
Qed.

Lemma h1_inv_init method authority path hs body :
  h1_inv [] (snd (h1_session_submit_request (h1_session_alloc chunk_zero) method authority path hs body is_head true)).
Proof. unfold h1_inv. rewrite (phr_empty _ Hparse). split; [done|]. by left. Qed.

End session.

(** ** A reader of requests *)

Fixpoint read_line (b : bytes) : option (bytes * bytes) :=
  match b with
  | [] => None
  | x :: b' =>
      match b' with
      | y :: r => if (x =? ch_cr) && (y =? ch_nl) then Some ([], r)
                  else match read_line b' with Some (l, r) => Some (x :: l, r) | None => None end
      | [] => None
      end
  end.

(** Header lines up to the blank one; [fuel] is at least the number of lines. *)
Fixpoint read_fields (fuel : nat) (b : bytes) : option (list (bytes * bytes) * bytes) :=
  match fuel with
  | O => None
  | S fuel' =>
      match read_line b with
      | None => None
      | Some ([], rest) => Some ([], rest)
      | Some (line, rest) =>
          match str8_index_of line ch_colon, read_fields fuel' rest with
          | Some i, Some (fs, body) => Some ((take i line, str8_trim_left (drop (S i) line)) :: fs, body)
          | _, _ => None
          end
      end
  end.

Record h1_request := mkRequest {
  q_method : bytes; q_path : bytes; q_version : bytes; q_fields : list (bytes * bytes); q_body : bytes
}.
Definition read_request (b : bytes) : option h1_request :=
  match read_line b with
  | None => None
  | Some (line, rest) =>
      match read_fields (length b) rest with
      | None => None
      | Some (fs, body) =>
          let '(method, rest) := str8_chop_by_delim line ch_space in
          let '(path, version) := str8_chop_by_delim rest ch_space in
          Some (mkRequest method path version fs body)
      end
  end.

(** A value as a header line carries it: no line break, no space in front. *)
Definition field_value (v : bytes) : Prop := (ch_cr ∉ v) /\ str8_trim_left v = v.
Definition field_ok (h : Header) : Prop :=
  h_name h <> [] /\ (ch_cr ∉ h_name h) /\ (ch_colon ∉ h_name h) /\ field_value (h_value h).
#[global] Instance field_ok_dec h : Decision (field_ok h).
Proof. unfold field_ok, field_value. apply _. Defined.

(** The headers the session sends after its own Host. *)
Definition sent_header (h : Header) : Prop :=
  lower (h_name h) <> lower (lit "host") /\ lower (h_name h) <> lower (lit "connection").
#[global] Instance sent_header_dec h : Decision (sent_header h).
Proof. unfold sent_header. apply _. Defined.

Lemma read_line_app l r : ch_cr ∉ l -> read_line (l ++ crlf ++ r) = Some (l, r).
Proof.
  induction l as [|x l IH]; intros Hn; [done|]. apply not_elem_of_cons in Hn as [Hx Hn]. specialize (IH Hn).
  cbn [app]. change (read_line (x :: l ++ crlf ++ r)) with
    (match l ++ crlf ++ r with
     | y :: r0 => if (x =? ch_cr) && (y =? ch_nl) then Some ([], r0)
                  else match read_line (l ++ crlf ++ r) with Some (l', r') => Some (x :: l', r') | None => None end
     | [] => None
     end).
  destruct (l ++ crlf ++ r) as [|y l0] eqn:E; [by destruct l|]. rewrite (proj2 (Z.eqb_neq x ch_cr)) by congruence.
  cbn [andb]. by rewrite IH.
Qed.

Definition field_line (h : Header) : bytes := h_name h ++ lit ": " ++ h_value h ++ crlf.

Lemma h1_put_headers_v out hs :
  u8_v (h1_put_headers out hs) = u8_v out ++ concat (field_line <$> filter sent_header hs).
Proof.
  revert out; induction hs as [|h hs IH]; intros out; cbn [h1_put_headers]; [by rewrite app_nil_r|].
  destruct (str8_match_ci (h_name h) (lit "host")) eqn:E1; [|destruct (str8_match_ci (h_name h) (lit "connection")) eqn:E2].
  - apply str8_match_ci_eq in E1. cbn [orb]. rewrite filter_cons_False by (unfold sent_header; tauto). apply IH.
  - apply str8_match_ci_eq in E2. cbn [orb]. rewrite filter_cons_False by (unfold sent_header; tauto). apply IH.
  - apply str8_match_ci_false in E1, E2. cbn [orb]. rewrite filter_cons_True by done. rewrite IH.
    unfold h1_put, field_line. rewrite !u8buf_append_v, fmap_cons. cbn [concat]. by rewrite <-!app_assoc.
Qed.

Lemma h1_request_bytes_v method authority path hs body :
  h1_request_bytes method authority path hs body =
  (method ++ ch_space :: path ++ lit " HTTP/1.1") ++ crlf ++
  concat (field_line <$> (mkHeader (lit "Host") authority 0 :: filter sent_header hs)) ++ crlf ++ body.
Proof.
  unfold h1_request_bytes, h1_put. cbv zeta.
  set (o := u8buf_append (h1_put_headers _ _) crlf).
  assert (E : u8_v (if (0 <? length body)%nat then u8buf_append o body else o) = u8_v o ++ body).
  { destruct body as [|x body]; [symmetry; apply app_nil_r|].
    change (0 <? length (x :: body))%nat with true. apply u8buf_append_v. }
  rewrite E. unfold o. rewrite u8buf_append_v, h1_put_headers_v. autorewrite with u8buf.
  rewrite fmap_cons. cbn [concat u8buf_init u8_v h_name h_value]. unfold field_line at 2. cbn [h_name h_value].
  change (lit "Host: ") with (lit "Host" ++ lit ": ").
  change (ch_space :: path ++ ?x) with ([ch_space] ++ path ++ x). rewrite <-!app_assoc. reflexivity.
Qed.

Lemma read_fields_app hs rest fuel :
  Forall field_ok hs -> (length hs < fuel)%nat ->
  read_fields fuel (concat (field_line <$> hs) ++ crlf ++ rest) =
  Some ((fun h => (h_name h, h_value h)) <$> hs, rest).
Proof.
  intros Hf. revert fuel. induction Hf as [|h hs (Hne & Hcr & Hco & Hv & Ht) _ IH]; intros fuel Hl.
  - destruct fuel; [lia|]. done.
  - destruct fuel as [|fuel]; [lia|]. simpl in Hl. rewrite fmap_cons. cbn [concat read_fields].
    assert (E : (field_line h ++ concat (field_line <$> hs)) ++ crlf ++ rest =
      (h_name h ++ ch_colon :: ch_space :: h_value h) ++ crlf ++ concat (field_line <$> hs) ++ crlf ++ rest).
    { unfold field_line. change (lit ": ") with [ch_colon; ch_space]. rewrite <-!app_assoc. reflexivity. }
    rewrite E, read_line_app.
    2:{ rewrite not_elem_of_app, !not_elem_of_cons. done. }
    destruct (h_name h ++ ch_colon :: ch_space :: h_value h) as [|x l] eqn:El; [by destruct (h_name h)|].
    rewrite <-El, str8_index_of_app, IH by (done || lia). rewrite fmap_cons. f_equal. f_equal. f_equal.
    rewrite take_app_length. f_equal.
    rewrite (cons_middle ch_colon), app_assoc, drop_app_length' by (rewrite length_app; simpl; lia).
    change (str8_trim_left (ch_space :: h_value h)) with (str8_trim_left (h_value h)). done.
Qed.

Lemma concat_lines_length hs : (length hs <= length (concat (field_line <$> hs)))%nat.
Proof.
  induction hs as [|h hs IH]; [done|]. rewrite fmap_cons. cbn [concat length]. rewrite length_app.
  unfold field_line at 1. rewrite !length_app. change (length crlf) with 2%nat. lia.
Qed.

(** ** At most one response *)

Definition out_inv {D} (s : H1Session D) : Prop :=
  (length (h1_out s) <= if h1_delivered s then 1 else 0)%nat.

Section once.
Context {D : Type} (chunk_zero : D) (consume_trailer : D -> D).
Context (parse : bytes -> nat -> nat -> phr_result) (decode : D -> bytes -> D * bytes * chunk_result).
Implicit Types s : H1Session D.

Lemma out_inv_deliver s : out_inv s -> out_inv (h1_deliver s).
Proof.
  unfold out_inv, h1_deliver. destruct (h1_delivered s) eqn:E; [by rewrite E|]. cbn [h1_delivered h1_out].
  intros H. destruct (h1_cb s); rewrite ?length_app; simpl; lia.
Qed.

Lemma out_inv_feed s c : out_inv s -> out_inv (snd (h1_feed_body decode s c)).
Proof.
  intros H. unfold h1_feed_body. destruct (h1_state s); try done.
  - cbn [snd]. destruct (_ <=? _); [by apply out_inv_deliver|done].
  - unfold h1_feed_chunked. destruct (_ =? 0)%nat; [done|]. destruct (decode _ _) as [[d o] [| |k]]; try done.
    by apply out_inv_deliver.
Qed.

Lemma out_inv_begin s : out_inv s -> out_inv (h1_begin_body consume_trailer s).
Proof.
  intros H. unfold h1_begin_body. destruct (h1_is_head s || _ || _ || _); [by apply out_inv_deliver|].
  destruct (match header_list_value _ _ with Some _ => _ | None => _ end); [done|].
  destruct (header_list_value _ _); [|done]. destruct (_ =? 0); [by apply out_inv_deliver|done].
Qed.

Lemma out_inv_recv s c : out_inv s -> out_inv (snd (h1_session_recv consume_trailer parse decode s c)).
Proof.
  intros H. destruct (decide (h1_state s = H1State_Headers)) as [Hst|Hst].
  2:{ rewrite recv_not_headers by done. by apply out_inv_feed. }
  unfold h1_session_recv. rewrite Hst. destruct (_ <? _); [done|]. destruct (parse _ _ _) as [| |rc mi st hd]; try done.
  cbv zeta. set (s1 := set_head _ _ _ _ _). assert (H1 : out_inv s1) by done. apply out_inv_begin in H1.
  destruct (_ || _); [done|]. destruct (_ =? 0)%nat; [done|].
  match goal with |- context [h1_feed_body decode ?x ?e] => pose proof (out_inv_feed x e H1) as H2; by destruct (h1_feed_body decode x e) as [[] ?] end.
Qed.

Lemma out_inv_step s e : out_inv s -> out_inv (h1_step consume_trailer parse decode s e).
Proof.
  destruct e; simpl; [apply out_inv_recv|]. intros H. unfold h1_session_eof.
  destruct (h1_delivered s) eqn:E; [done|]. case_bool_decide; [by apply out_inv_deliver|done].
Qed.

End once.

(** ** Properties *)

(** C19. The response does not depend on how the bytes arrive: whatever the
    chunks in which a stream is received, as long as the headers and any one
    chunk fit in the 64 KB header region, the session delivers exactly the
    response the whole stream denotes, once it is complete, and nothing before:
    the body by Content-Length, by the chunked coding or up to the end of the
    stream, with the persistence of the connection decided by the framing, the
    version and the Connection header. The end of the stream completes only a
    body that is delimited by it. *)
Theorem h1_response_refines {D} (chunk_zero : D) (consume_trailer : D -> D)
    (parse : bytes -> nat -> nat -> phr_result) (decode : D -> bytes -> D * bytes * chunk_result)
    (is_head : bool) (method authority path : bytes) (hs : list Header) (body : bytes) (cs : list bytes) :
  phr_parser_laws parse -> chunk_decoder_laws decode ->
  Forall (fun c => Z.of_nat (header_length parse (concat cs)) + zlen c <= H1_MAX_HEADER_REGION) cs ->
  let s := snd (h1_session_submit_request (h1_session_alloc chunk_zero) method authority path hs body is_head true) in
  let s' := h1_run consume_trailer parse decode s (h1_data <$> cs) in
  h1_out s' = h1_denotes chunk_zero consume_trailer parse decode is_head (concat cs) false /\
  h1_out (h1_session_eof s') = h1_denotes chunk_zero consume_trailer parse decode is_head (concat cs) true.
Proof.
  intros Hp Hd Hl s s'.
  assert (H0 : h1_inv chunk_zero consume_trailer parse decode is_head [] s) by by apply h1_inv_init.
  pose proof (h1_run_inv chunk_zero consume_trailer parse decode Hp Hd is_head cs [] s H0 Hl) as Hi.
  split; [by apply h1_inv_out|by apply h1_inv_eof].
Qed.

Definition demo_parse (b : bytes) (n last : nat) : phr_result :=
  if (length b <? 3)%nat then phr_partial else phr_done 3 1 200 [(lit "Content-Length", lit "2")].
Definition demo_decode (d : unit) (b : bytes) : unit * bytes * chunk_result :=
  if decide (0 ∈ b) then (d, take (scan_until b 0) b, chunk_done 0) else (d, b, chunk_partial).

Lemma demo_parse_laws : phr_parser_laws demo_parse.
Proof.
  unfold demo_parse. split.
  - done.
  - intros b n rc mi st hd t. destruct (Nat.ltb_spec (length b) 3); [done|]. intros [= <- <- <- <-]. split; [done|].
    by rewrite (proj2 (Nat.ltb_ge _ _)) by (rewrite length_app, length_take; lia).
  - intros b n t. by destruct (_ <? _)%nat.
  - intros b n t _. by destruct (_ <? _)%nat.
Qed.

Lemma demo_decode_laws : chunk_decoder_laws demo_decode.
Proof.
  unfold demo_decode. split.
  - intros d a d' o b _. destruct (decide (0 ∈ a)) as [|Ha]; [done|]. intros [= <- <-].
    destruct (decide (0 ∈ b)) as [Hb|Hb].
    + rewrite decide_True by (apply elem_of_app; by right).
      rewrite scan_until_app_notin, take_app_add by done. done.
    + by rewrite decide_False by (rewrite elem_of_app; tauto).
  - intros d a d' o k b. destruct (decide (0 ∈ a)) as [Ha|]; [|done]. intros [= <- <- <-].
    rewrite decide_True by (apply elem_of_app; by left). exists d, 0%nat. f_equal. f_equal.
    apply list_elem_of_split_l in Ha as (l1 & l2 & -> & Hn). rewrite <-app_assoc. cbn [app].
    by rewrite !scan_until_app_notin, !take_app_add by done.
  - intros d a d' o b. by destruct (decide (0 ∈ a)).
Qed.

Lemma h1_response_refines_witness :
  h1_out (h1_run id demo_parse demo_decode
    (snd (h1_session_submit_request (h1_session_alloc tt) (lit "GET") (lit "a") (lit "/") [] [] false true))
    (h1_data <$> [lit "ab"; lit "cX"; lit "YZ"])) =
  [mkH1Response 200 (h1_copy_headers header_list_init [(lit "Content-Length", lit "2")]) (lit "XY") true true].
Proof.
  refine (eq_trans (proj1 (h1_response_refines tt id demo_parse demo_decode false (lit "GET") (lit "a") (lit "/") [] []
    [lit "ab"; lit "cX"; lit "YZ"] demo_parse_laws demo_decode_laws _)) _).
  - repeat constructor; vm_compute; discriminate.
  - vm_compute. reflexivity.
Defined.

(** A session calls its response callback at most once, whatever arrives
    and in whatever order, also after errors and after the end of the stream. *)
Theorem h1_at_most_once {D} (chunk_zero : D) (consume_trailer : D -> D)
    (parse : bytes -> nat -> nat -> phr_result) (decode : D -> bytes -> D * bytes * chunk_result)
    (is_head cb : bool) (method authority path : bytes) (hs : list Header) (body : bytes) (es : list h1_event) :
  let s := snd (h1_session_submit_request (h1_session_alloc chunk_zero) method authority path hs body is_head cb) in
  (length (h1_out (h1_run consume_trailer parse decode s es)) <= 1)%nat.
Proof.
  intros s. assert (Hi : out_inv (h1_run consume_trailer parse decode s es)).
  { unfold h1_run. assert (H0 : out_inv s) by (unfold out_inv; simpl; lia). clearbody s. revert s H0.
    induction es as [|e es IH]; intros s H0; simpl; [done|]. apply IH. by apply out_inv_step. }
  unfold out_inv in Hi. destruct (h1_delivered _); lia.
Qed.

(** C38. The request on the wire is the request: a reader that splits lines at
    CR LF and fields at the colon gets back the method, the path, one Host
    field with the authority, then the caller's fields in order without any
    Host or Connection, and the body. The method and the path must have no
    space or line break, fields no line break. *)
Theorem h1_request_roundtrip (method authority path : bytes) (hs : list Header) (body : bytes) :
  ch_space ∉ method -> ch_cr ∉ method -> ch_space ∉ path -> ch_cr ∉ path -> field_value authority ->
  Forall field_ok hs ->
  read_request (h1_request_bytes method authority path hs body) =
  Some (mkRequest method path (lit "HTTP/1.1")
    ((lit "Host", authority) :: ((fun h => (h_name h, h_value h)) <$> filter sent_header hs)) body).
Proof.
  intros Hms Hmc Hps Hpc Ha Hf. rewrite h1_request_bytes_v. unfold read_request.
  set (line := method ++ ch_space :: path ++ lit " HTTP/1.1").
  set (all := mkHeader (lit "Host") authority 0 :: filter sent_header hs).
  assert (Hline : ch_cr ∉ line).
  { unfold line. rewrite not_elem_of_app, not_elem_of_cons, not_elem_of_app. repeat split; try done.
    apply (bool_decide_unpack _). vm_compute. reflexivity. }
  rewrite read_line_app by done. rewrite (read_fields_app all).
  - unfold line. rewrite chop_by_delim_app by done. change (lit " HTTP/1.1") with (ch_space :: lit "HTTP/1.1").
    by rewrite chop_by_delim_app by done.
  - constructor.
    + split; [done|]. split; [|split; [|done]]; apply (bool_decide_unpack _); vm_compute; reflexivity.
    + apply Forall_forall. intros h [_ Hin]%list_elem_of_filter. rewrite Forall_forall in Hf. by apply Hf.
  - rewrite !length_app. pose proof (concat_lines_length all). change (length crlf) with 2%nat. lia.
Qed.

Lemma h1_request_roundtrip_witness :
  read_request (h1_request_bytes (lit "POST") (lit "a.b") (lit "/x") [mkHeader (lit "Accept") (lit "*/*") 0;
     mkHeader (lit "CONNECTION") (lit "close") 0] (lit "hi")) =
  Some (mkRequest (lit "POST") (lit "/x") (lit "HTTP/1.1") [(lit "Host", lit "a.b"); (lit "Accept", lit "*/*")] (lit "hi")).
Proof.
  refine (eq_trans (h1_request_roundtrip (lit "POST") (lit "a.b") (lit "/x") [mkHeader (lit "Accept") (lit "*/*") 0;
     mkHeader (lit "CONNECTION") (lit "close") 0] (lit "hi") _ _ _ _ _ _) _);
    try (apply (bool_decide_unpack _); vm_compute; reflexivity).
  vm_compute. reflexivity.
Defined.
