(* ===== verification/H3Control.v ===== *)
(** * HTTP/3 control frames: h3/h3_control.c

    The QUIC variable-length integers (RFC 9000, section 16), the control stream
    a client opens (SETTINGS in the profile's order, GREASE, PRIORITY_UPDATE) and
    the text of its fingerprint. *)
From S2P Require Import Prelude String8 U8Buf.

(** profile/profile.h. *)
Inductive PseudoId := Pseudo_Method | Pseudo_Scheme | Pseudo_Authority | Pseudo_Path.
Record Http3Profile := mkHttp3 {
  initial_max_data : Z;
  initial_max_stream_data_bidi_local : Z;
  initial_max_stream_data_bidi_remote : Z;
  initial_max_stream_data_uni : Z;
  initial_max_streams_bidi : Z;
  initial_max_streams_uni : Z;
  max_idle_timeout_ms : Z;
  max_udp_payload_size : Z;
  max_datagram_frame_size : Z;
  h3_settings : list (Z * Z);        (* id, value *)
  settings_grease : bool;
  send_grease_frame : bool;
  send_priority_update : bool;
  pseudo_order : list PseudoId
}.

Definition H3_FRAME_DATA : Z := 0.
Definition H3_FRAME_HEADERS : Z := 1.
Definition H3_FRAME_SETTINGS : Z := 4.
Definition H3_FRAME_PRIORITY_UPDATE : Z := 984832.
Definition H3_GREASE_SETTING : Z := 31 * 7 + 33.
Definition H3_GREASE_FRAME : Z := 31 * 11 + 33.

Definition h3_is_reserved (v : Z) : bool := (33 <=? v) && ((v - 33) mod 31 =? 0).

Definition pseudo_char (id : PseudoId) : Z :=
  match id with
  | Pseudo_Method => 109
  | Pseudo_Authority => 97
  | Pseudo_Scheme => 115
  | Pseudo_Path => 112
  end.

(** ** Varints *)

Definition put_bytes (b : U8Buf) (xs : bytes) : U8Buf := fold_left u8buf_push xs b.
Definition quic_varint_put (b : U8Buf) (v : Z) : U8Buf :=
  if v <? 64 then put_bytes b [wrap8 v]
  else if v <? 16384 then put_bytes b [wrap8 (Z.lor 64 (Z.shiftr v 8)); wrap8 v]
  else if v <? 1073741824 then
    put_bytes b [wrap8 (Z.lor 128 (Z.shiftr v 24)); wrap8 (Z.shiftr v 16); wrap8 (Z.shiftr v 8); wrap8 v]
  else
    put_bytes b [wrap8 (Z.lor 192 (Z.shiftr v 56)); wrap8 (Z.shiftr v 48); wrap8 (Z.shiftr v 40); wrap8 (Z.shiftr v 32);
                 wrap8 (Z.shiftr v 24); wrap8 (Z.shiftr v 16); wrap8 (Z.shiftr v 8); wrap8 v].

(** The value and [*consumed]. *)
Definition quic_varint_get (p : bytes) : Z * nat :=
  match p with
  | [] => (0, O)
  | b0 :: rest =>
      let n := Z.to_nat (Z.shiftl 1 (Z.shiftr b0 6)) in
      if (length p <? n)%nat then (0, O)
      else (fold_left (fun v b => wrap64 (Z.lor (Z.shiftl v 8) b)) (take (n - 1) rest) (Z.land b0 63), n)
  end.

(** ** The control stream *)

Definition build_h3_priority_update (prioritized_stream_id : Z) : bytes :=
  let pu := u8buf_append (quic_varint_put (u8buf_init 16) (wrap64 prioritized_stream_id)) (lit "u=1, i") in
  let out := quic_varint_put (u8buf_init 16) H3_FRAME_PRIORITY_UPDATE in
  let out := quic_varint_put out (u8_len pu) in
  u8buf_str8 (u8buf_append out (u8_v pu)).

Fixpoint put_settings (b : U8Buf) (settings : list (Z * Z)) : U8Buf :=
  match settings with
  | [] => b
  | (id, value) :: settings => put_settings (quic_varint_put (quic_varint_put b id) value) settings
  end.
Definition build_h3_control_stream (p : Http3Profile) (prioritized_stream_id : Z) : bytes :=
  let out := quic_varint_put (u8buf_init 64) 0 in
  let body := put_settings (u8buf_init 32) (h3_settings p) in
  let body := if settings_grease p then quic_varint_put (quic_varint_put body H3_GREASE_SETTING) 0 else body in
  let out := quic_varint_put out H3_FRAME_SETTINGS in
  let out := quic_varint_put out (u8_len body) in
  let out := u8buf_append out (u8_v body) in
  let out := if send_grease_frame p then quic_varint_put (quic_varint_put out H3_GREASE_FRAME) 0 else out in
  let out := if send_priority_update p then u8buf_append out (build_h3_priority_update prioritized_stream_id) else out in
  u8buf_str8 out.

(** ** The fingerprint text

    [%llu] of a [U64]. Each round of the loops consumes at least one byte. *)
Definition pct_llu (v : Z) : bytes := str8_from_u64 v 10 0.
(** A joined list, without the bytes [str8_list_join] leaves unwritten. *)
Definition joined (l : String8List) (sep : bytes) : bytes := omap id (str8_list_join l sep).

Fixpoint settings_loop (fuel : nat) (payload : bytes) (settings : String8List) : String8List :=
  match fuel with
  | O => settings
  | S fuel =>
      if (length payload =? 0)%nat then settings
      else
        let '(id, n) := quic_varint_get payload in
        if (n =? 0)%nat then settings
        else
          let payload := drop n payload in
          let '(val, n) := quic_varint_get payload in
          if (n =? 0)%nat then settings
          else settings_loop fuel (drop n payload)
                 (str8_list_push settings (if h3_is_reserved id then lit "GREASE" else pct_llu id ++ lit ":" ++ pct_llu val))
  end.
Fixpoint frames_loop (fuel : nat) (d : bytes) (frames : String8List) : String8List :=
  match fuel with
  | O => frames
  | S fuel =>
      if (length d =? 0)%nat then frames
      else
        let '(type, n) := quic_varint_get d in
        if (n =? 0)%nat then frames
        else
          let d := drop n d in
          let '(flen, n) := quic_varint_get d in
          if (n =? 0)%nat then frames
          else
            let d := drop n d in
            let plen := if flen <=? zlen d then Z.to_nat flen else length d in
            let text :=
              if type =? H3_FRAME_SETTINGS then joined (settings_loop (S plen) (take plen d) str8_list_empty) (lit ";")
              else if h3_is_reserved type then lit "GREASE"
              else pct_llu type in
            frames_loop fuel (drop plen d) (str8_list_push frames text)
  end.
Definition h3_text (control : bytes) (p : Http3Profile) : bytes :=
  let '(_, n) := quic_varint_get control in
  let d := drop n control in
  let frames_text := joined (frames_loop (S (length d)) d str8_list_empty) (lit "|") in
  let pseudo := fold_left (fun l id => str8_list_push l [pseudo_char id]) (pseudo_order p) str8_list_empty in
  pct_s frames_text ++ lit "|" ++ pct_s (joined pseudo (lit ",")).

(** ** Varints as bytes *)

(** [n] bytes of a number, the most significant first; an encoding of [2 ^ k]
    bytes, as RFC 9000 lays it out. *)
Fixpoint be (n : nat) (v : Z) : bytes :=
  match n with
  | O => []
  | S n => (v / 2 ^ (8 * Z.of_nat n)) mod 256 :: be n v
  end.
Definition varint_tail (k : nat) : nat := (2 ^ k - 1)%nat.
Definition varint_bytes (k : nat) (v : Z) : bytes :=
  Z.of_nat k * 64 + v / 2 ^ (8 * Z.of_nat (varint_tail k)) :: be (varint_tail k) v.
Definition varint_fits (k : nat) (v : Z) : Prop := (k <= 3)%nat /\ 0 <= v < 64 * 2 ^ (8 * Z.of_nat (varint_tail k)).
(** The shortest. *)
Definition varint_size (v : Z) : nat := if v <? 64 then 0 else if v <? 16384 then 1 else if v <? 1073741824 then 2 else 3.
Definition varint (v : Z) : bytes := varint_bytes (varint_size v) v.

Lemma be_length n v : length (be n v) = n.
Proof. induction n as [|n IH]; cbn [be length]; [done|]. by rewrite IH. Qed.
Lemma varint_length k v : length (varint_bytes k v) = (2 ^ k)%nat.
Proof. unfold varint_bytes, varint_tail. cbn [length]. rewrite be_length. pose proof (Nat.pow_nonzero 2 k). lia. Qed.
Lemma be_bytes_ok n v : bytes_ok (be n v).
Proof. induction n as [|n IH]; cbn [be]; constructor; [|done]. unfold is_byte. divmod. Qed.

Lemma varint_cases k v : varint_fits k v ->
  k = 0%nat /\ 0 <= v < 64 \/ k = 1%nat /\ 0 <= v < 16384 \/ k = 2%nat /\ 0 <= v < 1073741824 \/ k = 3%nat /\ 0 <= v < 2 ^ 62.
Proof.
  intros [Hk Hv]. destruct k as [|[|[|[|k]]]]; [..|lia]; [left|right; left|do 2 right; left|do 3 right];
    (split; [done|]); cbn in Hv; lia.
Qed.
Lemma varint_bytes_ok k v : varint_fits k v -> bytes_ok (varint_bytes k v).
Proof.
  intros Hf. constructor; [|apply be_bytes_ok]. unfold is_byte.
  destruct (varint_cases k v Hf) as [[-> ?]|[[-> ?]|[[-> ?]|[-> ?]]]]; cbn; divmod.
Qed.

Lemma fold_be n v a :
  0 <= a -> (a + 1) * 2 ^ (8 * Z.of_nat n) <= 2 ^ 64 ->
  fold_left (fun v b => wrap64 (Z.lor (Z.shiftl v 8) b)) (be n v) a = a * 2 ^ (8 * Z.of_nat n) + v mod 2 ^ (8 * Z.of_nat n).
Proof.
  revert a. induction n as [|n IH]; intros a Ha Hb; cbn [be fold_left].
  - rewrite Z.mul_0_r, Z.pow_0_r, Z.mod_1_r. lia.
  - replace (8 * Z.of_nat (S n)) with (8 * Z.of_nat n + 8) in * by lia.
    set (P := 2 ^ (8 * Z.of_nat n)) in *. assert (HP : 0 < P) by (unfold P; lia).
    rewrite Z.pow_add_r in * by lia. fold P in Hb |- *. change (2 ^ 8) with 256 in *.
    assert (Hx : 0 <= (v / P) mod 256 < 256) by divmod.
    rewrite lor_shiftl_add by lia. change (2 ^ 8) with 256. unfold wrap64. rewrite Z.mod_small by nia.
    rewrite IH by nia. fold P. rewrite (Z.rem_mul_r v P 256) by lia. lia.
Qed.

Lemma quic_varint_get_bytes k v rest :
  varint_fits k v -> quic_varint_get (varint_bytes k v ++ rest) = (v, (2 ^ k)%nat).
Proof.
  intros Hf. pose proof (varint_length k v) as Hl. unfold varint_bytes in *. cbn [app]. unfold quic_varint_get.
  set (P := 2 ^ (8 * Z.of_nat (varint_tail k))) in *. assert (HP : 0 < P) by (unfold P; lia).
  set (top := v / P) in *. destruct Hf as [Hk Hv]. fold P in Hv.
  assert (Ht : 0 <= top < 64) by (unfold top; split; [apply Z.div_pos; lia|apply Z.div_lt_upper_bound; lia]).
  assert (Hs : Z.shiftr (Z.of_nat k * 64 + top) 6 = Z.of_nat k) by (rewrite shiftr_div by lia; divmod).
  assert (Hm : Z.land (Z.of_nat k * 64 + top) 63 = top) by (change 63 with (2 ^ 6 - 1); rewrite land_mask by lia; divmod).
  rewrite Hs, Hm. assert (Hn : Z.to_nat (Z.shiftl 1 (Z.of_nat k)) = (2 ^ k)%nat).
  { rewrite Z.shiftl_1_l. change 2 with (Z.of_nat 2). rewrite <-Nat2Z.inj_pow. lia. }
  rewrite Hn. cbn [length] in Hl |- *. rewrite length_app.
  rewrite (proj2 (Nat.ltb_ge _ _)) by lia. f_equal.
  rewrite take_app_le by lia. rewrite take_ge by lia. rewrite fold_be.
  - fold P. unfold top. pose proof (Z.div_mod v P). lia.
  - lia.
  - fold P. assert (P <= 2 ^ 56); [|nia]. unfold P. apply Z.pow_le_mono_r; [lia|].
    unfold varint_tail. destruct k as [|[|[|[|k]]]]; cbn; lia.
Qed.

Lemma varint_size_fits v : 0 <= v < 2 ^ 62 -> varint_fits (varint_size v) v.
Proof.
  intros Hv. unfold varint_fits, varint_size. repeat case_if; cbn; lia.
Qed.
Lemma put_bytes_v b xs : u8_v (put_bytes b xs) = u8_v b ++ xs.
Proof.
  unfold put_bytes. revert b. induction xs as [|x xs IH]; intros b; cbn [fold_left]; [by rewrite app_nil_r|].
  by rewrite IH, u8buf_push_v, <-app_assoc.
Qed.
Lemma wrap8_shiftr v k : 0 <= k -> wrap8 (Z.shiftr v k) = (v / 2 ^ k) mod 256.
Proof. intros. by rewrite shiftr_div. Qed.
Lemma wrap8_first a b k : 0 <= a < 4 -> 0 <= k -> 0 <= b / 2 ^ k < 64 ->
  wrap8 (Z.lor (a * 64) (Z.shiftr b k)) = a * 64 + b / 2 ^ k.
Proof.
  intros. rewrite shiftr_div by lia. change 64 with (2 ^ 6) at 1. rewrite lor_disjoint_add by (change (2 ^ 6) with 64; lia).
  unfold wrap8. change (2 ^ 6) with 64. change (2 ^ 8) with 256. rewrite Z.mod_small; lia.
Qed.
Lemma quic_varint_put_v b v : 0 <= v < 2 ^ 62 -> u8_v (quic_varint_put b v) = u8_v b ++ varint v.
Proof.
  intros Hv. unfold quic_varint_put, varint, varint_size.
  repeat case_if; rewrite put_bytes_v; f_equal; unfold varint_bytes;
    (* by the size *)
    cbn [be varint_tail Nat.pow Nat.mul Nat.add Nat.sub];
    change (Z.of_nat 0) with 0; change (Z.of_nat 1) with 1; change (Z.of_nat 2) with 2; change (Z.of_nat 3) with 3.
  - unfold wrap8. f_equal. cbn. rewrite Z.mod_small, Z.div_1_r; lia.
  - change 64 with (1 * 64) at 1. rewrite wrap8_first by divmod. repeat (f_equal; try done). unfold wrap8. cbn. by rewrite Z.div_1_r.
  - change 128 with (2 * 64) at 1. rewrite wrap8_first by divmod. rewrite !wrap8_shiftr by lia. repeat (f_equal; try done).
    unfold wrap8. cbn. by rewrite Z.div_1_r.
  - change 192 with (3 * 64) at 1. rewrite wrap8_first by divmod. rewrite !wrap8_shiftr by lia. repeat (f_equal; try done).
    unfold wrap8. cbn. by rewrite Z.div_1_r.
Qed.

(** ** Frames *)

(** A frame on the wire: its type and its length, each encoded in [2 ^ k] bytes,
    and its payload. *)
Record H3Frame := mkFrame { f_tsize : nat; f_type : Z; f_lsize : nat; f_payload : bytes }.
Definition frame_ok (f : H3Frame) : Prop := varint_fits (f_tsize f) (f_type f) /\ varint_fits (f_lsize f) (zlen (f_payload f)).
Definition frame_bytes (f : H3Frame) : bytes :=
  varint_bytes (f_tsize f) (f_type f) ++ varint_bytes (f_lsize f) (zlen (f_payload f)) ++ f_payload f.
(** With the shortest encodings, as the client writes them. *)
Definition frame (type : Z) (payload : bytes) : H3Frame :=
  mkFrame (varint_size type) type (varint_size (zlen payload)) payload.

Lemma frame_fits type payload : 0 <= type < 2 ^ 62 -> zlen payload < 2 ^ 62 -> frame_ok (frame type payload).
Proof. intros Ht Hp. pose proof (zlen_nonneg payload). split; apply varint_size_fits; simpl; lia. Qed.
Lemma frame_length f : (2 <= length (frame_bytes f))%nat.
Proof.
  unfold frame_bytes. rewrite !length_app, !varint_length.
  pose proof (Nat.pow_nonzero 2 (f_tsize f)). pose proof (Nat.pow_nonzero 2 (f_lsize f)). lia.
Qed.
Lemma pow_not_0 k : (2 ^ k =? 0)%nat = false.
Proof. apply Nat.eqb_neq, Nat.pow_nonzero. done. Qed.
(** Reading a varint off the front. *)
Lemma drop_varint k v rest : drop (2 ^ k) (varint_bytes k v ++ rest) = rest.
Proof. by rewrite drop_app_length' by by rewrite varint_length. Qed.
Lemma varint_nonempty k v rest : (length (varint_bytes k v ++ rest) =? 0)%nat = false.
Proof. apply Nat.eqb_neq. rewrite length_app, varint_length. pose proof (Nat.pow_nonzero 2 k). lia. Qed.
Lemma get_frame f rest :
  frame_ok f ->
  quic_varint_get (frame_bytes f ++ rest) = (f_type f, (2 ^ f_tsize f)%nat) /\
  drop (2 ^ f_tsize f) (frame_bytes f ++ rest) = varint_bytes (f_lsize f) (zlen (f_payload f)) ++ f_payload f ++ rest /\
  quic_varint_get (varint_bytes (f_lsize f) (zlen (f_payload f)) ++ f_payload f ++ rest) =
    (zlen (f_payload f), (2 ^ f_lsize f)%nat) /\
  drop (2 ^ f_lsize f) (varint_bytes (f_lsize f) (zlen (f_payload f)) ++ f_payload f ++ rest) = f_payload f ++ rest.
Proof.
  intros [Ht Hl]. unfold frame_bytes. rewrite <-!app_assoc.
  split; [by apply quic_varint_get_bytes|]. split; [apply drop_varint|].
  split; [by apply quic_varint_get_bytes|]. apply drop_varint.
Qed.
Hint Rewrite pow_not_0 drop_varint varint_nonempty : u8buf.

(** What the text says of a setting and of a frame. *)
Definition setting_ok (x : Z * Z) : Prop := 0 <= x.1 < 2 ^ 62 /\ 0 <= x.2 < 2 ^ 62.
Definition setting_text (x : Z * Z) : bytes :=
  if h3_is_reserved x.1 then lit "GREASE" else pct_llu x.1 ++ lit ":" ++ pct_llu x.2.
Definition settings_bytes (settings : list (Z * Z)) : bytes := concat (map (fun x => varint x.1 ++ varint x.2) settings).
Lemma settings_loop_spec settings fuel l :
  Forall setting_ok settings -> (length (settings_bytes settings) < fuel)%nat ->
  settings_loop fuel (settings_bytes settings) l = fold_left str8_list_push (map setting_text settings) l.
Proof.
  intros Hs. revert fuel l. induction Hs as [|[id val] settings [Hi Hv] Hs IH]; intros fuel l Hf.
  - by destruct fuel.
  - cbn [fst snd] in *. destruct fuel as [|fuel]; [lia|]. cbn [settings_loop].
    change (settings_bytes ((id, val) :: settings)) with ((varint id ++ varint val) ++ settings_bytes settings) in *.
    rewrite <-app_assoc in *. pose proof (varint_size_fits id Hi). pose proof (varint_size_fits val Hv).
    unfold varint in *. rewrite varint_nonempty, quic_varint_get_bytes, pow_not_0, drop_varint by done.
    rewrite quic_varint_get_bytes, pow_not_0, drop_varint by done. cbn [map fold_left]. apply IH.
    rewrite !length_app, !varint_length in Hf. pose proof (Nat.pow_nonzero 2 (varint_size id)). lia.
Qed.
Definition frame_text (f : H3Frame) : bytes :=
  if f_type f =? H3_FRAME_SETTINGS
  then joined (settings_loop (S (length (f_payload f))) (f_payload f) str8_list_empty) (lit ";")
  else if h3_is_reserved (f_type f) then lit "GREASE" else pct_llu (f_type f).
Lemma frames_loop_spec fs fuel l :
  Forall frame_ok fs -> (length (concat (map frame_bytes fs)) < fuel)%nat ->
  frames_loop fuel (concat (map frame_bytes fs)) l = fold_left str8_list_push (map frame_text fs) l.
Proof.
  intros Hs. revert fuel l. induction Hs as [|f fs Hf Hs IH]; intros fuel l Hfuel; cbn [map concat].
  - by destruct fuel.
  - destruct fuel as [|fuel]; [lia|]. cbn [frames_loop map concat fold_left] in *.
    destruct (get_frame f (concat (map frame_bytes fs)) Hf) as (E1 & E2 & E3 & E4).
    pose proof (frame_length f). rewrite length_app in Hfuel.
    rewrite (proj2 (Nat.eqb_neq _ 0)) by (rewrite length_app; lia).
    rewrite E1, pow_not_0, E2, E3, pow_not_0, E4.
    rewrite (proj2 (Z.leb_le _ _)) by (rewrite zlen_app; pose proof (zlen_nonneg (concat (map frame_bytes fs))); lia).
    unfold zlen. rewrite Nat2Z.id, take_app_length, drop_app_length. apply IH. lia.
Qed.

(** ** Texts *)

Lemma joined_of (ss : list bytes) (sep : bytes) (n : Z) :
  match ss with [] => True | s :: _ => s <> [] end ->
  Forall (fun s => zlen s <= n) ss -> Z.of_nat (length ss) * (n + zlen sep) < 2 ^ 64 -> 1 <= n ->
  joined (fold_left str8_list_push ss str8_list_empty) sep = intercalate sep ss.
Proof.
  intros Hs Hf Hb Hn. destruct ss as [|s ss]; [done|]. change (fold_left str8_list_push (s :: ss) str8_list_empty) with (str8_list_of (s :: ss)).
  pose proof (zlen_nonneg sep) as Hsep.
  assert (Hz : sizes (s :: ss) <= Z.of_nat (length (s :: ss)) * n).
  { clear -Hf. generalize (s :: ss) as l, Hf. intros l Hl. unfold sizes. induction Hl as [|x l Hx Hl IH]; [done|].
    cbn [concat length]. rewrite zlen_app. lia. }
  cbn [length] in *. unfold joined.
  pose proof (str8_list_join_spec 0 s ss sep Hs) as E. cbn [Nat.add Nat.mul replicate app] in E.
  rewrite app_nil_r in E. rewrite E by nia.
  generalize (intercalate sep (s :: ss)) as w. induction w as [|x w IH]; [done|]. cbn. by rewrite IH.
Qed.

Lemma from_u64_digits_length room v r : (length (from_u64_digits room v r) <= room)%nat.
Proof.
  revert v. induction room as [|room IH]; intros v; cbn [from_u64_digits length]; [done|].
  destruct (_ =? 0); cbn [length]; [lia|]. specialize (IH (v / r)). lia.
Qed.
Lemma pct_llu_text v : 0 <= v < 2 ^ 64 -> pct_llu v <> [] /\ (0 ∉ pct_llu v) /\ zlen (pct_llu v) <= 64.
Proof.
  intros Hv. destruct (str8_from_u64_decimal v 0 Hv) as (Hd & _ & Hne). split; [done|]. split.
  - intros Hin. unfold pct_llu in Hin. rewrite Forall_forall in Hd. by specialize (Hd 0 Hin).
  - unfold pct_llu, str8_from_u64, zlen. rewrite length_rev, length_app, length_replicate.
    match goal with |- context [from_u64_digits 64 v ?r] => pose proof (from_u64_digits_length 64 v r) end. lia.
Qed.
Lemma setting_text_ok x : setting_ok x -> setting_text x <> [] /\ (0 ∉ setting_text x) /\ zlen (setting_text x) <= 129.
Proof.
  intros [H1 H2]. unfold setting_text. destruct (h3_is_reserved x.1).
  - split; [done|]. split; [|done]. intros Hin. repeat (apply elem_of_cons in Hin as [Hin|Hin]; [discriminate|]). by apply elem_of_nil in Hin.
  - destruct (pct_llu_text x.1) as (N1 & Z1 & L1); [lia|]. destruct (pct_llu_text x.2) as (N2 & Z2 & L2); [lia|].
    split; [by destruct (pct_llu x.1)|]. split; [|rewrite !zlen_app; change (zlen (lit ":")) with 1; lia].
    rewrite !not_elem_of_app. split; [done|]. split; [|done]. intros Hin. cbn in Hin.
    apply elem_of_cons in Hin as [Hin|Hin]; [discriminate|]. by apply elem_of_nil in Hin.
Qed.

Lemma intercalate_notin (c : Z) sep ss : c ∉ sep -> Forall (fun s => c ∉ s) ss -> c ∉ intercalate sep ss.
Proof.
  intros Hs Hf. destruct Hf as [|s ss Hx Hf]; [by intros ?%elem_of_nil|]. rewrite intercalate_cons. rewrite not_elem_of_app.
  split; [done|]. intros Hin. induction Hf as [|x ss Hx' Hf IH]; cbn in Hin; [by apply elem_of_nil in Hin|].
  rewrite !elem_of_app in Hin. destruct Hin as [[?|?]|?]; auto.
Qed.

(** ** The control stream a client opens *)
Definition profile_settings (p : Http3Profile) : list (Z * Z) :=
  h3_settings p ++ (if settings_grease p then [(H3_GREASE_SETTING, 0)] else []).
Definition priority_frame (sid : Z) : H3Frame := frame H3_FRAME_PRIORITY_UPDATE (varint sid ++ lit "u=1, i").
Definition control_frames (p : Http3Profile) (sid : Z) : list H3Frame :=
  [frame H3_FRAME_SETTINGS (settings_bytes (profile_settings p))] ++
  (if send_grease_frame p then [frame H3_GREASE_FRAME []] else []) ++
  (if send_priority_update p then [priority_frame sid] else []).
Definition h3_profile_ok (p : Http3Profile) : Prop :=
  Forall setting_ok (h3_settings p) /\ (length (h3_settings p) < 256)%nat /\ (length (pseudo_order p) < 256)%nat.

Lemma profile_settings_ok p : h3_profile_ok p -> Forall setting_ok (profile_settings p) /\ (length (profile_settings p) <= 256)%nat.
Proof.
  intros (Hs & Hn & _). unfold profile_settings. rewrite length_app, Forall_app.
  split; [|destruct (settings_grease p); cbn [length]; lia]. split; [done|].
  destruct (settings_grease p); [|by constructor]. constructor; [|by constructor]. unfold setting_ok, H3_GREASE_SETTING. cbn. lia.
Qed.
Lemma varint_zlen v : 0 <= v < 2 ^ 62 -> zlen (varint v) <= 8.
Proof.
  intros Hv. unfold zlen, varint. rewrite varint_length. destruct (varint_cases _ v (varint_size_fits v Hv)) as [[-> _]|[[-> _]|[[-> _]|[-> _]]]]; cbn; lia.
Qed.
Lemma settings_bytes_zlen l : Forall setting_ok l -> zlen (settings_bytes l) <= 16 * Z.of_nat (length l).
Proof.
  induction 1 as [|x l [H1 H2] Hl IH]; [done|]. change (settings_bytes (x :: l)) with ((varint x.1 ++ varint x.2) ++ settings_bytes l).
  rewrite !zlen_app. pose proof (varint_zlen x.1 H1). pose proof (varint_zlen x.2 H2). cbn [length]. lia.
Qed.
Lemma put_settings_v b l : Forall setting_ok l -> u8_v (put_settings b l) = u8_v b ++ settings_bytes l.
Proof.
  intros Hl. revert b. induction Hl as [|[i v] l [H1 H2] Hl IH]; intros b; cbn [put_settings]; [by rewrite app_nil_r|].
  cbn [fst snd] in *. rewrite IH, !quic_varint_put_v by done. change (settings_bytes ((i, v) :: l)) with ((varint i ++ varint v) ++ settings_bytes l).
  by rewrite <-!app_assoc.
Qed.
Lemma priority_payload_zlen sid : 0 <= sid < 2 ^ 62 -> 0 <= zlen (varint sid ++ lit "u=1, i") <= 14.
Proof. intros H. rewrite zlen_app. change (zlen (lit "u=1, i")) with 6. pose proof (varint_zlen sid H). pose proof (zlen_nonneg (varint sid)). lia. Qed.
Lemma build_h3_priority_update_bytes sid :
  0 <= sid < 2 ^ 62 -> build_h3_priority_update sid = frame_bytes (priority_frame sid).
Proof.
  intros H. unfold build_h3_priority_update, u8buf_str8. rewrite u8buf_append_v.
  set (pu := u8buf_append _ _). assert (Hpu : u8_v pu = varint sid ++ lit "u=1, i").
  { unfold pu. rewrite u8buf_append_v. unfold wrap64. rewrite Z.mod_small by lia. by rewrite quic_varint_put_v. }
  pose proof (priority_payload_zlen sid H). unfold u8_len. rewrite Hpu.
  rewrite !quic_varint_put_v by (unfold H3_FRAME_PRIORITY_UPDATE; lia). cbn [u8_v u8buf_init]. by rewrite <-!app_assoc.
Qed.

Lemma build_h3_control_stream_bytes p sid :
  h3_profile_ok p -> 0 <= sid < 2 ^ 62 ->
  build_h3_control_stream p sid = varint 0 ++ concat (map frame_bytes (control_frames p sid)).
Proof.
  intros Hp Hsid. destruct (profile_settings_ok p Hp) as [Hs Hn]. unfold build_h3_control_stream, u8buf_str8.
  set (body := if settings_grease p then _ else _). assert (Hbody : u8_v body = settings_bytes (profile_settings p)).
  { unfold body, profile_settings. destruct Hp as [Hp _].
    destruct (settings_grease p); [|by rewrite app_nil_r, put_settings_v].
    rewrite !quic_varint_put_v by (unfold H3_GREASE_SETTING; lia). rewrite put_settings_v by done. cbn [u8_v u8buf_init app].
    unfold settings_bytes. rewrite map_app, concat_app. by rewrite <-!app_assoc. }
  pose proof (settings_bytes_zlen _ Hs). pose proof (zlen_nonneg (settings_bytes (profile_settings p))).
  assert (Hout : forall b, u8_v (if send_priority_update p then u8buf_append b (build_h3_priority_update sid) else b) =
    u8_v b ++ concat (map frame_bytes (if send_priority_update p then [priority_frame sid] else []))).
  { intros b. destruct (send_priority_update p); cbn [map concat]; [|by rewrite app_nil_r].
    by rewrite u8buf_append_v, build_h3_priority_update_bytes, app_nil_r by done. }
  assert (Hgr : forall b, u8_v (if send_grease_frame p then quic_varint_put (quic_varint_put b H3_GREASE_FRAME) 0 else b) =
    u8_v b ++ concat (map frame_bytes (if send_grease_frame p then [frame H3_GREASE_FRAME []] else []))).
  { intros b. destruct (send_grease_frame p); cbn [map concat]; [|by rewrite app_nil_r].
    rewrite !quic_varint_put_v by (unfold H3_GREASE_FRAME; lia). by rewrite <-!app_assoc. }
  rewrite Hout, Hgr, u8buf_append_v. unfold u8_len. rewrite Hbody, !quic_varint_put_v by (unfold H3_FRAME_SETTINGS; lia).
  unfold control_frames. rewrite !map_app, !concat_app. cbn [map concat u8_v u8buf_init]. unfold frame_bytes at 3. cbn [f_tsize f_type f_lsize f_payload frame].
  by rewrite <-!app_assoc.
Qed.

(** ** Properties *)

(** A varint below 2^62 is read back by [quic_varint_get] whatever follows it,
    with the number of bytes written: the fewest that hold it. Any longer
    encoding a peer chooses is read as the same number. *)
Theorem quic_varint_roundtrip (b : U8Buf) v k rest :
  0 <= v < 2 ^ 62 -> varint_fits k v ->
  quic_varint_get (drop (length (u8_v b)) (u8_v (quic_varint_put b v)) ++ rest) = (v, (2 ^ varint_size v)%nat) /\
  length (u8_v (quic_varint_put b v)) = (length (u8_v b) + 2 ^ varint_size v)%nat /\
  quic_varint_get (varint_bytes k v ++ rest) = (v, (2 ^ k)%nat) /\ (varint_size v <= k)%nat.
Proof.
  intros Hv Hk. rewrite quic_varint_put_v by done. rewrite drop_app_length, length_app. unfold varint. rewrite varint_length.
  split; [by apply quic_varint_get_bytes, varint_size_fits|]. split; [done|]. split; [by apply quic_varint_get_bytes|].
  destruct (varint_cases k v Hk) as [[-> ?]|[[-> ?]|[[-> ?]|[-> ?]]]]; unfold varint_size; repeat case_if; lia.
Qed.
Lemma quic_varint_roundtrip_witness :
  drop 0 (u8_v (quic_varint_put (u8buf_init 0) 494878333)) = [157; 127; 62; 125] /\
  quic_varint_get (varint_bytes 1 37 ++ [9]) = (37, 2%nat).
Proof.
  split; [vm_compute; reflexivity|].
  refine (proj1 (proj2 (proj2 (quic_varint_roundtrip (u8buf_init 0) 37 1 [9] _ _)))); [lia|split; [lia|cbn; lia]].
Defined.

Definition control_texts (p : Http3Profile) : list bytes :=
  [intercalate (lit ";") (map setting_text (profile_settings p))] ++
  (if send_grease_frame p then [lit "GREASE"] else []) ++ (if send_priority_update p then [lit "984832"] else []).
Lemma control_frame_texts p sid :
  h3_profile_ok p -> map frame_text (control_frames p sid) = control_texts p.
Proof.
  intros Hp. destruct (profile_settings_ok p Hp) as [Hs Hn]. unfold control_frames, control_texts. rewrite !map_app. f_equal.
  - cbn [map]. f_equal. unfold frame_text. cbn [f_type f_payload frame]. rewrite Z.eqb_refl, settings_loop_spec; [|done|lia].
    assert (Ht : Forall (fun s => s <> [] /\ (0 ∉ s) /\ zlen s <= 129) (map setting_text (profile_settings p))).
    { apply Forall_fmap. eapply Forall_impl; [exact Hs|]. apply setting_text_ok. }
    apply (joined_of _ _ 129).
    + destruct Ht as [|s ss [H _] _]; [done|exact H].
    + eapply Forall_impl; [exact Ht|]. by intros s (_ & _ & ?).
    + rewrite length_map. change (zlen (lit ";")) with 1. lia.
    + lia.
  - by destruct (send_grease_frame p), (send_priority_update p).
Qed.
Lemma control_texts_ok p :
  h3_profile_ok p -> profile_settings p <> [] ->
  Forall (fun s => s <> [] /\ (0 ∉ s) /\ zlen s <= 34000) (control_texts p).
Proof.
  intros Hp Hne. destruct (profile_settings_ok p Hp) as [Hs Hn].
  assert (Ht : Forall (fun s => s <> [] /\ (0 ∉ s) /\ zlen s <= 129) (map setting_text (profile_settings p))).
  { apply Forall_fmap. eapply Forall_impl; [exact Hs|]. apply setting_text_ok. }
  unfold control_texts. apply Forall_app. split.
  - constructor; [|by constructor]. destruct (profile_settings p) as [|x l]; [done|]. cbn [map] in *. split; [|split].
    + apply Forall_cons in Ht as [[Hx _] _]. rewrite intercalate_cons. by destruct (setting_text x).
    + apply intercalate_notin; [by apply (bool_decide_unpack _)|]. eapply Forall_impl; [exact Ht|]. by intros s (_ & ? & _).
    + rewrite intercalate_zlen. change (zlen (lit ";")) with 1. rewrite length_map.
      assert (sizes (setting_text x :: map setting_text l) <= 129 * Z.of_nat (length (x :: l))); [|cbn [length] in *; lia].
      rewrite <-(length_map setting_text (x :: l)). clear -Ht. cbn [map]. unfold sizes.
      induction Ht as [|s ss (_ & _ & H) _ IH]; [done|]. cbn [concat length]. rewrite zlen_app. lia.
  - apply Forall_app. split; [destruct (send_grease_frame p)|destruct (send_priority_update p)]; repeat constructor; try done;
      by apply (bool_decide_unpack _).
Qed.

(** The fingerprint text of the control stream the client sends is the one of
    its profile: the settings in the profile's order with every reserved
    identifier as GREASE, the GREASE frame and the PRIORITY_UPDATE when the
    profile has them, and the order of its pseudo-headers. *)
Theorem h3_text_of_control_stream p sid :
  h3_profile_ok p -> profile_settings p <> [] -> 0 <= sid < 2 ^ 62 ->
  h3_text (build_h3_control_stream p sid) p =
  intercalate (lit "|") (control_texts p) ++ lit "|" ++ intercalate (lit ",") (map (fun id => [pseudo_char id]) (pseudo_order p)).
Proof.
  intros Hp Hne Hsid. pose proof (control_texts_ok p Hp Hne) as Ht. destruct (profile_settings_ok p Hp) as [Hs Hn].
  rewrite build_h3_control_stream_bytes by done. unfold h3_text, varint.
  rewrite quic_varint_get_bytes by (apply varint_size_fits; lia). rewrite drop_varint. rewrite frames_loop_spec.
  2:{ unfold control_frames. apply Forall_app. split; [|apply Forall_app; split].
      - constructor; [|by constructor]. pose proof (settings_bytes_zlen _ Hs). apply frame_fits; unfold H3_FRAME_SETTINGS; lia.
      - destruct (send_grease_frame p); repeat constructor; try done; cbn; lia.
      - pose proof (priority_payload_zlen sid Hsid).
        destruct (send_priority_update p); [|by constructor]. constructor; [|by constructor].
        apply frame_fits; unfold H3_FRAME_PRIORITY_UPDATE; lia. }
  2:{ lia. }
  rewrite control_frame_texts by done. rewrite (joined_of _ _ 34000); cycle 1.
  { unfold control_texts in *. apply Forall_app in Ht as [Ht _]. by apply Forall_cons in Ht as [[? _] _]. }
  { eapply Forall_impl; [exact Ht|]. by intros s (_ & _ & ?). }
  { unfold control_texts. rewrite !length_app. change (zlen (lit "|")) with 1.
    destruct (send_grease_frame p), (send_priority_update p); cbn; lia. }
  { lia. }
  rewrite pct_s_id; cycle 1.
  { apply intercalate_notin; [by apply (bool_decide_unpack _)|]. eapply Forall_impl; [exact Ht|]. by intros s (_ & ? & _). }
  do 2 f_equal. assert (E : forall ids l, fold_left (fun l id => str8_list_push l [pseudo_char id]) ids l =
    fold_left str8_list_push (map (fun id => [pseudo_char id]) ids) l).
  { induction ids as [|id ids IH]; intros l; cbn; [done|]. apply IH. }
  rewrite E, (joined_of _ _ 1).
  - apply pct_s_id, intercalate_notin; [by apply (bool_decide_unpack _)|]. apply Forall_fmap, Forall_true.
    intros id Hin. cbn in Hin. destruct id; by apply elem_of_cons in Hin as [?|?%elem_of_nil].
  - by destruct (pseudo_order p).
  - apply Forall_fmap, Forall_true. done.
  - rewrite length_map. change (zlen (lit ",")) with 1. destruct Hp as (_ & _ & ?). lia.
  - lia.
Qed.
Definition demo_h3_profile : Http3Profile :=
  mkHttp3 15728640 6291456 6291456 6291456 100 103 30000 1472 65536 [(1, 65536); (6, 262144); (7, 100); (51, 1)] true true true
    [Pseudo_Method; Pseudo_Authority; Pseudo_Scheme; Pseudo_Path].
Lemma demo_h3_profile_ok : h3_profile_ok demo_h3_profile.
Proof. split; [|cbn; lia]. repeat constructor; cbn; lia. Qed.
Lemma h3_text_of_control_stream_witness :
  h3_text (build_h3_control_stream demo_h3_profile 0) demo_h3_profile =
  lit "1:65536;6:262144;7:100;51:1;GREASE|GREASE|984832|m,a,s,p".
Proof. refine (eq_trans (h3_text_of_control_stream demo_h3_profile 0 demo_h3_profile_ok _ _) _); [done|lia|vm_compute; reflexivity]. Defined.
