(* ===== verification/H3Session.v ===== *)
(** * HTTP/3 requests and responses: h3/h3_session.c, h3/h3_nv.h

    One request over a QUIC connection: the control and QPACK streams, the
    HEADERS and DATA frames of the request, and the response, whose bytes are
    buffered until the end of the stream and then parsed in place. QPACK
    (nghttp3) and the streams of the connection are interfaces. *)
From S2P Require Import Prelude String8 U8Buf GrowArr Header Proxy.
From S2P Require Export H3Control.

(** What a call of [nghttp3_qpack_decoder_read_request] gives: the bytes it took
    (negative for an error), a field with the EMIT flag, the FINAL flag. *)
Record qpack_read := mkQread { qr_n : Z; qr_emit : option (bytes * bytes); qr_final : bool }.
Class Qpack := {
  qpack_encoder : Type;
  qpack_decoder : Type;
  qpack_context : Type;
  qpack_encoder_new : option qpack_encoder;
  qpack_decoder_new : option qpack_decoder;
  qpack_context_new : Z -> qpack_context;
  qpack_encode : qpack_encoder -> Z -> list (bytes * bytes) -> option (bytes * bytes) * qpack_encoder;
  qpack_read_request : qpack_decoder -> qpack_context -> bytes -> qpack_read * qpack_decoder * qpack_context;
  qpack_read_encoder : qpack_decoder -> bytes -> qpack_decoder
}.
Class QuicStreams (Q : Type) := {
  quic_open_bidi_stream : Q -> option Z * Q;
  quic_open_uni_stream : Q -> option Z * Q;
  quic_stream_send : Q -> Z -> bytes -> bool -> Q        (* the last argument is fin *)
}.

(** ** The fields of a request *)
Definition pseudo_field (method scheme authority path : bytes) (id : PseudoId) : bytes * bytes :=
  match id with
  | Pseudo_Method => (lit ":method", method)
  | Pseudo_Authority => (lit ":authority", authority)
  | Pseudo_Scheme => (lit ":scheme", scheme)
  | Pseudo_Path => (lit ":path", path)
  end.
(** A Cookie header is one field for each crumb. *)
Fixpoint crumbed_fields (headers : list Header) : list (bytes * bytes) :=
  match headers with
  | [] => []
  | h :: headers =>
      (if str8_match_ci (h_name h) (lit "cookie")
       then let '(_, cc) := cookie_crumbs (h_value h) 0 in
            map (pair (h_name h)) (fst (cookie_crumbs (h_value h) cc))
       else [(h_name h, h_value h)]) ++ crumbed_fields headers
  end.
(** The size of the array the fields are written to. *)
Definition field_count (headers : list Header) : nat :=
  fold_left (fun n h => (n + if str8_match_ci (h_name h) (lit "cookie") then snd (cookie_crumbs (h_value h) 0) else 1)%nat)
    headers O.

(** ** Parsing a buffered response

    The frames are read from [v], and the payloads of DATA are moved to its
    front; [on_headers] decodes the payload of a HEADERS frame. [off] is [p],
    [rem] what is left; each round takes at least two bytes. *)
Definition memmove (v : bytes) (dst src n : nat) : bytes :=
  take dst v ++ take n (drop src v) ++ drop (dst + n) v.
Section parse.
Context {X : Type} (on_headers : X -> bytes -> X).
Fixpoint frames_in_place (fuel : nat) (x : X) (v : bytes) (off rem body_len : nat) : X * bytes * nat :=
  match fuel with
  | O => (x, v, body_len)
  | S fuel =>
      if (rem =? 0)%nat then (x, v, body_len)
      else
        let '(type, n) := quic_varint_get (take rem (drop off v)) in
        if (n =? 0)%nat then (x, v, body_len)
        else
          let off := (off + n)%nat in
          let rem := (rem - n)%nat in
          let '(flen, n) := quic_varint_get (take rem (drop off v)) in
          if (n =? 0)%nat then (x, v, body_len)
          else
            let off := (off + n)%nat in
            let rem := (rem - n)%nat in
            let plen := if flen <=? Z.of_nat rem then Z.to_nat flen else rem in
            if type =? 1 then
              frames_in_place fuel (on_headers x (take plen (drop off v))) v (off + plen) (rem - plen) body_len
            else if type =? 0 then
              let v := if (body_len =? off)%nat then v else memmove v body_len off plen in
              frames_in_place fuel x v (off + plen) (rem - plen) (body_len + plen)
            else frames_in_place fuel x v (off + plen) (rem - plen) body_len
  end.
(** The result and the body. *)
Definition parse_response (x : X) (v : bytes) : X * bytes :=
  let '(x, v, body_len) := frames_in_place (S (length v)) x v 0 (length v) 0 in (x, take body_len v).
End parse.

(** ** The session *)
Record H3Uni := mkUni { u_id : Z; u_type_read : bool; u_type : Z }.
Record H3Response := mkH3Response {
  r3_ok : bool;
  r3_error : option bytes;
  r3_status : Z;
  r3_headers : HeaderList;
  r3_body : bytes
}.

Section session.
Context `{Qpack}.

Record H3Session := mkH3 {
  s3_prof : Http3Profile;
  s3_qenc : qpack_encoder;
  s3_qdec : qpack_decoder;
  s3_headers : HeaderList;
  s3_req_stream_id : Z;
  s3_req_in : U8Buf;
  s3_req_fin : bool;
  s3_delivered : bool;
  s3_status : Z;
  s3_uni : list H3Uni;
  s3_responses (* given to on_response *) : list H3Response
}.
Definition set_s3_codec (status : Z) (headers : HeaderList) (qdec : qpack_decoder) (s : H3Session) : H3Session :=
  mkH3 (s3_prof s) (s3_qenc s) qdec headers (s3_req_stream_id s) (s3_req_in s) (s3_req_fin s) (s3_delivered s) status
    (s3_uni s) (s3_responses s).
Definition set_s3_qenc (e : qpack_encoder) (s : H3Session) : H3Session :=
  mkH3 (s3_prof s) e (s3_qdec s) (s3_headers s) (s3_req_stream_id s) (s3_req_in s) (s3_req_fin s) (s3_delivered s)
    (s3_status s) (s3_uni s) (s3_responses s).
Definition set_s3_stream (id : Z) (s : H3Session) : H3Session :=
  mkH3 (s3_prof s) (s3_qenc s) (s3_qdec s) (s3_headers s) id (s3_req_in s) (s3_req_fin s) (s3_delivered s) (s3_status s)
    (s3_uni s) (s3_responses s).
Definition set_s3_in (b : U8Buf) (s : H3Session) : H3Session :=
  mkH3 (s3_prof s) (s3_qenc s) (s3_qdec s) (s3_headers s) (s3_req_stream_id s) b (s3_req_fin s) (s3_delivered s)
    (s3_status s) (s3_uni s) (s3_responses s).
Definition set_s3_fin (s : H3Session) : H3Session :=
  mkH3 (s3_prof s) (s3_qenc s) (s3_qdec s) (s3_headers s) (s3_req_stream_id s) (s3_req_in s) true (s3_delivered s)
    (s3_status s) (s3_uni s) (s3_responses s).
Definition set_s3_uni (u : list H3Uni) (s : H3Session) : H3Session :=
  mkH3 (s3_prof s) (s3_qenc s) (s3_qdec s) (s3_headers s) (s3_req_stream_id s) (s3_req_in s) (s3_req_fin s)
    (s3_delivered s) (s3_status s) u (s3_responses s).
Definition set_s3_delivered (r : list H3Response) (s : H3Session) : H3Session :=
  mkH3 (s3_prof s) (s3_qenc s) (s3_qdec s) (s3_headers s) (s3_req_stream_id s) (s3_req_in s) (s3_req_fin s) true
    (s3_status s) (s3_uni s) r.

Definition h3_session_alloc (prof : Http3Profile) : option H3Session :=
  match qpack_encoder_new, qpack_decoder_new with
  | Some e, Some d => Some (mkH3 prof e d header_list_init (-1) (u8buf_init 0) false false 0 [] [])
  | _, _ => None
  end.

(** *** Receiving *)

(** The state of the decoding loop: status, headers, decoder, context, input. *)
Definition decode_state : Type := Z * HeaderList * qpack_decoder * qpack_context * bytes.
Definition decode_round (st : decode_state) : decode_state + decode_state :=
  let '(status, headers, qdec, sctx, p) := st in
  let '(r, qdec, sctx) := qpack_read_request qdec sctx p in
  if qr_n r <? 0 then inr (status, headers, qdec, sctx, p)
  else
    let p := drop (Z.to_nat (qr_n r)) p in
    let '(status, headers) :=
      match qr_emit r with
      | Some (name, val) =>
          if str8_match name (lit ":status") then (to_int (str8_to_u64 val), headers)
          else (status, header_list_push headers (push_str8_copy name) (push_str8_copy val) 0)
      | None => (status, headers)
      end in
    let st := (status, headers, qdec, sctx, p) in
    if qr_final r || (qr_n r =? 0) then inr st else inl st.
Definition decode_block (stream_id : Z) (x : Z * HeaderList * qpack_decoder) (block : bytes) : Z * HeaderList * qpack_decoder :=
  let '(status, headers, qdec) := x in
  match loop_pow 64 decode_round (status, headers, qdec, qpack_context_new stream_id, block) with
  | inl (status, headers, qdec, _, _) | inr (status, headers, qdec, _, _) => (status, headers, qdec)
  end.

Definition h3_finish_response (s : H3Session) : H3Session :=
  if s3_delivered s then s
  else
    let '(status, headers, qdec, body) :=
      parse_response (decode_block (s3_req_stream_id s)) (s3_status s, s3_headers s, s3_qdec s) (u8_v (s3_req_in s)) in
    let s := set_s3_codec status headers qdec s in
    let ok := negb (status =? 0) in
    set_s3_delivered (s3_responses s ++
      [mkH3Response ok (if ok then None else Some (lit "no response headers")) status headers body]) s.

(** The slot of a server's unidirectional stream, a new one if there is room. *)
Definition H3_MAX_UNI : nat := 8.
Fixpoint find_uni (us : list H3Uni) (id : Z) (i : nat) : option nat :=
  match us with
  | [] => None
  | u :: us => if u_id u =? id then Some i else find_uni us id (S i)
  end.
Definition h3_find_or_add_uni (us : list H3Uni) (id : Z) : option nat * list H3Uni :=
  match find_uni us id 0 with
  | Some i => (Some i, us)
  | None => if (H3_MAX_UNI <=? length us)%nat then (None, us) else (Some (length us), us ++ [mkUni id false 0])
  end.
(** The bytes of such a stream; [feed] gives the decoder what follows the type
    of a QPACK encoder stream. *)
Definition uni_data (us : list H3Uni) (id : Z) (data : bytes) : list H3Uni * option bytes :=
  match h3_find_or_add_uni us id with
  | (None, us) => (us, None)
  | (Some i, us) =>
      match us !! i with
      | None => (us, None)
      | Some u =>
          let feed (u : H3Uni) (p : bytes) := if (u_type u =? 2) && (0 <? length p)%nat then Some p else None in
          if u_type_read u then (us, feed u data)
          else if (length data =? 0)%nat then (us, None)
          else
            let '(type, n) := quic_varint_get data in
            if (n =? 0)%nat then (<[i := mkUni (u_id u) false type]> us, None)
            else let u := mkUni (u_id u) true type in (<[i := u]> us, feed u (drop n data))
      end
  end.

Definition h3_on_stream_data (s : H3Session) (stream_id : Z) (data : bytes) (fin : bool) : H3Session :=
  if stream_id =? s3_req_stream_id s then
    let s := set_s3_in (u8buf_append (s3_req_in s) data) s in
    if fin then h3_finish_response (set_s3_fin s) else s
  else
    let '(us, fed) := uni_data (s3_uni s) stream_id data in
    let s := set_s3_uni us s in
    match fed with
    | Some p => set_s3_codec (s3_status s) (s3_headers s) (qpack_read_encoder (s3_qdec s) p) s
    | None => s
    end.
Definition h3_on_stream_close (s : H3Session) (stream_id : Z) : H3Session :=
  if (stream_id =? s3_req_stream_id s) && negb (s3_req_fin s) then h3_finish_response (set_s3_fin s) else s.

(** *** Sending *)
Section send.
Context {Q : Type} `{QuicStreams Q}.

(** The HEADERS frame and the DATA frame of a request. *)
Definition headers_frame (pbuf rbuf : bytes) : bytes :=
  let frame := u8buf_init (zlen pbuf + zlen rbuf + 16) in
  let frame := quic_varint_put frame 1 in
  let frame := quic_varint_put frame (zlen pbuf + zlen rbuf) in
  u8_v (u8buf_append (u8buf_append frame pbuf) rbuf).
Definition data_frame (body : bytes) : bytes :=
  let dframe := u8buf_init (zlen body + 16) in
  u8_v (u8buf_append (quic_varint_put (quic_varint_put dframe 0) (zlen body)) body).
Definition send_frames (q : Q) (stream_id : Z) (pbuf rbuf body : bytes) : Q :=
  let has_body := negb (length body =? 0)%nat in
  let q := quic_stream_send q stream_id (headers_frame pbuf rbuf) (negb has_body) in
  if has_body then quic_stream_send q stream_id (data_frame body) true else q.

Definition h3_session_request (s : H3Session) (q : Q) (method scheme authority path : bytes) (headers : list Header)
  (body : bytes) : bool * H3Session * Q :=
  match quic_open_bidi_stream q with
  | (None, q) => (false, s, q)
  | (Some id, q) =>
      let s := set_s3_stream id s in
      match quic_open_uni_stream q with
      | (None, q) => (false, s, q)
      | (Some ctrl_id, q) =>
          let q := quic_stream_send q ctrl_id (build_h3_control_stream (s3_prof s) id) false in
          match quic_open_uni_stream q with
          | (None, q) => (false, s, q)
          | (Some qenc_id, q) =>
              let q := quic_stream_send q qenc_id [2] false in
              match quic_open_uni_stream q with
              | (None, q) => (false, s, q)
              | (Some qdec_id, q) =>
                  let q := quic_stream_send q qdec_id [3] false in
                  let nva := map (pseudo_field method scheme authority path) (pseudo_order (s3_prof s)) ++ crumbed_fields headers in
                  match qpack_encode (s3_qenc s) id nva with
                  | (None, e) => (false, set_s3_qenc e s, q)
                  | (Some (pbuf, rbuf), e) => (true, set_s3_qenc e s, send_frames q id pbuf rbuf body)
                  end
              end
          end
      end
  end.
(** A request on the streams: what opening and sending keep is kept. *)
Lemma h3_session_request_inv (I : Q -> Prop) s q method scheme authority path headers body :
  (forall q, I q -> I (snd (quic_open_bidi_stream q))) -> (forall q, I q -> I (snd (quic_open_uni_stream q))) ->
  (forall q sid data fin, I q -> I (quic_stream_send q sid data fin)) -> I q ->
  I (snd (h3_session_request s q method scheme authority path headers body)).
Proof.
  intros Hbi Huni Hsend Hq. unfold h3_session_request. specialize (Hbi _ Hq). destruct (quic_open_bidi_stream q) as [[id|] q1]; [|exact Hbi].
  specialize (Huni _ Hbi) as Hu1. cbn [snd] in *. destruct (quic_open_uni_stream q1) as [[cid|] q2]; [|exact Hu1]. cbv zeta.
  apply (Hsend _ cid (build_h3_control_stream (s3_prof s) id) false) in Hu1. specialize (Huni _ Hu1) as Hu2.
  destruct (quic_open_uni_stream _) as [[eid|] q3]; [|exact Hu2]. apply (Hsend _ eid [2] false) in Hu2. specialize (Huni _ Hu2) as Hu3.
  destruct (quic_open_uni_stream _) as [[did|] q4]; [|exact Hu3]. apply (Hsend _ did [3] false) in Hu3.
  destruct (qpack_encode _ _ _) as [[[pb rb]|] e]; [|exact Hu3]. cbn [snd]. unfold send_frames. cbv zeta.
  apply (Hsend _ id (headers_frame pb rb) (negb (negb (length body =? 0)%nat))) in Hu3. destruct (negb (_ =? 0)%nat); [by apply Hsend|exact Hu3].
Qed.
End send.
End session.

(** ** The frames of a response

    The reference: the frames as a list of types and payloads, a payload that
    runs past the end cut there. *)
Fixpoint split_frames (fuel : nat) (bs : bytes) : list (Z * bytes) :=
  match fuel with
  | O => []
  | S fuel =>
      if (length bs =? 0)%nat then []
      else
        let '(type, n) := quic_varint_get bs in
        if (n =? 0)%nat then []
        else
          let bs := drop n bs in
          let '(flen, n) := quic_varint_get bs in
          if (n =? 0)%nat then []
          else
            let bs := drop n bs in
            let plen := if flen <=? zlen bs then Z.to_nat flen else length bs in
            (type, take plen bs) :: split_frames fuel (drop plen bs)
  end.
Definition payloads (type : Z) (fs : list (Z * bytes)) : list bytes := map snd (filter (fun f => f.1 = type) fs).

Lemma payloads_cons t type p fs : payloads t ((type, p) :: fs) = if type =? t then p :: payloads t fs else payloads t fs.
Proof.
  unfold payloads. rewrite filter_cons. cbn [fst].
  destruct (Z.eqb_spec type t) as [->|Hn]; [by rewrite decide_True|by rewrite decide_False].
Qed.

Section memmove.
Context (v : bytes) (dst src n : nat) (Hle : (dst <= src)%nat) (Hn : (src + n <= length v)%nat).
Lemma memmove_take : take (dst + n) (memmove v dst src n) = take dst v ++ take n (drop src v).
Proof.
  unfold memmove. rewrite app_assoc, take_app_le; rewrite ?length_app, ?length_take, ?length_drop; [|lia].
  apply take_ge. rewrite length_app, !length_take, length_drop. lia.
Qed.
Lemma memmove_length : length (memmove v dst src n) = length v.
Proof. unfold memmove. rewrite !length_app, !length_take, !length_drop. lia. Qed.
Lemma memmove_drop : drop (src + n) (memmove v dst src n) = drop (src + n) v.
Proof.
  unfold memmove. rewrite app_assoc. rewrite drop_app_ge by (rewrite length_app, !length_take, length_drop; lia).
  rewrite drop_drop. f_equal. rewrite length_app, !length_take, length_drop. lia.
Qed.
End memmove.

Section parse_spec.
Context {X : Type} (on_headers : X -> bytes -> X).
Lemma frames_in_place_spec fuel x v off rem body_len :
  (off + rem = length v)%nat -> (body_len <= off)%nat ->
  let '(x', v', body_len') := frames_in_place on_headers fuel x v off rem body_len in
  x' = fold_left on_headers (payloads 1 (split_frames fuel (drop off v))) x /\
  take body_len' v' = take body_len v ++ concat (payloads 0 (split_frames fuel (drop off v))).
Proof.
  revert x v off rem body_len. induction fuel as [|fuel IH]; intros x v off rem bl Hr Hb; cbn [frames_in_place split_frames].
  { by rewrite app_nil_r. }
  assert (Hlen : length (drop off v) = rem) by (rewrite length_drop; lia). rewrite Hlen.
  assert (Ht : take rem (drop off v) = drop off v) by (apply take_ge; lia). rewrite Ht.
  destruct (rem =? 0)%nat eqn:Hr0; [by rewrite app_nil_r|].
  destruct (quic_varint_get (drop off v)) as [type n] eqn:Hg. destruct (n =? 0)%nat eqn:Hn0; [by rewrite app_nil_r|].
  rewrite drop_drop. assert (Hlen1 : length (drop (off + n) v) = (rem - n)%nat) by (rewrite length_drop; lia).
  rewrite (take_ge (drop (off + n) v)) by lia.
  destruct (quic_varint_get (drop (off + n) v)) as [flen m] eqn:Hg2. destruct (m =? 0)%nat eqn:Hm0; [by rewrite app_nil_r|].
  rewrite !drop_drop. assert (Hlen2 : length (drop (off + n + m) v) = (rem - n - m)%nat) by (rewrite length_drop; lia).
  unfold zlen. rewrite Hlen2. set (plen := if flen <=? _ then _ else _). set (o := (off + n + m)%nat) in *.
  (* the varints lie in what is left *)
  assert (Hin : forall p ty k, quic_varint_get p = (ty, k) -> (k <= length p)%nat).
  { intros p ty k. unfold quic_varint_get. destruct p; [by intros [= _ <-]|]. destruct (_ <? _)%nat eqn:E; [intros [= _ <-]; lia|].
    apply Nat.ltb_ge in E. by intros [= _ <-]. }
  pose proof (Hin _ _ _ Hg). pose proof (Hin _ _ _ Hg2). apply Nat.eqb_neq in Hr0.
  assert (Hp : (plen <= rem - n - m)%nat) by (unfold plen; destruct (flen <=? _) eqn:E; [apply Z.leb_le in E|]; lia).
  rewrite !payloads_cons. destruct (type =? 1) eqn:H1.
  - apply Z.eqb_eq in H1 as ->. cbn [Z.eqb]. specialize (IH (on_headers x (take plen (drop o v))) v (o + plen)%nat (rem - n - m - plen)%nat bl).
    destruct (frames_in_place _ _ _ _ _ _ _) as [[x' v'] bl']. by apply IH; lia.
  - destruct (type =? 0) eqn:Hz.
    + destruct (bl =? o)%nat eqn:Hbo.
      * apply Nat.eqb_eq in Hbo. subst bl. specialize (IH x v (o + plen)%nat (rem - n - m - plen)%nat (o + plen)%nat).
        destruct (frames_in_place _ _ _ _ _ _ _) as [[x' v'] bl']. destruct IH as [-> ->]; [lia..|]. split; [done|].
        cbn [concat]. rewrite app_assoc. f_equal. by rewrite take_take_drop.
      * specialize (IH x (memmove v bl o plen) (o + plen)%nat (rem - n - m - plen)%nat (bl + plen)%nat).
        destruct (frames_in_place _ _ _ _ _ _ _) as [[x' v'] bl'].
        destruct IH as [-> ->]; [rewrite memmove_length; lia|lia|]. rewrite memmove_drop, memmove_take by lia. split; [done|].
        cbn [concat]. by rewrite app_assoc.
    + specialize (IH x v (o + plen)%nat (rem - n - m - plen)%nat bl).
      destruct (frames_in_place _ _ _ _ _ _ _) as [[x' v'] bl']. apply IH; lia.
Qed.

(** Parsing in place gives what the reference gives. *)
Lemma parse_response_spec x v :
  let fs := split_frames (S (length v)) v in
  parse_response on_headers x v = (fold_left on_headers (payloads 1 fs) x, concat (payloads 0 fs)).
Proof.
  unfold parse_response. pose proof (frames_in_place_spec (S (length v)) x v 0 (length v) 0 eq_refl (Nat.le_refl _)) as H.
  cbv zeta. destruct (frames_in_place _ _ _ _ _ _ _) as [[x' v'] bl]. rewrite drop_0 in H. by destruct H as [-> ->].
Qed.
End parse_spec.

(** Frames as a peer writes them, and a last one that is cut. *)
Lemma split_frame f rest fuel :
  frame_ok f -> split_frames (S fuel) (frame_bytes f ++ rest) = (f_type f, f_payload f) :: split_frames fuel rest.
Proof.
  intros Hf. cbn [split_frames]. destruct (get_frame f rest Hf) as (E1 & E2 & E3 & E4). pose proof (frame_length f).
  rewrite (proj2 (Nat.eqb_neq _ 0)) by (rewrite length_app; lia).
  rewrite E1, pow_not_0, E2, E3, pow_not_0, E4.
  rewrite (proj2 (Z.leb_le _ _)) by (rewrite zlen_app; pose proof (zlen_nonneg rest); lia).
  unfold zlen. by rewrite Nat2Z.id, take_app_length, drop_app_length.
Qed.
Definition frames_of (fs : list H3Frame) : list (Z * bytes) := map (fun f => (f_type f, f_payload f)) fs.
Lemma split_frames_app fs rest fuel :
  Forall frame_ok fs ->
  split_frames (length fs + fuel) (concat (map frame_bytes fs) ++ rest) = frames_of fs ++ split_frames fuel rest.
Proof.
  induction 1 as [|f fs Hf Hs IH]; [done|]. cbn [length Nat.add map concat frames_of app].
  rewrite <-app_assoc, split_frame by done. f_equal. exact IH.
Qed.
Lemma split_cut f m fuel :
  frame_ok f -> (m < length (f_payload f))%nat ->
  split_frames (S fuel) (take (length (frame_bytes f) - length (f_payload f) + m) (frame_bytes f)) =
  [(f_type f, take m (f_payload f))].
Proof.
  intros Hf Hm. set (t := varint_bytes (f_tsize f) (f_type f)). set (l := varint_bytes (f_lsize f) (zlen (f_payload f))).
  assert (E : take (length (frame_bytes f) - length (f_payload f) + m) (frame_bytes f) = t ++ l ++ take m (f_payload f)).
  { unfold frame_bytes. fold t l. rewrite !length_app, !app_assoc.
    replace (length t + (length l + length (f_payload f)) - length (f_payload f) + m)%nat with (length (t ++ l) + m)%nat
      by (rewrite length_app; lia).
    by rewrite take_app_add. }
  rewrite E. destruct Hf as [Ht Hl]. cbn [split_frames]. unfold t, l.
  rewrite varint_nonempty, quic_varint_get_bytes, pow_not_0, drop_varint by done.
  rewrite quic_varint_get_bytes, pow_not_0, drop_varint by done.
  assert (Hlen : length (take m (f_payload f)) = m) by (rewrite length_take; lia).
  unfold zlen. rewrite Hlen, (proj2 (Z.leb_gt _ _)) by lia. rewrite take_take, Nat.min_id, drop_ge by lia. by destruct fuel.
Qed.
(** More fuel than bytes is enough. *)
Lemma split_frames_nil fuel : split_frames fuel [] = [].
Proof. by destruct fuel. Qed.
Lemma frames_length fs : (2 * length fs <= length (concat (map frame_bytes fs)))%nat.
Proof.
  induction fs as [|f fs IH]; [done|]. cbn [map concat length]. rewrite length_app. pose proof (frame_length f). lia.
Qed.
Lemma split_frames_bytes fs fuel :
  Forall frame_ok fs -> (length (concat (map frame_bytes fs)) < fuel)%nat ->
  split_frames fuel (concat (map frame_bytes fs)) = frames_of fs.
Proof.
  intros Hs Hf. pose proof (frames_length fs). replace fuel with (length fs + (fuel - length fs))%nat by lia.
  rewrite <-(app_nil_r (concat _)), split_frames_app by done. by rewrite split_frames_nil, app_nil_r.
Qed.

(** ** Crumbs fit their array *)
Lemma crumbs_loop_count fuel rest out out' n cap cap' :
  snd (crumbs_loop fuel rest out n cap) = snd (crumbs_loop fuel rest out' n cap').
Proof.
  revert rest out out' n. induction fuel as [|fuel IH]; intros rest out out' n; cbn [crumbs_loop];
    destruct (0 <? length _)%nat; destruct (str8_find rest (lit "; ") <? 0); try done; apply IH.
Qed.
Lemma crumbs_loop_length fuel rest out n cap :
  length out = Nat.min cap n ->
  length (fst (crumbs_loop fuel rest out n cap)) = Nat.min cap (snd (crumbs_loop fuel rest out n cap)).
Proof.
  revert rest out n. induction fuel as [|fuel IH]; intros rest out n Hl; cbn [crumbs_loop];
    set (crumb := if _ <? 0 then rest else _); destruct (0 <? length crumb)%nat;
    (destruct (n <? cap)%nat eqn:Hc; [apply Nat.ltb_lt in Hc|apply Nat.ltb_ge in Hc]);
    destruct (str8_find rest (lit "; ") <? 0); cbn [fst snd]; try apply IH; rewrite ?length_app; cbn [length]; lia.
Qed.
Lemma crumbed_fields_count headers : length (crumbed_fields headers) = field_count headers.
Proof.
  unfold field_count. assert (E : forall n, fold_left (fun n h => (n + if str8_match_ci (h_name h) (lit "cookie")
    then snd (cookie_crumbs (h_value h) 0) else 1)%nat) headers n = (n + length (crumbed_fields headers))%nat).
  { induction headers as [|h headers IH]; intros n; cbn [fold_left crumbed_fields length]; [lia|].
    rewrite IH, length_app. destruct (str8_match_ci _ _); cbn [length]; [|lia].
    destruct (cookie_crumbs (h_value h) 0) as [o cc] eqn:Hcc. rewrite length_map. cbn [snd].
    unfold cookie_crumbs. rewrite crumbs_loop_length by (cbn; lia).
    rewrite (crumbs_loop_count _ _ _ [] _ _ 0%nat). fold (cookie_crumbs (h_value h) 0). rewrite Hcc. cbn. lia. }
  rewrite E. lia.
Qed.

(** ** A connection that records what is sent *)
Record QLog := mkQLog { ql_bidi : Z; ql_uni : Z; ql_sent : list (Z * bytes * bool) }.
#[export] Instance qlog_streams : QuicStreams QLog := {|
  quic_open_bidi_stream q := (Some (ql_bidi q), mkQLog (ql_bidi q + 4) (ql_uni q) (ql_sent q));
  quic_open_uni_stream q := (Some (ql_uni q), mkQLog (ql_bidi q) (ql_uni q + 4) (ql_sent q));
  quic_stream_send q id data fin := mkQLog (ql_bidi q) (ql_uni q) (ql_sent q ++ [(id, data, fin)])
|}.

(** ** Properties *)
Section properties.
Context `{Qpack}.
Implicit Types s : H3Session.

Lemma headers_frame_bytes pbuf rbuf :
  zlen pbuf + zlen rbuf < 2 ^ 62 -> headers_frame pbuf rbuf = frame_bytes (frame 1 (pbuf ++ rbuf)).
Proof.
  intros Hl. pose proof (zlen_nonneg pbuf). pose proof (zlen_nonneg rbuf). unfold headers_frame.
  rewrite !u8buf_append_v, !quic_varint_put_v by lia. unfold frame_bytes, frame, varint.
  cbn [u8_v u8buf_init app f_tsize f_type f_lsize f_payload]. rewrite zlen_app. by rewrite <-!app_assoc.
Qed.
Lemma data_frame_bytes body : zlen body < 2 ^ 62 -> data_frame body = frame_bytes (frame 0 body).
Proof.
  intros Hl. pose proof (zlen_nonneg body). unfold data_frame. rewrite !u8buf_append_v, !quic_varint_put_v by lia.
  unfold frame_bytes, frame, varint. cbn [u8_v u8buf_init app f_tsize f_type f_lsize f_payload]. by rewrite <-!app_assoc.
Qed.

(** A request that is sent: the control stream names the request's stream in
    its PRIORITY_UPDATE, the QPACK streams carry their types, and the request's
    stream carries one HEADERS frame with the whole encoded field section and
    then, if there is a body, one DATA frame with all of it; the end of the
    stream is marked on the last of them only. The fields fill the array sized
    for them exactly. *)
Theorem h3_request_wire s q method scheme authority path headers body s' q' pbuf rbuf e :
  h3_session_request s q method scheme authority path headers body = (true, s', q') ->
  qpack_encode (s3_qenc s) (ql_bidi q)
    (map (pseudo_field method scheme authority path) (pseudo_order (s3_prof s)) ++ crumbed_fields headers) =
    (Some (pbuf, rbuf), e) ->
  zlen pbuf + zlen rbuf < 2 ^ 62 -> zlen body < 2 ^ 62 ->
  length (crumbed_fields headers) = field_count headers /\
  exists last,
    ql_sent q' = ql_sent q ++ [(ql_uni q, build_h3_control_stream (s3_prof s) (ql_bidi q), false);
                               (ql_uni q + 4, [2], false); (ql_uni q + 4 + 4, [3], false)] ++ last /\
    Forall (fun x => x.1.1 = ql_bidi q) last /\ map snd last = replicate (length last - 1) false ++ [true] /\
    let sent := concat (map (fun x => x.1.2) last) in
    split_frames (S (length sent)) sent = (1, pbuf ++ rbuf) :: (if (length body =? 0)%nat then [] else [(0, body)]).
Proof.
  intros Hr He Hp Hb. split; [apply crumbed_fields_count|]. unfold h3_session_request in Hr. cbn in Hr. rewrite He in Hr.
  injection Hr as <- <-. unfold send_frames. cbn [quic_stream_send qlog_streams].
  pose proof (zlen_nonneg pbuf). pose proof (zlen_nonneg rbuf).
  destruct (length body =? 0)%nat eqn:Hl; cbn [negb].
  - exists [(ql_bidi q, headers_frame pbuf rbuf, true)]. cbn [ql_sent]. rewrite <-!app_assoc. split; [done|].
    split; [by repeat constructor|]. split; [done|]. cbn [map concat fst snd]. rewrite app_nil_r, headers_frame_bytes by done.
    replace (frame_bytes (frame 1 (pbuf ++ rbuf))) with (concat (map frame_bytes [frame 1 (pbuf ++ rbuf)])) by (cbn; by rewrite app_nil_r).
    rewrite split_frames_bytes; [done| |lia]. constructor; [|constructor]. apply frame_fits; rewrite ?zlen_app; lia.
  - exists [(ql_bidi q, headers_frame pbuf rbuf, false); (ql_bidi q, data_frame body, true)]. cbn [ql_sent].
    rewrite <-!app_assoc. split; [done|]. split; [by repeat constructor|]. split; [done|].
    cbn [map concat fst snd]. rewrite app_nil_r, headers_frame_bytes, data_frame_bytes by done.
    replace (frame_bytes (frame 1 (pbuf ++ rbuf)) ++ frame_bytes (frame 0 body))
      with (concat (map frame_bytes [frame 1 (pbuf ++ rbuf); frame 0 body])) by (cbn; by rewrite app_nil_r).
    rewrite split_frames_bytes; [done| |lia]. pose proof (zlen_nonneg body).
    constructor; [|constructor; [|constructor]]; apply frame_fits; rewrite ?zlen_app; lia.
Qed.

(** *** Receiving *)
(** The bytes of the response's stream, in reads; the last with the end. *)
Fixpoint feed_reads s (reads : list bytes) : H3Session :=
  match reads with
  | [] => s
  | c :: reads => feed_reads (h3_on_stream_data s (s3_req_stream_id s) c false) reads
  end.
Definition decoded s (fs : list (Z * bytes)) : Z * HeaderList * qpack_decoder :=
  fold_left (decode_block (s3_req_stream_id s)) (payloads 1 fs) (s3_status s, s3_headers s, s3_qdec s).
(** The response of a list of frames. *)
Definition response_of s (fs : list (Z * bytes)) : H3Response :=
  let '(status, headers, _) := decoded s fs in
  mkH3Response (negb (status =? 0)) (if status =? 0 then Some (lit "no response headers") else None) status headers
    (concat (payloads 0 fs)).

Lemma stream_data_eq s c :
  h3_on_stream_data s (s3_req_stream_id s) c false = set_s3_in (u8buf_append (s3_req_in s) c) s.
Proof. unfold h3_on_stream_data. by rewrite Z.eqb_refl. Qed.
Lemma stream_end_eq s c :
  h3_on_stream_data s (s3_req_stream_id s) c true = h3_finish_response (set_s3_fin (set_s3_in (u8buf_append (s3_req_in s) c) s)).
Proof. unfold h3_on_stream_data. by rewrite Z.eqb_refl. Qed.
Lemma feed_reads_spec s reads :
  exists b, u8_v b = u8_v (s3_req_in s) ++ concat reads /\ feed_reads s reads = set_s3_in b s.
Proof.
  revert s. induction reads as [|c reads IH]; intros s; cbn [feed_reads concat].
  - exists (s3_req_in s). rewrite app_nil_r. by destruct s.
  - rewrite stream_data_eq. destruct (IH (set_s3_in (u8buf_append (s3_req_in s) c) s)) as (b & Hb & ->).
    exists b. split; [|done]. rewrite Hb. cbn. by rewrite u8buf_append_v, <-app_assoc.
Qed.
Lemma finish_spec s :
  s3_delivered s = false ->
  s3_responses (h3_finish_response s) =
  s3_responses s ++ [response_of s (split_frames (S (length (u8_v (s3_req_in s)))) (u8_v (s3_req_in s)))] /\
  s3_delivered (h3_finish_response s) = true.
Proof.
  intros Hd. unfold h3_finish_response. rewrite Hd, parse_response_spec. unfold response_of, decoded.
  destruct (fold_left _ _ _) as [[status headers] qdec]. split; [|done]. cbn. by destruct (status =? 0).
Qed.

(** C20. A response, however the reads cut its bytes, is delivered exactly once: its
    status and headers are what the HEADERS frames decode to, in order, and its
    body is the payloads of the DATA frames, put together in place; unknown
    frames are skipped, and the peer may encode types and lengths in any
    width. *)
Theorem h3_response_in_place s reads last fs :
  s3_delivered s = false -> u8_v (s3_req_in s) = [] -> Forall frame_ok fs ->
  concat reads ++ last = concat (map frame_bytes fs) ->
  let s' := h3_on_stream_data (feed_reads s reads) (s3_req_stream_id s) last true in
  s3_responses s' = s3_responses s ++ [response_of s (frames_of fs)] /\
  forall data fin, s3_responses (h3_on_stream_data s' (s3_req_stream_id s) data fin) = s3_responses s'.
Proof.
  intros Hd Hin Hok Hcat. cbv zeta. destruct (feed_reads_spec s reads) as (b & Hb & ->). rewrite Hin in Hb. cbn [app] in Hb.
  set (s1 := set_s3_fin (set_s3_in (u8buf_append (s3_req_in (set_s3_in b s)) last) (set_s3_in b s))).
  pose proof (stream_end_eq (set_s3_in b s) last : h3_on_stream_data _ (s3_req_stream_id s) last true = h3_finish_response s1) as ->.
  assert (Hv : u8_v (s3_req_in s1) = concat (map frame_bytes fs)).
  { unfold s1. cbn. by rewrite u8buf_append_v, Hb. }
  destruct (finish_spec s1 Hd) as [Hr Hdel]. rewrite Hv, split_frames_bytes in Hr by (try done; lia). split; [exact Hr|].
  intros data fin. assert (Hid : s3_req_stream_id (h3_finish_response s1) = s3_req_stream_id s).
  { unfold h3_finish_response. change (s3_delivered s1) with (s3_delivered s). rewrite Hd. by destruct (parse_response _ _ _) as [[[? ?] ?] ?]. }
  set (s2 := h3_finish_response s1) in *.
  unfold h3_on_stream_data. rewrite Hid, Z.eqb_refl.
  destruct fin; [|done]. unfold h3_finish_response. change (s3_delivered (set_s3_fin _)) with (s3_delivered s2). by rewrite Hdel.
Qed.

(** A response whose stream is reset in the middle of a DATA frame is delivered
    as a complete one, with the bytes that had come, as soon as a status was
    read: the length of the frame is not checked against the bytes, and the
    end of the stream is taken from [h3_on_stream_close] as well. *)
Theorem h3_reset_truncates s reads fs body m status headers d :
  s3_delivered s = false -> s3_req_fin s = false -> u8_v (s3_req_in s) = [] -> Forall frame_ok fs -> zlen body < 2 ^ 62 ->
  (m < length body)%nat ->
  concat reads = concat (map frame_bytes fs) ++ take (length (frame_bytes (frame 0 body)) - length body + m) (frame_bytes (frame 0 body)) ->
  decoded s (frames_of fs) = (status, headers, d) -> status <> 0 ->
  s3_responses (h3_on_stream_close (feed_reads s reads) (s3_req_stream_id s)) =
  s3_responses s ++ [mkH3Response true None status headers (concat (payloads 0 (frames_of fs)) ++ take m body)].
Proof.
  intros Hd Hfin Hin Hok Hbl Hm Hcat Hdec Hst. destruct (feed_reads_spec s reads) as (b & Hb & ->). rewrite Hin in Hb. cbn [app] in Hb.
  unfold h3_on_stream_close. change (s3_req_stream_id (set_s3_in b s)) with (s3_req_stream_id s).
  change (s3_req_fin (set_s3_in b s)) with (s3_req_fin s). rewrite Z.eqb_refl, Hfin. cbn [andb negb].
  set (s1 := set_s3_fin _). destruct (finish_spec s1 Hd) as [Hr _]. rewrite Hr. change (s3_responses s1) with (s3_responses s).
  change (u8_v (s3_req_in s1)) with (u8_v b). rewrite Hb, Hcat. f_equal. f_equal.
  set (L := length (concat (map frame_bytes fs) ++ _)).
  assert (Hlen : exists k, S L = (length fs + S k)%nat).
  { pose proof (frames_length fs). exists (L - length fs)%nat. unfold L. rewrite length_app. lia. }
  destruct Hlen as (k & ->). rewrite split_frames_app by done.
  pose proof (split_cut (frame 0 body) m k (frame_fits 0 body ltac:(lia) Hbl) Hm) as Hc.
  change (f_payload (frame 0 body)) with body in Hc. rewrite Hc. change (f_type (frame 0 body)) with 0.
  unfold response_of, decoded in *. unfold payloads in *. rewrite !filter_app, !map_app. cbn [filter].
  rewrite filter_cons_False, filter_nil by done. rewrite filter_cons_True, filter_nil by done. cbn [map]. rewrite app_nil_r.
  change (s3_req_stream_id s1) with (s3_req_stream_id s). change (s3_status s1) with (s3_status s).
  change (s3_headers s1) with (s3_headers s). change (s3_qdec s1) with (s3_qdec s). rewrite Hdec.
  rewrite (proj2 (Z.eqb_neq status 0) Hst). cbn [negb]. by rewrite concat_app; cbn [concat]; rewrite app_nil_r.
Qed.
End properties.

(** ** A toy QPACK: each byte of a block is the value of a :status field *)
#[local] Instance toy_qpack : Qpack := {|
  qpack_encoder := unit; qpack_decoder := unit; qpack_context := unit;
  qpack_encoder_new := Some tt; qpack_decoder_new := Some tt; qpack_context_new _ := tt;
  qpack_encode e _ fs := (Some ([0; 0], concat (map snd fs)), e);
  qpack_read_request d c p :=
    match p with
    | [] => (mkQread 0 None true, d, c)
    | b :: _ => (mkQread 1 (Some (lit ":status", str8_from_u64 b 10 0)) false, d, c)
    end;
  qpack_read_encoder d _ := d
|}.
Definition demo_h3_session : H3Session :=
  mkH3 demo_h3_profile tt tt header_list_init 0 (u8buf_init 0) false false 0 [] [].
Ltac demo_frame := split; (split; [vm_compute; lia|split; [done|vm_compute; reflexivity]]).
Definition demo_reads : list bytes := [[1; 1; 200; 33]; [0; 0; 64; 2; 104]; []; [105; 0]].
Definition demo_frames : list H3Frame := [frame 1 [200]; frame 33 []; mkFrame 0 0 1 [104; 105]; frame 0 [33]].

Lemma h3_response_in_place_witness :
  map (fun r => (r3_status r, r3_body r))
    (s3_responses (h3_on_stream_data (feed_reads demo_h3_session demo_reads) 0 [1; 33] true)) = [(200, [104; 105; 33])].
Proof.
  refine (eq_trans (f_equal (map _) (proj1 (h3_response_in_place demo_h3_session demo_reads [1; 33] demo_frames _ _ _ _))) _);
    [reflexivity|reflexivity| |vm_compute; reflexivity|vm_compute; reflexivity].
  repeat (constructor; [demo_frame|]). constructor.
Defined.

Lemma h3_reset_truncates_witness :
  s3_responses (h3_on_stream_close (feed_reads demo_h3_session [[1; 1; 200; 0; 5]; [104; 105]]) 0) =
  [mkH3Response true None 200 header_list_init [104; 105]].
Proof.
  refine (eq_trans (h3_reset_truncates demo_h3_session [[1; 1; 200; 0; 5]; [104; 105]] [frame 1 [200]] [104; 105; 106; 107; 108] 2
    200 header_list_init tt _ _ _ _ _ _ _ _ _) _); try reflexivity; try (vm_compute; done).
  - constructor; [demo_frame|constructor].
  - cbn. lia.
Defined.

Definition demo_h3_headers : list Header := [mkHeader (lit "Cookie") (lit "b=1; c=2") 0].
Definition demo_h3_request : bool * H3Session * QLog :=
  h3_session_request demo_h3_session (mkQLog 0 2 []) (lit "GET") [] (lit "a") (lit "/") demo_h3_headers (lit "hi").

Lemma h3_request_wire_witness :
  exists last : list (Z * bytes * bool), map snd last = replicate (length last - 1) false ++ [true] /\
    let sent := concat (map (fun x => x.1.2) last) in
    split_frames (S (length sent)) sent = [(1, [0; 0] ++ lit "GETa/b=1c=2"); (0, lit "hi")].
Proof.
  assert (E1 : h3_session_request demo_h3_session (mkQLog 0 2 []) (lit "GET") [] (lit "a") (lit "/") demo_h3_headers (lit "hi")
    = (true, snd (fst demo_h3_request), snd demo_h3_request)) by reflexivity.
  assert (E2 : zlen [0; 0] + zlen (lit "GETa/b=1c=2") < 2 ^ 62) by (vm_compute; reflexivity).
  assert (E3 : zlen (lit "hi") < 2 ^ 62) by (vm_compute; reflexivity).
  assert (E4 : @qpack_encode toy_qpack tt 0 (map (pseudo_field (lit "GET") [] (lit "a") (lit "/")) (pseudo_order demo_h3_profile) ++
    crumbed_fields demo_h3_headers) = (Some ([0; 0], lit "GETa/b=1c=2"), tt)) by reflexivity.
  pose proof (h3_request_wire demo_h3_session (mkQLog 0 2 []) (lit "GET") [] (lit "a") (lit "/")
    demo_h3_headers (lit "hi") (snd (fst demo_h3_request)) (snd demo_h3_request) [0; 0] (lit "GETa/b=1c=2") tt E1 E4 E2 E3) as P.
  destruct P as (_ & last & _ & _ & H2 & H3).
  exists last. split; [exact H2|]. exact H3.
Defined.
