(* ===== verification/PartialState.v ===== *)
(** * A state monad with a partial result

    A computation over a state that may use memory that was given back: its
    value is then [None]. The weakest precondition [wp] asks that it does not,
    and that the postcondition holds of the result and the final state. Shared
    by the HTTP/2 session and the connection pool. *)
From S2P Require Import Prelude.

Definition PS (S A : Type) : Type := S -> option (A * S).
#[global] Instance PS_ret {S} : MRet (PS S) := fun A x s => Some (x, s).
#[global] Instance PS_bind {S} : MBind (PS S) := fun A B f m s => match m s with Some (x, s) => f x s | None => None end.

Section ops.
Context {S : Type}.
Definition pskip : PS S unit := mret tt.
(** A use of memory that was given back. *)
Definition bad {A} : PS S A := fun _ => None.
Definition pget {A} (f : S -> A) : PS S A := fun s => Some (f s, s).
Definition pupd (f : S -> S) : PS S unit := fun s => Some (tt, f s).
Definition pwhen (b : bool) (m : PS S unit) : PS S unit := if b then m else pskip.

(** ** Weakest preconditions *)
Definition wp {A} (m : PS S A) (Post : A -> S -> Prop) (s : S) : Prop :=
  match m s with Some (x, s') => Post x s' | None => False end.
Lemma wp_bind {A B} (m : PS S A) (f : A -> PS S B) Post s : wp m (fun x s' => wp (f x) Post s') s -> wp (x ← m; f x) Post s.
Proof. unfold wp, mbind, PS_bind. by destruct (m s) as [[x s']|]. Qed.
Lemma wp_ret {A} (x : A) (Post : A -> S -> Prop) s : Post x s -> wp (mret x) Post s.
Proof. done. Qed.
Lemma wp_mono {A} (m : PS S A) (P1 P2 : A -> S -> Prop) s : wp m P1 s -> (forall x s', P1 x s' -> P2 x s') -> wp m P2 s.
Proof. unfold wp. destruct (m s) as [[x s']|]; [|done]. intros H1 H2. by apply H2. Qed.
Lemma wp_pget {A} (f : S -> A) (Post : A -> S -> Prop) s : Post (f s) s -> wp (pget f) Post s.
Proof. done. Qed.
Lemma wp_pupd (f : S -> S) (Post : unit -> S -> Prop) s : Post tt (f s) -> wp (pupd f) Post s.
Proof. done. Qed.
Lemma wp_run {A} (m : PS S A) (Post : A -> S -> Prop) s : wp m Post s -> exists x s', m s = Some (x, s') /\ Post x s'.
Proof. unfold wp. destruct (m s) as [[x s']|]; [|done]. by exists x, s'. Qed.
Lemma run_wp {A} (m : PS S A) (Post : A -> S -> Prop) s x s' : wp m Post s -> m s = Some (x, s') -> Post x s'.
Proof. unfold wp. intros H E. by rewrite E in H. Qed.
End ops.

(** ** Computations that agree where one of them has a result *)
Definition below {S A} (m m' : PS S A) : Prop := forall s x, m s = Some x -> m' s = Some x.
Lemma below_refl {S A} (m : PS S A) : below m m.
Proof. by intros s x. Qed.
Lemma below_bad {S A} (m : PS S A) : below bad m.
Proof. by intros s x. Qed.
Lemma below_bind {S A B} (m m' : PS S A) (f f' : A -> PS S B) : below m m' -> (forall x, below (f x) (f' x)) -> below (x ← m; f x) (x ← m'; f' x).
Proof.
  intros Hm Hf s x. unfold mbind, PS_bind. destruct (m s) as [[y s1]|] eqn:E; [|done]. rewrite (Hm _ _ E). apply Hf.
Qed.
Lemma below_some {S A} (m m' : PS S A) s x : below m m' -> m' s = Some x -> m s = Some x \/ m s = None.
Proof. intros H E. destruct (m s) as [y|] eqn:Ey; [left|by right]. pose proof (H _ _ Ey) as Eb. by rewrite E in Eb; injection Eb as <-. Qed.
Lemma below_loop {S R} (f g : S -> S + option R) : (forall s, f s = g s \/ f s = inr None) ->
  forall k s, loop_pow k f s = loop_pow k g s \/ loop_pow k f s = inr None.
Proof.
  intros H k. induction k as [|k IH]; intros s; [apply H|]. unfold loop_pow; fold @loop_pow.
  destruct (IH s) as [-> | ->]; [|by right]. destruct (loop_pow k g s) as [s'|r]; [apply IH|by left].
Qed.
