(* ===== verification/Manager.v ===== *)
(** * The session manager: core/manager.c

    A registry of sessions by string id, shared by threads: a mutex makes each
    operation one step, so a run is any sequence of the operations. Sessions live
    on a heap by address; destroying one that is not there, or pinning one past
    the range of an [int], has no result. What a holder has between [get] and
    [release] is never destroyed, no session is lost, and no two have one id. *)
From stdpp Require Import gmap relations.
From S2P Require Import Prelude String8 Header Cookie Session.
From S2P Require Export PartialState.

(** A slot of the registry; [sl_session] is the address of its session. *)
Record ManagerSlot := mkSlot {
  sl_id : bytes;
  sl_session : option nat;
  sl_refcount : Z;
  sl_last_used_ns : Z;
  sl_in_use : bool
}.
(** [m_slots] are [slots[0 .. count)]. *)
Record Manager := mkManager {
  m_slots : list ManagerSlot;
  m_live : Z;
  m_cap : Z;
  m_max_sessions : Z;
  m_session_timeout_ns : Z
}.
Definition set_m_slots (v : list ManagerSlot) (m : Manager) : Manager :=
  mkManager v (m_live m) (m_cap m) (m_max_sessions m) (m_session_timeout_ns m).
Definition set_m_live (v : Z) (m : Manager) : Manager :=
  mkManager (m_slots m) v (m_cap m) (m_max_sessions m) (m_session_timeout_ns m).
Definition set_m_cap (v : Z) (m : Manager) : Manager :=
  mkManager (m_slots m) (m_live m) v (m_max_sessions m) (m_session_timeout_ns m).
Definition set_m_max (v : Z) (m : Manager) : Manager :=
  mkManager (m_slots m) (m_live m) (m_cap m) v (m_session_timeout_ns m).
Definition set_m_timeout (v : Z) (m : Manager) : Manager :=
  mkManager (m_slots m) (m_live m) (m_cap m) (m_max_sessions m) v.
Definition INT_MAX : Z := 2 ^ 31 - 1.
Definition zero_slot : ManagerSlot := mkSlot [] None 0 0 false.

(** The clock, the random bytes, and whether a session can be allocated. *)
Class MgrEnv (W : Type) := {
  mgr_hrtime : W -> Z * W;
  mgr_random : W -> bytes * W;           (* 16 bytes *)
  mgr_session_alloc : W -> bool * W
}.

Section manager.
Context {W : Type} `{!MgrEnv W}.
Record MgrSt := mkMgrSt {
  ms_m : Manager;
  ms_heap : gmap nat Session;
  ms_next : nat;                         (* the next address *)
  ms_w : W
}.
Abbreviation MM := (PS MgrSt).
Definition getm {A} (f : Manager -> A) : MM A := pget (f ∘ ms_m).
Definition updm (f : Manager -> Manager) : MM unit := pupd (fun s => mkMgrSt (f (ms_m s)) (ms_heap s) (ms_next s) (ms_w s)).
Definition menv {A} (f : W -> A * W) : MM A := fun s => let '(x, w) := f (ms_w s) in Some (x, mkMgrSt (ms_m s) (ms_heap s) (ms_next s) w).
Definition upd_slot (i : nat) (f : ManagerSlot -> ManagerSlot) : MM unit := updm (fun m => set_m_slots (alter f i (m_slots m)) m).
(** [session_create] and [session_destroy] on the heap. *)
Definition heap_add (x : Session) : MM nat :=
  fun s => Some (ms_next s, mkMgrSt (ms_m s) (<[ms_next s := x]> (ms_heap s)) (S (ms_next s)) (ms_w s)).
Definition new_session (cfg : option SessionConfig) : MM (option nat) :=
  ok ← menv mgr_session_alloc;
  if ok : bool then h ← heap_add (session_create cfg); mret (Some h) else mret None.
Definition session_destroy (h : option nat) : MM unit :=
  match h with
  | None => pskip
  | Some h => fun s =>
      match ms_heap s !! h with
      | Some _ => Some (tt, mkMgrSt (ms_m s) (delete h (ms_heap s)) (ms_next s) (ms_w s))
      | None => None
      end
  end.

Definition manager_init : Manager := mkManager [] 0 0 0 0.
Definition manager_set_max_sessions (n : Z) : MM unit := updm (set_m_max n).
Definition manager_set_session_timeout (ms : Z) : MM unit := updm (set_m_timeout (wrap64 (ms * 1000000))).
Definition manager_hex (raw : bytes) : bytes := hex_encode raw.
Fixpoint manager_find (slots : list ManagerSlot) (id : bytes) : option nat :=
  match slots with
  | [] => None
  | sl :: slots => if sl_in_use sl && bool_decide (sl_id sl = id) then Some 0%nat else S <$> manager_find slots id
  end.
Fixpoint find_free (slots : list ManagerSlot) : option nat :=
  match slots with
  | [] => None
  | sl :: slots => if negb (sl_in_use sl) then Some 0%nat else S <$> find_free slots
  end.
Definition manager_alloc_slot : MM nat :=
  slots ← getm m_slots;
  match find_free slots with
  | Some i => mret i
  | None =>
      cap ← getm m_cap;
      pwhen (Z.of_nat (length slots) =? cap) (updm (set_m_cap (if cap =? 0 then 16 else wrap64 (cap * 2))));;
      updm (fun m => set_m_slots (m_slots m ++ [zero_slot]) m);;
      mret (length slots)
  end.
(** The oldest session that nobody has and that was idle for the timeout. *)
Definition evictable (now timeout : Z) (sl : ManagerSlot) : bool :=
  sl_in_use sl && (sl_refcount sl =? 0) && (timeout <=? wrap64 (now - sl_last_used_ns sl)).
Fixpoint pick_victim (now timeout : Z) (slots : list ManagerSlot) (i : nat) (victim : option (nat * ManagerSlot)) : option (nat * ManagerSlot) :=
  match slots with
  | [] => victim
  | sl :: slots =>
      let older := match victim with None => true | Some (_, v) => sl_last_used_ns sl <? sl_last_used_ns v end in
      pick_victim now timeout slots (S i) (if evictable now timeout sl && older then Some (i, sl) else victim)
  end.
Definition set_free (sl : ManagerSlot) : ManagerSlot := mkSlot (sl_id sl) None (sl_refcount sl) (sl_last_used_ns sl) false.
(** Room for one more: [false] when the registry is full and nothing can go. *)
Definition make_room : MM bool :=
  maxs ← getm m_max_sessions;
  live ← getm m_live;
  if negb (maxs =? 0) && (maxs <=? live) then
    now ← menv mgr_hrtime;
    timeout ← getm m_session_timeout_ns;
    slots ← getm m_slots;
    match (if negb (timeout =? 0) then pick_victim now timeout slots 0 None else None) with
    | None => mret false
    | Some (i, v) =>
        session_destroy (sl_session v);;
        upd_slot i set_free;;
        updm (fun m => set_m_live (wrap64 (m_live m - 1)) m);;
        mret true
    end
  else mret true.
(** Draws an id until it is new, into a slot that is not in use. *)
Definition draw_id (i : nat) : MM bytes :=
  fun s =>
    match loop_pow 64 (fun s : MgrSt =>
        let '(raw, w) := mgr_random (ms_w s) in
        let id := manager_hex raw in
        let s := mkMgrSt (set_m_slots (alter (fun sl => mkSlot id (sl_session sl) (sl_refcount sl) (sl_last_used_ns sl) (sl_in_use sl)) i
                                         (m_slots (ms_m s))) (ms_m s)) (ms_heap s) (ms_next s) w in
        match manager_find (m_slots (ms_m s)) id with Some _ => inl s | None => inr (id, s) end) s with
    | inl _ => None
    | inr x => Some x
    end.
Definition manager_create_session (cfg : option SessionConfig) : MM (option bytes) :=
  room ← make_room;
  if negb room then mret None
  else
    sess ← new_session cfg;
    match sess with
    | None => mret None
    | Some h =>
        i ← manager_alloc_slot;
        id ← draw_id i;
        now ← menv mgr_hrtime;
        upd_slot i (fun sl => mkSlot (sl_id sl) (Some h) 0 now true);;
        updm (fun m => set_m_live (wrap64 (m_live m + 1)) m);;
        mret (Some id)
    end.
(** [refcount++] past [INT_MAX] is undefined. *)
Definition manager_get_session (id : bytes) : MM (option nat) :=
  slots ← getm m_slots;
  match manager_find slots id with
  | None => mret None
  | Some i =>
      match slots !! i with
      | Some sl =>
          if INT_MAX <=? sl_refcount sl then bad
          else
            upd_slot i (fun sl => mkSlot (sl_id sl) (sl_session sl) (sl_refcount sl + 1) (sl_last_used_ns sl) (sl_in_use sl));;
            mret (sl_session sl)
      | None => mret None
      end
  end.
Definition manager_release_session (id : bytes) : MM unit :=
  slots ← getm m_slots;
  match manager_find slots id with
  | None => pskip
  | Some i =>
      upd_slot i (fun sl => if 0 <? sl_refcount sl then mkSlot (sl_id sl) (sl_session sl) (sl_refcount sl - 1) (sl_last_used_ns sl) (sl_in_use sl) else sl);;
      now ← menv mgr_hrtime;
      upd_slot i (fun sl => mkSlot (sl_id sl) (sl_session sl) (sl_refcount sl) now (sl_in_use sl))
  end.
Fixpoint destroy_all (n i : nat) : MM unit :=
  match n with
  | O => pskip
  | S n =>
      slots ← getm m_slots;
      match slots !! i with
      | Some sl =>
          pwhen (sl_in_use sl)
            (session_destroy (sl_session sl);;
             upd_slot i (fun sl => mkSlot (sl_id sl) (sl_session sl) (sl_refcount sl) (sl_last_used_ns sl) false))
      | None => pskip
      end;;
      destroy_all n (S i)
  end.
Definition manager_shutdown : MM unit :=
  n ← getm (fun m => length (m_slots m));
  destroy_all n 0;;
  updm (set_m_live 0).
End manager.
Arguments MgrSt : clear implicits.

(** ** Searching the slots *)
Lemma manager_find_Some slots id i : manager_find slots id = Some i ->
  exists sl, slots !! i = Some sl /\ sl_in_use sl = true /\ sl_id sl = id.
Proof.
  revert i. induction slots as [|sl slots IH]; intros i; cbn [manager_find]; [done|].
  destruct (sl_in_use sl && bool_decide (sl_id sl = id)) eqn:E.
  - intros [= <-]. exists sl. apply andb_true_iff in E as [? ?%bool_decide_eq_true]. done.
  - intros (j & Hj & ->)%fmap_Some. by apply IH.
Qed.
Lemma manager_find_None slots id : manager_find slots id = None ->
  forall i sl, slots !! i = Some sl -> sl_in_use sl = true -> sl_id sl <> id.
Proof.
  induction slots as [|sl slots IH]; cbn [manager_find]; [done|].
  destruct (sl_in_use sl && bool_decide (sl_id sl = id)) eqn:E; [done|]. intros Hn%fmap_None [|i] sl' Hi Hu.
  - injection Hi as ->. rewrite Hu in E. by apply bool_decide_eq_false in E.
  - by apply (IH Hn i).
Qed.
Lemma find_free_Some slots i : find_free slots = Some i -> exists sl, slots !! i = Some sl /\ sl_in_use sl = false.
Proof.
  revert i. induction slots as [|sl slots IH]; intros i; cbn [find_free]; [done|].
  destruct (sl_in_use sl) eqn:E; [|by intros [= <-]; exists sl]. by intros (j & Hj%IH & ->)%fmap_Some.
Qed.
Lemma pick_victim_spec now timeout slots k victim :
  match pick_victim now timeout slots k victim with
  | Some (i, v) =>
      (victim = Some (i, v) \/ (exists j, i = (k + j)%nat /\ slots !! j = Some v /\ evictable now timeout v = true)) /\
      (forall y, evictable now timeout y = true -> y ∈ slots -> sl_last_used_ns v <= sl_last_used_ns y) /\
      (forall x, victim = Some x -> sl_last_used_ns v <= sl_last_used_ns x.2)
  | None => victim = None /\ (forall y, y ∈ slots -> evictable now timeout y = false)
  end.
Proof.
  revert k victim. induction slots as [|sl slots IH]; intros k victim; cbn [pick_victim].
  { destruct victim as [[i v]|]; [|by split; [|intros y ?%elem_of_nil]].
    split_and!; [by left|by intros y _ ?%elem_of_nil|]. intros x [= <-]. done. }
  set (older := match victim with None => true | Some (_, v) => sl_last_used_ns sl <? sl_last_used_ns v end).
  specialize (IH (S k) (if evictable now timeout sl && older then Some (k, sl) else victim)).
  destruct (pick_victim _ _ _ _ _) as [[i v]|].
  - destruct IH as (Hv & Hy & Hx). split_and!.
    + destruct Hv as [Hv|(j & -> & ? & ?)]; [|right; exists (S j); split; [lia|done]].
      destruct (evictable now timeout sl && older) eqn:E; [|by left]. injection Hv as <- <-. apply andb_true_iff in E as [? _].
      right. exists 0%nat. split; [lia|done].
    + intros y Hev [->|Hin]%elem_of_cons; [|by apply Hy]. rewrite Hev in Hx. cbn in Hx. destruct older eqn:Ho; [by apply (Hx (k, sl))|].
      subst older. destruct victim as [[j x]|]; [|done]. apply Z.ltb_ge in Ho. specialize (Hx (j, x) eq_refl). cbn in *. lia.
    + intros x ->. destruct (evictable now timeout sl && older) eqn:E; [|by apply Hx]. apply andb_true_iff in E as [_ Ho].
      specialize (Hx (k, sl) eq_refl). subst older. destruct x as [j x]. apply Z.ltb_lt in Ho. cbn in *. lia.
  - destruct IH as [Hv Hy]. destruct (evictable now timeout sl && older) eqn:E; [done|]. split; [done|].
    intros y [->|Hin]%elem_of_cons; [|by apply Hy]. subst victim older. by rewrite andb_true_r in E.
Qed.

(** ** The invariant

    [H] are the holders: an entry [(id, h)] for each [get] that was not released. *)
Definition holds (id : bytes) (H : list (bytes * nat)) : nat := length (filter (fun p => p.1 = id) H).
Definition live_slot (slots : list ManagerSlot) (i : nat) (sl : ManagerSlot) : Prop := slots !! i = Some sl /\ sl_in_use sl = true.
Record reg_inv (slots : list ManagerSlot) (heap : gmap nat Session) (H : list (bytes * nat)) : Prop := {
  ri_use i sl : live_slot slots i sl -> exists h, sl_session sl = Some h /\ is_Some (heap !! h) /\ sl_refcount sl = Z.of_nat (holds (sl_id sl) H);
  ri_heap h : is_Some (heap !! h) -> exists i sl, live_slot slots i sl /\ sl_session sl = Some h;
  ri_id i j sl sl' : live_slot slots i sl -> live_slot slots j sl' -> sl_id sl = sl_id sl' -> i = j;
  ri_sess i j sl sl' : live_slot slots i sl -> live_slot slots j sl' -> sl_session sl = sl_session sl' -> i = j;
  ri_held p : p ∈ H -> exists i sl, live_slot slots i sl /\ sl_id sl = p.1 /\ sl_session sl = Some p.2
}.
Definition used (slots : list ManagerSlot) : nat := length (filter (fun sl => sl_in_use sl = true) slots).
#[global] Arguments used : simpl never.
#[global] Arguments holds : simpl never.
Record mgr_inv_at (m : Manager) (heap : gmap nat Session) (next : nat) (H : list (bytes * nat)) : Prop := {
  mi_reg : reg_inv (m_slots m) heap H;
  mi_next h : is_Some (heap !! h) -> (h < next)%nat;
  mi_live : m_live m = wrap64 (Z.of_nat (used (m_slots m)));
  mi_cap : Z.of_nat (length (m_slots m)) <= m_cap m
}.
Definition mgr_inv {W} (s : MgrSt W) (H : list (bytes * nat)) : Prop := mgr_inv_at (ms_m s) (ms_heap s) (ms_next s) H.

Lemma used_insert slots i sl sl' : slots !! i = Some sl ->
  (used (<[i := sl']> slots) + Nat.b2n (sl_in_use sl) = used slots + Nat.b2n (sl_in_use sl'))%nat.
Proof.
  unfold used. revert i. induction slots as [|x slots IH]; intros [|i] Hi; [done..| |].
  - injection Hi as ->. change (<[O := sl']> (sl :: slots)) with (sl' :: slots). rewrite !filter_cons.
    destruct (sl_in_use sl), (sl_in_use sl'); repeat case_decide; try done; cbn [length Nat.b2n]; lia.
  - change (<[S i := sl']> (x :: slots)) with (x :: <[i := sl']> slots). rewrite !filter_cons. apply IH in Hi.
    case_decide; cbn [length]; lia.
Qed.
Lemma live_slot_insert slots i x y j sl : slots !! i = Some x ->
  live_slot (<[i := y]> slots) j sl <-> (j = i /\ sl = y /\ sl_in_use y = true) \/ (j <> i /\ live_slot slots j sl).
Proof.
  intros Hi. unfold live_slot. destruct (decide (j = i)) as [->|Hj].
  - rewrite list_lookup_insert_eq by (by eapply lookup_lt_Some). naive_solver.
  - rewrite list_lookup_insert_ne by done. naive_solver.
Qed.
Lemma holds_cons id p H : holds id (p :: H) = ((if decide (p.1 = id) then 1 else 0) + holds id H)%nat.
Proof. unfold holds. rewrite filter_cons. by destruct (decide (p.1 = id)). Qed.

(** *** What a step does to the slots *)
Lemma reg_inv_count slots heap H H' i sl sl' : reg_inv slots heap H -> live_slot slots i sl ->
  sl_id sl' = sl_id sl -> sl_session sl' = sl_session sl -> sl_in_use sl' = true ->
  sl_refcount sl' = Z.of_nat (holds (sl_id sl) H') ->
  (forall id, id <> sl_id sl -> holds id H' = holds id H) ->
  (forall p, p ∈ H' -> p ∈ H \/ (p.1 = sl_id sl /\ sl_session sl = Some p.2)) ->
  reg_inv (<[i := sl']> slots) heap H'.
Proof.
  intros HR Hl E1 E2 E3 E4 Ho Hp. destruct (Hl) as [Hi Hu].
  assert (Hback : forall j x, live_slot (<[i := sl']> slots) j x -> exists y, live_slot slots j y /\ sl_id y = sl_id x /\ sl_session y = sl_session x).
  { intros j x [(-> & -> & _)|(? & ?)]%(live_slot_insert _ _ sl); [exists sl|exists x|]; done. }
  assert (Hforth : forall j x, live_slot slots j x -> exists y, live_slot (<[i := sl']> slots) j y /\ sl_id y = sl_id x /\ sl_session y = sl_session x).
  { intros j x Hx. destruct (decide (j = i)) as [->|].
    - exists sl'. rewrite (live_slot_insert _ _ sl) by done. destruct Hx as [Hx _]. rewrite Hi in Hx. injection Hx as <-. auto.
    - exists x. rewrite (live_slot_insert _ _ sl) by done. auto. }
  split.
  - intros j x [(-> & -> & _)|(Hj & Hx)]%(live_slot_insert _ _ sl); [| |done].
    + destruct (ri_use _ _ _ HR _ _ Hl) as (h & ? & ? & _). exists h. by rewrite E1, E2.
    + destruct (ri_use _ _ _ HR _ _ Hx) as (h & ? & ? & Hr). exists h. split_and!; [done..|].
      rewrite Ho; [done|]. intros E. by apply Hj, (ri_id _ _ _ HR _ _ _ _ Hx Hl).
  - intros h (j & x & (y & Hy & _ & Es)%Hforth & ?)%(ri_heap _ _ _ HR). exists j, y. by rewrite Es.
  - intros j k x y (x' & Hx & <- & _)%Hback (y' & Hy & <- & _)%Hback E. by apply (ri_id _ _ _ HR _ _ _ _ Hx Hy).
  - intros j k x y (x' & Hx & _ & <-)%Hback (y' & Hy & _ & <-)%Hback E. by apply (ri_sess _ _ _ HR _ _ _ _ Hx Hy).
  - intros p [Hin|[Eid Es]]%Hp.
    + destruct (ri_held _ _ _ HR _ Hin) as (j & x & (y & Hy & Ei & Es)%Hforth & ? & ?). exists j, y. by rewrite Ei, Es.
    + exists i, sl'. rewrite (live_slot_insert _ _ sl), E1, E2 by done. auto.
Qed.
Lemma reg_inv_free slots heap H i sl h : reg_inv slots heap H -> live_slot slots i sl -> sl_refcount sl = 0 -> sl_session sl = Some h ->
  reg_inv (<[i := set_free sl]> slots) (delete h heap) H.
Proof.
  intros HR Hl Hr Hh. destruct (Hl) as [Hi Hu].
  assert (Hls : forall j x, live_slot (<[i := set_free sl]> slots) j x <-> j <> i /\ live_slot slots j x).
  { intros j x. rewrite (live_slot_insert _ _ sl) by done. cbn. naive_solver. }
  assert (Hfree : holds (sl_id sl) H = 0%nat).
  { destruct (ri_use _ _ _ HR _ _ Hl) as (? & _ & _ & Hc). lia. }
  split.
  - intros j x [Hj Hx]%Hls. destruct (ri_use _ _ _ HR _ _ Hx) as (h' & Es & ? & ?). exists h'.
    rewrite lookup_delete_ne; [done|]. intros <-. apply Hj, (ri_sess _ _ _ HR _ _ _ _ Hx Hl). congruence.
  - intros h' Hs. destruct (decide (h' = h)) as [->|]; [by rewrite lookup_delete_eq in Hs; destruct Hs|].
    rewrite lookup_delete_ne in Hs by done. destruct (ri_heap _ _ _ HR _ Hs) as (j & x & Hx & Es). exists j, x.
    rewrite Hls. split_and!; try done. intros ->. destruct Hx as [Hx _]. congruence.
  - intros j k x y [_ Hx]%Hls [_ Hy]%Hls. by apply (ri_id _ _ _ HR).
  - intros j k x y [_ Hx]%Hls [_ Hy]%Hls. by apply (ri_sess _ _ _ HR).
  - intros p Hp. destruct (ri_held _ _ _ HR _ Hp) as (j & x & Hx & Ei & Es). exists j, x. rewrite Hls. split_and!; try done.
    intros ->. destruct Hx as [Hx _]. assert (x = sl) as -> by congruence. unfold holds in Hfree.
    apply length_zero_iff_nil in Hfree. apply (not_elem_of_nil p). rewrite <- Hfree. apply list_elem_of_filter. done.
Qed.
Lemma reg_inv_ext slots slots' heap H : (forall i sl, live_slot slots' i sl <-> live_slot slots i sl) ->
  reg_inv slots heap H -> reg_inv slots' heap H.
Proof.
  intros E HR. split.
  - intros i sl Hl%E. by apply (ri_use _ _ _ HR i).
  - intros h (i & sl & Hl%E & ?)%(ri_heap _ _ _ HR). by exists i, sl.
  - intros i j sl sl' Hl%E Hl'%E. by apply (ri_id _ _ _ HR).
  - intros i j sl sl' Hl%E Hl'%E. by apply (ri_sess _ _ _ HR).
  - intros p (i & sl & Hl%E & ?)%(ri_held _ _ _ HR). by exists i, sl.
Qed.
Lemma holds_none slots heap H id : reg_inv slots heap H -> (forall i sl, live_slot slots i sl -> sl_id sl <> id) -> holds id H = 0%nat.
Proof.
  intros HR Hn. unfold holds. apply length_zero_iff_nil. destruct (filter _ H) as [|p l] eqn:E; [done|].
  assert (Hp : p ∈ filter (fun p => p.1 = id) H) by (rewrite E; left). apply list_elem_of_filter in Hp as [Hid Hp].
  destruct (ri_held _ _ _ HR _ Hp) as (i & sl & Hl & Ei & _). exfalso. apply (Hn i sl Hl). congruence.
Qed.
Lemma reg_inv_fill slots heap H i sl id h x now : reg_inv slots heap H -> slots !! i = Some sl -> sl_in_use sl = false ->
  (forall j y, live_slot slots j y -> sl_id y <> id) -> heap !! h = None ->
  reg_inv (<[i := mkSlot id (Some h) 0 now true]> slots) (<[h := x]> heap) H.
Proof.
  intros HR Hi Hu Hid Hh. set (n := mkSlot id (Some h) 0 now true).
  assert (Hne : forall j y, live_slot slots j y -> j <> i) by (intros j y [Hj Hy] ->; congruence).
  assert (Hold : forall j y, live_slot slots j y -> sl_session y <> Some h).
  { intros j y Hy E. destruct (ri_use _ _ _ HR _ _ Hy) as (h' & E' & [z Hz] & _). congruence. }
  assert (Hback : forall j y, live_slot (<[i := n]> slots) j y -> (j = i /\ y = n) \/ live_slot slots j y).
  { intros j y [(? & ? & _)|(_ & ?)]%(live_slot_insert _ _ sl); auto. }
  assert (Hforth : forall j y, live_slot slots j y -> live_slot (<[i := n]> slots) j y).
  { intros j y Hy. rewrite (live_slot_insert _ _ sl) by done. right. split; [by eapply Hne|done]. }
  assert (Hn : live_slot (<[i := n]> slots) i n) by (rewrite (live_slot_insert _ _ sl) by done; auto).
  split.
  - intros j y [[-> ->]|Hy]%Hback.
    + exists h. rewrite lookup_insert_eq. split_and!; [done..|]. cbn. by rewrite (holds_none slots heap H).
    + destruct (ri_use _ _ _ HR _ _ Hy) as (h' & ? & ? & ?). exists h'. split_and!; [done| |done].
      rewrite lookup_insert_ne; [done|]. intros <-. by apply (Hold j y).
  - intros h' Hh'. destruct (decide (h' = h)) as [->|]; [by exists i, n|].
    rewrite lookup_insert_ne in Hh' by done. destruct (ri_heap _ _ _ HR _ Hh') as (j & y & Hy & ?). exists j, y. auto.
  - intros j k y z [[-> ->]|Hy]%Hback [[-> ->]|Hz]%Hback E; [done| | |by apply (ri_id _ _ _ HR _ _ y z)].
    + by apply Hid in Hz.
    + by apply Hid in Hy.
  - intros j k y z [[-> ->]|Hy]%Hback [[-> ->]|Hz]%Hback E; [done| | |by apply (ri_sess _ _ _ HR _ _ y z)].
    + by apply Hold in Hz.
    + by apply Hold in Hy.
  - intros p (j & y & Hy & ?)%(ri_held _ _ _ HR). exists j, y. auto.
Qed.
Lemma live_slot_zero slots i sl : live_slot (slots ++ [zero_slot]) i sl <-> live_slot slots i sl.
Proof.
  unfold live_slot. split; [|intros [? ?]; split; [by apply lookup_app_l_Some|done]].
  intros [[?|[_ Hz]]%lookup_app_Some Hu]; [done|]. apply list_lookup_singleton_Some in Hz as [_ <-]. done.
Qed.
Lemma used_zero slots : used (slots ++ [zero_slot]) = used slots.
Proof. unfold used. rewrite filter_app. cbn. by rewrite app_nil_r. Qed.
Lemma used_ext_insert slots i sl sl' : slots !! i = Some sl -> sl_in_use sl' = sl_in_use sl -> used (<[i := sl']> slots) = used slots.
Proof. intros Hi E. pose proof (used_insert slots i sl sl' Hi) as Hu. rewrite E in Hu. lia. Qed.
Lemma live_find slots i sl : live_slot slots i sl -> (forall j y, live_slot slots j y -> sl_id y = sl_id sl -> j = i) ->
  manager_find slots (sl_id sl) = Some i.
Proof.
  intros Hl Hu. destruct (manager_find slots (sl_id sl)) as [j|] eqn:E.
  - apply manager_find_Some in E as (y & ? & ? & ?). f_equal. by apply (Hu j y).
  - destruct Hl. by destruct (manager_find_None _ _ E i sl).
Qed.

(** ** The operations *)
Section ops_safe.
Context {W : Type} `{!MgrEnv W}.
Implicit Types (s : MgrSt W) (H : list (bytes * nat)).
Lemma wp_menv {A} (f : W -> A * W) (Post : A -> MgrSt W -> Prop) s :
  (forall x w, f (ms_w s) = (x, w) -> Post x (mkMgrSt (ms_m s) (ms_heap s) (ms_next s) w)) -> wp (menv f) Post s.
Proof. unfold wp, menv. destruct (f (ms_w s)) as [x w]. auto. Qed.
Lemma wp_session_destroy h (Post : unit -> MgrSt W -> Prop) s : is_Some (ms_heap s !! h) ->
  Post tt (mkMgrSt (ms_m s) (delete h (ms_heap s)) (ms_next s) (ms_w s)) -> wp (session_destroy (Some h)) Post s.
Proof. intros [x Hx] HP. unfold wp, session_destroy. by rewrite Hx. Qed.
Lemma mgr_inv_w s H (w : W) : mgr_inv s H -> mgr_inv (mkMgrSt (ms_m s) (ms_heap s) (ms_next s) w) H.
Proof. done. Qed.
Lemma alter_insert_Some {A} (f : A -> A) i x (l : list A) : l !! i = Some x -> alter f i l = <[i := f x]> l.
Proof.
  intros Hi. apply list_eq. intros j. destruct (decide (i = j)) as [<-|].
  - rewrite list_lookup_alter_eq, list_lookup_insert_eq, Hi by (by eapply lookup_lt_Some). done.
  - by rewrite list_lookup_alter_ne, list_lookup_insert_ne by done.
Qed.
(** A slot is rewritten and stays in use, or not, as it was. *)
Lemma mgr_inv_slot m heap next H H' i sl sl' : mgr_inv_at m heap next H -> m_slots m !! i = Some sl -> sl_in_use sl' = sl_in_use sl ->
  reg_inv (<[i := sl']> (m_slots m)) heap H' -> mgr_inv_at (set_m_slots (<[i := sl']> (m_slots m)) m) heap next H'.
Proof.
  intros [HR Hn Hl Hc] Hi E HR'. split; cbn; [done|done|by rewrite (used_ext_insert _ _ sl)|by rewrite length_insert].
Qed.
Lemma inv_find s H p : mgr_inv s H -> p ∈ H -> exists i sl, manager_find (m_slots (ms_m s)) p.1 = Some i /\
  live_slot (m_slots (ms_m s)) i sl /\ sl_id sl = p.1 /\ sl_session sl = Some p.2.
Proof.
  intros HI Hp. destruct (ri_held _ _ _ (mi_reg _ _ _ _ HI) _ Hp) as (i & sl & Hl & Ei & Es). exists i, sl. split_and!; try done.
  rewrite <- Ei. apply live_find; [done|]. intros j y Hy E. by apply (ri_id _ _ _ (mi_reg _ _ _ _ HI) _ _ _ _ Hy Hl).
Qed.

Lemma wp_get id s H : mgr_inv s H -> Z.of_nat (length H) < INT_MAX ->
  wp (manager_get_session id)
    (fun r s' => match r with
                 | Some h => mgr_inv s' ((id, h) :: H)
                 | None => s' = s /\ manager_find (m_slots (ms_m s)) id = None
                 end) s.
Proof.
  intros HI Hb. unfold manager_get_session. apply wp_bind, wp_pget. cbn.
  destruct (manager_find (m_slots (ms_m s)) id) as [i|] eqn:E; [|by apply wp_ret].
  apply manager_find_Some in E as (sl & Hi & Hu & Hid). rewrite Hi.
  destruct (ri_use _ _ _ (mi_reg _ _ _ _ HI) i sl (conj Hi Hu)) as (h & Hs & Hh & Hr).
  assert (Hle : (holds (sl_id sl) H <= length H)%nat) by apply length_filter.
  rewrite (proj2 (Z.leb_gt _ _)) by lia.
  apply wp_bind, wp_pupd, wp_ret. rewrite Hs. rewrite (alter_insert_Some _ i sl) by done. apply (mgr_inv_slot (ms_m s) (ms_heap s) (ms_next s) H _ i sl); [done..|].
  apply (reg_inv_count _ _ H _ i sl); try done; cbn.
  - apply (mi_reg _ _ _ _ HI).
  - rewrite holds_cons, Hr. cbn. rewrite Hid, decide_True by done. lia.
  - intros id' Hne. rewrite holds_cons. cbn. rewrite decide_False; [done|]. congruence.
  - intros p [->|Hp]%elem_of_cons; [right|by left]. done.
Qed.
Lemma wp_release p s H H' : mgr_inv s H -> H ≡ₚ p :: H' ->
  wp (manager_release_session p.1) (fun _ s' => mgr_inv s' H') s.
Proof.
  intros HI HP. unfold manager_release_session. apply wp_bind, wp_pget. cbn.
  destruct (inv_find s H p) as (i & sl & -> & Hl & Hid & Hs); [done|rewrite HP; left|].
  destruct (ri_use _ _ _ (mi_reg _ _ _ _ HI) i sl Hl) as (_ & _ & _ & Hr). destruct (Hl) as [Hi Hu].
  assert (Hc : forall id, holds id H = ((if decide (p.1 = id) then 1 else 0) + holds id H')%nat).
  { intros id. rewrite <- holds_cons. unfold holds. by rewrite HP. }
  rewrite Hc, Hid, decide_True in Hr by done.
  apply wp_bind, wp_pupd. rewrite (alter_insert_Some _ i sl) by done. rewrite (proj2 (Z.ltb_lt _ _)) by lia.
  apply wp_bind, wp_menv. intros now w _. apply wp_pupd. cbn.
  erewrite alter_insert_Some by (apply list_lookup_insert_eq; by eapply lookup_lt_Some). rewrite list_insert_insert_eq.
  apply (mgr_inv_slot (ms_m s) (ms_heap s) (ms_next s) H H' i sl); [done..|].
  apply (reg_inv_count _ _ H _ i sl); try done; cbn.
  - apply (mi_reg _ _ _ _ HI).
  - rewrite Hid. lia.
  - intros id' Hne. rewrite Hc, decide_False; [done|]. congruence.
  - intros q Hq. left. rewrite HP. by right.
Qed.

(** *** Room for a session *)
Definition full s : bool := negb (m_max_sessions (ms_m s) =? 0) && (m_max_sessions (ms_m s) <=? m_live (ms_m s)).
Definition registered s (sl : ManagerSlot) : Prop := exists i, live_slot (m_slots (ms_m s)) i sl.
(** What [make_room] could take: idle for the timeout, which is not zero. *)
Definition idle s (now : Z) (sl : ManagerSlot) : Prop :=
  registered s sl /\ m_session_timeout_ns (ms_m s) <> 0 /\ evictable now (m_session_timeout_ns (ms_m s)) sl = true.
Definition evicted s (now : Z) (v : ManagerSlot) : Prop :=
  idle s now v /\ forall y, idle s now y -> sl_last_used_ns v <= sl_last_used_ns y.
Definition heap_less s (e : option ManagerSlot) : gmap nat Session :=
  match e with Some v => from_option (fun h => delete h (ms_heap s)) (ms_heap s) (sl_session v) | None => ms_heap s end.
Definition same_max s s' : Prop :=
  m_max_sessions (ms_m s') = m_max_sessions (ms_m s) /\ m_session_timeout_ns (ms_m s') = m_session_timeout_ns (ms_m s) /\
  m_cap (ms_m s') = m_cap (ms_m s) /\ ms_next s' = ms_next s.
(** How there is room: there was, or [e] goes. *)
Definition room_by s (e : option ManagerSlot) : Prop :=
  match e with None => full s = false | Some v => full s = true /\ evicted s (mgr_hrtime (ms_w s)).1 v end.
Lemma evictable_live now timeout sl : evictable now timeout sl = true -> sl_in_use sl = true /\ sl_refcount sl = 0.
Proof. unfold evictable. intros [[? ?%Z.eqb_eq]%andb_true_iff _]%andb_true_iff. done. Qed.
Lemma idle_elem s now sl : idle s now sl -> sl ∈ m_slots (ms_m s).
Proof. intros [[i [Hi _]] _]. by eapply list_elem_of_lookup_2. Qed.
Lemma wp_make_room s H : mgr_inv s H ->
  wp make_room (fun b s' =>
    mgr_inv s' H /\ same_max s s' /\
    if b then exists e, ms_heap s' = heap_less s e /\
                room_by s e /\
                (forall sl, registered s' sl <-> registered s sl /\ Some sl <> e)
    else full s = true /\ (forall sl, ~ idle s (mgr_hrtime (ms_w s)).1 sl) /\ ms_m s' = ms_m s /\ ms_heap s' = ms_heap s) s.
Proof.
  intros HI. unfold make_room. do 2 apply wp_bind, wp_pget. cbn beta. unfold compose at 1 2 3.
  change (negb _ && _) with (full s). destruct (full s) eqn:Hf.
  2: { apply wp_ret. split_and!; [done..|]. exists None. split_and!; [done..|]. intros sl. by split; [|intros []]. }
  apply wp_bind, wp_menv. intros now w Ew. do 2 apply wp_bind, wp_pget. cbn. rewrite Ew. cbn.
  set (t := m_session_timeout_ns (ms_m s)). set (slots := m_slots (ms_m s)).
  destruct (t =? 0) eqn:Ht; cbn.
  { apply wp_ret. split_and!; try done. intros sl (_ & Hn & _). by apply Z.eqb_eq in Ht. }
  apply Z.eqb_neq in Ht. pose proof (pick_victim_spec now t slots 0 None) as Hp.
  destruct (pick_victim now t slots 0 None) as [[i v]|].
  2: { destruct Hp as [_ Hp]. apply wp_ret. split_and!; try done.
       intros sl Hs. pose proof (Hp sl (idle_elem _ _ _ Hs)). destruct Hs as (_ & _ & Hs). fold t in Hs. congruence. }
  destruct Hp as ([[=]|(j & -> & Hj & He)] & Hmin & _). destruct (evictable_live _ _ _ He) as [Hu Hr]. cbn.
  assert (Hl : live_slot slots j v) by done.
  destruct (ri_use _ _ _ (mi_reg _ _ _ _ HI) j v Hl) as (h & Hs & Hx & _).
  apply wp_bind. rewrite Hs. apply wp_session_destroy; [done|].
  apply wp_bind, wp_pupd. cbn. apply wp_bind, wp_pupd, wp_ret. cbn.
  rewrite (alter_insert_Some _ j v) by done.
  assert (Hused : used slots = S (used (<[j := set_free v]> slots))).
  { pose proof (used_insert slots j v (set_free v) Hj) as Hc. rewrite Hu in Hc. cbn in Hc. lia. }
  split_and!; [|done..|].
  - split; cbn.
    + apply (reg_inv_free _ _ H j v h); [apply (mi_reg _ _ _ _ HI)|done..].
    + intros h' Hh'. apply (mi_next _ _ _ _ HI). destruct (decide (h' = h)) as [->|]; [done|]. by rewrite lookup_delete_ne in Hh'.
    + rewrite (mi_live _ _ _ _ HI). fold slots. rewrite Hused. unfold wrap64. rewrite Zminus_mod_idemp_l. f_equal. lia.
    + rewrite length_insert. apply (mi_cap _ _ _ _ HI).
  - exists (Some v). split_and!; [cbn; by rewrite Hs|split; [done|]|].
    + rewrite Ew. cbn [fst]. split; [by split; [exists j|]|]. intros y Hy. pose proof (idle_elem _ _ _ Hy). destruct Hy as (_ & _ & Hy). by apply Hmin.
    + intros sl. split.
      * intros [k [(-> & -> & [=])|[Hk Hsl]]%(live_slot_insert _ _ v)]; [|done]. split; [by exists k|]. intros [= ->].
        apply Hk. by apply (ri_id _ _ _ (mi_reg _ _ _ _ HI) k j v v).
      * intros [[k Hk] Hne]. exists k. cbn. apply (live_slot_insert _ _ v); [done|]. right. split; [|done]. intros ->.
        destruct Hk as [Hk _]. fold slots in Hk. congruence.
Qed.

(** *** A slot and an id

    The law of the random bytes: fewer than 2^64 ids are not all that comes. *)
Definition nth_draw (n : nat) (w : W) : bytes := manager_hex (mgr_random (Nat.iter n (fun w => (mgr_random w).2) w)).1.
Definition mgr_laws : Prop :=
  forall (G : list bytes) (w : W), Z.of_nat (length G) < 2 ^ 64 -> exists n, Z.of_nat n < 2 ^ 64 /\ nth_draw n w ∉ G.
Fixpoint first_new (G : list bytes) (n : nat) (w : W) : nat :=
  match n with
  | O => 0
  | S n => if decide (nth_draw 0 w ∈ G) then S (first_new G n (mgr_random w).2) else 0
  end.
Lemma nth_draw_S n (w : W) : nth_draw (S n) w = nth_draw n (mgr_random w).2.
Proof. unfold nth_draw. by rewrite Nat.iter_succ_r. Qed.
Lemma first_new_lt G n w : nth_draw n w ∉ G -> (first_new G (S n) w < S n)%nat.
Proof.
  revert w. induction n as [|n IH]; intros w Hn.
  - cbn. rewrite decide_False by done. lia.
  - rewrite nth_draw_S in Hn. apply IH in Hn. change (first_new G (S (S n)) w) with
      (if decide (nth_draw 0 w ∈ G) then S (first_new G (S n) (mgr_random w).2) else 0%nat). case_decide; lia.
Qed.
Lemma first_new_mono G n w : (first_new G n w < n)%nat -> first_new G (S n) w = first_new G n w.
Proof.
  revert w. induction n as [|n IH]; intros w Hn; [by apply Nat.nlt_0_r in Hn|].
  cbn [first_new] in Hn |- *. case_decide; [|done]. f_equal. apply IH. lia.
Qed.
Lemma first_new_next G n w : (first_new G n w < n)%nat -> nth_draw 0 w ∈ G ->
  (first_new G n (mgr_random w).2 < first_new G n w)%nat.
Proof.
  intros Hn Hin. destruct n as [|n]; [by apply Nat.nlt_0_r in Hn|].
  assert (E : first_new G (S n) w = S (first_new G n (mgr_random w).2)) by (cbn [first_new]; by rewrite decide_True).
  rewrite E in Hn |- *. rewrite first_new_mono by lia. lia.
Qed.
(** What changes outside of the slots in use. *)
Definition same_live s s' : Prop :=
  ms_heap s' = ms_heap s /\ ms_next s' = ms_next s /\ m_live (ms_m s') = m_live (ms_m s) /\
  (forall i sl, live_slot (m_slots (ms_m s')) i sl <-> live_slot (m_slots (ms_m s)) i sl).
Lemma wp_alloc_slot s heap next H : mgr_inv_at (ms_m s) heap next H -> m_cap (ms_m s) <= 2 ^ 62 ->
  wp manager_alloc_slot (fun i s' => mgr_inv_at (ms_m s') heap next H /\ same_live s s' /\ m_cap (ms_m s') <= 2 ^ 63 /\
    exists sl, m_slots (ms_m s') !! i = Some sl /\ sl_in_use sl = false) s.
Proof.
  intros HI Hc. unfold manager_alloc_slot. apply wp_bind, wp_pget. cbn.
  destruct (find_free (m_slots (ms_m s))) as [i|] eqn:E.
  { apply find_free_Some in E as (sl & Hi & Hu). apply wp_ret. split_and!; [done|done|lia|]. by exists sl. }
  pose proof (mi_cap _ _ _ _ HI) as Hcap. apply wp_bind, wp_pget, wp_bind. cbn.
  set (cap' := if Z.of_nat (length (m_slots (ms_m s))) =? m_cap (ms_m s) then
                 (if m_cap (ms_m s) =? 0 then 16 else wrap64 (m_cap (ms_m s) * 2)) else m_cap (ms_m s)).
  assert (Hc' : Z.of_nat (length (m_slots (ms_m s))) + 1 <= cap' <= 2 ^ 63).
  { subst cap'. destruct (Z.eqb_spec (Z.of_nat (length (m_slots (ms_m s)))) (m_cap (ms_m s))) as [Hz|Hz]; [|lia].
    destruct (Z.eqb_spec (m_cap (ms_m s)) 0); [lia|]. unfold wrap64. rewrite Z.mod_small; lia. }
  assert (Hw : pwhen (Z.of_nat (length (m_slots (ms_m s))) =? m_cap (ms_m s))
      (updm (set_m_cap (if m_cap (ms_m s) =? 0 then 16 else wrap64 (m_cap (ms_m s) * 2)))) s =
    Some (tt, mkMgrSt (set_m_cap cap' (ms_m s)) (ms_heap s) (ms_next s) (ms_w s))).
  { subst cap'. destruct s as [[] ? ? ?]; cbn. by destruct (_ =? _). }
  unfold wp at 1. cbn in Hw. rewrite Hw. apply wp_bind, wp_pupd, wp_ret. cbn.
  split_and!; [|split_and!; cbn; [done..|]; intros; apply live_slot_zero|lia|].
  - destruct HI as [HR Hn Hl _]. split; cbn; [|done|by rewrite used_zero|rewrite length_app; cbn; lia].
    eapply reg_inv_ext; [|done]. intros; apply live_slot_zero.
  - exists zero_slot. by rewrite list_lookup_middle.
Qed.
Lemma wp_draw_id s heap next H i sl : mgr_laws -> mgr_inv_at (ms_m s) heap next H -> m_cap (ms_m s) <= 2 ^ 63 -> m_slots (ms_m s) !! i = Some sl -> sl_in_use sl = false ->
  wp (draw_id i) (fun id s' => mgr_inv_at (ms_m s') heap next H /\ same_live s s' /\
    (exists sl', m_slots (ms_m s') !! i = Some sl' /\ sl_in_use sl' = false /\ sl_id sl' = id) /\
    (forall j y, live_slot (m_slots (ms_m s)) j y -> sl_id y <> id)) s.
Proof.
  intros HL HI Hc Hi Hu. unfold wp, draw_id. set (G := sl_id <$> filter (fun sl => sl_in_use sl = true) (m_slots (ms_m s))).
  assert (HG : Z.of_nat (length G) < 2 ^ 64).
  { unfold G. rewrite length_fmap. pose proof (length_filter (fun sl => sl_in_use sl = true) (m_slots (ms_m s))).
    pose proof (mi_cap _ _ _ _ HI). lia. }
  destruct (HL G (ms_w s) HG) as (n & Hn & Hnew). set (step := fun _ : MgrSt W => _).
  pose (I := fun s0 : MgrSt W => mgr_inv_at (ms_m s0) heap next H /\ same_live s s0 /\
    (exists sl', m_slots (ms_m s0) !! i = Some sl' /\ sl_in_use sl' = false) /\ (first_new G (S n) (ms_w s0) < S n)%nat).
  pose (Q := fun x : bytes * MgrSt W => mgr_inv_at (ms_m x.2) heap next H /\ same_live s x.2 /\
    (exists sl', m_slots (ms_m x.2) !! i = Some sl' /\ sl_in_use sl' = false /\ sl_id sl' = x.1) /\
    (forall j y, live_slot (m_slots (ms_m s)) j y -> sl_id y <> x.1)).
  destruct (loop_pow_64 step I Q (fun s0 => Z.of_nat (first_new G (S n) (ms_w s0))) s) as ([id s'] & -> & HQ).
  - intros s0 (HI0 & HS0 & (sl0 & Hi0 & Hu0) & Hf). subst step. cbn beta. destruct (mgr_random (ms_w s0)) as [raw w] eqn:Er. cbn.
    rewrite (alter_insert_Some _ i sl0) by done. set (sl1 := mkSlot _ _ _ _ _). set (slots1 := <[i := sl1]> _).
    assert (Hls : forall j y, live_slot slots1 j y <-> live_slot (m_slots (ms_m s0)) j y).
    { intros j y. subst slots1. rewrite (live_slot_insert _ _ sl0) by done. cbn. unfold live_slot. naive_solver congruence. }
    set (s1 := mkMgrSt (set_m_slots slots1 (ms_m s0)) (ms_heap s0) (ms_next s0) w).
    assert (HI1 : mgr_inv_at (ms_m s1) heap next H).
    { apply (mgr_inv_slot _ heap next H H i sl0 sl1 HI0); [done..|]. eapply reg_inv_ext; [exact Hls|apply HI0]. }
    assert (HS1 : same_live s s1).
    { destruct HS0 as (? & ? & ? & HS0). split_and!; [done..|]. intros j y. rewrite <- HS0. apply Hls. }
    assert (Hi1 : m_slots (ms_m s1) !! i = Some sl1).
    { apply list_lookup_insert_eq. by eapply lookup_lt_Some. }
    destruct (manager_find slots1 (manager_hex raw)) as [k|] eqn:Ek.
    + apply manager_find_Some in Ek as (y & Hy & Huy & Hid).
      assert (Hin : nth_draw 0 (ms_w s0) ∈ G).
      { change (manager_hex (mgr_random (ms_w s0)).1 ∈ G). rewrite Er. cbn [fst]. rewrite <- Hid. apply list_elem_of_fmap_2, list_elem_of_filter. split; [done|].
        destruct (proj1 (proj2 (proj2 (proj2 HS1)) k y) (conj Hy Huy)) as [Hy' _]. by eapply list_elem_of_lookup_2. }
      pose proof (first_new_next G (S n) _ Hf Hin) as Hlt. rewrite Er in Hlt. cbn [snd] in Hlt. split; [split_and!; [done|done|by exists sl1|]|].
      * change (first_new G (S n) w < S n)%nat. lia.
      * change (0 <= Z.of_nat (first_new G (S n) w) < Z.of_nat (first_new G (S n) (ms_w s0))). lia.
    + split_and!; [done|done|by exists sl1|]. intros j y Hy. destruct (proj2 (proj2 (proj2 (proj2 HS1)) j y) Hy). by eapply (manager_find_None _ _ Ek).
  - split_and!; [done|done|by exists sl|]. by apply first_new_lt.
  - pose proof (first_new_lt G n (ms_w s) Hnew). lia.
  - exact HQ.
Qed.

(** *** Creating a session *)
Definition created (cfg : option SessionConfig) s (r : option bytes) s' : Prop :=
  match r with
  | Some id => exists e h now,
      room_by s e /\
      (forall sl, registered s' sl <-> (registered s sl /\ Some sl <> e) \/ sl = mkSlot id (Some h) 0 now true) /\
      (forall sl, registered s sl -> Some sl <> e -> sl_id sl <> id) /\
      ms_heap s !! h = None /\ ms_heap s' = <[h := session_create cfg]> (heap_less s e)
  | None =>
      (full s = true /\ (forall sl, ~ idle s (mgr_hrtime (ms_w s)).1 sl) /\ ms_m s' = ms_m s /\ ms_heap s' = ms_heap s) \/
      (exists e w, room_by s e /\ (mgr_session_alloc w).1 = false /\
         (forall sl, registered s' sl <-> registered s sl /\ Some sl <> e) /\ ms_heap s' = heap_less s e)
  end.
Lemma mgr_inv_fill m heap next H i sl id x now : mgr_inv_at m heap next H -> m_slots m !! i = Some sl -> sl_in_use sl = false ->
  (forall j y, live_slot (m_slots m) j y -> sl_id y <> id) ->
  mgr_inv_at (set_m_live (wrap64 (m_live m + 1)) (set_m_slots (<[i := mkSlot id (Some next) 0 now true]> (m_slots m)) m))
    (<[next := x]> heap) (S next) H.
Proof.
  intros HI Hi Hu Hid. split; cbn.
  - eapply reg_inv_fill; [apply HI|done..|]. apply eq_None_not_Some. intros Hs. apply (mi_next _ _ _ _ HI) in Hs. lia.
  - intros h [->|[_ Hs]]%lookup_insert_is_Some; [lia|]. apply (mi_next _ _ _ _ HI) in Hs. lia.
  - rewrite (mi_live _ _ _ _ HI). pose proof (used_insert _ i sl (mkSlot id (Some next) 0 now true) Hi) as Hc. rewrite Hu in Hc. cbn in Hc.
    unfold wrap64. rewrite Zplus_mod_idemp_l. f_equal. lia.
  - rewrite length_insert. apply HI.
Qed.
Lemma live_slot_fill slots i sl n y : slots !! i = Some sl -> sl_in_use sl = false -> sl_in_use n = true ->
  (exists j, live_slot (<[i := n]> slots) j y) <-> (exists j, live_slot slots j y) \/ y = n.
Proof.
  intros Hi Hu Hn. split.
  - intros [j [(_ & -> & _)|[_ Hy]]%(live_slot_insert _ _ sl)]; [by right|left; by exists j|done].
  - intros [[j Hy]| ->]; [exists j|exists i]; apply (live_slot_insert _ _ sl); auto.
    right. split; [|done]. intros ->. destruct Hy. congruence.
Qed.
Lemma wp_create cfg s H : mgr_laws -> mgr_inv s H -> m_cap (ms_m s) <= 2 ^ 62 ->
  wp (manager_create_session cfg) (fun r s' => mgr_inv s' H /\ created cfg s r s') s.
Proof.
  intros HL HI Hc. unfold manager_create_session. apply wp_bind. eapply wp_mono; [by apply wp_make_room|]. cbv beta.
  intros [|] s1 (HI1 & (Hmax & Hto & Hcap & Hnx) & Hrest).
  2: { destruct Hrest as (Hf & Hid & Hm & Hh). apply wp_ret. split; [done|]. left. done. }
  destruct Hrest as (e & Hh1 & Hroom & Hreg1). cbn [negb]. apply wp_bind. unfold new_session. apply wp_bind, wp_menv.
  intros ok w Eok. apply (mgr_inv_w _ _ w) in HI1. destruct ok.
  2: { apply wp_ret, wp_ret. split; [done|]. right. exists e, (ms_w s1). rewrite Eok. done. }
  apply wp_bind. unfold wp at 1, heap_add. cbn. set (h := ms_next s1) in *. set (x := session_create cfg).
  assert (Hfresh : ms_heap s1 !! h = None).
  { apply eq_None_not_Some. intros Hs. apply (mi_next _ _ _ _ HI1) in Hs. cbn in Hs. unfold h in Hs. lia. }
  apply wp_bind. eapply wp_mono; [apply (wp_alloc_slot _ (ms_heap s1) h H); [exact HI1|cbn; lia]|]. cbv beta.
  intros i s3 (HI3 & HS3 & Hc3 & sl & Hi & Hu).
  apply wp_bind. eapply wp_mono; [by apply (wp_draw_id s3 (ms_heap s1) h H i sl)|]. cbv beta.
  intros id s4 (HI4 & HS4 & (sl4 & Hi4 & Hu4 & Eid) & Hid).
  apply wp_bind, wp_menv. intros now w' _. apply wp_bind, wp_pupd, wp_bind, wp_pupd, wp_ret. cbn.
  rewrite (alter_insert_Some _ i sl4), Eid by done. destruct (HS3) as (Eh3 & En3 & _ & Hl3). destruct (HS4) as (Eh4 & En4 & _ & Hl4).
  rewrite Eh4, Eh3, En4, En3. cbn [ms_heap ms_next].
  split; [apply (mgr_inv_fill _ _ _ _ _ sl4); [done..|]; intros j y Hy; by apply (Hid j), Hl4|].
  assert (Hreg : forall y, (exists j, live_slot (m_slots (ms_m s4)) j y) <-> registered s y /\ Some y <> e).
  { intros y. rewrite <- Hreg1. unfold registered. setoid_rewrite Hl4. by setoid_rewrite Hl3. }
  exists e, h, now. split_and!; [done| | | |by rewrite Hh1].
  - intros y. rewrite <- Hreg. by apply (live_slot_fill _ _ sl4).
  - intros y Hy Hne. destruct (proj2 (Hreg y) (conj Hy Hne)) as [j Hj]. by apply (Hid j), Hl4.
  - apply eq_None_not_Some. intros Hs. apply (mi_next _ _ _ _ HI) in Hs. lia.
Qed.

(** *** Shutting down *)
Definition from_inv (k : nat) s : Prop :=
  (forall h, is_Some (ms_heap s !! h) <-> exists j sl, (k <= j)%nat /\ live_slot (m_slots (ms_m s)) j sl /\ sl_session sl = Some h) /\
  (forall i j sl sl', live_slot (m_slots (ms_m s)) i sl -> live_slot (m_slots (ms_m s)) j sl' -> sl_session sl = sl_session sl' -> i = j) /\
  (forall j sl, live_slot (m_slots (ms_m s)) j sl -> (k <= j)%nat /\ is_Some (sl_session sl)).
Lemma from_inv_live k s sl h : from_inv k s -> live_slot (m_slots (ms_m s)) k sl -> sl_session sl = Some h ->
  is_Some (ms_heap s !! h) /\
  from_inv (S k) (mkMgrSt (set_m_slots (<[k := mkSlot (sl_id sl) (sl_session sl) (sl_refcount sl) (sl_last_used_ns sl) false]> (m_slots (ms_m s))) (ms_m s))
    (delete h (ms_heap s)) (ms_next s) (ms_w s)).
Proof.
  intros (HH & HS & HK) Hl Hs. destruct (Hl) as [Hk Hu]. split; [apply HH; by exists k, sl|]. set (n := mkSlot _ _ _ _ _).
  assert (Hls : forall j y, live_slot (<[k := n]> (m_slots (ms_m s))) j y <-> j <> k /\ live_slot (m_slots (ms_m s)) j y).
  { intros j y. rewrite (live_slot_insert _ _ sl) by done. cbn. naive_solver. }
  split_and!; cbn.
  - intros h'. rewrite lookup_delete_is_Some, HH. split.
    + intros [Hne (j & y & Hj & Hy & E)]. exists j, y. rewrite Hls.
      assert (j <> k) by (intros ->; apply Hne; destruct Hy as [Hy _]; congruence). split_and!; try done. lia.
    + intros (j & y & Hj & [Hne Hy]%Hls & E). split; [|exists j, y; split_and!; try done; lia].
      intros <-. apply Hne. apply (HS j k y sl); [done..|]. congruence.
  - intros i j y z [_ Hy]%Hls [_ Hz]%Hls. by apply HS.
  - intros j y [Hne Hy]%Hls. destruct (HK j y Hy). split; [lia|done].
Qed.
Lemma wp_destroy_all n k s : from_inv k s -> wp (destroy_all n k) (fun _ s' => from_inv (k + n) s' /\ length (m_slots (ms_m s')) = length (m_slots (ms_m s))) s.
Proof.
  revert k s. induction n as [|n IH]; intros k s HF; cbn [destroy_all].
  { apply wp_ret. by rewrite Nat.add_0_r. }
  assert (Hnext : forall s1, from_inv (S k) s1 -> length (m_slots (ms_m s1)) = length (m_slots (ms_m s)) ->
    wp (destroy_all n (S k)) (fun _ s' => from_inv (k + S n) s' /\ length (m_slots (ms_m s')) = length (m_slots (ms_m s))) s1).
  { intros s1 H1 E. rewrite <- Nat.add_succ_comm, <- E. by apply IH. }
  assert (Hskip : (forall sl, ~ live_slot (m_slots (ms_m s)) k sl) -> from_inv (S k) s).
  { intros Hno. destruct HF as (HH & HS & HK). split_and!; [|done|].
    - intros h. rewrite HH. split; intros (j & y & Hj & Hy & E); exists j, y; (split_and!; [|done..]); [|lia].
      destruct (decide (j = k)) as [->|]; [by apply Hno in Hy|lia].
    - intros j y Hy. destruct (HK j y Hy). split; [|done]. destruct (decide (j = k)) as [->|]; [by apply Hno in Hy|lia]. }
  apply wp_bind, wp_pget. cbn. apply wp_bind. destruct (m_slots (ms_m s) !! k) as [sl|] eqn:Hk.
  2: { apply wp_ret, Hnext; [|done]. apply Hskip. intros y [Hy _]. congruence. }
  destruct (sl_in_use sl) eqn:Hu; cbn [pwhen].
  2: { apply wp_ret, Hnext; [|done]. apply Hskip. intros y [Hy Hyu]. congruence. }
  destruct (proj2 (proj2 HF) k sl (conj Hk Hu)) as [_ [h Hs]].
  destruct (from_inv_live k s sl h HF (conj Hk Hu) Hs) as [Hx HF'].
  apply wp_bind. rewrite Hs. apply wp_session_destroy; [done|]. apply wp_pupd. cbn. rewrite (alter_insert_Some _ k sl) by done. apply Hnext; [exact HF'|]. cbn. by rewrite length_insert.
Qed.
Lemma wp_shutdown s H : mgr_inv s H -> wp manager_shutdown (fun _ s' => ms_heap s' = ∅ /\ m_live (ms_m s') = 0) s.
Proof.
  intros HI. unfold manager_shutdown. apply wp_bind, wp_pget, wp_bind. cbn.
  assert (HF : from_inv 0 s).
  { split_and!.
    - intros h. split; [|intros (j & sl & _ & Hl & E)].
      + intros (j & sl & ? & ?)%(ri_heap _ _ _ (mi_reg _ _ _ _ HI)). exists j, sl. split_and!; try done. lia.
      + destruct (ri_use _ _ _ (mi_reg _ _ _ _ HI) _ _ Hl) as (h' & E' & ? & _). congruence.
    - apply (ri_sess _ _ _ (mi_reg _ _ _ _ HI)).
    - intros j sl Hl. split; [lia|]. destruct (ri_use _ _ _ (mi_reg _ _ _ _ HI) _ _ Hl) as (h' & E' & _). by exists h'. }
  eapply wp_mono; [by apply wp_destroy_all|]. cbv beta. intros _ s' [(HH & _ & _) E]. split; [|done].
  apply map_empty. intros h. cbn. apply eq_None_not_Some. intros (j & sl & Hj & [Hl _] & _)%HH. apply lookup_lt_Some in Hl. lia.
Qed.

(** ** Runs

    A holder has what a [get] returned; it uses the session, by any [f], and
    releases it. [k] says which of the holders. *)
Inductive MgrOp :=
| OpCreate (cfg : option SessionConfig)
| OpGet (id : bytes)
| OpUse (k : nat) (f : Session -> Session)
| OpRelease (k : nat)
| OpMaxSessions (n : Z)
| OpTimeout (ms : Z).
Definition session_use (h : nat) (f : Session -> Session) : PS (MgrSt W) unit := fun s =>
  x ← ms_heap s !! h; Some (tt, mkMgrSt (ms_m s) (<[h := f x]> (ms_heap s)) (ms_next s) (ms_w s)).
Definition mgr_do (o : MgrOp) (x : MgrSt W * list (bytes * nat)) : option (MgrSt W * list (bytes * nat)) :=
  let '(s, H) := x in
  match o with
  | OpCreate cfg => y ← manager_create_session cfg s; Some (y.2, H)
  | OpGet id => y ← manager_get_session id s; Some (y.2, match y.1 with Some h => (id, h) :: H | None => H end)
  | OpUse k f => match H !! k with Some p => y ← session_use p.2 f s; Some (y.2, H) | None => Some x end
  | OpRelease k => match H !! k with Some p => y ← manager_release_session p.1 s; Some (y.2, delete k H) | None => Some x end
  | OpMaxSessions n => y ← manager_set_max_sessions n s; Some (y.2, H)
  | OpTimeout ms => y ← manager_set_session_timeout ms s; Some (y.2, H)
  end.
(** The slots fit in memory, and the holders in an [int]. *)
Definition mgr_room (x : MgrSt W * list (bytes * nat)) : Prop :=
  m_cap (ms_m x.1) <= 2 ^ 62 /\ Z.of_nat (length x.2) < INT_MAX.
Definition mgr_step (x y : MgrSt W * list (bytes * nat)) : Prop := mgr_room x /\ exists o, mgr_do o x = Some y.
Definition mgr_start (w : W) : MgrSt W * list (bytes * nat) := (mkMgrSt manager_init ∅ 0 w, []).

Lemma reg_inv_heap slots heap heap' H : (forall h, is_Some (heap' !! h) <-> is_Some (heap !! h)) -> reg_inv slots heap H -> reg_inv slots heap' H.
Proof.
  intros E HR. split; [|intros h ?%E; by apply (ri_heap _ _ _ HR)|apply HR|apply HR|apply HR].
  intros i sl Hl. destruct (ri_use _ _ _ HR i sl Hl) as (h & ? & ?%E & ?). by exists h.
Qed.
Lemma mgr_do_inv o x : mgr_laws -> mgr_inv x.1 x.2 -> mgr_room x -> exists y, mgr_do o x = Some y /\ mgr_inv y.1 y.2.
Proof.
  intros HL HI [Hc Hb]. destruct x as [s H]. cbn in *. destruct o as [cfg|id|k f|k|n|ms]; cbn.
  - destruct (wp_run _ _ _ (wp_create cfg s H HL HI Hc)) as (r & s' & -> & HI' & _). by exists (s', H).
  - destruct (wp_run _ _ _ (wp_get id s H HI Hb)) as (r & s' & -> & HP). cbn. eexists. split; [done|]. cbn.
    destruct r; [done|]. by destruct HP as [-> _].
  - destruct (H !! k) as [p|] eqn:Ek; [|by exists (s, H)]. apply list_elem_of_lookup_2 in Ek.
    destruct (ri_held _ _ _ (mi_reg _ _ _ _ HI) _ Ek) as (i & sl & Hl & _ & Es).
    destruct (ri_use _ _ _ (mi_reg _ _ _ _ HI) i sl Hl) as (h & Es' & [x Hx] & _).
    assert (h = p.2) as -> by congruence. unfold session_use. rewrite Hx. cbn. eexists. split; [done|].
    assert (E : forall h', is_Some (<[p.2 := f x]> (ms_heap s) !! h') <-> is_Some (ms_heap s !! h')).
    { intros h'. rewrite lookup_insert_is_Some'. split; [|by right]. by intros [<-|?]; [exists x|]. }
    split; cbn; [|intros h' ?%E|apply HI..]; [|by apply (mi_next _ _ _ _ HI)]. eapply reg_inv_heap; [exact E|apply HI].
  - destruct (H !! k) as [p|] eqn:Ek; [|by exists (s, H)].
    destruct (wp_run _ _ _ (wp_release p s H (delete k H) HI (delete_Permutation H k p Ek))) as ([] & s' & -> & HI'). by eexists.
  - eexists. split; [done|]. by destruct HI.
  - eexists. split; [done|]. by destruct HI.
Qed.
Lemma mgr_start_inv w : mgr_inv (mgr_start w).1 (mgr_start w).2.
Proof.
  split; cbn; [|intros h []%lookup_empty_is_Some|done|done].
  split; [intros i sl []; done|intros h []%lookup_empty_is_Some|intros ???? []; done|intros ???? []; done|by intros p ?%elem_of_nil].
Qed.
Lemma mgr_reach_inv w x : mgr_laws -> rtc mgr_step (mgr_start w) x -> mgr_inv x.1 x.2.
Proof.
  intros HL. apply (rtc_ind_r (fun x => mgr_inv x.1 x.2)); [apply mgr_start_inv|].
  intros y z _ [Hr [o Ho]] HI. destruct (mgr_do_inv o y HL HI Hr) as (z' & E & HI'). congruence.
Qed.

(** C28. The registry, under every sequence of operations of its holders: each
    operation has a result (no session is destroyed twice or used after it was
    destroyed, and the search for an id ends); a holder's id is found, in a slot
    with the session that the holder has, which is alive; a slot's refcount is
    the number of its holders; ids and sessions of the slots in use are distinct,
    and a session that is alive is in one of them. A shutdown destroys them all. *)
Theorem manager_safe w s H : mgr_laws -> rtc mgr_step (mgr_start w) (s, H) ->
  (mgr_room (s, H) -> forall o, is_Some (mgr_do o (s, H))) /\
  (forall id h, (id, h) ∈ H -> exists i sl, manager_find (m_slots (ms_m s)) id = Some i /\ m_slots (ms_m s) !! i = Some sl /\
     sl_session sl = Some h /\ is_Some (ms_heap s !! h)) /\
  reg_inv (m_slots (ms_m s)) (ms_heap s) H /\
  m_live (ms_m s) = wrap64 (Z.of_nat (used (m_slots (ms_m s)))) /\
  (exists s', manager_shutdown s = Some (tt, s') /\ ms_heap s' = ∅).
Proof.
  intros HL Hr%mgr_reach_inv; [|done]. cbn in Hr. split_and!.
  - intros Hroom o. destruct (mgr_do_inv o (s, H) HL Hr Hroom) as (y & -> & _). by exists y.
  - intros id h Hin. destruct (inv_find s H (id, h) Hr Hin) as (i & sl & Hf & [Hi Hu] & _ & Es). exists i, sl. split_and!; try done.
    destruct (ri_use _ _ _ (mi_reg _ _ _ _ Hr) i sl (conj Hi Hu)) as (h' & E & ? & _). cbn in Es. congruence.
  - apply Hr.
  - apply Hr.
  - destruct (wp_run _ _ _ (wp_shutdown s H Hr)) as ([] & s' & E & ? & _). by exists s'.
Qed.

(** C29. Creating a session, on every branch: it fails when the registry is full
    and no session is idle past the timeout, or when there is no
    memory for it (a session that made room is then gone all the same);
    otherwise its id is not one of those in use, its session is new, and the
    others stay, except one when the registry was full: a session without
    holders, idle past the timeout, the least recently used of these. *)
Theorem manager_create_spec cfg w s H : mgr_laws -> rtc mgr_step (mgr_start w) (s, H) -> m_cap (ms_m s) <= 2 ^ 62 ->
  exists r s', manager_create_session cfg s = Some (r, s') /\ created cfg s r s' /\
    (forall e, room_by s (Some e) -> forall h, (sl_id e, h) ∉ H).
Proof.
  intros HL Hr%mgr_reach_inv Hc; [|done]. destruct (wp_run _ _ _ (wp_create cfg s H HL Hr Hc)) as (r & s' & E & _ & HP).
  exists r, s'. split_and!; [done|done|]. intros e [_ [[[i Hl] (_ & He)] _]] h Hin.
  apply evictable_live in He as [_ He]. destruct (ri_use _ _ _ (mi_reg _ _ _ _ Hr) i e Hl) as (_ & _ & _ & Hn).
  rewrite He in Hn. unfold holds in Hn. cbn in Hn. assert (Hz : filter (fun p => p.1 = sl_id e) H = []) by (apply length_zero_iff_nil; lia).
  apply (not_elem_of_nil (sl_id e, h)). rewrite <- Hz. by apply list_elem_of_filter.
Qed.
End ops_safe.

(** ** A run

    Ids from a counter of 16 bytes, and a clock that ticks. *)
Fixpoint le_enc (n : nat) (x : Z) : bytes := match n with O => [] | S n => x mod 256 :: le_enc n (x / 256) end.
Lemma le_enc_bytes n x : Forall is_byte (le_enc n x).
Proof. revert x. induction n as [|n IH]; intros x; constructor; [|apply IH]. apply Z.mod_pos_bound. lia. Qed.
Lemma le_enc_inj n x y : le_enc n x = le_enc n y -> x mod 256 ^ Z.of_nat n = y mod 256 ^ Z.of_nat n.
Proof.
  revert x y. induction n as [|n IH]; intros x y; cbn [le_enc]; [by rewrite !Z.mod_1_r|].
  intros [= E1 E2%IH]. rewrite Nat2Z.inj_succ, Z.pow_succ_r by lia.
  rewrite !Z.rem_mul_r by lia. congruence.
Qed.
Definition unhex (c : Z) : Z := if c <? 58 then c - 48 else c - 87.
Lemma unhex_digits b : is_byte b -> b = 16 * unhex (hex_digit_lower (Z.shiftr b 4)) + unhex (hex_digit_lower b).
Proof.
  intros Hb. assert (Hall : forallb (fun n => Z.of_nat n =? 16 * unhex (hex_digit_lower (Z.shiftr (Z.of_nat n) 4)) + unhex (hex_digit_lower (Z.of_nat n)))
    (seq 0 256) = true) by (vm_compute; reflexivity).
  rewrite forallb_forall in Hall. unfold is_byte in Hb. specialize (Hall (Z.to_nat b)). rewrite Z2Nat.id in Hall by lia.
  apply Z.eqb_eq, Hall, in_seq. lia.
Qed.
Lemma hex_encode_inj a b : Forall is_byte a -> Forall is_byte b -> hex_encode a = hex_encode b -> a = b.
Proof.
  intros Ha. revert b. induction Ha as [|x a Hx Ha IH]; intros [|y b] Hb; cbn [hex_encode]; try done.
  apply Forall_cons in Hb as [Hy Hb]. intros [= E1 E2 E]. rewrite (unhex_digits x), (unhex_digits y), E1, E2, (IH b) by done. done.
Qed.
Definition demo_mgr_env : MgrEnv (Z * Z) := {|
  mgr_hrtime w := (w.2, (w.1, w.2 + 1000000));
  mgr_random w := (le_enc 16 w.1, (w.1 + 1, w.2));
  mgr_session_alloc w := (true, w)
|}.
#[local] Existing Instance demo_mgr_env.
Lemma demo_draw n w : nth_draw n w = hex_encode (le_enc 16 (w.1 + Z.of_nat n)).
Proof.
  revert w. induction n as [|n IH]; intros w; [by rewrite Z.add_0_r|]. rewrite nth_draw_S, IH.
  change (mgr_random w).2.1 with (w.1 + 1). do 2 f_equal. lia.
Qed.
Lemma demo_mgr_laws : mgr_laws (W := Z * Z).
Proof.
  intros G w HG. destruct (decide (Forall (fun n => nth_draw n w ∈ G) (seq 0 (S (length G))))) as [Hall|Hex].
  - exfalso. set (l := (fun n => nth_draw n w) <$> seq 0 (S (length G))).
    assert (Hnd : NoDup l).
    { apply NoDup_fmap_2_strong; [|apply NoDup_seq]. intros i j Hi%elem_of_seq Hj%elem_of_seq. rewrite !demo_draw.
      intros E%hex_encode_inj; [|apply le_enc_bytes..]. apply le_enc_inj in E. change (256 ^ Z.of_nat 16) with (2 ^ 128) in E.
      assert (Hz : (Z.of_nat i - Z.of_nat j) mod 2 ^ 128 = 0).
      { replace (Z.of_nat i - Z.of_nat j) with (w.1 + Z.of_nat i - (w.1 + Z.of_nat j)) by lia. rewrite Zminus_mod, E, Z.sub_diag. done. }
      apply Z.mod_divide in Hz as [q Hq]; lia. }
    assert (Hsub : l ⊆+ G).
    { apply NoDup_submseteq; [done|]. intros x (n & -> & Hn)%list_elem_of_fmap. rewrite Forall_forall in Hall. by apply Hall. }
    apply submseteq_length in Hsub. unfold l in Hsub. rewrite length_fmap, length_seq in Hsub. lia.
  - apply not_Forall_Exists in Hex; [|apply _]. apply Exists_exists in Hex as (n & Hn%elem_of_seq & ?). exists n. split; [lia|done].
Qed.
(** Two sessions at most, idle for 1 ms at most: the first has two holders, the
    second was used and given back. *)
Definition demo_id (n : Z) : bytes := manager_hex (le_enc 16 n).
Definition demo_mgr_ops : list MgrOp :=
  [OpMaxSessions 2; OpTimeout 1; OpCreate None; OpCreate None; OpGet (demo_id 0); OpUse 0 (fun s => s); OpGet (demo_id 1);
   OpRelease 0; OpGet (demo_id 0)].
Definition mgr_room_b (x : MgrSt (Z * Z) * list (bytes * nat)) : bool :=
  (m_cap (ms_m x.1) <=? 2 ^ 62) && (Z.of_nat (length x.2) <? INT_MAX).
Fixpoint mgr_runs (ops : list MgrOp) (x : MgrSt (Z * Z) * list (bytes * nat)) : option (MgrSt (Z * Z) * list (bytes * nat)) :=
  match ops with
  | [] => Some x
  | o :: ops => if mgr_room_b x then mgr_do o x ≫= mgr_runs ops else None
  end.
Lemma mgr_runs_rtc ops x y : mgr_runs ops x = Some y -> rtc mgr_step x y.
Proof.
  revert x. induction ops as [|o ops IH]; intros x; cbn [mgr_runs]; [by intros [= ->]|].
  destruct (mgr_room_b x) eqn:Hr; [|done]. intros (z & Ho & Hz)%bind_Some. eapply rtc_l; [|by apply IH].
  apply andb_true_iff in Hr as [?%Z.leb_le ?%Z.ltb_lt]. split; [done|]. by exists o.
Qed.
Definition demo_mgr : MgrSt (Z * Z) * list (bytes * nat) := default (mgr_start (0, 0)) (mgr_runs demo_mgr_ops (mgr_start (0, 0))).
Lemma demo_mgr_reach : rtc mgr_step (mgr_start (0, 0)) (demo_mgr.1, demo_mgr.2).
Proof.
  rewrite <- surjective_pairing. apply (mgr_runs_rtc demo_mgr_ops). unfold demo_mgr.
  assert (E : is_Some (mgr_runs demo_mgr_ops (mgr_start (0, 0)))) by (vm_compute; by eexists). by destruct E as [y ->].
Qed.
Lemma manager_safe_witness :
  exists i sl, manager_find (m_slots (ms_m demo_mgr.1)) (demo_id 0) = Some i /\ m_slots (ms_m demo_mgr.1) !! i = Some sl /\
    sl_session sl = Some 0%nat /\ is_Some (ms_heap demo_mgr.1 !! 0%nat).
Proof.
  apply (proj1 (proj2 (manager_safe (0, 0) demo_mgr.1 demo_mgr.2 demo_mgr_laws demo_mgr_reach))). vm_compute. left.
Defined.
Lemma manager_create_spec_witness :
  full demo_mgr.1 = true /\
  exists r s', manager_create_session None demo_mgr.1 = Some (r, s') /\ created None demo_mgr.1 r s' /\
    (forall e, room_by demo_mgr.1 (Some e) -> forall h, (sl_id e, h) ∉ demo_mgr.2).
Proof.
  split; [vm_compute; reflexivity|].
  apply (manager_create_spec None (0, 0) demo_mgr.1 demo_mgr.2 demo_mgr_laws demo_mgr_reach). vm_compute. discriminate.
Defined.
(** With the registry full, a third session takes the place of the second. *)
Lemma demo_manager_evicts :
  match manager_create_session None demo_mgr.1 with
  | Some (Some id, s') => (id, length (m_slots (ms_m s')), manager_find (m_slots (ms_m s')) (demo_id 1))
  | _ => ([], 0%nat, None)
  end = (demo_id 2, 2%nat, None).
Proof. vm_compute. reflexivity. Qed.
