(* ===== verification/H2.v ===== *)
(** * The HTTP/2 session: h2/h2.c

    A client session over nghttp2, which is the interface [NgHttp2]. The two
    calls of nghttp2 that call back, [nghttp2_session_mem_recv2] and
    [nghttp2_session_send], are read as a dialogue: nghttp2 gives the next
    callback it makes, the code answers, and between the two it may call other
    functions of nghttp2. The requests of the session live in a store, by id: an
    id that is not in it is an arena that was recycled, and the operations run in
    a monad whose value is [None] when such memory would be used, or when a call
    of nghttp2 does not end. What the session hands to its user is recorded in
    order; during a callback the user may queue WebSocket bytes. *)
From stdpp Require Import gmap.
From S2P Require Import Prelude String8 U8Buf GrowArr Header Proxy.
From S2P Require Export H3Session PartialState.

(** ** nghttp2 and the decoder of a streamed body *)

(** Where the DATA of a request comes from: its [BodySource], or the queue of a
    WebSocket. *)
Inductive NgSource := NgBody (req : nat) | NgQueue (req : nat).
(** A callback of nghttp2, or the end of the call with its result. *)
Inductive NgEvent :=
| NgHeader (stream_id : Z) (name value : bytes)
| NgData (stream_id : Z) (data : bytes)
| NgStreamClose (stream_id error_code : Z)
| NgFrameRecv (type stream_id : Z)
| NgSend (data : bytes)
| NgRead (stream_id : Z) (source : NgSource) (length : nat)
| NgEnd (rc : Z).
(** What the callback returns. *)
Inductive NgAnswer := NgOk | NgBytes (data : bytes) (eof : bool) | NgDeferred.
Record NgPriority := mkPriority { np_stream_id : Z; np_weight : Z; np_exclusive : bool }.
Class NgHttp2 := {
  ng : Type;
  ng_client_new : option ng;
  ng_submit_settings : ng -> list (Z * Z) -> Z * ng;
  ng_submit_window_update : ng -> Z -> Z -> Z * ng;
  ng_submit_request : ng -> option NgPriority -> list (bytes * bytes) -> option NgSource -> nat -> Z * ng;
  ng_submit_rst_stream : ng -> Z -> Z -> ng;
  ng_consume_connection : ng -> Z -> ng;
  ng_consume_stream : ng -> Z -> Z -> ng;
  ng_resume_data : ng -> Z -> ng;
  ng_user_data : ng -> gmap Z nat;                  (* of the open streams that have one *)
  ng_set_user_data : ng -> Z -> option nat -> ng;
  ng_remote_settings : ng -> Z -> Z;
  ng_want_write : ng -> bool;
  ng_want_read : ng -> bool;
  ng_mem_recv : ng -> bytes -> ng;                  (* the two calls begin *)
  ng_session_send : ng -> ng;
  ng_next : ng -> NgEvent * ng;
  ng_answer : ng -> NgEvent -> NgAnswer -> ng
}.
Class StreamDec := {
  sdec : Type;
  sdec_create : bytes -> option sdec
}.
(** A push into a decoder; [None]: it does not return. *)
Class DecPush `{StreamDec} := sdec_push : sdec -> bytes -> option (bool * sdec * list bytes).

Definition NGHTTP2_NO_ERROR : Z := 0.
Definition NGHTTP2_CANCEL : Z := 8.
Definition NGHTTP2_HEADERS : Z := 1.
Definition NGHTTP2_GOAWAY : Z := 7.
Definition NGHTTP2_SETTINGS_MAX_CONCURRENT_STREAMS : Z := 3.
Definition NGHTTP2_SETTINGS_ENABLE_CONNECT_PROTOCOL : Z := 8.
Definition H2_BODY_PRESIZE_MAX : Z := 8 * 1024 * 1024.

Record Http2Profile := mkHttp2 {
  h2p_settings : list (Z * Z);
  h2p_connection_window_increment : Z;
  h2p_use_priority : bool;
  h2p_priority_dep_stream : Z;
  h2p_priority_weight : Z;
  h2p_priority_exclusive : bool;
  h2p_pseudo_order : list PseudoId
}.

(** ** Data *)
Record H2Response := mkH2Response {
  hr_stream_id : Z;
  hr_ok : bool;
  hr_status : Z;
  hr_headers : list Header;
  hr_body : bytes
}.
(** What the user of the session is given; [user] stands for a callback with
    its argument. *)
Inductive H2Call :=
| CallSend (data : bytes)
| CallResponse (req user : nat) (resp : H2Response)
| CallChunk (user : nat) (data : bytes)
| CallConnect (user : nat) (status : Z) (extensions : bytes)
| CallData (user : nat) (data : bytes).
(** What the user may do inside of a callback. *)
Inductive H2Op := OpWsSend (stream_id : Z) (data : bytes) | OpWsFinish (stream_id : Z).

Record BodySource := mkSource { bs_p : bytes; bs_off : nat }.

Section session.
Context `{NgHttp2} `{HDec : StreamDec} `{HPush : !DecPush}.

Record Req := mkReq {
  rq_stream_id : Z;
  rq_status : Z;
  rq_headers : HeaderList;
  rq_body : bytes;                (* body[0 .. body_len) *)
  rq_body_cap : Z;
  rq_user : nat;
  rq_on_chunk : option nat;
  rq_dec : option sdec;
  rq_dec_inited : bool;
  rq_stream_failed : bool;
  rq_source : BodySource;
  rq_is_ws : bool;
  rq_ws_connected : bool;
  rq_wq : bytes;                  (* wq[0 .. wq_len) *)
  rq_wq_off : nat;
  rq_wq_cap : Z;
  rq_ws_eof : bool
}.
Definition set_rq_stream_id (v : Z) (q : Req) : Req :=
  mkReq v (rq_status q) (rq_headers q) (rq_body q) (rq_body_cap q) (rq_user q) (rq_on_chunk q) (rq_dec q) (rq_dec_inited q)
    (rq_stream_failed q) (rq_source q) (rq_is_ws q) (rq_ws_connected q) (rq_wq q) (rq_wq_off q) (rq_wq_cap q) (rq_ws_eof q).
Definition set_rq_status (v : Z) (q : Req) : Req :=
  mkReq (rq_stream_id q) v (rq_headers q) (rq_body q) (rq_body_cap q) (rq_user q) (rq_on_chunk q) (rq_dec q) (rq_dec_inited q)
    (rq_stream_failed q) (rq_source q) (rq_is_ws q) (rq_ws_connected q) (rq_wq q) (rq_wq_off q) (rq_wq_cap q) (rq_ws_eof q).
Definition set_rq_headers (v : HeaderList) (q : Req) : Req :=
  mkReq (rq_stream_id q) (rq_status q) v (rq_body q) (rq_body_cap q) (rq_user q) (rq_on_chunk q) (rq_dec q) (rq_dec_inited q)
    (rq_stream_failed q) (rq_source q) (rq_is_ws q) (rq_ws_connected q) (rq_wq q) (rq_wq_off q) (rq_wq_cap q) (rq_ws_eof q).
Definition set_rq_body (v : bytes) (cap : Z) (q : Req) : Req :=
  mkReq (rq_stream_id q) (rq_status q) (rq_headers q) v cap (rq_user q) (rq_on_chunk q) (rq_dec q) (rq_dec_inited q)
    (rq_stream_failed q) (rq_source q) (rq_is_ws q) (rq_ws_connected q) (rq_wq q) (rq_wq_off q) (rq_wq_cap q) (rq_ws_eof q).
Definition set_rq_dec (v : option sdec) (inited failed : bool) (q : Req) : Req :=
  mkReq (rq_stream_id q) (rq_status q) (rq_headers q) (rq_body q) (rq_body_cap q) (rq_user q) (rq_on_chunk q) v inited
    failed (rq_source q) (rq_is_ws q) (rq_ws_connected q) (rq_wq q) (rq_wq_off q) (rq_wq_cap q) (rq_ws_eof q).
Definition set_rq_source (v : BodySource) (q : Req) : Req :=
  mkReq (rq_stream_id q) (rq_status q) (rq_headers q) (rq_body q) (rq_body_cap q) (rq_user q) (rq_on_chunk q) (rq_dec q)
    (rq_dec_inited q) (rq_stream_failed q) v (rq_is_ws q) (rq_ws_connected q) (rq_wq q) (rq_wq_off q) (rq_wq_cap q) (rq_ws_eof q).
Definition set_rq_ws (connected eof : bool) (q : Req) : Req :=
  mkReq (rq_stream_id q) (rq_status q) (rq_headers q) (rq_body q) (rq_body_cap q) (rq_user q) (rq_on_chunk q) (rq_dec q)
    (rq_dec_inited q) (rq_stream_failed q) (rq_source q) (rq_is_ws q) connected (rq_wq q) (rq_wq_off q) (rq_wq_cap q) eof.
Definition set_rq_wq (v : bytes) (off : nat) (cap : Z) (q : Req) : Req :=
  mkReq (rq_stream_id q) (rq_status q) (rq_headers q) (rq_body q) (rq_body_cap q) (rq_user q) (rq_on_chunk q) (rq_dec q)
    (rq_dec_inited q) (rq_stream_failed q) (rq_source q) (rq_is_ws q) (rq_ws_connected q) v off cap (rq_ws_eof q).

(** [hs_reqs] holds the requests whose arenas are alive, those of WebSockets
    among them, which the session's own arena holds; [hs_refused] the requests
    nghttp2 did not take. *)
Record H2Session := mkSession {
  hs_prof : Http2Profile;
  hs_session : option ng;
  hs_open_streams : Z;
  hs_goaway_received : bool;
  hs_live : list nat;
  hs_reqs : gmap nat Req;
  hs_next : nat;
  hs_refused : list nat;
  hs_calls : list H2Call
}.
Definition set_hs_session (v : option ng) (s : H2Session) : H2Session :=
  mkSession (hs_prof s) v (hs_open_streams s) (hs_goaway_received s) (hs_live s) (hs_reqs s) (hs_next s) (hs_refused s) (hs_calls s).
Definition set_hs_open_streams (v : Z) (s : H2Session) : H2Session :=
  mkSession (hs_prof s) (hs_session s) v (hs_goaway_received s) (hs_live s) (hs_reqs s) (hs_next s) (hs_refused s) (hs_calls s).
Definition set_hs_goaway (s : H2Session) : H2Session :=
  mkSession (hs_prof s) (hs_session s) (hs_open_streams s) true (hs_live s) (hs_reqs s) (hs_next s) (hs_refused s) (hs_calls s).
Definition set_hs_live (v : list nat) (s : H2Session) : H2Session :=
  mkSession (hs_prof s) (hs_session s) (hs_open_streams s) (hs_goaway_received s) v (hs_reqs s) (hs_next s) (hs_refused s) (hs_calls s).
Definition set_hs_reqs (v : gmap nat Req) (s : H2Session) : H2Session :=
  mkSession (hs_prof s) (hs_session s) (hs_open_streams s) (hs_goaway_received s) (hs_live s) v (hs_next s) (hs_refused s) (hs_calls s).
Definition set_hs_next (v : nat) (refused : list nat) (s : H2Session) : H2Session :=
  mkSession (hs_prof s) (hs_session s) (hs_open_streams s) (hs_goaway_received s) (hs_live s) (hs_reqs s) v refused (hs_calls s).
Definition set_hs_calls (v : list H2Call) (s : H2Session) : H2Session :=
  mkSession (hs_prof s) (hs_session s) (hs_open_streams s) (hs_goaway_received s) (hs_live s) (hs_reqs s) (hs_next s) (hs_refused s) v.

(** ** Access *)
Abbreviation HM := (PS H2Session).
Definition get_rq (r : nat) : HM Req := fun s => match hs_reqs s !! r with Some q => Some (q, s) | None => None end.
Definition upd_rq (r : nat) (f : Req -> Req) : HM unit :=
  fun s => match hs_reqs s !! r with Some q => Some (tt, set_hs_reqs (<[r := f q]> (hs_reqs s)) s) | None => None end.
(** The nghttp2 session; a null one is not dereferenced by the code. *)
Definition get_ng : HM ng := fun s => match hs_session s with Some n => Some (n, s) | None => None end.
Definition upd_ng (f : ng -> ng) : HM unit := pupd (fun s => set_hs_session (f <$> hs_session s) s).
Definition user_data (stream_id : Z) : HM (option nat) := n ← get_ng; mret (ng_user_data n !! stream_id).
(** [arena_acquire] for a request, and [arena_recycle]. *)
Definition new_rq (q : Req) : HM nat :=
  fun s => Some (hs_next s, set_hs_next (S (hs_next s)) (hs_refused s) (set_hs_reqs (<[hs_next s := q]> (hs_reqs s)) s)).
Definition arena_recycle_rq (r : nat) : HM unit := q ← get_rq r; pupd (fun s => set_hs_reqs (delete r (hs_reqs s)) s).

(** ** Response bodies *)
Definition body_append (q : Req) (data : bytes) : Req :=
  if (length data =? 0)%nat then q
  else
    let need := wrap64 (zlen (rq_body q) + zlen data) in
    if rq_body_cap q <? need then
      let newcap :=
        if rq_body_cap q =? 0 then
          let hint := match header_list_value (rq_headers q) (lit "content-length") with
                      | Some cl => str8_to_u64 cl
                      | None => 0
                      end in
          if (0 <? hint) && (hint <=? H2_BODY_PRESIZE_MAX) then hint else 4096
        else wrap64 (rq_body_cap q * 2) in
      set_rq_body (rq_body q ++ data) (double_until 64 newcap need) q
    else set_rq_body (rq_body q ++ data) (rq_body_cap q) q.

(** ** The queue of a WebSocket *)
Definition wq_send (q : Req) (data : bytes) : Req :=
  let wq := drop (rq_wq_off q) (rq_wq q) in
  let need := wrap64 (zlen wq + zlen data) in
  let cap := if rq_wq_cap q <? need
             then double_until 64 (if negb (rq_wq_cap q =? 0) then wrap64 (rq_wq_cap q * 2) else 4096) need
             else rq_wq_cap q in
  set_rq_wq (wq ++ data) 0 cap q.
Definition h2_session_ws_send (stream_id : Z) (data : bytes) : HM bool :=
  session ← pget hs_session;
  match session with
  | None => mret false
  | Some _ =>
      u ← user_data stream_id;
      match u with
      | None => mret false
      | Some r =>
          q ← get_rq r;
          if negb (rq_is_ws q) then mret false
          else
            upd_rq r (fun q => wq_send q data);;
            upd_ng (fun n => ng_resume_data n stream_id);;
            mret true
      end
  end.
Definition h2_session_ws_finish (stream_id : Z) : HM unit :=
  session ← pget hs_session;
  match session with
  | None => pskip
  | Some _ =>
      u ← user_data stream_id;
      match u with
      | None => pskip
      | Some r =>
          q ← get_rq r;
          if negb (rq_is_ws q) then pskip
          else
            upd_rq r (fun q => set_rq_ws (rq_ws_connected q) true q);;
            upd_ng (fun n => ng_resume_data n stream_id)
      end
  end.

(** ** The callbacks of nghttp2 *)
Section callbacks.
Context (prog : H2Call -> list H2Op).

Fixpoint run_ops (l : list H2Op) : HM unit :=
  match l with
  | [] => pskip
  | OpWsSend sid data :: l => _ ← h2_session_ws_send sid data; run_ops l
  | OpWsFinish sid :: l => h2_session_ws_finish sid;; run_ops l
  end.
(** A call of the user. *)
Definition call_user (c : H2Call) : HM unit := pupd (fun s => set_hs_calls (hs_calls s ++ [c]) s);; run_ops (prog c).
Fixpoint call_chunks (user : nat) (l : list bytes) : HM unit :=
  match l with
  | [] => pskip
  | d :: l => call_user (CallChunk user d);; call_chunks user l
  end.

Definition send_cb (data : bytes) : HM NgAnswer := call_user (CallSend data);; mret NgOk.

Definition req_header (n v : bytes) (q : Req) : Req :=
  if str8_match n (lit ":status") then set_rq_status (to_int (str8_to_u64 v)) q
  else set_rq_headers (header_list_push (rq_headers q) n v 0) q.
Definition on_header_cb (stream_id : Z) (n v : bytes) : HM NgAnswer :=
  u ← user_data stream_id;
  match u with
  | None => mret NgOk
  | Some r => upd_rq r (req_header n v);; mret NgOk
  end.

(** The decoder of a streamed body, made from the response headers. *)
Definition stream_data (r : nat) (q : Req) (on_chunk : nat) (data : bytes) : HM unit :=
  let dec := if rq_dec_inited q then rq_dec q
             else sdec_create (default [] (header_list_value (rq_headers q) (lit "content-encoding"))) in
  upd_rq r (set_rq_dec dec true (rq_stream_failed q));;
  match dec with
  | None => pskip
  | Some d =>
      match sdec_push d data with
      | None => bad
      | Some (ok, d, chunks) =>
          upd_rq r (set_rq_dec (Some d) true (rq_stream_failed q));;
          call_chunks on_chunk chunks;;
          pwhen (negb ok) (upd_rq r (fun q => set_rq_dec (rq_dec q) (rq_dec_inited q) true q))
      end
  end.
Definition on_data_cb (stream_id : Z) (data : bytes) : HM NgAnswer :=
  u ← user_data stream_id;
  (match u with
   | None => pskip
   | Some r =>
       q ← get_rq r;
       if rq_is_ws q then call_user (CallData (rq_user q) data)
       else match rq_on_chunk q with
       | Some on_chunk => stream_data r q on_chunk data
       | None => upd_rq r (fun q => body_append q data)
       end
   end);;
  upd_ng (fun n => ng_consume_connection n (zlen data));;
  upd_ng (fun n => ng_consume_stream n stream_id (zlen data));;
  mret NgOk.

Fixpoint live_remove (r : nat) (l : list nat) : list nat :=
  match l with
  | [] => []
  | x :: l => if (x =? r)%nat then l else x :: live_remove r l
  end.
Definition on_stream_close_cb (stream_id error_code : Z) : HM NgAnswer :=
  u ← user_data stream_id;
  match u with
  | None => mret NgOk
  | Some r =>
      q ← get_rq r;
      pupd (fun s => if 0 <? hs_open_streams s then set_hs_open_streams (hs_open_streams s - 1) s else s);;
      if rq_is_ws q then call_user (CallData (rq_user q) []);; mret NgOk
      else
        upd_rq r (fun q => set_rq_dec None (rq_dec_inited q) (rq_stream_failed q) q);;
        let resp := mkH2Response stream_id ((error_code =? NGHTTP2_NO_ERROR) && negb (rq_stream_failed q)) (rq_status q)
                      (ga_list (rq_headers q)) (match rq_on_chunk q with Some _ => [] | None => rq_body q end) in
        call_user (CallResponse r (rq_user q) resp);;
        pupd (fun s => set_hs_live (live_remove r (hs_live s)) s);;
        arena_recycle_rq r;;
        mret NgOk
  end.

Definition on_frame_recv_cb (type stream_id : Z) : HM NgAnswer :=
  pwhen (type =? NGHTTP2_GOAWAY) (pupd set_hs_goaway);;
  pwhen (type =? NGHTTP2_HEADERS)
    (u ← user_data stream_id;
     match u with
     | None => pskip
     | Some r =>
         q ← get_rq r;
         if rq_is_ws q && negb (rq_ws_connected q) then
           upd_rq r (fun q => set_rq_ws true (rq_ws_eof q) q);;
           call_user (CallConnect (rq_user q) (rq_status q)
                        (default [] (header_list_value (rq_headers q) (lit "sec-websocket-extensions"))))
         else pskip
     end);;
  mret NgOk.

Definition source_read (bs : BodySource) (length : nat) : bytes * bool * BodySource :=
  let n := Nat.min (List.length (bs_p bs) - bs_off bs) length in
  let off := (bs_off bs + n)%nat in
  (take n (drop (bs_off bs) (bs_p bs)), (List.length (bs_p bs) <=? off)%nat, mkSource (bs_p bs) off).
Definition body_read_cb (r : nat) (length : nat) : HM NgAnswer :=
  q ← get_rq r;
  let '(data, eof, bs) := source_read (rq_source q) length in
  upd_rq r (set_rq_source bs);;
  mret (NgBytes data eof).

Definition queue_read (q : Req) (length : nat) : NgAnswer * Req :=
  let remain := (List.length (rq_wq q) - rq_wq_off q)%nat in
  if (remain =? 0)%nat then (if rq_ws_eof q then NgBytes [] true else NgDeferred, q)
  else
    let n := Nat.min remain length in
    let data := take n (drop (rq_wq_off q) (rq_wq q)) in
    let off := (rq_wq_off q + n)%nat in
    if (off =? List.length (rq_wq q))%nat then (NgBytes data (rq_ws_eof q), set_rq_wq [] 0 (rq_wq_cap q) q)
    else (NgBytes data false, set_rq_wq (rq_wq q) off (rq_wq_cap q) q).
Definition ws_data_read_cb (r : nat) (length : nat) : HM NgAnswer :=
  q ← get_rq r;
  let '(a, q) := queue_read q length in
  upd_rq r (fun _ => q);;
  mret a.

Definition callback (ev : NgEvent) : HM NgAnswer :=
  match ev with
  | NgHeader sid n v => on_header_cb sid n v
  | NgData sid data => on_data_cb sid data
  | NgStreamClose sid err => on_stream_close_cb sid err
  | NgFrameRecv type sid => on_frame_recv_cb type sid
  | NgSend data => send_cb data
  | NgRead _ (NgBody r) length => body_read_cb r length
  | NgRead _ (NgQueue r) length => ws_data_read_cb r length
  | NgEnd _ => mret NgOk
  end.
(** A callback runs and returns to nghttp2. *)
Definition ng_handle (ev : NgEvent) : HM unit := a ← callback ev; upd_ng (fun n => ng_answer n ev a).
(** One step of the dialogue: the result of the call when it ends. *)
Definition ng_round : HM (option Z) :=
  n ← get_ng;
  let '(ev, n) := ng_next n in
  upd_ng (fun _ => n);;
  match ev with
  | NgEnd rc => mret (Some rc)
  | _ => ng_handle ev;; mret None
  end.
Definition ng_dialogue : HM Z := fun s =>
  match loop_pow 64 (fun s => match ng_round s with
                              | Some (None, s) => inl s
                              | Some (Some rc, s) => inr (Some (rc, s))
                              | None => inr None
                              end) s with
  | inr r => r
  | inl _ => None
  end.
Definition ng_call (begin : ng -> ng) : HM Z := upd_ng begin;; ng_dialogue.

(** ** The operations *)
Definition h2_session_flush : HM bool :=
  session ← pget hs_session;
  match session with
  | None => mret false
  | Some _ => rc ← ng_call ng_session_send; mret (rc =? 0)
  end.
Definition h2_session_start : HM bool :=
  session ← pget hs_session;
  match session with
  | None => mret false
  | Some n =>
      prof ← pget hs_prof;
      let '(rc, n) := ng_submit_settings n (h2p_settings prof) in
      upd_ng (fun _ => n);;
      if negb (rc =? 0) then mret false
      else if negb (h2p_connection_window_increment prof =? 0) then
        let '(rc, n) := ng_submit_window_update n 0 (to_int (h2p_connection_window_increment prof)) in
        upd_ng (fun _ => n);;
        if negb (rc =? 0) then mret false else h2_session_flush
      else h2_session_flush
  end.
Definition h2_session_recv (data : bytes) : HM Z :=
  session ← pget hs_session;
  match session with
  | None => mret (-1)
  | Some _ =>
      n ← ng_call (fun n => ng_mem_recv n data);
      if n <? 0 then mret n else _ ← h2_session_flush; mret n
  end.

Definition h2_fields (prof : Http2Profile) (method scheme authority path : bytes) (headers : list Header) : list (bytes * bytes) :=
  map (pseudo_field method scheme authority path) (h2p_pseudo_order prof) ++ crumbed_fields headers.
(** The size of the array the fields are written to. *)
Definition h2_nva_size (prof : Http2Profile) (headers : list Header) : nat :=
  (length (h2p_pseudo_order prof) + field_count headers)%nat.
Definition h2_priority (prof : Http2Profile) : option NgPriority :=
  if h2p_use_priority prof
  then Some (mkPriority (to_int (h2p_priority_dep_stream prof)) (h2p_priority_weight prof) (h2p_priority_exclusive prof))
  else None.
Definition h2_session_submit_request (method scheme authority path : bytes) (headers : list Header) (body : bytes)
    (user : nat) (on_chunk : option nat) : HM Z :=
  session ← pget hs_session;
  match session with
  | None => mret (-1)
  | Some n =>
      prof ← pget hs_prof;
      r ← new_rq (mkReq 0 0 header_list_init [] 0 user on_chunk None false false (mkSource body 0) false false [] 0 0 false);
      let '(sid, n) := ng_submit_request n (h2_priority prof) (h2_fields prof method scheme authority path headers)
                         (if (length body =? 0)%nat then None else Some (NgBody r)) r in
      upd_ng (fun _ => n);;
      if sid <? 0 then
        arena_recycle_rq r;;
        pupd (fun s => set_hs_next (hs_next s) (hs_refused s ++ [r]) s);;
        mret sid
      else
        upd_rq r (set_rq_stream_id sid);;
        pupd (fun s => set_hs_live (r :: hs_live s) s);;
        pupd (fun s => set_hs_open_streams (hs_open_streams s + 1) s);;
        _ ← h2_session_flush;
        mret sid
  end.
Definition h2_session_cancel_stream (stream_id : Z) : HM unit :=
  session ← pget hs_session;
  match session with
  | None => pskip
  | Some _ =>
      upd_ng (fun n => ng_set_user_data n stream_id None);;
      upd_ng (fun n => ng_submit_rst_stream n stream_id NGHTTP2_CANCEL);;
      pupd (fun s => if 0 <? hs_open_streams s then set_hs_open_streams (hs_open_streams s - 1) s else s);;
      _ ← h2_session_flush;
      pskip
  end.

(** The fields of an Extended CONNECT: [:protocol] follows [:method]. *)
Definition connect_field (scheme authority path protocol : bytes) (id : PseudoId) : list (bytes * bytes) :=
  match id with
  | Pseudo_Method => [(lit ":method", lit "CONNECT"); (lit ":protocol", protocol)]
  | _ => [pseudo_field (lit "CONNECT") scheme authority path id]
  end.
Definition h2_session_ws_connect (scheme authority path protocol : bytes) (headers : list Header) (user : nat) : HM Z :=
  session ← pget hs_session;
  match session with
  | None => mret (-1)
  | Some n =>
      prof ← pget hs_prof;
      r ← new_rq (mkReq 0 0 header_list_init [] 0 user None None false false (mkSource [] 0) true false [] 0 0 false);
      let nva := flat_map (connect_field scheme authority path protocol) (h2p_pseudo_order prof) ++
                 map (fun h => (h_name h, h_value h)) headers in
      let '(sid, n) := ng_submit_request n (h2_priority prof) nva (Some (NgQueue r)) r in
      upd_ng (fun _ => n);;
      if sid <? 0 then mret sid
      else
        upd_rq r (set_rq_stream_id sid);;
        pupd (fun s => set_hs_open_streams (hs_open_streams s + 1) s);;
        _ ← h2_session_flush;
        mret sid
  end.
End callbacks.

(** ** The life of a session *)
Definition h2_session_alloc (prof : Http2Profile) : H2Session := mkSession prof ng_client_new 0 false [] ∅ 0 [] [].
(** The requests that are still live are swept: their decoders and arenas are
    freed. *)
Fixpoint release_loop (l : list nat) : HM unit :=
  match l with
  | [] => pskip
  | r :: l => arena_recycle_rq r;; release_loop l
  end.
Definition h2_session_release : HM unit :=
  live ← pget hs_live;
  release_loop live;;
  pupd (set_hs_live []);;
  pupd (set_hs_session None).

Definition h2_session_connect_protocol_enabled (s : H2Session) : bool :=
  match hs_session s with
  | None => false
  | Some n => ng_remote_settings n NGHTTP2_SETTINGS_ENABLE_CONNECT_PROTOCOL =? 1
  end.
Definition h2_session_want_write (s : H2Session) : bool := match hs_session s with None => false | Some n => ng_want_write n end.
Definition h2_session_want_read (s : H2Session) : bool := match hs_session s with None => false | Some n => ng_want_read n end.
Definition h2_session_idle (s : H2Session) : bool := (hs_open_streams s =? 0) && negb (h2_session_want_write s).
Definition h2_session_max_concurrent_streams (s : H2Session) : Z :=
  match hs_session s with None => 0 | Some n => ng_remote_settings n NGHTTP2_SETTINGS_MAX_CONCURRENT_STREAMS end.
Definition h2_session_goaway_received (s : H2Session) : bool := hs_goaway_received s.
End session.

(** ** Decoders that do not return

    A push that does not return leaves the session without a result, as a use of
    a recycled arena does. The two are told apart by a decoder that fails where
    the given one does not return: wherever the session over the given one has a
    result, it has the same over the other. *)
Section returning.
Context `{HNg : NgHttp2} `{HDec : StreamDec} `{HPush : !DecPush}.
Definition returning : DecPush := fun d data => Some (default (false, d, []) (sdec_push d data)).
Context (prog : H2Call -> list H2Op).

Ltac below_step :=
  lazymatch goal with
  | |- below bad _ => apply below_bad
  | |- below (mbind _ _) _ => apply below_bind; [|intros ?]
  | |- below (match ?x with _ => _ end) _ => destruct x
  | _ => apply below_refl
  end.
Lemma below_stream_data r q oc data : below (stream_data prog r q oc data) (stream_data (HPush := returning) prog r q oc data).
Proof.
  unfold stream_data. apply below_bind; [apply below_refl|intros _]. destruct (if rq_dec_inited q then _ else _) as [d|]; [|apply below_refl].
  unfold sdec_push at 2, returning. destruct (sdec_push d data) as [[[ok d'] cs]|]; [apply below_refl|apply below_bad].
Qed.
Lemma below_data sid data : below (on_data_cb prog sid data) (on_data_cb (HPush := returning) prog sid data).
Proof. unfold on_data_cb. repeat (lazymatch goal with |- below (stream_data _ _ _ _ _) _ => apply below_stream_data | _ => below_step end). Qed.
Lemma below_handle ev : below (ng_handle prog ev) (ng_handle (HPush := returning) prog ev).
Proof. apply below_bind; [|intros; apply below_refl]. destruct ev; try apply below_refl. apply below_data. Qed.
Lemma below_round : below (ng_round prog) (ng_round (HPush := returning) prog).
Proof. unfold ng_round. repeat (lazymatch goal with |- below (ng_handle _ _) _ => apply below_handle | _ => below_step end). Qed.
Lemma below_dialogue : below (ng_dialogue prog) (ng_dialogue (HPush := returning) prog).
Proof.
  intros s x. unfold ng_dialogue.
  match goal with |- match loop_pow 64 ?f s with _ => _ end = _ -> match loop_pow 64 ?g s with _ => _ end = _ =>
    destruct (below_loop f g) with (k := 64%nat) (s := s) as [-> | ->]; [|done|done] end.
  intros s0. destruct (ng_round prog s0) as [y|] eqn:E; [left|by right]. by rewrite (below_round _ _ E).
Qed.
Lemma below_call b : below (ng_call prog b) (ng_call (HPush := returning) prog b).
Proof. apply below_bind; [apply below_refl|intros; apply below_dialogue]. Qed.
Lemma below_flush : below (h2_session_flush prog) (h2_session_flush (HPush := returning) prog).
Proof. unfold h2_session_flush. repeat (lazymatch goal with |- below (ng_call _ _) _ => apply below_call | _ => below_step end). Qed.
Ltac below_call_step :=
  lazymatch goal with
  | |- below (ng_call _ _) _ => apply below_call
  | |- below (h2_session_flush _) _ => apply below_flush
  | _ => below_step
  end.
Lemma below_start : below (h2_session_start prog) (h2_session_start (HPush := returning) prog).
Proof. unfold h2_session_start. repeat below_call_step. Qed.
Lemma below_recv data : below (h2_session_recv prog data) (h2_session_recv (HPush := returning) prog data).
Proof. unfold h2_session_recv. repeat below_call_step. Qed.
Lemma below_submit m sc au pa hs body user oc :
  below (h2_session_submit_request prog m sc au pa hs body user oc) (h2_session_submit_request (HPush := returning) prog m sc au pa hs body user oc).
Proof. unfold h2_session_submit_request. repeat below_call_step. Qed.
Lemma below_cancel sid : below (h2_session_cancel_stream prog sid) (h2_session_cancel_stream (HPush := returning) prog sid).
Proof. unfold h2_session_cancel_stream. repeat below_call_step. Qed.
Lemma below_connect sc au pa pr hs user :
  below (h2_session_ws_connect prog sc au pa pr hs user) (h2_session_ws_connect (HPush := returning) prog sc au pa pr hs user).
Proof. unfold h2_session_ws_connect. repeat below_call_step. Qed.
End returning.
