(* ===== verification/H2Safe.v ===== *)
(** * The HTTP/2 session is safe

    What the session relies on of nghttp2 ([ng_laws]), its invariant, and that
    every callback and every operation keeps it without using an arena that was
    recycled. *)
From stdpp Require Import gmap relations.
From S2P Require Import Prelude String8 U8Buf GrowArr Header Proxy.
From S2P Require Export H2.

(** A flow-control window of the peer: the connection's ([None]) or a stream's. *)
Definition counts (w : option Z) (sid : Z) : bool := match w with None => true | Some sid' => sid =? sid' end.
(** The bytes of an event that a window pays for. *)
Definition data_len (w : option Z) (ev : NgEvent) : Z := match ev with NgData sid d => if counts w sid then zlen d else 0 | _ => 0 end.
Definition closes {A} (ev : NgEvent) (m : gmap Z A) : gmap Z A := match ev with NgStreamClose sid _ => delete sid m | _ => m end.
Definition src_req (src : NgSource) : nat := match src with NgBody r | NgQueue r => r end.
Definition src_ws (src : NgSource) : bool := match src with NgBody _ => false | NgQueue _ => true end.

(** ** The documented behaviour of nghttp2

    [sources] are the data sources of its open streams, [owed] the bytes it
    has delivered on the window [w] and that were not reported as consumed there
    (the connection's by [nghttp2_session_consume_connection], a stream's by
    [nghttp2_session_consume_stream]), [left] how many more callbacks the call
    that is running makes, at most. *)
Record ng_laws `{NgHttp2} (w : option Z) (sources : ng -> gmap Z NgSource) (owed left : ng -> Z) : Prop := {
  nl_new n : ng_client_new = Some n -> ng_user_data n = ∅ /\ sources n = ∅ /\ owed n = 0;
  nl_settings n iv rc n' : ng_submit_settings n iv = (rc, n') ->
    ng_user_data n' = ng_user_data n /\ sources n' = sources n /\ owed n' = owed n;
  nl_window n sid inc rc n' : ng_submit_window_update n sid inc = (rc, n') ->
    ng_user_data n' = ng_user_data n /\ sources n' = sources n /\ owed n' = owed n;
  nl_submit n pri nva src r sid n' : ng_submit_request n pri nva src r = (sid, n') ->
    owed n' = owed n /\
    if sid <? 0 then ng_user_data n' = ng_user_data n /\ sources n' = sources n
    else ng_user_data n !! sid = None /\ sources n !! sid = None /\ ng_user_data n' = <[sid := r]> (ng_user_data n) /\
         sources n' = match src with Some x => <[sid := x]> (sources n) | None => sources n end;
  nl_rst n sid err : ng_user_data (ng_submit_rst_stream n sid err) = ng_user_data n /\
    sources (ng_submit_rst_stream n sid err) = sources n /\ owed (ng_submit_rst_stream n sid err) = owed n;
  nl_forget n sid : ng_user_data (ng_set_user_data n sid None) = delete sid (ng_user_data n) /\
    sources (ng_set_user_data n sid None) = sources n /\ owed (ng_set_user_data n sid None) = owed n;
  nl_consume n k : ng_user_data (ng_consume_connection n k) = ng_user_data n /\ sources (ng_consume_connection n k) = sources n /\
    owed (ng_consume_connection n k) = owed n - (if w is None then k else 0) /\ left (ng_consume_connection n k) = left n;
  nl_consume_stream n sid k : ng_user_data (ng_consume_stream n sid k) = ng_user_data n /\
    sources (ng_consume_stream n sid k) = sources n /\
    owed (ng_consume_stream n sid k) = owed n - (if w is Some sid' then if sid =? sid' then k else 0 else 0) /\
    left (ng_consume_stream n sid k) = left n;
  nl_resume n sid : ng_user_data (ng_resume_data n sid) = ng_user_data n /\ sources (ng_resume_data n sid) = sources n /\
    owed (ng_resume_data n sid) = owed n /\ left (ng_resume_data n sid) = left n;
  nl_recv n data : ng_user_data (ng_mem_recv n data) = ng_user_data n /\ sources (ng_mem_recv n data) = sources n /\
    owed (ng_mem_recv n data) = owed n /\ 0 <= left (ng_mem_recv n data) < 2 ^ 64;
  nl_send n : ng_user_data (ng_session_send n) = ng_user_data n /\ sources (ng_session_send n) = sources n /\
    owed (ng_session_send n) = owed n /\ 0 <= left (ng_session_send n) < 2 ^ 64;
  nl_next n ev n' : ng_next n = (ev, n') -> ng_user_data n' = ng_user_data n /\ sources n' = sources n /\
    owed n' = owed n + data_len w ev /\ left n' = left n /\
    match ev with NgEnd _ => True | NgRead sid src _ => 0 < left n /\ sources n !! sid = Some src | _ => 0 < left n end;
  nl_answer n ev a : ng_user_data (ng_answer n ev a) = closes ev (ng_user_data n) /\
    sources (ng_answer n ev a) = closes ev (sources n) /\ owed (ng_answer n ev a) = owed n /\
    (0 < left n -> 0 <= left (ng_answer n ev a) < left n)
}.

Section safe.
Context `{HNg : NgHttp2} `{HDec : StreamDec} `{HPush : !DecPush}.
Context {w : option Z} (sources : ng -> gmap Z NgSource) (owed left : ng -> Z).
Context (HL : ng_laws w sources owed left).
(** A push into the decoder of a streamed body returns. *)
Context (Hdec : forall d data, is_Some (sdec_push d data)).
Context (prog : H2Call -> list H2Op).
Implicit Types (s : H2Session) (q : Req) (n : ng).

(** ** The invariant *)
Definition on_ng {A} (f : ng -> A) (d : A) s : A := match hs_session s with Some n => f n | None => d end.
Definition users s : gmap Z nat := on_ng ng_user_data ∅ s.
Definition srcs s : gmap Z NgSource := on_ng sources ∅ s.
Definition owes s : Z := on_ng owed 0 s.
Definition remains s : Z := on_ng left 0 s.
Definition answered_of (cs : list H2Call) : list nat := omap (fun c => match c with CallResponse r _ _ => Some r | _ => None end) cs.
Definition answered s : list nat := answered_of (hs_calls s) ++ hs_refused s.

Record Inv s : Prop := {
  i_user sid r : users s !! sid = Some r -> exists q, hs_reqs s !! r = Some q /\ rq_stream_id q = sid;
  i_src sid src : srcs s !! sid = Some src ->
    exists q, hs_reqs s !! src_req src = Some q /\ rq_stream_id q = sid /\ rq_is_ws q = src_ws src;
  i_open : hs_open_streams s = Z.of_nat (size (users s));
  i_live : NoDup (hs_live s);
  i_live_in r : r ∈ hs_live s <-> exists q, hs_reqs s !! r = Some q /\ rq_is_ws q = false;
  i_next r : is_Some (hs_reqs s !! r) -> (r < hs_next s)%nat;
  i_once : NoDup (answered s);
  i_gone r : r ∈ answered s -> hs_reqs s !! r = None /\ (r < hs_next s)%nat;
  i_total r : (r < hs_next s)%nat -> is_Some (hs_reqs s !! r) \/ r ∈ answered s;
  i_queue r q : hs_reqs s !! r = Some q -> (rq_wq_off q <= length (rq_wq q))%nat
}.

(** A request as its frames see it: what the user queues does not count. *)
Definition alike q q' : Prop :=
  rq_stream_id q' = rq_stream_id q /\ rq_status q' = rq_status q /\ rq_headers q' = rq_headers q /\ rq_body q' = rq_body q /\
  rq_user q' = rq_user q /\ rq_on_chunk q' = rq_on_chunk q /\ rq_is_ws q' = rq_is_ws q /\
  (rq_on_chunk q = None -> rq_stream_failed q' = rq_stream_failed q).
Lemma alike_refl q : alike q q.
Proof. repeat split. Qed.
Lemma alike_trans q1 q2 q3 : alike q1 q2 -> alike q2 q3 -> alike q1 q3.
Proof.
  intros (A1 & A2 & A3 & A4 & A5 & A6 & A7 & A8) (B1 & B2 & B3 & B4 & B5 & B6 & B7 & B8). repeat split; try congruence.
  intros Hn. rewrite B8 by congruence. by apply A8.
Qed.

(** ** What the user may do inside of a callback *)
Definition ops_rel s s' : Prop :=
  hs_prof s' = hs_prof s /\ hs_open_streams s' = hs_open_streams s /\ hs_goaway_received s' = hs_goaway_received s /\
  hs_live s' = hs_live s /\ hs_next s' = hs_next s /\ hs_refused s' = hs_refused s /\ hs_calls s' = hs_calls s /\
  (is_Some (hs_session s) <-> is_Some (hs_session s')) /\
  users s' = users s /\ srcs s' = srcs s /\ owes s' = owes s /\ remains s' = remains s /\
  (forall r, match hs_reqs s !! r, hs_reqs s' !! r with
             | Some q, Some q' => alike q q' /\ ((rq_wq_off q <= length (rq_wq q))%nat -> (rq_wq_off q' <= length (rq_wq q'))%nat)
             | None, None => True
             | _, _ => False
             end).
Lemma ops_refl s : ops_rel s s.
Proof. repeat split; try done. intros r. destruct (hs_reqs s !! r); [split; [apply alike_refl|done]|done]. Qed.
Lemma ops_trans s1 s2 s3 : ops_rel s1 s2 -> ops_rel s2 s3 -> ops_rel s1 s3.
Proof.
  intros (A1 & A2 & A3 & A4 & A5 & A6 & A7 & A8 & A9 & A10 & A11 & A12 & A13)
    (B1 & B2 & B3 & B4 & B5 & B6 & B7 & B8 & B9 & B10 & B11 & B12 & B13).
  unfold ops_rel. rewrite B1, B2, B3, B4, B5, B6, B7, B9, B10, B11, B12. repeat (split; [done|]). split; [by rewrite A8|].
  repeat (split; [done|]). intros r. specialize (A13 r). specialize (B13 r).
  destruct (hs_reqs s1 !! r) as [q1|], (hs_reqs s2 !! r) as [q2|], (hs_reqs s3 !! r) as [q3|]; try done.
  destruct A13 as [A13 A14], B13 as [B13 B14]. split; [by eapply alike_trans|]. intros ?. by apply B14, A14.
Qed.
Lemma ops_some s s' r q : ops_rel s s' -> hs_reqs s !! r = Some q -> exists q', hs_reqs s' !! r = Some q' /\ alike q q'.
Proof.
  intros (_ & _ & _ & _ & _ & _ & _ & _ & _ & _ & _ & _ & H) Er. specialize (H r). rewrite Er in H.
  destruct (hs_reqs s' !! r) as [q'|]; [|done]. exists q'. by destruct H.
Qed.
Lemma ops_back s s' r q' : ops_rel s s' -> hs_reqs s' !! r = Some q' -> exists q, hs_reqs s !! r = Some q /\ alike q q' /\
  ((rq_wq_off q <= length (rq_wq q))%nat -> (rq_wq_off q' <= length (rq_wq q'))%nat).
Proof.
  intros (_ & _ & _ & _ & _ & _ & _ & _ & _ & _ & _ & _ & H) Er. specialize (H r). rewrite Er in H.
  destruct (hs_reqs s !! r) as [q|]; [|done]. exists q. by destruct H.
Qed.
Lemma ops_is_some s s' r : ops_rel s s' -> is_Some (hs_reqs s' !! r) <-> is_Some (hs_reqs s !! r).
Proof.
  intros H. split; intros [q Hq].
  - destruct (ops_back _ _ _ _ H Hq) as (q0 & ? & _). by exists q0.
  - destruct (ops_some _ _ _ _ H Hq) as (q0 & ? & _). by exists q0.
Qed.
Lemma inv_ops s s' : Inv s -> ops_rel s s' -> Inv s'.
Proof.
  intros HI H. pose proof H as (A1 & A2 & A3 & A4 & A5 & A6 & A7 & A8 & A9 & A10 & A11 & A12 & A13).
  assert (EA : answered s' = answered s) by (unfold answered; by rewrite A6, A7).
  constructor; rewrite ?A9, ?A10, ?A2, ?A4, ?A5, ?EA.
  - intros sid r Hu. destruct (i_user _ HI sid r Hu) as (q & Er & Hs). destruct (ops_some _ _ _ _ H Er) as (q' & Er' & Ha).
    exists q'. split; [done|]. destruct Ha. congruence.
  - intros sid src Hu. destruct (i_src _ HI sid src Hu) as (q & Er & Hs & Hw). destruct (ops_some _ _ _ _ H Er) as (q' & Er' & Ha).
    exists q'. split; [done|]. destruct Ha as (? & _ & _ & _ & _ & _ & ? & _). split; congruence.
  - apply (i_open _ HI).
  - apply (i_live _ HI).
  - intros r. rewrite (i_live_in _ HI). split; intros (q & Er & Hw).
    + destruct (ops_some _ _ _ _ H Er) as (q' & Er' & Ha). exists q'. split; [done|]. destruct Ha as (_ & _ & _ & _ & _ & _ & ? & _). congruence.
    + destruct (ops_back _ _ _ _ H Er) as (q' & Er' & Ha & _). exists q'. split; [done|]. destruct Ha as (_ & _ & _ & _ & _ & _ & ? & _). congruence.
  - intros r Hr. apply (i_next _ HI). by apply (ops_is_some s s').
  - apply (i_once _ HI).
  - intros r Hr. destruct (i_gone _ HI r Hr) as [Hn ?]. split; [|done]. destruct (hs_reqs s' !! r) as [q|] eqn:E; [|done].
    destruct (ops_back _ _ _ _ H E) as (q0 & ? & _). congruence.
  - intros r Hr. destruct (i_total _ HI r Hr) as [Hs|]; [left|by right]. by apply (ops_is_some s s').
  - intros r q' Er. destruct (ops_back _ _ _ _ H Er) as (q & Er' & _ & Hq). apply Hq, (i_queue _ HI r q Er').
Qed.

(** ** Rules *)
Lemma wp_get_rq r q (Post : Req -> H2Session -> Prop) s : hs_reqs s !! r = Some q -> Post q s -> wp (get_rq r) Post s.
Proof. unfold wp, get_rq. by intros ->. Qed.
Lemma wp_upd_rq r f q (Post : unit -> H2Session -> Prop) s :
  hs_reqs s !! r = Some q -> Post tt (set_hs_reqs (<[r := f q]> (hs_reqs s)) s) -> wp (upd_rq r f) Post s.
Proof. unfold wp, upd_rq. by intros ->. Qed.
Lemma wp_upd_ng f n (Post : unit -> H2Session -> Prop) s :
  hs_session s = Some n -> Post tt (set_hs_session (Some (f n)) s) -> wp (upd_ng f) Post s.
Proof. unfold wp, upd_ng, pupd. by intros ->. Qed.
Lemma wp_get_ng n (Post : ng -> H2Session -> Prop) s : hs_session s = Some n -> Post n s -> wp get_ng Post s.
Proof. unfold wp, get_ng. by intros ->. Qed.
Lemma wp_user_data n sid (Post : option nat -> H2Session -> Prop) s :
  hs_session s = Some n -> Post (users s !! sid) s -> wp (user_data sid) Post s.
Proof. intros Hn HP. unfold user_data. apply wp_bind, (wp_get_ng n); [done|]. apply wp_ret. unfold users, on_ng in HP. by rewrite Hn in HP. Qed.

(** The streams refer to requests that are there. *)
Definition refs s : Prop := is_Some (hs_session s) /\ forall sid r, users s !! sid = Some r -> is_Some (hs_reqs s !! r).
Lemma refs_ops s s' : refs s -> ops_rel s s' -> refs s'.
Proof.
  intros [Hs Hr] H. pose proof H as (_ & _ & _ & _ & _ & _ & _ & A8 & A9 & _). split; [by apply A8|].
  intros sid r Hu. rewrite A9 in Hu. apply (ops_is_some s s'); [done|]. by eapply Hr.
Qed.
Lemma inv_refs s : Inv s -> is_Some (hs_session s) -> refs s.
Proof. intros HI Hs. split; [done|]. intros sid r Hu. destruct (i_user _ HI sid r Hu) as (q & -> & _). by exists q. Qed.
Lemma ops_put s r q q' : hs_reqs s !! r = Some q -> alike q q' ->
  ((rq_wq_off q <= length (rq_wq q))%nat -> (rq_wq_off q' <= length (rq_wq q'))%nat) -> ops_rel s (set_hs_reqs (<[r := q']> (hs_reqs s)) s).
Proof.
  intros Er Ha Hq. repeat split; try done. intros r'. cbn. destruct (decide (r' = r)) as [->|Hn].
  - rewrite lookup_insert_eq, Er. done.
  - rewrite lookup_insert_ne by done. destruct (hs_reqs s !! r'); [split; [apply alike_refl|done]|done].
Qed.
Lemma ops_ng s n n' : hs_session s = Some n -> ng_user_data n' = ng_user_data n -> sources n' = sources n -> owed n' = owed n ->
  left n' = left n -> ops_rel s (set_hs_session (Some n') s).
Proof.
  intros Hs E1 E2 E3 E4. unfold ops_rel, users, srcs, owes, remains, on_ng; cbn. rewrite Hs. repeat (split; [done|]). intros r. destruct (hs_reqs s !! r); [split; [apply alike_refl|done]|done].
Qed.
Lemma ops_resume s sid : is_Some (hs_session s) -> wp (upd_ng (fun n => ng_resume_data n sid)) (fun _ s' => ops_rel s s') s.
Proof.
  intros [n Hn]. apply (wp_upd_ng _ n); [done|]. destruct (nl_resume _ _ _ _ HL n sid) as (? & ? & ? & ?). by apply (ops_ng s n).
Qed.
Lemma wp_trans {A B} (m : PS H2Session A) (k : A -> PS H2Session B) s : wp m (fun _ s' => ops_rel s s') s ->
  (forall x s', ops_rel s s' -> wp (k x) (fun _ s'' => ops_rel s' s'') s') -> wp (x ← m; k x) (fun _ s' => ops_rel s s') s.
Proof.
  intros Hm Hk. apply wp_bind. eapply wp_mono; [exact Hm|]. intros x s' H. eapply wp_mono; [by apply Hk|].
  intros y s'' H'. exact (ops_trans _ _ _ H H').
Qed.
Lemma wp_ws_send sid data s : refs s -> wp (h2_session_ws_send sid data) (fun _ s' => ops_rel s s') s.
Proof.
  intros [[n Hn] Hr]. unfold h2_session_ws_send. apply wp_bind, wp_pget. rewrite Hn.
  apply wp_bind, (wp_user_data n); [done|]. destruct (users s !! sid) as [r|] eqn:Hu; [|apply wp_ret, ops_refl].
  destruct (Hr sid r Hu) as [q Er]. apply wp_bind, (wp_get_rq r q); [done|]. destruct (negb (rq_is_ws q)); [apply wp_ret, ops_refl|].
  apply wp_trans.
  - apply (wp_upd_rq r _ q); [done|]. apply (ops_put s r q); [done|by repeat split|]. cbn. lia.
  - intros [] s1 H1. apply wp_trans; [|intros [] s2 _; apply wp_ret, ops_refl]. apply ops_resume.
    destruct H1 as (_ & _ & _ & _ & _ & _ & _ & H1 & _). apply H1. by exists n.
Qed.
Lemma wp_ws_finish sid s : refs s -> wp (h2_session_ws_finish sid) (fun _ s' => ops_rel s s') s.
Proof.
  intros [[n Hn] Hr]. unfold h2_session_ws_finish. apply wp_bind, wp_pget. rewrite Hn.
  apply wp_bind, (wp_user_data n); [done|]. destruct (users s !! sid) as [r|] eqn:Hu; [|apply wp_ret, ops_refl].
  destruct (Hr sid r Hu) as [q Er]. apply wp_bind, (wp_get_rq r q); [done|]. destruct (negb (rq_is_ws q)); [apply wp_ret, ops_refl|].
  apply wp_trans.
  - apply (wp_upd_rq r _ q); [done|]. by apply (ops_put s r q); [done|repeat split|].
  - intros [] s1 H1. apply ops_resume. destruct H1 as (_ & _ & _ & _ & _ & _ & _ & H1 & _). apply H1. by exists n.
Qed.
Lemma wp_run_ops l s : refs s -> wp (run_ops l) (fun _ s' => ops_rel s s') s.
Proof.
  revert s. induction l as [|[sid d|sid] l IH]; intros s Hr; cbn [run_ops]; [apply wp_ret, ops_refl|..]; apply wp_trans.
  - by apply wp_ws_send.
  - intros x s' H. apply IH. by eapply refs_ops.
  - by apply wp_ws_finish.
  - intros x s' H. apply IH. by eapply refs_ops.
Qed.
Lemma refs_calls s cs : refs s -> refs (set_hs_calls cs s).
Proof. done. Qed.
(** A call of the user is recorded. *)
Lemma wp_call_user c s : refs s -> wp (call_user prog c) (fun _ s' => ops_rel (set_hs_calls (hs_calls s ++ [c]) s) s') s.
Proof. intros Hr. unfold call_user. apply wp_bind, wp_pupd. by apply wp_run_ops, refs_calls. Qed.
Lemma wp_call_chunks user l s : refs s ->
  wp (call_chunks prog user l) (fun _ s' => ops_rel (set_hs_calls (hs_calls s ++ map (CallChunk user) l) s) s') s.
Proof.
  revert s. induction l as [|d l IH]; intros s Hr; cbn [call_chunks].
  - apply wp_ret. rewrite app_nil_r. destruct s. apply ops_refl.
  - apply wp_bind. eapply wp_mono; [by apply wp_call_user|]. intros [] s1 H1.
    eapply wp_mono; [apply IH; eapply refs_ops; [|exact H1]; by apply refs_calls|]. intros [] s2 H2.
    eapply ops_trans; [|exact H2]. pose proof H1 as (A1 & A2 & A3 & A4 & A5 & A6 & A7 & A8 & A9 & A10 & A11 & A12 & A13).
    cbn in *. repeat split; try done; try apply A8. cbn. by rewrite A7, <-app_assoc.
Qed.

(** ** Callbacks *)
Definition stream_of (ev : NgEvent) : Z :=
  match ev with
  | NgHeader sid _ _ | NgData sid _ | NgStreamClose sid _ | NgFrameRecv _ sid | NgRead sid _ _ => sid
  | NgSend _ => 0
  | NgEnd _ => 0
  end.
(** What an event does to the request of its stream. *)
Definition req_event (ev : NgEvent) q : Req :=
  match ev with
  | NgHeader _ n v => req_header n v q
  | NgData _ d => if rq_is_ws q then q else match rq_on_chunk q with Some _ => q | None => body_append q d end
  | _ => q
  end.
Definition applied (ev : NgEvent) s (r : nat) q : Req := if bool_decide (users s !! stream_of ev = Some r) then req_event ev q else q.
Definition is_close (ev : NgEvent) : bool := match ev with NgStreamClose _ _ => true | _ => false end.

(** [s'] is [s] after the callback of [ev], with calls of the user that are no
    responses, and with [k] bytes consumed. *)
Definition moves (ev : NgEvent) (k : Z) s s' : Prop :=
  hs_prof s' = hs_prof s /\ hs_open_streams s' = hs_open_streams s /\
  (hs_goaway_received s = true -> hs_goaway_received s' = true) /\
  hs_live s' = hs_live s /\ hs_next s' = hs_next s /\ hs_refused s' = hs_refused s /\
  (exists cs, hs_calls s' = hs_calls s ++ cs /\ answered_of cs = []) /\
  is_Some (hs_session s') /\ users s' = users s /\ srcs s' = srcs s /\ owes s' = owes s - k /\ remains s' = remains s /\
  (forall r, match hs_reqs s !! r, hs_reqs s' !! r with
             | Some q, Some q' => alike (applied ev s r q) q' /\
                 ((rq_wq_off q <= length (rq_wq q))%nat -> (rq_wq_off q' <= length (rq_wq q'))%nat)
             | None, None => True
             | _, _ => False
             end).
Lemma req_event_same ev q : rq_stream_id (req_event ev q) = rq_stream_id q /\ rq_is_ws (req_event ev q) = rq_is_ws q /\
  rq_user (req_event ev q) = rq_user q /\ rq_on_chunk (req_event ev q) = rq_on_chunk q /\ rq_wq (req_event ev q) = rq_wq q /\
  rq_wq_off (req_event ev q) = rq_wq_off q.
Proof.
  destruct ev; try done; cbn; unfold req_header, body_append; repeat case_match; done.
Qed.
Lemma applied_same ev s r q : rq_stream_id (applied ev s r q) = rq_stream_id q /\ rq_is_ws (applied ev s r q) = rq_is_ws q /\
  rq_user (applied ev s r q) = rq_user q /\ rq_on_chunk (applied ev s r q) = rq_on_chunk q.
Proof. unfold applied. case_bool_decide; [|done]. destruct (req_event_same ev q) as (? & ? & ? & ? & _). done. Qed.
Lemma moves_ops ev k s s1 s2 : moves ev k s s1 -> ops_rel s1 s2 -> moves ev k s s2.
Proof.
  intros (A1 & A2 & A3 & A4 & A5 & A6 & (cs & A7 & A7') & A8 & A9 & A10 & A11 & A12 & A13)
    (B1 & B2 & B3 & B4 & B5 & B6 & B7 & B8 & B9 & B10 & B11 & B12 & B13).
  unfold moves. rewrite B1, B2, B3, B4, B5, B6, B7, B9, B10, B11, B12. repeat (split; [done|]). split; [by exists cs|].
  split; [by apply B8|]. repeat (split; [done|]). intros r. specialize (A13 r). specialize (B13 r).
  destruct (hs_reqs s !! r) as [q|], (hs_reqs s1 !! r) as [q1|], (hs_reqs s2 !! r) as [q2|]; try done.
  destruct A13 as [A13 A14], B13 as [B13 B14]. split; [by eapply alike_trans|]. intros ?. by apply B14, A14.
Qed.
Lemma moves_some ev k s s' r q : moves ev k s s' -> hs_reqs s !! r = Some q -> exists q', hs_reqs s' !! r = Some q' /\ alike (applied ev s r q) q'.
Proof.
  intros (_ & _ & _ & _ & _ & _ & _ & _ & _ & _ & _ & _ & H) Er. specialize (H r). rewrite Er in H.
  destruct (hs_reqs s' !! r) as [q'|]; [|done]. exists q'. by destruct H.
Qed.
Lemma moves_back ev k s s' r q' : moves ev k s s' -> hs_reqs s' !! r = Some q' -> exists q, hs_reqs s !! r = Some q /\
  alike (applied ev s r q) q' /\ ((rq_wq_off q <= length (rq_wq q))%nat -> (rq_wq_off q' <= length (rq_wq q'))%nat).
Proof.
  intros (_ & _ & _ & _ & _ & _ & _ & _ & _ & _ & _ & _ & H) Er. specialize (H r). rewrite Er in H.
  destruct (hs_reqs s !! r) as [q|]; [|done]. exists q. by destruct H.
Qed.
Lemma moves_id q q' ev s r : alike (applied ev s r q) q' -> rq_stream_id q' = rq_stream_id q /\ rq_is_ws q' = rq_is_ws q /\ rq_user q' = rq_user q.
Proof. destruct (applied_same ev s r q) as (E1 & E2 & E3 & _). intros (? & _ & _ & _ & ? & _ & ? & _). repeat split; congruence. Qed.
Lemma answered_app cs1 cs2 : answered_of (cs1 ++ cs2) = answered_of cs1 ++ answered_of cs2.
Proof. apply omap_app. Qed.
Lemma answered_chunks user l : answered_of (map (CallChunk user) l) = [].
Proof. by induction l. Qed.
Lemma inv_moves ev k s s' : Inv s -> moves ev k s s' -> Inv s'.
Proof.
  intros HI H. pose proof H as (A1 & A2 & A3 & A4 & A5 & A6 & (cs & A7 & A7') & A8 & A9 & A10 & A11 & A12 & A13).
  assert (EA : answered s' = answered s) by (unfold answered; by rewrite A6, A7, answered_app, A7', app_nil_r).
  constructor; rewrite ?A9, ?A10, ?A2, ?A4, ?A5, ?EA.
  - intros sid r Hu. destruct (i_user _ HI sid r Hu) as (q & Er & Hs). destruct (moves_some _ _ _ _ _ _ H Er) as (q' & Er' & Ha).
    exists q'. split; [done|]. apply moves_id in Ha as (-> & _). done.
  - intros sid src Hu. destruct (i_src _ HI sid src Hu) as (q & Er & Hs & Hw). destruct (moves_some _ _ _ _ _ _ H Er) as (q' & Er' & Ha).
    exists q'. split; [done|]. by apply moves_id in Ha as (-> & -> & _).
  - apply (i_open _ HI).
  - apply (i_live _ HI).
  - intros r. rewrite (i_live_in _ HI). split; intros (q & Er & Hw).
    + destruct (moves_some _ _ _ _ _ _ H Er) as (q' & Er' & Ha). exists q'. split; [done|]. by apply moves_id in Ha as (_ & -> & _).
    + destruct (moves_back _ _ _ _ _ _ H Er) as (q' & Er' & Ha & _). exists q'. split; [done|]. by apply moves_id in Ha as (_ & <- & _).
  - intros r [q Hr]. destruct (moves_back _ _ _ _ _ _ H Hr) as (q0 & E & _). apply (i_next _ HI). by exists q0.
  - apply (i_once _ HI).
  - intros r Hr. destruct (i_gone _ HI r Hr) as [Hn ?]. split; [|done]. destruct (hs_reqs s' !! r) as [q|] eqn:E; [|done].
    destruct (moves_back _ _ _ _ _ _ H E) as (q0 & ? & _). congruence.
  - intros r Hr. destruct (i_total _ HI r Hr) as [[q Hs]|]; [left|by right].
    destruct (moves_some _ _ _ _ _ _ H Hs) as (q' & ? & _). by exists q'.
  - intros r q' Er. destruct (moves_back _ _ _ _ _ _ H Er) as (q & Er' & _ & Hq). apply Hq, (i_queue _ HI r q Er').
Qed.

Lemma moves_refl ev s : is_Some (hs_session s) -> (forall q, req_event ev q = q) -> moves ev 0 s s.
Proof.
  intros Hs He. repeat split; try done; try lia; [exists []; by rewrite app_nil_r|]. intros r. unfold applied.
  destruct (hs_reqs s !! r) as [q|]; [|done]. rewrite He. case_bool_decide; split; (apply alike_refl || done).
Qed.
Lemma moves_none ev s : is_Some (hs_session s) -> users s !! stream_of ev = None -> moves ev 0 s s.
Proof.
  intros Hs Hu. repeat split; try done; try lia; [exists []; by rewrite app_nil_r|]. intros r. unfold applied. rewrite Hu.
  destruct (hs_reqs s !! r) as [q|]; [|done]. split; (apply alike_refl || done).
Qed.
(** The request of the stream is updated, and the user is called. *)
Lemma moves_put ev s r q q' cs : is_Some (hs_session s) -> users s !! stream_of ev = Some r -> hs_reqs s !! r = Some q ->
  alike (req_event ev q) q' -> rq_wq_off q' = rq_wq_off q -> rq_wq q' = rq_wq q -> answered_of cs = [] ->
  moves ev 0 s (set_hs_calls (hs_calls s ++ cs) (set_hs_reqs (<[r := q']> (hs_reqs s)) s)).
Proof.
  intros Hs Hu Er Ha Ho Hw Hcs. repeat split; try done; try exact (eq_sym (Z.sub_0_r (owes s))); [by exists cs|]. cbn. intros r'. unfold applied. rewrite Hu.
  destruct (decide (r' = r)) as [->|Hn].
  - rewrite Er, lookup_insert_eq, bool_decide_true by done. split; [done|]. by rewrite Ho, Hw.
  - rewrite lookup_insert_ne by done. destruct (hs_reqs s !! r'); [|done]. rewrite bool_decide_false by congruence.
    split; (apply alike_refl || done).
Qed.
Lemma moves_put0 ev s r q q' : is_Some (hs_session s) -> users s !! stream_of ev = Some r -> hs_reqs s !! r = Some q ->
  alike (req_event ev q) q' -> rq_wq_off q' = rq_wq_off q -> rq_wq q' = rq_wq q -> moves ev 0 s (set_hs_reqs (<[r := q']> (hs_reqs s)) s).
Proof.
  intros. pose proof (moves_put ev s r q q' [] ltac:(done) ltac:(done) ltac:(done) ltac:(done) ltac:(done) ltac:(done) eq_refl) as M.
  rewrite app_nil_r in M. by destruct s.
Qed.
(** A change of nghttp2 that consumes [k] bytes. *)
Lemma moves_consume ev k0 k s s1 n n' : moves ev k0 s s1 -> hs_session s1 = Some n ->
  ng_user_data n' = ng_user_data n -> sources n' = sources n -> owed n' = owed n - k -> left n' = left n ->
  moves ev (k0 + k) s (set_hs_session (Some n') s1).
Proof.
  intros (A1 & A2 & A3 & A4 & A5 & A6 & A7 & A8 & A9 & A10 & A11 & A12 & A13) Hn E1 E2 E3 E4.
  unfold moves, users, srcs, owes, remains, on_ng in *; cbn. rewrite Hn in A9, A10, A11, A12. rewrite E1, E2, E3, E4, A9, A10, A11, A12.
  repeat (split; [first [done|lia]|]). done.
Qed.

Lemma wp_header sid nm v s : Inv s -> is_Some (hs_session s) -> wp (on_header_cb sid nm v) (fun _ s' => moves (NgHeader sid nm v) 0 s s') s.
Proof.
  intros HI [n Hn]. unfold on_header_cb. apply wp_bind, (wp_user_data n); [done|].
  destruct (users s !! sid) as [r|] eqn:Hu; [|apply wp_ret, moves_none; [by eexists|done]].
  destruct (i_user _ HI sid r Hu) as (q & Er & _). apply wp_bind, (wp_upd_rq r _ q); [done|]. apply wp_ret.
  apply (moves_put0 _ s r q); try done; try apply alike_refl; try (by eexists); destruct (req_event_same (NgHeader sid nm v) q) as (_ & _ & _ & _ & ? & ?); done.
Qed.
Lemma wp_stream_data sid r q user d s : Inv s -> is_Some (hs_session s) -> users s !! sid = Some r -> hs_reqs s !! r = Some q ->
  rq_is_ws q = false -> rq_on_chunk q = Some user ->
  wp (stream_data prog r q user d) (fun _ s' => moves (NgData sid d) 0 s s') s.
Proof.
  intros HI Hs Hu Er Hw Hc. unfold stream_data. set (dec := if rq_dec_inited q then rq_dec q else _).
  assert (Ha : forall q', alike q q' -> alike (req_event (NgData sid d) q) q') by (intros q' ?; cbn; by rewrite Hw, Hc).
  assert (Hal : forall dec i f, alike q (set_rq_dec dec i f q)) by (intros; repeat split; cbn; congruence).
  apply wp_bind, (wp_upd_rq r _ q); [done|]. destruct dec as [dc|].
  2: { apply wp_ret. apply (moves_put0 _ s r q); try done. apply Ha, Hal. }
  destruct (Hdec dc d) as [[[ok dc'] chunks] ->]. set (s1 := set_hs_reqs _ _). set (q1 := set_rq_dec (Some dc) true (rq_stream_failed q) q).
  assert (E1 : hs_reqs s1 !! r = Some q1) by apply lookup_insert_eq.
  apply wp_bind, (wp_upd_rq r _ q1); [done|]. set (s2 := set_hs_reqs _ s1).
  set (q2 := set_rq_dec (Some dc') true (rq_stream_failed q) q1).
  assert (Es2 : s2 = set_hs_reqs (<[r := q2]> (hs_reqs s)) s).
  { unfold s2, s1. cbn. rewrite insert_insert_eq. done. }
  assert (Hr2 : refs s2).
  { split; [done|]. intros sid' r' Hu'. rewrite Es2. cbn. destruct (decide (r' = r)) as [->|Hn]; [rewrite lookup_insert_eq; by eexists|].
    rewrite lookup_insert_ne by done. destruct (i_user _ HI sid' r' Hu') as (q' & -> & _). by eexists. }
  apply wp_bind. eapply wp_mono; [by apply wp_call_chunks|]. intros [] s3 H3. rewrite Es2 in H3. cbn in H3.
  assert (M3 : moves (NgData sid d) 0 s s3).
  { eapply moves_ops; [|exact H3]. change (set_hs_calls ?c (set_hs_reqs ?m s)) with (set_hs_calls c (set_hs_reqs m s)).
    apply (moves_put _ s r q); try done; [apply Ha; repeat split; cbn; congruence|]. apply answered_chunks. }
  destruct ok; cbn [negb pwhen]; [by apply wp_ret|].
  assert (E3 : hs_reqs (set_hs_calls (hs_calls s ++ map (CallChunk user) chunks) (set_hs_reqs (<[r := q2]> (hs_reqs s)) s)) !! r = Some q2) by apply lookup_insert_eq.
  destruct (ops_some _ _ _ _ H3 E3) as (q3 & Er3 & Ha3).
  apply (wp_upd_rq r _ q3); [done|]. eapply moves_ops; [exact M3|]. apply (ops_put s3 r q3); [done| |done].
  destruct Ha3 as (_ & _ & _ & _ & _ & Hc3 & _). repeat split; cbn. intros Hn. rewrite Hc3 in Hn. cbn in Hn. congruence.
Qed.
Lemma wp_data sid d s : Inv s -> is_Some (hs_session s) -> wp (on_data_cb prog sid d) (fun _ s' => moves (NgData sid d) (data_len w (NgData sid d)) s s') s.
Proof.
  intros HI [n Hn]. unfold on_data_cb. apply wp_bind, (wp_user_data n); [done|]. apply wp_bind.
  assert (Hend : forall (m : PS H2Session unit), wp m (fun _ s' => moves (NgData sid d) 0 s s') s ->
    wp m (fun _ s' => wp (upd_ng (fun n => ng_consume_connection n (zlen d));;
      upd_ng (fun n => ng_consume_stream n sid (zlen d));; mret NgOk) (fun _ s'' => moves (NgData sid d) (data_len w (NgData sid d)) s s'') s') s).
  { intros m Hm. eapply wp_mono; [exact Hm|]. cbv beta. intros [] s1 M1. pose proof M1 as (_ & _ & _ & _ & _ & _ & _ & [n1 Hn1] & _).
    destruct (nl_consume _ _ _ _ HL n1 (zlen d)) as (? & ? & ? & ?). apply wp_bind, (wp_upd_ng _ n1); [done|].
    destruct (nl_consume_stream _ _ _ _ HL (ng_consume_connection n1 (zlen d)) sid (zlen d)) as (? & ? & ? & ?).
    apply wp_bind, (wp_upd_ng _ (ng_consume_connection n1 (zlen d))); [done|]. apply wp_ret. cbn [set_hs_session].
    replace (data_len w (NgData sid d)) with (0 + (if w is None then zlen d else 0) + (if w is Some sid' then if sid =? sid' then zlen d else 0 else 0)).
    2: { cbn. destruct w as [sid'|]; cbn; [destruct (sid =? sid')|]; lia. }
    apply (moves_consume _ _ _ s (set_hs_session (Some (ng_consume_connection n1 (zlen d))) s1) (ng_consume_connection n1 (zlen d))); try done; try congruence.
    by apply (moves_consume _ _ _ s s1 n1). }
  apply Hend. destruct (users s !! sid) as [r|] eqn:Hu; [|apply wp_ret, moves_none; [by eexists|done]].
  destruct (i_user _ HI sid r Hu) as (q & Er & _). apply wp_bind, (wp_get_rq r q); [done|].
  assert (Hs : is_Some (hs_session s)) by by eexists. destruct (rq_is_ws q) eqn:Hw.
  - eapply wp_mono; [apply wp_call_user, inv_refs; done|]. cbv beta. intros [] s1 H1. eapply moves_ops; [|exact H1].
    replace s with (set_hs_reqs (<[r := q]> (hs_reqs s)) s) at 3 by (rewrite insert_id by done; by destruct s).
    apply (moves_put _ s r q); try done. cbn. rewrite Hw. apply alike_refl.
  - destruct (rq_on_chunk q) as [user|] eqn:Hc; [by apply (wp_stream_data sid r q)|].
    apply (wp_upd_rq r _ q); [done|]. apply (moves_put0 _ s r q); try done; try (cbn; rewrite Hw, Hc; apply alike_refl);
      destruct (req_event_same (NgData sid d) q) as (_ & _ & _ & _ & E1 & E2); cbn in E1, E2; rewrite Hw, Hc in E1, E2; done.
Qed.

Lemma moves_goaway ev k s s' : moves ev k (set_hs_goaway s) s' -> moves ev k s s'.
Proof.
  intros (A1 & A2 & A3 & A4 & A5 & A6 & A7 & A8 & A9 & A10 & A11 & A12 & A13).
  repeat (split; [done|]). split; [intros _; by apply A3|]. repeat (split; [done|]). done.
Qed.
Lemma wp_frame type sid s : Inv s -> is_Some (hs_session s) ->
  wp (on_frame_recv_cb prog type sid) (fun _ s' => moves (NgFrameRecv type sid) 0 s s') s.
Proof.
  intros HI Hs. unfold on_frame_recv_cb.
  assert (Hgo : forall s0, Inv s0 -> is_Some (hs_session s0) ->
    wp (pwhen (type =? NGHTTP2_HEADERS)
      (u ← user_data sid;
       match u with
       | None => pskip
       | Some r =>
           q ← get_rq r;
           if rq_is_ws q && negb (rq_ws_connected q) then
             upd_rq r (fun q => set_rq_ws true (rq_ws_eof q) q);;
             call_user prog (CallConnect (rq_user q) (rq_status q)
                          (default [] (header_list_value (rq_headers q) (lit "sec-websocket-extensions"))))
           else pskip
       end);; mret NgOk) (fun _ s' => moves (NgFrameRecv type sid) 0 s0 s') s0).
  { clear s HI Hs. intros s HI Hs. pose proof Hs as [n Hn].
    assert (M0 : moves (NgFrameRecv type sid) 0 s s) by by apply moves_refl.
    destruct (type =? NGHTTP2_HEADERS); cbn [pwhen]; [|by apply wp_bind, wp_ret, wp_ret].
    apply wp_bind, wp_bind, (wp_user_data n); [done|]. destruct (users s !! sid) as [r|] eqn:Hu; [|by apply wp_ret, wp_ret].
    destruct (i_user _ HI sid r Hu) as (q & Er & _). apply wp_bind, (wp_get_rq r q); [done|].
    destruct (rq_is_ws q && negb (rq_ws_connected q)); [|by apply wp_ret, wp_ret].
    apply wp_bind, (wp_upd_rq r _ q); [done|]. set (s1 := set_hs_reqs _ s).
    assert (M1 : ops_rel s s1) by (by apply (ops_put s r q); [done|repeat split|]).
    eapply wp_mono; [apply wp_call_user; eapply refs_ops; [by apply inv_refs|done]|]. cbv beta. intros [] s2 H2. apply wp_ret.
    eapply moves_ops; [|exact H2]. apply (moves_put _ s r q); done. }
  apply wp_bind. destruct (type =? NGHTTP2_GOAWAY); cbn [pwhen]; [|apply wp_ret; by apply Hgo].
  apply wp_pupd. eapply wp_mono; [apply Hgo; [by destruct HI|done]|]. intros a s' M. by apply moves_goaway.
Qed.
Lemma wp_send_cb d s : Inv s -> is_Some (hs_session s) -> wp (send_cb prog d) (fun _ s' => moves (NgSend d) 0 s s') s.
Proof.
  intros HI Hs. unfold send_cb. apply wp_bind. eapply wp_mono; [by apply wp_call_user, inv_refs|]. cbv beta. intros [] s1 H1.
  apply wp_ret. eapply moves_ops; [|exact H1]. repeat split; try done; try exact (eq_sym (Z.sub_0_r (owes s))).
  - by exists [CallSend d].
  - cbn. intros r. unfold applied. cbn. destruct (hs_reqs s !! r); [|done]. case_bool_decide; split; (apply alike_refl || done).
Qed.
Lemma queue_read_same q len : let '(_, q') := queue_read q len in alike q q' /\
  ((rq_wq_off q <= length (rq_wq q))%nat -> (rq_wq_off q' <= length (rq_wq q'))%nat).
Proof.
  unfold queue_read. destruct (Nat.eqb_spec (length (rq_wq q) - rq_wq_off q) 0); [split; [apply alike_refl|done]|].
  destruct (Nat.eqb_spec (rq_wq_off q + Nat.min (length (rq_wq q) - rq_wq_off q) len) (length (rq_wq q))); cbn; split; try (by repeat split); lia.
Qed.
Lemma wp_ng_read sid src len s : Inv s -> is_Some (hs_session s) -> srcs s !! sid = Some src ->
  wp (callback prog (NgRead sid src len)) (fun _ s' => moves (NgRead sid src len) 0 s s') s.
Proof.
  intros HI Hs Hsrc. destruct (i_src _ HI sid src Hsrc) as (q & Er & _ & _).
  assert (M : forall s', ops_rel s s' -> moves (NgRead sid src len) 0 s s') by (intros s'; apply moves_ops, moves_refl; done).
  destruct src as [r|r]; cbn [callback src_req] in *.
  - unfold body_read_cb. apply wp_bind, (wp_get_rq r q); [done|]. destruct (source_read (rq_source q) len) as [[d eof] bs].
    apply wp_bind, (wp_upd_rq r _ q); [done|]. apply wp_ret, M. by apply (ops_put s r q); [done|repeat split|].
  - unfold ws_data_read_cb. apply wp_bind, (wp_get_rq r q); [done|]. pose proof (queue_read_same q len) as H.
    destruct (queue_read q len) as [a q']. destruct H as [Ha Hq].
    apply wp_bind, (wp_upd_rq r _ q); [done|]. apply wp_ret, M. by apply (ops_put s r q).
Qed.
(** What a read of nghttp2 needs. *)
Definition readable ev s : Prop := match ev with NgRead sid src _ => srcs s !! sid = Some src | _ => True end.
Lemma wp_callback ev s : Inv s -> is_Some (hs_session s) -> readable ev s -> is_close ev = false ->
  wp (callback prog ev) (fun _ s' => moves ev (data_len w ev) s s') s.
Proof.
  intros HI Hs Hrd Hc. destruct ev as [sid nm v|sid d|sid err|type sid|d|sid src len|rc]; cbn [callback data_len].
  - by apply wp_header.
  - by apply wp_data.
  - done.
  - by apply wp_frame.
  - by apply wp_send_cb.
  - by apply (wp_ng_read sid src len).
  - by apply wp_ret, moves_refl.
Qed.

(** *** A callback with its return *)
Definition response (sid err : Z) q : H2Response :=
  mkH2Response sid ((err =? NGHTTP2_NO_ERROR) && negb (rq_stream_failed q)) (rq_status q) (ga_list (rq_headers q))
    (match rq_on_chunk q with Some _ => [] | None => rq_body q end).
(** The stream of request [r] closes with [ev], and the request ends. *)
Definition ends ev s (r : nat) q : Prop := is_close ev = true /\ users s !! stream_of ev = Some r /\ rq_is_ws q = false.
Definition told ev s (cs : list H2Call) : Prop :=
  match ev with
  | NgStreamClose sid err =>
      match users s !! sid with
      | Some r => forall q, hs_reqs s !! r = Some q ->
          if rq_is_ws q then answered_of cs = [] else cs = [CallResponse r (rq_user q) (response sid err q)]
      | None => cs = []
      end
  | _ => answered_of cs = []
  end.
Definition step (k : Z) ev s s' : Prop :=
  hs_prof s' = hs_prof s /\ (hs_goaway_received s = true -> hs_goaway_received s' = true) /\
  hs_next s' = hs_next s /\ hs_refused s' = hs_refused s /\ is_Some (hs_session s') /\
  users s' = closes ev (users s) /\ srcs s' = closes ev (srcs s) /\ owes s' = owes s - k /\
  (0 < remains s -> 0 <= remains s' < remains s) /\
  (exists cs, hs_calls s' = hs_calls s ++ cs /\ told ev s cs) /\
  (forall r q, hs_reqs s !! r = Some q -> ~ ends ev s r q -> exists q', hs_reqs s' !! r = Some q' /\ alike (applied ev s r q) q').

Lemma on_answer {s n} ev a : hs_session s = Some n ->
  let s' := set_hs_session (Some (ng_answer n ev a)) s in
  users s' = closes ev (users s) /\ srcs s' = closes ev (srcs s) /\ owes s' = owes s /\ (0 < remains s -> 0 <= remains s' < remains s).
Proof.
  intros Hn s'. unfold s', users, srcs, owes, remains, on_ng; cbn. rewrite Hn. apply (nl_answer _ _ _ _ HL n ev a).
Qed.
Lemma wp_handle_open ev s : Inv s -> is_Some (hs_session s) -> readable ev s -> is_close ev = false ->
  wp (ng_handle prog ev) (fun _ s' => Inv s' /\ step (data_len w ev) ev s s') s.
Proof.
  intros HI Hs Hrd Hc. unfold ng_handle. apply wp_bind. eapply wp_mono; [by apply wp_callback|]. cbv beta. intros a s1 M.
  pose proof M as (A1 & A2 & A3 & A4 & A5 & A6 & (cs & A7 & A7') & [n Hn] & A9 & A10 & A11 & A12 & A13).
  apply (wp_upd_ng _ n); [done|]. destruct (on_answer ev a Hn) as (E1 & E2 & E3 & E4). set (s' := set_hs_session _ s1) in *.
  assert (Hcl : forall A (m : gmap Z A), closes ev m = m) by (intros; by destruct ev). rewrite !Hcl in *.
  pose proof (inv_moves _ _ _ _ HI M) as [B1 B2 B3 B4 B5 B6 B7 B8 B9 B10]. split.
  - constructor; try done.
    + intros sid r. rewrite E1. apply B1.
    + intros sid src. rewrite E2. apply B2.
    + by rewrite E1.
  - unfold step. rewrite E1, E2, E3, A9, A10, A11. rewrite A12 in E4. rewrite !Hcl. repeat (split; [done|]).
    split; [exists cs; split; [done|by destruct ev]|].
    intros r q Er _. destruct (moves_some _ _ _ _ _ _ M Er) as (q' & ? & ?). by exists q'.
Qed.
Lemma live_remove_perm r l : r ∈ l -> l ≡ₚ r :: live_remove r l.
Proof.
  induction l as [|x l IH]; intros Hr; [by apply elem_of_nil in Hr|]. cbn [live_remove]. destruct (Nat.eqb_spec x r) as [->|Hn]; [done|].
  apply elem_of_cons in Hr as [->|Hr]; [done|]. rewrite <-(perm_swap r x). by rewrite <-IH.
Qed.
Lemma size_delete_user s sid r : users s !! sid = Some r -> Z.of_nat (size (users s)) = Z.of_nat (size (delete sid (users s))) + 1.
Proof. intros Hu. rewrite map_size_delete_Some by by eexists. pose proof (map_size_ne_0_lookup_2 (users s) sid ltac:(by eexists)). lia. Qed.
Lemma user_once s sid sid' r : Inv s -> users s !! sid = Some r -> users s !! sid' = Some r -> sid = sid'.
Proof. intros HI H1 H2. destruct (i_user _ HI _ _ H1) as (q & E & <-). destruct (i_user _ HI _ _ H2) as (q' & E' & <-). congruence. Qed.
(** The state after the callback, before nghttp2 drops the stream: a
    WebSocket's request stays, any other has its response and ends. *)
Lemma inv_close_ws s s' sid r q : Inv s -> users s !! sid = Some r -> hs_reqs s !! r = Some q -> rq_is_ws q = true ->
  hs_open_streams s' = hs_open_streams s - 1 -> users s' = delete sid (users s) -> srcs s' = delete sid (srcs s) ->
  hs_live s' = hs_live s -> hs_next s' = hs_next s -> answered s' = answered s -> hs_reqs s' = hs_reqs s -> Inv s'.
Proof.
  intros [B1 B2 B3 B4 B5 B6 B7 B8 B9 B10] Hu Er Hw E1 E2 E3 E4 E5 E6 E7. constructor; rewrite ?E1, ?E2, ?E3, ?E4, ?E5, ?E6, ?E7; try done.
  - intros sid' r' [_ Hu']%lookup_delete_Some. by apply B1.
  - intros sid' src [_ Hu']%lookup_delete_Some. by apply B2.
  - rewrite B3, (size_delete_user s sid r Hu). lia.
Qed.
Lemma inv_close s s' sid r q : Inv s -> users s !! sid = Some r -> hs_reqs s !! r = Some q -> rq_is_ws q = false ->
  hs_open_streams s' = hs_open_streams s - 1 -> users s' = delete sid (users s) -> srcs s' = delete sid (srcs s) ->
  hs_live s' = live_remove r (hs_live s) -> hs_next s' = hs_next s -> answered s' ≡ₚ r :: answered s -> hs_reqs s' = delete r (hs_reqs s) -> Inv s'.
Proof.
  intros HI Hu Er Hw E1 E2 E3 E4 E5 E6 E7. pose proof HI as [B1 B2 B3 B4 B5 B6 B7 B8 B9 B10].
  assert (Hlive : hs_live s ≡ₚ r :: live_remove r (hs_live s)) by (apply live_remove_perm, B5; by exists q).
  pose proof B4 as Hnd. rewrite Hlive in Hnd. apply NoDup_cons in Hnd as [Hn Hnd].
  assert (Hr : r ∉ answered s) by (intros [H _]%B8; congruence).
  assert (Hsid : forall q', hs_reqs s !! r = Some q' -> rq_stream_id q' = sid).
  { intros q' Eq. destruct (B1 sid r Hu) as (q0 & ? & ?). congruence. }
  constructor; rewrite ?E1, ?E2, ?E3, ?E4, ?E5, ?E7; try done.
  - intros sid' r' [Hne Hu']%lookup_delete_Some. destruct (B1 sid' r' Hu') as (q' & Eq & Hs). exists q'. split; [|done].
    rewrite lookup_delete_ne; [done|]. intros <-. apply Hsid in Eq. congruence.
  - intros sid' src [Hne Hu']%lookup_delete_Some. destruct (B2 sid' src Hu') as (q' & Eq & Hs & Hw'). exists q'. split; [|done].
    rewrite lookup_delete_ne; [done|]. intros Hx. rewrite <-Hx in Eq. apply Hsid in Eq. congruence.
  - rewrite B3, (size_delete_user s sid r Hu). lia.
  - intros r'. destruct (decide (r' = r)) as [->|Hne].
    + rewrite lookup_delete_eq. split; [done|]. by intros (? & ? & _).
    + rewrite lookup_delete_ne by done. rewrite <-B5. clear E4. set (l := live_remove r (hs_live s)) in *. rewrite Hlive, elem_of_cons. naive_solver.
  - intros r'. destruct (decide (r' = r)) as [->|Hne]; [rewrite lookup_delete_eq; by intros [??]|]. rewrite lookup_delete_ne by done. apply B6.
  - rewrite E6. by apply NoDup_cons.
  - intros r'. rewrite E6, elem_of_cons. intros [->|Hin]; [rewrite lookup_delete_eq; split; [done|]; apply B6; by exists q|].
    destruct (B8 r' Hin) as [? ?]. split; [|done]. apply lookup_delete_None. by right.
  - intros r' Hlt. rewrite E6, elem_of_cons. destruct (decide (r' = r)) as [->|Hne]; [right; by left|].
    rewrite lookup_delete_ne by done. destruct (B9 r' Hlt); [by left|right; by right].
  - intros r' q' [_ Eq]%lookup_delete_Some. by apply (B10 r').
Qed.

Lemma open_pos s sid r : Inv s -> users s !! sid = Some r -> (0 <? hs_open_streams s) = true.
Proof.
  intros HI Hu. rewrite (i_open _ HI). pose proof (map_size_ne_0_lookup_2 (users s) sid ltac:(by eexists)). apply Z.ltb_lt. lia.
Qed.
Lemma step_close_none sid err s n a : Inv s -> hs_session s = Some n -> users s !! sid = None ->
  let s' := set_hs_session (Some (ng_answer n (NgStreamClose sid err) a)) s in Inv s' /\ step 0 (NgStreamClose sid err) s s'.
Proof.
  intros HI Hn Hu s'. destruct (on_answer (NgStreamClose sid err) a Hn) as (E1 & E2 & E3 & E4). cbn [closes] in E1, E2.
  rewrite delete_id in E1 by done. fold s' in E1, E2, E3, E4. split.
  - destruct HI as [B1 B2 B3 B4 B5 B6 B7 B8 B9 B10]. constructor; rewrite ?E1, ?E2; try done.
    intros sid' src [_ Hu']%lookup_delete_Some. by apply B2.
  - unfold step. rewrite E1, E2, E3. cbn [closes data_len]. rewrite delete_id by done. repeat (split; [first [done|lia]|]).
    split; [exists []; rewrite app_nil_r; cbn; by rewrite Hu|]. intros r q Er _. exists q. split; [done|].
    unfold applied. rewrite bool_decide_false by (cbn; congruence). apply alike_refl.
Qed.
Lemma wp_handle_close sid err s : Inv s -> is_Some (hs_session s) ->
  wp (ng_handle prog (NgStreamClose sid err)) (fun _ s' => Inv s' /\ step 0 (NgStreamClose sid err) s s') s.
Proof.
  intros HI Hs. pose proof Hs as [n Hn]. set (ev := NgStreamClose sid err). unfold ng_handle. cbn [callback].
  apply wp_bind. unfold on_stream_close_cb. apply wp_bind, (wp_user_data n); [done|].
  destruct (users s !! sid) as [r|] eqn:Hu; [|apply wp_ret, (wp_upd_ng _ n); [done|]; by apply step_close_none].
  destruct (i_user _ HI sid r Hu) as (q & Er & Hsid). apply wp_bind, (wp_get_rq r q); [done|].
  apply wp_bind, wp_pupd. rewrite (open_pos s sid r HI Hu). set (s1 := set_hs_open_streams _ s).
  destruct (rq_is_ws q) eqn:Hw.
  - (* a WebSocket *)
    apply wp_bind. eapply wp_mono; [apply wp_call_user; exact (inv_refs s HI Hs)|]. cbv beta. intros [] s2 H2.
    apply wp_ret. pose proof H2 as (A1 & A2 & A3 & A4 & A5 & A6 & A7 & A8 & A9 & A10 & A11 & A12 & A13).
    assert (Hs2 : is_Some (hs_session s2)) by by apply A8. destruct Hs2 as [n2 Hn2]. apply (wp_upd_ng _ n2); [done|].
    destruct (on_answer ev NgOk Hn2) as (E1 & E2 & E3 & E4). set (s' := set_hs_session _ s2) in *. cbn [closes ev] in E1, E2.
    assert (F1 : users s2 = users s) by exact A9. assert (F2 : srcs s2 = srcs s) by exact A10.
    assert (F3 : owes s2 = owes s) by exact A11. assert (F4 : remains s2 = remains s) by exact A12. rewrite F1 in E1. rewrite F2 in E2.
    split.
    + assert (HI1 : Inv (set_hs_reqs (hs_reqs s2) s)).
      { apply (inv_ops s); [done|]. unfold ops_rel. cbn. repeat (split; [done|]). exact A13. }
      destruct (ops_some _ _ _ _ H2 Er) as (q2 & Er2 & (_ & _ & _ & _ & _ & _ & Hw2 & _)).
      apply (inv_close_ws _ s' sid r q2 HI1); try done; [congruence|].
      unfold answered. cbn. rewrite A6, A7. cbn. by rewrite answered_app, app_nil_r.
    + unfold step. rewrite E1, E2, E3, F3. rewrite F4 in E4. cbn [closes ev data_len]. repeat (split; [first [done|by unfold s'; cbn; rewrite ?A1, ?A3, ?A5, ?A6|lia]|]).
      split.
      { exists [CallData (rq_user q) []]. split; [exact A7|]. cbn. rewrite Hu. intros q' Eq. assert (q' = q) as -> by congruence. by rewrite Hw. }
      intros r' q' Er' _. destruct (ops_some _ _ _ _ H2 Er') as (q2 & ? & ?). exists q2. split; [done|]. unfold applied. by case_bool_decide.
  - (* a request *)
    apply wp_bind, (wp_upd_rq r _ q); [done|]. set (s2 := set_hs_reqs _ s1).
    assert (HO : ops_rel s1 s2) by (apply (ops_put s1 r q); [done|by repeat split|done]).
    apply wp_bind. eapply wp_mono; [apply wp_call_user; eapply refs_ops; [|exact HO]; exact (inv_refs s HI Hs)|]. cbv beta. intros [] s3 H3.
    set (resp := mkH2Response _ _ _ _ _) in H3.
    assert (H13 : ops_rel (set_hs_calls (hs_calls s ++ [CallResponse r (rq_user q) resp]) s1) s3).
    { eapply ops_trans; [|exact H3].
      by apply (ops_put (set_hs_calls (hs_calls s ++ [CallResponse r (rq_user q) resp]) s1) r q
        (set_rq_dec None (rq_dec_inited q) (rq_stream_failed q) q) Er); [repeat split|]. }
    pose proof H13 as (A1 & A2 & A3 & A4 & A5 & A6 & A7 & A8 & A9 & A10 & A11 & A12 & A13).
    destruct (ops_some _ _ _ _ H13 Er) as (q3 & Er3 & (_ & _ & _ & _ & _ & _ & Hw3 & _)).
    apply wp_bind, wp_pupd. apply wp_bind, wp_bind, (wp_get_rq r q3); [done|]. apply wp_pupd, wp_ret.
    assert (Hs3 : is_Some (hs_session s3)) by by apply A8. destruct Hs3 as [n3 Hn3]. apply (wp_upd_ng _ n3); [done|].
    set (s4 := set_hs_reqs _ _). assert (Hn4 : hs_session s4 = Some n3) by done.
    destruct (on_answer ev NgOk Hn4) as (E1 & E2 & E3 & E4). set (s' := set_hs_session _ s4) in *. cbn [closes ev] in E1, E2.
    assert (F1 : users s4 = users s) by exact A9. assert (F2 : srcs s4 = srcs s) by exact A10.
    assert (F3 : owes s4 = owes s) by exact A11. assert (F4 : remains s4 = remains s) by exact A12. rewrite F1 in E1. rewrite F2 in E2.
    split.
    + assert (HI1 : Inv (set_hs_reqs (hs_reqs s3) s)).
      { apply (inv_ops s); [done|]. unfold ops_rel. cbn. repeat (split; [done|]). exact A13. }
      apply (inv_close _ s' sid r q3 HI1); try done; [congruence|cbn; by rewrite A4|].
      unfold answered. cbn. rewrite A6, A7. cbn. rewrite answered_app, <-app_assoc. cbn. by rewrite Permutation_middle.
    + unfold step. rewrite E1, E2, E3, F3. rewrite F4 in E4. cbn [closes ev data_len].
      repeat (split; [first [done|by unfold s', s4; cbn; rewrite ?A1, ?A3, ?A5, ?A6|lia]|]). split.
      { exists [CallResponse r (rq_user q) resp]. split; [exact A7|]. cbn. rewrite Hu. intros q' Eq. assert (q' = q) as -> by congruence.
        rewrite Hw. done. }
      intros r' q' Er' Hne. destruct (ops_some _ _ _ _ H13 Er') as (q2 & Eq2 & Ha). exists q2. split.
      { cbn. rewrite lookup_delete_ne; [done|]. intros <-. apply Hne. repeat split; [done|]. congruence. }
      unfold applied. by case_bool_decide.
Qed.
Lemma wp_ng_handle ev s : Inv s -> is_Some (hs_session s) -> readable ev s -> wp (ng_handle prog ev) (fun _ s' => Inv s' /\ step (data_len w ev) ev s s') s.
Proof.
  intros HI Hs Hr. destruct ev; try by apply wp_handle_open. by apply wp_handle_close.
Qed.

(** *** A dialogue with nghttp2 *)
(** The events of a call, with the states between them. *)
Inductive chain : list NgEvent -> H2Session -> H2Session -> Prop :=
| chain_nil s : chain [] s s
| chain_cons ev evs s s1 s' : step 0 ev s s1 -> Inv s1 -> chain evs s1 s' -> chain (ev :: evs) s s'.
Definition runs (evs : list NgEvent) s s' : Prop := exists s1, chain evs s s1 /\ ops_rel s1 s'.
Lemma chain_snoc ev evs s s1 s' : chain evs s s1 -> step 0 ev s1 s' -> Inv s' -> chain (evs ++ [ev]) s s'.
Proof.
  induction 1 as [|ev0 evs s s2 s1 H2 Hi Hc IH]; intros Hst HI; cbn [app]; eapply chain_cons; try done; [apply chain_nil|by apply IH].
Qed.
Lemma events_app evs1 evs2 s s1 s2 : chain evs1 s s1 -> chain evs2 s1 s2 -> chain (evs1 ++ evs2) s s2.
Proof. induction 1 as [|ev0 evs s sa s1 Ha Hi Hc IH]; intros H2; cbn [app]; [done|]. eapply chain_cons; [done|done|by apply IH]. Qed.

(** A property of nghttp2 that the functions called inside of a dialogue, and
    the dialogue itself, keep. *)
Record kept_by (K : ng -> Prop) : Prop := {
  kp_consume n k : K n -> K (ng_consume_connection n k);
  kp_consume_stream n sid k : K n -> K (ng_consume_stream n sid k);
  kp_resume n sid : K n -> K (ng_resume_data n sid);
  kp_next n ev n' : K n -> ng_next n = (ev, n') -> K n';
  kp_answer n ev a : K n -> K (ng_answer n ev a)
}.
Definition kept (K : ng -> Prop) s : Prop := on_ng K True s.
Definition keeps (K : ng -> Prop) {A} (m : PS H2Session A) : Prop := forall s x s', m s = Some (x, s') -> kept K s -> kept K s'.
Section keeps.
Context (K : ng -> Prop) (HK : kept_by K).
Lemma ng_keeps_bind {A B} (m : PS H2Session A) (f : A -> PS H2Session B) : keeps K m -> (forall x, keeps K (f x)) -> keeps K (x ← m; f x).
Proof.
  intros Hm Hf s y s'. unfold mbind, PS_bind. destruct (m s) as [[x s1]|] eqn:E; [|done]. intros E' H. eapply Hf; [exact E'|]. by eapply Hm.
Qed.
Lemma ng_keeps_ret {A} (x : A) : keeps K (mret x).
Proof. by intros s y s' [= <- <-]. Qed.
Lemma keeps_skip : keeps K pskip.
Proof. apply ng_keeps_ret. Qed.
Lemma keeps_bad {A} : keeps K (bad : PS H2Session A).
Proof. done. Qed.
Lemma keeps_pget {A} (f : H2Session -> A) : keeps K (pget f).
Proof. by intros s y s' [= <- <-]. Qed.
Lemma keeps_pupd f : (forall s, hs_session (f s) = hs_session s) -> keeps K (pupd f).
Proof. intros Hf s y s' [= <- <-]. unfold kept, on_ng. by rewrite Hf. Qed.
Lemma keeps_pwhen b m : keeps K m -> keeps K (pwhen b m).
Proof. destruct b; [done|]. intros _. apply keeps_skip. Qed.
Lemma keeps_get_rq r : keeps K (get_rq r).
Proof. intros s y s'. unfold get_rq. by destruct (hs_reqs s !! r); intros [= <- <-]. Qed.
Lemma keeps_upd_rq r f : keeps K (upd_rq r f).
Proof. intros s y s'. unfold upd_rq. by destruct (hs_reqs s !! r); intros [= <- <-]. Qed.
Lemma keeps_get_ng : keeps K get_ng.
Proof. intros s y s'. unfold get_ng. by destruct (hs_session s) eqn:E; intros [= <- <-]. Qed.
Lemma keeps_upd_ng f : (forall n, K n -> K (f n)) -> keeps K (upd_ng f).
Proof. intros Hf s y s' [= <- <-]. unfold kept, on_ng; cbn. destruct (hs_session s); [apply Hf|done]. Qed.
Lemma keeps_user_data sid : keeps K (user_data sid).
Proof. apply ng_keeps_bind; [apply keeps_get_ng|]. intros. apply ng_keeps_ret. Qed.
End keeps.
Ltac keeps_tac K HK :=
  repeat first
    [ apply ng_keeps_ret | apply keeps_skip | apply keeps_bad | apply keeps_pget | apply keeps_get_rq | apply keeps_upd_rq
    | apply keeps_user_data | apply keeps_get_ng | apply keeps_pwhen
    | apply keeps_pupd; intros; by repeat case_match
    | apply keeps_upd_ng; intros; first [by apply (kp_consume K HK) | by apply (kp_consume_stream K HK) | by apply (kp_resume K HK) | by apply (kp_answer K HK)]
    | apply ng_keeps_bind; [|intros]
    | progress case_match ].
Lemma keeps_handle K ev : kept_by K -> keeps K (ng_handle prog ev).
Proof.
  intros HK.
  assert (Hsend : forall sid d, keeps K (h2_session_ws_send sid d)) by (intros; unfold h2_session_ws_send; keeps_tac K HK).
  assert (Hfin : forall sid, keeps K (h2_session_ws_finish sid)) by (intros; unfold h2_session_ws_finish; keeps_tac K HK).
  assert (Hops : forall l, keeps K (run_ops l)).
  { induction l as [|[sid d|sid] l IH]; cbn [run_ops]; [apply keeps_skip|..]; (apply ng_keeps_bind; [done|done]). }
  assert (Hcall : forall c, keeps K (call_user prog c)) by (intros c; apply ng_keeps_bind; [by apply keeps_pupd|done]).
  assert (Hchunks : forall u l, keeps K (call_chunks prog u l)).
  { intros u. induction l as [|d l IH]; cbn [call_chunks]; [apply keeps_skip|]. by apply ng_keeps_bind. }
  unfold ng_handle. apply ng_keeps_bind; [|intros a; apply keeps_upd_ng; intros n; apply (kp_answer K HK)].
  destruct ev as [sid nm v|sid d|sid err|type sid|d|sid [r|r] len|rc]; cbn [callback];
    unfold on_header_cb, on_data_cb, on_stream_close_cb, on_frame_recv_cb, send_cb, body_read_cb, ws_data_read_cb, stream_data, arena_recycle_rq;
    repeat first [apply Hops | apply Hcall | apply Hchunks | progress keeps_tac K HK].
Qed.

Definition is_end (ev : NgEvent) : bool := match ev with NgEnd _ => true | _ => false end.
Lemma step_next s n ev n' s' : hs_session s = Some n -> ng_next n = (ev, n') -> is_end ev = false ->
  step (data_len w ev) ev (set_hs_session (Some n') s) s' -> step 0 ev s s' /\ 0 <= remains s' < remains s.
Proof.
  intros Hn En He (A1 & A2 & A3 & A4 & A5 & A6 & A7 & A8 & A9 & A10 & A11).
  destruct (nl_next _ _ _ _ HL n ev n' En) as (E1 & E2 & E3 & E4 & E5).
  assert (U : users (set_hs_session (Some n') s) = users s) by (unfold users, on_ng; cbn; by rewrite Hn).
  assert (V : srcs (set_hs_session (Some n') s) = srcs s) by (unfold srcs, on_ng; cbn; by rewrite Hn).
  assert (O : owes (set_hs_session (Some n') s) = owes s + data_len w ev) by (unfold owes, on_ng; cbn; by rewrite Hn).
  assert (L : remains (set_hs_session (Some n') s) = remains s) by (unfold remains, on_ng; cbn; by rewrite Hn).
  assert (P : 0 < remains s) by (unfold remains, on_ng; rewrite Hn; destruct ev; naive_solver).
  rewrite U in A6. rewrite V in A7. rewrite O in A8. rewrite L in A9. split; [|auto].
  unfold step. repeat (split; [first [done|lia]|]). split.
  - destruct A10 as (cs & E & H). exists cs. split; [done|]. unfold told in *. by rewrite U in H.
  - intros r q Er Hne. unfold ends, applied in *. rewrite U in A11. by apply A11.
Qed.
Lemma wp_round K s : kept_by K -> Inv s -> is_Some (hs_session s) -> kept K s ->
  wp (ng_round prog) (fun o s' => Inv s' /\ is_Some (hs_session s') /\ kept K s' /\
    match o with
    | Some _ => ops_rel s s'
    | None => exists ev n n', hs_session s = Some n /\ ng_next n = (ev, n') /\ is_end ev = false /\ step 0 ev s s' /\ 0 <= remains s' < remains s
    end) s.
Proof.
  intros HK HI Hs Hk. pose proof Hs as [n Hn]. unfold ng_round. apply wp_bind, (wp_get_ng n); [done|].
  destruct (ng_next n) as [ev n'] eqn:En. apply wp_bind, (wp_upd_ng _ n); [done|]. set (s1 := set_hs_session _ s).
  destruct (nl_next _ _ _ _ HL n ev n' En) as (E1 & E2 & E3 & E4 & E5).
  assert (Hk1 : kept K s1) by (unfold kept, on_ng in *; cbn; rewrite Hn in Hk; by eapply (kp_next K HK)).
  assert (HI1 : Inv s1).
  { destruct HI as [B1 B2 B3 B4 B5 B6 B7 B8 B9 B10]. unfold users, srcs, on_ng in *. rewrite Hn in *.
    constructor; unfold users, srcs, on_ng; cbn; rewrite ?E1, ?E2; done. }
  destruct (is_end ev) eqn:He.
  { destruct ev; try done. apply wp_ret. split; [done|]. split; [done|]. split; [done|]. apply (ops_ng s n); try done. cbn in E3. lia. }
  assert (Hr : readable ev s1) by (destruct ev; try done; unfold readable, srcs, on_ng; cbn; rewrite E2; naive_solver).
  assert (W : wp (ng_handle prog ev;; mret None) (fun (o : option Z) s' => Inv s' /\ is_Some (hs_session s') /\ kept K s' /\
    match o with
    | Some _ => ops_rel s s'
    | None => exists ev n n', hs_session s = Some n /\ ng_next n = (ev, n') /\ is_end ev = false /\ step 0 ev s s' /\ 0 <= remains s' < remains s
    end) s1).
  { apply wp_bind. pose proof (wp_ng_handle ev s1 HI1 ltac:(done) Hr) as W. apply wp_run in W as ([] & s' & E & HI' & Hst).
    unfold wp. rewrite E. apply wp_ret. split; [done|]. split; [by destruct Hst as (_ & _ & _ & _ & ? & _)|].
    split; [by apply (keeps_handle K ev HK s1 tt s')|]. exists ev, n, n'. repeat (split; [done|]). by apply (step_next s n ev n' s'). }
  by destruct ev.
Qed.

Lemma wp_dialogue K (E : NgEvent -> Prop) s : kept_by K -> (forall n ev n', K n -> ng_next n = (ev, n') -> is_end ev = false -> E ev) ->
  Inv s -> is_Some (hs_session s) -> kept K s -> 0 <= remains s < 2 ^ 64 ->
  wp (ng_dialogue prog) (fun _ s' => Inv s' /\ is_Some (hs_session s') /\ kept K s' /\ exists evs, runs evs s s' /\ Forall E evs) s.
Proof.
  intros HK HE HI Hs Hk [H0 H64]. unfold ng_dialogue, wp.
  set (f := fun s => match ng_round prog s with Some (None, s) => inl s | Some (Some rc, s) => inr (Some (rc, s)) | None => inr None end).
  destruct (loop_pow_64 f (fun s1 => Inv s1 /\ is_Some (hs_session s1) /\ kept K s1 /\ 0 <= remains s1 /\ exists evs, chain evs s s1 /\ Forall E evs)
    (fun r => match r with Some (_, s') => Inv s' /\ is_Some (hs_session s') /\ kept K s' /\ exists evs, runs evs s s' /\ Forall E evs | None => False end)
    remains s) as ([[rc s']|] & -> & H); try done.
  - intros s1 (HI1 & Hs1 & Hk1 & H1 & evs & Hc & HF). unfold f. pose proof (wp_round K s1 HK HI1 Hs1 Hk1) as W.
    apply wp_run in W as (o & s2 & -> & HI2 & Hs2 & Hk2 & W). destruct o as [rc|].
    + repeat (split; [done|]). exists evs. split; [|done]. by exists s1.
    + destruct W as (ev & n & n' & Hn & En & He & Hst & H2). split; [|lia]. repeat (split; [done|]). split; [lia|].
      exists (evs ++ [ev]). split; [by apply (chain_snoc ev evs s s1)|]. apply Forall_app. split; [done|]. apply Forall_singleton.
      apply (HE n ev n'); try done. unfold kept, on_ng in Hk1. by rewrite Hn in Hk1.
  - repeat (split; [done|]). exists []. split; [apply chain_nil|done].
Qed.

(** ** The operations *)
(** Only nghttp2 has changed, and not in its streams. *)
Definition quiet s s' : Prop :=
  exists n', is_Some (hs_session s) /\ s' = set_hs_session (Some n') s /\ users s' = users s /\ srcs s' = srcs s /\ owes s' = owes s.
Lemma quiet_ng s n n' : hs_session s = Some n -> ng_user_data n' = ng_user_data n -> sources n' = sources n -> owed n' = owed n ->
  quiet s (set_hs_session (Some n') s).
Proof. intros Hn E1 E2 E3. exists n'. unfold users, srcs, owes, on_ng; cbn. rewrite Hn. split; [by eexists|]. done. Qed.
Lemma quiet_trans s1 s2 s3 : quiet s1 s2 -> quiet s2 s3 -> quiet s1 s3.
Proof.
  intros (n2 & H1 & -> & E1 & E2 & E3) (n3 & _ & -> & F1 & F2 & F3). exists n3. split; [done|]. split; [done|].
  rewrite E1 in F1. rewrite E2 in F2. rewrite E3 in F3. done.
Qed.
Lemma inv_quiet s s' : Inv s -> quiet s s' -> Inv s'.
Proof.
  intros [B1 B2 B3 B4 B5 B6 B7 B8 B9 B10] (n' & _ & -> & E1 & E2 & _). constructor; rewrite ?E1, ?E2; done.
Qed.
(** A call of nghttp2: its events, from a state with the same streams. *)
Definition called (E : NgEvent -> Prop) s s' : Prop :=
  Inv s' /\ is_Some (hs_session s') /\ exists s0 evs, quiet s s0 /\ runs evs s0 s' /\ Forall E evs.
Lemma wp_call K E begin s : kept_by K -> (forall n ev n', K n -> ng_next n = (ev, n') -> is_end ev = false -> E ev) ->
  (forall n, hs_session s = Some n -> K (begin n)) ->
  (forall n, ng_user_data (begin n) = ng_user_data n /\ sources (begin n) = sources n /\ owed (begin n) = owed n /\ 0 <= left (begin n) < 2 ^ 64) ->
  Inv s -> is_Some (hs_session s) -> wp (ng_call prog begin) (fun _ s' => called E s s' /\ kept K s') s.
Proof.
  intros HK HE Hb Hl HI [n Hn]. unfold ng_call. apply wp_bind, (wp_upd_ng _ n); [done|]. destruct (Hl n) as (E1 & E2 & E3 & E4).
  pose proof (quiet_ng s n (begin n) Hn E1 E2 E3) as Hq. eapply wp_mono.
  - apply (wp_dialogue K E); try done; [by eapply inv_quiet|by apply Hb].
  - cbv beta. intros rc s' (HI' & Hs' & Hk' & evs & Hr & HF). split; [|done]. split; [done|]. split; [done|].
    exists (set_hs_session (Some (begin n)) s), evs. done.
Qed.
Lemma wp_flush_gen K E s : kept_by K -> (forall n ev n', K n -> ng_next n = (ev, n') -> is_end ev = false -> E ev) ->
  (forall n, hs_session s = Some n -> K (ng_session_send n)) -> Inv s -> is_Some (hs_session s) ->
  wp (h2_session_flush prog) (fun _ s' => called E s s' /\ kept K s') s.
Proof.
  intros HK HE Hb HI Hs. pose proof Hs as [n Hn]. unfold h2_session_flush. apply wp_bind, wp_pget. rewrite Hn. apply wp_bind.
  eapply wp_mono; [apply (wp_call K E); try done; apply (nl_send _ _ _ _ HL)|]. cbv beta. intros rc s' H. by apply wp_ret.
Qed.
Lemma kept_true : kept_by (fun _ => True).
Proof. done. Qed.
Definition any (ev : NgEvent) : Prop := True.
Lemma wp_h2_flush s : Inv s -> is_Some (hs_session s) -> wp (h2_session_flush prog) (fun _ s' => called any s s') s.
Proof.
  intros HI Hs. eapply wp_mono; [by apply (wp_flush_gen (fun _ => True) any)|]. cbv beta. by intros b s' [H _].
Qed.

Lemma called_inv E s s' : called E s s' -> Inv s' /\ is_Some (hs_session s').
Proof. by intros (? & ? & _). Qed.
Lemma wp_h2_recv data s : Inv s -> is_Some (hs_session s) ->
  wp (h2_session_recv prog data) (fun _ s' => exists s1, called any s s1 /\ (s' = s1 \/ called any s1 s')) s.
Proof.
  intros HI Hs. pose proof Hs as [n Hn]. unfold h2_session_recv. apply wp_bind, wp_pget. rewrite Hn. apply wp_bind.
  eapply wp_mono; [apply (wp_call (fun _ => True) any (fun n => ng_mem_recv n data)); try done; intros; apply (nl_recv _ _ _ _ HL)|].
  cbv beta. intros rc s1 [H1 _]. destruct (rc <? 0); [apply wp_ret; exists s1; auto|]. destruct (called_inv _ _ _ H1) as [HI1 Hs1].
  apply wp_bind. eapply wp_mono; [by apply wp_h2_flush|]. cbv beta. intros b s2 H2. apply wp_ret. exists s1. auto.
Qed.
Lemma wp_start s : Inv s -> is_Some (hs_session s) ->
  wp (h2_session_start prog) (fun _ s' => exists s1, quiet s s1 /\ (s' = s1 \/ called any s1 s')) s.
Proof.
  intros HI Hs. pose proof Hs as [n Hn]. unfold h2_session_start. apply wp_bind, wp_pget. rewrite Hn. apply wp_bind, wp_pget.
  destruct (ng_submit_settings n (h2p_settings (hs_prof s))) as [rc n1] eqn:E1. destruct (nl_settings _ _ _ _ HL _ _ _ _ E1) as (U1 & V1 & O1).
  pose proof (quiet_ng s n n1 Hn U1 V1 O1) as Q1. apply wp_bind, (wp_upd_ng _ n); [done|]. set (s1 := set_hs_session (Some n1) s) in *.
  assert (Hf : forall s1, quiet s s1 -> is_Some (hs_session s1) ->
    wp (h2_session_flush prog) (fun _ s' => exists s1, quiet s s1 /\ (s' = s1 \/ called any s1 s')) s1).
  { intros s2 Q2 Hs2. eapply wp_mono; [apply wp_h2_flush; [by eapply inv_quiet|done]|]. cbv beta. intros b s3 H3. exists s2. auto. }
  destruct (negb (rc =? 0)); [apply wp_ret; exists s1; auto|].
  destruct (negb (h2p_connection_window_increment (hs_prof s) =? 0)); [|by apply Hf].
  destruct (ng_submit_window_update n1 0 _) as [rc2 n2] eqn:E2. destruct (nl_window _ _ _ _ HL _ _ _ _ _ E2) as (U2 & V2 & O2).
  pose proof (quiet_trans _ _ _ Q1 (quiet_ng s1 n1 n2 eq_refl U2 V2 O2)) as Q2.
  apply wp_bind, (wp_upd_ng _ n1); [done|]. destruct (negb (rc2 =? 0)); [apply wp_ret; exists (set_hs_session (Some n2) s1); auto|by apply Hf].
Qed.

(** A request joins: [q] with id [r] on stream [sid], with its source. *)
Definition stream_joined s s1 (sid : Z) q (src : option NgSource) : Prop :=
  let r := hs_next s in
  is_Some (hs_session s1) /\ users s !! sid = None /\ users s1 = <[sid := r]> (users s) /\ srcs s !! sid = None /\
  srcs s1 = match src with Some x => <[sid := x]> (srcs s) | None => srcs s end /\ owes s1 = owes s /\
  hs_reqs s1 = <[r := q]> (hs_reqs s) /\ hs_next s1 = S r /\ hs_refused s1 = hs_refused s /\ hs_calls s1 = hs_calls s /\
  hs_open_streams s1 = hs_open_streams s + 1 /\ hs_live s1 = (if rq_is_ws q then [] else [r]) ++ hs_live s /\
  hs_goaway_received s1 = hs_goaway_received s /\ hs_prof s1 = hs_prof s.
Lemma next_fresh s : Inv s -> hs_reqs s !! hs_next s = None /\ (hs_next s ∉ answered s) /\ (hs_next s ∉ hs_live s).
Proof.
  intros HI. assert (H0 : hs_reqs s !! hs_next s = None).
  { destruct (hs_reqs s !! hs_next s) as [q|] eqn:E; [|done]. pose proof (i_next _ HI (hs_next s) ltac:(by eexists)). lia. }
  split; [done|]. split; [intros [_ ?]%(i_gone _ HI); lia|]. intros (q & ? & _)%(i_live_in _ HI). congruence.
Qed.
Lemma inv_joined s s1 sid q src : Inv s -> stream_joined s s1 sid q src -> rq_stream_id q = sid -> (rq_wq_off q <= length (rq_wq q))%nat ->
  match src with Some x => src_req x = hs_next s /\ src_ws x = rq_is_ws q | None => True end -> Inv s1.
Proof.
  intros HI (Hs1 & Hu & E1 & Hv & E2 & E3 & E4 & E5 & E6 & E7 & E8 & E9 & _) Hsid Hq Hsrc.
  destruct (next_fresh s HI) as (Hf & Ha & Hl). pose proof HI as [B1 B2 B3 B4 B5 B6 B7 B8 B9 B10].
  assert (EA : answered s1 = answered s) by (unfold answered; by rewrite E6, E7).
  assert (Hne : forall r, is_Some (hs_reqs s !! r) -> r <> hs_next s) by (intros r [? ?] ->; congruence).
  constructor; rewrite ?E1, ?E4, ?E5, ?E8, ?EA; try done.
  - intros sid' r [[<- <-]|[Hn Hr]]%lookup_insert_Some; [exists q; split; [by rewrite lookup_insert_eq|done]|].
    destruct (B1 sid' r Hr) as (q' & Eq & ?). exists q'. split; [|done]. rewrite lookup_insert_ne; [done|]. apply not_eq_sym, Hne. by eexists.
  - intros sid' x Hx. rewrite E2 in Hx.
    assert (Hold : srcs s !! sid' = Some x -> exists q', <[hs_next s := q]> (hs_reqs s) !! src_req x = Some q' /\ rq_stream_id q' = sid' /\ rq_is_ws q' = src_ws x).
    { intros Hx'. destruct (B2 sid' x Hx') as (q' & Eq & ? & ?). exists q'. split; [|done].
      rewrite lookup_insert_ne; [done|]. apply not_eq_sym, Hne. by eexists. }
    destruct src as [y|]; [|by apply Hold]. apply lookup_insert_Some in Hx as [[<- <-]|[Hn Hx]]; [|by apply Hold].
    destruct Hsrc as [-> Hw]. exists q. split; [by rewrite lookup_insert_eq|]. done.
  - rewrite map_size_insert_None by done. rewrite B3. lia.
  - rewrite E9. destruct (rq_is_ws q); [done|]. cbn. by apply NoDup_cons.
  - intros r. rewrite E9, elem_of_app. destruct (decide (r = hs_next s)) as [->|Hn].
    + rewrite lookup_insert_eq. destruct (rq_is_ws q) eqn:Hw.
      * split; [intros [Hr|Hr]; [by apply elem_of_nil in Hr|done]|]. intros (q' & [= <-] & ?). congruence.
      * split; [intros _; by exists q|]. intros _. left. by left.
    + rewrite lookup_insert_ne by done. rewrite <-B5. split; [intros [Hr|Hr]; [|done]|by right].
      destruct (rq_is_ws q); [by apply elem_of_nil in Hr|]. apply elem_of_cons in Hr as [->|Hr]; [done|by apply elem_of_nil in Hr].
  - intros r. destruct (decide (r = hs_next s)) as [->|Hn]; [intros _; lia|]. rewrite lookup_insert_ne by done. intros ?%B6. lia.
  - intros r Hr. destruct (B8 r Hr) as [? ?]. split; [|lia]. rewrite lookup_insert_ne by lia. done.
  - intros r Hr. destruct (decide (r = hs_next s)) as [->|Hn]; [left; rewrite lookup_insert_eq; by eexists|].
    rewrite lookup_insert_ne by done. apply B9. lia.
  - intros r q'. destruct (decide (r = hs_next s)) as [->|Hn]; [rewrite lookup_insert_eq; by intros [= <-]|].
    rewrite lookup_insert_ne by done. apply B10.
Qed.
(** A request nghttp2 does not take. *)
Definition turned_away s s' (kept_q : option Req) : Prop :=
  is_Some (hs_session s') /\ users s' = users s /\ srcs s' = srcs s /\ owes s' = owes s /\ hs_open_streams s' = hs_open_streams s /\
  hs_live s' = hs_live s /\ hs_next s' = S (hs_next s) /\ hs_calls s' = hs_calls s /\ hs_prof s' = hs_prof s /\
  hs_goaway_received s' = hs_goaway_received s /\
  match kept_q with
  | None => hs_reqs s' = hs_reqs s /\ hs_refused s' = hs_refused s ++ [hs_next s]
  | Some q => hs_reqs s' = <[hs_next s := q]> (hs_reqs s) /\ hs_refused s' = hs_refused s /\ rq_is_ws q = true /\ (rq_wq_off q <= length (rq_wq q))%nat
  end.
Lemma inv_turned_away s s' o : Inv s -> turned_away s s' o -> Inv s'.
Proof.
  intros HI (Hs1 & E1 & E2 & E3 & E4 & E5 & E6 & E7 & _ & _ & E8). destruct (next_fresh s HI) as (Hf & Ha & Hl).
  pose proof HI as [B1 B2 B3 B4 B5 B6 B7 B8 B9 B10].
  assert (Hne : forall r, is_Some (hs_reqs s !! r) -> r <> hs_next s) by (intros r [? ?] ->; congruence).
  destruct o as [q|]; destruct E8 as [E8 E9].
  - destruct E9 as (E9 & Hw & Hq). assert (EA : answered s' = answered s) by (unfold answered; by rewrite E7, E9).
    assert (Hlk : forall r, is_Some (hs_reqs s !! r) -> <[hs_next s := q]> (hs_reqs s) !! r = hs_reqs s !! r).
    { intros r Hr. apply lookup_insert_ne, not_eq_sym, Hne, Hr. }
    constructor; rewrite ?E1, ?E2, ?E4, ?E5, ?E6, ?E8, ?EA; try done.
    + intros sid r Hr. destruct (B1 sid r Hr) as (q' & Eq & ?). exists q'. rewrite Hlk; [done|by eexists].
    + intros sid x Hx. destruct (B2 sid x Hx) as (q' & Eq & ?). exists q'. rewrite Hlk; [done|by eexists].
    + intros r. rewrite B5. destruct (decide (r = hs_next s)) as [->|Hn]; [|by rewrite lookup_insert_ne].
      rewrite lookup_insert_eq, Hf. split; [by intros (? & ? & _)|]. intros (q' & [= <-] & ?). congruence.
    + intros r. destruct (decide (r = hs_next s)) as [->|Hn]; [intros _; lia|]. rewrite lookup_insert_ne by done. intros ?%B6. lia.
    + intros r Hr. destruct (B8 r Hr) as [? ?]. split; [|lia]. rewrite lookup_insert_ne by lia. done.
    + intros r Hr. destruct (decide (r = hs_next s)) as [->|Hn]; [left; rewrite lookup_insert_eq; by eexists|].
      rewrite lookup_insert_ne by done. apply B9. lia.
    + intros r q'. destruct (decide (r = hs_next s)) as [->|Hn]; [rewrite lookup_insert_eq; by intros [= <-]|].
      rewrite lookup_insert_ne by done. apply B10.
  - assert (EA : answered s' = answered s ++ [hs_next s]) by (unfold answered; by rewrite E7, E9, app_assoc).
    constructor; rewrite ?E1, ?E2, ?E4, ?E5, ?E6, ?E8, ?EA; try done.
    + intros r ?%B6. lia.
    + apply NoDup_app. split; [done|]. split; [|apply NoDup_singleton]. intros r Hr Hx%list_elem_of_singleton. by subst.
    + intros r [Hr|Hr]%elem_of_app; [destruct (B8 r Hr); split; [done|lia]|]. apply list_elem_of_singleton in Hr as ->. split; [done|lia].
    + intros r Hr. rewrite elem_of_app, list_elem_of_singleton. destruct (decide (r = hs_next s)) as [->|Hn]; [auto|].
      destruct (B9 r ltac:(lia)); auto.
Qed.

Definition submitted_req (sid : Z) (body : bytes) (user : nat) (on_chunk : option nat) : Req :=
  mkReq sid 0 header_list_init [] 0 user on_chunk None false false (mkSource body 0) false false [] 0 0 false.
Definition body_source s (body : bytes) : option NgSource := if (length body =? 0)%nat then None else Some (NgBody (hs_next s)).
Lemma wp_session_submit m sc au pa hs body user oc (K Kr : ng -> Prop) E s : kept_by K -> (forall n ev n', K n -> ng_next n = (ev, n') -> is_end ev = false -> E ev) ->
  (forall n nva src sid n', hs_session s = Some n -> ng_submit_request n (h2_priority (hs_prof s)) nva src (hs_next s) = (sid, n') ->
    Kr n' /\ K (ng_session_send n')) ->
  Inv s -> is_Some (hs_session s) ->
  wp (h2_session_submit_request prog m sc au pa hs body user oc) (fun sid s' =>
    (sid < 0 /\ kept Kr s' /\ turned_away s s' None) \/
    (0 <= sid /\ kept K s' /\ exists s1, stream_joined s s1 sid (submitted_req sid body user oc) (body_source s body) /\ Inv s1 /\ called E s1 s')) s.
Proof.
  intros HK HE Hb HI Hs. pose proof Hs as [n Hn]. unfold h2_session_submit_request. apply wp_bind, wp_pget. rewrite Hn.
  apply wp_bind, wp_pget. apply wp_bind. unfold wp at 1, new_rq. set (q0 := mkReq _ _ _ _ _ _ _ _ _ _ _ _ _ _ _ _ _).
  set (s0 := set_hs_next _ _ _). set (nva := h2_fields _ _ _ _ _ _).
  destruct (ng_submit_request n (h2_priority (hs_prof s)) nva (if (length body =? 0)%nat then None else Some (NgBody (hs_next s))) (hs_next s)) as [sid n1] eqn:En.
  destruct (nl_submit _ _ _ _ HL _ _ _ _ _ _ _ En) as (O1 & U1). destruct (next_fresh s HI) as (Hf & _).
  apply wp_bind, (wp_upd_ng _ n); [done|]. destruct (Z.ltb_spec sid 0) as [Hlt|Hge].
  - destruct U1 as [U1 V1]. apply wp_bind, wp_bind, (wp_get_rq _ q0); [apply lookup_insert_eq|]. apply wp_pupd.
    apply wp_bind, wp_pupd, wp_ret. left. split; [done|]. split; [by eapply Hb|].
    unfold turned_away, users, srcs, owes, on_ng; cbn. rewrite Hn. repeat (split; [done|]). split; [|done]. by rewrite delete_insert_id.
  - destruct U1 as (Hu & Hv & U1 & V1). apply wp_bind, (wp_upd_rq _ _ q0); [apply lookup_insert_eq|].
    apply wp_bind, wp_pupd. apply wp_bind, wp_pupd. set (s1 := set_hs_open_streams _ _).
    assert (HJ : stream_joined s s1 sid (submitted_req sid body user oc) (body_source s body)).
    { unfold stream_joined, users, srcs, owes, on_ng, body_source; cbn. rewrite Hn, U1, V1, O1, insert_insert_eq. repeat (split; [done|]).
      by repeat (split; [first [done|by destruct (length body =? 0)%nat]|]). }
    assert (HI1 : Inv s1).
    { apply (inv_joined s s1 sid (submitted_req sid body user oc) (body_source s body)); try done.
      unfold body_source. by destruct (length body =? 0)%nat. }
    apply wp_bind. eapply wp_mono; [apply (wp_flush_gen K E); try done|].
    + intros n2 [= <-]. by eapply Hb.
    + cbv beta. intros b s2 [H2 Hk]. apply wp_ret. right. split; [done|]. split; [done|]. by exists s1.
Qed.
Lemma wp_connect sc au pa pr hs user s : Inv s -> is_Some (hs_session s) ->
  wp (h2_session_ws_connect prog sc au pa pr hs user) (fun sid s' =>
    (exists q, turned_away s s' (Some q)) \/
    (exists s1 q src, stream_joined s s1 sid q src /\ rq_is_ws q = true /\ Inv s1 /\ called any s1 s')) s.
Proof.
  intros HI Hs. pose proof Hs as [n Hn]. unfold h2_session_ws_connect. apply wp_bind, wp_pget. rewrite Hn.
  apply wp_bind, wp_pget. apply wp_bind. unfold wp at 1, new_rq. set (q0 := mkReq _ _ _ _ _ _ _ _ _ _ _ _ _ _ _ _ _).
  set (s0 := set_hs_next _ _ _). set (nva := flat_map _ _ ++ _).
  destruct (ng_submit_request n (h2_priority (hs_prof s)) nva (Some (NgQueue (hs_next s))) (hs_next s)) as [sid n1] eqn:En.
  destruct (nl_submit _ _ _ _ HL _ _ _ _ _ _ _ En) as (O1 & U1). destruct (next_fresh s HI) as (Hf & _).
  apply wp_bind, (wp_upd_ng _ n); [done|]. destruct (Z.ltb_spec sid 0) as [Hlt|Hge].
  - destruct U1 as [U1 V1]. apply wp_ret. left. exists q0. unfold turned_away, users, srcs, owes, on_ng; cbn. rewrite Hn.
    repeat (split; [done|]). done.
  - destruct U1 as (Hu & Hv & U1 & V1). apply wp_bind, (wp_upd_rq _ _ q0); [apply lookup_insert_eq|]. apply wp_bind, wp_pupd.
    set (s1 := set_hs_open_streams _ _). set (q1 := set_rq_stream_id sid q0).
    assert (HJ : stream_joined s s1 sid q1 (Some (NgQueue (hs_next s)))).
    { unfold stream_joined, users, srcs, owes, on_ng; cbn. rewrite Hn, U1, V1, O1, insert_insert_eq. by repeat (split; [done|]). }
    assert (HI1 : Inv s1) by (by apply (inv_joined s s1 sid q1 (Some (NgQueue (hs_next s))))).
    apply wp_bind. eapply wp_mono; [by apply wp_h2_flush|]. cbv beta. intros b s2 H2. apply wp_ret. right. exists s1, q1. eauto 10.
Qed.
(** The stream of a request is forgotten; the request itself stays until the
    session is released. *)
Definition forgotten s s1 (sid : Z) : Prop :=
  is_Some (hs_session s1) /\ users s1 = delete sid (users s) /\ srcs s1 = srcs s /\ owes s1 = owes s /\
  hs_open_streams s1 = hs_open_streams s - 1 /\ hs_reqs s1 = hs_reqs s /\ hs_next s1 = hs_next s /\ hs_refused s1 = hs_refused s /\
  hs_calls s1 = hs_calls s /\ hs_live s1 = hs_live s /\ hs_goaway_received s1 = hs_goaway_received s /\ hs_prof s1 = hs_prof s.
Lemma inv_forgotten s s1 sid : Inv s -> is_Some (users s !! sid) -> forgotten s s1 sid -> Inv s1.
Proof.
  intros HI [r Hu] (Hs & E1 & E2 & E3 & E4 & E5 & E6 & E7 & E8 & E9 & _). pose proof HI as [B1 B2 B3 B4 B5 B6 B7 B8 B9 B10].
  assert (EA : answered s1 = answered s) by (unfold answered; by rewrite E7, E8).
  constructor; rewrite ?E1, ?E2, ?E4, ?E5, ?E6, ?E9, ?EA; try done.
  - intros sid' r' [_ Hr]%lookup_delete_Some. by apply B1.
  - rewrite B3, (size_delete_user s sid r Hu). lia.
Qed.
Lemma wp_cancel K E sid s : kept_by K -> (forall n ev n', K n -> ng_next n = (ev, n') -> is_end ev = false -> E ev) ->
  (forall n, hs_session s = Some n -> K (ng_session_send (ng_submit_rst_stream (ng_set_user_data n sid None) sid NGHTTP2_CANCEL))) -> Inv s -> is_Some (hs_session s) -> is_Some (users s !! sid) ->
  wp (h2_session_cancel_stream prog sid) (fun _ s' => kept K s' /\ exists s1, forgotten s s1 sid /\ Inv s1 /\ called E s1 s') s.
Proof.
  intros HK HE Hb HI Hs Hu. pose proof Hs as [n Hn]. unfold h2_session_cancel_stream. apply wp_bind, wp_pget. rewrite Hn.
  apply wp_bind, (wp_upd_ng _ n); [done|]. apply wp_bind, (wp_upd_ng _ (ng_set_user_data n sid None)); [done|].
  destruct (nl_forget _ _ _ _ HL n sid) as (U1 & V1 & O1).
  destruct (nl_rst _ _ _ _ HL (ng_set_user_data n sid None) sid NGHTTP2_CANCEL) as (U2 & V2 & O2).
  apply wp_bind, wp_pupd. pose proof Hu as [r Hr]. cbn [hs_open_streams set_hs_session]. rewrite (open_pos s sid r HI Hr).
  set (s1 := set_hs_open_streams _ _).
  assert (HF : forgotten s s1 sid).
  { unfold forgotten, users, srcs, owes, on_ng; cbn. rewrite Hn, U2, V2, O2, U1, V1, O1. by repeat (split; [done|]). }
  assert (HI1 : Inv s1) by by eapply inv_forgotten.
  apply wp_bind. eapply wp_mono; [apply (wp_flush_gen K E); try done|].
  - intros n2 [= <-]. by apply Hb.
  - cbv beta. intros b s2 [H2 Hk]. apply wp_ret. split; [done|]. by exists s1.
Qed.
Lemma inv_h2_alloc prof : Inv (h2_session_alloc prof).
Proof.
  assert (E : users (h2_session_alloc prof) = ∅ /\ srcs (h2_session_alloc prof) = ∅).
  { unfold users, srcs, on_ng. cbn. destruct ng_client_new as [n|] eqn:En; [|done]. by destruct (nl_new _ _ _ _ HL n En) as (? & ? & _). }
  destruct E as [E1 E2]. constructor; rewrite ?E1, ?E2; cbn; try done.
  - apply NoDup_nil_2.
  - intros r. split; [intros Hr; by apply elem_of_nil in Hr|]. intros (q & Hq & _). by rewrite lookup_empty in Hq.
  - intros r [q Hq]. by rewrite lookup_empty in Hq.
  - apply NoDup_nil_2.
  - intros r Hr. by apply elem_of_nil in Hr.
  - intros r Hr. lia.
Qed.
End safe.
