(* ===== verification/H2Props.v ===== *)
(** * The HTTP/2 session, its guarantees

    The session under every sequence of operations and whatever nghttp2 calls
    back: no recycled arena is used, every request has one end, the windows of
    the peer are replenished, and a response is what the frames of its stream
    say. *)
From stdpp Require Import gmap relations.
From S2P Require Import Prelude String8 U8Buf GrowArr Header Proxy.
From S2P Require Export H2Safe.

(** ** The session as a state machine *)
Inductive SessionOp :=
| SoStart
| SoFlush
| SoRecv (data : bytes)
| SoSubmit (method scheme authority path : bytes) (headers : list Header) (body : bytes) (user : nat) (on_chunk : option nat)
| SoCancel (stream_id : Z)
| SoConnect (scheme authority path protocol : bytes) (headers : list Header) (user : nat)
| SoWsSend (stream_id : Z) (data : bytes)
| SoWsFinish (stream_id : Z).

Section machine.
Context `{HNg : NgHttp2} `{HDec : StreamDec} `{HPush : !DecPush}.
Context (sources : ng -> gmap Z NgSource) (owed : option Z -> ng -> Z) (left : ng -> Z).
Context (prog : H2Call -> list H2Op).
Implicit Types (s : H2Session) (q : Req) (n : ng).
Abbreviation HM := (PS H2Session).

Definition h2_do (op : SessionOp) : HM unit :=
  match op with
  | SoStart => _ ← h2_session_start prog; pskip
  | SoFlush => _ ← h2_session_flush prog; pskip
  | SoRecv data => _ ← h2_session_recv prog data; pskip
  | SoSubmit m sc au pa hs body user oc => _ ← h2_session_submit_request prog m sc au pa hs body user oc; pskip
  | SoCancel sid => h2_session_cancel_stream prog sid
  | SoConnect sc au pa pr hs user => _ ← h2_session_ws_connect prog sc au pa pr hs user; pskip
  | SoWsSend sid data => _ ← h2_session_ws_send sid data; pskip
  | SoWsFinish sid => h2_session_ws_finish sid
  end.
(** Only the stream of a request that is open is cancelled. *)
Definition op_ok (op : SessionOp) s : Prop :=
  match op with SoCancel sid => is_Some (hs_session s) -> is_Some (users s !! sid) | _ => True end.
Inductive h2_step : H2Session -> H2Session -> Prop :=
| h2_step_op op s s' : op_ok op s -> h2_do op s = Some (tt, s') -> h2_step s s'.
(** What the session relies on: nghttp2 keeps to its documentation on every
    window. *)
Definition session_laws : Prop := forall w, ng_laws w sources (owed w) left.
(** The decoders of streamed bodies return (that of a gzip body does not when
    bytes follow the end of the stream: [gzip_trailing_bytes_hang]). *)
Definition decoders_return : Prop := forall d data, is_Some (sdec_push d data).

Section under_laws.
Context (HS : session_laws) (w : option Z).
Let HL := HS w.
Abbreviation Inv := (Inv sources).
Abbreviation owes := (owes (owed w)).
Abbreviation called := (called sources (owed w) left).

Lemma chain_owes evs s s' : chain sources (owed w) left evs s s' -> owes s' = owes s.
Proof.
  induction 1 as [s|ev evs s s1 s' Hst _ _ IH]; [done|]. destruct Hst as (_ & _ & _ & _ & _ & _ & _ & Ho & _). rewrite IH, Ho. lia.
Qed.
Lemma called_owes E s s' : called E s s' -> owes s' = owes s.
Proof.
  intros (_ & _ & s0 & evs & (n' & _ & -> & _ & _ & E0) & (s1 & Hc & Ho) & _).
  destruct Ho as (_ & _ & _ & _ & _ & _ & _ & _ & _ & _ & Ho & _). by rewrite Ho, (chain_owes _ _ _ Hc), E0.
Qed.
Definition good s : Prop := Inv s /\ owes s = 0.
Lemma good_called E s s' : good s -> called E s s' -> good s'.
Proof. intros [_ Ho] Hc. split; [by destruct Hc|]. by rewrite (called_owes _ _ _ Hc). Qed.
Lemma good_quiet s s' : good s -> quiet sources (owed w) s s' -> good s'.
Proof. intros [HI Ho] Hq. split; [by eapply inv_quiet|]. by destruct Hq as (? & _ & -> & _ & _ & ->). Qed.
Lemma good_ops s s' : good s -> ops_rel sources (owed w) left s s' -> good s'.
Proof. intros [HI Ho] H. split; [by eapply inv_ops|]. destruct H as (_ & _ & _ & _ & _ & _ & _ & _ & _ & _ & H & _). by rewrite H. Qed.
(** Without an nghttp2 session nothing happens. *)
Lemma do_nothing op s : hs_session s = None -> h2_do op s = Some (tt, s).
Proof.
  intros Hn. destruct op; cbn [h2_do];
    unfold h2_session_start, h2_session_flush, h2_session_recv, h2_session_submit_request, h2_session_cancel_stream,
      h2_session_ws_connect, h2_session_ws_send, h2_session_ws_finish, mbind, PS_bind, pget; rewrite Hn; done.
Qed.
Lemma wp_then_skip {A} (m : HM A) (Post : H2Session -> Prop) s : wp m (fun _ s' => Post s') s -> wp (_ ← m; pskip) (fun _ s' => Post s') s.
Proof. intros H. apply wp_bind. eapply wp_mono; [exact H|]. done. Qed.
Lemma do_good op s : decoders_return -> good s -> op_ok op s -> wp (h2_do op) (fun _ s' => good s') s.
Proof.
  intros HD HG Hop. pose proof HG as [HI Ho]. destruct (hs_session s) as [n|] eqn:Hn.
  2: { unfold wp. by rewrite (do_nothing op s Hn). }
  assert (Hs : is_Some (hs_session s)) by by eexists.
  destruct op as [| |data|m sc au pa hs body user oc|sid|sc au pa pr hs user|sid d|sid]; cbn [h2_do]; try apply wp_then_skip.
  - eapply wp_mono; [by eapply wp_start|]. cbv beta. intros b s' (s1 & Hq & H). pose proof (good_quiet _ _ HG Hq) as G1.
    destruct H as [->|H]; [done|]. by eapply good_called.
  - eapply wp_mono; [by eapply wp_h2_flush|]. cbv beta. intros b s' H. by eapply good_called.
  - eapply wp_mono; [by eapply wp_h2_recv|]. cbv beta. intros b s' (s1 & H1 & H). pose proof (good_called _ _ _ HG H1) as G1.
    destruct H as [->|H]; [done|]. by eapply good_called.
  - eapply wp_mono; [eapply (wp_session_submit sources (owed w) left HL HD prog _ _ _ _ _ _ _ _ (fun _ => True) (fun _ => True) any); try done|].
    cbv beta. intros sid s' [(_ & _ & HT)|(_ & _ & s1 & HJ & HI1 & Hc)].
    + split; [by eapply inv_turned_away|]. destruct HT as (_ & _ & _ & HT & _). by rewrite HT.
    + eapply good_called; [|exact Hc]. split; [done|]. destruct HJ as (_ & _ & _ & _ & _ & HJ & _). by rewrite HJ.
  - eapply wp_mono; [eapply (wp_cancel sources (owed w) left HL HD prog (fun _ => True) any sid s); try done; by apply Hop|]. cbv beta. intros [] s' (_ & s1 & HF & HI1 & Hc).
    eapply good_called; [|exact Hc]. split; [done|]. destruct HF as (_ & _ & _ & HF & _). by rewrite HF.
  - eapply wp_mono; [by eapply wp_connect|]. cbv beta. intros sid s' [[q HT]|(s1 & q & src & HJ & _ & HI1 & Hc)].
    + split; [by eapply inv_turned_away|]. destruct HT as (_ & _ & _ & HT & _). by rewrite HT.
    + eapply good_called; [|exact Hc]. split; [done|]. destruct HJ as (_ & _ & _ & _ & _ & HJ & _). by rewrite HJ.
  - eapply wp_mono; [eapply (wp_ws_send sources (owed w) left HL); by eapply inv_refs|]. cbv beta. intros b s' H. by eapply good_ops.
  - eapply wp_mono; [eapply (wp_ws_finish sources (owed w) left HL); by eapply inv_refs|]. cbv beta. intros b s' H. by eapply good_ops.
Qed.
Lemma good_alloc prof : good (h2_session_alloc prof).
Proof.
  split; [by eapply (inv_h2_alloc sources (owed w) left HL)|]. unfold H2Safe.owes, on_ng. cbn. destruct ng_client_new as [n|] eqn:En; [|done].
  by destruct (nl_new _ _ _ _ HL n En) as (_ & _ & ?).
Qed.
End under_laws.
End machine.

Section props.
Context `{HNg : NgHttp2} `{HDec : StreamDec} `{HPush : !DecPush}.
Context (sources : ng -> gmap Z NgSource) (owed : option Z -> ng -> Z) (left : ng -> Z).
Context (prog : H2Call -> list H2Op).
Implicit Types (s : H2Session) (q : Req) (n : ng).
Abbreviation HM := (PS H2Session).
Abbreviation h2_do := (h2_do prog).
Abbreviation h2_step := (h2_step prog).
Abbreviation session_laws := (session_laws sources owed left).
Abbreviation good := (good sources owed).

(** A step over decoders that may not return is one over those that do. *)
Lemma below_do op : below (h2_do op) (H2Props.h2_do (HPush := returning) prog op).
Proof.
  destruct op; unfold H2Props.h2_do;
    [| | | |apply below_cancel| |apply below_refl..]; (apply below_bind; [|intros ?; apply below_refl]);
    [apply below_start|apply below_flush|apply below_recv|apply below_submit|apply below_connect].
Qed.
Lemma returning_return : decoders_return (HPush := returning).
Proof. intros d data. by eexists. Qed.
Lemma good_reached (HS : session_laws) w prof s : rtc h2_step (h2_session_alloc prof) s -> good w s.
Proof.
  intros Hr. apply (rtc_ind_r (fun x => good w x) (h2_session_alloc prof)) with (z := s) in Hr; [done|by eapply good_alloc|].
  intros y z _ Hyz HG. destruct Hyz as [op y z Hop E].
  exact (run_wp _ _ _ _ _ (do_good (HPush := returning) sources owed left prog HS w op y returning_return HG Hop) (below_do op y _ E)).
Qed.

(** ** What a response is made of *)
(** Callbacks in the order nghttp2 makes them. *)
Fixpoint ng_handles (evs : list NgEvent) : HM unit :=
  match evs with
  | [] => pskip
  | ev :: evs => ng_handle prog ev;; ng_handles evs
  end.
(** The status, the fields and the bytes that the frames of a stream carry. *)
Definition status_of (sid : Z) (st : Z) (evs : list NgEvent) : Z :=
  foldl (fun st ev => match ev with
                      | NgHeader sid' n v => if (sid' =? sid) && str8_match n (lit ":status") then to_int (str8_to_u64 v) else st
                      | _ => st
                      end) st evs.
Definition fields_of (sid : Z) : list NgEvent -> list Header :=
  omap (fun ev => match ev with
                  | NgHeader sid' n v => if (sid' =? sid) && negb (str8_match n (lit ":status")) then Some (mkHeader n v 0) else None
                  | _ => None
                  end).
Definition body_of (sid : Z) : list NgEvent -> bytes :=
  flat_map (fun ev => match ev with NgData sid' d => if sid' =? sid then d else [] | _ => [] end).
(** Events that leave stream [sid] open. *)
Definition passes (sid : Z) (ev : NgEvent) : bool :=
  match ev with NgStreamClose sid' _ => negb (sid' =? sid) | NgRead _ _ _ | NgEnd _ => false | _ => true end.
Section response.
Context (HS : session_laws) (HD : decoders_return).
Let HL := HS None.
Abbreviation Inv := (Inv sources).
Definition event_on (sid : Z) q (ev : NgEvent) : Req := if stream_of ev =? sid then req_event ev q else q.
Lemma alike_event ev q q' : alike q q' -> alike (req_event ev q) (req_event ev q').
Proof.
  intros Ha. pose proof Ha as (A1 & A2 & A3 & A4 & A5 & A6 & A7 & A8). destruct ev as [? n v|? d|? ?|? ?|?|? ? ?|?]; cbn [req_event]; try exact Ha.
  - unfold req_header. destruct (str8_match n (lit ":status")); repeat split; cbn; first [congruence|done].
  - rewrite A7, A6. destruct (rq_is_ws q) eqn:Ew; [exact Ha|]. destruct (rq_on_chunk q) eqn:E; [exact Ha|].
    unfold body_append. destruct (length d =? 0)%nat; [exact Ha|].
    destruct (rq_body_cap q <? _), (rq_body_cap q' <? _); repeat split; cbn; first [congruence|intros; by apply A8].
Qed.
Lemma alike_on_stream ev sid s r q q' : Inv s -> users s !! sid = Some r -> alike (applied ev s r q) q' -> alike (event_on sid q ev) q'.
Proof.
  intros HI Hu Ha. revert Ha. unfold applied, event_on. destruct (Z.eqb_spec (stream_of ev) sid) as [->|Hn].
  - by rewrite bool_decide_true.
  - rewrite bool_decide_false; [done|]. intros Hu'. by pose proof (user_once _ s _ _ r HI Hu Hu').
Qed.
Lemma alike_fold sid evs : forall q q', alike q q' -> alike (foldl (event_on sid) q evs) (foldl (event_on sid) q' evs).
Proof.
  induction evs as [|e evs IH]; intros q q' Ha; cbn [foldl]; [done|]. apply IH. unfold event_on.
  destruct (stream_of e =? sid); [by apply alike_event|done].
Qed.
Lemma wp_handles sid r evs : forall s q, Inv s -> users s !! sid = Some r -> hs_reqs s !! r = Some q -> forallb (passes sid) evs = true ->
  wp (ng_handles evs) (fun _ s' => Inv s' /\ users s' !! sid = Some r /\
    exists q', hs_reqs s' !! r = Some q' /\ alike (foldl (event_on sid) q evs) q') s.
Proof.
  induction evs as [|ev evs IH]; intros s q HI Hu Er HF; cbn [ng_handles foldl forallb] in *.
  - apply wp_ret. split; [done|]. split; [done|]. exists q. split; [done|apply alike_refl].
  - apply andb_true_iff in HF as [Hp HF]. apply wp_bind. assert (Hs : is_Some (hs_session s)).
    { unfold users, on_ng in Hu. destruct (hs_session s); [by eexists|done]. }
    eapply wp_mono; [apply (wp_ng_handle sources (owed None) left HL HD prog ev s HI Hs); by destruct ev|]. cbv beta.
    intros [] s1 [HI1 (_ & _ & _ & _ & _ & U & _ & _ & _ & _ & Hr)].
    assert (Hu1 : users s1 !! sid = Some r).
    { rewrite U. destruct ev; try done. cbn in *. rewrite lookup_delete_ne; [done|]. by destruct (Z.eqb_spec stream_id sid). }
    destruct (Hr r q Er) as (q1 & Er1 & Ha).
    { intros (Hc & Hx & _). destruct ev; try done. cbn in *. pose proof (user_once _ s _ _ r HI Hu Hx) as <-. by rewrite Z.eqb_refl in Hp. }
    eapply wp_mono; [exact (IH s1 q1 HI1 Hu1 Er1 HF)|]. cbv beta. intros _ s2 (HI2 & Hu2 & q2 & Er2 & Ha2).
    split; [done|]. split; [done|]. exists q2. split; [done|]. eapply alike_trans; [|exact Ha2].
    by apply alike_fold, (alike_on_stream ev sid s r q q1 HI Hu).
Qed.
Lemma fold_response sid evs : forall q l, ga_rep (rq_headers q) l -> rq_is_ws q = false -> rq_on_chunk q = None ->
  let q' := foldl (event_on sid) q evs in
  rq_status q' = status_of sid (rq_status q) evs /\ ga_rep (rq_headers q') (l ++ fields_of sid evs) /\
  rq_body q' = rq_body q ++ body_of sid evs /\ rq_user q' = rq_user q /\ rq_stream_failed q' = rq_stream_failed q /\
  rq_is_ws q' = false /\ rq_on_chunk q' = None.
Proof.
  induction evs as [|ev evs IH]; intros q l Hg Hw Hc; cbn [foldl].
  - cbn. by rewrite !app_nil_r.
  - assert (E : exists f b, fields_of sid (ev :: evs) = f ++ fields_of sid evs /\ body_of sid (ev :: evs) = b ++ body_of sid evs /\
      let q1 := event_on sid q ev in
      rq_status q1 = status_of sid (rq_status q) [ev] /\ ga_rep (rq_headers q1) (l ++ f) /\ rq_body q1 = rq_body q ++ b /\
      rq_user q1 = rq_user q /\ rq_stream_failed q1 = rq_stream_failed q /\ rq_is_ws q1 = false /\ rq_on_chunk q1 = None).
    { unfold event_on. destruct ev as [i n v|i d|i e|t i|d|i x k|rc]; cbn [stream_of req_event fields_of body_of status_of omap list_omap flat_map foldl].
      3-7: exists [], []; rewrite !app_nil_r; by destruct (_ =? sid).
      - destruct (i =? sid); cbn [andb]; [|exists [], []; by rewrite !app_nil_r]. unfold req_header.
        destruct (str8_match n (lit ":status")); cbn; [exists [], []; by rewrite !app_nil_r|].
        exists [mkHeader n v 0], []. rewrite app_nil_r. repeat (split; [done|]). split; [by apply header_list_push_rep|done].
      - destruct (i =? sid); [|exists [], []; by rewrite !app_nil_r]. rewrite Hw, Hc. exists [], d. rewrite app_nil_r.
        split; [done|]. split; [done|]. unfold body_append. destruct (Nat.eqb_spec (length d) 0) as [H0|H0].
        + apply length_zero_iff_nil in H0 as ->. by rewrite app_nil_r.
        + by destruct (_ <? _). }
    destruct E as (f & b & -> & -> & E1 & E2 & E3 & E4 & E5 & E6 & E7).
    destruct (IH (event_on sid q ev) (l ++ f) E2 E6 E7) as (F1 & F2 & F3 & F4 & F5 & F6 & F7).
    rewrite F1, F3, F4, F5, E1, E3, E4, E5. rewrite <-app_assoc in F2. by rewrite <-app_assoc.
Qed.
End response.

(** ** What is sent *)
(** Successive reads of at most [lens] bytes, with what each gave. *)
Fixpoint source_reads (bs : BodySource) (lens : list nat) : list (bytes * bool) :=
  match lens with
  | [] => []
  | k :: lens => let '(d, eof, bs) := source_read bs k in (d, eof) :: source_reads bs lens
  end.
Lemma source_reads_spec body lens : forall off, (off <= length body)%nat ->
  source_reads (mkSource body off) lens =
  imap (fun i k => let a := (off + sum_list (take i lens))%nat in
                   (take k (drop a body), bool_decide (length body <= a + k)%nat)) lens.
Proof.
  induction lens as [|k lens IH]; intros off Ho; [done|]. cbn [source_reads imap]. unfold source_read; cbn [bs_p bs_off].
  set (n := Nat.min (length body - off) k). assert (Ek : take n (drop off body) = take k (drop off body)).
  { unfold n. destruct (Nat.min_spec (length body - off) k) as [[? ->]|[? ->]]; [|done].
    rewrite !take_ge; rewrite ?length_drop; done || lia. }
  rewrite Ek. cbn. rewrite Nat.add_0_r. f_equal.
  - f_equal. apply eq_bool_prop_intro. rewrite bool_decide_spec. destruct (Nat.leb_spec (length body) (off + n)); cbn; split; try done; unfold n in *; lia.
  - rewrite IH by (unfold n; lia). apply imap_ext. intros i x _. cbn. destruct (decide (off + k <= length body)%nat) as [Hk|Hk].
    + replace n with k by (unfold n; lia). by rewrite Nat.add_assoc.
    + rewrite !drop_ge by (unfold n; lia). rewrite !take_nil. f_equal. apply bool_decide_ext. unfold n. lia.
Qed.
(** The user's sends and finish and nghttp2's reads of the queue of a WebSocket. *)
Inductive QueueOp := QSend (data : bytes) | QFinish | QRead (length : nat).
Fixpoint queue_run (ops : list QueueOp) q : list NgAnswer * Req :=
  match ops with
  | [] => ([], q)
  | QSend d :: ops => queue_run ops (wq_send q d)
  | QFinish :: ops => queue_run ops (set_rq_ws (rq_ws_connected q) true q)
  | QRead k :: ops => let '(a, q) := queue_read q k in let '(l, q) := queue_run ops q in (a :: l, q)
  end.
Definition queued q : bytes := drop (rq_wq_off q) (rq_wq q).
Definition sent_bytes (ops : list QueueOp) : bytes := flat_map (fun op => match op with QSend d => d | _ => [] end) ops.
Definition answer_bytes : list NgAnswer -> bytes := flat_map (fun a => match a with NgBytes d _ => d | _ => [] end).
(** What each read has to answer, over the bytes [l] that are queued: they come in
    order; the end goes with the last of them once the user has finished, or alone
    when none is left; with nothing to send before that, the read is deferred. *)
Fixpoint queue_spec (ops : list QueueOp) (l : bytes) (finished : bool) : list NgAnswer * bytes :=
  match ops with
  | [] => ([], l)
  | QSend d :: ops => queue_spec ops (l ++ d) finished
  | QFinish :: ops => queue_spec ops l true
  | QRead k :: ops =>
      let a := if (length l =? 0)%nat && negb finished then NgDeferred
               else NgBytes (take k l) (finished && (length l <=? k)%nat) in
      let '(r, l') := queue_spec ops (drop k l) finished in (a :: r, l')
  end.
Lemma wq_send_queued q d : queued (wq_send q d) = queued q ++ d /\ (rq_wq_off (wq_send q d) <= length (rq_wq (wq_send q d)))%nat /\
  rq_ws_eof (wq_send q d) = rq_ws_eof q.
Proof. unfold wq_send, queued. cbn. split; [done|]. split; [lia|done]. Qed.
Lemma queue_read_queued q k : (rq_wq_off q <= length (rq_wq q))%nat -> let '(a, q') := queue_read q k in
  queued q' = drop k (queued q) /\ (rq_wq_off q' <= length (rq_wq q'))%nat /\ rq_ws_eof q' = rq_ws_eof q /\
  a = if (length (queued q) =? 0)%nat && negb (rq_ws_eof q) then NgDeferred
      else NgBytes (take k (queued q)) (rq_ws_eof q && (length (queued q) <=? k)%nat).
Proof.
  intros Hq. unfold queue_read, queued. rewrite !length_drop. set (n := (length (rq_wq q) - rq_wq_off q)%nat).
  assert (Hl : length (drop (rq_wq_off q) (rq_wq q)) = n) by apply length_drop.
  destruct (Nat.eqb_spec n 0) as [H0|H0].
  - rewrite (drop_ge (rq_wq q) (rq_wq_off q)), drop_nil, take_nil by lia. rewrite (proj2 (Nat.leb_le _ _)), andb_true_r by lia. by destruct (rq_ws_eof q).
  - cbn [andb]. destruct (Nat.leb_spec n k) as [Hk|Hk].
    + rewrite Nat.min_l by done. rewrite (proj2 (Nat.eqb_eq _ _)) by lia. cbn.
      rewrite !take_ge, drop_ge, andb_true_r by lia. done.
    + rewrite Nat.min_r by lia. rewrite (proj2 (Nat.eqb_neq _ _)) by lia. cbn. rewrite drop_drop, andb_false_r. split_and!; [done|lia|done..].
Qed.
Lemma queue_run_spec ops : forall q, (rq_wq_off q <= length (rq_wq q))%nat -> let '(l, q') := queue_run ops q in
  (l, queued q') = queue_spec ops (queued q) (rq_ws_eof q).
Proof.
  induction ops as [|[d| |k] ops IH]; intros q Hq; cbn [queue_run queue_spec]; [done| | |].
  - destruct (wq_send_queued q d) as (E1 & Hq1 & E2). specialize (IH _ Hq1). by rewrite E1, E2 in IH.
  - by apply (IH (set_rq_ws (rq_ws_connected q) true q)).
  - pose proof (queue_read_queued q k Hq) as H. destruct (queue_read q k) as [a q1]. destruct H as (E1 & Hq1 & E2 & E3).
    specialize (IH q1 Hq1). destruct (queue_run ops q1) as [l q']. rewrite E1, E2 in IH. by rewrite <-IH, E3.
Qed.
Lemma queue_spec_bytes ops : forall l fin, let '(r, l') := queue_spec ops l fin in l ++ sent_bytes ops = answer_bytes r ++ l'.
Proof.
  induction ops as [|[d| |k] ops IH]; intros l fin; cbn [queue_spec].
  - cbn. by rewrite app_nil_r.
  - specialize (IH (l ++ d) fin). by rewrite <-app_assoc in IH.
  - apply IH.
  - specialize (IH (drop k l) fin). destruct (queue_spec ops (drop k l) fin) as [r l'].
    change (sent_bytes (QRead k :: ops)) with (sent_bytes ops). rewrite <-(take_drop k l) at 1. rewrite <-app_assoc, IH, app_assoc.
    cbn. destruct (_ && _) eqn:E; [|done]. apply andb_true_iff in E as [E%Nat.eqb_eq _]. by destruct l; [rewrite take_nil|].
Qed.
Lemma concat_imap_reads (body : bytes) lens : forall off,
  concat (imap (fun i k => take k (drop (off + sum_list (take i lens)) body)) lens) = take (sum_list lens) (drop off body).
Proof.
  induction lens as [|k lens IH]; intros off; [done|]. cbn [imap concat]. rewrite Nat.add_0_r. cbn [sum_list]. rewrite <-take_take_drop.
  f_equal. rewrite drop_drop, <-IH. f_equal. apply imap_ext. intros i x _. cbn. by rewrite Nat.add_assoc.
Qed.

Lemma release_loop_spec l : forall s, NoDup l -> (forall r, r ∈ l -> is_Some (hs_reqs s !! r)) ->
  exists m, release_loop l s = Some (tt, set_hs_reqs m s) /\ (forall r q, m !! r = Some q -> (r ∉ l) /\ hs_reqs s !! r = Some q).
Proof.
  induction l as [|r l IH]; intros s Hnd Hl; cbn [release_loop].
  - exists (hs_reqs s). split; [by destruct s|]. intros r q Hr. split; [apply not_elem_of_nil|done].
  - apply NoDup_cons in Hnd as [Hn Hnd]. destruct (Hl r ltac:(by left)) as [q Er].
    destruct (IH (set_hs_reqs (delete r (hs_reqs s)) s) Hnd) as (m & E & Hm).
    { intros r' Hr'. cbn. rewrite lookup_delete_ne; [apply Hl; by right|]. by intros ->. }
    exists m. split; [unfold mbind, PS_bind, arena_recycle_rq, get_rq, mbind, PS_bind; rewrite Er; exact E|].
    intros r' q' Hm'. apply Hm in Hm' as [Hm1 Hm2]. cbn in Hm2. apply lookup_delete_Some in Hm2 as [Hm2 Hm3]. split; [|done]. rewrite not_elem_of_cons. auto.
Qed.
Lemma release_spec s : Inv sources s -> exists s', h2_session_release s = Some (tt, s') /\ forall r q, hs_reqs s' !! r = Some q -> rq_is_ws q = true.
Proof.
  intros HI. destruct (release_loop_spec (hs_live s) s (i_live _ _ HI)) as (m & E & Hm).
  { intros r (q & Hq & _)%(i_live_in _ _ HI). by eexists. }
  eexists. split; [unfold h2_session_release, mbind, PS_bind, pget; by rewrite E|]. cbn. intros r q Hr.
  destruct (Hm r q Hr) as [Hn Hq]. destruct (rq_is_ws q) eqn:Hw; [done|]. destruct Hn. apply (i_live_in _ _ HI). by exists q.
Qed.

(** ** Properties *)

(** C6. In every state the session reaches, whatever nghttp2 delivers, the user
    queues inside of callbacks and the decoders of streamed bodies give, every
    operation that cancels only open streams uses no arena of a request that was
    recycled: had every push into a decoder returned, by failing where it does
    not ([returning]), the operation would return, and the code gives either
    this result or, only where a push does not return, none; so with
    decoders that return every operation returns. The release of the session
    returns in every case. *)
Theorem h2_never_dangles prof s op : session_laws -> rtc h2_step (h2_session_alloc prof) s -> op_ok op s ->
  (exists s', H2Props.h2_do (HPush := returning) prog op s = Some (tt, s') /\ (h2_do op s = Some (tt, s') \/ h2_do op s = None)) /\
  (decoders_return -> exists s', h2_do op s = Some (tt, s')) /\
  exists s', h2_session_release s = Some (tt, s').
Proof.
  intros HS Hr Hop. pose proof (good_reached HS None prof s Hr) as HG. split; [|split].
  - destruct (wp_run _ _ _ (do_good (HPush := returning) sources owed left prog HS None op s returning_return HG Hop)) as ([] & s' & E & _).
    exists s'. split; [exact E|exact (below_some _ _ s _ (below_do op) E)].
  - intros HD. destruct (wp_run _ _ _ (do_good sources owed left prog HS None op s HD HG Hop)) as ([] & s' & E & _). by exists s'.
  - destruct (release_spec s (proj1 HG)) as (s' & E & _). by exists s'.
Qed.
(** C5. In every state the session reaches, a request that was made is alive, or
    had its one response, or was not taken by nghttp2: one of the three, and no
    request has two ends. [open_streams] is the number of streams with a request,
    and a release leaves no request but those of WebSockets, which the session's
    own arena holds. *)
Theorem h2_request_once prof s : session_laws -> rtc h2_step (h2_session_alloc prof) s ->
  NoDup (answered s) /\
  (forall r, (r < hs_next s)%nat <-> is_Some (hs_reqs s !! r) \/ r ∈ answered s) /\
  (forall r, r ∈ answered s -> hs_reqs s !! r = None) /\
  hs_open_streams s = Z.of_nat (size (users s)) /\
  exists s', h2_session_release s = Some (tt, s') /\ forall r q, hs_reqs s' !! r = Some q -> rq_is_ws q = true.
Proof.
  intros HS Hr. destruct (good_reached HS None prof s Hr) as [HI _]. split; [apply (i_once _ _ HI)|]. split.
  { intros r. split; [apply (i_total _ _ HI)|]. intros [H|H]; [by apply (i_next _ _ HI)|by apply (i_gone _ _ HI)]. }
  split; [intros r H; by apply (i_gone _ _ HI)|]. split; [apply (i_open _ _ HI)|]. exact (release_spec s HI).
Qed.
(** C16. Every byte of DATA that nghttp2 delivered is reported as consumed by the
    time the operation returns, on the connection's window and on the window of its
    stream, each by the call that is for it, so the peer's windows are replenished: also
    for streams without a request and for bodies whose decoder has failed. *)
Theorem h2_windows_replenished prof s : session_laws -> rtc h2_step (h2_session_alloc prof) s ->
  owes (owed None) s = 0 /\ forall sid, owes (owed (Some sid)) s = 0.
Proof. intros HS Hr. split; [|intros sid]; [exact (proj2 (good_reached HS None prof s Hr))|exact (proj2 (good_reached HS (Some sid) prof s Hr))]. Qed.
(** C7. Multiplexing: the response to a request has the status, the fields and
    the body that the frames of its own stream carry, in order, whatever frames
    of other streams come between them and whatever the user queues meanwhile;
    it is [ok] if the stream closes without an error. *)
Theorem h2_response_refines prof s sid r user body q evs err :
  session_laws -> decoders_return -> rtc h2_step (h2_session_alloc prof) s -> users s !! sid = Some r -> hs_reqs s !! r = Some q -> alike (submitted_req sid body user None) q ->
  forallb (passes sid) evs = true ->
  exists s1 s', ng_handles evs s = Some (tt, s1) /\ ng_handle prog (NgStreamClose sid err) s1 = Some (tt, s') /\
    hs_calls s' = hs_calls s1 ++
      [CallResponse r user (mkH2Response sid (err =? NGHTTP2_NO_ERROR) (status_of sid 0 evs) (fields_of sid evs) (body_of sid evs))].
Proof.
  intros HS HD Hr Hu Er Ha Hp. pose proof (proj1 (good_reached HS None prof s Hr)) as HI. destruct (wp_run _ _ _ (wp_handles HS HD sid r evs s q HI Hu Er Hp)) as ([] & s1 & E1 & HI1 & Hu1 & q1 & Er1 & Ha1).
  assert (Hs1 : is_Some (hs_session s1)) by (unfold users, on_ng in Hu1; destruct (hs_session s1); [by eexists|done]).
  destruct (wp_run _ _ _ (wp_ng_handle sources (owed None) left (HS None) HD prog (NgStreamClose sid err) s1 HI1 Hs1 I))
    as ([] & s' & E' & _ & _ & _ & _ & _ & _ & _ & _ & _ & _ & (cs & Ecs & Ht) & _).
  exists s1, s'. split; [done|]. split; [done|]. rewrite Ecs. f_equal. cbn in Ht. rewrite Hu1 in Ht. specialize (Ht q1 Er1).
  pose proof (alike_trans _ _ _ (alike_fold sid evs _ _ Ha) Ha1) as (_ & B2 & B3 & B4 & B5 & B6 & B7 & B8).
  destruct (fold_response sid evs (submitted_req sid body user None) [] ga_empty_rep eq_refl eq_refl) as (F1 & F2 & F3 & F4 & F5 & F6 & F7).
  rewrite B7, F6 in Ht. rewrite Ht, B5, F4. unfold response. rewrite B2, B3, B4, B6, B8, F1, F3, F5, F7 by done. cbn. by rewrite (ga_rep_list _ _ F2), andb_true_r.
Qed.
(** C17. What is sent is what was given: the pieces of a request body that nghttp2
    reads follow each other in the body, and the end is flagged exactly when the
    body is exhausted. The reads of a WebSocket's queue, however they interleave with
    the user's sends and finish, are those of the sequence of the bytes that were
    queued: each gives the next bytes, in order and none lost; the end is flagged by the read
    that takes the last of them after the user finished, or by one that finds the
    queue empty then, and by no other; and a read is deferred exactly when there
    is nothing to give yet. *)
Theorem h2_upload_exact body lens q ops : (rq_wq_off q <= length (rq_wq q))%nat ->
  (concat (fst <$> source_reads (mkSource body 0) lens) = take (sum_list lens) body /\
   (snd <$> source_reads (mkSource body 0) lens) = imap (fun i k => bool_decide (length body <= sum_list (take i lens) + k)%nat) lens) /\
  let '(l, q') := queue_run ops q in
  (l, queued q') = queue_spec ops (queued q) (rq_ws_eof q) /\ queued q ++ sent_bytes ops = answer_bytes l ++ queued q'.
Proof.
  intros Hq. split.
  - rewrite source_reads_spec by lia. split; [|by rewrite fmap_imap].
    rewrite fmap_imap. exact (concat_imap_reads body lens 0).
  - pose proof (queue_run_spec ops q Hq) as H. destruct (queue_run ops q) as [l q']. split; [done|].
    pose proof (queue_spec_bytes ops (queued q) (rq_ws_eof q)) as Hb. by rewrite <-H in Hb.
Qed.
End props.

(** ** A toy nghttp2

    It keeps the documented behaviour, on a wire format of its own: a frame is a
    kind, a stream, a length and as many bytes. *)
Record DemoNg := mkDemoNg {
  dn_users : gmap Z nat;
  dn_sources : gmap Z NgSource;
  dn_events : list NgEvent;
  dn_owed : Z;              (* of the connection's window *)
  dn_owed_on : Z -> Z;      (* of a stream's *)
  dn_next : Z
}.
Definition dn_owes (w : option Z) (n : DemoNg) : Z := match w with None => dn_owed n | Some sid => dn_owed_on n sid end.
Definition demo_add (sid k : Z) (f : Z -> Z) : Z -> Z := fun sid' => f sid' + (if sid =? sid' then k else 0).
Fixpoint demo_frames (fuel : nat) (data : bytes) : list NgEvent :=
  match fuel, data with
  | S fuel, kind :: sid :: len :: rest =>
      let d := take (Z.to_nat len) rest in
      (if kind =? 1 then NgHeader sid (lit ":status") d
       else if kind =? 2 then NgHeader sid (lit "x-demo") d
       else if kind =? 3 then NgData sid d
       else NgStreamClose sid 0) :: demo_frames fuel (drop (Z.to_nat len) rest)
  | _, _ => []
  end.
#[local] Instance source_dec : EqDecision NgSource.
Proof. solve_decision. Defined.
(** The end of a call when no event is left that can happen. *)
Definition demo_next (n : DemoNg) : NgEvent * DemoNg :=
  match dn_events n with
  | NgEnd _ :: _ | [] => (NgEnd 0, n)
  | NgRead sid src k :: _ => (if decide (dn_sources n !! sid = Some src) then NgRead sid src k else NgEnd 0, n)
  | NgData sid d :: _ =>
      (NgData sid d, mkDemoNg (dn_users n) (dn_sources n) (dn_events n) (dn_owed n + zlen d) (demo_add sid (zlen d) (dn_owed_on n)) (dn_next n))
  | ev :: _ => (ev, n)
  end.
Definition demo_begin (evs : list NgEvent) (n : DemoNg) : DemoNg :=
  mkDemoNg (dn_users n) (dn_sources n) (take 100 evs) (dn_owed n) (dn_owed_on n) (dn_next n).
#[local] Instance demo_ng : NgHttp2 := {|
  ng := DemoNg;
  ng_client_new := Some (mkDemoNg ∅ ∅ [] 0 (fun _ => 0) 1);
  ng_submit_settings n _ := (0, n);
  ng_submit_window_update n _ _ := (0, n);
  ng_submit_request n _ _ src r :=
    match dn_users n !! dn_next n, dn_sources n !! dn_next n with
    | None, None => if dn_next n <? 0 then (-1, n)
        else (dn_next n, mkDemoNg (<[dn_next n := r]> (dn_users n))
               (match src with Some x => <[dn_next n := x]> (dn_sources n) | None => dn_sources n end) [] (dn_owed n) (dn_owed_on n) (dn_next n + 2))
    | _, _ => (-1, n)
    end;
  ng_submit_rst_stream n _ _ := n;
  ng_consume_connection n k := mkDemoNg (dn_users n) (dn_sources n) (dn_events n) (dn_owed n - k) (dn_owed_on n) (dn_next n);
  ng_consume_stream n sid k := mkDemoNg (dn_users n) (dn_sources n) (dn_events n) (dn_owed n) (demo_add sid (- k) (dn_owed_on n)) (dn_next n);
  ng_resume_data n _ := n;
  ng_user_data := dn_users;
  ng_set_user_data n sid o := mkDemoNg (match o with Some r => <[sid := r]> (dn_users n) | None => delete sid (dn_users n) end)
    (dn_sources n) (dn_events n) (dn_owed n) (dn_owed_on n) (dn_next n);
  ng_remote_settings _ _ := 100;
  ng_want_write _ := false;
  ng_want_read _ := true;
  ng_mem_recv n data := demo_begin (demo_frames (length data) data) n;
  ng_session_send n := demo_begin (map (fun x => NgRead (fst x) (snd x) 3) (map_to_list (dn_sources n)) ++ [NgSend (lit "out")]) n;
  ng_next := demo_next;
  ng_answer n ev _ := mkDemoNg (closes ev (dn_users n)) (closes ev (dn_sources n)) (tail (dn_events n)) (dn_owed n) (dn_owed_on n) (dn_next n)
|}.
#[local] Instance demo_dec : StreamDec := {| sdec := unit; sdec_create _ := Some tt |}.
#[local] Instance demo_push : DecPush := fun _ d => Some (true, tt, [d]).
Lemma demo_decoders_return : decoders_return.
Proof. intros d data. by eexists. Qed.
Definition demo_left (n : DemoNg) : Z := Z.of_nat (length (dn_events n)).
Lemma demo_session_laws : session_laws dn_sources dn_owes demo_left.
Proof.
  intros w.
  assert (Hb : forall evs n, 0 <= demo_left (demo_begin evs n) < 2 ^ 64).
  { intros evs n. unfold demo_left, demo_begin; cbn [dn_events]. rewrite length_take. lia. }
  constructor; try done.
  - intros n [= <-]. by destruct w.
  - by intros n iv rc n' [= <- <-].
  - by intros n sid inc rc n' [= <- <-].
  - intros n pri nva src r sid n'. cbn. destruct (dn_users n !! dn_next n) eqn:Eu; [by intros [= <- <-]|].
    destruct (dn_sources n !! dn_next n) eqn:Es; [by intros [= <- <-]|]. destruct (Z.ltb_spec (dn_next n) 0); [by intros [= <- <-]|].
    intros [= <- <-]. split; [by destruct w|]. rewrite (proj2 (Z.ltb_ge _ _)) by done. by destruct src.
  - intros n k. destruct w; cbn; rewrite ?Z.sub_0_r; by repeat (split; [done|]).
  - intros n sid k. split; [done|]. split; [done|]. split; [|done]. destruct w as [sid'|]; cbn; unfold demo_add; [destruct (sid =? sid')|]; lia.
  - intros n data. split; [done|]. split; [done|]. split; [by destruct w|apply Hb].
  - intros n. split; [done|]. split; [done|]. split; [by destruct w|apply Hb].
  - intros n ev n'. cbn. unfold demo_next, demo_left.
    destruct (dn_events n) as [|e l] eqn:El; [intros [= <- <-]; cbn; rewrite El; rewrite Z.add_0_r; by repeat (split; [done|])|].
    assert (0 < Z.of_nat (length (e :: l))) by (cbn [length]; lia).
    destruct e; try (intros [= <- <-]; cbn [data_len]; rewrite ?El, ?Z.add_0_r; by repeat (split; [done|])).
    + intros [= <- <-]. split; [done|]. split; [done|]. split; [|done].
      destruct w as [sid'|]; cbn; unfold demo_add; [destruct (_ =? sid')|]; lia.
    + destruct (decide _) as [Hd|Hd]; intros [= <- <-]; cbn [data_len]; rewrite ?El, ?Z.add_0_r; by repeat (split; [done|]).
  - intros n ev a. cbn. split; [done|]. split; [done|]. split; [by destruct w|]. unfold demo_left. cbn. destruct (dn_events n) as [|e l]; [done|].
    cbn [tail length]. lia.
Qed.

(** *** Runs of the toy *)
(** During a response the user finishes WebSocket 5. *)
Definition demo_h2_prog (c : H2Call) : list H2Op := match c with CallResponse _ _ _ => [OpWsSend 5 (lit "bye"); OpWsFinish 5] | _ => [] end.
Definition demo_h2_prof : Http2Profile := mkHttp2 [(4, 6291456)] 15663105 true 0 255 true [Pseudo_Method; Pseudo_Authority; Pseudo_Scheme; Pseudo_Path].
Definition demo_session : H2Session := h2_session_alloc demo_h2_prof.
Definition demo_op_ok (op : SessionOp) (s : H2Session) : bool :=
  match op with SoCancel sid => if users s !! sid is Some _ then true else false | _ => true end.
Lemma demo_op_ok_spec op s : demo_op_ok op s = true -> op_ok op s.
Proof. destruct op; cbn; try done. destruct (users s !! stream_id); [|done]. by eexists. Qed.
Fixpoint demo_run (ops : list SessionOp) (s : H2Session) : option H2Session :=
  match ops with
  | [] => Some s
  | op :: ops => if demo_op_ok op s then match h2_do demo_h2_prog op s with Some (_, s) => demo_run ops s | None => None end else None
  end.
Definition demo_state (ops : list SessionOp) : H2Session := default demo_session (demo_run ops demo_session).
Definition demo_runs (ops : list SessionOp) : bool := if demo_run ops demo_session is Some _ then true else false.
Lemma demo_state_reached ops : demo_runs ops = true -> rtc (h2_step demo_h2_prog) demo_session (demo_state ops).
Proof.
  unfold demo_runs, demo_state. generalize demo_session as s. induction ops as [|op ops IH]; intros s; cbn [demo_run]; [done|].
  destruct (demo_op_ok op s) eqn:Eo; [|done]. destruct (h2_do demo_h2_prog op s) as [[[] s1]|] eqn:E; [|done]. intros H.
  eapply rtc_l; [econstructor; [by apply demo_op_ok_spec|exact E]|]. specialize (IH s1 H). by destruct (demo_run ops s1).
Qed.
Definition demo_get (user : nat) (body : bytes) : SessionOp :=
  SoSubmit (lit "GET") (lit "https") (lit "a.b") (lit "/") [] body user None.
(** Two requests and a WebSocket; the first two streams interleave. *)
Definition demo_ops : list SessionOp :=
  [SoStart; demo_get 7 []; demo_get 8 (lit "12345678"); SoConnect (lit "https") (lit "a.b") (lit "/ws") (lit "websocket") [] 9;
   SoRecv ([1; 1; 3] ++ lit "200" ++ [1; 3; 3] ++ lit "404" ++ [3; 1; 2] ++ lit "he" ++ [3; 3; 2] ++ lit "no" ++ [3; 1; 3] ++ lit "llo"
           ++ [3; 9; 2] ++ lit "??" ++ [4; 1; 0])].
Definition demo_replies (s : H2Session) : list (nat * Z * bytes) :=
  omap (fun c => match c with CallResponse _ user r => Some (user, hr_status r, hr_body r) | _ => None end) (hs_calls s).

Lemma h2_never_dangles_witness : exists s', h2_do demo_h2_prog (SoCancel 3) (demo_state demo_ops) = Some (tt, s').
Proof.
  refine (proj1 (proj2 (h2_never_dangles dn_sources dn_owes demo_left demo_h2_prog demo_h2_prof (demo_state demo_ops) (SoCancel 3) demo_session_laws
    (demo_state_reached demo_ops _) (demo_op_ok_spec _ _ _))) demo_decoders_return); vm_compute; reflexivity.
Defined.
Lemma h2_request_once_witness :
  demo_replies (demo_state demo_ops) = [(7%nat, 200, lit "hello")] /\ NoDup (answered (demo_state demo_ops)).
Proof.
  split; [vm_compute; reflexivity|].
  refine (proj1 (h2_request_once dn_sources dn_owes demo_left demo_h2_prog demo_h2_prof (demo_state demo_ops) demo_session_laws
    (demo_state_reached demo_ops _))); vm_compute; reflexivity.
Defined.
Lemma h2_windows_replenished_witness :
  dn_owes (Some 1) (demo_next (demo_begin (demo_frames 9 [3; 1; 2; 104; 101]) (mkDemoNg ∅ ∅ [] 0 (fun _ => 0) 1))).2 = 2 /\
  owes (dn_owes None) (demo_state demo_ops) = 0 /\ owes (dn_owes (Some 1)) (demo_state demo_ops) = 0.
Proof.
  split; [vm_compute; reflexivity|].
  refine ((fun H => conj (proj1 H) (proj2 H 1)) (h2_windows_replenished dn_sources dn_owes demo_left demo_h2_prog demo_h2_prof (demo_state demo_ops) demo_session_laws
    (demo_state_reached demo_ops _))); vm_compute; reflexivity.
Defined.
(** The stream of the second request, with frames of others between. *)
Definition demo_evs : list NgEvent :=
  [NgHeader 3 (lit ":status") (lit "404"); NgHeader 1 (lit ":status") (lit "200"); NgData 1 (lit "xx"); NgHeader 3 (lit "a") (lit "b");
   NgData 3 (lit "no"); NgStreamClose 1 0; NgData 3 (lit "pe")].
Definition demo_asked : list SessionOp := [SoStart; demo_get 7 []; demo_get 8 []].
Lemma h2_response_refines_witness :
  exists s1 s', ng_handles demo_h2_prog demo_evs (demo_state demo_asked) = Some (tt, s1) /\
    ng_handle demo_h2_prog (NgStreamClose 3 0) s1 = Some (tt, s') /\
    hs_calls s' = hs_calls s1 ++ [CallResponse 1 8 (mkH2Response 3 true 404 [mkHeader (lit "a") (lit "b") 0] (lit "nope"))].
Proof.
  refine (h2_response_refines dn_sources dn_owes demo_left demo_h2_prog demo_h2_prof (demo_state demo_asked) 3 1 8 []
    (submitted_req 3 [] 8 None) demo_evs 0 demo_session_laws demo_decoders_return (demo_state_reached demo_asked _) _ _ (alike_refl _) _); vm_compute; reflexivity.
Defined.
Definition demo_queue : list QueueOp := [QRead 4; QSend (lit "abc"); QRead 2; QFinish; QRead 1; QRead 4].
Lemma h2_upload_exact_witness :
  source_reads (mkSource (lit "12345678") 0) [3; 3; 3]%nat = [(lit "123", false); (lit "456", false); (lit "78", true)] /\
  fst (queue_run demo_queue (submitted_req 1 [] 0 None)) = [NgDeferred; NgBytes (lit "ab") false; NgBytes (lit "c") true; NgBytes [] true] /\
  concat (fst <$> source_reads (mkSource (lit "12345678") 0) [3; 3; 3]%nat) = lit "12345678".
Proof.
  split; [vm_compute; reflexivity|]. split; [vm_compute; reflexivity|].
  refine (proj1 (proj1 (h2_upload_exact (lit "12345678") [3; 3; 3]%nat (submitted_req 1 [] 0 None) demo_queue _))). cbn. lia.
Defined.
