(* ===== verification/Json.v ===== *)
(** * JSON documents: core/json.c

    The documents are yyjson's: a value is of the type below, with integers in
    the range of a 64-bit number of either sign. Reading and writing text are
    yyjson's and appear as parameters where they are used; what the code does
    with values, through yyjson's typed getters, is defined here. A null pointer
    to a value is [None]. *)
From S2P Require Import Prelude String8.

Inductive json :=
| JNull
| JBool (b : bool)
| JInt (z : Z)
| JStr (s : bytes)
| JArr (l : list json)
| JObj (l : list (bytes * json)).

(** Integers a document can carry. *)
Fixpoint json_ok (v : json) : bool :=
  match v with
  | JInt z => (- 2 ^ 63 <=? z) && (z <? 2 ^ 64)
  | JArr l => forallb json_ok l
  | JObj l => forallb (fun kv => json_ok (snd kv)) l
  | _ => true
  end.

(** yyjson's getters: the first field of that name; a default for a value of
    another type. *)
Definition yyjson_obj_get (v : option json) (key : bytes) : option json :=
  match v with
  | Some (JObj l) => snd <$> (snd <$> list_find (fun kv => fst kv = key) l)
  | _ => None
  end.
Definition yyjson_get_uint (v : option json) : Z := match v with Some (JInt z) => wrap64 z | _ => 0 end.
Definition yyjson_get_sint (v : option json) : Z :=
  match v with Some (JInt z) => let u := wrap64 z in if u <? 2 ^ 63 then u else u - 2 ^ 64 | _ => 0 end.
Definition yyjson_get_bool (v : option json) : bool := match v with Some (JBool b) => b | _ => false end.

Definition json_obj_str (obj : option json) (key : bytes) : bytes :=
  match yyjson_obj_get obj key with Some (JStr s) => s | _ => [] end.

Definition json_obj_int (obj : option json) (key : bytes) (fallback : Z) : Z :=
  match yyjson_obj_get obj key with
  | Some (JInt z) => yyjson_get_sint (Some (JInt z))
  | _ => fallback
  end.

Definition json_obj_bool (obj : option json) (key : bytes) : bool :=
  match yyjson_obj_get obj key with Some (JBool b) => b | _ => false end.

(** [out] is the buffer afterwards, as far as it was written. *)
Definition json_get_str (json_parse : bytes -> option json) (src key : bytes) (cap : nat) : bool * bytes :=
  if (cap =? 0)%nat then (false, [])
  else match json_parse src with
  | None => (false, [0])
  | Some doc =>
      match yyjson_obj_get (Some doc) key with
      | Some (JStr s) =>
          let n := if (cap - 1 <? length s)%nat then (cap - 1)%nat else length s in
          (true, take n s ++ [0])
      | _ => (false, [0])
      end
  end.

(** obj[key] = the document [json], or an empty object. *)
Definition json_mut_obj_sub (json_parse : bytes -> option json) (fields : list (bytes * json)) (key text : bytes) :
    list (bytes * json) :=
  fields ++ [(key, match json_parse text with Some v => v | None => JObj [] end)].

(** ** Lemmas *)

Lemma yyjson_obj_get_cons k v l key :
  yyjson_obj_get (Some (JObj ((k, v) :: l))) key = if decide (k = key) then Some v else yyjson_obj_get (Some (JObj l)) key.
Proof.
  simpl. destruct (decide (k = key)); [done|]. by destruct (list_find _ l) as [[? [? ?]]|].
Qed.

Lemma yyjson_obj_get_app l1 l2 key :
  yyjson_obj_get (Some (JObj (l1 ++ l2))) key =
  match yyjson_obj_get (Some (JObj l1)) key with Some v => Some v | None => yyjson_obj_get (Some (JObj l2)) key end.
Proof.
  induction l1 as [|[k v] l1 IH]; [done|]. rewrite <-app_comm_cons, !yyjson_obj_get_cons. by destruct (decide _).
Qed.

(** ** Equality of documents *)

Fixpoint json_eqb (a b : json) {struct a} : bool :=
  match a, b with
  | JNull, JNull => true
  | JBool x, JBool y => Bool.eqb x y
  | JInt x, JInt y => x =? y
  | JStr x, JStr y => bool_decide (x = y)
  | JArr l, JArr m =>
      (fix go (l m : list json) : bool :=
         match l, m with
         | [], [] => true
         | x :: l', y :: m' => json_eqb x y && go l' m'
         | _, _ => false
         end) l m
  | JObj l, JObj m =>
      (fix go (l m : list (bytes * json)) : bool :=
         match l, m with
         | [], [] => true
         | (k, x) :: l', (k', y) :: m' => bool_decide (k = k') && json_eqb x y && go l' m'
         | _, _ => false
         end) l m
  | _, _ => false
  end.

Lemma json_eqb_eq (a b : json) : json_eqb a b = true -> a = b.
Proof.
  revert a b. fix IH 1. intros a b. destruct a as [|x|x|x|l|l]; destruct b as [|y|y|y|m|m]; try done; cbn [json_eqb].
  - intros H. apply Bool.eqb_prop in H. by subst.
  - intros H. apply Z.eqb_eq in H. by subst.
  - intros H. apply bool_decide_eq_true in H. by subst.
  - intros H. f_equal. revert m H. induction l as [|x l IHl]; intros [|y m]; try done. intros H.
    apply andb_true_iff in H as [Hx Hl]. f_equal; [by apply IH|by apply IHl].
  - intros H. f_equal. revert m H. induction l as [|[k x] l IHl]; intros [|[k' y] m]; try done. intros H.
    apply andb_true_iff in H as [[Hk Hx]%andb_true_iff Hl]. apply bool_decide_eq_true in Hk.
    f_equal; [f_equal; [done|by apply IH]|by apply IHl].
Qed.
