(* ===== verification/Persist.v ===== *)
(** * Session snapshots: core/persist.c

    Marshalling of a client's caches and a session's cookie jar to a JSON
    document, and the merge of a document into them. The text of a document is
    yyjson's ([json_write], [json_parse]), the bytes of a TLS session are
    BoringSSL's ([SSL_SESSION_to_bytes], [SSL_SESSION_from_bytes]); both are
    parameters. The clock of the client's loop is a field; a client without a
    loop has 0. The file wrappers are not modelled. *)
From S2P Require Import Prelude String8 Base64 GrowArr Json AltSvc OriginCache Cookie.

Definition HOLYTLS_PERSIST_VERSION : Z := 1.

Section persist.
Context {SSL_SESSION : Type}.
Context (SSL_SESSION_to_bytes : SSL_SESSION -> option bytes).
Context (SSL_SESSION_from_bytes : bytes -> option SSL_SESSION).
Context (json_write : bool -> json -> option bytes).
Context (json_parse : bytes -> option json).

Record Client := mkClient {
  cl_now : Z;
  cl_ctx : bool;                  (* c->ctx.ctx is set *)
  cl_resume : list (ResumeCacheEntry SSL_SESSION);
  cl_alt_svc : list AltSvcEntry;
  cl_ech : list EchConfigEntry
}.

(** ** Marshalling *)

Definition tls_session_json (e : ResumeCacheEntry SSL_SESSION) : option json :=
  match re_session e with
  | None => None
  | Some s =>
      match SSL_SESSION_to_bytes s with
      | None => None
      | Some der =>
          if (length der =? 0)%nat then None
          else
            let tk := base64_encode der in
            if (length tk =? 0)%nat then None
            else
              let o := [(lit "origin", JStr (re_origin e)); (lit "ticket", JStr tk)] in
              let o := if (0 <? length (re_zrtt_tp e))%nat then
                         let tp := base64_encode (re_zrtt_tp e) in
                         if (0 <? length tp)%nat then o ++ [(lit "zrtt_tp", JStr tp)] else o
                       else o in
              Some (JObj o)
      end
  end.

Definition ttl_left (expiry now : Z) : Z := if now <? expiry then expiry - now else 0.

Definition alt_svc_json (now : Z) (e : AltSvcEntry) : option json :=
  let ttl := ttl_left (ae_expiry_ms e) now in
  if ttl =? 0 then None
  else Some (JObj [(lit "origin", JStr (ae_origin e)); (lit "h3", JBool (ae_h3 e)); (lit "ttl_ms", JInt ttl)]).

Definition ech_json (now : Z) (e : EchConfigEntry) : option json :=
  let ttl := ttl_left (ee_expiry_ms e) now in
  if ttl =? 0 then None
  else
    let cfg := if (0 <? length (ee_config e))%nat then base64_encode (ee_config e) else [] in
    Some (JObj [(lit "origin", JStr (ee_origin e)); (lit "config", JStr cfg); (lit "ttl_ms", JInt ttl)]).

Definition persist_build_client (c : Client) : list (bytes * json) :=
  [(lit "tls_sessions", JArr (omap tls_session_json (cl_resume c)));
   (lit "alt_svc", JArr (omap (alt_svc_json (cl_now c)) (cl_alt_svc c)));
   (lit "ech", JArr (omap (ech_json (cl_now c)) (cl_ech c)))].

Definition cookie_json (ck : Cookie) : json :=
  JObj [(lit "name", JStr (c_name ck)); (lit "value", JStr (c_value ck)); (lit "domain", JStr (c_domain ck));
        (lit "path", JStr (c_path ck)); (lit "expires", JInt (c_expires_epoch ck));
        (lit "host_only", JBool (c_host_only ck)); (lit "secure", JBool (c_secure ck));
        (lit "http_only", JBool (c_http_only ck)); (lit "same_site", JInt (c_same_site ck))].
Definition persist_build_cookies (jar : CookieJar) : list (bytes * json) :=
  [(lit "cookies", JArr (cookie_json <$> jar_list jar))].

Definition json_mut_write (pretty : bool) (root : list (bytes * json)) : bytes :=
  match json_write pretty (JObj root) with Some s => s | None => [] end.

Definition client_state_marshal (c : option Client) (pretty : bool) : bytes :=
  match c with
  | None => []
  | Some c => json_mut_write pretty ((lit "version", JInt HOLYTLS_PERSIST_VERSION) :: persist_build_client c)
  end.

Definition session_marshal (s : option CookieJar) (c : option Client) (pretty : bool) : bytes :=
  let root := [(lit "version", JInt HOLYTLS_PERSIST_VERSION)] in
  let root := match c with Some c => root ++ persist_build_client c | None => root end in
  let root := match s with Some jar => root ++ persist_build_cookies jar | None => root end in
  json_mut_write pretty root.

(** ** Restoring *)

Definition persist_put_alt_svc (cache : list AltSvcEntry) (origin : bytes) (h3 : bool) (expiry_ms : Z) : list AltSvcEntry :=
  match find_entry ae_origin cache origin with
  | Some i => alter (fun e => mkAltEntry (ae_origin e) h3 expiry_ms) i cache
  | None =>
      if (ALT_SVC_CAP <=? length cache)%nat then cache
      else cache ++ [mkAltEntry (store_origin origin) h3 expiry_ms]
  end.

Definition persist_put_ech (cache : list EchConfigEntry) (origin cfg : bytes) (expiry_ms : Z) : list EchConfigEntry :=
  let set e := mkEch (ee_origin e) (take (Nat.min (length cfg) 512) cfg) expiry_ms in
  match find_entry ee_origin cache origin with
  | Some i => alter set i cache
  | None =>
      if (ECH_CACHE_CAP <=? length cache)%nat then cache
      else cache ++ [set (mkEch (store_origin origin) [] 0)]
  end.

Definition json_items (root : json) (key : bytes) : list json :=
  match yyjson_obj_get (Some root) key with Some (JArr l) => l | _ => [] end.

Definition restore_tls (now : Z) (cache : list (ResumeCacheEntry SSL_SESSION)) (it : json) : list (ResumeCacheEntry SSL_SESSION) :=
  let origin := json_obj_str (Some it) (lit "origin") in
  let tk := json_obj_str (Some it) (lit "ticket") in
  if (length origin =? 0)%nat || (length tk =? 0)%nat then cache
  else
    let der := base64_decode tk in
    if (length der =? 0)%nat then cache
    else match SSL_SESSION_from_bytes der with
    | None => cache
    | Some sess =>
        let cache := resume_cache_put cache origin sess now in
        let ztp := json_obj_str (Some it) (lit "zrtt_tp") in
        if (0 <? length ztp)%nat then
          let tp := base64_decode ztp in
          if (0 <? length tp)%nat then resume_cache_put_tp cache origin tp now else cache
        else cache
    end.

Definition restore_alt_svc (now : Z) (cache : list AltSvcEntry) (it : json) : list AltSvcEntry :=
  let origin := json_obj_str (Some it) (lit "origin") in
  if (length origin =? 0)%nat then cache
  else
    let h3 := yyjson_get_bool (yyjson_obj_get (Some it) (lit "h3")) in
    let ttl := yyjson_get_uint (yyjson_obj_get (Some it) (lit "ttl_ms")) in
    persist_put_alt_svc cache origin h3 (wrap64 (now + ttl)).

Definition restore_ech (now : Z) (cache : list EchConfigEntry) (it : json) : list EchConfigEntry :=
  let origin := json_obj_str (Some it) (lit "origin") in
  if (length origin =? 0)%nat then cache
  else
    let ttl := yyjson_get_uint (yyjson_obj_get (Some it) (lit "ttl_ms")) in
    let cfgb64 := json_obj_str (Some it) (lit "config") in
    let cfg := if (0 <? length cfgb64)%nat then base64_decode cfgb64 else [] in
    persist_put_ech cache origin cfg (wrap64 (now + ttl)).

Definition persist_restore_client (c : Client) (root : json) : Client :=
  mkClient (cl_now c) (cl_ctx c)
    (if cl_ctx c then foldl (restore_tls (cl_now c)) (cl_resume c) (json_items root (lit "tls_sessions")) else cl_resume c)
    (foldl (restore_alt_svc (cl_now c)) (cl_alt_svc c) (json_items root (lit "alt_svc")))
    (foldl (restore_ech (cl_now c)) (cl_ech c) (json_items root (lit "ech"))).

Definition restore_cookie (jar : CookieJar) (it : json) : CookieJar :=
  let name := json_obj_str (Some it) (lit "name") in
  if (length name =? 0)%nat then jar
  else
    let value := json_obj_str (Some it) (lit "value") in
    let domain := json_obj_str (Some it) (lit "domain") in
    let path := json_obj_str (Some it) (lit "path") in
    let expires := yyjson_get_uint (yyjson_obj_get (Some it) (lit "expires")) in
    let host_only := yyjson_get_bool (yyjson_obj_get (Some it) (lit "host_only")) in
    let secure := yyjson_get_bool (yyjson_obj_get (Some it) (lit "secure")) in
    let http_only := yyjson_get_bool (yyjson_obj_get (Some it) (lit "http_only")) in
    let same_site := wrap8 (yyjson_get_uint (yyjson_obj_get (Some it) (lit "same_site"))) in
    cookie_jar_put jar (mkCookie name value domain path expires host_only secure http_only same_site).

Definition persist_restore_cookies (jar : CookieJar) (root : json) : CookieJar :=
  foldl restore_cookie jar (json_items root (lit "cookies")).

Definition persist_open (text : bytes) : option json :=
  match json_parse text with
  | None => None
  | Some root =>
      match root with
      | JObj _ =>
          let v := yyjson_get_sint (yyjson_obj_get (Some root) (lit "version")) in
          (* yyjson_get_int: the low 32 bits, signed *)
          let v := let w := wrap32 v in if w <? 2 ^ 31 then w else w - 2 ^ 32 in
          if negb (v =? HOLYTLS_PERSIST_VERSION) then None else Some root
      | _ => None
      end
  end.

Definition client_state_unmarshal (c : option Client) (text : bytes) : bool * option Client :=
  match c with
  | None => (false, None)
  | Some c =>
      match persist_open text with
      | Some root => (true, Some (persist_restore_client c root))
      | None => (false, Some c)
      end
  end.

Definition session_unmarshal (s : option CookieJar) (c : option Client) (text : bytes) :
    bool * option CookieJar * option Client :=
  match persist_open text with
  | Some root => (true, (fun jar => persist_restore_cookies jar root) <$> s, (fun c => persist_restore_client c root) <$> c)
  | None => (false, s, c)
  end.

End persist.

(** ** Restoring into empty tables *)

(** A loop that appends one entry per item carries over a table with unique
    keys that fits. *)
Lemma foldl_carry {E J K} (key : E -> K) (cap : nat) (P : E -> Prop) (toj : E -> option J) (tr : E -> E)
    (put : list E -> J -> list E) (l acc : list E) :
  (forall acc e j, P e -> toj e = Some j -> key e ∉ (key <$> acc) -> (length acc < cap)%nat -> put acc j = acc ++ [tr e]) ->
  (forall e, key (tr e) = key e) ->
  Forall P l -> NoDup (key <$> acc ++ l) -> (length (acc ++ l) <= cap)%nat ->
  foldl put acc (omap toj l) = acc ++ (tr <$> filter (fun e => is_Some (toj e)) l).
Proof.
  intros Hput Hkey Hl. revert acc. induction Hl as [|e l He _ IH]; intros acc Hnd Hlen; [by rewrite app_nil_r|].
  rewrite fmap_app, fmap_cons in Hnd. pose proof Hnd as Hnd0. apply NoDup_app in Hnd as (Ha & Hb & [Hc Hd]%NoDup_cons).
  rewrite length_app in Hlen. simpl in Hlen. cbn [omap list_omap]. destruct (toj e) as [j|] eqn:Ej.
  - rewrite filter_cons_True by (by rewrite Ej). cbn [foldl].
    rewrite (Hput acc e j) by (done || lia || (intros Hx; apply (Hb _ Hx), elem_of_cons; by left)).
    rewrite IH.
    + by rewrite fmap_cons, <-app_assoc.
    + rewrite <-app_assoc. rewrite fmap_app. cbn [app]. rewrite fmap_cons, Hkey. exact Hnd0.
    + rewrite !length_app. simpl. lia.
  - rewrite filter_cons_False by (rewrite Ej; apply is_Some_None). apply IH.
    + rewrite fmap_app. apply NoDup_app. split; [done|]. split; [|done]. intros x Hx Hx2. apply (Hb x Hx), elem_of_cons. by right.
    + rewrite length_app. lia.
Qed.

Lemma find_entry_absent {E} (key : E -> bytes) l o : o ∉ (key <$> l) -> find_entry key l o = None.
Proof.
  intros H. pose proof (find_entry_split key l o) as Hs. destruct (find_entry key l o); [|done].
  destruct Hs as (l1 & e & l2 & -> & _ & <- & _). destruct H. rewrite fmap_app, fmap_cons.
  apply elem_of_app. right. apply elem_of_cons. by left.
Qed.

Lemma find_entry_last {E} (key : E -> bytes) l e : key e ∉ (key <$> l) -> find_entry key (l ++ [e]) (key e) = Some (length l).
Proof.
  intros H. pose proof (find_entry_split key (l ++ [e]) (key e)) as Hs. destruct (find_entry key _ _) as [i|].
  - destruct Hs as (l1 & e' & l2 & El & <- & Hk & _). f_equal. destruct l2 as [|x l2 _] using rev_ind.
    + apply app_inj_tail in El as [-> _]. done.
    + exfalso. rewrite app_comm_cons, app_assoc in El. apply app_inj_tail in El as [-> ->]. apply H.
      rewrite fmap_app, fmap_cons, Hk. apply elem_of_app. right. apply elem_of_cons. by left.
  - apply (entry_of_None key (fun _ => 0)) in Hs. destruct Hs. rewrite fmap_app. apply elem_of_app. right. by apply list_elem_of_singleton.
Qed.

(** *** Alt-Svc and ECH *)

Definition usable_origin (o : bytes) : Prop := valid_origin o /\ o <> [].

Definition rebase (now now' expiry : Z) : Z := wrap64 (now' + (expiry - now)).
Definition alt_rebased (now now' : Z) (e : AltSvcEntry) : AltSvcEntry :=
  mkAltEntry (ae_origin e) (ae_h3 e) (rebase now now' (ae_expiry_ms e)).
Definition ech_rebased (now now' : Z) (e : EchConfigEntry) : EchConfigEntry :=
  mkEch (ee_origin e) (ee_config e) (rebase now now' (ee_expiry_ms e)).

Lemma length_nonzero {A} (l : list A) : l <> [] -> (length l =? 0)%nat = false.
Proof. by destruct l. Qed.

Lemma wrap64_ttl now expiry : 0 <= now -> u64_ok expiry -> now < expiry -> wrap64 (expiry - now) = expiry - now.
Proof. unfold wrap64, u64_ok, U64_MAX. intros. apply Z.mod_small. lia. Qed.

Lemma ttl_left_0 expiry now : (ttl_left expiry now =? 0) = bool_decide (~ now < expiry).
Proof.
  unfold ttl_left. destruct (Z.ltb_spec now expiry).
  - rewrite bool_decide_false by tauto. apply Z.eqb_neq. lia.
  - rewrite bool_decide_true by lia. done.
Qed.

Lemma restore_alt_item now now' acc e j :
  0 <= now -> usable_origin (ae_origin e) /\ u64_ok (ae_expiry_ms e) -> alt_svc_json now e = Some j ->
  ae_origin e ∉ (ae_origin <$> acc) -> (length acc < ALT_SVC_CAP)%nat ->
  restore_alt_svc now' acc j = acc ++ [alt_rebased now now' e].
Proof.
  intros Hn [[Hv Hne] He] Hj Hin Hl. unfold alt_svc_json in Hj. rewrite ttl_left_0 in Hj.
  case_bool_decide as Hlt; [done|]. injection Hj as <-. unfold restore_alt_svc.
  change (json_obj_str _ (lit "origin")) with (ae_origin e). rewrite length_nonzero by done.
  change (yyjson_get_bool _) with (ae_h3 e). change (yyjson_get_uint _) with (wrap64 (ttl_left (ae_expiry_ms e) now)).
  unfold persist_put_alt_svc. rewrite find_entry_absent by done. rewrite (proj2 (Nat.leb_gt _ _)) by done.
  rewrite store_origin_valid by done. unfold ttl_left. rewrite (proj2 (Z.ltb_lt _ _)) by lia.
  by rewrite wrap64_ttl by (done || lia).
Qed.

Lemma restore_ech_item now now' acc e j :
  0 <= now -> usable_origin (ee_origin e) /\ u64_ok (ee_expiry_ms e) /\ bytes_ok (ee_config e) /\ (length (ee_config e) <= 512)%nat ->
  ech_json now e = Some j -> ee_origin e ∉ (ee_origin <$> acc) -> (length acc < ECH_CACHE_CAP)%nat ->
  restore_ech now' acc j = acc ++ [ech_rebased now now' e].
Proof.
  intros Hn ([Hv Hne] & He & Hb & Hcl) Hj Hin Hl. unfold ech_json in Hj. rewrite ttl_left_0 in Hj.
  case_bool_decide as Hlt; [done|]. injection Hj as <-. unfold restore_ech.
  change (json_obj_str _ (lit "origin")) with (ee_origin e). rewrite length_nonzero by done.
  change (yyjson_get_uint _) with (wrap64 (ttl_left (ee_expiry_ms e) now)).
  set (cfg := if (0 <? length (ee_config e))%nat then base64_encode (ee_config e) else []).
  change (json_obj_str _ (lit "config")) with cfg.
  assert (Hcfg : (if (0 <? length cfg)%nat then base64_decode cfg else []) = ee_config e).
  { unfold cfg. destruct (ee_config e) as [|x c]; [done|]. change (0 <? length (x :: c))%nat with true. cbv iota.
    rewrite base64_encode_length. rewrite (proj2 (Nat.ltb_lt _ _)) by (cbn [length]; ndivmod).
    by apply base64_decode_encode. }
  rewrite Hcfg. unfold persist_put_ech. rewrite find_entry_absent by done. rewrite (proj2 (Nat.leb_gt _ _)) by done.
  rewrite store_origin_valid by done. unfold ttl_left. rewrite (proj2 (Z.ltb_lt _ _)) by lia.
  rewrite wrap64_ttl by (done || lia). rewrite take_ge by lia. done.
Qed.

(** *** TLS sessions *)

Section tls.
Context {SSL_SESSION : Type} (to_bytes : SSL_SESSION -> option bytes) (from_bytes : bytes -> option SSL_SESSION).

(** A TLS session that is written is read back. *)
Definition session_bytes_law : Prop :=
  forall s der, to_bytes s = Some der -> bytes_ok der /\ from_bytes der = Some s.

Definition resume_carried (now' : Z) (e : ResumeCacheEntry SSL_SESSION) : ResumeCacheEntry SSL_SESSION :=
  mkResume (re_origin e) (re_session e) (re_zrtt_tp e) now'.

Definition resume_entry_ok (e : ResumeCacheEntry SSL_SESSION) : Prop :=
  usable_origin (re_origin e) /\ bytes_ok (re_zrtt_tp e) /\ (length (re_zrtt_tp e) <= 256)%nat.

Lemma resume_put_fresh acc o (s : SSL_SESSION) now :
  o ∉ (re_origin <$> acc) -> valid_origin o -> (length acc < RESUME_CACHE_CAP)%nat ->
  resume_cache_put acc o s now = acc ++ [mkResume o (Some s) [] now].
Proof.
  intros Ho Hv Hl. unfold resume_cache_put, resume_cache_slot, claim_slot.
  rewrite find_entry_absent, (proj2 (Nat.ltb_lt _ _)), store_origin_valid by done.
  by rewrite !alter_middle.
Qed.

Lemma resume_put_tp_last (acc : list (ResumeCacheEntry SSL_SESSION)) o s (tp tp' : bytes) now now0 :
  o ∉ (re_origin <$> acc) -> (length tp <= 256)%nat ->
  resume_cache_put_tp (acc ++ [mkResume o s tp' now0]) o tp now = acc ++ [mkResume o s tp now].
Proof.
  intros Ho Ht. unfold resume_cache_put_tp, resume_cache_slot, claim_slot.
  rewrite (find_entry_last (re_origin) acc (mkResume o s tp' now0) Ho : find_entry _ _ o = _).
  rewrite bool_decide_true by done. cbn [negb]. rewrite andb_false_r.
  rewrite !alter_middle, take_ge by lia. done.
Qed.

Lemma base64_encode_nonempty s : s <> [] -> (length (base64_encode s) =? 0)%nat = false.
Proof.
  intros Hs. rewrite base64_encode_length. destruct s as [|x s]; [done|]. apply Nat.eqb_neq. cbn [length]. ndivmod.
Qed.

Lemma restore_tls_item now' acc e j :
  session_bytes_law -> resume_entry_ok e -> tls_session_json to_bytes e = Some j ->
  re_origin e ∉ (re_origin <$> acc) -> (length acc < RESUME_CACHE_CAP)%nat ->
  restore_tls from_bytes now' acc j = acc ++ [resume_carried now' e].
Proof.
  intros Hlaw ([Hv Hne] & Hb & Ht) Hj Hin Hl. unfold tls_session_json in Hj.
  destruct (re_session e) as [s|] eqn:Es; [|done]. destruct (to_bytes s) as [der|] eqn:Ed; [|done].
  destruct (Hlaw _ _ Ed) as [Hdb Hfrom].
  destruct (Nat.eqb_spec (length der) 0) as [|Hdl]; [done|]. assert (Hdn : der <> []) by (by intros ->).
  rewrite base64_encode_nonempty in Hj by done.
  set (ztp := if (0 <? length (re_zrtt_tp e))%nat then base64_encode (re_zrtt_tp e) else []).
  assert (Hfields : json_obj_str (Some j) (lit "origin") = re_origin e /\
    json_obj_str (Some j) (lit "ticket") = base64_encode der /\ json_obj_str (Some j) (lit "zrtt_tp") = ztp).
  { unfold ztp. destruct (re_zrtt_tp e) as [|x tp]; injection Hj as <-; [done|].
    change (0 <? length (x :: tp))%nat with true. cbv iota.
    rewrite (proj2 (Nat.ltb_lt _ _)); [done|]. rewrite base64_encode_length. cbn [length]. ndivmod. }
  destruct Hfields as (Ho & Hk & Hz). unfold restore_tls. rewrite Ho, Hk, Hz.
  rewrite length_nonzero, base64_encode_nonempty, base64_decode_encode, length_nonzero, Hfrom by done. cbn [orb].
  rewrite resume_put_fresh by done. unfold resume_carried. rewrite Es.
  unfold ztp. destruct (re_zrtt_tp e) as [|x tp]; [done|].
  change (0 <? length (x :: tp))%nat with true. cbv iota.
  rewrite base64_decode_encode by done. rewrite (proj2 (Nat.ltb_lt 0 (length (base64_encode _)))).
  2:{ rewrite base64_encode_length. cbn [length]. ndivmod. }
  change (0 <? length (x :: tp))%nat with true. cbv iota. by apply resume_put_tp_last.
Qed.

(** Which entries are carried over. *)
Lemma tls_session_json_some e :
  is_Some (tls_session_json to_bytes e) <->
  exists s der, re_session e = Some s /\ to_bytes s = Some der /\ der <> [].
Proof.
  unfold tls_session_json. destruct (re_session e) as [s|]; [|split; [by intros [? ?]|by intros (? & ? & ? & _)]].
  destruct (to_bytes s) as [der|] eqn:E; [|split; [by intros [? ?]|intros (? & ? & [= <-] & ? & _); congruence]].
  destruct der as [|x der].
  { simpl. split; [by intros [? ?]|]. intros (? & ? & [= <-] & Hd & Hn). rewrite E in Hd. by injection Hd as <-. }
  change (length (x :: der) =? 0)%nat with false. cbv iota. rewrite base64_encode_nonempty by done.
  split; [intros _; by exists s, (x :: der)|]. by eexists.
Qed.

End tls.

(** *** Cookies *)

Definition cookie_ok (c : Cookie) : Prop :=
  c_name c <> [] /\ u64_ok (c_expires_epoch c) /\ is_byte (c_same_site c).

Lemma restore_cookie_item jar c :
  cookie_ok c -> restore_cookie jar (cookie_json c) = cookie_jar_put jar c.
Proof.
  intros (Hn & He & Hs). unfold restore_cookie.
  change (json_obj_str _ (lit "name")) with (c_name c). rewrite length_nonzero by done. f_equal.
  change (yyjson_get_uint (yyjson_obj_get _ (lit "expires"))) with (wrap64 (c_expires_epoch c)).
  change (yyjson_get_uint (yyjson_obj_get _ (lit "same_site"))) with (wrap64 (c_same_site c)).
  unfold u64_ok, U64_MAX, is_byte in *. unfold wrap8, wrap64. rewrite !Z.mod_small by (rewrite ?Z.mod_small; lia).
  by destruct c.
Qed.

Lemma restore_cookies_rep cs jar l :
  jar_rep jar l -> Forall cookie_ok cs -> NoDup (cookie_key <$> l ++ cs) ->
  Z.of_nat (length (l ++ cs)) <= j_max_cookies jar ->
  jar_rep (foldl restore_cookie jar (cookie_json <$> cs)) (l ++ cs).
Proof.
  intros Hr Hc. revert jar l Hr. induction Hc as [|c cs Hc _ IH]; intros jar l Hr Hnd Hlen; [by rewrite app_nil_r|].
  rewrite fmap_cons. cbn [foldl]. rewrite restore_cookie_item by done.
  destruct (cookie_jar_put_rep jar l c Hr) as [Hr' Hm].
  assert (Hnf : list_find (fun c' => cookie_key c' = cookie_key c) l = None).
  { apply list_find_None. apply Forall_forall. intros x Hx Hk. rewrite fmap_app, fmap_cons in Hnd.
    apply NoDup_app in Hnd as (_ & Hd & _). apply (Hd (cookie_key c)); [|apply elem_of_cons; by left].
    rewrite <-Hk. by apply list_elem_of_fmap_2. }
  unfold put_list in Hr'. rewrite Hnf in Hr'. rewrite length_app in Hlen. simpl in Hlen.
  rewrite (proj2 (Z.leb_gt _ _)) in Hr' by lia. rewrite cons_middle, app_assoc.
  apply IH; [done|by rewrite <-app_assoc|]. rewrite Hm, !length_app. simpl. lia.
Qed.

(** ** The document *)

Definition json_text_law (json_write : bool -> json -> option bytes) (json_parse : bytes -> option json) : Prop :=
  forall pretty v out, json_ok v = true -> json_write pretty v = Some out -> json_parse out = Some v.

Lemma json_ok_omap {E} (f : E -> option json) (l : list E) :
  (forall e v, e ∈ l -> f e = Some v -> json_ok v = true) -> json_ok (JArr (omap f l)) = true.
Proof.
  intros H. cbn [json_ok]. apply forallb_forall. intros v Hv. apply list_elem_of_In, list_elem_of_omap in Hv as (e & He & Hf).
  by eapply H.
Qed.

Lemma ttl_json_ok expiry now : 0 <= now -> u64_ok expiry -> json_ok (JInt (ttl_left expiry now)) = true.
Proof.
  intros Hn He. unfold u64_ok, U64_MAX in He. cbn [json_ok]. unfold ttl_left.
  destruct (Z.ltb_spec now expiry); apply andb_true_iff; rewrite Z.leb_le, Z.ltb_lt; lia.
Qed.

Section snapshot.
Context {SSL_SESSION : Type} (to_bytes : SSL_SESSION -> option bytes) (from_bytes : bytes -> option SSL_SESSION).
Context (json_write : bool -> json -> option bytes) (json_parse : bytes -> option json).
Context (Htext : json_text_law json_write json_parse) (Hssl : session_bytes_law to_bytes from_bytes).

(** The state a snapshot is taken of: tables with unique origins within their
    capacity, clocks and expiries 64-bit. *)
Definition client_ok (c : Client (SSL_SESSION := SSL_SESSION)) : Prop :=
  0 <= cl_now c /\
  table_ok re_origin RESUME_CACHE_CAP (cl_resume c) /\ Forall resume_entry_ok (cl_resume c) /\
  table_ok ae_origin ALT_SVC_CAP (cl_alt_svc c) /\
  Forall (fun e => usable_origin (ae_origin e) /\ u64_ok (ae_expiry_ms e)) (cl_alt_svc c) /\
  table_ok ee_origin ECH_CACHE_CAP (cl_ech c) /\
  Forall (fun e => usable_origin (ee_origin e) /\ u64_ok (ee_expiry_ms e) /\ bytes_ok (ee_config e) /\
                   (length (ee_config e) <= 512)%nat) (cl_ech c).
Definition jar_ok (jar : CookieJar) : Prop :=
  ga_wf (j_v jar) /\ NoDup (cookie_key <$> jar_list jar) /\ Forall cookie_ok (jar_list jar).

Definition snapshot_root (jar : CookieJar) (c : Client (SSL_SESSION := SSL_SESSION)) : list (bytes * json) :=
  (lit "version", JInt HOLYTLS_PERSIST_VERSION) :: persist_build_client to_bytes c ++ persist_build_cookies jar.

Lemma snapshot_json_ok jar c : client_ok c -> jar_ok jar -> json_ok (JObj (snapshot_root jar c)) = true.
Proof.
  intros (Hn & _ & _ & _ & Ha & _ & He) (_ & _ & Hc). rewrite Forall_forall in Ha. rewrite Forall_forall in He. rewrite Forall_forall in Hc.
  unfold snapshot_root, persist_build_client, persist_build_cookies. cbn [json_ok app forallb snd].
  assert (H1 : json_ok (JArr (omap (tls_session_json to_bytes) (cl_resume c))) = true).
  { apply json_ok_omap. intros e v _. unfold tls_session_json. repeat case_match; intros [= <-]; done. }
  assert (H2 : json_ok (JArr (omap (alt_svc_json (cl_now c)) (cl_alt_svc c))) = true).
  { apply json_ok_omap. intros e v Hin. unfold alt_svc_json. destruct (_ =? 0); [done|]. intros [= <-].
    pose proof (ttl_json_ok (ae_expiry_ms e) (cl_now c) Hn (proj2 (Ha e Hin))) as Ht. cbn [json_ok forallb snd] in *.
    by rewrite Ht. }
  assert (H3 : json_ok (JArr (omap (ech_json (cl_now c)) (cl_ech c))) = true).
  { apply json_ok_omap. intros e v Hin. unfold ech_json. destruct (_ =? 0); [done|]. intros [= <-].
    pose proof (ttl_json_ok (ee_expiry_ms e) (cl_now c) Hn (proj1 (proj2 (He e Hin)))) as Ht. cbn [json_ok forallb snd] in *.
    by rewrite Ht. }
  assert (H4 : json_ok (JArr (cookie_json <$> jar_list jar)) = true).
  { cbn [json_ok]. apply forallb_forall. intros v Hv. apply list_elem_of_In, list_elem_of_fmap in Hv as (ck & -> & Hin).
    destruct (Hc ck Hin) as (_ & Hx & Hs). unfold u64_ok, U64_MAX, is_byte in *. unfold cookie_json. cbn [json_ok forallb snd].
    rewrite !(proj2 (Z.leb_le _ _)), !(proj2 (Z.ltb_lt _ _)) by lia. done. }
  cbn [json_ok] in H1, H2, H3, H4. by rewrite H1, H2, H3, H4.
Qed.

Lemma open_snapshot jar c pretty :
  client_ok c -> jar_ok jar -> session_marshal to_bytes json_write (Some jar) (Some c) pretty <> [] ->
  persist_open json_parse (session_marshal to_bytes json_write (Some jar) (Some c) pretty) =
  Some (JObj (snapshot_root jar c)).
Proof.
  intros Hc Hj Hne. unfold session_marshal, json_mut_write in *.
  change ([(lit "version", JInt HOLYTLS_PERSIST_VERSION)] ++ persist_build_client to_bytes c) with
    ((lit "version", JInt HOLYTLS_PERSIST_VERSION) :: persist_build_client to_bytes c) in *.
  rewrite <-app_comm_cons in *. fold (snapshot_root jar c) in *.
  destruct (json_write pretty _) as [out|] eqn:Ew; [|done].
  unfold persist_open. rewrite (Htext _ _ _ (snapshot_json_ok jar c Hc Hj) Ew). done.
Qed.

Lemma restored_client c jar now' :
  client_ok c ->
  let c' := persist_restore_client from_bytes (mkClient now' true [] [] []) (JObj (snapshot_root jar c)) in
  cl_resume c' = resume_carried now' <$> filter (fun e => is_Some (tls_session_json to_bytes e)) (cl_resume c) /\
  cl_alt_svc c' = alt_rebased (cl_now c) now' <$> filter (fun e => cl_now c < ae_expiry_ms e) (cl_alt_svc c) /\
  cl_ech c' = ech_rebased (cl_now c) now' <$> filter (fun e => cl_now c < ee_expiry_ms e) (cl_ech c).
Proof.
  intros (Hn & [Hr1 Hr2] & Hr3 & [Ha1 Ha2] & Ha3 & [He1 He2] & He3) c'. unfold c', persist_restore_client.
  cbn [cl_ctx cl_now cl_resume cl_alt_svc cl_ech].
  change (json_items _ (lit "tls_sessions")) with (omap (tls_session_json to_bytes) (cl_resume c)).
  change (json_items _ (lit "alt_svc")) with (omap (alt_svc_json (cl_now c)) (cl_alt_svc c)).
  change (json_items _ (lit "ech")) with (omap (ech_json (cl_now c)) (cl_ech c)).
  split; [|split].
  - rewrite (foldl_carry re_origin RESUME_CACHE_CAP resume_entry_ok _ (resume_carried now')); try done.
    intros acc e j. by apply restore_tls_item.
  - rewrite (foldl_carry ae_origin ALT_SVC_CAP (fun e => usable_origin (ae_origin e) /\ u64_ok (ae_expiry_ms e))
      _ (alt_rebased (cl_now c) now')); try done.
    + cbn [app]. f_equal. apply list_filter_iff. intros e. unfold alt_svc_json. rewrite ttl_left_0.
      case_bool_decide; [split; [by intros [? ?]|done]|]. split; [intros _; lia|by eexists].
    + intros acc e j. by apply restore_alt_item.
  - rewrite (foldl_carry ee_origin ECH_CACHE_CAP (fun e => usable_origin (ee_origin e) /\ u64_ok (ee_expiry_ms e) /\
      bytes_ok (ee_config e) /\ (length (ee_config e) <= 512)%nat) _ (ech_rebased (cl_now c) now')); try done.
    + cbn [app]. f_equal. apply list_filter_iff. intros e. unfold ech_json. rewrite ttl_left_0.
      case_bool_decide; [split; [by intros [? ?]|done]|]. split; [intros _; lia|by eexists].
    + intros acc e j. by apply restore_ech_item.
Qed.

End snapshot.

(** ** Properties *)

(** C24. A snapshot restores the identity: marshalling a session and a client
    and unmarshalling the text into a fresh session and client succeeds, gives
    back exactly the cookies, the Alt-Svc and ECH entries that had not expired,
    with the time they had left counted from the new clock, and the TLS
    sessions that can be serialised with their 0-RTT parameters. It holds
    whenever the document could be written. *)
Theorem session_snapshot_roundtrip {SSL_SESSION} (to_bytes : SSL_SESSION -> option bytes)
    (from_bytes : bytes -> option SSL_SESSION) (json_write : bool -> json -> option bytes)
    (json_parse : bytes -> option json) (jar jar0 : CookieJar) (c : Client) (now' : Z) (pretty : bool) :
  json_text_law json_write json_parse -> session_bytes_law to_bytes from_bytes ->
  client_ok c -> jar_ok jar -> jar_rep jar0 [] -> Z.of_nat (length (jar_list jar)) <= j_max_cookies jar0 ->
  let text := session_marshal to_bytes json_write (Some jar) (Some c) pretty in
  text <> [] ->
  exists jar' c',
    session_unmarshal from_bytes json_parse (Some jar0) (Some (mkClient now' true [] [] [])) text =
      (true, Some jar', Some c') /\
    jar_list jar' = jar_list jar /\
    cl_alt_svc c' = alt_rebased (cl_now c) now' <$> filter (fun e => cl_now c < ae_expiry_ms e) (cl_alt_svc c) /\
    cl_ech c' = ech_rebased (cl_now c) now' <$> filter (fun e => cl_now c < ee_expiry_ms e) (cl_ech c) /\
    cl_resume c' = resume_carried now' <$> filter (fun e => is_Some (tls_session_json to_bytes e)) (cl_resume c).
Proof.
  intros Htext Hssl Hc Hj Hj0 Hmax text Hne. unfold session_unmarshal.
  pose proof (open_snapshot to_bytes json_write json_parse Htext jar c pretty Hc Hj Hne) as Ho.
  fold text in Ho. rewrite Ho.
  destruct (restored_client to_bytes from_bytes Hssl c jar now' Hc) as (H1 & H2 & H3).
  eexists _, _. split; [reflexivity|]. split; [|done]. destruct Hj as (_ & Hnd & Hck).
  unfold persist_restore_cookies. change (json_items _ (lit "cookies")) with (cookie_json <$> jar_list jar).
  apply jar_rep_list. by apply (restore_cookies_rep (jar_list jar) jar0 []).
Qed.

Definition demo_cookie : Cookie :=
  mkCookie (lit "sid") (lit "1") (lit "a.example") (lit "/") 0 true true false 2.
Definition demo_jar : CookieJar := cookie_jar_put cookie_jar_init demo_cookie.
Definition demo_client : Client (SSL_SESSION := bytes) :=
  mkClient 1000 true [mkResume (lit "a.example:443") (Some [1; 2]) [9] 5]
    [mkAltEntry (lit "a.example:443") true 5000; mkAltEntry (lit "b.example:443") true 900]
    [mkEch (lit "a.example:443") [7; 7] 2000].
Definition demo_to_bytes (s : bytes) : option bytes := if bool_decide (bytes_ok s) then Some s else None.
Definition demo_doc : json := JObj (snapshot_root demo_to_bytes demo_jar demo_client).
Definition demo_write (pretty : bool) (v : json) : option bytes := if json_eqb v demo_doc then Some [7] else None.
Definition demo_read (t : bytes) : option json := if bool_decide (t = [7]) then Some demo_doc else None.

Lemma demo_text_law : json_text_law demo_write demo_read.
Proof.
  intros pretty v out _. unfold demo_write. destruct (json_eqb v demo_doc) eqn:E; [|done].
  intros [= <-]. apply json_eqb_eq in E as ->. done.
Qed.

Lemma demo_session_law : session_bytes_law demo_to_bytes Some.
Proof. intros s der. unfold demo_to_bytes. case_bool_decide; [|done]. by intros [= <-]. Qed.

Lemma demo_client_ok : client_ok demo_client.
Proof.
  unfold client_ok, table_ok, usable_origin, valid_origin, resume_entry_ok, u64_ok, U64_MAX, demo_client.
  cbn [cl_now cl_resume cl_alt_svc cl_ech]. split; [lia|].
  assert (Hc : forall (l : list bytes), bool_decide (NoDup l) = true -> NoDup l) by (intros l H; by apply bool_decide_eq_true in H).
  assert (Ho : forall o, bool_decide ((length o <= 255)%nat /\ 0 ∉ o) && bool_decide (o <> []) = true -> usable_origin o).
  { intros o H. apply andb_true_iff in H as [H1 H2]. by apply bool_decide_eq_true in H1, H2. }
  assert (Hb : forall b, bool_decide (bytes_ok b) = true -> bytes_ok b) by (intros b H; by apply bool_decide_eq_true in H).
  repeat match goal with
  | |- _ /\ _ => split
  | |- Forall _ [] => constructor
  | |- Forall _ (_ :: _) => constructor
  | |- NoDup _ => apply Hc; vm_compute; reflexivity
  | |- usable_origin _ => apply Ho; vm_compute; reflexivity
  | |- bytes_ok _ => apply Hb; vm_compute; reflexivity
  | |- (_ <= _)%nat => vm_compute; lia
  | |- _ <> [] => discriminate
  | |- 0 ∉ _ => apply (bool_decide_unpack _); vm_compute; reflexivity
  | |- _ => cbn; lia
  end.
Qed.

Lemma demo_jar_ok : jar_ok demo_jar.
Proof.
  assert (Hr : jar_rep demo_jar [demo_cookie]).
  { apply (cookie_jar_put_rep cookie_jar_init [] demo_cookie). apply ga_empty_rep. }
  unfold jar_ok. rewrite (jar_rep_list _ _ Hr). split; [by eapply ga_rep_wf|]. split; [apply NoDup_singleton|].
  constructor; [|constructor]. split; [done|]. split; [|unfold is_byte; simpl; lia].
  unfold u64_ok, U64_MAX. simpl. lia.
Qed.

Lemma session_snapshot_roundtrip_witness :
  exists jar' c',
    session_unmarshal Some demo_read (Some cookie_jar_init) (Some (mkClient 40 true [] [] []))
      (session_marshal demo_to_bytes demo_write (Some demo_jar) (Some demo_client) false) = (true, Some jar', Some c') /\
    jar_list jar' = [demo_cookie] /\
    cl_alt_svc c' = [mkAltEntry (lit "a.example:443") true 4040].
Proof.
  destruct (session_snapshot_roundtrip demo_to_bytes Some demo_write demo_read demo_jar cookie_jar_init demo_client 40 false
    demo_text_law demo_session_law demo_client_ok demo_jar_ok ga_empty_rep ltac:(vm_compute; discriminate) ltac:(vm_compute; discriminate))
    as (jar' & c' & Hu & Hj & Ha & _).
  exists jar', c'. split; [exact Hu|]. split; [rewrite Hj; vm_compute; reflexivity|]. rewrite Ha. vm_compute. reflexivity.
Defined.
