(* ===== verification/Ja4.v ===== *)
(** * JA3 and JA4 fingerprints: tls/ja4.c

    The bounds-checked cursor over a ClientHello, the parser of TLS records and
    of raw handshake messages, and the fingerprint strings. The bounded arrays
    of [ClientHelloInfo] are lists of at most their capacity. [SHA256] and
    [MD5] are BoringSSL's and are parameters; [qsort] with the total order
    [cmp_u16] is the sorted permutation. *)
From stdpp Require Import sorting.
From S2P Require Import Prelude String8.

(** ** The cursor *)

Record Cursor := mkCur { cur_rest : bytes; cur_ok : bool }.

Definition cur_remaining (c : Cursor) : nat := if cur_ok c then length (cur_rest c) else 0%nat.

Definition cur_u8 (c : Cursor) : Z * Cursor :=
  if (cur_remaining c <? 1)%nat then (0, mkCur (cur_rest c) false)
  else match cur_rest c with
       | x :: r => (x, mkCur r (cur_ok c))
       | [] => (0, mkCur [] false)
       end.

Definition cur_u16 (c : Cursor) : Z * Cursor :=
  if (cur_remaining c <? 2)%nat then (0, mkCur (cur_rest c) false)
  else match cur_rest c with
       | x :: y :: r => (wrap16 (Z.lor (Z.shiftl x 8) y), mkCur r (cur_ok c))
       | _ => (0, mkCur [] false)
       end.

Definition cur_u24 (c : Cursor) : Z * Cursor :=
  if (cur_remaining c <? 3)%nat then (0, mkCur (cur_rest c) false)
  else match cur_rest c with
       | x :: y :: z :: r => (Z.lor (Z.lor (wrap32 (Z.shiftl x 16)) (wrap32 (Z.shiftl y 8))) z, mkCur r (cur_ok c))
       | _ => (0, mkCur [] false)
       end.

Definition cur_skip (c : Cursor) (n : Z) : Cursor :=
  if Z.of_nat (cur_remaining c) <? n then mkCur [] false
  else mkCur (drop (Z.to_nat n) (cur_rest c)) (cur_ok c).

(** A cursor over at most the next [n] bytes. *)
Definition cur_sub (c : Cursor) (n : Z) : Cursor :=
  let cap := if n <? Z.of_nat (cur_remaining c) then Z.to_nat n else cur_remaining c in
  mkCur (take cap (cur_rest c)) true.

(** ** Hashes *)

Definition ja4_is_grease (v : Z) : bool :=
  (Z.land v 3855 =? 2570) && (Z.shiftr v 8 =? Z.land v 255).     (* 0x0f0f, 0x0a0a *)

Section hashes.
Context (SHA256 MD5 : bytes -> bytes).

Fixpoint hex_prefix (d : bytes) (n i : nat) : bytes :=
  match n with
  | O => []
  | S n' =>
      let b := nth (i / 2) d 0 in
      hex_digit_lower (if (i mod 2 =? 1)%nat then Z.land b 15 else Z.shiftr b 4) :: hex_prefix d n' (S i)
  end.

Definition ja4_sha256_hex (s : bytes) (hex_chars : nat) : bytes :=
  let d := SHA256 s in
  let n := if (hex_chars <? 64)%nat then hex_chars else 64%nat in
  hex_prefix d n 0.

Definition md5_hex (s : bytes) : bytes := hex_encode (MD5 s).

(** ** Parsing *)

Definition JA4_MAX_CIPHERS : nat := 128.
Definition JA4_MAX_EXTS : nat := 128.
Definition JA4_MAX_GROUPS : nat := 64.
Definition JA4_MAX_ECPF : nat := 32.
Definition JA4_MAX_SV : nat := 32.
Definition JA4_MAX_SIGALGS : nat := 64.
Definition JA4_MAX_ALPN : nat := 32.

Record ClientHelloInfo := mkInfo {
  ci_ok : bool;
  ci_transport : Z;
  ci_legacy_version : Z;
  ci_ciphers : bytes;
  ci_exts : bytes;
  ci_groups : bytes;
  ci_ecpf : bytes;
  ci_versions : bytes;
  ci_sigs : bytes;
  ci_has_sni : bool;
  ci_alpn : bytes
}.

(** [if (count < max) arr[count++] = v;] *)
Definition push_max (max : nat) (l : bytes) (v : Z) : bytes := if (length l <? max)%nat then l ++ [v] else l.

(** [for (i = 0; i + 1 < len; i += 2)]: [len / 2] rounds, each reading a U16. *)
Fixpoint read_u16s (rounds max : nat) (c : Cursor) (acc : bytes) : bytes * Cursor :=
  match rounds with
  | O => (acc, c)
  | S r => let '(v, c) := cur_u16 c in read_u16s r max c (push_max max acc v)
  end.
Fixpoint read_u8s (rounds max : nat) (c : Cursor) (acc : bytes) : bytes * Cursor :=
  match rounds with
  | O => (acc, c)
  | S r => let '(v, c) := cur_u8 c in read_u8s r max c (push_max max acc v)
  end.
(** [for (j = 0; j < plen && ed.ok; ++j)] *)
Fixpoint read_alpn (rounds : nat) (c : Cursor) (acc : bytes) : bytes :=
  match rounds with
  | O => acc
  | S r => if cur_ok c then let '(v, c) := cur_u8 c in read_alpn r c (push_max JA4_MAX_ALPN acc v) else acc
  end.

Definition half (n : Z) : nat := Z.to_nat (n / 2).

Definition parse_extension (type : Z) (ed : Cursor) (i : ClientHelloInfo) : ClientHelloInfo :=
  let '(mkInfo ok tr lv cs es gs pf vs sg sni al) := i in
  match type with
  | 0 => mkInfo ok tr lv cs es gs pf vs sg true al
  | 10 => let '(l, ed) := cur_u16 ed in mkInfo ok tr lv cs es (fst (read_u16s (half l) JA4_MAX_GROUPS ed gs)) pf vs sg sni al
  | 11 => let '(l, ed) := cur_u8 ed in mkInfo ok tr lv cs es gs (fst (read_u8s (Z.to_nat l) JA4_MAX_ECPF ed pf)) vs sg sni al
  | 13 => let '(l, ed) := cur_u16 ed in mkInfo ok tr lv cs es gs pf vs (fst (read_u16s (half l) JA4_MAX_SIGALGS ed sg)) sni al
  | 16 =>
      let '(_, ed) := cur_u16 ed in
      let '(plen, ed) := cur_u8 ed in
      mkInfo ok tr lv cs es gs pf vs sg sni (read_alpn (Z.to_nat plen) ed al)
  | 43 => let '(l, ed) := cur_u8 ed in mkInfo ok tr lv cs es gs pf (fst (read_u16s (half l) JA4_MAX_SV ed vs)) sg sni al
  | _ => i
  end.

Definition push_ext (type : Z) (i : ClientHelloInfo) : ClientHelloInfo :=
  let '(mkInfo ok tr lv cs es gs pf vs sg sni al) := i in
  mkInfo ok tr lv cs (push_max JA4_MAX_EXTS es type) gs pf vs sg sni al.

(** [while (cur_remaining(&exts) >= 4)]: every round consumes at least four
    bytes or ends the cursor, so the length of the block is enough fuel. *)
Fixpoint parse_exts (fuel : nat) (exts : Cursor) (i : ClientHelloInfo) : ClientHelloInfo :=
  match fuel with
  | O => i
  | S fuel' =>
      if (4 <=? cur_remaining exts)%nat then
        let '(type, exts) := cur_u16 exts in
        let '(elen, exts) := cur_u16 exts in
        let ed := cur_sub exts elen in
        let exts := cur_skip exts elen in
        parse_exts fuel' exts (parse_extension type ed (push_ext type i))
      else i
  end.

Definition parse_ch_body (ch : Cursor) (i : ClientHelloInfo) : ClientHelloInfo :=
  let '(mkInfo ok tr lv cs es gs pf vs sg sni al) := i in
  let '(lv, ch) := cur_u16 ch in
  let ch := cur_skip ch 32 in
  let '(sid, ch) := cur_u8 ch in
  let ch := cur_skip ch sid in
  let '(cs_len, ch) := cur_u16 ch in
  let '(cs, ch) := read_u16s (half cs_len) JA4_MAX_CIPHERS ch cs in
  let '(comp, ch) := cur_u8 ch in
  let ch := cur_skip ch comp in
  let i := mkInfo ok tr lv cs es gs pf vs sg sni al in
  let '(i, ch) :=
    if (2 <=? cur_remaining ch)%nat then
      let '(ext_total, ch) := cur_u16 ch in
      let exts := cur_sub ch ext_total in
      (parse_exts (length (cur_rest exts)) exts i, ch)
    else (i, ch) in
  let '(mkInfo _ tr lv cs es gs pf vs sg sni al) := i in
  mkInfo (cur_ok ch) tr lv cs es gs pf vs sg sni al.

Definition info_zero (transport : Z) : ClientHelloInfo := mkInfo false transport 0 [] [] [] [] [] [] false [].

Definition parse_handshake_from (hs : Cursor) (info : ClientHelloInfo) : ClientHelloInfo :=
  let '(ty, hs) := cur_u8 hs in
  if negb (ty =? 1) then info
  else
    let '(ch_len, hs) := cur_u24 hs in
    parse_ch_body (cur_sub hs ch_len) info.

Definition ja4_parse_record (rec : bytes) : ClientHelloInfo :=
  let info := info_zero 116 in     (* 't' *)
  let c := mkCur rec true in
  let '(ty, c) := cur_u8 c in
  if negb (ty =? 22) then info
  else
    let '(_, c) := cur_u16 c in
    let '(rec_len, c) := cur_u16 c in
    parse_handshake_from (cur_sub c rec_len) info.

Definition ja4_parse_handshake (hs_msg : bytes) : ClientHelloInfo :=
  parse_handshake_from (mkCur hs_msg true) (info_zero 113).     (* 'q' *)

(** ** The fingerprints *)

Definition hex4 (x : Z) : bytes :=
  [hex_digit_lower (wrap8 (Z.shiftr x 12)); hex_digit_lower (wrap8 (Z.shiftr x 8));
   hex_digit_lower (wrap8 (Z.shiftr x 4)); hex_digit_lower (wrap8 x)].
Fixpoint join_hex_from (first : bool) (v : bytes) : bytes :=
  match v with
  | [] => []
  | x :: v' => (if first then [] else [ch_comma]) ++ hex4 x ++ join_hex_from false v'
  end.
Definition join_hex (v : bytes) : bytes := if (length v =? 0)%nat then [] else join_hex_from true v.

Definition join_dec (v : bytes) : bytes :=
  let sl := fold_left (fun sl x => str8_list_push sl (pct_u x)) v str8_list_empty in
  omap id (str8_list_join sl (lit "-")).

Fixpoint filter_grease_u16 (v : bytes) : bytes :=
  match v with
  | [] => []
  | x :: v' => if negb (ja4_is_grease x) then x :: filter_grease_u16 v' else filter_grease_u16 v'
  end.

Definition qsort_u16 (v : bytes) : bytes := merge_sort Z.le v.

Fixpoint max_version (ver : Z) (vs : bytes) : Z :=
  match vs with
  | [] => ver
  | v :: vs' => max_version (if negb (ja4_is_grease v) && (ver <? v) then v else ver) vs'
  end.
Definition version_tag (ver : Z) : bytes :=
  match ver with
  | 772 => lit "13" | 771 => lit "12" | 770 => lit "11" | 769 => lit "10" | 768 => lit "s3"
  | _ => lit "00"
  end.

Definition alpn_tag (alpn : bytes) : bytes :=
  match alpn with
  | [] => lit "00"
  | a :: _ => [a; nth (length alpn - 1) alpn 0]
  end.

Definition count2 (n : nat) : bytes := str8_from_u64 (Z.of_nat (if (n <? 99)%nat then n else 99%nat)) 10 2.

Record Fingerprints := mkFp { fp_ja4 : bytes; fp_ja4_r : bytes; fp_ja3 : bytes; fp_ja3_str : bytes }.

Definition ja4_compute (i : ClientHelloInfo) : Fingerprints :=
  let ciphers := filter_grease_u16 (ci_ciphers i) in
  let exts_all := filter_grease_u16 (ci_exts i) in
  let sigs := filter_grease_u16 (ci_sigs i) in
  let groups := filter_grease_u16 (ci_groups i) in
  let vs := version_tag (max_version (ci_legacy_version i) (ci_versions i)) in
  let counts := count2 (length ciphers) ++ count2 (length exts_all) in
  let ja4_a := [ci_transport i] ++ vs ++ [if ci_has_sni i then 100 else 105] ++ pct_s counts ++ pct_s (alpn_tag (ci_alpn i)) in
  let b_raw := join_hex (qsort_u16 ciphers) in
  let ja4_b := if (length ciphers =? 0)%nat then lit "000000000000" else ja4_sha256_hex b_raw 12 in
  let exts_c := filter (fun x => x <> 0 /\ x <> 16) exts_all in
  let exts_c_hex := join_hex (qsort_u16 exts_c) in
  let sigs_hex := join_hex sigs in
  let c_raw := pct_s exts_c_hex ++ lit "_" ++ pct_s sigs_hex in
  let ja4_c := ja4_sha256_hex c_raw 12 in
  let ja3_str := pct_u (ci_legacy_version i) ++ lit "," ++ pct_s (join_dec ciphers) ++ lit "," ++ pct_s (join_dec exts_all) ++
                 lit "," ++ pct_s (join_dec groups) ++ lit "," ++ pct_s (join_dec (ci_ecpf i)) in
  mkFp (pct_s ja4_a ++ lit "_" ++ pct_s ja4_b ++ lit "_" ++ pct_s ja4_c)
       (pct_s ja4_a ++ lit "_" ++ pct_s b_raw ++ lit "_" ++ pct_s c_raw)
       (md5_hex ja3_str) ja3_str.

End hashes.

(** ** ClientHello messages *)

Definition is_u16 (v : Z) : Prop := 0 <= v < 2 ^ 16.
Definition u16b (v : Z) : bytes := [v / 256; v mod 256].
Definition u16s (vs : bytes) : bytes := concat (u16b <$> vs).
Definition u24b (v : Z) : bytes := [v / 65536; v / 256 mod 256; v mod 256].

Inductive extension :=
| ESni (body : bytes)
| EGroups (gs : bytes)
| EPoints (ps : bytes)
| ESigs (ss : bytes)
| EAlpn (first more : bytes)
| EVersions (vs : bytes)
| EOther (type : Z) (body : bytes).

Definition ext_type (e : extension) : Z :=
  match e with
  | ESni _ => 0 | EGroups _ => 10 | EPoints _ => 11 | ESigs _ => 13 | EAlpn _ _ => 16 | EVersions _ => 43
  | EOther t _ => t
  end.
Definition ext_body (e : extension) : bytes :=
  match e with
  | ESni b => b
  | EGroups gs => u16b (2 * zlen gs) ++ u16s gs
  | EPoints ps => zlen ps :: ps
  | ESigs ss => u16b (2 * zlen ss) ++ u16s ss
  | EAlpn first more => u16b (1 + zlen first + zlen more) ++ zlen first :: first ++ more
  | EVersions vs => 2 * zlen vs :: u16s vs
  | EOther _ b => b
  end.
Definition ext_ok (e : extension) : Prop :=
  is_u16 (ext_type e) /\ zlen (ext_body e) < 2 ^ 16 /\
  match e with
  | EGroups l | ESigs l => Forall is_u16 l
  | EVersions l => Forall is_u16 l /\ 2 * zlen l < 256
  | EPoints l => zlen l < 256
  | EAlpn first _ => zlen first < 256
  | EOther t _ => t ∉ [0; 10; 11; 13; 16; 43]
  | ESni _ => True
  end.
Definition ext_bytes (e : extension) : bytes := u16b (ext_type e) ++ u16b (zlen (ext_body e)) ++ ext_body e.

Record ClientHello := mkHello {
  ch_version : Z; ch_random : bytes; ch_session : bytes; ch_ciphers : bytes; ch_compression : bytes;
  ch_extensions : list extension
}.
Definition ext_block (h : ClientHello) : bytes := concat (ext_bytes <$> ch_extensions h).
Definition hello_body (h : ClientHello) : bytes :=
  u16b (ch_version h) ++ ch_random h ++ (zlen (ch_session h) :: ch_session h) ++
  (u16b (2 * zlen (ch_ciphers h)) ++ u16s (ch_ciphers h)) ++
  (zlen (ch_compression h) :: ch_compression h) ++ u16b (zlen (ext_block h)) ++ ext_block h.
Definition hello_message (h : ClientHello) : bytes := 1 :: u24b (zlen (hello_body h)) ++ hello_body h.
Definition hello_ok (h : ClientHello) : Prop :=
  is_u16 (ch_version h) /\ length (ch_random h) = 32%nat /\ zlen (ch_session h) < 256 /\
  Forall is_u16 (ch_ciphers h) /\ 2 * zlen (ch_ciphers h) < 2 ^ 16 /\ zlen (ch_compression h) < 256 /\
  Forall ext_ok (ch_extensions h) /\ zlen (ext_block h) < 2 ^ 16.

(** What the parser is to report of it. *)
Definition groups_of e := match e with EGroups l => l | _ => [] end.
Definition points_of e := match e with EPoints l => l | _ => [] end.
Definition sigs_of e := match e with ESigs l => l | _ => [] end.
Definition versions_of e := match e with EVersions l => l | _ => [] end.
Definition alpn_of e := match e with EAlpn f _ => f | _ => [] end.
Definition is_sni e := match e with ESni _ => true | _ => false end.
Definition gather (f : extension -> bytes) (max : nat) (es : list extension) : bytes := take max (concat (f <$> es)).
Definition hello_info (transport : Z) (h : ClientHello) : ClientHelloInfo :=
  let es := ch_extensions h in
  mkInfo true transport (ch_version h) (take JA4_MAX_CIPHERS (ch_ciphers h)) (take JA4_MAX_EXTS (ext_type <$> es))
    (gather groups_of JA4_MAX_GROUPS es) (gather points_of JA4_MAX_ECPF es) (gather versions_of JA4_MAX_SV es)
    (gather sigs_of JA4_MAX_SIGALGS es) (existsb is_sni es) (gather alpn_of JA4_MAX_ALPN es).

(** *** Cursor lemmas *)

Lemma cur_u8_app x r : cur_u8 (mkCur (x :: r) true) = (x, mkCur r true).
Proof. done. Qed.

Lemma cur_u16_app v r : is_u16 v -> cur_u16 (mkCur (u16b v ++ r) true) = (v, mkCur r true).
Proof.
  intros Hv. unfold cur_u16, cur_remaining, u16b. cbn [cur_ok cur_rest app length].
  rewrite (proj2 (Nat.ltb_ge _ _)) by lia. f_equal. unfold is_u16 in Hv.
  pose proof (Z.mod_pos_bound v 256 ltac:(lia)). rewrite lor_shiftl_add by lia. change (2 ^ 8) with 256.
  unfold wrap16. replace (v / 256 * 256 + v mod 256) with v by (pose proof (Z.div_mod v 256); lia). apply Z.mod_small. lia.
Qed.

Lemma cur_u24_app v r : 0 <= v < 2 ^ 24 -> cur_u24 (mkCur (u24b v ++ r) true) = (v, mkCur r true).
Proof.
  intros Hv. unfold cur_u24, cur_remaining, u24b. cbn [cur_ok cur_rest app length].
  rewrite (proj2 (Nat.ltb_ge _ _)) by lia. f_equal.
  pose proof (Z.mod_pos_bound v 256 ltac:(lia)). pose proof (Z.mod_pos_bound (v / 256) 256 ltac:(lia)).
  assert (0 <= v / 65536 < 256) by (split; [apply Z.div_pos; lia|apply Z.div_lt_upper_bound; lia]).
  assert (E1 : wrap32 (Z.shiftl (v / 65536) 16) = v / 65536 * 65536).
  { rewrite Z.shiftl_mul_pow2 by lia. unfold wrap32. change (2 ^ 16) with 65536. apply Z.mod_small. lia. }
  assert (E2 : wrap32 (Z.shiftl (v / 256 mod 256) 8) = v / 256 mod 256 * 256).
  { rewrite Z.shiftl_mul_pow2 by lia. unfold wrap32. change (2 ^ 8) with 256. apply Z.mod_small. lia. }
  rewrite E1, E2. change 65536 with (2 ^ 16) at 2. rewrite lor_disjoint_add by lia. change (2 ^ 16) with 65536.
  replace (v / 65536 * 65536 + v / 256 mod 256 * 256) with (v / 256 * 256).
  - change (v / 256 * 256) with (v / 256 * 2 ^ 8). rewrite lor_disjoint_add by lia. change (2 ^ 8) with 256.
    pose proof (Z.div_mod v 256). lia.
  - change 65536 with (256 * 256) at 1. rewrite <-Z.div_div by lia. pose proof (Z.div_mod (v / 256) 256). lia.
Qed.

Lemma cur_skip_app a r : cur_skip (mkCur (a ++ r) true) (zlen a) = mkCur r true.
Proof.
  unfold cur_skip, cur_remaining, zlen. cbn [cur_ok cur_rest]. rewrite length_app.
  rewrite (proj2 (Z.ltb_ge _ _)), Nat2Z.id by lia. by rewrite drop_app_length.
Qed.

Lemma cur_sub_app a r : cur_sub (mkCur (a ++ r) true) (zlen a) = mkCur a true.
Proof.
  unfold cur_sub, cur_remaining, zlen. cbn [cur_ok cur_rest]. rewrite length_app.
  destruct (Z.ltb_spec (Z.of_nat (length a)) (Z.of_nat (length a + length r))).
  - by rewrite Nat2Z.id, take_app_length.
  - rewrite take_ge by (rewrite length_app; lia). assert (r = []) as -> by (apply nil_length_inv; lia). by rewrite app_nil_r.
Qed.

Lemma cur_sub_all a : cur_sub (mkCur a true) (zlen a) = mkCur a true.
Proof. rewrite <-(app_nil_r a) at 1. apply cur_sub_app. Qed.

Lemma u16s_length l : zlen (u16s l) = 2 * zlen l.
Proof.
  induction l as [|v l IH]; [done|]. unfold u16s. rewrite fmap_cons. cbn [concat]. rewrite zlen_app. fold (u16s l).
  rewrite IH. unfold zlen. cbn [u16b length]. lia.
Qed.

Lemma half_double l : half (2 * zlen l) = length l.
Proof. unfold half, zlen. rewrite Z.mul_comm, Z.div_mul by lia. lia. Qed.

Lemma fold_push_max max vs l :
  (length l <= max)%nat -> fold_left (push_max max) vs l = take max (l ++ vs).
Proof.
  revert l; induction vs as [|v vs IH]; intros l Hl; simpl; [by rewrite app_nil_r, take_ge|].
  unfold push_max at 2. destruct (Nat.ltb_spec (length l) max).
  - rewrite IH by (rewrite length_app; simpl; lia). by rewrite <-app_assoc.
  - rewrite IH by done. rewrite !take_app, take_ge by lia. by replace (max - length l)%nat with 0%nat by lia.
Qed.

Lemma read_u16s_app vs max r acc :
  Forall is_u16 vs ->
  read_u16s (length vs) max (mkCur (u16s vs ++ r) true) acc = (fold_left (push_max max) vs acc, mkCur r true).
Proof.
  intros Hv. revert acc. induction Hv as [|v vs Hv _ IH]; intros acc; [done|].
  cbn [length read_u16s]. unfold u16s. rewrite fmap_cons. cbn [concat]. rewrite <-app_assoc, cur_u16_app by done. apply IH.
Qed.

Lemma read_u8s_app vs max r acc :
  read_u8s (length vs) max (mkCur (vs ++ r) true) acc = (fold_left (push_max max) vs acc, mkCur r true).
Proof. revert acc; induction vs as [|v vs IH]; intros acc; [done|]. cbn [length read_u8s app]. rewrite cur_u8_app. apply IH. Qed.

Lemma read_alpn_app vs r acc :
  read_alpn (length vs) (mkCur (vs ++ r) true) acc = fold_left (push_max JA4_MAX_ALPN) vs acc.
Proof. revert acc; induction vs as [|v vs IH]; intros acc; [done|]. cbn [length read_alpn app cur_ok]. rewrite cur_u8_app. apply IH. Qed.

(** *** Extensions *)

Definition info_bounded (i : ClientHelloInfo) : Prop :=
  (length (ci_exts i) <= JA4_MAX_EXTS)%nat /\ (length (ci_groups i) <= JA4_MAX_GROUPS)%nat /\
  (length (ci_ecpf i) <= JA4_MAX_ECPF)%nat /\ (length (ci_versions i) <= JA4_MAX_SV)%nat /\
  (length (ci_sigs i) <= JA4_MAX_SIGALGS)%nat /\ (length (ci_alpn i) <= JA4_MAX_ALPN)%nat.

(** The information after more extensions. *)
Definition info_more (i : ClientHelloInfo) (es : list extension) : ClientHelloInfo :=
  mkInfo (ci_ok i) (ci_transport i) (ci_legacy_version i) (ci_ciphers i)
    (take JA4_MAX_EXTS (ci_exts i ++ (ext_type <$> es)))
    (take JA4_MAX_GROUPS (ci_groups i ++ concat (groups_of <$> es)))
    (take JA4_MAX_ECPF (ci_ecpf i ++ concat (points_of <$> es)))
    (take JA4_MAX_SV (ci_versions i ++ concat (versions_of <$> es)))
    (take JA4_MAX_SIGALGS (ci_sigs i ++ concat (sigs_of <$> es)))
    (ci_has_sni i || existsb is_sni es)
    (take JA4_MAX_ALPN (ci_alpn i ++ concat (alpn_of <$> es))).

Lemma info_more_nil i : info_bounded i -> info_more i [] = i.
Proof.
  intros (H1 & H2 & H3 & H4 & H5 & H6). destruct i. unfold info_more. cbn in *.
  rewrite !app_nil_r, !take_ge, orb_false_r by done. done.
Qed.

Lemma take_take_app {A} n (a c : list A) : take n (take n a ++ c) = take n (a ++ c).
Proof.
  destruct (Nat.le_gt_cases (length a) n) as [Hl|Hl]; [by rewrite (take_ge a)|].
  rewrite take_app_le by (rewrite length_take; lia). rewrite take_take, Nat.min_id. by rewrite take_app_le by lia.
Qed.

Lemma info_more_cons i e es : info_more (info_more i [e]) es = info_more i (e :: es).
Proof.
  unfold info_more. cbn [ci_ok ci_transport ci_legacy_version ci_ciphers ci_exts ci_groups ci_ecpf ci_versions ci_sigs ci_has_sni ci_alpn].
  rewrite !take_take_app, !fmap_cons. cbn [concat existsb]. cbn [fmap list_fmap concat].
  rewrite !app_nil_r, <-!app_assoc, orb_false_r, <-orb_assoc. done.
Qed.

Lemma info_more_bounded i es : info_bounded (info_more i es).
Proof. unfold info_bounded, info_more. cbn. repeat split; apply firstn_le_length. Qed.

Lemma ext_type_known t : t ∉ [0; 10; 11; 13; 16; 43] -> forall ed i, parse_extension t ed i = i.
Proof.
  intros Ht ed i. destruct i. unfold parse_extension.
  rewrite !not_elem_of_cons in Ht. destruct Ht as (H0 & H1 & H2 & H3 & H4 & H5 & _).
  destruct t as [|p|p]; [done| |done].
  repeat match goal with p : positive |- _ => destruct p; try done; try congruence end.
Qed.

Lemma ext_step e i :
  ext_ok e -> info_bounded i ->
  parse_extension (ext_type e) (mkCur (ext_body e) true) (push_ext (ext_type e) i) = info_more i [e].
Proof.
  intros (Ht & Hb & Hc) (H1 & H2 & H3 & H4 & H5 & H6). destruct i as [ok tr lv cs es gs pf vs sg sni al]. cbn in H1, H2, H3, H4, H5, H6.
  assert (Hp : push_max JA4_MAX_EXTS es (ext_type e) = take JA4_MAX_EXTS (es ++ [ext_type e])).
  { by rewrite <-fold_push_max. }
  unfold push_ext, info_more. rewrite Hp. unfold JA4_MAX_EXTS, JA4_MAX_GROUPS, JA4_MAX_ECPF, JA4_MAX_SV, JA4_MAX_SIGALGS, JA4_MAX_ALPN in *.
  destruct e as [b|l|l|l|f m|l|t b]; cbn [ext_type ext_body] in *;
    cbn [parse_extension ci_ok ci_transport ci_legacy_version ci_ciphers ci_exts ci_groups ci_ecpf ci_versions ci_sigs ci_has_sni ci_alpn
         fmap list_fmap concat groups_of points_of versions_of sigs_of alpn_of existsb is_sni];
    rewrite ?app_nil_r, ?orb_false_r, ?(take_ge gs), ?(take_ge pf), ?(take_ge vs), ?(take_ge sg), ?(take_ge al) by done.
  - by rewrite orb_true_r.
  - pose proof (zlen_nonneg l). unfold u16b in Hb. rewrite zlen_app in Hb.
    assert (Hl : zlen (u16s l) = 2 * zlen l) by (apply u16s_length).
    unfold zlen at 1 in Hb. cbn [length] in Hb. change ([_; _] ++ u16s l) with (u16b (2 * zlen l) ++ u16s l) in *.
    rewrite cur_u16_app by (unfold is_u16; lia). rewrite half_double, <-(app_nil_r (u16s l)), read_u16s_app by done.
    by rewrite fold_push_max.
  - rewrite cur_u8_app. unfold zlen. rewrite Nat2Z.id. rewrite <-(app_nil_r l) at 2. rewrite read_u8s_app. by rewrite fold_push_max.
  - pose proof (zlen_nonneg l). unfold u16b in Hb. rewrite zlen_app in Hb.
    assert (Hl : zlen (u16s l) = 2 * zlen l) by (apply u16s_length).
    unfold zlen at 1 in Hb. cbn [length] in Hb. change ([_; _] ++ u16s l) with (u16b (2 * zlen l) ++ u16s l) in *.
    rewrite cur_u16_app by (unfold is_u16; lia). rewrite half_double, <-(app_nil_r (u16s l)), read_u16s_app by done.
    by rewrite fold_push_max.
  - pose proof (zlen_nonneg f). pose proof (zlen_nonneg m). rewrite cur_u16_app.
    2:{ assert (E : zlen (u16b (1 + zlen f + zlen m) ++ zlen f :: f ++ m) = 3 + zlen f + zlen m).
        { unfold zlen at 1. rewrite length_app. cbn [length u16b]. rewrite length_app. unfold zlen. lia. }
        unfold is_u16. lia. }
    rewrite cur_u8_app. unfold zlen. rewrite Nat2Z.id, read_alpn_app. by rewrite fold_push_max.
  - rewrite cur_u8_app, half_double, <-(app_nil_r (u16s l)), read_u16s_app by apply Hc. by rewrite fold_push_max.
  - exact (ext_type_known t Hc (mkCur b true) (mkInfo ok tr lv cs (take 128 (es ++ [t])) gs pf vs sg sni al)).
Qed.

Lemma parse_exts_app es i fuel :
  Forall ext_ok es -> info_bounded i -> (length es < fuel)%nat ->
  parse_exts fuel (mkCur (concat (ext_bytes <$> es)) true) i = info_more i es.
Proof.
  intros He. revert i fuel. induction He as [|e es He _ IH]; intros i fuel Hi Hf; (destruct fuel as [|fuel]; [simpl in Hf; lia|]).
  - cbn. by rewrite info_more_nil.
  - assert (E : concat (ext_bytes <$> e :: es) =
      u16b (ext_type e) ++ u16b (zlen (ext_body e)) ++ ext_body e ++ concat (ext_bytes <$> es)).
    { rewrite fmap_cons. cbn [concat]. unfold ext_bytes at 1. by rewrite <-!app_assoc. }
    rewrite E. cbn [parse_exts]. pose proof He as (Ht & Hb & _).
    unfold cur_remaining. cbn [cur_ok cur_rest]. rewrite (proj2 (Nat.leb_le _ _)).
    2:{ rewrite !length_app. cbn [u16b length]. lia. }
    pose proof (zlen_nonneg (ext_body e)).
    rewrite cur_u16_app by done. rewrite cur_u16_app by (unfold is_u16; lia).
    rewrite cur_sub_app, cur_skip_app, ext_step by done. rewrite IH; [by rewrite info_more_cons|apply info_more_bounded|simpl in Hf; lia].
Qed.

(** *** The message *)

Lemma ext_block_length es : (length es <= length (concat (ext_bytes <$> es)))%nat.
Proof.
  induction es as [|e es IH]; [done|]. rewrite fmap_cons. cbn [concat length]. rewrite length_app.
  unfold ext_bytes at 1. rewrite length_app. cbn [u16b length]. lia.
Qed.

Lemma parse_body_app h tr :
  hello_ok h -> parse_ch_body (mkCur (hello_body h) true) (info_zero tr) = hello_info tr h.
Proof.
  intros (Hv & Hr & Hs & Hc & Hcl & Hk & He & Hel). unfold parse_ch_body, info_zero, hello_body.
  pose proof (zlen_nonneg (ch_session h)). pose proof (zlen_nonneg (ch_ciphers h)). pose proof (zlen_nonneg (ext_block h)).
  rewrite cur_u16_app by done.
  replace 32 with (zlen (ch_random h)) by (unfold zlen; rewrite Hr; done). rewrite cur_skip_app.
  rewrite <-app_comm_cons, cur_u8_app, cur_skip_app.
  rewrite <-app_assoc, cur_u16_app by (unfold is_u16; lia). rewrite half_double, read_u16s_app by done.
  rewrite <-app_comm_cons, cur_u8_app, cur_skip_app.
  unfold cur_remaining at 1. cbn [cur_ok cur_rest]. rewrite (proj2 (Nat.leb_le 2 _)) by (rewrite length_app; cbn [u16b length]; lia).
  rewrite cur_u16_app by (unfold is_u16; lia).
  rewrite cur_sub_all. cbn [cur_rest].
  unfold ext_block. destruct (decide (ch_extensions h = [])) as [E|E].
  - rewrite E. unfold hello_info. rewrite E. rewrite fold_push_max by (simpl; lia). reflexivity.
  - assert (Hfuel : (length (ch_extensions h) < length (concat (ext_bytes <$> ch_extensions h)))%nat).
    { destruct (ch_extensions h) as [|e es] eqn:Ee; [congruence|]. rewrite fmap_cons. cbn [concat length]. rewrite length_app.
      pose proof (ext_block_length es). unfold ext_bytes at 1. rewrite length_app. cbn [u16b length]. lia. }
    rewrite parse_exts_app by (done || (unfold info_bounded; repeat split; apply Nat.le_0_l)).
    unfold info_more, hello_info, gather. rewrite fold_push_max by (simpl; lia). reflexivity.
Qed.

Lemma handshake_app h tr tail :
  hello_ok h -> zlen (hello_body h) < 2 ^ 24 ->
  parse_handshake_from (mkCur (hello_message h ++ tail) true) (info_zero tr) = hello_info tr h.
Proof.
  intros Hh Hl. pose proof (zlen_nonneg (hello_body h)). unfold parse_handshake_from, hello_message.
  rewrite <-app_comm_cons, cur_u8_app. cbn [Z.eqb negb]. rewrite <-app_assoc, cur_u24_app by lia.
  change (negb (1 =? 1)) with false. cbv iota. rewrite cur_sub_app. by apply parse_body_app.
Qed.

(** *** GREASE and order *)

(** RFC 8701: 0x0A0A, 0x1A1A, ..., 0xFAFA. *)
Definition grease_values : bytes := (fun k => 2570 + 4112 * k) <$> seqZ 0 16.
Definition no_grease (l : bytes) : bytes := filter (fun v => v ∉ grease_values) l.

Definition grease_list : bytes := Eval vm_compute in grease_values.

Definition grease_agrees (h l : Z) : bool :=
  let v := 256 * h + l in Bool.eqb (ja4_is_grease v) (existsb (Z.eqb v) grease_list).

Lemma ja4_is_grease_rfc v : is_u16 v -> ja4_is_grease v = bool_decide (v ∈ grease_values).
Proof.
  intros Hv. unfold is_u16 in Hv.
  assert (Hq : 0 <= v / 256 < 256) by (split; [apply Z.div_pos; lia|apply Z.div_lt_upper_bound; lia]).
  pose proof (Z.mod_pos_bound v 256 ltac:(lia)) as Hr.
  assert (Hv2 : v = 256 * (v / 256) + v mod 256) by (apply Z.div_mod; lia).
  assert (Hall : forallb (fun h => forallb (grease_agrees h) (seqZ 0 256)) (seqZ 0 256) = true)
    by (vm_compute; reflexivity).
  pose proof (range_check (fun h => forallb (grease_agrees h) (seqZ 0 256)) 256 Hall (v / 256) Hq) as Hh. clear Hall.
  pose proof (range_check (grease_agrees (v / 256)) 256 Hh (v mod 256) Hr) as He. clear Hh.
  unfold grease_agrees in He. cbv zeta in He.
  rewrite <-Hv2 in He. apply Bool.eqb_prop in He. rewrite He. apply Bool.eq_iff_eq_true.
  rewrite existsb_exists, bool_decide_eq_true. split.
  - intros (x & Hx & ->%Z.eqb_eq). by apply list_elem_of_In.
  - intros Hx. exists v. split; [by apply list_elem_of_In|apply Z.eqb_refl].
Qed.

Lemma filter_grease_spec l : Forall is_u16 l -> filter_grease_u16 l = no_grease l.
Proof.
  unfold no_grease. induction 1 as [|v l Hv _ IH]; [done|]. cbn [filter_grease_u16]. rewrite ja4_is_grease_rfc, IH by done.
  case_bool_decide; cbn [negb]; [by rewrite filter_cons_False by tauto|by rewrite filter_cons_True].
Qed.

Lemma qsort_u16_perm l1 l2 : l1 ≡ₚ l2 -> qsort_u16 l1 = qsort_u16 l2.
Proof.
  intros Hp. unfold qsort_u16. apply (Sorted_unique Z.le); [apply Sorted_merge_sort; apply _..|].
  by rewrite !merge_sort_Permutation.
Qed.

Lemma max_version_spec ver vs :
  Forall is_u16 vs ->
  ver <= max_version ver vs /\ (forall v, v ∈ no_grease vs -> v <= max_version ver vs) /\
  (max_version ver vs = ver \/ max_version ver vs ∈ no_grease vs).
Proof.
  intros Hv. revert ver. induction Hv as [|v vs Hv _ IH]; intros ver.
  { cbn. split; [lia|]. split; [intros v Hx; by apply not_elem_of_nil in Hx|by left]. }
  cbn [max_version]. rewrite ja4_is_grease_rfc by done. unfold no_grease in *.
  case_bool_decide as Hg; cbn [negb andb]; [rewrite filter_cons_False by tauto; apply IH|].
  rewrite filter_cons_True by done. set (m := if ver <? v then v else ver).
  destruct (IH m) as (H1 & H2 & H3). assert (Hm : ver <= m /\ v <= m /\ (m = ver \/ m = v)).
  { unfold m. destruct (Z.ltb_spec ver v); lia. }
  split; [lia|]. split.
  - intros x [->|Hx]%elem_of_cons; [lia|auto].
  - destruct H3 as [->|H3]; [|right; apply elem_of_cons; by right].
    destruct Hm as (_ & _ & [->|Hm]); [by left|]. right. apply elem_of_cons. by left.
Qed.

Lemma max_version_perm ver vs1 vs2 :
  Forall is_u16 vs1 -> Forall is_u16 vs2 -> no_grease vs1 ≡ₚ no_grease vs2 -> max_version ver vs1 = max_version ver vs2.
Proof.
  intros H1 H2 Hp. destruct (max_version_spec ver vs1 H1) as (A1 & B1 & C1), (max_version_spec ver vs2 H2) as (A2 & B2 & C2).
  assert (Hin : forall v, v ∈ no_grease vs1 <-> v ∈ no_grease vs2) by (intros v; by rewrite Hp).
  destruct C1 as [E1|E1], C2 as [E2|E2].
  - congruence.
  - apply Hin, B1 in E2. lia.
  - apply Hin, B2 in E1. lia.
  - pose proof (B2 _ (proj1 (Hin _) E1)). pose proof (B1 _ (proj2 (Hin _) E2)). lia.
Qed.

(** Two hellos of one browser: the same up to GREASE and the order in which
    cipher suites, extensions and versions are listed. *)
Definition same_hello (i1 i2 : ClientHelloInfo) : Prop :=
  ci_transport i1 = ci_transport i2 /\ ci_legacy_version i1 = ci_legacy_version i2 /\
  ci_has_sni i1 = ci_has_sni i2 /\ ci_alpn i1 = ci_alpn i2 /\
  no_grease (ci_sigs i1) = no_grease (ci_sigs i2) /\
  no_grease (ci_ciphers i1) ≡ₚ no_grease (ci_ciphers i2) /\
  no_grease (ci_exts i1) ≡ₚ no_grease (ci_exts i2) /\
  no_grease (ci_versions i1) ≡ₚ no_grease (ci_versions i2).
Definition info_u16 (i : ClientHelloInfo) : Prop :=
  Forall is_u16 (ci_ciphers i) /\ Forall is_u16 (ci_exts i) /\ Forall is_u16 (ci_versions i) /\ Forall is_u16 (ci_sigs i).

(** ** Properties *)

(** C37. The parser reads what a ClientHello says, from a TLS record or from a
    QUIC handshake message, whatever follows: the version, cipher suites,
    extension types, groups, point formats, versions and signature algorithms
    in wire order, GREASE included, up to the capacity of each table, and the
    first ALPN protocol. *)
Theorem ja4_parse_client_hello (h : ClientHello) (ver : Z) (tail : bytes) :
  hello_ok h -> zlen (hello_message h) < 2 ^ 16 -> is_u16 ver ->
  ja4_parse_record (22 :: u16b ver ++ u16b (zlen (hello_message h)) ++ hello_message h ++ tail) = hello_info 116 h /\
  ja4_parse_handshake (hello_message h ++ tail) = hello_info 113 h.
Proof.
  intros Hh Hl Hv. pose proof (zlen_nonneg (hello_message h)).
  assert (Hb : zlen (hello_body h) < 2 ^ 24).
  { unfold hello_message in Hl. unfold zlen in *. cbn [length app] in Hl. rewrite length_app in Hl. lia. }
  split; [|by apply handshake_app]. unfold ja4_parse_record. rewrite cur_u8_app. change (negb (22 =? 22)) with false. cbv iota.
  rewrite cur_u16_app by done. rewrite cur_u16_app by (unfold is_u16; lia). rewrite cur_sub_app.
  rewrite <-(app_nil_r (hello_message h)). by apply handshake_app.
Qed.

Definition demo_hello : ClientHello :=
  mkHello 771 (replicate 32 5) [1; 2] [2570; 4865; 49195] [0]
    [EOther 6682 []; ESni [0; 1]; EGroups [2570; 29]; ESigs [1027]; EAlpn (lit "h2") [8; 1]; EVersions [772; 771]].

Lemma demo_hello_ok : hello_ok demo_hello.
Proof.
  unfold hello_ok, demo_hello, ext_ok, is_u16. cbn [ch_version ch_random ch_session ch_ciphers ch_compression ch_extensions ext_type].
  repeat match goal with
  | |- _ /\ _ => split
  | |- Forall _ [] => constructor
  | |- Forall _ (_ :: _) => constructor
  | |- _ ∉ _ => apply (bool_decide_unpack _); vm_compute; reflexivity
  | |- _ => done
  | |- _ => lia
  | |- _ => vm_compute; reflexivity
  end.
Qed.

Lemma ja4_parse_client_hello_witness :
  ja4_parse_handshake (hello_message demo_hello ++ [99]) =
  mkInfo true 113 771 [2570; 4865; 49195] [6682; 0; 10; 13; 16; 43] [2570; 29] [] [772; 771] [1027] true (lit "h2").
Proof.
  refine (eq_trans (proj2 (ja4_parse_client_hello demo_hello 769 [99] demo_hello_ok _ _)) _);
    [vm_compute; reflexivity|unfold is_u16; lia|vm_compute; reflexivity].
Defined.

(** The JA4 fingerprint identifies the browser and not the connection: it
    does not depend on the GREASE values of RFC 8701, nor on the order of the
    cipher suites, of the extensions or of the versions offered. *)
Theorem ja4_order_grease_invariant (SHA256 MD5 : bytes -> bytes) (i1 i2 : ClientHelloInfo) :
  info_u16 i1 -> info_u16 i2 -> same_hello i1 i2 ->
  fp_ja4 (ja4_compute SHA256 MD5 i1) = fp_ja4 (ja4_compute SHA256 MD5 i2) /\
  fp_ja4_r (ja4_compute SHA256 MD5 i1) = fp_ja4_r (ja4_compute SHA256 MD5 i2).
Proof.
  intros (Hc1 & He1 & Hv1 & Hs1) (Hc2 & He2 & Hv2 & Hs2) (Et & El & En & Ea & Es & Pc & Pe & Pv).
  unfold ja4_compute. cbn [fp_ja4 fp_ja4_r]. rewrite !filter_grease_spec by done.
  rewrite Et, El, En, Ea, Es, (max_version_perm _ _ _ Hv1 Hv2 Pv).
  rewrite (Permutation_length Pc), (Permutation_length Pe), (qsort_u16_perm _ _ Pc).
  rewrite (qsort_u16_perm (filter (fun x => x <> 0 /\ x <> 16) (no_grease (ci_exts i1)))
    (filter (fun x => x <> 0 /\ x <> 16) (no_grease (ci_exts i2)))) by (by rewrite Pe).
  done.
Qed.

Lemma ja4_order_grease_invariant_witness :
  fp_ja4_r (ja4_compute (fun m => replicate 32 (zlen m)) id
    (mkInfo true 116 771 [2570; 4865; 49195] [0; 10] [] [] [772] [] true (lit "h2"))) =
  fp_ja4_r (ja4_compute (fun m => replicate 32 (zlen m)) id
    (mkInfo true 116 771 [49195; 4865; 64250] [6682; 10; 0] [] [] [772] [] true (lit "h2"))).
Proof.
  refine (proj2 (ja4_order_grease_invariant (fun m => replicate 32 (zlen m)) id _ _ _ _ _)).
  - unfold info_u16, is_u16. cbn. repeat split; repeat constructor; lia.
  - unfold info_u16, is_u16. cbn. repeat split; repeat constructor; lia.
  - unfold same_hello. cbn [ci_transport ci_legacy_version ci_has_sni ci_alpn ci_sigs ci_ciphers ci_exts ci_versions].
    do 5 (split; [reflexivity|]). split; [apply (perm_swap 49195 4865 [])|]. split; [apply (perm_swap 10 0 [])|reflexivity].
Defined.
