(* ===== verification/Arena.v ===== *)
(** * base/arena: the block allocator every component allocates from

    [src/base/arena.c]: a chain of [malloc]ed blocks with a bump pointer,
    rewound by position ([arena_pop_to], [Temp]), and the two thread-local
    pools built on it (scratch arenas and the recycle list).

    A block is its address, capacity, use and the position it starts at; an
    arena is its chain, cut at the block [current] points to. [malloc] is a
    parameter: what it returns is a function of the live regions and the size
    asked for, [None] for the null pointer, which the code turns into
    [Fatal]. The poisoning macros and the statistics counters are compiled out
    of the modelled build. *)
From stdpp Require Import gmap.
From S2P Require Import Prelude.

Record ArenaBlock := mkBlock {
  b_addr : Z;       (* the block's own address; its payload starts 32 bytes after it *)
  b_cap : Z;
  b_used : Z;
  b_base_pos : Z
}.

#[global] Instance ArenaBlock_eq_dec : EqDecision ArenaBlock.
Proof. solve_decision. Defined.

(** The chain from [first], cut at [current]. *)
Record Arena := mkArena {
  a_before : list ArenaBlock;
  a_current : ArenaBlock;
  a_after : list ArenaBlock;
  a_block_size : Z
}.
Definition a_chain (a : Arena) : list ArenaBlock := a_before a ++ a_current a :: a_after a.

Definition SIZEOF_BLOCK : Z := 32.
Definition SIZEOF_ARENA : Z := 32.
Definition ARENA_DEFAULT_BLOCK : Z := 65536.
Definition ARENA_RECYCLE_MAX : Z := 64.

(** The live regions of the C heap: address and size. *)
Abbreviation heap := (list (Z * Z)).
Definition free (h : heap) (p : Z) : heap := filter (fun r => r.1 <> p) h.

Definition b_data (b : ArenaBlock) : Z := b_addr b + SIZEOF_BLOCK.
Definition set_used (u : Z) (b : ArenaBlock) : ArenaBlock := mkBlock (b_addr b) (b_cap b) u (b_base_pos b).

Definition AlignPow2 (x p : Z) : Z := Z.land (wrap64 (x + wrap64 (p - 1))) (wrap64 (Z.lnot (wrap64 (p - 1)))).

(** The outcome of a call that allocates: [arena_push] loops, and [Fatal]
    aborts the process. *)
Inductive push_result :=
| PushOk (ptr : Z) (a : Arena) (h : heap)
| PushFatal
| PushSpins.

Section alloc.
Context (malloc : heap -> Z -> option Z).

Definition arena_block_new (h : heap) (cap base_pos : Z) : option (ArenaBlock * heap) :=
  let n := wrap64 (SIZEOF_BLOCK + cap) in
  match malloc h n with
  | None => None
  | Some p => Some (mkBlock p cap 0 base_pos, (p, n) :: h)
  end.

(** The address of the [Arena] and the arena. *)
Definition arena_alloc_sized (h : heap) (block_size : Z) : option (Z * Arena * heap) :=
  let block_size := if block_size =? 0 then ARENA_DEFAULT_BLOCK else block_size in
  match malloc h SIZEOF_ARENA with
  | None => None
  | Some pa =>
      match arena_block_new ((pa, SIZEOF_ARENA) :: h) block_size 0 with
      | None => None
      | Some (b, h) => Some (pa, mkArena [] b [] block_size, h)
      end
  end.
Definition arena_alloc (h : heap) : option (Z * Arena * heap) := arena_alloc_sized h ARENA_DEFAULT_BLOCK.

Definition arena_release (h : heap) (pa : Z) (a : Arena) : heap :=
  free (foldl (fun h b => free h (b_addr b)) h (a_chain a)) pa.

Fixpoint arena_push_loop (fuel : nat) (h : heap) (a : Arena) (size align : Z) : push_result :=
  match fuel with
  | O => PushSpins
  | S fuel =>
      let b := a_current a in
      let base := wrap64 (b_data b + b_used b) in
      let aligned := AlignPow2 base align in
      let need := wrap64 (wrap64 (aligned - base) + size) in
      if wrap64 (b_used b + need) <=? b_cap b then
        PushOk aligned
          (mkArena (a_before a) (set_used (wrap64 (b_used b + need)) b) (a_after a) (a_block_size a)) h
      else
        match a_after a with
        | next :: rest =>
            arena_push_loop fuel h (mkArena (a_before a ++ [b]) next rest (a_block_size a)) size align
        | [] =>
            let cap := Z.max (a_block_size a) (wrap64 (size + align)) in
            match arena_block_new h cap (wrap64 (b_base_pos b + b_cap b)) with
            | None => PushFatal
            | Some (nb, h) =>
                arena_push_loop fuel h (mkArena (a_before a ++ [b]) nb [] (a_block_size a)) size align
            end
        end
  end.
Definition arena_push (h : heap) (a : Arena) (size align : Z) : push_result :=
  arena_push_loop (length (a_after a) + 2) h a size align.

(** The bytes of memory; [MemoryZero] clears a range of them. *)
Definition memory_zero (m : Z -> Z) (p n : Z) : Z -> Z :=
  fun x => if (p <=? x) && (x <? p + n) then 0 else m x.
Definition arena_push_zero (m : Z -> Z) (h : heap) (a : Arena) (size align : Z) : push_result * (Z -> Z) :=
  match arena_push h a size align with
  | PushOk p a h => (PushOk p a h, memory_zero m p size)
  | r => (r, m)
  end.
End alloc.

Definition arena_pos (a : Arena) : Z := wrap64 (b_base_pos (a_current a) + b_used (a_current a)).

Fixpoint pop_walk (before : list ArenaBlock) (b : ArenaBlock) (after : list ArenaBlock) (pos : Z) :
  list ArenaBlock * ArenaBlock * list ArenaBlock :=
  let stop := (before, set_used (wrap64 (pos - b_base_pos b)) b, set_used 0 <$> after) in
  match after with
  | next :: rest =>
      if wrap64 (b_base_pos b + b_cap b) <? pos then pop_walk (before ++ [b]) next rest pos else stop
  | [] => stop
  end.
Definition arena_pop_to (a : Arena) (pos : Z) : Arena :=
  let '(first, rest) := match a_before a with
                        | [] => (a_current a, a_after a)
                        | b :: bs => (b, bs ++ a_current a :: a_after a)
                        end in
  let '(before, cur, after) := pop_walk [] first rest pos in
  mkArena before cur after (a_block_size a).
Definition arena_clear (a : Arena) : Arena := arena_pop_to a 0.

(** ** The thread-local pools

    The thread's arenas by address, and the two pools of it: [g_scratch] and
    the chain from [g_recycle_head] through [recycle_next]. *)
Record Thread := mkThread {
  t_heap : heap;
  t_arenas : gmap Z Arena;
  t_scratch : option Z * option Z;
  t_recycle : list Z;
  t_recycle_count : Z
}.
Record Temp := mkTemp { temp_arena : Z; temp_pos : Z }.

Definition set_arena (t : Thread) (p : Z) (a : Arena) : Thread :=
  mkThread (t_heap t) (<[p := a]> (t_arenas t)) (t_scratch t) (t_recycle t) (t_recycle_count t).
Definition temp_begin (t : Thread) (p : Z) : option Temp :=
  mkTemp p ∘ arena_pos <$> t_arenas t !! p.
Definition temp_end (t : Thread) (tmp : Temp) : option Thread :=
  (fun a => set_arena t (temp_arena tmp) (arena_pop_to a (temp_pos tmp))) <$> t_arenas t !! temp_arena tmp.

Section pools.
Context (malloc : heap -> Z -> option Z).

Definition thread_alloc (t : Thread) : option (Z * Thread) :=
  match arena_alloc malloc (t_heap t) with
  | None => None
  | Some (p, a, h) => Some (p, mkThread h (<[p := a]> (t_arenas t)) (t_scratch t) (t_recycle t) (t_recycle_count t))
  end.
Definition thread_release (t : Thread) (p : Z) : Thread :=
  match t_arenas t !! p with
  | None => t
  | Some a => mkThread (arena_release (t_heap t) p a) (delete p (t_arenas t)) (t_scratch t) (t_recycle t) (t_recycle_count t)
  end.
Definition set_scratch (s : option Z * option Z) (t : Thread) : Thread :=
  mkThread (t_heap t) (t_arenas t) s (t_recycle t) (t_recycle_count t).
Definition set_recycle (l : list Z) (n : Z) (t : Thread) : Thread :=
  mkThread (t_heap t) (t_arenas t) (t_scratch t) l n.

(** [g_scratch] is filled on first use, both arenas at once. *)
Definition scratch_init (t : Thread) : option Thread :=
  match fst (t_scratch t) with
  | Some _ => Some t
  | None =>
      match thread_alloc t with
      | None => None
      | Some (p0, t) =>
          match thread_alloc t with
          | None => None
          | Some (p1, t) => Some (set_scratch (Some p0, Some p1) t)
          end
      end
  end.
Definition scratch_pick (s : option Z * option Z) (conflicts : list Z) : option Z :=
  if negb (existsb (fun c => bool_decide (fst s = Some c)) conflicts) then fst s
  else if negb (existsb (fun c => bool_decide (snd s = Some c)) conflicts) then snd s
  else fst s.
Definition scratch_begin (t : Thread) (conflicts : list Z) : option (Temp * Thread) :=
  match scratch_init t with
  | None => None
  | Some t =>
      match scratch_pick (t_scratch t) conflicts with
      | None => None
      | Some p => (fun tmp => (tmp, t)) <$> temp_begin t p
      end
  end.

Definition arena_acquire (t : Thread) : option (Z * Thread) :=
  match t_recycle t with
  | a :: next => Some (a, set_recycle next (wrap32 (t_recycle_count t - 1)) t)
  | [] => thread_alloc t
  end.
Definition arena_recycle (t : Thread) (p : Z) : Thread :=
  match t_arenas t !! p with
  | None => t
  | Some a =>
      if (1 <? length (a_chain a))%nat || (ARENA_RECYCLE_MAX <=? t_recycle_count t)
      then thread_release t p
      else set_recycle (p :: t_recycle t) (wrap32 (t_recycle_count t + 1)) (set_arena t p (arena_clear a))
  end.
Definition arena_thread_cleanup (t : Thread) : Thread :=
  let t := set_recycle [] 0 (foldl thread_release t (t_recycle t)) in
  let t := match fst (t_scratch t) with
           | Some p => set_scratch (None, snd (t_scratch t)) (thread_release t p)
           | None => t
           end in
  match snd (t_scratch t) with
  | Some p => set_scratch (fst (t_scratch t), None) (thread_release t p)
  | None => t
  end.
End pools.

(** ** The heap *)

(** Two ranges that share no byte. *)
Definition apart (r1 r2 : Z * Z) : Prop := r1.1 + r1.2 <= r2.1 \/ r2.1 + r2.2 <= r1.1.

Fixpoint heap_ok (h : heap) : Prop :=
  match h with
  | [] => True
  | r :: h' => 0 < r.1 /\ 0 < r.2 /\ r.1 + r.2 <= 2 ^ 63 /\ Forall (apart r) h' /\ heap_ok h'
  end.
Fixpoint heap_total (h : heap) : Z :=
  match h with [] => 0 | r :: h' => r.2 + heap_total h' end.

(** What [malloc] promises: a region 16-byte aligned, in the lower half of the
    address space, apart from every live region; the live regions fit there
    together. *)
Definition malloc_law (malloc : heap -> Z -> option Z) : Prop :=
  forall h n p, heap_ok h -> 0 < n -> malloc h n = Some p ->
    (16 | p) /\ heap_ok ((p, n) :: h) /\ heap_total ((p, n) :: h) <= 2 ^ 63.

Lemma apart_sym r1 r2 : apart r1 r2 -> apart r2 r1.
Proof. unfold apart. lia. Qed.

Lemma apart_sub p n q m p' n' q' m' :
  apart (p, n) (q, m) -> p <= p' -> p' + n' <= p + n -> q <= q' -> q' + m' <= q + m -> apart (p', n') (q', m').
Proof. unfold apart. simpl. lia. Qed.

Lemma heap_ok_perm h h' : h ≡ₚ h' -> heap_ok h -> heap_ok h'.
Proof.
  induction 1 as [|r h h' Hp IH|r1 r2 h|]; [done| | |auto].
  - intros (? & ? & ? & Hf & Hh). cbn [heap_ok]. rewrite Hp in Hf. by auto 10.
  - cbn [heap_ok]. rewrite !Forall_cons. intros (?&?&?&[? ?]&?&?&?&?&?). auto 10 using apart_sym.
Qed.

Lemma heap_total_perm h h' : h ≡ₚ h' -> heap_total h = heap_total h'.
Proof. induction 1; simpl; lia. Qed.

Lemma heap_ok_app_l h1 h2 : heap_ok (h1 ++ h2) -> heap_ok h1.
Proof. induction h1 as [|r h1 IH]; [done|]. cbn. rewrite Forall_app. naive_solver. Qed.

Lemma heap_total_app h1 h2 : heap_total (h1 ++ h2) = heap_total h1 + heap_total h2.
Proof. induction h1; simpl; lia. Qed.

Lemma heap_total_nonneg h : heap_ok h -> 0 <= heap_total h.
Proof. induction h as [|r h IH]; [done|]. simpl. intros (?&?&?&?&?%IH). lia. Qed.

Lemma heap_ok_sub h1 h2 : h1 ⊆+ h2 -> heap_ok h2 -> heap_ok h1 /\ heap_total h1 <= heap_total h2.
Proof.
  intros [k Hk]%submseteq_Permutation Hok. apply (heap_ok_perm _ _ Hk) in Hok as Hok'.
  split; [by apply heap_ok_app_l in Hok'|]. rewrite (heap_total_perm _ _ Hk), heap_total_app.
  apply (heap_ok_perm _ _ (Permutation_app_comm h1 k)), heap_ok_app_l, heap_total_nonneg in Hok'. lia.
Qed.

Lemma heap_ok_elem h r : heap_ok h -> r ∈ h -> 0 < r.1 /\ 0 < r.2 /\ r.1 + r.2 <= 2 ^ 63.
Proof.
  induction h as [|r' h IH]; [by intros _ ?%elem_of_nil|]. cbn [heap_ok].
  intros (?&?&?&?&?) [->|?]%elem_of_cons; auto.
Qed.

Lemma heap_ok_apart h r1 r2 : heap_ok h -> r1 ∈ h -> r2 ∈ h -> r1 = r2 \/ apart r1 r2.
Proof.
  induction h as [|r' h IH]; [by intros _ ?%elem_of_nil|]. cbn [heap_ok]. rewrite Forall_forall.
  intros (?&?&?&Hf&?) [->|?]%elem_of_cons [->|?]%elem_of_cons; auto using apart_sym.
Qed.

Lemma heap_ok_addr h r1 r2 : heap_ok h -> r1 ∈ h -> r2 ∈ h -> r1.1 = r2.1 -> r1 = r2.
Proof.
  intros Hok H1 H2 E. destruct (heap_ok_apart h r1 r2) as [?|Ha]; [done..|].
  pose proof (heap_ok_elem h r1 Hok H1). pose proof (heap_ok_elem h r2 Hok H2). unfold apart in Ha. lia.
Qed.

(** ** Alignment *)
Definition pow2 (x : Z) : Prop := exists k, 0 <= k /\ x = 2 ^ k.

Lemma AlignPow2_spec x p :
  pow2 p -> 0 <= x -> x + p <= 2 ^ 64 -> exists pad, AlignPow2 x p = x + pad /\ 0 <= pad < p /\ (p | x + pad).
Proof.
  intros (k & Hk & ->) Hx Hb. pose proof (Z.pow_pos_nonneg 2 k ltac:(lia) Hk) as Hp.
  set (y := x + (2 ^ k - 1)).
  assert (E : AlignPow2 x (2 ^ k) = 2 ^ k * (y / 2 ^ k)).
  { unfold AlignPow2, wrap64. rewrite !(Z.mod_small (2 ^ k - 1)) by lia. fold y. rewrite (Z.mod_small y) by lia.
    rewrite <-(Z.mul_comm (y / 2 ^ k)), <-Z.shiftr_div_pow2, <-Z.shiftl_mul_pow2, <-Z.ldiff_ones_r by lia.
    rewrite Z.ones_equiv. apply Z.bits_inj'. intros i Hi. rewrite Z.land_spec, Z.ldiff_spec.
    destruct (Z.lt_ge_cases i 64).
    - rewrite Z.mod_pow2_bits_low, Z.lnot_spec by lia. done.
    - assert (Hy0 : Z.testbit y i = false); [|by rewrite Hy0].
      rewrite <-(Z.mod_small y (2 ^ 64)) by lia. apply Z.mod_pow2_bits_high. lia. }
  exists (2 ^ k * (y / 2 ^ k) - x). rewrite E. split; [lia|].
  pose proof (Z.div_mod y (2 ^ k) ltac:(lia)). pose proof (Z.mod_pos_bound y (2 ^ k) ltac:(lia)).
  split; [lia|]. exists (y / 2 ^ k). lia.
Qed.

(** ** The invariant of an arena *)
Definition region (b : ArenaBlock) : Z * Z := (b_addr b, SIZEOF_BLOCK + b_cap b).

Fixpoint chain_ok (pos : Z) (l : list ArenaBlock) : Prop :=
  match l with
  | [] => True
  | b :: l' => b_base_pos b = pos /\ 0 <= b_used b <= b_cap b /\ chain_ok (pos + b_cap b) l'
  end.

(** The blocks tile the positions from 0; each is a live region of the heap;
    those after [current] are empty. *)
Record arena_ok (h : heap) (a : Arena) : Prop := {
  ok_heap : heap_ok h;
  ok_total : heap_total h <= 2 ^ 63;
  ok_chain : chain_ok 0 (a_chain a);
  ok_live : region <$> a_chain a ⊆+ h;
  ok_after : Forall (fun b => b_used b = 0) (a_after a);
  ok_size : 0 < a_block_size a < 2 ^ 63
}.

(** A block whose use has changed. *)
Definition moved (P : ArenaBlock -> Z -> Prop) (b b' : ArenaBlock) : Prop :=
  exists u, b' = set_used u b /\ 0 <= u <= b_cap b /\ P b u.

Lemma set_used_id b : set_used (b_used b) b = b.
Proof. by destruct b. Qed.

Lemma moved_refl (P : ArenaBlock -> Z -> Prop) pos l :
  chain_ok pos l -> (forall b, b ∈ l -> P b (b_used b)) -> Forall2 (moved P) l l.
Proof.
  revert pos; induction l as [|b l IH]; intros pos Hc HP; [constructor|]. destruct Hc as (_ & ? & Hc).
  constructor; [|eapply IH; [exact Hc|intros; apply HP; by right]].
  exists (b_used b). rewrite set_used_id. split_and!; try lia; [done|]. apply HP. by left.
Qed.

Lemma moved_chain (P : ArenaBlock -> Z -> Prop) pos l l' : Forall2 (moved P) l l' -> chain_ok pos l -> chain_ok pos l'.
Proof.
  intros H. revert pos. induction H as [|b b' l l' (u & -> & Hu & _) _ IH]; intros pos; [done|].
  intros (? & _ & ?). cbn. split_and!; try done; try lia. by apply IH.
Qed.

Lemma moved_regions (P : ArenaBlock -> Z -> Prop) l l' : Forall2 (moved P) l l' -> region <$> l' = region <$> l.
Proof. induction 1 as [|b b' l l' (u & -> & _) _ IH]; [done|]. cbn. by rewrite IH. Qed.

Lemma chain_ok_app pos l1 l2 :
  chain_ok pos (l1 ++ l2) <-> chain_ok pos l1 /\ chain_ok (foldl (fun p b => p + b_cap b) pos l1) l2.
Proof.
  revert pos; induction l1 as [|b l1 IH]; intros pos; cbn; [tauto|]. rewrite IH. tauto.
Qed.

Lemma chain_total l : heap_ok (region <$> l) -> forall pos, chain_ok pos l ->
  forall b, b ∈ l -> pos <= b_base_pos b /\ 0 <= b_used b <= b_cap b /\
    b_base_pos b + b_cap b + SIZEOF_BLOCK <= pos + heap_total (region <$> l).
Proof.
  unfold SIZEOF_BLOCK. induction l as [|b0 l IH]; intros Hh pos Hc b; [by intros ?%elem_of_nil|].
  destruct Hc as (Hb & Hu & Hc), Hh as (_ & _ & _ & _ & Hh). cbn. fold (region <$> l).
  change (list_fmap _ _ region l) with (region <$> l) in Hh.
  pose proof (heap_total_nonneg _ Hh). unfold SIZEOF_BLOCK.
  intros [->|Hin]%elem_of_cons; [lia|]. specialize (IH Hh _ Hc b Hin). lia.
Qed.

Lemma arena_block_bounds h a b :
  arena_ok h a -> b ∈ a_chain a ->
  0 <= b_base_pos b /\ 0 <= b_used b <= b_cap b /\ b_base_pos b + b_cap b + SIZEOF_BLOCK <= 2 ^ 63 /\
  0 < b_addr b /\ b_addr b + SIZEOF_BLOCK + b_cap b <= 2 ^ 63.
Proof.
  intros [Hh Ht Hc Hl _ _] Hin. destruct (heap_ok_sub _ _ Hl Hh) as [Hok Hle].
  destruct (chain_total _ Hok _ Hc b Hin) as (? & ? & ?).
  destruct (heap_ok_elem h (region b) Hh) as (? & _ & ?).
  { eapply elem_of_submseteq; [|exact Hl]. by apply list_elem_of_fmap_2. }
  unfold region in *. cbn in *. unfold SIZEOF_BLOCK in *. lia.
Qed.

Lemma current_in_chain a : a_current a ∈ a_chain a.
Proof. unfold a_chain. rewrite elem_of_app, elem_of_cons. auto. Qed.

Lemma arena_pos_eq h a : arena_ok h a -> arena_pos a = b_base_pos (a_current a) + b_used (a_current a).
Proof.
  intros Hok. destruct (arena_block_bounds h a _ Hok (current_in_chain a)) as (?&?&?&_).
  unfold arena_pos, wrap64, SIZEOF_BLOCK in *. apply Z.mod_small. lia.
Qed.

(** ** Pushing *)
Definition grows (b : ArenaBlock) (u : Z) : Prop := b_used b <= u.

(** What a push leaves: the arena [a'] whose current block ends with the
    allocation of [size] bytes at [p]. *)
Record pushed (a a' : Arena) (p size align : Z) : Prop := {
  pu_aligned : (align | p);
  pu_ptr : p = b_data (a_current a') + (b_used (a_current a') - size);
  pu_low : size <= b_used (a_current a');
  pu_pos : arena_pos a + size <= arena_pos a';
  pu_blocks : exists l extra, a_chain a' = l ++ extra /\ Forall2 (moved grows) (a_chain a) l;
}.

(** A push to an arena whose blocks up to [c] are to stay: they do. *)
Definition above (B : list ArenaBlock) (c : ArenaBlock) (a : Arena) : Prop :=
  exists u, (0 <= b_used c <= u /\ u <= b_cap c) /\
    ((a_before a = B /\ a_current a = set_used u c) \/
     exists l, a_before a = B ++ set_used u c :: l).

Section push.
Context (malloc : heap -> Z -> option Z) (Hmalloc : malloc_law malloc).

(** One round of the loop: the block has room. *)
Lemma push_fits h a size align b :
  arena_ok h a -> b = a_current a -> pow2 align -> 0 <= size -> size + align < 2 ^ 63 ->
  let base := wrap64 (b_data b + b_used b) in
  let need := wrap64 (wrap64 (AlignPow2 base align - base) + size) in
  base = b_data b + b_used b /\ wrap64 (b_used b + need) = b_used b + need /\
  exists pad, AlignPow2 base align = base + pad /\ 0 <= pad < align /\ need = pad + size /\ (align | base + pad).
Proof.
  intros Hok -> Hp Hs Hb base need.
  destruct (arena_block_bounds h a _ Hok (current_in_chain a)) as (?&?&?&?&?).
  assert (Hbase : base = b_data (a_current a) + b_used (a_current a)).
  { unfold base, wrap64, b_data, SIZEOF_BLOCK in *. apply Z.mod_small. lia. }
  assert (Hr : 0 <= base <= 2 ^ 63) by (unfold b_data, SIZEOF_BLOCK in *; lia).
  destruct (AlignPow2_spec base align Hp ltac:(lia) ltac:(lia)) as (pad & E & Hpad & Hd).
  assert (Hneed : need = pad + size).
  { unfold need, wrap64. rewrite E. replace (base + pad - base) with pad by lia. rewrite !Z.mod_small; lia. }
  split; [done|]. split; [|by exists pad].
  unfold wrap64. apply Z.mod_small. unfold SIZEOF_BLOCK in *. lia.
Qed.

Lemma chain_move a next rest : a_after a = next :: rest ->
  a_chain (mkArena (a_before a ++ [a_current a]) next rest (a_block_size a)) = a_chain a.
Proof. unfold a_chain. intros ->. cbn. by rewrite <-app_assoc. Qed.

Lemma chain_next_base h a next rest :
  arena_ok h a -> a_after a = next :: rest -> b_base_pos next = b_base_pos (a_current a) + b_cap (a_current a).
Proof.
  intros Hok E. pose proof (ok_chain _ _ Hok) as Hc. unfold a_chain in Hc. rewrite E in Hc.
  apply chain_ok_app in Hc as [_ (Hb & _ & Hn & _)]. by rewrite Hn, Hb.
Qed.

Lemma above_move B c a nb rest :
  above B c a -> above B c (mkArena (a_before a ++ [a_current a]) nb rest (a_block_size a)).
Proof.
  intros (u & Hu & [[HB Hc]|[l Hl]]); exists u; (split; [done|]); right; cbn.
  - exists []. by rewrite HB, Hc.
  - exists (l ++ [a_current a]). by rewrite Hl, <-app_assoc.
Qed.

Lemma above_set B c a v :
  above B c a -> b_used (a_current a) <= v <= b_cap (a_current a) ->
  above B c (mkArena (a_before a) (set_used v (a_current a)) (a_after a) (a_block_size a)).
Proof.
  intros (u & Hu & [[HB Hc]|Hl]) Hv.
  - rewrite Hc in *. cbn in Hv. exists v. split; [lia|]. by left.
  - exists u. split; [done|]. by right.
Qed.

(** The block [arena_block_new] makes extends the chain. *)
Lemma arena_ok_grow h a p cap :
  arena_ok h a -> 0 <= cap -> (16 | p) -> heap_ok ((p, SIZEOF_BLOCK + cap) :: h) ->
  heap_total ((p, SIZEOF_BLOCK + cap) :: h) <= 2 ^ 63 -> a_after a = [] ->
  let nb := mkBlock p cap 0 (b_base_pos (a_current a) + b_cap (a_current a)) in
  arena_ok ((p, SIZEOF_BLOCK + cap) :: h) (mkArena (a_before a ++ [a_current a]) nb [] (a_block_size a)) /\
  a_chain (mkArena (a_before a ++ [a_current a]) nb [] (a_block_size a)) = a_chain a ++ [nb].
Proof.
  intros [Hh Ht Hc Hl Ha Hs] Hcap Hp Hh' Ht' E nb.
  assert (Hch : a_chain (mkArena (a_before a ++ [a_current a]) nb [] (a_block_size a)) = a_chain a ++ [nb]).
  { unfold a_chain. rewrite E. cbn. by rewrite <-app_assoc. }
  split; [|done]. split; rewrite ?Hch; try done.
  2: { rewrite fmap_app, (Permutation_app_comm (region <$> a_chain a)). by apply submseteq_skip. }
  unfold a_chain in *. rewrite E in *. rewrite <-app_assoc. apply chain_ok_app in Hc as [H1 H2].
  apply chain_ok_app. split; [done|]. destruct H2 as (Hb & Hu & _). cbn. rewrite <-Hb. split_and!; lia || done.
Qed.

(** The round that succeeds. *)
Lemma arena_ok_set h a v :
  arena_ok h a -> b_used (a_current a) <= v <= b_cap (a_current a) ->
  let a' := mkArena (a_before a) (set_used v (a_current a)) (a_after a) (a_block_size a) in
  arena_ok h a' /\ Forall2 (moved grows) (a_chain a) (a_chain a').
Proof.
  intros Hok Hv a'. destruct (arena_block_bounds h a _ Hok (current_in_chain a)) as (_&?&_).
  pose proof Hok as [Hh Ht Hc Hl Ha Hs].
  assert (Hm : Forall2 (moved grows) (a_chain a) (a_chain a')).
  { unfold a_chain in *. apply chain_ok_app in Hc as [H1 (_ & _ & H2)].
    apply Forall2_app; [by eapply moved_refl; [|unfold grows]|]. constructor; [|by eapply moved_refl; [|unfold grows]].
    exists v. unfold grows. split_and!; lia || done. }
  split; [|done]. split; try done; [by eapply moved_chain|by rewrite (moved_regions _ _ _ Hm)].
Qed.

Lemma pushed_through h h1 a a1 a' p size align :
  arena_ok h a -> arena_ok h1 a1 ->
  b_base_pos (a_current a1) = b_base_pos (a_current a) + b_cap (a_current a) ->
  (exists extra, a_chain a1 = a_chain a ++ extra) ->
  pushed a1 a' p size align -> pushed a a' p size align.
Proof.
  intros Hok Hok1 Hb [e1 He] [H1 H2 H3 H4 (l & extra & E & Hf)].
  destruct (arena_block_bounds h a _ Hok (current_in_chain a)) as (?&?&?&_).
  destruct (arena_block_bounds h1 a1 _ Hok1 (current_in_chain a1)) as (?&?&?&_).
  split; try done.
  - rewrite (arena_pos_eq _ _ Hok). rewrite (arena_pos_eq _ _ Hok1) in H4. lia.
  - rewrite He in Hf. apply Forall2_app_inv_l in Hf as (l1 & l2 & Hf1 & _ & ->).
    exists l1, (l2 ++ extra). by rewrite E, <-app_assoc.
Qed.

Lemma arena_push_loop_spec fuel h a size align :
  arena_ok h a -> pow2 align -> 0 <= size -> size + align < 2 ^ 63 ->
  (length (a_after a) + 2 <= fuel)%nat \/
    ((1 <= fuel)%nat /\ b_used (a_current a) = 0 /\ size + align <= b_cap (a_current a)) ->
  match arena_push_loop malloc fuel h a size align with
  | PushOk p a' h' =>
      arena_ok h' a' /\ pushed a a' p size align /\ h ⊆+ h' /\ forall B c, above B c a -> above B c a'
  | PushFatal => exists h n, malloc h n = None
  | PushSpins => False
  end.
Proof.
  intros Hok Hp Hs Hb. revert h a Hok. induction fuel as [|fuel IH]; intros h a Hok Hf; [lia|].
  cbn [arena_push_loop].
  destruct (push_fits h a size align _ Hok eq_refl Hp Hs Hb) as (Ebase & Ewrap & pad & Eal & Hpad & Eneed & Hd).
  destruct (arena_block_bounds h a _ Hok (current_in_chain a)) as (?&?&?&?&?).
  rewrite Ewrap. rewrite Eneed, Eal, Ebase in *.
  destruct (Z.leb_spec (b_used (a_current a) + (pad + size)) (b_cap (a_current a))) as [Hle|Hgt].
  - destruct (arena_ok_set h a (b_used (a_current a) + (pad + size)) Hok ltac:(lia)) as [Hok' Hm].
    split; [done|]. split; [|split; [done|intros B c Hab; by apply above_set; [|lia]]].
    split; try (cbn; lia).
    + done.
    + unfold b_data. cbn. lia.
    + rewrite (arena_pos_eq _ _ Hok), (arena_pos_eq _ _ Hok'). cbn. lia.
    + eexists _, []. rewrite app_nil_r. done.
  - destruct Hf as [Hf|(_ & ? & ?)]; [|lia]. destruct (a_after a) as [|next rest] eqn:Ea.
    + pose proof (ok_size _ _ Hok). unfold arena_block_new.
      set (cap := Z.max (a_block_size a) (wrap64 (size + align))).
      assert (Hcap : 0 <= cap < 2 ^ 63 /\ size + align <= cap).
      { unfold cap, wrap64. rewrite Z.mod_small by lia. lia. }
      assert (Hw : wrap64 (SIZEOF_BLOCK + cap) = SIZEOF_BLOCK + cap).
      { unfold wrap64, SIZEOF_BLOCK. apply Z.mod_small. lia. }
      rewrite Hw. destruct (malloc h (SIZEOF_BLOCK + cap)) as [q|] eqn:Em; [|by eexists _, _].
      destruct (Hmalloc h (SIZEOF_BLOCK + cap) q (ok_heap _ _ Hok) ltac:(unfold SIZEOF_BLOCK; lia) Em) as (Hq & Hh' & Ht').
      destruct (arena_ok_grow h a q cap Hok ltac:(lia) Hq Hh' Ht' Ea) as [Hok1 Hch].
      unfold wrap64 at 1. rewrite (Z.mod_small (b_base_pos _ + _)) by (unfold SIZEOF_BLOCK in *; lia).
      specialize (IH _ _ Hok1). cbn in IH. specialize (IH ltac:(right; lia)).
      destruct (arena_push_loop _ _ _ _ _ _) as [p a' h'| |] eqn:El; [| |done].
      * destruct IH as (Hok' & Hpu & Hsub & Hab). split; [done|]. split; [|split].
        -- eapply (pushed_through h); [done|exact Hok1|done| |done]. by eexists.
        -- rewrite <-Hsub. by apply submseteq_cons.
        -- intros B c Hbc. by apply Hab, above_move.
      * done.
    + set (a1 := mkArena (a_before a ++ [a_current a]) next rest (a_block_size a)).
      assert (Hch : a_chain a1 = a_chain a) by by apply chain_move.
      assert (Hok1 : arena_ok h a1).
      { destruct Hok as [? ? ? ? Haf ?]. rewrite Ea in Haf. apply Forall_cons in Haf as [_ Haf].
        by split; rewrite ?Hch. }
      specialize (IH h a1 Hok1). cbn in IH, Hf. specialize (IH ltac:(left; lia)).
      destruct (arena_push_loop _ _ _ _ _ _) as [p a' h'| |] eqn:El; [|done|done].
      destruct IH as (Hok' & Hpu & Hsub & Hab). split; [done|]. split; [|split; [done|]].
      * eapply (pushed_through h); [done|exact Hok1| | |done].
        -- by apply (chain_next_base h a next rest).
        -- exists []. by rewrite app_nil_r.
      * intros B c Hbc. by apply Hab, above_move.
Qed.
End push.

(** ** Rewinding *)
Definition chain_end (pos : Z) (l : list ArenaBlock) : Z := foldl (fun p b => p + b_cap b) pos l.
Definition in_range (b : ArenaBlock) : Prop := 0 <= b_base_pos b /\ 0 <= b_cap b /\ b_base_pos b + b_cap b < 2 ^ 64.

(** What was allocated below [pos] stays in use. *)
Definition keeps_below (pos : Z) (b : ArenaBlock) (u : Z) : Prop :=
  forall hi, 0 <= hi <= b_used b -> b_base_pos b + hi <= pos -> hi <= u.

Lemma keeps_below_refl pos b : keeps_below pos b (b_used b).
Proof. unfold keeps_below. lia. Qed.

Lemma chain_base_ge pos l b : chain_ok pos l -> b ∈ l -> pos <= b_base_pos b.
Proof.
  revert pos; induction l as [|b0 l IH]; intros pos; [by intros _ ?%elem_of_nil|].
  intros (? & ? & Hc) [->|Hin]%elem_of_cons; [lia|]. specialize (IH _ Hc Hin). lia.
Qed.

Lemma reset_moved pos p l :
  chain_ok p l -> pos <= p -> Forall2 (moved (keeps_below pos)) l (set_used 0 <$> l).
Proof.
  revert p; induction l as [|b l IH]; intros p Hc Hp; [constructor|]. destruct Hc as (Hb & Hu & Hc).
  cbn. constructor; [|apply (IH _ Hc); lia]. exists 0. unfold keeps_below. split_and!; lia || done.
Qed.

Lemma pop_walk_spec acc b rest pos :
  chain_ok 0 (acc ++ b :: rest) -> Forall in_range (acc ++ b :: rest) ->
  b_base_pos b <= pos <= chain_end 0 (acc ++ b :: rest) ->
  let '(bf, cur, af) := pop_walk acc b rest pos in
  Forall2 (moved (keeps_below pos)) (acc ++ b :: rest) (bf ++ cur :: af) /\
  b_base_pos cur + b_used cur = pos /\ Forall (fun b => b_used b = 0) af.
Proof.
  revert acc b; induction rest as [|next rest IH]; intros acc b Hc Hr Hp; cbn [pop_walk].
  all: pose proof Hr as [_ [Hrb Hr']%Forall_cons]%Forall_app; unfold in_range in Hrb.
  all: pose proof Hc as [Hc1 (Hb & Hu & Hc2)]%chain_ok_app.
  all: assert (Hstop : pos <= b_base_pos b + b_cap b ->
    forall rest', chain_ok (b_base_pos b + b_cap b) rest' ->
    Forall2 (moved (keeps_below pos)) (acc ++ b :: rest')
      (acc ++ set_used (wrap64 (pos - b_base_pos b)) b :: (set_used 0 <$> rest')) /\
    b_base_pos b + wrap64 (pos - b_base_pos b) = pos /\ Forall (fun b => b_used b = 0) (set_used 0 <$> rest')).
  1, 3: intros Hle rest' Hc'; unfold wrap64; rewrite Z.mod_small by lia; split; [|split; [lia|by apply Forall_fmap, Forall_true]].
  1, 2: apply Forall2_app; [eapply moved_refl; [done|intros; apply keeps_below_refl]|].
  1, 2: constructor; [|by eapply reset_moved]; eexists; unfold keeps_below; split_and!; [done|lia..].
  - apply Hstop; [|done]. unfold chain_end in Hp. rewrite foldl_app in Hp. cbn in Hp. rewrite <-Hb in Hp. lia.
  - unfold wrap64 at 1. rewrite (Z.mod_small (b_base_pos b + b_cap b)) by lia.
    destruct (Z.ltb_spec (b_base_pos b + b_cap b) pos) as [Hlt|Hle].
    + assert (E : acc ++ b :: next :: rest = (acc ++ [b]) ++ next :: rest) by by rewrite <-app_assoc.
      rewrite E in *. apply IH; [done..|]. destruct Hc2 as (Hn & _). lia.
    + rewrite <-Hb in Hc2. by apply (Hstop Hle (next :: rest)).
Qed.

Lemma arena_in_range h a : arena_ok h a -> Forall in_range (a_chain a).
Proof.
  intros Hok. apply Forall_forall. intros b Hb. destruct (arena_block_bounds h a b Hok Hb) as (?&?&?&_).
  unfold in_range, SIZEOF_BLOCK in *. lia.
Qed.

Lemma chain_end_ge p l b : chain_ok p l -> b ∈ l -> b_base_pos b + b_cap b <= chain_end p l /\ p <= chain_end p l.
Proof.
  revert p; induction l as [|b0 l IH]; intros p; [by intros _ ?%elem_of_nil|].
  assert (Hmono : forall l p, chain_ok p l -> p <= chain_end p l).
  { clear. induction l as [|b l IH]; intros p; cbn; [lia|]. intros (_ & ? & Hc). specialize (IH _ Hc).
    unfold chain_end in IH. lia. }
  intros (Hb & Hu & Hc). specialize (Hmono _ _ Hc). cbn. fold (chain_end (p + b_cap b0) l).
  intros [->|Hin]%elem_of_cons; [lia|]. specialize (IH _ Hc Hin). lia.
Qed.

(** The chain as [arena_pop_to] walks it, from [first]. *)
Lemma arena_pop_to_walk a pos :
  exists b rest, a_chain a = b :: rest /\
    arena_pop_to a pos = let '(bf, cur, af) := pop_walk [] b rest pos in mkArena bf cur af (a_block_size a).
Proof. unfold arena_pop_to, a_chain. destruct (a_before a) as [|b bs]; eexists _, _; by split. Qed.

Lemma arena_pop_to_spec h a pos :
  arena_ok h a -> 0 <= pos <= arena_pos a ->
  let a' := arena_pop_to a pos in
  arena_ok h a' /\ arena_pos a' = pos /\ Forall2 (moved (keeps_below pos)) (a_chain a) (a_chain a').
Proof.
  intros Hok Hp a'. destruct (arena_pop_to_walk a pos) as (b & rest & Hch & E). unfold a'. rewrite E. clear a' E.
  pose proof Hok as [Hh Ht Hc Hl Ha Hs]. pose proof (arena_in_range h a Hok) as Hr.
  rewrite (arena_pos_eq h a Hok) in Hp.
  destruct (arena_block_bounds h a _ Hok (current_in_chain a)) as (?&?&?&_).
  pose proof (chain_end_ge 0 _ _ Hc (current_in_chain a)) as [He _].
  rewrite Hch in Hc, Hr, He.
  pose proof (pop_walk_spec [] b rest pos Hc Hr) as Hw. destruct Hc as (Hb0 & _). cbn [app] in Hw.
  specialize (Hw ltac:(lia)). destruct (pop_walk [] b rest pos) as [[bf cur] af].
  destruct Hw as (Hm & Hcur & Haf). rewrite <-Hch in Hm.
  assert (Hok' : arena_ok h (mkArena bf cur af (a_block_size a))).
  { split; try done; [by apply (moved_chain _ _ _ _ Hm), (ok_chain _ _ Hok)|].
    unfold a_chain at 1. cbn. by rewrite (moved_regions _ _ _ Hm). }
  split; [done|]. split; [by rewrite (arena_pos_eq _ _ Hok')|done].
Qed.

(** Blocks that end below [pos] are walked over. *)
Lemma pop_walk_skip acc b0 l b rest pos :
  Forall (fun b => wrap64 (b_base_pos b + b_cap b) < pos) (b0 :: l) ->
  pop_walk acc b0 (l ++ b :: rest) pos = pop_walk (acc ++ b0 :: l) b rest pos.
Proof.
  revert acc b0; induction l as [|b1 l IH]; intros acc b0 [H0 Hl]%Forall_cons; cbn [app pop_walk].
  - by rewrite (proj2 (Z.ltb_lt _ _)) by done.
  - rewrite (proj2 (Z.ltb_lt _ _)) by done. rewrite IH by done. by rewrite <-app_assoc.
Qed.

Lemma pop_walk_stop acc b rest pos :
  in_range b -> b_base_pos b <= pos <= b_base_pos b + b_cap b ->
  pop_walk acc b rest pos = (acc, set_used (pos - b_base_pos b) b, set_used 0 <$> rest).
Proof.
  unfold in_range. intros Hr Hp.
  assert (E : wrap64 (pos - b_base_pos b) = pos - b_base_pos b) by (unfold wrap64; rewrite Z.mod_small; lia).
  destruct rest as [|next rest]; cbn [pop_walk]; rewrite E; [done|].
  unfold wrap64. rewrite (Z.mod_small (b_base_pos b + _)) by lia. by rewrite (proj2 (Z.ltb_ge _ _)) by lia.
Qed.

Lemma pop_walk_before acc b rest pos :
  let '(bf, cur, _) := pop_walk acc b rest pos in
  (bf = acc /\ cur = set_used (wrap64 (pos - b_base_pos b)) b) \/ exists l, bf = acc ++ b :: l.
Proof.
  destruct rest as [|next rest]; cbn [pop_walk]; [by left|].
  destruct (_ <? _); [|by left].
  enough (Hbf : forall acc b, exists l, fst (fst (pop_walk acc b rest pos)) = acc ++ l).
  { destruct (Hbf (acc ++ [b]) next) as [l Hl].
    destruct (pop_walk _ _ _ _) as [[bf cur] af]. right. exists l. cbn in Hl. by rewrite Hl, <-app_assoc. }
  induction rest as [|n rest IH]; intros acc' b'; cbn [pop_walk]; [exists []; by rewrite app_nil_r|].
  destruct (_ <? _); [|exists []; by rewrite app_nil_r].
  destruct (IH (acc' ++ [b']) n) as [l ->]. exists (b' :: l). by rewrite <-app_assoc.
Qed.

Lemma above_chain B c a : above B c a -> exists u tl, (0 <= b_used c <= u /\ u <= b_cap c) /\ a_chain a = B ++ set_used u c :: tl.
Proof.
  intros (u & Hu & [[HB Hc]|[l Hl]]); exists u; unfold a_chain.
  - exists (a_after a). by rewrite HB, Hc.
  - exists (l ++ a_current a :: a_after a). by rewrite Hl, <-app_assoc.
Qed.

(** A rewind to a position at or above the use of [c] starts at [c]. *)
Lemma pop_above h B c a pos :
  arena_ok h a -> above B c a -> (B = [] \/ 0 < b_used c) -> b_base_pos c + b_used c <= pos ->
  exists u tl, (0 <= b_used c <= u /\ u <= b_cap c) /\ a_chain a = B ++ set_used u c :: tl /\
    arena_pop_to a pos = let '(bf, cur, af) := pop_walk B (set_used u c) tl pos in mkArena bf cur af (a_block_size a).
Proof.
  intros Hok Hab HB Hpos. destruct (above_chain B c a Hab) as (u & tl & Hu & Hch).
  exists u, tl. split; [done|]. split; [done|].
  destruct (arena_pop_to_walk a pos) as (b & rest & Hch' & ->).
  pose proof (arena_in_range h a Hok) as Hr. pose proof (ok_chain _ _ Hok) as Hc.
  rewrite Hch in Hch', Hr, Hc. destruct B as [|b0 B]; injection Hch' as <- <-; [done|].
  destruct HB as [?|HB]; [done|]. rewrite pop_walk_skip; [done|].
  apply Forall_forall. intros b' Hb'.
  apply chain_ok_app in Hc as [Hc1 (Hbase & _)]. apply Forall_app in Hr as [Hr _].
  rewrite Forall_forall in Hr. specialize (Hr b' Hb').
  destruct (chain_end_ge _ _ _ Hc1 Hb') as [He _]. unfold chain_end in He. cbn [set_used b_base_pos] in Hbase.
  unfold in_range, wrap64 in *. rewrite Z.mod_small; lia.
Qed.

Lemma above_pop h B c a pos :
  arena_ok h a -> above B c a -> (B = [] \/ 0 < b_used c) -> b_base_pos c + b_used c <= pos ->
  pos <= arena_pos a -> above B c (arena_pop_to a pos).
Proof.
  intros Hok Hab HB Hpos Hle. destruct (pop_above h B c a pos) as (u & tl & Hu & Hch & E); [done..|].
  assert (Hc0 : 0 <= b_base_pos c + b_used c).
  { destruct (arena_block_bounds h a (set_used u c) Hok) as (?&?&_); [rewrite Hch; set_solver|]. cbn in *.
    lia. }
  destruct (arena_pop_to_spec h a pos Hok ltac:(lia)) as (Hok' & Hp' & _).
  pose proof (arena_block_bounds h _ _ Hok' (current_in_chain _)) as Hbd.
  rewrite (arena_pos_eq h _ Hok') in Hp'. rewrite E in *.
  pose proof (pop_walk_before B (set_used u c) tl pos) as Hw.
  destruct (pop_walk B (set_used u c) tl pos) as [[bf cur] af]. cbn in Hp', Hbd.
  destruct Hw as [[-> ->]|[l ->]].
  - exists (pos - b_base_pos c). cbn in *. split; [|left]; cbn; split; try lia; [done|].
    unfold set_used. cbn. do 2 f_equal. lia.
  - exists u. split; [done|]. right. by exists l.
Qed.

(** ** Properties *)

(** An allocation handed out, with the position of the arena just after it. *)
Record Alloc := mkAlloc { al_ptr : Z; al_size : Z; al_align : Z; al_pos : Z }.
Record astate := mkState { s_heap : heap; s_arena : Arena; s_live : list Alloc }.

(** What can happen to an arena: a push; a rewind to a position not below
    [floor], which ends the life of what was pushed above it; other code using
    the heap. *)
Inductive arena_step (malloc : heap -> Z -> option Z) (floor : Z) : astate -> astate -> Prop :=
| step_push h a live size align p a' h' :
    pow2 align -> 0 <= size -> size + align < 2 ^ 63 ->
    arena_push malloc h a size align = PushOk p a' h' ->
    arena_step malloc floor (mkState h a live) (mkState h' a' (mkAlloc p size align (arena_pos a') :: live))
| step_pop h a live pos :
    floor <= pos <= arena_pos a ->
    arena_step malloc floor (mkState h a live)
      (mkState h (arena_pop_to a pos) (filter (fun x => al_pos x <= pos) live))
| step_env h h' a live :
    heap_ok h' -> heap_total h' <= 2 ^ 63 -> region <$> a_chain a ⊆+ h' ->
    arena_step malloc floor (mkState h a live) (mkState h' a live).

(** An allocation lies in the used part of a block, where its position says. *)
Definition alloc_ok (a : Arena) (x : Alloc) : Prop :=
  (al_align x | al_ptr x) /\ 0 <= al_size x /\
  exists b lo, b ∈ a_chain a /\ 0 <= lo /\ lo + al_size x <= b_used b /\
    al_ptr x = b_data b + lo /\ al_pos x = b_base_pos b + lo + al_size x.

Fixpoint live_ok (a : Arena) (live : list Alloc) : Prop :=
  match live with
  | [] => True
  | x :: l => alloc_ok a x /\ al_pos x <= arena_pos a /\
              Forall (fun o => al_pos o <= al_pos x - al_size x) l /\ live_ok a l
  end.

Lemma Forall2_elem {A} (R : A -> A -> Prop) l l' x : Forall2 R l l' -> x ∈ l -> exists y, y ∈ l' /\ R x y.
Proof.
  induction 1 as [|a b l l' H _ IH]; [by intros ?%elem_of_nil|].
  intros [->|Hx]%elem_of_cons; [exists b; split; [left|done]|].
  destruct (IH Hx) as (y & ? & ?). exists y. split; [by right|done].
Qed.

Lemma live_ok_pos a live x : live_ok a live -> x ∈ live -> alloc_ok a x /\ al_pos x <= arena_pos a.
Proof.
  induction live as [|y live IH]; [by intros _ ?%elem_of_nil|].
  intros (?&?&_&?) [->|?]%elem_of_cons; auto.
Qed.

Lemma live_ok_transfer a a' live :
  (forall x, x ∈ live -> alloc_ok a x -> al_pos x <= arena_pos a -> alloc_ok a' x /\ al_pos x <= arena_pos a') ->
  live_ok a live -> live_ok a' live.
Proof.
  induction live as [|y live IH]; [done|]. intros Ht (?&?&?&?). cbn.
  destruct (Ht y ltac:(left) ltac:(done) ltac:(done)). split_and!; try done.
  apply IH; [|done]. intros x Hx. apply Ht. by right.
Qed.

Lemma live_ok_push h a a' p size align live :
  arena_ok h a' -> 0 <= size -> pushed a a' p size align -> live_ok a live ->
  live_ok a' (mkAlloc p size align (arena_pos a') :: live).
Proof.
  intros Hok Hs [Hd Hptr Hlow Hpos (l & extra & Hch & Hm)] Hlive. cbn. split_and!.
  - split_and!; [done..|]. exists (a_current a'), (b_used (a_current a') - size). cbn.
    rewrite (arena_pos_eq _ _ Hok). split; [apply current_in_chain|]. split_and!; lia || done.
  - done.
  - apply Forall_forall. intros x Hx. destruct (live_ok_pos a live x Hlive Hx). lia.
  - apply (live_ok_transfer a); [|done]. intros x _ (Ha & H0 & b & lo & Hb & Hlo & Hhi & Hp & Hq) Hle. split; [|lia].
    split; [done|]. split; [done|]. destruct (Forall2_elem _ _ _ b Hm Hb) as (b' & Hb' & u & -> & _ & Hg).
    unfold grows in Hg. exists (set_used u b), lo. cbn. split_and!; try done; [|lia].
    rewrite Hch. apply elem_of_app. by left.
Qed.

Lemma live_ok_filter a (P : Alloc -> Prop) `{forall x, Decision (P x)} live : live_ok a live -> live_ok a (filter P live).
Proof.
  induction live as [|x live IH]; [done|]. intros (?&?&Hf&?). rewrite filter_cons. destruct (decide (P x)); [|by apply IH].
  cbn. split_and!; try done; [|by apply IH]. apply Forall_forall. intros y [_ Hy]%list_elem_of_filter.
  rewrite Forall_forall in Hf. auto.
Qed.

Lemma live_ok_pop h a pos live :
  arena_ok h a -> 0 <= pos <= arena_pos a -> live_ok a live ->
  live_ok (arena_pop_to a pos) (filter (fun x => al_pos x <= pos) live).
Proof.
  intros Hok Hp Hlive. destruct (arena_pop_to_spec h a pos Hok Hp) as (Hok' & Hpos & Hm).
  apply (live_ok_transfer a); [|by apply live_ok_filter].
  intros x [Hx _]%list_elem_of_filter (Ha & H0 & b & lo & Hb & Hlo & Hhi & Hptr & Hq) _. split; [|lia].
  split; [done|]. split; [done|]. destruct (Forall2_elem _ _ _ b Hm Hb) as (b' & Hb' & u & -> & _ & Hg).
  exists (set_used u b), lo. cbn. split_and!; try done. apply Hg; lia.
Qed.

Section reachable.
Context (malloc : heap -> Z -> option Z) (Hmalloc : malloc_law malloc).

Definition state_ok (s : astate) : Prop :=
  arena_ok (s_heap s) (s_arena s) /\ live_ok (s_arena s) (s_live s).

Lemma arena_push_spec h a size align :
  arena_ok h a -> pow2 align -> 0 <= size -> size + align < 2 ^ 63 ->
  match arena_push malloc h a size align with
  | PushOk p a' h' =>
      arena_ok h' a' /\ pushed a a' p size align /\ h ⊆+ h' /\ forall B c, above B c a -> above B c a'
  | PushFatal => exists h n, malloc h n = None
  | PushSpins => False
  end.
Proof. intros. apply arena_push_loop_spec; [done..|]. by left. Qed.

Lemma arena_step_ok floor s s' : 0 <= floor -> arena_step malloc floor s s' -> state_ok s -> state_ok s'.
Proof.
  intros Hf [h a live size align p a' h' Hp Hs Hb Hpush|h a live pos Hpos|h h' a live Hh Ht Hl] [Hok Hlive];
    unfold state_ok; cbn in *.
  - pose proof (arena_push_spec h a size align Hok Hp Hs Hb) as H. rewrite Hpush in H.
    destruct H as (Hok' & Hpu & _). split; [done|]. by eapply live_ok_push.
  - destruct (arena_pop_to_spec h a pos Hok ltac:(lia)) as (? & _). split; [done|].
    apply (live_ok_pop h); [done|lia|done].
  - split; [|done]. destruct Hok. by split.
Qed.

Lemma arena_steps_ok floor s s' : 0 <= floor -> rtc (arena_step malloc floor) s s' -> state_ok s -> state_ok s'.
Proof. intros Hf. induction 1 as [|s1 s2 s3 H _ IH]; [done|]. intros. by apply IH, (arena_step_ok floor s1). Qed.

Lemma arena_alloc_sized_ok h block_size pa a h' :
  heap_ok h -> 0 <= block_size < 2 ^ 62 -> arena_alloc_sized malloc h block_size = Some (pa, a, h') ->
  arena_ok h' a /\ a_before a = [] /\ a_after a = [] /\ b_used (a_current a) = 0 /\
  h' = region (a_current a) :: (pa, SIZEOF_ARENA) :: h.
Proof.
  intros Hh Hb. unfold arena_alloc_sized. set (bs := if block_size =? 0 then _ else _).
  assert (Hbs : 0 < bs < 2 ^ 63).
  { unfold bs, ARENA_DEFAULT_BLOCK. destruct (Z.eqb_spec block_size 0); lia. }
  destruct (malloc h SIZEOF_ARENA) as [p|] eqn:E1; [|done].
  destruct (Hmalloc _ SIZEOF_ARENA _ Hh ltac:(done) E1) as (_ & Hh1 & _).
  unfold arena_block_new. assert (Hw : wrap64 (SIZEOF_BLOCK + bs) = SIZEOF_BLOCK + bs).
  { unfold wrap64, SIZEOF_BLOCK. apply Z.mod_small. lia. }
  rewrite Hw. destruct (malloc _ (SIZEOF_BLOCK + bs)) as [q|] eqn:E2; [|done].
  destruct (Hmalloc _ (SIZEOF_BLOCK + bs) _ Hh1 ltac:(unfold SIZEOF_BLOCK; lia) E2) as (_ & Hh2 & Ht2).
  intros [= <- <- <-]. cbn. split; [|done].
  split; try done; [cbn; lia|]. unfold a_chain. cbn. apply submseteq_skip, submseteq_nil_l.
Qed.

Lemma chain_apart h a b1 b2 :
  arena_ok h a -> b1 ∈ a_chain a -> b2 ∈ a_chain a -> b1 <> b2 -> apart (region b1) (region b2).
Proof.
  intros Hok. destruct (heap_ok_sub _ _ (ok_live _ _ Hok) (ok_heap _ _ Hok)) as [Hh _]. revert Hh. generalize (a_chain a).
  induction l as [|b l IH]; [by intros _ ?%elem_of_nil|]. intros (_ & _ & _ & Hf & Hh).
  rewrite Forall_forall in Hf.
  assert (Hl : forall b', b' ∈ l -> apart (region b) (region b')) by (intros; apply Hf; by apply list_elem_of_fmap_2).
  intros [->|H1]%elem_of_cons [->|H2]%elem_of_cons Hne; auto using apart_sym. done.
Qed.

Lemma live_apart h a live i j x y :
  arena_ok h a -> live_ok a live -> i <> j -> live !! i = Some x -> live !! j = Some y ->
  apart (al_ptr x, al_size x) (al_ptr y, al_size y).
Proof.
  intros Hok Hlive Hij Hi Hj.
  assert (Hord : al_pos x <= al_pos y - al_size y \/ al_pos y <= al_pos x - al_size x).
  { clear -Hlive Hij Hi Hj. revert i j Hij Hi Hj. induction live as [|z live IH]; intros [|i] [|j] Hij Hi Hj; try done;
      destruct Hlive as (_ & _ & Hf & Hl); cbn in Hi, Hj; rewrite Forall_forall in Hf; simplify_eq.
    - right. apply Hf. by eapply list_elem_of_lookup_2.
    - left. apply Hf. by eapply list_elem_of_lookup_2.
    - by apply (IH Hl i j); [lia|..]. }
  destruct (live_ok_pos a live x Hlive) as [(_ & Hx0 & b1 & lo1 & Hb1 & ? & ? & Hp1 & Hq1) _]; [by eapply list_elem_of_lookup_2|].
  destruct (live_ok_pos a live y Hlive) as [(_ & Hy0 & b2 & lo2 & Hb2 & ? & ? & Hp2 & Hq2) _]; [by eapply list_elem_of_lookup_2|].
  destruct (arena_block_bounds h a b1 Hok Hb1) as (_&?&_). destruct (arena_block_bounds h a b2 Hok Hb2) as (_&?&_).
  destruct (decide (b1 = b2)) as [<-|Hne]; [unfold apart; cbn; lia|].
  assert (Hap : apart (region b1) (region b2)) by by apply (chain_apart h a).
  eapply apart_sub; [exact Hap|..]; unfold b_data, SIZEOF_BLOCK in *; lia.
Qed.

(** C39. Memory safety of the arena. From a fresh arena, after any sequence of
    pushes, rewinds and other uses of the heap: every allocation still live is
    aligned as asked and lies inside the payload of a live heap block, no two
    live allocations share a byte, and the next push ends, with a null
    [malloc] as its only failure. *)
Theorem arena_allocations_safe h0 block_size pa a0 h1 s :
  heap_ok h0 -> 0 <= block_size < 2 ^ 62 ->
  arena_alloc_sized malloc h0 block_size = Some (pa, a0, h1) ->
  rtc (arena_step malloc 0) (mkState h1 a0 []) s ->
  (forall i x, s_live s !! i = Some x ->
     (al_align x | al_ptr x) /\
     exists r, r ∈ s_heap s /\ r.1 + SIZEOF_BLOCK <= al_ptr x /\ al_ptr x + al_size x <= r.1 + r.2) /\
  (forall i j x y, i <> j -> s_live s !! i = Some x -> s_live s !! j = Some y ->
     apart (al_ptr x, al_size x) (al_ptr y, al_size y)) /\
  (forall size align, pow2 align -> 0 <= size -> size + align < 2 ^ 63 ->
     match arena_push malloc (s_heap s) (s_arena s) size align with
     | PushOk _ _ _ => True
     | PushFatal => exists h n, malloc h n = None
     | PushSpins => False
     end).
Proof.
  intros Hh Hb Ha Hr. destruct (arena_alloc_sized_ok _ _ _ _ _ Hh Hb Ha) as (Hok0 & _).
  destruct (arena_steps_ok 0 _ _ ltac:(lia) Hr) as [Hok Hlive]; [done|]. split_and!.
  - intros i x Hx. apply list_elem_of_lookup_2 in Hx.
    destruct (live_ok_pos _ _ _ Hlive Hx) as [(Hal & H0 & b & lo & Hin & ? & ? & Hp & _) _].
    split; [done|]. exists (region b). destruct (arena_block_bounds _ _ b Hok Hin) as (_&?&_).
    unfold b_data in Hp. cbn. split; [|lia].
    eapply elem_of_submseteq; [|exact (ok_live _ _ Hok)]. by apply list_elem_of_fmap_2.
  - intros. by eapply live_apart.
  - intros size align Hp Hs Hsb. pose proof (arena_push_spec _ _ size align Hok Hp Hs Hsb) as H.
    by destruct (arena_push _ _ _ _ _).
Qed.

(** A temporary gives back exactly what it found: after any pushes and
    nested rewinds above its start, [temp_end] leaves the arena with the same
    current block at the same fill, every block before it untouched and every
    block after it empty. *)
Theorem arena_temp_restores h a live s :
  arena_ok h a -> live_ok a live -> (a_before a = [] \/ 0 < b_used (a_current a)) ->
  rtc (arena_step malloc (arena_pos a)) (mkState h a live) s ->
  let a' := arena_pop_to (s_arena s) (arena_pos a) in
  a_before a' = a_before a /\ a_current a' = a_current a /\
  Forall (fun b => b_used b = 0) (a_after a') /\ arena_pos a' = arena_pos a.
Proof.
  intros Hok Hl HB Hr a'. pose proof (arena_pos_eq _ _ Hok) as Hpos.
  destruct (arena_block_bounds h a _ Hok (current_in_chain a)) as (?&?&_).
  assert (Hinv : state_ok s /\ above (a_before a) (a_current a) (s_arena s) /\ arena_pos a <= arena_pos (s_arena s)).
  { refine (rtc_ind_r (fun s => state_ok s /\ above (a_before a) (a_current a) (s_arena s) /\
      arena_pos a <= arena_pos (s_arena s)) _ _ _ _ Hr).
    - split; [done|]. split; [|done]. exists (b_used (a_current a)). split; [lia|]. left. by rewrite set_used_id.
    - intros s1 s2 _ Hs (Hs1 & Hab & Hge).
      split; [by apply (arena_step_ok (arena_pos a) s1); [lia|..]|]. destruct Hs1 as [Hok1 _].
      destruct Hs as [h1 a1 l1 size align p a2 h2 Hp Hs Hb Hpush|h1 a1 l1 pos Hpp|]; cbn in *; [| |done].
      + pose proof (arena_push_spec _ _ size align Hok1 Hp Hs Hb) as Hpu. rewrite Hpush in Hpu.
        destruct Hpu as (_ & [_ _ _ Hle _] & _ & Hab'). split; [by apply Hab'|lia].
      + split; [apply (above_pop h1); done || lia|].
        destruct (arena_pop_to_spec h1 a1 pos Hok1) as (_ & -> & _); lia. }
  destruct Hinv as ([Hok1 _] & Hab & Hge).
  destruct (arena_pop_to_spec _ _ (arena_pos a) Hok1 ltac:(lia)) as (Hok' & Hp' & _). fold a' in Hok', Hp'.
  destruct (pop_above _ _ _ _ (arena_pos a) Hok1 Hab HB ltac:(lia)) as (u & tl & Hu & Hch & E). fold a' in E.
  pose proof (arena_in_range _ _ Hok1) as Hr1. rewrite Hch in Hr1. apply Forall_app in Hr1 as [_ [Hr1 _]%Forall_cons].
  rewrite pop_walk_stop in E by (cbn in *; done || lia). cbn in E.
  split_and!; [by rewrite E..| |by rewrite E; apply Forall_fmap, Forall_true|done].
  rewrite E, Hpos. cbn. replace (_ + _ - _) with (b_used (a_current a)) by lia. exact (set_used_id (a_current a)).
Qed.
End reachable.

(** A [malloc] that hands out addresses past every live region. *)
Fixpoint heap_top (h : heap) : Z :=
  match h with [] => 4096 | r :: h' => Z.max (r.1 + r.2) (heap_top h') end.
Definition bump_malloc (h : heap) (n : Z) : option Z :=
  let p := 16 * ((heap_top h + 15) / 16) in
  if p + n + heap_total h <=? 2 ^ 63 then Some p else None.

Lemma heap_top_spec h : 4096 <= heap_top h /\ Forall (fun r => r.1 + r.2 <= heap_top h) h.
Proof.
  induction h as [|r h [IH1 IH2]]; cbn; [split; [lia|constructor]|]. split; [lia|].
  constructor; [lia|]. eapply Forall_impl; [exact IH2|]. cbn. lia.
Qed.

Lemma bump_malloc_law : malloc_law bump_malloc.
Proof.
  intros h n p Hh Hn. unfold bump_malloc. destruct (heap_top_spec h) as [Ht Hf].
  pose proof (heap_total_nonneg h Hh).
  destruct (Z.leb_spec (16 * ((heap_top h + 15) / 16) + n + heap_total h) (2 ^ 63)) as [Hle|]; [|done].
  intros [= <-]. split; [by exists ((heap_top h + 15) / 16); lia|].
  assert (Hp : heap_top h <= 16 * ((heap_top h + 15) / 16)) by divmod.
  cbn. split; [|lia]. split_and!; try lia; [|done].
  eapply Forall_impl; [exact Hf|]. intros r Hr. right. cbn in *. lia.
Qed.

(** A push of 100 bytes, one of 8, a rewind past the second, a push of 70000. *)
Definition demo_run : option (Z * Arena * heap) := arena_alloc_sized bump_malloc [] 256.
Definition demo_arena : Arena := from_option (fun r => r.1.2) (mkArena [] (mkBlock 0 0 0 0) [] 0) demo_run.
Definition demo_heap : heap := from_option snd [] demo_run.
Definition push_of (a : Arena) (h : heap) (size align : Z) : Z * Arena * heap :=
  match arena_push bump_malloc h a size align with PushOk p a h => (p, a, h) | _ => (0, a, h) end.

Lemma arena_allocations_safe_witness :
  let '(p1, a1, h1) := push_of demo_arena demo_heap 100 8 in
  let '(p2, a2, h2) := push_of a1 h1 70000 4096 in
  (4096 | p2) /\ apart (p1, 100) (p2, 70000).
Proof.
  destruct (arena_allocations_safe bump_malloc bump_malloc_law [] 256 4096 demo_arena demo_heap
    (mkState (push_of (push_of demo_arena demo_heap 100 8).1.2 (push_of demo_arena demo_heap 100 8).2 70000 4096).2
       (push_of (push_of demo_arena demo_heap 100 8).1.2 (push_of demo_arena demo_heap 100 8).2 70000 4096).1.2
       [mkAlloc (push_of (push_of demo_arena demo_heap 100 8).1.2 (push_of demo_arena demo_heap 100 8).2 70000 4096).1.1 70000 4096
          (arena_pos (push_of (push_of demo_arena demo_heap 100 8).1.2 (push_of demo_arena demo_heap 100 8).2 70000 4096).1.2);
        mkAlloc (push_of demo_arena demo_heap 100 8).1.1 100 8 (arena_pos (push_of demo_arena demo_heap 100 8).1.2)])) as (H1 & H2 & _).
  - done.
  - lia.
  - vm_compute. reflexivity.
  - eapply rtc_l; [apply (step_push _ _ _ _ _ 100 8); [by exists 3|lia|lia|vm_compute; reflexivity]|].
    eapply rtc_l; [apply (step_push _ _ _ _ _ 70000 4096); [by exists 12|lia|lia|vm_compute; reflexivity]|].
    apply rtc_refl.
  - split; [apply (H1 0%nat _ eq_refl)|apply (H2 1%nat 0%nat _ _ ltac:(done) eq_refl eq_refl)].
Defined.

Lemma arena_temp_restores_witness :
  let '(_, a1, _) := push_of demo_arena demo_heap 400 16 in
  length (a_chain a1) = 2%nat /\ a_current (arena_pop_to a1 0) = a_current demo_arena.
Proof.
  split; [vm_compute; reflexivity|].
  destruct (arena_alloc_sized_ok bump_malloc bump_malloc_law [] 256 4096 demo_arena demo_heap) as (Hok & Hb & _);
    [done|lia|vm_compute; reflexivity|].
  refine (proj1 (proj2 (arena_temp_restores bump_malloc bump_malloc_law demo_heap demo_arena []
    (mkState (push_of demo_arena demo_heap 400 16).2 (push_of demo_arena demo_heap 400 16).1.2
       [mkAlloc (push_of demo_arena demo_heap 400 16).1.1 400 16 (arena_pos (push_of demo_arena demo_heap 400 16).1.2)])
    Hok I (or_introl Hb) _))).
  eapply rtc_l; [apply (step_push _ _ _ _ _ 400 16); [by exists 4|lia|lia|vm_compute; reflexivity]|].
  apply rtc_refl.
Defined.
