(* ===== verification/Ring.v ===== *)
(** * base/ring_alloc.h: the ring allocator of the socket writes

    A circular buffer that hands out contiguous, 16-byte aligned blocks and
    takes them back in the order it gave them. Offsets grow monotonically and
    are masked when they index the buffer; a block that would straddle the end
    is placed at offset 0 behind a skip marker. The producer and the consumer
    each keep a cached copy of the other's index. The operations are the atomic
    steps; their interleavings leave the cached indices stale, as in the code.

    The buffer is a function from offsets to bytes; an operation returns [None]
    when an [assert] of the code fails. *)
From stdpp Require Import relations.
From S2P Require Import Prelude Arena.

Definition RA_ALIGN : Z := 16.
Definition RA_HDR_BYTES : Z := 16.
Definition RA_SKIP : Z := Z.shiftl 1 63.

Record ra_hdr := mkHdr { size_flags : Z; hdr_tag : Z }.
Record ra_block := mkRaBlock { blk_data (* 0 is the null pointer *) : Z; blk_size : Z; blk_tag : Z }.
Record ra_ring := mkRing {
  ra_buf : Z;               (* the address of the buffer *)
  ra_mem : Z -> Z;          (* its bytes *)
  ra_mask : Z;
  ra_head : Z;
  ra_tail_cache : Z;
  ra_rsv_hdr : Z;
  ra_rsv_max : Z;
  ra_rsv_active : bool;
  ra_tail : Z;
  ra_head_cache : Z
}.

(** [memcpy] of a U64 to and from the buffer. *)
Definition store64 (m : Z -> Z) (p v : Z) : Z -> Z :=
  fun a => if (p <=? a) && (a <? p + 8) then Z.land (Z.shiftr v (8 * (a - p))) 255 else m a.
Definition load64 (m : Z -> Z) (p : Z) : Z :=
  m p + 2 ^ 8 * m (p + 1) + 2 ^ 16 * m (p + 2) + 2 ^ 24 * m (p + 3) + 2 ^ 32 * m (p + 4) + 2 ^ 40 * m (p + 5) +
  2 ^ 48 * m (p + 6) + 2 ^ 56 * m (p + 7).

Definition ra__pad (n : Z) : Z := Z.land (wrap64 (n + (RA_ALIGN - 1))) (wrap64 (Z.lnot (RA_ALIGN - 1))).

Section ring.
Implicit Types r : ra_ring.

Definition ra_set_mem (m : Z -> Z) r : ra_ring :=
  mkRing (ra_buf r) m (ra_mask r) (ra_head r) (ra_tail_cache r) (ra_rsv_hdr r) (ra_rsv_max r) (ra_rsv_active r) (ra_tail r) (ra_head_cache r).
Definition ra_set_head (v : Z) r : ra_ring :=
  mkRing (ra_buf r) (ra_mem r) (ra_mask r) v (ra_tail_cache r) (ra_rsv_hdr r) (ra_rsv_max r) (ra_rsv_active r) (ra_tail r) (ra_head_cache r).
Definition ra_set_tail_cache (v : Z) r : ra_ring :=
  mkRing (ra_buf r) (ra_mem r) (ra_mask r) (ra_head r) v (ra_rsv_hdr r) (ra_rsv_max r) (ra_rsv_active r) (ra_tail r) (ra_head_cache r).
Definition ra_set_rsv (hdr max : Z) (active : bool) r : ra_ring :=
  mkRing (ra_buf r) (ra_mem r) (ra_mask r) (ra_head r) (ra_tail_cache r) hdr max active (ra_tail r) (ra_head_cache r).
Definition ra_set_tail (v : Z) r : ra_ring :=
  mkRing (ra_buf r) (ra_mem r) (ra_mask r) (ra_head r) (ra_tail_cache r) (ra_rsv_hdr r) (ra_rsv_max r) (ra_rsv_active r) v (ra_head_cache r).
Definition ra_set_head_cache (v : Z) r : ra_ring :=
  mkRing (ra_buf r) (ra_mem r) (ra_mask r) (ra_head r) (ra_tail_cache r) (ra_rsv_hdr r) (ra_rsv_max r) (ra_rsv_active r) (ra_tail r) v.

Definition ra__hdr_write r (off sf tag : Z) : ra_ring :=
  let p := Z.land off (ra_mask r) in
  ra_set_mem (store64 (store64 (ra_mem r) p sf) (p + 8) tag) r.
Definition ra__hdr_read r (off : Z) : ra_hdr :=
  let p := Z.land off (ra_mask r) in mkHdr (load64 (ra_mem r) p) (load64 (ra_mem r) (p + 8)).

(** ** Lifecycle *)
Definition ra_init (mem : Z) (bytes : Z -> Z) (capacity : Z) : option ra_ring :=
  if mem =? 0 then None
  else if capacity <? 2 * RA_HDR_BYTES then None
  else if negb (Z.land capacity (wrap64 (capacity - 1)) =? 0) then None
  else if negb (Z.land mem (RA_ALIGN - 1) =? 0) then None
  else Some (mkRing mem bytes (wrap64 (capacity - 1)) 0 0 0 0 false 0 0).
Definition ra_reset r : ra_ring :=
  mkRing (ra_buf r) (ra_mem r) (ra_mask r) 0 0 (ra_rsv_hdr r) 0 false 0 0.

Definition ra_capacity r : Z := wrap64 (ra_mask r + 1).
Definition ra_used r : Z := wrap64 (ra_head r - ra_tail r).
Definition ra_free_space r : Z := wrap64 (ra_capacity r - ra_used r).

(** ** The producer *)

(** The address and the largest size of the span, or the null pointer. *)
Definition ra_reserve r (min_size : Z) : option (option (Z * Z) * ra_ring) :=
  if ra_rsv_active r then None
  else
    let cap := wrap64 (ra_mask r + 1) in
    if cap <? min_size then Some (None, r)
    else
      let need := ra__pad min_size in
      let head := ra_head r in
      let to_end := wrap64 (cap - Z.land head (ra_mask r)) in
      let skip := if to_end <? wrap64 (RA_HDR_BYTES + need) then to_end else 0 in
      let total_min := wrap64 (wrap64 (skip + RA_HDR_BYTES) + need) in
      let free_of tail := wrap64 (cap - wrap64 (head - tail)) in
      let r := if free_of (ra_tail_cache r) <? total_min then ra_set_tail_cache (ra_tail r) r else r in
      let free_bytes := free_of (ra_tail_cache r) in
      if free_bytes <? total_min then Some (None, r)
      else
        let '(hdr_off, to_end, r) :=
          if skip =? 0 then (head, to_end, r)
          else (wrap64 (head + skip), cap, ra__hdr_write r head (Z.lor RA_SKIP (wrap64 (skip - RA_HDR_BYTES))) 0) in
        let room_end := wrap64 (to_end - RA_HDR_BYTES) in
        let free_data := wrap64 (wrap64 (free_bytes - skip) - RA_HDR_BYTES) in
        let max_data := if room_end <? free_data then room_end else free_data in
        Some (Some (ra_buf r + Z.land (wrap64 (hdr_off + RA_HDR_BYTES)) (ra_mask r), max_data),
              ra_set_rsv hdr_off max_data true r).

Definition ra_commit r (size tag : Z) : option (Z * ra_ring) :=
  if negb (ra_rsv_active r) || negb (size <=? ra_rsv_max r) then None
  else
    let hdr_off := ra_rsv_hdr r in
    let r := ra_set_rsv hdr_off 0 false (ra__hdr_write r hdr_off size tag) in
    let new_head := wrap64 (wrap64 (hdr_off + RA_HDR_BYTES) + ra__pad size) in
    Some (ra_buf r + Z.land (wrap64 (hdr_off + RA_HDR_BYTES)) (ra_mask r), ra_set_head new_head r).

Definition ra_abort r : option ra_ring :=
  if ra_rsv_active r then Some (ra_set_rsv (ra_rsv_hdr r) 0 false r) else None.

Definition ra_alloc r (size tag : Z) : option (option Z * ra_ring) :=
  match ra_reserve r size with
  | None => None
  | Some (None, r) => Some (None, r)
  | Some (Some _, r) => match ra_commit r size tag with Some (p, r) => Some (Some p, r) | None => None end
  end.

(** ** The consumer *)
Definition is_skip (h : ra_hdr) : bool := negb (Z.land (size_flags h) RA_SKIP =? 0).
Definition no_skip (h : ra_hdr) : Z := Z.land (size_flags h) (wrap64 (Z.lnot RA_SKIP)).

Definition ra_peek r : option (ra_block * ra_ring) :=
  let tail := ra_tail r in
  let refresh := ra_head_cache r <=? tail in
  let r := if refresh then ra_set_head_cache (ra_head r) r else r in
  if refresh && (tail =? ra_head_cache r) then Some (mkRaBlock 0 0 0, r)
  else
    let h := ra__hdr_read r tail in
    let found tail h := mkRaBlock (ra_buf r + Z.land (wrap64 (tail + RA_HDR_BYTES)) (ra_mask r)) (size_flags h) (hdr_tag h) in
    if is_skip h then
      let tail := wrap64 (tail + wrap64 (RA_HDR_BYTES + no_skip h)) in
      let h := ra__hdr_read r tail in
      if negb (tail <? ra_head_cache r) || is_skip h then None else Some (found tail h, r)
    else Some (found tail h, r).

Definition ra_release r : option ra_ring :=
  let tail := ra_tail r in
  if tail =? ra_head r then None
  else
    let h := ra__hdr_read r tail in
    let finish tail h := Some (ra_set_tail (wrap64 (tail + wrap64 (RA_HDR_BYTES + ra__pad (size_flags h)))) r) in
    if is_skip h then
      let tail := wrap64 (tail + wrap64 (RA_HDR_BYTES + no_skip h)) in
      let h := ra__hdr_read r tail in
      if is_skip h then None else finish tail h
    else finish tail h.

(** With the check of the debug build that [p] is the oldest block. *)
Definition ra_free r (p : Z) : option ra_ring :=
  match ra_peek r with
  | Some (b, r) => if blk_data b =? p then ra_release r else None
  | None => None
  end.
End ring.

(** ** Memory *)
Lemma load_store_same m p v : 0 <= v < 2 ^ 64 -> load64 (store64 m p v) p = v.
Proof.
  intros Hv.
  assert (forall i, 0 <= i < 8 -> store64 m p v (p + i) = (v / 2 ^ (8 * i)) mod 2 ^ 8) as Hb.
  { intros i Hi. unfold store64. rewrite (proj2 (Z.leb_le _ _)), (proj2 (Z.ltb_lt _ _)) by lia. cbn [andb].
    rewrite Z.shiftr_div_pow2 by lia. replace (p + i - p) with i by lia. apply (land_mask _ 8). lia. }
  unfold load64. pose proof (Hb 0 ltac:(lia)) as Hb0. rewrite Z.add_0_r in Hb0. rewrite Hb0, !Hb by lia. clear Hb Hb0.
  assert (forall i, 0 <= i -> v / 2 ^ (8 * i) = 2 ^ 8 * (v / 2 ^ (8 * (i + 1))) + (v / 2 ^ (8 * i)) mod 2 ^ 8) as Hd.
  { intros i Hi. replace (8 * (i + 1)) with (8 * i + 8) by lia. rewrite Z.pow_add_r, <-Z.div_div by lia.
    apply Z.div_mod. lia. }
  assert (v / 2 ^ (8 * (7 + 1)) = 0) as D8 by (apply Z.div_small; lia).
  assert (forall v v1 v2 v3 v4 v5 v6 v7 v8 b0 b1 b2 b3 b4 b5 b6 b7,
    v8 = 0 -> v7 = 2 ^ 8 * v8 + b7 -> v6 = 2 ^ 8 * v7 + b6 -> v5 = 2 ^ 8 * v6 + b5 -> v4 = 2 ^ 8 * v5 + b4 ->
    v3 = 2 ^ 8 * v4 + b3 -> v2 = 2 ^ 8 * v3 + b2 -> v1 = 2 ^ 8 * v2 + b1 -> v = 2 ^ 8 * v1 + b0 ->
    b0 + 2 ^ 8 * b1 + 2 ^ 16 * b2 + 2 ^ 24 * b3 + 2 ^ 32 * b4 + 2 ^ 40 * b5 + 2 ^ 48 * b6 + 2 ^ 56 * b7 = v) as Hsum.
  { clear. intros. subst. ring. }
  etrans; [|apply Z.div_1_r]. change 1 with (2 ^ (8 * 0)).
  exact (Hsum _ _ _ _ _ _ _ _ _ _ _ _ _ _ _ _ _ D8 (Hd 7 ltac:(lia)) (Hd 6 ltac:(lia)) (Hd 5 ltac:(lia)) (Hd 4 ltac:(lia))
    (Hd 3 ltac:(lia)) (Hd 2 ltac:(lia)) (Hd 1 ltac:(lia)) (Hd 0 ltac:(lia))).
Qed.
Lemma store_other m p v a : a < p \/ p + 8 <= a -> store64 m p v a = m a.
Proof.
  intros Ha. unfold store64. destruct (Z.leb_spec p a), (Z.ltb_spec a (p + 8)); cbn [andb]; done || lia.
Qed.
Lemma load_ext m m' p : (forall i, 0 <= i < 8 -> m (p + i) = m' (p + i)) -> load64 m p = load64 m' p.
Proof.
  intros Hm. pose proof (Hm 0 ltac:(lia)) as H0. rewrite Z.add_0_r in H0. unfold load64. rewrite H0, !Hm by lia. done.
Qed.

Lemma ra__pad_spec n :
  0 <= n -> n + 16 <= 2 ^ 64 -> exists pad, ra__pad n = n + pad /\ 0 <= pad < 16 /\ (16 | n + pad).
Proof.
  intros Hn Hb. destruct (AlignPow2_spec n 16) as (pad & E & Hp); [by exists 4|done|lia|]. exists pad.
  split; [|done]. rewrite <-E. unfold ra__pad, AlignPow2, RA_ALIGN. by rewrite (eq_refl : wrap64 (16 - 1) = 16 - 1).
Qed.

Lemma RA_SKIP_eq : RA_SKIP = 2 ^ 63.
Proof. reflexivity. Qed.
Lemma skip_flag x : 0 <= x < 2 ^ 63 -> Z.lor RA_SKIP x = 2 ^ 63 + x.
Proof. intros Hx. unfold RA_SKIP. by rewrite lor_shiftl_add by lia. Qed.
Lemma is_skip_size x t : 0 <= x < 2 ^ 63 -> is_skip (mkHdr x t) = false.
Proof.
  intros Hx. unfold is_skip. cbn [size_flags]. rewrite <-(Z.mod_small x (2 ^ 63)), <-land_mask, <-Z.land_assoc by lia.
  change (Z.land (2 ^ 63 - 1) RA_SKIP) with 0. by rewrite Z.land_0_r.
Qed.
Lemma is_skip_marker x t : 0 <= x < 2 ^ 63 -> is_skip (mkHdr (2 ^ 63 + x) t) = true /\ no_skip (mkHdr (2 ^ 63 + x) t) = x.
Proof.
  intros Hx. split.
  - unfold is_skip. cbn [size_flags]. rewrite <-skip_flag, Z.land_lor_distr_l, Z.land_diag by done.
    pose proof (is_skip_size x t Hx) as Hs. unfold is_skip in Hs. cbn [size_flags] in Hs.
    apply negb_false_iff, Z.eqb_eq in Hs. by rewrite Hs.
  - unfold no_skip. cbn [size_flags]. change (wrap64 (Z.lnot RA_SKIP)) with (2 ^ 63 - 1). rewrite land_mask by lia.
    replace (2 ^ 63 + x) with (x + 1 * 2 ^ 63) by lia. rewrite Z.mod_add by lia. by apply Z.mod_small.
Qed.

(** ** The buffer as a window of offsets

    [cap] is the capacity. Offset [o] is byte [o mod cap] of the buffer. *)
Definition capacity_ok (cap : Z) : Prop := exists k, 5 <= k <= 61 /\ cap = 2 ^ k.

Section window.
Context (cap : Z) (Hcap : capacity_ok cap).

Lemma cap_bounds : 32 <= cap <= 2 ^ 61 /\ (16 | cap).
Proof.
  destruct Hcap as (k & Hk & E). rewrite E. split; [split|].
  - change 32 with (2 ^ 5). apply Z.pow_le_mono_r; lia.
  - apply Z.pow_le_mono_r; lia.
  - exists (2 ^ (k - 4)). change 16 with (2 ^ 4). rewrite <-Z.pow_add_r by lia. f_equal. lia.
Qed.
Lemma land_cap o : Z.land o (cap - 1) = o mod cap.
Proof. destruct Hcap as (k & Hk & E). rewrite E. apply land_mask. lia. Qed.

Lemma window_apart a n b m :
  0 <= n -> 0 <= m -> a mod cap + n <= cap -> b mod cap + m <= cap -> a + n <= b -> b + m <= a + cap ->
  apart (a mod cap, n) (b mod cap, m).
Proof.
  destruct cap_bounds as [Hc _]. intros Hn Hm Ha Hb Hab Hba. unfold apart. cbn [fst snd].
  pose proof (Z.div_mod a cap ltac:(lia)) as Da. pose proof (Z.div_mod b cap ltac:(lia)) as Db.
  pose proof (Z.mod_pos_bound a cap ltac:(lia)) as Ba. pose proof (Z.mod_pos_bound b cap ltac:(lia)) as Bb.
  set (qa := a / cap) in *. set (qb := b / cap) in *. clearbody qa qb.
  destruct (Z.lt_trichotomy qb qa) as [Hq|[Hq|Hq]]; [nia|subst; left; lia|].
  assert (qb = qa + 1) as -> by nia. right. nia.
Qed.

(** A multiple of 16 leaves room for a header before the end. *)
Lemma aligned_mod o : (16 | o) -> (16 | o mod cap) /\ 0 <= o mod cap /\ o mod cap + 16 <= cap.
Proof.
  destruct cap_bounds as [Hc Hd]. intros Ho. pose proof (Z.mod_pos_bound o cap ltac:(lia)) as Hb.
  assert (16 | o mod cap) as Hm by (rewrite Z.mod_eq by lia; apply Z.divide_sub_r; [done|by apply Z.divide_mul_l]).
  split; [done|]. split; [lia|]. destruct Hm as [u Hu], Hd as [v Hv]. lia.
Qed.
Lemma mod_room o i : 0 <= i -> o mod cap + i < cap -> (o + i) mod cap = o mod cap + i.
Proof.
  destruct cap_bounds as [Hc _]. intros Hi Hr. pose proof (Z.mod_pos_bound o cap ltac:(lia)).
  rewrite <-Zplus_mod_idemp_l. apply Z.mod_small. lia.
Qed.

(** The payload behind a header does not straddle the end either. *)
Lemma data_room o n : (16 | o) -> 0 <= n -> o mod cap + 16 + n <= cap -> (o + 16) mod cap + n <= cap.
Proof.
  intros Ho Hn Hr. destruct cap_bounds as [Hc _], (aligned_mod o Ho) as (_ & ? & ?).
  destruct (Z.eq_dec (o mod cap + 16) cap) as [E|E]; [|rewrite mod_room by lia; lia].
  pose proof (Z.mod_pos_bound (o + 16) cap ltac:(lia)). lia.
Qed.

Definition hdr_at (m : Z -> Z) (o sf tag : Z) : Prop := load64 m (o mod cap) = sf /\ load64 m (o mod cap + 8) = tag.
Definition agree (m m' : Z -> Z) (a b : Z) : Prop := forall o, a <= o < b -> m (o mod cap) = m' (o mod cap).
Definition contents (m : Z -> Z) (o n : Z) : list Z := (fun i => m (o mod cap + Z.of_nat i)) <$> seq 0 (Z.to_nat n).
Definition hdr_write (m : Z -> Z) (o sf tag : Z) : Z -> Z := store64 (store64 m (o mod cap) sf) (o mod cap + 8) tag.

Lemma agree_sub m m' a b a' b' : agree m m' a b -> a <= a' -> b' <= b -> agree m m' a' b'.
Proof. intros Hm Ha Hb o Ho. apply Hm. lia. Qed.
Lemma hdr_at_agree m m' o sf tag : (16 | o) -> agree m m' o (o + 16) -> hdr_at m o sf tag -> hdr_at m' o sf tag.
Proof.
  intros Ho Hm [<- <-]. destruct (aligned_mod o Ho) as (_ & ? & ?).
  assert (forall j, 0 <= j < 16 -> m (o mod cap + j) = m' (o mod cap + j)) as He.
  { intros j Hj. rewrite <-!mod_room by lia. apply Hm. lia. }
  split; symmetry; apply load_ext; intros i Hi; [apply He; lia|]. rewrite <-!Z.add_assoc. apply He. lia.
Qed.
Lemma contents_agree m m' o n :
  0 <= n -> o mod cap + n <= cap -> agree m m' o (o + n) -> contents m o n = contents m' o n.
Proof.
  intros Hn Hr Hm. unfold contents. apply list_fmap_ext. intros i x [-> Hx]%lookup_seq.
  rewrite <-!mod_room by lia. apply Hm. lia.
Qed.
Lemma hdr_write_hdr m o sf tag : 0 <= sf < 2 ^ 64 -> 0 <= tag < 2 ^ 64 -> hdr_at (hdr_write m o sf tag) o sf tag.
Proof.
  intros Hs Ht. split; unfold hdr_write; [|by apply load_store_same].
  etrans; [|by apply (load_store_same m (o mod cap) sf)]. apply load_ext. intros i Hi. apply store_other. lia.
Qed.
Lemma hdr_write_other m o sf tag x :
  (16 | o) -> (x < o /\ o + 16 <= x + cap) \/ (o + 16 <= x /\ x < o + cap) -> hdr_write m o sf tag (x mod cap) = m (x mod cap).
Proof.
  intros Ho Hx. destruct (aligned_mod o Ho) as (_ & ? & ?), cap_bounds as [Hc _].
  pose proof (Z.mod_pos_bound x cap ltac:(lia)).
  assert (apart (o mod cap, 16) (x mod cap, 1)) as Ha.
  { destruct Hx as [Hx|Hx]; [apply apart_sym|]; apply window_apart; lia. }
  unfold apart in Ha. cbn [fst snd] in Ha. unfold hdr_write. rewrite !store_other by lia. done.
Qed.

(** ** The invariant

    A block the ring has handed out: the offset of its header, and what was
    committed. *)
Record Blk := mkBlk { k_off : Z; k_size : Z; k_tag : Z; k_data : list Z }.
Definition blk_end (b : Blk) : Z := k_off b + 16 + ra__pad (k_size b).

(** [o] is where the block at or after [s] starts. *)
Definition gap (m : Z -> Z) (s o : Z) : Prop :=
  o = s \/ (o = s + (cap - s mod cap) /\ hdr_at m s (2 ^ 63 + (cap - s mod cap - 16)) 0).
Record blk_ok (m : Z -> Z) (b : Blk) : Prop := {
  bo_align : (16 | k_off b);
  bo_size : 0 <= k_size b <= cap;
  bo_room : k_off b mod cap + 16 + ra__pad (k_size b) <= cap;
  bo_hdr : hdr_at m (k_off b) (k_size b) (k_tag b);
  bo_data : contents m (k_off b + 16) (k_size b) = k_data b
}.
Fixpoint chain (m : Z -> Z) (s : Z) (q : list Blk) (e : Z) : Prop :=
  match q with
  | [] => s = e
  | b :: q => gap m s (k_off b) /\ blk_ok m b /\ chain m (blk_end b) q e
  end.

Record rsv_ok (r : ra_ring) : Prop := {
  rs_align : (16 | ra_rsv_hdr r);
  rs_gap : gap (ra_mem r) (ra_head r) (ra_rsv_hdr r);
  rs_max : 0 <= ra_rsv_max r /\ (16 | ra_rsv_max r);
  rs_room : ra_rsv_hdr r mod cap + 16 + ra_rsv_max r <= cap;
  rs_free : ra_rsv_hdr r + 16 + ra_rsv_max r <= ra_tail_cache r + cap
}.
Record ring_ok (r : ra_ring) (q : list Blk) : Prop := {
  ro_mask : ra_mask r = cap - 1;
  ro_tail : (16 | ra_tail r) /\ (16 | ra_tail_cache r);
  ro_order : 0 <= ra_tail_cache r <= ra_tail r /\ ra_head r <= ra_tail_cache r + cap;
  ro_bound : ra_tail_cache r <= 2 ^ 63;
  ro_cache : ra_head_cache r <= ra_head r;
  ro_chain : chain (ra_mem r) (ra_tail r) q (ra_head r);
  ro_split : ra_tail r < ra_head_cache r ->
    exists q1 q2, q = q1 ++ q2 /\ chain (ra_mem r) (ra_tail r) q1 (ra_head_cache r);
  ro_rsv : ra_rsv_active r = true -> rsv_ok r
}.

Lemma pad_bounds n : 0 <= n <= cap -> n <= ra__pad n <= cap /\ ra__pad n < n + 16 /\ (16 | ra__pad n).
Proof.
  destruct cap_bounds as [Hc Hd]. intros Hn. destruct (ra__pad_spec n) as (p & -> & Hp & Hm); [lia..|].
  split_and!; try done; try lia.
Qed.
Lemma gap_le m s o : (16 | s) -> gap m s o -> s <= o /\ (o = s \/ s + 16 <= o).
Proof. intros Hs [->|[-> _]]; [lia|]. destruct (aligned_mod s Hs) as (_ & ? & ?). lia. Qed.
Lemma blk_size_le m b : blk_ok m b -> 0 <= k_size b <= ra__pad (k_size b) /\ (16 | blk_end b).
Proof.
  intros [Ha Hs Hr _ _]. destruct (pad_bounds (k_size b) Hs) as (? & ? & Hm). split; [lia|].
  unfold blk_end. apply Z.divide_add_r; [apply Z.divide_add_r; [done|by exists 1]|done].
Qed.
Lemma chain_le m q s e : (16 | s) -> chain m s q e -> s <= e /\ (16 | e).
Proof.
  revert s. induction q as [|b q IH]; intros s Hs; cbn [chain]; [by intros <-|]. intros (Hg & Hb & Hc).
  destruct (blk_size_le m b Hb) as [? Hm]. destruct (IH _ Hm Hc) as [? ?]. split; [|done].
  destruct (gap_le m s _ Hs Hg). unfold blk_end in *. lia.
Qed.
Lemma chain_app m q1 q2 s e : chain m s (q1 ++ q2) e <-> exists x, chain m s q1 x /\ chain m x q2 e.
Proof.
  revert s. induction q1 as [|b q1 IH]; intros s; cbn [chain app].
  - split; [intros Hc; by exists s|by intros (x & -> & Hc)].
  - rewrite IH. split; [intros (? & ? & x & ? & ?); exists x; done|]. intros (x & (? & ? & ?) & ?). split_and!; [done..|].
    by exists x.
Qed.

(** What the invariant says of the memory is about the bytes in use. *)
Lemma gap_agree m m' s o : (16 | s) -> agree m m' s (Z.max (s + 16) o) -> gap m s o -> gap m' s o.
Proof.
  intros Hs Hm [->|[-> Hh]]; [by left|right; split; [done|]]. eapply hdr_at_agree; [done| |done].
  eapply agree_sub; [done|lia|lia].
Qed.
Lemma blk_ok_agree m m' b : agree m m' (k_off b) (blk_end b) -> blk_ok m b -> blk_ok m' b.
Proof.
  intros Hm Hb. destruct (blk_size_le m b Hb) as [Hp _]. destruct Hb as [Ha Hs Hr Hh Hd].
  destruct (aligned_mod (k_off b) Ha) as (_ & ? & ?). unfold blk_end in Hm. split; try done.
  - eapply hdr_at_agree; [done| |done]. eapply agree_sub; [done|lia|lia].
  - rewrite <-Hd. symmetry. apply contents_agree; [lia| |eapply agree_sub; [done|lia|lia]].
    apply data_room; [done|lia..].
Qed.
Lemma chain_agree m m' q s e : (16 | s) -> agree m m' s e -> chain m s q e -> chain m' s q e.
Proof.
  revert s. induction q as [|b q IH]; intros s Hs Hm; cbn [chain]; [done|]. intros (Hg & Hb & Hc).
  destruct (blk_size_le m b Hb) as [? Hd]. destruct (gap_le m s _ Hs Hg) as [? ?]. destruct (chain_le m q _ e Hd Hc) as [? ?].
  unfold blk_end in *. split_and!.
  - eapply gap_agree; [done| |done]. eapply agree_sub; [done|lia|lia].
  - eapply blk_ok_agree; [|done]. eapply agree_sub; [done|lia|unfold blk_end; lia].
  - apply IH; [done| |done]. eapply agree_sub; [done|lia|lia].
Qed.

Lemma wrap64_small x : 0 <= x < 2 ^ 64 -> wrap64 x = x.
Proof. apply Z.mod_small. Qed.
Lemma ring_bounds r q :
  ring_ok r q -> (16 | ra_head r) /\ 0 <= ra_tail r <= ra_head r /\ ra_head r <= ra_tail r + cap /\ ra_head r <= 2 ^ 63 + cap.
Proof.
  intros [? [? ?] ? ? ? Hc ? ?]. destruct (chain_le _ q (ra_tail r) _ ltac:(done) Hc) as [? ?]. split_and!; try done; lia.
Qed.
Lemma hdr_write_eq r off sf tag :
  ra_mask r = cap - 1 -> ra__hdr_write r off sf tag = ra_set_mem (hdr_write (ra_mem r) off sf tag) r.
Proof. intros Hm. unfold ra__hdr_write. by rewrite Hm, land_cap. Qed.
Lemma hdr_read_eq r off sf tag : ra_mask r = cap - 1 -> hdr_at (ra_mem r) off sf tag -> ra__hdr_read r off = mkHdr sf tag.
Proof. intros Hm [<- <-]. unfold ra__hdr_read. by rewrite Hm, land_cap. Qed.

(** A write outside the bytes in use. *)
Lemma ring_ok_mem r q m' :
  ring_ok r q -> agree (ra_mem r) m' (ra_tail r) (ra_head r) ->
  (ra_rsv_active r = true -> rsv_ok (ra_set_mem m' r)) -> ring_ok (ra_set_mem m' r) q.
Proof.
  intros Hr Ha Hv. pose proof (ring_bounds r q Hr). destruct Hr as [? [Ht ?] ? ? ? Hc Hs ?]. split; cbn; try done.
  - by eapply chain_agree.
  - intros Hlt. destruct (Hs Hlt) as (q1 & q2 & -> & Hc1). exists q1, q2. split; [done|].
    eapply chain_agree; [done| |done]. eapply agree_sub; [done|lia|lia].
Qed.
Lemma ring_ok_tail_cache r q :
  ring_ok r q -> ra_rsv_active r = false -> ra_tail r <= 2 ^ 63 -> ring_ok (ra_set_tail_cache (ra_tail r) r) q.
Proof.
  intros Hr Hf Hb. pose proof (ring_bounds r q Hr). destruct Hr as [? [? ?] ? ? ? ? ? ?].
  split; cbn; try done; try lia. congruence.
Qed.

(** A reservation at the head, or behind a skip marker at the head. *)
Lemma ring_ok_rsv r q o max :
  ring_ok r q -> gap (ra_mem r) (ra_head r) o -> (16 | o) -> 0 <= max -> (16 | max) -> o mod cap + 16 + max <= cap ->
  o + 16 + max <= ra_tail_cache r + cap -> ring_ok (ra_set_rsv o max true r) q.
Proof. intros [? ? ? ? ? ? ? ?] ? ? ? ? ? ?. by split. Qed.
Lemma ring_ok_marker r q :
  let skip := cap - ra_head r mod cap in
  ring_ok r q -> ra_rsv_active r = false -> ra_head r + skip + 16 <= ra_tail_cache r + cap ->
  let m := hdr_write (ra_mem r) (ra_head r) (2 ^ 63 + (skip - 16)) 0 in
  ring_ok (ra_set_mem m r) q /\ gap m (ra_head r) (ra_head r + skip) /\ (ra_head r + skip) mod cap = 0.
Proof.
  intros skip Hr Ha Hf m. pose proof (ring_bounds r q Hr) as (Hha & ? & ? & ?). pose proof (ro_order _ _ Hr).
  destruct cap_bounds as [Hc Hcd], (aligned_mod _ Hha) as (_ & ? & ?). subst skip. split_and!.
  - apply ring_ok_mem; [done| |congruence]. intros o Ho. unfold m. symmetry. apply hdr_write_other; [done|lia].
  - right. split; [done|]. apply hdr_write_hdr; lia.
  - replace (ra_head r + (cap - ra_head r mod cap)) with ((ra_head r / cap + 1) * cap); [apply Z.mod_mul; lia|].
    pose proof (Z.div_mod (ra_head r) cap ltac:(lia)). lia.
Qed.

Lemma min_ltb a b : Z.min a b = if a <? b then a else b.
Proof. destruct (Z.ltb_spec a b); lia. Qed.
Lemma min_divide d a b : (d | a) -> (d | b) -> (d | Z.min a b).
Proof. intros Ha Hb. by destruct (Z.min_spec a b) as [[_ ->]|[_ ->]]. Qed.

(** The padding before the end that a block of [n] bytes would need. *)
Definition skip_of (r : ra_ring) (n : Z) : Z :=
  let to_end := cap - ra_head r mod cap in if to_end <? 16 + ra__pad n then to_end else 0.
Definition free_of (r : ra_ring) (tail : Z) : Z := cap - (ra_head r - tail).

(** The tail the producer works with: the cached one if it is enough. *)
Definition refreshed (r : ra_ring) (total : Z) : ra_ring :=
  if free_of r (ra_tail_cache r) <? total then ra_set_tail_cache (ra_tail r) r else r.
Lemma refreshed_ok r q total :
  ring_ok r q -> ra_rsv_active r = false -> ra_head r <= 2 ^ 63 ->
  ring_ok (refreshed r total) q /\ ra_rsv_active (refreshed r total) = false /\ ra_head (refreshed r total) = ra_head r /\
  ra_buf (refreshed r total) = ra_buf r /\
  (free_of r (ra_tail_cache (refreshed r total)) < total -> free_of r (ra_tail r) < total).
Proof.
  intros Hr Ha Hh. pose proof (ring_bounds r q Hr). unfold refreshed.
  destruct (Z.ltb_spec (free_of r (ra_tail_cache r)) total) as [Hf|Hf]; split_and!; try done; cbn; try lia.
  apply ring_ok_tail_cache; [done..|lia].
Qed.

(** [ra_reserve] without the machine arithmetic. *)
Definition reserve (r : ra_ring) (n : Z) : option (Z * Z) * ra_ring :=
  let skip := skip_of r n in
  let total := skip + 16 + ra__pad n in
  let r1 := refreshed r total in
  let free := free_of r (ra_tail_cache r1) in
  if free <? total then (None, r1)
  else if skip =? 0 then
    let max := Z.min (cap - ra_head r mod cap - 16) (free - 16) in
    (Some (ra_buf r + (ra_head r + 16) mod cap, max), ra_set_rsv (ra_head r) max true r1)
  else
    let max := Z.min (cap - 16) (free - skip - 16) in
    (Some (ra_buf r + (ra_head r + skip + 16) mod cap, max),
     ra_set_rsv (ra_head r + skip) max true (ra_set_mem (hdr_write (ra_mem r1) (ra_head r) (2 ^ 63 + (skip - 16)) 0) r1)).

Lemma skip_of_cases r n :
  (16 | ra_head r) -> 0 <= n <= cap ->
  let to_end := cap - ra_head r mod cap in
  (skip_of r n = 0 /\ 16 + ra__pad n <= to_end) \/ (skip_of r n = to_end /\ to_end < 16 + ra__pad n /\ 16 <= to_end <= cap).
Proof.
  intros Hh Hn to_end. destruct (aligned_mod (ra_head r) Hh) as (_ & ? & ?). unfold skip_of. fold to_end.
  destruct (Z.ltb_spec to_end (16 + ra__pad n)); subst to_end; lia.
Qed.

Lemma ra_reserve_eq r q n :
  ring_ok r q -> ra_rsv_active r = false -> ra_head r <= 2 ^ 63 -> 0 <= n ->
  ra_reserve r n = Some (if cap <? n then (None, r) else reserve r n).
Proof.
  intros Hr Ea Hh Hn. unfold ra_reserve. rewrite Ea.
  pose proof (ring_bounds r q Hr) as (Hha & Hth & Hhc & Hhb). destruct cap_bounds as [Hc Hcd].
  pose proof (ro_mask _ _ Hr) as Hm. rewrite Hm, !land_cap.
  replace (wrap64 (cap - 1 + 1)) with cap by (rewrite wrap64_small; lia).
  destruct (Z.ltb_spec cap n) as [Hl|Hl]; [done|].
  destruct (pad_bounds n ltac:(lia)) as (Hpn & Hpl & Hpd), (aligned_mod (ra_head r) Hha) as (Hhm & Hh0 & Hh1).
  unfold RA_HDR_BYTES. rewrite (wrap64_small (cap - ra_head r mod cap)), (wrap64_small (16 + _)) by lia.
  change (if _ <? 16 + _ then _ else _) with (skip_of r n).
  pose proof (skip_of_cases r n Hha ltac:(lia)) as Hs. cbv zeta in Hs. unfold reserve. set (skip := skip_of r n) in *.
  rewrite (wrap64_small (skip + 16)), (wrap64_small (skip + 16 + _)) by lia. set (total := skip + 16 + ra__pad n) in *.
  destruct (refreshed_ok r q total Hr Ea Hh) as (Hr1 & Ha1 & Eh & Eb & _).
  pose proof (ro_order _ _ Hr) as Ho. pose proof (ro_order _ _ Hr1) as Ho1. rewrite Eh in Ho1. pose proof (ring_bounds _ q Hr1) as Hb1.
  pose proof (ro_mask _ _ Hr1) as Hm1. rewrite Eh in Hb1.
  rewrite (wrap64_small (ra_head r - ra_tail_cache r)), (wrap64_small (cap - (ra_head r - ra_tail_cache r))) by lia.
  change (if cap - (ra_head r - ra_tail_cache r) <? total then _ else r) with (refreshed r total). set (r1 := refreshed r total) in *.
  clearbody r1. rewrite (wrap64_small (ra_head r - ra_tail_cache r1)), (wrap64_small (cap - (ra_head r - _))) by lia.
  fold (free_of r (ra_tail_cache r1)). set (free := free_of r (ra_tail_cache r1)). destruct (Z.ltb_spec free total); [done|].
  assert (free = cap - (ra_head r - ra_tail_cache r1)) as Ef by done.
  assert (total = skip + 16 + ra__pad n) as Et by done. clearbody free total skip.
  f_equal. destruct (Z.eqb_spec skip 0) as [E0|E0].
  - rewrite E0 in *.
    rewrite (wrap64_small (_ - _ - 16)), (wrap64_small (free - 0)), (wrap64_small (free - 0 - 16)), wrap64_small by lia.
    rewrite Hm1, land_cap, Eb, Z.sub_0_r. by rewrite <-min_ltb.
  - rewrite (wrap64_small (skip - 16)), (wrap64_small (cap - 16)), (wrap64_small (free - skip)), (wrap64_small (_ - 16)),
      (wrap64_small (ra_head r + skip)), skip_flag, hdr_write_eq, wrap64_small by (done || lia).
    cbn [ra_set_mem ra_buf ra_mask]. rewrite Hm1, land_cap, Eb. by rewrite <-min_ltb.
Qed.

Lemma reserve_ok r q n :
  ring_ok r q -> ra_rsv_active r = false -> ra_head r <= 2 ^ 63 -> 0 <= n <= cap ->
  let '(res, r') := reserve r n in
  ring_ok r' q /\ ra_buf r' = ra_buf r /\
  match res with
  | None => ra_rsv_active r' = false /\ free_of r (ra_tail r) < skip_of r n + 16 + ra__pad n
  | Some (p, max) => n <= max /\ p = ra_buf r + (ra_rsv_hdr r' + 16) mod cap /\ max = ra_rsv_max r' /\ ra_rsv_active r' = true
  end.
Proof.
  intros Hr Ha Hh Hn. pose proof (ring_bounds r q Hr) as (Hha & Hth & Hhc & Hhb). destruct cap_bounds as [Hc Hcd].
  destruct (pad_bounds n ltac:(lia)) as (Hpn & Hpl & Hpd), (aligned_mod (ra_head r) Hha) as (Hhm & Hh0 & Hh1).
  pose proof (skip_of_cases r n Hha ltac:(lia)) as Hs. cbv zeta in Hs. unfold reserve. set (skip := skip_of r n) in *.
  set (total := skip + 16 + ra__pad n) in *. destruct (refreshed_ok r q total Hr Ha Hh) as (Hr1 & Ha1 & Eh & Eb & Hfull).
  set (r1 := refreshed r total) in *. clearbody r1. set (free := free_of r (ra_tail_cache r1)) in *.
  destruct (Z.ltb_spec free total) as [Hf|Hf]; [split_and!; try done; by apply Hfull|].
  assert (16 | 16) as Hd16 by by exists 1. assert (16 | cap - ra_head r mod cap) as Htd by by apply Z.divide_sub_r.
  assert (16 | free) as Hfd by (repeat apply Z.divide_sub_r; [done..|apply (ro_tail _ _ Hr1)]).
  assert (free = cap - (ra_head r - ra_tail_cache r1)) as Ef by done.
  assert (total = skip + 16 + ra__pad n) as Et by done. clearbody free total skip. pose proof (ro_order _ _ Hr1).
  pose proof (ring_bounds r1 q Hr1).
  destruct (Z.eqb_spec skip 0) as [E0|E0]; cbn.
  - split_and!; try done; [|lia]. apply ring_ok_rsv; rewrite ?Eh; try done; try lia; [by left|].
    by apply min_divide; apply Z.divide_sub_r.
  - destruct Hs as [?|(Es & Hs)]; [lia|]. rewrite Es in *.
    destruct (ring_ok_marker r1 q Hr1 Ha1) as (Hr2 & Hg & Hz); rewrite Eh in *; [lia|].
    split_and!; try done; [|lia]. apply ring_ok_rsv; cbn; rewrite ?Eh; try done; try lia.
    + by apply Z.divide_add_r.
    + apply min_divide; [by apply Z.divide_sub_r|]. apply Z.divide_sub_r; [by apply Z.divide_sub_r|done].
Qed.

(** The bytes of the reservation are not in use. *)
Lemma rsv_outside r q x :
  ring_ok r q -> rsv_ok r -> ra_rsv_hdr r <= x < ra_rsv_hdr r + 16 + ra_rsv_max r -> ra_head r <= x < ra_tail r + cap.
Proof.
  intros Hr [_ Hg _ _ Hf] Hx. pose proof (ring_bounds r q Hr) as (Hha & _). destruct (gap_le _ _ _ Hha Hg) as [? _].
  pose proof (ro_order _ _ Hr). lia.
Qed.

Lemma ra_commit_ok r q size tag :
  ring_ok r q -> ra_rsv_active r = true -> 0 <= size <= ra_rsv_max r -> 0 <= tag < 2 ^ 64 ->
  let b := mkBlk (ra_rsv_hdr r) size tag (contents (ra_mem r) (ra_rsv_hdr r + 16) size) in
  exists r', ra_commit r size tag = Some (ra_buf r + (ra_rsv_hdr r + 16) mod cap, r') /\
    ring_ok r' (q ++ [b]) /\ ra_buf r' = ra_buf r /\ ra_rsv_active r' = false.
Proof.
  intros Hr Ha Hsz Ht b. pose proof (ro_rsv _ _ Hr Ha) as Hv. pose proof Hv as [Hal Hg [Hm0 Hmd] Hroom Hfree].
  pose proof (ring_bounds r q Hr) as (Hha & Hth & Hhc & Hhb). pose proof Hr as [Hm Htl Hord Hbd Hcache Hch Hsp _].
  destruct cap_bounds as [Hc Hcd]. destruct (gap_le _ _ _ Hha Hg) as [Hle Hgap].
  pose proof (Z.mod_pos_bound (ra_rsv_hdr r) cap ltac:(lia)) as Hmod.
  destruct (pad_bounds size ltac:(lia)) as (Hp1 & Hp2 & Hpd).
  assert (ra__pad size <= ra_rsv_max r) as Hpm by lia.
  unfold ra_commit. rewrite Ha, (proj2 (Z.leb_le _ _)) by lia. cbn [negb orb].
  rewrite hdr_write_eq by done. cbn. rewrite Hm, land_cap.
  rewrite (wrap64_small (ra_rsv_hdr r + RA_HDR_BYTES)), wrap64_small by (unfold RA_HDR_BYTES; lia).
  eexists. split; [reflexivity|]. split_and!; [|done..]. unfold RA_HDR_BYTES.
  set (m' := hdr_write (ra_mem r) (ra_rsv_hdr r) size tag).
  assert (agree (ra_mem r) m' (ra_tail r) (ra_rsv_hdr r)) as Hagree.
  { intros o Ho. symmetry. apply hdr_write_other; [done|lia]. }
  assert (chain m' (ra_tail r) q (ra_head r)) as Hch'.
  { eapply chain_agree; [apply Htl| |done]. eapply agree_sub; [done|lia|lia]. }
  assert (blk_ok m' b) as Hb.
  { split; cbn; [done|lia|lia|apply hdr_write_hdr; lia|]. symmetry. apply contents_agree; [lia|apply data_room; [done|lia..]|].
    intros o Ho. symmetry. apply hdr_write_other; [done|lia]. }
  assert (gap m' (ra_head r) (ra_rsv_hdr r)) as Hg'.
  { destruct Hgap as [E|E]; [by left|]. eapply gap_agree; [done| |done]. eapply agree_sub; [done|lia|lia]. }
  split; cbn; try done; try lia.
  - apply chain_app. exists (ra_head r). split; [done|]. cbn [chain]. done.
  - intros Hlt. destruct (Hsp Hlt) as (q1 & q2 & -> & Hc1). exists q1, (q2 ++ [b]). split; [by rewrite app_assoc|].
    eapply chain_agree; [apply Htl| |done]. eapply agree_sub; [done|lia|lia].
Qed.

(** Filling the reserved span. *)
Definition ring_fill (r : ra_ring) (i : Z) (data : list Z) : ra_ring :=
  let p := Z.land (wrap64 (ra_rsv_hdr r + RA_HDR_BYTES)) (ra_mask r) + i in
  ra_set_mem (fun a => if (p <=? a) && (a <? p + zlen data) then nth (Z.to_nat (a - p)) data 0 else ra_mem r a) r.
Lemma ring_fill_ok r q i data :
  ring_ok r q -> ra_rsv_active r = true -> 0 <= i -> i + zlen data <= ra_rsv_max r -> ring_ok (ring_fill r i data) q.
Proof.
  intros Hr Ha Hi Hl. pose proof (ro_rsv _ _ Hr Ha) as Hv. pose proof Hv as [Hal Hg [Hm0 Hmd] Hroom Hfree].
  pose proof (ring_bounds r q Hr) as (Hha & Hth & Hhc & Hhb). pose proof Hr as [Hm Htl Hord Hbd Hcache Hch Hsp _].
  destruct cap_bounds as [Hc Hcd]. destruct (gap_le _ _ _ Hha Hg) as [Hle Hgap]. pose proof (zlen_nonneg data).
  pose proof (Z.mod_pos_bound (ra_rsv_hdr r) cap ltac:(lia)) as Hmod.
  unfold ring_fill. rewrite Hm, land_cap, wrap64_small by (unfold RA_HDR_BYTES; lia). unfold RA_HDR_BYTES.
  set (p := (ra_rsv_hdr r + 16) mod cap). set (m' := fun a : Z => if _ : bool then _ else _).
  assert (agree (ra_mem r) m' (ra_tail r) (ra_rsv_hdr r + 16)) as Hagree.
  { intros o Ho. unfold m'. pose proof (data_room _ (ra_rsv_max r) Hal Hm0 Hroom) as Hdr. fold p in Hdr.
    pose proof (Z.mod_pos_bound o cap ltac:(lia)).
    pose proof (window_apart o 1 (ra_rsv_hdr r + 16) (ra_rsv_max r)) as Hw. unfold apart in Hw. cbn [fst snd] in Hw. fold p in Hw.
    destruct (Z.leb_spec (p + i) (o mod cap)), (Z.ltb_spec (o mod cap) (p + i + zlen data)); cbn [andb]; try done. lia. }
  apply ring_ok_mem; [done|eapply agree_sub; [done|lia|lia]|]. intros _. split; cbn; try done.
  eapply gap_agree; [done| |done]. eapply agree_sub; [done|lia|lia].
Qed.

Lemma ra_abort_ok r q r' : ring_ok r q -> ra_abort r = Some r' -> ring_ok r' q /\ ra_buf r' = ra_buf r.
Proof.
  intros [? ? ? ? ? ? ? ?]. unfold ra_abort. destruct (ra_rsv_active r); [|done]. intros [= <-]. split; [|done]. by split.
Qed.

(** What the consumer reads at the front: the block's header, or a marker that
    leads to it. *)
Lemma front_cases r s b :
  ra_mask r = cap - 1 -> (16 | s) -> 0 <= s <= 2 ^ 63 + cap -> gap (ra_mem r) s (k_off b) -> blk_ok (ra_mem r) b ->
  let h := mkHdr (k_size b) (k_tag b) in
  is_skip h = false /\ ra__hdr_read r (k_off b) = h /\
  (is_skip (ra__hdr_read r s) = false /\ s = k_off b \/
   is_skip (ra__hdr_read r s) = true /\ wrap64 (s + wrap64 (RA_HDR_BYTES + no_skip (ra__hdr_read r s))) = k_off b).
Proof.
  intros Hm Hs Hb Hg Hk h. destruct cap_bounds as [Hc Hcd], (aligned_mod s Hs) as (_ & ? & ?). destruct Hk as [Ha Hsz Hr Hh Hd].
  assert (is_skip h = false) as Hns by (apply is_skip_size; lia). split; [done|].
  pose proof (hdr_read_eq r _ _ _ Hm Hh) as Hrd. split; [done|]. destruct Hg as [<-|[E Hmk]].
  - left. split; [|done]. by rewrite Hrd.
  - right. rewrite (hdr_read_eq r _ _ _ Hm Hmk). destruct (is_skip_marker (cap - s mod cap - 16) 0) as [-> ->]; [lia|].
    split; [done|]. unfold RA_HDR_BYTES. rewrite (wrap64_small (16 + _)), wrap64_small by lia. lia.
Qed.

Definition front (r : ra_ring) (q : list Blk) : ra_block :=
  match q with
  | [] => mkRaBlock 0 0 0
  | b :: _ => mkRaBlock (ra_buf r + (k_off b + 16) mod cap) (k_size b) (k_tag b)
  end.
Lemma ring_ok_head_cache r q : ring_ok r q -> ring_ok (ra_set_head_cache (ra_head r) r) q.
Proof.
  intros [? ? ? ? ? ? ? Hv]. split; cbn; try done; try lia.
  - intros _. exists q, []. by rewrite app_nil_r.
  - intros Ha. by destruct (Hv Ha).
Qed.

Lemma ra_peek_ok r q :
  ring_ok r q -> exists r', ra_peek r = Some (front r q, r') /\ ring_ok r' q /\ ra_buf r' = ra_buf r /\
    ra_rsv_active r' = ra_rsv_active r.
Proof.
  intros Hr. unfold ra_peek. set (refresh := ra_head_cache r <=? ra_tail r).
  set (r1 := if refresh then ra_set_head_cache (ra_head r) r else r).
  assert (ring_ok r1 q /\ ra_tail r1 = ra_tail r /\ ra_buf r1 = ra_buf r /\ ra_rsv_active r1 = ra_rsv_active r /\
          (refresh = true -> ra_head_cache r1 = ra_head r1) /\ (refresh = false -> ra_tail r1 < ra_head_cache r1))
    as (Hr1 & Et & Eb & Ea & Hrf & Hnr).
  { subst r1 refresh. destruct (Z.leb_spec (ra_head_cache r) (ra_tail r)); [|by split_and!].
    split_and!; try done. by apply ring_ok_head_cache. }
  clearbody r1 refresh. pose proof (ring_bounds r1 q Hr1) as (Hha & Hth & Hhc & Hhb). rewrite <-Et.
  pose proof Hr1 as [Hm [Hta _] Hord Hbd Hcache Hch Hsp _]. destruct cap_bounds as [Hcb _].
  destruct (refresh && (ra_tail r1 =? ra_head_cache r1)) eqn:Ee.
  - apply andb_true_iff in Ee as [Er Ee%Z.eqb_eq]. specialize (Hrf Er). rewrite Hrf in Ee. exists r1. split_and!; try done.
    destruct q as [|b q]; [done|]. exfalso. cbn [chain] in Hch. destruct Hch as (Hg & Hb & Hc).
    destruct (blk_size_le _ b Hb) as [? Hd]. destruct (gap_le _ _ _ Hta Hg), (chain_le _ _ _ _ Hd Hc). unfold blk_end in *. lia.
  - assert (ra_tail r1 < ra_head_cache r1) as Hlt.
    { destruct refresh; [|by apply Hnr]. rewrite Hrf in * by done. cbn [andb] in Ee. apply Z.eqb_neq in Ee. lia. }
    destruct (Hsp Hlt) as ([|b q1] & q2 & -> & Hc1); [cbn in Hc1; lia|]. cbn [chain] in Hc1. destruct Hc1 as (Hg & Hb & Hc1).
    destruct (blk_size_le _ b Hb) as [? Hd]. destruct (chain_le _ _ _ _ Hd Hc1) as [Hend _]. unfold blk_end in Hend.
    pose proof (bo_size _ _ Hb). pose proof (pad_bounds (k_size b) ltac:(lia)) as (? & _).
    destruct (gap_le _ _ _ Hta Hg) as [Hle _].
    destruct (front_cases r1 (ra_tail r1) b Hm Hta ltac:(lia) Hg Hb) as (Hns & Hrd & [[Hk Es]|[Hk Es]]); rewrite Hk.
    + rewrite Es in *. rewrite Hrd. exists r1. split_and!; try done. cbn. by rewrite Hm, land_cap, wrap64_small, Eb by (unfold RA_HDR_BYTES; lia).
    + rewrite Es, Hrd, Hns, (proj2 (Z.ltb_lt _ _)) by lia. exists r1. split_and!; try done. cbn.
      by rewrite Hm, land_cap, wrap64_small, Eb by (unfold RA_HDR_BYTES; lia).
Qed.

Lemma ra_release_ok r b q :
  ring_ok r (b :: q) -> exists r', ra_release r = Some r' /\ ring_ok r' q /\ ra_buf r' = ra_buf r /\ ra_rsv_active r' = ra_rsv_active r.
Proof.
  intros Hr. pose proof (ring_bounds r _ Hr) as (Hha & Hth & Hhc & Hhb). destruct cap_bounds as [Hcb _].
  pose proof Hr as [Hm [Hta Htc] Hord Hbd Hcache Hch Hsp Hrsv]. cbn [chain] in Hch. destruct Hch as (Hg & Hb & Hc).
  destruct (blk_size_le _ b Hb) as [? Hd]. destruct (chain_le _ _ _ _ Hd Hc) as [Hend _]. pose proof (gap_le _ _ _ Hta Hg) as [Hle _].
  pose proof (bo_size _ _ Hb). pose proof (pad_bounds (k_size b) ltac:(lia)) as (? & _).
  assert (wrap64 (k_off b + wrap64 (RA_HDR_BYTES + ra__pad (k_size b))) = blk_end b) as Ee.
  { unfold blk_end, RA_HDR_BYTES in *. rewrite (wrap64_small (16 + _)), wrap64_small by lia. lia. }
  unfold ra_release. rewrite (proj2 (Z.eqb_neq _ _)) by (unfold blk_end in *; lia).
  exists (ra_set_tail (blk_end b) r). split_and!; [|split; cbn; try done|done..].
  - destruct (front_cases r (ra_tail r) b Hm Hta ltac:(lia) Hg Hb) as (Hns & Hrd & [[Hk Es]|[Hk Es]]); rewrite Hk.
    + rewrite Es in *. rewrite Hrd. cbn [size_flags]. by rewrite Ee.
    + rewrite Es, Hrd, Hns. cbn [size_flags]. by rewrite Ee.
  - unfold blk_end in *. lia.
  - intros Hlt. destruct Hsp as ([|b' q1] & q2 & Eq & Hc1); [unfold blk_end in *; lia|cbn in Hc1; unfold blk_end in *; lia|].
    injection Eq as <- ->. cbn [chain] in Hc1. exists q1, q2. split; [done|]. apply Hc1.
  - intros Ha. by destruct (Hrsv Ha).
Qed.
End window.

(** ** The ring as a queue

    What the caller holds: the blocks committed and not yet released, oldest
    first, with the bytes they had when they were committed. *)
Definition bytes_at (m : Z -> Z) (a n : Z) : list Z := (fun i => m (a + Z.of_nat i)) <$> seq 0 (Z.to_nat n).
Record Lease := mkLease { l_ptr : Z; l_size : Z; l_tag : Z; l_data : list Z }.

(** The uses of the interface: offsets have not reached 2^63, a commit stays
    within the reservation, and only the reserved span is written. *)
Inductive ring_step : ra_ring * list Lease -> ra_ring * list Lease -> Prop :=
| step_reserve r ls n res r' :
    0 <= n -> ra_head r <= 2 ^ 63 -> ra_reserve r n = Some (res, r') -> ring_step (r, ls) (r', ls)
| step_fill r ls i data :
    ra_rsv_active r = true -> 0 <= i -> i + zlen data <= ra_rsv_max r -> ring_step (r, ls) (ring_fill r i data, ls)
| step_commit r ls size tag p r' :
    0 <= size <= ra_rsv_max r -> 0 <= tag < 2 ^ 64 -> ra_commit r size tag = Some (p, r') ->
    ring_step (r, ls) (r', ls ++ [mkLease p size tag (bytes_at (ra_mem r) (p - ra_buf r) size)])
| step_abort r ls r' : ra_abort r = Some r' -> ring_step (r, ls) (r', ls)
| step_peek r ls b r' : ra_peek r = Some (b, r') -> ring_step (r, ls) (r', ls)
| step_release r l ls r' : ra_release r = Some r' -> ring_step (r, l :: ls) (r', ls).

Definition oldest (ls : list Lease) : ra_block :=
  match ls with
  | [] => mkRaBlock 0 0 0
  | l :: _ => mkRaBlock (l_ptr l) (l_size l) (l_tag l)
  end.
(** The bytes the caller may use: the live blocks and the reservation. *)
Definition spans (r : ra_ring) (ls : list Lease) : list (Z * Z) :=
  ((fun l => (l_ptr l, l_size l)) <$> ls) ++
  if ra_rsv_active r then [(ra_buf r + Z.land (wrap64 (ra_rsv_hdr r + RA_HDR_BYTES)) (ra_mask r), ra_rsv_max r)] else [].

Lemma pow2_test c : 0 < c -> Z.land c (c - 1) = 0 -> c = 2 ^ Z.log2 c.
Proof.
  intros Hc Hl. destruct (Z.log2_spec c Hc) as [H1 H2]. destruct (Z.eq_dec c (2 ^ Z.log2 c)) as [|Hne]; [done|exfalso].
  pose proof (Z.log2_nonneg c) as Hk.
  assert (Z.log2 (c - 1) = Z.log2 c) as E by (apply Z.log2_unique; lia).
  assert (Z.testbit (Z.land c (c - 1)) (Z.log2 c) = true) as Hb.
  { rewrite Z.land_spec, Z.bit_log2 by done. cbn [andb]. rewrite <-E. apply Z.bit_log2.
    pose proof (Z.pow_pos_nonneg 2 (Z.log2 c)). lia. }
  by rewrite Hl, Z.bits_0 in Hb.
Qed.

Lemma ra_init_spec mem bytes capacity r :
  0 <= mem -> capacity <= 2 ^ 61 -> ra_init mem bytes capacity = Some r ->
  capacity_ok capacity /\ (16 | mem) /\ 0 < mem /\ ring_ok capacity r [] /\ ra_buf r = mem.
Proof.
  intros Hm Hb. unfold ra_init, RA_HDR_BYTES, RA_ALIGN. destruct (Z.eqb_spec mem 0); [done|].
  destruct (Z.ltb_spec capacity (2 * 16)); [done|].
  rewrite wrap64_small by lia. destruct (Z.eqb_spec (Z.land capacity (capacity - 1)) 0) as [Hp|]; [|done]. cbn [negb].
  destruct (Z.eqb_spec (Z.land mem (16 - 1)) 0) as [Ha|]; [|done]. cbn [negb]. intros [= <-].
  apply pow2_test in Hp; [|lia]. split_and!; [| |lia| |done].
  - exists (Z.log2 capacity). split; [|done]. split.
    + change 5 with (Z.log2 32). apply Z.log2_le_mono. lia.
    + change 61 with (Z.log2 (2 ^ 61)). apply Z.log2_le_mono. lia.
  - apply Z.mod_divide; [done|]. change 16 with (2 ^ 4). rewrite <-land_mask by lia. done.
  - split; cbn; try done; try lia. split; by exists 0.
Qed.

Definition lease (buf cap : Z) (b : Blk) : Lease :=
  mkLease (buf + (k_off b + 16) mod cap) (k_size b) (k_tag b) (k_data b).
Definition state_ok (buf cap : Z) (s : ra_ring * list Lease) : Prop :=
  ra_buf s.1 = buf /\ exists q, ring_ok cap s.1 q /\ s.2 = lease buf cap <$> q.

Lemma reserve_step cap r q n res r' :
  capacity_ok cap -> ring_ok cap r q -> 0 <= n -> ra_head r <= 2 ^ 63 -> ra_reserve r n = Some (res, r') ->
  ring_ok cap r' q /\ ra_buf r' = ra_buf r.
Proof.
  intros Hcap Hr Hn Hh. destruct (ra_rsv_active r) eqn:Ea; [unfold ra_reserve; by rewrite Ea|].
  rewrite (ra_reserve_eq cap Hcap r q n Hr Ea Hh Hn). destruct (Z.ltb_spec cap n); [by intros [= <- <-]|].
  pose proof (reserve_ok cap Hcap r q n Hr Ea Hh ltac:(lia)) as Hok. intros [= E]. rewrite E in Hok. tauto.
Qed.

Lemma ring_step_ok buf cap s s' : capacity_ok cap -> state_ok buf cap s -> ring_step s s' -> state_ok buf cap s'.
Proof.
  intros Hcap (Hb & q & Hr & Hl) Hs. destruct Hs as [r ls n res r' Hn Hh E|r ls i data Ha Hi Hd|r ls size tag p r' Hsz Ht E|r ls r' E|r ls b r' E|r l ls r' E]; cbn in *.
  - destruct (reserve_step cap r q n res r' Hcap Hr Hn Hh E) as [? ?]. split; cbn; [congruence|]. by exists q.
  - split; [done|]. exists q. split; [|done]. by apply ring_fill_ok.
  - assert (ra_rsv_active r = true) as Ha by (unfold ra_commit in E; by destruct (ra_rsv_active r)).
    destruct (ra_commit_ok cap Hcap r q size tag Hr Ha Hsz Ht) as (r1 & E1 & Hr1 & Hb1 & _). rewrite E in E1. injection E1 as -> <-.
    split; cbn; [congruence|]. eexists. split; [done|]. rewrite fmap_app, Hl. f_equal. cbn. unfold lease. cbn. rewrite Hb.
    by replace (buf + _ - buf) with ((ra_rsv_hdr r + 16) mod cap) by lia.
  - destruct (ra_abort_ok cap r q r' Hr E) as [? ?]. split; cbn; [congruence|]. by exists q.
  - destruct (ra_peek_ok cap Hcap r q Hr) as (r1 & E1 & Hr1 & Hb1 & _). rewrite E in E1. injection E1 as _ <-.
    split; cbn; [congruence|]. by exists q.
  - destruct q as [|b q]; [done|]. destruct (ra_release_ok cap Hcap r b q Hr) as (r1 & E1 & Hr1 & Hb1 & _).
    rewrite E in E1. injection E1 as <-. split; cbn; [congruence|]. exists q. split; [done|]. by injection Hl.
Qed.
Lemma ring_steps_ok buf cap s s' : capacity_ok cap -> rtc ring_step s s' -> state_ok buf cap s -> state_ok buf cap s'.
Proof. intros Hcap. induction 1; [done|]. intros Hs. by eauto using ring_step_ok. Qed.

Lemma chain_blocks cap m q s e :
  capacity_ok cap -> (16 | s) -> chain cap m s q e ->
  Forall (fun b => s <= k_off b /\ blk_end b <= e /\ blk_ok cap m b) q /\ ForallOrdPairs (fun b b' => blk_end b <= k_off b') q.
Proof.
  intros Hcap. revert s. induction q as [|b q IH]; intros s Hs; cbn [chain]; [by repeat constructor|]. intros (Hg & Hb & Hc).
  destruct (blk_size_le cap Hcap m b Hb) as [? Hd], (gap_le cap Hcap m s _ Hs Hg) as [? _], (chain_le cap Hcap m q _ e Hd Hc) as [? _].
  destruct (IH _ Hd Hc) as [Hf Hp]. unfold blk_end in *. split; constructor; try done.
  - eapply Forall_impl; [exact Hf|]. cbn. intros b' (? & ? & ?). split_and!; [lia|done..].
  - eapply Forall_impl; [exact Hf|]. cbn. by intros b' (? & _).
Qed.

Lemma apart_shift c x n y m : apart (x, n) (y, m) -> apart (c + x, n) (c + y, m).
Proof. unfold apart. cbn. lia. Qed.
Lemma ordpairs_snoc {A} (R : A -> A -> Prop) l x : ForallOrdPairs R l -> Forall (fun y => R y x) l -> ForallOrdPairs R (l ++ [x]).
Proof.
  induction 1 as [|y l Hy Hl IH]; intros Hf; cbn; [by repeat constructor|]. apply Forall_cons in Hf as [? ?].
  constructor; [by apply Forall_app; split; [|constructor]|]. by apply IH.
Qed.

Lemma blk_room cap m b : capacity_ok cap -> blk_ok cap m b -> 0 <= k_size b <= ra__pad (k_size b) /\ (k_off b + 16) mod cap + k_size b <= cap.
Proof.
  intros Hcap Hb. destruct (blk_size_le cap Hcap m b Hb) as [Hp _]. destruct Hb as [Ha Hs Hr _ _]. split; [done|].
  apply data_room; [done..|lia|lia].
Qed.

Lemma spans_apart cap r q :
  capacity_ok cap -> ring_ok cap r q -> ForallOrdPairs apart (spans r (lease (ra_buf r) cap <$> q)).
Proof.
  intros Hcap Hr. pose proof (ring_bounds cap Hcap r q Hr) as (Hha & Hth & Hhc & Hhb). destruct (cap_bounds cap Hcap) as [Hc _].
  pose proof Hr as [Hm [Hta _] Hord Hbd _ Hch _ Hrsv]. destruct (chain_blocks cap _ q _ _ Hcap Hta Hch) as [Hf Hp].
  unfold spans. rewrite <-list_fmap_compose.
  assert (ForallOrdPairs apart ((fun b => (ra_buf r + (k_off b + 16) mod cap, k_size b)) <$> q)) as Hq.
  { clear Hch Hr. induction Hp as [|b q Hb Hq IH]; cbn; [constructor|]. apply Forall_cons in Hf as [(? & ? & Hok) Hf].
    constructor; [|by apply IH]. apply Forall_fmap, Forall_forall. intros b' Hb'. cbn. rewrite Forall_forall in Hb, Hf.
    specialize (Hb b' Hb'). destruct (Hf b' Hb') as (? & ? & Hok').
    destruct (blk_room cap _ b Hcap Hok), (blk_room cap _ b' Hcap Hok'). unfold blk_end in *.
    apply apart_shift, window_apart; try done; lia. }
  destruct (ra_rsv_active r) eqn:Ea; [|by rewrite app_nil_r]. apply ordpairs_snoc; [done|].
  destruct (Hrsv eq_refl) as [Hal Hg [Hm0 _] Hroom Hfree]. destruct (gap_le cap Hcap _ _ _ Hha Hg) as [? _].
  apply Forall_fmap, Forall_forall. intros b Hb. rewrite Forall_forall in Hf. destruct (Hf b Hb) as (? & ? & Hok). cbn.
  destruct (blk_room cap _ b Hcap Hok). unfold blk_end, RA_HDR_BYTES in *.
  rewrite Hm, land_cap, wrap64_small by (done || lia). apply apart_shift, window_apart; try done; try lia.
  apply data_room; [done..|lia|lia].
Qed.

(** C14. The ring is a queue, whatever the order of reservations, writes,
    commits, aborts, look-ups and releases, and however stale the cached
    indices are: the oldest block is found and can be released, no assertion
    of the consumer fails, every live block is 16-byte aligned, lies in the
    buffer and still has the bytes it was committed with, and the live blocks
    and the reservation do not overlap. *)
Theorem ring_fifo mem bytes capacity r0 r ls :
  0 <= mem -> capacity <= 2 ^ 61 -> ra_init mem bytes capacity = Some r0 -> rtc ring_step (r0, []) (r, ls) ->
  (exists r', ra_peek r = Some (oldest ls, r')) /\
  (ls <> [] -> is_Some (ra_release r)) /\
  Forall (fun l => (16 | l_ptr l) /\ mem <= l_ptr l /\ l_ptr l + l_size l <= mem + capacity /\
                   bytes_at (ra_mem r) (l_ptr l - mem) (l_size l) = l_data l) ls /\
  ForallOrdPairs apart (spans r ls).
Proof.
  intros Hm Hc Hi Hs. destruct (ra_init_spec mem bytes capacity r0 Hm Hc Hi) as (Hcap & Hd & Hpos & Hr0 & Hb0).
  destruct (ring_steps_ok mem capacity _ _ Hcap Hs) as (Hb & q & Hr & Hl); [split; [done|]; by exists []|]. cbn in Hb, Hr, Hl. subst ls.
  destruct (cap_bounds capacity Hcap) as [Hcb Hcd]. split_and!.
  - destruct (ra_peek_ok capacity Hcap r q Hr) as (r' & E & _). exists r'. rewrite E. by destruct q; cbn; rewrite ?Hb.
  - intros Hne. destruct q as [|b q]; [done|]. destruct (ra_release_ok capacity Hcap r b q Hr) as (r' & E & _). by exists r'.
  - destruct (chain_blocks capacity _ q _ _ Hcap (proj1 (ro_tail _ _ _ Hr)) (ro_chain _ _ _ Hr)) as [Hf _].
    apply Forall_fmap. eapply Forall_impl; [exact Hf|]. cbn. intros b (_ & _ & Hok).
    destruct (blk_room capacity _ b Hcap Hok) as [? ?]. destruct Hok as [Ha _ _ _ Hdata].
    destruct (aligned_mod capacity Hcap (k_off b + 16)) as (Hal & ? & _); [apply Z.divide_add_r; [done|by exists 1]|].
    split_and!; [by apply Z.divide_add_r|lia|lia|]. rewrite <-Hdata.
    by replace (mem + _ - mem) with ((k_off b + 16) mod capacity) by lia.
  - rewrite <-Hb. by apply spans_apart.
Qed.

(** A block of at most half the capacity less its header always fits in an
    empty ring, wherever its offsets are. *)
Theorem ring_empty_fits mem bytes capacity r0 r n :
  0 <= mem -> capacity <= 2 ^ 61 -> ra_init mem bytes capacity = Some r0 -> rtc ring_step (r0, []) (r, []) ->
  ra_rsv_active r = false -> ra_head r <= 2 ^ 63 -> 0 <= n <= capacity / 2 - 16 ->
  exists p max r', ra_reserve r n = Some (Some (p, max), r') /\ n <= max.
Proof.
  intros Hm Hc Hi Hs Ha Hh Hn. destruct (ra_init_spec mem bytes capacity r0 Hm Hc Hi) as (Hcap & Hd & Hpos & Hr0 & Hb0).
  destruct (ring_steps_ok mem capacity _ _ Hcap Hs) as (Hb & [|b q] & Hr & Hl); [split; [done|]; by exists []| |done]. cbn in Hb, Hr.
  destruct (cap_bounds capacity Hcap) as [Hcb Hcd]. pose proof (ro_chain _ _ _ Hr) as Ht. cbn in Ht.
  pose proof (ring_bounds capacity Hcap r [] Hr) as (Hha & _).
  assert (32 <= capacity /\ 2 * (capacity / 2) <= capacity) as [_ Hhalf] by (split; [lia|apply Z.mul_div_le; lia]).
  destruct (pad_bounds capacity Hcap n ltac:(lia)) as (Hp1 & Hp2 & Hp3).
  assert (ra__pad n <= capacity / 2 - 16) as Hpn.
  { destruct Hcap as (k & Hk & E). assert (capacity / 2 = 16 * 2 ^ (k - 5)) as E2.
    { rewrite E. replace (2 ^ k) with (16 * 2 ^ (k - 5) * 2); [apply Z.div_mul; lia|]. replace k with (k - 5 + 5) at 2 by lia.
      rewrite Z.pow_add_r by lia. change (2 ^ 5) with 32. lia. }
    rewrite E2 in *. destruct Hp3 as [u Hu]. lia. }
  pose proof (reserve_ok capacity Hcap r [] n Hr Ha Hh ltac:(lia)) as Hok.
  rewrite (ra_reserve_eq capacity Hcap r [] n Hr Ha Hh ltac:(lia)). destruct (Z.ltb_spec capacity n); [lia|].
  destruct (reserve capacity r n) as [[[p max]|] r']; [by exists p, max, r'; destruct Hok as (_ & _ & ? & _)|exfalso].
  destruct Hok as (_ & _ & _ & Hfull). unfold free_of in Hfull. rewrite Ht in Hfull.
  pose proof (skip_of_cases capacity Hcap r n Hha ltac:(lia)) as Hsk. cbv zeta in Hsk. lia.
Qed.

(** ** A run: the third block wraps, behind a skip marker *)
Inductive ring_op := OpReserve (n : Z) | OpFill (i : Z) (data : list Z) | OpCommit (size tag : Z) | OpAbort | OpPeek | OpRelease.
Definition ring_do (op : ring_op) (s : ra_ring * list Lease) : option (ra_ring * list Lease) :=
  let '(r, ls) := s in
  match op with
  | OpReserve n => if (0 <=? n) && (ra_head r <=? 2 ^ 63) then (fun x => (x.2, ls)) <$> ra_reserve r n else None
  | OpFill i data => if ra_rsv_active r && (0 <=? i) && (i + zlen data <=? ra_rsv_max r) then Some (ring_fill r i data, ls) else None
  | OpCommit size tag =>
      if (0 <=? size) && (size <=? ra_rsv_max r) && (0 <=? tag) && (tag <? 2 ^ 64) then
        (fun x => (x.2, ls ++ [mkLease x.1 size tag (bytes_at (ra_mem r) (x.1 - ra_buf r) size)])) <$> ra_commit r size tag
      else None
  | OpAbort => (fun r => (r, ls)) <$> ra_abort r
  | OpPeek => (fun x => (x.2, ls)) <$> ra_peek r
  | OpRelease => match ls with [] => None | _ :: ls => (fun r => (r, ls)) <$> ra_release r end
  end.
Lemma ring_do_step op s s' : ring_do op s = Some s' -> ring_step s s'.
Proof.
  destruct s as [r ls], op; cbn.
  - destruct (_ && _) eqn:E; [rewrite !andb_true_iff, ?Z.leb_le, ?Z.ltb_lt in E|done]. destruct (ra_reserve r n) as [[res r']|] eqn:Er; [|done]. intros [= <-]. by apply (step_reserve r ls n res r'); [lia..|].
  - destruct (_ && _) eqn:E; [rewrite !andb_true_iff, ?Z.leb_le, ?Z.ltb_lt in E|done]. intros [= <-]. apply step_fill; [tauto|lia..].
  - destruct (_ && _) eqn:E; [rewrite !andb_true_iff, ?Z.leb_le, ?Z.ltb_lt in E|done]. destruct (ra_commit r size tag) as [[p r']|] eqn:Er; [|done]. intros [= <-].
    by apply step_commit; [lia..|].
  - destruct (ra_abort r) eqn:Er; [|done]. intros [= <-]. by apply step_abort.
  - destruct (ra_peek r) as [[b r']|] eqn:Er; [|done]. intros [= <-]. by eapply step_peek.
  - destruct ls as [|l ls]; [done|]. destruct (ra_release r) eqn:Er; [|done]. intros [= <-]. by apply step_release.
Qed.
Fixpoint ring_run (ops : list ring_op) (s : ra_ring * list Lease) : option (ra_ring * list Lease) :=
  match ops with [] => Some s | op :: ops => ring_do op s ≫= ring_run ops end.
Lemma ring_run_steps ops s s' : ring_run ops s = Some s' -> rtc ring_step s s'.
Proof.
  revert s. induction ops as [|op ops IH]; intros s; cbn; [by intros [= ->]|].
  destruct (ring_do op s) as [s1|] eqn:E; [|done]. cbn. intros Hr%IH. eapply rtc_l; [by eapply ring_do_step|done].
Qed.

Definition demo_ring : ra_ring := mkRing 4096 (fun _ => 0) 127 0 0 0 0 false 0 0.
Definition ring_after (ops : list ring_op) : ra_ring * list Lease := default (demo_ring, []) (ring_run ops (demo_ring, [])).
Lemma ring_after_steps ops : is_Some (ring_run ops (demo_ring, [])) -> rtc ring_step (demo_ring, []) (ring_after ops).
Proof. unfold ring_after. intros [s E]. rewrite E. by apply (ring_run_steps ops). Qed.
Definition demo_ops : list ring_op :=
  [OpReserve 10; OpFill 0 [1; 2; 3]; OpCommit 3 7; OpPeek; OpReserve 40; OpCommit 40 8; OpRelease; OpRelease;
   OpReserve 20; OpFill 1 [5; 6]; OpCommit 4 9].

Lemma ring_fifo_witness :
  (exists r', ra_peek (ring_after demo_ops).1 = Some (mkRaBlock (4096 + 16) 4 9, r')) /\
  bytes_at (ra_mem (ring_after demo_ops).1) 16 4 = [1; 5; 6; 0].
Proof.
  destruct (ring_fifo 4096 (fun _ => 0) 128 demo_ring (ring_after demo_ops).1 (ring_after demo_ops).2) as ((r' & E) & _ & Hf & _);
    [lia|lia|reflexivity| |].
  - rewrite <-surjective_pairing. apply ring_after_steps. apply (bool_decide_unpack _). vm_compute. reflexivity.
  - split; [exists r'; rewrite E; vm_compute; reflexivity|vm_compute; reflexivity].
Defined.

Lemma ring_empty_fits_witness :
  exists p max r', ra_reserve (ring_after [OpReserve 60; OpCommit 60 1; OpRelease]).1 48 = Some (Some (p, max), r') /\ 48 <= max.
Proof.
  refine (ring_empty_fits 4096 (fun _ => 0) 128 demo_ring (ring_after [OpReserve 60; OpCommit 60 1; OpRelease]).1 48 _ _ _ _ _ _ _);
    [lia|lia|reflexivity| |vm_compute; reflexivity|vm_compute; discriminate|vm_compute; split; discriminate].
  assert ((ring_after [OpReserve 60; OpCommit 60 1; OpRelease]).2 = []) as <- by (vm_compute; reflexivity).
  rewrite <-surjective_pairing. apply ring_after_steps. apply (bool_decide_unpack _). vm_compute. reflexivity.
Defined.
