(* ===== verification/ReqHeaders.v ===== *)
(** * The headers of a request and of a response: core/client.c

    What [h2req_start], [quicreq_start] and the pool put on the wire: the merge
    of the profile's and the caller's headers with the framing headers
    ([build_request_headers]), the order they are sent in
    ([apply_header_order]), the request hooks, the HTTP/1.1 spelling of the
    names; and the transparent decoding of a response body
    ([response_decode_encoding]), with [decode_content] as its argument. *)
From S2P Require Import Prelude String8 GrowArr Header Redirect.

Definition DEFAULT_ACCEPT_ENCODING : bytes := lit "gzip, deflate, br, zstd".
Definition CLIENT_HEADER_ORDER_MAX : nat := 64.

(** Methods that carry a body announce an empty one. *)
Definition method_has_body (m : Method) : bool :=
  match m with Method_POST | Method_PUT | Method_PATCH => true | _ => false end.

(** The value an empty content-length slot of the caller is filled with. *)
Definition slot_content_length (body : bytes) (m : Method) : bytes :=
  if negb (length body =? 0)%nat then str8_from_u64 (zlen body) 10 0
  else if method_has_body m then lit "0"
  else [].

(** The loop over the caller's headers: the first empty content-length slot is
    filled in place. *)
Fixpoint fill_content_length (caller : list Header) (body : bytes) (m : Method) : list Header :=
  match caller with
  | [] => []
  | h :: caller' =>
      if (length (h_value h) =? 0)%nat && str8_match_ci (h_name h) (lit "content-length") then
        let cl := slot_content_length body m in
        if negb (length cl =? 0)%nat then mkHeader (h_name h) cl (h_flags h) :: caller' else caller
      else h :: fill_content_length caller' body m
  end.

Definition build_request_headers (defaults : list DefaultHeader) (caller : list Header) (body : bytes)
    (override_defaults : bool) (m : Method) : HeaderList * bytes :=
  let caller := fill_content_length caller body m in
  let out := build_ordered_headers (if override_defaults then [] else defaults) caller header_list_init in
  let out := if negb override_defaults && negb (header_list_has_ci out (lit "accept-encoding"))
             then header_list_push out (lit "accept-encoding") DEFAULT_ACCEPT_ENCODING 0 else out in
  if negb (length body =? 0)%nat then
    (if negb (header_list_has_ci out (lit "content-length"))
     then header_list_push out (lit "content-length") (str8_from_u64 (zlen body) 10 0) 0 else out,
     push_str8_copy body)
  else if method_has_body m && negb (header_list_has_ci out (lit "content-length")) then
    (header_list_push out (lit "content-length") (lit "0") 0, [])
  else (out, []).

(** ** The order on the wire *)
Definition headers_are_fetch (h : HeaderList) : bool :=
  match header_list_value h (lit "sec-fetch-mode") with
  | Some m => negb (length m =? 0)%nat && negb (str8_match m (lit "navigate"))
  | None => false
  end.

Definition apply_fetch_order (h : HeaderList) (order : list bytes) : HeaderList :=
  if (length order =? 0)%nat then h else reorder_headers h (str8_cstring <$> order).

Definition csv_delim (c : Z) : bool := (c =? ch_comma) || (c =? ch_space) || (c =? ch_tab).
(** The two inner loops: the length of the run of delimiters, of the name. *)
Fixpoint span_len (p : Z -> bool) (s : bytes) : nat :=
  match s with
  | c :: s' => if p c then S (span_len p s') else O
  | [] => O
  end.
(** Each round of the outer loop consumes at least one byte. *)
Fixpoint csv_loop (fuel : nat) (csv : bytes) (cap : nat) (out : list bytes) : list bytes :=
  match fuel with
  | O => out
  | S fuel' =>
      if (0 <? length csv)%nat && (length out <? cap)%nat then
        let csv := drop (span_len csv_delim csv) csv in
        let n := span_len (fun c => negb (csv_delim c)) csv in
        csv_loop fuel' (drop n csv) cap (if (0 <? n)%nat then out ++ [take n csv] else out)
      else out
  end.
Definition parse_header_order_csv (csv : bytes) (cap : nat) : list bytes :=
  csv_loop (length csv) csv cap [].

(** [client_order] is the client's own order ([header_order]), empty for none. *)
Definition apply_header_order (client_order : list bytes) (override_defaults : bool) (lst : HeaderList)
    (req_order_csv : bytes) (fetch_order : list bytes) : HeaderList :=
  let names := if (length req_order_csv =? 0)%nat then []
               else parse_header_order_csv req_order_csv CLIENT_HEADER_ORDER_MAX in
  if negb (length names =? 0)%nat then reorder_headers lst names
  else if negb (length client_order =? 0)%nat then reorder_headers lst client_order
  else if negb override_defaults && headers_are_fetch lst then apply_fetch_order lst fetch_order
  else lst.

(** A name is kept in a 64-byte buffer. *)
Definition order_name (s : bytes) : bytes := take (Nat.min (length s) 63) s.
Definition client_set_header_order (names : list bytes) : option (list bytes) :=
  if (CLIENT_HEADER_ORDER_MAX <? length names)%nat then None else Some (order_name <$> names).
Definition client_set_header_order_str (names : bytes) : option (list bytes) :=
  client_set_header_order (parse_header_order_csv (str8_cstring names) CLIENT_HEADER_ORDER_MAX).
Definition client_get_header_order (client_order : list bytes) (defaults : list DefaultHeader) (cap : nat) :
  list bytes * nat :=
  if negb (length client_order =? 0)%nat then (take cap client_order, length client_order)
  else (str8_cstring ∘ d_name <$> take cap defaults, length defaults).

(** ** Hooks *)
Definition name_ci_prefix (n p : bytes) : bool :=
  (length p <=? length n)%nat && str8_match_ci (str8_prefix n (length p)) p.
Definition hook_header_protected (n : bytes) : bool :=
  str8_match_ci n (lit "user-agent") || str8_match_ci n (lit "accept-encoding") ||
  name_ci_prefix n (lit "sec-fetch-") || name_ci_prefix n (lit "sec-ch-ua").
Definition hook_request_set_header (headers : HeaderList) (name value : bytes) : bool * HeaderList :=
  if hook_header_protected name then (false, headers)
  else
    match header_list_get_ci headers name with
    | Some i => (true, header_list_set_value headers i (push_str8_copy value))
    | None => (true, header_list_push headers (push_str8_copy name) (push_str8_copy value) 0)
    end.

(** A hook is user code that edits the headers through
    [hook_request_set_header]: the calls it makes. *)
Definition client_run_pre_hook (calls : list (bytes * bytes)) (headers : HeaderList) : HeaderList :=
  foldl (fun h nv => snd (hook_request_set_header h nv.1 nv.2)) headers calls.

(** ** HTTP/1.1 spelling *)
Fixpoint h1_wire_default (defaults : list DefaultHeader) (name : bytes) : option bytes :=
  match defaults with
  | [] => None
  | d :: defaults' =>
      if str8_match_ci name (str8_cstring (d_name d))
      then Some (match d_wire_name d with Some w => str8_cstring w | None => name end)
      else h1_wire_default defaults' name
  end.
Definition h1_wire_name (defaults : list DefaultHeader) (name : bytes) : bytes :=
  match h1_wire_default defaults name with
  | Some w => w
  | None =>
      if str8_match_ci name (lit "content-length") then lit "Content-Length"
      else if str8_match_ci name (lit "accept-encoding") then lit "Accept-Encoding"
      else name
  end.
Definition build_h1_headers (defaults : list DefaultHeader) (src : list Header) : HeaderList :=
  foldl (fun out h => header_list_push out (h1_wire_name defaults (h_name h)) (h_value h) (h_flags h))
    header_list_init src.

(** ** Response bodies *)
Fixpoint content_encoding_of (headers : list Header) : bytes :=
  match headers with
  | [] => []
  | h :: headers' =>
      if str8_match_ci (h_name h) (lit "content-encoding") then h_value h else content_encoding_of headers'
  end.
Definition describes_wire_body (h : Header) : bool :=
  str8_match_ci (h_name h) (lit "content-encoding") || str8_match_ci (h_name h) (lit "content-length").
Definition response_decode_encoding (decode_content : bytes -> bytes -> option bytes) (r : Response) : Response :=
  let ce := content_encoding_of (r_headers r) in
  if (length ce =? 0)%nat then r
  else
    match decode_content ce (r_body r) with
    | None => r
    | Some decoded =>
        mkResponse (r_ok r) (r_status r)
          (ga_list (foldl (fun out h =>
             if negb (str8_match_ci (h_name h) (lit "content-encoding")) &&
                negb (str8_match_ci (h_name h) (lit "content-length"))
             then header_list_push out (h_name h) (h_value h) (h_flags h) else out) header_list_init (r_headers r)))
          decoded
    end.

(** ** Lemmas *)

Lemma find_value_filter n l : find_value n l = h_value <$> head (filter (named n) l).
Proof.
  induction l as [|h l IH]; [done|]. rewrite find_value_cons, filter_cons. by destruct (decide (named n h)).
Qed.

Lemma push_when_rep (b : bool) hl l n v f :
  ga_rep hl l ->
  ga_rep (if b then header_list_push hl n v f else hl) (l ++ if b then [mkHeader n v f] else []).
Proof. intros. destruct b; [by apply header_list_push_rep|by rewrite app_nil_r]. Qed.

(** The framing header a request of this method and body needs. *)
Definition framing_value (m : Method) (body : bytes) : option bytes := nonempty (slot_content_length body m).

Lemma framing_value_eq m body :
  framing_value m body =
  if negb (length body =? 0)%nat then Some (str8_from_u64 (zlen body) 10 0)
  else if method_has_body m then Some (lit "0") else None.
Proof.
  unfold framing_value, slot_content_length, nonempty. destruct (Nat.eqb_spec (length body) 0) as [|Hb]; cbn [negb].
  - by destruct (method_has_body m).
  - destruct (str8_from_u64 (zlen body) 10 0) as [|c s] eqn:E; [|done].
    exfalso. revert E. unfold str8_from_u64. change ((10 <? 2) || (16 <? 10)) with false. cbv iota.
    intros E. apply (f_equal (@length Z)) in E. rewrite length_rev, length_app in E. cbn in E. lia.
Qed.

Definition CL : bytes := lit "content-length".
Definition AE : bytes := lit "accept-encoding".

Lemma named_disjoint h : named CL h -> named AE h -> False.
Proof. unfold named, CL, AE. intros -> H. by vm_compute in H. Qed.

(** The list [build_request_headers] builds. *)
Lemma build_request_headers_rep defaults caller body (override : bool) m :
  let caller' := fill_content_length caller body m in
  let ds := if override then [] else defaults in
  let base := default_part caller' ds ++ extra_part ds caller' in
  let base := base ++ if negb override && negb (bool_decide (is_Some (find_value AE base)))
                      then [mkHeader AE DEFAULT_ACCEPT_ENCODING 0] else [] in
  ga_rep (fst (build_request_headers defaults caller body override m))
    (base ++ if bool_decide (is_Some (find_value CL base)) then []
             else match framing_value m body with Some v => [mkHeader CL v 0] | None => [] end) /\
  snd (build_request_headers defaults caller body override m) = body.
Proof.
  intros caller' ds base0 base. unfold build_request_headers. fold AE CL caller' ds.
  assert (H0 : ga_rep (build_ordered_headers ds caller' header_list_init) base0)
    by apply (build_ordered_headers_rep ds caller' header_list_init []), ga_empty_rep.
  rewrite (header_list_has_ci_rep _ _ AE H0).
  set (out := if negb override && _ then _ else _).
  assert (H1 : ga_rep out base) by by apply push_when_rep.
  clearbody out. rewrite (header_list_has_ci_rep _ _ CL H1), framing_value_eq. unfold push_str8_copy.
  destruct (Nat.eqb_spec (length body) 0) as [Hb|Hb]; cbn [negb].
  - apply nil_length_inv in Hb as ->.
    destruct (method_has_body m), (bool_decide (is_Some (find_value CL base))); cbn [negb andb fst snd];
      rewrite ?app_nil_r; (split; [|done]); done || by apply header_list_push_rep.
  - destruct (bool_decide (is_Some (find_value CL base))); cbn [negb andb fst snd];
      rewrite ?app_nil_r; (split; [|done]); done || by apply header_list_push_rep.
Qed.

Lemma filter_named_default_part caller ds n :
  default_of n ds = None -> filter (named n) (default_part caller ds) = [].
Proof.
  induction ds as [|d ds IH]; [done|]. rewrite default_of_cons. unfold default_part. cbn [omap list_omap].
  fold (default_part caller ds). destruct (decide (default_named n d)) as [|Hd]; [done|]. intros Hn.
  destruct (nonempty _) as [v|]; cbn [fmap option_fmap option_map]; [|by apply IH].
  rewrite filter_cons_False; [by apply IH|]. exact Hd.
Qed.

Lemma extra_part_cons ds h l :
  extra_part ds (h :: l) =
  (if is_default ds (h_name h) || (length (h_value h) =? 0)%nat then [] else [mkHeader (h_name h) (h_value h) 0])
  ++ extra_part ds l.
Proof.
  unfold extra_part. cbn [omap list_omap]. destruct (is_default ds (h_name h)); [done|]. unfold nonempty.
  by destruct (h_value h).
Qed.

(** The content-length headers that survive the merge, when the caller set no
    value of his own: the first slot, filled. *)
Lemma extra_part_no_slot ds l :
  Forall (fun h => named CL h -> h_value h = []) l -> filter (named CL) (extra_part ds l) = [].
Proof.
  induction 1 as [|h l Hh _ IH]; [done|]. rewrite extra_part_cons, filter_app, IH, app_nil_r.
  destruct (is_default ds (h_name h)); [done|]. destruct (h_value h) as [|x v] eqn:Ev; [done|].
  cbn [orb length Nat.eqb]. rewrite filter_cons_False; [done|]. intros Hn. specialize (Hh Hn). done.
Qed.

Lemma filter_named_extra_part ds caller body m :
  is_default ds CL = false ->
  Forall (fun h => named CL h -> h_value h = []) caller ->
  filter (named CL) (extra_part ds (fill_content_length caller body m)) =
  match framing_value m body, list_find (named CL) caller with
  | Some v, Some (_, h) => [mkHeader (h_name h) v 0]
  | _, _ => []
  end.
Proof.
  intros Hds. induction 1 as [|h caller Hh Hf IH]; [by destruct (framing_value m body)|].
  cbn [fill_content_length list_find]. fold CL. rewrite str8_match_ci_named.
  destruct (decide (named CL h)) as [Hn|Hn].
  - rewrite (Hh Hn), bool_decide_true by done. cbn [length Nat.eqb andb].
    unfold framing_value, nonempty. destruct (slot_content_length body m) as [|x v] eqn:Es; cbn [length Nat.eqb negb].
    + apply extra_part_no_slot. by constructor.
    + rewrite extra_part_cons, filter_app, (extra_part_no_slot ds caller), app_nil_r by done. cbn [h_name h_value].
      rewrite is_default_spec, <-(default_of_ci CL (h_name h) ds (eq_sym Hn)), <-is_default_spec, Hds.
      cbn [orb length Nat.eqb]. by rewrite filter_cons_True, filter_nil.
  - rewrite bool_decide_false, andb_false_r by done. rewrite extra_part_cons, filter_app, IH.
    assert (E : filter (named CL) (if is_default ds (h_name h) || (length (h_value h) =? 0)%nat
                                    then [] else [mkHeader (h_name h) (h_value h) 0]) = []).
    { destruct (_ || _); [done|]. by rewrite filter_cons_False. }
    rewrite E. destruct (framing_value m body); [|done]. by destruct (list_find (named CL) caller) as [[k h']|].
Qed.

(** Filling the slot changes no other header. *)
Lemma fill_find_value caller body m n :
  lower n <> lower CL -> find_value n (fill_content_length caller body m) = find_value n caller.
Proof.
  intros Hn. induction caller as [|h caller IH]; [done|]. cbn [fill_content_length]. fold CL.
  rewrite str8_match_ci_named. destruct (decide (named CL h)) as [Hh|Hh].
  - rewrite bool_decide_true, andb_true_r by done. assert (~ named n h) by (unfold named in *; congruence).
    destruct (_ =? 0)%nat; [|by rewrite !find_value_cons, IH].
    destruct (negb _); [|done]. by rewrite !find_value_cons, !decide_False.
  - rewrite bool_decide_false, andb_false_r by done. by rewrite !find_value_cons, IH.
Qed.

Lemma find_value_extra_fill ds caller body m n :
  lower n <> lower CL ->
  find_value n (extra_part ds (fill_content_length caller body m)) = find_value n (extra_part ds caller).
Proof.
  intros Hn. induction caller as [|h caller IH]; [done|]. cbn [fill_content_length]. fold CL.
  rewrite str8_match_ci_named. destruct (decide (named CL h)) as [Hh|Hh].
  - rewrite bool_decide_true, andb_true_r by done. assert (~ named n h) by (unfold named in *; congruence).
    destruct (_ =? 0)%nat; [|by rewrite !extra_part_cons, !find_value_app, IH].
    destruct (negb _); [|done]. rewrite !extra_part_cons, !find_value_app. f_equal.
    cbn [h_name h_value]. destruct (is_default ds (h_name h)); [done|]. cbn [orb].
    destruct (length (slot_content_length body m) =? 0)%nat, (length (h_value h) =? 0)%nat;
      by rewrite ?find_value_cons, ?decide_False.
  - rewrite bool_decide_false, andb_false_r by done. by rewrite !extra_part_cons, !find_value_app, IH.
Qed.

Lemma default_part_fill ds caller body m :
  default_of CL ds = None -> default_part (fill_content_length caller body m) ds = default_part caller ds.
Proof.
  induction ds as [|d ds IH]; [done|]. rewrite default_of_cons.
  destruct (decide (default_named CL d)) as [|Hd]; [done|]. intros Hn.
  unfold default_part. cbn [omap list_omap]. fold (default_part caller ds) (default_part (fill_content_length caller body m) ds).
  unfold slot_value. rewrite !caller_override_find, fill_find_value by exact Hd. by rewrite IH.
Qed.

(** ** Properties *)

(** The framing of a request. When the caller gives no content-length of
    his own (an empty slot is not one), the headers sent hold exactly one
    content-length, the decimal size of the body, for a request with a body,
    "0" for an empty POST, PUT or PATCH, and none otherwise, whether or not
    the caller placed a slot; an accept-encoding is always there unless the
    defaults are overridden; every other header is the one the merge of
    defaults and caller headers gives. *)
Theorem request_framing_headers (defaults : list DefaultHeader) (caller : list Header) (body : bytes)
    (override : bool) (m : Method) :
  zlen body < 2 ^ 64 -> default_of CL defaults = None ->
  Forall (fun h => named CL h -> h_value h = []) caller ->
  let out := fst (build_request_headers defaults caller body override m) in
  snd (build_request_headers defaults caller body override m) = body /\
  h_value <$> filter (named CL) (ga_list out) = option_list (framing_value m body) /\
  (body <> [] -> leading_value 0 (default [] (framing_value m body)) = zlen body) /\
  (override = false -> is_Some (header_list_value out AE)) /\
  forall n, lower n <> lower CL -> lower n <> lower AE ->
    header_list_value out n =
    header_list_value (build_ordered_headers (if override then [] else defaults) caller header_list_init) n.
Proof.
  intros Hlen Hd Hc out. destruct (build_request_headers_rep defaults caller body override m) as [Hr Hs].
  fold out in Hr. split; [done|].
  assert (Hd' : default_of CL (if override then [] else defaults) = None) by by destruct override.
  assert (Hi : is_default (if override then [] else defaults) CL = false) by by rewrite is_default_spec, Hd'.
  rewrite (ga_rep_list _ _ Hr). rewrite default_part_fill in Hr |- * by done.
  set (ds := if override then [] else defaults) in *.
  set (base := default_part caller ds ++ extra_part ds (fill_content_length caller body m)) in *.
  set (ae := if negb override && _ then [mkHeader AE DEFAULT_ACCEPT_ENCODING 0] else []) in *.
  assert (Hb : filter (named CL) (base ++ ae) = filter (named CL) (extra_part ds (fill_content_length caller body m))).
  { unfold base, ae. rewrite !filter_app, filter_named_default_part by done.
    destruct (_ && _); [|by rewrite app_nil_r]. rewrite filter_cons_False, app_nil_r; [done|].
    intros H. by apply (named_disjoint _ H). }
  split; [|split; [|split]].
  - rewrite filter_app, Hb. rewrite find_value_filter, Hb, filter_named_extra_part by done.
    destruct (framing_value m body) as [v|]; [|by rewrite bool_decide_false by (intros [? [=]])].
    destruct (list_find (named CL) caller) as [[k h]|]; [done|].
    rewrite bool_decide_false by (intros [? [=]]). by rewrite filter_cons_True.
  - intros Hne. rewrite framing_value_eq. destruct body as [|x b]; [done|]. cbn [length Nat.eqb negb default].
    apply (str8_from_u64_decimal (zlen (x :: b)) 0). unfold zlen in *. lia.
  - intros ->. rewrite (header_list_value_rep _ _ AE Hr), !find_value_app. unfold ae. cbn [negb andb].
    destruct (find_value AE base); [by eexists|]. by eexists.
  - intros n Hn1 Hn2. rewrite (header_list_value_rep _ _ n Hr).
    rewrite (header_list_value_rep _ _ n
      (build_ordered_headers_rep ds caller header_list_init [] ga_empty_rep)). cbn [app].
    unfold base. rewrite !find_value_app, find_value_extra_fill by done.
    destruct (find_value n (default_part caller ds)); [done|]. destruct (find_value n (extra_part ds caller)); [done|].
    assert (E1 : find_value n ae = None).
    { unfold ae. destruct (_ && _); [|done]. rewrite find_value_cons, decide_False; [done|]. intros H. apply Hn2. exact (eq_sym H). }
    rewrite E1. match goal with |- context [if ?b then [] else _] => destruct b end; [done|].
    destruct (framing_value m body); [|done].
    rewrite find_value_cons, decide_False; [done|]. intros H. apply Hn1. exact (eq_sym H).
Qed.

Lemma request_framing_headers_witness :
  ga_list (fst (build_request_headers [mkDefault (lit "user-agent") (lit "UA") None]
    [mkHeader (lit "Content-Length") [] 0; mkHeader (lit "X-A") (lit "1") 0] (lit "hello") false Method_POST)) =
  [mkHeader (lit "user-agent") (lit "UA") 0; mkHeader (lit "Content-Length") (lit "5") 0;
   mkHeader (lit "X-A") (lit "1") 0; mkHeader AE DEFAULT_ACCEPT_ENCODING 0] /\
  h_value <$> filter (named CL) (ga_list (fst (build_request_headers [mkDefault (lit "user-agent") (lit "UA") None]
    [mkHeader (lit "Content-Length") [] 0; mkHeader (lit "X-A") (lit "1") 0] (lit "hello") false Method_POST))) = [lit "5"].
Proof.
  split; [vm_compute; reflexivity|].
  refine (eq_trans (proj1 (proj2 (request_framing_headers [mkDefault (lit "user-agent") (lit "UA") None]
    [mkHeader (lit "Content-Length") [] 0; mkHeader (lit "X-A") (lit "1") 0] (lit "hello") false Method_POST _ _ _))) _).
  - vm_compute. reflexivity.
  - vm_compute. reflexivity.
  - apply (bool_decide_unpack _). vm_compute. reflexivity.
  - vm_compute. reflexivity.
Defined.

(** *** Hooks *)
Lemma find_value_None n l : Forall (fun h => ~ named n h) l -> find_value n l = None.
Proof. unfold find_value. intros H. by rewrite (proj2 (list_find_None (named n) l) H). Qed.

Lemma hook_header_protected_ci a b : lower a = lower b -> hook_header_protected a = hook_header_protected b.
Proof.
  intros E. assert (Hl : length a = length b).
  { apply (f_equal length) in E. unfold lower in E. by rewrite !length_fmap in E. }
  assert (Hm : forall p, str8_match_ci a p = str8_match_ci b p).
  { intros p. apply Bool.eq_iff_eq_true. by rewrite !str8_match_ci_eq, E. }
  assert (Hp : forall p, name_ci_prefix a p = name_ci_prefix b p).
  { intros p. unfold name_ci_prefix. rewrite Hl. f_equal. apply Bool.eq_iff_eq_true. rewrite !str8_match_ci_eq.
    unfold str8_prefix. rewrite Hl. unfold lower in *. by rewrite !fmap_take, E. }
  unfold hook_header_protected. by rewrite !Hm, !Hp.
Qed.

Definition fingerprint (h : Header) : Prop := hook_header_protected (h_name h) = true.
#[export] Instance fingerprint_dec h : Decision (fingerprint h).
Proof. unfold fingerprint. apply _. Defined.

Lemma hook_set_rep hl l name value :
  ga_rep hl l ->
  ga_rep (snd (hook_request_set_header hl name value))
    (if hook_header_protected name then l
     else match list_find (named name) l with
          | Some (i, h) => <[i := mkHeader (h_name h) value (h_flags h)]> l
          | None => l ++ [mkHeader name value 0]
          end).
Proof.
  intros Hr. unfold hook_request_set_header, push_str8_copy. destruct (hook_header_protected name); [done|].
  rewrite (header_list_get_ci_rep hl l name Hr). destruct (list_find (named name) l) as [[i h]|] eqn:E; cbn [fmap option_fmap option_map fst snd].
  - unfold header_list_set_value. apply list_find_Some in E as (Hi & _). rewrite (ga_get_rep _ _ _ Hr), Hi.
    apply ga_set_rep; [|done]. by eapply lookup_lt_Some.
  - by apply header_list_push_rep.
Qed.

(** A call for one name leaves every header of the fingerprint. *)
Lemma hook_set_fingerprint hl l name value :
  ga_rep hl l -> exists l', ga_rep (snd (hook_request_set_header hl name value)) l' /\
    filter fingerprint l' = filter fingerprint l.
Proof.
  intros Hr. eexists. split; [by apply hook_set_rep|]. destruct (hook_header_protected name) eqn:Ep; [done|].
  destruct (list_find (named name) l) as [[i h]|] eqn:E.
  - apply list_find_Some in E as (Hi & Hn & _).
    assert (Hf : ~ fingerprint h) by (unfold fingerprint; rewrite (hook_header_protected_ci _ _ Hn), Ep; done).
    rewrite insert_take_drop by by eapply lookup_lt_Some.
    rewrite <-(take_drop_middle l i h Hi) at 3. rewrite !filter_app, !filter_cons_False; [done..|].
    unfold fingerprint in *. done.
  - rewrite filter_app, filter_cons_False, filter_nil, app_nil_r; [done|]. unfold fingerprint. cbn. by rewrite Ep.
Qed.

Lemma pre_hook_fingerprint calls hl l :
  ga_rep hl l -> exists l', ga_rep (client_run_pre_hook calls hl) l' /\ filter fingerprint l' = filter fingerprint l.
Proof.
  unfold client_run_pre_hook. revert hl l. induction calls as [|[n v] calls IH]; intros hl l Hr; [by exists l|].
  cbn [foldl fst snd]. destruct (hook_set_fingerprint hl l n v Hr) as (l1 & H1 & E1).
  destruct (IH _ _ H1) as (l2 & H2 & E2). exists l2. split; [done|]. congruence.
Qed.

Lemma apply_header_order_rep client_order override hl l csv fetch_order :
  ga_rep hl l -> exists l', ga_rep (apply_header_order client_order override hl csv fetch_order) l' /\ l' ≡ₚ l.
Proof.
  intros Hr. unfold apply_header_order, apply_fetch_order.
  assert (Ho : forall order, exists l', ga_rep (reorder_headers hl order) l' /\ l' ≡ₚ l).
  { intros order. eexists. split; [by apply reorder_headers_rep|]. apply pull_perm. }
  destruct (negb (length (if (length csv =? 0)%nat then [] else _) =? 0)%nat); [by eauto|].
  destruct (negb (length client_order =? 0)%nat); [by eauto|].
  destruct (negb override && headers_are_fetch hl); [|by eauto]. destruct (length fetch_order =? 0)%nat; by eauto.
Qed.

(** Hooks cannot touch the fingerprint. Whatever calls a request hook
    makes and whichever order the headers are sent in, the user-agent,
    accept-encoding, sec-fetch-* and sec-ch-ua* headers on the wire are those
    that were built, nothing more and nothing less; a call for any other name
    takes effect. *)
Theorem hooks_keep_fingerprint (hl : HeaderList) (calls : list (bytes * bytes)) (client_order : list bytes)
    (override : bool) (csv : bytes) (fetch_order : list bytes) :
  ga_wf hl ->
  let sent := apply_header_order client_order override (client_run_pre_hook calls hl) csv fetch_order in
  filter fingerprint (ga_list sent) ≡ₚ filter fingerprint (ga_list hl) /\
  forall name value,
    let '(ok, hl') := hook_request_set_header hl name value in
    if hook_header_protected name then ok = false /\ hl' = hl
    else ok = true /\ header_list_value hl' name = Some value.
Proof.
  intros Hr sent. split.
  - destruct (pre_hook_fingerprint calls hl _ Hr) as (l1 & H1 & E1).
    destruct (apply_header_order_rep client_order override _ _ csv fetch_order H1) as (l2 & H2 & E2).
    unfold sent. rewrite (ga_rep_list _ _ H2), <-E1. by rewrite E2.
  - intros name value. pose proof (hook_set_rep hl _ name value Hr) as H'.
    destruct (hook_request_set_header hl name value) as [ok hl'] eqn:E. unfold hook_request_set_header in E. cbn [snd] in H'.
    destruct (hook_header_protected name); [by simplify_eq|].
    rewrite (header_list_get_ci_rep hl _ name Hr) in E.
    destruct (list_find (named name) (ga_list hl)) as [[i h]|] eqn:Ef; cbn in E; simplify_eq; (split; [done|]);
      rewrite (header_list_value_rep _ _ name H').
    + apply list_find_Some in Ef as (Hi & Hn & Hlt). rewrite insert_take_drop by by eapply lookup_lt_Some.
      rewrite find_value_app, find_value_cons, decide_True by exact Hn.
      rewrite find_value_None; [done|]. apply Forall_forall. intros x (j & Hj)%list_elem_of_lookup.
      apply lookup_take_Some in Hj as [Hj ?]. by apply (Hlt j).
    + rewrite find_value_app, find_value_cons, decide_True by done.
      rewrite find_value_None; [done|]. by apply (list_find_None (named name)).
Qed.

Definition demo_built : HeaderList :=
  header_list_push (header_list_push header_list_init (lit "User-Agent") (lit "UA") 0) (lit "x-a") (lit "1") 0.
Lemma hooks_keep_fingerprint_witness :
  let sent := apply_header_order [] false
    (client_run_pre_hook [(lit "user-agent", lit "evil"); (lit "X-A", lit "2"); (lit "x-b", lit "3")] demo_built)
    (lit "x-b, x-a") [] in
  ga_list sent = [mkHeader (lit "x-b") (lit "3") 0; mkHeader (lit "x-a") (lit "2") 0; mkHeader (lit "User-Agent") (lit "UA") 0] /\
  filter fingerprint (ga_list sent) ≡ₚ filter fingerprint (ga_list demo_built).
Proof.
  split; [vm_compute; reflexivity|]. apply (hooks_keep_fingerprint demo_built). 
  unfold demo_built. eapply ga_rep_wf, header_list_push_rep, header_list_push_rep, ga_empty_rep.
Defined.

(** *** Spelling and decoding *)
Lemma push_fold_rep {A} (f : A -> Header) (l : list A) hl l0 :
  ga_rep hl l0 ->
  ga_rep (foldl (fun out x => header_list_push out (h_name (f x)) (h_value (f x)) (h_flags (f x))) hl l) (l0 ++ (f <$> l)).
Proof.
  revert hl l0; induction l as [|x l IH]; intros hl l0 Hr; cbn [foldl fmap list_fmap]; [by rewrite app_nil_r|].
  rewrite cons_middle, app_assoc. apply IH. destruct (f x) as [n v fl]. by apply header_list_push_rep.
Qed.

(** The spellings of a profile differ from the names in case only. *)
Definition spelling_ok (ds : list DefaultHeader) : Prop :=
  Forall (fun d => forall w, d_wire_name d = Some w -> lower (str8_cstring w) = lower (str8_cstring (d_name d))) ds.

Lemma h1_wire_name_ci ds name : spelling_ok ds -> lower (h1_wire_name ds name) = lower name.
Proof.
  intros Hs. unfold h1_wire_name.
  assert (Hw : forall w, h1_wire_default ds name = Some w -> lower w = lower name).
  { induction Hs as [|d ds Hd _ IH]; [done|]. intros w. cbn [h1_wire_default].
    destruct (str8_match_ci name _) eqn:Em; [|apply IH]. intros [= <-]. apply str8_match_ci_eq in Em.
    destruct (d_wire_name d) as [w'|]; [|done]. by rewrite (Hd w' eq_refl), Em. }
  destruct (h1_wire_default ds name) as [w|]; [by apply Hw|].
  destruct (str8_match_ci name (lit "content-length")) eqn:E1; [by apply str8_match_ci_eq in E1 as ->|].
  destruct (str8_match_ci name (lit "accept-encoding")) eqn:E2; [by apply str8_match_ci_eq in E2 as ->|done].
Qed.

(** The HTTP/1.1 spelling of the request headers keeps their number, their
    order, their values, and their names up to case. *)
Theorem h1_headers_respelled (ds : list DefaultHeader) (src : list Header) :
  spelling_ok ds ->
  let out := ga_list (build_h1_headers ds src) in
  lower ∘ h_name <$> out = lower ∘ h_name <$> src /\
  h_value <$> out = h_value <$> src /\ h_flags <$> out = h_flags <$> src.
Proof.
  intros Hs out.
  assert (Hr : ga_rep (build_h1_headers ds src) ((fun h => mkHeader (h1_wire_name ds (h_name h)) (h_value h) (h_flags h)) <$> src))
    by apply (push_fold_rep (fun h => mkHeader (h1_wire_name ds (h_name h)) (h_value h) (h_flags h)) src header_list_init []), ga_empty_rep.
  unfold out. rewrite (ga_rep_list _ _ Hr), <-!list_fmap_compose.
  split; [|split]; apply list_fmap_ext; intros i h _; [|done|done]. by apply h1_wire_name_ci.
Qed.

Lemma h1_headers_respelled_witness :
  h_name <$> ga_list (build_h1_headers [mkDefault (lit "sec-ch-ua") (lit "v") (Some (lit "sec-ch-ua"));
     mkDefault (lit "user-agent") (lit "UA") (Some (lit "User-Agent"))]
     [mkHeader (lit "user-agent") (lit "UA") 0; mkHeader (lit "content-length") (lit "0") 0; mkHeader (lit "X-Y") (lit "z") 0])
  = [lit "User-Agent"; lit "Content-Length"; lit "X-Y"] /\
  h_value <$> ga_list (build_h1_headers [mkDefault (lit "sec-ch-ua") (lit "v") (Some (lit "sec-ch-ua"));
     mkDefault (lit "user-agent") (lit "UA") (Some (lit "User-Agent"))]
     [mkHeader (lit "user-agent") (lit "UA") 0; mkHeader (lit "content-length") (lit "0") 0; mkHeader (lit "X-Y") (lit "z") 0])
  = [lit "UA"; lit "0"; lit "z"].
Proof.
  split; [vm_compute; reflexivity|].
  refine (eq_trans (proj1 (proj2 (h1_headers_respelled _ _ _))) _); [|reflexivity].
  repeat constructor; intros w [= <-]; reflexivity.
Defined.
