(* ===== verification/Profile.v ===== *)
(** * Browser profiles: profile/profile.h, profiles.c, chrome.c, firefox.c, sec_ch_ua.c

    The tables that make the wire image of a browser (TLS, HTTP/2, HTTP/3, the
    default headers), the registry they are chosen from, and the generated
    [sec-ch-ua] brand lists. A null pointer of a table is [None]; a length-counted
    array is the list of its entries. *)
From stdpp Require Import list.
From S2P Require Import Prelude String8 U8Buf Header Proxy ReqHeaders H3Control H2.

(** ** The model of a profile *)
Definition CertCompress_Zlib : Z := 1.
Definition CertCompress_Brotli : Z := 2.
Definition CertCompress_Zstd : Z := 4.
Definition TlsVersion_1_2 : Z := 771.
Definition TlsVersion_1_3 : Z := 772.
Definition H2Setting_HeaderTableSize : Z := 1.
Definition H2Setting_EnablePush : Z := 2.
Definition H2Setting_InitialWindowSize : Z := 4.
Definition H2Setting_MaxFrameSize : Z := 5.
Definition H2Setting_MaxHeaderListSize : Z := 6.

Record TlsProfile := mkTls {
  cipher_list : option bytes;
  curves_list : option bytes;
  sigalgs_list : option bytes;
  min_version : Z;
  max_version : Z;
  alpn_wire : bytes;
  alps_protocols : list bytes;
  alps_new_codepoint : bool;
  cert_compress_algs : list Z;
  grease : bool;
  permute_extensions : bool;
  enable_ocsp_stapling : bool;
  enable_signed_cert_timestamps : bool;
  enable_ech_grease : bool;
  session_tickets : bool;
  aes_hw_override : bool;
  aes_hw_override_value : bool;
  random_aes_hw_override : bool;
  record_size_limit : Z;
  delegated_credentials : option bytes;
  key_shares_limit : Z;
  extension_order : option bytes;
  force_tls13_legacy_ext : bool
}.
Record Profile := mkProfile {
  p_name : bytes;
  p_id : Z;
  p_tls : TlsProfile;
  p_h2 : Http2Profile;
  default_headers : list DefaultHeader;
  fetch_order : list bytes
}.
Record QuicProfile := mkQuicProfile {
  q_name : bytes;
  q_id : Z;
  q_tls : TlsProfile;
  q_h3 : Http3Profile;
  q_default_headers : list DefaultHeader;
  q_fetch_order : list bytes
}.

(** ** profiles.c: the template *)
Definition k_cipher_list : bytes :=
  lit "TLS_ECDHE_ECDSA_WITH_AES_128_GCM_SHA256:" ++ lit "TLS_ECDHE_RSA_WITH_AES_128_GCM_SHA256:" ++
  lit "TLS_ECDHE_ECDSA_WITH_CHACHA20_POLY1305_SHA256:" ++ lit "TLS_ECDHE_RSA_WITH_CHACHA20_POLY1305_SHA256:" ++
  lit "TLS_ECDHE_ECDSA_WITH_AES_256_GCM_SHA384:" ++ lit "TLS_ECDHE_RSA_WITH_AES_256_GCM_SHA384:" ++
  lit "TLS_ECDHE_ECDSA_WITH_AES_256_CBC_SHA:" ++ lit "TLS_ECDHE_ECDSA_WITH_AES_128_CBC_SHA:" ++
  lit "TLS_ECDHE_RSA_WITH_AES_128_CBC_SHA:" ++ lit "TLS_ECDHE_RSA_WITH_AES_256_CBC_SHA:" ++
  lit "TLS_RSA_WITH_AES_128_GCM_SHA256:" ++ lit "TLS_RSA_WITH_AES_256_GCM_SHA384:" ++
  lit "TLS_RSA_WITH_AES_128_CBC_SHA:" ++ lit "TLS_RSA_WITH_AES_256_CBC_SHA".
Definition k_curves_list : bytes := lit "X25519MLKEM768:X25519:P-256:P-384:P-521".
Definition k_sigalgs_list : bytes :=
  lit "ecdsa_secp256r1_sha256:ecdsa_secp384r1_sha384:ecdsa_secp521r1_sha512:" ++
  lit "rsa_pss_rsae_sha256:rsa_pss_rsae_sha384:rsa_pss_rsae_sha512:" ++
  lit "rsa_pkcs1_sha256:rsa_pkcs1_sha384:rsa_pkcs1_sha512:ecdsa_sha1:" ++ lit "rsa_pkcs1_sha1".
Definition k_alpn_wire : bytes := [2] ++ lit "h2" ++ [8] ++ lit "http/1.1".
Definition k_cert_compress : list Z := [CertCompress_Zlib; CertCompress_Brotli; CertCompress_Zstd].
Definition k_delegated_creds : bytes :=
  lit "ecdsa_secp256r1_sha256:ecdsa_secp384r1_sha384:ecdsa_secp521r1_sha512:" ++ lit "ecdsa_sha1".
Definition k_extension_order : bytes := lit "0-23-65281-10-11-35-16-5-34-18-51-43-13-45-28-27-65037".
Definition k_h2_settings : list (Z * Z) :=
  [(H2Setting_HeaderTableSize, 65536); (H2Setting_EnablePush, 0); (H2Setting_InitialWindowSize, 131072); (H2Setting_MaxFrameSize, 16384)].
Definition k_pseudo_order : list PseudoId := [Pseudo_Method; Pseudo_Path; Pseudo_Authority; Pseudo_Scheme].
Definition k_template : Profile := {|
  p_name := lit "wreq-template";
  p_id := 1;
  p_tls := {|
    cipher_list := Some k_cipher_list; curves_list := Some k_curves_list; sigalgs_list := Some k_sigalgs_list;
    min_version := TlsVersion_1_2; max_version := TlsVersion_1_3; alpn_wire := k_alpn_wire;
    alps_protocols := []; alps_new_codepoint := false; cert_compress_algs := k_cert_compress;
    grease := true; permute_extensions := false; enable_ocsp_stapling := true; enable_signed_cert_timestamps := true;
    enable_ech_grease := true; session_tickets := true;
    aes_hw_override := true; aes_hw_override_value := true; random_aes_hw_override := true;
    record_size_limit := 16385; delegated_credentials := Some k_delegated_creds; key_shares_limit := 3;
    extension_order := Some k_extension_order; force_tls13_legacy_ext := false |};
  p_h2 := {|
    h2p_settings := k_h2_settings; h2p_connection_window_increment := 12517377; h2p_use_priority := true;
    h2p_priority_dep_stream := 0; h2p_priority_weight := 41; h2p_priority_exclusive := false; h2p_pseudo_order := k_pseudo_order |};
  default_headers := [];
  fetch_order := []
|}.
Definition profile_template : Profile := k_template.

(** ** chrome.c *)
Definition k_chrome_cipher_list : bytes :=
  lit "TLS_ECDHE_ECDSA_WITH_AES_128_GCM_SHA256:" ++ lit "TLS_ECDHE_RSA_WITH_AES_128_GCM_SHA256:" ++
  lit "TLS_ECDHE_ECDSA_WITH_AES_256_GCM_SHA384:" ++ lit "TLS_ECDHE_RSA_WITH_AES_256_GCM_SHA384:" ++
  lit "TLS_ECDHE_ECDSA_WITH_CHACHA20_POLY1305_SHA256:" ++ lit "TLS_ECDHE_RSA_WITH_CHACHA20_POLY1305_SHA256:" ++
  lit "TLS_ECDHE_RSA_WITH_AES_128_CBC_SHA:" ++ lit "TLS_ECDHE_RSA_WITH_AES_256_CBC_SHA:" ++
  lit "TLS_RSA_WITH_AES_128_GCM_SHA256:" ++ lit "TLS_RSA_WITH_AES_256_GCM_SHA384:" ++
  lit "TLS_RSA_WITH_AES_128_CBC_SHA:" ++ lit "TLS_RSA_WITH_AES_256_CBC_SHA".
Definition k_chrome_curves : bytes := lit "X25519MLKEM768:X25519:P-256:P-384".
Definition k_chrome_sigalgs : bytes :=
  lit "ecdsa_secp256r1_sha256:rsa_pss_rsae_sha256:rsa_pkcs1_sha256:" ++
  lit "ecdsa_secp384r1_sha384:rsa_pss_rsae_sha384:rsa_pkcs1_sha384:" ++ lit "rsa_pss_rsae_sha512:rsa_pkcs1_sha512".
Definition k_chrome_h3_sigalgs : bytes :=
  lit "ecdsa_secp256r1_sha256:rsa_pss_rsae_sha256:rsa_pkcs1_sha256:" ++
  lit "ecdsa_secp384r1_sha384:rsa_pss_rsae_sha384:rsa_pkcs1_sha384:" ++ lit "rsa_pss_rsae_sha512:rsa_pkcs1_sha512:rsa_pkcs1_sha1".
Definition k_chrome_alpn_h2 : bytes := [2] ++ lit "h2" ++ [8] ++ lit "http/1.1".
Definition k_chrome_alpn_h3 : bytes := [2] ++ lit "h3".
Definition k_chrome_alps_h2 : list bytes := [lit "h2"].
Definition k_chrome_alps_h3 : list bytes := [lit "h3"].
Definition k_chrome_cert_compress : list Z := [CertCompress_Brotli].
Definition k_chrome_h2_settings : list (Z * Z) :=
  [(H2Setting_HeaderTableSize, 65536); (H2Setting_EnablePush, 0); (H2Setting_InitialWindowSize, 6291456); (H2Setting_MaxHeaderListSize, 262144)].
Definition k_chrome_h3_settings : list (Z * Z) := [(1, 65536); (6, 262144); (7, 100); (51, 1)].
Definition k_chrome_pseudo : list PseudoId := [Pseudo_Method; Pseudo_Authority; Pseudo_Scheme; Pseudo_Path].
Definition k_chrome_fetch_order : list bytes :=
  [lit "content-length"; lit "sec-ch-ua-platform"; lit "user-agent"; lit "sec-ch-ua"; lit "sec-ch-ua-mobile"; lit "accept";
   lit "origin"; lit "sec-fetch-site"; lit "sec-fetch-mode"; lit "sec-fetch-dest"; lit "referer"; lit "accept-encoding";
   lit "accept-language"; lit "cookie"; lit "priority"].
Definition CHROME_TLS_H2 : TlsProfile := {|
  cipher_list := Some k_chrome_cipher_list; curves_list := Some k_chrome_curves; sigalgs_list := Some k_chrome_sigalgs;
  min_version := TlsVersion_1_2; max_version := TlsVersion_1_3; alpn_wire := k_chrome_alpn_h2;
  alps_protocols := k_chrome_alps_h2; alps_new_codepoint := true; cert_compress_algs := k_chrome_cert_compress;
  grease := true; permute_extensions := true; enable_ocsp_stapling := true; enable_signed_cert_timestamps := true;
  enable_ech_grease := true; session_tickets := true;
  aes_hw_override := false; aes_hw_override_value := false; random_aes_hw_override := false;
  record_size_limit := 0; delegated_credentials := None; key_shares_limit := 2; extension_order := None; force_tls13_legacy_ext := false |}.
Definition CHROME_TLS_H3 : TlsProfile := {|
  cipher_list := None; curves_list := Some k_chrome_curves; sigalgs_list := Some k_chrome_h3_sigalgs;
  min_version := TlsVersion_1_3; max_version := TlsVersion_1_3; alpn_wire := k_chrome_alpn_h3;
  alps_protocols := k_chrome_alps_h3; alps_new_codepoint := true; cert_compress_algs := k_chrome_cert_compress;
  grease := true; permute_extensions := false; enable_ocsp_stapling := false; enable_signed_cert_timestamps := false;
  enable_ech_grease := true; session_tickets := true;
  aes_hw_override := false; aes_hw_override_value := false; random_aes_hw_override := false;
  record_size_limit := 0; delegated_credentials := None; key_shares_limit := 2; extension_order := None; force_tls13_legacy_ext := false |}.
Definition CHROME_H2_FP : Http2Profile := {|
  h2p_settings := k_chrome_h2_settings; h2p_connection_window_increment := 15663105; h2p_use_priority := true;
  h2p_priority_dep_stream := 0; h2p_priority_weight := 256; h2p_priority_exclusive := true; h2p_pseudo_order := k_chrome_pseudo |}.
Definition CHROME_H3_FP : Http3Profile := {|
  initial_max_data := 15728640; initial_max_stream_data_bidi_local := 6291456; initial_max_stream_data_bidi_remote := 6291456;
  initial_max_stream_data_uni := 6291456; initial_max_streams_bidi := 100; initial_max_streams_uni := 103;
  max_idle_timeout_ms := 30000; max_udp_payload_size := 1472; max_datagram_frame_size := 65536;
  h3_settings := k_chrome_h3_settings; settings_grease := true; send_grease_frame := true; send_priority_update := true;
  pseudo_order := k_chrome_pseudo |}.
(** A string in quotes. *)
Definition quoted (s : bytes) : bytes := [34] ++ s ++ [34].
Definition row (name value wire_name : string) : DefaultHeader := mkDefault (lit name) (lit value) (Some (lit wire_name)).
Definition CHROME_NAV_HEADERS (sec_ch_ua ua : bytes) : list DefaultHeader :=
  [mkDefault (lit "sec-ch-ua") sec_ch_ua (Some (lit "sec-ch-ua"));
   row "sec-ch-ua-mobile" "?0" "sec-ch-ua-mobile";
   mkDefault (lit "sec-ch-ua-platform") (quoted (lit "Windows")) (Some (lit "sec-ch-ua-platform"));
   row "upgrade-insecure-requests" "1" "Upgrade-Insecure-Requests";
   mkDefault (lit "user-agent") ua (Some (lit "User-Agent"));
   row "accept" "text/html,application/xhtml+xml,application/xml;q=0.9,image/avif,image/webp,image/apng,*/*;q=0.8,application/signed-exchange;v=b3;q=0.7" "Accept";
   row "sec-fetch-site" "none" "Sec-Fetch-Site";
   row "sec-fetch-mode" "navigate" "Sec-Fetch-Mode";
   row "sec-fetch-user" "?1" "Sec-Fetch-User";
   row "sec-fetch-dest" "document" "Sec-Fetch-Dest";
   row "accept-encoding" "gzip, deflate, br, zstd" "Accept-Encoding";
   row "accept-language" "en-US,en;q=0.9" "Accept-Language";
   row "cookie" "" "Cookie";
   row "priority" "u=0, i" "Priority"].
Definition K_CHROME_UA (v : bytes) : bytes :=
  lit "Mozilla/5.0 (Windows NT 10.0; Win64; x64) AppleWebKit/537.36 (KHTML, " ++ lit "like Gecko) Chrome/" ++ v ++ lit ".0.0.0 Safari/537.36".
Definition k_chrome148_headers : list DefaultHeader :=
  CHROME_NAV_HEADERS (quoted (lit "Chromium") ++ lit ";v=" ++ quoted (lit "148") ++ lit ", " ++ quoted (lit "Google Chrome") ++ lit ";v=" ++
    quoted (lit "148") ++ lit ", " ++ quoted (lit "Not/A)Brand") ++ lit ";v=" ++ quoted (lit "99")) (K_CHROME_UA (lit "148")).
Definition k_chrome148 : Profile := mkProfile (lit "chrome148") 148 CHROME_TLS_H2 CHROME_H2_FP k_chrome148_headers k_chrome_fetch_order.
Definition k_chrome148_h3 : QuicProfile :=
  mkQuicProfile (lit "chrome148-h3") 148 CHROME_TLS_H3 CHROME_H3_FP k_chrome148_headers k_chrome_fetch_order.
Definition k_chrome149_headers : list DefaultHeader :=
  CHROME_NAV_HEADERS (quoted (lit "Google Chrome") ++ lit ";v=" ++ quoted (lit "149") ++ lit ", " ++ quoted (lit "Chromium") ++ lit ";v=" ++
    quoted (lit "149") ++ lit ", " ++ quoted (lit "Not)A;Brand") ++ lit ";v=" ++ quoted (lit "24")) (K_CHROME_UA (lit "149")).
Definition k_chrome149 : Profile := mkProfile (lit "chrome149") 149 CHROME_TLS_H2 CHROME_H2_FP k_chrome149_headers k_chrome_fetch_order.
Definition k_chrome149_h3 : QuicProfile :=
  mkQuicProfile (lit "chrome149-h3") 149 CHROME_TLS_H3 CHROME_H3_FP k_chrome149_headers k_chrome_fetch_order.

(** ** firefox.c *)
Definition k_firefox_cipher_list : bytes :=
  lit "TLS_AES_128_GCM_SHA256:TLS_CHACHA20_POLY1305_SHA256:TLS_AES_256_GCM_" ++ lit "SHA384:" ++
  lit "TLS_ECDHE_ECDSA_WITH_AES_128_GCM_SHA256:" ++ lit "TLS_ECDHE_RSA_WITH_AES_128_GCM_SHA256:" ++
  lit "TLS_ECDHE_ECDSA_WITH_CHACHA20_POLY1305_SHA256:" ++ lit "TLS_ECDHE_RSA_WITH_CHACHA20_POLY1305_SHA256:" ++
  lit "TLS_ECDHE_ECDSA_WITH_AES_256_GCM_SHA384:" ++ lit "TLS_ECDHE_RSA_WITH_AES_256_GCM_SHA384:" ++
  lit "TLS_ECDHE_ECDSA_WITH_AES_256_CBC_SHA:" ++ lit "TLS_ECDHE_RSA_WITH_AES_128_CBC_SHA:" ++
  lit "TLS_ECDHE_RSA_WITH_AES_256_CBC_SHA:" ++ lit "TLS_RSA_WITH_AES_128_GCM_SHA256:" ++
  lit "TLS_RSA_WITH_AES_256_GCM_SHA384:" ++ lit "TLS_RSA_WITH_AES_128_CBC_SHA:" ++ lit "TLS_RSA_WITH_AES_256_CBC_SHA".
Definition k_firefox_curves : bytes := lit "X25519MLKEM768:X25519:P-256:P-384:P-521:ffdhe2048:ffdhe3072".
Definition k_firefox_curves_h3 : bytes := lit "X25519MLKEM768:X25519:P-256:P-384:P-521".
Definition k_firefox_sigalgs : bytes :=
  lit "ecdsa_secp256r1_sha256:ecdsa_secp384r1_sha384:ecdsa_secp521r1_sha512:" ++
  lit "rsa_pss_rsae_sha256:rsa_pss_rsae_sha384:rsa_pss_rsae_sha512:" ++
  lit "rsa_pkcs1_sha256:rsa_pkcs1_sha384:rsa_pkcs1_sha512:ecdsa_sha1:" ++ lit "rsa_pkcs1_sha1".
Definition k_firefox_sigalgs_h3 : bytes :=
  lit "ecdsa_secp256r1_sha256:ecdsa_secp384r1_sha384:ecdsa_secp521r1_sha512:" ++ lit "ecdsa_sha1:" ++
  lit "rsa_pss_rsae_sha256:rsa_pss_rsae_sha384:rsa_pss_rsae_sha512:" ++
  lit "rsa_pkcs1_sha256:rsa_pkcs1_sha384:rsa_pkcs1_sha512:" ++ lit "rsa_pkcs1_sha1".
Definition k_firefox_delegated_creds : bytes :=
  lit "ecdsa_secp256r1_sha256:ecdsa_secp384r1_sha384:ecdsa_secp521r1_sha512:" ++ lit "ecdsa_sha1".
Definition k_firefox_extension_order : bytes := lit "0-23-65281-10-11-35-16-5-34-18-51-43-13-45-28-27-65037".
Definition k_firefox_alpn_h2 : bytes := [2] ++ lit "h2" ++ [8] ++ lit "http/1.1".
Definition k_firefox_alpn_h3 : bytes := [2] ++ lit "h3".
Definition k_firefox_cert_compress : list Z := [CertCompress_Zlib; CertCompress_Brotli; CertCompress_Zstd].
Definition k_firefox_h2_settings : list (Z * Z) :=
  [(H2Setting_HeaderTableSize, 65536); (H2Setting_EnablePush, 0); (H2Setting_InitialWindowSize, 131072); (H2Setting_MaxFrameSize, 16384)].
Definition k_firefox_h2_pseudo : list PseudoId := [Pseudo_Method; Pseudo_Path; Pseudo_Authority; Pseudo_Scheme].
Definition k_firefox_h3_settings : list (Z * Z) := [(1, 65536); (7, 20); (727725890, 0); (16765559, 1); (51, 1); (8, 1)].
Definition k_firefox_h3_pseudo : list PseudoId := [Pseudo_Method; Pseudo_Scheme; Pseudo_Authority; Pseudo_Path].
Definition FIREFOX_TLS_H2 : TlsProfile := {|
  cipher_list := Some k_firefox_cipher_list; curves_list := Some k_firefox_curves; sigalgs_list := Some k_firefox_sigalgs;
  min_version := TlsVersion_1_2; max_version := TlsVersion_1_3; alpn_wire := k_firefox_alpn_h2;
  alps_protocols := []; alps_new_codepoint := false; cert_compress_algs := k_firefox_cert_compress;
  grease := false; permute_extensions := false; enable_ocsp_stapling := true; enable_signed_cert_timestamps := true;
  enable_ech_grease := true; session_tickets := true;
  aes_hw_override := false; aes_hw_override_value := false; random_aes_hw_override := false;
  record_size_limit := 16385; delegated_credentials := Some k_firefox_delegated_creds; key_shares_limit := 3;
  extension_order := Some k_firefox_extension_order; force_tls13_legacy_ext := false |}.
Definition FIREFOX_TLS_H3 : TlsProfile := {|
  cipher_list := None; curves_list := Some k_firefox_curves_h3; sigalgs_list := Some k_firefox_sigalgs_h3;
  min_version := TlsVersion_1_3; max_version := TlsVersion_1_3; alpn_wire := k_firefox_alpn_h3;
  alps_protocols := []; alps_new_codepoint := false; cert_compress_algs := k_firefox_cert_compress;
  grease := false; permute_extensions := false; enable_ocsp_stapling := true; enable_signed_cert_timestamps := false;
  enable_ech_grease := true; session_tickets := false;
  aes_hw_override := false; aes_hw_override_value := false; random_aes_hw_override := false;
  record_size_limit := 16385; delegated_credentials := Some k_firefox_delegated_creds; key_shares_limit := 3;
  extension_order := None; force_tls13_legacy_ext := true |}.
Definition FIREFOX_H2_FP : Http2Profile := {|
  h2p_settings := k_firefox_h2_settings; h2p_connection_window_increment := 12517377; h2p_use_priority := true;
  h2p_priority_dep_stream := 0; h2p_priority_weight := 42; h2p_priority_exclusive := false; h2p_pseudo_order := k_firefox_h2_pseudo |}.
Definition FIREFOX_H3_FP : Http3Profile := {|
  initial_max_data := 25165824; initial_max_stream_data_bidi_local := 12582912; initial_max_stream_data_bidi_remote := 1048576;
  initial_max_stream_data_uni := 1048576; initial_max_streams_bidi := 100; initial_max_streams_uni := 100;
  max_idle_timeout_ms := 30000; max_udp_payload_size := 0; max_datagram_frame_size := 65535;
  h3_settings := k_firefox_h3_settings; settings_grease := false; send_grease_frame := true; send_priority_update := false;
  pseudo_order := k_firefox_h3_pseudo |}.
Definition FIREFOX_NAV_HEADERS : list DefaultHeader :=
  [row "user-agent" "Mozilla/5.0 (Windows NT 10.0; Win64; x64; rv:151.0) Gecko/20100101 Firefox/151.0" "User-Agent";
   row "accept" "text/html,application/xhtml+xml,application/xml;q=0.9,*/*;q=0.8" "Accept";
   row "accept-language" "en-US,en;q=0.9" "Accept-Language";
   row "accept-encoding" "gzip, deflate, br, zstd" "Accept-Encoding";
   row "referer" "" "Referer"; row "cookie" "" "Cookie";
   row "upgrade-insecure-requests" "1" "Upgrade-Insecure-Requests";
   row "sec-fetch-dest" "document" "Sec-Fetch-Dest";
   row "sec-fetch-mode" "navigate" "Sec-Fetch-Mode";
   row "sec-fetch-site" "none" "Sec-Fetch-Site";
   row "sec-fetch-user" "?1" "Sec-Fetch-User";
   row "priority" "u=0, i" "Priority"; row "te" "" "TE"].
Definition k_firefox_headers : list DefaultHeader := FIREFOX_NAV_HEADERS.
Definition k_firefox151 : Profile := mkProfile (lit "firefox151") 151 FIREFOX_TLS_H2 FIREFOX_H2_FP k_firefox_headers [].
Definition k_firefox151_h3 : QuicProfile := mkQuicProfile (lit "firefox151-h3") 151 FIREFOX_TLS_H3 FIREFOX_H3_FP k_firefox_headers [].

(** ** profiles.c: the registry *)
Record ProfileEntry := mkEntry { e_id : Z; e_name : bytes; e_h2 : Profile; e_h3 : QuicProfile }.
Definition k_profile_registry : list ProfileEntry :=
  [mkEntry 149 (lit "chrome149") k_chrome149 k_chrome149_h3;
   mkEntry 148 (lit "chrome148") k_chrome148 k_chrome148_h3;
   mkEntry 151 (lit "firefox151") k_firefox151 k_firefox151_h3].
Fixpoint by_name_loop {A} (get : ProfileEntry -> A) (name : bytes) (registry : list ProfileEntry) : option A :=
  match registry with
  | [] => None
  | e :: registry => if str8_match_ci name (str8_cstring (e_name e)) then Some (get e) else by_name_loop get name registry
  end.
Definition profile_by_name (name : bytes) : option Profile := by_name_loop e_h2 name k_profile_registry.
Definition profile_quic_by_name (name : bytes) : option QuicProfile := by_name_loop e_h3 name k_profile_registry.
Fixpoint chrome_major_loop (major : Z) (best_le oldest : option ProfileEntry) (registry : list ProfileEntry) : option ProfileEntry :=
  match registry with
  | [] => match best_le with Some e => Some e | None => oldest end
  | e :: registry =>
      if negb (str8_starts_with (str8_cstring (e_name e)) (lit "chrome")) then chrome_major_loop major best_le oldest registry
      else
        let oldest := match oldest with
                      | None => Some e
                      | Some o => if e_id e <? e_id o then Some e else oldest
                      end in
        let best_le := if (to_int (e_id e) <=? major) && (match best_le with None => true | Some b => e_id b <? e_id e end)
                       then Some e else best_le in
        chrome_major_loop major best_le oldest registry
  end.
Definition profile_by_chrome_major (major : Z) : option ProfileEntry := chrome_major_loop major None None k_profile_registry.

Fixpoint profile_default_header (defaults : list DefaultHeader) (name : bytes) : bytes :=
  match defaults with
  | [] => []
  | d :: defaults => if str8_match_ci (str8_cstring (d_name d)) name then str8_cstring (d_value d) else profile_default_header defaults name
  end.
Definition profile_user_agent (p : list DefaultHeader) : bytes := profile_default_header p (lit "user-agent").
Definition profile_sec_ch_ua (p : list DefaultHeader) : bytes := profile_default_header p (lit "sec-ch-ua").
Definition profile_sec_ch_ua_mobile (p : list DefaultHeader) : bytes := profile_default_header p (lit "sec-ch-ua-mobile").
Definition profile_sec_ch_ua_platform (p : list DefaultHeader) : bytes := profile_default_header p (lit "sec-ch-ua-platform").
Definition profile_accept (p : list DefaultHeader) : bytes := profile_default_header p (lit "accept").
Definition profile_accept_language (p : list DefaultHeader) : bytes := profile_default_header p (lit "accept-language").
Definition profile_accept_encoding (p : list DefaultHeader) : bytes := profile_default_header p (lit "accept-encoding").

(** ** sec_ch_ua.c *)
Definition k_grease_chars : list bytes :=
  [lit " "; lit "("; lit ":"; lit "-"; lit "."; lit "/"; lit ")"; lit ";"; lit "="; lit "?"; lit "_"].
Definition k_grease_versions : list bytes := [lit "8"; lit "99"; lit "24"].
Definition k_order3 : list (list nat) := [[0; 1; 2]; [0; 2; 1]; [1; 0; 2]; [1; 2; 0]; [2; 0; 1]; [2; 1; 0]]%nat.
(** [snprintf] into a buffer of that size. *)
Definition snprintf_cut (size : nat) (s : bytes) : bytes := take (size - 1) s.
Definition grease_char (i : Z) : bytes := nth (Z.to_nat (i mod 11)) k_grease_chars [].
Definition grease_version (major : Z) : bytes := nth (Z.to_nat (major mod 3)) k_grease_versions [].
Definition grease_brand (major : Z) : bytes :=
  snprintf_cut 16 (lit "Not" ++ grease_char major ++ lit "A" ++ grease_char (wrap32 (major + 1)) ++ lit "Brand").
(** [out[order[i]] = built[i]] *)
Fixpoint scatter (order : list nat) (built : list (bytes * bytes)) (out : list (bytes * bytes)) : list (bytes * bytes) :=
  match order, built with
  | i :: order, x :: built => scatter order built (<[i := x]> out)
  | _, _ => out
  end.
Fixpoint render (first : bool) (brands : list (bytes * bytes)) (buf : U8Buf) : U8Buf :=
  match brands with
  | [] => buf
  | (name, ver) :: brands =>
      let buf := if first then buf else u8buf_append buf (lit ", ") in
      let buf := u8buf_append (u8buf_append buf [34]) name in
      let buf := u8buf_append (u8buf_append buf ([34] ++ lit ";v=" ++ [34])) ver in
      render false brands (u8buf_append buf [34])
  end.
Definition sec_ch_ua_format (major : Z) (real_ver grease_ver : bytes) : bytes :=
  let built := [(grease_brand major, grease_ver); (lit "Chromium", real_ver); (lit "Google Chrome", real_ver)] in
  let order := nth (Z.to_nat (major mod 6)) k_order3 [] in
  u8buf_str8 (render true (scatter order built (replicate 3 ([], []))) (u8buf_init 192)).
Definition sec_ch_ua_brands (major : Z) : bytes := sec_ch_ua_format major (snprintf_cut 16 (pct_u major)) (grease_version major).
Definition sec_ch_ua_full_version_list (major : Z) (full_version : bytes) : bytes :=
  let full_version := if (length full_version =? 0)%nat then snprintf_cut 16 (pct_u major ++ lit ".0.0.0") else full_version in
  sec_ch_ua_format major full_version (snprintf_cut 16 (grease_version major ++ lit ".0.0.0")).

(** ** What a well-formed profile is *)
Fixpoint distinct (l : list bytes) : bool :=
  match l with [] => true | x :: l => negb (existsb (str8_match x) l) && distinct l end.
Lemma distinct_NoDup l : distinct l = true -> NoDup l.
Proof.
  induction l as [|x l IH]; cbn [distinct]; intros H; [constructor|].
  apply andb_true_iff in H as [H1 H2]. constructor; [|by apply IH].
  intros Hin. apply negb_true_iff in H1. assert (E : existsb (str8_match x) l = true); [|congruence].
  apply existsb_exists. exists x. split; [by apply list_elem_of_In|by apply str8_match_eq].
Qed.
(** Names joined with colons: none empty, none twice, no NUL. *)
Definition names_of (s : bytes) : list bytes := strings (str8_split s ch_colon).
Definition names_ok (o : option bytes) : bool :=
  match o with
  | None => true
  | Some s => distinct (names_of s) && str8_match (intercalate [ch_colon] (names_of s)) s && forallb (fun c => negb (c =? 0)) s
  end.
(** The protocols of an ALPN list as it is on the wire. *)
Fixpoint alpn_protocols (fuel : nat) (wire : bytes) : option (list bytes) :=
  match fuel, wire with
  | _, [] => Some []
  | S fuel, n :: wire =>
      if (n =? 0) || (zlen wire <? n) then None
      else match alpn_protocols fuel (drop (Z.to_nat n) wire) with
           | Some l => Some (take (Z.to_nat n) wire :: l)
           | None => None
           end
  | O, _ => None
  end.
Definition alpn_of (t : TlsProfile) : option (list bytes) := alpn_protocols (length (alpn_wire t)) (alpn_wire t).
Definition tls_ok (t : TlsProfile) : bool :=
  names_ok (cipher_list t) && names_ok (curves_list t) && names_ok (sigalgs_list t) && names_ok (delegated_credentials t) &&
  (TlsVersion_1_2 <=? min_version t) && (min_version t <=? max_version t) && (max_version t <=? TlsVersion_1_3) &&
  match alpn_of t with
  | Some l => negb (length l =? 0)%nat && distinct l && forallb (fun a => existsb (str8_match a) l) (alps_protocols t)
  | None => false
  end.
(** RFC 9113, section 6.5.2. *)
Definition h2_setting_ok (x : Z * Z) : bool :=
  (0 <=? snd x) && (snd x <? 2 ^ 32) &&
  (if fst x =? H2Setting_EnablePush then snd x <=? 1
   else if fst x =? H2Setting_InitialWindowSize then snd x <=? 2 ^ 31 - 1
   else if fst x =? H2Setting_MaxFrameSize then (2 ^ 14 <=? snd x) && (snd x <=? 2 ^ 24 - 1)
   else (0 <? fst x) && (fst x <? 2 ^ 16)).
Definition ids_distinct (l : list (Z * Z)) : bool :=
  (fix go l := match l with [] => true | x :: l => negb (existsb (fun y => fst y =? fst x) l) && go l end) l.
Definition pseudo_all (l : list PseudoId) : bool :=
  (length l =? 4)%nat && forallb (fun c => existsb (fun id => pseudo_char id =? c) l) [109; 97; 115; 112].
(** The weight is nghttp2's, and the window stays in 31 bits after the increment. *)
Definition h2_ok (p : Http2Profile) : bool :=
  forallb h2_setting_ok (h2p_settings p) && ids_distinct (h2p_settings p) &&
  (1 <=? h2p_connection_window_increment p) && (h2p_connection_window_increment p <=? 2 ^ 31 - 1 - 65535) &&
  (1 <=? h2p_priority_weight p) && (h2p_priority_weight p <=? 256) && pseudo_all (h2p_pseudo_order p).
(** RFC 9000, section 18.2; RFC 9114: no setting is a reserved identifier. *)
Definition h3_ok (p : Http3Profile) : bool :=
  forallb (fun v => (0 <=? v) && (v <? 2 ^ 62))
    [initial_max_data p; initial_max_stream_data_bidi_local p; initial_max_stream_data_bidi_remote p; initial_max_stream_data_uni p;
     max_idle_timeout_ms p; max_datagram_frame_size p] &&
  forallb (fun v => (1 <=? v) && (v <=? 2 ^ 60)) [initial_max_streams_bidi p; initial_max_streams_uni p] &&
  ((max_udp_payload_size p =? 0) || (1200 <=? max_udp_payload_size p)) &&
  forallb (fun x => (0 <=? fst x) && (fst x <? 2 ^ 62) && negb (h3_is_reserved (fst x)) && (0 <=? snd x) && (snd x <? 2 ^ 62)) (h3_settings p) &&
  ids_distinct (h3_settings p) && negb (length (h3_settings p) =? 0)%nat && (length (h3_settings p) <? 256)%nat && pseudo_all (pseudo_order p).
(** A header can go into a field line of any version: printable, no NUL; its
    spelling differs in case only. *)
Definition printable (s : bytes) : bool := forallb (fun c => (32 <=? c) && (c <? 127)) s.
Definition header_ok (d : DefaultHeader) : bool :=
  negb (length (d_name d) =? 0)%nat && printable (d_name d) && printable (d_value d) && str8_match (lower (d_name d)) (d_name d) &&
  match d_wire_name d with Some w => str8_match (lower w) (d_name d) && printable w | None => false end.
Definition headers_ok (ds : list DefaultHeader) : bool := forallb header_ok ds && distinct (map d_name ds).
Definition profile_ok (p : Profile) : bool :=
  tls_ok (p_tls p) && h2_ok (p_h2 p) && headers_ok (default_headers p) && distinct (fetch_order p) &&
  forallb (fun n => str8_match (lower n) n) (fetch_order p).
Definition quic_profile_ok (q : QuicProfile) : bool :=
  tls_ok (q_tls q) && (min_version (q_tls q) =? TlsVersion_1_3) && h3_ok (q_h3 q) && headers_ok (q_default_headers q) &&
  distinct (q_fetch_order q) && forallb (fun n => str8_match (lower n) n) (q_fetch_order q).

Lemma registry_checked :
  forallb (fun e => profile_ok (e_h2 e) && quic_profile_ok (e_h3 e)) k_profile_registry && profile_ok k_template = true.
Proof. vm_compute. reflexivity. Qed.
Lemma printable_c_string s : printable s = true -> c_string s.
Proof. unfold printable. rewrite forallb_forall. intros H H0. apply list_elem_of_In, H in H0. done. Qed.
Lemma headers_ok_spelling ds : headers_ok ds = true -> spelling_ok ds.
Proof.
  intros H. apply andb_true_iff in H as [H _]. rewrite forallb_forall in H. apply Forall_forall. intros d Hd w Hw.
  apply list_elem_of_In, H in Hd. unfold header_ok in Hd. rewrite Hw in Hd.
  repeat match goal with K : _ && _ = true |- _ => apply andb_true_iff in K as [K ?] end.
  repeat match goal with K : str8_match _ _ = true |- _ => apply str8_match_eq in K end.
  rewrite !cstring_id by (by apply printable_c_string). congruence.
Qed.
Lemma h3_ok_profile p : h3_ok p = true -> h3_profile_ok p /\ profile_settings p <> [].
Proof.
  unfold h3_ok. intros H. repeat match goal with K : _ && _ = true |- _ => apply andb_true_iff in K as [K ?] end.
  unfold pseudo_all in *. repeat match goal with K : _ && _ = true |- _ => apply andb_true_iff in K as [K ?] end.
  split; [split; [|split]|].
  - apply Forall_forall. intros x Hx. apply list_elem_of_In in Hx.
    match goal with K : forallb _ (h3_settings p) = true |- _ => rewrite forallb_forall in K; apply K in Hx end.
    repeat match goal with K : _ && _ = true |- _ => apply andb_true_iff in K as [K ?] end. unfold setting_ok. lia.
  - by apply Nat.ltb_lt.
  - match goal with K : (length (pseudo_order p) =? 4)%nat = true |- _ => apply Nat.eqb_eq in K; lia end.
  - unfold profile_settings. intros [E _]%app_eq_nil. rewrite E in *. done.
Qed.

(** ** Choosing a profile *)
Definition is_chrome (e : ProfileEntry) : bool := str8_starts_with (str8_cstring (e_name e)) (lit "chrome").
(** The entry a search for [major] has to give. *)
Definition nearest_chrome (major : Z) (registry : list ProfileEntry) (o : option ProfileEntry) : Prop :=
  let chromes := List.filter is_chrome registry in
  match o with
  | None => chromes = []
  | Some e => e ∈ chromes /\
      ((e_id e <= major /\ forall e', e' ∈ chromes -> e_id e' <= major -> e_id e' <= e_id e) \/
       ((forall e', e' ∈ chromes -> major < e_id e') /\ forall e', e' ∈ chromes -> e_id e <= e_id e'))
  end.
(** What the loop knows after the entries [seen]. *)
Definition best_of (major : Z) (seen : list ProfileEntry) (o : option ProfileEntry) : Prop :=
  match o with
  | None => forall e', e' ∈ seen -> major < e_id e'
  | Some e => e ∈ seen /\ e_id e <= major /\ forall e', e' ∈ seen -> e_id e' <= major -> e_id e' <= e_id e
  end.
Definition oldest_of (seen : list ProfileEntry) (o : option ProfileEntry) : Prop :=
  match o with
  | None => seen = []
  | Some e => e ∈ seen /\ forall e', e' ∈ seen -> e_id e <= e_id e'
  end.
Lemma to_int_small x : 0 <= x < 2 ^ 31 -> to_int x = x.
Proof. intros H. unfold to_int, wrap32. rewrite Z.mod_small by lia. by rewrite (proj2 (Z.ltb_lt x (2 ^ 31))) by lia. Qed.
Lemma best_step major seen o e : best_of major seen o ->
  best_of major (seen ++ [e])
    (if (e_id e <=? major) && (match o with None => true | Some b => e_id b <? e_id e end) then Some e else o).
Proof.
  intros Ho. destruct (Z.leb_spec (e_id e) major) as [Hle|Hgt]; cbn [andb].
  - destruct o as [b|]; cbn in Ho |- *.
    + destruct Ho as (Hb & Hbm & Hmax). destruct (Z.ltb_spec (e_id b) (e_id e)); cbn; setoid_rewrite elem_of_app; setoid_rewrite list_elem_of_singleton.
      * split; [by right|]. split; [done|]. intros e' [Hin| ->] Hle'; [|lia]. specialize (Hmax e' Hin Hle'). lia.
      * split; [by left|]. split; [done|]. intros e' [Hin| ->] Hle'; [by apply Hmax|lia].
    + setoid_rewrite elem_of_app; setoid_rewrite list_elem_of_singleton. split; [by right|]. split; [done|].
      intros e' [Hin| ->] Hle'; [|lia]. specialize (Ho e' Hin). lia.
  - destruct o as [b|]; cbn in Ho |- *; setoid_rewrite elem_of_app; setoid_rewrite list_elem_of_singleton.
    + destruct Ho as (Hb & Hbm & Hmax). split; [by left|]. split; [done|]. intros e' [Hin| ->] Hle'; [by apply Hmax|lia].
    + intros e' [Hin| ->]; [by apply Ho|lia].
Qed.
Lemma oldest_step seen o e : oldest_of seen o ->
  oldest_of (seen ++ [e]) (match o with None => Some e | Some b => if e_id e <? e_id b then Some e else o end).
Proof.
  intros Ho. destruct o as [b|]; cbn in Ho.
  - destruct Ho as (Hb & Hmin). destruct (Z.ltb_spec (e_id e) (e_id b)); cbn; setoid_rewrite elem_of_app; setoid_rewrite list_elem_of_singleton.
    + split; [by right|]. intros e' [Hin| ->]; [|lia]. specialize (Hmin e' Hin). lia.
    + split; [by left|]. intros e' [Hin| ->]; [by apply Hmin|lia].
  - subst seen. cbn. split; [by left|]. intros e' ->%list_elem_of_singleton. lia.
Qed.
Lemma chrome_major_loop_spec major registry : Forall (fun e => 0 <= e_id e < 2 ^ 31) registry ->
  forall seen best oldest, best_of major (List.filter is_chrome seen) best -> oldest_of (List.filter is_chrome seen) oldest ->
  nearest_chrome major (seen ++ registry) (chrome_major_loop major best oldest registry).
Proof.
  induction 1 as [|e registry He _ IH]; intros seen best oldest Hb Ho; cbn [chrome_major_loop].
  - rewrite app_nil_r. unfold nearest_chrome. destruct best as [b|]; cbn in Hb.
    + destruct Hb as (? & ? & ?). auto.
    + destruct oldest as [o|]; cbn in Ho; [|done]. destruct Ho. auto.
  - fold (is_chrome e). rewrite cons_middle, app_assoc. destruct (is_chrome e) eqn:Ec; cbn [negb].
    + rewrite to_int_small by done. apply IH; rewrite List.filter_app; cbn [List.filter]; rewrite Ec.
      * by apply best_step.
      * by apply (oldest_step _ oldest).
    + apply IH; rewrite List.filter_app; cbn [List.filter]; rewrite Ec; by rewrite app_nil_r.
Qed.

(** ** The brand lists *)
Definition brand_text (x : bytes * bytes) : bytes := quoted (fst x) ++ lit ";v=" ++ quoted (snd x).
Lemma render_rest l b : u8_v (render false l b) = u8_v b ++ concat (map (fun x => lit ", " ++ brand_text x) l).
Proof.
  revert b. induction l as [|[n v] l IH]; intros b; cbn [render map concat]; [by rewrite app_nil_r|].
  rewrite IH. autorewrite with u8buf. unfold brand_text, quoted. cbn [fst snd]. by rewrite <-!app_assoc.
Qed.
Lemma render_all l b : u8_v b = [] -> u8_v (render true l b) = intercalate (lit ", ") (map brand_text l).
Proof.
  intros Hb. destruct l as [|[n v] l]; [done|]. cbn [render map]. rewrite render_rest, intercalate_cons. autorewrite with u8buf. rewrite Hb.
  rewrite map_map. f_equal.
  unfold brand_text, quoted. cbn [fst snd]. by rewrite <-!app_assoc.
Qed.

(** The brands of a major version, in the order they are shuffled to, with the
    version of a real brand and that of the GREASE brand. *)
Definition shuffled (major : Z) : list bytes :=
  let g := grease_brand major in
  let c := lit "Chromium" in
  let gc := lit "Google Chrome" in
  match Z.to_nat (major mod 6) with
  | 0 => [g; c; gc] | 1 => [g; gc; c] | 2 => [c; g; gc] | 3 => [gc; g; c] | 4 => [c; gc; g] | _ => [gc; c; g]
  end%nat.
Definition versioned (major : Z) (real grease : bytes) (name : bytes) : bytes * bytes :=
  (name, if str8_match name (grease_brand major) then grease else real).
Lemma grease_char_one i : exists c, grease_char i = [c] /\ c <> 34 /\ c <> 0.
Proof.
  unfold grease_char. pose proof (Z.mod_pos_bound i 11 ltac:(lia)).
  assert (Hn : (Z.to_nat (i mod 11) < 11)%nat) by lia. revert Hn. generalize (Z.to_nat (i mod 11)). intros n Hn.
  do 11 (destruct n as [|n]; [by eexists|]). lia.
Qed.
Lemma grease_brand_text major : exists a b, grease_brand major = lit "Not" ++ [a] ++ lit "A" ++ [b] ++ lit "Brand" /\ a <> 34 /\ b <> 34.
Proof.
  unfold grease_brand. destruct (grease_char_one major) as (a & -> & ? & _). destruct (grease_char_one (wrap32 (major + 1))) as (b & -> & ? & _).
  by exists a, b.
Qed.
Lemma format_shuffled major real grease :
  sec_ch_ua_format major real grease = intercalate (lit ", ") (map (fun n => brand_text (versioned major real grease n)) (shuffled major)).
Proof.
  unfold sec_ch_ua_format, u8buf_str8. rewrite render_all by done. rewrite <-(map_map (versioned major real grease) brand_text). do 2 f_equal.
  assert (Hg : str8_match (grease_brand major) (grease_brand major) = true) by (by apply str8_match_eq).
  assert (Hc : str8_match (lit "Chromium") (grease_brand major) = false).
  { apply not_true_iff_false. intros E%str8_match_eq. destruct (grease_brand_text major) as (a & b & Eb & _). rewrite Eb in E. done. }
  assert (Hgc : str8_match (lit "Google Chrome") (grease_brand major) = false).
  { apply not_true_iff_false. intros E%str8_match_eq. destruct (grease_brand_text major) as (a & b & Eb & _). rewrite Eb in E. done. }
  unfold shuffled, versioned. pose proof (Z.mod_pos_bound major 6 ltac:(lia)).
  assert (Hn : (Z.to_nat (major mod 6) < 6)%nat) by lia. revert Hn. generalize (Z.to_nat (major mod 6)). intros n Hn.
  do 6 (destruct n as [|n]; [cbn [nth k_order3 scatter replicate map list_insert]; by rewrite ?Hg, ?Hc, ?Hgc|]). lia.
Qed.
Lemma shuffled_perm major : shuffled major ≡ₚ [grease_brand major; lit "Chromium"; lit "Google Chrome"].
Proof. unfold shuffled. do 5 (case_match; [solve_Permutation|]). solve_Permutation. Qed.
Lemma digits_short n room v : 0 <= v < 10 ^ Z.of_nat (S n) -> (length (from_u64_digits room v 10) <= S n)%nat.
Proof.
  revert room v. induction n as [|n IH]; intros [|room] v Hv; cbn [from_u64_digits length]; try lia.
  - rewrite Z.div_small by lia. cbn. lia.
  - destruct (v / 10 =? 0); [cbn; lia|]. cbn [length]. apply le_n_S, IH. rewrite Nat2Z.inj_succ, Z.pow_succ_r in Hv by lia.
    split; [apply Z.div_pos; lia|apply Z.div_lt_upper_bound; lia].
Qed.
Lemma decimal_short major n : 0 <= major < 10 ^ Z.of_nat (S n) -> (length (str8_from_u64 major 10 0) <= S n)%nat.
Proof.
  intros H. unfold str8_from_u64. change ((10 <? 2) || (16 <? 10)) with false. cbv iota.
  rewrite length_rev, length_app, length_replicate. cbn [Nat.min Nat.sub]. rewrite Nat.add_0_r. by apply digits_short.
Qed.
Lemma snprintf_cut_fits n s : (length s < n)%nat -> snprintf_cut n s = s.
Proof. intros H. unfold snprintf_cut. apply take_ge. lia. Qed.
Lemma grease_version_one major : exists v, grease_version major = v /\ (length v <= 2)%nat /\ (34 ∉ v).
Proof.
  eexists; split; [done|]. unfold grease_version. pose proof (Z.mod_pos_bound major 3 ltac:(lia)).
  assert (Hn : (Z.to_nat (major mod 3) < 3)%nat) by lia. revert Hn. generalize (Z.to_nat (major mod 3)). intros n Hn.
  do 3 (destruct n as [|n]; [split; [vm_compute; lia|by apply (bool_decide_unpack _)]|]). lia.
Qed.

(** ** Properties *)

(** Every profile of the registry is well-formed, for TCP and for QUIC: the TLS
    lists have no empty and no repeated name, the ALPN list is one, settings and
    transport parameters are in the ranges of RFC 9113, 9000 and 9114, the four
    pseudo-headers occur once each, and the headers are printable, distinct and
    differ from their HTTP/1.1 spelling in case only. The two share their headers,
    an entry is found under its name, the HTTP/3 control stream has the text of
    its browser for every stream it prioritizes, and a search by Chrome version
    gives the newest Chrome that is not newer, or else the oldest. (The ids of the
    certificate compressions are not looked at: that of zstd is 4 where RFC 8879
    has 3.) *)
Theorem profile_registry_ok (e : ProfileEntry) (sid major : Z) : e ∈ k_profile_registry -> 0 <= sid < 2 ^ 62 ->
  profile_ok (e_h2 e) = true /\ quic_profile_ok (e_h3 e) = true /\ spelling_ok (default_headers (e_h2 e)) /\
  q_default_headers (e_h3 e) = default_headers (e_h2 e) /\ q_fetch_order (e_h3 e) = fetch_order (e_h2 e) /\
  p_name (e_h2 e) = e_name e /\ q_name (e_h3 e) = e_name e ++ lit "-h3" /\ p_id (e_h2 e) = e_id e /\ q_id (e_h3 e) = e_id e /\
  profile_by_name (e_name e) = Some (e_h2 e) /\ profile_quic_by_name (e_name e) = Some (e_h3 e) /\
  h3_text (build_h3_control_stream (q_h3 (e_h3 e)) sid) (q_h3 (e_h3 e)) =
    (if is_chrome e then lit "1:65536;6:262144;7:100;51:1;GREASE|GREASE|984832|m,a,s,p"
     else lit "1:65536;7:20;727725890:0;16765559:1;51:1;8:1|GREASE|m,s,a,p") /\
  nearest_chrome major k_profile_registry (profile_by_chrome_major major).
Proof.
  intros He Hsid. pose proof registry_checked as [Hr _]%andb_true_iff. rewrite forallb_forall in Hr.
  pose proof He as Hok. apply list_elem_of_In, Hr, andb_true_iff in Hok as [Hp Hq]. split; [done|]. split; [done|].
  split. { apply headers_ok_spelling. unfold profile_ok in Hp. repeat (apply andb_true_iff in Hp as [Hp ?]). done. }
  assert (Hh : h3_ok (q_h3 (e_h3 e)) = true) by (unfold quic_profile_ok in Hq; repeat (apply andb_true_iff in Hq as [Hq ?]); done).
  destruct (h3_ok_profile _ Hh) as [Hh1 Hh2].
  assert (Hc : nearest_chrome major k_profile_registry (profile_by_chrome_major major)).
  { apply (chrome_major_loop_spec major k_profile_registry) with (seen := []); [repeat constructor; done| |done].
    intros e' Hin. by apply elem_of_nil in Hin. }
  rewrite (h3_text_of_control_stream _ sid Hh1 Hh2 Hsid).
  unfold k_profile_registry in He. rewrite !elem_of_cons in He.
  destruct He as [->|[->|[->|?%elem_of_nil]]]; [..|done]; repeat split; exact Hc.
Qed.

(** C34. The brand list of a Chrome version is Chromium's for every version: the three
    brands in the version's order, the same in the short and in the full list,
    each with its version; no name can end its quotes; and the list that a
    registered Chrome profile sends is the generated one, its user agent that of
    the same version. *)
Theorem sec_ch_ua_spec (major : Z) (full : bytes) : 0 <= major < 10 ^ 9 ->
  let dec := str8_from_u64 major 10 0 in
  let text real grease := intercalate (lit ", ") (map (fun n => brand_text (versioned major real grease n)) (shuffled major)) in
  shuffled major ≡ₚ [grease_brand major; lit "Chromium"; lit "Google Chrome"] /\
  Forall (fun n => 34 ∉ n) (shuffled major) /\
  sec_ch_ua_brands major = text dec (grease_version major) /\
  sec_ch_ua_full_version_list major full =
    text (if (length full =? 0)%nat then dec ++ lit ".0.0.0" else full) (grease_version major ++ lit ".0.0.0") /\
  (forall e, e ∈ k_profile_registry -> is_chrome e = true -> e_id e = major ->
     profile_sec_ch_ua (default_headers (e_h2 e)) = sec_ch_ua_brands major /\ profile_user_agent (default_headers (e_h2 e)) = K_CHROME_UA dec).
Proof.
  intros Hm dec text. pose proof (shuffled_perm major) as HP. split; [done|].
  pose proof (decimal_short major 8 Hm) as Hs. destruct (grease_version_one major) as (gv & Hg & Hgl & _).
  assert (Hu : pct_u major = dec) by (unfold pct_u, wrap32; rewrite Z.mod_small by lia; done).
  split; [|split; [|split]].
  - rewrite HP. destruct (grease_brand_text major) as (a & b & -> & Ha & Hb).
    repeat constructor; [|by apply (bool_decide_unpack _)..]. rewrite !not_elem_of_app, !list_elem_of_singleton.
    repeat split; [by apply (bool_decide_unpack _)|congruence|by apply (bool_decide_unpack _)|congruence|by apply (bool_decide_unpack _)].
  - unfold sec_ch_ua_brands. rewrite format_shuffled, Hu, snprintf_cut_fits by (fold dec in Hs; lia). done.
  - unfold sec_ch_ua_full_version_list. rewrite format_shuffled, Hu.
    rewrite !snprintf_cut_fits; [done|rewrite length_app, Hg; change (length (lit ".0.0.0")) with 6%nat; lia|
      rewrite length_app; fold dec in Hs; change (length (lit ".0.0.0")) with 6%nat; lia].
  - intros e He Hce <-. unfold k_profile_registry in He. rewrite !elem_of_cons in He.
    destruct He as [->|[->|[->|?%elem_of_nil]]]; [split; vm_compute; reflexivity..|done|done].
Qed.
Lemma profile_registry_ok_witness :
  h3_text (build_h3_control_stream CHROME_H3_FP 4) CHROME_H3_FP = lit "1:65536;6:262144;7:100;51:1;GREASE|GREASE|984832|m,a,s,p" /\
  nearest_chrome 150 k_profile_registry (profile_by_chrome_major 150).
Proof.
  destruct (profile_registry_ok (mkEntry 149 (lit "chrome149") k_chrome149 k_chrome149_h3) 4 150) as (_ & _ & _ & _ & _ & _ & _ & _ & _ & _ & _ & Ht & Hn);
    [by left|lia|]. split; [exact Ht|exact Hn].
Defined.
Lemma sec_ch_ua_spec_witness :
  sec_ch_ua_brands 149 = profile_sec_ch_ua k_chrome149_headers /\ 0 <= 149 < 10 ^ 9.
Proof.
  split; [|lia]. destruct (sec_ch_ua_spec 149 []) as (_ & _ & _ & _ & H); [lia|].
  symmetry. apply (H (mkEntry 149 (lit "chrome149") k_chrome149 k_chrome149_h3)); [by left|reflexivity|reflexivity].
Defined.
