(* ===== verification/Decompress.v ===== *)
(** * Content decoding: core/decompress.c

    The buffered decoder ([decode_content]) and the streaming one
    ([StreamDecoder]), built with all three codecs. The codecs are arguments:
    a call on a decoder state takes the input left and the room for output and
    gives a result code, the number of input bytes it consumed, the bytes it
    produced and the next state. [codec_laws] is what their manuals say. *)
From S2P Require Import Prelude String8 U8Buf.

Definition DECODE_MAX_OUT : Z := Z.shiftl 256 20.
Definition DECODE_BUF : nat := Z.to_nat 16384.

Inductive BrotliDecoderResult :=
| BROTLI_DECODER_RESULT_ERROR
| BROTLI_DECODER_RESULT_SUCCESS
| BROTLI_DECODER_RESULT_NEEDS_MORE_INPUT
| BROTLI_DECODER_RESULT_NEEDS_MORE_OUTPUT.
#[export] Instance BrotliDecoderResult_eq_dec : EqDecision BrotliDecoderResult.
Proof. solve_decision. Defined.

(** The results of [inflate] the code tells apart. *)
Definition Z_OK : Z := 0.
Definition Z_STREAM_END : Z := 1.
Definition Z_BUF_ERROR : Z := -5.

(** One call on a codec: result, input consumed, output, next state. *)
Abbreviation codec_call R S := (S -> bytes -> nat -> R * nat * bytes * S).

Inductive DecKind := Dec_Identity | Dec_Gzip | Dec_Brotli | Dec_Zstd.

Definition eqi (a : bytes) (b : string) : bool := str8_match_ci a (str8_cstring (lit b ++ [0])).

(** The last token of a comma-listed encoding, trimmed. *)
Definition last_token (encoding : bytes) : bytes :=
  str8_trim (match str8_rindex_of encoding ch_comma with
             | Some comma => str8_skip encoding (comma + 1)
             | None => encoding
             end).

Section codecs.
Context {z_stream : Type} (inflateInit2 : Z -> option z_stream) (inflate : codec_call Z z_stream).
Context {BrotliDecoderState : Type} (BrotliDecoderCreateInstance : option BrotliDecoderState).
Context (BrotliDecoderDecompressStream : codec_call BrotliDecoderResult BrotliDecoderState).
Context {ZSTD_DCtx : Type} (ZSTD_createDCtx : option ZSTD_DCtx).
Context (ZSTD_decompressStream : codec_call Z ZSTD_DCtx) (ZSTD_isError : Z -> bool).

(** ** Buffered *)

Definition inflate_round (st : z_stream * bytes * U8Buf) : z_stream * bytes * U8Buf + bool * U8Buf :=
  let '(zs, inp, out) := st in
  let '(rv, consumed, produced, zs) := inflate zs inp DECODE_BUF in
  if negb (rv =? Z_OK) && negb (rv =? Z_STREAM_END) && negb (rv =? Z_BUF_ERROR) then inr (false, out)
  else
    let out := u8buf_append out produced in
    if DECODE_MAX_OUT <? u8_len out then inr (false, out)
    else if rv =? Z_BUF_ERROR then inr (true, out)
    else if rv =? Z_STREAM_END then inr (true, out)
    else inl (zs, drop consumed inp, out).
(** [avail_in] is 32 bits wide. [inl] is a loop that never ends. *)
Definition zlib_inflate (data : bytes) (window_bits : Z) (out : U8Buf) : z_stream * bytes * U8Buf + bool * U8Buf :=
  match inflateInit2 window_bits with
  | None => inr (false, out)
  | Some zs => loop_pow 64 inflate_round (zs, take (Z.to_nat (wrap32 (zlen data))) data, out)
  end.

Definition brotli_round (st : BrotliDecoderState * bytes * U8Buf) : BrotliDecoderState * bytes * U8Buf + bool * U8Buf :=
  let '(s, inp, out) := st in
  let '(r, consumed, produced, s) := BrotliDecoderDecompressStream s inp DECODE_BUF in
  let out := u8buf_append out produced in
  if bool_decide (r = BROTLI_DECODER_RESULT_ERROR) || (DECODE_MAX_OUT <? u8_len out) then inr (false, out)
  else if bool_decide (r = BROTLI_DECODER_RESULT_NEEDS_MORE_OUTPUT) then inl (s, drop consumed inp, out)
  else inr (bool_decide (r = BROTLI_DECODER_RESULT_SUCCESS), out).
Definition brotli_decode (data : bytes) (out : U8Buf) : BrotliDecoderState * bytes * U8Buf + bool * U8Buf :=
  match BrotliDecoderCreateInstance with
  | None => inr (false, out)
  | Some s => loop_pow 64 brotli_round (s, data, out)
  end.

Definition zstd_round (st : ZSTD_DCtx * bytes * U8Buf) : ZSTD_DCtx * bytes * U8Buf + bool * U8Buf :=
  let '(d, inp, out) := st in
  if (length inp =? 0)%nat then inr (true, out)
  else
    let '(r, consumed, produced, d) := ZSTD_decompressStream d inp DECODE_BUF in
    if ZSTD_isError r then inr (false, out)
    else
      let out := u8buf_append out produced in
      if DECODE_MAX_OUT <? u8_len out then inr (false, out)
      else if (length produced =? 0)%nat && (r =? 0) then inr (true, out)
      else inl (d, drop consumed inp, out).
Definition zstd_decode (data : bytes) (out : U8Buf) : ZSTD_DCtx * bytes * U8Buf + bool * U8Buf :=
  match ZSTD_createDCtx with
  | None => inr (false, out)
  | Some d => loop_pow 64 zstd_round (d, data, out)
  end.

Definition decode_buf (data : bytes) : U8Buf := u8buf_init (if (0 <? length data)%nat then wrap64 (zlen data * 2) else 64).
(** [None] is a decoder that does not return; [Some None] a failure. *)
Definition finish {S} (r : S + bool * U8Buf) : option (option bytes) :=
  match r with
  | inl _ => None
  | inr (ok, buf) => Some (if ok then Some (u8buf_str8 buf) else None)
  end.
Definition decode_content (encoding data : bytes) : option (option bytes) :=
  let s := last_token encoding in
  let buf := decode_buf data in
  if (length s =? 0)%nat || eqi s "identity" then Some (Some (u8buf_str8 (u8buf_append buf data)))
  else if eqi s "zstd" then finish (zstd_decode data buf)
  else if eqi s "br" then finish (brotli_decode data buf)
  else if eqi s "gzip" || eqi s "x-gzip" then finish (zlib_inflate data (15 + 32) buf)
  else if eqi s "deflate" then
    match zlib_inflate data (15 + 32) buf with
    | inr (false, _) => finish (zlib_inflate data (-15) (decode_buf data))
    | r => finish r
    end
  else Some None.

(** ** Streaming *)
Record StreamDecoder := mkDecoder {
  dec_kind : DecKind;
  dec_total_out : Z;
  dec_dead : bool;
  dec_zs : option z_stream;
  dec_br : option BrotliDecoderState;
  dec_zd : option ZSTD_DCtx
}.
Definition stream_decoder_create (encoding : bytes) : StreamDecoder :=
  let s := last_token encoding in
  let identity := mkDecoder Dec_Identity 0 false None None None in
  if eqi s "zstd" then
    match ZSTD_createDCtx with
    | Some zd => mkDecoder Dec_Zstd 0 false None None (Some zd)
    | None => identity
    end
  else if eqi s "br" then
    match BrotliDecoderCreateInstance with
    | Some br => mkDecoder Dec_Brotli 0 false None (Some br) None
    | None => identity
    end
  else if eqi s "gzip" || eqi s "x-gzip" || eqi s "deflate" then
    match inflateInit2 (15 + 32) with
    | Some zs => mkDecoder Dec_Gzip 0 false (Some zs) None None
    | None => identity
    end
  else identity.

(** [total_out] and the chunks handed to the callback. *)
Record sink := mkSink { sk_total : Z; sk_chunks : list bytes }.
Definition dec_emit (k : sink) (p : bytes) : bool * sink :=
  if (length p =? 0)%nat then (true, k)
  else
    let total := wrap64 (sk_total k + zlen p) in
    if DECODE_MAX_OUT <? total then (false, mkSink total (sk_chunks k))
    else (true, mkSink total (sk_chunks k ++ [p])).

Definition gzip_round (st : z_stream * bytes * sink) : z_stream * bytes * sink + bool * z_stream * sink :=
  let '(zs, inp, k) := st in
  let '(rv, consumed, produced, zs) := inflate zs inp DECODE_BUF in
  if negb (rv =? Z_OK) && negb (rv =? Z_STREAM_END) && negb (rv =? Z_BUF_ERROR) then inr (false, zs, k)
  else
    let '(ok, k) := dec_emit k produced in
    if negb ok then inr (false, zs, k)
    else if rv =? Z_BUF_ERROR then inr (true, zs, k)
    else
      let inp := drop consumed inp in
      if (0 <? length inp)%nat || (length produced =? DECODE_BUF)%nat then inl (zs, inp, k)
      else inr (true, zs, k).
Definition br_round (st : BrotliDecoderState * bytes * sink) : BrotliDecoderState * bytes * sink + bool * BrotliDecoderState * sink :=
  let '(s, inp, k) := st in
  let '(r, consumed, produced, s) := BrotliDecoderDecompressStream s inp DECODE_BUF in
  if bool_decide (r = BROTLI_DECODER_RESULT_ERROR) then inr (false, s, k)
  else
    let '(ok, k) := dec_emit k produced in
    if negb ok then inr (false, s, k)
    else if bool_decide (r = BROTLI_DECODER_RESULT_NEEDS_MORE_OUTPUT) then inl (s, drop consumed inp, k)
    else inr (true, s, k).
Definition zd_round (st : ZSTD_DCtx * bytes * sink) : ZSTD_DCtx * bytes * sink + bool * ZSTD_DCtx * sink :=
  let '(d, inp, k) := st in
  if (length inp =? 0)%nat then inr (true, d, k)
  else
    let '(r, consumed, produced, d) := ZSTD_decompressStream d inp DECODE_BUF in
    if ZSTD_isError r then inr (false, d, k)
    else
      let '(ok, k) := dec_emit k produced in
      if negb ok then inr (false, d, k)
      else if (length produced =? 0)%nat && (r =? 0) then inr (true, d, k)
      else inl (d, drop consumed inp, k).

(** The result, the decoder and the chunks emitted; [None] when the call does
    not return. *)
Definition stream_decoder_push (d : StreamDecoder) (inp : bytes) : option (bool * StreamDecoder * list bytes) :=
  let k := mkSink (dec_total_out d) [] in
  if dec_dead d then Some (false, d, [])
  else
    match dec_kind d with
    | Dec_Identity =>
        let '(ok, k) := dec_emit k inp in
        Some (ok, mkDecoder (dec_kind d) (sk_total k) (negb ok) (dec_zs d) (dec_br d) (dec_zd d), sk_chunks k)
    | Dec_Gzip =>
        match dec_zs d with
        | None => Some (true, d, [])
        | Some zs =>
            match loop_pow 64 gzip_round (zs, take (Z.to_nat (wrap32 (zlen inp))) inp, k) with
            | inl _ => None
            | inr (ok, zs, k) => Some (ok, mkDecoder (dec_kind d) (sk_total k) (negb ok) (Some zs) (dec_br d) (dec_zd d), sk_chunks k)
            end
        end
    | Dec_Brotli =>
        match dec_br d with
        | None => Some (true, d, [])
        | Some br =>
            match loop_pow 64 br_round (br, inp, k) with
            | inl _ => None
            | inr (ok, br, k) => Some (ok, mkDecoder (dec_kind d) (sk_total k) (negb ok) (dec_zs d) (Some br) (dec_zd d), sk_chunks k)
            end
        end
    | Dec_Zstd =>
        match dec_zd d with
        | None => Some (true, d, [])
        | Some zd =>
            match loop_pow 64 zd_round (zd, inp, k) with
            | inl _ => None
            | inr (ok, zd, k) => Some (ok, mkDecoder (dec_kind d) (sk_total k) (negb ok) (dec_zs d) (dec_br d) (Some zd), sk_chunks k)
            end
        end
    end.
End codecs.

(** ** What the codecs promise

    A call stays within its buffers; a call that asks to be repeated has made
    progress. *)
Definition within {R S} (inp : bytes) (room : nat) (r : R * nat * bytes * S) : Prop :=
  let '(_, consumed, produced, _) := r in (consumed <= length inp)%nat /\ (length produced <= room)%nat.
Record codec_laws {Zs Bs Ds} (inflate : codec_call Z Zs) (brotli : codec_call BrotliDecoderResult Bs)
    (zstd : codec_call Z Ds) (is_error : Z -> bool) : Prop := {
  inflate_within zs inp room : within inp room (inflate zs inp room);
  inflate_progress zs inp room :
    let '(rv, consumed, produced, _) := inflate zs inp room in
    rv = Z_OK -> (0 < consumed)%nat \/ produced <> [];
  brotli_within s inp room : within inp room (brotli s inp room);
  brotli_progress s inp room :
    let '(r, _, produced, _) := brotli s inp room in
    (0 < room)%nat -> r = BROTLI_DECODER_RESULT_NEEDS_MORE_OUTPUT -> produced <> [];
  zstd_within d inp room : within inp room (zstd d inp room);
  zstd_progress d inp room :
    let '(r, consumed, produced, _) := zstd d inp room in
    is_error r = false -> (produced = [] /\ r = 0) \/ (0 < consumed)%nat \/ produced <> []
}.

(** ** Buffered decoding *)

(** What a round keeps and what the last one leaves. *)
Definition round_inv {S} (st : S * bytes * U8Buf) : Prop := u8_len (snd st) <= DECODE_MAX_OUT.
Definition round_post (r : bool * U8Buf) : Prop := fst r = true -> u8_len (snd r) <= DECODE_MAX_OUT.
Definition round_measure {S} (st : S * bytes * U8Buf) : Z :=
  Z.of_nat (length (snd (fst st))) + (DECODE_MAX_OUT - u8_len (snd st)).

Lemma u8buf_append_len b p : u8_len (u8buf_append b p) = u8_len b + zlen p.
Proof. unfold u8_len. by rewrite u8buf_append_v, zlen_app. Qed.

Lemma round_decreases {S} (s s' : S) inp out (consumed : nat) (produced : bytes) :
  round_inv (s, inp, out) -> (consumed <= length inp)%nat -> (0 < consumed)%nat \/ produced <> [] ->
  u8_len (u8buf_append out produced) <= DECODE_MAX_OUT ->
  round_inv (s', drop consumed inp, u8buf_append out produced) /\
  0 <= round_measure (s', drop consumed inp, u8buf_append out produced) < round_measure (s, inp, out).
Proof.
  intros HI Hc Hp Hle. split; [done|]. unfold round_measure. cbn [fst snd]. rewrite u8buf_append_len in *.
  rewrite length_drop. unfold round_inv in HI. cbn in HI. pose proof (zlen_nonneg produced).
  destruct Hp as [Hp|Hp]; [|apply zlen_pos in Hp]; lia.
Qed.

Ltac close_round := unfold round_post; cbn [fst snd]; done || (intros _; lia).

Section buffered.
Context {z_stream : Type} (inflateInit2 : Z -> option z_stream) (inflate : codec_call Z z_stream).
Context {BrotliDecoderState : Type} (BrotliDecoderCreateInstance : option BrotliDecoderState).
Context (BrotliDecoderDecompressStream : codec_call BrotliDecoderResult BrotliDecoderState).
Context {ZSTD_DCtx : Type} (ZSTD_createDCtx : option ZSTD_DCtx).
Context (ZSTD_decompressStream : codec_call Z ZSTD_DCtx) (ZSTD_isError : Z -> bool).
Context (Hlaws : codec_laws inflate BrotliDecoderDecompressStream ZSTD_decompressStream ZSTD_isError).

Lemma inflate_round_ok st : round_inv st ->
  match inflate_round inflate st with
  | inl st' => round_inv st' /\ 0 <= round_measure st' < round_measure st
  | inr r => round_post r
  end.
Proof.
  destruct st as [[zs inp] out]. intros HI. unfold inflate_round.
  pose proof (inflate_within _ _ _ _ Hlaws zs inp DECODE_BUF) as Hw.
  pose proof (inflate_progress _ _ _ _ Hlaws zs inp DECODE_BUF) as Hp.
  destruct (inflate zs inp DECODE_BUF) as [[[rv c] o] zs']. destruct Hw as [Hc _].
  destruct (Z.eqb_spec rv Z_OK) as [Eok|Nok], (Z.eqb_spec rv Z_STREAM_END) as [Eend|Nend],
    (Z.eqb_spec rv Z_BUF_ERROR) as [Ebuf|Nbuf]; cbn [negb andb]; try close_round;
    destruct (Z.ltb_spec DECODE_MAX_OUT (u8_len (u8buf_append out o))); try close_round.
  apply round_decreases; auto.
Qed.

Lemma brotli_round_ok st : round_inv st ->
  match brotli_round BrotliDecoderDecompressStream st with
  | inl st' => round_inv st' /\ 0 <= round_measure st' < round_measure st
  | inr r => round_post r
  end.
Proof.
  destruct st as [[s inp] out]. intros HI. unfold brotli_round.
  pose proof (brotli_within _ _ _ _ Hlaws s inp DECODE_BUF) as Hw.
  pose proof (brotli_progress _ _ _ _ Hlaws s inp DECODE_BUF) as Hp.
  destruct (BrotliDecoderDecompressStream s inp DECODE_BUF) as [[[r c] o] s']. destruct Hw as [Hc _].
  destruct (bool_decide (r = BROTLI_DECODER_RESULT_ERROR)); [close_round|]. cbn [orb].
  destruct (Z.ltb_spec DECODE_MAX_OUT (u8_len (u8buf_append out o))); [close_round|].
  destruct (bool_decide_reflect (r = BROTLI_DECODER_RESULT_NEEDS_MORE_OUTPUT)) as [Er|]; [|close_round].
  apply round_decreases; auto. right. apply Hp; [|done]. unfold DECODE_BUF. lia.
Qed.

Lemma zstd_round_ok st : round_inv st ->
  match zstd_round ZSTD_decompressStream ZSTD_isError st with
  | inl st' => round_inv st' /\ 0 <= round_measure st' < round_measure st
  | inr r => round_post r
  end.
Proof.
  destruct st as [[d inp] out]. intros HI. unfold zstd_round. destruct (length inp =? 0)%nat; [by intros _|].
  pose proof (zstd_within _ _ _ _ Hlaws d inp DECODE_BUF) as Hw.
  pose proof (zstd_progress _ _ _ _ Hlaws d inp DECODE_BUF) as Hp.
  destruct (ZSTD_decompressStream d inp DECODE_BUF) as [[[r c] o] d']. destruct Hw as [Hc _].
  destruct (ZSTD_isError r); [close_round|].
  destruct (Z.ltb_spec DECODE_MAX_OUT (u8_len (u8buf_append out o))); [close_round|].
  destruct (Nat.eqb_spec (length o) 0) as [Eo|No], (Z.eqb_spec r 0) as [Er|Nr]; cbn [andb]; try close_round;
    (apply round_decreases; [done..| |done]);
    (destruct (Hp eq_refl) as [[-> ->]|?]; [done|done]).
Qed.

(** The three loops end. *)
Lemma decode_loop_ends {S} (round : S * bytes * U8Buf -> S * bytes * U8Buf + bool * U8Buf) (s : S) (data : bytes) (cap : Z) :
  (forall st, round_inv st -> match round st with
     inl st' => round_inv st' /\ 0 <= round_measure st' < round_measure st | inr r => round_post r end) ->
  zlen data < 2 ^ 63 ->
  exists r, loop_pow 64 round (s, data, u8buf_init cap) = inr r /\ round_post r.
Proof.
  intros Hr Hd. apply (loop_pow_64 round round_inv round_post round_measure); [done|done|].
  unfold round_measure, zlen in *. cbn [fst snd]. change (u8_len (u8buf_init cap)) with 0.
  change DECODE_MAX_OUT with 268435456. lia.
Qed.

Lemma zlen_take n d : zlen (take n d) <= zlen d.
Proof. unfold zlen. rewrite length_take. lia. Qed.

Lemma zlib_inflate_ends data wb cap : zlen data < 2 ^ 63 ->
  exists r, zlib_inflate inflateInit2 inflate data wb (u8buf_init cap) = inr r /\ round_post r.
Proof.
  intros Hd. unfold zlib_inflate. destruct (inflateInit2 wb); [|by eexists].
  apply decode_loop_ends; [exact inflate_round_ok|]. pose proof (zlen_take (Z.to_nat (wrap32 (zlen data))) data). lia.
Qed.

Lemma finish_ends {S} (x : S + bool * U8Buf) :
  (exists r, x = inr r /\ round_post r) ->
  exists r, finish x = Some r /\ forall out, r = Some out -> zlen out <= DECODE_MAX_OUT.
Proof.
  intros ([ok b] & -> & Hp). cbn [finish]. eexists. split; [done|]. intros out Ho.
  destruct ok; [|done]. injection Ho as <-. by apply Hp.
Qed.

(** Decoding a response body always returns, whatever the server sent, and
    a decoded body is at most 256 MB (the decompression-bomb limit); an empty
    or identity encoding gives the body itself, an unknown one fails. *)
Theorem decode_content_bounded (encoding data : bytes) :
  zlen data < 2 ^ 63 ->
  exists r,
    decode_content inflateInit2 inflate BrotliDecoderCreateInstance BrotliDecoderDecompressStream
      ZSTD_createDCtx ZSTD_decompressStream ZSTD_isError encoding data = Some r /\
    (forall out, r = Some out -> out = data \/ zlen out <= DECODE_MAX_OUT) /\
    (last_token encoding = [] \/ lower (last_token encoding) = lit "identity" -> r = Some data).
Proof.
  intros Hd. unfold decode_content. set (s := last_token encoding).
  destruct (Nat.eqb_spec (length s) 0) as [E0|N0].
  { cbn [orb]. eexists. split; [done|]. unfold u8buf_str8. rewrite u8buf_append_v. cbn. split; [|done].
    intros out [= <-]. by left. }
  destruct (eqi s "identity") eqn:Ei; cbn [orb].
  { eexists. split; [done|]. unfold u8buf_str8. rewrite u8buf_append_v. cbn. split; [|done].
    intros out [= <-]. by left. }
  assert (Hno : ~ (s = [] \/ lower s = lit "identity")).
  { intros [->|Hs]; [done|]. unfold eqi in Ei. apply str8_match_ci_false in Ei. by rewrite Hs in Ei. }
  match goal with |- exists r, ?x = Some r /\ _ =>
    enough (H : exists r, x = Some r /\ forall out, r = Some out -> zlen out <= DECODE_MAX_OUT) end.
  { destruct H as (r & Hr & Hb). exists r. split; [exact Hr|]. split; [auto|]. by intros ?%Hno. }
  unfold decode_buf.
  destruct (eqi s "zstd"); [apply finish_ends; unfold zstd_decode; destruct ZSTD_createDCtx; [|by eexists];
    by apply decode_loop_ends; [exact zstd_round_ok|]|].
  destruct (eqi s "br"); [apply finish_ends; unfold brotli_decode; destruct BrotliDecoderCreateInstance; [|by eexists];
    by apply decode_loop_ends; [exact brotli_round_ok|]|].
  destruct (eqi s "gzip" || eqi s "x-gzip"); [by apply finish_ends, zlib_inflate_ends|].
  destruct (eqi s "deflate"); [|by exists None].
  destruct (zlib_inflate_ends data (15 + 32) (if (0 <? length data)%nat then wrap64 (zlen data * 2) else 64) Hd)
    as ([ok b] & -> & Hp).
  destruct ok; [|by apply finish_ends, zlib_inflate_ends]. apply finish_ends. by eexists.
Qed.
End buffered.

(** ** Streaming *)
Definition total (chunks : list bytes) : Z := zlen (concat chunks).

Lemma total_app a b : total (a ++ b) = total a + total b.
Proof. unfold total. by rewrite concat_app, zlen_app. Qed.

Lemma total_one p : total [p] = zlen p.
Proof. unfold total. cbn. by rewrite app_nil_r. Qed.

Section streaming.
Context {z_stream : Type} (inflateInit2 : Z -> option z_stream) (inflate : codec_call Z z_stream).
Context {BrotliDecoderState : Type} (BrotliDecoderCreateInstance : option BrotliDecoderState).
Context (BrotliDecoderDecompressStream : codec_call BrotliDecoderResult BrotliDecoderState).
Context {ZSTD_DCtx : Type} (ZSTD_createDCtx : option ZSTD_DCtx).
Context (ZSTD_decompressStream : codec_call Z ZSTD_DCtx) (ZSTD_isError : Z -> bool).
Context (Hlaws : codec_laws inflate BrotliDecoderDecompressStream ZSTD_decompressStream ZSTD_isError).

Abbreviation push := (stream_decoder_push inflate BrotliDecoderDecompressStream ZSTD_decompressStream ZSTD_isError).
Abbreviation decoder := (@StreamDecoder z_stream BrotliDecoderState ZSTD_DCtx).

(** The chunks of a run of pushes; [None] when one does not return. *)
Fixpoint decoder_push_all (d : decoder) (inputs : list bytes) : option (decoder * list bytes) :=
  match inputs with
  | [] => Some (d, [])
  | i :: inputs =>
      match push d i with
      | None => None
      | Some (_, d, cs) => match decoder_push_all d inputs with
                           | None => None
                           | Some (d, cs') => Some (d, cs ++ cs')
                           end
      end
  end.

(** The counter counts what was emitted, from [base] on. *)
Definition sink_inv (base : Z) (k : sink) : Prop :=
  sk_total k = base + total (sk_chunks k) /\ sk_total k <= DECODE_MAX_OUT.
Definition sink_post (base : Z) (ok : bool) (k : sink) : Prop :=
  base + total (sk_chunks k) <= DECODE_MAX_OUT /\ (ok = true -> sink_inv base k).

Lemma dec_emit_ok base k p :
  0 <= base -> sink_inv base k -> zlen p < 2 ^ 63 -> sink_post base (fst (dec_emit k p)) (snd (dec_emit k p)).
Proof.
  intros Hb [Ht Hm] Hp. unfold dec_emit. pose proof (zlen_nonneg p). pose proof (zlen_nonneg (concat (sk_chunks k))) as Hc.
  fold (total (sk_chunks k)) in Hc. change DECODE_MAX_OUT with 268435456 in *.
  unfold sink_post, sink_inv. change DECODE_MAX_OUT with 268435456.
  destruct (Nat.eqb_spec (length p) 0); [cbn; lia|].
  assert (Hw : wrap64 (sk_total k + zlen p) = sk_total k + zlen p) by (unfold wrap64; apply Z.mod_small; lia).
  rewrite Hw. destruct (Z.ltb_spec 268435456 (sk_total k + zlen p)); cbn [fst snd sk_total sk_chunks].
  - lia.
  - rewrite total_app, total_one. lia.
Qed.

Lemma decode_buf_small (n : nat) (p : bytes) : (length p <= DECODE_BUF)%nat -> zlen p < 2 ^ 63.
Proof. unfold zlen, DECODE_BUF. lia. Qed.

Definition loop_inv {S} (base : Z) (st : S * bytes * sink) : Prop := sink_inv base (snd st).
Definition loop_post {S} (base : Z) (r : bool * S * sink) : Prop := sink_post base (fst (fst r)) (snd r).

Lemma sink_inv_post base ok k : sink_inv base k -> sink_post base ok k.
Proof. unfold sink_post, sink_inv. intros [-> ?]. lia. Qed.

Lemma gzip_round_inv base st : 0 <= base -> loop_inv base st ->
  match gzip_round inflate st with inl st' => loop_inv base st' | inr r => loop_post base r end.
Proof.
  destruct st as [[zs inp] k]. intros Hb HI. unfold gzip_round.
  pose proof (inflate_within _ _ _ _ Hlaws zs inp DECODE_BUF) as Hw.
  destruct (inflate zs inp DECODE_BUF) as [[[rv c] o] zs']. destruct Hw as [_ Ho].
  destruct (_ && _); [by apply sink_inv_post|].
  pose proof (dec_emit_ok base k o Hb HI (decode_buf_small 0 o Ho)) as He. destruct (dec_emit k o) as [ok k'].
  cbn [fst snd] in He. destruct ok; cbn [negb]; [|done]. destruct (rv =? Z_BUF_ERROR); [done|].
  destruct (_ || _); [by apply He|done].
Qed.

Lemma br_round_inv base st : 0 <= base -> loop_inv base st ->
  match br_round BrotliDecoderDecompressStream st with inl st' => loop_inv base st' | inr r => loop_post base r end.
Proof.
  destruct st as [[s inp] k]. intros Hb HI. unfold br_round.
  pose proof (brotli_within _ _ _ _ Hlaws s inp DECODE_BUF) as Hw.
  destruct (BrotliDecoderDecompressStream s inp DECODE_BUF) as [[[r c] o] s']. destruct Hw as [_ Ho].
  destruct (bool_decide (r = BROTLI_DECODER_RESULT_ERROR)); [by apply sink_inv_post|].
  pose proof (dec_emit_ok base k o Hb HI (decode_buf_small 0 o Ho)) as He. destruct (dec_emit k o) as [ok k'].
  cbn [fst snd] in He. destruct ok; cbn [negb]; [|done].
  destruct (bool_decide _); [by apply He|done].
Qed.

Lemma zd_round_inv base st : 0 <= base -> loop_inv base st ->
  match zd_round ZSTD_decompressStream ZSTD_isError st with inl st' => loop_inv base st' | inr r => loop_post base r end.
Proof.
  destruct st as [[d inp] k]. intros Hb HI. unfold zd_round. destruct (length inp =? 0)%nat; [by apply sink_inv_post|].
  pose proof (zstd_within _ _ _ _ Hlaws d inp DECODE_BUF) as Hw.
  destruct (ZSTD_decompressStream d inp DECODE_BUF) as [[[r c] o] d']. destruct Hw as [_ Ho].
  destruct (ZSTD_isError r); [by apply sink_inv_post|].
  pose proof (dec_emit_ok base k o Hb HI (decode_buf_small 0 o Ho)) as He. destruct (dec_emit k o) as [ok k'].
  cbn [fst snd] in He. destruct ok; cbn [negb]; [|done].
  destruct (_ && _); [done|by apply He].
Qed.

(** What holds of a decoder that has emitted [n] bytes. *)
Definition decoder_inv (n : Z) (d : decoder) : Prop :=
  n <= DECODE_MAX_OUT /\ (dec_dead d = false -> dec_total_out d = n).

Lemma push_inv n d inp ok d' cs :
  0 <= n -> decoder_inv n d -> zlen inp < 2 ^ 63 -> push d inp = Some (ok, d', cs) ->
  decoder_inv (n + total cs) d' /\ (ok = false -> dec_dead d' = true) /\ (dec_dead d = true -> cs = [] /\ ok = false).
Proof.
  intros H0 [Hn Ht] Hi. unfold stream_decoder_push. destruct (dec_dead d) eqn:Ed.
  { intros [= <- <- <-]. unfold decoder_inv, total. rewrite Ed. cbn. rewrite Z.add_0_r. done. }
  specialize (Ht eq_refl).
  assert (HI : sink_inv n (mkSink (dec_total_out d) [])) by (split; cbn [sk_total sk_chunks]; [change (total []) with 0|]; lia).
  assert (Hdone : forall ok k zs br zd, sink_post n ok k ->
    decoder_inv (n + total (sk_chunks k)) (mkDecoder (dec_kind d) (sk_total k) (negb ok) zs br zd) /\
    (ok = false -> negb ok = true) /\ (false = true -> sk_chunks k = [] /\ ok = false)).
  { intros ok' k zs br zd [Hp1 Hp2]. split; [|split; [by intros ->|done]]. split; [done|]. cbn. intros ->%negb_false_iff.
    by apply Hp2. }
  assert (Hskip : Some (true, d, []) = Some (ok, d', cs) ->
    decoder_inv (n + total cs) d' /\ (ok = false -> dec_dead d' = true) /\ (false = true -> cs = [] /\ ok = false)).
  { intros [= <- <- <-]. unfold total. cbn. rewrite Z.add_0_r. split; [|done]. split; [done|]. by intros _. }
  destruct (dec_kind d).
  - pose proof (dec_emit_ok n _ inp H0 HI Hi) as He. destruct (dec_emit _ inp) as [ok' k]. intros [= <- <- <-].
    by apply Hdone.
  - destruct (dec_zs d) as [zs|]; [|exact Hskip].
    pose proof (loop_pow_inv (gzip_round inflate) (loop_inv n) (loop_post n)
      (fun st => gzip_round_inv n st H0) 64 (zs, take (Z.to_nat (wrap32 (zlen inp))) inp, mkSink (dec_total_out d) []) HI) as Hl.
    destruct (loop_pow 64 _ _) as [|[[ok' zs'] k]]; [done|]. intros [= <- <- <-]. by apply Hdone.
  - destruct (dec_br d) as [br|]; [|exact Hskip].
    pose proof (loop_pow_inv (br_round BrotliDecoderDecompressStream) (loop_inv n) (loop_post n)
      (fun st => br_round_inv n st H0) 64 (br, inp, mkSink (dec_total_out d) []) HI) as Hl.
    destruct (loop_pow 64 _ _) as [|[[ok' br'] k]]; [done|]. intros [= <- <- <-]. by apply Hdone.
  - destruct (dec_zd d) as [zd|]; [|exact Hskip].
    pose proof (loop_pow_inv (zd_round ZSTD_decompressStream ZSTD_isError) (loop_inv n) (loop_post n)
      (fun st => zd_round_inv n st H0) 64 (zd, inp, mkSink (dec_total_out d) []) HI) as Hl.
    destruct (loop_pow 64 _ _) as [|[[ok' zd'] k]]; [done|]. intros [= <- <- <-]. by apply Hdone.
Qed.

(** The streaming decoder keeps the same limit over a whole body: however
    the body is cut into pushes, what reaches the sink never exceeds 256 MB,
    and after a push that fails nothing more is emitted. *)
Theorem stream_decoder_capped (encoding : bytes) (inputs : list bytes) d cs :
  Forall (fun i => zlen i < 2 ^ 63) inputs ->
  decoder_push_all (stream_decoder_create inflateInit2 BrotliDecoderCreateInstance ZSTD_createDCtx encoding) inputs = Some (d, cs) ->
  total cs <= DECODE_MAX_OUT /\
  forall i ok d' cs', zlen i < 2 ^ 63 -> push d i = Some (ok, d', cs') ->
    total (cs ++ cs') <= DECODE_MAX_OUT /\
    (ok = false -> forall more d'' cs'', decoder_push_all d' more = Some (d'', cs'') -> concat cs'' = []).
Proof.
  intros Hf Hp. set (d0 := stream_decoder_create _ _ _ encoding) in Hp.
  assert (H0 : decoder_inv 0 d0).
  { unfold d0, stream_decoder_create, decoder_inv. change DECODE_MAX_OUT with 268435456.
    repeat (case_match; try (split; [lia|done])). }
  clearbody d0.
  assert (Hall : forall ins d0 n d cs, 0 <= n -> decoder_inv n d0 -> Forall (fun i => zlen i < 2 ^ 63) ins ->
    decoder_push_all d0 ins = Some (d, cs) -> decoder_inv (n + total cs) d /\ (dec_dead d0 = true -> concat cs = [])).
  { clear d0 H0 Hp Hf d cs inputs. induction ins as [|i ins IH]; intros d0 n d cs Hn Hi Hf; cbn [decoder_push_all].
    - intros [= <- <-]. unfold total. cbn. rewrite Z.add_0_r. done.
    - apply Forall_cons in Hf as [Hi1 Hf]. destruct (push d0 i) as [[[ok d1] c1]|] eqn:E1; [|done].
      destruct (decoder_push_all d1 ins) as [[d2 c2]|] eqn:E2; [|done]. intros [= <- <-].
      destruct (push_inv n d0 i ok d1 c1 Hn Hi Hi1 E1) as (H1 & Hd & Hdead).
      destruct (IH d1 (n + total c1) d2 c2) as [H2 H3]; [pose proof (zlen_nonneg (concat c1)); unfold total; lia|done..|].
      rewrite total_app, Z.add_assoc. split; [done|]. intros Hd0. destruct (Hdead Hd0) as [-> ->]. cbn. by apply H3, Hd. }
  destruct (Hall inputs d0 0 d cs ltac:(lia) H0 Hf Hp) as [Hd _]. rewrite Z.add_0_l in Hd. split; [apply Hd|].
  intros i ok d' cs' Hi Hpu. pose proof (zlen_nonneg (concat cs)) as Hc0. fold (total cs) in Hc0.
  destruct (push_inv (total cs) d i ok d' cs' Hc0 Hd Hi Hpu) as (H1 & H2 & _).
  rewrite total_app. split; [apply H1|]. intros Hok more d'' cs''. specialize (H2 Hok). clear -H2.
  revert d' cs'' H2. induction more as [|x more IH]; intros d' cs'' Hdead; cbn [decoder_push_all]; [by intros [= <- <-]|].
  assert (E : push d' x = Some (false, d', [])) by (unfold stream_decoder_push; by rewrite Hdead).
  rewrite E. destruct (decoder_push_all d' more) as [[d2 c2]|] eqn:E2; [|done]. intros [= <- <-]. cbn. by apply (IH d').
Qed.

End streaming.

Section hang.
Context {z_stream : Type} (inflate : codec_call Z z_stream).
Context {BrotliDecoderState : Type} (BrotliDecoderDecompressStream : codec_call BrotliDecoderResult BrotliDecoderState).
Context {ZSTD_DCtx : Type} (ZSTD_decompressStream : codec_call Z ZSTD_DCtx) (ZSTD_isError : Z -> bool).
Abbreviation push := (stream_decoder_push inflate BrotliDecoderDecompressStream ZSTD_decompressStream ZSTD_isError).
Abbreviation decoder := (@StreamDecoder z_stream BrotliDecoderState ZSTD_DCtx).

(** The streaming gzip decoder does not return on a body with bytes after
    the end of the compressed stream: [inflate] keeps answering
    [Z_STREAM_END] without consuming them, and the loop waits for [avail_in]
    to reach zero. *)
Theorem gzip_trailing_bytes_hang (d : decoder) zs zs' (inp produced : bytes) (consumed : nat) :
  (forall inp' room, inflate zs' inp' room = (Z_STREAM_END, 0%nat, [], zs')) ->
  dec_dead d = false -> dec_kind d = Dec_Gzip -> dec_zs d = Some zs -> zlen inp < 2 ^ 32 ->
  inflate zs inp DECODE_BUF = (Z_STREAM_END, consumed, produced, zs') ->
  (consumed < length inp)%nat -> 0 <= dec_total_out d -> dec_total_out d + zlen produced <= DECODE_MAX_OUT ->
  push d inp = None.
Proof.
  intros Hend Hd Hk Hz Hlen Hinf Hc H0 Hcap. unfold stream_decoder_push. rewrite Hd, Hk, Hz.
  assert (Hw : take (Z.to_nat (wrap32 (zlen inp))) inp = inp).
  { apply take_ge. unfold wrap32. rewrite Z.mod_small by (unfold zlen in *; lia). unfold zlen. lia. }
  rewrite Hw. set (I := fun st : z_stream * bytes * sink =>
    exists rest k, st = (zs, inp, mkSink (dec_total_out d) []) \/ (st = (zs', rest, k) /\ rest <> [])).
  destruct (loop_pow_spins (gzip_round inflate) I) with (k := 64%nat) (s := (zs, inp, mkSink (dec_total_out d) []))
    as (s' & -> & _); [|by exists [], (mkSink 0 []); left|done].
  intros st (rest & k & [->|[-> Hrest]]).
  - unfold gzip_round. rewrite Hinf. change (negb (Z_STREAM_END =? Z_OK) && negb (Z_STREAM_END =? Z_STREAM_END) && _) with false.
    cbv iota. assert (He : exists k', dec_emit (mkSink (dec_total_out d) []) produced = (true, k')).
    { unfold dec_emit. destruct (length produced =? 0)%nat; [by eexists|]. cbn [sk_total sk_chunks].
      pose proof (zlen_nonneg produced). change DECODE_MAX_OUT with 268435456 in *.
      unfold wrap64. rewrite Z.mod_small by lia. rewrite (proj2 (Z.ltb_ge _ _)) by lia. by eexists. }
    destruct He as (k' & ->). change (Z_STREAM_END =? Z_BUF_ERROR) with false. cbn [negb].
    rewrite (proj2 (Nat.ltb_lt 0 (length (drop consumed inp)))) by (rewrite length_drop; lia). cbn [orb].
    eexists. split; [done|]. exists (drop consumed inp), k'. right. split; [done|].
    intros E%(f_equal length). rewrite length_drop in E. cbn in E. lia.
  - unfold gzip_round. rewrite Hend. change (negb (Z_STREAM_END =? Z_OK) && negb (Z_STREAM_END =? Z_STREAM_END) && _) with false.
    cbv iota. change (dec_emit k []) with (true, k). change (Z_STREAM_END =? Z_BUF_ERROR) with false. cbn [negb].
    rewrite drop_0. destruct rest as [|x rest]; [done|]. eexists. split; [done|]. exists (x :: rest), k. by right.
Qed.
End hang.

(** ** Witnesses: codecs that copy bytes up to a zero *)
Definition toy_inflate (ended : bool) (inp : bytes) (room : nat) : Z * nat * bytes * bool :=
  if ended then (Z_STREAM_END, 0%nat, [], true)
  else match inp, room with
       | [], _ | _, O => (Z_BUF_ERROR, 0%nat, [], false)
       | 0 :: _, _ => (Z_STREAM_END, 1%nat, [], true)
       | b :: _, _ => (Z_OK, 1%nat, [b], false)
       end.
Definition toy_brotli (s : unit) (inp : bytes) (room : nat) : BrotliDecoderResult * nat * bytes * unit :=
  match inp, room with
  | [], _ | _, O => (BROTLI_DECODER_RESULT_NEEDS_MORE_INPUT, 0%nat, [], s)
  | 0 :: _, _ => (BROTLI_DECODER_RESULT_SUCCESS, 1%nat, [], s)
  | b :: _, _ => (BROTLI_DECODER_RESULT_NEEDS_MORE_OUTPUT, 1%nat, [b], s)
  end.
Definition toy_zstd (s : unit) (inp : bytes) (room : nat) : Z * nat * bytes * unit :=
  match inp, room with
  | [], _ | _, O => (0, 0%nat, [], s)
  | b :: _, _ => (1, 1%nat, [b], s)
  end.

Lemma toy_laws : codec_laws toy_inflate toy_brotli toy_zstd (fun r => r <? 0).
Proof.
  split; intros s inp room; unfold within, toy_inflate, toy_brotli, toy_zstd; destruct inp as [|[|p|p] inp], room as [|room];
    try destruct s; cbn; try (split; lia); auto; try (intros; first [lia|by right|done]).
Qed.

Abbreviation toy_decode := (decode_content (fun _ => Some false) toy_inflate (Some tt) toy_brotli (Some tt) toy_zstd (fun r => r <? 0)).
Abbreviation toy_push := (stream_decoder_push toy_inflate toy_brotli toy_zstd (fun r => r <? 0)).
Abbreviation toy_create := (stream_decoder_create (fun _ => Some false) (Some tt) (Some tt)).

Lemma decode_content_bounded_witness :
  toy_decode (lit "identity, gzip ") [104; 105; 0; 9] = Some (Some [104; 105]) /\
  toy_decode (lit "Identity") [104; 105; 0; 9] = Some (Some [104; 105; 0; 9]).
Proof.
  split; [vm_compute; reflexivity|].
  destruct (decode_content_bounded (fun _ => Some false) toy_inflate (Some tt) toy_brotli (Some tt) toy_zstd (fun r => r <? 0)
    toy_laws (lit "Identity") [104; 105; 0; 9] ltac:(unfold zlen; cbn; lia)) as (r & Hr & _ & Hid).
  rewrite Hr. f_equal. apply Hid. right. vm_compute. reflexivity.
Defined.

Lemma stream_decoder_capped_witness :
  decoder_push_all toy_inflate toy_brotli toy_zstd (fun r => r <? 0) (toy_create (lit "gzip")) [[104; 105]; [106; 0]] =
    Some (mkDecoder Dec_Gzip 3 false (Some true) None None, [[104]; [105]; [106]]) /\
  total [[104]; [105]; [106]] <= DECODE_MAX_OUT.
Proof.
  assert (E : decoder_push_all toy_inflate toy_brotli toy_zstd (fun r => r <? 0) (toy_create (lit "gzip")) [[104; 105]; [106; 0]] =
    Some (mkDecoder Dec_Gzip 3 false (Some true) None None, [[104]; [105]; [106]])) by (vm_compute; reflexivity).
  split; [exact E|]. refine (proj1 (stream_decoder_capped (fun _ => Some false) toy_inflate (Some tt) toy_brotli (Some tt)
    toy_zstd (fun r => r <? 0) toy_laws (lit "gzip") [[104; 105]; [106; 0]] _ _ _ E)).
  repeat constructor.
Defined.

Lemma gzip_trailing_bytes_hang_witness : toy_push (toy_create (lit "gzip")) [0; 10] = None.
Proof.
  apply (gzip_trailing_bytes_hang toy_inflate toy_brotli toy_zstd (fun r => r <? 0)
    (toy_create (lit "gzip")) false true [0; 10] [] 1%nat); try reflexivity; try (vm_compute; done); cbn; lia.
Defined.
