(* ===== verification/SslPump.v ===== *)
(** * The TLS engine of a connection: tls/ssl_conn.c

    [SslPump] drives a BoringSSL object over two memory BIOs. BoringSSL is an
    interface, [BoringSSL]: an [SSL] is a state (its BIOs included) and a call
    gives a result and the next state; what a call answers is left open. *)
From S2P Require Import Prelude.

Definition SSL_ERROR_WANT_READ : Z := 2.
Definition SSL_ERROR_WANT_WRITE : Z := 3.
Definition SSL_ERROR_ZERO_RETURN : Z := 6.
Definition SSL_ERROR_EARLY_DATA_REJECTED : Z := 15.

Class BoringSSL := {
  SSL : Type;
  SSL_CTX : Type;
  SSL_SESSION : Type;
  TlsProfile : Type;
  SSL_new : SSL_CTX -> option SSL;                        (* both BIOs attached, connect state *)
  configure_ssl : SSL -> TlsProfile -> bytes -> bytes -> option SSL_SESSION -> option SSL;
  SSL_session_reused : SSL -> bool;
  SSL_SESSION_early_data_capable : SSL_SESSION -> bool;
  SSL_set_early_data_enabled : SSL -> SSL;
  SSL_in_early_data : SSL -> bool;
  SSL_early_data_accepted : SSL -> bool;
  SSL_do_handshake : SSL -> Z * SSL;
  SSL_get_error : SSL -> Z -> Z;
  SSL_get0_alpn_selected : SSL -> bytes;
  SSL_read : SSL -> nat -> Z * bytes * SSL;                (* the result and the bytes read *)
  SSL_write : SSL -> bytes -> Z * SSL;
  BIO_write_rbio : SSL -> bytes -> SSL;
  BIO_read_wbio : SSL -> nat -> bytes * SSL;
  ERR_peek_last_error : SSL -> Z;
  ERR_is_wrong_version_on_early_data : Z -> bool;          (* ERR_LIB_SSL with that reason *)
  ERR_error_string : Z -> bytes
}.

Section pump.
Context `{BoringSSL}.

Record SslPump := mkPump {
  pump_ssl : option SSL;
  pump_established : bool;
  pump_last_err : Z
}.
Inductive HsStatus := HsStatus_WantIo | HsStatus_Done | HsStatus_Error | HsStatus_EarlyData | HsStatus_EarlyRejected.

Definition pump_zero : SslPump := mkPump None false 0.
Definition set_ssl (s : SSL) (p : SslPump) : SslPump := mkPump (Some s) (pump_established p) (pump_last_err p).

Definition ssl_pump_init (ctx : option SSL_CTX) : SslPump :=
  match ctx with
  | None => pump_zero
  | Some ctx => mkPump (SSL_new ctx) false 0
  end.
Definition ssl_pump_cleanup (p : SslPump) : SslPump := pump_zero.
Definition ssl_pump_valid (p : SslPump) : bool := match pump_ssl p with Some _ => true | None => false end.

Definition ssl_pump_configure (p : SslPump) (prof : TlsProfile) (host ech : bytes) (session : option SSL_SESSION) :
  bool * SslPump :=
  match pump_ssl p with
  | None => (false, p)
  | Some s => match configure_ssl s prof host ech session with
              | Some s => (true, set_ssl s p)
              | None => (false, p)
              end
  end.
Definition ssl_pump_resumed (p : SslPump) : bool :=
  match pump_ssl p with Some s => SSL_session_reused s | None => false end.
Definition ssl_pump_enable_early_data (p : SslPump) (session : option SSL_SESSION) : bool * SslPump :=
  match pump_ssl p, session with
  | Some s, Some sess =>
      if SSL_SESSION_early_data_capable sess then (true, set_ssl (SSL_set_early_data_enabled s) p) else (false, p)
  | _, _ => (false, p)
  end.
Definition ssl_pump_early_accepted (p : SslPump) : bool :=
  match pump_ssl p with Some s => SSL_early_data_accepted s | None => false end.

Definition ssl_pump_feed_ciphertext (p : SslPump) (data : bytes) : SslPump :=
  match pump_ssl p with
  | Some s => if (0 <? length data)%nat then set_ssl (BIO_write_rbio s data) p else p
  | None => p
  end.
Definition ssl_pump_read_output (p : SslPump) (cap : nat) : bytes * SslPump :=
  match pump_ssl p with
  | None => ([], p)
  | Some s => let '(out, s) := BIO_read_wbio s cap in (out, set_ssl s p)
  end.

Definition ssl_pump_do_handshake (p : SslPump) : HsStatus * SslPump :=
  match pump_ssl p with
  | None => (HsStatus_Error, p)
  | Some s =>
      let '(r, s) := SSL_do_handshake s in
      let p := set_ssl s p in
      if r =? 1 then (HsStatus_Done, mkPump (Some s) true (pump_last_err p))
      else
        let e := SSL_get_error s r in
        let failed := mkPump (Some s) (pump_established p) (ERR_peek_last_error s) in
        if e =? SSL_ERROR_EARLY_DATA_REJECTED then (HsStatus_EarlyRejected, failed)
        else if (e =? SSL_ERROR_WANT_READ) || (e =? SSL_ERROR_WANT_WRITE) then
          (if SSL_in_early_data s then HsStatus_EarlyData else HsStatus_WantIo, p)
        else if ERR_is_wrong_version_on_early_data (ERR_peek_last_error s) then (HsStatus_EarlyRejected, failed)
        else (HsStatus_Error, failed)
  end.
Definition ssl_pump_alpn (p : SslPump) : bytes :=
  match pump_ssl p with Some s => SSL_get0_alpn_selected s | None => [] end.

(** The bytes read, [inr true] for the would-block result -1, [inr false] for -2. *)
Definition ssl_pump_read_plaintext (p : SslPump) (cap : nat) : (bytes + bool) * SslPump :=
  match pump_ssl p with
  | None => (inr false, p)
  | Some s =>
      let '(r, data, s) := SSL_read s cap in
      if 0 <? r then (inl data, set_ssl s p)
      else
        let e := SSL_get_error s r in
        if (e =? SSL_ERROR_WANT_READ) || (e =? SSL_ERROR_WANT_WRITE) then (inr true, set_ssl s p)
        else if e =? SSL_ERROR_ZERO_RETURN then (inr false, set_ssl s p)
        else (inr false, mkPump (Some s) (pump_established p) (ERR_peek_last_error s))
  end.
(** The count written, -1 (would block) or -2. *)
Definition ssl_pump_write_plaintext (p : SslPump) (buf : bytes) : Z * SslPump :=
  match pump_ssl p with
  | None => (-2, p)
  | Some s =>
      if (length buf =? 0)%nat then (0, p)
      else
        let '(r, s) := SSL_write s buf in
        if 0 <? r then (r, set_ssl s p)
        else
          let e := SSL_get_error s r in
          if (e =? SSL_ERROR_WANT_READ) || (e =? SSL_ERROR_WANT_WRITE) then (-1, set_ssl s p)
          else (-2, mkPump (Some s) (pump_established p) (ERR_peek_last_error s))
  end.
End pump.
