(* ===== verification/ConnTypes.v ===== *)
(** * The state of a TCP connection: net/connection.h

    The [Connection] and what it stands on: libuv (the clock, the socket, the
    resolver), the write ring and the C heap as one interface, [Uv], whose
    answers are left open, and the TCP handle as libuv keeps it. A function of
    [net/connection.c] is a state transformer over the whole ([St]); the part
    [st_own] belongs to the owner of the connection, whose callbacks are
    transformers of the same state. *)
From S2P Require Import Prelude String8 DnsCache Proxy.
From S2P Require Export SslPump.

Class Uv (W : Type) := {
  uv_hrtime : W -> Z * W;
  uv_now : W -> Z;
  uv_tcp_bind : W -> bytes -> Z * W;
  uv_tcp_connect : W -> bytes -> Z * W;
  uv_getaddrinfo : W -> bytes -> Z -> Z -> Z * W;      (* host, port, family *)
  uv_write : W -> bytes -> Z * W;
  uv_strerror : Z -> bytes;
  ra_reserve : W -> Z -> option Z * W;                 (* the egress ring: the room given *)
  ra_commit : W -> Z -> W;
  ra_abort : W -> W;
  malloc : W -> Z -> bool * W;
  sizeof_WriteReq : Z;
  sockaddr_family : bytes -> Z;
  sockaddr_set_port : bytes -> Z -> bytes
}.

Inductive ConnState :=
| ConnState_Idle | ConnState_Resolving | ConnState_Connecting | ConnState_ProxyTls | ConnState_ProxyNegotiate
| ConnState_Handshaking | ConnState_EarlyData | ConnState_Established | ConnState_Closing | ConnState_Failed.
#[export] Instance ConnState_eq_dec : EqDecision ConnState.
Proof. solve_decision. Defined.
Inductive ProxyPhase :=
| ProxyPhase_None | ProxyPhase_HttpConnect | ProxyPhase_Socks5Greeting | ProxyPhase_Socks5Auth | ProxyPhase_Socks5Connect.

(** The TCP handle, and the requests on it that have not called back. *)
Record Tcp := mkTcp {
  tcp_closing : bool;
  tcp_reading : bool;
  tcp_resolving : bool;      (* the resolver request is in flight *)
  tcp_connecting : bool;     (* the connect request is in flight *)
  tcp_written : list bytes   (* what was handed to [uv_write], in order *)
}.

Section state.
Context `{BoringSSL}.

Record Connection := mkConn {
  c_profile : TlsProfile;
  c_pump : SslPump;
  c_host : bytes;
  c_port : Z;
  c_state : ConnState;
  c_tcp_inited : bool;
  c_ready_fired : bool;
  c_ech_config : bytes;
  c_resume_session : option SSL_SESSION;
  c_want_early_data : bool;
  c_early_fired : bool;
  c_early_rejected : bool;
  c_t_connect_start : Z;
  c_t_resolved : Z;
  c_t_connected : Z;
  c_t_established : Z;
  c_dns_cache (* a cache is attached *) : bool;
  c_dns_was_cached : bool;
  c_bind_addr : option bytes;
  c_proxy : ProxyConfig;
  c_proxy_ctx : option SSL_CTX;
  c_proxy_profile : option TlsProfile;
  c_outer : SslPump;
  c_outer_active : bool;
  c_resolve_host : bytes;
  c_proxy_phase : ProxyPhase;
  c_nbuf (* nbuf[0 .. nlen) *) : bytes;
  c_pending (* pending[0 .. pending_len) *) : bytes;
  c_pending_cap : Z;
  c_egress (* the write ring exists *) : bool;
  c_on_early_ready (* the callback is set *) : bool;
  c_on_readable : bool;
  c_on_closed : bool;
  c_on_fully_closed : bool
}.
Definition set_c_pump (v : SslPump) (c : Connection) : Connection :=
  mkConn (c_profile c) v (c_host c) (c_port c) (c_state c) (c_tcp_inited c) (c_ready_fired c) (c_ech_config c)
    (c_resume_session c) (c_want_early_data c) (c_early_fired c) (c_early_rejected c) (c_t_connect_start c)
    (c_t_resolved c) (c_t_connected c) (c_t_established c) (c_dns_cache c) (c_dns_was_cached c) (c_bind_addr c)
    (c_proxy c) (c_proxy_ctx c) (c_proxy_profile c) (c_outer c) (c_outer_active c) (c_resolve_host c)
    (c_proxy_phase c) (c_nbuf c) (c_pending c) (c_pending_cap c) (c_egress c) (c_on_early_ready c) (c_on_readable c)
    (c_on_closed c) (c_on_fully_closed c).
Definition set_c_host (v : bytes) (c : Connection) : Connection :=
  mkConn (c_profile c) (c_pump c) v (c_port c) (c_state c) (c_tcp_inited c) (c_ready_fired c) (c_ech_config c)
    (c_resume_session c) (c_want_early_data c) (c_early_fired c) (c_early_rejected c) (c_t_connect_start c)
    (c_t_resolved c) (c_t_connected c) (c_t_established c) (c_dns_cache c) (c_dns_was_cached c) (c_bind_addr c)
    (c_proxy c) (c_proxy_ctx c) (c_proxy_profile c) (c_outer c) (c_outer_active c) (c_resolve_host c)
    (c_proxy_phase c) (c_nbuf c) (c_pending c) (c_pending_cap c) (c_egress c) (c_on_early_ready c) (c_on_readable c)
    (c_on_closed c) (c_on_fully_closed c).
Definition set_c_port (v : Z) (c : Connection) : Connection :=
  mkConn (c_profile c) (c_pump c) (c_host c) v (c_state c) (c_tcp_inited c) (c_ready_fired c) (c_ech_config c)
    (c_resume_session c) (c_want_early_data c) (c_early_fired c) (c_early_rejected c) (c_t_connect_start c)
    (c_t_resolved c) (c_t_connected c) (c_t_established c) (c_dns_cache c) (c_dns_was_cached c) (c_bind_addr c)
    (c_proxy c) (c_proxy_ctx c) (c_proxy_profile c) (c_outer c) (c_outer_active c) (c_resolve_host c)
    (c_proxy_phase c) (c_nbuf c) (c_pending c) (c_pending_cap c) (c_egress c) (c_on_early_ready c) (c_on_readable c)
    (c_on_closed c) (c_on_fully_closed c).
Definition set_c_state (v : ConnState) (c : Connection) : Connection :=
  mkConn (c_profile c) (c_pump c) (c_host c) (c_port c) v (c_tcp_inited c) (c_ready_fired c) (c_ech_config c)
    (c_resume_session c) (c_want_early_data c) (c_early_fired c) (c_early_rejected c) (c_t_connect_start c)
    (c_t_resolved c) (c_t_connected c) (c_t_established c) (c_dns_cache c) (c_dns_was_cached c) (c_bind_addr c)
    (c_proxy c) (c_proxy_ctx c) (c_proxy_profile c) (c_outer c) (c_outer_active c) (c_resolve_host c)
    (c_proxy_phase c) (c_nbuf c) (c_pending c) (c_pending_cap c) (c_egress c) (c_on_early_ready c) (c_on_readable c)
    (c_on_closed c) (c_on_fully_closed c).
Definition set_c_tcp_inited (v : bool) (c : Connection) : Connection :=
  mkConn (c_profile c) (c_pump c) (c_host c) (c_port c) (c_state c) v (c_ready_fired c) (c_ech_config c)
    (c_resume_session c) (c_want_early_data c) (c_early_fired c) (c_early_rejected c) (c_t_connect_start c)
    (c_t_resolved c) (c_t_connected c) (c_t_established c) (c_dns_cache c) (c_dns_was_cached c) (c_bind_addr c)
    (c_proxy c) (c_proxy_ctx c) (c_proxy_profile c) (c_outer c) (c_outer_active c) (c_resolve_host c)
    (c_proxy_phase c) (c_nbuf c) (c_pending c) (c_pending_cap c) (c_egress c) (c_on_early_ready c) (c_on_readable c)
    (c_on_closed c) (c_on_fully_closed c).
Definition set_c_ready_fired (v : bool) (c : Connection) : Connection :=
  mkConn (c_profile c) (c_pump c) (c_host c) (c_port c) (c_state c) (c_tcp_inited c) v (c_ech_config c)
    (c_resume_session c) (c_want_early_data c) (c_early_fired c) (c_early_rejected c) (c_t_connect_start c)
    (c_t_resolved c) (c_t_connected c) (c_t_established c) (c_dns_cache c) (c_dns_was_cached c) (c_bind_addr c)
    (c_proxy c) (c_proxy_ctx c) (c_proxy_profile c) (c_outer c) (c_outer_active c) (c_resolve_host c)
    (c_proxy_phase c) (c_nbuf c) (c_pending c) (c_pending_cap c) (c_egress c) (c_on_early_ready c) (c_on_readable c)
    (c_on_closed c) (c_on_fully_closed c).
Definition set_c_ech_config (v : bytes) (c : Connection) : Connection :=
  mkConn (c_profile c) (c_pump c) (c_host c) (c_port c) (c_state c) (c_tcp_inited c) (c_ready_fired c) v
    (c_resume_session c) (c_want_early_data c) (c_early_fired c) (c_early_rejected c) (c_t_connect_start c)
    (c_t_resolved c) (c_t_connected c) (c_t_established c) (c_dns_cache c) (c_dns_was_cached c) (c_bind_addr c)
    (c_proxy c) (c_proxy_ctx c) (c_proxy_profile c) (c_outer c) (c_outer_active c) (c_resolve_host c)
    (c_proxy_phase c) (c_nbuf c) (c_pending c) (c_pending_cap c) (c_egress c) (c_on_early_ready c) (c_on_readable c)
    (c_on_closed c) (c_on_fully_closed c).
Definition set_c_resume_session (v : option SSL_SESSION) (c : Connection) : Connection :=
  mkConn (c_profile c) (c_pump c) (c_host c) (c_port c) (c_state c) (c_tcp_inited c) (c_ready_fired c)
    (c_ech_config c) v (c_want_early_data c) (c_early_fired c) (c_early_rejected c) (c_t_connect_start c)
    (c_t_resolved c) (c_t_connected c) (c_t_established c) (c_dns_cache c) (c_dns_was_cached c) (c_bind_addr c)
    (c_proxy c) (c_proxy_ctx c) (c_proxy_profile c) (c_outer c) (c_outer_active c) (c_resolve_host c)
    (c_proxy_phase c) (c_nbuf c) (c_pending c) (c_pending_cap c) (c_egress c) (c_on_early_ready c) (c_on_readable c)
    (c_on_closed c) (c_on_fully_closed c).
Definition set_c_want_early_data (v : bool) (c : Connection) : Connection :=
  mkConn (c_profile c) (c_pump c) (c_host c) (c_port c) (c_state c) (c_tcp_inited c) (c_ready_fired c)
    (c_ech_config c) (c_resume_session c) v (c_early_fired c) (c_early_rejected c) (c_t_connect_start c)
    (c_t_resolved c) (c_t_connected c) (c_t_established c) (c_dns_cache c) (c_dns_was_cached c) (c_bind_addr c)
    (c_proxy c) (c_proxy_ctx c) (c_proxy_profile c) (c_outer c) (c_outer_active c) (c_resolve_host c)
    (c_proxy_phase c) (c_nbuf c) (c_pending c) (c_pending_cap c) (c_egress c) (c_on_early_ready c) (c_on_readable c)
    (c_on_closed c) (c_on_fully_closed c).
Definition set_c_early_fired (v : bool) (c : Connection) : Connection :=
  mkConn (c_profile c) (c_pump c) (c_host c) (c_port c) (c_state c) (c_tcp_inited c) (c_ready_fired c)
    (c_ech_config c) (c_resume_session c) (c_want_early_data c) v (c_early_rejected c) (c_t_connect_start c)
    (c_t_resolved c) (c_t_connected c) (c_t_established c) (c_dns_cache c) (c_dns_was_cached c) (c_bind_addr c)
    (c_proxy c) (c_proxy_ctx c) (c_proxy_profile c) (c_outer c) (c_outer_active c) (c_resolve_host c)
    (c_proxy_phase c) (c_nbuf c) (c_pending c) (c_pending_cap c) (c_egress c) (c_on_early_ready c) (c_on_readable c)
    (c_on_closed c) (c_on_fully_closed c).
Definition set_c_early_rejected (v : bool) (c : Connection) : Connection :=
  mkConn (c_profile c) (c_pump c) (c_host c) (c_port c) (c_state c) (c_tcp_inited c) (c_ready_fired c)
    (c_ech_config c) (c_resume_session c) (c_want_early_data c) (c_early_fired c) v (c_t_connect_start c)
    (c_t_resolved c) (c_t_connected c) (c_t_established c) (c_dns_cache c) (c_dns_was_cached c) (c_bind_addr c)
    (c_proxy c) (c_proxy_ctx c) (c_proxy_profile c) (c_outer c) (c_outer_active c) (c_resolve_host c)
    (c_proxy_phase c) (c_nbuf c) (c_pending c) (c_pending_cap c) (c_egress c) (c_on_early_ready c) (c_on_readable c)
    (c_on_closed c) (c_on_fully_closed c).
Definition set_c_t_connect_start (v : Z) (c : Connection) : Connection :=
  mkConn (c_profile c) (c_pump c) (c_host c) (c_port c) (c_state c) (c_tcp_inited c) (c_ready_fired c)
    (c_ech_config c) (c_resume_session c) (c_want_early_data c) (c_early_fired c) (c_early_rejected c) v
    (c_t_resolved c) (c_t_connected c) (c_t_established c) (c_dns_cache c) (c_dns_was_cached c) (c_bind_addr c)
    (c_proxy c) (c_proxy_ctx c) (c_proxy_profile c) (c_outer c) (c_outer_active c) (c_resolve_host c)
    (c_proxy_phase c) (c_nbuf c) (c_pending c) (c_pending_cap c) (c_egress c) (c_on_early_ready c) (c_on_readable c)
    (c_on_closed c) (c_on_fully_closed c).
Definition set_c_t_resolved (v : Z) (c : Connection) : Connection :=
  mkConn (c_profile c) (c_pump c) (c_host c) (c_port c) (c_state c) (c_tcp_inited c) (c_ready_fired c)
    (c_ech_config c) (c_resume_session c) (c_want_early_data c) (c_early_fired c) (c_early_rejected c)
    (c_t_connect_start c) v (c_t_connected c) (c_t_established c) (c_dns_cache c) (c_dns_was_cached c) (c_bind_addr c)
    (c_proxy c) (c_proxy_ctx c) (c_proxy_profile c) (c_outer c) (c_outer_active c) (c_resolve_host c)
    (c_proxy_phase c) (c_nbuf c) (c_pending c) (c_pending_cap c) (c_egress c) (c_on_early_ready c) (c_on_readable c)
    (c_on_closed c) (c_on_fully_closed c).
Definition set_c_t_connected (v : Z) (c : Connection) : Connection :=
  mkConn (c_profile c) (c_pump c) (c_host c) (c_port c) (c_state c) (c_tcp_inited c) (c_ready_fired c)
    (c_ech_config c) (c_resume_session c) (c_want_early_data c) (c_early_fired c) (c_early_rejected c)
    (c_t_connect_start c) (c_t_resolved c) v (c_t_established c) (c_dns_cache c) (c_dns_was_cached c) (c_bind_addr c)
    (c_proxy c) (c_proxy_ctx c) (c_proxy_profile c) (c_outer c) (c_outer_active c) (c_resolve_host c)
    (c_proxy_phase c) (c_nbuf c) (c_pending c) (c_pending_cap c) (c_egress c) (c_on_early_ready c) (c_on_readable c)
    (c_on_closed c) (c_on_fully_closed c).
Definition set_c_t_established (v : Z) (c : Connection) : Connection :=
  mkConn (c_profile c) (c_pump c) (c_host c) (c_port c) (c_state c) (c_tcp_inited c) (c_ready_fired c)
    (c_ech_config c) (c_resume_session c) (c_want_early_data c) (c_early_fired c) (c_early_rejected c)
    (c_t_connect_start c) (c_t_resolved c) (c_t_connected c) v (c_dns_cache c) (c_dns_was_cached c) (c_bind_addr c)
    (c_proxy c) (c_proxy_ctx c) (c_proxy_profile c) (c_outer c) (c_outer_active c) (c_resolve_host c)
    (c_proxy_phase c) (c_nbuf c) (c_pending c) (c_pending_cap c) (c_egress c) (c_on_early_ready c) (c_on_readable c)
    (c_on_closed c) (c_on_fully_closed c).
Definition set_c_dns_cache (v : bool) (c : Connection) : Connection :=
  mkConn (c_profile c) (c_pump c) (c_host c) (c_port c) (c_state c) (c_tcp_inited c) (c_ready_fired c)
    (c_ech_config c) (c_resume_session c) (c_want_early_data c) (c_early_fired c) (c_early_rejected c)
    (c_t_connect_start c) (c_t_resolved c) (c_t_connected c) (c_t_established c) v (c_dns_was_cached c)
    (c_bind_addr c) (c_proxy c) (c_proxy_ctx c) (c_proxy_profile c) (c_outer c) (c_outer_active c) (c_resolve_host c)
    (c_proxy_phase c) (c_nbuf c) (c_pending c) (c_pending_cap c) (c_egress c) (c_on_early_ready c) (c_on_readable c)
    (c_on_closed c) (c_on_fully_closed c).
Definition set_c_dns_was_cached (v : bool) (c : Connection) : Connection :=
  mkConn (c_profile c) (c_pump c) (c_host c) (c_port c) (c_state c) (c_tcp_inited c) (c_ready_fired c)
    (c_ech_config c) (c_resume_session c) (c_want_early_data c) (c_early_fired c) (c_early_rejected c)
    (c_t_connect_start c) (c_t_resolved c) (c_t_connected c) (c_t_established c) (c_dns_cache c) v (c_bind_addr c)
    (c_proxy c) (c_proxy_ctx c) (c_proxy_profile c) (c_outer c) (c_outer_active c) (c_resolve_host c)
    (c_proxy_phase c) (c_nbuf c) (c_pending c) (c_pending_cap c) (c_egress c) (c_on_early_ready c) (c_on_readable c)
    (c_on_closed c) (c_on_fully_closed c).
Definition set_c_bind_addr (v : option bytes) (c : Connection) : Connection :=
  mkConn (c_profile c) (c_pump c) (c_host c) (c_port c) (c_state c) (c_tcp_inited c) (c_ready_fired c)
    (c_ech_config c) (c_resume_session c) (c_want_early_data c) (c_early_fired c) (c_early_rejected c)
    (c_t_connect_start c) (c_t_resolved c) (c_t_connected c) (c_t_established c) (c_dns_cache c) (c_dns_was_cached c)
    v (c_proxy c) (c_proxy_ctx c) (c_proxy_profile c) (c_outer c) (c_outer_active c) (c_resolve_host c)
    (c_proxy_phase c) (c_nbuf c) (c_pending c) (c_pending_cap c) (c_egress c) (c_on_early_ready c) (c_on_readable c)
    (c_on_closed c) (c_on_fully_closed c).
Definition set_c_proxy (v : ProxyConfig) (c : Connection) : Connection :=
  mkConn (c_profile c) (c_pump c) (c_host c) (c_port c) (c_state c) (c_tcp_inited c) (c_ready_fired c)
    (c_ech_config c) (c_resume_session c) (c_want_early_data c) (c_early_fired c) (c_early_rejected c)
    (c_t_connect_start c) (c_t_resolved c) (c_t_connected c) (c_t_established c) (c_dns_cache c) (c_dns_was_cached c)
    (c_bind_addr c) v (c_proxy_ctx c) (c_proxy_profile c) (c_outer c) (c_outer_active c) (c_resolve_host c)
    (c_proxy_phase c) (c_nbuf c) (c_pending c) (c_pending_cap c) (c_egress c) (c_on_early_ready c) (c_on_readable c)
    (c_on_closed c) (c_on_fully_closed c).
Definition set_c_proxy_ctx (v : option SSL_CTX) (c : Connection) : Connection :=
  mkConn (c_profile c) (c_pump c) (c_host c) (c_port c) (c_state c) (c_tcp_inited c) (c_ready_fired c)
    (c_ech_config c) (c_resume_session c) (c_want_early_data c) (c_early_fired c) (c_early_rejected c)
    (c_t_connect_start c) (c_t_resolved c) (c_t_connected c) (c_t_established c) (c_dns_cache c) (c_dns_was_cached c)
    (c_bind_addr c) (c_proxy c) v (c_proxy_profile c) (c_outer c) (c_outer_active c) (c_resolve_host c)
    (c_proxy_phase c) (c_nbuf c) (c_pending c) (c_pending_cap c) (c_egress c) (c_on_early_ready c) (c_on_readable c)
    (c_on_closed c) (c_on_fully_closed c).
Definition set_c_proxy_profile (v : option TlsProfile) (c : Connection) : Connection :=
  mkConn (c_profile c) (c_pump c) (c_host c) (c_port c) (c_state c) (c_tcp_inited c) (c_ready_fired c)
    (c_ech_config c) (c_resume_session c) (c_want_early_data c) (c_early_fired c) (c_early_rejected c)
    (c_t_connect_start c) (c_t_resolved c) (c_t_connected c) (c_t_established c) (c_dns_cache c) (c_dns_was_cached c)
    (c_bind_addr c) (c_proxy c) (c_proxy_ctx c) v (c_outer c) (c_outer_active c) (c_resolve_host c) (c_proxy_phase c)
    (c_nbuf c) (c_pending c) (c_pending_cap c) (c_egress c) (c_on_early_ready c) (c_on_readable c) (c_on_closed c)
    (c_on_fully_closed c).
Definition set_c_outer (v : SslPump) (c : Connection) : Connection :=
  mkConn (c_profile c) (c_pump c) (c_host c) (c_port c) (c_state c) (c_tcp_inited c) (c_ready_fired c)
    (c_ech_config c) (c_resume_session c) (c_want_early_data c) (c_early_fired c) (c_early_rejected c)
    (c_t_connect_start c) (c_t_resolved c) (c_t_connected c) (c_t_established c) (c_dns_cache c) (c_dns_was_cached c)
    (c_bind_addr c) (c_proxy c) (c_proxy_ctx c) (c_proxy_profile c) v (c_outer_active c) (c_resolve_host c)
    (c_proxy_phase c) (c_nbuf c) (c_pending c) (c_pending_cap c) (c_egress c) (c_on_early_ready c) (c_on_readable c)
    (c_on_closed c) (c_on_fully_closed c).
Definition set_c_outer_active (v : bool) (c : Connection) : Connection :=
  mkConn (c_profile c) (c_pump c) (c_host c) (c_port c) (c_state c) (c_tcp_inited c) (c_ready_fired c)
    (c_ech_config c) (c_resume_session c) (c_want_early_data c) (c_early_fired c) (c_early_rejected c)
    (c_t_connect_start c) (c_t_resolved c) (c_t_connected c) (c_t_established c) (c_dns_cache c) (c_dns_was_cached c)
    (c_bind_addr c) (c_proxy c) (c_proxy_ctx c) (c_proxy_profile c) (c_outer c) v (c_resolve_host c) (c_proxy_phase c)
    (c_nbuf c) (c_pending c) (c_pending_cap c) (c_egress c) (c_on_early_ready c) (c_on_readable c) (c_on_closed c)
    (c_on_fully_closed c).
Definition set_c_resolve_host (v : bytes) (c : Connection) : Connection :=
  mkConn (c_profile c) (c_pump c) (c_host c) (c_port c) (c_state c) (c_tcp_inited c) (c_ready_fired c)
    (c_ech_config c) (c_resume_session c) (c_want_early_data c) (c_early_fired c) (c_early_rejected c)
    (c_t_connect_start c) (c_t_resolved c) (c_t_connected c) (c_t_established c) (c_dns_cache c) (c_dns_was_cached c)
    (c_bind_addr c) (c_proxy c) (c_proxy_ctx c) (c_proxy_profile c) (c_outer c) (c_outer_active c) v (c_proxy_phase c)
    (c_nbuf c) (c_pending c) (c_pending_cap c) (c_egress c) (c_on_early_ready c) (c_on_readable c) (c_on_closed c)
    (c_on_fully_closed c).
Definition set_c_proxy_phase (v : ProxyPhase) (c : Connection) : Connection :=
  mkConn (c_profile c) (c_pump c) (c_host c) (c_port c) (c_state c) (c_tcp_inited c) (c_ready_fired c)
    (c_ech_config c) (c_resume_session c) (c_want_early_data c) (c_early_fired c) (c_early_rejected c)
    (c_t_connect_start c) (c_t_resolved c) (c_t_connected c) (c_t_established c) (c_dns_cache c) (c_dns_was_cached c)
    (c_bind_addr c) (c_proxy c) (c_proxy_ctx c) (c_proxy_profile c) (c_outer c) (c_outer_active c) (c_resolve_host c)
    v (c_nbuf c) (c_pending c) (c_pending_cap c) (c_egress c) (c_on_early_ready c) (c_on_readable c) (c_on_closed c)
    (c_on_fully_closed c).
Definition set_c_nbuf (v : bytes) (c : Connection) : Connection :=
  mkConn (c_profile c) (c_pump c) (c_host c) (c_port c) (c_state c) (c_tcp_inited c) (c_ready_fired c)
    (c_ech_config c) (c_resume_session c) (c_want_early_data c) (c_early_fired c) (c_early_rejected c)
    (c_t_connect_start c) (c_t_resolved c) (c_t_connected c) (c_t_established c) (c_dns_cache c) (c_dns_was_cached c)
    (c_bind_addr c) (c_proxy c) (c_proxy_ctx c) (c_proxy_profile c) (c_outer c) (c_outer_active c) (c_resolve_host c)
    (c_proxy_phase c) v (c_pending c) (c_pending_cap c) (c_egress c) (c_on_early_ready c) (c_on_readable c)
    (c_on_closed c) (c_on_fully_closed c).
Definition set_c_pending (v : bytes) (c : Connection) : Connection :=
  mkConn (c_profile c) (c_pump c) (c_host c) (c_port c) (c_state c) (c_tcp_inited c) (c_ready_fired c)
    (c_ech_config c) (c_resume_session c) (c_want_early_data c) (c_early_fired c) (c_early_rejected c)
    (c_t_connect_start c) (c_t_resolved c) (c_t_connected c) (c_t_established c) (c_dns_cache c) (c_dns_was_cached c)
    (c_bind_addr c) (c_proxy c) (c_proxy_ctx c) (c_proxy_profile c) (c_outer c) (c_outer_active c) (c_resolve_host c)
    (c_proxy_phase c) (c_nbuf c) v (c_pending_cap c) (c_egress c) (c_on_early_ready c) (c_on_readable c)
    (c_on_closed c) (c_on_fully_closed c).
Definition set_c_pending_cap (v : Z) (c : Connection) : Connection :=
  mkConn (c_profile c) (c_pump c) (c_host c) (c_port c) (c_state c) (c_tcp_inited c) (c_ready_fired c)
    (c_ech_config c) (c_resume_session c) (c_want_early_data c) (c_early_fired c) (c_early_rejected c)
    (c_t_connect_start c) (c_t_resolved c) (c_t_connected c) (c_t_established c) (c_dns_cache c) (c_dns_was_cached c)
    (c_bind_addr c) (c_proxy c) (c_proxy_ctx c) (c_proxy_profile c) (c_outer c) (c_outer_active c) (c_resolve_host c)
    (c_proxy_phase c) (c_nbuf c) (c_pending c) v (c_egress c) (c_on_early_ready c) (c_on_readable c) (c_on_closed c)
    (c_on_fully_closed c).
Definition set_c_egress (v : bool) (c : Connection) : Connection :=
  mkConn (c_profile c) (c_pump c) (c_host c) (c_port c) (c_state c) (c_tcp_inited c) (c_ready_fired c)
    (c_ech_config c) (c_resume_session c) (c_want_early_data c) (c_early_fired c) (c_early_rejected c)
    (c_t_connect_start c) (c_t_resolved c) (c_t_connected c) (c_t_established c) (c_dns_cache c) (c_dns_was_cached c)
    (c_bind_addr c) (c_proxy c) (c_proxy_ctx c) (c_proxy_profile c) (c_outer c) (c_outer_active c) (c_resolve_host c)
    (c_proxy_phase c) (c_nbuf c) (c_pending c) (c_pending_cap c) v (c_on_early_ready c) (c_on_readable c)
    (c_on_closed c) (c_on_fully_closed c).
Definition set_c_on_early_ready (v : bool) (c : Connection) : Connection :=
  mkConn (c_profile c) (c_pump c) (c_host c) (c_port c) (c_state c) (c_tcp_inited c) (c_ready_fired c)
    (c_ech_config c) (c_resume_session c) (c_want_early_data c) (c_early_fired c) (c_early_rejected c)
    (c_t_connect_start c) (c_t_resolved c) (c_t_connected c) (c_t_established c) (c_dns_cache c) (c_dns_was_cached c)
    (c_bind_addr c) (c_proxy c) (c_proxy_ctx c) (c_proxy_profile c) (c_outer c) (c_outer_active c) (c_resolve_host c)
    (c_proxy_phase c) (c_nbuf c) (c_pending c) (c_pending_cap c) (c_egress c) v (c_on_readable c) (c_on_closed c)
    (c_on_fully_closed c).
Definition set_c_on_readable (v : bool) (c : Connection) : Connection :=
  mkConn (c_profile c) (c_pump c) (c_host c) (c_port c) (c_state c) (c_tcp_inited c) (c_ready_fired c)
    (c_ech_config c) (c_resume_session c) (c_want_early_data c) (c_early_fired c) (c_early_rejected c)
    (c_t_connect_start c) (c_t_resolved c) (c_t_connected c) (c_t_established c) (c_dns_cache c) (c_dns_was_cached c)
    (c_bind_addr c) (c_proxy c) (c_proxy_ctx c) (c_proxy_profile c) (c_outer c) (c_outer_active c) (c_resolve_host c)
    (c_proxy_phase c) (c_nbuf c) (c_pending c) (c_pending_cap c) (c_egress c) (c_on_early_ready c) v (c_on_closed c)
    (c_on_fully_closed c).
Definition set_c_on_closed (v : bool) (c : Connection) : Connection :=
  mkConn (c_profile c) (c_pump c) (c_host c) (c_port c) (c_state c) (c_tcp_inited c) (c_ready_fired c)
    (c_ech_config c) (c_resume_session c) (c_want_early_data c) (c_early_fired c) (c_early_rejected c)
    (c_t_connect_start c) (c_t_resolved c) (c_t_connected c) (c_t_established c) (c_dns_cache c) (c_dns_was_cached c)
    (c_bind_addr c) (c_proxy c) (c_proxy_ctx c) (c_proxy_profile c) (c_outer c) (c_outer_active c) (c_resolve_host c)
    (c_proxy_phase c) (c_nbuf c) (c_pending c) (c_pending_cap c) (c_egress c) (c_on_early_ready c) (c_on_readable c) v
    (c_on_fully_closed c).
Definition set_c_on_fully_closed (v : bool) (c : Connection) : Connection :=
  mkConn (c_profile c) (c_pump c) (c_host c) (c_port c) (c_state c) (c_tcp_inited c) (c_ready_fired c)
    (c_ech_config c) (c_resume_session c) (c_want_early_data c) (c_early_fired c) (c_early_rejected c)
    (c_t_connect_start c) (c_t_resolved c) (c_t_connected c) (c_t_established c) (c_dns_cache c) (c_dns_was_cached c)
    (c_bind_addr c) (c_proxy c) (c_proxy_ctx c) (c_proxy_profile c) (c_outer c) (c_outer_active c) (c_resolve_host c)
    (c_proxy_phase c) (c_nbuf c) (c_pending c) (c_pending_cap c) (c_egress c) (c_on_early_ready c) (c_on_readable c)
    (c_on_closed c) v.
End state.

(** ** Computations over the state *)
Section monad.
Context `{BoringSSL} {W Own : Type}.

Record St := mkSt {
  st_conn : Connection;
  st_tcp : Tcp;
  st_w : W;
  st_dns : DnsCache;      (* the client's cache, which the connection borrows *)
  st_own : Own
}.
Definition M (A : Type) : Type := St -> A * St.
#[global] Instance M_ret : MRet M := fun A x s => (x, s).
#[global] Instance M_bind : MBind M := fun A B f m s => let '(x, s) := m s in f x s.

Definition skip : M unit := mret tt.
Definition get {A} (f : St -> A) : M A := fun s => (f s, s).
Definition getc {A} (f : Connection -> A) : M A := fun s => (f (st_conn s), s).
Definition upd_conn (f : Connection -> Connection) : M unit :=
  fun s => (tt, mkSt (f (st_conn s)) (st_tcp s) (st_w s) (st_dns s) (st_own s)).
Definition upd_tcp (f : Tcp -> Tcp) : M unit :=
  fun s => (tt, mkSt (st_conn s) (f (st_tcp s)) (st_w s) (st_dns s) (st_own s)).
Definition upd_dns (f : DnsCache -> DnsCache) : M unit :=
  fun s => (tt, mkSt (st_conn s) (st_tcp s) (st_w s) (f (st_dns s)) (st_own s)).
Definition upd_own (f : Own -> Own) : M unit :=
  fun s => (tt, mkSt (st_conn s) (st_tcp s) (st_w s) (st_dns s) (f (st_own s))).
(** A call into libuv. *)
Definition env {A} (f : W -> A * W) : M A :=
  fun s => let '(x, w) := f (st_w s) in (x, mkSt (st_conn s) (st_tcp s) w (st_dns s) (st_own s)).
Definition when (b : bool) (m : M unit) : M unit := if b then m else skip.
(** A call on the target's TLS engine, and on the proxy's. *)
Definition on_pump {A} (f : SslPump -> A * SslPump) : M A :=
  fun s => let '(x, p) := f (c_pump (st_conn s)) in (x, snd (upd_conn (set_c_pump p) s)).
Definition on_outer {A} (f : SslPump -> A * SslPump) : M A :=
  fun s => let '(x, p) := f (c_outer (st_conn s)) in (x, snd (upd_conn (set_c_outer p) s)).
(** A loop without a bound of its own: [round] says whether to go on. *)
Definition while (round : M bool) : M unit :=
  fun s =>
    match loop_pow 64 (fun s => match round s with (true, s') => inl s' | (false, s') => inr s' end) s with
    | inl s' | inr s' => (tt, s')
    end.
End monad.
Arguments St {_} W Own.
Arguments M {_} W Own A.

Definition set_closing (t : Tcp) : Tcp := mkTcp true false (tcp_resolving t) (tcp_connecting t) (tcp_written t).
Definition set_reading (t : Tcp) : Tcp := mkTcp (tcp_closing t) true (tcp_resolving t) (tcp_connecting t) (tcp_written t).
Definition set_resolving (b : bool) (t : Tcp) : Tcp := mkTcp (tcp_closing t) (tcp_reading t) b (tcp_connecting t) (tcp_written t).
Definition set_connecting (b : bool) (t : Tcp) : Tcp := mkTcp (tcp_closing t) (tcp_reading t) (tcp_resolving t) b (tcp_written t).
Definition add_written (x : bytes) (t : Tcp) : Tcp :=
  mkTcp (tcp_closing t) (tcp_reading t) (tcp_resolving t) (tcp_connecting t) (tcp_written t ++ [x]).
(** [uv_tcp_init]. *)
Definition tcp_fresh (t : Tcp) : Tcp := mkTcp false false (tcp_resolving t) false [].
Definition stop_reading (t : Tcp) : Tcp :=
  mkTcp (tcp_closing t) false (tcp_resolving t) (tcp_connecting t) (tcp_written t).

(** Runs the state operations of the goal. *)
Ltac run_state :=
  unfold get, getc, upd_conn, upd_tcp, upd_own, upd_dns, when, skip, mbind, M_bind, mret, M_ret; cbn.
