(* ===== verification/Connection.v ===== *)
(** * A TCP and TLS connection: net/connection.c

    The connection as its callbacks drive it: resolve, connect, negotiate a
    tunnel through a proxy, run the TLS handshake over it (with an optional
    0-RTT window), then move bytes both ways. The owner's callbacks are
    arguments; the failing and the succeeding call of [on_ready] are two of
    them ([on_ready_fail], [on_ready_ok]), since only the first is reachable
    from inside a write. *)
From S2P Require Import Prelude String8 DnsCache Proxy.
From S2P Require Export ConnTypes.

(** [strip_host]: without the brackets of an IPv6 literal, cut to [cap - 1]. *)
Definition strip_host (cap : nat) (host : bytes) : bytes :=
  let n := length host in
  let p := if (2 <=? n)%nat && (nth 0 host 0 =? ch_lbrack) && (nth (n - 1) host 0 =? ch_rbrack)
           then take (n - 2) (drop 1 host) else host in
  if (cap - 1 <? length p)%nat then take (cap - 1) p else p.

Definition NBUF_CAP : Z := 2048.

Section connection.
Context `{BoringSSL} {W Own : Type} `{Uv W}.
Abbreviation M := (M W Own).

Definition conn_close : M unit :=
  inited ← getc c_tcp_inited;
  closing ← get (tcp_closing ∘ st_tcp);
  when (inited && negb closing) (upd_tcp set_closing);;
  upd_conn (set_c_state ConnState_Closing).

(** A zeroed connection with its TLS engine and its write ring. *)
Definition conn_zero (ctx : option SSL_CTX) (profile : TlsProfile) (egress : bool) : Connection :=
  mkConn profile (ssl_pump_init ctx) [] 0 ConnState_Idle false false [] None false false false 0 0 0 0 false false None
    (mkProxy ProxyType_None [] 0 [] []) None None pump_zero false [] ProxyPhase_None [] [] 0 egress false false false false.
Definition CONN_EGRESS_CAP : Z := 65536.
Definition conn_init (ctx : option SSL_CTX) (profile : TlsProfile) : M unit :=
  egress ← env (fun w => malloc w CONN_EGRESS_CAP);
  upd_conn (fun _ => conn_zero ctx profile egress).

Definition conn_cleanup : M unit :=
  upd_conn (fun c => set_c_resume_session None (set_c_egress false (set_c_pending [] (set_c_proxy_ctx None
    (set_c_outer (ssl_pump_cleanup (c_outer c)) (set_c_pump (ssl_pump_cleanup (c_pump c)) c)))))).

(** The setters of net/connection.h. *)
Definition conn_set_ech (config : bytes) : M unit := upd_conn (set_c_ech_config config).
Definition conn_set_dns_cache : M unit := upd_conn (set_c_dns_cache true).
Definition conn_set_resume (session : option SSL_SESSION) : M unit := upd_conn (set_c_resume_session session).
Definition conn_set_early_data (on : bool) : M unit := upd_conn (set_c_want_early_data on).
Definition conn_set_proxy (p : ProxyConfig) (ctx : option SSL_CTX) (profile : option TlsProfile) : M unit :=
  upd_conn (set_c_proxy p ∘ set_c_proxy_ctx ctx ∘ set_c_proxy_profile profile).

(** The phases of the set-up in ms, as a request started at [req_start] saw
    them: dns, tcp, tls. *)
Definition conn_timing_ms (c : Connection) (req_start : Z) : Z * Z * Z :=
  if (c_t_established c =? 0) || (c_t_established c <=? req_start) then (0, 0, 0)
  else
    (if c_t_connect_start c <? c_t_resolved c then (c_t_resolved c - c_t_connect_start c) / 1000000 else 0,
     if c_t_resolved c <? c_t_connected c then (c_t_connected c - c_t_resolved c) / 1000000 else 0,
     if c_t_connected c <? c_t_established c then (c_t_established c - c_t_connected c) / 1000000 else 0).

Definition conn_alpn : M bytes := getc (ssl_pump_alpn ∘ c_pump).

(** ** Writing, and failing *)
Section fail.
Context (on_ready_fail : bytes -> M unit).

Definition conn_deliver_fail (err : bytes) : M unit :=
  fired ← getc c_ready_fired;
  if fired : bool then skip
  else upd_conn (set_c_ready_fired true);; on_ready_fail err.

Definition conn_fail (reason : bytes) : M unit :=
  upd_conn (set_c_state ConnState_Failed);; conn_deliver_fail reason.

(** [uv_write]: what it accepts is on its way. *)
Definition conn_submit_write (data : bytes) : M Z :=
  rc ← env (fun w => uv_write w data);
  when (rc =? 0) (upd_tcp (add_written data));;
  mret rc.

Definition conn_raw_write (data : bytes) : M unit :=
  inited ← getc c_tcp_inited;
  closing ← get (tcp_closing ∘ st_tcp);
  if (length data =? 0)%nat || negb inited || closing then skip
  else
    egress ← getc c_egress;
    let len := sizeof_WriteReq + zlen data in
    block ← (if egress : bool then env (fun w => ra_reserve w len) else mret None);
    match block with
    | Some _ =>
        rc ← conn_submit_write data;
        if rc =? 0 then env (fun w => (tt, ra_commit w len))
        else env (fun w => (tt, ra_abort w));; conn_fail (uv_strerror rc)
    | None =>
        ok ← env (fun w => malloc w len);
        if negb ok then conn_fail (lit "out of memory")
        else
          rc ← conn_submit_write data;
          if rc =? 0 then skip else conn_fail (uv_strerror rc)
    end.

(** One round of [conn_pump_to_socket]: [true] to go on. [which] is the engine
    drained: the target's or the proxy's. *)
Definition pump_round (which : bool) : M bool :=
  let read cap := if which then on_outer (fun p => ssl_pump_read_output p cap)
                  else on_pump (fun p => ssl_pump_read_output p cap) in
  inited ← getc c_tcp_inited;
  closing ← get (tcp_closing ∘ st_tcp);
  if negb inited || closing then mret false
  else
    egress ← getc c_egress;
    block ← (if egress : bool then env (fun w => ra_reserve w (sizeof_WriteReq + 1024)) else mret None);
    match block with
    | Some max =>
        out ← read (Z.to_nat (max - sizeof_WriteReq));
        if (length out =? 0)%nat then env (fun w => (tt, ra_abort w));; mret false
        else
          rc ← conn_submit_write out;
          if rc =? 0 then env (fun w => (tt, ra_commit w (sizeof_WriteReq + zlen out)));; mret true
          else env (fun w => (tt, ra_abort w));; conn_fail (uv_strerror rc);; mret false
    | None =>
        out ← read (Z.to_nat 16384);
        if (length out =? 0)%nat then mret false
        else conn_raw_write out;; mret true
    end.
Definition conn_pump_to_socket (which : bool) : M unit := while (pump_round which).
Definition conn_proxy_outer_flush : M unit := conn_pump_to_socket true.

(** Write all of [data] into an engine, as far as it goes. *)
Fixpoint write_all (fuel : nat) (write : bytes -> M Z) (data : bytes) : M bytes :=
  match fuel with
  | O => mret data
  | S fuel =>
      if (length data =? 0)%nat then mret data
      else
        n ← write data;
        if 0 <? n then write_all fuel write (drop (Z.to_nat n) data) else mret data
  end.
Definition outer_write (data : bytes) : M Z := on_outer (fun p => ssl_pump_write_plaintext p data).
Definition inner_write (data : bytes) : M Z := on_pump (fun p => ssl_pump_write_plaintext p data).

(** Through an HTTPS proxy the target's records go out inside the outer TLS. *)
Definition wrap_round : M bool :=
  out ← on_pump (fun p => ssl_pump_read_output p (Z.to_nat 16384));
  if (length out =? 0)%nat then mret false
  else write_all (length out) outer_write out;; mret true.
Definition conn_flush_output : M unit :=
  inited ← getc c_tcp_inited;
  closing ← get (tcp_closing ∘ st_tcp);
  if negb inited || closing then skip
  else
    outer ← getc c_outer_active;
    if negb outer then conn_pump_to_socket false
    else while wrap_round;; conn_proxy_outer_flush.

Definition conn_pending_append (data : bytes) : M unit :=
  if (length data =? 0)%nat then skip
  else
    pending ← getc c_pending;
    cap ← getc c_pending_cap;
    let need := zlen pending + zlen data in
    if cap <? need then
      let ncap := double_until 64 (if cap =? 0 then 4096 else cap) need in
      ok ← env (fun w => malloc w ncap);
      if negb ok then conn_fail (lit "out of memory")
      else upd_conn (set_c_pending (pending ++ data) ∘ set_c_pending_cap ncap)
    else upd_conn (set_c_pending (pending ++ data)).

(** The early-data overflow, once the handshake is done; [false] when not all
    of it could be written. *)
Definition conn_flush_pending : M bool :=
  pending ← getc c_pending;
  if (length pending =? 0)%nat then mret true
  else
    rest ← write_all (length pending) inner_write pending;
    upd_conn (set_c_pending [] ∘ set_c_pending_cap 0);;
    conn_flush_output;;
    mret (length rest =? 0)%nat.

(** The loop of [conn_send_plaintext]: the bytes left, and -1 or -2. *)
Fixpoint send_all (fuel : nat) (data : bytes) : M (bytes * Z) :=
  match fuel with
  | O => mret (data, 0)
  | S fuel =>
      if (length data =? 0)%nat then mret (data, 0)
      else
        n ← inner_write data;
        if 0 <? n then send_all fuel (drop (Z.to_nat n) data) else mret (data, n)
  end.
Definition conn_send_plaintext (data : bytes) : M bool :=
  state ← getc c_state;
  if negb (bool_decide (state = ConnState_Established)) && negb (bool_decide (state = ConnState_EarlyData)) then mret false
  else
    pending ← getc c_pending;
    if negb (length pending =? 0)%nat then conn_pending_append data;; mret true
    else
      r ← send_all (S (length data)) data;
      let '(rest, n) := r in
      if (length rest =? 0)%nat then conn_flush_output;; mret true
      else if n =? -1 then conn_pending_append rest;; conn_flush_output;; mret true
      else mret false.
End fail.

(** ** Driving *)
Section drive.
Context (on_ready_fail : bytes -> M unit) (on_ready_ok on_early_ready on_readable : M unit).
Context (on_closed : option bytes -> M unit).
Abbreviation conn_fail := (conn_fail on_ready_fail).
Abbreviation conn_flush_output := (conn_flush_output on_ready_fail).
Abbreviation conn_raw_write := (conn_raw_write on_ready_fail).

Definition conn_deliver_ok : M unit :=
  fired ← getc c_ready_fired;
  if fired : bool then skip
  else upd_conn (set_c_ready_fired true);; on_ready_ok.

Definition call_early_ready : M unit := set ← getc c_on_early_ready; when set on_early_ready.

Definition conn_drive_handshake : M unit :=
  st ← on_pump ssl_pump_do_handshake;
  conn_flush_output;;
  match st with
  | HsStatus_Done =>
      upd_conn (set_c_state ConnState_Established);;
      t ← getc c_t_established;
      when (t =? 0) (now ← env uv_hrtime; upd_conn (set_c_t_established now));;
      ok ← conn_flush_pending on_ready_fail;
      if negb ok then conn_fail (lit "early-data flush failed")
      else conn_deliver_ok
  | HsStatus_EarlyData =>
      upd_conn (set_c_state ConnState_EarlyData);;
      fired ← getc c_early_fired;
      when (negb fired)
        (upd_conn (set_c_early_fired true);;
         call_early_ready;;
         state ← getc c_state;
         when (bool_decide (state = ConnState_EarlyData)) conn_flush_output)
  | HsStatus_EarlyRejected =>
      upd_conn (set_c_early_rejected true);;
      conn_fail (lit "early data rejected")
  | HsStatus_Error =>
      e ← getc (pump_last_err ∘ c_pump);
      if negb (e =? 0) then conn_fail (ERR_error_string e) else conn_fail (lit "TLS handshake failed")
  | HsStatus_WantIo => skip
  end.

(** *** The tunnel *)
Definition feed_round : M bool :=
  r ← on_outer (fun p => ssl_pump_read_plaintext p (Z.to_nat 16384));
  match r with
  | inl data => if (0 <? length data)%nat
                then on_pump (fun p => (tt, ssl_pump_feed_ciphertext p data));; mret true
                else mret false
  | inr _ => mret false
  end.
Definition conn_transport_feed (data : bytes) : M unit :=
  outer ← getc c_outer_active;
  if negb outer then on_pump (fun p => (tt, ssl_pump_feed_ciphertext p data))
  else on_outer (fun p => (tt, ssl_pump_feed_ciphertext p data));; while feed_round.

Definition conn_proxy_tunnel_ready : M unit :=
  upd_conn (set_c_state ConnState_Handshaking ∘ set_c_proxy_phase ProxyPhase_None ∘ set_c_nbuf []);;
  conn_drive_handshake.

Definition conn_socks5_send_connect : M unit :=
  host ← getc c_host;
  port ← getc c_port;
  match proxy_socks5_connect_request (str8_cstring host) port 300 with
  | None => conn_fail (lit "SOCKS5 target host too long")
  | Some req => upd_conn (set_c_proxy_phase ProxyPhase_Socks5Connect ∘ set_c_nbuf []);; conn_raw_write req
  end.
Definition conn_socks5_send_userpass : M unit :=
  p ← getc c_proxy;
  match proxy_socks5_userpass p 520 with
  | None => conn_fail (lit "SOCKS5 credentials too long")
  | Some req => upd_conn (set_c_proxy_phase ProxyPhase_Socks5Auth ∘ set_c_nbuf []);; conn_raw_write req
  end.

Definition conn_proxy_advance : M unit :=
  phase ← getc c_proxy_phase;
  nbuf ← getc c_nbuf;
  match phase with
  | ProxyPhase_HttpConnect =>
      let r := proxy_http_response_status nbuf in
      if negb (cs_complete r) then
        when (NBUF_CAP <=? zlen nbuf) (conn_fail (lit "proxy CONNECT response too large"))
      else if negb (cs_status r =? 200) then conn_fail (lit "proxy CONNECT refused")
      else conn_proxy_tunnel_ready
  | ProxyPhase_Socks5Greeting =>
      match proxy_socks5_parse_method nbuf with
      | None => skip
      | Some method =>
          if method =? 0 then conn_socks5_send_connect
          else if method =? 2 then conn_socks5_send_userpass
          else conn_fail (lit "SOCKS5 no acceptable auth method")
      end
  | ProxyPhase_Socks5Auth =>
      match proxy_socks5_parse_userpass_reply nbuf with
      | None => skip
      | Some ok => if ok : bool then conn_socks5_send_connect else conn_fail (lit "SOCKS5 authentication failed")
      end
  | ProxyPhase_Socks5Connect =>
      match proxy_socks5_parse_reply nbuf with
      | None => skip
      | Some r => if rp_ok r then conn_proxy_tunnel_ready else conn_fail (lit "SOCKS5 CONNECT failed")
      end
  | ProxyPhase_None => skip
  end.

Definition conn_proxy_consume (data : bytes) : M unit :=
  nbuf ← getc c_nbuf;
  if NBUF_CAP <? zlen nbuf + zlen data then conn_fail (lit "proxy negotiation overflow")
  else upd_conn (set_c_nbuf (nbuf ++ data));; conn_proxy_advance.

Definition negotiate_round : M bool :=
  r ← on_outer (fun p => ssl_pump_read_plaintext p (Z.to_nat 2048));
  match r with
  | inl data => if (0 <? length data)%nat then conn_proxy_consume data;; mret true else mret false
  | inr _ => mret false
  end.
Definition conn_proxy_on_data (data : bytes) : M unit :=
  outer ← getc c_outer_active;
  if negb outer then conn_proxy_consume data
  else on_outer (fun p => (tt, ssl_pump_feed_ciphertext p data));; while negotiate_round.

Definition conn_proxy_send_connect_https : M unit :=
  p ← getc c_proxy;
  host ← getc c_host;
  port ← getc c_port;
  let req := proxy_http_connect_request p (str8_cstring host) port in
  write_all (length req) outer_write req;;
  conn_proxy_outer_flush on_ready_fail;;
  upd_conn (set_c_state ConnState_ProxyNegotiate ∘ set_c_proxy_phase ProxyPhase_HttpConnect ∘ set_c_nbuf []).

Definition conn_proxy_outer_drive : M unit :=
  st ← on_outer ssl_pump_do_handshake;
  conn_proxy_outer_flush on_ready_fail;;
  match st with
  | HsStatus_Done => conn_proxy_send_connect_https
  | HsStatus_Error => conn_fail (lit "proxy TLS handshake failed")
  | _ => skip
  end.

Definition conn_proxy_begin : M unit :=
  upd_conn (set_c_nbuf []);;
  p ← getc c_proxy;
  match px_type p with
  | ProxyType_Socks5 =>
      upd_conn (set_c_state ConnState_ProxyNegotiate ∘ set_c_proxy_phase ProxyPhase_Socks5Greeting);;
      conn_raw_write (default [] (proxy_socks5_greeting p 8))
  | ProxyType_Https =>
      ctx ← getc c_proxy_ctx;
      prof ← getc c_proxy_profile;
      match ctx, prof with
      | Some ctx, Some prof =>
          upd_conn (set_c_outer (ssl_pump_init (Some ctx)));;
          valid ← getc (ssl_pump_valid ∘ c_outer);
          if negb valid then conn_fail (lit "proxy SSL_new failed")
          else
            ok ← on_outer (fun o => ssl_pump_configure o prof (px_host p) [] None);
            if negb ok then conn_fail (lit "proxy configure_ssl failed")
            else
              upd_conn (set_c_state ConnState_ProxyTls ∘ set_c_outer_active true);;
              conn_proxy_outer_drive
      | _, _ => conn_fail (lit "HTTPS proxy has no TLS context")
      end
  | _ =>
      host ← getc c_host;
      port ← getc c_port;
      upd_conn (set_c_state ConnState_ProxyNegotiate ∘ set_c_proxy_phase ProxyPhase_HttpConnect);;
      conn_raw_write (proxy_http_connect_request p (str8_cstring host) port)
  end.

(** *** The libuv callbacks *)
Definition conn_begin_tcp_connect (addr : bytes) : M unit :=
  bind_addr ← getc c_bind_addr;
  brc ← (match bind_addr with Some a => env (fun w => uv_tcp_bind w a) | None => mret 0 end);
  if negb (brc =? 0) then conn_fail (uv_strerror brc)
  else
    rc ← env (fun w => uv_tcp_connect w addr);
    if negb (rc =? 0) then conn_fail (uv_strerror rc)
    else upd_tcp (set_connecting true);; upd_conn (set_c_state ConnState_Connecting).

(** [inl status] is a failed resolution. *)
Definition conn_on_resolved (res : Z + bytes) : M unit :=
  upd_tcp (set_resolving false);;
  match res with
  | inl status => conn_fail (uv_strerror status)
  | inr addr =>
      now ← env uv_hrtime;
      upd_conn (set_c_t_resolved now);;
      cached ← getc c_dns_cache;
      host ← getc c_resolve_host;
      ms ← get (uv_now ∘ st_w);
      when cached (upd_dns (fun dc => dns_cache_put dc host addr ms));;
      conn_begin_tcp_connect addr
  end.

Definition conn_on_connected (status : Z) : M unit :=
  upd_tcp (set_connecting false);;
  if status <? 0 then
    was ← getc c_dns_was_cached;
    cached ← getc c_dns_cache;
    host ← getc c_resolve_host;
    when (was && cached) (upd_dns (fun dc => dns_cache_evict dc host));;
    conn_fail (uv_strerror status)
  else
    now ← env uv_hrtime;
    upd_conn (set_c_t_connected now);;
    upd_tcp set_reading;;
    p ← getc c_proxy;
    match px_type p with
    | ProxyType_None => upd_conn (set_c_state ConnState_Handshaking);; conn_drive_handshake
    | _ => conn_proxy_begin
    end.

(** A read: bytes, the end of the stream, or an error. *)
Inductive read_event := ReadData (data : bytes) | ReadEof | ReadError (status : Z).
Definition conn_read_cb (ev : read_event) : M unit :=
  state ← getc c_state;
  match ev with
  | ReadEof =>
      if bool_decide (state = ConnState_Established) then
        upd_conn (set_c_state ConnState_Closing);;
        set ← getc c_on_closed; when set (on_closed None)
      else conn_fail (lit "connection closed during handshake")
  | ReadError status =>
      if bool_decide (state = ConnState_Established) then
        upd_conn (set_c_state ConnState_Closing);;
        set ← getc c_on_closed; when set (on_closed (Some (uv_strerror status)))
      else conn_fail (uv_strerror status)
  | ReadData data =>
      if (length data =? 0)%nat then skip
      else if bool_decide (state = ConnState_ProxyTls) then
        on_outer (fun p => (tt, ssl_pump_feed_ciphertext p data));; conn_proxy_outer_drive
      else if bool_decide (state = ConnState_ProxyNegotiate) then conn_proxy_on_data data
      else
        conn_transport_feed data;;
        est ← getc (pump_established ∘ c_pump);
        if negb est then conn_drive_handshake
        else
          conn_flush_output;;
          set ← getc c_on_readable; when set on_readable
  end.

Definition conn_on_handle_closed (on_fully_closed : M unit) : M unit :=
  upd_conn (set_c_tcp_inited false);;
  set ← getc c_on_fully_closed; when set on_fully_closed.

(** ** Setting up *)
Definition dns_lookup (host : bytes) (ms : Z) : M (option bytes) :=
  fun s => let '(a, dc) := dns_cache_get (st_dns s) host ms in (a, snd (upd_dns (fun _ => dc) s)).

Definition conn_resolve (host : bytes) (rport : Z) (bind_addr : option bytes) : M unit :=
  upd_conn (set_c_state ConnState_Resolving);;
  let family := match bind_addr with Some b => sockaddr_family b | None => 0 end in
  rc ← env (fun w => uv_getaddrinfo w host rport family);
  if rc =? 0 then upd_tcp (set_resolving true) else conn_fail (uv_strerror rc).
Definition conn_connect (host : bytes) (port : Z) : M unit :=
  proxy ← getc c_proxy;
  let proxying := negb (bool_decide (px_type proxy = ProxyType_None)) in
  upd_conn (set_c_port port ∘ set_c_host (strip_host 256 host) ∘
            set_c_resolve_host (strip_host 256 (if proxying then px_host proxy else host)));;
  let rport := if proxying then px_port proxy else port in
  upd_tcp tcp_fresh;;
  upd_conn (set_c_tcp_inited true);;
  valid ← getc (ssl_pump_valid ∘ c_pump);
  if negb valid then conn_deliver_fail on_ready_fail (lit "SSL_new failed")
  else
    prof ← getc c_profile;
    tls_host ← getc c_host;
    ech ← getc c_ech_config;
    session ← getc c_resume_session;
    ok ← on_pump (fun p => ssl_pump_configure p prof tls_host ech session);
    if negb ok then conn_deliver_fail on_ready_fail (lit "configure_ssl failed")
    else
      want ← getc c_want_early_data;
      when want (e ← on_pump (fun p => ssl_pump_enable_early_data p session); upd_conn (set_c_want_early_data e));;
      now ← env uv_hrtime;
      upd_conn (set_c_t_connect_start now);;
      cached ← getc c_dns_cache;
      rhost ← getc c_resolve_host;
      bind_addr ← getc c_bind_addr;
      ms ← get (uv_now ∘ st_w);
      hit ← (if cached : bool then dns_lookup rhost ms else mret None);
      match hit with
      | Some ss =>
          if (match bind_addr with Some b => sockaddr_family ss =? sockaddr_family b | None => true end) then
            now ← env uv_hrtime;
            upd_conn (set_c_t_resolved now ∘ set_c_dns_was_cached true);;
            conn_begin_tcp_connect (sockaddr_set_port ss rport)
          else conn_resolve rhost rport bind_addr
      | None => conn_resolve rhost rport bind_addr
      end.
End drive.
End connection.

(** ** Invariants of the owner

    What an owner can rely on: a predicate that only looks at its own state,
    at whether the handle is closing and at two flags of the connection is
    kept by everything the connection does, as long as the callbacks keep it. *)
Section keeps.
Context `{BoringSSL} {W Own : Type} `{Uv W}.
Abbreviation M := (M W Own).
Implicit Types s : St W Own.

Definition view s : Own * bool * bool * bool :=
  (st_own s, tcp_closing (st_tcp s), c_ready_fired (st_conn s), c_on_early_ready (st_conn s)).

Definition keeps {A} (I : St W Own -> Prop) (m : M A) : Prop := forall s, I s -> I (snd (m s)).
Definition neutral {A} (m : M A) : Prop := forall s, view (snd (m s)) = view s.

Context (I : St W Own -> Prop) (Hview : forall s s', view s = view s' -> I s -> I s').

Lemma keeps_neutral {A} (m : M A) : neutral m -> keeps I m.
Proof. intros Hn s HI. by apply (Hview s); [rewrite Hn|]. Qed.

Lemma keeps_ret {A} (x : A) : keeps I (mret x).
Proof. by intros s. Qed.
Lemma keeps_get {A} (f : St W Own -> A) : keeps I (get f).
Proof. by intros s. Qed.
Lemma keeps_getc {A} (f : Connection -> A) : keeps I (getc f).
Proof. by intros s. Qed.
Lemma keeps_bind {A B} (m : M A) (f : A -> M B) : keeps I m -> (forall x, keeps I (f x)) -> keeps I (m ≫= f).
Proof.
  intros Hm Hf s HI. unfold mbind, M_bind. specialize (Hm s HI). destruct (m s) as [x s']. by apply Hf.
Qed.
Lemma keeps_seq {A} (m : M unit) (k : M A) : keeps I m -> keeps I k -> keeps I (m ;; k).
Proof. intros Hm Hk. apply keeps_bind; [done|]. by intros _. Qed.
Lemma keeps_when b (m : M unit) : keeps I m -> keeps I (when b m).
Proof. intros Hm. destruct b; [done|]. by intros s. Qed.
Lemma keeps_env {A} (f : W -> A * W) : keeps I (env f).
Proof. apply keeps_neutral. intros s. unfold env. by destruct (f (st_w s)). Qed.
Lemma keeps_on_pump {A} (f : SslPump -> A * SslPump) : keeps I (on_pump f).
Proof. apply keeps_neutral. intros s. unfold on_pump. by destruct (f (c_pump (st_conn s))). Qed.
Lemma keeps_on_outer {A} (f : SslPump -> A * SslPump) : keeps I (on_outer f).
Proof. apply keeps_neutral. intros s. unfold on_outer. by destruct (f (c_outer (st_conn s))). Qed.
Lemma keeps_upd_dns f : keeps I (upd_dns f).
Proof. apply keeps_neutral. by intros s. Qed.
Lemma keeps_upd_conn (f : Connection -> Connection) :
  (forall c, c_ready_fired (f c) = c_ready_fired c /\ c_on_early_ready (f c) = c_on_early_ready c) -> keeps I (upd_conn f).
Proof. intros Hf. apply keeps_neutral. intros s. unfold view. cbn. by destruct (Hf (st_conn s)) as [-> ->]. Qed.
Lemma keeps_upd_tcp (f : Tcp -> Tcp) : (forall t, tcp_closing (f t) = tcp_closing t) -> keeps I (upd_tcp f).
Proof. intros Hf. apply keeps_neutral. intros s. unfold view. cbn. by rewrite Hf. Qed.
Lemma keeps_while (round : M bool) : keeps I round -> keeps I (while round).
Proof.
  intros Hr s HI. unfold while.
  set (step := fun s : St W Own => match round s with (true, s') => inl s' | (false, s') => inr s' end).
  assert (Hs : forall s, I s -> match step s with inl s' => I s' | inr r => I r end).
  { intros s1 H1. specialize (Hr s1 H1). unfold step. destruct (round s1) as [b s']. by destruct b. }
  pose proof (loop_pow_inv step I I Hs 64%nat s HI) as Hl. by destruct (loop_pow 64 step s).
Qed.
End keeps.

Create HintDb keeps.
(** Decomposes a computation down to the callbacks. *)
Ltac keep_step :=
  match goal with
  | |- keeps _ (mret _) => apply keeps_ret
  | |- keeps _ skip => apply keeps_ret
  | |- keeps _ (get _) => apply keeps_get
  | |- keeps _ (getc _) => apply keeps_getc
  | |- keeps _ (env _) => apply keeps_env; solve [eauto with keeps]
  | |- keeps _ (on_pump _) => apply keeps_on_pump; solve [eauto with keeps]
  | |- keeps _ (on_outer _) => apply keeps_on_outer; solve [eauto with keeps]
  | |- keeps _ (upd_dns _) => apply keeps_upd_dns; solve [eauto with keeps]
  | |- keeps _ (upd_conn _) => apply keeps_upd_conn; [solve [eauto with keeps]|by intros []]
  | |- keeps _ (upd_tcp _) => apply keeps_upd_tcp; [solve [eauto with keeps]|by intros []]
  | |- keeps _ (when _ _) => apply keeps_when
  | |- keeps _ (while _) => apply keeps_while
  | |- keeps _ (_ ≫= _) => apply keeps_bind; [|intros ?]
  | |- keeps _ (if ?b then _ else _) => destruct b
  | |- keeps _ (match ?x with _ => _ end) => destruct x
  | |- keeps _ (let '(_, _) := ?x in _) => destruct x
  end.
Ltac keep := repeat (first [solve [eauto with keeps]|keep_step]).

Section fail_keeps.
Context `{BoringSSL} {W Own : Type} `{Uv W}.
Context (I : St W Own -> Prop) (Hview : forall s s', view s = view s' -> I s -> I s').
Context (on_ready_fail : bytes -> M W Own unit).
Context (Hfail : forall e, keeps I (conn_deliver_fail on_ready_fail e)).

Lemma conn_fail_keeps e : keeps I (conn_fail on_ready_fail e).
Proof. unfold conn_fail. keep. Qed.
Hint Resolve conn_fail_keeps : keeps.

Lemma conn_submit_write_keeps data : keeps I (conn_submit_write data).
Proof. unfold conn_submit_write. keep. Qed.
Hint Resolve conn_submit_write_keeps : keeps.

Lemma conn_raw_write_keeps data : keeps I (conn_raw_write on_ready_fail data).
Proof. unfold conn_raw_write. keep. Qed.
Hint Resolve conn_raw_write_keeps : keeps.

Lemma conn_pump_to_socket_keeps which : keeps I (conn_pump_to_socket on_ready_fail which).
Proof. unfold conn_pump_to_socket, pump_round. keep. Qed.
Hint Resolve conn_pump_to_socket_keeps : keeps.

Lemma write_all_keeps fuel (write : bytes -> M W Own Z) data :
  (forall d, keeps I (write d)) -> keeps I (write_all fuel write data).
Proof. intros Hw. revert data. induction fuel as [|fuel IH]; intros data; cbn [write_all]; keep. Qed.

Lemma send_all_keeps fuel data : keeps I (send_all fuel data).
Proof. revert data. induction fuel as [|fuel IH]; intros data; cbn [send_all]; unfold inner_write; keep. Qed.
Hint Resolve send_all_keeps : keeps.

Lemma conn_flush_output_keeps : keeps I (conn_flush_output on_ready_fail).
Proof.
  unfold conn_flush_output, wrap_round, conn_proxy_outer_flush. keep. apply write_all_keeps. unfold outer_write. intros. keep.
Qed.
Hint Resolve conn_flush_output_keeps : keeps.

Lemma conn_pending_append_keeps data : keeps I (conn_pending_append on_ready_fail data).
Proof. unfold conn_pending_append. keep. Qed.
Hint Resolve conn_pending_append_keeps : keeps.

Lemma conn_flush_pending_keeps : keeps I (conn_flush_pending on_ready_fail).
Proof. unfold conn_flush_pending. keep. apply write_all_keeps. unfold inner_write. intros. keep. Qed.
Hint Resolve conn_flush_pending_keeps : keeps.

Lemma conn_send_plaintext_keeps data : keeps I (conn_send_plaintext on_ready_fail data).
Proof. unfold conn_send_plaintext. keep. Qed.
End fail_keeps.
#[export] Hint Resolve conn_fail_keeps conn_submit_write_keeps conn_raw_write_keeps conn_pump_to_socket_keeps
  send_all_keeps conn_flush_output_keeps conn_pending_append_keeps conn_flush_pending_keeps conn_send_plaintext_keeps : keeps.

Section drive_keeps.
Context `{BoringSSL} {W Own : Type} `{Uv W}.
Context (I : St W Own -> Prop) (Hview : forall s s', view s = view s' -> I s -> I s').
Context (on_ready_fail : bytes -> M W Own unit) (on_ready_ok on_early_ready on_readable : M W Own unit).
Context (on_closed : option bytes -> M W Own unit).
Context (Hfail : forall e, keeps I (conn_deliver_fail on_ready_fail e)).
Context (Hok : keeps I (conn_deliver_ok on_ready_ok)).
Context (Hearly : keeps I (call_early_ready on_early_ready)).
Context (Hread : keeps I on_readable) (Hclosed : forall e, keeps I (on_closed e)).

Abbreviation drive := (conn_drive_handshake on_ready_fail on_ready_ok on_early_ready).
Lemma conn_drive_handshake_keeps : keeps I drive.
Proof. unfold conn_drive_handshake. keep. Qed.
Hint Resolve conn_drive_handshake_keeps : keeps.

Lemma conn_transport_feed_keeps data : keeps I (conn_transport_feed data).
Proof. unfold conn_transport_feed, feed_round. keep. Qed.
Hint Resolve conn_transport_feed_keeps : keeps.

Lemma conn_proxy_advance_keeps : keeps I (conn_proxy_advance on_ready_fail on_ready_ok on_early_ready).
Proof.
  unfold conn_proxy_advance, conn_proxy_tunnel_ready, conn_socks5_send_connect, conn_socks5_send_userpass. keep.
Qed.
Hint Resolve conn_proxy_advance_keeps : keeps.

Lemma conn_proxy_on_data_keeps data : keeps I (conn_proxy_on_data on_ready_fail on_ready_ok on_early_ready data).
Proof. unfold conn_proxy_on_data, negotiate_round, conn_proxy_consume. keep. Qed.
Hint Resolve conn_proxy_on_data_keeps : keeps.

Lemma conn_proxy_outer_drive_keeps : keeps I (conn_proxy_outer_drive on_ready_fail).
Proof.
  unfold conn_proxy_outer_drive, conn_proxy_send_connect_https, conn_proxy_outer_flush. keep.
  apply write_all_keeps. unfold outer_write. intros. keep.
Qed.
Hint Resolve conn_proxy_outer_drive_keeps : keeps.

Lemma conn_proxy_begin_keeps : keeps I (conn_proxy_begin on_ready_fail).
Proof. unfold conn_proxy_begin. keep. Qed.
Hint Resolve conn_proxy_begin_keeps : keeps.

Lemma conn_begin_tcp_connect_keeps addr : keeps I (conn_begin_tcp_connect on_ready_fail addr).
Proof. unfold conn_begin_tcp_connect. keep. Qed.
Hint Resolve conn_begin_tcp_connect_keeps : keeps.

Lemma conn_on_resolved_keeps res : keeps I (conn_on_resolved on_ready_fail res).
Proof. unfold conn_on_resolved. keep. Qed.

Lemma conn_on_connected_keeps status : keeps I (conn_on_connected on_ready_fail on_ready_ok on_early_ready status).
Proof. unfold conn_on_connected. keep. Qed.

Lemma conn_read_cb_keeps ev : keeps I (conn_read_cb on_ready_fail on_ready_ok on_early_ready on_readable on_closed ev).
Proof. unfold conn_read_cb. keep. Qed.

Lemma dns_lookup_keeps host ms : keeps I (dns_lookup host ms).
Proof. apply keeps_neutral; [done|]. intros s. unfold dns_lookup. by destruct (dns_cache_get _ _ _). Qed.
Hint Resolve dns_lookup_keeps : keeps.

Lemma conn_connect_keeps host port : keeps I (upd_tcp tcp_fresh) -> keeps I (conn_connect on_ready_fail host port).
Proof. intros Hfresh. unfold conn_connect, conn_resolve. keep. Qed.
End drive_keeps.
#[export] Hint Resolve conn_drive_handshake_keeps conn_on_resolved_keeps conn_on_connected_keeps conn_read_cb_keeps
  conn_connect_keeps : keeps.
