(* ===== verification/TcpRequest.v ===== *)
(** * One request over TCP: core/client.c, [H2Request]

    The owner of a connection for a single HTTP/2 or HTTP/1.1 request: it
    connects (offering a cached ticket, ECH and 0-RTT where they apply), hands
    the request to the protocol session ALPN chose, delivers the one response
    or error, tears the connection down, and reconnects once when the server
    refuses 0-RTT. HTTP/1.1 is [H1]; HTTP/2 is the interface [H2Api]. What the
    caller can see is recorded in a log. *)
From stdpp Require Import relations.
From S2P Require Import Prelude String8 GrowArr Header Url Redirect AltSvc OriginCache DnsCache Proxy ReqHeaders H1.
From S2P Require Export Connection.

Inductive HttpVersion := HttpVersion_Auto | HttpVersion_H1 | HttpVersion_H2 | HttpVersion_H3.
#[export] Instance HttpVersion_eq_dec : EqDecision HttpVersion.
Proof. solve_decision. Defined.

(** What a protocol session does during a call: bytes for the connection,
    a chunk of a streamed body, the response. *)
Inductive SessOut :=
| OutSend (data : bytes)
| OutChunk (data : bytes)
| OutResponse (status : Z) (headers : list Header) (body : bytes) (ok : bool).

Class H2Api := {
  H2Session : Type;
  h2_session_alloc : option H2Session;
  h2_session_start : H2Session -> bool * H2Session * list SessOut;
  h2_session_submit_request : H2Session -> bytes -> bytes -> bytes -> bytes -> list Header -> bytes -> bool -> Z * H2Session * list SessOut;
  h2_session_recv : H2Session -> bytes -> Z * H2Session * list SessOut
}.
(** picohttpparser, for [H1]. *)
Class PhrApi := {
  phr_chunk : Type;
  phr_chunk_zero : phr_chunk;
  phr_consume_trailer : phr_chunk -> phr_chunk;
  phr_parse : bytes -> nat -> nat -> phr_result;
  phr_decode : phr_chunk -> bytes -> phr_chunk * bytes * chunk_result
}.

(** The trace of a request: an attempt to connect (with 0-RTT or not), the
    request handed to the session, a chunk and the outcome handed to the
    caller, the end of the request's memory. *)
Inductive Delivery := DeliverResponse (r : Response) (alpn : bytes) | DeliverError (err : bytes).
Inductive LogEntry :=
| LogConnect (early : bool)
| LogSubmit
| LogChunk (data : bytes)
| LogDeliver (d : Delivery)
| LogFree.

Definition origin_of (pu : ParsedUrl) : bytes := str8_cstring (host pu ++ [0]) ++ [ch_colon] ++ pct_u (port pu).

Section types.
Context `{BoringSSL} `{H2Api} `{PhrApi}.

(** The parts of the [Client] a request uses. *)
Record Client := mkClient {
  cl_ctx : option SSL_CTX;
  cl_tls : TlsProfile;
  cl_h1_tls : TlsProfile;
  cl_default_headers : list DefaultHeader;
  cl_fetch_order : list bytes;
  cl_proxy_ctx : option SSL_CTX;
  cl_proxy_tls : option TlsProfile;
  cl_local_address : option bytes;
  cl_header_order : list bytes;
  cl_override_default_headers : bool;
  cl_resume_enabled : bool;
  cl_early_data_enabled : bool;
  cl_ech_enabled : bool;
  cl_pre_hook : list (bytes * bytes);    (* the calls of the request hook *)
  cl_resume_cache : list (ResumeCacheEntry SSL_SESSION);
  cl_ech_cache : list EchConfigEntry;
  cl_alt_svc : list AltSvcEntry
}.
Definition set_resume_cache (l : list (ResumeCacheEntry SSL_SESSION)) (c : Client) : Client :=
  mkClient (cl_ctx c) (cl_tls c) (cl_h1_tls c) (cl_default_headers c) (cl_fetch_order c) (cl_proxy_ctx c) (cl_proxy_tls c)
    (cl_local_address c) (cl_header_order c) (cl_override_default_headers c) (cl_resume_enabled c) (cl_early_data_enabled c)
    (cl_ech_enabled c) (cl_pre_hook c) l (cl_ech_cache c) (cl_alt_svc c).
Definition set_alt_svc (l : list AltSvcEntry) (c : Client) : Client :=
  mkClient (cl_ctx c) (cl_tls c) (cl_h1_tls c) (cl_default_headers c) (cl_fetch_order c) (cl_proxy_ctx c) (cl_proxy_tls c)
    (cl_local_address c) (cl_header_order c) (cl_override_default_headers c) (cl_resume_enabled c) (cl_early_data_enabled c)
    (cl_ech_enabled c) (cl_pre_hook c) (cl_resume_cache c) (cl_ech_cache c) l.

Inductive ProtoSession := NoSession | SessH2 (s : H2Session) | SessH1 (s : H1Session phr_chunk).

(** What does not change during the request. *)
Record ReqParams := mkReqParams {
  rp_method : Method;
  rp_url : bytes;
  rp_parsed : ParsedUrl;
  rp_version : HttpVersion;
  rp_proxy : ProxyConfig;
  rp_headers : HeaderList;
  rp_body : bytes;
  rp_on_chunk : bool
}.
Record H2Request := mkH2Request {
  q_params : ReqParams;
  q_session : ProtoSession;
  q_responded : bool;
  q_closing : bool;
  q_submitted : bool;
  q_retrying : bool;
  q_retried_no_early : bool;
  q_timer : bool;        (* the deadline timer is armed *)
  q_freed : bool;        (* the arena that holds the request was recycled *)
  q_client : Client;
  q_log : list LogEntry
}.

Definition idempotent (m : Method) : bool := match m with Method_GET | Method_HEAD => true | _ => false end.
Definition req_origin (q : H2Request) : bytes := origin_of (rp_parsed (q_params q)).

Definition set_session (v : ProtoSession) (q : H2Request) : H2Request :=
  mkH2Request (q_params q) v (q_responded q) (q_closing q) (q_submitted q) (q_retrying q) (q_retried_no_early q)
    (q_timer q) (q_freed q) (q_client q) (q_log q).
Definition set_responded (q : H2Request) : H2Request :=
  mkH2Request (q_params q) (q_session q) true (q_closing q) (q_submitted q) (q_retrying q) (q_retried_no_early q)
    (q_timer q) (q_freed q) (q_client q) (q_log q).
Definition set_q_closing (v : bool) (q : H2Request) : H2Request :=
  mkH2Request (q_params q) (q_session q) (q_responded q) v (q_submitted q) (q_retrying q) (q_retried_no_early q)
    (q_timer q) (q_freed q) (q_client q) (q_log q).
Definition set_submitted (v : bool) (q : H2Request) : H2Request :=
  mkH2Request (q_params q) (q_session q) (q_responded q) (q_closing q) v (q_retrying q) (q_retried_no_early q)
    (q_timer q) (q_freed q) (q_client q) (q_log q).
Definition set_retry (retrying retried : bool) (q : H2Request) : H2Request :=
  mkH2Request (q_params q) (q_session q) (q_responded q) (q_closing q) (q_submitted q) retrying retried
    (q_timer q) (q_freed q) (q_client q) (q_log q).
Definition set_timer (v : bool) (q : H2Request) : H2Request :=
  mkH2Request (q_params q) (q_session q) (q_responded q) (q_closing q) (q_submitted q) (q_retrying q) (q_retried_no_early q)
    v (q_freed q) (q_client q) (q_log q).
Definition set_freed (q : H2Request) : H2Request :=
  mkH2Request (q_params q) (q_session q) (q_responded q) (q_closing q) (q_submitted q) (q_retrying q) (q_retried_no_early q)
    (q_timer q) true (q_client q) (q_log q).
Definition set_client (v : Client) (q : H2Request) : H2Request :=
  mkH2Request (q_params q) (q_session q) (q_responded q) (q_closing q) (q_submitted q) (q_retrying q) (q_retried_no_early q)
    (q_timer q) (q_freed q) v (q_log q).
Definition log (e : LogEntry) (q : H2Request) : H2Request :=
  mkH2Request (q_params q) (q_session q) (q_responded q) (q_closing q) (q_submitted q) (q_retrying q) (q_retried_no_early q)
    (q_timer q) (q_freed q) (q_client q) (q_log q ++ [e]).
End types.

Section request.
Context `{BoringSSL} `{H2Api} `{PhrApi} {W : Type} `{Uv W}.
Context (copy_without_early_data : SSL_SESSION -> option SSL_SESSION).
Context (decode_content : bytes -> bytes -> option bytes).
(** [inet_pton] into a socket address, by family. *)
Context (inet_pton : bool -> bytes -> option bytes).
Abbreviation M := (M W H2Request).

Definition getq {A} (f : H2Request -> A) : M A := get (f ∘ st_own).

(** ** Ending *)
Definition h2req_deliver_error (err : bytes) : M unit :=
  responded ← getq q_responded;
  if responded : bool then skip
  else upd_own (log (LogDeliver (DeliverError err)) ∘ set_responded).

Definition h2req_finish : M unit :=
  closing ← getq q_closing;
  if closing : bool then skip
  else upd_own (set_q_closing true);; conn_close.

Definition h2req_on_timeout : M unit := h2req_deliver_error (lit "timeout");; h2req_finish.

Definition h2req_on_ready_fail (err : bytes) : M unit :=
  rejected ← getc c_early_rejected;
  retried ← getq q_retried_no_early;
  if rejected && negb retried then
    upd_own (set_retry true true);;
    upd_own (fun q => set_client (set_resume_cache
      (resume_cache_strip_early copy_without_early_data (cl_resume_cache (q_client q)) (req_origin q)) (q_client q)) q);;
    conn_close
  else h2req_deliver_error err;; h2req_finish.

(** ** Responses *)
Fixpoint alt_svc_of (headers : list Header) : option bytes :=
  match headers with
  | [] => None
  | h :: headers' => if str8_match_ci (h_name h) (lit "alt-svc") then Some (h_value h) else alt_svc_of headers'
  end.

Definition tcp_deliver (status : Z) (headers : list Header) (body : bytes) (ok : bool) (alpn : bytes) : M unit :=
  responded ← getq q_responded;
  if responded : bool then skip
  else
    upd_own set_responded;;
    now ← get (uv_now ∘ st_w);
    (match alt_svc_of headers with
     | Some v => upd_own (fun q => set_client (set_alt_svc
                   (client_note_alt_svc (cl_alt_svc (q_client q)) (req_origin q) v now) (q_client q)) q)
     | None => skip
     end);;
    let resp := response_decode_encoding decode_content (mkResponse ok status headers body) in
    on_chunk ← getq (rp_on_chunk ∘ q_params);
    let streamed := on_chunk && (0 <? length (Redirect.r_body resp))%nat in
    when streamed (upd_own (log (LogChunk (Redirect.r_body resp))));;
    let resp := if streamed then mkResponse (Redirect.r_ok resp) (Redirect.r_status resp) (Redirect.r_headers resp) []
                else resp in
    upd_own (log (LogDeliver (DeliverResponse resp alpn)));;
    h2req_finish.

(** ** The protocol session *)
Abbreviation conn_send := (conn_send_plaintext h2req_on_ready_fail).
Definition run_out (alpn : bytes) (o : SessOut) : M unit :=
  match o with
  | OutSend data => sent ← conn_send data; skip
  | OutChunk data => upd_own (log (LogChunk data))
  | OutResponse status headers body ok => tcp_deliver status headers body ok alpn
  end.
Fixpoint run_outs (alpn : bytes) (os : list SessOut) : M unit :=
  match os with
  | [] => skip
  | o :: os => run_out alpn o;; run_outs alpn os
  end.

(** What an HTTP/1.1 session did during a call. *)
Definition h1_outs (s s' : H1Session phr_chunk) : list SessOut :=
  (OutSend <$> drop (length (h1_sent s)) (h1_sent s')) ++
  ((fun r => OutResponse (H1.r_status r) (ga_list (H1.r_headers r)) (H1.r_body r) (H1.r_ok r)) <$>
     drop (length (h1_out s)) (h1_out s')).

(** One round of [h2req_drain]: [true] to go on. *)
Definition drain_round : M bool :=
  r ← on_pump (fun p => ssl_pump_read_plaintext p (Z.to_nat 16384));
  match r with
  | inr _ => mret false
  | inl data =>
      if (length data =? 0)%nat then mret false
      else
        session ← getq q_session;
        match session with
        | NoSession => mret false
        | SessH2 s =>
            let '(rc, s', outs) := h2_session_recv s data in
            upd_own (set_session (SessH2 s'));;
            run_outs (lit "h2") outs;;
            if rc <? 0 then h2req_deliver_error (lit "h2 protocol error");; h2req_finish;; mret false
            else closing ← getq q_closing; mret (negb closing)
        | SessH1 s =>
            let '(rc, s') := h1_session_recv phr_consume_trailer phr_parse phr_decode s data in
            upd_own (set_session (SessH1 s'));;
            run_outs (lit "http/1.1") (h1_outs s s');;
            match rc with
            | None => h2req_deliver_error (lit "h1 parse error");; h2req_finish;; mret false
            | Some _ => closing ← getq q_closing; mret (negb closing)
            end
        end
  end.
Definition h2req_drain : M unit :=
  closing ← getq q_closing;
  if closing : bool then skip else while drain_round.

Definition h2req_send_request : M bool :=
  alpn ← conn_alpn;
  p ← getq q_params;
  c ← getq q_client;
  let method := method_str (rp_method p) in
  let pu := rp_parsed p in
  let fail err := h2req_deliver_error (lit err);; h2req_finish;; mret false in
  if str8_match alpn (lit "h2") then
    match h2_session_alloc with
    | None => fail "h2 session init failed"%string
    | Some s =>
        let '(ok, s, outs) := h2_session_start s in
        upd_own (set_session (SessH2 s));;
        run_outs (lit "h2") outs;;
        if negb ok then fail "h2 session init failed"%string
        else
          upd_conn (set_c_on_readable true);;
          let '(sid, s, outs) := h2_session_submit_request s method (scheme pu) (authority pu) (path pu)
                                   (ga_list (rp_headers p)) (rp_body p) (rp_on_chunk p) in
          upd_own (set_session (SessH2 s));;
          run_outs (lit "h2") outs;;
          if sid <? 0 then fail "submit failed"%string
          else upd_own (set_submitted true ∘ log LogSubmit);; mret true
    end
  else
    let h1_headers := build_h1_headers (cl_default_headers c) (ga_list (rp_headers p)) in
    let s := h1_session_alloc phr_chunk_zero in
    upd_conn (set_c_on_readable true);;
    let '(rc, s') := h1_session_submit_request s method (authority pu) (path pu) (ga_list h1_headers) (rp_body p)
                       (str8_match method (lit "HEAD")) true in
    upd_own (set_session (SessH1 s'));;
    run_outs (lit "http/1.1") (h1_outs s s');;
    if rc <? 0 then fail "submit failed"%string
    else upd_own (set_submitted true ∘ log LogSubmit);; mret true.

Definition h2req_on_early_ready : M unit := sent ← h2req_send_request; skip.

Definition h2req_on_ready_ok : M unit :=
  submitted ← getq q_submitted;
  sent ← (if submitted : bool then mret true else h2req_send_request);
  if negb sent then skip else h2req_drain.

Definition h2req_on_closed (e : option bytes) : M unit :=
  responded ← getq q_responded;
  session ← getq q_session;
  (match session with
   | SessH1 s =>
       when (negb responded)
         (let s' := h1_session_eof s in
          upd_own (set_session (SessH1 s'));; run_outs (lit "http/1.1") (h1_outs s s'))
   | _ => skip
   end);;
  responded ← getq q_responded;
  if responded : bool then skip
  else h2req_deliver_error (default (lit "connection closed") e);; h2req_finish.

(** ** Connecting *)
Definition ip_literal_to_sockaddr (ip : bytes) : option bytes :=
  if (length ip =? 0)%nat || (64 <=? length ip)%nat then None
  else inet_pton (match str8_index_of ip ch_colon with Some _ => true | None => false end) ip.
Definition conn_set_local_address (ip : bytes) : M unit :=
  match ip_literal_to_sockaddr ip with
  | Some a => upd_conn (set_c_bind_addr (Some a))
  | None => skip
  end.

Definition h2req_connect (allow_early : bool) : M unit :=
  c ← getq q_client;
  p ← getq q_params;
  origin ← getq req_origin;
  now ← get (uv_now ∘ st_w);
  conn_init (cl_ctx c) (if bool_decide (rp_version p = HttpVersion_H1) then cl_h1_tls c else cl_tls c);;
  upd_conn (set_c_on_fully_closed true ∘ set_c_on_closed true);;
  conn_set_dns_cache;;
  (match cl_local_address c with Some ip => conn_set_local_address (str8_cstring ip) | None => skip end);;
  when (negb (bool_decide (px_type (rp_proxy p) = ProxyType_None)))
    (conn_set_proxy (rp_proxy p) (cl_proxy_ctx c) (cl_proxy_tls c));;
  when (cl_ech_enabled c)
    (match ech_cache_get (cl_ech_cache c) origin now with
     | Some e => when (0 <? length (ee_config e))%nat (conn_set_ech (ee_config e))
     | None => skip
     end);;
  early ← (if cl_resume_enabled c then
             let '(sess, cache) := resume_cache_get (cl_resume_cache c) origin now in
             upd_own (fun q => set_client (set_resume_cache cache (q_client q)) q);;
             conn_set_resume sess;;
             let early := allow_early && cl_early_data_enabled c && idempotent (rp_method p) &&
                          (length (rp_body p) =? 0)%nat && (match sess with Some _ => true | None => false end) in
             when early (conn_set_early_data true;; upd_conn (set_c_on_early_ready true));;
             mret early
           else mret false);
  upd_own (log (LogConnect early));;
  conn_connect h2req_on_ready_fail (str8_cstring (host (rp_parsed p) ++ [0])) (port (rp_parsed p)).

Definition h2req_on_fully_closed : M unit :=
  upd_own (set_session NoSession);;
  conn_cleanup;;
  retrying ← getq q_retrying;
  if retrying : bool then
    upd_own (fun q => set_submitted false (set_q_closing false (set_retry false (q_retried_no_early q) q)));;
    h2req_connect false
  else upd_own (set_freed ∘ log LogFree ∘ set_timer false).

(** ** The loop *)
Inductive event :=
| EvResolved (res : Z + bytes)
| EvConnected (status : Z)
| EvRead (ev : read_event)
| EvTimeout
| EvHandleClosed.

Definition handle (ev : event) : M unit :=
  match ev with
  | EvResolved res => conn_on_resolved h2req_on_ready_fail res
  | EvConnected status => conn_on_connected h2req_on_ready_fail h2req_on_ready_ok h2req_on_early_ready status
  | EvRead ev =>
      (match ev with ReadData _ => skip | _ => upd_tcp stop_reading end);;
      conn_read_cb h2req_on_ready_fail h2req_on_ready_ok h2req_on_early_ready h2req_drain h2req_on_closed ev
  | EvTimeout => upd_own (set_timer false);; h2req_on_timeout
  | EvHandleClosed => conn_on_handle_closed h2req_on_fully_closed
  end.

(** When libuv can make the call: a request in flight, a handle that reads, a
    timer that runs; a closing handle calls back once its own requests have. *)
Definition enabled (ev : event) (s : St W H2Request) : bool :=
  match ev with
  | EvResolved _ => tcp_resolving (st_tcp s)
  | EvConnected status => tcp_connecting (st_tcp s)
  | EvRead _ => tcp_reading (st_tcp s) && negb (tcp_closing (st_tcp s))
  | EvTimeout => q_timer (st_own s)
  | EvHandleClosed => c_tcp_inited (st_conn s) && tcp_closing (st_tcp s) && negb (tcp_connecting (st_tcp s))
  end.

(** A step; after the request's memory is gone there is none. *)
Inductive step : St W H2Request -> St W H2Request -> Prop :=
| step_event ev s :
    q_freed (st_own s) = false -> enabled ev s = true -> step s (snd (handle ev s)).

(** [h2req_start]: the state before [h2req_connect], or the error of a URL that
    is not an https one. *)
Definition h2req_start (c : Client) (m : Method) (url : bytes) (headers : list Header) (body : bytes)
    (deadline : bool) (proxy : ProxyConfig) (on_chunk : bool) (header_order : bytes) (version : HttpVersion) : M unit :=
  let pu := url_parse url in
  let req hs b :=
    mkH2Request (mkReqParams m url pu version proxy hs b on_chunk) NoSession false false false false false false false c [] in
  if negb (ok pu) || negb (https pu) then
    upd_own (fun _ => set_freed (log LogFree (log (LogDeliver (DeliverError (lit "invalid or non-https URL")))
      (set_responded (req header_list_init [])))))
  else
    let '(hs, b) := build_request_headers (cl_default_headers c) headers body (cl_override_default_headers c) m in
    let hs := client_run_pre_hook (cl_pre_hook c) hs in
    let hs := apply_header_order (cl_header_order c) (cl_override_default_headers c) hs header_order (cl_fetch_order c) in
    upd_own (fun _ => set_timer deadline (req hs b));;
    h2req_connect true.
End request.

(** ** The invariant of a request *)
Definition is_deliver (e : LogEntry) : bool := match e with LogDeliver _ => true | _ => false end.
Definition is_submit (e : LogEntry) : bool := match e with LogSubmit => true | _ => false end.
Definition is_free (e : LogEntry) : bool := match e with LogFree => true | _ => false end.
Definition count (p : LogEntry -> bool) (l : list LogEntry) : nat := length (filter (fun e => p e = true) l).
Definition connects (l : list LogEntry) : list bool :=
  omap (fun e => match e with LogConnect b => Some b | _ => None end) l.

#[local] Arguments count : simpl never.
#[local] Arguments connects : simpl never.

Lemma count_app p l l' : count p (l ++ l') = (count p l + count p l')%nat.
Proof. unfold count. by rewrite filter_app, length_app. Qed.
Lemma connects_app l l' : connects (l ++ l') = connects l ++ connects l'.
Proof. apply omap_app. Qed.

(** A request that may be sent as 0-RTT data, which can be replayed. *)
Definition replayable (p : ReqParams) : bool := idempotent (rp_method p) && (length (rp_body p) =? 0)%nat.

Section invariant.
Context `{BoringSSL} `{H2Api} `{PhrApi} {W : Type} `{Uv W}.
Context (copy_without_early_data : SSL_SESSION -> option SSL_SESSION).
Context (decode_content : bytes -> bytes -> option bytes) (inet_pton : bool -> bytes -> option bytes).
Context (p0 : ReqParams).
Implicit Types (q : H2Request) (s : St W H2Request).

Record own_ok q : Prop := {
  own_params : q_params q = p0;
  own_deliver : count is_deliver (q_log q) = Nat.b2n (q_responded q);
  own_closing : q_closing q = true -> q_responded q = true;
  own_free : count is_free (q_log q) = Nat.b2n (q_freed q);
  own_freed : q_freed q = true -> q_responded q = true;
  own_connects : exists e, (e = true -> replayable p0 = true) /\
    connects (q_log q) = if q_retried_no_early q && negb (q_retrying q) then [e; false] else [e];
  own_retrying : q_retrying q = true -> q_retried_no_early q = true
}.
(** A request that is not replayable goes out at most once. *)
Definition once_ok q (fired early : bool) : Prop :=
  early = false /\ count is_submit (q_log q) = Nat.b2n (q_submitted q) /\
  (q_retrying q = true -> q_submitted q = false /\ fired = true) /\ (q_submitted q = true -> fired = true).

(** [P] holds inside [h2req_send_request], where the request is not yet sent. *)
Definition req_ok (P : Prop) s : Prop :=
  own_ok (st_own s) /\
  (tcp_closing (st_tcp s) = true -> q_closing (st_own s) = true \/ q_retrying (st_own s) = true) /\
  (replayable p0 = false ->
     once_ok (st_own s) (c_ready_fired (st_conn s)) (c_on_early_ready (st_conn s)) /\
     (P -> q_submitted (st_own s) = false /\ q_retrying (st_own s) = false /\ c_ready_fired (st_conn s) = true)).

Lemma req_ok_view P s s' : view s = view s' -> req_ok P s -> req_ok P s'.
Proof. unfold view, req_ok. intros [= -> -> -> ->]. done. Qed.
Lemma req_ok_weaken P s : req_ok P s -> req_ok False s.
Proof. intros (Ho & Hc & Hn). split_and!; [done..|]. intros Hr. split; [by apply Hn|done]. Qed.

Abbreviation on_ready_fail := (h2req_on_ready_fail copy_without_early_data).

Section stage.
Context (P : Prop).
Abbreviation J := (req_ok P).
Hint Resolve req_ok_view : keeps.

Lemma keeps_getq {A} (f : H2Request -> A) : keeps J (getq f).
Proof. apply keeps_get. Qed.

(** A change of the owner's state that the invariant does not look at. *)
Lemma keeps_upd_own_same (f : H2Request -> H2Request) :
  (forall q, own_ok q -> own_ok (f q)) ->
  (forall q, q_closing (f q) = q_closing q /\ q_retrying (f q) = q_retrying q /\ q_submitted (f q) = q_submitted q /\
             count is_submit (q_log (f q)) = count is_submit (q_log q)) ->
  keeps J (upd_own f).
Proof.
  intros Hf Hsame s (Ho & Hc & Hn). destruct (Hsame (st_own s)) as (E1 & E2 & E3 & E4).
  unfold upd_own, req_ok, once_ok. cbn. rewrite E1, E2, E3, E4. split_and!; [by apply Hf|done..].
Qed.
Lemma keeps_set_session v : keeps J (upd_own (set_session v)).
Proof. apply keeps_upd_own_same; [|done]. by intros q []. Qed.
Lemma keeps_set_timer v : keeps J (upd_own (set_timer v)).
Proof. apply keeps_upd_own_same; [|done]. by intros q []. Qed.
Lemma keeps_set_client (f : H2Request -> Client) : keeps J (upd_own (fun q => set_client (f q) q)).
Proof. apply keeps_upd_own_same; [|done]. by intros q []. Qed.
Lemma keeps_log_chunk data : keeps J (upd_own (log (LogChunk data))).
Proof.
  apply keeps_upd_own_same; [|intros q; cbn; rewrite count_app, Nat.add_0_r; done].
  intros q [H1' H2' H3 H4 H5 H6 H7]. split; cbn; try done; rewrite ?count_app, ?connects_app, ?Nat.add_0_r, ?app_nil_r; done.
Qed.

Lemma conn_close_ok s : J s -> q_closing (st_own s) = true \/ q_retrying (st_own s) = true -> J (snd (conn_close s)).
Proof.
  intros (H1' & H2' & H3) Hc. unfold conn_close, req_ok. run_state.
  destruct (c_tcp_inited (st_conn s) && negb (tcp_closing (st_tcp s))); cbn; split_and!; auto.
Qed.

(** The outcome: an error, or the response. *)
Lemma own_ok_deliver q d : own_ok q -> q_responded q = false -> own_ok (log (LogDeliver d) (set_responded q)).
Proof.
  intros [H0' H1' H2' H3 H4 H5 H6] Hr. split; cbn in *; try done.
  - rewrite count_app, H1', Hr. done.
  - by rewrite count_app, H3, Nat.add_0_r.
  - destruct H5 as (e & He & Hc). exists e. by rewrite connects_app, app_nil_r.
Qed.
Lemma deliver_ok d s :
  J s -> q_responded (st_own s) = false -> J (snd (upd_own (log (LogDeliver d) ∘ set_responded) s)).
Proof.
  intros (Ho & Hc & Hn) Hr. split_and!; cbn; [by apply own_ok_deliver|done|].
  unfold once_ok. cbn. by rewrite count_app, Nat.add_0_r.
Qed.

(** [h2req_finish], once the caller has his answer. *)
Lemma h2req_finish_ok s :
  q_responded (st_own s) = true -> J s -> J (snd (h2req_finish s)).
Proof.
  intros Hr HJ. unfold h2req_finish, getq. run_state. destruct (q_closing (st_own s)) eqn:Ec; [done|].
  apply conn_close_ok; [|by left]. destruct HJ as ([? ? ? ? ? ? ?] & ? & ?).
  split_and!; cbn; [by split|by left|done].
Qed.

Lemma deliver_error_responded e s : q_responded (st_own (snd (h2req_deliver_error e s))) = true.
Proof. unfold h2req_deliver_error, getq. run_state. by destruct (q_responded (st_own s)) eqn:E. Qed.

Lemma h2req_deliver_error_keeps e : keeps J (h2req_deliver_error e).
Proof.
  intros s HJ. unfold h2req_deliver_error, getq. run_state.
  destruct (q_responded (st_own s)) eqn:E; [done|]. by apply deliver_ok.
Qed.

Lemma fail_finish_keeps e : keeps J (h2req_deliver_error e;; h2req_finish).
Proof.
  intros s HJ. unfold mbind, M_bind.
  pose proof (h2req_deliver_error_keeps e s HJ) as H1'. pose proof (deliver_error_responded e s) as Hr.
  destruct (h2req_deliver_error e s) as [[] s1]. by apply h2req_finish_ok.
Qed.
Lemma fail_finish_bind_keeps {A} e (m : M W H2Request A) :
  keeps J m -> keeps J (h2req_deliver_error e;; h2req_finish;; m).
Proof.
  intros Hm s HJ. pose proof (fail_finish_keeps e s HJ) as HJ'. revert HJ'. unfold mbind, M_bind.
  destruct (h2req_deliver_error e s) as [[] s1]. destruct (h2req_finish s1) as [[] s2]. apply Hm.
Qed.

Lemma retry_ok s :
  J s -> q_retried_no_early (st_own s) = false ->
  (replayable p0 = false -> q_submitted (st_own s) = false /\ c_ready_fired (st_conn s) = true /\ ~ P) ->
  J (snd (upd_own (set_retry true true) s)).
Proof.
  intros (Ho & Hc & Hn) Hr Hs. destruct Ho as [Ho1 Ho2 Ho3 Ho4 Ho5 [e [He Hcs]] Ho7]. split_and!; cbn.
  - split; try done. cbn. exists e. split; [done|]. by rewrite Hcs, Hr.
  - by right.
  - intros Hp. destruct (Hn Hp) as [(Hn1 & Hn2 & Hn3 & Hn4) _]. destruct (Hs Hp) as (E1 & E2 & HP). by split.
Qed.

(** The failing call of [on_ready], which happens once. *)
Lemma on_ready_fail_keeps e : keeps J (conn_deliver_fail on_ready_fail e).
Proof.
  intros s HJ. unfold conn_deliver_fail. run_state. destruct (c_ready_fired (st_conn s)) eqn:Ef; [done|].
  set (s1 := mkSt (set_c_ready_fired true (st_conn s)) (st_tcp s) (st_w s) (st_dns s) (st_own s)).
  assert (replayable p0 = false -> q_submitted (st_own s1) = false /\ c_ready_fired (st_conn s1) = true /\ ~ P) as Hs.
  { destruct HJ as (_ & _ & Hn). intros Hp. destruct (Hn Hp) as [(Hn1 & Hn2 & Hn3 & Hn4) HP]. split_and!; [|done|].
    - cbn. destruct (q_submitted (st_own s)); [|done]. rewrite Hn4 in Ef; done.
    - intros HP'. destruct (HP HP') as (_ & _ & ?). congruence. }
  assert (J s1) as HJ1.
  { destruct HJ as (Ho & Hc & Hn). split_and!; [done..|]. intros Hp. destruct (Hn Hp) as [(Hn1 & Hn2 & Hn3 & Hn4) HP].
    destruct (Hs Hp) as (? & ? & ?). split; [|done]. split_and!; try done; naive_solver. }
  clearbody s1. clear HJ Ef s. unfold h2req_on_ready_fail, getq. run_state.
  destruct (c_early_rejected (st_conn s1) && negb (q_retried_no_early (st_own s1))) eqn:Er.
  - apply andb_true_iff in Er as [_ Er%negb_true_iff].
    apply conn_close_ok; [|by right]. apply (keeps_set_client (fun q => set_resume_cache
      (resume_cache_strip_early copy_without_early_data (cl_resume_cache (q_client q)) (req_origin q)) (q_client q))
      (snd (upd_own (set_retry true true) s1))). by apply retry_ok.
  - by apply fail_finish_keeps.
Qed.

(** [tcp_deliver]: the order in which the outcome is noted does not matter. *)
Lemma tcp_deliver_eq status headers body ok alpn s :
  tcp_deliver decode_content status headers body ok alpn s =
  (responded ← getq q_responded;
   if responded : bool then skip
   else
     (match alt_svc_of headers with
      | Some v => upd_own (fun q => set_client (set_alt_svc
                    (client_note_alt_svc (cl_alt_svc (q_client q)) (req_origin q) v (uv_now (st_w s))) (q_client q)) q)
      | None => skip
      end);;
     let resp := response_decode_encoding decode_content (mkResponse ok status headers body) in
     let streamed := rp_on_chunk (q_params (st_own s)) && (0 <? length (Redirect.r_body resp))%nat in
     when streamed (upd_own (log (LogChunk (Redirect.r_body resp))));;
     upd_own (log (LogDeliver (DeliverResponse (if streamed then
       mkResponse (Redirect.r_ok resp) (Redirect.r_status resp) (Redirect.r_headers resp) [] else resp) alpn)) ∘ set_responded);;
     h2req_finish) s.
Proof.
  unfold tcp_deliver, getq. run_state. destruct (q_responded (st_own s)); [done|].
  destruct (alt_svc_of headers); cbn; by destruct (_ && _)%bool.
Qed.

Abbreviation K := (fun s : St W H2Request => J s /\ q_responded (st_own s) = false).
Lemma deliver_finish_ok d s : K s -> J (snd ((upd_own (log (LogDeliver d) ∘ set_responded);; h2req_finish) s)).
Proof.
  intros [HJ Hr]. unfold mbind, M_bind.
  pose proof (deliver_ok d s HJ Hr) as HJ'. destruct (upd_own _ s) as [[] s1] eqn:E. apply h2req_finish_ok; [|done].
  by injection E as <-.
Qed.

Lemma tcp_deliver_keeps status headers body ok alpn : keeps J (tcp_deliver decode_content status headers body ok alpn).
Proof.
  intros s HJ. rewrite tcp_deliver_eq. unfold getq. unfold mbind at 1, M_bind at 1, get. cbn [compose].
  destruct (q_responded (st_own s)) eqn:Er; [done|].
  assert (forall (m k : M W H2Request unit), keeps K m -> (forall s, K s -> J (snd (k s))) ->
          forall s, K s -> J (snd ((m ;; k) s))) as Hseq.
  { intros m k Hm Hk s1 H1'. unfold mbind, M_bind. specialize (Hm s1 H1'). destruct (m s1). by apply Hk. }
  assert (forall f, (forall q, q_responded (f q) = q_responded q) -> keeps J (upd_own f) -> keeps K (upd_own f)) as Hown.
  { intros f Hf HfJ s1 [HJ1 Hr1]. split; [by apply HfJ|]. cbn. by rewrite Hf. }
  apply Hseq; [|apply Hseq; [|apply deliver_finish_ok]|by split].
  - destruct (alt_svc_of headers); [|apply keeps_ret]. apply Hown; [done|]. apply keeps_set_client.
  - apply keeps_when, Hown; [done|]. apply keeps_log_chunk.
Qed.
Hint Resolve on_ready_fail_keeps tcp_deliver_keeps keeps_getq keeps_set_session keeps_set_timer keeps_log_chunk
  fail_finish_keeps fail_finish_bind_keeps keeps_ret : keeps.

Lemma run_outs_keeps alpn outs : keeps J (run_outs copy_without_early_data decode_content alpn outs).
Proof. induction outs as [|o outs IH]; cbn [run_outs]; unfold run_out; keep. Qed.
Hint Resolve run_outs_keeps : keeps.
End stage.

Hint Resolve req_ok_view on_ready_fail_keeps tcp_deliver_keeps keeps_getq keeps_set_session keeps_set_timer keeps_log_chunk
  fail_finish_keeps fail_finish_bind_keeps keeps_ret run_outs_keeps : keeps.
Abbreviation I := (req_ok False).

Lemma h2req_drain_keeps : keeps I (h2req_drain copy_without_early_data decode_content).
Proof.
  unfold h2req_drain, drain_round. keep.
Qed.
Hint Resolve h2req_drain_keeps : keeps.

Lemma h2req_on_closed_keeps e : keeps I (h2req_on_closed copy_without_early_data decode_content e).
Proof. unfold h2req_on_closed. keep. Qed.
Hint Resolve h2req_on_closed_keeps : keeps.

Definition triple {A} (Pre : St W H2Request -> Prop) (m : M W H2Request A) (Post : A -> St W H2Request -> Prop) : Prop :=
  forall s, Pre s -> Post (fst (m s)) (snd (m s)).
Lemma triple_bind {A B} Pre (m : M W H2Request A) Mid (f : A -> M W H2Request B) Post :
  triple Pre m Mid -> (forall x, triple (Mid x) (f x) Post) -> triple Pre (m ≫= f) Post.
Proof. intros Hm Hf s HJ. unfold mbind, M_bind. specialize (Hm s HJ). destruct (m s) as [x s']. by apply Hf. Qed.
Lemma triple_keeps {A} R (m : M W H2Request A) : keeps R m -> triple R m (fun _ => R).
Proof. by intros Hm s HR; apply Hm. Qed.

(** [h2req_send_request] starts where nothing was sent, and may end with the
    request sent. *)
Abbreviation J := (req_ok True).
Definition sends {A} (m : M W H2Request A) : Prop := triple J m (fun _ => I).
Lemma sends_keeps {A} (m : M W H2Request A) : keeps J m -> sends m.
Proof. intros Hm s HJ. by eapply req_ok_weaken, Hm. Qed.
Lemma sends_bind {A B} (m : M W H2Request A) (f : A -> M W H2Request B) :
  keeps J m -> (forall x, sends (f x)) -> sends (m ≫= f).
Proof. intros Hm Hf. by eapply triple_bind; [apply triple_keeps|]. Qed.
Lemma sends_bind_last {A B} (m : M W H2Request A) (f : A -> M W H2Request B) :
  sends m -> (forall x, keeps I (f x)) -> sends (m ≫= f).
Proof. intros Hm Hf. eapply triple_bind; [done|]. intros x. by apply triple_keeps. Qed.

Lemma submit_sends : sends (upd_own (set_submitted true ∘ log LogSubmit)).
Proof.
  intros s ([H1' H2' H3 H4 H5 H6 H7] & Hc & Hn). split_and!; cbn; [|done|].
  - split; cbn; try done; by rewrite ?count_app, ?connects_app, ?Nat.add_0_r, ?app_nil_r.
  - intros Hp. destruct (Hn Hp) as [(Hn1 & Hn2 & Hn3 & Hn4) HP]. destruct (HP Logic.I) as (E1 & E2 & E3). split; [|done].
    split_and!; cbn; try done; [by rewrite count_app, Hn2, E1|congruence].
Qed.

Ltac send_step :=
  match goal with
  | |- sends (upd_own (set_submitted _ ∘ _) ≫= _) => apply sends_bind_last; [apply submit_sends|intros ?]
  | |- sends (h2req_deliver_error _ ≫= _) => apply sends_keeps
  | |- sends (_ ≫= _) => apply sends_bind; [|intros ?]
  | |- sends (if ?b then _ else _) => destruct b
  | |- sends (match ?x with _ => _ end) => destruct x
  end.
Lemma send_request_sends : sends (h2req_send_request copy_without_early_data decode_content).
Proof. unfold h2req_send_request, conn_alpn. repeat send_step; keep. Qed.

(** The callbacks, as the connection makes them. *)
Lemma on_ready_ok_keeps : keeps I (conn_deliver_ok (h2req_on_ready_ok copy_without_early_data decode_content)).
Proof.
  intros s HI. unfold conn_deliver_ok. run_state. destruct (c_ready_fired (st_conn s)) eqn:Ef; [done|].
  set (s1 := mkSt (set_c_ready_fired true (st_conn s)) (st_tcp s) (st_w s) (st_dns s) (st_own s)).
  assert (I s1 /\ (q_submitted (st_own s1) = false -> J s1)) as [HI1 HJ1].
  { destruct HI as (Ho & Hc & Hn). split; [|intros Hs]; split_and!; try done; intros Hp;
      destruct (Hn Hp) as [(Hn1 & Hn2 & Hn3 & Hn4) _]; cbn in *; (split; [split_and!; naive_solver|]); [done|].
    intros _. split_and!; [done| |done]. destruct (q_retrying (st_own s)); [|done]. destruct Hn3; congruence. }
  clearbody s1. unfold h2req_on_ready_ok, getq. unfold mbind at 1, M_bind at 1, get at 1. cbn [compose].
  destruct (q_submitted (st_own s1)) eqn:Es.
  - assert (keeps I (sent ← mret (M:=M W H2Request) true; if negb sent then skip else
      h2req_drain copy_without_early_data decode_content)) as Hk by keep. by apply Hk.
  - apply (sends_bind_last (h2req_send_request copy_without_early_data decode_content)); [apply send_request_sends| |by apply HJ1].
    intros x. keep.
Qed.

Lemma on_early_ready_keeps : keeps I (call_early_ready (h2req_on_early_ready copy_without_early_data decode_content)).
Proof.
  intros s HI. unfold call_early_ready. run_state. destruct (c_on_early_ready (st_conn s)) eqn:Ee; [|done].
  apply sends_bind_last; [apply send_request_sends|intros; keep|].
  destruct HI as (Ho & Hc & Hn). split_and!; [done..|]. intros Hp. destruct (Hn Hp) as [(Hn1 & _) _]. congruence.
Qed.
Hint Resolve on_ready_ok_keeps on_early_ready_keeps : keeps.

(** ** Connecting

    Before the attempt is logged: whatever attempt the code may make, logging
    it gives the invariant of the owner. *)
Record connecting_ok (allow : bool) (early : bool) s : Prop := {
  co_params : q_params (st_own s) = p0;
  co_own : forall e, (e = true -> allow = true /\ replayable p0 = true) -> own_ok (log (LogConnect e) (st_own s));
  co_once : replayable p0 = false ->
    count is_submit (q_log (st_own s)) = 0%nat /\ q_submitted (st_own s) = false /\ q_retrying (st_own s) = false;
  co_early : early = true -> allow = true /\ replayable p0 = true;
  co_flags : c_ready_fired (st_conn s) = false /\ c_on_early_ready (st_conn s) = early
}.
Lemma connecting_ok_view allow early s s' : view s = view s' -> connecting_ok allow early s -> connecting_ok allow early s'.
Proof. unfold view. intros [= E1 E2 E3 E4] [? ? ? ? ?]. split; rewrite <- ?E1, <- ?E2, <- ?E3, <- ?E4; done. Qed.
Lemma connecting_ok_client allow early (f : H2Request -> Client) :
  keeps (connecting_ok allow early) (upd_own (fun q => set_client (f q) q)).
Proof. intros s [? Ho ? ? ?]. split; try done. intros e He. by destruct (Ho e He). Qed.
Hint Resolve connecting_ok_view connecting_ok_client : keeps.

(** [uv_tcp_init] comes before anything that looks at the handle. *)
Lemma conn_connect_fresh host port s :
  conn_connect on_ready_fail host port s = conn_connect on_ready_fail host port (snd (upd_tcp tcp_fresh s)).
Proof. reflexivity. Qed.

Lemma conn_connect_ok allow early host port :
  triple (connecting_ok allow early) (upd_own (log (LogConnect early));; conn_connect on_ready_fail host port) (fun _ => I).
Proof.
  intros s [Hp Ho Hn He [Hf Hoe]]. unfold mbind, M_bind, upd_own. rewrite conn_connect_fresh.
  apply conn_connect_keeps; [apply req_ok_view|intros; apply on_ready_fail_keeps| |].
  - intros s' (? & ? & ?). by split_and!.
  - split_and!; cbn; [by apply Ho|done|]. intros Hr. split; [|done]. destruct (Hn Hr) as (E1 & E2 & E3).
    split_and!; cbn; [|by rewrite count_app, E1, E2|congruence|congruence].
    rewrite Hoe. destruct early; [|done]. destruct He; congruence.
Qed.

Ltac connect_keep :=
  unfold conn_set_dns_cache, conn_set_local_address, conn_set_proxy, conn_set_ech, conn_set_resume; keep.
Lemma h2req_connect_ok allow s :
  q_params (st_own s) = p0 ->
  (forall e, (e = true -> allow = true /\ replayable p0 = true) -> own_ok (log (LogConnect e) (st_own s))) ->
  (replayable p0 = false ->
    count is_submit (q_log (st_own s)) = 0%nat /\ q_submitted (st_own s) = false /\ q_retrying (st_own s) = false) ->
  I (snd (h2req_connect copy_without_early_data inet_pton allow s)).
Proof.
  intros Hp Ho Hn. unfold h2req_connect, getq.
  do 4 (unfold mbind at 1, M_bind at 1, get at 1). cbn [compose]. rewrite Hp.
  set (c := q_client (st_own s)). set (Pre := fun s' => st_own s' = st_own s).
  refine (triple_bind Pre _ (fun _ => connecting_ok allow false) _ (fun _ => I) _ _ s eq_refl).
  { intros s' Es. unfold conn_init, env. run_state. destruct (malloc _ _). cbn.
    split; cbn; unfold Pre in Es; rewrite ?Es; done. }
  intros _. do 5 (eapply triple_bind; [apply triple_keeps; connect_keep|intros ?]).
  refine (triple_bind _ _ (fun early => connecting_ok allow early) _ _ _ _).
  2: { intros early. apply conn_connect_ok. }
  destruct (cl_resume_enabled c); [|by intros s' Hs'].
  destruct (resume_cache_get _ _ _) as [sess cache].
  do 2 (eapply triple_bind; [apply triple_keeps; connect_keep|intros ?]).
  set (early := (_ && _ && _ && _ && _)%bool). destruct early eqn:Ee; [|by intros s' Hs'].
  intros s' [E1 E2 E3 E4 [E5 E6]]. unfold early in Ee. clear early. rewrite !andb_true_iff in Ee.
  split; try done; cbn. intros _. unfold replayable. rewrite andb_true_iff. tauto.
Qed.

Lemma on_fully_closed_ok s :
  I s -> tcp_closing (st_tcp s) = true -> q_freed (st_own s) = false ->
  I (snd (h2req_on_fully_closed copy_without_early_data inet_pton s)).
Proof.
  intros (Ho & Hc & Hn) Ht Hf. specialize (Hc Ht). unfold h2req_on_fully_closed, getq, conn_cleanup. run_state.
  destruct Ho as [Ho1 Ho2 Ho3 Ho4 Ho5 [e [He Hcs]] Ho7]. destruct (q_retrying (st_own s)) eqn:Er.
  - apply h2req_connect_ok; cbn; [done| |].
    + intros e' He'. destruct e'; [by destruct He'|]. split; cbn; try done; rewrite ?count_app, ?Nat.add_0_r; try done.
      exists e. split; [done|]. rewrite connects_app, Hcs, Ho7 by done. done.
    + intros Hp. destruct (Hn Hp) as [(Hn1 & Hn2 & Hn3 & Hn4) _]. destruct Hn3 as [E _]; [done|]. by rewrite Hn2, E.
  - destruct Hc as [Hc|]; [|done]. split_and!; cbn.
    + split; cbn; rewrite ?count_app, ?connects_app, ?Nat.add_0_r, ?app_nil_r; try done; auto.
      * by rewrite Ho4, Hf.
      * exists e. by rewrite Er.
      * by rewrite Er.
    + by left.
    + unfold once_ok in *. cbn. rewrite count_app, Nat.add_0_r, Er.
      intros Hp. destruct (Hn Hp) as [(? & ? & ? & ?) _]. done.
Qed.

Lemma handle_ok ev s :
  I s -> enabled ev s = true -> q_freed (st_own s) = false ->
  I (snd (handle copy_without_early_data decode_content inet_pton ev s)).
Proof.
  intros HI He Hf. destruct ev as [res|status|ev| |]; cbn [handle].
  - apply conn_on_resolved_keeps; eauto with keeps.
  - apply conn_on_connected_keeps; eauto with keeps.
  - assert (keeps I (match ev with ReadData _ => skip | _ => upd_tcp stop_reading end)) as Hr by keep.
    apply (triple_bind I _ (fun _ => I) _ (fun _ => I)); [by apply triple_keeps|intros _|done].
    apply conn_read_cb_keeps; eauto with keeps.
  - unfold h2req_on_timeout. assert (keeps I (upd_own (set_timer false);; h2req_deliver_error (lit "timeout");; h2req_finish))
      as Hk by keep. by apply Hk.
  - cbn in He. rewrite !andb_true_iff in He. destruct He as [[_ He] _]. unfold conn_on_handle_closed. run_state.
    destruct (c_on_fully_closed (st_conn s)); [|done].
    by apply on_fully_closed_ok.
Qed.

Lemma run_ok s s' : rtc (step copy_without_early_data decode_content inet_pton) s s' -> I s -> I s'.
Proof. induction 1 as [|s s1 s2 Hs _ IH]; [done|]. intros HI. apply IH. destruct Hs. by apply handle_ok. Qed.
End invariant.

Section request_theorems.
Context `{BoringSSL} `{H2Api} `{PhrApi} {W : Type} `{Uv W}.
Context (copy_without_early_data : SSL_SESSION -> option SSL_SESSION).
Context (decode_content : bytes -> bytes -> option bytes) (inet_pton : bool -> bytes -> option bytes).

(** C8. One request over TCP, whatever the network, TLS, the HTTP session and
    the timer do: the caller gets at most one outcome, and exactly one when the
    request's memory is given back, which happens once; there are at most two
    attempts to connect, the second without 0-RTT, and 0-RTT is only tried for
    a GET or a HEAD without a body; any other request is handed to the server
    at most once. *)
Theorem tcp_request_safe c m url headers body deadline proxy on_chunk order version s0 s :
  rtc (step copy_without_early_data decode_content inet_pton) (snd (h2req_start (W:=W) copy_without_early_data inet_pton c m url headers body deadline proxy on_chunk order version s0)) s ->
  let q := st_own s in
  (count is_deliver (q_log q) <= 1)%nat /\
  (q_freed q = true -> count is_deliver (q_log q) = 1%nat /\ count is_free (q_log q) = 1%nat) /\
  (exists e, In (connects (q_log q)) [[]; [e]; [e; false]] /\
     (e = true -> idempotent m = true /\ rp_body (q_params q) = [])) /\
  (idempotent m = false \/ rp_body (q_params q) <> [] -> (count is_submit (q_log q) <= 1)%nat).
Proof.
  intros Hrun. cbv zeta. unfold h2req_start in Hrun.
  set (pu := url_parse url) in *. destruct (negb (ok pu) || negb (https pu)) eqn:Eu.
  { inversion Hrun as [|? ? ? Hs]; subst; [|by inversion Hs].
    split_and!; cbn; try done; [|by intros; apply Nat.le_0_l]. exists false. split; [by left|done]. }
  destruct (build_request_headers _ _ _ _ _) as [hs b].
  set (p := mkReqParams m url pu version proxy _ b on_chunk) in *.
  assert (req_ok p False s) as ([Hp Hd _ Hfr Hfd [e [He Hcs]] _] & _ & Hn).
  { eapply run_ok; [exact Hrun|]. apply h2req_connect_ok; cbn; [done| |done].
    intros e He. split; cbn; try done. exists e. split; [apply He|done]. }
  assert (replayable p = true <-> idempotent m = true /\ b = []) as Hrep.
  { unfold replayable. cbn. rewrite andb_true_iff, Nat.eqb_eq. by rewrite length_zero_iff_nil. }
  rewrite Hp, Hd, Hfr, Hcs. cbn [rp_body p]. split_and!.
  - destruct (q_responded (st_own s)); cbn; lia.
  - intros Hf. by rewrite Hf, (Hfd Hf).
  - exists e. split; [|by intros E%He%Hrep]. destruct (_ && _); cbn; auto.
  - intros Hm. destruct (replayable p) eqn:Er; [|].
    { destruct Hrep as [[? ?] _]; [done|]. destruct Hm; congruence. }
    destruct (Hn eq_refl) as [(_ & -> & _) _].
    destruct (q_submitted (st_own s)); cbn; lia.
Qed.

(** A deadline that passes while the host name is being resolved gives the
    request's memory back with the resolver request still in flight: its
    callback gets a connection that is gone. *)
Theorem timeout_while_resolving s :
  q_freed (st_own s) = false -> q_timer (st_own s) = true -> q_closing (st_own s) = false -> q_retrying (st_own s) = false ->
  c_tcp_inited (st_conn s) = true -> c_on_fully_closed (st_conn s) = true ->
  tcp_closing (st_tcp s) = false -> tcp_connecting (st_tcp s) = false -> tcp_resolving (st_tcp s) = true ->
  exists s', rtc (step (W:=W) copy_without_early_data decode_content inet_pton) s s' /\ q_freed (st_own s') = true /\ tcp_resolving (st_tcp s') = true.
Proof.
  intros Hf Ht Hc Hr Hi Ho Htc Hcn Hres.
  set (handle := handle copy_without_early_data decode_content inet_pton).
  set (s1 := snd (handle EvTimeout s)). set (s2 := snd (handle EvHandleClosed s1)).
  assert (enabled EvHandleClosed s1 = true /\ q_freed (st_own s1) = false /\ q_freed (st_own s2) = true /\
          tcp_resolving (st_tcp s2) = true) as (He & Hf1 & ? & ?).
  { subst s1 s2. unfold handle. cbn [TcpRequest.handle]. unfold conn_on_handle_closed, h2req_on_timeout,
      h2req_deliver_error, h2req_finish, conn_close, h2req_on_fully_closed, conn_cleanup, getq. run_state.
    destruct (q_responded (st_own s)); cbn; repeat (rewrite ?Hc, ?Hi, ?Htc, ?Hcn, ?Ho, ?Hr; cbn); done. }
  exists s2. split_and!; [|done..].
  apply (rtc_l _ s s1); [by apply step_event|]. apply rtc_once. by apply step_event.
Qed.

(** After [on_ready] a connection that failed (a write the socket refused)
    reports nothing: the end of the stream does not reach the request, and
    without a deadline no event is left that could end it. *)
Theorem failed_after_ready_hangs s :
  c_ready_fired (st_conn s) = true -> c_state (st_conn s) = ConnState_Failed ->
  q_timer (st_own s) = false -> tcp_closing (st_tcp s) = false ->
  tcp_resolving (st_tcp s) = false -> tcp_connecting (st_tcp s) = false ->
  let s' := snd (handle copy_without_early_data decode_content inet_pton (EvRead ReadEof) s) in
  st_own s' = st_own s /\ forall ev, enabled ev s' = false.
Proof.
  intros Hf Hs Ht Hc Hr Hcn. cbn [handle]. unfold conn_read_cb, conn_fail, conn_deliver_fail. run_state.
  rewrite Hs.
  rewrite bool_decide_eq_false_2 by done. cbn. rewrite Hf. cbn. split; [done|]. intros []; cbn; rewrite ?Hr, ?Hcn, ?Hc, ?Ht, ?andb_false_r; done.
Qed.
End request_theorems.

(** ** Runs

    A server that refuses 0-RTT and speaks HTTP/1.1: the TLS engine gives back
    the bytes it is fed. [demo_refuse] is a socket that refuses writes. *)
Record DemoSsl := mkDemoSsl { ds_early : bool; ds_in : bytes; ds_out : bytes }.
#[local] Instance demo_ssl : BoringSSL := {|
  SSL := DemoSsl; SSL_CTX := unit; SSL_SESSION := unit; TlsProfile := unit;
  SSL_new _ := Some (mkDemoSsl false [] []);
  configure_ssl s _ _ _ _ := Some s;
  SSL_session_reused _ := false;
  SSL_SESSION_early_data_capable _ := true;
  SSL_set_early_data_enabled s := mkDemoSsl true (ds_in s) (ds_out s);
  SSL_in_early_data s := ds_early s;
  SSL_early_data_accepted _ := false;
  SSL_do_handshake s := (if ds_early s then -1 else 1, s);
  SSL_get_error s _ := if ds_early s && negb (length (ds_in s) =? 0)%nat then SSL_ERROR_EARLY_DATA_REJECTED else SSL_ERROR_WANT_READ;
  SSL_get0_alpn_selected _ := lit "http/1.1";
  SSL_read s cap := if (length (ds_in s) =? 0)%nat then (-1, [], s)
                    else (zlen (take cap (ds_in s)), take cap (ds_in s), mkDemoSsl (ds_early s) (drop cap (ds_in s)) (ds_out s));
  SSL_write s b := (zlen b, mkDemoSsl (ds_early s) (ds_in s) (ds_out s ++ b));
  BIO_write_rbio s b := mkDemoSsl (ds_early s) (ds_in s ++ b) (ds_out s);
  BIO_read_wbio s cap := (take cap (ds_out s), mkDemoSsl (ds_early s) (ds_in s) (drop cap (ds_out s)));
  ERR_peek_last_error _ := 0;
  ERR_is_wrong_version_on_early_data _ := false;
  ERR_error_string _ := []
|}.
#[local] Instance demo_h2 : H2Api := {|
  H2Session := unit; h2_session_alloc := None; h2_session_start s := (true, s, []);
  h2_session_submit_request s _ _ _ _ _ _ _ := (1, s, []); h2_session_recv s _ := (0, s, [])
|}.
#[local] Instance demo_phr : PhrApi := {|
  phr_chunk := unit; phr_chunk_zero := tt; phr_consume_trailer := id; phr_parse := demo_parse; phr_decode := demo_decode
|}.
Record DemoUv := mkDemoUv { demo_refuse : bool }.
#[local] Instance demo_uv : Uv DemoUv := {|
  uv_hrtime w := (1, w); uv_now _ := 0; uv_tcp_bind w _ := (0, w); uv_tcp_connect w _ := (0, w);
  uv_getaddrinfo w _ _ _ := (0, w); uv_write w _ := (if demo_refuse w then -32 else 0, w);
  uv_strerror _ := lit "error"; ra_reserve w _ := (None, w); ra_commit w _ := w; ra_abort w := w;
  malloc w _ := (true, w); sizeof_WriteReq := 216; sockaddr_family _ := 2; sockaddr_set_port a _ := a
|}.
Definition demo_tcp_client : Client :=
  mkClient (Some tt) tt tt [] [] None None None [] false true true false []
    [mkResume (lit "a.b:443") (Some tt) [] 0] [] [].
Definition demo_tcp_state (refuse : bool) : St DemoUv H2Request :=
  mkSt (conn_zero None tt false) (mkTcp false false false false []) (mkDemoUv refuse) (dns_cache_init 0)
    (mkH2Request (mkReqParams Method_GET [] (url_parse []) HttpVersion_Auto (mkProxy ProxyType_None [] 0 [] []) header_list_init
       [] false) NoSession false false false false false false false demo_tcp_client []).
Abbreviation demo_start m deadline refuse :=
  (snd (h2req_start Some (fun _ _ => None) demo_tcp_client m (lit "https://a.b/") [] [] deadline
          (mkProxy ProxyType_None [] 0 [] []) false [] HttpVersion_Auto (demo_tcp_state refuse))).
Abbreviation demo_step := (step Some (fun _ b => Some b) (fun _ _ => None)).

(** The state after a list of events, if each can happen. *)
Fixpoint exec (evs : list event) (s : St DemoUv H2Request) : option (St DemoUv H2Request) :=
  match evs with
  | [] => Some s
  | ev :: evs => if negb (q_freed (st_own s)) && enabled ev s
                 then exec evs (snd (handle Some (fun _ b => Some b) (fun _ _ => None) ev s)) else None
  end.
Lemma exec_run evs s s' : exec evs s = Some s' -> rtc demo_step s s'.
Proof.
  revert s. induction evs as [|ev evs IH]; intros s; cbn; [by intros [= ->]|].
  destruct (negb _ && _) eqn:E; [|done]. apply andb_true_iff in E as [?%negb_true_iff ?].
  intros Hx%IH. eapply rtc_l; [by apply step_event|done].
Qed.

Definition demo_retry : list event :=
  [EvResolved (inr [1]); EvConnected 0; EvRead (ReadData [9]); EvHandleClosed;
   EvResolved (inr [1]); EvConnected 0; EvRead (ReadData (lit "abcXY")); EvHandleClosed].
Definition run_of (evs : list event) (s : St DemoUv H2Request) : St DemoUv H2Request := default s (exec evs s).
Lemma run_of_run evs s : is_Some (exec evs s) -> rtc demo_step s (run_of evs s).
Proof. unfold run_of. intros [s' E]. rewrite E. by apply (exec_run evs). Qed.

Lemma tcp_request_safe_witness :
  let q := st_own (run_of demo_retry (demo_start Method_GET false false)) in
  connects (q_log q) = [true; false] /\ count is_deliver (q_log q) = 1%nat /\ count is_free (q_log q) = 1%nat.
Proof.
  split; [vm_compute; reflexivity|].
  refine (proj1 (proj2 (tcp_request_safe Some (fun _ b => Some b) (fun _ _ => None) demo_tcp_client Method_GET (lit "https://a.b/")
    [] [] false (mkProxy ProxyType_None [] 0 [] []) false [] HttpVersion_Auto (demo_tcp_state false) _ (run_of_run demo_retry _ _))) _).
  - apply (bool_decide_unpack _). vm_compute. reflexivity.
  - vm_compute. reflexivity.
Defined.

Lemma timeout_while_resolving_witness :
  exists s', rtc demo_step (demo_start Method_GET true false) s' /\ q_freed (st_own s') = true /\ tcp_resolving (st_tcp s') = true.
Proof.
  refine (timeout_while_resolving Some (fun _ b => Some b) (fun _ _ => None) (demo_start Method_GET true false) _ _ _ _ _ _ _ _ _);
    vm_compute; reflexivity.
Defined.

Lemma failed_after_ready_hangs_witness :
  let s := run_of [EvResolved (inr [1]); EvConnected 0] (demo_start Method_POST false true) in
  q_responded (st_own (snd (handle Some (fun _ b => Some b) (fun _ _ => None) (EvRead ReadEof) s))) = false /\
  forall ev, enabled ev (snd (handle Some (fun _ b => Some b) (fun _ _ => None) (EvRead ReadEof) s)) = false.
Proof.
  cbv zeta. set (s := run_of _ _).
  assert (H := failed_after_ready_hangs Some (fun _ b => Some b) (fun _ _ => None) s). cbv zeta in H.
  destruct H as [E Hev]; try (vm_compute; reflexivity). split; [|exact Hev]. rewrite E. vm_compute. reflexivity.
Defined.
