(* ===== verification/TlsStream.v ===== *)
(** * A raw TLS byte stream: core/tls_stream.c

    A connection of [net/connection.c] driven by blocking calls: connect, write,
    read, free. The state is that of the connection with [TlsStream] as its
    owner; a blocking call takes the turns of the event loop it runs as an
    argument, and is still waiting when they end before its event. *)
From S2P Require Import Prelude String8 DnsCache Proxy TcpRequest.
From S2P Require Export Connection.

(** The deadline of a connect or of a read. *)
Inductive TlsTimer := TlsTimer_Connect | TlsTimer_Recv.
Record TlsStream := mkTlsStream {
  ts_conn_inited : bool;
  ts_established : bool;
  ts_closed : bool;
  ts_fail : bool;
  ts_fully_closed : bool;
  ts_timed_out : bool;
  ts_err : option bytes;
  ts_timer (* the deadline that is armed *) : option TlsTimer
}.
Definition set_ts_conn_inited (v : bool) (s : TlsStream) : TlsStream :=
  mkTlsStream v (ts_established s) (ts_closed s) (ts_fail s) (ts_fully_closed s) (ts_timed_out s) (ts_err s)
    (ts_timer s).
Definition set_ts_established (v : bool) (s : TlsStream) : TlsStream :=
  mkTlsStream (ts_conn_inited s) v (ts_closed s) (ts_fail s) (ts_fully_closed s) (ts_timed_out s) (ts_err s)
    (ts_timer s).
Definition set_ts_closed (v : bool) (s : TlsStream) : TlsStream :=
  mkTlsStream (ts_conn_inited s) (ts_established s) v (ts_fail s) (ts_fully_closed s) (ts_timed_out s)
    (ts_err s) (ts_timer s).
Definition set_ts_fail (v : bool) (s : TlsStream) : TlsStream :=
  mkTlsStream (ts_conn_inited s) (ts_established s) (ts_closed s) v (ts_fully_closed s) (ts_timed_out s)
    (ts_err s) (ts_timer s).
Definition set_ts_fully_closed (v : bool) (s : TlsStream) : TlsStream :=
  mkTlsStream (ts_conn_inited s) (ts_established s) (ts_closed s) (ts_fail s) v (ts_timed_out s) (ts_err s)
    (ts_timer s).
Definition set_ts_timed_out (v : bool) (s : TlsStream) : TlsStream :=
  mkTlsStream (ts_conn_inited s) (ts_established s) (ts_closed s) (ts_fail s) (ts_fully_closed s) v (ts_err s)
    (ts_timer s).
Definition set_ts_err (v : option bytes) (s : TlsStream) : TlsStream :=
  mkTlsStream (ts_conn_inited s) (ts_established s) (ts_closed s) (ts_fail s) (ts_fully_closed s)
    (ts_timed_out s) v (ts_timer s).
Definition set_ts_timer (v : option TlsTimer) (s : TlsStream) : TlsStream :=
  mkTlsStream (ts_conn_inited s) (ts_established s) (ts_closed s) (ts_fail s) (ts_fully_closed s)
    (ts_timed_out s) (ts_err s) v.
Definition tls_stream_zero : TlsStream := mkTlsStream false false false false false false None None.

(** The parts of the client that a stream borrows; [tc_tls] is its profile with
    ALPN and ALPS cleared. *)
Record TlsClient `{BoringSSL} := mkTlsClient {
  tc_ctx : option SSL_CTX;
  tc_tls : TlsProfile;
  tc_timeout_ms : Z
}.

Section tls_stream.
Context `{BoringSSL} {W : Type} `{Uv W}.
Abbreviation M := (M W TlsStream).
Definition gets {A} (f : TlsStream -> A) : M A := get (f ∘ st_own).

(** ** The callbacks of the connection *)
Definition tls_on_readable : M unit := skip.
Definition tls_on_ready_fail (err : bytes) : M unit :=
  upd_own (set_ts_fail true);;
  e ← gets ts_err;
  match e with None => upd_own (set_ts_err (Some err)) | Some _ => skip end.
Definition tls_on_ready_ok : M unit :=
  upd_conn (set_c_on_readable true);;
  upd_own (set_ts_established true).
Definition tls_on_closed (err : option bytes) : M unit :=
  e ← gets ts_err;
  (match e, err with None, Some err => upd_own (set_ts_err (Some err)) | _, _ => skip end);;
  upd_own (set_ts_closed true).
Definition tls_on_fully_closed : M unit := upd_own (set_ts_fully_closed true).
Definition tls_on_connect_timeout : M unit :=
  established ← gets ts_established;
  when (negb established) (upd_own (set_ts_fail true ∘ set_ts_err (Some (lit "timeout")))).
Definition tls_on_recv_timeout : M unit := upd_own (set_ts_timed_out true).

(** ** The event loop *)
Inductive tls_event :=
| TlsEvResolved (res : Z + bytes)
| TlsEvConnected (status : Z)
| TlsEvRead (ev : read_event)
| TlsEvHandleClosed
| TlsEvTimer.
Definition tls_handle (ev : tls_event) : M unit :=
  match ev with
  | TlsEvResolved res => conn_on_resolved tls_on_ready_fail res
  | TlsEvConnected status => conn_on_connected tls_on_ready_fail tls_on_ready_ok skip status
  | TlsEvRead ev => conn_read_cb tls_on_ready_fail tls_on_ready_ok skip tls_on_readable tls_on_closed ev
  | TlsEvHandleClosed => conn_on_handle_closed tls_on_fully_closed
  | TlsEvTimer =>
      t ← gets ts_timer;
      match t with
      | Some TlsTimer_Connect => tls_on_connect_timeout
      | Some TlsTimer_Recv => tls_on_recv_timeout
      | None => skip
      end
  end.
Fixpoint tls_loop_run (evs : list tls_event) : M unit :=
  match evs with
  | [] => skip
  | ev :: evs => tls_handle ev;; tls_loop_run evs
  end.
(** [while (!cond) loop_run]: [false] when the turns end before. *)
Fixpoint tls_wait (cond : TlsStream -> bool) (turns : list (list tls_event)) : M bool :=
  done ← gets cond;
  if done : bool then mret true
  else match turns with
       | [] => mret false
       | evs :: turns => tls_loop_run evs;; tls_wait cond turns
       end.
(** [req_timer_arm] for a time in ms: a deadline of zero is no timer. (The
    delay that libuv gets, which it computes from the clock, is not kept.) *)
Definition tls_arm (ms : Z) (which : TlsTimer) : M unit :=
  if ms =? 0 then skip
  else
    now ← env uv_hrtime;
    when (negb (wrap64 (now + wrap64 (ms * 1000000)) =? 0)) (upd_own (set_ts_timer (Some which))).

(** ** The calls *)
Definition connect_failed : bytes := lit "tls connect failed".
Definition tls_connect_done (fin : bool) : M bool :=
  if negb fin then mret false
  else
    upd_own (set_ts_timer None);;
    established ← gets ts_established;
    e ← gets ts_err;
    when (negb established && match e with None => true | Some _ => false end) (upd_own (set_ts_err (Some connect_failed)));;
    mret true.
(** On a new stream; [false] while the call is still waiting. *)
Definition tls_stream_connect (c : TlsClient) (host : bytes) (port timeout_ms : Z) (turns : list (list tls_event)) : M bool :=
  conn_init (tc_ctx c) (tc_tls c);;
  upd_own (set_ts_conn_inited true);;
  upd_conn (set_c_on_closed true ∘ set_c_on_fully_closed true);;
  conn_set_dns_cache;;
  tls_arm (if timeout_ms =? 0 then tc_timeout_ms c else timeout_ms) TlsTimer_Connect;;
  conn_connect tls_on_ready_fail (str8_cstring (host ++ [0])) port;;
  fin ← tls_wait (fun s => ts_established s || ts_fail s || ts_closed s) turns;
  tls_connect_done fin.
Definition tls_stream_write (data : bytes) : M bool :=
  s ← gets id;
  if ts_fail s || ts_closed s || negb (ts_established s) then mret false
  else conn_send_plaintext tls_on_ready_fail data.
(** The result and the bytes after a read of the engine: [None] is to wait. *)
Definition tls_read_now (r : bytes + bool) (s : TlsStream) : option (Z * bytes) :=
  let data := match r with inl data => data | inr _ => [] end in
  if (0 <? length data)%nat then Some (zlen data, data)
  else if bool_decide (r = inr false) || ts_closed s || ts_fail s then
    Some (match ts_err s with Some _ => -1 | None => 0 end, [])
  else if ts_timed_out s then Some (-2, [])
  else None.
(** [None] while the call is still waiting. *)
Fixpoint tls_read_loop (cap : nat) (turns : list (list tls_event)) : M (option (Z * bytes)) :=
  r ← on_pump (fun p => ssl_pump_read_plaintext p cap);
  s ← gets id;
  match tls_read_now r s, turns with
  | Some x, _ => mret (Some x)
  | None, [] => mret None
  | None, evs :: turns => tls_loop_run evs;; tls_read_loop cap turns
  end.
Definition tls_stream_read (cap : nat) (timeout_ms : Z) (turns : list (list tls_event)) : M (option (Z * bytes)) :=
  s ← gets id;
  if negb (ts_established s) && negb (ts_closed s) && negb (ts_fail s) then mret (Some (-1, []))
  else if (cap =? 0)%nat then mret (Some (0, []))
  else
    upd_own (set_ts_timed_out false);;
    tls_arm timeout_ms TlsTimer_Recv;;
    r ← tls_read_loop cap turns;
    (match r with Some _ => upd_own (set_ts_timer None) | None => skip end);;
    mret r.
(** The turns end when the loop has nothing left to wait for. *)
Definition tls_stream_free (turns : list (list tls_event)) : M unit :=
  inited ← gets ts_conn_inited;
  when inited
    (conn_close;;
     upd_own (set_ts_fully_closed false);;
     tls_wait ts_fully_closed turns;;
     conn_cleanup).
Definition tls_stream_error (s : option TlsStream) : option bytes :=
  match s with Some s => ts_err s | None => Some (lit "null stream") end.
End tls_stream.

(** ** Invariants

    A failed stream has an error; one with an error has failed or is closed. *)
Section tls_keeps.
Context `{BoringSSL} {W : Type} `{Uv W}.
Implicit Types (s : St W TlsStream) (o : TlsStream).
Definition tls_ok o : Prop := (ts_fail o = true -> is_Some (ts_err o)) /\ (is_Some (ts_err o) -> ts_fail o = true \/ ts_closed o = true).
Definition tls_inv s : Prop := tls_ok (st_own s).
(** The calls that wait return on one of these flags, which stay. *)
Definition tls_over o : bool := ts_established o || ts_fail o || ts_closed o.
Definition live o : Prop := tls_ok o /\ tls_over o = true.
Definition tls_live s : Prop := live (st_own s).

(** A predicate on the owner that what the callbacks write keeps. *)
Record stable (P : TlsStream -> Prop) : Prop := {
  st_fail e o : P o -> P (match ts_err o with None => set_ts_err (Some e) (set_ts_fail true o) | Some _ => set_ts_fail true o end);
  st_established o : P o -> P (set_ts_established true o);
  st_closed e o : P o -> P (set_ts_closed true (match ts_err o, e with None, Some e => set_ts_err (Some e) o | _, _ => o end));
  st_fully_closed b o : P o -> P (set_ts_fully_closed b o);
  st_timed_out b o : P o -> P (set_ts_timed_out b o);
  st_timer t o : P o -> P (set_ts_timer t o);
  st_connect_timeout o : P o -> ts_established o = false -> P (set_ts_fail true (set_ts_err (Some (lit "timeout")) o))
}.
Lemma stable_ok : stable tls_ok.
Proof.
  unfold tls_ok. split; intros; cbn in *; try tauto.
  - destruct (ts_err o) eqn:E; cbn; rewrite ?E; split; auto; intros; by eexists.
  - destruct (ts_err o) eqn:E, e; cbn; rewrite ?E; cbn; split; auto; try tauto; intros; by eexists.
  - split; [intros; by eexists|auto].
Qed.
Lemma stable_over : stable (fun o => tls_over o = true).
Proof. unfold tls_over. split; intros; cbn in *; try done; destruct (ts_err o); try destruct e; cbn; by rewrite ?orb_true_r. Qed.

Section owner.
Context (P : TlsStream -> Prop) (HP : stable P).
Definition owner s : Prop := P (st_own s).
Lemma owner_view s s' : view s = view s' -> owner s -> owner s'.
Proof. unfold view, owner. by intros [= -> _ _]. Qed.
Lemma owner_gets {A} (f : TlsStream -> A) : keeps owner (gets f).
Proof. apply keeps_get. Qed.
Lemma owner_own f : (forall o, P o -> P (f o)) -> keeps owner (upd_own f).
Proof. intros Hf s Hs. by apply Hf. Qed.
Lemma owner_conn f : keeps owner (upd_conn f).
Proof. by intros s. Qed.
Hint Resolve owner_view owner_gets owner_conn : keeps.
Lemma owner_deliver_fail e : keeps owner (conn_deliver_fail tls_on_ready_fail e).
Proof.
  intros s Hs. unfold conn_deliver_fail, tls_on_ready_fail. run_state. destruct (c_ready_fired (st_conn s)); [done|].
  unfold owner in *. cbn. pose proof (st_fail P HP e _ Hs) as Hfail. destruct (ts_err (st_own s)); cbn in *; done.
Qed.
Lemma owner_deliver_ok : keeps owner (conn_deliver_ok tls_on_ready_ok).
Proof.
  unfold conn_deliver_ok, tls_on_ready_ok. keep. apply owner_own, (st_established P HP).
Qed.
Lemma owner_closed e : keeps owner (tls_on_closed e).
Proof.
  intros s Hs. unfold tls_on_closed. unfold owner in *. pose proof (st_closed P HP e _ Hs) as Hclosed. run_state. unfold compose.
  by destruct (ts_err (st_own s)), e.
Qed.
Hint Resolve owner_deliver_fail owner_deliver_ok owner_closed : keeps.
Lemma owner_handle ev : keeps owner (tls_handle ev).
Proof.
  assert (Hearly : keeps owner (call_early_ready skip)) by (unfold call_early_ready; keep).
  assert (Hread : keeps owner tls_on_readable) by (unfold tls_on_readable; keep).
  assert (Hct : keeps owner tls_on_connect_timeout).
  { intros s Hs. unfold tls_on_connect_timeout. run_state. unfold compose, owner in *.
    destruct (ts_established (st_own s)) eqn:E; [done|]. by apply (st_connect_timeout P HP). }
  destruct ev; unfold tls_handle, conn_on_handle_closed, tls_on_fully_closed, tls_on_recv_timeout; keep; apply owner_own; apply HP.
Qed.
Hint Resolve owner_handle : keeps.
Lemma owner_loop evs : keeps owner (tls_loop_run evs).
Proof. induction evs as [|ev evs IH]; cbn [tls_loop_run]; keep. Qed.
Hint Resolve owner_loop : keeps.
Lemma owner_wait cond turns : keeps owner (tls_wait cond turns).
Proof. induction turns as [|evs turns IH]; cbn [tls_wait]; keep. Qed.
Lemma owner_arm ms which : keeps owner (tls_arm ms which).
Proof. unfold tls_arm. keep. apply owner_own. intros o. apply (st_timer P HP). Qed.
Lemma owner_connect host port : keeps owner (conn_connect tls_on_ready_fail host port).
Proof. apply conn_connect_keeps; eauto with keeps. by intros s. Qed.
Lemma owner_send data : keeps owner (conn_send_plaintext tls_on_ready_fail data).
Proof. keep. Qed.
End owner.
Lemma stable_live : stable live.
Proof.
  destruct stable_ok, stable_over. unfold live. split; intros; match goal with H : _ /\ _ |- _ => destruct H end; split; eauto.
Qed.

Lemma wait_true cond turns s s' : tls_wait cond turns s = (true, s') -> cond (st_own s') = true.
Proof.
  revert s. induction turns as [|evs turns IH]; intros s; cbn [tls_wait]; unfold gets; run_state; unfold compose;
    destruct (cond (st_own s)) eqn:E; try (by intros [= <-]).
  destruct (tls_loop_run evs s) as [u s1]. apply IH.
Qed.
Lemma connect_done_spec s s' : tls_ok (st_own s) -> tls_over (st_own s) = true -> tls_connect_done true s = (true, s') ->
  tls_live s' /\ ts_timer (st_own s') = None /\ (ts_err (st_own s') = None -> ts_established (st_own s') = true).
Proof.
  intros Hok Hov. unfold tls_connect_done, gets. run_state. unfold compose, tls_live, live, tls_ok, tls_over in *.
  destruct (ts_established (st_own s)) eqn:Ee; cbn; [intros [= <-]; cbn; rewrite Ee; auto|].
  cbn in Hov. destruct (ts_err (st_own s)) eqn:Er; cbn; intros [= <-]; cbn; rewrite ?Ee, ?Er; (split_and!; try done).
  - by destruct Hok.
  - intros _. by apply orb_true_iff in Hov.
Qed.

(** The call up to the end of its wait. *)
Definition connect_until (c : TlsClient) host port ms turns : M W TlsStream bool :=
  conn_init (tc_ctx c) (tc_tls c);;
  upd_own (set_ts_conn_inited true);;
  upd_conn (set_c_on_closed true ∘ set_c_on_fully_closed true);;
  conn_set_dns_cache;;
  tls_arm (if ms =? 0 then tc_timeout_ms c else ms) TlsTimer_Connect;;
  conn_connect tls_on_ready_fail (str8_cstring (host ++ [0])) port;;
  tls_wait tls_over turns.
Lemma connect_split c host port ms turns s :
  tls_stream_connect c host port ms turns s = (fin ← connect_until c host port ms turns; tls_connect_done fin) s.
Proof.
  unfold tls_stream_connect, connect_until, mbind, M_bind. destruct (conn_init _ _ s) as [? s1]. cbn.
  destruct (tls_arm _ _ _) as [? s2]. by destruct (conn_connect _ _ _ s2).
Qed.
Lemma connect_until_ok c host port ms turns s : tls_ok (st_own s) -> tls_ok (st_own (snd (connect_until c host port ms turns s))).
Proof.
  assert (Hk : keeps (owner tls_ok) (connect_until c host port ms turns)); [|apply Hk].
  pose proof (owner_view tls_ok) as Hv. unfold connect_until, conn_set_dns_cache, conn_init.
  keep; try (by intros s0); auto using owner_arm, owner_connect, owner_wait, stable_ok.
Qed.
Lemma connect_until_true c host port ms turns s s1 :
  connect_until c host port ms turns s = (true, s1) -> tls_over (st_own s1) = true.
Proof.
  unfold connect_until, mbind, M_bind. destruct (conn_init _ _ s) as [? s2]. cbn. destruct (tls_arm _ _ _) as [? s3].
  destruct (conn_connect _ _ _ s3) as [? s4]. apply wait_true.
Qed.

(** A connect that returns: without an error the stream is established and
    has not failed; with one it has failed or is closed; the deadline is off. *)
Theorem tls_connect_result c host port ms turns s s' :
  st_own s = tls_stream_zero -> tls_stream_connect c host port ms turns s = (true, s') ->
  ts_timer (st_own s') = None /\
  match tls_stream_error (Some (st_own s')) with
  | None => ts_established (st_own s') = true /\ ts_fail (st_own s') = false
  | Some _ => ts_fail (st_own s') = true \/ ts_closed (st_own s') = true
  end.
Proof.
  intros Hz. rewrite connect_split. pose proof (connect_until_ok c host port ms turns s) as Hok.
  unfold mbind, M_bind. destruct (connect_until c host port ms turns s) as [[|] s1] eqn:E; [|done].
  apply connect_until_true in E. intros Hd. destruct (connect_done_spec s1 s') as ([Hl Hov] & Ht & Hest); [|done..|].
  { apply Hok. rewrite Hz. split; [done|]. by intros [? ?]. }
  split; [done|]. destruct Hl as [Hf He]. cbn. destruct (ts_err (st_own s')) eqn:Ee; [by apply He|].
  split; [by apply Hest|]. destruct (ts_fail (st_own s')); [|done]. by destruct (Hf eq_refl).
Qed.

(** ** Reading

    What a read has come to, by the last answer [r] of the engine: its bytes; zero
    or -1 on a stream that has ended (the engine said so, or the transport is closed or
    has failed) without or with an error; -2 on an open stream past the deadline with
    nothing to read; [None] (still waiting) on an open one before it. *)
Definition read_blocks (r : bytes + bool) : Prop := r <> inr false /\ forall d, r = inl d -> d = [].
Definition read_says (r : bytes + bool) (o : TlsStream) (res : option (Z * bytes)) : Prop :=
  let ended := r = inr false \/ ts_closed o = true \/ ts_fail o = true in
  match res with
  | Some (rc, data) =>
      (data <> [] /\ r = inl data /\ rc = zlen data) \/
      (data = [] /\ (forall d, r = inl d -> d = []) /\
       ((rc = 0 /\ ts_err o = None /\ ts_fail o = false /\ ended) \/
        (rc = -1 /\ is_Some (ts_err o) /\ ended) \/
        (rc = -2 /\ r <> inr false /\ ts_closed o = false /\ ts_fail o = false /\
         ts_established o = true /\ ts_timed_out o = true)))
  | None => read_blocks r /\ ts_closed o = false /\ ts_fail o = false /\ ts_timed_out o = false
  end.
Definition read_post (cap : nat) (s : St W TlsStream) (res : option (Z * bytes)) : Prop :=
  exists p r, ssl_pump_read_plaintext p cap = (r, c_pump (st_conn s)) /\ read_says r (st_own s) res.
Lemma read_now_says r o : live o -> read_says r o (tls_read_now r o).
Proof.
  intros [[Hf He] Hov]. unfold tls_read_now. set (d := match r with inl d => d | inr _ => [] end).
  destruct (Nat.ltb_spec 0 (length d)) as [Hd|Hd].
  { left. subst d. destruct r as [d|b]; [|cbn in Hd; lia]. by destruct d; [cbn in Hd; lia|]. }
  assert (Hnil : forall d', r = inl d' -> d' = []) by (intros d' ->; subst d; destruct d'; [done|cbn in Hd; lia]).
  destruct (bool_decide _ || _ || _) eqn:E.
  - assert (Hend : r = inr false \/ ts_closed o = true \/ ts_fail o = true)
      by (apply orb_true_iff in E as [[E%bool_decide_eq_true|E]%orb_true_iff|E]; auto).
    right. split; [done|]. split; [done|]. destruct (ts_err o) eqn:Ee; [right; left; split_and!; [done|by eexists|done]|left].
    split_and!; try done. destruct (ts_fail o); [|done]. by destruct (Hf eq_refl).
  - apply orb_false_elim in E as [[Er%bool_decide_eq_false Ec]%orb_false_elim Efl].
    destruct (ts_timed_out o) eqn:Et; [|by split_and!]. right. split; [done|]. split; [done|]. right. right.
    unfold tls_over in Hov. rewrite Ec, Efl, !orb_false_r in Hov. done.
Qed.
Lemma read_loop_post cap turns s res s' :
  tls_live s -> tls_read_loop cap turns s = (res, s') -> read_post cap s' res /\ tls_live s'.
Proof.
  revert s. induction turns as [|evs turns IH]; intros s Hs; cbn [tls_read_loop]; unfold mbind, M_bind, gets, get, on_pump;
    destruct (ssl_pump_read_plaintext (c_pump (st_conn s)) cap) as [r p] eqn:Er; cbn;
    pose proof (read_now_says r (st_own s) Hs) as Hr; destruct (tls_read_now r (st_own s)) as [[rc' data']|] eqn:E;
    try (intros [= <- <-]; split; [by exists (c_pump (st_conn s)), r|done]).
  match goal with |- context [tls_loop_run evs ?s1] =>
    pose proof (owner_loop live stable_live evs s1 Hs) as Hl; destruct (tls_loop_run evs s1) as [u s2] end. by apply IH.
Qed.

Lemma arm_conn ms which s : st_conn (snd (tls_arm ms which s)) = st_conn s /\ ts_err (st_own (snd (tls_arm ms which s))) = ts_err (st_own s).
Proof.
  unfold tls_arm. destruct (ms =? 0); [done|]. unfold mbind, M_bind, env. destruct (uv_hrtime _) as [now w]. unfold when.
  by destruct (negb _).
Qed.
Definition read_armed ms s : St W TlsStream := snd (tls_arm ms TlsTimer_Recv (snd (upd_own (set_ts_timed_out false) s))).
Lemma read_split cap ms turns s : tls_over (st_own s) = true -> cap <> 0%nat ->
  tls_stream_read cap ms turns s =
  let '(r, s2) := tls_read_loop cap turns (read_armed ms s) in
  (r, match r with Some _ => snd (upd_own (set_ts_timer None) s2) | None => s2 end).
Proof.
  intros Hov Hcap. unfold tls_stream_read, read_armed, mbind, M_bind, gets, get. cbn beta iota. unfold compose, id.
  assert (Hz : negb (ts_established (st_own s)) && negb (ts_closed (st_own s)) && negb (ts_fail (st_own s)) = false).
  { unfold tls_over in Hov. by destruct (ts_established _), (ts_fail _), (ts_closed _). }
  rewrite Hz, (proj2 (Nat.eqb_neq _ _)) by done. cbn [upd_own snd]. destruct (tls_arm _ _ _) as [u s1]. cbn [snd].
  destruct (tls_read_loop cap turns s1) as [[x|] s2]; done.
Qed.
(** C40. A read on a stream whose connect has returned, by the last answer of the
    engine: bytes are returned as they are; zero means that the engine or the
    transport has ended (or an empty buffer) and no error is recorded, -1 the same
    with an error recorded; -2 that the stream is open, nothing can be read and the
    deadline has passed; and the call goes on waiting only on an open stream with
    nothing to read before its deadline. What the engine has decrypted is returned
    before anything else, without a turn of the loop. (A fatal error of the engine
    ends the stream with no error recorded, so it reads as zero, where the
    header announces -1: [tls_read_error_is_close].) *)
Theorem tls_read_result cap ms turns s :
  tls_live s ->
  (forall res s', tls_stream_read cap ms turns s = (res, s') ->
     (cap = 0%nat /\ res = Some (0, []) /\ s' = s) \/
     (cap <> 0%nat /\ read_post cap s' res /\ tls_live s' /\ (res <> None -> ts_timer (st_own s') = None))) /\
  (forall data p, cap <> 0%nat -> ssl_pump_read_plaintext (c_pump (st_conn s)) cap = (inl data, p) -> data <> [] ->
     fst (tls_stream_read cap ms turns s) = Some (zlen data, data)).
Proof.
  intros Hs. destruct (Nat.eq_dec cap 0) as [->|Hcap].
  { split; [|done]. intros res s'. unfold tls_stream_read, mbind, M_bind, gets, get. cbn beta iota. unfold compose, id.
    destruct Hs as [_ Hov]. unfold tls_over in Hov. destruct (ts_established _), (ts_fail _), (ts_closed _); try done; intros [= <- <-]; by left. }
  rewrite read_split by (done || apply Hs).
  assert (Hs1 : tls_live (read_armed ms s)) by (apply (owner_arm live stable_live), (st_timed_out live stable_live), Hs).
  destruct (arm_conn ms TlsTimer_Recv (snd (upd_own (set_ts_timed_out false) s))) as [Hc _]. fold (read_armed ms s) in Hc. split.
  - intros res s'. destruct (tls_read_loop cap turns (read_armed ms s)) as [x s2] eqn:E.
    apply read_loop_post in E as [(q & r & Hq & Hr) Hl]; [|done]. intros [= <- <-]. right. split; [done|].
    destruct x as [[rc data]|]; [|split_and!; [by exists q, r|done|done]].
    split_and!; [exists q, r; done| |done]. by apply (st_timer live stable_live).
  - intros data p _ Hr Hd.
    assert (E : exists s2, tls_read_loop cap turns (read_armed ms s) = (Some (zlen data, data), s2)); [|by destruct E as [s2 ->]].
    destruct turns; cbn [tls_read_loop]; unfold mbind, M_bind, on_pump, gets, get; rewrite Hc; cbn [st_conn snd upd_own]; rewrite Hr;
      cbn; unfold tls_read_now; (rewrite (proj2 (Nat.ltb_lt _ _)) by (destruct data; [done|cbn; lia])); by eexists.
Qed.

(** A read does not tell a TLS error from the end of the stream: on a
    healthy stream, an [SSL_read] that fails with anything but a want (a bad
    record as much as a close_notify) gives zero, the result of a clean close,
    and the stream keeps no error. *)
Theorem tls_read_error_is_close cap ms turns s ssl r d ssl' :
  cap <> 0%nat -> ts_established (st_own s) = true -> ts_err (st_own s) = None ->
  pump_ssl (c_pump (st_conn s)) = Some ssl -> SSL_read ssl cap = (r, d, ssl') -> r <= 0 ->
  SSL_get_error ssl' r <> SSL_ERROR_WANT_READ -> SSL_get_error ssl' r <> SSL_ERROR_WANT_WRITE ->
  fst (tls_stream_read cap ms turns s) = Some (0, []) /\
  tls_stream_error (Some (st_own (snd (tls_stream_read cap ms turns s)))) = None.
Proof.
  intros Hcap He Hn Hp Hr Hle Hw1 Hw2.
  assert (Hread : fst (ssl_pump_read_plaintext (c_pump (st_conn s)) cap) = inr false).
  { unfold ssl_pump_read_plaintext. rewrite Hp, Hr, (proj2 (Z.ltb_ge _ _)) by lia. cbv zeta. destruct (Z.eqb_spec (SSL_get_error ssl' r) SSL_ERROR_WANT_READ); [done|].
    destruct (Z.eqb_spec (SSL_get_error ssl' r) SSL_ERROR_WANT_WRITE); [done|]. cbn. by destruct (_ =? _). }
  destruct (ssl_pump_read_plaintext (c_pump (st_conn s)) cap) as [r' p'] eqn:Ep. cbn in Hread. subst r'.
  rewrite read_split; [|unfold tls_over; by rewrite He|done].
  destruct (arm_conn ms TlsTimer_Recv (snd (upd_own (set_ts_timed_out false) s))) as [Hc Herr]. fold (read_armed ms s) in Hc, Herr.
  assert (E : exists s2, tls_read_loop cap turns (read_armed ms s) = (Some (0, []), s2) /\ ts_err (st_own s2) = None).
  { destruct turns; cbn [tls_read_loop]; unfold mbind, M_bind, on_pump, gets, get; rewrite Hc; cbn [st_conn snd upd_own]; rewrite Ep;
      cbn; unfold tls_read_now; cbn; unfold compose, id; cbn in Herr |- *; rewrite Herr, Hn; eexists; (split; [done|]); cbn; congruence. }
  destruct E as (s2 & -> & He2). done.
Qed.
End tls_keeps.

(** ** Runs

    The TLS engine and the loop of the runs of [TcpRequest]; then an engine
    whose reads fail with [SSL_ERROR_SSL], as on a bad record. *)
Section runs.
#[local] Existing Instance demo_ssl.
#[local] Existing Instance demo_uv.
Definition demo_tls_client : TlsClient := mkTlsClient _ (Some tt) tt 1000.
Definition demo_tls_state : St DemoUv TlsStream :=
  mkSt (conn_zero None tt false) (mkTcp false false false false []) (mkDemoUv false) (dns_cache_init 0) tls_stream_zero.
Definition demo_tls_turns : list (list tls_event) := [[TlsEvResolved (inr [1])]; [TlsEvConnected 0]].
Abbreviation demo_tls_connect := (tls_stream_connect demo_tls_client (lit "a.b") 993 0 demo_tls_turns demo_tls_state).
Definition demo_tls_open : St DemoUv TlsStream := snd demo_tls_connect.
Lemma tls_connect_result_witness :
  ts_err (st_own demo_tls_open) = None /\ ts_timer (st_own demo_tls_open) = None /\
  match tls_stream_error (Some (st_own demo_tls_open)) with
  | None => ts_established (st_own demo_tls_open) = true /\ ts_fail (st_own demo_tls_open) = false
  | Some _ => ts_fail (st_own demo_tls_open) = true \/ ts_closed (st_own demo_tls_open) = true
  end.
Proof.
  split; [vm_compute; reflexivity|].
  apply (tls_connect_result demo_tls_client (lit "a.b") 993 0 demo_tls_turns demo_tls_state); [reflexivity|]. vm_compute. reflexivity.
Defined.
(** A read that waits for a turn with two bytes of the peer. *)
Abbreviation demo_tls_read := (tls_stream_read 16 500 [[TlsEvRead (ReadData [104; 105])]] demo_tls_open).
Lemma tls_read_result_witness :
  fst demo_tls_read = Some (2, [104; 105]) /\
  ((16%nat = 0%nat /\ Some (2, [104; 105]) = Some (0, []) /\ snd demo_tls_read = demo_tls_open) \/
   (16%nat <> 0%nat /\ read_post 16 (snd demo_tls_read) (Some (2, [104; 105])) /\ tls_live (snd demo_tls_read) /\
    (Some (2, [104; 105]) <> None -> ts_timer (st_own (snd demo_tls_read)) = None))).
Proof.
  assert (E : fst demo_tls_read = Some (2, [104; 105])) by (vm_compute; reflexivity). split; [exact E|].
  assert (Hl : tls_live demo_tls_open).
  { split; [split; [vm_compute; discriminate|vm_compute; by intros [? ?]]|vm_compute; reflexivity]. }
  apply (proj1 (tls_read_result 16 500 [[TlsEvRead (ReadData [104; 105])]] demo_tls_open Hl) (Some (2, [104; 105])) (snd demo_tls_read)).
  rewrite <- E. apply surjective_pairing.
Defined.
End runs.

Section broken.
#[local] Instance broken_ssl : BoringSSL := {|
  SSL := unit; SSL_CTX := unit; SSL_SESSION := unit; TlsProfile := unit;
  SSL_new _ := Some tt; configure_ssl s _ _ _ _ := Some s; SSL_session_reused _ := false;
  SSL_SESSION_early_data_capable _ := false; SSL_set_early_data_enabled s := s; SSL_in_early_data _ := false;
  SSL_early_data_accepted _ := false; SSL_do_handshake s := (1, s); SSL_get_error _ _ := 1; SSL_get0_alpn_selected _ := [];
  SSL_read s _ := (-1, [], s); SSL_write s b := (zlen b, s); BIO_write_rbio s _ := s; BIO_read_wbio s _ := ([], s);
  ERR_peek_last_error _ := 1; ERR_is_wrong_version_on_early_data _ := false; ERR_error_string _ := []
|}.
#[local] Existing Instance demo_uv.
Definition broken_client : TlsClient := mkTlsClient _ (Some tt) tt 1000.
Definition broken_state : St DemoUv TlsStream :=
  mkSt (conn_zero None tt false) (mkTcp false false false false []) (mkDemoUv false) (dns_cache_init 0) tls_stream_zero.
Definition broken_open : St DemoUv TlsStream :=
  snd (tls_stream_connect broken_client (lit "a.b") 993 0 [[TlsEvResolved (inr [1])]; [TlsEvConnected 0]] broken_state).
Lemma tls_read_error_is_close_witness :
  fst (tls_stream_read 16 500 [] broken_open) = Some (0, []) /\
  tls_stream_error (Some (st_own (snd (tls_stream_read 16 500 [] broken_open)))) = None.
Proof.
  apply (tls_read_error_is_close 16 500 [] broken_open tt (-1) [] tt); vm_compute; done || discriminate.
Defined.
End broken.
