(* ===== verification/QuicTypes.v ===== *)
(** * The state of a QUIC connection: net/quic_connection.h

    The [QuicConnection] and what it stands on: the handles libuv runs for it
    (the UDP socket, the timer, the control channel to a SOCKS5 proxy, a resolver
    request) and ngtcp2, an interface ([QuicApi]) beside [Uv] and [BoringSSL]
    whose answers are left open. The connection lives inside of its owner's
    request ([Own]), in one arena: once that is recycled ([qs_freed]) any access
    is a use of memory that was given back, and the computation fails ([bad]).
    What leaves the program and what the streams are given is recorded in
    [qs_net]. *)
From S2P Require Import Prelude String8 U8Buf DnsCache Proxy H3Control.
From S2P Require Export PartialState ConnTypes.

Inductive QuicState :=
| QuicState_Idle | QuicState_Resolving | QuicState_Handshaking | QuicState_EarlyData | QuicState_Established
| QuicState_Closing | QuicState_Failed.
#[export] Instance QuicState_eq_dec : EqDecision QuicState.
Proof. solve_decision. Defined.
Inductive QPhase := QPhase_Greeting | QPhase_Auth | QPhase_Associate | QPhase_Done.
Record QuicSendBuf := mkSendBuf {
  sb_id : Z;
  sb_data : U8Buf;
  sb_off : nat;
  sb_fin : bool;
  sb_fin_sent : bool;
  sb_blocked : bool
}.
(** [ArrayCount(send_bufs)] *)
Definition QUIC_SEND_BUFS : nat := 32.

(** What a call of [ngtcp2_conn_writev_stream] returns: an error, a packet
    ([[]] when there is nothing to send), [NGTCP2_ERR_WRITE_MORE], or one of the
    three that hold a stream back (data blocked, shut, not found). *)
Inductive NgWrite := NgPacket (pkt : bytes) | NgWriteMore | NgStreamBlocked | NgWriteError (rv : Z).
(** The callbacks of a [ngtcp2_conn_read_pkt]. *)
Section callbacks.
Context `{BoringSSL}.
Inductive NgCallback :=
| CbHandshakeCompleted (ssl : SSL)       (* the TLS engine at that moment *)
| CbStreamData (sid : Z) (data : bytes) (fin : bool)
| CbStreamClose (sid : Z).
End callbacks.
(** The transport parameters set for [ngtcp2_conn_client_new]. *)
Record QuicParams := mkQuicParams {
  tp_h3 : Http3Profile;
  tp_max_idle_timeout : Z;
  tp_max_udp_payload_size : option Z;      (* [None]: ngtcp2's default *)
  tp_path : bytes                          (* the remote address *)
}.
Class QuicApi `{BoringSSL} (W : Type) := {
  uv_udp_bind : W -> bytes -> Z * W;
  uv_udp_connect : W -> bytes -> Z * W;
  uv_udp_try_send : W -> bytes -> W;
  RAND_bytes_ok : W -> bool * W;
  configure_client_context : W -> SSL_CTX -> Z * W;
  ngtcp2_conn_client_new : W -> SSL -> QuicParams -> Z * W;
  ngtcp2_conn_set_0rtt_tp : W -> bytes -> Z * W;
  ngtcp2_conn_encode_0rtt_tp : W -> bytes;
  ngtcp2_conn_open_bidi_stream : W -> (Z + Z) * W;         (* an error or the stream's id *)
  ngtcp2_conn_open_uni_stream : W -> (Z + Z) * W;
  ngtcp2_conn_writev_stream : W -> option (Z * bytes * bool) -> Z -> NgWrite * Z * W;    (* stream, data, fin; the time; also [wdatalen] *)
  ngtcp2_conn_shutdown_stream : W -> Z -> Z -> W;
  ngtcp2_conn_extend : W -> Z -> Z -> W;                   (* the windows of a stream and of the connection *)
  ngtcp2_conn_get_expiry : W -> Z;
  ngtcp2_conn_handle_expiry : W -> Z -> Z * W;
  ngtcp2_conn_read_pkt : W -> bytes -> bytes -> Z -> list NgCallback * Z * W;            (* from, the packet, the time *)
  ngtcp2_conn_del : W -> W;
  ngtcp2_strerror : Z -> bytes;
  (* a socket address: its type in SOCKS5, address bytes and port *)
  sockaddr_parts : bytes -> option (Z * bytes * Z);
  sockaddr_make : Z -> bytes -> Z -> bytes
}.

(** A handle of libuv, and the three that a connection has. *)
Inductive HandleState := HNone | HOpen | HClosing.
#[export] Instance HandleState_eq_dec : EqDecision HandleState.
Proof. solve_decision. Defined.
Inductive HandleKind := HTimer | HUdp | HCtrl.
#[export] Instance HandleKind_eq_dec : EqDecision HandleKind.
Proof. solve_decision. Defined.
(** The resolver callbacks. *)
Inductive Resolver := RDirect | RProxy | RTarget.
Record Handles := mkHandles {
  h_timer : HandleState;
  h_udp : HandleState;
  h_ctrl : HandleState;
  h_resolving : option Resolver;     (* the request in flight *)
  h_connecting : bool;               (* the connect request of the control channel *)
  h_reading : bool;                  (* the control channel reads *)
  h_receiving : bool;                (* the socket receives *)
  h_expiry : option Z                (* the timer's, in ms *)
}.
Definition handle_of (hk : HandleKind) (h : Handles) : HandleState :=
  match hk with HTimer => h_timer h | HUdp => h_udp h | HCtrl => h_ctrl h end.
Definition set_handle (hk : HandleKind) (v : HandleState) (h : Handles) : Handles :=
  match hk with
  | HTimer => mkHandles v (h_udp h) (h_ctrl h) (h_resolving h) (h_connecting h) (h_reading h) (h_receiving h) None
  | HUdp => mkHandles (h_timer h) v (h_ctrl h) (h_resolving h) (h_connecting h) (h_reading h) false (h_expiry h)
  | HCtrl => mkHandles (h_timer h) (h_udp h) v (h_resolving h) (h_connecting h) false (h_receiving h) (h_expiry h)
  end.
Definition set_h_resolving (v : option Resolver) (h : Handles) : Handles :=
  mkHandles (h_timer h) (h_udp h) (h_ctrl h) v (h_connecting h) (h_reading h) (h_receiving h) (h_expiry h).
Definition set_h_connecting (v : bool) (h : Handles) : Handles :=
  mkHandles (h_timer h) (h_udp h) (h_ctrl h) (h_resolving h) v (h_reading h) (h_receiving h) (h_expiry h).
Definition set_h_reading (h : Handles) : Handles :=
  mkHandles (h_timer h) (h_udp h) (h_ctrl h) (h_resolving h) (h_connecting h) true (h_receiving h) (h_expiry h).
Definition set_h_receiving (h : Handles) : Handles :=
  mkHandles (h_timer h) (h_udp h) (h_ctrl h) (h_resolving h) (h_connecting h) (h_reading h) true (h_expiry h).
Definition set_h_expiry (v : option Z) (h : Handles) : Handles :=
  mkHandles (h_timer h) (h_udp h) (h_ctrl h) (h_resolving h) (h_connecting h) (h_reading h) (h_receiving h) v.
Definition no_handles : Handles := mkHandles HNone HNone HNone None false false false None.

Section types.
Context `{BoringSSL}.
Record QuicConnection := mkQuic {
  k_ctx : option SSL_CTX;
  k_tls : TlsProfile;
  k_h3 : Http3Profile;
  k_host : bytes;
  k_port : Z;
  k_state : QuicState;
  k_bind_addr : option bytes;
  k_udp_inited : bool;
  k_timer_inited : bool;
  k_ready_fired : bool;
  k_in_recv : bool;
  k_handles_closing : Z;
  k_ssl : option SSL;
  k_conn (* an ngtcp2 connection exists *) : bool;
  k_remote_addr : bytes;
  k_send_bufs (* send_bufs[0 .. send_count) *) : list QuicSendBuf;
  k_ech_config : bytes;
  k_resume_session : option SSL_SESSION;
  k_want_early_data : bool;
  k_early_fired : bool;
  k_early_rejected : bool;
  k_early_tp (* early_tp[0 .. early_tp_len) *) : bytes;
  k_on_early_ready (* the callback is set *) : bool;
  k_t_connect_start : Z;
  k_t_resolved : Z;
  k_t_established : Z;
  k_dns_cache (* a cache is attached *) : bool;
  k_dns_was_cached : bool;
  k_proxy : ProxyConfig;
  k_proxied : bool;
  k_ctrl_inited : bool;
  k_proxy_phase : QPhase;
  k_nbuf (* nbuf[0 .. nlen) *) : bytes;
  k_proxy_addr : bytes;
  k_relay_addr : bytes;
  k_udp_hdr (* udp_hdr[0 .. udp_hdr_len) *) : bytes
}.
Definition set_k_host (v : bytes) (k : QuicConnection) : QuicConnection :=
  mkQuic (k_ctx k) (k_tls k) (k_h3 k) v (k_port k) (k_state k) (k_bind_addr k) (k_udp_inited k) (k_timer_inited k)
    (k_ready_fired k) (k_in_recv k) (k_handles_closing k) (k_ssl k) (k_conn k) (k_remote_addr k) (k_send_bufs k)
    (k_ech_config k) (k_resume_session k) (k_want_early_data k) (k_early_fired k) (k_early_rejected k) (k_early_tp k)
    (k_on_early_ready k) (k_t_connect_start k) (k_t_resolved k) (k_t_established k) (k_dns_cache k) (k_dns_was_cached k)
    (k_proxy k) (k_proxied k) (k_ctrl_inited k) (k_proxy_phase k) (k_nbuf k) (k_proxy_addr k) (k_relay_addr k) (k_udp_hdr k).
Definition set_k_port (v : Z) (k : QuicConnection) : QuicConnection :=
  mkQuic (k_ctx k) (k_tls k) (k_h3 k) (k_host k) v (k_state k) (k_bind_addr k) (k_udp_inited k) (k_timer_inited k)
    (k_ready_fired k) (k_in_recv k) (k_handles_closing k) (k_ssl k) (k_conn k) (k_remote_addr k) (k_send_bufs k)
    (k_ech_config k) (k_resume_session k) (k_want_early_data k) (k_early_fired k) (k_early_rejected k) (k_early_tp k)
    (k_on_early_ready k) (k_t_connect_start k) (k_t_resolved k) (k_t_established k) (k_dns_cache k) (k_dns_was_cached k)
    (k_proxy k) (k_proxied k) (k_ctrl_inited k) (k_proxy_phase k) (k_nbuf k) (k_proxy_addr k) (k_relay_addr k) (k_udp_hdr k).
Definition set_k_state (v : QuicState) (k : QuicConnection) : QuicConnection :=
  mkQuic (k_ctx k) (k_tls k) (k_h3 k) (k_host k) (k_port k) v (k_bind_addr k) (k_udp_inited k) (k_timer_inited k)
    (k_ready_fired k) (k_in_recv k) (k_handles_closing k) (k_ssl k) (k_conn k) (k_remote_addr k) (k_send_bufs k)
    (k_ech_config k) (k_resume_session k) (k_want_early_data k) (k_early_fired k) (k_early_rejected k) (k_early_tp k)
    (k_on_early_ready k) (k_t_connect_start k) (k_t_resolved k) (k_t_established k) (k_dns_cache k) (k_dns_was_cached k)
    (k_proxy k) (k_proxied k) (k_ctrl_inited k) (k_proxy_phase k) (k_nbuf k) (k_proxy_addr k) (k_relay_addr k) (k_udp_hdr k).
Definition set_k_bind_addr (v : option bytes) (k : QuicConnection) : QuicConnection :=
  mkQuic (k_ctx k) (k_tls k) (k_h3 k) (k_host k) (k_port k) (k_state k) v (k_udp_inited k) (k_timer_inited k)
    (k_ready_fired k) (k_in_recv k) (k_handles_closing k) (k_ssl k) (k_conn k) (k_remote_addr k) (k_send_bufs k)
    (k_ech_config k) (k_resume_session k) (k_want_early_data k) (k_early_fired k) (k_early_rejected k) (k_early_tp k)
    (k_on_early_ready k) (k_t_connect_start k) (k_t_resolved k) (k_t_established k) (k_dns_cache k) (k_dns_was_cached k)
    (k_proxy k) (k_proxied k) (k_ctrl_inited k) (k_proxy_phase k) (k_nbuf k) (k_proxy_addr k) (k_relay_addr k) (k_udp_hdr k).
Definition set_k_udp_inited (v : bool) (k : QuicConnection) : QuicConnection :=
  mkQuic (k_ctx k) (k_tls k) (k_h3 k) (k_host k) (k_port k) (k_state k) (k_bind_addr k) v (k_timer_inited k)
    (k_ready_fired k) (k_in_recv k) (k_handles_closing k) (k_ssl k) (k_conn k) (k_remote_addr k) (k_send_bufs k)
    (k_ech_config k) (k_resume_session k) (k_want_early_data k) (k_early_fired k) (k_early_rejected k) (k_early_tp k)
    (k_on_early_ready k) (k_t_connect_start k) (k_t_resolved k) (k_t_established k) (k_dns_cache k) (k_dns_was_cached k)
    (k_proxy k) (k_proxied k) (k_ctrl_inited k) (k_proxy_phase k) (k_nbuf k) (k_proxy_addr k) (k_relay_addr k) (k_udp_hdr k).
Definition set_k_timer_inited (v : bool) (k : QuicConnection) : QuicConnection :=
  mkQuic (k_ctx k) (k_tls k) (k_h3 k) (k_host k) (k_port k) (k_state k) (k_bind_addr k) (k_udp_inited k) v (k_ready_fired
    k) (k_in_recv k) (k_handles_closing k) (k_ssl k) (k_conn k) (k_remote_addr k) (k_send_bufs k) (k_ech_config k)
    (k_resume_session k) (k_want_early_data k) (k_early_fired k) (k_early_rejected k) (k_early_tp k) (k_on_early_ready k)
    (k_t_connect_start k) (k_t_resolved k) (k_t_established k) (k_dns_cache k) (k_dns_was_cached k) (k_proxy k) (k_proxied
    k) (k_ctrl_inited k) (k_proxy_phase k) (k_nbuf k) (k_proxy_addr k) (k_relay_addr k) (k_udp_hdr k).
Definition set_k_ready_fired (v : bool) (k : QuicConnection) : QuicConnection :=
  mkQuic (k_ctx k) (k_tls k) (k_h3 k) (k_host k) (k_port k) (k_state k) (k_bind_addr k) (k_udp_inited k) (k_timer_inited
    k) v (k_in_recv k) (k_handles_closing k) (k_ssl k) (k_conn k) (k_remote_addr k) (k_send_bufs k) (k_ech_config k)
    (k_resume_session k) (k_want_early_data k) (k_early_fired k) (k_early_rejected k) (k_early_tp k) (k_on_early_ready k)
    (k_t_connect_start k) (k_t_resolved k) (k_t_established k) (k_dns_cache k) (k_dns_was_cached k) (k_proxy k) (k_proxied
    k) (k_ctrl_inited k) (k_proxy_phase k) (k_nbuf k) (k_proxy_addr k) (k_relay_addr k) (k_udp_hdr k).
Definition set_k_in_recv (v : bool) (k : QuicConnection) : QuicConnection :=
  mkQuic (k_ctx k) (k_tls k) (k_h3 k) (k_host k) (k_port k) (k_state k) (k_bind_addr k) (k_udp_inited k) (k_timer_inited
    k) (k_ready_fired k) v (k_handles_closing k) (k_ssl k) (k_conn k) (k_remote_addr k) (k_send_bufs k) (k_ech_config k)
    (k_resume_session k) (k_want_early_data k) (k_early_fired k) (k_early_rejected k) (k_early_tp k) (k_on_early_ready k)
    (k_t_connect_start k) (k_t_resolved k) (k_t_established k) (k_dns_cache k) (k_dns_was_cached k) (k_proxy k) (k_proxied
    k) (k_ctrl_inited k) (k_proxy_phase k) (k_nbuf k) (k_proxy_addr k) (k_relay_addr k) (k_udp_hdr k).
Definition set_k_handles_closing (v : Z) (k : QuicConnection) : QuicConnection :=
  mkQuic (k_ctx k) (k_tls k) (k_h3 k) (k_host k) (k_port k) (k_state k) (k_bind_addr k) (k_udp_inited k) (k_timer_inited
    k) (k_ready_fired k) (k_in_recv k) v (k_ssl k) (k_conn k) (k_remote_addr k) (k_send_bufs k) (k_ech_config k)
    (k_resume_session k) (k_want_early_data k) (k_early_fired k) (k_early_rejected k) (k_early_tp k) (k_on_early_ready k)
    (k_t_connect_start k) (k_t_resolved k) (k_t_established k) (k_dns_cache k) (k_dns_was_cached k) (k_proxy k) (k_proxied
    k) (k_ctrl_inited k) (k_proxy_phase k) (k_nbuf k) (k_proxy_addr k) (k_relay_addr k) (k_udp_hdr k).
Definition set_k_ssl (v : option SSL) (k : QuicConnection) : QuicConnection :=
  mkQuic (k_ctx k) (k_tls k) (k_h3 k) (k_host k) (k_port k) (k_state k) (k_bind_addr k) (k_udp_inited k) (k_timer_inited
    k) (k_ready_fired k) (k_in_recv k) (k_handles_closing k) v (k_conn k) (k_remote_addr k) (k_send_bufs k) (k_ech_config k)
    (k_resume_session k) (k_want_early_data k) (k_early_fired k) (k_early_rejected k) (k_early_tp k) (k_on_early_ready k)
    (k_t_connect_start k) (k_t_resolved k) (k_t_established k) (k_dns_cache k) (k_dns_was_cached k) (k_proxy k) (k_proxied
    k) (k_ctrl_inited k) (k_proxy_phase k) (k_nbuf k) (k_proxy_addr k) (k_relay_addr k) (k_udp_hdr k).
Definition set_k_conn (v : bool) (k : QuicConnection) : QuicConnection :=
  mkQuic (k_ctx k) (k_tls k) (k_h3 k) (k_host k) (k_port k) (k_state k) (k_bind_addr k) (k_udp_inited k) (k_timer_inited
    k) (k_ready_fired k) (k_in_recv k) (k_handles_closing k) (k_ssl k) v (k_remote_addr k) (k_send_bufs k) (k_ech_config k)
    (k_resume_session k) (k_want_early_data k) (k_early_fired k) (k_early_rejected k) (k_early_tp k) (k_on_early_ready k)
    (k_t_connect_start k) (k_t_resolved k) (k_t_established k) (k_dns_cache k) (k_dns_was_cached k) (k_proxy k) (k_proxied
    k) (k_ctrl_inited k) (k_proxy_phase k) (k_nbuf k) (k_proxy_addr k) (k_relay_addr k) (k_udp_hdr k).
Definition set_k_remote_addr (v : bytes) (k : QuicConnection) : QuicConnection :=
  mkQuic (k_ctx k) (k_tls k) (k_h3 k) (k_host k) (k_port k) (k_state k) (k_bind_addr k) (k_udp_inited k) (k_timer_inited
    k) (k_ready_fired k) (k_in_recv k) (k_handles_closing k) (k_ssl k) (k_conn k) v (k_send_bufs k) (k_ech_config k)
    (k_resume_session k) (k_want_early_data k) (k_early_fired k) (k_early_rejected k) (k_early_tp k) (k_on_early_ready k)
    (k_t_connect_start k) (k_t_resolved k) (k_t_established k) (k_dns_cache k) (k_dns_was_cached k) (k_proxy k) (k_proxied
    k) (k_ctrl_inited k) (k_proxy_phase k) (k_nbuf k) (k_proxy_addr k) (k_relay_addr k) (k_udp_hdr k).
Definition set_k_send_bufs (v : list QuicSendBuf) (k : QuicConnection) : QuicConnection :=
  mkQuic (k_ctx k) (k_tls k) (k_h3 k) (k_host k) (k_port k) (k_state k) (k_bind_addr k) (k_udp_inited k) (k_timer_inited
    k) (k_ready_fired k) (k_in_recv k) (k_handles_closing k) (k_ssl k) (k_conn k) (k_remote_addr k) v (k_ech_config k)
    (k_resume_session k) (k_want_early_data k) (k_early_fired k) (k_early_rejected k) (k_early_tp k) (k_on_early_ready k)
    (k_t_connect_start k) (k_t_resolved k) (k_t_established k) (k_dns_cache k) (k_dns_was_cached k) (k_proxy k) (k_proxied
    k) (k_ctrl_inited k) (k_proxy_phase k) (k_nbuf k) (k_proxy_addr k) (k_relay_addr k) (k_udp_hdr k).
Definition set_k_ech_config (v : bytes) (k : QuicConnection) : QuicConnection :=
  mkQuic (k_ctx k) (k_tls k) (k_h3 k) (k_host k) (k_port k) (k_state k) (k_bind_addr k) (k_udp_inited k) (k_timer_inited
    k) (k_ready_fired k) (k_in_recv k) (k_handles_closing k) (k_ssl k) (k_conn k) (k_remote_addr k) (k_send_bufs k) v
    (k_resume_session k) (k_want_early_data k) (k_early_fired k) (k_early_rejected k) (k_early_tp k) (k_on_early_ready k)
    (k_t_connect_start k) (k_t_resolved k) (k_t_established k) (k_dns_cache k) (k_dns_was_cached k) (k_proxy k) (k_proxied
    k) (k_ctrl_inited k) (k_proxy_phase k) (k_nbuf k) (k_proxy_addr k) (k_relay_addr k) (k_udp_hdr k).
Definition set_k_resume_session (v : option SSL_SESSION) (k : QuicConnection) : QuicConnection :=
  mkQuic (k_ctx k) (k_tls k) (k_h3 k) (k_host k) (k_port k) (k_state k) (k_bind_addr k) (k_udp_inited k) (k_timer_inited
    k) (k_ready_fired k) (k_in_recv k) (k_handles_closing k) (k_ssl k) (k_conn k) (k_remote_addr k) (k_send_bufs k)
    (k_ech_config k) v (k_want_early_data k) (k_early_fired k) (k_early_rejected k) (k_early_tp k) (k_on_early_ready k)
    (k_t_connect_start k) (k_t_resolved k) (k_t_established k) (k_dns_cache k) (k_dns_was_cached k) (k_proxy k) (k_proxied
    k) (k_ctrl_inited k) (k_proxy_phase k) (k_nbuf k) (k_proxy_addr k) (k_relay_addr k) (k_udp_hdr k).
Definition set_k_want_early_data (v : bool) (k : QuicConnection) : QuicConnection :=
  mkQuic (k_ctx k) (k_tls k) (k_h3 k) (k_host k) (k_port k) (k_state k) (k_bind_addr k) (k_udp_inited k) (k_timer_inited
    k) (k_ready_fired k) (k_in_recv k) (k_handles_closing k) (k_ssl k) (k_conn k) (k_remote_addr k) (k_send_bufs k)
    (k_ech_config k) (k_resume_session k) v (k_early_fired k) (k_early_rejected k) (k_early_tp k) (k_on_early_ready k)
    (k_t_connect_start k) (k_t_resolved k) (k_t_established k) (k_dns_cache k) (k_dns_was_cached k) (k_proxy k) (k_proxied
    k) (k_ctrl_inited k) (k_proxy_phase k) (k_nbuf k) (k_proxy_addr k) (k_relay_addr k) (k_udp_hdr k).
Definition set_k_early_fired (v : bool) (k : QuicConnection) : QuicConnection :=
  mkQuic (k_ctx k) (k_tls k) (k_h3 k) (k_host k) (k_port k) (k_state k) (k_bind_addr k) (k_udp_inited k) (k_timer_inited
    k) (k_ready_fired k) (k_in_recv k) (k_handles_closing k) (k_ssl k) (k_conn k) (k_remote_addr k) (k_send_bufs k)
    (k_ech_config k) (k_resume_session k) (k_want_early_data k) v (k_early_rejected k) (k_early_tp k) (k_on_early_ready k)
    (k_t_connect_start k) (k_t_resolved k) (k_t_established k) (k_dns_cache k) (k_dns_was_cached k) (k_proxy k) (k_proxied
    k) (k_ctrl_inited k) (k_proxy_phase k) (k_nbuf k) (k_proxy_addr k) (k_relay_addr k) (k_udp_hdr k).
Definition set_k_early_rejected (v : bool) (k : QuicConnection) : QuicConnection :=
  mkQuic (k_ctx k) (k_tls k) (k_h3 k) (k_host k) (k_port k) (k_state k) (k_bind_addr k) (k_udp_inited k) (k_timer_inited
    k) (k_ready_fired k) (k_in_recv k) (k_handles_closing k) (k_ssl k) (k_conn k) (k_remote_addr k) (k_send_bufs k)
    (k_ech_config k) (k_resume_session k) (k_want_early_data k) (k_early_fired k) v (k_early_tp k) (k_on_early_ready k)
    (k_t_connect_start k) (k_t_resolved k) (k_t_established k) (k_dns_cache k) (k_dns_was_cached k) (k_proxy k) (k_proxied
    k) (k_ctrl_inited k) (k_proxy_phase k) (k_nbuf k) (k_proxy_addr k) (k_relay_addr k) (k_udp_hdr k).
Definition set_k_early_tp (v : bytes) (k : QuicConnection) : QuicConnection :=
  mkQuic (k_ctx k) (k_tls k) (k_h3 k) (k_host k) (k_port k) (k_state k) (k_bind_addr k) (k_udp_inited k) (k_timer_inited
    k) (k_ready_fired k) (k_in_recv k) (k_handles_closing k) (k_ssl k) (k_conn k) (k_remote_addr k) (k_send_bufs k)
    (k_ech_config k) (k_resume_session k) (k_want_early_data k) (k_early_fired k) (k_early_rejected k) v (k_on_early_ready
    k) (k_t_connect_start k) (k_t_resolved k) (k_t_established k) (k_dns_cache k) (k_dns_was_cached k) (k_proxy k)
    (k_proxied k) (k_ctrl_inited k) (k_proxy_phase k) (k_nbuf k) (k_proxy_addr k) (k_relay_addr k) (k_udp_hdr k).
Definition set_k_on_early_ready (v : bool) (k : QuicConnection) : QuicConnection :=
  mkQuic (k_ctx k) (k_tls k) (k_h3 k) (k_host k) (k_port k) (k_state k) (k_bind_addr k) (k_udp_inited k) (k_timer_inited
    k) (k_ready_fired k) (k_in_recv k) (k_handles_closing k) (k_ssl k) (k_conn k) (k_remote_addr k) (k_send_bufs k)
    (k_ech_config k) (k_resume_session k) (k_want_early_data k) (k_early_fired k) (k_early_rejected k) (k_early_tp k) v
    (k_t_connect_start k) (k_t_resolved k) (k_t_established k) (k_dns_cache k) (k_dns_was_cached k) (k_proxy k) (k_proxied
    k) (k_ctrl_inited k) (k_proxy_phase k) (k_nbuf k) (k_proxy_addr k) (k_relay_addr k) (k_udp_hdr k).
Definition set_k_t_connect_start (v : Z) (k : QuicConnection) : QuicConnection :=
  mkQuic (k_ctx k) (k_tls k) (k_h3 k) (k_host k) (k_port k) (k_state k) (k_bind_addr k) (k_udp_inited k) (k_timer_inited
    k) (k_ready_fired k) (k_in_recv k) (k_handles_closing k) (k_ssl k) (k_conn k) (k_remote_addr k) (k_send_bufs k)
    (k_ech_config k) (k_resume_session k) (k_want_early_data k) (k_early_fired k) (k_early_rejected k) (k_early_tp k)
    (k_on_early_ready k) v (k_t_resolved k) (k_t_established k) (k_dns_cache k) (k_dns_was_cached k) (k_proxy k) (k_proxied
    k) (k_ctrl_inited k) (k_proxy_phase k) (k_nbuf k) (k_proxy_addr k) (k_relay_addr k) (k_udp_hdr k).
Definition set_k_t_resolved (v : Z) (k : QuicConnection) : QuicConnection :=
  mkQuic (k_ctx k) (k_tls k) (k_h3 k) (k_host k) (k_port k) (k_state k) (k_bind_addr k) (k_udp_inited k) (k_timer_inited
    k) (k_ready_fired k) (k_in_recv k) (k_handles_closing k) (k_ssl k) (k_conn k) (k_remote_addr k) (k_send_bufs k)
    (k_ech_config k) (k_resume_session k) (k_want_early_data k) (k_early_fired k) (k_early_rejected k) (k_early_tp k)
    (k_on_early_ready k) (k_t_connect_start k) v (k_t_established k) (k_dns_cache k) (k_dns_was_cached k) (k_proxy k)
    (k_proxied k) (k_ctrl_inited k) (k_proxy_phase k) (k_nbuf k) (k_proxy_addr k) (k_relay_addr k) (k_udp_hdr k).
Definition set_k_t_established (v : Z) (k : QuicConnection) : QuicConnection :=
  mkQuic (k_ctx k) (k_tls k) (k_h3 k) (k_host k) (k_port k) (k_state k) (k_bind_addr k) (k_udp_inited k) (k_timer_inited
    k) (k_ready_fired k) (k_in_recv k) (k_handles_closing k) (k_ssl k) (k_conn k) (k_remote_addr k) (k_send_bufs k)
    (k_ech_config k) (k_resume_session k) (k_want_early_data k) (k_early_fired k) (k_early_rejected k) (k_early_tp k)
    (k_on_early_ready k) (k_t_connect_start k) (k_t_resolved k) v (k_dns_cache k) (k_dns_was_cached k) (k_proxy k)
    (k_proxied k) (k_ctrl_inited k) (k_proxy_phase k) (k_nbuf k) (k_proxy_addr k) (k_relay_addr k) (k_udp_hdr k).
Definition set_k_dns_cache (v : bool) (k : QuicConnection) : QuicConnection :=
  mkQuic (k_ctx k) (k_tls k) (k_h3 k) (k_host k) (k_port k) (k_state k) (k_bind_addr k) (k_udp_inited k) (k_timer_inited
    k) (k_ready_fired k) (k_in_recv k) (k_handles_closing k) (k_ssl k) (k_conn k) (k_remote_addr k) (k_send_bufs k)
    (k_ech_config k) (k_resume_session k) (k_want_early_data k) (k_early_fired k) (k_early_rejected k) (k_early_tp k)
    (k_on_early_ready k) (k_t_connect_start k) (k_t_resolved k) (k_t_established k) v (k_dns_was_cached k) (k_proxy k)
    (k_proxied k) (k_ctrl_inited k) (k_proxy_phase k) (k_nbuf k) (k_proxy_addr k) (k_relay_addr k) (k_udp_hdr k).
Definition set_k_dns_was_cached (v : bool) (k : QuicConnection) : QuicConnection :=
  mkQuic (k_ctx k) (k_tls k) (k_h3 k) (k_host k) (k_port k) (k_state k) (k_bind_addr k) (k_udp_inited k) (k_timer_inited
    k) (k_ready_fired k) (k_in_recv k) (k_handles_closing k) (k_ssl k) (k_conn k) (k_remote_addr k) (k_send_bufs k)
    (k_ech_config k) (k_resume_session k) (k_want_early_data k) (k_early_fired k) (k_early_rejected k) (k_early_tp k)
    (k_on_early_ready k) (k_t_connect_start k) (k_t_resolved k) (k_t_established k) (k_dns_cache k) v (k_proxy k) (k_proxied
    k) (k_ctrl_inited k) (k_proxy_phase k) (k_nbuf k) (k_proxy_addr k) (k_relay_addr k) (k_udp_hdr k).
Definition set_k_proxy (v : ProxyConfig) (k : QuicConnection) : QuicConnection :=
  mkQuic (k_ctx k) (k_tls k) (k_h3 k) (k_host k) (k_port k) (k_state k) (k_bind_addr k) (k_udp_inited k) (k_timer_inited
    k) (k_ready_fired k) (k_in_recv k) (k_handles_closing k) (k_ssl k) (k_conn k) (k_remote_addr k) (k_send_bufs k)
    (k_ech_config k) (k_resume_session k) (k_want_early_data k) (k_early_fired k) (k_early_rejected k) (k_early_tp k)
    (k_on_early_ready k) (k_t_connect_start k) (k_t_resolved k) (k_t_established k) (k_dns_cache k) (k_dns_was_cached k) v
    (k_proxied k) (k_ctrl_inited k) (k_proxy_phase k) (k_nbuf k) (k_proxy_addr k) (k_relay_addr k) (k_udp_hdr k).
Definition set_k_proxied (v : bool) (k : QuicConnection) : QuicConnection :=
  mkQuic (k_ctx k) (k_tls k) (k_h3 k) (k_host k) (k_port k) (k_state k) (k_bind_addr k) (k_udp_inited k) (k_timer_inited
    k) (k_ready_fired k) (k_in_recv k) (k_handles_closing k) (k_ssl k) (k_conn k) (k_remote_addr k) (k_send_bufs k)
    (k_ech_config k) (k_resume_session k) (k_want_early_data k) (k_early_fired k) (k_early_rejected k) (k_early_tp k)
    (k_on_early_ready k) (k_t_connect_start k) (k_t_resolved k) (k_t_established k) (k_dns_cache k) (k_dns_was_cached k)
    (k_proxy k) v (k_ctrl_inited k) (k_proxy_phase k) (k_nbuf k) (k_proxy_addr k) (k_relay_addr k) (k_udp_hdr k).
Definition set_k_ctrl_inited (v : bool) (k : QuicConnection) : QuicConnection :=
  mkQuic (k_ctx k) (k_tls k) (k_h3 k) (k_host k) (k_port k) (k_state k) (k_bind_addr k) (k_udp_inited k) (k_timer_inited
    k) (k_ready_fired k) (k_in_recv k) (k_handles_closing k) (k_ssl k) (k_conn k) (k_remote_addr k) (k_send_bufs k)
    (k_ech_config k) (k_resume_session k) (k_want_early_data k) (k_early_fired k) (k_early_rejected k) (k_early_tp k)
    (k_on_early_ready k) (k_t_connect_start k) (k_t_resolved k) (k_t_established k) (k_dns_cache k) (k_dns_was_cached k)
    (k_proxy k) (k_proxied k) v (k_proxy_phase k) (k_nbuf k) (k_proxy_addr k) (k_relay_addr k) (k_udp_hdr k).
Definition set_k_proxy_phase (v : QPhase) (k : QuicConnection) : QuicConnection :=
  mkQuic (k_ctx k) (k_tls k) (k_h3 k) (k_host k) (k_port k) (k_state k) (k_bind_addr k) (k_udp_inited k) (k_timer_inited
    k) (k_ready_fired k) (k_in_recv k) (k_handles_closing k) (k_ssl k) (k_conn k) (k_remote_addr k) (k_send_bufs k)
    (k_ech_config k) (k_resume_session k) (k_want_early_data k) (k_early_fired k) (k_early_rejected k) (k_early_tp k)
    (k_on_early_ready k) (k_t_connect_start k) (k_t_resolved k) (k_t_established k) (k_dns_cache k) (k_dns_was_cached k)
    (k_proxy k) (k_proxied k) (k_ctrl_inited k) v (k_nbuf k) (k_proxy_addr k) (k_relay_addr k) (k_udp_hdr k).
Definition set_k_nbuf (v : bytes) (k : QuicConnection) : QuicConnection :=
  mkQuic (k_ctx k) (k_tls k) (k_h3 k) (k_host k) (k_port k) (k_state k) (k_bind_addr k) (k_udp_inited k) (k_timer_inited
    k) (k_ready_fired k) (k_in_recv k) (k_handles_closing k) (k_ssl k) (k_conn k) (k_remote_addr k) (k_send_bufs k)
    (k_ech_config k) (k_resume_session k) (k_want_early_data k) (k_early_fired k) (k_early_rejected k) (k_early_tp k)
    (k_on_early_ready k) (k_t_connect_start k) (k_t_resolved k) (k_t_established k) (k_dns_cache k) (k_dns_was_cached k)
    (k_proxy k) (k_proxied k) (k_ctrl_inited k) (k_proxy_phase k) v (k_proxy_addr k) (k_relay_addr k) (k_udp_hdr k).
Definition set_k_proxy_addr (v : bytes) (k : QuicConnection) : QuicConnection :=
  mkQuic (k_ctx k) (k_tls k) (k_h3 k) (k_host k) (k_port k) (k_state k) (k_bind_addr k) (k_udp_inited k) (k_timer_inited
    k) (k_ready_fired k) (k_in_recv k) (k_handles_closing k) (k_ssl k) (k_conn k) (k_remote_addr k) (k_send_bufs k)
    (k_ech_config k) (k_resume_session k) (k_want_early_data k) (k_early_fired k) (k_early_rejected k) (k_early_tp k)
    (k_on_early_ready k) (k_t_connect_start k) (k_t_resolved k) (k_t_established k) (k_dns_cache k) (k_dns_was_cached k)
    (k_proxy k) (k_proxied k) (k_ctrl_inited k) (k_proxy_phase k) (k_nbuf k) v (k_relay_addr k) (k_udp_hdr k).
Definition set_k_relay_addr (v : bytes) (k : QuicConnection) : QuicConnection :=
  mkQuic (k_ctx k) (k_tls k) (k_h3 k) (k_host k) (k_port k) (k_state k) (k_bind_addr k) (k_udp_inited k) (k_timer_inited
    k) (k_ready_fired k) (k_in_recv k) (k_handles_closing k) (k_ssl k) (k_conn k) (k_remote_addr k) (k_send_bufs k)
    (k_ech_config k) (k_resume_session k) (k_want_early_data k) (k_early_fired k) (k_early_rejected k) (k_early_tp k)
    (k_on_early_ready k) (k_t_connect_start k) (k_t_resolved k) (k_t_established k) (k_dns_cache k) (k_dns_was_cached k)
    (k_proxy k) (k_proxied k) (k_ctrl_inited k) (k_proxy_phase k) (k_nbuf k) (k_proxy_addr k) v (k_udp_hdr k).
Definition set_k_udp_hdr (v : bytes) (k : QuicConnection) : QuicConnection :=
  mkQuic (k_ctx k) (k_tls k) (k_h3 k) (k_host k) (k_port k) (k_state k) (k_bind_addr k) (k_udp_inited k) (k_timer_inited
    k) (k_ready_fired k) (k_in_recv k) (k_handles_closing k) (k_ssl k) (k_conn k) (k_remote_addr k) (k_send_bufs k)
    (k_ech_config k) (k_resume_session k) (k_want_early_data k) (k_early_fired k) (k_early_rejected k) (k_early_tp k)
    (k_on_early_ready k) (k_t_connect_start k) (k_t_resolved k) (k_t_established k) (k_dns_cache k) (k_dns_was_cached k)
    (k_proxy k) (k_proxied k) (k_ctrl_inited k) (k_proxy_phase k) (k_nbuf k) (k_proxy_addr k) (k_relay_addr k) v.
End types.

(** The trace: a datagram and control-channel bytes that were sent, the bytes
    queued on a stream (with its end), the bytes of a stream that ngtcp2 took,
    the end of a stream's buffer, and of all: they are freed, or the connection
    is zeroed. *)
Inductive NetLog :=
| NetDatagram (data : bytes)
| NetControl (data : bytes)
| NetQueued (sid : Z) (data : bytes) (fin : bool)
| NetSent (sid : Z) (data : bytes) (fin : bool)
| NetDropped (sid : Z)
| NetClosed.

Section monad.
Context `{BoringSSL} {W Own : Type}.
Record QSt := mkQSt {
  qs_k : QuicConnection;
  qs_h : Handles;
  qs_w : W;
  qs_dns : DnsCache;
  qs_own : Own;
  qs_freed : bool;      (* the arena was recycled *)
  qs_net : list NetLog
}.
Abbreviation QM := (PS QSt).
(** An access to the arena. *)
Definition live : QM unit := fun s => if qs_freed s then None else Some (tt, s).
Definition getk {A} (f : QuicConnection -> A) : QM A := live;; pget (f ∘ qs_k).
Definition geth {A} (f : Handles -> A) : QM A := live;; pget (f ∘ qs_h).
Definition geto {A} (f : Own -> A) : QM A := live;; pget (f ∘ qs_own).
Definition updk (f : QuicConnection -> QuicConnection) : QM unit :=
  live;; pupd (fun s => mkQSt (f (qs_k s)) (qs_h s) (qs_w s) (qs_dns s) (qs_own s) (qs_freed s) (qs_net s)).
Definition updh (f : Handles -> Handles) : QM unit :=
  live;; pupd (fun s => mkQSt (qs_k s) (f (qs_h s)) (qs_w s) (qs_dns s) (qs_own s) (qs_freed s) (qs_net s)).
Definition updo (f : Own -> Own) : QM unit :=
  live;; pupd (fun s => mkQSt (qs_k s) (qs_h s) (qs_w s) (qs_dns s) (f (qs_own s)) (qs_freed s) (qs_net s)).
(** A call into a library; the client's cache; the trace. *)
Definition qenv {A} (f : W -> A * W) : QM A :=
  fun s => let '(x, w) := f (qs_w s) in Some (x, mkQSt (qs_k s) (qs_h s) w (qs_dns s) (qs_own s) (qs_freed s) (qs_net s)).
Definition qdns {A} (f : DnsCache -> A * DnsCache) : QM A :=
  fun s => let '(x, d) := f (qs_dns s) in Some (x, mkQSt (qs_k s) (qs_h s) (qs_w s) d (qs_own s) (qs_freed s) (qs_net s)).
Definition net (e : NetLog) : QM unit :=
  pupd (fun s => mkQSt (qs_k s) (qs_h s) (qs_w s) (qs_dns s) (qs_own s) (qs_freed s) (qs_net s ++ [e])).
Definition recycle : QM unit :=
  live;; pupd (fun s => mkQSt (qs_k s) (qs_h s) (qs_w s) (qs_dns s) (qs_own s) true (qs_net s)).
End monad.
Arguments QSt {_} W Own.
