(* ===== verification/QuicConn.v ===== *)
(** * A QUIC connection: net/quic_connection.c

    The connection as its callbacks drive it: resolve (or negotiate a UDP
    association with a SOCKS5 proxy over a control channel), open the UDP socket
    and ngtcp2, send what ngtcp2 and the streams have, read packets, close the
    handles. The owner's callbacks are arguments: [on_fully_closed], which a close
    without open handles calls at once; [on_ready_fail] and [on_closed], which a
    failure calls; the others are called from ngtcp2's callbacks. *)
From S2P Require Import Prelude String8 U8Buf DnsCache Proxy H3Control Connection.
From S2P Require Export QuicTypes.

Section quic.
Context `{BoringSSL} {W Own : Type} `{Uv W} `{!QuicApi W}.
Abbreviation QM := (PS (QSt W Own)).

Definition now_ns : QM Z := qenv uv_hrtime.
(** A zeroed connection. *)
Definition quic_zero (ctx : option SSL_CTX) (tls : TlsProfile) (h3 : Http3Profile) : QuicConnection :=
  mkQuic ctx tls h3 [] 0 QuicState_Idle None false false false false 0 None false [] [] [] None false false false [] false 0 0 0
    false false (mkProxy ProxyType_None [] 0 [] []) false false QPhase_Greeting [] [] [] [].
(** Zeroing it while libuv still knows a handle or a request of it would free
    them under libuv. *)
Definition handles_done (h : Handles) : bool :=
  bool_decide (h_timer h = HNone) && bool_decide (h_udp h = HNone) && bool_decide (h_ctrl h = HNone) &&
  match h_resolving h with None => true | Some _ => false end.
Definition quic_conn_init (ctx : option SSL_CTX) (tls : TlsProfile) (h3 : Http3Profile) : QM unit :=
  done ← geth handles_done;
  if done : bool then updk (fun _ => quic_zero ctx tls h3);; net NetClosed;; updh (fun _ => no_handles) else bad.
Definition quic_conn_cleanup : QM unit :=
  updk (set_k_resume_session None);;
  conn ← getk k_conn;
  pwhen conn (qenv (fun w => (tt, ngtcp2_conn_del w));; updk (set_k_conn false));;
  updk (set_k_ssl None);;
  net NetClosed;;
  updk (set_k_send_bufs []).

(** The setters of net/quic_connection.h. *)
Definition quic_set_local_address (addr : option bytes) : QM bool :=
  match addr with
  | None => mret false
  | Some a => updk (set_k_bind_addr (Some a));; mret true
  end.
Definition quic_set_proxy (p : ProxyConfig) : QM unit :=
  pwhen (bool_decide (px_type p = ProxyType_Socks5)) (updk (set_k_proxied true ∘ set_k_proxy p)).
Definition quic_set_ech (config : bytes) : QM unit := updk (set_k_ech_config config).
Definition quic_set_dns_cache : QM unit := updk (set_k_dns_cache true).
Definition quic_set_resume (session : option SSL_SESSION) : QM unit := updk (set_k_resume_session session).
Definition quic_set_early_data (tp : bytes) : QM unit := updk (set_k_early_tp (take 256 tp) ∘ set_k_want_early_data true).
Definition quic_on_early_ready : QM unit := updk (set_k_on_early_ready true).
Definition quic_conn_resumed : QM bool := getk (fun k => match k_ssl k with Some s => SSL_session_reused s | None => false end).
Definition quic_conn_early_accepted : QM bool := getk (fun k => match k_ssl k with Some s => SSL_early_data_accepted s | None => false end).
Definition quic_conn_early_rejected : QM bool := getk k_early_rejected.
Definition quic_conn_alpn : QM bytes := getk (fun k => match k_ssl k with Some s => SSL_get0_alpn_selected s | None => [] end).
(** dns, tcp and tls of the set-up in ms. *)
Definition quic_conn_timing_ms (k : QuicConnection) (req_start : Z) : Z * Z * Z :=
  if (k_t_established k =? 0) || (k_t_established k <=? req_start) then (0, 0, 0)
  else
    (if k_t_connect_start k <? k_t_resolved k then (k_t_resolved k - k_t_connect_start k) / 1000000 else 0, 0,
     if k_t_resolved k <? k_t_established k then (k_t_established k - k_t_resolved k) / 1000000 else 0).
Definition quic_conn_encode_0rtt_tp (cap : nat) : QM bytes :=
  conn ← getk k_conn;
  if conn : bool then qenv (fun w => let tp := ngtcp2_conn_encode_0rtt_tp w in (if (length tp <=? cap)%nat then tp else [], w)) else mret [].

(** ** Closing *)
Section close.
Context (on_fully_closed : QM unit).
Definition inited (hk : HandleKind) (k : QuicConnection) : bool :=
  match hk with HTimer => k_timer_inited k | HUdp => k_udp_inited k | HCtrl => k_ctrl_inited k end.
Definition set_inited (hk : HandleKind) (v : bool) (k : QuicConnection) : QuicConnection :=
  match hk with HTimer => set_k_timer_inited v k | HUdp => set_k_udp_inited v k | HCtrl => set_k_ctrl_inited v k end.
(** [uv_udp_init], [uv_timer_init], [uv_tcp_init]: not of a handle libuv knows. *)
Definition open_handle (hk : HandleKind) : QM unit :=
  v ← geth (handle_of hk);
  if bool_decide (v = HNone) then updh (set_handle hk HOpen);; updk (set_inited hk true) else bad.
Definition uv_is_closing (hk : HandleKind) : QM bool := geth (fun h => bool_decide (handle_of hk h = HClosing)).
Definition close_one (hk : HandleKind) : QM unit :=
  i ← getk (inited hk);
  c ← uv_is_closing hk;
  pwhen (i && negb c)
    (updk (fun k => set_k_handles_closing (k_handles_closing k + 1) k);; updh (set_handle hk HClosing);; updk (set_inited hk false)).
Definition quic_conn_close : QM unit :=
  st ← getk k_state;
  if bool_decide (st = QuicState_Closing) then pskip
  else
    updk (set_k_handles_closing 0 ∘ set_k_state QuicState_Closing);;
    close_one HTimer;; close_one HUdp;; close_one HCtrl;;
    n ← getk k_handles_closing;
    if n =? 0 then on_fully_closed else pskip.
Definition quic_on_handle_closed : QM unit :=
  updk (fun k => set_k_handles_closing (k_handles_closing k - 1) k);;
  n ← getk k_handles_closing;
  if n <=? 0 then on_fully_closed else pskip.
End close.

(** ** Failing *)
Section fail.
Context (on_ready_fail on_closed : bytes -> QM unit).
Definition quic_fail (reason : bytes) : QM unit :=
  st ← getk k_state;
  if bool_decide (st = QuicState_Failed) || bool_decide (st = QuicState_Closing) then pskip
  else
    updk (set_k_state QuicState_Failed);;
    fired ← getk k_ready_fired;
    if negb fired then updk (set_k_ready_fired true);; on_ready_fail reason else on_closed reason.

(** ** Sending *)
Definition pending (sb : QuicSendBuf) : bool :=
  negb (sb_blocked sb) && ((sb_off sb <? length (u8_v (sb_data sb)))%nat || (sb_fin sb && negb (sb_fin_sent sb))).
Fixpoint quic_pick_pending (bufs : list QuicSendBuf) : option (nat * QuicSendBuf) :=
  match bufs with
  | [] => None
  | sb :: bufs => if pending sb then Some (0%nat, sb) else (fun x => (S (fst x), snd x)) <$> quic_pick_pending bufs
  end.
Definition set_blocked (v : bool) (sb : QuicSendBuf) : QuicSendBuf :=
  mkSendBuf (sb_id sb) (sb_data sb) (sb_off sb) (sb_fin sb) (sb_fin_sent sb) v.
Definition rest_of (sb : QuicSendBuf) : bytes := drop (sb_off sb) (u8_v (sb_data sb)).
(** [wdatalen] bytes of the buffer were taken. *)
Definition advance (wdatalen : Z) (sb : QuicSendBuf) : QuicSendBuf :=
  if 0 <? wdatalen then
    let off := (sb_off sb + Z.to_nat wdatalen)%nat in
    mkSendBuf (sb_id sb) (sb_data sb) off (sb_fin sb)
      (sb_fin_sent sb || ((length (u8_v (sb_data sb)) <=? off)%nat && sb_fin sb)) (sb_blocked sb)
  else sb.
Definition upd_buf (i : nat) (f : QuicSendBuf -> QuicSendBuf) : QM unit :=
  updk (fun k => set_k_send_bufs (alter f i (k_send_bufs k)) k).
(** What [ngtcp2_conn_writev_stream] is handed of a buffer: the stream, the bytes
    of [datav] and whether NGTCP2_WRITE_STREAM_FLAG_FIN is set. *)
Definition stream_request (sb : QuicSendBuf) : Z * bytes * bool :=
  (sb_id sb, rest_of sb, sb_fin sb && negb (sb_fin_sent sb)).
(** What ngtcp2 has taken of what it was handed: the first [wdatalen] bytes, and
    the end of the stream with the last of them when the flag was set. *)
Definition note_sent (req : option (Z * bytes * bool)) (wdatalen : Z) : QM unit :=
  match req with
  | Some (id, data, fin) =>
      pwhen (0 <=? wdatalen) (net (NetSent id (take (Z.to_nat wdatalen) data) (fin && (wdatalen =? zlen data))))
  | None => pskip
  end.
Definition quic_arm_timer : QM unit :=
  conn ← getk k_conn;
  timer ← getk k_timer_inited;
  if negb conn || negb timer then pskip
  else
    expiry ← qenv (fun w => (ngtcp2_conn_get_expiry w, w));
    if expiry =? U64_MAX then pskip
    else
      now ← now_ns;
      updh (set_h_expiry (Some (if expiry <=? now then 1 else (expiry - now) / 1000000 + 1))).

Inductive Round := RoundAgain | RoundDone | RoundFailed.
Definition egress_round (ts : Z) : QM Round :=
  bufs ← getk k_send_bufs;
  let pick := quic_pick_pending bufs in
  let req := stream_request ∘ snd <$> pick in
  '(res, wdatalen) ← qenv (fun w => let '(res, n, w) := ngtcp2_conn_writev_stream w req ts in ((res, n), w));
  let take_bytes := note_sent req wdatalen;; match pick with Some (i, _) => upd_buf i (advance wdatalen) | None => pskip end in
  match res with
  | NgWriteMore => take_bytes;; mret RoundAgain
  | NgStreamBlocked => (match pick with Some (i, _) => upd_buf i (set_blocked true) | None => pskip end);; mret RoundAgain
  | NgWriteError rv => quic_fail (ngtcp2_strerror rv);; mret RoundFailed
  | NgPacket pkt =>
      take_bytes;;
      if (length pkt =? 0)%nat then mret RoundDone
      else
        proxied ← getk k_proxied;
        hdr ← getk k_udp_hdr;
        let data := if proxied : bool then hdr ++ pkt else pkt in
        net (NetDatagram data);; qenv (fun w => (tt, uv_udp_try_send w data));; mret RoundAgain
  end.
(** The loop of [quic_flush_egress]: [true] when it ended by itself. *)
Definition egress_loop (ts : Z) : QM bool :=
  fun s =>
    match loop_pow 64 (fun s => match egress_round ts s with
                                | Some (RoundAgain, s) => inl s
                                | Some (RoundDone, s) => inr (Some (true, s))
                                | Some (RoundFailed, s) => inr (Some (false, s))
                                | None => inr None
                                end) s with
    | inl _ => None
    | inr x => x
    end.
Definition quic_flush_egress : QM unit :=
  conn ← getk k_conn;
  st ← getk k_state;
  if negb conn || bool_decide (st = QuicState_Closing) || bool_decide (st = QuicState_Failed) then pskip
  else
    ts ← now_ns;
    updk (fun k => set_k_send_bufs (set_blocked false <$> k_send_bufs k) k);;
    done ← egress_loop ts;
    if done : bool then quic_arm_timer else pskip.

(** ** Streams *)
Fixpoint find_buf (bufs : list QuicSendBuf) (id : Z) : option nat :=
  match bufs with
  | [] => None
  | sb :: bufs => if sb_id sb =? id then Some 0%nat else S <$> find_buf bufs id
  end.
(** The code leaves [blocked] of a new slot as it is: a flush clears it before it
    is read. *)
Definition quic_find_or_add_send_buf (id : Z) : QM (option nat) :=
  bufs ← getk k_send_bufs;
  match find_buf bufs id with
  | Some i => mret (Some i)
  | None =>
      if (QUIC_SEND_BUFS <=? length bufs)%nat then mret None
      else updk (fun k => set_k_send_bufs (k_send_bufs k ++ [mkSendBuf id (u8buf_init 0) 0 false false false]) k);; mret (Some (length bufs))
  end.
(** A removed slot takes the place of the last one. *)
Definition swap_remove_buf (i : nat) (bufs : list QuicSendBuf) : list QuicSendBuf :=
  match last bufs with
  | Some sb => take (length bufs - 1) (<[i := sb]> bufs)
  | None => bufs
  end.
Definition drop_buf (id : Z) : QM unit :=
  bufs ← getk k_send_bufs;
  match find_buf bufs id with
  | Some i => net (NetDropped id);; updk (set_k_send_bufs (swap_remove_buf i bufs))
  | None => pskip
  end.
(** A call on the ngtcp2 connection: it has to exist. *)
Definition on_conn {A} (m : QM A) : QM A := conn ← getk k_conn; if conn : bool then m else bad.
Definition quic_open_stream (open : W -> (Z + Z) * W) : QM (option Z) :=
  rv ← on_conn (qenv open);
  match rv with
  | inl _ => mret None
  | inr id => _ ← quic_find_or_add_send_buf id; mret (Some id)
  end.
Definition quic_open_uni_stream : QM (option Z) := quic_open_stream ngtcp2_conn_open_uni_stream.
Definition quic_open_bidi_stream : QM (option Z) := quic_open_stream ngtcp2_conn_open_bidi_stream.
Definition quic_stream_send (sid : Z) (data : bytes) (fin : bool) : QM unit :=
  i ← quic_find_or_add_send_buf sid;
  match i with
  | None => pskip
  | Some i =>
      net (NetQueued sid data fin);;
      upd_buf i (fun sb => mkSendBuf (sb_id sb) (u8buf_append (sb_data sb) data) (sb_off sb) (sb_fin sb || fin) (sb_fin_sent sb) (sb_blocked sb));;
      quic_flush_egress
  end.
Definition quic_reset_stream (sid : Z) : QM unit :=
  conn ← getk k_conn;
  if negb conn then pskip
  else
    drop_buf sid;;
    qenv (fun w => (tt, ngtcp2_conn_shutdown_stream w sid 268));;
    quic_flush_egress.

Definition quic_timer_cb : QM unit :=
  conn ← getk k_conn;
  if negb conn then pskip
  else
    now ← now_ns;
    rv ← qenv (fun w => ngtcp2_conn_handle_expiry w now);
    if negb (rv =? 0) then quic_fail (ngtcp2_strerror rv) else quic_flush_egress.

(** ** Opening *)
Section open.
Context (on_early_ready : QM unit).
(** [ngtcp2_settings]/[ngtcp2_transport_params] out of the profile. *)
Definition quic_params (k : QuicConnection) : QuicParams :=
  mkQuicParams (k_h3 k) (max_idle_timeout_ms (k_h3 k) * 1000000)
    (if max_udp_payload_size (k_h3 k) =? 0 then None else Some (max_udp_payload_size (k_h3 k))) (k_remote_addr k).
Definition quic_init_ngtcp2 : QM bool :=
  let failed (reason : bytes) := quic_fail reason;; mret false in
  ctx ← getk k_ctx;
  match ctx with
  | None => bad                          (* a null context *)
  | Some ctx =>
      rv ← qenv (fun w => configure_client_context w ctx);
      if negb (rv =? 0) then failed (lit "ngtcp2_crypto_boringssl_configure_client_context failed")
      else
        match SSL_new ctx with
        | None => updk (set_k_ssl None);; failed (lit "SSL_new failed")
        | Some ssl =>
            updk (set_k_ssl (Some ssl));;
            tls ← getk k_tls;
            host ← getk k_host;
            ech ← getk k_ech_config;
            session ← getk k_resume_session;
            match configure_ssl ssl tls host ech session with
            | None => failed (lit "configure_ssl failed")
            | Some ssl =>
                updk (set_k_ssl (Some ssl));;
                want ← getk k_want_early_data;
                let capable := match session with Some s => SSL_SESSION_early_data_capable s | None => false end in
                pwhen (want && negb capable) (updk (set_k_want_early_data false));;
                want ← getk k_want_early_data;
                pwhen want (updk (set_k_ssl (Some (SSL_set_early_data_enabled ssl))));;
                rand ← qenv RAND_bytes_ok;
                if negb rand then failed (lit "RAND_bytes failed")
                else
                  params ← getk quic_params;
                  ssl ← getk k_ssl;
                  rv ← qenv (fun w => match ssl with Some ssl => ngtcp2_conn_client_new w ssl params | None => (-1, w) end);
                  if negb (rv =? 0) then failed (ngtcp2_strerror rv)
                  else
                    updk (set_k_conn true);;
                    want ← getk k_want_early_data;
                    tp ← getk k_early_tp;
                    (if want && negb (length tp =? 0)%nat then
                       rv ← qenv (fun w => ngtcp2_conn_set_0rtt_tp w tp);
                       pwhen (negb (rv =? 0)) (updk (set_k_want_early_data false))
                     else updk (set_k_want_early_data false));;
                    mret true
            end
        end
  end.
Definition quic_begin_udp : QM unit :=
  open_handle HUdp;;
  bind ← getk k_bind_addr;
  bound ← (match bind with Some a => rc ← qenv (fun w => uv_udp_bind w a); mret (rc =? 0) | None => mret true end);
  if negb bound then quic_fail (lit "uv_udp_bind failed")
  else
    remote ← getk k_remote_addr;
    rc ← qenv (fun w => uv_udp_connect w remote);
    if negb (rc =? 0) then quic_fail (lit "uv_udp_connect failed")
    else
      ok ← quic_init_ngtcp2;
      if negb ok then pskip
      else
        open_handle HTimer;;
        updh set_h_receiving;;
        want ← getk k_want_early_data;
        early ← getk k_on_early_ready;
        (if want && early then updk (set_k_early_fired true ∘ set_k_state QuicState_EarlyData);; on_early_ready
         else updk (set_k_state QuicState_Handshaking));;
        quic_flush_egress.
(** [uv_getaddrinfo] for one of the three callbacks. *)
Definition resolve (r : Resolver) (host : bytes) (port family : Z) : QM unit :=
  rc ← qenv (fun w => uv_getaddrinfo w host port family);
  if rc =? 0 then updh (set_h_resolving (Some r)) else quic_fail (uv_strerror rc).
Definition cached_addr : QM (option bytes) :=
  attached ← getk k_dns_cache;
  host ← getk k_host;
  ms ← qenv (fun w => (uv_now w, w));
  if attached : bool then qdns (fun dc => dns_cache_get dc host ms) else mret None.
Definition cache_addr (addr : bytes) : QM unit :=
  attached ← getk k_dns_cache;
  host ← getk k_host;
  ms ← qenv (fun w => (uv_now w, w));
  pwhen attached (qdns (fun dc => (tt, dns_cache_put dc host addr ms))).
Definition family_matches (bind : option bytes) (addr : bytes) : bool :=
  match bind with None => true | Some b => sockaddr_family addr =? sockaddr_family b end.

(** *** The association with a SOCKS5 proxy *)
Definition quic_ctrl_write (data : bytes) : QM unit :=
  i ← getk k_ctrl_inited;
  c ← uv_is_closing HCtrl;
  if (length data =? 0)%nat || negb i || c then pskip
  else
    rc ← qenv (fun w => uv_write w data);
    if negb (rc =? 0) then quic_fail (lit "proxy control write failed") else net (NetControl data).
Definition quic_build_udp_hdr (addr : bytes) : QM bool :=
  match sockaddr_parts addr with
  | Some (atyp, a, p) =>
      match proxy_socks5_udp_request_header 262 atyp a p with
      | Some hdr => updk (set_k_udp_hdr hdr);; mret (0 <? length hdr)%nat
      | None => updk (set_k_udp_hdr []);; mret false
      end
  | None => mret false
  end.
Definition quic_proxy_set_relay (atyp : Z) (addr : bytes) (port : Z) : QM unit :=
  let alen := if atyp =? 1 then 4%nat else if atyp =? 4 then 16%nat else 0%nat in
  let addr_zero := forallb (fun b => b =? 0) (take alen addr) in
  if (alen =? 0)%nat || addr_zero then updk (fun k => set_k_relay_addr (sockaddr_set_port (k_proxy_addr k) port) k)
  else updk (set_k_relay_addr (sockaddr_make atyp (take alen addr) port)).
Definition quic_proxy_finish : QM unit := updk (fun k => set_k_remote_addr (k_relay_addr k) k);; quic_begin_udp.
Definition stamp_resolved : QM unit := now ← now_ns; updk (set_k_t_resolved now).
Definition quic_on_target_resolved (res : Z + bytes) : QM unit :=
  match res with
  | inl rc => quic_fail (uv_strerror rc)
  | inr addr =>
      stamp_resolved;;
      ok ← quic_build_udp_hdr addr;
      cache_addr addr;;
      if negb ok then quic_fail (lit "unsupported target address family") else quic_proxy_finish
  end.
Definition quic_proxy_resolve_target : QM unit :=
  cached ← cached_addr;
  port ← getk k_port;
  match cached with
  | Some a =>
      ok ← quic_build_udp_hdr (sockaddr_set_port a port);
      if negb ok then quic_fail (lit "unsupported target address family")
      else stamp_resolved;; quic_proxy_finish
  | None =>
      host ← getk k_host;
      resolve RTarget host port 0
  end.
Definition quic_proxy_send_associate : QM unit :=
  updk (set_k_proxy_phase QPhase_Associate ∘ set_k_nbuf []);;
  quic_ctrl_write (default [] (proxy_socks5_udp_associate_request 10)).
Definition quic_proxy_send_userpass : QM unit :=
  proxy ← getk k_proxy;
  match proxy_socks5_userpass proxy 520 with
  | None => quic_fail (lit "SOCKS5 credentials too long")
  | Some m => updk (set_k_proxy_phase QPhase_Auth ∘ set_k_nbuf []);; quic_ctrl_write m
  end.
Definition quic_proxy_advance : QM unit :=
  phase ← getk k_proxy_phase;
  buf ← getk k_nbuf;
  match phase with
  | QPhase_Greeting =>
      match proxy_socks5_parse_method buf with
      | None => pskip
      | Some method =>
          if method =? 0 then quic_proxy_send_associate
          else if method =? 2 then quic_proxy_send_userpass
          else quic_fail (lit "SOCKS5 no acceptable auth method")
      end
  | QPhase_Auth =>
      match proxy_socks5_parse_userpass_reply buf with
      | None => pskip
      | Some ok => if ok : bool then quic_proxy_send_associate else quic_fail (lit "SOCKS5 authentication failed")
      end
  | QPhase_Associate =>
      match proxy_socks5_parse_reply buf with
      | None => pskip
      | Some r =>
          if negb (rp_ok r) then quic_fail (lit "SOCKS5 UDP ASSOCIATE failed")
          else
            quic_proxy_set_relay (rp_atyp r) (rp_addr r) (rp_port r);;
            updk (set_k_proxy_phase QPhase_Done);;
            quic_proxy_resolve_target
      end
  | QPhase_Done => pskip
  end.
Definition QNBUF_CAP : nat := 512.
(** [inl]: an error or the end of the stream, with its text. *)
Definition quic_ctrl_read_cb (ev : bytes + bytes) : QM unit :=
  match ev with
  | inl reason => quic_fail reason
  | inr data =>
      phase ← getk k_proxy_phase;
      buf ← getk k_nbuf;
      if (length data =? 0)%nat then pskip
      else if (match phase with QPhase_Done => true | _ => false end) then pskip
      else if (QNBUF_CAP <? length buf + length data)%nat then quic_fail (lit "proxy negotiation overflow")
      else updk (set_k_nbuf (buf ++ data));; quic_proxy_advance
  end.
Definition quic_on_ctrl_connected (status : Z) : QM unit :=
  if status <? 0 then quic_fail (uv_strerror status)
  else
    updh set_h_reading;;
    proxy ← getk k_proxy;
    updk (set_k_proxy_phase QPhase_Greeting ∘ set_k_nbuf []);;
    quic_ctrl_write (default [] (proxy_socks5_greeting proxy 8)).
Definition quic_on_proxy_resolved (res : Z + bytes) : QM unit :=
  match res with
  | inl rc => quic_fail (uv_strerror rc)
  | inr addr =>
      updk (set_k_proxy_addr addr);;
      open_handle HCtrl;;
      rc ← qenv (fun w => uv_tcp_connect w addr);
      if rc =? 0 then updh (set_h_connecting true) else quic_fail (lit "proxy connect failed")
  end.
Definition quic_proxy_connect_ctrl : QM unit :=
  updk (set_k_state QuicState_Resolving);;
  proxy ← getk k_proxy;
  resolve RProxy (px_host proxy) (px_port proxy) 0.

Definition quic_conn_connect (host : bytes) (port : Z) : QM unit :=
  updk (set_k_host (strip_host 256 host) ∘ set_k_port port);;
  now ← now_ns;
  updk (set_k_t_connect_start now);;
  proxied ← getk k_proxied;
  if proxied : bool then quic_proxy_connect_ctrl
  else
    cached ← cached_addr;
    bind ← getk k_bind_addr;
    match (match cached with Some a => if family_matches bind a then Some a else None | None => None end) with
    | Some a =>
        updk (set_k_remote_addr (sockaddr_set_port a port));;
        stamp_resolved;;
        updk (set_k_dns_was_cached true);;
        quic_begin_udp
    | None =>
        updk (set_k_state QuicState_Resolving);;
        h ← getk k_host;
        resolve RDirect h port (match bind with Some b => sockaddr_family b | None => 0 end)
    end.
Definition quic_on_resolved (res : Z + bytes) : QM unit :=
  match res with
  | inl rc => quic_fail (uv_strerror rc)
  | inr addr =>
      stamp_resolved;;
      updk (set_k_remote_addr addr);;
      cache_addr addr;;
      quic_begin_udp
  end.

(** ** Receiving *)
Section recv.
Context (on_ready_ok : QM unit) (on_stream_data : Z -> bytes -> bool -> QM unit) (on_stream_close : Z -> QM unit).
Definition quic_deliver_ready_ok : QM unit :=
  fired ← getk k_ready_fired;
  if fired : bool then pskip else updk (set_k_ready_fired true);; on_ready_ok.
Definition quic_handshake_completed_cb : QM unit :=
  updk (set_k_state QuicState_Established);;
  t ← getk k_t_established;
  (if t =? 0 then now ← now_ns; updk (set_k_t_established now) else pskip);;
  want ← getk k_want_early_data;
  accepted ← getk (fun k => match k_ssl k with Some s => SSL_early_data_accepted s | None => true end);
  pwhen (want && negb accepted) (updk (set_k_early_rejected true));;
  quic_deliver_ready_ok.
Definition run_callback (cb : NgCallback) : QM unit :=
  match cb with
  | CbHandshakeCompleted ssl => updk (set_k_ssl (Some ssl));; quic_handshake_completed_cb
  | CbStreamData sid data fin =>
      on_stream_data sid data fin;;
      qenv (fun w => (tt, ngtcp2_conn_extend w sid (zlen data)))
  | CbStreamClose sid => on_stream_close sid;; drop_buf sid
  end.
Fixpoint run_callbacks (cbs : list NgCallback) : QM unit :=
  match cbs with
  | [] => pskip
  | cb :: cbs => run_callback cb;; run_callbacks cbs
  end.
(** A datagram or an error, and the address libuv gives with it. The pool's
    [on_recv_done] is not set here. *)
Definition quic_recv_cb (res : Z + bytes) (addr : option bytes) : QM unit :=
  match addr with
  | None => pskip
  | Some addr =>
      match res with
      | inl rc => quic_fail (uv_strerror rc)
      | inr data =>
          proxied ← getk k_proxied;
          remote ← getk k_remote_addr;
          let hl := proxy_socks5_udp_header_len data in
          if (length data =? 0)%nat || proxied && ((hl =? 0)%nat || (length data <=? hl)%nat) then pskip
          else
            let data := if proxied : bool then drop hl data else data in
            let src := if proxied : bool then remote else addr in
            updk (set_k_in_recv true);;
            now ← now_ns;
            '(cbs, rv) ← on_conn (qenv (fun w => let '(cbs, rv, w) := ngtcp2_conn_read_pkt w src data now in ((cbs, rv), w)));
            run_callbacks cbs;;
            updk (set_k_in_recv false);;
            if negb (rv =? 0) then quic_fail (ngtcp2_strerror rv) else quic_flush_egress
      end
  end.
End recv.
End open.
End fail.
End quic.
