(* ===== verification/QuicRequest.v ===== *)
(** * One request over QUIC: core/client.c, [QuicRequest]

    The owner of a QUIC connection for a single HTTP/3 request: it connects
    (offering a cached ticket, ECH and 0-RTT where they apply), hands the request
    to the HTTP/3 session of [H3Session] over the streams of [QuicConn], delivers
    the one response or error, tears the connection down, and reconnects once when
    the server refuses 0-RTT. What the caller can see is recorded in a log. *)
From stdpp Require Import relations.
From S2P Require Import Prelude String8 U8Buf GrowArr Header Url Redirect OriginCache DnsCache Proxy ReqHeaders H3Control H3Session TcpRequest.
From S2P Require Export QuicConn.

Section types.
Context `{BoringSSL} `{Qpack}.
(** The parts of the [Client] a QUIC request uses. *)
Record QuicClient := mkQuicClient {
  qc_ctx : option SSL_CTX;          (* h3_ctx *)
  qc_tls : TlsProfile;              (* h3_profile->tls *)
  qc_h3 : Http3Profile;
  qc_default_headers : list DefaultHeader;
  qc_fetch_order : list bytes;
  qc_local_address : option bytes;
  qc_header_order : list bytes;
  qc_override_default_headers : bool;
  qc_resume_enabled : bool;
  qc_early_data_enabled : bool;
  qc_ech_enabled : bool;
  qc_pre_hook : list (bytes * bytes);
  qc_resume_cache : list (ResumeCacheEntry SSL_SESSION);
  qc_ech_cache : list EchConfigEntry
}.
Definition set_qc_resume_cache (l : list (ResumeCacheEntry SSL_SESSION)) (c : QuicClient) : QuicClient :=
  mkQuicClient (qc_ctx c) (qc_tls c) (qc_h3 c) (qc_default_headers c) (qc_fetch_order c) (qc_local_address c) (qc_header_order c)
    (qc_override_default_headers c) (qc_resume_enabled c) (qc_early_data_enabled c) (qc_ech_enabled c) (qc_pre_hook c) l (qc_ech_cache c).
Record QuicRequest := mkQuicRequest {
  r_params : ReqParams;
  r_h3 : option H3Session;
  r_responded : bool;
  r_closing : bool;
  r_submitted : bool;
  r_retrying : bool;
  r_retried_no_early : bool;
  r_timer : bool;
  r_client : QuicClient;
  r_log : list LogEntry
}.
Definition set_r_h3 (v : option H3Session) (r : QuicRequest) : QuicRequest :=
  mkQuicRequest (r_params r) v (r_responded r) (r_closing r) (r_submitted r) (r_retrying r) (r_retried_no_early r) (r_timer r) (r_client r) (r_log r).
Definition set_r_responded (r : QuicRequest) : QuicRequest :=
  mkQuicRequest (r_params r) (r_h3 r) true (r_closing r) (r_submitted r) (r_retrying r) (r_retried_no_early r) (r_timer r) (r_client r) (r_log r).
Definition set_r_closing (v : bool) (r : QuicRequest) : QuicRequest :=
  mkQuicRequest (r_params r) (r_h3 r) (r_responded r) v (r_submitted r) (r_retrying r) (r_retried_no_early r) (r_timer r) (r_client r) (r_log r).
Definition set_r_submitted (v : bool) (r : QuicRequest) : QuicRequest :=
  mkQuicRequest (r_params r) (r_h3 r) (r_responded r) (r_closing r) v (r_retrying r) (r_retried_no_early r) (r_timer r) (r_client r) (r_log r).
Definition set_r_retry (retrying retried : bool) (r : QuicRequest) : QuicRequest :=
  mkQuicRequest (r_params r) (r_h3 r) (r_responded r) (r_closing r) (r_submitted r) retrying retried (r_timer r) (r_client r) (r_log r).
Definition set_r_timer (v : bool) (r : QuicRequest) : QuicRequest :=
  mkQuicRequest (r_params r) (r_h3 r) (r_responded r) (r_closing r) (r_submitted r) (r_retrying r) (r_retried_no_early r) v (r_client r) (r_log r).
Definition set_r_client (v : QuicClient) (r : QuicRequest) : QuicRequest :=
  mkQuicRequest (r_params r) (r_h3 r) (r_responded r) (r_closing r) (r_submitted r) (r_retrying r) (r_retried_no_early r) (r_timer r) v (r_log r).
Definition rlog (e : LogEntry) (r : QuicRequest) : QuicRequest :=
  mkQuicRequest (r_params r) (r_h3 r) (r_responded r) (r_closing r) (r_submitted r) (r_retrying r) (r_retried_no_early r) (r_timer r) (r_client r) (r_log r ++ [e]).
Definition r_origin (r : QuicRequest) : bytes := origin_of (rp_parsed (r_params r)).
End types.

Section request.
Context `{BoringSSL} `{Qpack} {W : Type} `{Uv W} `{!QuicApi W}.
Context (copy_without_early_data : SSL_SESSION -> option SSL_SESSION).
Context (decode_content : bytes -> bytes -> option bytes).
Context (ip_literal : bytes -> option bytes).
Abbreviation QM := (PS (QSt W QuicRequest)).

Section level.
Context (on_fully_closed : QM unit).

Definition quicreq_deliver_error (err : bytes) : QM unit :=
  responded ← geto r_responded;
  if responded : bool then pskip
  else updo (rlog (LogDeliver (DeliverError err)) ∘ set_r_responded).
Definition quicreq_finish : QM unit :=
  closing ← geto r_closing;
  if closing : bool then pskip
  else updo (set_r_closing true);; quic_conn_close on_fully_closed.
Definition quicreq_on_timeout : QM unit := quicreq_deliver_error (lit "timeout");; quicreq_finish.
Definition quicreq_on_ready_fail (err : bytes) : QM unit := quicreq_deliver_error err;; quicreq_finish.
Definition quicreq_on_closed (e : bytes) : QM unit :=
  retrying ← geto r_retrying;
  responded ← geto r_responded;
  if retrying || responded then pskip
  else quicreq_deliver_error e;; quicreq_finish.

Definition quicreq_on_response (r : H3Response) : QM unit :=
  responded ← geto r_responded;
  if responded : bool then pskip
  else
    updo set_r_responded;;
    let resp := response_decode_encoding decode_content (mkResponse (r3_ok r) (r3_status r) (ga_list (r3_headers r)) (r3_body r)) in
    on_chunk ← geto (rp_on_chunk ∘ r_params);
    let streamed := on_chunk && (0 <? length (Redirect.r_body resp))%nat in
    pwhen streamed (updo (rlog (LogChunk (Redirect.r_body resp))));;
    let resp := if streamed then mkResponse (Redirect.r_ok resp) (Redirect.r_status resp) (Redirect.r_headers resp) [] else resp in
    updo (rlog (LogDeliver (DeliverResponse resp (lit "h3"))));;
    quicreq_finish.

(** *** The HTTP/3 session over the streams of the connection *)
Abbreviation fail_cb := quicreq_on_ready_fail.
Abbreviation closed_cb := quicreq_on_closed.
Abbreviation Q := (option (QSt W QuicRequest)).
(** A call of the session on the connection; [None] once a call failed. *)
Definition lift_open (m : QM (option Z)) (q : Q) : option Z * Q :=
  match q with
  | None => (None, None)
  | Some s => match m s with Some (id, s) => (id, Some s) | None => (None, None) end
  end.
#[local] Instance quic_streams : QuicStreams Q := {|
  H3Session.quic_open_bidi_stream := lift_open quic_open_bidi_stream;
  H3Session.quic_open_uni_stream := lift_open quic_open_uni_stream;
  H3Session.quic_stream_send q sid data fin :=
    match q with
    | None => None
    | Some s => match quic_stream_send fail_cb closed_cb sid data fin s with Some (_, s) => Some s | None => None end
    end
|}.
Definition quicreq_submit (s : H3Session) (p : ReqParams) : QM (bool * H3Session) :=
  fun st =>
    match h3_session_request s (Some st) (method_str (rp_method p)) (lit "https") (authority (rp_parsed p)) (path (rp_parsed p))
            (ga_list (rp_headers p)) (rp_body p) with
    | (ok, s, Some st) => Some ((ok, s), st)
    | (_, _, None) => None
    end.
(** A response the session gave out is delivered. *)
Fixpoint deliver_all (rs : list H3Response) : QM unit :=
  match rs with
  | [] => pskip
  | r :: rs => quicreq_on_response r;; deliver_all rs
  end.
Definition on_session (f : H3Session -> H3Session) : QM unit :=
  h3 ← geto r_h3;
  match h3 with
  | None => pskip
  | Some s => let s' := f s in updo (set_r_h3 (Some s'));; deliver_all (drop (length (s3_responses s)) (s3_responses s'))
  end.
Definition on_stream_data (sid : Z) (data : bytes) (fin : bool) : QM unit := on_session (fun s => h3_on_stream_data s sid data fin).
Definition on_stream_close (sid : Z) : QM unit := on_session (fun s => h3_on_stream_close s sid).

Definition quicreq_send_request : QM bool :=
  prof ← getk k_h3;
  match h3_session_alloc prof with
  | None => quicreq_deliver_error (lit "h3 session init failed");; quicreq_finish;; mret false
  | Some s =>
      updo (set_r_h3 (Some s));;
      p ← geto r_params;
      '(ok, s) ← quicreq_submit s p;
      updo (set_r_h3 (Some s));;
      if negb ok then quicreq_deliver_error (lit "h3 request submit failed");; quicreq_finish;; mret false
      else updo (set_r_submitted true ∘ rlog LogSubmit);; mret true
  end.
Definition quicreq_on_early_ready : QM unit := _ ← quicreq_send_request; pskip.
Definition quicreq_capture_tp : QM unit :=
  c ← geto r_client;
  origin ← geto r_origin;
  now ← qenv (fun w => (uv_now w, w));
  if negb (qc_resume_enabled c) then pskip
  else
    tp ← quic_conn_encode_0rtt_tp 256;
    pwhen (negb (length tp =? 0)%nat)
      (updo (fun r => set_r_client (set_qc_resume_cache (resume_cache_put_tp (qc_resume_cache (r_client r)) origin tp now) (r_client r)) r)).
Definition quicreq_on_ready_ok : QM unit :=
  rejected ← quic_conn_early_rejected;
  retried ← geto r_retried_no_early;
  if rejected && negb retried then
    updo (set_r_retry true true);;
    updo (fun r => set_r_client (set_qc_resume_cache
      (resume_cache_strip_early copy_without_early_data (qc_resume_cache (r_client r)) (r_origin r)) (r_client r)) r);;
    quic_conn_close on_fully_closed
  else
    quicreq_capture_tp;;
    submitted ← geto r_submitted;
    if submitted : bool then pskip else _ ← quicreq_send_request; pskip.

(** *** Connecting *)
Definition quicreq_connect (allow_early : bool) : QM unit :=
  c ← geto r_client;
  p ← geto r_params;
  origin ← geto r_origin;
  now ← qenv (fun w => (uv_now w, w));
  quic_conn_init (qc_ctx c) (qc_tls c) (qc_h3 c);;
  quic_set_dns_cache;;
  (match qc_local_address c with Some ip => _ ← quic_set_local_address (ip_literal (str8_cstring ip)); pskip | None => pskip end);;
  pwhen (bool_decide (px_type (rp_proxy p) = ProxyType_Socks5)) (quic_set_proxy (rp_proxy p));;
  pwhen (qc_ech_enabled c)
    (match ech_cache_get (qc_ech_cache c) origin now with
     | Some e => pwhen (0 <? length (ee_config e))%nat (quic_set_ech (ee_config e))
     | None => pskip
     end);;
  early ← (if qc_resume_enabled c then
             let '(sess, cache) := resume_cache_get (qc_resume_cache c) origin now in
             updo (fun r => set_r_client (set_qc_resume_cache cache (r_client r)) r);;
             quic_set_resume sess;;
             let wanted := allow_early && qc_early_data_enabled c && idempotent (rp_method p) && (length (rp_body p) =? 0)%nat &&
                           (match sess with Some _ => true | None => false end) in
             match (if wanted then resume_cache_tp cache origin else None) with
             | Some tp =>
                 if (length tp =? 0)%nat then mret false else quic_set_early_data tp;; quic_on_early_ready;; mret true
             | None => mret false
             end
           else mret false);
  updo (rlog (LogConnect early));;
  quic_conn_connect fail_cb closed_cb quicreq_on_early_ready (str8_cstring (host (rp_parsed p) ++ [0])) (port (rp_parsed p)).
End level.

(** A close without an open handle calls this at once, and a reconnect can fail
    and close at once: it nests two deep. *)
Definition CLOSE_DEPTH : nat := 2.
Fixpoint quicreq_on_fully_closed (depth : nat) : QM unit :=
  match depth with
  | O => bad
  | S depth =>
      updo (set_r_h3 None);;
      quic_conn_cleanup;;
      retrying ← geto r_retrying;
      if retrying : bool then
        updo (fun r => set_r_submitted false (set_r_closing false (set_r_retry false (r_retried_no_early r) r)));;
        quicreq_connect (quicreq_on_fully_closed depth) false
      else
        updo (rlog LogFree ∘ set_r_timer false);;
        recycle
  end.
Abbreviation fully_closed := (quicreq_on_fully_closed CLOSE_DEPTH).

(** [quicreq_start]: the deadline is armed or not. *)
Definition quicreq_start (c : QuicClient) (m : Method) (url : bytes) (headers : list Header) (body : bytes) (deadline : bool)
    (proxy : ProxyConfig) (on_chunk : bool) (header_order : bytes) : QM unit :=
  let pu := url_parse url in
  let req hs b := mkQuicRequest (mkReqParams m url pu HttpVersion_H3 proxy hs b on_chunk) None false false false false false false c [] in
  if negb (ok pu) || negb (https pu) then
    updo (fun _ => rlog LogFree (rlog (LogDeliver (DeliverError (lit "invalid or non-https URL"))) (set_r_responded (req header_list_init []))));;
    recycle
  else
    let '(hs, b) := build_request_headers (qc_default_headers c) headers body (qc_override_default_headers c) m in
    let hs := client_run_pre_hook (qc_pre_hook c) hs in
    let hs := apply_header_order (qc_header_order c) (qc_override_default_headers c) hs header_order (qc_fetch_order c) in
    updo (fun _ => set_r_timer deadline (req hs b));;
    quicreq_connect fully_closed true.

(** ** The loop *)
Inductive quic_event :=
| EvResolved (res : Z + bytes)
| EvCtrlConnected (status : Z)
| EvCtrlRead (ev : bytes + bytes)
| EvRecv (res : Z + bytes) (addr : option bytes)
| EvTimer
| EvTimeout
| EvHandleClosed (hk : HandleKind).
Definition quic_handle (ev : quic_event) : QM unit :=
  let fail_cb := quicreq_on_ready_fail fully_closed in
  let closed_cb := quicreq_on_closed fully_closed in
  let early_cb := quicreq_on_early_ready fully_closed in
  match ev with
  | EvResolved res =>
      r ← geth h_resolving;
      updh (set_h_resolving None);;
      match r with
      | None => pskip
      | Some RDirect => quic_on_resolved fail_cb closed_cb early_cb res
      | Some RProxy => quic_on_proxy_resolved fail_cb closed_cb res
      | Some RTarget => quic_on_target_resolved fail_cb closed_cb early_cb res
      end
  | EvCtrlConnected status => updh (set_h_connecting false);; quic_on_ctrl_connected fail_cb closed_cb status
  | EvCtrlRead ev => quic_ctrl_read_cb fail_cb closed_cb early_cb ev
  | EvRecv res addr =>
      quic_recv_cb fail_cb closed_cb (quicreq_on_ready_ok fully_closed) (on_stream_data fully_closed) (on_stream_close fully_closed) res addr
  | EvTimer => updh (set_h_expiry None);; quic_timer_cb fail_cb closed_cb
  | EvTimeout => updo (set_r_timer false);; quicreq_on_timeout fully_closed
  | EvHandleClosed hk => updh (set_handle hk HNone);; quic_on_handle_closed fully_closed
  end.
(** When libuv can make the call: a request in flight, a handle that reads, a
    timer that runs. A closing handle calls back once its own requests have;
    the connect request of a closing channel fails. *)
Definition quic_enabled (ev : quic_event) (s : QSt W QuicRequest) : bool :=
  let h := qs_h s in
  match ev with
  | EvResolved _ => match h_resolving h with Some _ => true | None => false end
  | EvCtrlConnected status => h_connecting h && (negb (bool_decide (h_ctrl h = HClosing)) || (status <? 0))
  | EvCtrlRead _ => h_reading h
  | EvRecv _ _ => h_receiving h
  | EvTimer => match h_expiry h with Some _ => true | None => false end
  | EvTimeout => r_timer (qs_own s)
  | EvHandleClosed hk => bool_decide (handle_of hk h = HClosing) && negb (bool_decide (hk = HCtrl) && h_connecting h)
  end.
Inductive quic_step : QSt W QuicRequest -> QSt W QuicRequest -> Prop :=
| quic_step_event ev s s' : quic_enabled ev s = true -> quic_handle ev s = Some (tt, s') -> quic_step s s'.
End request.
