(* ===== verification/QuicInv.v ===== *)
(** * One request over QUIC, its invariant

    The contract of ngtcp2 ([ng_laws]) and the invariant of a request over QUIC:
    the handles libuv has are the ones the connection says it has ([Life]), and
    the request's flags say what its log says ([Owned]). Each operation keeps it
    while a handle is open ([A], [keepsA]); the egress loop ends. *)
From stdpp Require Import relations.
From S2P Require Import Prelude String8 U8Buf GrowArr Header Url Redirect OriginCache DnsCache Proxy ReqHeaders H3Control H3Session TcpRequest.
From S2P Require Export QuicRequest.

#[local] Arguments count : simpl never.
#[local] Arguments connects : simpl never.

(** ** The contract of ngtcp2 *)
Section laws.
Context `{BoringSSL} {W : Type} `{!QuicApi W}.
(** [work w] bounds the packets and partial packets ngtcp2 still gives out
    before it waits for the network. *)
Record ng_laws (work : W -> Z) : Prop := {
  law_work w : 0 <= work w < 2 ^ 63;
  law_writev w req ts :
    let '(res, n, w') := ngtcp2_conn_writev_stream w req ts in
    work w' <= work w /\
    match res with
    | NgWriteMore => work w' < work w
    | NgPacket pkt => pkt <> [] -> work w' < work w
    | NgStreamBlocked => is_Some req
    | NgWriteError _ => True
    end /\
    n <= match req with Some (_, data, _) => zlen data | None => 0 end;
  law_send w data : work (uv_udp_try_send w data) <= work w;
  (* the end of the handshake comes first in its packet, and once *)
  law_callbacks w src data now :
    Forall (fun cb => match cb with CbHandshakeCompleted _ => False | _ => True end)
      (tl (fst (fst (ngtcp2_conn_read_pkt w src data now))))
}.
End laws.

Section props.
Context `{BoringSSL} `{Qpack} {W : Type} `{Uv W} `{!QuicApi W}.
Abbreviation ST := (QSt W QuicRequest).
Abbreviation QM := (PS ST).
Implicit Types (s : ST).

Lemma wp_getk {X} (f : QuicConnection -> X) (Post : X -> ST -> Prop) s : qs_freed s = false -> Post (f (qs_k s)) s -> wp (getk f) Post s.
Proof. intros Hf HP. unfold wp, getk, live, mbind, PS_bind, pget. by rewrite Hf. Qed.
Lemma wp_geth {X} (f : Handles -> X) (Post : X -> ST -> Prop) s : qs_freed s = false -> Post (f (qs_h s)) s -> wp (geth f) Post s.
Proof. intros Hf HP. unfold wp, geth, live, mbind, PS_bind, pget. by rewrite Hf. Qed.
Lemma wp_geto {X} (f : QuicRequest -> X) (Post : X -> ST -> Prop) s : qs_freed s = false -> Post (f (qs_own s)) s -> wp (geto f) Post s.
Proof. intros Hf HP. unfold wp, geto, live, mbind, PS_bind, pget. by rewrite Hf. Qed.
Lemma wp_updk f (Post : unit -> ST -> Prop) s : qs_freed s = false ->
  Post tt (mkQSt (f (qs_k s)) (qs_h s) (qs_w s) (qs_dns s) (qs_own s) (qs_freed s) (qs_net s)) -> wp (updk f) Post s.
Proof. intros Hf HP. unfold wp, updk, live, mbind, PS_bind, pupd. by rewrite Hf. Qed.
Lemma wp_updh f (Post : unit -> ST -> Prop) s : qs_freed s = false ->
  Post tt (mkQSt (qs_k s) (f (qs_h s)) (qs_w s) (qs_dns s) (qs_own s) (qs_freed s) (qs_net s)) -> wp (updh f) Post s.
Proof. intros Hf HP. unfold wp, updh, live, mbind, PS_bind, pupd. by rewrite Hf. Qed.
Lemma wp_updo f (Post : unit -> ST -> Prop) s : qs_freed s = false ->
  Post tt (mkQSt (qs_k s) (qs_h s) (qs_w s) (qs_dns s) (f (qs_own s)) (qs_freed s) (qs_net s)) -> wp (updo f) Post s.
Proof. intros Hf HP. unfold wp, updo, live, mbind, PS_bind, pupd. by rewrite Hf. Qed.


(** ** What the guarantees depend on *)
Record View := mkView {
  w_params : ReqParams; w_responded : bool; w_closing : bool; w_submitted : bool; w_retrying : bool; w_retried : bool; w_timer : bool;
  w_ctx : option SSL_CTX; w_log : list LogEntry
}.
Definition view (r : QuicRequest) : View :=
  mkView (r_params r) (r_responded r) (r_closing r) (r_submitted r) (r_retrying r) (r_retried_no_early r) (r_timer r) (qc_ctx (r_client r)) (r_log r).
Record Core := mkCore {
  c_freed : bool; co_state : QuicState; co_udp : bool; co_timer : bool; co_ctrl : bool; co_conn : bool; co_want : bool;
  co_rejected : bool; co_ctx : option SSL_CTX; co_n : Z; co_h : Handles; co_own : View; co_small : bool; co_nego : bool
}.
Definition phase_done (p : QPhase) : bool := match p with QPhase_Done => true | _ => false end.
Definition core s : Core :=
  let k := qs_k s in
  mkCore (qs_freed s) (k_state k) (k_udp_inited k) (k_timer_inited k) (k_ctrl_inited k) (k_conn k) (k_want_early_data k)
    (k_early_rejected k) (k_ctx k) (k_handles_closing k) (qs_h s) (view (qs_own s)) (length (k_send_bufs k) <=? QUIC_SEND_BUFS)%nat
    (negb (phase_done (k_proxy_phase k))).
(** [m] runs, on memory that is there, and changes nothing of this. *)
Definition good s : Prop := c_freed (core s) = false /\ co_small (core s) = true.
Definition neutral {A} (m : QM A) : Prop := forall s, good s -> wp m (fun _ s' => core s' = core s) s.
Lemma core_good s s' : core s' = core s -> good s -> good s'.
Proof. unfold good. by intros ->. Qed.
Lemma wp_neutral {A} (m : QM A) (Post : A -> ST -> Prop) s :
  neutral m -> good s -> (forall x s', core s' = core s -> Post x s') -> wp m Post s.
Proof. intros Hm Hf HP. eapply wp_mono; [by apply Hm|]. auto. Qed.
Lemma neutral_bind {A B} (m : QM A) (f : A -> QM B) : neutral m -> (forall x, neutral (f x)) -> neutral (x ← m; f x).
Proof.
  intros Hm Hf s Hs. apply wp_bind. eapply wp_mono; [by apply Hm|]. cbv beta. intros x s1 E1.
  eapply wp_mono; [apply Hf; by eapply core_good|]. cbv beta. congruence.
Qed.
Lemma neutral_ret {A} (x : A) : neutral (mret x).
Proof. by intros s _. Qed.
Lemma neutral_getk {A} (f : QuicConnection -> A) : neutral (getk f).
Proof. intros s [Hs _]. cbn in Hs. unfold wp, getk, live, mbind, PS_bind. rewrite Hs. done. Qed.
Lemma neutral_geth {A} (f : Handles -> A) : neutral (geth f).
Proof. intros s [Hs _]. cbn in Hs. unfold wp, geth, live, mbind, PS_bind. rewrite Hs. done. Qed.
Lemma neutral_geto {A} (f : QuicRequest -> A) : neutral (geto f).
Proof. intros s [Hs _]. cbn in Hs. unfold wp, geto, live, mbind, PS_bind. rewrite Hs. done. Qed.
Lemma neutral_qenv {A} (f : W -> A * W) : neutral (qenv f).
Proof. intros s Hs. unfold wp, qenv. by destruct (f (qs_w s)). Qed.
Lemma neutral_qdns {A} (f : DnsCache -> A * DnsCache) : neutral (qdns f).
Proof. intros s Hs. unfold wp, qdns. by destruct (f (qs_dns s)). Qed.
Lemma neutral_net e : neutral (net e).
Proof. by intros s Hs. Qed.
(** An update of the connection that leaves out what the core has of it. *)
Definition quiet (f : QuicConnection -> QuicConnection) : Prop :=
  forall k, (k_state (f k), k_udp_inited (f k), k_timer_inited (f k), k_ctrl_inited (f k), k_conn (f k), k_want_early_data (f k),
             k_early_rejected (f k), k_ctx (f k), k_handles_closing (f k), phase_done (k_proxy_phase (f k))) =
            (k_state k, k_udp_inited k, k_timer_inited k, k_ctrl_inited k, k_conn k, k_want_early_data k, k_early_rejected k, k_ctx k,
             k_handles_closing k, phase_done (k_proxy_phase k)).
Definition fits (f : QuicConnection -> QuicConnection) : Prop :=
  forall k, (length (k_send_bufs k) <= QUIC_SEND_BUFS)%nat -> (length (k_send_bufs (f k)) <= QUIC_SEND_BUFS)%nat.
Lemma neutral_updk f : quiet f -> fits f -> neutral (updk f).
Proof.
  intros Hf Hb s [Hs Hl]. cbn in Hs, Hl. unfold wp, updk, live, mbind, PS_bind, pupd. rewrite Hs. cbn. unfold core. cbn. specialize (Hf (qs_k s)).
  injection Hf as -> -> -> -> -> -> -> -> -> ->. rewrite Hs, Hl. f_equal. apply Nat.leb_le, Hb. by apply Nat.leb_le in Hl.
Qed.
Lemma neutral_updo f : (forall r, view (f r) = view r) -> neutral (updo f).
Proof.
  intros Hf s [Hs _]. cbn in Hs. unfold wp, updo, live, mbind, PS_bind, pupd. rewrite Hs. cbn. unfold core. cbn. by rewrite Hs, Hf.
Qed.
Lemma neutral_pwhen (b : bool) (m : QM unit) : neutral m -> neutral (pwhen b m).
Proof. destruct b; [done|]. intros _. apply neutral_ret. Qed.
Lemma neutral_if {A} (b : bool) (m1 m2 : QM A) : neutral m1 -> neutral m2 -> neutral (if b then m1 else m2).
Proof. by destruct b. Qed.
End props.
Create HintDb neutral.
#[export] Hint Resolve neutral_getk neutral_geth neutral_geto neutral_qenv neutral_qdns neutral_net neutral_ret : neutral.
(** Runs through a computation of quiet steps. *)
Ltac neutral :=
  repeat first
    [ solve [eauto with neutral]
    | apply neutral_updk; [by intros []|by intros []]
    | apply neutral_updo; by intros []
    | apply neutral_pwhen
    | apply neutral_bind; [|intros ?]
    | match goal with
      | |- neutral (match ?x with _ => _ end) => destruct x
      | |- neutral (let '_ := ?x in _) => destruct x
      end ].

Section neutrals.
Context `{BoringSSL} `{Qpack} {W : Type} `{Uv W} `{!QuicApi W}.
Abbreviation QM := (PS (QSt W QuicRequest)).
Lemma neutral_now_ns : neutral (now_ns : QM Z).
Proof. unfold now_ns. neutral. Qed.
Lemma neutral_stamp : neutral (stamp_resolved : QM unit).
Proof. unfold stamp_resolved, now_ns. neutral.
Qed.
Lemma neutral_cached : neutral (cached_addr : QM _).
Proof. unfold cached_addr. neutral. Qed.
Lemma neutral_cache addr : neutral (cache_addr addr : QM unit).
Proof. unfold cache_addr. neutral. Qed.
Lemma neutral_udp_hdr addr : neutral (quic_build_udp_hdr addr : QM bool).
Proof. unfold quic_build_udp_hdr. neutral. Qed.
Lemma neutral_set_relay t a p : neutral (quic_proxy_set_relay t a p : QM unit).
Proof. unfold quic_proxy_set_relay. neutral. Qed.
Lemma neutral_note_sent req n : neutral (note_sent req n : QM unit).
Proof. unfold note_sent. destruct req as [[[??]?]|]; neutral. Qed.
Lemma neutral_upd_buf i f : neutral (upd_buf i f : QM unit).
Proof.
  unfold upd_buf. apply neutral_updk; [by intros []|]. intros k Hk. cbn. by rewrite length_alter.
Qed.
Lemma neutral_find_or_add id : neutral (quic_find_or_add_send_buf id : QM _).
Proof.
  intros s Hs. unfold quic_find_or_add_send_buf. apply wp_bind. apply wp_getk; [apply Hs|]. destruct (find_buf _ _); [done|].
  destruct (QUIC_SEND_BUFS <=? _)%nat eqn:E; [done|]. apply Nat.leb_gt in E. apply wp_bind, wp_updk; [apply Hs|].
  apply wp_ret. destruct Hs as [_ Hs]. unfold core. cbn in *. rewrite Hs. f_equal. apply Nat.leb_le. rewrite length_app. cbn. lia.
Qed.
Lemma neutral_drop_buf id : neutral (drop_buf id : QM unit).
Proof.
  intros s Hs. unfold drop_buf. apply wp_bind, wp_getk; [apply Hs|]. destruct (find_buf _ _); [|done].
  apply wp_bind. eapply wp_mono; [by apply neutral_net|]. cbv beta. intros _ s1 E1.
  eapply wp_mono; [apply neutral_updk; [by intros []| |by eapply core_good]|cbv beta; congruence].
  intros k _. cbn. destruct Hs as [_ Hs]. cbn in Hs. apply Nat.leb_le in Hs.
  unfold swap_remove_buf. destruct (last _); [|done]. rewrite length_take, length_insert. lia.
Qed.
Lemma neutral_is_closing hk : neutral (uv_is_closing hk : QM bool).
Proof. unfold uv_is_closing. neutral. Qed.
Lemma neutral_encode_tp n : neutral (quic_conn_encode_0rtt_tp n : QM bytes).
Proof. unfold quic_conn_encode_0rtt_tp. neutral. Qed.
Lemma neutral_early_rejected : neutral (quic_conn_early_rejected : QM bool).
Proof. unfold quic_conn_early_rejected. neutral. Qed.
Lemma neutral_capture_tp : neutral (quicreq_capture_tp : QM unit).
Proof. unfold quicreq_capture_tp, quic_conn_encode_0rtt_tp. neutral. Qed.
End neutrals.
#[export] Hint Resolve neutral_now_ns neutral_stamp neutral_cached neutral_cache neutral_udp_hdr neutral_set_relay neutral_note_sent
  neutral_upd_buf neutral_find_or_add neutral_drop_buf neutral_is_closing neutral_encode_tp neutral_early_rejected neutral_capture_tp : neutral.

(** ** The invariant *)
Section inv.
Context `{BoringSSL} `{Qpack} {W : Type} `{Uv W} `{!QuicApi W}.
Abbreviation ST := (QSt W QuicRequest).
Abbreviation QM := (PS ST).
Implicit Types (s : ST) (c : Core).

Definition co_inited (hk : HandleKind) c : bool := match hk with HTimer => co_timer c | HUdp => co_udp c | HCtrl => co_ctrl c end.
Definition closing1 (v : HandleState) : Z := match v with HClosing => 1 | _ => 0 end.
Definition closing_count (h : Handles) : Z := closing1 (h_timer h) + closing1 (h_udp h) + closing1 (h_ctrl h).
(** Before the UDP socket is opened. *)
Definition off_net c : Prop := co_conn c = false /\ h_udp (co_h c) = HNone /\ h_timer (co_h c) = HNone.
(** The handles libuv has are the ones the connection says it has. *)
Record Life c : Prop := {
  l_live : c_freed c = false;
  l_small : co_small c = true;
  l_open : co_state c <> QuicState_Closing -> forall hk, handle_of hk (co_h c) = if co_inited hk c then HOpen else HNone;
  l_closing : co_state c = QuicState_Closing ->
    (forall hk, co_inited hk c = false /\ handle_of hk (co_h c) <> HOpen) /\ co_n c = closing_count (co_h c) /\ 0 < co_n c;
  l_recv : h_receiving (co_h c) = true -> h_udp (co_h c) = HOpen /\ co_conn c = true;
  l_timer : is_Some (h_expiry (co_h c)) -> h_timer (co_h c) = HOpen;
  l_read : h_reading (co_h c) = true -> h_ctrl (co_h c) = HOpen /\ h_connecting (co_h c) = false;
  l_connecting : h_connecting (co_h c) = true -> h_ctrl (co_h c) <> HNone;
  l_res : co_state c <> QuicState_Closing -> forall r, h_resolving (co_h c) = Some r ->
    off_net c /\ h_connecting (co_h c) = false /\ match r with RTarget => co_nego c = false | _ => h_ctrl (co_h c) = HNone end;
  l_nego : co_state c <> QuicState_Closing -> h_connecting (co_h c) || h_reading (co_h c) && co_nego c = true ->
    off_net c /\ h_resolving (co_h c) = None;
  l_ctx : is_Some (co_ctx c) /\ is_Some (w_ctx (co_own c))
}.
Definition b2n (b : bool) : nat := if b then 1%nat else 0%nat.
(** The request, and what its log says. *)
Record Owned c : Prop := {
  o_deliver : count is_deliver (w_log (co_own c)) = b2n (w_responded (co_own c));
  o_free : count is_free (w_log (co_own c)) = 0%nat;
  o_resp : w_closing (co_own c) = true -> w_responded (co_own c) = true;
  o_closing : co_state c = QuicState_Closing <-> w_closing (co_own c) = true \/ w_retrying (co_own c) = true;
  o_retry : w_retrying (co_own c) = true -> w_retried (co_own c) = true /\ h_resolving (co_h c) = None;
  o_connects : exists b, connects (w_log (co_own c)) = (if w_retried (co_own c) && negb (w_retrying (co_own c)) then [b; false] else [b]) /\
    (w_retried (co_own c) = true -> b = true) /\
    (b = true -> idempotent (rp_method (w_params (co_own c))) = true /\ rp_body (w_params (co_own c)) = []);
  o_early : co_want c = true \/ co_rejected c = true -> last (connects (w_log (co_own c))) = Some true;
  o_submit : (count is_submit (w_log (co_own c)) <= b2n (w_submitted (co_own c)) + b2n (w_retried (co_own c) && negb (w_retrying (co_own c))))%nat;
  o_nosub : co_conn c = false -> w_submitted (co_own c) = false
}.
Definition anchored c : Prop := exists hk, handle_of hk (co_h c) <> HNone.
Definition A s : Prop := Life (core s) /\ Owned (core s) /\ anchored (core s).
(** What an operation of an open connection leaves as it was. *)
Definition same_rest c c' : Prop := co_conn c' = co_conn c /\ w_submitted (co_own c') = w_submitted (co_own c).
Definition keepsA {X} (m : QM X) : Prop := forall s, A s -> wp m (fun _ s' => A s' /\ same_rest (core s) (core s')) s.

Lemma A_live s : A s -> qs_freed s = false.
Proof. intros (HL & _). apply (l_live _ HL). Qed.
Lemma A_good s : A s -> good s.
Proof. intros (HL & _). split; [apply (l_live _ HL)|apply (l_small _ HL)]. Qed.
Lemma neutral_keepsA {X} (m : QM X) : neutral m -> keepsA m.
Proof.
  intros Hm s HA. eapply wp_mono; [apply Hm; by apply A_good|]. cbv beta. intros x s' E. unfold A, same_rest. by rewrite E.
Qed.
Lemma keepsA_bind {X Y} (m : QM X) (f : X -> QM Y) : keepsA m -> (forall x, keepsA (f x)) -> keepsA (x ← m; f x).
Proof.
  intros Hm Hf s HA. apply wp_bind. eapply wp_mono; [by apply Hm|]. cbv beta. intros x s1 [HA1 [E1 E2]].
  eapply wp_mono; [by apply Hf|]. cbv beta. intros y s2 [HA2 [E3 E4]]. split; [done|]. split; congruence.
Qed.
Lemma keepsA_pwhen (b : bool) (m : QM unit) : keepsA m -> keepsA (pwhen b m).
Proof. destruct b; [done|]. intros _. apply neutral_keepsA, neutral_ret. Qed.

(** *** Closing *)
Definition set_co_state (st : QuicState) (n : Z) c : Core :=
  mkCore (c_freed c) st (co_udp c) (co_timer c) (co_ctrl c) (co_conn c) (co_want c) (co_rejected c) (co_ctx c) n (co_h c) (co_own c) (co_small c) (co_nego c).
Definition close1 (hk : HandleKind) c : Core :=
  if co_inited hk c && negb (bool_decide (handle_of hk (co_h c) = HClosing)) then
    let off hk' := if bool_decide (hk' = hk) then false else co_inited hk' c in
    mkCore (c_freed c) (co_state c) (off HUdp) (off HTimer) (off HCtrl) (co_conn c) (co_want c) (co_rejected c) (co_ctx c) (co_n c + 1)
      (set_handle hk HClosing (co_h c)) (co_own c) (co_small c) (co_nego c)
  else c.
Definition close_all c : Core := close1 HCtrl (close1 HUdp (close1 HTimer (set_co_state QuicState_Closing 0 c))).
Lemma close_one_core hk s : qs_freed s = false -> wp (close_one hk) (fun _ s' => core s' = close1 hk (core s)) s.
Proof.
  intros Hf. unfold close_one. apply wp_bind, wp_getk; [done|]. apply wp_bind. unfold uv_is_closing. apply wp_geth; [done|].
  unfold close1. assert (Ei : co_inited hk (core s) = inited hk (qs_k s)) by (by destruct hk). rewrite Ei. cbn [co_h core].
  destruct (inited hk (qs_k s) && negb _) eqn:E; [|done]. cbn [pwhen].
  apply wp_bind, wp_updk; [done|]. apply wp_bind, wp_updh; [done|]. apply wp_updk; [done|]. unfold core. cbn. by destruct hk.
Qed.
Lemma close1_freed hk c : c_freed (close1 hk c) = c_freed c.
Proof. unfold close1. by destruct (_ && _). Qed.
Lemma wp_conn_close ofc (Post : unit -> ST -> Prop) s : qs_freed s = false -> k_state (qs_k s) <> QuicState_Closing ->
  (forall s', core s' = close_all (core s) -> if co_n (core s') =? 0 then wp ofc Post s' else Post tt s') ->
  wp (quic_conn_close ofc) Post s.
Proof.
  intros Hf Hst HP. unfold quic_conn_close. apply wp_bind, wp_getk; [done|]. rewrite bool_decide_false by done.
  apply wp_bind, wp_updk; [done|]. cbn [compose].
  match goal with |- wp _ _ ?s1 => assert (E0 : core s1 = set_co_state QuicState_Closing 0 (core s)) by done; revert E0; generalize s1 end.
  intros s1 E1. assert (F1 : qs_freed s1 = false) by (change (c_freed (core s1) = false); by rewrite E1).
  apply wp_bind. eapply wp_mono; [by apply close_one_core|]. cbv beta. intros _ s2 E2.
  assert (F2 : qs_freed s2 = false) by (change (c_freed (core s2) = false); by rewrite E2, close1_freed).
  apply wp_bind. eapply wp_mono; [by apply close_one_core|]. cbv beta. intros _ s3 E3.
  assert (F3 : qs_freed s3 = false) by (change (c_freed (core s3) = false); by rewrite E3, close1_freed).
  apply wp_bind. eapply wp_mono; [by apply close_one_core|]. cbv beta. intros _ s4 E4.
  assert (F4 : qs_freed s4 = false) by (change (c_freed (core s4) = false); by rewrite E4, close1_freed).
  apply wp_bind, wp_getk; [done|]. specialize (HP s4). rewrite E1 in E2. rewrite E2 in E3. rewrite E3 in E4. specialize (HP E4).
  change (k_handles_closing (qs_k s4)) with (co_n (core s4)). by destruct (co_n (core s4) =? 0).
Qed.
(** What a close makes of an open connection. *)
Lemma close_all_life c : Life c -> co_state c <> QuicState_Closing ->
  let c' := close_all c in
  (forall hk, co_inited hk c' = false /\ handle_of hk (co_h c') = match handle_of hk (co_h c) with HOpen => HClosing | v => v end) /\
  co_n c' = closing_count (co_h c') /\ 0 <= co_n c' /\ co_state c' = QuicState_Closing /\
  h_receiving (co_h c') = false /\ h_expiry (co_h c') = None /\ h_reading (co_h c') = false /\
  h_connecting (co_h c') = h_connecting (co_h c) /\ h_resolving (co_h c') = h_resolving (co_h c) /\
  c_freed c' = c_freed c /\ co_own c' = co_own c /\ co_conn c' = co_conn c /\ co_want c' = co_want c /\ co_rejected c' = co_rejected c /\
  co_ctx c' = co_ctx c /\ co_small c' = co_small c.
Proof.
  intros HL Hst. pose proof (l_open _ HL Hst) as HO. pose proof (l_recv _ HL) as HR. pose proof (l_timer _ HL) as HT. pose proof (l_read _ HL) as HD.
  destruct c as [fr st bu bt bc cn wa rj cx n h ow sm ng]. destruct h as [ht hu hc hres hcon hread hrecv hexp].
  pose proof (HO HTimer) as E1. pose proof (HO HUdp) as E2. pose proof (HO HCtrl) as E3. cbn in E1, E2, E3, HR, HT, HD. clear HO HL.
  subst ht hu hc.
  assert (Er : hrecv = false \/ bu = true) by (destruct hrecv, bu; auto; destruct HR; done).
  assert (Ed : hread = false \/ bc = true) by (destruct hread, bc; auto; by destruct (HD eq_refl)).
  assert (Ex : hexp = None \/ bt = true) by (destruct hexp, bt; auto; by specialize (HT ltac:(by eexists))).
  assert (E : close_all (mkCore fr st bu bt bc cn wa rj cx n
      (mkHandles (if bt then HOpen else HNone) (if bu then HOpen else HNone) (if bc then HOpen else HNone) hres hcon hread hrecv hexp) ow sm ng) =
    mkCore fr QuicState_Closing false false false cn wa rj cx (Z.of_nat (b2n bt) + Z.of_nat (b2n bu) + Z.of_nat (b2n bc))
      (mkHandles (if bt then HClosing else HNone) (if bu then HClosing else HNone) (if bc then HClosing else HNone) hres hcon
         (if bc then false else hread) (if bu then false else hrecv) (if bt then None else hexp)) ow sm ng).
  { destruct bt, bu, bc; reflexivity. }
  cbv zeta. rewrite E. cbn [co_inited handle_of co_h co_udp co_timer co_ctrl h_timer h_udp h_ctrl h_receiving h_expiry h_reading h_connecting h_resolving
    co_n co_state c_freed co_own co_conn co_want co_rejected co_ctx co_small closing_count]. clear E HR HT HD.
  split. { intros []; split; try done; by destruct bt, bu, bc. }
  split. { by destruct bt, bu, bc. }
  split; [lia|]. split; [done|]. split. { by destruct bu, Er. } split. { by destruct bt, Ex. } split. { by destruct bc, Ed. } done.
Qed.
Lemma closed_life c : Life c -> anchored c -> co_state c <> QuicState_Closing -> Life (close_all c) /\ anchored (close_all c) /\ 0 < co_n (close_all c).
Proof.
  intros HL [hk Hk] Hst. pose proof (close_all_life c HL Hst) as (Hh & Hn & Hn0 & Est & Hrv & Hex & Hrd & Hcn & Hrs & Hf & Ho & Hc & _ & _ & Hx & Hsm).
  assert (Hh1 : handle_of hk (co_h (close_all c)) = HClosing).
  { destruct (Hh hk) as [_ ->]. pose proof (l_open _ HL Hst hk) as E. rewrite E in *. by destruct (co_inited hk c). }
  assert (Hpos : 0 < co_n (close_all c)).
  { rewrite Hn. unfold closing_count. assert (H0' : forall v, 0 <= closing1 v) by (by intros []).
    pose proof (H0' (h_timer (co_h (close_all c)))). pose proof (H0' (h_udp (co_h (close_all c)))). pose proof (H0' (h_ctrl (co_h (close_all c)))).
    destruct hk; cbn in Hh1; rewrite Hh1 in *; cbn in *; lia. }
  split; [|split; [by exists hk; rewrite Hh1|done]]. split.
  - rewrite Hf. apply (l_live _ HL).
  - rewrite Hsm. apply (l_small _ HL).
  - by rewrite Est.
  - intros _. split; [|done]. intros hk'. destruct (Hh hk') as [-> ->]. split; [done|]. by destruct (handle_of hk' (co_h c)).
  - by rewrite Hrv.
  - rewrite Hex. by intros [].
  - by rewrite Hrd.
  - rewrite Hcn. intros E%(l_connecting _ HL). destruct (Hh HCtrl) as [_ E']. cbn in E'. rewrite E'. by destruct (h_ctrl (co_h c)).
  - by rewrite Est.
  - by rewrite Est.
  - rewrite Hx, Ho. apply (l_ctx _ HL).
Qed.
Lemma wp_close_anchored ofc (Post : unit -> ST -> Prop) s : Life (core s) -> anchored (core s) ->
  (forall s', Life (core s') -> anchored (core s') -> co_state (core s') = QuicState_Closing -> co_own (core s') = co_own (core s) ->
     co_conn (core s') = co_conn (core s) -> co_want (core s') = co_want (core s) -> co_rejected (core s') = co_rejected (core s) ->
     h_resolving (co_h (core s')) = h_resolving (co_h (core s)) -> Post tt s') ->
  wp (quic_conn_close ofc) Post s.
Proof.
  intros HL HA HP. destruct (decide (k_state (qs_k s) = QuicState_Closing)) as [E|E].
  - unfold quic_conn_close. apply wp_bind, wp_getk; [apply (l_live _ HL)|]. rewrite bool_decide_true by done. by apply HP.
  - apply wp_conn_close; [apply (l_live _ HL)|done|]. intros s' Ec. destruct (closed_life _ HL HA E) as (HL' & HA' & Hn).
    pose proof (close_all_life _ HL E) as (_ & _ & _ & Est & _ & _ & _ & _ & Hrs & _ & Ho & Hc & Hw & Hr & _).
    rewrite <-Ec in *. rewrite (proj2 (Z.eqb_neq _ _)) by lia. by apply HP.
Qed.
(** With no handle the callback runs at once. *)
Lemma wp_close_now ofc (Post : unit -> ST -> Prop) s : Life (core s) -> co_state (core s) <> QuicState_Closing ->
  (forall hk, handle_of hk (co_h (core s)) = HNone) ->
  (forall s', core s' = set_co_state QuicState_Closing 0 (core s) -> wp ofc Post s') -> wp (quic_conn_close ofc) Post s.
Proof.
  intros HL E Hn HP. apply wp_conn_close; [apply (l_live _ HL)|done|]. intros s' Ec.
  assert (E' : close_all (core s) = set_co_state QuicState_Closing 0 (core s)).
  { pose proof (l_open _ HL E) as HO. clear -HO Hn. revert HO Hn. generalize (core s). intros c HO Hn.
    assert (Hi : forall hk, co_inited hk c = false) by (intros hk; specialize (HO hk); rewrite Hn in HO; by destruct (co_inited hk c)).
    pose proof (Hi HTimer) as I1. pose proof (Hi HUdp) as I2. pose proof (Hi HCtrl) as I3. destruct c. cbn in I1, I2, I3. subst.
    reflexivity. }
  rewrite Ec, E'. change (wp ofc Post s'). apply HP. by rewrite Ec, E'.
Qed.

(** *** Ending *)
Definition set_co_own (o : View) c : Core :=
  mkCore (c_freed c) (co_state c) (co_udp c) (co_timer c) (co_ctrl c) (co_conn c) (co_want c) (co_rejected c) (co_ctx c) (co_n c) (co_h c) o (co_small c) (co_nego c).
Lemma Life_own o c : Life c -> is_Some (w_ctx o) -> Life (set_co_own o c).
Proof. intros [? ? ? ? ? ? ? ? ? ? [? _]] Ho. by split. Qed.
Lemma wp_updo_core f (Post : unit -> ST -> Prop) s : qs_freed s = false ->
  (forall s', core s' = set_co_own (view (f (qs_own s))) (core s) -> Post tt s') -> wp (updo f) Post s.
Proof. intros Hf HP. apply wp_updo; [done|]. by apply HP. Qed.
Lemma count_snoc p l e : count p (l ++ [e]) = (count p l + b2n (p e))%nat.
Proof. unfold count. rewrite filter_app, length_app. f_equal. rewrite filter_cons. destruct (decide _) as [E|E]; [by rewrite E|by apply not_true_iff_false in E as ->]. Qed.
Lemma connects_snoc l e : connects (l ++ [e]) = connects l ++ match e with LogConnect b => [b] | _ => [] end.
Proof. unfold connects. rewrite omap_app. by destruct e. Qed.
(** An outcome or a chunk is logged, by a request that has not answered. *)
Definition answered (d : Delivery) (o : View) : View :=
  mkView (w_params o) true (w_closing o) (w_submitted o) (w_retrying o) (w_retried o) (w_timer o) (w_ctx o) (w_log o ++ [LogDeliver d]).
Lemma Owned_answered c d : Owned c -> w_responded (co_own c) = false -> Owned (set_co_own (answered d (co_own c)) c).
Proof.
  intros [O1 O2 O3 O4 O5 O6 O7 O8 O9] Hr. split; cbn; rewrite ?count_snoc, ?connects_snoc, ?app_nil_r; cbn; rewrite ?Nat.add_0_r; auto.
  rewrite O1, Hr. done.
Qed.
(** The invariant, whether a handle is open or not. *)
Definition LO s : Prop := Life (core s) /\ Owned (core s).
Lemma LO_deliver_error err s : LO s ->
  wp (quicreq_deliver_error err) (fun _ s' => LO s' /\ same_rest (core s) (core s') /\ w_responded (co_own (core s')) = true /\
    co_h (core s') = co_h (core s) /\ co_state (core s') = co_state (core s)) s.
Proof.
  intros (HL & HO). unfold quicreq_deliver_error. apply wp_bind, wp_geto; [apply (l_live _ HL)|].
  destruct (r_responded (qs_own s)) eqn:Er; [done|]. apply wp_updo_core; [apply (l_live _ HL)|]. intros s' E.
  assert (E' : core s' = set_co_own (answered (DeliverError err) (co_own (core s))) (core s)) by exact E.
  unfold LO. rewrite E'. split; [|done]. split; [by apply Life_own, (l_ctx _ HL)|by apply Owned_answered].
Qed.
Lemma A_deliver_error err s : A s ->
  wp (quicreq_deliver_error err) (fun _ s' => A s' /\ same_rest (core s) (core s') /\ w_responded (co_own (core s')) = true) s.
Proof.
  intros (HL & HO & Ha). eapply wp_mono; [by apply LO_deliver_error|]. cbv beta. intros _ s' ([HL' HO'] & R & Hr & Eh & _).
  split; [|done]. split; [done|]. split; [done|]. unfold anchored. by rewrite Eh.
Qed.
Lemma A_finish ofc s : A s -> w_responded (co_own (core s)) = true ->
  wp (quicreq_finish ofc) (fun _ s' => A s' /\ same_rest (core s) (core s')) s.
Proof.
  intros (HL & HO & Ha) Hr. unfold quicreq_finish. apply wp_bind, wp_geto; [apply (l_live _ HL)|].
  destruct (r_closing (qs_own s)) eqn:Er; [done|]. apply wp_bind, wp_updo_core; [apply (l_live _ HL)|]. intros s1 E1.
  assert (HL1 : Life (core s1)) by (rewrite E1; by apply Life_own, (l_ctx _ HL)).
  apply wp_close_anchored; [done|by rewrite E1|]. intros s' HL' Ha' Est Eo Ec Ew Erj Ers.
  split; [|by rewrite E1 in Ec, Eo; split; [rewrite Ec|rewrite Eo]]. split; [done|]. split; [|done].
  destruct HO as [O1 O2 O3 O4 O5 O6 O7 O8 O9].
  split; rewrite ?Eo, ?Ec, ?Ew, ?Erj, ?Est, ?Ers, ?E1; cbn; auto. split; auto.
Qed.
Lemma keepsA_ready_fail ofc err : keepsA (quicreq_on_ready_fail ofc err).
Proof.
  intros s HA. unfold quicreq_on_ready_fail. apply wp_bind. eapply wp_mono; [by apply A_deliver_error|]. cbv beta.
  intros _ s1 (HA1 & [E1 E2] & Hr). eapply wp_mono; [by apply A_finish|]. cbv beta. intros _ s2 [HA2 [E3 E4]]. split; [done|]. split; congruence.
Qed.
Lemma keepsA_on_closed ofc e : keepsA (quicreq_on_closed ofc e).
Proof.
  unfold quicreq_on_closed. apply keepsA_bind; [apply neutral_keepsA, neutral_geto|intros rt].
  apply keepsA_bind; [apply neutral_keepsA, neutral_geto|intros rp]. destruct (rt || rp); [apply neutral_keepsA, neutral_ret|].
  apply keepsA_ready_fail.
Qed.

(** *** Failing *)
Definition at_state (st : QuicState) c : Core := set_co_state st (co_n c) c.
Lemma Life_state st c : Life c -> co_state c <> QuicState_Closing -> st <> QuicState_Closing -> Life (at_state st c).
Proof. intros [] Hc Hst. split; cbn; auto. done. Qed.
Lemma Owned_state st c : Owned c -> co_state c <> QuicState_Closing -> st <> QuicState_Closing -> Owned (at_state st c).
Proof.
  intros [O1 O2 O3 O4 O5 O6 O7 O8 O9] Hc Hst. split; cbn; auto; try done. split; [done|]. by intros ?%O4.
Qed.
Lemma wp_set_state st (Post : unit -> ST -> Prop) s : qs_freed s = false ->
  (forall s', core s' = at_state st (core s) -> Post tt s') -> wp (updk (set_k_state st)) Post s.
Proof. intros Hf HP. apply wp_updk; [done|]. by apply HP. Qed.
Lemma keepsA_fail ofc reason : keepsA (quic_fail (quicreq_on_ready_fail ofc) (quicreq_on_closed ofc) reason).
Proof.
  intros s HA. unfold quic_fail. apply wp_bind, wp_getk; [by apply A_live|].
  destruct (_ || _) eqn:E; [by apply (neutral_keepsA _ (neutral_ret tt))|].
  apply orb_false_iff in E as [E1 E2]. apply bool_decide_eq_false in E1, E2.
  apply wp_bind, wp_set_state; [by apply A_live|]. intros s1 Es.
  assert (HA1 : A s1). { destruct HA as (HL & HO & Ha). unfold A. rewrite Es. split; [by apply Life_state|]. split; [by apply Owned_state|done]. }
  assert (Er : same_rest (core s) (core s1)) by (by rewrite Es).
  assert (K : keepsA (fired ← getk k_ready_fired;
                      if negb fired then updk (set_k_ready_fired true);; quicreq_on_ready_fail ofc reason else quicreq_on_closed ofc reason)).
  { apply keepsA_bind; [apply neutral_keepsA, neutral_getk|]. intros []; [apply keepsA_on_closed|].
    apply keepsA_bind; [apply neutral_keepsA; neutral|intros _; apply keepsA_ready_fail]. }
  eapply wp_mono; [by apply K|]. cbv beta. intros _ s2 [HA2 [E3 E4]]. split; [done|]. destruct Er. split; congruence.
Qed.

(** *** Sending *)
Section sending.
Context (work : W -> Z) (Hng : ng_laws work) (ofc : QM unit).
Abbreviation fail_cb := (quicreq_on_ready_fail ofc).
Abbreviation closed_cb := (quicreq_on_closed ofc).
(** What the loop goes down by: what ngtcp2 gives out, and the streams that are
    not held back. *)
Fixpoint unblocked (bufs : list QuicSendBuf) : nat :=
  match bufs with [] => 0%nat | sb :: bufs => (b2n (negb (sb_blocked sb)) + unblocked bufs)%nat end.
Definition egress_measure s : Z := work (qs_w s) + Z.of_nat (unblocked (k_send_bufs (qs_k s))).
Lemma pick_pending_spec bufs i sb : quic_pick_pending bufs = Some (i, sb) -> bufs !! i = Some sb /\ sb_blocked sb = false.
Proof.
  revert i. induction bufs as [|b bufs IH]; intros i; cbn [quic_pick_pending]; [done|].
  destruct (pending b) eqn:E.
  - intros [= <- <-]. split; [done|]. unfold pending in E. by destruct (sb_blocked b).
  - destruct (quic_pick_pending bufs) as [[j x]|] eqn:Ep; [|done]. intros [= <- <-]. by apply IH.
Qed.
Lemma unblocked_alter i f bufs : (forall sb, sb_blocked (f sb) = sb_blocked sb) -> unblocked (alter f i bufs) = unblocked bufs.
Proof.
  intros Hf. revert i. induction bufs as [|b bufs IH]; intros [|i]; cbn [unblocked alter list_alter]; [done..|by rewrite Hf|f_equal; apply IH].
Qed.
Lemma unblocked_block i bufs sb : bufs !! i = Some sb -> sb_blocked sb = false -> (unblocked (alter (set_blocked true) i bufs) < unblocked bufs)%nat.
Proof.
  revert i. induction bufs as [|b bufs IH]; intros [|i] Hi Hb; cbn [unblocked alter list_alter]; [done..| |].
  - injection Hi as ->. rewrite Hb. cbn. lia.
  - pose proof (IH i Hi Hb). unfold alter in *. lia.
Qed.
Lemma unblocked_le bufs : (unblocked bufs <= length bufs)%nat.
Proof. induction bufs as [|b bufs IH]; cbn [unblocked length]; [done|]. destruct (sb_blocked b); cbn; lia. Qed.
Lemma advance_blocked n sb : sb_blocked (advance n sb) = sb_blocked sb.
Proof. unfold advance. by destruct (0 <? n). Qed.

Lemma A_core s s' : core s' = core s -> A s -> A s'.
Proof. unfold A. by intros ->. Qed.
Lemma same_rest_core c s' : core s' = c -> same_rest c (core s').
Proof. by intros ->. Qed.
Lemma same_rest_trans c1 c2 c3 : same_rest c1 c2 -> same_rest c2 c3 -> same_rest c1 c3.
Proof. unfold same_rest. intuition congruence. Qed.
Lemma wp_upd_bufs (m : QM unit) i f s : m = upd_buf i f -> good s ->
  wp m (fun _ s' => core s' = core s /\ qs_w s' = qs_w s /\ k_send_bufs (qs_k s') = alter f i (k_send_bufs (qs_k s))) s.
Proof.
  intros -> Hs. unfold upd_buf. apply wp_updk; [apply Hs|]. split; [|by destruct (qs_k s)].
  unfold core. cbn. destruct (qs_k s); cbn. by rewrite length_alter.
Qed.
Lemma egress_taken pick n s : good s ->
  wp (note_sent (stream_request ∘ snd <$> pick) n;; match pick with Some (i, _) => upd_buf i (advance n) | None => pskip end)
    (fun _ s' => core s' = core s /\ egress_measure s' = egress_measure s) s.
Proof.
  intros Hs. apply wp_bind. destruct pick as [[i sb]|]; [|done]. unfold note_sent, stream_request. cbn. destruct (0 <=? n); cbn [pwhen].
  - unfold net. apply wp_pupd. eapply wp_mono; [by apply wp_upd_bufs|]. cbv beta. intros _ s1 (E1 & E2 & E3). split; [done|].
    unfold egress_measure. rewrite E2, E3. cbn. by rewrite unblocked_alter by apply advance_blocked.
  - apply wp_ret. eapply wp_mono; [by apply wp_upd_bufs|]. cbv beta. intros _ s1 (E1 & E2 & E3). split; [done|].
    unfold egress_measure. rewrite E2, E3. by rewrite unblocked_alter by apply advance_blocked.
Qed.
Definition round_post s (r : Round) s' : Prop :=
  A s' /\ same_rest (core s) (core s') /\ match r with RoundAgain => 0 <= egress_measure s' < egress_measure s | _ => True end.
Lemma measure_nonneg s : 0 <= egress_measure s.
Proof. unfold egress_measure. pose proof (law_work work Hng (qs_w s)). lia. Qed.
Lemma egress_round_spec ts s : A s -> wp (egress_round fail_cb closed_cb ts) (round_post s) s.
Proof.
  intros HA. unfold egress_round. apply wp_bind, wp_getk; [by apply A_live|].
  set (pick := quic_pick_pending (k_send_bufs (qs_k s))). apply wp_bind. unfold qenv at 1. unfold wp at 1.
  set (req := _ <$> pick). pose proof (law_writev work Hng (qs_w s) req ts) as Hl.
  destruct (ngtcp2_conn_writev_stream (qs_w s) req ts) as [[res n] w']. destruct Hl as (Hw & Hres & _).
  set (s1 := mkQSt _ _ _ _ _ _ _). assert (E1 : core s1 = core s) by done.
  assert (HA1 : A s1) by by eapply A_core. assert (B1 : k_send_bufs (qs_k s1) = k_send_bufs (qs_k s)) by done.
  assert (W1 : qs_w s1 = w') by done. clearbody s1. assert (R1 : same_rest (core s) (core s1)) by by apply same_rest_core.
  destruct res as [pkt| | |rv].
  - apply wp_bind. eapply wp_mono; [apply egress_taken; by apply A_good|]. cbv beta. intros _ s2 [E2 M2].
    assert (HA2 : A s2) by by eapply A_core. assert (R2 : same_rest (core s) (core s2)) by (rewrite E2; done).
    destruct (length pkt =? 0)%nat eqn:Ep; [by split|]. apply wp_bind, wp_getk; [by apply A_live|]. apply wp_bind, wp_getk; [by apply A_live|].
    set (data := if k_proxied _ then _ else _). apply wp_bind. unfold net. apply wp_pupd, wp_bind. unfold qenv, wp at 1. cbn [mret PS_ret].
    apply wp_ret. split; [by eapply A_core; [|exact HA2]|]. split; [done|].
    assert (Hp : pkt <> []) by (by intros ->). specialize (Hres Hp). pose proof (law_send work Hng (qs_w s2) data).
    split; [apply measure_nonneg|]. unfold egress_measure in *. cbn in *. rewrite W1, B1 in M2. lia.
  - apply wp_bind. eapply wp_mono; [apply egress_taken; by apply A_good|]. cbv beta. intros _ s2 [E2 M2].
    apply wp_ret. split; [by eapply A_core; [exact E2|]|]. split; [by rewrite E2|]. split; [apply measure_nonneg|].
    unfold egress_measure in *. rewrite M2, W1, B1. lia.
  - destruct pick as [[i sb]|] eqn:Epick; [|by destruct Hres]. apply pick_pending_spec in Epick as [Ei Eb].
    apply wp_bind. eapply wp_mono; [apply wp_upd_bufs; [done|by apply A_good]|]. cbv beta. intros _ s2 (E2 & W2 & B2).
    apply wp_ret. split; [by eapply A_core; [exact E2|]|]. split; [by rewrite E2|]. split; [apply measure_nonneg|].
    unfold egress_measure. rewrite W2, W1, B2, B1. pose proof (unblocked_block _ _ _ Ei Eb). lia.
  - apply wp_bind. eapply wp_mono; [by apply keepsA_fail|]. cbv beta. intros _ s2 [HA2 R2]. apply wp_ret. split; [done|].
    split; [by eapply same_rest_trans|done].
Qed.
Lemma keepsA_loop ts : keepsA (egress_loop fail_cb closed_cb ts).
Proof.
  intros s HA. unfold wp, egress_loop.
  destruct (loop_pow_64 (fun s => match egress_round fail_cb closed_cb ts s with
                                | Some (RoundAgain, s) => inl s
                                | Some (RoundDone, s) => inr (Some (true, s))
                                | Some (RoundFailed, s) => inr (Some (false, s))
                                | None => inr None
                                end)
    (fun s1 => A s1 /\ same_rest (core s) (core s1))
    (fun r => match r with Some (_, s1) => A s1 /\ same_rest (core s) (core s1) | None => False end) egress_measure s) as (r & -> & Hr).
  - intros s1 [HA1 R1]. pose proof (egress_round_spec ts s1 HA1) as Hp. unfold wp in Hp.
    destruct (egress_round _ _ _ s1) as [[r s2]|]; [|done]. destruct Hp as (HA2 & R2 & Hm).
    pose proof (same_rest_trans _ _ _ R1 R2). by destruct r.
  - by split.
  - unfold egress_measure. pose proof (law_work work Hng (qs_w s)). pose proof (unblocked_le (k_send_bufs (qs_k s))).
    destruct (A_good _ HA) as [_ Hsm]. cbn in Hsm. apply Nat.leb_le in Hsm. unfold QUIC_SEND_BUFS in Hsm. lia.
  - by destruct r as [[d s1]|].
Qed.
Lemma keepsA_updh (f : Handles -> Handles) : (forall s, A s -> A (mkQSt (qs_k s) (f (qs_h s)) (qs_w s) (qs_dns s) (qs_own s) (qs_freed s) (qs_net s))) ->
  keepsA (updh f : QM unit).
Proof. intros Hf s HA. apply wp_updh; [by apply A_live|]. split; [by apply Hf|done]. Qed.
Lemma keepsA_arm_timer : keepsA (quic_arm_timer : QM unit).
Proof.
  intros s HA. unfold quic_arm_timer. apply wp_bind, wp_getk; [by apply A_live|]. apply wp_bind, wp_getk; [by apply A_live|].
  destruct (negb (k_conn (qs_k s)) || negb (k_timer_inited (qs_k s))) eqn:E; [done|]. apply orb_false_iff in E as [_ E].
  apply negb_false_iff in E. apply wp_bind. unfold qenv at 1, wp at 1. destruct (_ =? U64_MAX); [done|].
  apply wp_bind. unfold now_ns, qenv at 1, wp at 1. destruct (uv_hrtime _) as [now w]. apply wp_updh; [by apply (A_live s)|].
  split; [|done]. destruct HA as ([] & [] & Ha). assert (co_state (core s) <> QuicState_Closing) as Hst.
  { intros Ec. destruct (l_closing0 Ec) as [Hcl _]. destruct (Hcl HTimer) as [E' _]. cbn in E'. by rewrite E in E'. }
  split; [|split; [|by destruct Ha as [[] Ha]; [exists HTimer|exists HUdp|exists HCtrl]]].
  - split; cbn in *; auto; try done.
    intros _. specialize (l_open0 Hst HTimer). cbn in l_open0. by rewrite E in l_open0.
  - by split.
Qed.
Lemma keepsA_flush : keepsA (quic_flush_egress fail_cb closed_cb).
Proof.
  unfold quic_flush_egress. apply keepsA_bind; [apply neutral_keepsA; neutral|intros conn]. apply keepsA_bind; [apply neutral_keepsA; neutral|intros st].
  destruct (_ || _); [apply neutral_keepsA; neutral|]. apply keepsA_bind; [apply neutral_keepsA; neutral|intros ts].
  apply keepsA_bind. { apply neutral_keepsA, neutral_updk; [by intros []|]. intros k. destruct k; cbn. by rewrite length_fmap. }
  intros _. apply keepsA_bind; [apply keepsA_loop|]. intros []; [apply keepsA_arm_timer|apply neutral_keepsA; neutral].
Qed.

(** *** Streams *)
(** Keeps a connection that has its ngtcp2 connection. *)
Definition keepsC {X} (m : QM X) : Prop :=
  forall s, A s -> co_conn (core s) = true -> wp m (fun _ s' => A s' /\ same_rest (core s) (core s')) s.
Lemma keepsA_stream_send sid data fin : keepsA (quic_stream_send fail_cb closed_cb sid data fin).
Proof.
  unfold quic_stream_send. apply keepsA_bind; [apply neutral_keepsA; neutral|]. intros [i|]; [|apply neutral_keepsA; neutral].
  apply keepsA_bind; [apply neutral_keepsA; neutral|intros _]. apply keepsA_bind; [|intros _; apply keepsA_flush].
  apply neutral_keepsA, neutral_upd_buf.
Qed.
Lemma keepsC_open open : keepsC (quic_open_stream open : QM (option Z)).
Proof.
  intros s HA Hc. unfold quic_open_stream, on_conn. apply wp_bind, wp_bind, wp_getk; [by apply A_live|]. change (k_conn (qs_k s)) with (co_conn (core s)).
  rewrite Hc. unfold qenv at 1, wp at 1. destruct (open (qs_w s)) as [rv w]. set (s1 := mkQSt _ _ _ _ _ _ _).
  assert (HA1 : A s1) by by apply (A_core s). assert (R1 : core s1 = core s) by done. clearbody s1. rewrite <-R1.
  destruct rv as [rc|id]; [by split|]. apply wp_bind, wp_neutral; [apply neutral_find_or_add|by apply A_good|].
  intros x s2 E2. split; [by apply (A_core s1)|]. by rewrite E2.
Qed.
Abbreviation Q := (option ST).
#[local] Instance quic_streams : QuicStreams Q := quic_streams ofc.
Lemma keepsC_session sess p : keepsC (quicreq_submit ofc sess p).
Proof.
  intros s HA Hc. unfold wp, quicreq_submit. set (c0 := core s).
  pose (I := fun q : Q => match q with Some s' => A s' /\ co_conn (core s') = true /\ same_rest c0 (core s') | None => False end).
  assert (Ho : forall open q, I q -> I (snd (lift_open (quic_open_stream open) q))).
  { intros open [s1|]; [|done]. intros (HA1 & Hc1 & R1). cbn. pose proof (keepsC_open open s1 HA1 Hc1) as Hw. unfold wp in Hw.
    destruct (quic_open_stream open s1) as [[x s2]|]; [|done]. destruct Hw as [HA2 R2]. split; [done|].
    split; [rewrite (proj1 R2); exact Hc1|by eapply same_rest_trans]. }
  assert (Hsend : forall q sid data fin, I q -> I (H3Session.quic_stream_send q sid data fin)).
  { intros [s1|] sid data fin; [|done]. intros (HA1 & Hc1 & R1). cbn. pose proof (keepsA_stream_send sid data fin s1 HA1) as Hw. unfold wp in Hw.
    destruct (quic_stream_send _ _ sid data fin s1) as [[x s2]|]; [|done]. destruct Hw as [HA2 R2]. split; [done|].
    split; [rewrite (proj1 R2); exact Hc1|by eapply same_rest_trans]. }
  assert (Hbi : forall q, I q -> I (snd (H3Session.quic_open_bidi_stream q))) by (intros q Hq; by apply Ho).
  assert (Huni : forall q, I q -> I (snd (H3Session.quic_open_uni_stream q))) by (intros q Hq; by apply Ho).
  assert (H0' : I (Some s)) by (split; [done|]; by split).
  assert (Hend : I (snd (h3_session_request sess (Some s) (method_str (rp_method p)) (lit "https") (authority (rp_parsed p)) (path (rp_parsed p))
            (ga_list (rp_headers p)) (rp_body p)))).
  { by apply h3_session_request_inv. }
  destruct (h3_session_request _ _ _ _ _ _ _ _) as [[ok sess'] [s'|]]; [|done]. by destruct Hend as (H1' & _ & H2').
Qed.

(** *** Delivering *)
Context (decode_content : bytes -> bytes -> option bytes).
Definition chunked (b : bytes) (o : View) : View :=
  mkView (w_params o) (w_responded o) (w_closing o) (w_submitted o) (w_retrying o) (w_retried o) (w_timer o) (w_ctx o) (w_log o ++ [LogChunk b]).
Lemma Owned_chunked c b : Owned c -> Owned (set_co_own (chunked b (co_own c)) c).
Proof.
  intros [O1 O2 O3 O4 O5 O6 O7 O8 O9]. split; cbn; rewrite ?count_snoc, ?connects_snoc, ?app_nil_r; cbn; rewrite ?Nat.add_0_r; auto.
Qed.
Lemma keepsA_on_response r : keepsA (quicreq_on_response decode_content ofc r).
Proof.
  intros s HA. unfold quicreq_on_response. apply wp_bind, wp_geto; [by apply A_live|].
  destruct (r_responded (qs_own s)) eqn:Er; [done|]. cbv zeta. set (resp := response_decode_encoding _ _). clearbody resp.
  destruct HA as (HL & HO & Ha). pose proof (l_live _ HL) as Hf. pose proof (l_ctx _ HL) as [_ Hx].
  apply wp_bind, wp_updo; [done|]. apply wp_bind, wp_geto; [done|].
  assert (Hlog : forall d bs s', core s' = set_co_own (answered d (foldr chunked (co_own (core s)) bs)) (core s) ->
    wp (quicreq_finish ofc) (fun _ s' => A s' /\ same_rest (core s) (core s')) s').
  { intros d bs s' E. assert (Hc : forall bs, exists o, foldr chunked (co_own (core s)) bs = o /\ Owned (set_co_own o (core s)) /\
        is_Some (w_ctx o) /\ w_responded o = false /\ w_submitted o = w_submitted (co_own (core s))).
    { clear -HO Hx Er. intros bs. induction bs as [|b bs (o & Eo & IH & Ix & Io & Is)]; cbn [foldr].
      - exists (co_own (core s)). split; [done|]. split; [exact HO|]. by repeat split.
      - rewrite Eo. exists (chunked b o). split; [done|]. split; [by apply (Owned_chunked (set_co_own o (core s)))|]. by cbn. }
    destruct (Hc bs) as (o & Eo & Ho & Ix & Io & Is). rewrite Eo in E.
    assert (HA' : A s').
    { unfold A. rewrite E. split; [by apply Life_own|]. split; [|done]. by apply (Owned_answered (set_co_own o (core s))). }
    eapply wp_mono; [apply A_finish; [done|by rewrite E]|]. cbv beta. intros _ s2 [HA2 R2]. split; [done|].
    eapply same_rest_trans; [|exact R2]. rewrite E. by split. }
  apply wp_bind. destruct (_ && (0 <? length _)%nat); cbn [pwhen].
  - apply wp_updo; [done|]. apply wp_bind, wp_updo; [done|]. by eapply (Hlog _ [_]).
  - apply wp_ret, wp_bind, wp_updo; [done|]. by eapply (Hlog _ []).
Qed.
Lemma keepsA_deliver_all rs : keepsA (deliver_all decode_content ofc rs).
Proof.
  induction rs as [|r rs IH]; [apply neutral_keepsA; neutral|]. apply keepsA_bind; [apply keepsA_on_response|by intros _].
Qed.
Lemma keepsA_on_session f : keepsA (on_session decode_content ofc f).
Proof.
  unfold on_session. apply keepsA_bind; [apply neutral_keepsA; neutral|]. intros [s3|]; [|apply neutral_keepsA; neutral]. cbv zeta.
  apply keepsA_bind; [apply neutral_keepsA; neutral|intros _; apply keepsA_deliver_all].
Qed.
Lemma keepsA_error_finish err : keepsA (quicreq_deliver_error err;; quicreq_finish ofc;; mret false : QM bool).
Proof.
  intros s HA. apply wp_bind. eapply wp_mono; [by apply A_deliver_error|]. cbv beta. intros _ s1 (HA1 & R1 & Hr).
  apply wp_bind. eapply wp_mono; [by apply A_finish|]. cbv beta. intros _ s2 [HA2 R2]. split; [done|by eapply same_rest_trans].
Qed.
Definition keeps_some {X} (m : QM X) s : Prop := wp m (fun _ s' => A s' /\ co_conn (core s') = co_conn (core s)) s.
Definition submitted_view (o : View) : View :=
  mkView (w_params o) (w_responded o) (w_closing o) true (w_retrying o) (w_retried o) (w_timer o) (w_ctx o) (w_log o ++ [LogSubmit]).
Lemma Owned_submitted c : Owned c -> co_conn c = true -> w_submitted (co_own c) = false -> Owned (set_co_own (submitted_view (co_own c)) c).
Proof.
  intros [O1 O2 O3 O4 O5 O6 O7 O8 O9] Hc Hs. rewrite Hs in O8. cbn in O8.
  split; cbn; rewrite ?count_snoc, ?connects_snoc, ?app_nil_r; cbn; rewrite ?Nat.add_0_r; auto; [lia|by rewrite Hc].
Qed.
Lemma send_request_spec s : A s -> co_conn (core s) = true -> w_submitted (co_own (core s)) = false ->
  keeps_some (quicreq_send_request ofc) s.
Proof.
  intros HA Hc Hs. unfold keeps_some, quicreq_send_request. apply wp_bind, wp_getk; [by apply A_live|].
  destruct (h3_session_alloc _) as [sess|].
  2: { eapply wp_mono; [by apply keepsA_error_finish|]. by intros x s' [? [? _]]. }
  apply wp_bind, wp_neutral; [neutral|by apply A_good|]. intros _ s1 E1.
  assert (HA1 : A s1) by by apply (A_core s). apply wp_bind, wp_geto; [by apply A_live|].
  apply wp_bind. eapply wp_mono; [apply keepsC_session; [done|by rewrite E1]|]. cbv beta. intros [ok sess'] s2 [HA2 [R2 R2']].
  rewrite E1 in R2, R2'. apply wp_bind, wp_neutral; [neutral|by apply A_good|]. intros _ s3 E3.
  assert (HA3 : A s3) by by apply (A_core s2). destruct (negb ok).
  - eapply wp_mono; [by apply keepsA_error_finish|]. cbv beta. intros x s4 [HA4 [R4 _]]. split; [done|]. by rewrite R4, E3, R2.
  - apply wp_bind, wp_updo_core; [by apply A_live|]. intros s4 E4.
    change (core s4 = set_co_own (submitted_view (co_own (core s3))) (core s3)) in E4. apply wp_ret.
    destruct HA3 as (HL & HO & Ha). split; [|transitivity (co_conn (core s3)); [by rewrite E4|congruence]].
    unfold A. rewrite E4. split; [by apply Life_own, (l_ctx _ HL)|]. split; [|done]. apply Owned_submitted; [done|congruence|].
    rewrite E3, R2'. exact Hs.
Qed.

(** *** The end of the handshake *)
Context (copy_without_early_data : SSL_SESSION -> option SSL_SESSION).
Definition retry_view (o : View) : View :=
  mkView (w_params o) (w_responded o) (w_closing o) (w_submitted o) true true (w_timer o) (w_ctx o) (w_log o).
(** The connection is given up for one without 0-RTT. *)
Lemma retry_spec s s1 : A s -> co_state (core s) <> QuicState_Closing -> co_conn (core s) = true ->
  co_rejected (core s) = true -> w_retried (co_own (core s)) = false -> core s1 = set_co_own (retry_view (co_own (core s))) (core s) ->
  wp (quic_conn_close ofc) (fun _ s' => A s' /\ co_conn (core s') = true) s1.
Proof.
  intros (HL & HO & Ha) Hst Hc Hrj Hre E1. assert (HL1 : Life (core s1)) by (rewrite E1; by apply Life_own, (l_ctx _ HL)).
  apply wp_close_anchored; [done|by rewrite E1|]. intros s' HL' Ha' Est Eo Ec Ew Erj Ers.
  rewrite E1 in Eo, Ec, Ew, Erj, Ers. split; [|by rewrite Ec]. split; [done|]. split; [|done].
  assert (Hnr : h_resolving (co_h (core s)) = None).
  { destruct (h_resolving (co_h (core s))) as [r|] eqn:Er; [|done]. destruct (l_res _ HL Hst r Er) as [(E & _) _]. by rewrite Hc in E. }
  destruct HO as [O1 O2 O3 O4 O5 O6 O7 O8 O9]. destruct O6 as (b & O61 & O62 & O63). rewrite Hre in O61. cbn in O61.
  split; rewrite ?Eo, ?Ec, ?Ew, ?Erj, ?Est, ?Ers; cbn; auto.
  - split; auto.
  - exists b. split; [done|]. split; [|done]. intros _. assert (E : last [b] = Some true) by (rewrite <-O61; exact (O7 (or_intror Hrj))). by injection E.
  - by rewrite Hre in O8.
Qed.
Lemma on_ready_ok_spec s : A s -> co_state (core s) <> QuicState_Closing -> co_conn (core s) = true ->
  wp (quicreq_on_ready_ok copy_without_early_data ofc) (fun _ s' => A s' /\ co_conn (core s') = true) s.
Proof.
  intros HA Hst Hc. unfold quicreq_on_ready_ok. apply wp_bind, wp_getk; [by apply A_live|]. apply wp_bind, wp_geto; [by apply A_live|].
  destruct (k_early_rejected (qs_k s) && negb (r_retried_no_early (qs_own s))) eqn:E.
  - apply andb_true_iff in E as [E1 E2%negb_true_iff]. apply wp_bind, wp_updo_core; [by apply A_live|]. intros s1 Es1.
    assert (G1 : good s1) by (pose proof (A_good _ HA) as [G1 G2]; split; by rewrite Es1).
    apply wp_bind, wp_neutral; [neutral|done|]. intros _ s2 Es2. rewrite Es1 in Es2. by apply (retry_spec s).
  - apply wp_bind, wp_neutral; [neutral|by apply A_good|]. intros _ s1 E1. assert (HA1 : A s1) by by apply (A_core s).
    apply wp_bind, wp_geto; [by apply A_live|]. destruct (r_submitted (qs_own s1)) eqn:Es; [apply wp_ret; split; [done|by rewrite E1]|].
    apply wp_bind. eapply wp_mono; [apply send_request_spec; [done|by rewrite E1|done]|]. cbv beta. intros x s2 [HA2 E2]. apply wp_ret.
    split; [done|]. by rewrite E2, E1.
Qed.
Definition set_co_rejected c : Core :=
  mkCore (c_freed c) (co_state c) (co_udp c) (co_timer c) (co_ctrl c) (co_conn c) (co_want c) true (co_ctx c) (co_n c) (co_h c) (co_own c)
    (co_small c) (co_nego c).
Lemma A_rejected s s' : A s -> co_want (core s) = true -> core s' = set_co_rejected (core s) -> A s'.
Proof.
  intros ([] & [O1 O2 O3 O4 O5 O6 O7 O8 O9] & Ha) Hw E. unfold A. rewrite E. split; [by split|]. split; [|done]. split; auto.
Qed.
Abbreviation ready_cb := (quicreq_on_ready_ok copy_without_early_data ofc).
Lemma handshake_completed_spec s : A s -> co_state (core s) <> QuicState_Closing -> co_conn (core s) = true ->
  wp (quic_handshake_completed_cb ready_cb) (fun _ s' => A s' /\ co_conn (core s') = true) s.
Proof.
  intros HA Hst Hc. unfold quic_handshake_completed_cb. apply wp_bind, wp_set_state; [by apply A_live|]. intros s1 E1.
  assert (HA1 : A s1). { destruct HA as (HL & HO & Ha). unfold A. rewrite E1. split; [by apply Life_state|]. by split; [apply Owned_state|]. }
  apply wp_bind, wp_getk; [by apply A_live|]. apply wp_bind, wp_neutral; [neutral|by apply A_good|]. intros _ s2 E2.
  assert (HA2 : A s2) by by apply (A_core s1). apply wp_bind, wp_getk; [by apply A_live|]. apply wp_bind, wp_getk; [by apply A_live|].
  assert (Hend : forall s3, A s3 -> co_state (core s3) = QuicState_Established -> co_conn (core s3) = true ->
    wp (quic_deliver_ready_ok ready_cb) (fun _ s' => A s' /\ co_conn (core s') = true) s3).
  { intros s3 HA3 Est Ec. unfold quic_deliver_ready_ok. apply wp_bind, wp_getk; [by apply A_live|]. destruct (k_ready_fired _); [done|].
    apply wp_bind, wp_neutral; [neutral|by apply A_good|]. intros _ s4 E4. apply on_ready_ok_spec; [by apply (A_core s3)|by rewrite E4, Est|by rewrite E4]. }
  apply wp_bind. destruct (k_want_early_data (qs_k s2) && _) eqn:Ew; cbn [pwhen].
  - apply andb_true_iff in Ew as [Ew _]. apply wp_updk; [by apply A_live|].
    apply Hend; [by eapply (A_rejected s2)|cbn; change (co_state (core s2) = QuicState_Established)|change (co_conn (core s2) = true)]; by rewrite E2, E1.
  - apply wp_ret, Hend; [done|by rewrite E2, E1..].
Qed.
Abbreviation data_cb := (on_stream_data decode_content ofc).
Abbreviation sclose_cb := (on_stream_close decode_content ofc).
Lemma run_callback_spec cb s : A s -> co_state (core s) <> QuicState_Closing \/ (match cb with CbHandshakeCompleted _ => False | _ => True end) ->
  co_conn (core s) = true -> wp (run_callback ready_cb data_cb sclose_cb cb) (fun _ s' => A s' /\ co_conn (core s') = true) s.
Proof.
  intros HA Hst Hc.
  assert (Hk : forall m : QM unit, keepsA m -> wp m (fun _ s' => A s' /\ co_conn (core s') = true) s).
  { intros m Hm. eapply wp_mono; [by apply Hm|]. cbv beta. intros _ s' [HA' [R _]]. split; [done|congruence]. }
  destruct cb as [ssl|sid data fin|sid]; cbn [run_callback].
  - destruct Hst as [Hst|[]]. apply wp_bind, wp_neutral; [neutral|by apply A_good|]. intros _ s1 E1.
    apply handshake_completed_spec; [by apply (A_core s)|by rewrite E1..].
  - apply Hk, keepsA_bind; [apply keepsA_on_session|intros _; apply neutral_keepsA; neutral].
  - apply Hk, keepsA_bind; [apply keepsA_on_session|intros _; apply neutral_keepsA; neutral].
Qed.
Lemma run_callbacks_spec cbs s : A s -> co_state (core s) <> QuicState_Closing -> co_conn (core s) = true ->
  Forall (fun cb => match cb with CbHandshakeCompleted _ => False | _ => True end) (tl cbs) ->
  wp (run_callbacks ready_cb data_cb sclose_cb cbs) (fun _ s' => A s') s.
Proof.
  intros HA Hst Hc Hcb. destruct cbs as [|cb cbs]; [done|]. cbn [run_callbacks tl] in *.
  apply wp_bind. eapply wp_mono; [apply run_callback_spec; auto|]. cbv beta. intros _ s1 [HA1 Hc1]. clear HA Hst Hc s. revert s1 HA1 Hc1.
  induction Hcb as [|cb' cbs Hcb Hcbs IH]; intros s HA Hc; [done|]. cbn [run_callbacks].
  apply wp_bind. eapply wp_mono; [apply run_callback_spec; auto|]. cbv beta. intros _ s1 [HA1 Hc1]. by apply IH.
Qed.
Lemma recv_spec res addr s : A s -> h_receiving (qs_h s) = true ->
  wp (quic_recv_cb fail_cb closed_cb ready_cb data_cb sclose_cb res addr) (fun _ s' => A s') s.
Proof.
  intros HA Hr. destruct (l_recv _ (proj1 HA) Hr) as [Hu Hc].
  assert (Hst : co_state (core s) <> QuicState_Closing).
  { intros E. destruct (l_closing _ (proj1 HA) E) as [Hcl _]. by destruct (Hcl HUdp). }
  assert (Hk : forall (m : QM unit) s, keepsA m -> A s -> wp m (fun _ s' => A s') s).
  { intros m s0 Hm HA0. eapply wp_mono; [by apply Hm|]. by intros _ s' [? _]. }
  unfold quic_recv_cb. destruct addr as [addr|]; [|done]. destruct res as [rc|data]; [apply Hk; [apply keepsA_fail|done]|].
  apply wp_bind, wp_getk; [by apply A_live|]. apply wp_bind, wp_getk; [by apply A_live|]. cbv zeta. destruct (_ || _); [done|].
  apply wp_bind, wp_neutral; [neutral|by apply A_good|]. intros _ s1 E1. assert (HA1 : A s1) by by apply (A_core s).
  apply wp_bind, wp_neutral; [neutral|by apply A_good|]. intros now s2 E2. assert (HA2 : A s2) by by apply (A_core s1).
  apply wp_bind. unfold on_conn. apply wp_bind, wp_getk; [by apply A_live|]. change (k_conn (qs_k s2)) with (co_conn (core s2)).
  rewrite E2, E1, Hc. unfold qenv at 1, wp at 1.
  set (d := if k_proxied (qs_k s) then drop _ _ else _). set (src := if k_proxied (qs_k s) then _ else addr).
  pose proof (law_callbacks work Hng (qs_w s2) src d now) as Hcb.
  destruct (ngtcp2_conn_read_pkt (qs_w s2) src d now) as [[cbs rv] w]. cbn [fst] in Hcb. set (s3 := mkQSt _ _ _ _ _ _ _).
  assert (E3 : core s3 = core s) by (by rewrite <-E1, <-E2). assert (HA3 : A s3) by by apply (A_core s). clearbody s3.
  apply wp_bind. eapply wp_mono; [apply run_callbacks_spec; [done|by rewrite E3..|done]|]. cbv beta. intros _ s4 HA4.
  apply wp_bind, wp_neutral; [neutral|by apply A_good|]. intros _ s5 E5.
  destruct (negb (rv =? 0)); apply Hk; [apply keepsA_fail|by apply (A_core s4)|apply keepsA_flush|by apply (A_core s4)].
Qed.

(** *** Opening *)
Definition opened (hk : HandleKind) c : Core :=
  let on hk' := if bool_decide (hk' = hk) then true else co_inited hk' c in
  mkCore (c_freed c) (co_state c) (on HUdp) (on HTimer) (on HCtrl) (co_conn c) (co_want c) (co_rejected c) (co_ctx c) (co_n c)
    (set_handle hk HOpen (co_h c)) (co_own c) (co_small c) (co_nego c).
(** No negotiation with a proxy goes on, no resolver runs. *)
Definition quiet_net c : Prop :=
  co_state c <> QuicState_Closing /\ h_resolving (co_h c) = None /\ h_connecting (co_h c) || h_reading (co_h c) && co_nego c = false.
Lemma wp_open_handle hk (Post : unit -> ST -> Prop) s : qs_freed s = false -> handle_of hk (qs_h s) = HNone ->
  (forall s', core s' = opened hk (core s) -> Post tt s') -> wp (open_handle hk) Post s.
Proof.
  intros Hf Hh HP. unfold open_handle. apply wp_bind, wp_geth; [done|]. rewrite Hh, bool_decide_true by done.
  apply wp_bind, wp_updh; [done|]. apply wp_updk; [done|]. apply HP. unfold core, opened. by destruct hk.
Qed.
Lemma Life_opened hk c : Life c -> quiet_net c -> handle_of hk (co_h c) = HNone -> Life (opened hk c).
Proof.
  intros [L1 L2 L3 L4 L5 L6 L7 L8 L9 L10 L11] (Hst & Hr & Hn) Hh. specialize (L3 Hst). clear L4 L9 L10.
  assert (E : forall hk', handle_of hk' (set_handle hk HOpen (co_h c)) = if bool_decide (hk' = hk) then HOpen else handle_of hk' (co_h c)) by (by destruct hk, hk').
  destruct c as [fr st bu bt bc cn wa rj cx n [ht hu hc hres hcon hread hrecv hexp] ow sm ng]. cbn in *. subst hres.
  split; cbn; try done.
  - intros _ hk'. rewrite E. specialize (L3 hk'). by destruct (bool_decide (hk' = hk)) eqn:Eb; destruct hk', hk.
  - destruct hk; cbn in *; try done; subst; auto.
  - destruct hk; cbn in *; try done; by intros [].
  - by destruct hk.
  - by destruct hk.
  - by destruct hk.
  - intros _ E'. destruct hk; cbn in *; rewrite ?andb_false_l, ?orb_false_r in *; try congruence. by rewrite E' in Hn.
Qed.
Lemma Owned_opened hk c : Owned c -> Owned (opened hk c).
Proof. intros []. split; try done. by destruct hk. Qed.
Record Opening c : Prop := {
  op_life : Life c;
  op_owned : Owned c;
  op_quiet : quiet_net c;
  op_udp : h_udp (co_h c) = HOpen;
  op_timer : h_timer (co_h c) = HNone;
  op_sub : w_submitted (co_own c) = false
}.
Lemma Opening_A s : Opening (core s) -> A s.
Proof. intros []. split; [done|]. split; [done|]. exists HUdp. cbn in *. by rewrite op_udp0. Qed.
Lemma opening_bind {X Y} (m : QM X) (f : X -> QM Y) (Post : Y -> ST -> Prop) s : neutral m -> Opening (core s) ->
  (forall x s', Opening (core s') -> core s' = core s -> wp (f x) Post s') -> wp (x ← m; f x) Post s.
Proof.
  intros Hm HO HP. apply wp_bind, wp_neutral; [done|by apply A_good, Opening_A|]. intros x s' E. apply HP; [by rewrite E|done].
Qed.
Definition set_conn (conn want : bool) c : Core :=
  mkCore (c_freed c) (co_state c) (co_udp c) (co_timer c) (co_ctrl c) conn want (co_rejected c) (co_ctx c) (co_n c) (co_h c) (co_own c)
    (co_small c) (co_nego c).
Lemma Opening_conn conn want c : Opening c -> (co_conn c = true -> conn = true) -> (want = true -> co_want c = true) -> Opening (set_conn conn want c).
Proof.
  intros [[] [O1 O2 O3 O4 O5 O6 O7 O8 O9] (Q1 & Q2 & Q3) ? ? ?] Hc Hw. split; try done; split; auto.
  - intros E. destruct (l_recv0 E). auto.
  - intros _ r. cbn. by rewrite Q2.
  - intros _. cbn. by rewrite Q3.
  - cbn in *. intros [?|?]; auto.
Qed.
Lemma failed_spec reason (b : bool) (Post : bool -> ST -> Prop) s : A s -> (forall s', A s' -> Post b s') ->
  wp (quic_fail fail_cb closed_cb reason;; mret b) Post s.
Proof. intros HA HP. apply wp_bind. eapply wp_mono; [by apply keepsA_fail|]. cbv beta. intros _ s' [HA' _]. by apply HP. Qed.
Lemma init_ngtcp2_spec s : Opening (core s) ->
  wp (quic_init_ngtcp2 fail_cb closed_cb) (fun ok s' => if ok then Opening (core s') /\ co_conn (core s') = true else A s') s.
Proof.
  intros HO. assert (Hfail : forall reason s', Opening (core s') ->
    wp (quic_fail fail_cb closed_cb reason;; mret false) (fun (ok : bool) s' => if ok then Opening (core s') /\ co_conn (core s') = true else A s') s').
  { intros reason s' HO'. apply failed_spec; [by apply Opening_A|done]. }
  unfold quic_init_ngtcp2. apply wp_bind, wp_getk; [by apply A_live, Opening_A|].
  destruct (l_ctx _ (op_life _ HO)) as [[ctx Ectx] _]. cbn in Ectx. rewrite Ectx.
  apply opening_bind; [neutral|done|]. intros rv s1 HO1 _. destruct (negb (rv =? 0)); [by apply Hfail|].
  destruct (SSL_new ctx) as [ssl|].
  2: { apply opening_bind; [neutral|done|]. intros _ s2 HO2 _. by apply Hfail. }
  apply opening_bind; [neutral|done|]. intros _ s2 HO2 _. apply opening_bind; [neutral|done|]. intros tls s3 HO3 _.
  apply opening_bind; [neutral|done|]. intros host s4 HO4 _. apply opening_bind; [neutral|done|]. intros ech s5 HO5 _.
  apply opening_bind; [neutral|done|]. intros session s6 HO6 _. destruct (configure_ssl ssl tls host ech session) as [ssl'|]; [|by apply Hfail].
  apply opening_bind; [neutral|done|]. intros _ s7 HO7 _. apply wp_bind, wp_getk; [by apply A_live, Opening_A|].
  apply wp_bind. set (Post := fun _ : unit => _).
  assert (Hgo : forall s8, Opening (core s8) -> Post tt s8).
  { subst Post. intros s8 HO8. cbv beta. apply opening_bind; [neutral|done|]. intros want s9 HO9 _.
    apply opening_bind; [neutral|done|]. intros _ s10 HO10 _. apply opening_bind; [neutral|done|]. intros rand s11 HO11 _.
    destruct (negb rand); [by apply Hfail|]. apply opening_bind; [neutral|done|]. intros params s12 HO12 _.
    apply opening_bind; [neutral|done|]. intros ssl'' s13 HO13 _. apply opening_bind; [neutral|done|]. intros rv' s14 HO14 _.
    destruct (negb (rv' =? 0)); [by apply Hfail|]. apply wp_bind, wp_updk; [by apply A_live, Opening_A|].
    match goal with |- wp _ _ ?s1 => assert (HO15 : Opening (core s1) /\ co_conn (core s1) = true);
      [split; [exact (Opening_conn true _ _ HO14 (fun _ => eq_refl) id)|done]|generalize dependent s1] end.
    intros s15 [HO15 Hc15]. apply wp_bind, wp_getk; [by apply A_live, Opening_A|].
    apply opening_bind; [neutral|done|]. intros tp s16 HO16 E16. rewrite <-E16 in Hc15.
    assert (Hoff : forall s, Opening (core s) -> co_conn (core s) = true ->
      wp (updk (set_k_want_early_data false)) (fun _ s' => Opening (core s') /\ co_conn (core s') = true) s).
    { intros sx Hx Hcx. apply wp_updk; [by apply A_live, Opening_A|]. split; [|done].
      refine (Opening_conn (co_conn (core sx)) false _ Hx id _). done. }
    apply wp_bind. eapply (wp_mono _ (fun _ s' => Opening (core s') /\ co_conn (core s') = true)); [|by intros _ s' Hs'; apply wp_ret].
    destruct (_ && _); [|by apply Hoff]. apply opening_bind; [neutral|done|]. intros rv'' s17 HO17 E17. rewrite <-E17 in Hc15.
    destruct (negb (rv'' =? 0)); [by apply Hoff|]. by apply wp_ret. }
  destruct (_ && negb _); cbn [pwhen]; [|by apply wp_ret, Hgo]. apply wp_updk; [by apply A_live, Opening_A|]. apply Hgo.
  refine (Opening_conn (co_conn (core s7)) false _ HO7 id _). done.
Qed.
(** A state an unopened connection is in: no UDP socket, and no answer awaited. *)
Definition idle s : Prop := Life (core s) /\ Owned (core s) /\ quiet_net (core s) /\ off_net (core s).
Abbreviation early_cb := (quicreq_on_early_ready ofc).
Definition set_co_h (h : Handles) c : Core :=
  mkCore (c_freed c) (co_state c) (co_udp c) (co_timer c) (co_ctrl c) (co_conn c) (co_want c) (co_rejected c) (co_ctx c) (co_n c) h (co_own c)
    (co_small c) (co_nego c).
Lemma Life_receiving c : Life c -> h_udp (co_h c) = HOpen -> co_conn c = true -> Life (set_co_h (set_h_receiving (co_h c)) c).
Proof.
  intros [L1 L2 L3 L4 L5 L6 L7 L8 L9 L10 L11] Hu Hc. split; cbn; auto.
Qed.
Lemma begin_udp_spec s : idle s -> wp (quic_begin_udp fail_cb closed_cb early_cb) (fun _ s' => A s') s.
Proof.
  intros (HL & HO & Hq & Ho). unfold quic_begin_udp. apply wp_bind, wp_open_handle; [apply (l_live _ HL)|apply Ho|]. intros s1 E1.
  assert (HO1 : Opening (core s1)).
  { rewrite E1. destruct Ho as (Hc & Hu & Ht). split; [by apply Life_opened|by apply Owned_opened|done..|]. by apply (o_nosub _ HO). }
  apply opening_bind; [neutral|done|]. intros bind s2 HO2 _.
  apply opening_bind; [destruct bind; neutral|done|]. intros bound s3 HO3 _.
  assert (Hfail : forall reason s', A s' -> wp (quic_fail fail_cb closed_cb reason) (fun _ s' => A s') s').
  { intros reason s' HA'. eapply wp_mono; [by apply keepsA_fail|]. by intros _ s'' [? _]. }
  destruct (negb bound); [by apply Hfail, Opening_A|]. apply opening_bind; [neutral|done|]. intros remote s4 HO4 _.
  apply opening_bind; [neutral|done|]. intros rc s5 HO5 _. destruct (negb (rc =? 0)); [by apply Hfail, Opening_A|].
  apply wp_bind. eapply wp_mono; [by apply init_ngtcp2_spec|]. cbv beta. intros [] s6; cbn [negb]; [|done]. intros [HO6 Hc6].
  apply wp_bind, wp_open_handle; [by apply A_live, Opening_A|by apply (op_timer _ HO6)|]. intros s7 E7.
  assert (HL7 : Life (core s7)) by (rewrite E7; apply Life_opened; [by apply op_life|by apply op_quiet|by apply op_timer]).
  apply wp_bind, wp_updh; [apply (l_live _ HL7)|].
  match goal with |- wp _ _ ?x => assert (E8 : core x = set_co_h (set_h_receiving (co_h (core s7))) (core s7)) by done; revert E8; generalize x end.
  intros s8 E8.
  assert (HA8 : A s8 /\ co_conn (core s8) = true /\ w_submitted (co_own (core s8)) = false /\ co_state (core s8) <> QuicState_Closing).
  { unfold A. rewrite E8. pose proof (Opening_A _ HO6) as (_ & HO' & _). destruct HO6 as [_ _ Hq6 Hu6 _ Hs6].
    split; [|rewrite E7; split; [exact Hc6|split; [exact Hs6|apply Hq6]]]. split; [apply Life_receiving; [done|by rewrite E7..]|].
    rewrite E7. split; [destruct (Owned_opened HTimer _ HO'); by split|]. exists HUdp. cbn in *. by rewrite Hu6. }
  clear E8. destruct HA8 as (HA8 & Hc8 & Hs8 & Hst8).
  apply wp_bind, wp_getk; [by apply A_live|]. apply wp_bind, wp_getk; [by apply A_live|]. apply wp_bind.
  assert (Hend : forall (m : QM unit) s, A s -> keepsA m -> wp m (fun _ s' => A s') s).
  { intros m s' HA' Hm. eapply wp_mono; [by apply Hm|]. by intros _ s'' [? _]. }
  assert (Hset : forall st s', st <> QuicState_Closing -> core s' = at_state st (core s8) -> A s').
  { intros st s' Hst E'. destruct HA8 as (HL8 & HO8 & Ha8). unfold A. rewrite E'. split; [by apply Life_state|]. by split; [apply Owned_state|]. }
  destruct (k_want_early_data (qs_k s8) && k_on_early_ready (qs_k s8)).
  - apply wp_bind, wp_updk; [by apply A_live|].
    match goal with |- wp _ _ ?x => assert (E9 : core x = at_state QuicState_EarlyData (core s8)) by done; revert E9; generalize x end.
    intros s9 E9. unfold quicreq_on_early_ready. apply wp_bind.
    eapply wp_mono; [apply send_request_spec; [by apply (Hset QuicState_EarlyData)|by rewrite E9|by rewrite E9]|]. cbv beta. intros _ s10 [HA10 _].
    apply wp_ret, Hend; [done|apply keepsA_flush].
  - apply wp_set_state; [by apply A_live|]. intros s9 E9. apply Hend; [by apply (Hset QuicState_Handshaking)|apply keepsA_flush].
Qed.
End sending.
End inv.
