(* ===== verification/QuicProps.v ===== *)
(** * One request over QUIC, its guarantees

    From the request's start, through its callbacks in any order libuv can make
    them, in any environment that keeps ngtcp2's contract ([ng_laws]): a state
    that keeps the invariant of [QuicInv], or the end ([Done]). *)
From stdpp Require Import relations.
From S2P Require Import Prelude String8 U8Buf GrowArr Header Url Redirect OriginCache DnsCache Proxy ReqHeaders H3Control H3Session TcpRequest.
From S2P Require Export QuicInv.

#[local] Arguments count : simpl never.
#[local] Arguments connects : simpl never.

Section props.
Context `{BoringSSL} `{Qpack} {W : Type} `{Uv W} `{!QuicApi W}.
Abbreviation ST := (QSt W QuicRequest).
Abbreviation QM := (PS ST).
Implicit Types (s : ST) (c : Core).

(** No handle, and nothing that libuv would call. *)
Record Shut c : Prop := {
  sh_handles : forall hk, handle_of hk (co_h c) = HNone;
  sh_recv : h_receiving (co_h c) = false;
  sh_timer : h_expiry (co_h c) = None;
  sh_read : h_reading (co_h c) = false;
  sh_connecting : h_connecting (co_h c) = false
}.
Lemma Life_shut c : Life c -> (forall hk, handle_of hk (co_h c) = HNone) -> Shut c.
Proof.
  intros HL Hn. split; [done|..].
  - destruct (h_receiving (co_h c)) eqn:E; [|done]. destruct (l_recv _ HL E) as [E' _]. by rewrite (Hn HUdp : h_udp _ = _) in E'.
  - destruct (h_expiry (co_h c)) eqn:E; [|done]. pose proof (l_timer _ HL ltac:(by rewrite E)) as E'. by rewrite (Hn HTimer : h_timer _ = _) in E'.
  - destruct (h_reading (co_h c)) eqn:E; [|done]. destruct (l_read _ HL E) as [E' _]. by rewrite (Hn HCtrl : h_ctrl _ = _) in E'.
  - destruct (h_connecting (co_h c)) eqn:E; [|done]. by pose proof (l_connecting _ HL E (Hn HCtrl)).
Qed.
(** The caller has the one answer, and the memory was given back once. *)
Definition attempts (o : View) : Prop :=
  exists b, (connects (w_log o) = [] \/ connects (w_log o) = [b] \/ connects (w_log o) = [b; false]) /\
    (b = true -> idempotent (rp_method (w_params o)) = true /\ rp_body (w_params o) = []) /\
    (count is_submit (w_log o) <= length (connects (w_log o)))%nat.
Record Done s : Prop := {
  d_freed : qs_freed s = true;
  d_shut : Shut (core s);
  d_timer : w_timer (co_own (core s)) = false;
  d_deliver : count is_deliver (w_log (co_own (core s))) = 1%nat;
  d_free : count is_free (w_log (co_own (core s))) = 1%nat;
  d_attempts : attempts (co_own (core s))
}.
Definition Inv s : Prop := LO s \/ Done s.
Lemma Owned_attempts c : Owned c -> attempts (co_own c).
Proof.
  intros HO. destruct (o_connects _ HO) as (b & E & _ & Hb). exists b. pose proof (o_submit _ HO) as Hs.
  assert (b2n (w_submitted (co_own c)) <= 1)%nat by (by destruct (w_submitted (co_own c)); cbn; lia).
  destruct (w_retried (co_own c) && negb (w_retrying (co_own c))); rewrite E; cbn in *; (split; [auto|split; [done|lia]]).
Qed.
Lemma LO_live s : LO s -> qs_freed s = false.
Proof. intros [HL _]. apply (l_live _ HL). Qed.
Lemma LO_good s : LO s -> good s.
Proof. intros (HL & _). split; [apply (l_live _ HL)|apply (l_small _ HL)]. Qed.
Lemma LO_core s s' : core s' = core s -> LO s -> LO s'.
Proof. unfold LO. by intros ->. Qed.
Lemma A_inv s : A s -> Inv s.
Proof. intros (HL & HO & _). by left. Qed.
Lemma anchored_dec c : anchored c \/ forall hk, handle_of hk (co_h c) = HNone.
Proof.
  destruct (decide (h_timer (co_h c) = HNone)); [|left; by exists HTimer]. destruct (decide (h_udp (co_h c) = HNone)); [|left; by exists HUdp].
  destruct (decide (h_ctrl (co_h c) = HNone)); [|left; by exists HCtrl]. right. by intros [].
Qed.
Lemma closing_anchored c : Life c -> co_state c = QuicState_Closing -> anchored c.
Proof.
  intros HL Hst. destruct (l_closing _ HL Hst) as (_ & Hn & H0'). destruct (anchored_dec c) as [|Hh]; [done|].
  rewrite Hn in H0'. unfold closing_count in H0'. by rewrite (Hh HTimer : h_timer _ = _), (Hh HUdp : h_udp _ = _), (Hh HCtrl : h_ctrl _ = _) in H0'.
Qed.

Section closed.
Context (work : W -> Z) (Hng : ng_laws work) (ofc : QM unit).
(** What the callback does for a request that was answered. *)
Definition shut_answered s : Prop :=
  good s /\ Shut (core s) /\ Owned (core s) /\ co_state (core s) = QuicState_Closing /\ w_retrying (co_own (core s)) = false /\ is_Some (w_ctx (co_own (core s))).
Context (Hofc : forall s, shut_answered s -> wp ofc (fun _ s' => Done s') s).
Abbreviation fail_cb := (quicreq_on_ready_fail ofc).
Abbreviation closed_cb := (quicreq_on_closed ofc).
Abbreviation early_cb := (quicreq_on_early_ready ofc).
Lemma keepsA_inv {X} (m : QM X) s : keepsA m -> A s -> wp m (fun _ s' => Inv s') s.
Proof. intros Hm HA. eapply wp_mono; [by apply Hm|]. intros _ s' [HA' _]. by apply A_inv. Qed.
Lemma finish_inv s : LO s -> w_responded (co_own (core s)) = true -> wp (quicreq_finish ofc) (fun _ s' => Inv s') s.
Proof.
  intros [HL HO] Hr. destruct (anchored_dec (core s)) as [Ha|Hn].
  - eapply wp_mono; [by apply A_finish|]. intros _ s' [HA' _]. by apply A_inv.
  - assert (Hst : co_state (core s) <> QuicState_Closing) by (intros E; destruct (closing_anchored _ HL E) as [hk Hk]; by rewrite Hn in Hk).
    unfold quicreq_finish. apply wp_bind, wp_geto; [apply (l_live _ HL)|].
    destruct (r_closing (qs_own s)) eqn:Er; [by left|]. apply wp_bind, wp_updo_core; [apply (l_live _ HL)|]. intros s1 E1.
    assert (HL1 : Life (core s1)) by (rewrite E1; by apply Life_own, (l_ctx _ HL)).
    apply wp_close_now; [done|by rewrite E1|by rewrite E1|]. intros s2 E2. apply (wp_mono _ (fun _ s' => Done s')); [apply Hofc|by intros _ s' HD; right].
    assert (Hnr : w_retrying (co_own (core s)) = false).
    { destruct (w_retrying (co_own (core s))) eqn:E; [|done]. by destruct Hst; apply (o_closing _ HO); right. }
    pose proof (LO_good _ (conj HL HO)) as [G1 G2]. pose proof (Life_shut _ HL Hn) as [S1 S2 S3 S4 S5].
    unfold shut_answered, good. rewrite E2, E1. split; [done|]. split; [by split|]. split; [|split; [done|split; [done|apply (l_ctx _ HL)]]].
    destruct HO as [O1 O2 O3 O4 O5 O6 O7 O8 O9]. split; cbn; auto. split; auto.
Qed.
Lemma ready_fail_inv err s : LO s -> wp (fail_cb err) (fun _ s' => Inv s') s.
Proof.
  intros HI. unfold quicreq_on_ready_fail. apply wp_bind. eapply wp_mono; [by apply LO_deliver_error|]. cbv beta.
  intros _ s1 (HI1 & _ & Hr & _). by apply finish_inv.
Qed.
Lemma fail_inv reason s : LO s -> wp (quic_fail fail_cb closed_cb reason) (fun _ s' => Inv s') s.
Proof.
  intros HI. unfold quic_fail. apply wp_bind, wp_getk; [by apply LO_live|].
  destruct (_ || _) eqn:E; [by apply wp_ret; left|]. apply orb_false_iff in E as [E1 E2]. apply bool_decide_eq_false in E1, E2.
  apply wp_bind, wp_set_state; [by apply LO_live|]. intros s1 Es.
  assert (HI1 : LO s1). { destruct HI as (HL & HO). unfold LO. rewrite Es. split; [by apply Life_state|by apply Owned_state]. }
  apply wp_bind, wp_getk; [by apply LO_live|]. destruct (negb _).
  - apply wp_bind, wp_neutral; [neutral|by apply LO_good|]. intros _ s2 Es2. by apply ready_fail_inv, (LO_core s1).
  - unfold quicreq_on_closed. apply wp_bind, wp_geto; [by apply LO_live|]. apply wp_bind, wp_geto; [by apply LO_live|].
    destruct (_ || _); [by left|]. by apply ready_fail_inv.
Qed.
Lemma begin_udp_inv s : idle s -> wp (quic_begin_udp fail_cb closed_cb early_cb) (fun _ s' => Inv s') s.
Proof. intros Hi. eapply wp_mono; [by eapply begin_udp_spec|]. cbv beta. intros _ s'. apply A_inv. Qed.
Lemma idle_LO s : idle s -> LO s.
Proof. by intros (HL & HO & _). Qed.
Lemma idle_core s s' : core s' = core s -> idle s -> idle s'.
Proof. unfold idle. by intros ->. Qed.
Lemma idle_bind {X Y} (m : QM X) (f : X -> QM Y) (Post : Y -> ST -> Prop) s : neutral m -> idle s ->
  (forall x s', idle s' -> core s' = core s -> wp (f x) Post s') -> wp (x ← m; f x) Post s.
Proof.
  intros Hm Hi HP. apply wp_bind, wp_neutral; [done|by apply LO_good, idle_LO|]. intros x s' E. apply HP; [by apply (idle_core s)|done].
Qed.
Lemma idle_not_retrying s : idle s -> w_retrying (co_own (core s)) = false.
Proof.
  intros (_ & HO & (Hst & _) & _). destruct (w_retrying _) eqn:E; [|done]. by destruct Hst; apply (o_closing _ HO); right.
Qed.
(** A resolver request is made by a connection that may have opened the control
    channel, for the target. *)
Definition may_resolve (r : Resolver) c : Prop := match r with RTarget => co_nego c = false | _ => h_ctrl (co_h c) = HNone end.
Lemma resolve_inv r host port family s : idle s -> may_resolve r (core s) ->
  wp (resolve fail_cb closed_cb r host port family) (fun _ s' => Inv s') s.
Proof.
  intros Hi Hr. unfold resolve. apply idle_bind; [neutral|done|]. intros rc s1 Hi1 E1. rewrite <-E1 in Hr.
  destruct (rc =? 0); [|by apply fail_inv, idle_LO]. apply wp_updh; [by apply LO_live, idle_LO|]. left.
  pose proof (idle_not_retrying _ Hi1) as Hnr. destruct Hi1 as ([] & [] & (Hst & Hnone & Hq) & Ho).
  split; split; cbn in *; auto; try done.
  - intros _ r' [= <-]. split; [done|]. apply orb_false_iff in Hq as [Hq _]. by split.
  - intros _ E. by rewrite E in Hq.
  - intros E. by rewrite E in Hnr.
Qed.
(** The state after a step that only the connection's own state tells. *)
Lemma idle_state st s s' : idle s -> st <> QuicState_Closing -> core s' = at_state st (core s) -> idle s'.
Proof.
  intros (HL & HO & (Hst & Hq) & Ho) Hne E. unfold idle. rewrite E. split; [by apply Life_state|]. split; [by apply Owned_state|]. done.
Qed.
Lemma conn_connect_inv host port s : idle s -> h_ctrl (co_h (core s)) = HNone ->
  wp (quic_conn_connect fail_cb closed_cb early_cb host port) (fun _ s' => Inv s') s.
Proof.
  intros Hi Hn. unfold quic_conn_connect. apply idle_bind; [neutral|done|]. intros _ s1 Hi1 E1. rewrite <-E1 in Hn.
  apply idle_bind; [neutral|done|]. intros now s2 Hi2 E2. rewrite <-E2 in Hn. apply idle_bind; [neutral|done|]. intros _ s3 Hi3 E3. rewrite <-E3 in Hn.
  apply idle_bind; [neutral|done|]. intros px s4 Hi4 E4. rewrite <-E4 in Hn. destruct px.
  - unfold quic_proxy_connect_ctrl. apply wp_bind, wp_set_state; [by apply LO_live, idle_LO|]. intros s5 E5.
    assert (Hi5 : idle s5) by by apply (idle_state QuicState_Resolving) in E5. apply idle_bind; [neutral|done|]. intros p s6 Hi6 E6. apply resolve_inv; [done|].
    cbn [may_resolve]. by rewrite E6, E5.
  - apply idle_bind; [neutral|done|]. intros cached s5 Hi5 E5. rewrite <-E5 in Hn. apply idle_bind; [neutral|done|]. intros bind s6 Hi6 E6.
    rewrite <-E6 in Hn. destruct (match cached with Some a => _ | None => None end) as [a|].
    + apply idle_bind; [neutral|done|]. intros _ s7 Hi7 _. apply idle_bind; [neutral|done|]. intros _ s8 Hi8 _.
      apply idle_bind; [neutral|done|]. intros _ s9 Hi9 _. by apply begin_udp_inv.
    + apply wp_bind, wp_set_state; [by apply LO_live, idle_LO|]. intros s7 E7. assert (Hi7 : idle s7) by by apply (idle_state QuicState_Resolving) in E7.
      apply idle_bind; [neutral|done|]. intros h s8 Hi8 E8. apply resolve_inv; [done|]. cbn [may_resolve]. by rewrite E8, E7.
Qed.

(** *** The resolver answers *)
Lemma resolved_idle r s : LO s -> co_state (core s) <> QuicState_Closing -> h_resolving (qs_h s) = Some r ->
  idle (mkQSt (qs_k s) (set_h_resolving None (qs_h s)) (qs_w s) (qs_dns s) (qs_own s) (qs_freed s) (qs_net s)) /\
  may_resolve r (core s).
Proof.
  intros [[] []] Hst Hr. destruct (l_res Hst r Hr) as (Ho & Hcn & Hm).
  assert (Hq : h_reading (co_h (core s)) && co_nego (core s) = false).
  { destruct (h_reading (co_h (core s))) eqn:E; [|done]. destruct (l_read eq_refl) as [E' _]. destruct r; [by rewrite Hm in E'..|done]. }
  split; [|by destruct r]. split; [|split; [|split; [|done]]].
  - split; cbn in *; auto; try done.
  - split; cbn in *; auto. intros E. split; [by apply o_retry|done].
  - split; [done|]. split; [done|]. cbn in *. by rewrite Hcn.
Qed.
Lemma on_resolved_inv res s : idle s -> wp (quic_on_resolved fail_cb closed_cb early_cb res) (fun _ s' => Inv s') s.
Proof.
  intros Hi. destruct res as [rc|addr]; cbn [quic_on_resolved]; [by apply fail_inv, idle_LO|].
  apply idle_bind; [neutral|done|]. intros _ s1 Hi1 _. apply idle_bind; [neutral|done|]. intros _ s2 Hi2 _.
  apply idle_bind; [neutral|done|]. intros _ s3 Hi3 _. by apply begin_udp_inv.
Qed.
Lemma proxy_finish_inv s : idle s -> wp (quic_proxy_finish fail_cb closed_cb early_cb) (fun _ s' => Inv s') s.
Proof. intros Hi. unfold quic_proxy_finish. apply idle_bind; [neutral|done|]. intros _ s1 Hi1 _. by apply begin_udp_inv. Qed.
Lemma on_target_resolved_inv res s : idle s -> wp (quic_on_target_resolved fail_cb closed_cb early_cb res) (fun _ s' => Inv s') s.
Proof.
  intros Hi. destruct res as [rc|addr]; cbn [quic_on_target_resolved]; [by apply fail_inv, idle_LO|].
  apply idle_bind; [neutral|done|]; intros _ s1 Hi1 _. apply idle_bind; [neutral|done|]; intros ok s2 Hi2 _.
  apply idle_bind; [neutral|done|]; intros _ s3 Hi3 _. destruct (negb ok); [by apply fail_inv, idle_LO|by apply proxy_finish_inv].
Qed.
Lemma on_proxy_resolved_inv res s : idle s -> h_ctrl (co_h (core s)) = HNone ->
  wp (quic_on_proxy_resolved fail_cb closed_cb res) (fun _ s' => Inv s') s.
Proof.
  intros Hi Hn. destruct res as [rc|addr]; cbn [quic_on_proxy_resolved]; [by apply fail_inv, idle_LO|].
  apply idle_bind; [neutral|done|]. intros _ s1 Hi1 E1. rewrite <-E1 in Hn.
  apply wp_bind, wp_open_handle; [by apply LO_live, idle_LO|done|]. intros s2 E2.
  assert (HA2 : A s2). { destruct Hi1 as (HL & HO & Hq & _). unfold A. rewrite E2. split; [by apply Life_opened|]. split; [by apply Owned_opened|]. by exists HCtrl. }
  apply wp_bind, wp_neutral; [neutral|by apply A_good|]. intros rc s3 E3. assert (HA3 : A s3) by by apply (A_core s2).
  destruct (rc =? 0); [|by apply fail_inv; destruct HA3 as (? & ? & _)]. apply wp_updh; [by apply A_live|]. left.
  destruct Hi1 as (HL1 & _ & (Hst & Hnone & _) & Ho). destruct HA3 as ([] & [] & _). rewrite <-E3 in E2.
  assert (Er : h_reading (co_h (core s3)) = false) by by rewrite E2. assert (Eres : h_resolving (co_h (core s3)) = None) by by rewrite E2.
  assert (Ec : h_ctrl (co_h (core s3)) = HOpen) by by rewrite E2. assert (Eo : off_net (core s3)) by by rewrite E2.
  split; split; cbn in *; auto; try done.
  - by rewrite Er.
  - intros _. by rewrite Ec.
  - intros _ r. by rewrite Eres.
Qed.

(** *** The control channel *)
Lemma keepsA_ctrl_write data : keepsA (quic_ctrl_write fail_cb closed_cb data).
Proof.
  unfold quic_ctrl_write. apply keepsA_bind; [apply neutral_keepsA; neutral|intros i]. apply keepsA_bind; [apply neutral_keepsA; neutral|intros c].
  destruct (_ || _); [apply neutral_keepsA; neutral|]. apply keepsA_bind; [apply neutral_keepsA; neutral|intros rc].
  destruct (negb _); [apply keepsA_fail|apply neutral_keepsA; neutral].
Qed.
(** A step of the negotiation goes on negotiating. *)
Definition set_nego (b : bool) c : Core :=
  mkCore (c_freed c) (co_state c) (co_udp c) (co_timer c) (co_ctrl c) (co_conn c) (co_want c) (co_rejected c) (co_ctx c) (co_n c) (co_h c) (co_own c)
    (co_small c) b.
Lemma wp_next_phase p f (Post : unit -> ST -> Prop) s : qs_freed s = false ->
  (forall k, core (mkQSt (f k) (qs_h s) (qs_w s) (qs_dns s) (qs_own s) (qs_freed s) (qs_net s)) =
     set_nego (negb (phase_done p)) (core (mkQSt k (qs_h s) (qs_w s) (qs_dns s) (qs_own s) (qs_freed s) (qs_net s)))) ->
  (forall s', core s' = set_nego (negb (phase_done p)) (core s) -> Post tt s') -> wp (updk f) Post s.
Proof. intros Hf Hk HP. apply wp_updk; [done|]. apply HP. rewrite Hk. by destruct s. Qed.
Lemma set_nego_id c : set_nego (co_nego c) c = c.
Proof. by destruct c. Qed.
(** Negotiating: the channel reads, and the phase is not the last one. *)
Definition negotiating s : Prop := A s /\ h_reading (co_h (core s)) = true /\ co_nego (core s) = true /\ co_state (core s) <> QuicState_Closing.
Lemma negotiating_core s s' : core s' = core s -> negotiating s -> negotiating s'.
Proof. unfold negotiating, A. by intros ->. Qed.
Lemma next_phase_inv p f data s : phase_done p = false -> negotiating s ->
  (forall k, core (mkQSt (f k) (qs_h s) (qs_w s) (qs_dns s) (qs_own s) (qs_freed s) (qs_net s)) =
     set_nego (negb (phase_done p)) (core (mkQSt k (qs_h s) (qs_w s) (qs_dns s) (qs_own s) (qs_freed s) (qs_net s)))) ->
  wp (updk f;; quic_ctrl_write fail_cb closed_cb data) (fun _ s' => Inv s') s.
Proof.
  intros Hp (HA & _ & Hn & _) Hk. apply wp_bind. apply (wp_next_phase p); [by apply A_live|done|]. intros s1 E1.
  rewrite Hp in E1. cbn [negb] in E1. rewrite <-Hn, set_nego_id in E1. apply keepsA_inv; [apply keepsA_ctrl_write|by apply (A_core s)].
Qed.
Lemma advance_done_idle s s' : negotiating s -> core s' = set_nego false (core s) -> idle s' /\ co_nego (core s') = false.
Proof.
  intros (([] & [] & _) & Hr & Hn & Hst) E. destruct (l_nego Hst) as [Ho Hres]; [by rewrite Hr, Hn, orb_true_r|].
  destruct (l_read Hr) as [_ Hc]. unfold idle. rewrite E. split; [|done]. split; [|split; [|split; [|done]]].
  - split; try done.
    + intros _ r. cbn in *. by rewrite Hres.
  - by split.
  - split; [done|]. split; [done|]. cbn [set_nego co_h co_nego]. by rewrite Hc, andb_false_r.
Qed.
Lemma resolve_target_inv s : idle s -> co_nego (core s) = false ->
  wp (quic_proxy_resolve_target fail_cb closed_cb early_cb) (fun _ s' => Inv s') s.
Proof.
  intros Hi Hn. unfold quic_proxy_resolve_target. apply idle_bind; [neutral|done|]. intros cached s1 Hi1 E1. rewrite <-E1 in Hn.
  apply idle_bind; [neutral|done|]. intros port s2 Hi2 E2. rewrite <-E2 in Hn. destruct cached as [a|].
  - apply idle_bind; [neutral|done|]. intros ok s3 Hi3 _. destruct (negb ok); [by apply fail_inv, idle_LO|].
    apply idle_bind; [neutral|done|]. intros _ s4 Hi4 _. by apply proxy_finish_inv.
  - apply idle_bind; [neutral|done|]. intros host s3 Hi3 E3. apply resolve_inv; [done|]. cbn [may_resolve]. by rewrite E3.
Qed.
Lemma advance_inv s : negotiating s -> wp (quic_proxy_advance fail_cb closed_cb early_cb) (fun _ s' => Inv s') s.
Proof.
  intros Hs. pose proof (proj1 Hs) as HA. assert (HI : LO s) by (destruct HA as (? & ? & _); by split).
  assert (Hassoc : wp (quic_proxy_send_associate fail_cb closed_cb) (fun _ s' => Inv s') s) by by apply (next_phase_inv QPhase_Associate).
  unfold quic_proxy_advance. apply wp_bind, wp_getk; [by apply A_live|]. apply wp_bind, wp_getk; [by apply A_live|].
  destruct (k_proxy_phase (qs_k s)).
  - destruct (proxy_socks5_parse_method _) as [m|]; [|by left]. destruct (m =? 0); [done|]. destruct (m =? 2); [|by apply fail_inv].
    unfold quic_proxy_send_userpass. apply wp_bind, wp_getk; [by apply A_live|]. destruct (proxy_socks5_userpass _ _); [|by apply fail_inv].
    by apply (next_phase_inv QPhase_Auth).
  - destruct (proxy_socks5_parse_userpass_reply _) as [[]|]; [done|by apply fail_inv|by left].
  - destruct (proxy_socks5_parse_reply _) as [r|]; [|by left]. destruct (negb _); [by apply fail_inv|].
    apply wp_bind, wp_neutral; [neutral|by apply A_good|]. intros _ s1 E1. assert (Hs1 : negotiating s1) by by apply (negotiating_core s).
    apply wp_bind. apply (wp_next_phase QPhase_Done); [by destruct Hs1 as (?%A_live & _)|done|]. intros s2 E2.
    destruct (advance_done_idle s1 s2 Hs1 E2) as [Hi2 Hn2]. by apply resolve_target_inv.
  - by left.
Qed.
Lemma reading_A s : LO s -> h_reading (co_h (core s)) = true -> A s /\ co_state (core s) <> QuicState_Closing.
Proof.
  intros [HL HO] Hr. destruct (l_read _ HL Hr) as [Ec _]. split.
  - split; [done|]. split; [done|]. exists HCtrl. by rewrite (Ec : handle_of HCtrl _ = _).
  - intros E. destruct (l_closing _ HL E) as [Hcl _]. destruct (Hcl HCtrl) as [_ Hne]. by apply Hne.
Qed.
Lemma ctrl_read_inv ev s : LO s -> h_reading (co_h (core s)) = true ->
  wp (quic_ctrl_read_cb fail_cb closed_cb early_cb ev) (fun _ s' => Inv s') s.
Proof.
  intros HI Hr. destruct (reading_A s HI Hr) as [HA Hst]. destruct ev as [reason|data]; cbn [quic_ctrl_read_cb]; [by apply fail_inv|].
  apply wp_bind, wp_getk; [by apply A_live|]. apply wp_bind, wp_getk; [by apply A_live|]. destruct (length data =? 0)%nat; [by left|].
  destruct (k_proxy_phase (qs_k s)) eqn:Ep; try (by left); (destruct (_ <? _)%nat; [by apply fail_inv|]);
    (apply wp_bind, wp_neutral; [neutral|by apply A_good|]; intros _ s1 E1; apply advance_inv, (negotiating_core s); [done|];
     split; [done|]; split; [done|]; split; [cbn; by rewrite Ep|done]).
Qed.
Lemma ctrl_connected_inv status s : LO s -> h_connecting (co_h (core s)) = true -> h_ctrl (co_h (core s)) <> HClosing \/ status < 0 ->
  wp (updh (set_h_connecting false);; quic_on_ctrl_connected fail_cb closed_cb status) (fun _ s' => Inv s') s.
Proof.
  intros [HL HO] Hc Hst. apply wp_bind, wp_updh; [apply (l_live _ HL)|].
  match goal with |- wp _ _ ?x => set (s1 := x) end.
  assert (HI1 : LO s1).
  { destruct HL, HO. split; split; cbn in *; auto.
    - intros E. destruct (l_read E) as [? E']. by rewrite Hc in E'.
    - intros Hne r Er. destruct (l_res Hne r Er) as (_ & E' & _). by rewrite Hc in E'.
    - intros Hne E. apply l_nego; [done|]. by rewrite Hc. }
  unfold quic_on_ctrl_connected. destruct (status <? 0) eqn:Es; [by apply fail_inv|]. apply Z.ltb_ge in Es. destruct Hst as [Hst|]; [|lia].
  assert (Ho : h_ctrl (co_h (core s)) = HOpen) by (pose proof (l_connecting _ HL Hc); by destruct (h_ctrl (co_h (core s)))).
  assert (Hne : co_state (core s) <> QuicState_Closing).
  { intros E. destruct (l_closing _ HL E) as [Hcl _]. destruct (Hcl HCtrl) as [_ Hne]. by apply Hne. }
  destruct (l_nego _ HL Hne) as [Hoff Hres]; [by rewrite Hc|].
  apply wp_bind, wp_updh; [apply (l_live _ HL)|]. match goal with |- wp _ _ ?x => set (s2 := x) end.
  assert (HA2 : forall s3, core s3 = set_nego true (core s2) -> A s3).
  { intros s3 E3. assert (Hctrl : handle_of HCtrl (co_h (core s2)) = HOpen) by exact Ho.
    destruct HI1 as [[] []]. unfold A. rewrite E3. split; [|split; [by split|exists HCtrl; by rewrite (Hctrl : handle_of HCtrl (co_h (set_nego true _)) = _)]].
    split; cbn in *; auto.
    intros _ r. by rewrite Hres. }
  apply wp_bind, wp_getk; [apply (l_live _ HL)|]. apply wp_bind.
  apply (wp_next_phase QPhase_Greeting); [apply (l_live _ HL)|done|]. intros s3 E3. apply keepsA_inv; [apply keepsA_ctrl_write|by apply HA2].
Qed.

(** *** Connecting *)
Context (ip_literal : bytes -> option bytes).
(** A request that has no connection (left): new, or about to be retried. *)
Record Unconnected (allow : bool) s : Prop := {
  u_live : qs_freed s = false;
  u_handles : handles_done (qs_h s) = true;
  u_ctx : is_Some (w_ctx (view (qs_own s)));
  u_deliver : count is_deliver (w_log (view (qs_own s))) = b2n (w_responded (view (qs_own s)));
  u_free : count is_free (w_log (view (qs_own s))) = 0%nat;
  u_flags : w_closing (view (qs_own s)) = false /\ w_retrying (view (qs_own s)) = false /\ w_submitted (view (qs_own s)) = false;
  u_connects : connects (w_log (view (qs_own s))) = if w_retried (view (qs_own s)) then [true] else [];
  u_retried : w_retried (view (qs_own s)) = true ->
    allow = false /\ idempotent (rp_method (w_params (view (qs_own s)))) = true /\ rp_body (w_params (view (qs_own s))) = [];
  u_submit : (count is_submit (w_log (view (qs_own s))) <= b2n (w_retried (view (qs_own s))))%nat
}.
Definition c_zero (ctx : option SSL_CTX) (want : bool) (o : View) : Core :=
  mkCore false QuicState_Idle false false false false want false ctx 0 no_handles o true true.
Definition connected_view (early : bool) (o : View) : View :=
  mkView (w_params o) (w_responded o) (w_closing o) (w_submitted o) (w_retrying o) (w_retried o) (w_timer o) (w_ctx o) (w_log o ++ [LogConnect early]).
Lemma zero_idle allow early s s' : Unconnected allow s ->
  (early = true -> allow = true /\ idempotent (rp_method (w_params (view (qs_own s)))) = true /\ rp_body (w_params (view (qs_own s))) = []) ->
  core s' = c_zero (w_ctx (view (qs_own s))) early (connected_view early (view (qs_own s))) -> idle s'.
Proof.
  intros [U1 U2 U3 U4 U5 (U6 & U7 & U8) U9 U10 U11] He E. unfold idle. rewrite E. remember (view (qs_own s)) as o eqn:Eo. clear Eo.
  split; [|split; [|done]].
  - split; cbn; auto; try done. by intros _ [].
  - split; cbn; rewrite ?count_snoc, ?connects_snoc, ?U4, ?U5, ?U6, ?U7, ?U8, ?U9; cbn; rewrite ?Nat.add_0_r, ?andb_true_r; try done.
    + split; [done|]. by intros [].
    + destruct (w_retried o) eqn:Er.
      * destruct (U10 eq_refl) as (-> & Hi & Hb). exists true. split; [|done]. destruct early; [by destruct He|done].
      * exists early. split; [done|]. split; [done|]. intros Ee. by destruct (He Ee) as (_ & ? & ?).
    + intros [->|]; [|done]. by rewrite last_snoc.
Qed.
Lemma handles_done_off s : qs_freed s = false -> handles_done (qs_h s) = true -> wp (geth handles_done) (fun d s' => d = true /\ s' = s) s.
Proof. intros Hf Hd. apply wp_geth; [done|]. done. Qed.
Lemma core_good_zero ctx want o s : core s = c_zero ctx want o -> good s.
Proof. unfold good. by intros ->. Qed.
Lemma zero_bind {X Y} (m : QM X) (f : X -> QM Y) (Post : Y -> ST -> Prop) ctx want o s : neutral m -> core s = c_zero ctx want o ->
  (forall x s', core s' = c_zero ctx want o -> wp (f x) Post s') -> wp (x ← m; f x) Post s.
Proof.
  intros Hm E HP. apply wp_bind, wp_neutral; [done|by eapply core_good_zero|]. intros x s' E'. apply HP. congruence.
Qed.
Definition connect_early (qc : QuicClient) (p : ReqParams) (origin : bytes) (now : Z) (allow_early : bool) : QM bool :=
  if qc_resume_enabled qc then
     let '(sess, cache) := resume_cache_get (qc_resume_cache qc) origin now in
     updo (fun r => set_r_client (set_qc_resume_cache cache (r_client r)) r);;
     quic_set_resume sess;;
     let wanted := allow_early && qc_early_data_enabled qc && idempotent (rp_method p) && (length (rp_body p) =? 0)%nat &&
                   (match sess with Some _ => true | None => false end) in
     match (if wanted then resume_cache_tp cache origin else None) with
     | Some tp =>
         if (length tp =? 0)%nat then mret false else quic_set_early_data tp;; quic_on_early_ready;; mret true
     | None => mret false
     end
   else mret false.
Lemma connect_early_spec qc p origin now allow ctx o s : core s = c_zero ctx false o ->
  wp (connect_early qc p origin now allow) (fun early s' => core s' = c_zero ctx early o /\
    (early = true -> allow = true /\ idempotent (rp_method p) = true /\ rp_body p = [])) s.
Proof.
  intros E. unfold connect_early. destruct (qc_resume_enabled qc); [|by apply wp_ret]. destruct (resume_cache_get _ _ _) as [sess cache].
  eapply zero_bind; [neutral|done|]. intros _ s1 E1. eapply zero_bind; [unfold quic_set_resume; neutral|done|]. intros _ s2 E2. cbv zeta.
  destruct (allow && _ && _ && _ && _) eqn:Ew; [|by apply wp_ret]. apply andb_true_iff in Ew as [[[[-> _]%andb_true_iff Hi]%andb_true_iff Hb]%andb_true_iff _].
  apply Nat.eqb_eq, length_zero_iff_nil in Hb. destruct (resume_cache_tp _ _) as [tp|]; [|by apply wp_ret].
  destruct (length tp =? 0)%nat; [by apply wp_ret|]. apply wp_bind. unfold quic_set_early_data.
  pose proof (core_good_zero _ _ _ _ E2) as [Hf _]. apply wp_updk; [done|].
  match goal with |- wp _ _ ?x => assert (E3 : core x = c_zero ctx true o) end.
  { revert E2. clear. destruct s2 as [k h w d own fr nt], k. unfold core, c_zero. cbn. congruence. }
  eapply zero_bind; [unfold quic_on_early_ready; neutral|exact E3|]. intros _ s4 E4. by apply wp_ret.
Qed.
Lemma quicreq_connect_inv allow s : Unconnected allow s -> wp (quicreq_connect ip_literal ofc allow) (fun _ s' => Inv s') s.
Proof.
  intros HU. pose proof HU as [Hf Hd [ctx Hctx] _ _ _ _ _ _]. unfold quicreq_connect.
  do 3 (apply wp_bind, wp_geto; [done|]). apply wp_bind. unfold qenv at 1, wp at 1. apply wp_bind. unfold quic_conn_init.
  apply wp_bind. eapply wp_mono; [by apply handles_done_off|]. cbv beta. intros d s1 [-> ->].
  apply wp_bind, wp_updk; [done|]. apply wp_bind. unfold net. apply wp_pupd. apply wp_updh; [done|].
  match goal with |- wp _ _ ?x => assert (E : core x = c_zero (w_ctx (view (qs_own s))) false (view (qs_own s))); [|revert E; generalize x] end.
  { unfold core. cbn. by rewrite Hf. }
  intros s1 E1. eapply zero_bind; [unfold quic_set_dns_cache; neutral|done|]. intros _ s2 E2.
  eapply zero_bind; [destruct (qc_local_address _); [unfold quic_set_local_address; destruct (ip_literal _)|]; neutral|done|]. intros _ s3 E3.
  eapply zero_bind; [unfold quic_set_proxy; neutral|done|]. intros _ s4 E4.
  eapply zero_bind; [unfold quic_set_ech; neutral|done|]. intros _ s5 E5.
  apply wp_bind. eapply wp_mono; [by eapply connect_early_spec|]. cbv beta. intros early s6 [E6 He].
  pose proof (core_good_zero _ _ _ _ E6) as [Hf6 _]. apply wp_bind, wp_updo_core; [done|]. intros s7 E7.
  assert (Ev : view (qs_own s6) = view (qs_own s)) by (change (co_own (core s6) = view (qs_own s)); by rewrite E6).
  assert (E7' : core s7 = c_zero (w_ctx (view (qs_own s))) early (connected_view early (view (qs_own s)))).
  { rewrite E7, E6. unfold set_co_own, c_zero. cbn [c_freed co_state co_udp co_timer co_ctrl co_conn co_want co_rejected co_ctx co_n co_h co_small co_nego].
    f_equal. rewrite <-Ev. done. }
  apply conn_connect_inv; [by eapply zero_idle|by rewrite E7'].
Qed.
End closed.

(** ** The end of a connection *)
Section run.
Context (work : W -> Z) (Hng : ng_laws work).
Context (copy_without_early_data : SSL_SESSION -> option SSL_SESSION).
Context (decode_content : bytes -> bytes -> option bytes).
Context (ip_literal : bytes -> option bytes).
Abbreviation fully_closed := (quicreq_on_fully_closed ip_literal).
Lemma wp_updk_core (f : QuicConnection -> QuicConnection) c' (Post : unit -> ST -> Prop) s : qs_freed s = false ->
  core (mkQSt (f (qs_k s)) (qs_h s) (qs_w s) (qs_dns s) (qs_own s) (qs_freed s) (qs_net s)) = c' ->
  (forall s', core s' = c' -> Post tt s') -> wp (updk f) Post s.
Proof. intros Hf E HP. apply wp_updk; [done|]. by apply HP. Qed.
Lemma cleanup_spec s : good s -> wp quic_conn_cleanup (fun _ s' => core s' = set_conn false (co_want (core s)) (core s)) s.
Proof.
  intros Hg. unfold quic_conn_cleanup. apply wp_bind, wp_neutral; [neutral|done|]. intros _ s1 E1.
  assert (Hg1 : good s1) by by apply (core_good s). apply wp_bind, wp_getk; [apply Hg1|]. apply wp_bind.
  assert (Hend : forall s2, core s2 = set_conn false (co_want (core s)) (core s) ->
    wp (updk (set_k_ssl None);; net NetClosed;; updk (set_k_send_bufs [])) (fun _ s' => core s' = set_conn false (co_want (core s)) (core s)) s2).
  { intros s2 E2. assert (Hg2 : good s2) by (unfold good; rewrite E2; exact Hg).
    assert (Hn : neutral (updk (set_k_ssl None);; net NetClosed;; updk (set_k_send_bufs []) : QM unit)).
    { apply neutral_bind; [neutral|intros _]. apply neutral_bind; [neutral|intros _]. apply neutral_updk; [by intros []|]. intros k _. destruct k. cbn. lia. }
    eapply wp_mono; [by apply Hn|]. cbv beta. congruence. }
  destruct (k_conn (qs_k s1)) eqn:Ec; cbn [pwhen].
  - apply wp_bind, wp_neutral; [neutral|done|]. intros _ s2 E2. assert (Hg2 : good s2) by by apply (core_good s1).
    eapply wp_updk_core; [apply Hg2|reflexivity|]. intros s3 E3. apply Hend. rewrite E3, <-E1, <-E2. unfold core, set_conn. cbn. by destruct (qs_k s2).
  - apply wp_ret, Hend. rewrite <-E1. unfold set_conn. rewrite <-(Ec : co_conn (core s1) = false). by destruct (core s1).
Qed.
Definition shut_owned s : Prop :=
  good s /\ Shut (core s) /\ Owned (core s) /\ co_state (core s) = QuicState_Closing /\ is_Some (w_ctx (co_own (core s))).
Lemma free_done s o : qs_freed s = false -> Shut (core s) -> Owned o -> co_own o = co_own (core s) -> co_state o = QuicState_Closing ->
  w_retrying (co_own o) = false ->
  wp (updo (rlog LogFree ∘ set_r_timer false);; recycle) (fun _ s' => Done s') s.
Proof.
  intros Hf Hs HO Eo Hst Hr. apply wp_bind, wp_updo; [done|]. unfold recycle, live.
  unfold wp, mbind, PS_bind, pupd. cbn [qs_freed]. rewrite Hf. destruct (Owned_attempts _ HO) as (b & Hb & Hi & Hn).
  assert (Hd : w_responded (co_own o) = true) by (apply (o_resp _ HO); destruct (proj1 (o_closing _ HO) Hst); congruence).
  pose proof (o_deliver _ HO) as Hdel. pose proof (o_free _ HO) as Hfr. rewrite Eo in *. rewrite Hd in Hdel. cbn in Hdel, Hfr, Hb, Hi, Hn.
  split; cbn; rewrite ?count_snoc, ?Hdel, ?Hfr; try done; [by destruct Hs|].
  exists b. cbn. rewrite connects_snoc, count_snoc, app_nil_r. cbn. rewrite Nat.add_0_r. done.
Qed.
Lemma fully_closed_done d s : shut_answered s -> wp (fully_closed (S d)) (fun _ s' => Done s') s.
Proof.
  intros (Hg & Hs & HO & Hst & Hr & Hx). cbn [quicreq_on_fully_closed]. apply wp_bind, wp_neutral; [neutral|done|]. intros _ s1 E1.
  assert (Hg1 : good s1) by by apply (core_good s). apply wp_bind. eapply wp_mono; [by apply cleanup_spec|]. cbv beta. intros _ s2 E2.
  assert (Hf2 : qs_freed s2 = false) by (change (c_freed (core s2) = false); rewrite E2; apply Hg1).
  apply wp_bind, wp_geto; [done|]. change (r_retrying (qs_own s2)) with (w_retrying (co_own (core s2))). rewrite E2, E1. cbn [set_conn co_own]. rewrite Hr.
  apply (free_done _ (core s)); try done; rewrite E2, E1; [by destruct Hs|done].
Qed.
Lemma fully_closed_inv d s : shut_owned s -> wp (fully_closed (S (S d))) (fun _ s' => Inv s') s.
Proof.
  intros (Hg & Hs & HO & Hst & Hx). destruct (w_retrying (co_own (core s))) eqn:Hr.
  2: { apply (wp_mono _ (fun _ s' => Done s')); [by apply fully_closed_done|by intros _ s' HD; right]. }
  remember (S d) as d'. cbn [quicreq_on_fully_closed]. apply wp_bind, wp_neutral; [neutral|done|]. intros _ s1 E1.
  assert (Hg1 : good s1) by by apply (core_good s). apply wp_bind. eapply wp_mono; [by apply cleanup_spec|]. cbv beta. intros _ s2 E2.
  assert (Hf2 : qs_freed s2 = false) by (change (c_freed (core s2) = false); rewrite E2; apply Hg1).
  apply wp_bind, wp_geto; [done|]. change (r_retrying (qs_own s2)) with (w_retrying (co_own (core s2))). rewrite E2, E1. cbn [set_conn co_own]. rewrite Hr.
  apply wp_bind, wp_updo; [done|]. eapply quicreq_connect_inv; [exact Hng|subst d'; apply fully_closed_done|].
  assert (Eo : view (qs_own s2) = co_own (core s)) by (change (co_own (core s2) = co_own (core s)); by rewrite E2, E1).
  assert (Eh : qs_h s2 = co_h (core s)) by (change (co_h (core s2) = co_h (core s)); by rewrite E2, E1).
  destruct HO as [O1 O2 O3 O4 O5 O6 O7 O8 O9]. destruct (O5 Hr) as [Hrd Hres]. destruct O6 as (b & O61 & O62 & O63).
  rewrite Hrd, Hr in O61, O8. cbn [andb negb b2n] in O61, O8. specialize (O62 Hrd). subst b. rewrite <-Eo in *.
  split; cbn in *; try done.
  - rewrite Eh. unfold handles_done. destruct Hs as [Hh _ _ _ _]. cbn in Hh, Hres. rewrite (Hh HTimer : h_timer _ = _), (Hh HUdp : h_udp _ = _), (Hh HCtrl : h_ctrl _ = _), Hres. done.
  - by rewrite Hrd.
  - intros _. split; [done|]. by apply O63.
  - rewrite Hrd. cbn. destruct (r_submitted (qs_own s2)); cbn in *; lia.
Qed.

(** ** Every callback *)
Abbreviation handle := (quic_handle copy_without_early_data decode_content ip_literal).
(** The resolver, which a close does not cancel, answers a connection that is not
    closing. *)
Definition calm (ev : quic_event) s : Prop :=
  match ev with EvResolved _ => qs_freed s = false /\ k_state (qs_k s) <> QuicState_Closing | _ => True end.
Lemma done_no_event s ev : Done s -> quic_enabled ev s = true -> calm ev s -> False.
Proof.
  intros [Hf [Hh H1' H2' H3' H4'] Ht _ _ _] He Hc. cbn in Hh, H1', H2', H3', H4', Ht. destruct ev; cbn in *; try congruence.
  - by destruct Hc as [Hc _]; rewrite Hf in Hc.
  - by rewrite H4' in He.
  - by rewrite H2' in He.
  - by rewrite Hh in He.
Qed.
Lemma Owned_timer b c : Owned c -> Owned (set_co_own (mkView (w_params (co_own c)) (w_responded (co_own c)) (w_closing (co_own c)) (w_submitted (co_own c))
  (w_retrying (co_own c)) (w_retried (co_own c)) b (w_ctx (co_own c)) (w_log (co_own c))) c).
Proof. by intros []. Qed.
Lemma timeout_inv s : LO s -> wp (handle EvTimeout) (fun _ s' => Inv s') s.
Proof.
  intros [HL HO]. cbn [quic_handle]. apply wp_bind, wp_updo_core; [apply (l_live _ HL)|]. intros s1 E1.
  apply (ready_fail_inv (fully_closed CLOSE_DEPTH)); [apply fully_closed_done|].
  unfold LO. rewrite E1. split; [apply Life_own; [done|apply (l_ctx _ HL)]|]. by apply (Owned_timer false).
Qed.
Lemma ev_timer_inv s : LO s -> is_Some (h_expiry (qs_h s)) -> wp (handle EvTimer) (fun _ s' => Inv s') s.
Proof.
  intros [HL HO] Hx. pose proof (l_timer _ HL Hx) as Ht. cbn [quic_handle]. apply wp_bind, wp_updh; [apply (l_live _ HL)|].
  match goal with |- wp _ _ ?x => set (s1 := x) end. assert (HA1 : A s1).
  { destruct HL, HO. split; [|split; [|by exists HTimer; cbn in *; rewrite Ht]].
    - split; cbn in *; auto; try done.
    - by split. }
  apply keepsA_inv; [|done]. unfold quic_timer_cb. apply keepsA_bind; [apply neutral_keepsA; neutral|intros conn].
  destruct (negb conn); [apply neutral_keepsA; neutral|]. apply keepsA_bind; [apply neutral_keepsA; neutral|intros now].
  apply keepsA_bind; [apply neutral_keepsA; neutral|intros rv]. destruct (negb _); [apply keepsA_fail|by eapply keepsA_flush].
Qed.
(** A handle that was closed. *)
Lemma handle_closed_inv hk s : LO s -> handle_of hk (qs_h s) = HClosing -> (hk = HCtrl -> h_connecting (qs_h s) = false) ->
  wp (handle (EvHandleClosed hk)) (fun _ s' => Inv s') s.
Proof.
  intros [HL HO] Hk Hcn. assert (Hst : co_state (core s) = QuicState_Closing).
  { destruct (decide (co_state (core s) = QuicState_Closing)) as [|Hne]; [done|]. pose proof (l_open _ HL Hne hk) as E.
    rewrite (Hk : handle_of hk (co_h (core s)) = _) in E. by destruct (co_inited hk (core s)). }
  destruct (l_closing _ HL Hst) as (Hcl & Hn & _). cbn [quic_handle]. apply wp_bind, wp_updh; [apply (l_live _ HL)|].
  unfold quic_on_handle_closed. apply wp_bind, wp_updk; [apply (l_live _ HL)|].
  match goal with |- wp _ _ ?x => set (s1 := x) end.
  assert (Hn1 : co_n (core s1) = closing_count (co_h (core s1))).
  { cbn in Hn |- *. rewrite Hn. unfold closing_count. destruct hk; cbn in *; rewrite Hk; cbn; lia. }
  assert (Hh1 : forall hk', handle_of hk' (co_h (core s1)) = if bool_decide (hk' = hk) then HNone else handle_of hk' (co_h (core s))) by (by destruct hk, hk').
  assert (Hc1 : h_connecting (co_h (core s1)) = true -> h_ctrl (co_h (core s1)) <> HNone).
  { intros E. cbn in E. assert (Ec : h_connecting (qs_h s) = true) by (by destruct hk). pose proof (l_connecting _ HL Ec) as Hne.
    destruct hk; cbn in *; [done..|]. by rewrite (Hcn eq_refl) in Ec. }
  assert (Hi1 : forall hk', co_inited hk' (core s1) = false /\ handle_of hk' (co_h (core s1)) <> HOpen).
  { intros hk'. rewrite Hh1. destruct (Hcl hk') as [? ?]. split; [by destruct hk'|]. by destruct (bool_decide _). }
  assert (Hr1 : h_receiving (co_h (core s1)) = false /\ h_reading (co_h (core s1)) = false /\ h_expiry (co_h (core s1)) = None).
  { pose proof (Hcl HUdp) as [_ Hu]. pose proof (Hcl HCtrl) as [_ Hc]. pose proof (Hcl HTimer) as [_ Ht].
    assert (h_receiving (qs_h s) = false) as Er by (destruct (h_receiving (qs_h s)) eqn:E; [|done]; by destruct (l_recv _ HL E)).
    assert (h_reading (qs_h s) = false) as Ed by (destruct (h_reading (qs_h s)) eqn:E; [|done]; by destruct (l_read _ HL E)).
    assert (h_expiry (qs_h s) = None) as Ex by (destruct (h_expiry (qs_h s)) eqn:E; [|done]; by pose proof (l_timer _ HL ltac:(by eexists))).
    cbn. by destruct hk. }
  destruct Hr1 as (R1 & R2 & R3).
  assert (HO1 : Owned (core s1)) by (destruct HO; split; cbn in *; auto; intros E; split; [by apply o_retry|destruct hk; by apply o_retry]).
  apply wp_bind, wp_getk; [apply (l_live _ HL)|]. change (k_handles_closing (qs_k s1)) with (co_n (core s1)). destruct (co_n (core s1) <=? 0) eqn:En.
  - apply Z.leb_le in En. apply fully_closed_inv. split; [split; [apply (l_live _ HL)|apply (l_small _ HL)]|].
    split; [|split; [done|split; [done|apply (l_ctx _ HL)]]].
    assert (Hnone : forall hk', handle_of hk' (co_h (core s1)) = HNone).
    { rewrite Hn1 in En. unfold closing_count in En. assert (H0' : forall v, 0 <= closing1 v) by (by intros []).
      pose proof (H0' (h_timer (co_h (core s1)))). pose proof (H0' (h_udp (co_h (core s1)))). pose proof (H0' (h_ctrl (co_h (core s1)))).
      intros hk'. destruct (Hi1 hk') as [_ Hne]. assert (Hc0 : closing1 (handle_of hk' (co_h (core s1))) = 0) by (destruct hk'; cbn [handle_of]; lia).
      by destruct (handle_of hk' (co_h (core s1))). }
    split; try done. destruct (h_connecting (co_h (core s1))) eqn:E; [|done]. by destruct (Hc1 eq_refl (Hnone HCtrl)).
  - apply Z.leb_gt in En. left. split; [|done]. split; [apply (l_live _ HL)|apply (l_small _ HL)|done| |by rewrite R1|by rewrite R3; intros []|by rewrite R2|
      done|done|done|apply (l_ctx _ HL)]. intros _. done.
Qed.
Lemma handle_inv ev s : Inv s -> quic_enabled ev s = true -> calm ev s -> wp (handle ev) (fun _ s' => Inv s') s.
Proof.
  intros [HI|HD] He Hc; [|by destruct (done_no_event s ev HD He Hc)]. pose proof (fully_closed_done 1) as Hofc.
  destruct ev as [res|status|rd|res addr| | |hk]; cbn in He.
  - destruct (h_resolving (qs_h s)) as [r|] eqn:Er; [|done]. destruct Hc as [_ Hst]. destruct (resolved_idle r s HI Hst Er) as [Hi Hm].
    cbn [quic_handle]. apply wp_bind, wp_geth; [by apply LO_live|]. apply wp_bind, wp_updh; [by apply LO_live|]. rewrite Er. destruct r.
    + eapply on_resolved_inv; [exact Hng|done|exact Hi].
    + by eapply on_proxy_resolved_inv.
    + eapply on_target_resolved_inv; [exact Hng|done|exact Hi].
  - apply andb_true_iff in He as [He Hs]. apply ctrl_connected_inv; [done|done|done|].
    apply orb_true_iff in Hs as [Hs|Hs]; [left|right; lia]. apply negb_true_iff, bool_decide_eq_false in Hs. exact Hs.
  - eapply ctrl_read_inv; [exact Hng|done..].
  - assert (HA : A s). { destruct HI as [HL HO]. split; [done|]. split; [done|]. destruct (l_recv _ HL He) as [Hu _]. exists HUdp. cbn in *. by rewrite Hu. }
    eapply wp_mono; [by eapply recv_spec|]. cbv beta. intros _ s'. apply A_inv.
  - apply ev_timer_inv; [done|]. by destruct (h_expiry (qs_h s)).
  - by apply timeout_inv.
  - apply andb_true_iff in He as [He%bool_decide_eq_true Hs]. apply handle_closed_inv; [done|done|]. intros ->. cbn in Hs.
    by destruct (h_connecting (qs_h s)).
Qed.

(** ** A request from its start *)
Lemma zero_req m url pu proxy hs b on_chunk deadline qc : is_Some (qc_ctx qc) ->
  forall s, qs_freed s = false -> qs_h s = no_handles ->
    qs_own s = set_r_timer deadline (mkQuicRequest (mkReqParams m url pu HttpVersion_H3 proxy hs b on_chunk) None false false false false false false qc []) ->
    Unconnected true s.
Proof. intros Hx s Hf Eh Eo. split; rewrite ?Eo, ?Eh; try done. Qed.
Lemma start_inv qc m url headers body deadline proxy on_chunk header_order k w dns own : is_Some (qc_ctx qc) ->
  wp (quicreq_start ip_literal qc m url headers body deadline proxy on_chunk header_order) (fun _ s' => Inv s')
    (mkQSt k no_handles w dns own false []).
Proof.
  intros Hx. unfold quicreq_start. cbv zeta. destruct (negb (ok (url_parse url)) || _).
  - apply wp_bind, wp_updo; [done|]. cbn [qs_k qs_h qs_w qs_dns qs_own qs_freed qs_net]. right. split; try done.
    + split; try done. by intros [].
    + exists false. split; [by left|]. split; [done|]. vm_compute. lia.
  - destruct (build_request_headers _ headers body _ m) as [hs b]. apply wp_bind, wp_updo; [done|]. cbn [qs_k qs_h qs_w qs_dns qs_own qs_freed qs_net].
    eapply quicreq_connect_inv; [exact Hng|apply (fully_closed_done 1)|]. by eapply zero_req.
Qed.
(** One callback, the resolver's within [calm]. *)
Definition calm_step s s' : Prop := exists ev, quic_enabled ev s = true /\ calm ev s /\ handle ev s = Some (tt, s').
Lemma quic_reaches_inv s s' : Inv s -> rtc calm_step s s' -> Inv s'.
Proof.
  intros HI Hr. induction Hr as [|s s1 s2 (ev & He & Hc & Hh) _ IH]; [done|]. apply IH.
  exact (run_wp _ (fun _ s' => Inv s') _ _ _ (handle_inv ev s HI He Hc) Hh).
Qed.
Lemma inv_guarantees s : Inv s ->
  (count is_deliver (r_log (qs_own s)) <= 1)%nat /\
  (if qs_freed s then count is_deliver (r_log (qs_own s)) = 1%nat /\ count is_free (r_log (qs_own s)) = 1%nat /\
      forall hk, handle_of hk (qs_h s) = HNone
   else count is_free (r_log (qs_own s)) = 0%nat) /\
  exists early, (connects (r_log (qs_own s)) = [] \/ connects (r_log (qs_own s)) = [early] \/ connects (r_log (qs_own s)) = [early; false]) /\
    (early = true -> idempotent (rp_method (r_params (qs_own s))) = true /\ rp_body (r_params (qs_own s)) = []) /\
    (count is_submit (r_log (qs_own s)) <= length (connects (r_log (qs_own s))))%nat.
Proof.
  intros [HI|[Hf Hs Ht Hd Hfr Ha]].
  - rewrite (LO_live s HI). destruct HI as [HL HO]. pose proof (o_deliver _ HO) as Hd. cbn in Hd.
    split; [rewrite Hd; destruct (r_responded (qs_own s)); cbn; lia|]. split; [exact (o_free _ HO)|]. exact (Owned_attempts _ HO).
  - rewrite Hf. cbn in Hd, Hfr. split; [lia|]. split; [|exact Ha]. split; [done|]. split; [done|]. exact (sh_handles _ Hs).
Qed.

(** C9. A request over QUIC, started with any request and any world that keeps
    ngtcp2's contract, and after any callbacks libuv can make it except an answer of
    the resolver once the connection is closing or its memory is given back
    ([calm]: a restriction, since [quic_conn_close] does not cancel the resolver
    and such an answer does go wrong in the code, quic_connection.c:922): its
    memory is never used after it was given back and no handle is initialised
    twice (every callback has a result); the caller has at most one outcome, exactly one when the memory is given
    back, which happens at most once and with every handle closed; at most two
    connections are made, the second without 0-RTT, the first with 0-RTT only
    for a bodyless GET or HEAD; the request is submitted at most once on each. *)
Theorem quic_request_safe qc m url headers body deadline proxy on_chunk header_order k w dns own : is_Some (qc_ctx qc) ->
  wp (quicreq_start ip_literal qc m url headers body deadline proxy on_chunk header_order)
    (fun _ s1 => forall s, rtc calm_step s1 s ->
       (forall ev, quic_enabled ev s = true -> calm ev s -> is_Some (quic_handle copy_without_early_data decode_content ip_literal ev s)) /\
       (count is_deliver (r_log (qs_own s)) <= 1)%nat /\
       (if qs_freed s then count is_deliver (r_log (qs_own s)) = 1%nat /\ count is_free (r_log (qs_own s)) = 1%nat /\
           forall hk, handle_of hk (qs_h s) = HNone
        else count is_free (r_log (qs_own s)) = 0%nat) /\
       exists early, (connects (r_log (qs_own s)) = [] \/ connects (r_log (qs_own s)) = [early] \/ connects (r_log (qs_own s)) = [early; false]) /\
         (early = true -> idempotent (rp_method (r_params (qs_own s))) = true /\ rp_body (r_params (qs_own s)) = []) /\
         (count is_submit (r_log (qs_own s)) <= length (connects (r_log (qs_own s))))%nat)
    (mkQSt k no_handles w dns own false []).
Proof.
  intros Hx. eapply wp_mono; [by apply start_inv|]. cbv beta. intros _ s1 HI1 s Hr. pose proof (quic_reaches_inv s1 s HI1 Hr) as HI.
  split; [|by apply inv_guarantees]. intros ev He Hc.
  destruct (wp_run _ _ _ (handle_inv ev s HI He Hc)) as ([] & s' & E & _). by rewrite E.
Qed.
End run.
End props.

(** ** A run

    A server that refuses 0-RTT; a packet of the demonstration world is a
    datagram whose first byte says what ngtcp2 makes of it, and there is credit
    for so many packets. *)
#[local] Existing Instance demo_ssl.
#[local] Existing Instance toy_qpack.
Record DemoNg := mkDemoNg { dn_credit : nat; dn_uni : Z }.
#[local] Instance demo_ng_uv : Uv DemoNg := {|
  uv_hrtime w := (1, w); uv_now _ := 0; uv_tcp_bind w _ := (0, w); uv_tcp_connect w _ := (0, w);
  uv_getaddrinfo w _ _ _ := (0, w); uv_write w _ := (0, w);
  uv_strerror _ := lit "error"; ra_reserve w _ := (None, w); ra_commit w _ := w; ra_abort w := w;
  malloc w _ := (true, w); sizeof_WriteReq := 216; sockaddr_family _ := 2; sockaddr_set_port a _ := a
|}.
Definition demo_writev (w : DemoNg) (req : option (Z * bytes * bool)) : NgWrite * Z * DemoNg :=
  match req with
  | Some (_, data, _) =>
      if (0 <? dn_credit w)%nat && (dn_credit w <=? 1000)%nat
      then (NgPacket (9 :: data), zlen data, mkDemoNg (dn_credit w - 1) (dn_uni w)) else (NgPacket [], 0, w)
  | None => (NgPacket [], -1, w)
  end.
Definition demo_packet (data : bytes) : list NgCallback :=
  match data with
  | 1 :: _ => [CbHandshakeCompleted (mkDemoSsl false [] [])]
  | 2 :: rest => [CbStreamData 0 rest true]
  | _ => []
  end.
#[local] Instance demo_ng_quic : QuicApi DemoNg := {|
  uv_udp_bind w _ := (0, w); uv_udp_connect w _ := (0, w); uv_udp_try_send w _ := w; RAND_bytes_ok w := (true, w);
  configure_client_context w _ := (0, w); ngtcp2_conn_client_new w _ _ := (0, w); ngtcp2_conn_set_0rtt_tp w _ := (0, w);
  ngtcp2_conn_encode_0rtt_tp _ := [7];
  ngtcp2_conn_open_bidi_stream w := (inr 0, w);
  ngtcp2_conn_open_uni_stream w := (inr (dn_uni w), mkDemoNg (dn_credit w) (dn_uni w + 4));
  ngtcp2_conn_writev_stream w req _ := demo_writev w req;
  ngtcp2_conn_shutdown_stream w _ _ := w; ngtcp2_conn_extend w _ _ := w; ngtcp2_conn_get_expiry _ := 1000; ngtcp2_conn_handle_expiry w _ := (0, w);
  ngtcp2_conn_read_pkt w _ data _ := (demo_packet data, 0, w); ngtcp2_conn_del w := w; ngtcp2_strerror _ := lit "quic";
  sockaddr_parts _ := None; sockaddr_make _ a _ := a
|}.
Definition demo_work (w : DemoNg) : Z := Z.of_nat (if (dn_credit w <=? 1000)%nat then dn_credit w else 0).
Lemma demo_ng_laws : ng_laws demo_work.
Proof.
  split.
  - intros w. unfold demo_work. destruct (dn_credit w <=? 1000)%nat eqn:E; [apply Nat.leb_le in E|]; lia.
  - intros w [[[sid data] fin]|] ts; cbn [ngtcp2_conn_writev_stream demo_ng_quic demo_writev]; [|by split; [lia|split; [intros []|lia]]].
    destruct (0 <? dn_credit w)%nat eqn:E1, (dn_credit w <=? 1000)%nat eqn:E2; cbn [andb]; try (split; [lia|split; [done|unfold zlen; lia]]).
    apply Nat.ltb_lt in E1. apply Nat.leb_le in E2. assert (demo_work (mkDemoNg (dn_credit w - 1) (dn_uni w)) < demo_work w).
    { unfold demo_work. cbn. rewrite (proj2 (Nat.leb_le (dn_credit w) 1000)), (proj2 (Nat.leb_le (dn_credit w - 1) 1000)) by lia. lia. }
    split; [lia|split; [done|lia]].
  - intros w data. cbn. lia.
  - intros w src data now. cbn. unfold demo_packet. destruct data as [|[|[p|[p|p|]|]|] rest]; cbn; constructor.
Qed.
Definition demo_quic_client : QuicClient :=
  mkQuicClient (Some tt) tt demo_h3_profile [] [] None [] false true true false []
    [mkResume (lit "a.b:443") (Some tt) [1] 0] [].
Abbreviation DQ := (QSt DemoNg QuicRequest).
Definition demo_quic_own : QuicRequest :=
  mkQuicRequest (mkReqParams Method_GET [] (url_parse []) HttpVersion_H3 (mkProxy ProxyType_None [] 0 [] []) header_list_init [] false)
    None false false false false false false demo_quic_client [].
Definition demo_quic_zero : DQ :=
  mkQSt (quic_zero None tt demo_h3_profile) no_handles (mkDemoNg 100 2) (dns_cache_init 8) demo_quic_own false [].
Definition demo_quic_start : PS DQ unit :=
  quicreq_start (fun _ => None) demo_quic_client Method_GET (lit "https://a.b/") [] [] false (mkProxy ProxyType_None [] 0 [] []) false [].
Definition demo_quic_begun : DQ := match demo_quic_start demo_quic_zero with Some (_, s) => s | None => demo_quic_zero end.
Definition demo_calm (ev : quic_event) (s : DQ) : bool :=
  match ev with EvResolved _ => negb (qs_freed s) && negb (bool_decide (k_state (qs_k s) = QuicState_Closing)) | _ => true end.
Fixpoint demo_quic_exec (evs : list quic_event) (s : DQ) : option DQ :=
  match evs with
  | [] => Some s
  | ev :: evs =>
      if quic_enabled ev s && demo_calm ev s then
        match quic_handle Some (fun _ b => Some b) (fun _ => None) ev s with Some (_, s) => demo_quic_exec evs s | None => None end
      else None
  end.
Lemma demo_quic_exec_run evs s s' : demo_quic_exec evs s = Some s' -> rtc (calm_step Some (fun _ b => Some b) (fun _ => None)) s s'.
Proof.
  revert s. induction evs as [|ev evs IH]; intros s; cbn [demo_quic_exec]; [by intros [= ->]|].
  destruct (quic_enabled ev s && demo_calm ev s) eqn:E; [|done]. apply andb_true_iff in E as [He Hc].
  destruct (quic_handle _ _ _ ev s) as [[[] s1]|] eqn:Eh; [|done]. intros Hx%IH. eapply rtc_l; [|exact Hx].
  exists ev. split; [done|]. split; [|done]. destruct ev; try done. cbn in *. apply andb_true_iff in Hc as [Hc1 Hc2].
  split; [by apply negb_true_iff in Hc1|]. by apply negb_true_iff, bool_decide_eq_false in Hc2.
Qed.
Definition demo_quic_events : list quic_event :=
  [EvResolved (inr [1]); EvRecv (inr [1]) (Some []); EvHandleClosed HTimer; EvHandleClosed HUdp;
   EvRecv (inr [1]) (Some []); EvTimer; EvRecv (inr [2; 1; 1; 200; 0; 2; 104; 105]) (Some []); EvHandleClosed HUdp; EvHandleClosed HTimer].
Definition demo_quic_end : DQ := default demo_quic_begun (demo_quic_exec demo_quic_events demo_quic_begun).
Lemma demo_quic_run : rtc (calm_step Some (fun _ b => Some b) (fun _ => None)) demo_quic_begun demo_quic_end.
Proof.
  apply (demo_quic_exec_run demo_quic_events). unfold demo_quic_end.
  assert (E : (if demo_quic_exec demo_quic_events demo_quic_begun is Some _ then true else false) = true) by (vm_compute; reflexivity).
  by destruct (demo_quic_exec demo_quic_events demo_quic_begun).
Qed.
Lemma demo_quic_begins : demo_quic_start demo_quic_zero = Some (tt, demo_quic_begun).
Proof.
  assert (E : (if demo_quic_start demo_quic_zero is Some _ then true else false) = true) by (vm_compute; reflexivity).
  unfold demo_quic_begun. by destruct (demo_quic_start demo_quic_zero) as [[[] s]|].
Qed.
Lemma demo_quic_starts (P : DQ -> Prop) : (forall s, demo_quic_start demo_quic_zero = Some (tt, s) -> P s) -> P demo_quic_begun.
Proof. intros HP. apply HP, demo_quic_begins. Qed.
Lemma demo_quic_use (P : DQ -> Prop) : wp demo_quic_start (fun _ s => P s) demo_quic_zero -> P demo_quic_begun.
Proof. intros Hw. exact (run_wp _ _ _ _ _ Hw demo_quic_begins). Qed.
Lemma quic_request_safe_witness :
  demo_quic_start demo_quic_zero = Some (tt, demo_quic_begun) /\
  connects (r_log (qs_own demo_quic_end)) = [true; false] /\
  count is_deliver (r_log (qs_own demo_quic_end)) = 1%nat /\ count is_free (r_log (qs_own demo_quic_end)) = 1%nat /\
  forall hk, handle_of hk (qs_h demo_quic_end) = HNone.
Proof.
  split; [exact demo_quic_begins|]. split; [vm_compute; reflexivity|].
  assert (Hf : qs_freed demo_quic_end = true) by (vm_compute; reflexivity).
  pose proof (quic_request_safe demo_work demo_ng_laws Some (fun _ b => Some b) (fun _ => None) demo_quic_client
    Method_GET (lit "https://a.b/") [] [] false (mkProxy ProxyType_None [] 0 [] []) false [] (quic_zero None tt demo_h3_profile)
    (mkDemoNg 100 2) (dns_cache_init 8) demo_quic_own ltac:(by eexists)) as Hw.
  apply demo_quic_use in Hw. destruct (Hw demo_quic_end demo_quic_run) as (_ & _ & Hend & _). rewrite Hf in Hend. exact Hend.
Defined.
