(* ===== verification/QuicTrace.v ===== *)
(** * What a QUIC connection sends on its streams

    Across the whole run of a request over QUIC, what ngtcp2 takes of a stream is
    what was queued on it: the same bytes in the same order, and the end of the
    stream with the last of them. *)
From stdpp Require Import relations.
From S2P Require Import Prelude String8 U8Buf GrowArr Header Url Redirect OriginCache DnsCache Proxy ReqHeaders H3Control H3Session TcpRequest.
From S2P Require Export QuicProps.

(** ** The trace of a stream: what was queued, with its end, and what was taken *)
Definition Stream : Type := bytes * bool * bytes.
Definition on_stream (sid : Z) (a : Stream) (e : NetLog) : Stream :=
  let '(q, qfin, t) := a in
  match e with
  | NetQueued i d fin => if i =? sid then (q ++ d, qfin || fin, t) else a
  | NetSent i d _ => if i =? sid then (q, qfin, t ++ d) else a
  | NetDropped i => if i =? sid then ([], false, []) else a
  | NetClosed => ([], false, [])
  | _ => a
  end.
Definition stream_trace (sid : Z) (l : list NetLog) : Stream := fold_left (on_stream sid) l ([], false, []).
(** Each piece that is taken continues what was taken before it, up to what is
    queued; the end of the stream goes with the last piece, when it is queued. *)
Definition sends_exact (l : list NetLog) : Prop :=
  forall l1 sid d fin l2, l = l1 ++ NetSent sid d fin :: l2 ->
    let '(q, qfin, t) := stream_trace sid l1 in
    (t ++ d) `prefix_of` q /\ (fin = true -> qfin = true /\ t ++ d = q).
Lemma stream_trace_snoc sid l e : stream_trace sid (l ++ [e]) = on_stream sid (stream_trace sid l) e.
Proof. unfold stream_trace. by rewrite fold_left_app. Qed.
Lemma sends_exact_snoc l e : sends_exact l ->
  (forall sid d fin, e = NetSent sid d fin -> let '(q, qfin, t) := stream_trace sid l in
    (t ++ d) `prefix_of` q /\ (fin = true -> qfin = true /\ t ++ d = q)) -> sends_exact (l ++ [e]).
Proof.
  intros Hl He l1 sid d fin l2 E. induction l2 as [|x l3 _] using rev_ind.
  - apply app_inj_tail in E as [<- ->]. by apply He.
  - rewrite app_comm_cons, app_assoc in E. apply app_inj_tail in E as [-> _]. by eapply Hl.
Qed.

(** The buffers say the same. *)
Definition buf_says (sb : QuicSendBuf) : Stream := (u8_v (sb_data sb), sb_fin sb, take (sb_off sb) (u8_v (sb_data sb))).
Record traced (bufs : list QuicSendBuf) (l : list NetLog) : Prop := {
  tr_exact : sends_exact l;
  tr_nodup : NoDup (map sb_id bufs);
  tr_buf : forall sb, sb ∈ bufs -> stream_trace (sb_id sb) l = buf_says sb /\ (sb_off sb <= length (u8_v (sb_data sb)))%nat;
  tr_none : forall sid, sid ∉ map sb_id bufs -> stream_trace sid l = ([], false, [])
}.
Lemma traced_quiet bufs l e : traced bufs l -> match e with NetDatagram _ | NetControl _ => True | _ => False end -> traced bufs (l ++ [e]).
Proof.
  intros [T1 T2 T3 T4] He. split; [|done|..].
  - apply sends_exact_snoc; [done|]. intros sid d fin ->. done.
  - intros sb Hb. rewrite stream_trace_snoc, (proj1 (T3 sb Hb)). split; [by destruct e|by apply T3].
  - intros sid Hs. rewrite stream_trace_snoc, T4 by done. by destruct e.
Qed.
Lemma traced_closed bufs l : traced bufs l -> traced [] (l ++ [NetClosed]).
Proof.
  intros [T1 _ _ _]. split; [by apply sends_exact_snoc|constructor|by intros sb Hb%not_elem_of_nil|].
  intros sid _. rewrite stream_trace_snoc. by destruct (stream_trace sid l) as [[? ?] ?].
Qed.

(** *** A buffer found, added, filled, emptied, removed *)
Lemma find_buf_some bufs id i : find_buf bufs id = Some i -> exists sb, bufs !! i = Some sb /\ sb_id sb = id.
Proof.
  revert i. induction bufs as [|sb bufs IH]; intros i; cbn [find_buf]; [done|]. destruct (sb_id sb =? id) eqn:E.
  - intros [= <-]. exists sb. split; [done|]. by apply Z.eqb_eq.
  - destruct (find_buf bufs id) as [j|]; [|done]. intros [= <-]. by apply IH.
Qed.
Lemma find_buf_none bufs id : find_buf bufs id = None -> id ∉ map sb_id bufs.
Proof.
  induction bufs as [|sb bufs IH]; cbn [find_buf map]; [intros _; apply not_elem_of_nil|]. destruct (sb_id sb =? id) eqn:E; [done|].
  apply Z.eqb_neq in E. destruct (find_buf bufs id); [done|]. intros _. apply not_elem_of_cons. split; [done|by apply IH].
Qed.
Lemma traced_add bufs l id cap : traced bufs l -> id ∉ map sb_id bufs -> traced (bufs ++ [mkSendBuf id (u8buf_init cap) 0 false false false]) l.
Proof.
  intros [T1 T2 T3 T4] Hid. split; [done|..].
  - rewrite map_app. apply NoDup_app. split; [done|]. split; [|by apply NoDup_singleton]. intros x Hx Hx'. cbn in Hx'. apply list_elem_of_singleton in Hx' as ->. done.
  - intros sb [Hb|Hb]%elem_of_app; [by apply T3|]. apply list_elem_of_singleton in Hb as ->. cbn. rewrite T4 by done. split; [done|lia].
  - intros sid Hs. apply T4. rewrite map_app in Hs. intros Hin. apply Hs, elem_of_app. by left.
Qed.
(** A buffer is replaced, and an event of its own stream is recorded. *)
Lemma traced_alter bufs l i f sb e : traced bufs l -> bufs !! i = Some sb ->
  (forall sb, sb_id (f sb) = sb_id sb) -> (sb_off (f sb) <= length (u8_v (sb_data (f sb))))%nat ->
  (forall sid a, sid <> sb_id sb -> on_stream sid a e = a) -> on_stream (sb_id sb) (buf_says sb) e = buf_says (f sb) ->
  (forall sid d fin, e = NetSent sid d fin -> let '(q, qfin, t) := stream_trace sid l in
    (t ++ d) `prefix_of` q /\ (fin = true -> qfin = true /\ t ++ d = q)) ->
  traced (alter f i bufs) (l ++ [e]).
Proof.
  intros [T1 T2 T3 T4] Hi Hid Hoff Hother Hown He.
  assert (Em : map sb_id (alter f i bufs) = map sb_id bufs).
  { clear -Hid. revert i. induction bufs as [|b bufs IH]; intros [|i]; [done..| |]; cbn; [by rewrite Hid|]. f_equal. apply IH. }
  pose proof (list_elem_of_lookup_2 _ _ _ Hi) as Hsb. split; [by apply sends_exact_snoc|by rewrite Em|..].
  - intros b [j Hj]%list_elem_of_lookup. destruct (decide (i = j)) as [<-|Hne].
    + rewrite list_lookup_alter, Hi in Hj. simplify_option_eq. rewrite stream_trace_snoc, Hid, (proj1 (T3 sb Hsb)). done.
    + rewrite list_lookup_alter_ne in Hj by done. pose proof (list_elem_of_lookup_2 _ _ _ Hj) as Hb. split; [|by apply T3].
      rewrite stream_trace_snoc, (proj1 (T3 b Hb)). apply Hother. intros E.
      assert (E' : map sb_id bufs !! i = map sb_id bufs !! j) by (rewrite !list_lookup_fmap, Hi, Hj; cbn; by rewrite E).
      apply Hne. eapply NoDup_lookup; [exact T2| |]; [rewrite list_lookup_fmap, Hi; done|rewrite <-E', list_lookup_fmap, Hi; done].
  - intros sid Hs. rewrite Em in Hs. rewrite stream_trace_snoc, T4 by done. apply Hother. intros ->. apply Hs.
    apply list_elem_of_fmap. by exists sb.
Qed.
Lemma traced_queue bufs l id i d fin : traced bufs l -> find_buf bufs id = Some i ->
  traced (alter (fun sb => mkSendBuf (sb_id sb) (u8buf_append (sb_data sb) d) (sb_off sb) (sb_fin sb || fin) (sb_fin_sent sb) (sb_blocked sb)) i bufs)
    (l ++ [NetQueued id d fin]).
Proof.
  intros HT Hf. destruct (find_buf_some _ _ _ Hf) as (sb & Hi & <-).
  destruct (tr_buf _ _ HT sb (list_elem_of_lookup_2 _ _ _ Hi)) as [_ Hoff].
  eapply traced_alter; [done|exact Hi|done| | | |done]; cbn; rewrite ?u8buf_append_v.
  - rewrite length_app. lia.
  - intros sid [[q qf] t] Hne. cbn. by rewrite (proj2 (Z.eqb_neq _ _)).
  - rewrite Z.eqb_refl. unfold buf_says. cbn. rewrite u8buf_append_v, take_app_le by done. done.
Qed.
Lemma traced_taken bufs l i sb n : traced bufs l -> bufs !! i = Some sb -> 0 <= n <= zlen (rest_of sb) ->
  traced (alter (advance n) i bufs)
    (l ++ [NetSent (sb_id sb) (take (Z.to_nat n) (rest_of sb)) (sb_fin sb && negb (sb_fin_sent sb) && (n =? zlen (rest_of sb)))]).
Proof.
  intros HT Hi Hn. destruct (tr_buf _ _ HT sb (list_elem_of_lookup_2 _ _ _ Hi)) as [Htr Hoff].
  assert (Hlen : zlen (rest_of sb) = Z.of_nat (length (u8_v (sb_data sb)) - sb_off sb)) by (unfold zlen, rest_of; by rewrite length_drop).
  assert (Hsplit : take (sb_off sb + Z.to_nat n) (u8_v (sb_data sb)) = take (sb_off sb) (u8_v (sb_data sb)) ++ take (Z.to_nat n) (rest_of sb)).
  { unfold rest_of. by rewrite <-take_take_drop. }
  eapply traced_alter; [done|exact Hi|by intros sb'; unfold advance; destruct (0 <? n)|..].
  - unfold advance. destruct (0 <? n) eqn:E; cbn; lia.
  - intros sid [[q qf] t] Hne. cbn. by rewrite (proj2 (Z.eqb_neq _ _)).
  - unfold on_stream, buf_says. rewrite Z.eqb_refl, <-Hsplit. unfold advance. destruct (0 <? n) eqn:E; cbn; [done|].
    replace (Z.to_nat n) with 0%nat by lia. by rewrite Nat.add_0_r.
  - intros sid d fin [= <- <- <-]. rewrite Htr. unfold buf_says. rewrite <-Hsplit. split; [by exists (drop (sb_off sb + Z.to_nat n) (u8_v (sb_data sb))); rewrite take_drop|].
    intros [[Hf _]%andb_true_iff He%Z.eqb_eq]%andb_true_iff. split; [done|]. rewrite take_ge; [done|]. lia.
Qed.
Lemma buf_remove_perm bufs i sb : bufs !! i = Some sb -> sb :: swap_remove_buf i bufs ≡ₚ bufs.
Proof.
  intros Hi. induction bufs as [|x l _] using rev_ind; [done|]. unfold swap_remove_buf. rewrite last_snoc, length_app. cbn [length].
  replace (length l + 1 - 1)%nat with (length l) by lia. destruct (decide (i = length l)) as [->|Hne].
  - rewrite insert_app_r_alt, Nat.sub_diag, take_app_length by lia. rewrite lookup_app_r, Nat.sub_diag in Hi by lia. injection Hi as ->.
    by rewrite Permutation_app_comm.
  - assert (Hlt : (i < length l)%nat) by (apply lookup_lt_Some in Hi; rewrite length_app in Hi; cbn in Hi; lia).
    rewrite lookup_app_l in Hi by done. rewrite insert_app_l, take_app_le, take_ge by (rewrite ?length_insert; lia).
    rewrite insert_take_drop by done. rewrite <-(take_drop_middle l i sb Hi) at 3. solve_Permutation.
Qed.
Lemma traced_drop bufs l id i : traced bufs l -> find_buf bufs id = Some i -> traced (swap_remove_buf i bufs) (l ++ [NetDropped id]).
Proof.
  intros [T1 T2 T3 T4] Hf. destruct (find_buf_some _ _ _ Hf) as (sb & Hi & <-). pose proof (buf_remove_perm bufs i sb Hi) as Hp.
  pose proof (Permutation_map sb_id Hp) as Hpm. cbn [map] in Hpm. rewrite <-Hpm in T2. apply NoDup_cons in T2 as [Hni T2].
  split; [by apply sends_exact_snoc|done|..].
  - intros b Hb. assert (Hb' : b ∈ bufs) by (rewrite <-Hp; by apply list_elem_of_further). destruct (T3 b Hb') as [E Hoff]. split; [|done].
    rewrite stream_trace_snoc, E. unfold buf_says. cbn. rewrite (proj2 (Z.eqb_neq _ _)); [done|]. intros E'. apply Hni. rewrite E'. apply list_elem_of_fmap. by exists b.
  - intros sid Hs. rewrite stream_trace_snoc. destruct (decide (sid = sb_id sb)) as [->|Hne].
    + destruct (stream_trace (sb_id sb) l) as [[? ?] ?]. cbn. by rewrite Z.eqb_refl.
    + rewrite T4; [cbn; by destruct (_ =? _)|]. rewrite <-Hpm. apply not_elem_of_cons. done.
Qed.
Lemma traced_blocked bufs l f : (forall sb, sb_id (f sb) = sb_id sb /\ buf_says (f sb) = buf_says sb /\ sb_data (f sb) = sb_data sb /\ sb_off (f sb) = sb_off sb) ->
  traced bufs l -> forall bufs', Forall2 (fun b b' => b' = b \/ b' = f b) bufs bufs' -> traced bufs' l.
Proof.
  intros Hf [T1 T2 T3 T4] bufs' Hb. assert (Em : map sb_id bufs' = map sb_id bufs).
  { clear -Hb Hf. induction Hb as [|b b' l1 l2 [->| ->] _ IH]; cbn; [done|by f_equal|]. by rewrite (proj1 (Hf b)), IH. }
  split; [done|by rewrite Em| |by rewrite Em].
  intros b' [i Hi]%list_elem_of_lookup. destruct (Forall2_lookup_r _ _ _ _ _ Hb Hi) as (b & Hbi & [->| ->]); [by apply T3, (list_elem_of_lookup_2 _ i)|].
  destruct (T3 b (list_elem_of_lookup_2 _ _ _ Hbi)) as [E Hoff]. destruct (Hf b) as (-> & -> & -> & ->). done.
Qed.

(** ** Every step keeps it *)
Section keeps.
Context `{BoringSSL} `{Qpack} {W : Type} `{Uv W} `{!QuicApi W}.
Abbreviation ST := (QSt W QuicRequest).
Abbreviation QM := (PS ST).
Implicit Types (s : ST).
Definition N s : Prop := traced (k_send_bufs (qs_k s)) (qs_net s).
(** If [m] returns, [N] is kept. *)
Definition keepsN {X} (m : QM X) : Prop := forall s x s', m s = Some (x, s') -> N s -> N s'.
Lemma keepsN_ret {X} (x : X) : keepsN (mret x).
Proof. by intros s y s' [= <- <-]. Qed.
Lemma keepsN_bad {X} : keepsN (bad : QM X).
Proof. done. Qed.
Lemma keepsN_bind {X Y} (m : QM X) (f : X -> QM Y) : keepsN m -> (forall x, keepsN (f x)) -> keepsN (x ← m; f x).
Proof.
  intros Hm Hf s y s'. unfold mbind, PS_bind. destruct (m s) as [[x s1]|] eqn:E; [|done]. intros E2 HN. eapply Hf; [exact E2|]. by eapply Hm.
Qed.
Lemma keepsN_pwhen (b : bool) (m : QM unit) : keepsN m -> keepsN (pwhen b m).
Proof. destruct b; [done|]. intros _. apply keepsN_ret. Qed.
Lemma keepsN_live : keepsN (live : QM unit).
Proof. intros s x s'. unfold live. destruct (qs_freed s); [done|]. by intros [= <- <-]. Qed.
Lemma keepsN_pget {X} (f : ST -> X) : keepsN (pget f).
Proof. by intros s x s' [= <- <-]. Qed.
Lemma keepsN_getk {X} (f : QuicConnection -> X) : keepsN (getk f).
Proof. apply keepsN_bind; [apply keepsN_live|intros _; apply keepsN_pget]. Qed.
Lemma keepsN_geth {X} (f : Handles -> X) : keepsN (geth f).
Proof. apply keepsN_bind; [apply keepsN_live|intros _; apply keepsN_pget]. Qed.
Lemma keepsN_geto {X} (f : QuicRequest -> X) : keepsN (geto f).
Proof. apply keepsN_bind; [apply keepsN_live|intros _; apply keepsN_pget]. Qed.
Lemma keepsN_updk f : (forall k, k_send_bufs (f k) = k_send_bufs k) -> keepsN (updk f).
Proof. intros Hf. apply keepsN_bind; [apply keepsN_live|intros _]. intros s x s' [= <- <-]. unfold N. cbn. by rewrite Hf. Qed.
Lemma keepsN_updh f : keepsN (updh f).
Proof. apply keepsN_bind; [apply keepsN_live|intros _]. by intros s x s' [= <- <-]. Qed.
Lemma keepsN_updo f : keepsN (updo f).
Proof. apply keepsN_bind; [apply keepsN_live|intros _]. by intros s x s' [= <- <-]. Qed.
Lemma keepsN_recycle : keepsN (recycle : QM unit).
Proof. apply keepsN_bind; [apply keepsN_live|intros _]. by intros s x s' [= <- <-]. Qed.
Lemma keepsN_qenv {X} (f : W -> X * W) : keepsN (qenv f).
Proof. intros s x s'. unfold qenv. destruct (f (qs_w s)). by intros [= <- <-]. Qed.
Lemma keepsN_qdns {X} (f : DnsCache -> X * DnsCache) : keepsN (qdns f).
Proof. intros s x s'. unfold qdns. destruct (f (qs_dns s)). by intros [= <- <-]. Qed.
Lemma keepsN_net e : match e with NetDatagram _ | NetControl _ => True | _ => False end -> keepsN (net e).
Proof. intros He s x s' [= <- <-] HN. by apply traced_quiet. Qed.
(** Steps that do touch the buffers. *)
Lemma keepsN_find_or_add id : keepsN (quic_find_or_add_send_buf id : QM _).
Proof.
  intros s x s'. unfold quic_find_or_add_send_buf, getk, updk, live, mbind, PS_bind, pget, pupd. destruct (qs_freed s) eqn:Ef; [done|]. cbn [compose].
  destruct (find_buf _ id) eqn:E; [by intros [= <- <-]|]. destruct (QUIC_SEND_BUFS <=? _)%nat; [by intros [= <- <-]|]. rewrite Ef. intros [= <- <-] HN.
  by apply traced_add; [|apply find_buf_none].
Qed.
Lemma keepsN_drop_buf id : keepsN (drop_buf id : QM unit).
Proof.
  intros s x s'. unfold drop_buf, getk, updk, net, live, mbind, PS_bind, pget, pupd. destruct (qs_freed s) eqn:Ef; [done|]. cbn.
  destruct (find_buf _ id) eqn:E; [|by intros [= <- <-]]. cbn. rewrite Ef. intros [= <- <-] HN. by apply traced_drop.
Qed.
Lemma keepsN_cleanup : keepsN (quic_conn_cleanup : QM unit).
Proof.
  unfold quic_conn_cleanup. apply keepsN_bind; [by apply keepsN_updk; intros []|intros _]. apply keepsN_bind; [apply keepsN_getk|intros conn].
  apply keepsN_bind. { apply keepsN_pwhen, keepsN_bind; [apply keepsN_qenv|intros _]. by apply keepsN_updk; intros []. }
  intros _. apply keepsN_bind; [by apply keepsN_updk; intros []|intros _].
  intros s x s'. unfold updk, net, live, mbind, PS_bind, pupd. cbn. destruct (qs_freed s); [done|]. intros [= <- <-] HN. by eapply traced_closed.
Qed.
Lemma keepsN_init ctx tls h3 : keepsN (quic_conn_init ctx tls h3 : QM unit).
Proof.
  unfold quic_conn_init. apply keepsN_bind; [apply keepsN_geth|]. intros []; [|apply keepsN_bad].
  intros s x s'. unfold updk, updh, net, live, mbind, PS_bind, pupd. destruct (qs_freed s) eqn:Ef; [done|]. cbn. rewrite Ef.
  intros [= <- <-] HN. by eapply traced_closed.
Qed.
Lemma keepsN_blocked v (f : QuicConnection -> QuicConnection) :
  (forall k, Forall2 (fun b b' => b' = b \/ b' = set_blocked v b) (k_send_bufs k) (k_send_bufs (f k))) -> keepsN (updk f).
Proof.
  intros Hf. apply keepsN_bind; [apply keepsN_live|intros _]. intros s x s' [= <- <-] HN. unfold N. cbn. eapply (traced_blocked _ _ (set_blocked v)); [done|exact HN|exact (Hf _)].
Qed.
End keeps.
Create HintDb keepsN.
#[export] Hint Resolve keepsN_ret keepsN_bad keepsN_getk keepsN_geth keepsN_geto keepsN_updh keepsN_updo keepsN_recycle keepsN_qenv keepsN_qdns
  keepsN_find_or_add keepsN_drop_buf keepsN_cleanup keepsN_init : keepsN.
(** Runs through a computation that leaves the streams alone. *)
Ltac keepN :=
  repeat first
    [ solve [eauto with keepsN]
    | apply keepsN_net; exact I
    | apply keepsN_updk; by intros []
    | apply keepsN_pwhen
    | match goal with |- keepsN (mbind _ _) => apply keepsN_bind; [|intros ?] end
    | progress cbv zeta
    | match goal with |- keepsN (match ?x with _ => _ end) => destruct x end ].

Section connection.
Context `{BoringSSL} `{Qpack} {W : Type} `{Uv W} `{!QuicApi W} (work : W -> Z) (Hng : ng_laws work).
Abbreviation ST := (QSt W QuicRequest).
Abbreviation QM := (PS ST).
Implicit Types (s : ST).
Context (ofc : QM unit) (fail_cb closed_cb : bytes -> QM unit).
Context (Hofc : keepsN ofc) (Hfail : forall e, keepsN (fail_cb e)) (Hclosed : forall e, keepsN (closed_cb e)).
Lemma keepsN_close : keepsN (quic_conn_close ofc).
Proof. unfold quic_conn_close, close_one, uv_is_closing. keepN; apply keepsN_updk; intros k; by destruct k. Qed.
Lemma keepsN_handle_closed : keepsN (quic_on_handle_closed ofc).
Proof. unfold quic_on_handle_closed. keepN. Qed.
Lemma keepsN_fail e : keepsN (quic_fail fail_cb closed_cb e).
Proof using Hfail Hclosed. unfold quic_fail. keepN. Qed.
Hint Resolve keepsN_fail : keepsN.
Lemma keepsN_arm_timer : keepsN (quic_arm_timer : QM unit).
Proof. unfold quic_arm_timer, now_ns. keepN. Qed.
Hint Resolve keepsN_arm_timer : keepsN.
(** A round that takes bytes takes them off the buffer it was given. *)
Lemma keepsN_taken i sb n s x s' : k_send_bufs (qs_k s) !! i = Some sb -> n <= zlen (rest_of sb) ->
  (note_sent (Some (stream_request sb)) n;; upd_buf i (advance n) : QM unit) s = Some (x, s') -> N s -> N s'.
Proof.
  intros Hi Hn. unfold note_sent, stream_request, upd_buf, updk, net, live, mbind, PS_bind, pupd, pwhen, pskip. destruct (0 <=? n) eqn:E.
  - cbn. destruct (qs_freed s); [done|]. intros [= <- <-] HN. apply traced_taken; [done|done|lia].
  - cbn. destruct (qs_freed s); [done|]. intros [= <- <-] HN. unfold N. cbn. assert (Ea : advance n = (fun sb => sb)).
    { unfold advance. by rewrite (proj2 (Z.ltb_ge 0 n)) by lia. }
    rewrite Ea. by rewrite list_alter_id.
Qed.
Lemma keepsN_set_blocked i v : keepsN (upd_buf i (set_blocked v) : QM unit).
Proof.
  apply (keepsN_blocked v). intros k. cbn. generalize (k_send_bufs k). intros l. revert i. induction l as [|b l IH]; intros [|i]; cbn; constructor; auto.
  apply Forall2_same_length_lookup_2; [done|]. intros j x y -> [= ->]. by left.
Qed.
Lemma keepsN_round ts : keepsN (egress_round fail_cb closed_cb ts).
Proof using Hng Hfail Hclosed.
  intros s r s'. unfold egress_round. unfold mbind at 1, PS_bind at 1.
  destruct (getk k_send_bufs s) as [[bufs s0]|] eqn:Eg; [|done].
  assert (Hg : bufs = k_send_bufs (qs_k s) /\ s0 = s).
  { revert Eg. unfold getk, live, pget, mbind, PS_bind. destruct (qs_freed s); [done|]. by intros [= <- <-]. }
  destruct Hg as [-> ->]. clear Eg. set (pick := quic_pick_pending _).
  unfold mbind at 1, PS_bind at 1. unfold qenv at 1. set (req := _ <$> pick). pose proof (law_writev work Hng (qs_w s) req ts) as Hl.
  destruct (ngtcp2_conn_writev_stream (qs_w s) req ts) as [[res n] w']. destruct Hl as (_ & _ & Hn). set (s1 := mkQSt _ _ _ _ _ _ _).
  set (tk := (note_sent req n;; match pick with Some (i, _) => upd_buf i (advance n) | None => pskip end) : QM unit).
  assert (Ht : forall x s2, tk s1 = Some (x, s2) -> N s -> N s2).
  { intros x s2. destruct pick as [[i sb]|] eqn:Ep; [|by intros [= <- <-]]. intros E2 HN.
    apply pick_pending_spec in Ep as [Hi _]. exact (keepsN_taken i sb n s1 x s2 Hi Hn E2 HN). }
  assert (Hgo : forall (m : QM Round), keepsN m -> forall r s', (tk;; m) s1 = Some (r, s') -> N s -> N s').
  { clearbody tk. intros m Hm r0 s0. unfold mbind, PS_bind. destruct (tk s1) as [[x s2]|] eqn:E; [|done]. intros E2 HN. eapply Hm; [exact E2|]. by eapply Ht. }
  destruct res as [pkt| | |rv]; [apply Hgo; keepN|apply Hgo; keepN|..]; intros E HN; (eapply keepsN_bind; [| |exact E|exact HN]).
  - destruct pick as [[i sb]|]; [apply keepsN_set_blocked|apply keepsN_ret].
  - intros ?. apply keepsN_ret.
  - apply keepsN_fail.
  - intros ?. apply keepsN_ret.
Qed.
Lemma keepsN_loop ts : keepsN (egress_loop fail_cb closed_cb ts).
Proof using Hng Hfail Hclosed.
  intros s d s'. unfold egress_loop.
  pose proof (loop_pow_inv (fun s => match egress_round fail_cb closed_cb ts s with
                                | Some (RoundAgain, s) => inl s
                                | Some (RoundDone, s) => inr (Some (true, s))
                                | Some (RoundFailed, s) => inr (Some (false, s))
                                | None => inr None
                                end) N (fun r => match r with Some (_, s1) => N s1 | None => True end)) as Hl.
  intros E HN. assert (Hr : forall s, N s -> match (match egress_round fail_cb closed_cb ts s with
      | Some (RoundAgain, s) => inl s | Some (RoundDone, s) => inr (Some (true, s)) | Some (RoundFailed, s) => inr (Some (false, s)) | None => inr None
      end : ST + option (bool * ST)) with inl s' => N s' | inr r => match r with Some (_, s1) => N s1 | None => True end end).
  { intros s1 HN1. destruct (egress_round fail_cb closed_cb ts s1) as [[r s2]|] eqn:Er; [|done].
    pose proof (keepsN_round ts s1 r s2 Er HN1). by destruct r. }
  specialize (Hl Hr 64%nat s HN). destruct (loop_pow 64 _ s) as [s1|[[d1 s1]|]]; [done| |done]. by injection E as <- <-.
Qed.
Lemma keepsN_flush : keepsN (quic_flush_egress fail_cb closed_cb).
Proof using Hng Hfail Hclosed.
  unfold quic_flush_egress, now_ns. apply keepsN_bind; [apply keepsN_getk|intros conn]. apply keepsN_bind; [apply keepsN_getk|intros st].
  destruct (_ || _); [apply keepsN_ret|]. apply keepsN_bind; [apply keepsN_qenv|intros ts].
  apply keepsN_bind. { apply (keepsN_blocked false). intros k. cbn. induction (k_send_bufs k); constructor; auto. }
  intros _. apply keepsN_bind; [apply keepsN_loop|]. intros []; keepN.
Qed.
Hint Resolve keepsN_flush : keepsN.
Lemma found_or_added sid s i s' : (quic_find_or_add_send_buf sid : QM _) s = Some (Some i, s') -> find_buf (k_send_bufs (qs_k s')) sid = Some i.
Proof.
  unfold quic_find_or_add_send_buf, getk, updk, live, mbind, PS_bind, pget, pupd. destruct (qs_freed s) eqn:Ef; [done|]. cbn [compose].
  destruct (find_buf _ sid) eqn:E; [by intros [= -> <-]|]. destruct (QUIC_SEND_BUFS <=? _)%nat; [done|]. rewrite Ef. intros [= <- <-].
  cbn. revert E. generalize (k_send_bufs (qs_k s)). intros l. induction l as [|b l IH]; cbn [find_buf app length].
  - intros _. cbn. by rewrite Z.eqb_refl.
  - destruct (sb_id b =? sid); [done|]. destruct (find_buf l sid); [done|]. intros _. by rewrite IH.
Qed.
Lemma keepsN_stream_send sid data fin : keepsN (quic_stream_send fail_cb closed_cb sid data fin).
Proof using Hng Hfail Hclosed.
  intros s x s'. unfold quic_stream_send. unfold mbind at 1, PS_bind at 1. destruct (quic_find_or_add_send_buf sid s) as [[i s1]|] eqn:Ei; [|done].
  intros E HN. pose proof (keepsN_find_or_add sid s i s1 Ei HN) as HN1. destruct i as [i|]; [|by injection E as <- <-].
  apply found_or_added in Ei. revert E. unfold upd_buf, updk, net, live. unfold mbind, PS_bind, pupd. cbn. destruct (qs_freed s1); [done|].
  intros E. eapply keepsN_flush; [exact E|]. by apply traced_queue.
Qed.
Lemma keepsN_open open : keepsN (quic_open_stream open : QM (option Z)).
Proof. unfold quic_open_stream, on_conn. keepN. Qed.
Hint Resolve keepsN_stream_send keepsN_open : keepsN.
Lemma keepsN_timer_cb : keepsN (quic_timer_cb fail_cb closed_cb).
Proof using Hng Hfail Hclosed. unfold quic_timer_cb, now_ns. keepN. Qed.

(** *** Opening *)
Section open.
Context (early_cb : QM unit) (Hearly : keepsN early_cb).
Lemma keepsN_init_ngtcp2 : keepsN (quic_init_ngtcp2 fail_cb closed_cb).
Proof using Hfail Hclosed. unfold quic_init_ngtcp2. keepN. Qed.
Hint Resolve keepsN_init_ngtcp2 : keepsN.
Lemma keepsN_open_handle hk : keepsN (open_handle hk : QM unit).
Proof. unfold open_handle. keepN. apply keepsN_updk. intros k. by destruct k, hk. Qed.
Hint Resolve keepsN_open_handle : keepsN.
Lemma keepsN_begin_udp : keepsN (quic_begin_udp fail_cb closed_cb early_cb).
Proof using Hng Hfail Hclosed Hearly. unfold quic_begin_udp. keepN. Qed.
Hint Resolve keepsN_begin_udp : keepsN.
Lemma keepsN_resolve r host port family : keepsN (resolve fail_cb closed_cb r host port family).
Proof using Hfail Hclosed. unfold resolve. keepN. Qed.
Lemma keepsN_cached : keepsN (cached_addr : QM _).
Proof. unfold cached_addr. keepN. Qed.
Lemma keepsN_cache addr : keepsN (cache_addr addr : QM unit).
Proof. unfold cache_addr. keepN. Qed.
Lemma keepsN_stamp : keepsN (stamp_resolved : QM unit).
Proof. unfold stamp_resolved, now_ns. keepN. Qed.
Lemma keepsN_udp_hdr addr : keepsN (quic_build_udp_hdr addr : QM bool).
Proof. unfold quic_build_udp_hdr. keepN. Qed.
Lemma keepsN_set_relay t a p : keepsN (quic_proxy_set_relay t a p : QM unit).
Proof. unfold quic_proxy_set_relay. keepN. Qed.
Lemma keepsN_ctrl_write data : keepsN (quic_ctrl_write fail_cb closed_cb data).
Proof using Hfail Hclosed. unfold quic_ctrl_write, uv_is_closing. keepN. Qed.
Hint Resolve keepsN_resolve keepsN_cached keepsN_cache keepsN_stamp keepsN_udp_hdr keepsN_set_relay keepsN_ctrl_write : keepsN.
Lemma keepsN_connect host port : keepsN (quic_conn_connect fail_cb closed_cb early_cb host port).
Proof using Hng Hfail Hclosed Hearly. unfold quic_conn_connect, quic_proxy_connect_ctrl, now_ns. keepN. Qed.
Lemma keepsN_on_resolved res : keepsN (quic_on_resolved fail_cb closed_cb early_cb res).
Proof using Hng Hfail Hclosed Hearly. unfold quic_on_resolved. keepN. Qed.
Lemma keepsN_on_proxy_resolved res : keepsN (quic_on_proxy_resolved fail_cb closed_cb res).
Proof using Hfail Hclosed. unfold quic_on_proxy_resolved. keepN. Qed.
Lemma keepsN_on_target_resolved res : keepsN (quic_on_target_resolved fail_cb closed_cb early_cb res).
Proof using Hng Hfail Hclosed Hearly. unfold quic_on_target_resolved, quic_proxy_finish. keepN. Qed.
Lemma keepsN_ctrl_connected status : keepsN (quic_on_ctrl_connected fail_cb closed_cb status).
Proof using Hfail Hclosed. unfold quic_on_ctrl_connected. keepN. Qed.
Lemma keepsN_ctrl_read ev : keepsN (quic_ctrl_read_cb fail_cb closed_cb early_cb ev).
Proof using Hng Hfail Hclosed Hearly.
  unfold quic_ctrl_read_cb, quic_proxy_advance, quic_proxy_send_associate, quic_proxy_send_userpass, quic_proxy_resolve_target, quic_proxy_finish. keepN.
Qed.
Lemma keepsN_recv ready_cb data_cb sclose_cb res addr : keepsN ready_cb -> (forall sid d fin, keepsN (data_cb sid d fin)) -> (forall sid, keepsN (sclose_cb sid)) ->
  keepsN (quic_recv_cb fail_cb closed_cb ready_cb data_cb sclose_cb res addr).
Proof using Hng Hfail Hclosed.
  intros Hr Hd Hs. assert (Hcb : forall cbs, keepsN (run_callbacks ready_cb data_cb sclose_cb cbs)).
  { intros cbs. induction cbs as [|cb cbs IH]; cbn [run_callbacks]; [apply keepsN_ret|]. apply keepsN_bind; [|intros _; exact IH].
    unfold run_callback, quic_handshake_completed_cb, quic_deliver_ready_ok, now_ns. keepN. }
  unfold quic_recv_cb, on_conn, now_ns. keepN.
Qed.
End open.
End connection.

(** ** The request *)
Section request.
Context `{BoringSSL} `{Qpack} {W : Type} `{Uv W} `{!QuicApi W} (work : W -> Z) (Hng : ng_laws work).
Context (copy_without_early_data : SSL_SESSION -> option SSL_SESSION).
Context (decode_content : bytes -> bytes -> option bytes).
Context (ip_literal : bytes -> option bytes).
Abbreviation ST := (QSt W QuicRequest).
Abbreviation QM := (PS ST).
Implicit Types (s : ST).
Section level.
Context (ofc : QM unit) (Hofc : keepsN ofc).
Abbreviation fail_cb := (quicreq_on_ready_fail ofc).
Abbreviation closed_cb := (quicreq_on_closed ofc).
Lemma keepsN_finish : keepsN (quicreq_finish ofc).
Proof using Hofc. unfold quicreq_finish. pose proof (keepsN_close ofc Hofc). keepN. Qed.
Hint Resolve keepsN_finish : keepsN.
Lemma keepsN_deliver_error e : keepsN (quicreq_deliver_error e : QM unit).
Proof. unfold quicreq_deliver_error. keepN. Qed.
Hint Resolve keepsN_deliver_error : keepsN.
Lemma keepsN_ready_fail e : keepsN (fail_cb e).
Proof using Hofc. unfold quicreq_on_ready_fail. keepN. Qed.
Lemma keepsN_on_closed e : keepsN (closed_cb e).
Proof using Hofc. unfold quicreq_on_closed. keepN. Qed.
Hint Resolve keepsN_ready_fail keepsN_on_closed : keepsN.
Lemma keepsN_on_response r : keepsN (quicreq_on_response decode_content ofc r).
Proof using Hofc. unfold quicreq_on_response. keepN. Qed.
Lemma keepsN_on_session f : keepsN (on_session decode_content ofc f).
Proof using Hofc.
  assert (Hd : forall rs, keepsN (deliver_all decode_content ofc rs)).
  { intros rs. induction rs as [|r rs IH]; cbn [deliver_all]; [apply keepsN_ret|]. apply keepsN_bind; [apply keepsN_on_response|by intros _]. }
  unfold on_session. keepN.
Qed.
#[local] Instance quic_streams' : QuicStreams (option ST) := quic_streams ofc.
Lemma keepsN_session sess p : keepsN (quicreq_submit ofc sess p).
Proof using Hofc Hng.
  intros s x s'. unfold quicreq_submit. intros E HN.
  pose (I := fun q : option ST => match q with Some s' => N s' | None => True end).
  assert (Ho : forall open q, I q -> I (snd (lift_open (quic_open_stream open) q))).
  { intros open [s1|]; [|done]. intros HN1. cbn. destruct (quic_open_stream open s1) as [[y s2]|] eqn:Eo; [|done]. by eapply (keepsN_open open). }
  assert (Hsend : forall q sid data fin, I q -> I (H3Session.quic_stream_send q sid data fin)).
  { intros [s1|] sid data fin; [|done]. intros HN1. cbn. destruct (quic_stream_send _ _ sid data fin s1) as [[y s2]|] eqn:Eo; [|done].
    eapply keepsN_stream_send; [exact Hng|apply keepsN_ready_fail|apply keepsN_on_closed|exact Eo|exact HN1]. }
  assert (Hr : I (snd (h3_session_request sess (Some s) (method_str (rp_method p)) (lit "https") (authority (rp_parsed p)) (path (rp_parsed p))
            (ga_list (rp_headers p)) (rp_body p)))).
  { apply h3_session_request_inv; [intros q Hq; by apply Ho..|exact Hsend|exact HN]. }
  destruct (h3_session_request _ _ _ _ _ _ _ _) as [[ok sess'] [s1|]]; [|done]. by injection E as <- <-.
Qed.
Lemma keepsN_send_request : keepsN (quicreq_send_request ofc).
Proof using Hofc Hng. unfold quicreq_send_request. pose proof keepsN_session. keepN. Qed.
Hint Resolve keepsN_send_request : keepsN.
Lemma keepsN_early_ready : keepsN (quicreq_on_early_ready ofc).
Proof using Hofc Hng. unfold quicreq_on_early_ready. keepN. Qed.
Lemma keepsN_ready_ok : keepsN (quicreq_on_ready_ok copy_without_early_data ofc).
Proof using Hofc Hng.
  unfold quicreq_on_ready_ok, quicreq_capture_tp, quic_conn_encode_0rtt_tp, quic_conn_early_rejected. pose proof (keepsN_close ofc Hofc). keepN.
Qed.
Lemma keepsN_quicreq_connect allow : keepsN (quicreq_connect ip_literal ofc allow).
Proof using Hofc Hng.
  unfold quicreq_connect, quic_set_dns_cache, quic_set_local_address, quic_set_proxy, quic_set_ech, quic_set_resume, quic_set_early_data, quic_on_early_ready.
  pose proof (fun h p => keepsN_connect work Hng fail_cb closed_cb keepsN_ready_fail keepsN_on_closed (quicreq_on_early_ready ofc) keepsN_early_ready h p). keepN.
Qed.
End level.
Lemma keepsN_fully_closed d : keepsN (quicreq_on_fully_closed ip_literal d : QM unit).
Proof using Hng.
  induction d as [|d IH]; cbn [quicreq_on_fully_closed]; [apply keepsN_bad|]. pose proof (keepsN_quicreq_connect _ IH). keepN.
Qed.
Lemma keepsN_handle ev : keepsN (quic_handle copy_without_early_data decode_content ip_literal ev : QM unit).
Proof using Hng.
  pose proof (keepsN_fully_closed CLOSE_DEPTH) as Hofc. pose proof (keepsN_ready_fail _ Hofc) as Hf. pose proof (keepsN_on_closed _ Hofc) as Hc.
  pose proof (keepsN_early_ready _ Hofc) as He. destruct ev as [res|status|rd|res addr| | |hk]; cbn [quic_handle].
  - apply keepsN_bind; [apply keepsN_geth|intros r]. apply keepsN_bind; [apply keepsN_updh|intros _].
    destruct r as [[]|]; [by eapply keepsN_on_resolved|by apply keepsN_on_proxy_resolved|by eapply keepsN_on_target_resolved|apply keepsN_ret].
  - apply keepsN_bind; [apply keepsN_updh|intros _]. by apply keepsN_ctrl_connected.
  - by eapply keepsN_ctrl_read.
  - eapply keepsN_recv; [exact Hng|done|done|by apply keepsN_ready_ok|intros; by apply keepsN_on_session|intros; by apply keepsN_on_session].
  - apply keepsN_bind; [apply keepsN_updh|intros _]. by eapply keepsN_timer_cb.
  - apply keepsN_bind; [apply keepsN_updo|intros _]. apply keepsN_bind; [apply keepsN_deliver_error|intros _]. by apply keepsN_finish.
  - apply keepsN_bind; [apply keepsN_updh|intros _]. by apply keepsN_handle_closed.
Qed.
Lemma keepsN_start qc m url headers body deadline proxy on_chunk header_order :
  keepsN (quicreq_start ip_literal qc m url headers body deadline proxy on_chunk header_order : QM unit).
Proof using Hng.
  unfold quicreq_start. pose proof (keepsN_quicreq_connect _ (keepsN_fully_closed CLOSE_DEPTH)). keepN.
Qed.

(** C10. What a request over QUIC sends on its streams, from its start and through
    any callbacks in any order, in any world that keeps ngtcp2's contract: each
    piece ngtcp2 takes of a stream continues the pieces before it and is within
    what was queued on that stream, byte for byte (over partial writes, blocked
    streams, several streams, a reconnect), and the end of the stream is given
    with a piece only when it was queued and that piece is the last. *)
Theorem quic_streams_exact qc m url headers body deadline proxy on_chunk header_order k w dns own s1 s :
  k_send_bufs k = [] ->
  quicreq_start ip_literal qc m url headers body deadline proxy on_chunk header_order (mkQSt k no_handles w dns own false []) = Some (tt, s1) ->
  rtc (quic_step copy_without_early_data decode_content ip_literal) s1 s ->
  sends_exact (qs_net s).
Proof using Hng.
  intros Hk Hs Hr. assert (HN : N s1).
  { apply (keepsN_start _ _ _ _ _ _ _ _ _ _ _ _ Hs). unfold N. cbn. rewrite Hk. split; [|constructor|by intros sb Hb%not_elem_of_nil|done].
    intros l1 sid d fin l2 E. by destruct l1. }
  clear Hs. induction Hr as [s|s s2 s3 [ev ? ? _ Hh] _ IH]; [apply HN|]. apply IH. by apply (keepsN_handle ev _ _ _ Hh).
Qed.
End request.

#[local] Existing Instance demo_ssl.
#[local] Existing Instance toy_qpack.
#[local] Existing Instance demo_ng_uv.
#[local] Existing Instance demo_ng_quic.
Lemma demo_quic_steps : rtc (quic_step Some (fun _ b => Some b) (fun _ => None)) demo_quic_begun demo_quic_end.
Proof.
  eapply rtc_subrel; [|exact demo_quic_run]. intros s s' (ev & He & _ & Hh). by econstructor.
Qed.
Lemma quic_streams_exact_witness :
  sends_exact (qs_net demo_quic_end) /\ In (NetSent 6 [2] false) (qs_net demo_quic_end).
Proof.
  split; [|vm_compute; tauto].
  pose proof (fun s1 => quic_streams_exact demo_work demo_ng_laws Some (fun _ b => Some b) (fun _ => None) demo_quic_client
    Method_GET (lit "https://a.b/") [] [] false (mkProxy ProxyType_None [] 0 [] []) false [] (quic_zero None tt demo_h3_profile)
    (mkDemoNg 100 2) (dns_cache_init 8) demo_quic_own s1 demo_quic_end eq_refl) as Hw.
  apply demo_quic_starts in Hw. exact (Hw demo_quic_steps).
Defined.
