(* ===== verification/WsConn.v ===== *)
(** * The WebSocket client: ws/ws.c

    A WebSocket over a connection of [net/connection.c]: the HTTP/1.1 upgrade
    (or the Extended CONNECT stream of HTTP/2), the negotiation of
    permessage-deflate, the frames in both directions through [WsFrame], and the
    queue from which [ws_conn_recv] takes messages. Operations are computations
    over the state of the connection with [WsConn] as its owner. The blocking
    calls take the turns of the event loop they run as an argument.

    zlib, SHA-1, the random numbers and the nghttp2 session are interfaces. *)
From S2P Require Import Prelude Profile String8 Base64 U8Buf WsFrame GrowArr Header Url DnsCache Proxy H1 Decompress.
From S2P Require Export Connection TcpRequest.

Definition WS_GUID : bytes := lit "258EAFA5-E914-47DA-95CA-C5AB0DC85B11".

Class WsApi (W : Type) := {
  RAND_bytes : W -> nat -> bytes * W;
  SHA1 : bytes -> bytes;
  z_deflate : Type;
  deflateInit2 : Z -> option z_deflate;       (* the window bits *)
  deflate : z_deflate -> bytes -> nat -> Z * nat * bytes * z_deflate;
  deflateReset : z_deflate -> z_deflate;
  z_inflate : Type;
  inflateInit2 : Z -> option z_inflate;
  inflate : z_inflate -> bytes -> nat -> Z * nat * bytes * z_inflate
}.

(** The HTTP/2 session. What it hands out while it reads: the response to the
    CONNECT, data of its stream ([[]] at its end); a flush gives the bytes for
    the connection. *)
Inductive WsOut := WsOutConnect (status : Z) (extensions : bytes) | WsOutData (data : bytes).
Class H2WsApi := {
  H2W : Type;
  h2w_alloc : option H2W;
  h2w_start : H2W -> bool * H2W * list bytes;
  h2w_mem_recv : H2W -> bytes -> Z * H2W * list WsOut;
  h2w_flush : H2W -> H2W * list bytes;
  h2w_connect_protocol_enabled : H2W -> bool;
  h2w_connect : H2W -> bytes -> bytes -> list Header -> Z * H2W * list bytes;
  h2w_send : H2W -> Z -> bytes -> bool * H2W;
  h2w_finish : H2W -> Z -> H2W
}.

Inductive WsTransport := WsTransport_None | WsTransport_H1 | WsTransport_H2.
#[export] Instance WsTransport_eq_dec : EqDecision WsTransport.
Proof. solve_decision. Defined.
#[export] Instance WsEventKind_eq_dec : EqDecision WsEventKind.
Proof. solve_decision. Defined.

(** A received message, or the peer's Close. *)
Record WsMsg := mkWsMsg { m_op : Z; m_close_code : Z; m_is_close : bool; m_data : bytes }.

(** The parts of the client a WebSocket uses. *)
Record WsClient `{BoringSSL} := mkWsClient {
  wc_ctx : option SSL_CTX;
  wc_tls : TlsProfile;
  wc_ws_h1_tls : TlsProfile;        (* with the http/1.1-only ALPN and no ALPS *)
  wc_default_headers : list DefaultHeader;
  wc_http_version : HttpVersion;
  wc_timeout_ms : Z
}.

Section ws_state.
Context `{BoringSSL} {W : Type} `{WsApi W} `{H2WsApi}.

Record WsConn := mkWs {
  w_conn_inited : bool;
  w_transport : WsTransport;
  w_parser : WsParser;
  w_h2 : option H2W;
  w_h2_stream : Z;
  w_h2_submitted : bool;
  w_in_h2_recv : bool;
  w_authority : bytes;
  w_path : bytes;
  w_origin : bytes;
  w_port : Z;
  w_accept_expected : bytes;
  w_hs_in : U8Buf;
  w_hs_extra : list Header;
  w_established : bool;
  w_in (* in_head .. in_tail *) : list WsMsg;
  w_cur_msg : option WsMsg;
  w_pmd : bool;
  w_client_no_context_takeover : bool;
  w_client_max_window_bits : Z;
  w_deflate_zs : option z_deflate;
  w_inflate_zs : option z_inflate;
  w_connect_timer (* armed *) : bool;
  w_got_peer_close : bool;
  w_close_timed_out : bool;
  w_recv_timed_out : bool;
  w_closed : bool;
  w_fully_closed : bool;
  w_fail : bool;
  w_err : option bytes;
  w_spins (* a call that did not return *) : bool
}.
Definition set_w_conn_inited (v : bool) (w : WsConn) : WsConn :=
  mkWs v (w_transport w) (w_parser w) (w_h2 w) (w_h2_stream w) (w_h2_submitted w) (w_in_h2_recv w) (w_authority
    w) (w_path w) (w_origin w) (w_port w) (w_accept_expected w) (w_hs_in w) (w_hs_extra w) (w_established w)
    (w_in w) (w_cur_msg w) (w_pmd w) (w_client_no_context_takeover w) (w_client_max_window_bits w) (w_deflate_zs
    w) (w_inflate_zs w) (w_connect_timer w) (w_got_peer_close w) (w_close_timed_out w) (w_recv_timed_out w)
    (w_closed w) (w_fully_closed w) (w_fail w) (w_err w) (w_spins w).
Definition set_w_transport (v : WsTransport) (w : WsConn) : WsConn :=
  mkWs (w_conn_inited w) v (w_parser w) (w_h2 w) (w_h2_stream w) (w_h2_submitted w) (w_in_h2_recv w)
    (w_authority w) (w_path w) (w_origin w) (w_port w) (w_accept_expected w) (w_hs_in w) (w_hs_extra w)
    (w_established w) (w_in w) (w_cur_msg w) (w_pmd w) (w_client_no_context_takeover w)
    (w_client_max_window_bits w) (w_deflate_zs w) (w_inflate_zs w) (w_connect_timer w) (w_got_peer_close w)
    (w_close_timed_out w) (w_recv_timed_out w) (w_closed w) (w_fully_closed w) (w_fail w) (w_err w) (w_spins w).
Definition set_w_parser (v : WsParser) (w : WsConn) : WsConn :=
  mkWs (w_conn_inited w) (w_transport w) v (w_h2 w) (w_h2_stream w) (w_h2_submitted w) (w_in_h2_recv w)
    (w_authority w) (w_path w) (w_origin w) (w_port w) (w_accept_expected w) (w_hs_in w) (w_hs_extra w)
    (w_established w) (w_in w) (w_cur_msg w) (w_pmd w) (w_client_no_context_takeover w)
    (w_client_max_window_bits w) (w_deflate_zs w) (w_inflate_zs w) (w_connect_timer w) (w_got_peer_close w)
    (w_close_timed_out w) (w_recv_timed_out w) (w_closed w) (w_fully_closed w) (w_fail w) (w_err w) (w_spins w).
Definition set_w_h2 (v : option H2W) (w : WsConn) : WsConn :=
  mkWs (w_conn_inited w) (w_transport w) (w_parser w) v (w_h2_stream w) (w_h2_submitted w) (w_in_h2_recv w)
    (w_authority w) (w_path w) (w_origin w) (w_port w) (w_accept_expected w) (w_hs_in w) (w_hs_extra w)
    (w_established w) (w_in w) (w_cur_msg w) (w_pmd w) (w_client_no_context_takeover w)
    (w_client_max_window_bits w) (w_deflate_zs w) (w_inflate_zs w) (w_connect_timer w) (w_got_peer_close w)
    (w_close_timed_out w) (w_recv_timed_out w) (w_closed w) (w_fully_closed w) (w_fail w) (w_err w) (w_spins w).
Definition set_w_h2_stream (v : Z) (w : WsConn) : WsConn :=
  mkWs (w_conn_inited w) (w_transport w) (w_parser w) (w_h2 w) v (w_h2_submitted w) (w_in_h2_recv w)
    (w_authority w) (w_path w) (w_origin w) (w_port w) (w_accept_expected w) (w_hs_in w) (w_hs_extra w)
    (w_established w) (w_in w) (w_cur_msg w) (w_pmd w) (w_client_no_context_takeover w)
    (w_client_max_window_bits w) (w_deflate_zs w) (w_inflate_zs w) (w_connect_timer w) (w_got_peer_close w)
    (w_close_timed_out w) (w_recv_timed_out w) (w_closed w) (w_fully_closed w) (w_fail w) (w_err w) (w_spins w).
Definition set_w_h2_submitted (v : bool) (w : WsConn) : WsConn :=
  mkWs (w_conn_inited w) (w_transport w) (w_parser w) (w_h2 w) (w_h2_stream w) v (w_in_h2_recv w) (w_authority
    w) (w_path w) (w_origin w) (w_port w) (w_accept_expected w) (w_hs_in w) (w_hs_extra w) (w_established w)
    (w_in w) (w_cur_msg w) (w_pmd w) (w_client_no_context_takeover w) (w_client_max_window_bits w) (w_deflate_zs
    w) (w_inflate_zs w) (w_connect_timer w) (w_got_peer_close w) (w_close_timed_out w) (w_recv_timed_out w)
    (w_closed w) (w_fully_closed w) (w_fail w) (w_err w) (w_spins w).
Definition set_w_in_h2_recv (v : bool) (w : WsConn) : WsConn :=
  mkWs (w_conn_inited w) (w_transport w) (w_parser w) (w_h2 w) (w_h2_stream w) (w_h2_submitted w) v (w_authority
    w) (w_path w) (w_origin w) (w_port w) (w_accept_expected w) (w_hs_in w) (w_hs_extra w) (w_established w)
    (w_in w) (w_cur_msg w) (w_pmd w) (w_client_no_context_takeover w) (w_client_max_window_bits w) (w_deflate_zs
    w) (w_inflate_zs w) (w_connect_timer w) (w_got_peer_close w) (w_close_timed_out w) (w_recv_timed_out w)
    (w_closed w) (w_fully_closed w) (w_fail w) (w_err w) (w_spins w).
Definition set_w_authority (v : bytes) (w : WsConn) : WsConn :=
  mkWs (w_conn_inited w) (w_transport w) (w_parser w) (w_h2 w) (w_h2_stream w) (w_h2_submitted w) (w_in_h2_recv
    w) v (w_path w) (w_origin w) (w_port w) (w_accept_expected w) (w_hs_in w) (w_hs_extra w) (w_established w)
    (w_in w) (w_cur_msg w) (w_pmd w) (w_client_no_context_takeover w) (w_client_max_window_bits w) (w_deflate_zs
    w) (w_inflate_zs w) (w_connect_timer w) (w_got_peer_close w) (w_close_timed_out w) (w_recv_timed_out w)
    (w_closed w) (w_fully_closed w) (w_fail w) (w_err w) (w_spins w).
Definition set_w_path (v : bytes) (w : WsConn) : WsConn :=
  mkWs (w_conn_inited w) (w_transport w) (w_parser w) (w_h2 w) (w_h2_stream w) (w_h2_submitted w) (w_in_h2_recv
    w) (w_authority w) v (w_origin w) (w_port w) (w_accept_expected w) (w_hs_in w) (w_hs_extra w) (w_established
    w) (w_in w) (w_cur_msg w) (w_pmd w) (w_client_no_context_takeover w) (w_client_max_window_bits w)
    (w_deflate_zs w) (w_inflate_zs w) (w_connect_timer w) (w_got_peer_close w) (w_close_timed_out w)
    (w_recv_timed_out w) (w_closed w) (w_fully_closed w) (w_fail w) (w_err w) (w_spins w).
Definition set_w_origin (v : bytes) (w : WsConn) : WsConn :=
  mkWs (w_conn_inited w) (w_transport w) (w_parser w) (w_h2 w) (w_h2_stream w) (w_h2_submitted w) (w_in_h2_recv
    w) (w_authority w) (w_path w) v (w_port w) (w_accept_expected w) (w_hs_in w) (w_hs_extra w) (w_established
    w) (w_in w) (w_cur_msg w) (w_pmd w) (w_client_no_context_takeover w) (w_client_max_window_bits w)
    (w_deflate_zs w) (w_inflate_zs w) (w_connect_timer w) (w_got_peer_close w) (w_close_timed_out w)
    (w_recv_timed_out w) (w_closed w) (w_fully_closed w) (w_fail w) (w_err w) (w_spins w).
Definition set_w_port (v : Z) (w : WsConn) : WsConn :=
  mkWs (w_conn_inited w) (w_transport w) (w_parser w) (w_h2 w) (w_h2_stream w) (w_h2_submitted w) (w_in_h2_recv
    w) (w_authority w) (w_path w) (w_origin w) v (w_accept_expected w) (w_hs_in w) (w_hs_extra w) (w_established
    w) (w_in w) (w_cur_msg w) (w_pmd w) (w_client_no_context_takeover w) (w_client_max_window_bits w)
    (w_deflate_zs w) (w_inflate_zs w) (w_connect_timer w) (w_got_peer_close w) (w_close_timed_out w)
    (w_recv_timed_out w) (w_closed w) (w_fully_closed w) (w_fail w) (w_err w) (w_spins w).
Definition set_w_accept_expected (v : bytes) (w : WsConn) : WsConn :=
  mkWs (w_conn_inited w) (w_transport w) (w_parser w) (w_h2 w) (w_h2_stream w) (w_h2_submitted w) (w_in_h2_recv
    w) (w_authority w) (w_path w) (w_origin w) (w_port w) v (w_hs_in w) (w_hs_extra w) (w_established w) (w_in
    w) (w_cur_msg w) (w_pmd w) (w_client_no_context_takeover w) (w_client_max_window_bits w) (w_deflate_zs w)
    (w_inflate_zs w) (w_connect_timer w) (w_got_peer_close w) (w_close_timed_out w) (w_recv_timed_out w)
    (w_closed w) (w_fully_closed w) (w_fail w) (w_err w) (w_spins w).
Definition set_w_hs_in (v : U8Buf) (w : WsConn) : WsConn :=
  mkWs (w_conn_inited w) (w_transport w) (w_parser w) (w_h2 w) (w_h2_stream w) (w_h2_submitted w) (w_in_h2_recv
    w) (w_authority w) (w_path w) (w_origin w) (w_port w) (w_accept_expected w) v (w_hs_extra w) (w_established
    w) (w_in w) (w_cur_msg w) (w_pmd w) (w_client_no_context_takeover w) (w_client_max_window_bits w)
    (w_deflate_zs w) (w_inflate_zs w) (w_connect_timer w) (w_got_peer_close w) (w_close_timed_out w)
    (w_recv_timed_out w) (w_closed w) (w_fully_closed w) (w_fail w) (w_err w) (w_spins w).
Definition set_w_hs_extra (v : list Header) (w : WsConn) : WsConn :=
  mkWs (w_conn_inited w) (w_transport w) (w_parser w) (w_h2 w) (w_h2_stream w) (w_h2_submitted w) (w_in_h2_recv
    w) (w_authority w) (w_path w) (w_origin w) (w_port w) (w_accept_expected w) (w_hs_in w) v (w_established w)
    (w_in w) (w_cur_msg w) (w_pmd w) (w_client_no_context_takeover w) (w_client_max_window_bits w) (w_deflate_zs
    w) (w_inflate_zs w) (w_connect_timer w) (w_got_peer_close w) (w_close_timed_out w) (w_recv_timed_out w)
    (w_closed w) (w_fully_closed w) (w_fail w) (w_err w) (w_spins w).
Definition set_w_established (v : bool) (w : WsConn) : WsConn :=
  mkWs (w_conn_inited w) (w_transport w) (w_parser w) (w_h2 w) (w_h2_stream w) (w_h2_submitted w) (w_in_h2_recv
    w) (w_authority w) (w_path w) (w_origin w) (w_port w) (w_accept_expected w) (w_hs_in w) (w_hs_extra w) v
    (w_in w) (w_cur_msg w) (w_pmd w) (w_client_no_context_takeover w) (w_client_max_window_bits w) (w_deflate_zs
    w) (w_inflate_zs w) (w_connect_timer w) (w_got_peer_close w) (w_close_timed_out w) (w_recv_timed_out w)
    (w_closed w) (w_fully_closed w) (w_fail w) (w_err w) (w_spins w).
Definition set_w_in (v : list WsMsg) (w : WsConn) : WsConn :=
  mkWs (w_conn_inited w) (w_transport w) (w_parser w) (w_h2 w) (w_h2_stream w) (w_h2_submitted w) (w_in_h2_recv
    w) (w_authority w) (w_path w) (w_origin w) (w_port w) (w_accept_expected w) (w_hs_in w) (w_hs_extra w)
    (w_established w) v (w_cur_msg w) (w_pmd w) (w_client_no_context_takeover w) (w_client_max_window_bits w)
    (w_deflate_zs w) (w_inflate_zs w) (w_connect_timer w) (w_got_peer_close w) (w_close_timed_out w)
    (w_recv_timed_out w) (w_closed w) (w_fully_closed w) (w_fail w) (w_err w) (w_spins w).
Definition set_w_cur_msg (v : option WsMsg) (w : WsConn) : WsConn :=
  mkWs (w_conn_inited w) (w_transport w) (w_parser w) (w_h2 w) (w_h2_stream w) (w_h2_submitted w) (w_in_h2_recv
    w) (w_authority w) (w_path w) (w_origin w) (w_port w) (w_accept_expected w) (w_hs_in w) (w_hs_extra w)
    (w_established w) (w_in w) v (w_pmd w) (w_client_no_context_takeover w) (w_client_max_window_bits w)
    (w_deflate_zs w) (w_inflate_zs w) (w_connect_timer w) (w_got_peer_close w) (w_close_timed_out w)
    (w_recv_timed_out w) (w_closed w) (w_fully_closed w) (w_fail w) (w_err w) (w_spins w).
Definition set_w_pmd (v : bool) (w : WsConn) : WsConn :=
  mkWs (w_conn_inited w) (w_transport w) (w_parser w) (w_h2 w) (w_h2_stream w) (w_h2_submitted w) (w_in_h2_recv
    w) (w_authority w) (w_path w) (w_origin w) (w_port w) (w_accept_expected w) (w_hs_in w) (w_hs_extra w)
    (w_established w) (w_in w) (w_cur_msg w) v (w_client_no_context_takeover w) (w_client_max_window_bits w)
    (w_deflate_zs w) (w_inflate_zs w) (w_connect_timer w) (w_got_peer_close w) (w_close_timed_out w)
    (w_recv_timed_out w) (w_closed w) (w_fully_closed w) (w_fail w) (w_err w) (w_spins w).
Definition set_w_client_no_context_takeover (v : bool) (w : WsConn) : WsConn :=
  mkWs (w_conn_inited w) (w_transport w) (w_parser w) (w_h2 w) (w_h2_stream w) (w_h2_submitted w) (w_in_h2_recv
    w) (w_authority w) (w_path w) (w_origin w) (w_port w) (w_accept_expected w) (w_hs_in w) (w_hs_extra w)
    (w_established w) (w_in w) (w_cur_msg w) (w_pmd w) v (w_client_max_window_bits w) (w_deflate_zs w)
    (w_inflate_zs w) (w_connect_timer w) (w_got_peer_close w) (w_close_timed_out w) (w_recv_timed_out w)
    (w_closed w) (w_fully_closed w) (w_fail w) (w_err w) (w_spins w).
Definition set_w_client_max_window_bits (v : Z) (w : WsConn) : WsConn :=
  mkWs (w_conn_inited w) (w_transport w) (w_parser w) (w_h2 w) (w_h2_stream w) (w_h2_submitted w) (w_in_h2_recv
    w) (w_authority w) (w_path w) (w_origin w) (w_port w) (w_accept_expected w) (w_hs_in w) (w_hs_extra w)
    (w_established w) (w_in w) (w_cur_msg w) (w_pmd w) (w_client_no_context_takeover w) v (w_deflate_zs w)
    (w_inflate_zs w) (w_connect_timer w) (w_got_peer_close w) (w_close_timed_out w) (w_recv_timed_out w)
    (w_closed w) (w_fully_closed w) (w_fail w) (w_err w) (w_spins w).
Definition set_w_deflate_zs (v : option z_deflate) (w : WsConn) : WsConn :=
  mkWs (w_conn_inited w) (w_transport w) (w_parser w) (w_h2 w) (w_h2_stream w) (w_h2_submitted w) (w_in_h2_recv
    w) (w_authority w) (w_path w) (w_origin w) (w_port w) (w_accept_expected w) (w_hs_in w) (w_hs_extra w)
    (w_established w) (w_in w) (w_cur_msg w) (w_pmd w) (w_client_no_context_takeover w)
    (w_client_max_window_bits w) v (w_inflate_zs w) (w_connect_timer w) (w_got_peer_close w) (w_close_timed_out
    w) (w_recv_timed_out w) (w_closed w) (w_fully_closed w) (w_fail w) (w_err w) (w_spins w).
Definition set_w_inflate_zs (v : option z_inflate) (w : WsConn) : WsConn :=
  mkWs (w_conn_inited w) (w_transport w) (w_parser w) (w_h2 w) (w_h2_stream w) (w_h2_submitted w) (w_in_h2_recv
    w) (w_authority w) (w_path w) (w_origin w) (w_port w) (w_accept_expected w) (w_hs_in w) (w_hs_extra w)
    (w_established w) (w_in w) (w_cur_msg w) (w_pmd w) (w_client_no_context_takeover w)
    (w_client_max_window_bits w) (w_deflate_zs w) v (w_connect_timer w) (w_got_peer_close w) (w_close_timed_out
    w) (w_recv_timed_out w) (w_closed w) (w_fully_closed w) (w_fail w) (w_err w) (w_spins w).
Definition set_w_connect_timer (v : bool) (w : WsConn) : WsConn :=
  mkWs (w_conn_inited w) (w_transport w) (w_parser w) (w_h2 w) (w_h2_stream w) (w_h2_submitted w) (w_in_h2_recv
    w) (w_authority w) (w_path w) (w_origin w) (w_port w) (w_accept_expected w) (w_hs_in w) (w_hs_extra w)
    (w_established w) (w_in w) (w_cur_msg w) (w_pmd w) (w_client_no_context_takeover w)
    (w_client_max_window_bits w) (w_deflate_zs w) (w_inflate_zs w) v (w_got_peer_close w) (w_close_timed_out w)
    (w_recv_timed_out w) (w_closed w) (w_fully_closed w) (w_fail w) (w_err w) (w_spins w).
Definition set_w_got_peer_close (v : bool) (w : WsConn) : WsConn :=
  mkWs (w_conn_inited w) (w_transport w) (w_parser w) (w_h2 w) (w_h2_stream w) (w_h2_submitted w) (w_in_h2_recv
    w) (w_authority w) (w_path w) (w_origin w) (w_port w) (w_accept_expected w) (w_hs_in w) (w_hs_extra w)
    (w_established w) (w_in w) (w_cur_msg w) (w_pmd w) (w_client_no_context_takeover w)
    (w_client_max_window_bits w) (w_deflate_zs w) (w_inflate_zs w) (w_connect_timer w) v (w_close_timed_out w)
    (w_recv_timed_out w) (w_closed w) (w_fully_closed w) (w_fail w) (w_err w) (w_spins w).
Definition set_w_close_timed_out (v : bool) (w : WsConn) : WsConn :=
  mkWs (w_conn_inited w) (w_transport w) (w_parser w) (w_h2 w) (w_h2_stream w) (w_h2_submitted w) (w_in_h2_recv
    w) (w_authority w) (w_path w) (w_origin w) (w_port w) (w_accept_expected w) (w_hs_in w) (w_hs_extra w)
    (w_established w) (w_in w) (w_cur_msg w) (w_pmd w) (w_client_no_context_takeover w)
    (w_client_max_window_bits w) (w_deflate_zs w) (w_inflate_zs w) (w_connect_timer w) (w_got_peer_close w) v
    (w_recv_timed_out w) (w_closed w) (w_fully_closed w) (w_fail w) (w_err w) (w_spins w).
Definition set_w_recv_timed_out (v : bool) (w : WsConn) : WsConn :=
  mkWs (w_conn_inited w) (w_transport w) (w_parser w) (w_h2 w) (w_h2_stream w) (w_h2_submitted w) (w_in_h2_recv
    w) (w_authority w) (w_path w) (w_origin w) (w_port w) (w_accept_expected w) (w_hs_in w) (w_hs_extra w)
    (w_established w) (w_in w) (w_cur_msg w) (w_pmd w) (w_client_no_context_takeover w)
    (w_client_max_window_bits w) (w_deflate_zs w) (w_inflate_zs w) (w_connect_timer w) (w_got_peer_close w)
    (w_close_timed_out w) v (w_closed w) (w_fully_closed w) (w_fail w) (w_err w) (w_spins w).
Definition set_w_closed (v : bool) (w : WsConn) : WsConn :=
  mkWs (w_conn_inited w) (w_transport w) (w_parser w) (w_h2 w) (w_h2_stream w) (w_h2_submitted w) (w_in_h2_recv
    w) (w_authority w) (w_path w) (w_origin w) (w_port w) (w_accept_expected w) (w_hs_in w) (w_hs_extra w)
    (w_established w) (w_in w) (w_cur_msg w) (w_pmd w) (w_client_no_context_takeover w)
    (w_client_max_window_bits w) (w_deflate_zs w) (w_inflate_zs w) (w_connect_timer w) (w_got_peer_close w)
    (w_close_timed_out w) (w_recv_timed_out w) v (w_fully_closed w) (w_fail w) (w_err w) (w_spins w).
Definition set_w_fully_closed (v : bool) (w : WsConn) : WsConn :=
  mkWs (w_conn_inited w) (w_transport w) (w_parser w) (w_h2 w) (w_h2_stream w) (w_h2_submitted w) (w_in_h2_recv
    w) (w_authority w) (w_path w) (w_origin w) (w_port w) (w_accept_expected w) (w_hs_in w) (w_hs_extra w)
    (w_established w) (w_in w) (w_cur_msg w) (w_pmd w) (w_client_no_context_takeover w)
    (w_client_max_window_bits w) (w_deflate_zs w) (w_inflate_zs w) (w_connect_timer w) (w_got_peer_close w)
    (w_close_timed_out w) (w_recv_timed_out w) (w_closed w) v (w_fail w) (w_err w) (w_spins w).
Definition set_w_fail (v : bool) (w : WsConn) : WsConn :=
  mkWs (w_conn_inited w) (w_transport w) (w_parser w) (w_h2 w) (w_h2_stream w) (w_h2_submitted w) (w_in_h2_recv
    w) (w_authority w) (w_path w) (w_origin w) (w_port w) (w_accept_expected w) (w_hs_in w) (w_hs_extra w)
    (w_established w) (w_in w) (w_cur_msg w) (w_pmd w) (w_client_no_context_takeover w)
    (w_client_max_window_bits w) (w_deflate_zs w) (w_inflate_zs w) (w_connect_timer w) (w_got_peer_close w)
    (w_close_timed_out w) (w_recv_timed_out w) (w_closed w) (w_fully_closed w) v (w_err w) (w_spins w).
Definition set_w_err (v : option bytes) (w : WsConn) : WsConn :=
  mkWs (w_conn_inited w) (w_transport w) (w_parser w) (w_h2 w) (w_h2_stream w) (w_h2_submitted w) (w_in_h2_recv
    w) (w_authority w) (w_path w) (w_origin w) (w_port w) (w_accept_expected w) (w_hs_in w) (w_hs_extra w)
    (w_established w) (w_in w) (w_cur_msg w) (w_pmd w) (w_client_no_context_takeover w)
    (w_client_max_window_bits w) (w_deflate_zs w) (w_inflate_zs w) (w_connect_timer w) (w_got_peer_close w)
    (w_close_timed_out w) (w_recv_timed_out w) (w_closed w) (w_fully_closed w) (w_fail w) v (w_spins w).
Definition set_w_spins (v : bool) (w : WsConn) : WsConn :=
  mkWs (w_conn_inited w) (w_transport w) (w_parser w) (w_h2 w) (w_h2_stream w) (w_h2_submitted w) (w_in_h2_recv
    w) (w_authority w) (w_path w) (w_origin w) (w_port w) (w_accept_expected w) (w_hs_in w) (w_hs_extra w)
    (w_established w) (w_in w) (w_cur_msg w) (w_pmd w) (w_client_no_context_takeover w)
    (w_client_max_window_bits w) (w_deflate_zs w) (w_inflate_zs w) (w_connect_timer w) (w_got_peer_close w)
    (w_close_timed_out w) (w_recv_timed_out w) (w_closed w) (w_fully_closed w) (w_fail w) (w_err w) v.
End ws_state.

Section ws.
Context `{BoringSSL} `{PhrApi} {W : Type} `{Uv W} `{WsApi W} `{H2WsApi}.
Context (realloc_ok : Z -> bool).
Abbreviation M := (M W WsConn).

Definition getw {A} (f : WsConn -> A) : M A := get (f ∘ st_own).
Definition ws_fail_with (e : bytes) : M unit := upd_own (set_w_fail true ∘ set_w_err (Some e)).

(** ** permessage-deflate *)

(** The item of the list whose name is exactly permessage-deflate. *)
Fixpoint find_pmd (fuel : nat) (rest : bytes) : bytes :=
  match fuel with
  | O => []
  | S fuel =>
      if (length rest =? 0)%nat then []
      else
        let '(item, rest) := str8_chop_by_delim rest ch_comma in
        let name := match str8_index_of item ch_semi with Some semi => str8_prefix item semi | None => item end in
        if str8_match (str8_trim name) (lit "permessage-deflate") then item else find_pmd fuel rest
  end.
(** [n = n * 10 + digit] over the leading digits. *)
Fixpoint window_digits (n : Z) (s : bytes) : Z :=
  match s with
  | c :: s => if (48 <=? c) && (c <=? 57) then window_digits (to_int (to_int (n * 10) + (c - 48))) s else n
  | [] => n
  end.
Definition window_bits (pmd : bytes) : Z :=
  let i := str8_find pmd (lit "client_max_window_bits") in
  if 0 <=? i then
    let j := (Z.to_nat i + 22)%nat in
    if (j <? length pmd)%nat && (nth j pmd 0 =? ch_eq) then
      let n := window_digits 0 (drop (S j) pmd) in
      if (8 <=? n) && (n <=? 15) then n else 15
    else 15
  else 15.
Definition ws_pmd_negotiate (ext : bytes) : M unit :=
  if (length ext =? 0)%nat then skip
  else
    let pmd := find_pmd (S (length ext)) ext in
    if (length pmd =? 0)%nat then skip
    else
      upd_own (set_w_pmd true);;
      when (0 <=? str8_find pmd (lit "client_no_context_takeover")) (upd_own (set_w_client_no_context_takeover true));;
      upd_own (set_w_client_max_window_bits (window_bits pmd));;
      upd_own (fun w => set_w_parser (ws_parser_allow_compression (w_parser w)) w).

(** One round of the loops: [inl] to go on. *)
Definition deflate_round (st : z_deflate * bytes * U8Buf) : z_deflate * bytes * U8Buf + bool * z_deflate * U8Buf :=
  let '(zs, inp, out) := st in
  let '(rv, consumed, produced, zs) := deflate zs inp DECODE_BUF in
  if negb (rv =? Z_OK) && negb (rv =? Z_BUF_ERROR) then inr (false, zs, out)
  else
    let out := u8buf_append out produced in
    if (length produced =? DECODE_BUF)%nat then inl (zs, drop consumed inp, out) else inr (true, zs, out).
(** [None] is a call that does not return. *)
Definition ws_deflate_message (w : WsConn) (data : bytes) (out : U8Buf) : option (bool * WsConn * U8Buf) :=
  let init := match w_deflate_zs w with Some zs => Some zs | None => deflateInit2 (- w_client_max_window_bits w) end in
  match init with
  | None => Some (false, w, out)
  | Some zs =>
      match loop_pow 64 deflate_round (zs, take (Z.to_nat (wrap32 (zlen data))) data, out) with
      | inl _ => None
      | inr (false, zs, out) => Some (false, set_w_deflate_zs (Some zs) w, out)
      | inr (true, zs, out) =>
          let out := if 4 <=? u8_len out then mkU8Buf (take (length (u8_v out) - 4) (u8_v out)) (u8_cap out) else out in
          let out := if u8_len out =? 0 then u8buf_push out 0 else out in
          let zs := if w_client_no_context_takeover w then deflateReset zs else zs in
          Some (true, set_w_deflate_zs (Some zs) w, out)
      end
  end.

Definition WS_INFLATE_MAX : Z := Z.shiftl 64 20.
Definition ws_inflate_round (st : z_inflate * bytes * U8Buf) : z_inflate * bytes * U8Buf + bool * z_inflate * U8Buf :=
  let '(zs, inp, out) := st in
  let '(rv, consumed, produced, zs) := inflate zs inp DECODE_BUF in
  if negb (rv =? Z_OK) && negb (rv =? Z_STREAM_END) && negb (rv =? Z_BUF_ERROR) then inr (false, zs, out)
  else
    let out := u8buf_append out produced in
    if WS_INFLATE_MAX <? u8_len out then inr (false, zs, out)
    else if rv =? Z_BUF_ERROR then inr (true, zs, out)
    else
      let inp := drop consumed inp in
      if (0 <? length inp)%nat || (length produced =? DECODE_BUF)%nat then inl (zs, inp, out) else inr (true, zs, out).
Fixpoint inflate_chunks (chunks : list bytes) (zs : z_inflate) (out : U8Buf) : option (bool * z_inflate * U8Buf) :=
  match chunks with
  | [] => Some (true, zs, out)
  | c :: chunks =>
      match loop_pow 64 ws_inflate_round (zs, take (Z.to_nat (wrap32 (zlen c))) c, out) with
      | inl _ => None
      | inr (false, zs, out) => Some (false, zs, out)
      | inr (true, zs, out) => inflate_chunks chunks zs out
      end
  end.
Definition ws_inflate_message (w : WsConn) (data : bytes) (out : U8Buf) : option (bool * WsConn * U8Buf) :=
  let init := match w_inflate_zs w with Some zs => Some zs | None => inflateInit2 (-15) end in
  match init with
  | None => Some (false, w, out)
  | Some zs =>
      match inflate_chunks [data; [0; 0; 255; 255]] zs out with
      | None => None
      | Some (ok, zs, out) => Some (ok, set_w_inflate_zs (Some zs) w, out)
      end
  end.

(** A call on the own state that may not return. *)
Definition run_message (f : WsConn -> option (bool * WsConn * U8Buf)) : M (bool * bytes) :=
  fun s => match f (st_own s) with
           | None => let s' := snd (upd_own (set_w_spins true) s) in ((false, []), s')
           | Some (ok, w, out) => ((ok, u8_v out), snd (upd_own (fun _ => w) s))
           end.

(** ** Sending *)
Section send.
Context (on_ready_fail : bytes -> M unit).

Fixpoint ws_h2_send (outs : list bytes) : M unit :=
  match outs with
  | [] => skip
  | data :: outs => sent ← conn_send_plaintext on_ready_fail data; ws_h2_send outs
  end.
(** [h2_session_flush] of the WebSocket's session. *)
Definition ws_h2_flush : M unit :=
  h2 ← getw w_h2;
  match h2 with
  | None => skip
  | Some h => let '(h, outs) := h2w_flush h in upd_own (set_w_h2 (Some h));; ws_h2_send outs
  end.

Definition ws_conn_send (op : Z) (data : bytes) : M bool :=
  fail ← getw w_fail;
  closed ← getw w_closed;
  established ← getw w_established;
  if fail || closed || negb established then mret false
  else
    mask ← env (fun w => RAND_bytes w 4);
    pmd ← getw w_pmd;
    let compress := pmd && ((op =? WsOp_Text) || (op =? WsOp_Binary)) in
    r ← (if compress then
           r ← run_message (fun w => ws_deflate_message w data (u8buf_init (if (0 <? length data)%nat then zlen data else 16)));
           mret (Some r)
         else mret None);
    match r with
    | Some (false, _) => ws_fail_with (lit "permessage-deflate deflate failed");; mret false
    | _ =>
        let '(rsv1, data) := match r with Some (_, c) => (true, c) | None => (false, data) end in
        let f := u8_v (ws_frame_build (u8buf_init (wrap64 (zlen data + 16))) op true rsv1 data mask) in
        transport ← getw w_transport;
        if bool_decide (transport = WsTransport_H2) then
          h2 ← getw w_h2;
          stream ← getw w_h2_stream;
          in_recv ← getw w_in_h2_recv;
          match h2 with
          | None => mret false
          | Some h =>
              let '(ok, h) := h2w_send h stream f in
              upd_own (set_w_h2 (Some h));;
              when (ok && negb in_recv) ws_h2_flush;;
              mret ok
          end
        else conn_send_plaintext on_ready_fail f
    end.

(** ** Receiving *)
Definition sizeof_WsMsg : Z := 32.
Definition ws_enqueue (ev : WsEvent) (payload : bytes) : M unit :=
  ok ← env (fun w => malloc w (wrap64 (sizeof_WsMsg + zlen payload)));
  if negb ok then ws_fail_with (lit "out of memory")
  else
    let is_close := bool_decide (ev_kind ev = WsEvent_Close) in
    when is_close (upd_own (set_w_got_peer_close true));;
    upd_own (fun w => set_w_in (w_in w ++ [mkWsMsg (ev_op ev) (ev_close_code ev) is_close payload]) w).

Definition ws_on_event (ev : WsEvent) : M unit :=
  match ev_kind ev with
  | WsEvent_Ping => sent ← ws_conn_send WsOp_Pong (ev_data ev); skip
  | WsEvent_Pong => skip
  | _ =>
      if bool_decide (ev_kind ev = WsEvent_Message) && ev_compressed ev then
        r ← run_message (fun w => ws_inflate_message w (ev_data ev)
               (u8buf_init (if (0 <? length (ev_data ev))%nat then wrap64 (zlen (ev_data ev) * 4) else 64)));
        if negb (fst r) then ws_fail_with (lit "permessage-deflate inflate failed")
        else ws_enqueue ev (snd r)
      else ws_enqueue ev (ev_data ev)
  end.
Fixpoint ws_on_events (evs : list WsEvent) : M unit :=
  match evs with
  | [] => skip
  | ev :: evs => ws_on_event ev;; ws_on_events evs
  end.

(** [ws_parser_feed] with [ws_on_event]: [false] for its -1. *)
Definition ws_feed (data : bytes) : M bool :=
  p ← getw w_parser;
  match ws_parser_feed realloc_ok p data with
  | FeedOk p evs => upd_own (set_w_parser p);; ws_on_events evs;; mret true
  | FeedErr p evs => upd_own (set_w_parser p);; ws_on_events evs;; mret false
  | OutOfFuel => mret false
  end.

(** ** The HTTP/1.1 upgrade *)
Fixpoint put_extra (headers : list Header) : bytes :=
  match headers with
  | [] => []
  | h :: headers => h_name h ++ lit ": " ++ h_value h ++ crlf ++ put_extra headers
  end.
Definition ws_handshake_bytes (p : list DefaultHeader) (w : WsConn) (key : bytes) (headers : list Header) : bytes :=
  lit "GET " ++ w_path w ++ lit " HTTP/1.1" ++ crlf ++ lit "Host: " ++ w_authority w ++ crlf ++
  lit "Connection: Upgrade" ++ crlf ++ lit "Pragma: no-cache" ++ crlf ++ lit "Cache-Control: no-cache" ++ crlf ++
  lit "User-Agent: " ++ profile_user_agent p ++ crlf ++ lit "Upgrade: websocket" ++ crlf ++
  lit "Origin: " ++ w_origin w ++ crlf ++ lit "Sec-WebSocket-Version: 13" ++ crlf ++
  lit "Accept-Encoding: " ++ profile_accept_encoding p ++ crlf ++
  lit "Accept-Language: " ++ profile_accept_language p ++ crlf ++
  lit "Sec-WebSocket-Key: " ++ key ++ crlf ++
  lit "Sec-WebSocket-Extensions: permessage-deflate; client_max_window_bits" ++ crlf ++
  put_extra headers ++ crlf.
Definition ws_accept_of (key : bytes) : bytes := base64_encode (SHA1 (key ++ WS_GUID)).
Definition ws_h1_send_handshake (p : list DefaultHeader) (headers : list Header) : M unit :=
  keyb ← env (fun w => RAND_bytes w 16);
  let key := base64_encode keyb in
  upd_own (set_w_accept_expected (ws_accept_of key));;
  w ← getw id;
  sent ← conn_send_plaintext on_ready_fail (ws_handshake_bytes p w key headers);
  skip.

(** The last value of each of the two headers. *)
Fixpoint accept_and_ext (hdrs : list (bytes * bytes)) (acc : bytes * bytes) : bytes * bytes :=
  match hdrs with
  | [] => acc
  | (n, v) :: hdrs =>
      accept_and_ext hdrs
        (if str8_match_ci n (lit "sec-websocket-accept") then (v, snd acc)
         else if str8_match_ci n (lit "sec-websocket-extensions") then (fst acc, v) else acc)
  end.
Definition ws_h1_try_handshake : M unit :=
  hs ← getw (u8_v ∘ w_hs_in);
  match phr_parse hs 32 0 with
  | phr_partial => skip
  | phr_error => ws_fail_with (lit "malformed upgrade response")
  | phr_done rc _ status hdrs =>
      if negb (status =? 101) then ws_fail_with (lit "upgrade rejected (not 101)")
      else
        let '(accept, ext) := accept_and_ext hdrs ([], []) in
        expected ← getw w_accept_expected;
        if negb (str8_match accept expected) then ws_fail_with (lit "bad Sec-WebSocket-Accept")
        else
          ws_pmd_negotiate ext;;
          upd_own (set_w_established true);;
          if (rc <? length hs)%nat then fed ← ws_feed (drop rc hs); skip else skip
  end.

(** The bytes of one read: [true] to go on. *)
Definition ws_h1_bytes (data : bytes) : M bool :=
  established ← getw w_established;
  if negb established then
    upd_own (fun w => set_w_hs_in (u8buf_append (w_hs_in w) data) w);;
    ws_h1_try_handshake;;
    mret true
  else
    ok ← ws_feed data;
    if negb ok then ws_fail_with (lit "ws protocol error");; mret false else mret true.
Definition ws_h1_round : M bool :=
  r ← on_pump (fun p => ssl_pump_read_plaintext p (Z.to_nat 16384));
  match r with
  | inl data => if (0 <? length data)%nat then ws_h1_bytes data else mret false
  | inr _ => mret false
  end.
Definition ws_h1_drain : M unit := while ws_h1_round.

(** ** The CONNECT stream of HTTP/2 *)
Definition ws_h2_on_connect (status : Z) (extensions : bytes) : M unit :=
  if status =? 200 then ws_pmd_negotiate extensions;; upd_own (set_w_established true)
  else ws_fail_with (lit "h2 websocket rejected (status != 200)").
Definition ws_h2_on_data (data : bytes) : M unit :=
  if (length data =? 0)%nat then upd_own (set_w_closed true)
  else
    ok ← ws_feed data;
    when (negb ok) (ws_fail_with (lit "ws protocol error")).
Fixpoint ws_h2_outs (outs : list WsOut) : M unit :=
  match outs with
  | [] => skip
  | WsOutConnect status ext :: outs => ws_h2_on_connect status ext;; ws_h2_outs outs
  | WsOutData data :: outs => ws_h2_on_data data;; ws_h2_outs outs
  end.
Definition ws_h2_submit (p : list DefaultHeader) : M unit :=
  upd_own (set_w_h2_submitted true);;
  w ← getw id;
  let hs := [mkHeader (lit "sec-websocket-version") (lit "13") 0; mkHeader (lit "user-agent") (profile_user_agent p) 0;
             mkHeader (lit "sec-websocket-extensions") (lit "permessage-deflate; client_max_window_bits") 0] ++ w_hs_extra w in
  match w_h2 w with
  | None => skip
  | Some h =>
      let '(stream, h, outs) := h2w_connect h (w_authority w) (w_path w) hs in
      upd_own (set_w_h2_stream stream ∘ set_w_h2 (Some h));;
      ws_h2_send outs;;
      when (stream <? 0) (ws_fail_with (lit "h2 websocket CONNECT submit failed"))
  end.
(** [h2_session_recv]: read, then flush. *)
Definition ws_h2_round : M bool :=
  r ← on_pump (fun p => ssl_pump_read_plaintext p (Z.to_nat 16384));
  h2 ← getw w_h2;
  match r, h2 with
  | inl data, Some h =>
      if (0 <? length data)%nat then
        let '(rc, h, outs) := h2w_mem_recv h data in
        upd_own (set_w_h2 (Some h));;
        ws_h2_outs outs;;
        if rc <? 0 then ws_fail_with (lit "h2 protocol error");; mret false
        else ws_h2_flush;; mret true
      else mret false
  | _, _ => mret false
  end.
Definition ws_h2_drain (p : list DefaultHeader) : M unit :=
  upd_own (set_w_in_h2_recv true);;
  while ws_h2_round;;
  upd_own (set_w_in_h2_recv false);;
  fail ← getw w_fail;
  submitted ← getw w_h2_submitted;
  h2 ← getw w_h2;
  when (negb fail && negb submitted && match h2 with Some h => h2w_connect_protocol_enabled h | None => false end)
    (ws_h2_submit p).
End send.

(** ** The life of the connection *)
Definition ws_on_ready_fail (err : bytes) : M unit := ws_fail_with err.
Definition ws_on_ready_ok (p : list DefaultHeader) : M unit :=
  alpn ← conn_alpn;
  if str8_match alpn (lit "h2") then
    upd_own (set_w_transport WsTransport_H2);;
    match h2w_alloc with
    | None => upd_own (set_w_h2 None);; ws_fail_with (lit "h2 session init failed")
    | Some h =>
        upd_conn (set_c_on_readable true);;
        let '(ok, h, outs) := h2w_start h in
        upd_own (set_w_h2 (Some h));;
        ws_h2_send ws_on_ready_fail outs;;
        when (negb ok) (ws_fail_with (lit "h2 session start failed"))
    end
  else
    upd_own (set_w_transport WsTransport_H1);;
    upd_conn (set_c_on_readable true);;
    extra ← getw w_hs_extra;
    ws_h1_send_handshake ws_on_ready_fail p extra.
Definition ws_on_readable (p : list DefaultHeader) : M unit :=
  transport ← getw w_transport;
  match transport with
  | WsTransport_H2 => ws_h2_drain ws_on_ready_fail p
  | WsTransport_H1 => ws_h1_drain ws_on_ready_fail
  | WsTransport_None => skip         (* the callback is not set *)
  end.
Definition ws_on_closed (e : option bytes) : M unit :=
  err ← getw w_err;
  (match err, e with None, Some e => upd_own (set_w_err (Some e)) | _, _ => skip end);;
  upd_own (set_w_closed true).
Definition ws_on_fully_closed : M unit := upd_own (set_w_fully_closed true).
Definition ws_on_connect_timeout : M unit :=
  established ← getw w_established;
  when (negb established) (ws_fail_with (lit "timeout")).
Definition ws_on_close_timeout : M unit := upd_own (set_w_close_timed_out true).
Definition ws_on_recv_timeout : M unit := upd_own (set_w_recv_timed_out true).

(** ** The calls of the user *)
Definition ws_conn_alloc : WsConn :=
  mkWs false WsTransport_None (ws_parser_init 0) None 0 false false [] [] [] 0 [] (u8buf_init 1024) [] false [] None
    false false 0 None None false false false false false false false None false.

(** What a turn of the event loop can bring. *)
Inductive ws_event :=
| WsEvResolved (res : Z + bytes)
| WsEvConnected (status : Z)
| WsEvRead (ev : read_event)
| WsEvHandleClosed
| WsEvConnectTimeout
| WsEvRecvTimeout
| WsEvCloseTimeout.
Definition ws_handle (p : list DefaultHeader) (ev : ws_event) : M unit :=
  match ev with
  | WsEvResolved res => conn_on_resolved ws_on_ready_fail res
  | WsEvConnected status => conn_on_connected ws_on_ready_fail (ws_on_ready_ok p) skip status
  | WsEvRead ev => conn_read_cb ws_on_ready_fail (ws_on_ready_ok p) skip (ws_on_readable p) ws_on_closed ev
  | WsEvHandleClosed => conn_on_handle_closed ws_on_fully_closed
  | WsEvConnectTimeout => ws_on_connect_timeout
  | WsEvRecvTimeout => ws_on_recv_timeout
  | WsEvCloseTimeout => ws_on_close_timeout
  end.
Fixpoint loop_run (p : list DefaultHeader) (evs : list ws_event) : M unit :=
  match evs with
  | [] => skip
  | ev :: evs => ws_handle p ev;; loop_run p evs
  end.
(** [while (!cond) loop_run]: [false] when the turns end before. *)
Fixpoint ws_wait (p : list DefaultHeader) (cond : WsConn -> bool) (turns : list (list ws_event)) : M bool :=
  done ← getw cond;
  if done : bool then mret true
  else match turns with
       | [] => mret false
       | evs :: turns => loop_run p evs;; ws_wait p cond turns
       end.

Definition ws_url (url : bytes) : bytes :=
  if str8_starts_with url (lit "wss://") then lit "https://" ++ str8_skip url 6
  else if str8_starts_with url (lit "ws://") then lit "http://" ++ str8_skip url 5
  else url.
(** [None] while the call is still waiting. *)
Definition ws_conn_connect (c : WsClient) (url : bytes) (headers : list Header) (turns : list (list ws_event)) :
  M (option bool) :=
  let pu := url_parse (ws_url url) in
  if negb (ok pu) || negb (https pu) then ws_fail_with (lit "invalid wss:// url");; mret (Some false)
  else
    let p := wc_default_headers c in
    upd_own (set_w_authority (authority pu) ∘ set_w_path (path pu) ∘ set_w_port (port pu) ∘
             set_w_origin (lit "https://" ++ authority pu) ∘
             set_w_hs_extra ((fun h => mkHeader (h_name h) (h_value h) 0) <$> headers));;
    conn_init (wc_ctx c) (if bool_decide (wc_http_version c = HttpVersion_H2) then wc_tls c else wc_ws_h1_tls c);;
    upd_own (set_w_conn_inited true);;
    upd_conn (set_c_on_closed true ∘ set_c_on_fully_closed true);;
    conn_set_dns_cache;;
    upd_own (set_w_connect_timer (negb (wc_timeout_ms c =? 0)));;
    conn_connect ws_on_ready_fail (str8_cstring (host pu ++ [0])) (port pu);;
    fin ← ws_wait p (fun w => w_established w || w_fail w || w_closed w) turns;
    if negb fin then mret None
    else
      upd_own (set_w_connect_timer false);;
      established ← getw w_established;
      err ← getw w_err;
      (match err with
       | None => when (negb established) (upd_own (set_w_err (Some (lit "websocket connect failed"))))
       | Some _ => skip
       end);;
      mret (Some established).

Definition recv_event (m : WsMsg) : WsEvent :=
  if m_is_close m then mkEvent WsEvent_Close (m_op m) (m_data m) (m_close_code m) false
  else mkEvent WsEvent_Message (m_op m) (m_data m) 0 false.
(** The result and the event, [None] while the call is still waiting. *)
Fixpoint recv_loop (p : list DefaultHeader) (turns : list (list ws_event)) : M (option (Z * option WsEvent)) :=
  w ← getw id;
  match w_in w with
  | m :: rest =>
      upd_own (set_w_in rest ∘ set_w_cur_msg (Some m));;
      mret (Some (if m_is_close m then 0 else 1, Some (recv_event m)))
  | [] =>
      if w_fail w || w_closed w then mret (Some (-1, None))
      else if w_recv_timed_out w then mret (Some (-2, None))
      else match turns with
           | [] => mret None
           | evs :: turns => loop_run p evs;; recv_loop p turns
           end
  end.
Definition ws_conn_recv (p : list DefaultHeader) (turns : list (list ws_event)) : M (option (Z * option WsEvent)) :=
  upd_own (set_w_cur_msg None ∘ set_w_recv_timed_out false);;
  recv_loop p turns.

Definition close_payload (code : Z) (reason : bytes) : bytes :=
  [wrap8 (Z.shiftr code 8); wrap8 code] ++ (if (length reason <? 123)%nat then reason else take 123 reason).
(** [false] while the call is still waiting. *)
Definition ws_conn_close (p : list DefaultHeader) (code : Z) (reason : bytes) (turns : list (list ws_event)) : M bool :=
  w ← getw id;
  fin ← (if w_established w && negb (w_closed w) && negb (w_fail w) then
           sent ← ws_conn_send ws_on_ready_fail WsOp_Close (close_payload code reason);
           upd_own (set_w_close_timed_out false);;
           fin ← ws_wait p (fun w => w_got_peer_close w || w_closed w || w_fail w || w_close_timed_out w) turns;
           transport ← getw w_transport;
           h2 ← getw w_h2;
           stream ← getw w_h2_stream;
           (match h2 with
            | Some h =>
                when (fin && bool_decide (transport = WsTransport_H2))
                  (upd_own (set_w_h2 (Some (h2w_finish h stream)));; ws_h2_flush ws_on_ready_fail)
            | None => skip
            end);;
           mret fin
         else mret true);
  if negb fin then mret false
  else
    inited ← getw w_conn_inited;
    when inited conn_close;;
    upd_own (set_w_closed true);;
    mret true.

(** The turns end when the loop has nothing left to wait for. *)
Definition ws_conn_free (p : list DefaultHeader) (turns : list (list ws_event)) : M bool :=
  inited ← getw w_conn_inited;
  if inited : bool then
    conn_close;;
    upd_own (set_w_fully_closed false);;
    fin ← ws_wait p w_fully_closed turns;
    conn_cleanup;;
    mret fin
  else mret true.
End ws.

(** ** What the handlers leave alone *)
Section ws_keeps.
Context `{BoringSSL} `{PhrApi} {W : Type} `{Uv W} `{WsApi W} `{H2WsApi}.
Context (realloc_ok : Z -> bool).
Implicit Types (w : WsConn) (s : St W WsConn).

(** A part of the state that sending does not touch, after [on_ready]. *)
Section frozen.
Context {X : Type} (part : WsConn -> X) (x : X).
Definition frozen s : Prop := part (st_own s) = x /\ c_ready_fired (st_conn s) = true.
Lemma frozen_view s s' : view s = view s' -> frozen s -> frozen s'.
Proof. unfold view, frozen. intros [= -> _ -> _]. done. Qed.
Lemma frozen_own (f : WsConn -> WsConn) : (forall w, part (f w) = part w) -> keeps frozen (upd_own f).
Proof. intros Hf s [Hp Hr]. split; [|done]. cbn. by rewrite Hf. Qed.
Lemma frozen_getw {A} (f : WsConn -> A) : keeps frozen (getw f).
Proof. apply keeps_get. Qed.
Lemma frozen_deliver_fail (cb : bytes -> M W WsConn unit) e : keeps frozen (conn_deliver_fail cb e).
Proof. intros s [Hp Hr]. unfold conn_deliver_fail. run_state. by rewrite Hr. Qed.
Hint Resolve frozen_view frozen_getw frozen_deliver_fail : keeps.

Context (Hfail : forall e w, part (set_w_fail true (set_w_err (Some e) w)) = part w).
Context (Hh2 : forall h w, part (set_w_h2 h w) = part w) (Hspin : forall w, part (set_w_spins true w) = part w).
Context (Hdefl : forall z w, part (set_w_deflate_zs z w) = part w).

Lemma ws_fail_with_frozen e : keeps frozen (ws_fail_with e).
Proof. apply frozen_own. intros w. apply Hfail. Qed.
Lemma set_h2_frozen h : keeps frozen (upd_own (set_w_h2 h)).
Proof. apply frozen_own. intros w. apply Hh2. Qed.
Hint Resolve ws_fail_with_frozen set_h2_frozen : keeps.
Lemma run_message_frozen g :
  (forall w, match g w with Some (_, w', _) => part w' = part w | None => True end) -> keeps frozen (run_message g).
Proof.
  intros Hg s [Hp Hr]. unfold run_message. specialize (Hg (st_own s)).
  destruct (g (st_own s)) as [[[ok w'] out]|]; (split; [|done]); cbn; [by rewrite Hg|by rewrite Hspin].
Qed.
Lemma deflate_part w data out :
  match ws_deflate_message w data out with Some (_, w', _) => part w' = part w | None => True end.
Proof.
  unfold ws_deflate_message. destruct (match w_deflate_zs w with Some zs => _ | None => _ end); [|done].
  destruct (loop_pow _ _ _) as [|[[[] ?] ?]]; [done|by rewrite Hdefl..].
Qed.
Lemma ws_h2_send_frozen cb outs : keeps frozen (ws_h2_send cb outs).
Proof. induction outs as [|o outs IH]; cbn [ws_h2_send]; keep. Qed.
Hint Resolve ws_h2_send_frozen : keeps.
Lemma ws_h2_flush_frozen cb : keeps frozen (ws_h2_flush cb).
Proof. unfold ws_h2_flush. keep. Qed.
Hint Resolve ws_h2_flush_frozen : keeps.
Lemma ws_conn_send_frozen cb op data : keeps frozen (ws_conn_send cb op data).
Proof.
  unfold ws_conn_send. keep; apply run_message_frozen; intros; apply deflate_part.
Qed.
Hint Resolve ws_conn_send_frozen : keeps.

(** Nor receiving. *)
Context (Hin : forall l w, part (set_w_in l w) = part w) (Hpeer : forall w, part (set_w_got_peer_close true w) = part w).
Context (Hinfl : forall z w, part (set_w_inflate_zs z w) = part w) (Hparser : forall p w, part (set_w_parser p w) = part w).
Lemma inflate_part w data out :
  match ws_inflate_message w data out with Some (_, w', _) => part w' = part w | None => True end.
Proof.
  unfold ws_inflate_message. destruct (match w_inflate_zs w with Some zs => _ | None => _ end); [|done].
  destruct (inflate_chunks _ _ _) as [[[? ?] ?]|]; [by rewrite Hinfl|done].
Qed.
Lemma ws_on_events_frozen cb evs : keeps frozen (ws_on_events cb evs).
Proof.
  induction evs as [|ev evs IH]; cbn [ws_on_events]; [keep|]. unfold ws_on_event, ws_enqueue.
  keep; first [apply run_message_frozen; intros; apply inflate_part|by apply frozen_own].
Qed.
Hint Resolve ws_on_events_frozen : keeps.
Lemma ws_feed_frozen cb data : keeps frozen (ws_feed realloc_ok cb data).
Proof. unfold ws_feed. keep; by apply frozen_own. Qed.

Context (Hpmd : forall b w, part (set_w_pmd b w) = part w).
Context (Htake : forall b w, part (set_w_client_no_context_takeover b w) = part w).
Context (Hbits : forall n w, part (set_w_client_max_window_bits n w) = part w).
Lemma ws_pmd_negotiate_frozen ext : keeps frozen (ws_pmd_negotiate ext).
Proof. unfold ws_pmd_negotiate. keep; by apply frozen_own. Qed.
End frozen.

(** ** The upgrade *)

(** What decides whether the connection is open. *)
Definition hs_part w : bool * WsTransport * bytes * bytes :=
  (w_established w, w_transport w, u8_v (w_hs_in w), w_accept_expected w).
(** The response accumulated in [hs_in] accepts the key that was sent. *)
Definition accepts (hs accept : bytes) : Prop :=
  exists rc minor hdrs, phr_parse hs 32 0 = phr_done rc minor 101 hdrs /\ fst (accept_and_ext hdrs ([], [])) = accept.
Definition of_key (accept : bytes) : Prop := exists u : W, accept = ws_accept_of (base64_encode (fst (RAND_bytes u 16))).
Definition open_ok (x : bool * WsTransport * bytes * bytes) : Prop :=
  let '(established, transport, hs, accept) := x in
  transport <> WsTransport_None /\
  (transport = WsTransport_H1 -> of_key accept /\ (established = true -> accepts hs accept)).
(** After [on_ready], and before. *)
Definition open_inv s : Prop := open_ok (hs_part (st_own s)) /\ c_ready_fired (st_conn s) = true.
Definition ws_ok s : Prop :=
  (w_transport (st_own s) = WsTransport_None /\ w_established (st_own s) = false) \/ open_inv s.

Lemma open_inv_frozen s : open_inv s -> frozen hs_part (hs_part (st_own s)) s.
Proof. by intros [_ Hr]. Qed.
Lemma frozen_open {A} (m : M W WsConn A) : (forall x, keeps (frozen hs_part x) m) -> keeps open_inv m.
Proof. intros Hm s Ho. destruct (Hm _ _ (open_inv_frozen s Ho)) as [Hp Hr]. destruct Ho. split; [by rewrite Hp|done]. Qed.
Lemma open_inv_view s s' : view s = view s' -> open_inv s -> open_inv s'.
Proof. unfold view, open_inv. intros [= -> _ -> _]. done. Qed.
Lemma ws_ok_view s s' : view s = view s' -> ws_ok s -> ws_ok s'.
Proof. unfold view, ws_ok, open_inv. intros [= -> _ -> _]. done. Qed.
Lemma open_inv_own (f : WsConn -> WsConn) : (forall w, hs_part (f w) = hs_part w) -> keeps open_inv (upd_own f).
Proof. intros Hf. apply frozen_open. intros x. by apply frozen_own. Qed.
Lemma open_inv_getw {A} (f : WsConn -> A) : keeps open_inv (getw f).
Proof. apply keeps_get. Qed.
Lemma open_inv_deliver_fail (cb : bytes -> M W WsConn unit) e : keeps open_inv (conn_deliver_fail cb e).
Proof. apply frozen_open. intros. apply frozen_deliver_fail. Qed.
Lemma open_inv_message g :
  (forall w, match g w with Some (_, w', _) => hs_part w' = hs_part w | None => True end) -> keeps open_inv (run_message g).
Proof. intros Hg. apply frozen_open. intros. by apply run_message_frozen. Qed.
Lemma open_inv_fail e : keeps open_inv (ws_fail_with e).
Proof. by apply open_inv_own. Qed.
Lemma open_inv_send cb op data : keeps open_inv (ws_conn_send cb op data).
Proof. apply frozen_open. intros. by apply ws_conn_send_frozen. Qed.
Lemma open_inv_h2_send cb outs : keeps open_inv (ws_h2_send cb outs).
Proof. apply frozen_open. intros. apply ws_h2_send_frozen. Qed.
Lemma open_inv_h2_flush cb : keeps open_inv (ws_h2_flush cb).
Proof. apply frozen_open. intros. by apply ws_h2_flush_frozen. Qed.
Hint Resolve open_inv_view ws_ok_view open_inv_getw open_inv_deliver_fail open_inv_fail open_inv_send open_inv_h2_send
  open_inv_h2_flush : keeps.
Hint Extern 1 (keeps open_inv (upd_own _)) => apply open_inv_own; intros; reflexivity : keeps.

Lemma open_inv_feed cb data : keeps open_inv (ws_feed realloc_ok cb data).
Proof. apply frozen_open. intros. by apply ws_feed_frozen. Qed.
Lemma negotiate_part ext x : keeps (frozen hs_part x) (ws_pmd_negotiate ext).
Proof. by apply ws_pmd_negotiate_frozen. Qed.
Lemma open_inv_negotiate ext : keeps open_inv (ws_pmd_negotiate ext).
Proof. apply frozen_open. intros. apply negotiate_part. Qed.
Hint Resolve open_inv_feed open_inv_negotiate : keeps.

(** Opening is the only thing that needs an argument. *)
Lemma set_established_open s :
  open_inv s -> (w_transport (st_own s) = WsTransport_H1 -> accepts (u8_v (w_hs_in (st_own s))) (w_accept_expected (st_own s))) ->
  open_inv (snd (upd_own (set_w_established true) s)).
Proof. intros [[Ht Hk] Hr] Ha. split; [|done]. cbn in *. split; [done|]. intros H1'. split; [by apply Hk|]. intros _. by apply Ha. Qed.
Lemma bind_getw {A B} (f : WsConn -> A) (k : A -> M W WsConn B) s : (getw f ≫= k) s = k (f (st_own s)) s.
Proof. done. Qed.
Lemma bind_run {A B} (m : M W WsConn A) (k : A -> M W WsConn B) s : (m ≫= k) s = k (fst (m s)) (snd (m s)).
Proof. unfold mbind, M_bind. by destruct (m s). Qed.
Lemma try_handshake_open cb : keeps open_inv (ws_h1_try_handshake realloc_ok cb).
Proof.
  intros s Ho. unfold ws_h1_try_handshake. rewrite bind_getw. unfold compose.
  destruct (phr_parse (u8_v (w_hs_in (st_own s))) 32 0) as [| |rc minor status hdrs] eqn:Hp;
    [done|by apply open_inv_fail|].
  destruct (status =? 101) eqn:H101; cbn [negb]; [|by apply open_inv_fail]. apply Z.eqb_eq in H101 as ->.
  destruct (accept_and_ext hdrs ([], [])) as [accept ext] eqn:Hae. rewrite bind_getw.
  destruct (str8_match accept (w_accept_expected (st_own s))) eqn:Hm; cbn [negb]; [|by apply open_inv_fail].
  apply str8_match_eq in Hm.
  pose proof (open_inv_negotiate ext s Ho) as Ho'. pose proof (negotiate_part ext _ s (open_inv_frozen s Ho)) as [Hpart _].
  rewrite !bind_run. destruct (ws_pmd_negotiate ext s) as [[] s1]. cbn [fst snd] in *.
  assert (Ho2 : open_inv (snd (upd_own (set_w_established true) s1))).
  { apply set_established_open; [done|]. intros _. injection Hpart as _ _ Hhs Hacc. rewrite Hhs, Hacc.
    exists rc, minor, hdrs. by rewrite Hae. }
  assert (Hk : keeps open_inv (if (rc <? length (u8_v (w_hs_in (st_own s))))%nat
    then fed ← ws_feed realloc_ok cb (drop rc (u8_v (w_hs_in (st_own s)))); skip else skip)) by keep.
  by apply Hk.
Qed.
Lemma h1_bytes_open cb data : keeps open_inv (ws_h1_bytes realloc_ok cb data).
Proof.
  intros s Ho. unfold ws_h1_bytes. rewrite bind_getw. destruct (w_established (st_own s)) eqn:He; cbn [negb].
  - assert (Hk : keeps open_inv (ok ← ws_feed realloc_ok cb data;
      if negb ok then ws_fail_with (lit "ws protocol error");; mret false else mret true)) by keep.
    by apply Hk.
  - rewrite !bind_run. apply try_handshake_open. destruct Ho as [[Ht Hk] Hr]. split; [|done]. cbn. rewrite He.
    split; [done|]. intros H1'. split; [by apply Hk|done].
Qed.
Hint Resolve try_handshake_open h1_bytes_open : keeps.
Lemma h1_drain_open cb : keeps open_inv (ws_h1_drain realloc_ok cb).
Proof. unfold ws_h1_drain, ws_h1_round. keep. Qed.
Hint Resolve h1_drain_open : keeps.

(** On HTTP/2 there is nothing to accept. *)
Abbreviation h2_inv := (frozen w_transport WsTransport_H2).
Hint Extern 1 (keeps (frozen _ _) (upd_own _)) => apply frozen_own; intros; reflexivity : keeps.
Hint Resolve frozen_view frozen_getw frozen_deliver_fail : keeps.
Lemma h2_inv_fail e : keeps h2_inv (ws_fail_with e).
Proof. by apply ws_fail_with_frozen. Qed.
Lemma h2_inv_send cb outs : keeps h2_inv (ws_h2_send cb outs).
Proof. apply ws_h2_send_frozen. Qed.
Lemma h2_inv_flush cb : keeps h2_inv (ws_h2_flush cb).
Proof. by apply ws_h2_flush_frozen. Qed.
Lemma h2_inv_feed cb data : keeps h2_inv (ws_feed realloc_ok cb data).
Proof. by apply ws_feed_frozen. Qed.
Lemma h2_inv_negotiate ext : keeps h2_inv (ws_pmd_negotiate ext).
Proof. by apply ws_pmd_negotiate_frozen. Qed.
Hint Resolve h2_inv_fail h2_inv_send h2_inv_flush h2_inv_feed h2_inv_negotiate : keeps.
Lemma h2_inv_outs cb outs : keeps h2_inv (ws_h2_outs realloc_ok cb outs).
Proof.
  induction outs as [|[status ext|data] outs IH]; cbn [ws_h2_outs]; unfold ws_h2_on_connect, ws_h2_on_data; keep.
Qed.
Hint Resolve h2_inv_outs : keeps.
Lemma h2_inv_drain cb p : keeps h2_inv (ws_h2_drain realloc_ok cb p).
Proof. unfold ws_h2_drain, ws_h2_round, ws_h2_submit. keep. Qed.
Lemma h2_open s : h2_inv s -> open_inv s.
Proof. intros [Ht Hr]. split; [|done]. cbn. by rewrite Ht. Qed.

(** The callbacks of the connection. *)
Lemma ws_ok_own (f : WsConn -> WsConn) : (forall w, hs_part (f w) = hs_part w) -> keeps ws_ok (upd_own f).
Proof.
  intros Hf s [[Ht He]|Ho]; [left|right; by apply open_inv_own]. specialize (Hf (st_own s)). unfold hs_part in Hf.
  injection Hf as He' Ht' _ _. cbn. by rewrite He', Ht'.
Qed.
Hint Extern 1 (keeps ws_ok (upd_own _)) => apply ws_ok_own; intros; reflexivity : keeps.
Lemma ws_ok_getw {A} (f : WsConn -> A) : keeps ws_ok (getw f).
Proof. apply keeps_get. Qed.
Lemma ws_ok_deliver_fail e : keeps ws_ok (conn_deliver_fail ws_on_ready_fail e).
Proof.
  intros s [Hn|Ho]; [left|right; by apply open_inv_deliver_fail].
  unfold conn_deliver_fail. run_state. by destruct (c_ready_fired (st_conn s)).
Qed.
Lemma ws_ok_on_readable p : keeps ws_ok (ws_on_readable realloc_ok p).
Proof.
  intros s Hs. unfold ws_on_readable. rewrite bind_getw. destruct (w_transport (st_own s)) eqn:Ht; [done| |].
  - destruct Hs as [[Ht' _]|Ho]; [congruence|]. right. by apply h1_drain_open.
  - destruct Hs as [[Ht' _]|Ho]; [congruence|]. right. apply h2_open, h2_inv_drain. by destruct Ho.
Qed.
Lemma ws_ok_deliver_ok p : keeps ws_ok (conn_deliver_ok (ws_on_ready_ok p)).
Proof.
  intros s Hs. unfold conn_deliver_ok. run_state. destruct (c_ready_fired (st_conn s)) eqn:Hf; [done|].
  destruct Hs as [[Ht He]|[_ Ho]]; [|congruence]. right. set (s1 := mkSt _ _ _ _ _).
  unfold ws_on_ready_ok. unfold conn_alpn. rewrite bind_run. cbn [fst snd getc].
  destruct (str8_match _ (lit "h2")).
  - apply h2_open. rewrite bind_run. set (s2 := snd (upd_own _ s1)).
    assert (Hs2 : h2_inv s2) by done. clearbody s2. cbn [fst].
    assert (Hk : keeps h2_inv (match h2w_alloc with
      | None => upd_own (set_w_h2 None);; ws_fail_with (lit "h2 session init failed")
      | Some h =>
          upd_conn (set_c_on_readable true);;
          let '(ok, h, outs) := h2w_start h in
          upd_own (set_w_h2 (Some h));; ws_h2_send ws_on_ready_fail outs;;
          when (negb ok) (ws_fail_with (lit "h2 session start failed"))
      end)) by keep. by apply Hk.
  - unfold ws_h1_send_handshake. rewrite !bind_run.
    apply (conn_send_plaintext_keeps open_inv open_inv_view _ (open_inv_deliver_fail _)).
    unfold env, getw, get. cbn. destruct (RAND_bytes (st_w s) 16) as [keyb u] eqn:Hr. split; [|done].
    cbn. rewrite He. split; [done|]. intros _. split; [|done]. exists (st_w s). by rewrite Hr.
Qed.
Hint Resolve ws_ok_getw ws_ok_deliver_fail ws_ok_on_readable ws_ok_deliver_ok : keeps.
Lemma ws_ok_closed e : keeps ws_ok (ws_on_closed e).
Proof. unfold ws_on_closed. keep. Qed.
Hint Resolve ws_ok_closed : keeps.
Lemma ws_ok_handle p ev : keeps ws_ok (ws_handle realloc_ok p ev).
Proof.
  assert (Hearly : keeps ws_ok (call_early_ready skip)) by (unfold call_early_ready; keep).
  destruct ev; unfold ws_handle, conn_on_handle_closed, ws_on_connect_timeout, ws_on_recv_timeout, ws_on_close_timeout,
    ws_on_fully_closed, ws_fail_with; keep.
Qed.
Hint Resolve ws_ok_handle : keeps.
Lemma ws_ok_loop p evs : keeps ws_ok (loop_run realloc_ok p evs).
Proof. induction evs as [|ev evs IH]; cbn [loop_run]; keep. Qed.
Hint Resolve ws_ok_loop : keeps.
Lemma ws_ok_wait p cond turns : keeps ws_ok (ws_wait realloc_ok p cond turns).
Proof. induction turns as [|evs turns IH]; cbn [ws_wait]; keep. Qed.
Hint Resolve ws_ok_wait : keeps.
Lemma conn_init_ok ctx prof s :
  w_transport (st_own s) = WsTransport_None -> w_established (st_own s) = false -> ws_ok (snd (conn_init ctx prof s)).
Proof. intros Ht He. left. unfold conn_init. run_state. unfold env. by destruct (malloc _ _). Qed.
Lemma tcp_fresh_ok : keeps ws_ok (upd_tcp tcp_fresh).
Proof. by intros s. Qed.
Hint Resolve tcp_fresh_ok : keeps.

(** What [ws_conn_connect] does when its wait is over, and all of it once the
    connection is set up. *)
Definition connect_result (fin : bool) : M W WsConn (option bool) :=
  if negb fin then mret None
  else
    upd_own (set_w_connect_timer false);;
    established ← getw w_established;
    err ← getw w_err;
    (match err with
     | None => when (negb established) (upd_own (set_w_err (Some (lit "websocket connect failed"))))
     | Some _ => skip
     end);;
    mret (Some established).
Lemma connect_result_keeps fin : keeps ws_ok (connect_result fin).
Proof. unfold connect_result. keep. Qed.
Lemma connect_result_spec fin s b s' :
  connect_result fin s = (Some b, s') -> w_established (st_own s') = b /\ (b = false -> is_Some (w_err (st_own s'))).
Proof.
  unfold connect_result. destruct fin; [|done]. cbn [negb]. rewrite bind_run, !bind_getw, bind_run. cbn.
  destruct (w_err (st_own s)) as [e|] eqn:He; destruct (w_established (st_own s)) eqn:Hes; cbn; intros [= <- <-]; cbn;
    rewrite ?He, ?Hes; (split; [done|]); try done; by eexists.
Qed.
Definition connect_rest (c : WsClient) (pu : ParsedUrl) (turns : list (list ws_event)) : M W WsConn (option bool) :=
  upd_own (set_w_conn_inited true);;
  upd_conn (set_c_on_closed true ∘ set_c_on_fully_closed true);;
  conn_set_dns_cache;;
  upd_own (set_w_connect_timer (negb (wc_timeout_ms c =? 0)));;
  conn_connect ws_on_ready_fail (str8_cstring (host pu ++ [0])) (port pu);;
  fin ← ws_wait realloc_ok (wc_default_headers c) (fun w => w_established w || w_fail w || w_closed w) turns;
  connect_result fin.
Hint Resolve connect_result_keeps : keeps.
Lemma connect_rest_keeps c pu turns : keeps ws_ok (connect_rest c pu turns).
Proof. unfold connect_rest, conn_set_dns_cache. keep. Qed.
Lemma connect_rest_spec c pu turns s b s' :
  connect_rest c pu turns s = (Some b, s') -> w_established (st_own s') = b /\ (b = false -> is_Some (w_err (st_own s'))).
Proof. unfold connect_rest. rewrite !bind_run. apply connect_result_spec. Qed.

(** C11. A call of [ws_conn_connect] on a new WebSocket that returns: it says whether
    the WebSocket is open. Open, the URL was one of TLS, and on HTTP/1.1 the
    bytes received are a 101 response whose Sec-WebSocket-Accept is the hash of
    a key of 16 random bytes; on HTTP/2 there is no key. Not open, there is an
    error for the caller. *)
Theorem ws_connect_verified c url headers turns s b s' :
  st_own s = ws_conn_alloc -> ws_conn_connect realloc_ok c url headers turns s = (Some b, s') ->
  w_established (st_own s') = b /\
  (if b then https (url_parse (ws_url url)) = true /\
             (w_transport (st_own s') = WsTransport_H2 \/
              w_transport (st_own s') = WsTransport_H1 /\ of_key (w_accept_expected (st_own s')) /\
              accepts (u8_v (w_hs_in (st_own s'))) (w_accept_expected (st_own s')))
   else is_Some (w_err (st_own s'))).
Proof.
  intros Hs. unfold ws_conn_connect. generalize (url_parse (ws_url url)). intros pu.
  destruct (negb (ok pu) || negb (https pu)) eqn:Hurl.
  { rewrite bind_run. intros [= <- <-]. cbn. rewrite Hs. split; [done|by eexists]. }
  rewrite bind_run. set (s1 := snd (upd_own _ s)). rewrite bind_run.
  match goal with |- ?g _ = _ -> _ => replace g with (connect_rest c pu turns) by reflexivity end.
  destruct (conn_init _ _ s1) as [u s2] eqn:Hi.
  assert (Hok : ws_ok s2) by (change s2 with (snd (u, s2)); rewrite <-Hi; apply conn_init_ok; cbn; by rewrite Hs).
  cbn [snd]. intros Hr.
  pose proof (connect_rest_keeps c pu turns s2 Hok) as Hok'. rewrite Hr in Hok'.
  apply connect_rest_spec in Hr as [Hb Herr]. split; [done|]. destruct b; [|by apply Herr].
  apply orb_false_elim in Hurl as [_ Hurl]. apply negb_false_iff in Hurl. split; [done|].
  cbn [snd] in Hok'. destruct Hok' as [[_ He]|[[Hn Hk] _]]; [congruence|]. cbn in Hn, Hk.
  destruct (w_transport (st_own s')); [done| |by left]. right. split; [done|]. destruct (Hk eq_refl) as [? Ha]. split; [done|by apply Ha].
Qed.

(** ** Receiving *)

(** What an event puts in the queue. *)
Definition queued (ev : WsEvent) : list WsMsg :=
  match ev_kind ev with
  | WsEvent_Ping | WsEvent_Pong => []
  | k => [mkWsMsg (ev_op ev) (ev_close_code ev) (bool_decide (k = WsEvent_Close)) (ev_data ev)]
  end.
(** The reads of the socket, and a number of calls to [ws_conn_recv] that find
    the queue filled. *)
Fixpoint read_chunks (chunks : list bytes) : M W WsConn unit :=
  match chunks with
  | [] => skip
  | c :: chunks => go ← ws_h1_bytes realloc_ok ws_on_ready_fail c; if go : bool then read_chunks chunks else skip
  end.
Fixpoint recv_calls (p : list DefaultHeader) (n : nat) : M W WsConn (list (option (Z * option WsEvent))) :=
  match n with
  | O => mret []
  | S n => r ← ws_conn_recv realloc_ok p []; rs ← recv_calls p n; mret (r :: rs)
  end.

Definition in_part w : WsParser * list WsMsg * bool := (w_parser w, w_in w, w_established w).
Abbreviation receiving p q := (frozen in_part (p, q, true)).

Section inbound.
Context (Hmalloc : forall u n, fst (malloc (W := W) u n) = true).
Lemma enqueue_receiving p q ev payload s :
  receiving p q s ->
  receiving p (q ++ [mkWsMsg (ev_op ev) (ev_close_code ev) (bool_decide (ev_kind ev = WsEvent_Close)) payload])
    (snd (ws_enqueue ev payload s)).
Proof.
  intros [Hp Hr]. unfold ws_enqueue. rewrite bind_run. unfold env.
  specialize (Hmalloc (st_w s) (wrap64 (sizeof_WsMsg + zlen payload))). destruct (malloc _ _) as [ok u]. cbn in Hmalloc |- *.
  subst ok. cbn [negb]. rewrite bind_run. injection Hp as Hp1 Hp2 Hp3.
  destruct (bool_decide (ev_kind ev = WsEvent_Close)); (split; [|done]); cbn; unfold in_part; cbn; by rewrite Hp1, Hp2, Hp3.
Qed.
Lemma event_receiving p q ev s :
  ev_compressed ev = false -> receiving p q s ->
  receiving p (q ++ queued ev) (snd (ws_on_event ws_on_ready_fail ev s)).
Proof.
  intros Hc Hs. unfold ws_on_event, queued. rewrite Hc, andb_false_r.
  pose proof (enqueue_receiving p q ev (ev_data ev) s Hs) as He.
  destruct (ev_kind ev); [done| | |done]; rewrite app_nil_r; [|done].
  rewrite bind_run. by apply ws_conn_send_frozen.
Qed.
Lemma events_receiving evs p q s :
  Forall (fun ev => ev_compressed ev = false) evs -> receiving p q s ->
  receiving p (q ++ (evs ≫= queued)) (snd (ws_on_events ws_on_ready_fail evs s)).
Proof.
  intros Hc. revert q s. induction Hc as [|ev evs Hev Hc IH]; intros q s Hs; cbn [ws_on_events].
  - by rewrite app_nil_r.
  - rewrite bind_run, bind_cons, app_assoc. by apply IH, event_receiving.
Qed.
Lemma feed_receiving data p q p' evs s :
  ws_parser_feed realloc_ok p data = FeedOk p' evs -> Forall (fun ev => ev_compressed ev = false) evs ->
  receiving p q s ->
  exists s', ws_h1_bytes realloc_ok ws_on_ready_fail data s = (true, s') /\ receiving p' (q ++ (evs ≫= queued)) s'.
Proof.
  intros Hf Hc [Hp Hr]. injection Hp as Hp1 Hp2 Hp3. unfold ws_h1_bytes. rewrite bind_getw, Hp3. cbn [negb].
  unfold ws_feed. rewrite bind_run, bind_getw, Hp1, Hf, !bind_run. cbn [fst snd]. eexists. split; [done|].
  apply events_receiving; [done|]. split; [|done]. unfold in_part. cbn. by rewrite Hp2, Hp3.
Qed.

Context (realloc_mono : forall c c', c' <= c -> realloc_ok c = true -> realloc_ok c' = true).
Lemma feed_split p a b p' evs :
  ws_inv p -> bytes_ok a -> bytes_ok b -> ws_parser_feed realloc_ok p (a ++ b) = FeedOk p' evs ->
  exists p1 evs1 evs2, ws_parser_feed realloc_ok p a = FeedOk p1 evs1 /\ ws_inv p1 /\
    ws_parser_feed realloc_ok p1 b = FeedOk p' evs2 /\ evs = evs1 ++ evs2.
Proof.
  intros Hi Ha Hb. unfold ws_parser_feed. rewrite (inv_dead p Hi).
  pose proof (run_app realloc_ok realloc_mono p a b Hi Ha Hb) as Happ. pose proof (run_total realloc_ok p a Hi Ha) as Ht.
  unfold run in *. intros Hf. rewrite Hf in Happ.
  destruct (feed_loop _ _ p a []) as [p1 evs1|p1 evs1|]; [|inversion Happ|done].
  exists p1, evs1. rewrite (inv_dead p1 Ht). cbn in Happ. unfold run in Happ.
  destruct (feed_loop _ _ p1 b []) as [p2 evs2| |]; inversion Happ; subst. by exists evs2.
Qed.
Lemma chunks_receiving chunks p q p' evs s :
  ws_inv p -> Forall bytes_ok chunks -> ws_parser_feed realloc_ok p (concat chunks) = FeedOk p' evs ->
  Forall (fun ev => ev_compressed ev = false) evs -> receiving p q s ->
  receiving p' (q ++ (evs ≫= queued)) (snd (read_chunks chunks s)).
Proof.
  revert p q evs s. induction chunks as [|c chunks IH]; intros p q evs s Hi Hb Hf Hc Hs; cbn [read_chunks].
  - unfold ws_parser_feed in Hf. rewrite (inv_dead p Hi) in Hf. injection Hf as <- <-. by rewrite app_nil_r.
  - apply Forall_cons in Hb as [Hb1 Hb2]. cbn [concat] in Hf.
    apply feed_split in Hf as (p1 & evs1 & evs2 & Hf1 & Hi1 & Hf2 & ->); [|done..|by apply Forall_concat].
    apply Forall_app in Hc as [Hc1 Hc2]. destruct (feed_receiving c p q p1 evs1 s Hf1 Hc1 Hs) as (s1 & E & Hs1).
    rewrite bind_run, E. cbn [fst snd]. rewrite bind_app, app_assoc. by apply (IH p1).
Qed.
Lemma recv_calls_queue p n s :
  n = length (w_in (st_own s)) ->
  fst (recv_calls p n s) = (fun m => Some (if m_is_close m then 0 else 1, Some (recv_event m))) <$> w_in (st_own s).
Proof.
  revert s. induction n as [|n IH]; intros s Hn; destruct (w_in (st_own s)) as [|m q] eqn:Hq; try done.
  cbn [recv_calls]. rewrite bind_run. unfold ws_conn_recv. rewrite bind_run. cbn [recv_loop].
  run_state. rewrite Hq. cbn. f_equal. rewrite IH; [done|]. cbn. by injection Hn.
Qed.

(** C12. On an open connection over HTTP/1.1 (the path over HTTP/2 is not covered),
    for a stream of frames without a protocol error, none of whose messages is
    compressed (a compressed one may loop for ever: [ws_final_block_hangs], ws.c:212),
    and allocations that succeed: the bytes of the peer, however the reads of the
    socket cut them, and with the pings answered in between, give [ws_conn_recv]
    exactly the messages and closes of the frames, in order, after what was
    queued. *)
Theorem ws_inbound p chunks p' evs s :
  ws_inv (w_parser (st_own s)) -> Forall bytes_ok chunks ->
  w_established (st_own s) = true -> c_ready_fired (st_conn s) = true ->
  ws_parser_feed realloc_ok (w_parser (st_own s)) (concat chunks) = FeedOk p' evs ->
  Forall (fun ev => ev_compressed ev = false) evs ->
  let s' := snd (read_chunks chunks s) in
  let q := w_in (st_own s) ++ (evs ≫= queued) in
  w_parser (st_own s') = p' /\ w_in (st_own s') = q /\
  fst (recv_calls p (length q) s') = (fun m => Some (if m_is_close m then 0 else 1, Some (recv_event m))) <$> q.
Proof.
  intros Hi Hb He Hr Hf Hc s' q.
  destruct (chunks_receiving chunks _ (w_in (st_own s)) p' evs s Hi Hb Hf Hc) as [Hp _].
  { split; [|done]. unfold in_part. by rewrite He. }
  fold s' in Hp. injection Hp as Hp1 Hp2 Hp3. split; [done|]. split; [done|].
  rewrite recv_calls_queue; [|by rewrite Hp2]. by rewrite Hp2.
Qed.
End inbound.
End ws_keeps.

(** ** A final block *)
Section final_block.
Context `{BoringSSL} {W : Type} `{WsApi W} `{H2WsApi}.

(** A stream that has ended takes no more input. *)
Context (zs' : z_inflate).
Context (Hend : forall inp room, inflate zs' inp room = (Z_STREAM_END, 0%nat, [], zs')).
Definition small (out : U8Buf) : Prop := u8_len out <= WS_INFLATE_MAX.
Lemma append_nil_small out : small out -> small (u8buf_append out []).
Proof. unfold small, u8_len. by rewrite u8buf_append_v, app_nil_r. Qed.
Lemma ended_round rest out :
  small out ->
  ws_inflate_round (zs', rest, out) =
  if (0 <? length rest)%nat then inl (zs', rest, u8buf_append out []) else inr (true, zs', u8buf_append out []).
Proof.
  intros Ho. apply append_nil_small in Ho. unfold ws_inflate_round. rewrite Hend.
  change (negb (Z_STREAM_END =? Z_OK) && negb (Z_STREAM_END =? Z_STREAM_END) && _) with false. cbv iota.
  rewrite (proj2 (Z.ltb_ge _ _) Ho). change (Z_STREAM_END =? Z_BUF_ERROR) with false. cbv iota. rewrite drop_0.
  change (length (@nil Z) =? DECODE_BUF)%nat with false. by rewrite orb_false_r.
Qed.
Lemma ended_spins rest out : rest <> [] -> small out -> exists st, loop_pow 64 ws_inflate_round (zs', rest, out) = inl st.
Proof.
  intros Hr Ho. set (I := fun st : z_inflate * bytes * U8Buf => exists out, st = (zs', rest, out) /\ small out).
  destruct (loop_pow_spins ws_inflate_round I) with (k := 64%nat) (s := (zs', rest, out)) as (s' & E & _);
    [|by exists out|by exists s'].
  intros st (o & -> & Hs). rewrite ended_round by done. destruct rest as [|b rest]; [done|].
  eexists. split; [done|]. eexists. split; [done|]. by apply append_nil_small.
Qed.

(** A message whose compressed data ends the stream (a block with BFINAL set,
    which RFC 7692 allows) makes [ws_inflate_message] loop forever: at the end
    of the stream [inflate] answers [Z_STREAM_END] without taking the four
    bytes of the marker, and the loop waits for [avail_in] to reach zero. *)
Theorem ws_final_block_hangs w zs (data produced : bytes) consumed out :
  w_inflate_zs w = Some zs -> zlen data < 2 ^ 32 ->
  inflate zs data DECODE_BUF = (Z_STREAM_END, consumed, produced, zs') ->
  u8_len out + zlen produced <= WS_INFLATE_MAX ->
  ws_inflate_message w data out = None.
Proof.
  intros Hz Hlen Hinf Hcap. unfold ws_inflate_message. rewrite Hz. cbn [inflate_chunks].
  assert (Hw : take (Z.to_nat (wrap32 (zlen data))) data = data).
  { apply take_ge. unfold wrap32. rewrite Z.mod_small by (unfold zlen in *; lia). unfold zlen. lia. }
  rewrite Hw. change (take (Z.to_nat (wrap32 (zlen [0; 0; 255; 255]))) [0; 0; 255; 255]) with [0; 0; 255; 255].
  set (I := fun st : z_inflate * bytes * U8Buf =>
    st = (zs, data, out) \/ exists rest o, st = (zs', rest, o) /\ small o).
  set (Q := fun r : bool * z_inflate * U8Buf => exists o, r = (true, zs', o) /\ small o).
  assert (Hr : forall st, I st -> match ws_inflate_round st with inl st => I st | inr r => Q r end).
  { intros st [->|(rest & o & -> & Ho)].
    - unfold ws_inflate_round. rewrite Hinf. change (negb (Z_STREAM_END =? Z_OK) && negb (Z_STREAM_END =? Z_STREAM_END) && _) with false.
      cbv iota. assert (Ho : small (u8buf_append out produced))
        by (unfold small, u8_len in *; rewrite u8buf_append_v, zlen_app; lia).
      rewrite (proj2 (Z.ltb_ge _ _) Ho). change (Z_STREAM_END =? Z_BUF_ERROR) with false. cbv iota.
      destruct (_ || _); [right; by eexists _, _|by eexists].
    - rewrite ended_round by done. apply append_nil_small in Ho. destruct (0 <? length rest)%nat; [right; by eexists _, _|by eexists]. }
  pose proof (loop_pow_inv ws_inflate_round I Q Hr 64 (zs, data, out) (or_introl eq_refl)) as Hl.
  destruct (loop_pow 64 ws_inflate_round (zs, data, out)) as [st|r]; [done|]. destruct Hl as (o & -> & Ho).
  by destruct (ended_spins [0; 0; 255; 255] o ltac:(done) Ho) as [st ->].
Qed.
End final_block.

(** ** A server that accepts the upgrade

    The TLS engine of the runs of [TcpRequest]; a response is two bytes, OK, and
    the toy zlib copies bytes up to a zero. *)
#[local] Existing Instance demo_ssl.
#[local] Existing Instance demo_uv.
#[local] Instance demo_ws : WsApi DemoUv := {|
  RAND_bytes u n := (repeat 7 n, u); SHA1 b := take 20 (drop 12 b);
  z_deflate := unit; deflateInit2 _ := None; deflate z _ _ := (Z_OK, 0%nat, [], z); deflateReset := id;
  z_inflate := bool; inflateInit2 _ := Some false; inflate := toy_inflate
|}.
#[local] Instance demo_h2w : H2WsApi := {|
  H2W := unit; h2w_alloc := None; h2w_start h := (true, h, []); h2w_mem_recv h _ := (0, h, []); h2w_flush h := (h, []);
  h2w_connect_protocol_enabled _ := false; h2w_connect h _ _ _ := (-1, h, []); h2w_send h _ _ := (false, h); h2w_finish h _ := h
|}.
Definition demo_accept : bytes := ws_accept_of (base64_encode (repeat 7 16)).
Definition demo_upgrade (hs : bytes) (_ _ : nat) : phr_result :=
  match hs with
  | 79 :: 75 :: _ => phr_done 2 1 101 [(lit "Sec-WebSocket-Accept", demo_accept)]
  | [] | [79] => phr_partial
  | _ => phr_error
  end.
#[local] Instance demo_ws_phr : PhrApi := {|
  phr_chunk := unit; phr_chunk_zero := tt; phr_consume_trailer := id; phr_parse := demo_upgrade; phr_decode := demo_decode
|}.
Definition demo_ws_state : St DemoUv WsConn :=
  mkSt (conn_zero None tt false) (mkTcp false false false false []) (mkDemoUv false) (dns_cache_init 0) ws_conn_alloc.
Definition demo_ws_client : WsClient := mkWsClient _ (Some tt) tt tt [] HttpVersion_Auto 1000.
Definition demo_turns : list (list ws_event) :=
  [[WsEvResolved (inr [1])]; [WsEvConnected 0]; [WsEvRead (ReadData [79])]; [WsEvRead (ReadData [75])]].
Abbreviation demo_connect := (ws_conn_connect always demo_ws_client (lit "wss://a.b/chat") [] demo_turns demo_ws_state).

Lemma ws_connect_verified_witness :
  fst demo_connect = Some true /\
  accepts (u8_v (w_hs_in (st_own (snd demo_connect)))) (w_accept_expected (st_own (snd demo_connect))).
Proof.
  assert (E : fst demo_connect = Some true) by (vm_compute; reflexivity).
  split; [exact E|].
  destruct (ws_connect_verified always demo_ws_client (lit "wss://a.b/chat") [] demo_turns demo_ws_state true (snd demo_connect)
    eq_refl) as [_ [_ [Ht|[_ [_ Ha]]]]].
  - rewrite <-E. by destruct demo_connect.
  - vm_compute in Ht. discriminate.
  - exact Ha.
Defined.

Definition demo_chunks : list bytes := [[129; 2]; [104; 105; 136]; [2; 3; 232]].
Definition demo_feed : WsParser * list WsEvent :=
  match ws_parser_feed always (w_parser (st_own (snd demo_connect))) (concat demo_chunks) with
  | FeedOk p evs => (p, evs)
  | _ => (ws_parser_init 0, [])
  end.
Lemma ws_inbound_witness :
  let s := snd demo_connect in
  let q := w_in (st_own s) ++ (snd demo_feed ≫= queued) in
  q = [mkWsMsg 1 0 false [104; 105]; mkWsMsg 8 1000 true []] /\
  fst (recv_calls always [] (length q) (snd (read_chunks always demo_chunks s))) =
    (fun m => Some (if m_is_close m then 0 else 1, Some (recv_event m))) <$> q.
Proof.
  cbv zeta. split; [vm_compute; reflexivity|].
  assert (Hi : ws_inv (w_parser (st_own (snd demo_connect)))).
  { replace (w_parser (st_own (snd demo_connect))) with (ws_parser_init 0) by (vm_compute; reflexivity).
    apply ws_parser_init_inv. lia. }
  refine (proj2 (proj2 (ws_inbound always (fun _ _ => eq_refl) (fun _ _ _ _ => eq_refl) [] demo_chunks (fst demo_feed)
    (snd demo_feed) (snd demo_connect) Hi _ _ _ _ _))).
  - repeat constructor; lia.
  - vm_compute. reflexivity.
  - vm_compute. reflexivity.
  - vm_compute. reflexivity.
  - apply (bool_decide_unpack _). vm_compute. reflexivity.
Defined.

Lemma ws_final_block_hangs_witness :
  ws_inflate_message (set_w_inflate_zs (Some false) ws_conn_alloc) [0] (u8buf_init 4) = None.
Proof.
  apply (ws_final_block_hangs (true : @z_inflate DemoUv demo_ws) ltac:(done) _ false [0] [] 1%nat); vm_compute; done.
Defined.
