(* ===== verification/PoolState.v ===== *)
(** * The connection pool, its data: core/pool.h

    Requests and connections live in a store, by id: an id that is not in the
    store is memory given back. The operations of [Pool] run in a monad whose
    value is [None] when the code would use such memory. The transports and the
    protocol sessions a connection owns are interfaces; HTTP/1.1 is [H1]. *)
From stdpp Require Import gmap.
From S2P Require Import Prelude String8 U8Buf GrowArr Header Url Redirect OriginCache Proxy ReqHeaders H1 H3Control.
From S2P Require Export H2 SslPump.
From S2P Require Import TcpRequest.

Inductive PoolProto := PoolProto_H2 | PoolProto_H3 | PoolProto_H1.
#[export] Instance PoolProto_eq_dec : EqDecision PoolProto.
Proof. solve_decision. Defined.
Inductive PoolConnState := PoolConnState_Handshaking | PoolConnState_Ready | PoolConnState_Closing.
#[export] Instance PoolConnState_eq_dec : EqDecision PoolConnState.
Proof. solve_decision. Defined.

Definition POOL_MAX_CONNS : nat := 256.
Definition POOL_DEFAULT_IDLE_MS : Z := 5000.
Definition POOL_MAX_RETRIES : nat := 2.
Definition POOL_H3_MAX_CONCURRENT : nat := 16.
Definition H3_MAX_STREAMS : nat := 16.

(** ** What the pool calls

    The set-up of a connection: its TLS context and profile, the local
    address, the proxy with its own context and profile, the ECH configuration
    and the ticket to resume. *)
Record ConnSetup `{BoringSSL} := mkSetup {
  cs_ctx : option SSL_CTX;
  cs_tls : TlsProfile;
  cs_local_address : option bytes;
  cs_proxy : option (ProxyConfig * option SSL_CTX * option TlsProfile);
  cs_ech : bytes;
  cs_session : option SSL_SESSION
}.
(** A TCP connection, from [conn_init] to [conn_connect]; the error is that of
    an [on_ready] called before [conn_connect] returns. A read gives no bytes
    when there is nothing to read. *)
Class TcpApi `{BoringSSL} (T : Type) := {
  tcp_connect : ConnSetup -> bytes -> Z -> T * option bytes;
  tcp_close : T -> T;
  tcp_send : T -> bytes -> T;
  tcp_read : T -> bytes * T;
  tcp_alpn : T -> bytes;
  tcp_ref : bool -> T -> T
}.
(** A QUIC connection; [quic_close] also says whether [on_fully_closed] was
    called before it returned, and [quic_send_closed] whether the send or the
    reset that gave this state called [on_closed] before it returned, with its
    error: both flush, and a flush can fail. *)
Class QuicApi `{BoringSSL} (Q : Type) := {
  quic_connect : ConnSetup -> Http3Profile -> bytes -> Z -> Q * option bytes;
  quic_close : Q -> Q * bool;
  quic_reset_stream : Q -> Z -> Q;
  quic_send_closed : Q -> option (option bytes);
  quic_in_recv : Q -> bool;
  quic_recv_end : Q -> Q;
  quic_alpn : Q -> bytes;
  quic_ref : bool -> Q -> Q
}.
(** A call of an HTTP/2 session, as its owner sees it until it returns: the
    session hands over bytes to send, and calls the response callback of a
    stream that closed, [h] being the session at that point and [r] the request
    the stream was submitted for; when the callback returns the call goes on with
    the session the callback left. *)
Inductive H2Run (S A : Type) :=
| RunEnd (a : A) (h : S)
| RunSend (data : bytes) (k : H2Run S A)
| RunResponse (h : S) (r : nat) (hr : H2Response) (k : S -> H2Run S A).
(** An HTTP/2 session shared by requests. *)
Class H2Mux := {
  h2_session : Type;
  h2_alloc : option h2_session;
  h2_start : h2_session -> bool * h2_session * list bytes;
  h2_submit : h2_session -> bytes -> bytes -> bytes -> bytes -> list Header -> bytes -> nat -> H2Run h2_session Z;
  h2_recv : h2_session -> bytes -> H2Run h2_session Z;
  h2_cancel : h2_session -> Z -> H2Run h2_session unit;
  h2_goaway : h2_session -> bool;
  h2_max_concurrent : h2_session -> Z
}.

(** ** Data *)
(** What a request keeps from its dispatch on. *)
Record PoolParams := mkParams {
  pp_user : nat;                (* stands for the callback and its argument *)
  pp_method : Method;
  pp_url : bytes;
  pp_headers : list Header;
  pp_body : bytes;
  pp_header_order : bytes;
  pp_parsed : ParsedUrl;
  pp_deadline : bool
}.
Definition pp_origin (p : PoolParams) : bytes := origin_of (pp_parsed p).

Section types.
Context `{BoringSSL} `{PhrApi} `{H2Mux} `{Qpack} {T Q : Type}.

Record PoolReq := mkPoolReq {
  pr_params : PoolParams;
  pr_proto : PoolProto;
  pr_pc : option nat;
  pr_h2_stream_id : Z;
  pr_h1 : option (H1Session phr_chunk);
  pr_retries_left : nat;
  pr_responded : bool;
  pr_timeout : bool;            (* the deadline timer is armed *)
  pr_h3_stream_id : Z;
  pr_h3_in : U8Buf;
  pr_h3_fin : bool
}.
Record H3Conn := mkH3Conn {
  hc_qenc : qpack_encoder;
  hc_qdec : qpack_decoder;
  hc_control_opened : bool;
  hc_ctrl_id : Z;
  hc_qenc_id : Z;
  hc_qdec_id : Z;
  hc_uni : list H3Uni;
  hc_streams : list nat
}.
(** The transport that was never set up is [None]. *)
Record PoolConn := mkPoolConn {
  pc_proto : PoolProto;
  pc_origin : bytes;
  pc_tcp : option T;
  pc_h2 : option h2_session;
  pc_quic : option Q;
  pc_h3c : option H3Conn;
  pc_state : PoolConnState;
  pc_broken : bool;
  pc_in_drain : bool;
  pc_idle : bool;
  pc_idle_since_ms : Z;
  pc_inflight : nat;
  pc_waiting : list nat;
  pc_active : list nat
}.

(** The parts of the [Client] the pool uses beyond those of a single request. *)
Record PoolClient := mkPoolClient {
  pl_client : Client;
  pl_proxy : ProxyConfig;
  pl_h3_ctx : option SSL_CTX;
  pl_h3_tls : TlsProfile;
  pl_h3_profile : Http3Profile;
  pl_h3_default_headers : list DefaultHeader;
  pl_h3_fetch_order : list bytes;
  pl_max_conns_per_origin : Z;
  pl_pool_idle_timeout_ms : Z;
  pl_requests : nat;            (* pool_stats *)
  pl_conns_created : nat;
  pl_reuses : nat
}.
Definition set_pl_client (v : Client) (c : PoolClient) : PoolClient :=
  mkPoolClient v (pl_proxy c) (pl_h3_ctx c) (pl_h3_tls c) (pl_h3_profile c) (pl_h3_default_headers c) (pl_h3_fetch_order c)
    (pl_max_conns_per_origin c) (pl_pool_idle_timeout_ms c) (pl_requests c) (pl_conns_created c) (pl_reuses c).
Definition set_pl_stats (requests created reuses : nat) (c : PoolClient) : PoolClient :=
  mkPoolClient (pl_client c) (pl_proxy c) (pl_h3_ctx c) (pl_h3_tls c) (pl_h3_profile c) (pl_h3_default_headers c)
    (pl_h3_fetch_order c) (pl_max_conns_per_origin c) (pl_pool_idle_timeout_ms c) requests created reuses.
Definition count_request (c : PoolClient) : PoolClient := set_pl_stats (S (pl_requests c)) (pl_conns_created c) (pl_reuses c) c.
Definition count_created (c : PoolClient) : PoolClient := set_pl_stats (pl_requests c) (S (pl_conns_created c)) (pl_reuses c) c.
Definition count_reuse (c : PoolClient) : PoolClient := set_pl_stats (pl_requests c) (pl_conns_created c) (S (pl_reuses c)) c.

(** What happened to a request: an outcome for its caller, or its hand-over to
    the path that does not use the pool. *)
Inductive PoolOutcome :=
| Delivered (d : Delivery)
| HandedOver.
Record Pool := mkPool {
  p_client : PoolClient;
  p_conns : list nat;
  p_sweep_inited : bool;
  p_sweep_active : bool;
  p_pcs : gmap nat PoolConn;
  p_reqs : gmap nat PoolReq;
  p_next_req : nat;             (* the next ids *)
  p_next_pc : nat;
  p_now : Z;                    (* uv_now *)
  p_log : list (nat * PoolOutcome);
  p_stale : list nat            (* reads of an HTTP/1.1 session that was released, by request *)
}.

(** *** Field updates *)
Definition set_pr_pc (v : option nat) (q : PoolReq) : PoolReq :=
  mkPoolReq (pr_params q) (pr_proto q) v (pr_h2_stream_id q) (pr_h1 q) (pr_retries_left q) (pr_responded q) (pr_timeout q)
    (pr_h3_stream_id q) (pr_h3_in q) (pr_h3_fin q).
Definition set_pr_h2_stream_id (v : Z) (q : PoolReq) : PoolReq :=
  mkPoolReq (pr_params q) (pr_proto q) (pr_pc q) v (pr_h1 q) (pr_retries_left q) (pr_responded q) (pr_timeout q)
    (pr_h3_stream_id q) (pr_h3_in q) (pr_h3_fin q).
Definition set_pr_h1 (v : option (H1Session phr_chunk)) (q : PoolReq) : PoolReq :=
  mkPoolReq (pr_params q) (pr_proto q) (pr_pc q) (pr_h2_stream_id q) v (pr_retries_left q) (pr_responded q) (pr_timeout q)
    (pr_h3_stream_id q) (pr_h3_in q) (pr_h3_fin q).
Definition set_pr_responded (q : PoolReq) : PoolReq :=
  mkPoolReq (pr_params q) (pr_proto q) (pr_pc q) (pr_h2_stream_id q) (pr_h1 q) (pr_retries_left q) true (pr_timeout q)
    (pr_h3_stream_id q) (pr_h3_in q) (pr_h3_fin q).
Definition set_pr_h3 (sid : Z) (inp : U8Buf) (fin : bool) (q : PoolReq) : PoolReq :=
  mkPoolReq (pr_params q) (pr_proto q) (pr_pc q) (pr_h2_stream_id q) (pr_h1 q) (pr_retries_left q) (pr_responded q)
    (pr_timeout q) sid inp fin.
(** The reset of a request that is retried. *)
Definition pr_retry (q : PoolReq) : PoolReq :=
  mkPoolReq (pr_params q) (pr_proto q) None 0 None (pr_retries_left q - 1) (pr_responded q) (pr_timeout q)
    (pr_h3_stream_id q) (pr_h3_in q) (pr_h3_fin q).

Definition set_pc_tcp (v : option T) (c : PoolConn) : PoolConn :=
  mkPoolConn (pc_proto c) (pc_origin c) v (pc_h2 c) (pc_quic c) (pc_h3c c) (pc_state c) (pc_broken c) (pc_in_drain c)
    (pc_idle c) (pc_idle_since_ms c) (pc_inflight c) (pc_waiting c) (pc_active c).
Definition set_pc_h2 (v : option h2_session) (c : PoolConn) : PoolConn :=
  mkPoolConn (pc_proto c) (pc_origin c) (pc_tcp c) v (pc_quic c) (pc_h3c c) (pc_state c) (pc_broken c) (pc_in_drain c)
    (pc_idle c) (pc_idle_since_ms c) (pc_inflight c) (pc_waiting c) (pc_active c).
Definition set_pc_quic (v : option Q) (c : PoolConn) : PoolConn :=
  mkPoolConn (pc_proto c) (pc_origin c) (pc_tcp c) (pc_h2 c) v (pc_h3c c) (pc_state c) (pc_broken c) (pc_in_drain c)
    (pc_idle c) (pc_idle_since_ms c) (pc_inflight c) (pc_waiting c) (pc_active c).
Definition set_pc_h3c (v : option H3Conn) (c : PoolConn) : PoolConn :=
  mkPoolConn (pc_proto c) (pc_origin c) (pc_tcp c) (pc_h2 c) (pc_quic c) v (pc_state c) (pc_broken c) (pc_in_drain c)
    (pc_idle c) (pc_idle_since_ms c) (pc_inflight c) (pc_waiting c) (pc_active c).
Definition set_pc_state (v : PoolConnState) (c : PoolConn) : PoolConn :=
  mkPoolConn (pc_proto c) (pc_origin c) (pc_tcp c) (pc_h2 c) (pc_quic c) (pc_h3c c) v (pc_broken c) (pc_in_drain c)
    (pc_idle c) (pc_idle_since_ms c) (pc_inflight c) (pc_waiting c) (pc_active c).
Definition set_pc_broken (c : PoolConn) : PoolConn :=
  mkPoolConn (pc_proto c) (pc_origin c) (pc_tcp c) (pc_h2 c) (pc_quic c) (pc_h3c c) (pc_state c) true (pc_in_drain c)
    (pc_idle c) (pc_idle_since_ms c) (pc_inflight c) (pc_waiting c) (pc_active c).
Definition set_pc_in_drain (v : bool) (c : PoolConn) : PoolConn :=
  mkPoolConn (pc_proto c) (pc_origin c) (pc_tcp c) (pc_h2 c) (pc_quic c) (pc_h3c c) (pc_state c) (pc_broken c) v
    (pc_idle c) (pc_idle_since_ms c) (pc_inflight c) (pc_waiting c) (pc_active c).
Definition set_pc_idle (v : bool) (since : Z) (c : PoolConn) : PoolConn :=
  mkPoolConn (pc_proto c) (pc_origin c) (pc_tcp c) (pc_h2 c) (pc_quic c) (pc_h3c c) (pc_state c) (pc_broken c) (pc_in_drain c)
    v since (pc_inflight c) (pc_waiting c) (pc_active c).
Definition set_pc_waiting (v : list nat) (c : PoolConn) : PoolConn :=
  mkPoolConn (pc_proto c) (pc_origin c) (pc_tcp c) (pc_h2 c) (pc_quic c) (pc_h3c c) (pc_state c) (pc_broken c) (pc_in_drain c)
    (pc_idle c) (pc_idle_since_ms c) (pc_inflight c) v (pc_active c).
Definition set_pc_active (inflight : nat) (v : list nat) (c : PoolConn) : PoolConn :=
  mkPoolConn (pc_proto c) (pc_origin c) (pc_tcp c) (pc_h2 c) (pc_quic c) (pc_h3c c) (pc_state c) (pc_broken c) (pc_in_drain c)
    (pc_idle c) (pc_idle_since_ms c) inflight (pc_waiting c) v.

Definition set_hc_streams (v : list nat) (h : H3Conn) : H3Conn :=
  mkH3Conn (hc_qenc h) (hc_qdec h) (hc_control_opened h) (hc_ctrl_id h) (hc_qenc_id h) (hc_qdec_id h) (hc_uni h) v.
Definition set_hc_codec (e : qpack_encoder) (d : qpack_decoder) (h : H3Conn) : H3Conn :=
  mkH3Conn e d (hc_control_opened h) (hc_ctrl_id h) (hc_qenc_id h) (hc_qdec_id h) (hc_uni h) (hc_streams h).
Definition set_hc_control (opened : bool) (ctrl enc dec : Z) (h : H3Conn) : H3Conn :=
  mkH3Conn (hc_qenc h) (hc_qdec h) opened ctrl enc dec (hc_uni h) (hc_streams h).
Definition set_hc_uni (us : list H3Uni) (h : H3Conn) : H3Conn :=
  mkH3Conn (hc_qenc h) (hc_qdec h) (hc_control_opened h) (hc_ctrl_id h) (hc_qenc_id h) (hc_qdec_id h) us (hc_streams h).

Definition set_p_client (v : PoolClient) (p : Pool) : Pool :=
  mkPool v (p_conns p) (p_sweep_inited p) (p_sweep_active p) (p_pcs p) (p_reqs p) (p_next_req p) (p_next_pc p) (p_now p) (p_log p) (p_stale p).
Definition set_p_conns (v : list nat) (p : Pool) : Pool :=
  mkPool (p_client p) v (p_sweep_inited p) (p_sweep_active p) (p_pcs p) (p_reqs p) (p_next_req p) (p_next_pc p) (p_now p) (p_log p) (p_stale p).
Definition set_p_sweep (inited active : bool) (p : Pool) : Pool :=
  mkPool (p_client p) (p_conns p) inited active (p_pcs p) (p_reqs p) (p_next_req p) (p_next_pc p) (p_now p) (p_log p) (p_stale p).
Definition set_p_pcs (v : gmap nat PoolConn) (p : Pool) : Pool :=
  mkPool (p_client p) (p_conns p) (p_sweep_inited p) (p_sweep_active p) v (p_reqs p) (p_next_req p) (p_next_pc p) (p_now p) (p_log p) (p_stale p).
Definition set_p_reqs (v : gmap nat PoolReq) (p : Pool) : Pool :=
  mkPool (p_client p) (p_conns p) (p_sweep_inited p) (p_sweep_active p) (p_pcs p) v (p_next_req p) (p_next_pc p) (p_now p) (p_log p) (p_stale p).
Definition set_p_now (v : Z) (p : Pool) : Pool :=
  mkPool (p_client p) (p_conns p) (p_sweep_inited p) (p_sweep_active p) (p_pcs p) (p_reqs p) (p_next_req p) (p_next_pc p) v (p_log p) (p_stale p).
Definition add_p_log (r : nat) (o : PoolOutcome) (p : Pool) : Pool :=
  mkPool (p_client p) (p_conns p) (p_sweep_inited p) (p_sweep_active p) (p_pcs p) (p_reqs p) (p_next_req p) (p_next_pc p) (p_now p)
    (p_log p ++ [(r, o)]) (p_stale p).
Definition add_p_stale (r : nat) (p : Pool) : Pool :=
  mkPool (p_client p) (p_conns p) (p_sweep_inited p) (p_sweep_active p) (p_pcs p) (p_reqs p) (p_next_req p) (p_next_pc p) (p_now p)
    (p_log p) (p_stale p ++ [r]).

(** ** The monad *)
Abbreviation PM := (PS Pool).
Definition get_req (r : nat) : PM PoolReq :=
  fun s => match p_reqs s !! r with Some q => Some (q, s) | None => None end.
Definition upd_req (r : nat) (f : PoolReq -> PoolReq) : PM unit :=
  fun s => match p_reqs s !! r with Some q => Some (tt, set_p_reqs (<[r := f q]> (p_reqs s)) s) | None => None end.
Definition get_pc (pc : nat) : PM PoolConn :=
  fun s => match p_pcs s !! pc with Some c => Some (c, s) | None => None end.
Definition upd_pc (pc : nat) (f : PoolConn -> PoolConn) : PM unit :=
  fun s => match p_pcs s !! pc with Some c => Some (tt, set_p_pcs (<[pc := f c]> (p_pcs s)) s) | None => None end.
(** Allocations. *)
Definition new_req (q : PoolReq) : PM nat :=
  fun s => Some (p_next_req s, mkPool (p_client s) (p_conns s) (p_sweep_inited s) (p_sweep_active s) (p_pcs s)
    (<[p_next_req s := q]> (p_reqs s)) (S (p_next_req s)) (p_next_pc s) (p_now s) (p_log s) (p_stale s)).
(** A request whose memory is given back at once, with its outcome. *)
Definition new_refused (o : PoolOutcome) : PM unit :=
  fun s => Some (tt, mkPool (p_client s) (p_conns s) (p_sweep_inited s) (p_sweep_active s) (p_pcs s) (p_reqs s)
    (S (p_next_req s)) (p_next_pc s) (p_now s) (p_log s ++ [(p_next_req s, o)]) (p_stale s)).
Definition new_pc (c : PoolConn) : PM nat :=
  fun s => Some (p_next_pc s, mkPool (p_client s) (p_conns s) (p_sweep_inited s) (p_sweep_active s)
    (<[p_next_pc s := c]> (p_pcs s)) (p_reqs s) (p_next_req s) (S (p_next_pc s)) (p_now s) (p_log s) (p_stale s)).
(** The nodes of a linked list are read. *)
Fixpoint walk (l : list nat) : PM unit :=
  match l with
  | [] => pskip
  | r :: l => q ← get_req r; walk l
  end.
End types.
Arguments RunEnd {S A}.
Arguments RunSend {S A}.
Arguments RunResponse {S A}.
Arguments PoolConn {_ _} T Q.
Arguments PoolReq {_}.
Arguments Pool {_ _ _ _} T Q.
Abbreviation PM T Q := (PS (Pool T Q)).
