(* ===== verification/Pool.v ===== *)
(** * The connection pool, its operations: core/pool.c

    Each operation is the function of the same name. [on_user] stands for the
    callback of a request, which may dispatch further requests, and
    [h2req_start] for the hand-over to the path of [TcpRequest]; an operation
    that can come back to [pool_acquire] takes it as an argument, and the knot
    is tied by the retries a request has left. *)
From stdpp Require Import gmap.
From S2P Require Import Prelude String8 U8Buf GrowArr Header Url Redirect OriginCache Proxy ReqHeaders H1 H3Control TcpRequest.
From S2P Require Export PoolState.

(** ** Linked lists of requests *)
Fixpoint unlink (r : nat) (l : list nat) : list nat :=
  match l with
  | [] => []
  | x :: l => if (x =? r)%nat then l else x :: unlink r l
  end.
(** [conns[i] = conns[--count]]. *)
Fixpoint index_of (x : nat) (l : list nat) : option nat :=
  match l with
  | [] => None
  | y :: l => if (y =? x)%nat then Some O else S <$> index_of x l
  end.
Definition swap_remove (x : nat) (l : list nat) : list nat :=
  match index_of x l, last l with
  | Some i, Some z => take (length l - 1) (<[i := z]> l)
  | _, _ => l
  end.

Section pool.
Context `{BoringSSL} `{PhrApi} `{H2Mux} `{Qpack} {T Q : Type} `{!TcpApi T} `{!QuicStreams Q} `{!QuicApi Q}.
Context (decode_content : bytes -> bytes -> option bytes).
Abbreviation PM := (PM T Q).
Abbreviation Pool := (Pool T Q).
Abbreviation PoolConn := (PoolConn T Q).

Definition upd_client (f : PoolClient -> PoolClient) : PM unit := pupd (fun s => set_p_client (f (p_client s)) s).
Definition upd_cl (f : Client -> Client) : PM unit := upd_client (fun c => set_pl_client (f (pl_client c)) c).
Definition client : PM PoolClient := pget p_client.

Definition pool_active_push (pc r : nat) : PM unit :=
  q ← get_req r; upd_pc pc (fun c => set_pc_active (pc_inflight c) (r :: pc_active c) c).
Definition pool_active_remove (pc r : nat) : PM unit :=
  c ← get_pc pc;
  walk (pc_active c);;
  upd_pc pc (fun c => set_pc_active (pc_inflight c) (unlink r (pc_active c)) c).
Definition pool_waiting_push (pc r : nat) : PM unit :=
  q ← get_req r;
  c ← get_pc pc;
  (match last (pc_waiting c) with Some t => q ← get_req t; pskip | None => pskip end);;
  upd_pc pc (fun c => set_pc_waiting (pc_waiting c ++ [r]) c).
Definition pool_waiting_pop (pc : nat) : PM (option nat) :=
  c ← get_pc pc;
  match pc_waiting c with
  | [] => mret None
  | r :: l => q ← get_req r; upd_pc pc (set_pc_waiting l);; mret (Some r)
  end.
Definition pool_waiting_remove (pc r : nat) : PM unit :=
  c ← get_pc pc;
  walk (pc_waiting c);;
  upd_pc pc (fun c => set_pc_waiting (unlink r (pc_waiting c)) c).

(** [if (pc->inflight > 0) pc->inflight--]. *)
Definition pool_dec_inflight (pc : nat) : PM unit :=
  upd_pc pc (fun c => set_pc_active (pc_inflight c - 1) (pc_active c) c).

(** ** Loop liveness *)
Definition pool_conn_set_ref (on : bool) (pc : nat) : PM unit :=
  upd_pc pc (fun c =>
    if negb (bool_decide (pc_proto c = PoolProto_H3)) then set_pc_tcp (tcp_ref on <$> pc_tcp c) c
    else set_pc_quic (quic_ref on <$> pc_quic c) c).
Definition pool_conn_ref (pc : nat) : PM unit := pool_conn_set_ref true pc.
Definition pool_conn_unref (pc : nat) : PM unit := pool_conn_set_ref false pc.

(** ** Bookkeeping *)
Definition pool_arm_sweep : PM unit := pupd (set_p_sweep true true).
Definition pool_remove_conn (pc : nat) : PM unit :=
  pupd (fun s => set_p_conns (swap_remove pc (p_conns s)) s);;
  n ← pget (length ∘ p_conns);
  pupd (fun s => if (n =? 0)%nat && p_sweep_inited s then set_p_sweep true false s else s).
(** The end of a connection's arena. *)
Definition arena_release_pc (pc : nat) : PM unit := pupd (fun s => set_p_pcs (delete pc (p_pcs s)) s).

Definition pool_conn_has_capacity (c : PoolConn) : bool :=
  if negb (bool_decide (pc_state c = PoolConnState_Ready)) || pc_broken c then false
  else match pc_proto c with
  | PoolProto_H1 => (pc_inflight c <? 1)%nat
  | PoolProto_H2 =>
      match pc_h2 c with
      | None => false
      | Some h => if h2_goaway h then false else Z.of_nat (pc_inflight c) <? h2_max_concurrent h
      end
  | PoolProto_H3 => match pc_h3c c with None => false | Some _ => (pc_inflight c <? POOL_H3_MAX_CONCURRENT)%nat end
  end.

(** Bytes for the connection. *)
Definition pool_tcp_send (pc : nat) (data : bytes) : PM unit :=
  upd_pc pc (fun c => set_pc_tcp ((fun t => tcp_send t data) <$> pc_tcp c) c).
Fixpoint pool_tcp_sends (pc : nat) (l : list bytes) : PM unit :=
  match l with
  | [] => pskip
  | d :: l => pool_tcp_send pc d;; pool_tcp_sends pc l
  end.

(** ** Closing *)
Definition pool_h2_on_fully_closed (pc : nat) : PM unit := c ← get_pc pc; pool_remove_conn pc;; arena_release_pc pc.
Definition pool_h1_on_fully_closed (pc : nat) : PM unit := c ← get_pc pc; pool_remove_conn pc;; arena_release_pc pc.
Definition pool_h3_on_fully_closed (pc : nat) : PM unit := c ← get_pc pc; pool_remove_conn pc;; arena_release_pc pc.
Definition pool_close_conn (pc : nat) : PM unit :=
  c ← get_pc pc;
  if bool_decide (pc_state c = PoolConnState_Closing) then pskip
  else
    upd_pc pc (set_pc_state PoolConnState_Closing);;
    if negb (bool_decide (pc_proto c = PoolProto_H3))
    then upd_pc pc (fun c => set_pc_tcp (tcp_close <$> pc_tcp c) c)
    else match pc_quic c with
    | None => pskip
    | Some q =>
        let '(q, now) := quic_close q in
        upd_pc pc (set_pc_quic (Some q));;
        pwhen now (pool_h3_on_fully_closed pc)
    end.

(** ** Outcomes *)
Section calls.
Context (on_user : nat -> Delivery -> PM unit) (h2req_start : PoolParams -> PM unit).

Definition deliver (r : nat) (d : Delivery) : PM unit :=
  q ← get_req r;
  pupd (add_p_log r (Delivered d));;
  on_user (pp_user (pr_params q)) d.
Definition pool_req_done (r : nat) : PM unit :=
  q ← get_req r; pupd (fun s => set_p_reqs (delete r (p_reqs s)) s).
Definition pool_req_deliver_error (r : nat) (err : bytes) : PM unit :=
  q ← get_req r;
  if pr_responded q then pskip
  else upd_req r set_pr_responded;; deliver r (DeliverError err).
Definition pool_req_fail (r : nat) (err : bytes) : PM unit := pool_req_deliver_error r err;; pool_req_done r.

(** Alt-Svc of a response, and the response for the caller. *)
Definition pool_note_alt_svc (r : nat) (headers : list Header) : PM unit :=
  q ← get_req r;
  now ← pget p_now;
  match alt_svc_of headers with
  | Some v => upd_cl (fun c => set_alt_svc (client_note_alt_svc (cl_alt_svc c) (pp_origin (pr_params q)) v now) c)
  | None => pskip
  end.
Definition pool_deliver (r : nat) (ok : bool) (status : Z) (headers : list Header) (body alpn : bytes) : PM unit :=
  deliver r (DeliverResponse (response_decode_encoding decode_content (mkResponse ok status headers body)) alpn).

Section acquire.
Context (acquire : PoolProto -> nat -> PM unit).

Definition pool_req_retry_or_fail (r : nat) (err : bytes) : PM unit :=
  q ← get_req r;
  if (0 <? pr_retries_left q)%nat && negb (pr_responded q) then
    upd_req r pr_retry;;
    acquire (pr_proto q) r
  else pool_req_deliver_error r err;; pool_req_done r.
Fixpoint retry_all (l : list nat) (err : bytes) : PM unit :=
  match l with
  | [] => pskip
  | r :: l => pool_req_retry_or_fail r err;; retry_all l err
  end.
Definition pool_conn_fail_all (pc : nat) (err : bytes) : PM unit :=
  c ← get_pc pc;
  if bool_decide (pc_state c = PoolConnState_Closing) then pskip
  else
    upd_pc pc (fun c => set_pc_waiting [] (set_pc_active 0 [] (set_pc_broken c)));;
    pool_close_conn pc;;
    retry_all (pc_active c) err;;
    retry_all (pc_waiting c) err.

(** ** What the transports call while the pool calls them *)
Definition pool_h2_on_response (r : nat) (hr : H2Response) : PM unit :=
  q ← get_req r;
  if pr_responded q then pskip
  else match pr_pc q with
  | None => bad
  | Some pc =>
      pool_active_remove pc r;;
      pool_dec_inflight pc;;
      if negb (hr_ok hr) && (hr_status hr =? 0) && (0 <? pr_retries_left q)%nat then
        pool_req_retry_or_fail r (lit "h2 stream reset")
      else
        upd_req r set_pr_responded;;
        pool_note_alt_svc r (hr_headers hr);;
        pool_deliver r (hr_ok hr) (hr_status hr) (hr_headers hr) (hr_body hr) (lit "h2");;
        pool_req_done r
  end.
(** A call of the HTTP/2 session of [pc]: its sends go to the transport, and
    its responses are told where they come. *)
Fixpoint h2_run {A} (pc : nat) (x : H2Run h2_session A) : PM A :=
  match x with
  | RunEnd a h => upd_pc pc (set_pc_h2 (Some h));; mret a
  | RunSend data x => pool_tcp_send pc data;; h2_run pc x
  | RunResponse h r hr k =>
      upd_pc pc (set_pc_h2 (Some h));;
      pool_h2_on_response r hr;;
      c ← get_pc pc;
      match pc_h2 c with Some h => h2_run pc (k h) | None => bad end
  end.

Definition on_quic (pc : nat) (f : Q -> Q) : PM unit := upd_pc pc (fun c => set_pc_quic (f <$> pc_quic c) c).
Definition pool_h3_on_closed (pc : nat) (e : option bytes) : PM unit :=
  c ← get_pc pc;
  if bool_decide (pc_state c = PoolConnState_Closing) then pskip
  else pool_conn_fail_all pc (default (lit "connection closed") e).
(** A send or a reset flushes, and a flush that fails calls [on_closed]. *)
Definition pool_quic_flushes (pc : nat) (f : Q -> Q) : PM unit :=
  on_quic pc f;;
  c ← get_pc pc;
  match pc_quic c ≫= quic_send_closed with
  | Some e => pool_h3_on_closed pc e
  | None => pskip
  end.
Definition pool_stream_send (pc : nat) (sid : Z) (data : bytes) (fin : bool) : PM unit :=
  pool_quic_flushes pc (fun q => quic_stream_send q sid data fin).
Definition pool_stream_reset (pc : nat) (sid : Z) : PM unit := pool_quic_flushes pc (fun q => quic_reset_stream q sid).

(** ** Submitting *)
Definition pool_after_submit (pc r : nat) : PM unit :=
  c ← get_pc pc;
  (if (pc_inflight c =? 0)%nat then pool_conn_ref pc;; upd_pc pc (set_pc_idle false (pc_idle_since_ms c)) else pskip);;
  upd_pc pc (fun c => set_pc_idle (pc_idle c) 0 (set_pc_active (S (pc_inflight c)) (pc_active c) c));;
  pool_active_push pc r.

(** The headers and the body of the request for a profile. *)
Definition pool_build (q : PoolReq) (cl : Client) (defaults : list DefaultHeader) (order : list bytes) : HeaderList * bytes :=
  let p := pr_params q in
  let '(hs, b) := build_request_headers defaults (pp_headers p) (pp_body p) (cl_override_default_headers cl) (pp_method p) in
  let hs := client_run_pre_hook (cl_pre_hook cl) hs in
  (apply_header_order (cl_header_order cl) (cl_override_default_headers cl) hs (pp_header_order p) order, b).

Definition pool_h2_submit (pc r : nat) : PM unit :=
  q ← get_req r;
  cl ← client;
  c ← get_pc pc;
  let '(hs, body) := pool_build q (pl_client cl) (cl_default_headers (pl_client cl)) (cl_fetch_order (pl_client cl)) in
  let p := pr_params q in
  match pc_h2 c with
  | None => bad
  | Some h =>
      sid ← h2_run pc (h2_submit h (method_str (pp_method p)) (scheme (pp_parsed p)) (authority (pp_parsed p))
                         (path (pp_parsed p)) (ga_list hs) body r);
      if sid <? 0 then pool_req_fail r (lit "h2 submit failed")
      else upd_req r (set_pr_h2_stream_id sid);; pool_after_submit pc r
  end.

Definition pool_h1_submit (pc r : nat) : PM unit :=
  q ← get_req r;
  cl ← client;
  let '(hs, body) := pool_build q (pl_client cl) (cl_default_headers (pl_client cl)) (cl_fetch_order (pl_client cl)) in
  let p := pr_params q in
  let h1_headers := build_h1_headers (cl_default_headers (pl_client cl)) (ga_list hs) in
  let '(rc, h1) := h1_session_submit_request (h1_session_alloc phr_chunk_zero) (method_str (pp_method p))
                     (authority (pp_parsed p)) (path (pp_parsed p)) (ga_list h1_headers) body
                     (bool_decide (pp_method p = Method_HEAD)) true in
  upd_req r (set_pr_h1 (Some h1));;
  pool_tcp_sends pc (h1_sent h1);;
  if rc <? 0 then pool_req_fail r (lit "h1 submit failed")
  else pool_after_submit pc r.

(** A stream of the connection is opened; [None] is a failure. *)
Definition pool_open_stream (open : Q -> option Z * Q) (pc : nat) : PM (option Z) :=
  c ← get_pc pc;
  match pc_quic c with
  | None => bad
  | Some q => let '(id, q) := open q in upd_pc pc (set_pc_quic (Some q));; mret id
  end.
Definition upd_h3c (pc : nat) (f : H3Conn -> H3Conn) : PM unit := upd_pc pc (fun c => set_pc_h3c (f <$> pc_h3c c) c).

(** The control and QPACK streams, opened with the first request; [false] is a
    failure. *)
Definition pool_h3_control (pc : nat) (hc : H3Conn) (prof : Http3Profile) (sid : Z) : PM bool :=
  if negb (hc_control_opened hc) then
    ctrl ← pool_open_stream quic_open_uni_stream pc;
    match ctrl with
    | None => mret false
    | Some ctrl =>
        upd_h3c pc (set_hc_control false ctrl (hc_qenc_id hc) (hc_qdec_id hc));;
        enc ← pool_open_stream quic_open_uni_stream pc;
        match enc with
        | None => mret false
        | Some enc =>
            upd_h3c pc (set_hc_control false ctrl enc (hc_qdec_id hc));;
            dec ← pool_open_stream quic_open_uni_stream pc;
            match dec with
            | None => mret false
            | Some dec =>
                pool_stream_send pc ctrl (build_h3_control_stream prof sid) false;;
                pool_stream_send pc enc [2] false;;
                pool_stream_send pc dec [3] false;;
                upd_h3c pc (set_hc_control true ctrl enc dec);;
                mret true
            end
        end
    end
  else
    pwhen (send_priority_update prof)
      (pool_stream_send pc (hc_ctrl_id hc) (build_h3_priority_update sid) false);;
    mret true.

(** The request's frames. *)
Definition pool_send_frames (pc : nat) (sid : Z) (pbuf rbuf body : bytes) : PM unit :=
  let has_body := negb (length body =? 0)%nat in
  pool_stream_send pc sid (headers_frame pbuf rbuf) (negb has_body);;
  pwhen has_body (pool_stream_send pc sid (data_frame body) true).

Definition pool_h3_submit (pc r : nat) : PM unit :=
  q ← get_req r;
  cl ← client;
  c ← get_pc pc;
  let prof := pl_h3_profile cl in
  let '(hs, body) := pool_build q (pl_client cl) (pl_h3_default_headers cl) (pl_h3_fetch_order cl) in
  let p := pr_params q in
  match pc_h3c c with
  | None => bad
  | Some hc =>
      sid ← pool_open_stream quic_open_bidi_stream pc;
      match sid with
      | None => pool_req_retry_or_fail r (lit "h3 open stream failed")
      | Some sid =>
          upd_req r (fun q => set_pr_h3 sid (u8buf_init 0) (pr_h3_fin q) q);;
          opened ← pool_h3_control pc hc prof sid;
          if negb opened then pool_req_retry_or_fail r (lit "h3 open uni failed")
          else
            let nva := map (pseudo_field (method_str (pp_method p)) (lit "https") (authority (pp_parsed p)) (path (pp_parsed p)))
                         (pseudo_order prof) ++ map (fun h => (h_name h, h_value h)) (ga_list hs) in
            let '(enc, e) := qpack_encode (hc_qenc hc) sid nva in
            upd_h3c pc (fun hc => set_hc_codec e (hc_qdec hc) hc);;
            match enc with
            | None => pool_req_retry_or_fail r (lit "h3 qpack encode failed")
            | Some (pbuf, rbuf) =>
                pool_send_frames pc sid pbuf rbuf body;;
                upd_h3c pc (fun hc => if (length (hc_streams hc) <? H3_MAX_STREAMS)%nat
                                      then set_hc_streams (hc_streams hc ++ [r]) hc else hc);;
                pool_after_submit pc r
            end
      end
  end.

Definition pool_in_recv (c : PoolConn) : bool :=
  if bool_decide (pc_proto c = PoolProto_H3) then match pc_quic c with Some q => quic_in_recv q | None => false end
  else pc_in_drain c.
Definition pool_submit (pc r : nat) : PM unit :=
  upd_req r (set_pr_pc (Some pc));;
  c ← get_pc pc;
  if pool_in_recv c then pool_waiting_push pc r
  else if bool_decide (pc_proto c = PoolProto_H3) && negb (pool_conn_has_capacity c) then pool_waiting_push pc r
  else match pc_proto c with
  | PoolProto_H2 => pool_h2_submit pc r
  | PoolProto_H1 => pool_h1_submit pc r
  | PoolProto_H3 => pool_h3_submit pc r
  end.

(** ** Opening *)
Definition pool_setup (proto : PoolProto) (cl : PoolClient) (origin : bytes) (now : Z) :
  ConnSetup * list (ResumeCacheEntry SSL_SESSION) :=
  let c := pl_client cl in
  let ech := if cl_ech_enabled c then
               match ech_cache_get (cl_ech_cache c) origin now with Some e => ee_config e | None => [] end
             else [] in
  let '(sess, cache) := if cl_resume_enabled c then resume_cache_get (cl_resume_cache c) origin now
                        else (None, cl_resume_cache c) in
  let local := (fun ip => str8_cstring ip) <$> cl_local_address c in
  (match proto with
   | PoolProto_H3 =>
       mkSetup _ (pl_h3_ctx cl) (pl_h3_tls cl) local
         (if bool_decide (px_type (pl_proxy cl) = ProxyType_Socks5) then Some (pl_proxy cl, None, None) else None) ech sess
   | _ =>
       mkSetup _ (cl_ctx c) (if bool_decide (proto = PoolProto_H1) then cl_h1_tls c else cl_tls c) local
         (if bool_decide (px_type (pl_proxy cl) = ProxyType_None) then None
          else Some (pl_proxy cl, cl_proxy_ctx c, cl_proxy_tls c)) ech sess
   end, cache).
(** The origin as the connection keeps it: a C string of at most 255 bytes. *)
Definition pool_key (origin : bytes) : bytes := take 255 origin ++ [0].

Definition pool_conn_open (proto : PoolProto) (r : nat) : PM (option nat) :=
  n ← pget (length ∘ p_conns);
  if (POOL_MAX_CONNS <=? n)%nat then mret None
  else
    q ← get_req r;
    cl ← client;
    now ← pget p_now;
    let origin := pp_origin (pr_params q) in
    let pu := pp_parsed (pr_params q) in
    let '(cs, cache) := pool_setup proto cl origin now in
    upd_cl (set_resume_cache cache);;
    upd_client count_created;;
    let host := str8_cstring (host pu ++ [0]) in
    let conn tcp quic :=
      mkPoolConn proto (pool_key origin) tcp None quic None PoolConnState_Handshaking false false false 0 0 [] [] in
    let '(c, err) :=
      match proto with
      | PoolProto_H3 => let '(q, err) := quic_connect cs (pl_h3_profile cl) host (port pu) in (conn None (Some q), err)
      | _ => let '(t, err) := tcp_connect cs host (port pu) in (conn (Some t) None, err)
      end in
    pc ← new_pc c;
    pupd (fun s => set_p_conns (p_conns s ++ [pc]) s);;
    pool_arm_sweep;;
    (* on_ready called inside the connect *)
    (match err with Some e => pool_conn_fail_all pc e | None => pskip end);;
    mret (Some pc).

(** ** Acquiring *)
Record pool_scan := mkScan {
  sc_reusable : option nat;
  sc_reusable_any : option nat;
  sc_handshaking : option nat;
  sc_origin_count : nat
}.
Definition or_first (o : option nat) (pc : nat) : option nat := match o with None => Some pc | _ => o end.
Definition scan_conn (proto : PoolProto) (origin : bytes) (pc : nat) (c : PoolConn) (k : pool_scan) : pool_scan :=
  if negb (bool_decide (pc_proto c = proto)) || pc_broken c || bool_decide (pc_state c = PoolConnState_Closing) then k
  else if negb (str8_match origin (str8_cstring (pc_origin c))) then k
  else
    let n := S (sc_origin_count k) in
    match pc_state c with
    | PoolConnState_Handshaking => mkScan (sc_reusable k) (sc_reusable_any k) (or_first (sc_handshaking k) pc) n
    | PoolConnState_Ready =>
        mkScan (if pool_conn_has_capacity c then or_first (sc_reusable k) pc else sc_reusable k)
          (or_first (sc_reusable_any k) pc) (sc_handshaking k) n
    | PoolConnState_Closing => k
    end.
Fixpoint scan (proto : PoolProto) (origin : bytes) (conns : list nat) (k : pool_scan) : PM pool_scan :=
  match conns with
  | [] => mret k
  | pc :: conns => c ← get_pc pc; scan proto origin conns (scan_conn proto origin pc c k)
  end.

(** A request joins the queue of a connection. *)
Definition pool_park (pc r : nat) : PM unit := upd_req r (set_pr_pc (Some pc));; pool_waiting_push pc r.

Definition pool_acquire_body (proto : PoolProto) (r : nat) : PM unit :=
  q ← get_req r;
  conns ← pget p_conns;
  k ← scan proto (pp_origin (pr_params q)) conns (mkScan None None None 0);
  cl ← client;
  let coalesce := negb (bool_decide (proto = PoolProto_H1)) in
  match sc_reusable k with
  | Some pc => upd_client count_reuse;; pool_submit pc r
  | None =>
      match (if coalesce then sc_handshaking k else None) with
      | Some pc => pool_park pc r
      | None =>
          if (Z.of_nat (sc_origin_count k) <? to_int (pl_max_conns_per_origin cl)) && (length conns <? POOL_MAX_CONNS)%nat then
            pc ← pool_conn_open proto r;
            match pc with
            | None => pool_req_fail r (lit "pool: connection alloc failed")
            | Some pc => pool_park pc r
            end
          else
            match (if coalesce then sc_reusable_any k
                   else match sc_handshaking k with Some pc => Some pc | None => sc_reusable_any k end) with
            | Some pc => upd_client count_reuse;; if coalesce then pool_submit pc r else pool_park pc r
            | None => pool_req_fail r (lit "pool: no connection available")
            end
      end
  end.
End acquire.

(** Each nested call has used up a retry of a request. *)
Fixpoint pool_acquire_n (n : nat) (proto : PoolProto) (r : nat) : PM unit :=
  match n with
  | O => bad
  | S n => pool_acquire_body (pool_acquire_n n) proto r
  end.
(** The retries the requests have left, all together: a deeper nest has no retry
    to use up. *)
Definition retries_left (s : Pool) : nat := map_fold (fun _ q n => (pr_retries_left q + n)%nat) O (p_reqs s).
Definition pool_acquire (proto : PoolProto) (r : nat) : PM unit := n ← pget retries_left; pool_acquire_n (S n) proto r.

(** The rest of the file is outside [Section acquire]: the operations with the
    knot tied. *)
Abbreviation submit := (pool_submit pool_acquire).
Abbreviation retry_or_fail := (pool_req_retry_or_fail pool_acquire).
Abbreviation fail_all := (pool_conn_fail_all pool_acquire).
Abbreviation run_h2 := (h2_run pool_acquire).

Definition pool_req_new (proto : PoolProto) (p : PoolParams) : PoolReq :=
  mkPoolReq p proto None 0 None POOL_MAX_RETRIES false (pp_deadline p) 0 (u8buf_init 0) false.
Definition pool_dispatch (proto : PoolProto) (m : Method) (url : bytes) (headers : list Header) (body : bytes)
  (user : nat) (deadline : bool) (header_order : bytes) : PM unit :=
  let pu := url_parse url in
  let p := mkParams user m url headers body header_order pu deadline in
  if negb (ok pu) || negb (https pu) then
    let d := DeliverError (lit "invalid or non-https URL") in
    new_refused (Delivered d);;
    on_user user d
  else
    r ← new_req (pool_req_new proto p);
    upd_client count_request;;
    pool_acquire proto r.

(** ** Queues *)
Fixpoint flush_loop (fuel : nat) (pc : nat) : PM unit :=
  match fuel with
  | O => pskip
  | S fuel =>
      c ← get_pc pc;
      if (0 <? length (pc_waiting c))%nat && pool_conn_has_capacity c then
        r ← pool_waiting_pop pc;
        (match r with Some r => submit pc r | None => pskip end);;
        flush_loop fuel pc
      else pskip
  end.
Definition pool_flush_waiting (pc : nat) : PM unit := c ← get_pc pc; flush_loop (length (pc_waiting c)) pc.

Fixpoint reacquire_all (proto : PoolProto) (l : list nat) : PM unit :=
  match l with
  | [] => pskip
  | r :: l => upd_req r (set_pr_pc None);; pool_acquire proto r;; reacquire_all proto l
  end.
Definition pool_update_idle (pc : nat) : PM unit :=
  c ← get_pc pc;
  if bool_decide (pc_state c = PoolConnState_Closing) then pskip
  else if pc_broken c then
    upd_pc pc (set_pc_waiting []);;
    reacquire_all (pc_proto c) (pc_waiting c);;
    c ← get_pc pc;
    if (pc_inflight c =? 0)%nat then pool_close_conn pc else pskip
  else if (pc_inflight c =? 0)%nat && bool_decide (pc_state c = PoolConnState_Ready) && negb (pc_idle c) then
    now ← pget p_now;
    upd_pc pc (set_pc_idle true now);;
    pool_conn_unref pc
  else pskip.

(** ** HTTP/2 *)
Fixpoint hand_over (l : list nat) : PM unit :=
  match l with
  | [] => pskip
  | r :: l =>
      q ← get_req r;
      h2req_start (pr_params q);;
      pupd (add_p_log r HandedOver);;
      pool_req_done r;;
      hand_over l
  end.
Definition pool_conn_fallback_legacy (pc : nat) : PM unit :=
  c ← get_pc pc;
  upd_pc pc (set_pc_waiting []);;
  hand_over (pc_waiting c);;
  upd_pc pc set_pc_broken;;
  pool_close_conn pc.

(** [conn_read_plaintext]. *)
Definition pool_read (pc : nat) : PM bytes :=
  c ← get_pc pc;
  match pc_tcp c with
  | None => bad
  | Some t => let '(data, t) := tcp_read t in upd_pc pc (set_pc_tcp (Some t));; mret data
  end.
(** After the loop of a drain: [true] when the loop ended by itself, [false]
    when it returned after a protocol error. *)
Definition pool_h2_drain_round (pc : nat) : PM (option bool) :=
  data ← pool_read pc;
  if (length data =? 0)%nat then mret (Some true)
  else
    c ← get_pc pc;
    match pc_h2 c with
    | None => mret (Some true)
    | Some h =>
        rv ← run_h2 pc (h2_recv h data);
        if rv <? 0 then
          upd_pc pc (set_pc_in_drain false);;
          fail_all pc (lit "h2 protocol error");;
          mret (Some false)
        else
          c ← get_pc pc;
          if bool_decide (pc_state c = PoolConnState_Closing) || pc_broken c then mret (Some true) else mret None
    end.
(** A loop whose rounds give its result, and a loop that never ends. *)
Definition ploop (round : PM (option bool)) : PM bool :=
  fun s =>
    match loop_pow 64 (fun s => match round s with
                                | Some (None, s) => inl s
                                | Some (Some b, s) => inr (Some (b, s))
                                | None => inr None
                                end) s with
    | inl s => Some (true, s)
    | inr x => x
    end.
Definition pool_h2_drain (pc : nat) : PM unit :=
  c ← get_pc pc;
  if bool_decide (pc_state c = PoolConnState_Closing) then pskip
  else
    upd_pc pc (set_pc_in_drain true);;
    more ← ploop (pool_h2_drain_round pc);
    if negb more then pskip
    else
      upd_pc pc (set_pc_in_drain false);;
      c ← get_pc pc;
      pwhen (match pc_h2 c with Some h => h2_goaway h | None => false end) (upd_pc pc set_pc_broken);;
      pool_flush_waiting pc;;
      pool_update_idle pc.

Definition pool_h2_on_ready (pc : nat) (err : option bytes) : PM unit :=
  match err with
  | Some e => fail_all pc e
  | None =>
      c ← get_pc pc;
      match pc_tcp c with
      | None => bad
      | Some t =>
          if negb (str8_match (tcp_alpn t) (lit "h2")) then pool_conn_fallback_legacy pc
          else match h2_alloc with
          | None => fail_all pc (lit "h2 session init failed")
          | Some h =>
              let '(ok, h, sends) := h2_start h in
              upd_pc pc (set_pc_h2 (Some h));;
              pool_tcp_sends pc sends;;
              if negb ok then fail_all pc (lit "h2 session init failed")
              else
                upd_pc pc (set_pc_state PoolConnState_Ready);;
                pool_flush_waiting pc;;
                pool_h2_drain pc
          end
      end
  end.
Definition pool_h2_on_closed (pc : nat) (e : option bytes) : PM unit :=
  c ← get_pc pc;
  if bool_decide (pc_state c = PoolConnState_Closing) then pskip
  else fail_all pc (default (lit "connection closed") e).

(** ** HTTP/1.1 *)
Definition pool_h1_on_response (r : nat) (hr : H1Response) : PM unit :=
  q ← get_req r;
  if pr_responded q then pskip
  else match pr_pc q with
  | None => bad
  | Some pc =>
      pool_active_remove pc r;;
      pool_dec_inflight pc;;
      if negb (H1.r_ok hr) && (H1.r_status hr =? 0) && (0 <? pr_retries_left q)%nat then
        retry_or_fail r (lit "h1 request failed")
      else
        upd_req r set_pr_responded;;
        pool_note_alt_svc r (ga_list (H1.r_headers hr));;
        pool_deliver r (H1.r_ok hr) (H1.r_status hr) (ga_list (H1.r_headers hr)) (H1.r_body hr) (lit "http/1.1");;
        c ← get_pc pc;
        pool_req_done r;;
        pwhen (negb (r_keep_alive hr && H1.r_ok hr && negb (pc_broken c))) (upd_pc pc set_pc_broken)
  end.
Fixpoint h1_responses (r : nat) (l : list H1Response) : PM unit :=
  match l with
  | [] => pskip
  | hr :: l => pool_h1_on_response r hr;; h1_responses r l
  end.
(** The head of a response is complete with [data] and is all of it: the session
    [h] gives the response, and [h1_session_recv] reads its state once more when
    the response callback is back. *)
Definition h1_reads_on (h : H1Session phr_chunk) (data : bytes) : bool :=
  if negb (bool_decide (h1_state h = H1State_Headers)) then false
  else
    let i := u8buf_append (h1_in h) data in
    if H1_MAX_HEADER_REGION <? u8_len i then false
    else match phr_parse (u8_v i) H1_MAX_HEADERS (h1_parsed_off h) with
    | phr_done rc minor status hdr =>
        let h := set_head status (wrap32 minor) rc (h1_copy_headers (h1_headers h) hdr) (set_in i (h1_parsed_off h) h) in
        negb (h1_delivered h) && h1_delivered (h1_begin_body phr_consume_trailer h)
    | _ => false
    end.
Definition pool_h1_drain_round (pc : nat) : PM (option bool) :=
  data ← pool_read pc;
  if (length data =? 0)%nat then mret (Some true)
  else
    c ← get_pc pc;
    match pc_active c with
    | [] => mret (Some true)
    | r :: _ =>
        q ← get_req r;
        match pr_h1 q with
        | None => mret (Some true)
        | Some h =>
            let '(rv, h') := h1_session_recv phr_consume_trailer phr_parse phr_decode h data in
            upd_req r (set_pr_h1 (Some h'));;
            h1_responses r (drop (length (h1_out h)) (h1_out h'));;
            (* the callback has released the session *)
            pwhen (h1_reads_on h data && negb (pr_responded q)) (pupd (add_p_stale r));;
            match rv with
            | None =>
                upd_pc pc (set_pc_in_drain false);;
                fail_all pc (lit "h1 parse error");;
                mret (Some false)
            | Some _ =>
                c ← get_pc pc;
                if bool_decide (pc_state c = PoolConnState_Closing) || pc_broken c then mret (Some true) else mret None
            end
        end
    end.
Definition pool_h1_drain (pc : nat) : PM unit :=
  c ← get_pc pc;
  if bool_decide (pc_state c = PoolConnState_Closing) then pskip
  else
    upd_pc pc (set_pc_in_drain true);;
    more ← ploop (pool_h1_drain_round pc);
    if negb more then pskip
    else
      upd_pc pc (set_pc_in_drain false);;
      pool_flush_waiting pc;;
      pool_update_idle pc.
Definition pool_h1_on_ready (pc : nat) (err : option bytes) : PM unit :=
  match err with
  | Some e => fail_all pc e
  | None =>
      c ← get_pc pc;
      match pc_tcp c with
      | None => bad
      | Some t =>
          if (0 <? length (tcp_alpn t))%nat && negb (str8_match (tcp_alpn t) (lit "http/1.1"))
          then fail_all pc (lit "pool: server did not negotiate http/1.1")
          else
            upd_pc pc (set_pc_state PoolConnState_Ready);;
            pool_flush_waiting pc
      end
  end.
Definition pool_h1_on_closed (pc : nat) (e : option bytes) : PM unit :=
  c ← get_pc pc;
  if bool_decide (pc_state c = PoolConnState_Closing) then pskip
  else
    (match pc_active c with
     | [] => pskip
     | r :: _ =>
         q ← get_req r;
         match pr_h1 q with
         | None => pskip
         | Some h =>
             let h' := h1_session_eof h in
             upd_req r (set_pr_h1 (Some h'));;
             h1_responses r (drop (length (h1_out h)) (h1_out h'))
         end
     end);;
    fail_all pc (default (lit "connection closed") e).

(** ** HTTP/3 *)
(** The request a stream of the table belongs to, and its place. *)
Fixpoint pool_h3_find (streams : list nat) (sid : Z) (i : nat) : PM (option (nat * nat)) :=
  match streams with
  | [] => mret None
  | r :: streams =>
      q ← get_req r;
      if pr_h3_stream_id q =? sid then mret (Some (i, r)) else pool_h3_find streams sid (S i)
  end.
Definition pool_h3_find_stream (hc : H3Conn) (sid : Z) : PM (option nat) :=
  x ← pool_h3_find (hc_streams hc) sid 0; mret (snd <$> x).
Definition swap_remove_at (i : nat) (l : list nat) : list nat :=
  match last l with Some z => take (length l - 1) (<[i := z]> l) | None => l end.
Definition pool_h3_remove_stream (pc : nat) (sid : Z) : PM unit :=
  c ← get_pc pc;
  match pc_h3c c with
  | None => bad
  | Some hc =>
      x ← pool_h3_find (hc_streams hc) sid 0;
      match x with
      | Some (i, _) => upd_h3c pc (set_hc_streams (swap_remove_at i (hc_streams hc)))
      | None => pskip
      end
  end.
Definition pool_h3_finish (pc r : nat) : PM unit :=
  c ← get_pc pc;
  q ← get_req r;
  match pc_h3c c with
  | None => bad
  | Some hc =>
      if pr_responded q then pskip
      else
        pool_h3_remove_stream pc (pr_h3_stream_id q);;
        pool_active_remove pc r;;
        pool_dec_inflight pc;;
        let '(status, headers, qdec, body) :=
          parse_response (decode_block (pr_h3_stream_id q)) (0, header_list_init, hc_qdec hc) (u8_v (pr_h3_in q)) in
        upd_h3c pc (fun hc => set_hc_codec (hc_qenc hc) qdec hc);;
        if (status =? 0) && (0 <? pr_retries_left q)%nat then retry_or_fail r (lit "h3 stream reset")
        else
          upd_req r set_pr_responded;;
          pool_deliver r (negb (status =? 0)) status (ga_list headers) body (lit "h3");;
          pool_req_done r
  end.
Definition pool_h3_on_stream_data (pc : nat) (sid : Z) (data : bytes) (fin : bool) : PM unit :=
  c ← get_pc pc;
  match pc_h3c c with
  | None => pskip
  | Some hc =>
      r ← pool_h3_find_stream hc sid;
      match r with
      | Some r =>
          upd_req r (fun q => set_pr_h3 (pr_h3_stream_id q) (u8buf_append (pr_h3_in q) data) (pr_h3_fin q) q);;
          if fin then
            upd_req r (fun q => set_pr_h3 (pr_h3_stream_id q) (pr_h3_in q) true q);;
            pool_h3_finish pc r
          else pskip
      | None =>
          let '(us, fed) := uni_data (hc_uni hc) sid data in
          upd_h3c pc (set_hc_uni us);;
          match fed with
          | Some p => upd_h3c pc (fun hc => set_hc_codec (hc_qenc hc) (qpack_read_encoder (hc_qdec hc) p) hc)
          | None => pskip
          end
      end
  end.
Definition pool_h3_on_stream_close (pc : nat) (sid : Z) : PM unit :=
  c ← get_pc pc;
  match pc_h3c c with
  | None => pskip
  | Some hc =>
      r ← pool_h3_find_stream hc sid;
      match r with
      | Some r =>
          q ← get_req r;
          if pr_h3_fin q then pskip
          else
            upd_req r (fun q => set_pr_h3 (pr_h3_stream_id q) (pr_h3_in q) true q);;
            pool_h3_finish pc r
      | None => pskip
      end
  end.
Definition pool_h3_on_ready (pc : nat) (err : option bytes) : PM unit :=
  match err with
  | Some e => fail_all pc e
  | None =>
      c ← get_pc pc;
      match pc_quic c with
      | None => bad
      | Some q =>
          if negb (str8_match (quic_alpn q) (lit "h3")) then fail_all pc (lit "pool: server did not negotiate h3")
          else match qpack_encoder_new, qpack_decoder_new with
          | Some e, Some d =>
              upd_pc pc (set_pc_h3c (Some (mkH3Conn e d false (-1) (-1) (-1) [] [])));;
              upd_pc pc (set_pc_state PoolConnState_Ready);;
              pwhen (negb (quic_in_recv q)) (pool_flush_waiting pc)
          | _, _ => fail_all pc (lit "h3 qpack init failed")
          end
      end
  end.
Definition pool_h3_recv_done (pc : nat) : PM unit := pool_flush_waiting pc;; pool_update_idle pc.

(** ** Deadlines *)
Definition pool_req_timeout (r : nat) : PM unit :=
  q ← get_req r;
  if pr_responded q then pskip
  else
    pool_req_deliver_error r (lit "timeout");;
    (match pr_pc q with
     | None => pskip
     | Some pc =>
         c ← get_pc pc;
         walk (pc_active c);;
         if bool_decide (r ∈ pc_active c) then
           (match pr_proto q with
            | PoolProto_H2 =>
                match pc_h2 c with
                | Some h => run_h2 pc (h2_cancel h (pr_h2_stream_id q))
                | None => pskip
                end
            | _ =>
                pool_stream_reset pool_acquire pc (pr_h3_stream_id q);;
                match pc_h3c c with Some _ => pool_h3_remove_stream pc (pr_h3_stream_id q) | None => pskip end
            end);;
           pool_active_remove pc r;;
           pool_dec_inflight pc
         else pool_waiting_remove pc r
     end);;
    pool_req_done r;;
    match pr_pc q with
    | None => pskip
    | Some pc =>
        c ← get_pc pc;
        if bool_decide (pc_state c = PoolConnState_Closing) then pskip
        else pool_flush_waiting pc;; pool_update_idle pc
    end.

(** ** Sweeping and ending *)
Fixpoint sweep_loop (fuel i : nat) (idle_to : Z) : PM unit :=
  match fuel with
  | O => pskip
  | S fuel =>
      conns ← pget p_conns;
      match conns !! i with
      | None => pskip
      | Some pc =>
          c ← get_pc pc;
          now ← pget p_now;
          (if bool_decide (pc_state c = PoolConnState_Closing) then pskip
           else if pc_broken c && (pc_inflight c =? 0)%nat then pool_close_conn pc
           else if bool_decide (pc_state c = PoolConnState_Ready) && (pc_inflight c =? 0)%nat &&
                   (idle_to <=? wrap64 (now - pc_idle_since_ms c)) then pool_close_conn pc
           else pskip);;
          sweep_loop fuel (S i) idle_to
      end
  end.
Definition pool_sweep_cb : PM unit :=
  cl ← client;
  n ← pget (length ∘ p_conns);
  let idle_to := if pl_pool_idle_timeout_ms cl =? 0 then POOL_DEFAULT_IDLE_MS else pl_pool_idle_timeout_ms cl in
  sweep_loop n 0 idle_to.

(** From the last connection down, [i] counting the ones left. *)
Fixpoint drain_loop (i : nat) : PM unit :=
  match i with
  | O => pskip
  | S i =>
      conns ← pget p_conns;
      (match conns !! i with Some pc => pool_close_conn pc | None => bad end);;
      drain_loop i
  end.
Definition pool_drain : PM unit :=
  n ← pget (length ∘ p_conns);
  drain_loop n;;
  pupd (fun s => if p_sweep_inited s then set_p_sweep false false s else s).
Fixpoint break_loop (conns : list nat) : PM unit :=
  match conns with
  | [] => pskip
  | pc :: conns =>
      c ← get_pc pc;
      pwhen (negb (bool_decide (pc_state c = PoolConnState_Closing))) (upd_pc pc set_pc_broken);;
      break_loop conns
  end.
Fixpoint evict_loop (i : nat) : PM unit :=
  match i with
  | O => pskip
  | S i =>
      conns ← pget p_conns;
      (match conns !! i with
       | Some pc =>
           c ← get_pc pc;
           pwhen (pc_broken c && (pc_inflight c =? 0)%nat) (pool_close_conn pc)
       | None => bad
       end);;
      evict_loop i
  end.
Definition pool_evict_all : PM unit :=
  conns ← pget p_conns;
  break_loop conns;;
  evict_loop (length conns).
Definition pool_alloc (cl : PoolClient) (now : Z) : Pool := mkPool cl [] false false ∅ ∅ 0 0 now [] [].

(** ** The loop

    What the environment can do: the calls of the transports, with the state
    the transport is in when it makes them, the timers, and the caller. *)
Inductive QuicItem :=
| QuicReady (err : option bytes)
| QuicData (sid : Z) (data : bytes) (fin : bool)
| QuicClose (sid : Z).
Inductive pool_event :=
| EvDispatch (proto : PoolProto) (m : Method) (url : bytes) (headers : list Header) (body : bytes) (user : nat)
    (deadline : bool) (header_order : bytes)
| EvTcpReady (pc : nat) (t : T) (err : option bytes)
| EvTcpReadable (pc : nat) (t : T)
| EvTcpClosed (pc : nat) (t : T) (e : option bytes)
| EvQuicReady (pc : nat) (q : Q) (err : option bytes)
| EvQuicRecv (pc : nat) (q : Q) (items : list QuicItem)
| EvQuicClosed (pc : nat) (q : Q) (e : option bytes)
| EvFullyClosed (pc : nat)
| EvTimeout (r : nat)
| EvSweep
| EvEvictAll
| EvDrain
| EvClient (f : PoolClient)
| EvNow (now : Z).

(** A connection the pool closes during a packet gets no more calls for its
    streams. *)
Fixpoint quic_items (pc : nat) (items : list QuicItem) : PM unit :=
  match items with
  | [] => pskip
  | it :: items =>
      c ← get_pc pc;
      if bool_decide (pc_state c = PoolConnState_Closing) then pskip
      else
        (match it with
         | QuicReady err => pool_h3_on_ready pc err
         | QuicData sid data fin => pool_h3_on_stream_data pc sid data fin
         | QuicClose sid => pool_h3_on_stream_close pc sid
         end);;
        quic_items pc items
  end.
Definition pool_handle (ev : pool_event) : PM unit :=
  match ev with
  | EvDispatch proto m url headers body user deadline order => pool_dispatch proto m url headers body user deadline order
  | EvTcpReady pc t err =>
      upd_pc pc (set_pc_tcp (Some t));;
      c ← get_pc pc;
      if bool_decide (pc_proto c = PoolProto_H1) then pool_h1_on_ready pc err else pool_h2_on_ready pc err
  | EvTcpReadable pc t =>
      upd_pc pc (set_pc_tcp (Some t));;
      c ← get_pc pc;
      if bool_decide (pc_proto c = PoolProto_H1) then pool_h1_drain pc else pool_h2_drain pc
  | EvTcpClosed pc t e =>
      upd_pc pc (set_pc_tcp (Some t));;
      c ← get_pc pc;
      if bool_decide (pc_proto c = PoolProto_H1) then pool_h1_on_closed pc e else pool_h2_on_closed pc e
  | EvQuicReady pc q err => upd_pc pc (set_pc_quic (Some q));; pool_h3_on_ready pc err
  | EvQuicRecv pc q items =>
      upd_pc pc (set_pc_quic (Some q));;
      quic_items pc items;;
      on_quic pc quic_recv_end;;
      pool_h3_recv_done pc
  | EvQuicClosed pc q e => upd_pc pc (set_pc_quic (Some q));; pool_h3_on_closed pool_acquire pc e
  | EvFullyClosed pc =>
      c ← get_pc pc;
      match pc_proto c with
      | PoolProto_H2 => pool_h2_on_fully_closed pc
      | PoolProto_H1 => pool_h1_on_fully_closed pc
      | PoolProto_H3 => pool_h3_on_fully_closed pc
      end
  | EvTimeout r => pool_req_timeout r
  | EvSweep => pool_sweep_cb
  | EvEvictAll => pool_evict_all
  | EvDrain => pool_drain
  | EvClient cl => upd_client (fun _ => cl)
  | EvNow now => pupd (set_p_now now)
  end.
End calls.
End pool.
