(* ===== verification/PoolInv.v ===== *)
(** * The connection pool, its invariant

    Every request that is not answered yet waits or is in flight on exactly one
    connection of its origin and protocol, or is in the hands of the operation
    that runs ([F]); [D] says which requests of the connection being read the
    HTTP/2 session has already closed. *)
From stdpp Require Import gmap relations.
From S2P Require Import Prelude String8 U8Buf GrowArr Header Url Redirect OriginCache Proxy ReqHeaders H1 H3Control TcpRequest.
From S2P Require Export Pool.

(** ** The documented behaviour of the sessions and transports

    [open] lists the streams of an HTTP/2 session that have a request,
    [opened] the request streams a QUIC connection has opened. *)
Section runs.
Context {S A : Type} (open : S -> list (Z * nat)).
(** The result of a call that calls no response callback. *)
Fixpoint run_sends (x : H2Run S A) : option (A * S) :=
  match x with
  | RunEnd a h => Some (a, h)
  | RunSend _ x => run_sends x
  | RunResponse _ _ _ _ => None
  end.
(** A call that starts with the streams [o] open, and with [P], the requests of
    streams it has closed and not told yet: each response is for one of those,
    and at the end all are told. *)
Fixpoint run_tells (P : list nat) (o : list (Z * nat)) (x : H2Run S A) : Prop :=
  match x with
  | RunEnd _ h => P = [] /\ o ≡ₚ open h
  | RunSend _ x => run_tells P o x
  | RunResponse h r _ k => exists closed P', o ≡ₚ (closed ++ open h) /\ (P ++ map snd closed) ≡ₚ (r :: P') /\
      forall h', run_tells P' (open h') (k h')
  end.
End runs.
Record h2_laws `{H2Mux} (open : h2_session -> list (Z * nat)) : Prop := {
  h2_start_open h ok h' sends : h2_alloc = Some h -> h2_start h = (ok, h', sends) -> open h' = [];
  h2_submit_open h m sc au pa hs b r sid h' : run_sends (h2_submit h m sc au pa hs b r) = Some (sid, h') ->
    open h' ≡ₚ ((if sid <? 0 then [] else [(sid, r)]) ++ open h);
  h2_submit_room h m sc au pa hs b r sid h' : run_sends (h2_submit h m sc au pa hs b r) = Some (sid, h') ->
    (h2_goaway h = true -> h2_goaway h' = true) /\ h2_max_concurrent h' <= h2_max_concurrent h;
  h2_recv_open h data : run_tells open [] (open h) (h2_recv h data);
  h2_cancel_open h sid x h' : run_sends (h2_cancel h sid) = Some (x, h') -> open h' ≡ₚ filter (fun x => (x.1) <> sid) (open h);
  h2_open_sids h : NoDup (open h).*1
}.
(** A restriction on the runs: no stream closes inside a submission or a
    cancellation. *)
Record h2_calm `{H2Mux} : Prop := {
  h2_submit_calm h m sc au pa hs b r : is_Some (run_sends (h2_submit h m sc au pa hs b r));
  h2_cancel_calm h sid : is_Some (run_sends (h2_cancel h sid))
}.
Record quic_laws `{BoringSSL} {Q} `{!QuicStreams Q} `{!QuicApi Q} (opened : Q -> list Z) : Prop := {
  quic_bidi_fresh q id q' : quic_open_bidi_stream q = (Some id, q') -> (id ∉ opened q) /\ (id ∈ opened q');
  quic_bidi_more q o q' : quic_open_bidi_stream q = (o, q') -> opened q ⊆ opened q' /\ quic_in_recv q' = quic_in_recv q;
  quic_uni_more q o q' : quic_open_uni_stream q = (o, q') -> opened q ⊆ opened q' /\ quic_in_recv q' = quic_in_recv q;
  quic_send_more q sid data fin : opened q ⊆ opened (quic_stream_send q sid data fin) /\
    quic_in_recv (quic_stream_send q sid data fin) = quic_in_recv q;
  quic_reset_more q sid : opened q ⊆ opened (quic_reset_stream q sid) /\ quic_in_recv (quic_reset_stream q sid) = quic_in_recv q;
  quic_ref_more b q : opened q ⊆ opened (quic_ref b q) /\ quic_in_recv (quic_ref b q) = quic_in_recv q;
  quic_recv_end_more q : opened q ⊆ opened (quic_recv_end q);
  quic_close_async q : quic_in_recv q = true -> snd (quic_close q) = false /\ quic_in_recv (fst (quic_close q)) = true
}.

(** A restriction on the runs: no QUIC connection closes inside a send or a
    reset. *)
Record quic_calm `{BoringSSL} {Q} `{!QuicStreams Q} `{!QuicApi Q} : Prop := {
  quic_send_calm (q : Q) sid data fin : quic_send_closed (quic_stream_send q sid data fin) = None;
  quic_reset_calm (q : Q) sid : quic_send_closed (quic_reset_stream q sid) = None
}.
#[global] Arguments quic_calm {_} Q {_ _}.

(** ** Lists *)
Lemma unlink_notin r l : r ∉ l -> unlink r l = l.
Proof.
  induction l as [|x l IH]; intros Hr; cbn [unlink]; [done|]. destruct (Nat.eqb_spec x r); [subst; by destruct Hr; left|].
  f_equal. apply IH. intros H. apply Hr. by right.
Qed.
Lemma unlink_perm r l : r ∈ l -> l ≡ₚ r :: unlink r l.
Proof.
  induction l as [|x l IH]; intros Hr; [by apply elem_of_nil in Hr|]. cbn [unlink]. destruct (Nat.eqb_spec x r) as [->|Hn]; [done|].
  apply elem_of_cons in Hr as [->|Hr]; [done|]. rewrite <-(perm_swap r x). by rewrite <-IH.
Qed.
Lemma unlink_sub r l : unlink r l ⊆+ l.
Proof.
  destruct (decide (r ∈ l)) as [Hr|Hr]; [|by rewrite unlink_notin]. rewrite (unlink_perm r l Hr) at 2. by apply submseteq_cons.
Qed.
Lemma length_unlink r l : r ∈ l -> length l = S (length (unlink r l)).
Proof. intros Hr. by rewrite (Permutation_length (unlink_perm r l Hr)). Qed.
Lemma index_of_some x l : x ∈ l -> exists i, index_of x l = Some i /\ l !! i = Some x.
Proof.
  induction l as [|y l IH]; intros Hx; [by apply elem_of_nil in Hx|]. cbn [index_of]. destruct (Nat.eqb_spec y x) as [->|Hn]; [by exists O|].
  apply elem_of_cons in Hx as [->|Hx]; [done|]. destruct (IH Hx) as (i & -> & Hi). by exists (S i).
Qed.
Lemma swap_remove_at_perm i l x : l !! i = Some x -> l ≡ₚ x :: swap_remove_at i l.
Proof.
  intros Hi. unfold swap_remove_at. destruct l as [|z l' _] using rev_ind; [done|]. rewrite last_snoc, length_app. cbn [length].
  replace (length l' + 1 - 1)%nat with (length l') by lia.
  destruct (decide (i < length l')%nat) as [Hl|Hl].
  - rewrite lookup_app_l in Hi by done. rewrite insert_app_l, take_app_length' by (rewrite ?length_insert; lia).
    rewrite <-(take_drop_middle l' i x Hi) at 1. rewrite insert_take_drop by done. rewrite <-app_assoc. cbn [app].
    solve_Permutation.
  - assert (i = length l') as -> by (apply lookup_lt_Some in Hi; rewrite length_app in Hi; cbn in Hi; lia).
    rewrite lookup_app_r, Nat.sub_diag in Hi by lia. injection Hi as <-.
    rewrite insert_app_r_alt, Nat.sub_diag by lia. cbn. rewrite take_app_length' by done. by rewrite Permutation_app_comm.
Qed.
Lemma swap_remove_perm x l : x ∈ l -> l ≡ₚ x :: swap_remove x l.
Proof.
  intros Hx. destruct (index_of_some x l Hx) as (i & Hi & Hl). unfold swap_remove. rewrite Hi.
  exact (swap_remove_at_perm i l x Hl).
Qed.

Section invariant.
Context `{HSsl : BoringSSL} `{HPhr : PhrApi} `{HMux : H2Mux} `{HQpk : Qpack} {T Q : Type} `{HTcp : !TcpApi T} `{HStr : !QuicStreams Q} `{HQuic : !QuicApi Q}.
Context (decode_content : bytes -> bytes -> option bytes).
Context (open : h2_session -> list (Z * nat)) (opened : Q -> list Z).
Abbreviation PM := (PM T Q).
Abbreviation Pool := (Pool T Q).
Abbreviation PoolConn := (PoolConn T Q).
Implicit Types (s : Pool) (c : PoolConn) (q : PoolReq) (F : list nat).

(** ** Weakest preconditions *)
Lemma wp_get_req r q (Post : PoolReq -> Pool -> Prop) s : p_reqs s !! r = Some q -> Post q s -> wp (get_req r) Post s.
Proof. unfold wp, get_req. by intros ->. Qed.
Lemma wp_upd_req r f q (Post : unit -> Pool -> Prop) s :
  p_reqs s !! r = Some q -> Post tt (set_p_reqs (<[r := f q]> (p_reqs s)) s) -> wp (upd_req r f) Post s.
Proof. unfold wp, upd_req. by intros ->. Qed.
Lemma wp_get_pc i c (Post : PoolConn -> Pool -> Prop) s : p_pcs s !! i = Some c -> Post c s -> wp (get_pc i) Post s.
Proof. unfold wp, get_pc. by intros ->. Qed.
Lemma wp_upd_pc i f c (Post : unit -> Pool -> Prop) s :
  p_pcs s !! i = Some c -> Post tt (set_p_pcs (<[i := f c]> (p_pcs s)) s) -> wp (upd_pc i f) Post s.
Proof. unfold wp, upd_pc. by intros ->. Qed.
Lemma wp_walk l (Post : unit -> Pool -> Prop) s : (forall r, r ∈ l -> is_Some (p_reqs s !! r)) -> Post tt s -> wp (walk l) Post s.
Proof.
  revert Post. induction l as [|r l IH]; intros Post Hl HP; [done|]. cbn [walk]. apply wp_bind.
  destruct (Hl r ltac:(left)) as [q Hq]. apply (wp_get_req r q); [done|]. apply IH; [|done]. intros x Hx. apply Hl. by right.
Qed.

(** ** The invariant *)
(** What is under way: the requests whose streams the HTTP/2 session of a
    connection has closed and that are not told yet, and a request that timed
    out, while its caller is told. *)
Definition Ctx : Type := option (nat * list nat) * option (nat * PoolReq).
Definition quiet : Ctx := (None, None).
Definition pend (D : Ctx) (i : nat) : list nat * option (nat * PoolReq) :=
  (match D.1 with Some (j, P) => if (j =? i)%nat then P else [] | None => [] end, D.2).
Definition req_key (q : PoolReq) : bytes := str8_cstring (pool_key (pp_origin (pr_params q))).
(** A request in a queue of connection [i]. *)
Definition queued (z : option (nat * PoolReq)) (reqs : gmap nat PoolReq) (i : nat) (c : PoolConn) (r : nat) : Prop :=
  exists q, reqs !! r = Some q /\ pr_pc q = Some i /\ pr_proto q = pc_proto c /\ (pr_responded q = true -> z = Some (r, q)) /\
    req_key q = str8_cstring (pc_origin c).
Definition reqs_of c : list nat := pc_waiting c ++ pc_active c.

Record conn_ok (reqs : gmap nat PoolReq) (P : list nat * option (nat * PoolReq)) (i : nat) (c : PoolConn) : Prop := {
  co_nodup : NoDup (reqs_of c);
  co_reqs r : r ∈ reqs_of c -> queued P.2 reqs i c r;
  co_inflight : pc_inflight c = length (pc_active c);
  co_closing : pc_state c = PoolConnState_Closing -> reqs_of c = [];
  co_handshaking : pc_state c = PoolConnState_Handshaking -> pc_active c = [] /\ pc_h3c c = None;
  co_idle : pc_idle c = true -> pc_active c = [];
  co_origin : exists o, pc_origin c = pool_key o;
  co_wire : match pc_proto c with PoolProto_H3 => is_Some (pc_quic c) | _ => is_Some (pc_tcp c) /\ pc_h3c c = None end;
  co_h1 : pc_proto c = PoolProto_H1 -> (length (pc_active c) <= 1)%nat /\
    forall r, r ∈ pc_active c -> exists q h, reqs !! r = Some q /\ pr_h1 q = Some h /\ out_inv h;
  co_h2 : pc_proto c = PoolProto_H2 -> pc_state c <> PoolConnState_Closing ->
    match pc_h2 c with
    | Some h => pc_active c ≡ₚ (P.1 ++ map snd (open h)) /\
        forall sid r q, (sid, r) ∈ open h -> reqs !! r = Some q -> pr_h2_stream_id q = sid
    | None => pc_active c = [] /\ pc_state c = PoolConnState_Handshaking
    end;
  co_h3 : pc_proto c = PoolProto_H3 -> pc_state c = PoolConnState_Ready ->
    exists hc x, pc_h3c c = Some hc /\ pc_quic c = Some x /\ hc_streams hc ≡ₚ pc_active c /\
      (length (pc_active c) <= POOL_H3_MAX_CONCURRENT)%nat /\
      (forall r q, r ∈ pc_active c -> reqs !! r = Some q -> pr_h3_stream_id q ∈ opened x) /\
      (forall r1 r2 q1 q2, r1 ∈ pc_active c -> r2 ∈ pc_active c -> reqs !! r1 = Some q1 -> reqs !! r2 = Some q2 ->
        pr_h3_stream_id q1 = pr_h3_stream_id q2 -> r1 = r2)
}.

Definition answered s : list nat := (p_log s).*1.
Record Inv (F : list nat) (D : Ctx) (s : Pool) : Prop := {
  i_nodup : NoDup (p_conns s);
  i_conns i : i ∈ p_conns s <-> is_Some (p_pcs s !! i);
  i_cap : (length (p_conns s) <= POOL_MAX_CONNS)%nat;
  i_next_pc i : is_Some (p_pcs s !! i) -> (i < p_next_pc s)%nat;
  i_next_req r : is_Some (p_reqs s !! r) -> (r < p_next_req s)%nat;
  i_conn i c : p_pcs s !! i = Some c -> conn_ok (p_reqs s) (pend D i) i c;
  i_home r q : p_reqs s !! r = Some q -> r ∈ F \/ exists i c, pr_pc q = Some i /\ p_pcs s !! i = Some c /\ r ∈ reqs_of c;
  i_float_nodup : NoDup F;
  i_float r : r ∈ F -> is_Some (p_reqs s !! r);
  i_float_free r i c : r ∈ F -> p_pcs s !! i = Some c -> r ∉ reqs_of c;
  i_log r q : p_reqs s !! r = Some q -> pr_responded q = false -> r ∉ answered s;
  i_freed r : (r < p_next_req s)%nat -> p_reqs s !! r = None -> r ∈ answered s;
  i_once : NoDup (answered s);
  i_old r : r ∈ answered s -> (r < p_next_req s)%nat;
  i_retries r q : p_reqs s !! r = Some q -> (pr_retries_left q <= POOL_MAX_RETRIES)%nat;
  i_late z q : D.2 = Some (z, q) -> p_reqs s !! z = Some q /\ z ∉ F
}.

(** What an operation that only dispatches leaves of the pool it started in. *)
Definition conn_after c c' : Prop :=
  pc_proto c' = pc_proto c /\ pc_origin c' = pc_origin c /\ pc_state c' = pc_state c /\
  (pc_broken c = true -> pc_broken c' = true) /\ pc_in_drain c' = pc_in_drain c /\
  (is_Some (pc_h2 c) -> is_Some (pc_h2 c')) /\ (is_Some (pc_h3c c) -> is_Some (pc_h3c c')) /\
  (quic_in_recv <$> pc_quic c') = (quic_in_recv <$> pc_quic c) /\
  (pc_broken c = true -> pc_waiting c' = pc_waiting c) /\
  (pool_conn_has_capacity c = false -> pool_conn_has_capacity c' = false) /\
  ((length (pc_waiting c') <= length (pc_waiting c))%nat \/ pool_conn_has_capacity c' = false \/ pool_in_recv c = true).
Definition evolves F s s' : Prop :=
  (forall i c, p_pcs s !! i = Some c -> exists c', p_pcs s' !! i = Some c' /\ conn_after c c') /\
  (forall r, r ∈ F -> p_reqs s' !! r = p_reqs s !! r) /\
  (forall r, r ∈ answered s -> r ∈ answered s') /\
  (p_next_req s <= p_next_req s')%nat.

Lemma conn_after_refl c : conn_after c c.
Proof. unfold conn_after. repeat split; auto. Qed.
Lemma conn_after_in_recv c c' : conn_after c c' -> pool_in_recv c' = pool_in_recv c.
Proof.
  unfold pool_in_recv. intros (-> & _ & _ & _ & -> & _ & _ & Hq & _). case_bool_decide; [|done].
  destruct (pc_quic c'), (pc_quic c); cbn in Hq; congruence.
Qed.
Lemma conn_after_trans c1 c2 c3 : conn_after c1 c2 -> conn_after c2 c3 -> conn_after c1 c3.
Proof.
  intros H1. pose proof (conn_after_in_recv c1 c2 H1) as Hr. revert H1. unfold conn_after.
  intros (? & ? & ? & Hb & ? & ? & ? & ? & Hw & Hc & Hl) (? & ? & ? & Hb2 & ? & ? & ? & ? & Hw2 & Hc2 & Hl2).
  repeat split; try congruence; eauto; [intros Hc0; rewrite Hw2, Hw; auto|].
  rewrite Hr in Hl2. destruct Hl as [Hl|[Hl|Hl]]; [|right; left; by apply Hc2|by right; right].
  destruct Hl2 as [Hl2|Hl2]; [left; lia|by right].
Qed.
Lemma evolves_refl F s : evolves F s s.
Proof. split; [|done]. intros i c Hc. exists c. split; [done|apply conn_after_refl]. Qed.
Lemma evolves_trans F s1 s2 s3 : evolves F s1 s2 -> evolves F s2 s3 -> evolves F s1 s3.
Proof.
  intros (A1 & B1 & C1 & D1) (A2 & B2 & C2 & D2). split; [|split; [|split]].
  - intros i c Hc. destruct (A1 i c Hc) as (c2 & Hc2 & H12). destruct (A2 i c2 Hc2) as (c3 & Hc3 & H23).
    exists c3. split; [done|]. by eapply conn_after_trans.
  - intros r Hr. rewrite B2, B1; done.
  - eauto.
  - lia.
Qed.
Lemma evolves_sub F F' s s' : F ⊆ F' -> evolves F' s s' -> evolves F s s'.
Proof. intros HF (A & B & C & D). split; [done|]. split; [|done]. intros r Hr. apply B. by apply HF. Qed.

Lemma pc_unique i j c c' reqs P P' r :
  conn_ok reqs P i c -> conn_ok reqs P' j c' -> r ∈ reqs_of c -> r ∈ reqs_of c' -> i = j.
Proof.
  intros Hi Hj H1 H2. destruct (co_reqs _ _ _ _ Hi r H1) as (q1 & E1 & P1 & _), (co_reqs _ _ _ _ Hj r H2) as (q2 & E2 & P2 & _).
  congruence.
Qed.

(** *** Requests

    A queued request may change in what its connection does not rely on. *)
Definition similar q q' : Prop :=
  pr_params q' = pr_params q /\ pr_proto q' = pr_proto q /\ pr_pc q' = pr_pc q /\ pr_responded q' = pr_responded q /\
  pr_h2_stream_id q' = pr_h2_stream_id q /\ pr_h3_stream_id q' = pr_h3_stream_id q /\ pr_retries_left q' = pr_retries_left q /\
  (forall h, pr_h1 q = Some h -> out_inv h -> exists h', pr_h1 q' = Some h' /\ out_inv h').
Lemma similar_refl q : similar q q.
Proof. unfold similar. repeat split; eauto. Qed.
Lemma queued_similar z reqs reqs' i c r :
  (forall q, reqs !! r = Some q -> exists q', reqs' !! r = Some q' /\ similar q q' /\ (z = Some (r, q) -> q' = q)) ->
  queued z reqs i c r -> queued z reqs' i c r.
Proof.
  intros Hs (q & E & Hpc & Hpr & Hr & Hk). destruct (Hs q E) as (q' & E' & (S1 & S2 & S3 & S4 & _) & Hz).
  exists q'. split; [done|]. unfold req_key in *. rewrite S1, S2, S3, S4. repeat (split; [done|]). split; [|done].
  intros H. rewrite (Hr H). by rewrite Hz by auto.
Qed.
(** What its connection relies on, but for the outcome. *)
Definition alike q q' : Prop :=
  pr_h2_stream_id q' = pr_h2_stream_id q /\ pr_h3_stream_id q' = pr_h3_stream_id q /\
  (forall h, pr_h1 q = Some h -> out_inv h -> exists h', pr_h1 q' = Some h' /\ out_inv h').
Lemma conn_ok_alike reqs reqs' P P' i c : P'.1 = P.1 ->
  (forall r q, r ∈ reqs_of c -> reqs !! r = Some q -> exists q', reqs' !! r = Some q' /\ alike q q') ->
  (forall r, r ∈ reqs_of c -> queued P.2 reqs i c r -> queued P'.2 reqs' i c r) ->
  conn_ok reqs P i c -> conn_ok reqs' P' i c.
Proof.
  intros HP Hs Hqd [A1 A2 A3 A4 A5 A6 A0 A7 A8 A9 A10].
  assert (Hback : forall r q', r ∈ pc_active c -> reqs' !! r = Some q' -> exists q, reqs !! r = Some q /\ alike q q').
  { intros r q' Hr E'. assert (Hq : r ∈ reqs_of c) by (apply elem_of_app; by right).
    destruct (A2 r Hq) as (q & E & _). destruct (Hs r q Hq E) as (q2 & E2 & S2). exists q. split; [done|]. congruence. }
  constructor; try done.
  - intros r Hr. by apply Hqd, A2.
  - intros Hp. destruct (A8 Hp) as [Hl Ha]. split; [done|]. intros r Hr. destruct (Ha r Hr) as (q & h & E & Hh & Ho).
    destruct (Hs r q ltac:(apply elem_of_app; by right) E) as (q' & E' & _ & _ & S').
    destruct (S' h Hh Ho) as (h' & Hh' & Ho'). by exists q', h'.
  - intros Hp Hst. specialize (A9 Hp Hst). destruct (pc_h2 c) as [h|]; [|done]. destruct A9 as [Hperm Hsid]. rewrite HP. split; [done|].
    intros sid r q' Hin E'. destruct (Hback r q') as (q & E & -> & _); [|done|by apply (Hsid sid r)].
    rewrite Hperm. apply elem_of_app. right. apply (list_elem_of_fmap snd). by exists (sid, r).
  - intros Hp Hst. destruct (A10 Hp Hst) as (hc & x & B1 & B2 & B3 & B4 & B5 & B6). exists hc, x. repeat (split; [done|]). split.
    + intros r q' Hr E'. destruct (Hback r q' Hr E') as (q & E & _ & -> & _). by apply (B5 r).
    + intros r1 r2 q1 q2 H1 H2 E1 E2 Heq. destruct (Hback r1 q1 H1 E1) as (u1 & U1 & _ & S1 & _), (Hback r2 q2 H2 E2) as (u2 & U2 & _ & S2 & _).
      apply (B6 r1 r2 u1 u2); [done..|congruence].
Qed.
Lemma conn_ok_similar reqs reqs' P i c :
  (forall r q, r ∈ reqs_of c -> reqs !! r = Some q -> exists q', reqs' !! r = Some q' /\ similar q q' /\ (P.2 = Some (r, q) -> q' = q)) ->
  conn_ok reqs P i c -> conn_ok reqs' P i c.
Proof.
  intros Hs. apply conn_ok_alike; [done| |].
  - intros r q Hr E. destruct (Hs r q Hr E) as (q' & E' & (_ & _ & _ & _ & S1 & S2 & _ & S3) & _). by exists q'.
  - intros r Hr. apply queued_similar. intros q. by apply Hs.
Qed.
Lemma conn_ok_reqs reqs reqs' P i c :
  (forall r, r ∈ reqs_of c -> reqs' !! r = reqs !! r) -> conn_ok reqs P i c -> conn_ok reqs' P i c.
Proof. intros Hs. apply conn_ok_similar. intros r q Hr E. exists q. rewrite Hs by done. split; [done|]. split; [apply similar_refl|done]. Qed.

(** *** A step that leaves the requests and connections as they are *)
Definition same_pool s s' : Prop :=
  p_conns s' = p_conns s /\ p_pcs s' = p_pcs s /\ p_reqs s' = p_reqs s /\ p_next_req s' = p_next_req s /\
  p_next_pc s' = p_next_pc s /\ p_log s' = p_log s /\ p_stale s' = p_stale s.
Lemma inv_same F D s s' : same_pool s s' -> Inv F D s -> Inv F D s'.
Proof.
  intros (E1 & E2 & E3 & E4 & E5 & E6 & _) []. constructor; unfold answered in *; rewrite ?E1, ?E2, ?E3, ?E4, ?E5, ?E6; done.
Qed.
Lemma evolves_same F s s' : same_pool s s' -> evolves F s s'.
Proof.
  intros (E1 & E2 & E3 & E4 & E5 & E6 & _). unfold evolves, answered. rewrite E2, E3, E4, E6. split; [|done].
  intros i c Hc. exists c. split; [done|apply conn_after_refl].
Qed.

(** *** A request changes *)
Lemma inv_float_req F D s r q : Inv F D s -> r ∈ F -> (pr_responded q = false -> r ∉ answered s) ->
  (forall q0, p_reqs s !! r = Some q0 -> (pr_retries_left q <= pr_retries_left q0)%nat) ->
  Inv F D (set_p_reqs (<[r := q]> (p_reqs s)) s).
Proof.
  intros [A1 A2 A3 A4 A5 A6 A7 A8 A9 A10 A11 A12 A13 A14 A15 A16] Hr Hlog Hret.
  assert (Hne : forall r', is_Some (<[r := q]> (p_reqs s) !! r') <-> is_Some (p_reqs s !! r')).
  { intros r'. rewrite lookup_insert_is_Some'. split; [|by right]. intros [<-|?]; [|done]. by apply A9. }
  constructor; cbn [p_conns p_pcs p_reqs p_next_req p_next_pc p_log set_p_reqs answered]; try done.
  - intros r' Hr'. by apply A5, Hne.
  - intros i c Hc. apply (conn_ok_reqs (p_reqs s)); [|by apply A6]. intros x Hx.
    apply lookup_insert_ne. intros <-. by apply (A10 r i c).
  - intros r' q' E'. destruct (decide (r' = r)) as [->|Hn]; [by left|]. rewrite lookup_insert_ne in E' by done. by apply A7.
  - intros r' Hr'. by apply Hne, A9.
  - intros r' q' E'. destruct (decide (r' = r)) as [->|Hn].
    + rewrite lookup_insert_eq in E'. injection E' as <-. done.
    + rewrite lookup_insert_ne in E' by done. by apply A11.
  - intros r' Hlt E'. apply A12; [done|]. destruct (decide (r' = r)) as [->|Hn]; [by rewrite lookup_insert_eq in E'|].
    by rewrite lookup_insert_ne in E'.
  - intros r' q' E'. destruct (decide (r' = r)) as [->|Hn].
    + rewrite lookup_insert_eq in E'. injection E' as <-. destruct (A9 r Hr) as [q0 E0]. pose proof (Hret q0 E0).
      pose proof (A15 r q0 E0). lia.
    + rewrite lookup_insert_ne in E' by done. by apply (A15 r' q').
  - intros z qz Hz. destruct (A16 z qz Hz) as [Ez HzF]. split; [|done]. rewrite lookup_insert_ne; [done|]. by intros <-.
Qed.
Lemma inv_queued_req F D s r q q' : Inv F D s -> p_reqs s !! r = Some q -> similar q q' -> (r ∈ F -> pr_responded q = true) -> D.2 = None ->
  Inv F D (set_p_reqs (<[r := q']> (p_reqs s)) s).
Proof.
  intros [A1 A2 A3 A4 A5 A6 A7 A8 A9 A10 A11 A12 A13 A14 A15 A16] Er Hs HF HD.
  assert (Hne : forall r', is_Some (<[r := q']> (p_reqs s) !! r') <-> is_Some (p_reqs s !! r')).
  { intros r'. rewrite lookup_insert_is_Some'. split; [|by right]. intros [<-|?]; [|done]. by exists q. }
  constructor; cbn [p_conns p_pcs p_reqs p_next_req p_next_pc p_log set_p_reqs answered]; try done.
  - intros x Hx. by apply A5, Hne.
  - intros i c Hc. apply (conn_ok_similar (p_reqs s)); [|by apply A6]. intros x qx Hx Ex.
    destruct (decide (x = r)) as [->|Hn].
    + exists q'. rewrite lookup_insert_eq. split; [done|]. assert (qx = q) as -> by congruence. split; [done|]. cbn. by rewrite HD.
    + exists qx. rewrite lookup_insert_ne by done. split; [done|]. split; [apply similar_refl|done].
  - intros x qx Ex. destruct (decide (x = r)) as [->|Hn].
    + rewrite lookup_insert_eq in Ex. injection Ex as <-. destruct (A7 r q Er) as [|(i & c & Hp & Hc & Hin)]; [by left|].
      right. exists i, c. destruct Hs as (_ & _ & -> & _). done.
    + rewrite lookup_insert_ne in Ex by done. by apply A7.
  - intros x Hx. by apply Hne, A9.
  - intros x qx Ex Hf. destruct (decide (x = r)) as [->|Hn].
    + rewrite lookup_insert_eq in Ex. injection Ex as <-. apply (A11 r q Er). destruct Hs as (_ & _ & _ & <- & _). done.
    + rewrite lookup_insert_ne in Ex by done. by apply (A11 x qx).
  - intros x Hlt Ex. apply A12; [done|]. destruct (decide (x = r)) as [->|Hn]; [by rewrite lookup_insert_eq in Ex|].
    by rewrite lookup_insert_ne in Ex.
  - intros x qx Ex. destruct (decide (x = r)) as [->|Hn].
    + rewrite lookup_insert_eq in Ex. injection Ex as <-. destruct Hs as (_ & _ & _ & _ & _ & _ & -> & _). by apply (A15 r).
    + rewrite lookup_insert_ne in Ex by done. by apply (A15 x).
  - intros z qz Hz. congruence.
Qed.
Lemma evolves_req F s r q : r ∉ F -> evolves F s (set_p_reqs (<[r := q]> (p_reqs s)) s).
Proof.
  intros Hr. split; [|split; [|split]]; cbn [p_pcs p_reqs p_next_req p_log set_p_reqs answered]; try done.
  - intros i c Hc. exists c. split; [done|apply conn_after_refl].
  - intros x Hx. apply lookup_insert_ne. by intros ->.
Qed.

(** *** A connection changes, with the requests it gives and takes *)
Lemma inv_move_gen F F' D D' s i c c' :
  Inv F D s -> p_pcs s !! i = Some c -> reqs_of c ++ F ≡ₚ reqs_of c' ++ F' ->
  (forall j d, j <> i -> p_pcs s !! j = Some d -> conn_ok (p_reqs s) (pend D j) j d -> conn_ok (p_reqs s) (pend D' j) j d) ->
  (forall z q, D'.2 = Some (z, q) -> D.2 = Some (z, q) /\ z ∉ F') -> conn_ok (p_reqs s) (pend D' i) i c' ->
  Inv F' D' (set_p_pcs (<[i := c']> (p_pcs s)) s).
Proof.
  intros [A1 A2 A3 A4 A5 A6 A7 A8 A9 A10 A11 A12 A13 A14 A15 A16] Ei Hp HD HZ Hok.
  assert (Hne : forall j, is_Some (<[i := c']> (p_pcs s) !! j) <-> is_Some (p_pcs s !! j)).
  { intros j. rewrite lookup_insert_is_Some'. split; [|by right]. intros [<-|?]; [|done]. by exists c. }
  assert (Hall : NoDup (reqs_of c' ++ F')).
  { rewrite <-Hp. apply NoDup_app. split; [by apply (co_nodup _ _ _ _ (A6 i c Ei))|]. split; [|done].
    intros r Hr HF. by apply (A10 r i c). }
  apply NoDup_app in Hall as (Hn1 & Hn2 & Hn3).
  constructor; cbn [p_conns p_pcs p_reqs p_next_req p_next_pc p_log set_p_pcs answered]; try done.
  - intros j. rewrite Hne. apply A2.
  - intros j Hj. by apply A4, Hne.
  - intros j d Ed. destruct (decide (j = i)) as [->|Hn].
    + rewrite lookup_insert_eq in Ed. injection Ed as <-. done.
    + rewrite lookup_insert_ne in Ed by done. apply HD; [done|done|by apply A6].
  - intros r q Er. destruct (A7 r q Er) as [HF|(j & d & Hpc & Ed & Hin)].
    + assert (Hin : r ∈ reqs_of c' ++ F') by (rewrite <-Hp; apply elem_of_app; by right).
      apply elem_of_app in Hin as [Hin|Hin]; [|by left]. right.
      destruct (co_reqs _ _ _ _ Hok r Hin) as (q2 & E2 & P2 & _). exists i, c'. rewrite lookup_insert_eq.
      split; [congruence|done].
    + destruct (decide (j = i)) as [->|Hn].
      * assert (d = c) as -> by congruence. assert (Hin2 : r ∈ reqs_of c' ++ F') by (rewrite <-Hp; apply elem_of_app; by left).
        apply elem_of_app in Hin2 as [Hin2|Hin2]; [|by left]. right. exists i, c'. by rewrite lookup_insert_eq.
      * right. exists j, d. by rewrite lookup_insert_ne.
  - intros r Hr. assert (Hin : r ∈ reqs_of c ++ F) by (rewrite Hp; apply elem_of_app; by right).
    apply elem_of_app in Hin as [Hin|Hin]; [|by apply A9].
    destruct (co_reqs _ _ _ _ (A6 i c Ei) r Hin) as (q2 & E2 & _). by exists q2.
  - intros r j d Hr Ed Hin. destruct (decide (j = i)) as [->|Hn].
    + rewrite lookup_insert_eq in Ed. injection Ed as <-. by apply (Hn2 r).
    + rewrite lookup_insert_ne in Ed by done.
      assert (Hin2 : r ∈ reqs_of c ++ F) by (rewrite Hp; apply elem_of_app; by right).
      apply elem_of_app in Hin2 as [Hin2|Hin2]; [|by apply (A10 r j d)].
      apply Hn. symmetry. by apply (pc_unique i j c d _ _ _ r (A6 i c Ei) (A6 j d Ed)).
  - intros z q Hz. destruct (HZ z q Hz) as [Hz' HzF]. destruct (A16 z q Hz'). by split.
Qed.
Lemma inv_move F F' D D' s i c c' :
  Inv F D s -> p_pcs s !! i = Some c -> reqs_of c ++ F ≡ₚ reqs_of c' ++ F' ->
  (forall j, j <> i -> pend D' j = pend D j) -> D'.2 = D.2 -> (forall z q, D.2 = Some (z, q) -> z ∉ F -> z ∉ F') ->
  conn_ok (p_reqs s) (pend D' i) i c' -> Inv F' D' (set_p_pcs (<[i := c']> (p_pcs s)) s).
Proof.
  intros HI Ei Hp HD H2 HZ Hok. apply (inv_move_gen F F' D D' s i c c'); try done.
  - intros j d Hj _. by rewrite HD.
  - intros z q. rewrite H2. intros Hz. split; [done|]. by apply (HZ z q Hz), (i_late _ _ _ HI z q).
Qed.
(** The request that timed out leaves its connection. *)
Lemma inv_bury F p s i c c' z q : Inv F (p, Some (z, q)) s -> p_pcs s !! i = Some c -> z ∈ reqs_of c ->
  reqs_of c ≡ₚ (z :: reqs_of c') -> conn_ok (p_reqs s) (pend (p, None) i) i c' ->
  Inv (z :: F) (p, None) (set_p_pcs (<[i := c']> (p_pcs s)) s).
Proof.
  intros HI Ei Hz Hp Hok. apply (inv_move_gen F (z :: F) (p, Some (z, q)) (p, None) s i c c'); try done.
  - rewrite Hp. solve_Permutation.
  - intros j d Hj Ed Hd. destruct Hd as [A1 A2 A3 A4 A5 A6 A0 A7 A8 A9 A10]. constructor; try done.
    intros r Hr. destruct (A2 r Hr) as (qr & B1 & B2 & B3 & B4 & B5). exists qr. repeat (split; [done|]). split; [|done].
    intros B. specialize (B4 B). cbn in B4. injection B4 as <- <-. destruct Hj. symmetry.
    apply (pc_unique i j c d (p_reqs s) (pend (p, Some (z, q)) i) (pend (p, Some (z, q)) j) z); try done; by apply (i_conn _ _ _ HI).
Qed.
Lemma evolves_pc F s i c c' : p_pcs s !! i = Some c -> conn_after c c' -> evolves F s (set_p_pcs (<[i := c']> (p_pcs s)) s).
Proof.
  intros Ei Hc. split; [|done]. intros j d Ed. cbn [p_pcs set_p_pcs]. destruct (decide (j = i)) as [->|Hn].
  - rewrite lookup_insert_eq. exists c'. split; [done|]. congruence.
  - rewrite lookup_insert_ne by done. exists d. split; [done|apply conn_after_refl].
Qed.

Lemma inv_perm F F' D s : F ≡ₚ F' -> Inv F D s -> Inv F' D s.
Proof.
  intros Hp [A1 A2 A3 A4 A5 A6 A7 A8 A9 A10 A11 A12 A13 A14 A15 A16]. constructor; try done.
  - intros r q Er. destruct (A7 r q Er); [left; by rewrite <-Hp|by right].
  - by rewrite <-Hp.
  - intros r. rewrite <-Hp. apply A9.
  - intros r i c. rewrite <-Hp. apply A10.
  - intros z q. rewrite <-Hp. apply A16.
Qed.

(** *** A new request, its outcome, its end *)
Definition with_req q s : Pool :=
  mkPool (p_client s) (p_conns s) (p_sweep_inited s) (p_sweep_active s) (p_pcs s) (<[p_next_req s := q]> (p_reqs s))
    (S (p_next_req s)) (p_next_pc s) (p_now s) (p_log s) (p_stale s).
Lemma fresh_req F D s : Inv F D s -> p_reqs s !! p_next_req s = None.
Proof. intros HI. apply eq_None_not_Some. intros Hs. pose proof (i_next_req _ _ _ HI _ Hs). lia. Qed.
Lemma inv_new_req F D s q : Inv F D s -> (pr_retries_left q <= POOL_MAX_RETRIES)%nat -> Inv (p_next_req s :: F) D (with_req q s) /\ evolves F s (with_req q s).
Proof.
  intros HI Hret. pose proof (fresh_req F D s HI) as Hfresh. destruct HI as [A1 A2 A3 A4 A5 A6 A7 A8 A9 A10 A11 A12 A13 A14 A15 A16].
  assert (HnF : p_next_req s ∉ F) by (intros Hr; apply A9 in Hr as [? Hr]; congruence).
  assert (Hnq : forall i c, p_pcs s !! i = Some c -> p_next_req s ∉ reqs_of c).
  { intros i c Ec Hr. destruct (co_reqs _ _ _ _ (A6 i c Ec) _ Hr) as (q2 & E2 & _). congruence. }
  split.
  - constructor; cbn [p_conns p_pcs p_reqs p_next_req p_next_pc p_log with_req answered]; try done.
    + intros r Hr. apply lookup_insert_is_Some' in Hr as [<-|Hr]; [lia|]. apply A5 in Hr. lia.
    + intros i c Ec. apply (conn_ok_reqs (p_reqs s)); [|by apply A6]. intros r Hr. apply lookup_insert_ne.
      intros <-. by apply (Hnq i c).
    + intros r q' E'. destruct (decide (r = p_next_req s)) as [->|Hn]; [left; left|].
      rewrite lookup_insert_ne in E' by done. destruct (A7 r q' E'); [left; by right|by right].
    + by constructor.
    + intros r Hr. apply lookup_insert_is_Some'. apply elem_of_cons in Hr as [->|Hr]; [by left|right; by apply A9].
    + intros r i c Hr Ec. apply elem_of_cons in Hr as [->|Hr]; [by apply (Hnq i c)|by apply (A10 r i c)].
    + intros r q' E' Hf. destruct (decide (r = p_next_req s)) as [->|Hn].
      * intros Hr. apply A14 in Hr. lia.
      * rewrite lookup_insert_ne in E' by done. by apply (A11 r q').
    + intros r Hlt E'. destruct (decide (r = p_next_req s)) as [->|Hn]; [by rewrite lookup_insert_eq in E'|].
      rewrite lookup_insert_ne in E' by done. apply A12; [lia|done].
    + intros r Hr. apply A14 in Hr. lia.
    + intros r q' E'. destruct (decide (r = p_next_req s)) as [->|Hn].
      * rewrite lookup_insert_eq in E'. by injection E' as <-.
      * rewrite lookup_insert_ne in E' by done. by apply (A15 r).
    + intros z qz Hz. destruct (A16 z qz Hz) as [Ez HzF]. split; [rewrite lookup_insert_ne; [done|intros <-; congruence]|].
      rewrite not_elem_of_cons. split; [|done]. intros ->. congruence.
  - split; [|split; [|split]]; cbn [p_conns p_pcs p_reqs p_next_req p_next_pc p_log with_req answered]; [| |done|lia].
    + intros i c Ec. exists c. split; [done|apply conn_after_refl].
    + intros r Hr. apply lookup_insert_ne. by intros <-.
Qed.
Definition refused o s : Pool :=
  mkPool (p_client s) (p_conns s) (p_sweep_inited s) (p_sweep_active s) (p_pcs s) (p_reqs s) (S (p_next_req s)) (p_next_pc s)
    (p_now s) (p_log s ++ [(p_next_req s, o)]) (p_stale s).
Lemma inv_refused F D s o : Inv F D s -> Inv F D (refused o s) /\ evolves F s (refused o s).
Proof.
  intros HI. pose proof (fresh_req F D s HI) as Hfresh. destruct HI as [A1 A2 A3 A4 A5 A6 A7 A8 A9 A10 A11 A12 A13 A14 A15 A16].
  assert (Ea : answered (refused o s) = answered s ++ [p_next_req s]) by (unfold answered; cbn; by rewrite fmap_app).
  split.
  - constructor; cbn [p_conns p_pcs p_reqs p_next_req p_next_pc refused]; rewrite ?Ea; try done.
    + intros x Hx. apply A5 in Hx. lia.
    + intros x q Ex Hf. rewrite elem_of_app. intros [Hx|Hx]; [by apply (A11 x q)|].
      apply elem_of_cons in Hx as [->|Hx]; [congruence|by apply elem_of_nil in Hx].
    + intros x Hlt Ex. apply elem_of_app. destruct (decide (x = p_next_req s)) as [->|Hn]; [right; left|left; apply A12; [lia|done]].
    + apply NoDup_app. split; [done|]. split; [|by apply NoDup_singleton].
      intros x Hx Hx2. apply elem_of_cons in Hx2 as [->|Hx2]; [apply A14 in Hx; lia|by apply elem_of_nil in Hx2].
    + intros x Hx. apply elem_of_app in Hx as [Hx|Hx]; [apply A14 in Hx; lia|].
      apply elem_of_cons in Hx as [->|Hx]; [lia|by apply elem_of_nil in Hx].
  - split; [|split; [done|split; [|cbn; lia]]].
    + intros i c Ec. exists c. split; [done|apply conn_after_refl].
    + intros x Hx. rewrite Ea. apply elem_of_app. by left.
Qed.
Lemma inv_log F D s r q o : Inv F D s -> r ∈ F -> p_reqs s !! r = Some q -> pr_responded q = true -> r ∉ answered s ->
  Inv F D (add_p_log r o s) /\ evolves F s (add_p_log r o s) /\ r ∈ answered (add_p_log r o s).
Proof.
  intros [A1 A2 A3 A4 A5 A6 A7 A8 A9 A10 A11 A12 A13 A14 A15 A16] Hr Er Hresp Hnew.
  assert (Ea : answered (add_p_log r o s) = answered s ++ [r]) by (unfold answered; cbn; by rewrite fmap_app).
  split; [|split].
  - constructor; cbn [p_conns p_pcs p_reqs p_next_req p_next_pc add_p_log]; rewrite ?Ea; try done.
    + intros x qx Ex Hf. rewrite elem_of_app. intros [Hx|Hx]; [by apply (A11 x qx)|].
      apply elem_of_cons in Hx as [->|Hx]; [congruence|by apply elem_of_nil in Hx].
    + intros x Hlt Ex. apply elem_of_app. left. by apply A12.
    + apply NoDup_app. split; [done|]. split; [|by apply NoDup_singleton].
      intros x Hx Hx2. apply elem_of_cons in Hx2 as [->|Hx2]; [done|by apply elem_of_nil in Hx2].
    + intros x Hx. apply elem_of_app in Hx as [Hx|Hx]; [by apply A14|].
      apply elem_of_cons in Hx as [->|Hx]; [apply A5; by exists q|by apply elem_of_nil in Hx].
  - split; [|split; [done|split; [|done]]].
    + intros i c Ec. exists c. split; [done|apply conn_after_refl].
    + intros x Hx. rewrite Ea. apply elem_of_app. by left.
  - rewrite Ea. apply elem_of_app. right. left.
Qed.
(** The caller of a request that timed out is told. *)
Lemma inv_late F p s r q o : Inv F (p, None) s -> p_reqs s !! r = Some q -> pr_responded q = false -> r ∉ F ->
  Inv F (p, Some (r, set_pr_responded q)) (add_p_log r o (set_p_reqs (<[r := set_pr_responded q]> (p_reqs s)) s)).
Proof.
  intros [A1 A2 A3 A4 A5 A6 A7 A8 A9 A10 A11 A12 A13 A14 A15 A16] Er Hf HF. set (s' := add_p_log _ _ _).
  assert (Ea : answered s' = answered s ++ [r]) by (unfold answered; cbn; by rewrite fmap_app).
  assert (Hnew : r ∉ answered s) by (by apply (A11 r q)).
  assert (Hne : forall x, is_Some (p_reqs s' !! x) <-> is_Some (p_reqs s !! x)).
  { intros x. unfold s'. cbn. rewrite lookup_insert_is_Some'. split; [|by right]. intros [<-|?]; [by exists q|done]. }
  assert (Hlook : forall x qx, p_reqs s' !! x = Some qx -> x = r /\ qx = set_pr_responded q \/ x <> r /\ p_reqs s !! x = Some qx).
  { intros x qx Ex. unfold s' in Ex. cbn in Ex. apply lookup_insert_Some in Ex as [[<- <-]|[? ?]]; [by left|right; by split]. }
  constructor; rewrite ?Ea; try done.
  - intros x Hx. by apply A5, Hne.
  - intros i c Ec. apply (conn_ok_alike (p_reqs s) _ (pend (p, None) i)); [done| | |by apply A6].
    + intros x qx Hx Ex. unfold s'. cbn. destruct (decide (x = r)) as [->|Hn].
      * rewrite lookup_insert_eq. exists (set_pr_responded q). split; [done|]. assert (qx = q) as -> by congruence. by repeat split; eauto.
      * rewrite lookup_insert_ne by done. exists qx. split; [done|]. by repeat split; eauto.
    + intros x Hx (qx & B1 & B2 & B3 & B4 & B5). unfold queued, s'. cbn. destruct (decide (x = r)) as [->|Hn].
      * rewrite lookup_insert_eq. exists (set_pr_responded q). assert (qx = q) as -> by congruence. by repeat split.
      * rewrite lookup_insert_ne by done. exists qx. repeat (split; [done|]). split; [|done]. intros H. by specialize (B4 H).
  - intros x qx Ex. apply Hlook in Ex as [[-> ->]|[Hn Ex]]; [|by apply A7].
    destruct (A7 r q Er) as [|(i & c & B1 & B2 & B3)]; [by left|]. right. by exists i, c.
  - intros x Hx. by apply Hne, A9.
  - intros x qx Ex Hfx. apply Hlook in Ex as [[-> ->]|[Hn Ex]]; [done|]. rewrite elem_of_app. intros [Hx|Hx]; [by apply (A11 x qx)|].
    apply elem_of_cons in Hx as [->|Hx]; [done|by apply elem_of_nil in Hx].
  - intros x Hlt Ex. apply elem_of_app. left. apply A12; [done|]. apply eq_None_not_Some. intros Hx. apply Hne in Hx. rewrite Ex in Hx. by destruct Hx.
  - apply NoDup_app. split; [done|]. split; [|by apply NoDup_singleton].
    intros x Hx Hx2. apply elem_of_cons in Hx2 as [->|Hx2]; [done|by apply elem_of_nil in Hx2].
  - intros x Hx. apply elem_of_app in Hx as [Hx|Hx]; [by apply A14|].
    apply elem_of_cons in Hx as [->|Hx]; [apply A5; by exists q|by apply elem_of_nil in Hx].
  - intros x qx Ex. apply Hlook in Ex as [[_ ->]|[Hn Ex]]; [exact (A15 r q Er)|by apply (A15 x)].
  - intros z qz [= <- <-]. unfold s'. cbn. by rewrite lookup_insert_eq.
Qed.
(** The outcome of a request is logged and its memory given back. *)
Lemma inv_done F D s s' r : Inv (r :: F) D s ->
  p_conns s' = p_conns s -> p_pcs s' = p_pcs s -> p_reqs s' = delete r (p_reqs s) -> p_next_req s' = p_next_req s ->
  p_next_pc s' = p_next_pc s ->
  (r ∈ answered s /\ answered s' = answered s \/ (r ∉ answered s) /\ answered s' = answered s ++ [r]) ->
  Inv F D s' /\ evolves F s s'.
Proof.
  intros [A1 A2 A3 A4 A5 A6 A7 A8 A9 A10 A11 A12 A13 A14 A15 A16] E1 E2 E3 E4 E5 HL.
  apply NoDup_cons in A8 as [HnF A8].
  assert (Hin : r ∈ answered s').
  { destruct HL as [[H1 ->]|[H1 ->]]; [done|]. apply elem_of_app. right. left. }
  assert (Hsub : forall x, x ∈ answered s -> x ∈ answered s').
  { intros x Hx. destruct HL as [[H1 ->]|[H1 ->]]; [done|]. apply elem_of_app. by left. }
  assert (Hsub2 : forall x, x ∈ answered s' -> x = r \/ x ∈ answered s).
  { intros x. destruct HL as [[H1 ->]|[H1 ->]]; [by right|]. rewrite elem_of_app. intros [?|Hx]; [by right|].
    apply elem_of_cons in Hx as [->|Hx]; [by left|by apply elem_of_nil in Hx]. }
  split.
  - constructor; rewrite ?E1, ?E2, ?E3, ?E4, ?E5; try done.
    + intros x Hx. apply lookup_delete_is_Some in Hx as [_ Hx]. by apply A5.
    + intros i c Ec. apply (conn_ok_reqs (p_reqs s)); [|by apply A6]. intros x Hx. apply lookup_delete_ne.
      intros <-. apply (A10 r i c); [left|done|done].
    + intros x q Ex. apply lookup_delete_Some in Ex as [Hn Ex]. destruct (A7 x q Ex) as [Hx|Hx]; [|by right].
      apply elem_of_cons in Hx as [->|Hx]; [done|by left].
    + intros x Hx. apply lookup_delete_is_Some. split; [by intros ->|]. apply A9. by right.
    + intros x i c Hx. apply A10. by right.
    + intros x q Ex Hf Hx. apply lookup_delete_Some in Ex as [Hn Ex]. apply Hsub2 in Hx as [->|Hx]; [done|by apply (A11 x q)].
    + intros x Hlt Ex. destruct (decide (x = r)) as [->|Hn]; [done|]. rewrite lookup_delete_ne in Ex by done.
      apply Hsub. by apply A12.
    + destruct HL as [[H1 ->]|[H1 ->]]; [done|]. apply NoDup_app. split; [done|]. split; [|by apply NoDup_singleton].
      intros x Hx Hx2. apply elem_of_cons in Hx2 as [->|Hx2]; [done|by apply elem_of_nil in Hx2].
    + intros x Hx. apply Hsub2 in Hx as [->|Hx]; [|by apply A14]. apply A5, A9. left.
    + intros x q Ex. apply lookup_delete_Some in Ex as [_ Ex]. by apply (A15 x).
    + intros z q Hz. destruct (A16 z q Hz) as [Ez HzF]. apply not_elem_of_cons in HzF as [Hn HzF]. split; [|done].
      by rewrite lookup_delete_ne.
  - split; [|split; [|split]]; rewrite ?E2, ?E3, ?E4; [| |done|done].
    + intros i c Ec. exists c. split; [done|apply conn_after_refl].
    + intros x Hx. apply lookup_delete_ne. by intros <-.
Qed.

(** *** A new connection, the end of one *)
Lemma inv_new_pc F D s c : Inv F D s -> (length (p_conns s) < POOL_MAX_CONNS)%nat -> reqs_of c = [] ->
  (forall reqs P, conn_ok reqs P (p_next_pc s) c) ->
  Inv F D (mkPool (p_client s) (p_conns s ++ [p_next_pc s]) true true (<[p_next_pc s := c]> (p_pcs s)) (p_reqs s) (p_next_req s)
    (S (p_next_pc s)) (p_now s) (p_log s) (p_stale s)).
Proof.
  intros [A1 A2 A3 A4 A5 A6 A7 A8 A9 A10 A11 A12 A13 A14 A15 A16] Hlen Hempty Hok.
  assert (Hfresh : p_pcs s !! p_next_pc s = None).
  { apply eq_None_not_Some. intros Hs. pose proof (A4 _ Hs). lia. }
  constructor; cbn [p_conns p_pcs p_reqs p_next_req p_next_pc p_log answered]; try done.
  - apply NoDup_app. split; [done|]. split; [|by apply NoDup_singleton].
    intros x Hx Hx2. apply elem_of_cons in Hx2 as [->|Hx2]; [|by apply elem_of_nil in Hx2].
    apply A2 in Hx as [? Hx]. congruence.
  - intros i. rewrite elem_of_app, A2, lookup_insert_is_Some'. split.
    + intros [Hi|Hi]; [by right|]. apply elem_of_cons in Hi as [->|Hi]; [by left|by apply elem_of_nil in Hi].
    + intros [<-|Hi]; [right; left|by left].
  - rewrite length_app. cbn [length]. lia.
  - intros i Hi. apply lookup_insert_is_Some' in Hi as [<-|Hi]; [lia|]. apply A4 in Hi. lia.
  - intros i d Ed. destruct (decide (i = p_next_pc s)) as [->|Hn].
    + rewrite lookup_insert_eq in Ed. injection Ed as <-. apply Hok.
    + rewrite lookup_insert_ne in Ed by done. by apply A6.
  - intros r q Er. destruct (A7 r q Er) as [|(i & d & Hp & Ed & Hin)]; [by left|]. right. exists i, d.
    rewrite lookup_insert_ne; [done|]. intros <-. congruence.
  - intros r i d Hr Ed. destruct (decide (i = p_next_pc s)) as [->|Hn].
    + rewrite lookup_insert_eq in Ed. injection Ed as <-. rewrite Hempty. apply not_elem_of_nil.
    + rewrite lookup_insert_ne in Ed by done. by apply (A10 r i d).
Qed.
Lemma inv_end_pc F D s s' i c : Inv F D s -> p_pcs s !! i = Some c -> reqs_of c = [] ->
  p_conns s' = swap_remove i (p_conns s) -> p_pcs s' = delete i (p_pcs s) -> p_reqs s' = p_reqs s ->
  p_next_req s' = p_next_req s -> p_next_pc s' = p_next_pc s -> p_log s' = p_log s -> Inv F D s'.
Proof.
  intros [A1 A2 A3 A4 A5 A6 A7 A8 A9 A10 A11 A12 A13 A14 A15 A16] Ei Hempty E1 E2 E3 E4 E5 E6.
  assert (Hin : i ∈ p_conns s) by (apply A2; by exists c). pose proof (swap_remove_perm i (p_conns s) Hin) as Hp.
  assert (Hnd : NoDup (i :: swap_remove i (p_conns s))) by (by rewrite <-Hp). apply NoDup_cons in Hnd as [Hni Hnd].
  constructor; unfold answered in *; rewrite ?E1, ?E2, ?E3, ?E4, ?E5, ?E6; try done.
  - intros j. split.
    + intros Hj. apply lookup_delete_is_Some. split; [by intros <-|]. apply A2. rewrite Hp. by right.
    + intros Hj. apply lookup_delete_is_Some in Hj as [Hn Hj]. apply A2 in Hj. rewrite Hp in Hj.
      apply elem_of_cons in Hj as [->|Hj]; [done|done].
  - rewrite Hp in A3. cbn [length] in A3. lia.
  - intros j Hj. apply lookup_delete_is_Some in Hj as [_ Hj]. by apply A4.
  - intros j d Ed. apply lookup_delete_Some in Ed as [_ Ed]. by apply A6.
  - intros r q Er. destruct (A7 r q Er) as [|(j & d & Hq & Ed & Hr)]; [by left|]. right. exists j, d.
    rewrite lookup_delete_ne; [done|]. intros <-. assert (d = c) as -> by congruence. rewrite Hempty in Hr. by apply elem_of_nil in Hr.
  - intros r j d Hr Ed. apply lookup_delete_Some in Ed as [_ Ed]. by apply (A10 r j d).
Qed.
End invariant.
