(* ===== verification/PoolSafe.v ===== *)
(** * The connection pool is safe

    Each operation keeps the invariant of [PoolInv] and never uses memory that
    was given back. *)
From stdpp Require Import gmap relations.
From S2P Require Import Prelude String8 U8Buf GrowArr Header Url Redirect OriginCache Proxy ReqHeaders H1 H3Control TcpRequest.
From S2P Require Export PoolInv.

Section safe.
Context `{HSsl : BoringSSL} `{HPhr : PhrApi} `{HMux : H2Mux} `{HQpk : Qpack} {T Q : Type} `{HTcp : !TcpApi T} `{HStr : !QuicStreams Q} `{HQuic : !QuicApi Q}.
Context (decode_content : bytes -> bytes -> option bytes).
Context (open : h2_session -> list (Z * nat)) (opened : Q -> list Z).
Context (Hh2 : h2_laws open) (Hq : quic_laws opened).
(** No stream closes inside of a submission or a cancellation, and no QUIC
    connection inside of a send. *)
Context (Hcalm2 : h2_calm) (Hcalm3 : quic_calm Q).
(** No connection fails before [conn_connect] returns. *)
Context (Htcp_async : forall cs host port, snd (tcp_connect (T:=T) cs host port) = None).
Context (Hquic_async : forall cs prof host port, snd (quic_connect (Q:=Q) cs prof host port) = None).
Abbreviation PM := (PM T Q).
Abbreviation Pool := (Pool T Q).
Abbreviation PoolConn := (PoolConn T Q).
Abbreviation Inv := (Inv open opened).
Abbreviation conn_ok := (conn_ok open opened).
Implicit Types (s : Pool) (c : PoolConn) (q : PoolReq) (F : list nat).

Ltac bprops := bool_props; rewrite ?bool_decide_eq_true, ?bool_decide_eq_false in *.

(** ** States after an update *)
Definition put (i : nat) c s : Pool := set_p_pcs (<[i := c]> (p_pcs s)) s.
Definition putr (r : nat) q s : Pool := set_p_reqs (<[r := q]> (p_reqs s)) s.
Lemma put_put i c1 c2 s : put i c2 (put i c1 s) = put i c2 s.
Proof. unfold put. cbn. by rewrite insert_insert_eq. Qed.
Lemma put_lookup i c s : p_pcs (put i c s) !! i = Some c.
Proof. apply lookup_insert_eq. Qed.
Lemma putr_lookup r q s : p_reqs (putr r q s) !! r = Some q.
Proof. apply lookup_insert_eq. Qed.
Lemma put_putr i c r q s : putr r q (put i c s) = put i c (putr r q s).
Proof. done. Qed.
Lemma wp_upd i f c (Post : unit -> Pool -> Prop) s : p_pcs s !! i = Some c -> Post tt (put i (f c) s) -> wp (upd_pc i f) Post s.
Proof. apply wp_upd_pc. Qed.
Lemma wp_updr r f q (Post : unit -> Pool -> Prop) s : p_reqs s !! r = Some q -> Post tt (putr r (f q) s) -> wp (upd_req r f) Post s.
Proof. apply wp_upd_req. Qed.

(** [c'] is [c] up to what goes over its transports, and its queues. *)
Definition quic_after (x x' : option Q) : Prop :=
  match x with
  | Some x => exists y, x' = Some y /\ opened x ⊆ opened y /\ quic_in_recv y = quic_in_recv x
  | None => x' = None
  end.
Definition wires c c' : Prop :=
  pc_proto c' = pc_proto c /\ pc_origin c' = pc_origin c /\ pc_state c' = pc_state c /\ pc_broken c' = pc_broken c /\
  pc_in_drain c' = pc_in_drain c /\ (is_Some (pc_tcp c) -> is_Some (pc_tcp c')) /\ quic_after (pc_quic c) (pc_quic c').
Lemma quic_after_refl x : quic_after x x.
Proof. destruct x as [x|]; [|done]. by exists x. Qed.
Lemma quic_after_trans x y z : quic_after x y -> quic_after y z -> quic_after x z.
Proof.
  unfold quic_after. destruct x as [x|]; [|by intros ->]. intros (x' & -> & A1 & A2) (x2 & -> & B1 & B2). exists x2.
  split; [done|]. split; [set_solver|congruence].
Qed.
Lemma wires_refl c : wires c c.
Proof. unfold wires. repeat split; try done. apply quic_after_refl. Qed.
Lemma wires_trans c1 c2 c3 : wires c1 c2 -> wires c2 c3 -> wires c1 c3.
Proof.
  intros (A1 & A2 & A3 & A4 & A5 & A6 & A7) (B1 & B2 & B3 & B4 & B5 & B6 & B7).
  repeat split; try congruence; [eauto|]. by eapply quic_after_trans.
Qed.
Lemma quic_after_recv x y : quic_after x y -> (quic_in_recv <$> y) = (quic_in_recv <$> x).
Proof. destruct x as [x|]; [|by intros ->]. intros (y' & -> & _ & E). cbn. by rewrite E. Qed.
(** [c'] has no more room than [c]. *)
Definition fuller c c' : Prop :=
  (pc_inflight c <= pc_inflight c')%nat /\ (is_Some (pc_h3c c') -> is_Some (pc_h3c c)) /\
  (forall h', pc_h2 c' = Some h' -> exists h, pc_h2 c = Some h /\ (h2_goaway h = true -> h2_goaway h' = true) /\
    h2_max_concurrent h' <= h2_max_concurrent h).
Lemma fuller_capacity c c' : wires c c' -> fuller c c' -> pool_conn_has_capacity c = false -> pool_conn_has_capacity c' = false.
Proof.
  intros (W1 & _ & W3 & W4 & _) (F1 & F2 & F3). unfold pool_conn_has_capacity. rewrite W1, W3, W4.
  destruct (negb _ || pc_broken c); [done|]. destruct (pc_proto c).
  - destruct (pc_h2 c') as [h'|]; [|done]. destruct (F3 h' eq_refl) as (h & -> & G1 & G2).
    destruct (h2_goaway h); [by rewrite G1|]. destruct (h2_goaway h'); [done|]. rewrite !Z.ltb_ge. lia.
  - destruct (pc_h3c c') as [hc|]; [|done]. destruct F2 as [hc0 ->]; [done|]. rewrite !Nat.ltb_ge. lia.
  - rewrite !Nat.ltb_ge. lia.
Qed.
Lemma fuller_same c c' : (pc_inflight c <= pc_inflight c')%nat -> pc_h2 c' = pc_h2 c -> (is_Some (pc_h3c c') -> is_Some (pc_h3c c)) -> fuller c c'.
Proof. intros H1 H2 H3. split; [done|]. split; [done|]. intros h' E. exists h'. rewrite <-H2. split; [done|]. split; [done|lia]. Qed.
Lemma wires_after c c' : wires c c' -> (is_Some (pc_h2 c) -> is_Some (pc_h2 c')) -> (is_Some (pc_h3c c) -> is_Some (pc_h3c c')) ->
  pc_waiting c' = pc_waiting c -> fuller c c' -> conn_after c c'.
Proof.
  intros HW H1 H2 H3 H4. pose proof (fuller_capacity c c' HW H4) as HF.
  destruct HW as (A1 & A2 & A3 & A4 & A5 & A6 & A7). unfold conn_after. repeat split; try done; [congruence| |rewrite H3; by left].
  by apply quic_after_recv.
Qed.
Lemma co_wire_after reqs P i c c' : conn_ok reqs P i c -> wires c c' -> pc_h3c c' = pc_h3c c \/ pc_proto c = PoolProto_H3 ->
  match pc_proto c' with PoolProto_H3 => is_Some (pc_quic c') | _ => is_Some (pc_tcp c') /\ pc_h3c c' = None end.
Proof.
  intros Hok (-> & _ & _ & _ & _ & A6 & A7) Hc. pose proof (co_wire _ _ _ _ _ _ Hok) as W. destruct (pc_proto c).
  1,3: destruct W as [W1 W2]; destruct Hc as [->|]; [by split; [apply A6|]|done].
  destruct W as [x Hx]. rewrite Hx in A7. destruct A7 as (y & -> & _). by exists y.
Qed.
Lemma queued_wires z reqs i c c' r : pc_proto c' = pc_proto c -> pc_origin c' = pc_origin c -> queued z reqs i c r -> queued z reqs i c' r.
Proof. intros E1 E2 (q & A1 & A2 & A3 & A4 & A5). exists q. by rewrite E1, E2. Qed.

Lemma conn_ok_wires reqs P i c c' : conn_ok reqs P i c -> wires c c' -> pc_h2 c' = pc_h2 c ->
  (pc_h3c c' = pc_h3c c \/ exists hc hc', pc_h3c c = Some hc /\ pc_h3c c' = Some hc' /\ hc_streams hc' = hc_streams hc /\
    pc_proto c = PoolProto_H3) ->
  pc_waiting c' ≡ₚ pc_waiting c -> pc_active c' = pc_active c -> pc_inflight c' = pc_inflight c ->
  (pc_idle c' = true -> pc_active c = []) -> conn_ok reqs P i c'.
Proof.
  intros Hok HW E1 E2 E3 E4 E5 E6. pose proof HW as (W1 & W2 & W3 & W4 & W5 & W6 & W7).
  assert (EQ : reqs_of c' ≡ₚ reqs_of c) by (unfold reqs_of; by rewrite E3, E4).
  constructor; rewrite ?E4, ?E5, ?W1, ?W2, ?W3, ?E1; try by destruct Hok.
  - rewrite EQ. by destruct Hok.
  - intros r Hr. rewrite EQ in Hr. by apply (queued_wires _ _ _ c), Hok.
  - intros Hc. pose proof (co_closing _ _ _ _ _ _ Hok Hc) as E. rewrite E in EQ. by apply Permutation_nil_r in EQ.
  - intros Hh. destruct (co_handshaking _ _ _ _ _ _ Hok Hh) as [Ha Hn]. split; [done|].
    destruct E2 as [->|(hc & hc' & E & _)]; [done|congruence].
  - rewrite <-W1. apply (co_wire_after reqs P i c c' Hok HW). destruct E2 as [|(? & ? & _ & _ & _ & ?)]; [by left|by right].
  - intros Hp Hst. destruct (co_h3 _ _ _ _ _ _ Hok Hp Hst) as (hc & x & B1 & B2 & B3 & B4 & B5 & B6).
    rewrite B2 in W7. destruct W7 as (y & Ey & Hsub & _).
    assert (Hhc : exists hc', pc_h3c c' = Some hc' /\ hc_streams hc' = hc_streams hc).
    { destruct E2 as [E2|(hc1 & hc2 & F1 & F2 & F3 & _)]; [exists hc; by rewrite E2|]. exists hc2. split; [done|]. congruence. }
    destruct Hhc as (hc' & Eh & Es). exists hc', y. rewrite Es. repeat (split; [done|]). split; [|done].
    intros r q Hr Er. by apply Hsub, (B5 r).
Qed.

(** ** Operations that keep the invariant *)
Definition ends F D s (x : unit) s' : Prop := Inv F D s' /\ evolves F s s'.
Lemma wp_then {A} (m : PM A) (k : A -> PM unit) F F' D D' s :
  F' ⊆ F -> wp m (fun x s' => (Inv F D s' /\ evolves F s s') /\ wp (k x) (ends F' D' s') s') s -> wp (x ← m; k x) (ends F' D' s) s.
Proof.
  intros HF H. apply wp_bind. eapply wp_mono; [exact H|]. intros x s' [[_ He] Hk]. eapply wp_mono; [exact Hk|].
  intros [] s2 [Hi2 He2]. split; [done|]. eapply evolves_trans; [|exact He2]. by eapply evolves_sub.
Qed.
Lemma ends_trans F F' D s s1 s2 : F' ⊆ F -> evolves F s s1 -> ends F' D s1 tt s2 -> ends F' D s tt s2.
Proof. intros HF He [Hi He2]. split; [done|]. eapply evolves_trans; [|exact He2]. by eapply evolves_sub. Qed.
(** From here on [s0] is where the operation started. *)
Lemma wp_from (m : PM unit) F F' D s s1 : F' ⊆ F -> evolves F s s1 -> wp m (ends F' D s1) s1 -> wp m (ends F' D s) s1.
Proof. intros HF He H. eapply wp_mono; [exact H|]. intros [] s2 Hs. by eapply ends_trans. Qed.
Lemma inv_upd_client F D s f : Inv F D s -> Inv F D (set_p_client f s) /\ evolves F s (set_p_client f s).
Proof. intros HI. split; [by apply (inv_same open opened F D s)|by apply evolves_same]. Qed.

Lemma inv_put F D s i c c' : Inv F D s -> p_pcs s !! i = Some c -> reqs_of c' ≡ₚ reqs_of c -> conn_after c c' ->
  conn_ok (p_reqs s) (pend D i) i c' -> Inv F D (put i c' s) /\ evolves F s (put i c' s).
Proof.
  intros HI Ei Hp Hc Hok. split; [|by apply (evolves_pc F s i c c')].
  apply (inv_move open opened F F D D s i c c'); try done. by rewrite Hp.
Qed.
Lemma inv_putr F D s r q : Inv F D s -> r ∈ F -> (pr_responded q = false -> r ∉ answered s) ->
  (exists q0, p_reqs s !! r = Some q0 /\ (pr_retries_left q <= pr_retries_left q0)%nat) -> Inv F D (putr r q s).
Proof.
  intros HI Hr Hl (q0 & E0 & Hn). apply inv_float_req; try done. intros q1 E1. by assert (q1 = q0) as -> by congruence.
Qed.

Context (on_user : nat -> Delivery -> PM unit) (h2req_start : PoolParams -> PM unit).
(** The callers' code does nothing but dispatch requests, and the start of a
    request outside of the pool calls nobody back. *)
Definition calm (m : PM unit) : Prop := forall F D s, Inv F D s -> wp m (ends F D s) s.
Context (Huser : forall u d, calm (on_user u d)) (Hstart : forall p s, wp (h2req_start p) (fun _ s' => same_pool s s') s).

(** *** Outcomes *)
Lemma wp_deliver F D s r q d : Inv F D s -> r ∈ F -> p_reqs s !! r = Some q -> pr_responded q = true -> r ∉ answered s ->
  wp (deliver on_user r d) (fun _ s' => Inv F D s' /\ evolves F s s' /\ r ∈ answered s') s.
Proof.
  intros HI Hr Er Hresp Hnew. unfold deliver. apply wp_bind, (wp_get_req r q); [done|]. apply wp_bind, wp_pupd.
  destruct (inv_log open opened F D s r q (Delivered d) HI Hr Er Hresp Hnew) as (H1 & H2 & H3).
  eapply wp_mono; [apply (Huser _ _ F D _ H1)|]. intros [] s' [Hi He]. split; [done|].
  split; [by eapply evolves_trans|]. by apply He.
Qed.
Lemma wp_req_done F D s r q : Inv (r :: F) D s -> p_reqs s !! r = Some q -> r ∈ answered s ->
  wp (pool_req_done r) (ends F D s) s.
Proof.
  intros HI Er Hr. unfold pool_req_done. apply wp_bind, (wp_get_req r q); [done|]. apply wp_pupd.
  apply (inv_done open opened F D s _ r HI); try done. by left.
Qed.
Lemma sub_cons r F : F ⊆ r :: F.
Proof. set_solver. Qed.
Lemma floating_none F D s r i c : Inv (r :: F) D s -> p_pcs s !! i = Some c -> r ∉ reqs_of c.
Proof. intros HI Ei. apply (i_float_free _ _ _ _ _ HI r i c); [left|done]. Qed.
Lemma floating_notin F D s r : Inv (r :: F) D s -> r ∉ F.
Proof. intros HI. pose proof (i_float_nodup _ _ _ _ _ HI) as H. by apply NoDup_cons in H as [? _]. Qed.
Lemma evolves_putr F s r q : r ∉ F -> evolves F s (putr r q s).
Proof. apply evolves_req. Qed.

(** Setting [responded], then telling the caller. *)
Lemma wp_respond {A} F D s r q d (k : PM unit) (m : PM A) (Post : A -> Pool -> Prop) : Inv (r :: F) D s -> p_reqs s !! r = Some q ->
  r ∉ answered s -> (forall s, is_Some (p_reqs s !! r) -> wp k (fun _ s' => same_pool s s') s) ->
  (forall s', Inv (r :: F) D s' -> evolves F s s' -> r ∈ answered s' -> wp m Post s') ->
  wp (upd_req r set_pr_responded;; k;; deliver on_user r d;; m) Post s.
Proof.
  intros HI Er Hnew Hk HP. apply wp_bind, (wp_updr r _ q); [done|]. set (s0 := putr r (set_pr_responded q) s).
  assert (H1 : Inv (r :: F) D s0) by (apply inv_putr; [done|left|done|by exists q]).
  apply wp_bind. eapply wp_mono; [apply (Hk s0); unfold s0; rewrite putr_lookup; by eexists|]. intros [] s1 Hs1.
  pose proof (inv_same open opened _ _ _ _ Hs1 H1) as Hi1. pose proof (evolves_same (r :: F) _ _ Hs1) as He1.
  destruct Hs1 as (_ & _ & E1 & _ & _ & E2 & _). apply wp_bind.
  eapply wp_mono; [apply (wp_deliver (r :: F) D s1 r (set_pr_responded q) d Hi1); [left|rewrite E1; apply putr_lookup|done|]|].
  - unfold answered. rewrite E2. exact Hnew.
  - intros [] s2 (Hi & He & Hr). apply HP; [done| |done].
    eapply evolves_trans; [apply (evolves_putr F s r (set_pr_responded q)); by eapply floating_notin|].
    eapply evolves_trans; [eapply evolves_sub; [apply sub_cons|exact He1]|]. eapply evolves_sub; [apply sub_cons|exact He].
Qed.
Lemma wp_respond0 {A} F D s r q d (m : PM A) (Post : A -> Pool -> Prop) : Inv (r :: F) D s -> p_reqs s !! r = Some q -> r ∉ answered s ->
  (forall s', Inv (r :: F) D s' -> evolves F s s' -> r ∈ answered s' -> wp m Post s') ->
  wp (upd_req r set_pr_responded;; deliver on_user r d;; m) Post s.
Proof.
  intros HI Er Hnew HP. pose proof (wp_respond F D s r q d pskip m Post HI Er Hnew ltac:(done) HP) as W.
  unfold wp, mbind, PS_bind in *. by destruct (upd_req r set_pr_responded s) as [[[] s1]|].
Qed.
Lemma wp_deliver_error F D s r q err : Inv (r :: F) D s -> p_reqs s !! r = Some q -> (pr_responded q = true -> r ∈ answered s) ->
  wp (pool_req_deliver_error on_user r err) (fun _ s' => Inv (r :: F) D s' /\ evolves F s s' /\ r ∈ answered s') s.
Proof.
  intros HI Er Hans. unfold pool_req_deliver_error. apply wp_bind, (wp_get_req r q); [done|].
  destruct (pr_responded q) eqn:Hresp; [split; [done|split; [apply evolves_refl|by apply Hans]]|].
  pose proof (wp_respond0 F D s r q (DeliverError err) pskip (fun _ s' => Inv (r :: F) D s' /\ evolves F s s' /\ r ∈ answered s')
    HI Er (i_log _ _ _ _ _ HI r q Er Hresp) ltac:(done)) as W.
  unfold wp, mbind, PS_bind in *. destruct (upd_req r set_pr_responded s) as [[[] s1]|]; [|done].
  by destruct (deliver on_user r (DeliverError err) s1) as [[[] s2]|].
Qed.
Lemma wp_req_fail F D s r q err : Inv (r :: F) D s -> p_reqs s !! r = Some q -> (pr_responded q = true -> r ∈ answered s) ->
  wp (pool_req_fail on_user r err) (ends F D s) s.
Proof.
  intros HI Er Hans. unfold pool_req_fail. apply wp_bind. eapply wp_mono; [by apply (wp_deliver_error F D s r q)|].
  intros [] s1 (Hi & He & Hr). destruct (i_float _ _ _ _ _ Hi r ltac:(left)) as [q1 E1].
  eapply (wp_from _ F); [done|exact He|]. by apply (wp_req_done F D s1 r q1).
Qed.

(** *** Submitting *)
Lemma quic_after_ref b x : quic_after x (quic_ref b <$> x).
Proof. destruct x as [x|]; [|done]. exists (quic_ref b x). split; [done|]. apply (quic_ref_more opened Hq). Qed.
Lemma wires_ref b c : wires c (if negb (bool_decide (pc_proto c = PoolProto_H3)) then set_pc_tcp (tcp_ref b <$> pc_tcp c) c
                               else set_pc_quic (quic_ref b <$> pc_quic c) c).
Proof.
  destruct (negb (bool_decide (pc_proto c = PoolProto_H3))); unfold wires; cbn; repeat split; try done; try apply quic_after_refl; try apply quic_after_ref.
  by intros [t ->]; exists (tcp_ref b t).
Qed.
(** [c'] has what [c] has, up to the transports and the time it is idle since. *)
Definition rewired c c' : Prop :=
  wires c c' /\ pc_h2 c' = pc_h2 c /\ pc_h3c c' = pc_h3c c /\ pc_waiting c' = pc_waiting c /\ pc_active c' = pc_active c /\
  pc_inflight c' = pc_inflight c.
Lemma rewired_ref b c : exists c', rewired c c' /\ pc_idle c' = pc_idle c /\ forall (Post : unit -> Pool -> Prop) i s,
  p_pcs s !! i = Some c -> Post tt (put i c' s) -> wp (pool_conn_set_ref b i) Post s.
Proof.
  exists (if negb (bool_decide (pc_proto c = PoolProto_H3)) then set_pc_tcp (tcp_ref b <$> pc_tcp c) c
          else set_pc_quic (quic_ref b <$> pc_quic c) c).
  split; [split; [apply wires_ref|]|split].
  - by destruct (negb (bool_decide (pc_proto c = PoolProto_H3))).
  - by destruct (negb (bool_decide (pc_proto c = PoolProto_H3))).
  - intros Post i s Ei HP. exact (wp_upd i _ c Post s Ei HP).
Qed.
Lemma rewired_trans c1 c2 c3 : rewired c1 c2 -> rewired c2 c3 -> rewired c1 c3.
Proof.
  intros (W1 & A1 & A2 & A3 & A4 & A5) (W2 & B1 & B2 & B3 & B4 & B5). split; [by eapply wires_trans|]. repeat split; congruence.
Qed.
Lemma wp_tcp_sends i l (Post : unit -> Pool -> Prop) : forall s c, p_pcs s !! i = Some c ->
  (forall c', rewired c c' -> pc_idle c' = pc_idle c -> Post tt (put i c' s)) -> (l = [] -> Post tt s) -> wp (pool_tcp_sends i l) Post s.
Proof.
  assert (Hgen : forall l s c, p_pcs s !! i = Some c ->
    (forall c', rewired c c' -> pc_idle c' = pc_idle c -> Post tt (put i c' s)) -> Post tt s -> wp (pool_tcp_sends i l) Post s).
  { clear l. induction l as [|d l IH]; intros s c Ei HP H0; [done|]. cbn [pool_tcp_sends]. unfold pool_tcp_send.
    assert (HW : forall d c, rewired c (set_pc_tcp ((fun t => tcp_send t d) <$> pc_tcp c) c)).
    { intros d' c0. repeat split; try done; [|apply quic_after_refl]. cbn. by intros [t ->]; exists (tcp_send t d'). }
    apply wp_bind, (wp_upd i _ c); [done|]. apply (IH _ _ (put_lookup i _ s)).
    - intros c' (W & A1 & A2 & A3 & A4 & A5) A6. rewrite put_put. apply HP; [|done].
      destruct (HW d c) as (W0 & _). split; [by eapply wires_trans|]. done.
    - apply HP; [apply HW|done]. }
  intros s c Ei HP H0. destruct l as [|d l]; [by apply H0|]. cbn [pool_tcp_sends]. unfold pool_tcp_send.
  assert (HW : rewired c (set_pc_tcp ((fun t => tcp_send t d) <$> pc_tcp c) c)).
  { repeat split; try done; [|apply quic_after_refl]. cbn. by intros [t ->]; exists (tcp_send t d). }
  apply wp_bind, (wp_upd i _ c); [done|]. apply (Hgen l _ _ (put_lookup i _ s)).
  - intros c' (W & A1 & A2 & A3 & A4 & A5) A6. rewrite put_put. apply HP; [|done].
    destruct HW as (W0 & _). split; [by eapply wires_trans|]. done.
  - by apply HP.
Qed.

Lemma wp_after_submit i r q c (Post : unit -> Pool -> Prop) s : p_reqs s !! r = Some q -> p_pcs s !! i = Some c ->
  (pc_idle c = true -> pc_inflight c = O) ->
  (forall c', wires c c' -> pc_h2 c' = pc_h2 c -> pc_h3c c' = pc_h3c c -> pc_waiting c' = pc_waiting c ->
    pc_active c' = r :: pc_active c -> pc_inflight c' = S (pc_inflight c) -> pc_idle c' = false -> Post tt (put i c' s)) ->
  wp (pool_after_submit i r) Post s.
Proof.
  intros Er Ei Hidle HP. unfold pool_after_submit. apply wp_bind, (wp_get_pc i c); [done|]. apply wp_bind.
  assert (Hrest : forall c1, wires c c1 -> pc_h2 c1 = pc_h2 c -> pc_h3c c1 = pc_h3c c -> pc_waiting c1 = pc_waiting c ->
    pc_active c1 = pc_active c -> pc_inflight c1 = pc_inflight c -> pc_idle c1 = false ->
    forall s1, p_pcs s1 !! i = Some c1 -> p_reqs s1 !! r = Some q -> (forall c', put i c' s1 = put i c' s) ->
    wp (upd_pc i (fun c => set_pc_idle (pc_idle c) 0 (set_pc_active (S (pc_inflight c)) (pc_active c) c));; pool_active_push i r) Post s1).
  { intros c1 W A1 A2 A3 A4 A5 A6 s1 Ei1 Er1 Hput. apply wp_bind, (wp_upd i _ c1); [done|]. unfold pool_active_push.
    apply wp_bind, (wp_get_req r q); [done|]. eapply wp_upd; [apply put_lookup|]. rewrite put_put, Hput.
    apply HP; cbn; rewrite ?A4, ?A5; try done. }
  destruct (pc_inflight c =? 0)%nat eqn:E0.
  - destruct (rewired_ref true c) as (c1 & (W & A1 & A2 & A3 & A4 & A5) & A6 & Hwp). unfold pool_conn_ref.
    apply wp_bind, (Hwp _ i s Ei). eapply wp_upd; [apply put_lookup|]. rewrite put_put.
    apply (Hrest (set_pc_idle false (pc_idle_since_ms c) c1)); try done; [apply put_lookup|]. intros c'. by rewrite put_put.
  - apply (Hrest c); try done; [apply wires_refl|]. bool_props. destruct (pc_idle c); [|done]. by specialize (Hidle eq_refl).
Qed.

Lemma queued_any z reqs i c r : queued None reqs i c r -> queued z reqs i c r.
Proof. intros (q & A1 & A2 & A3 & A4 & A5). exists q. repeat (split; [done|]). split; [|done]. intros H. by specialize (A4 H). Qed.
Lemma queued_open reqs i c r q : queued None reqs i c r -> reqs !! r = Some q -> pr_responded q = false.
Proof. intros (q' & A1 & A2 & A3 & A4 & A5) Er. assert (q' = q) as -> by congruence. by destruct (pr_responded q); [specialize (A4 eq_refl)|]. Qed.

Lemma conn_ok_submitted reqs P i c c' r q : conn_ok reqs P i c -> wires c c' -> pc_state c = PoolConnState_Ready ->
  pc_waiting c' = pc_waiting c -> pc_active c' = r :: pc_active c -> pc_inflight c' = S (pc_inflight c) -> pc_idle c' = false ->
  queued None reqs i c r -> r ∉ reqs_of c -> reqs !! r = Some q ->
  match pc_proto c with
  | PoolProto_H1 => pc_active c = [] /\ pc_h3c c' = pc_h3c c /\ exists h, pr_h1 q = Some h /\ out_inv h
  | PoolProto_H2 => pc_h3c c' = pc_h3c c /\ exists h h', pc_h2 c = Some h /\ pc_h2 c' = Some h' /\
      open h' ≡ₚ ((pr_h2_stream_id q, r) :: open h)
  | PoolProto_H3 => exists hc hc', pc_h3c c = Some hc /\ pc_h3c c' = Some hc' /\ hc_streams hc' ≡ₚ (r :: hc_streams hc) /\
      (length (pc_active c) < POOL_H3_MAX_CONCURRENT)%nat /\ (forall x, pc_quic c = Some x -> pr_h3_stream_id q ∉ opened x) /\
      (forall x, pc_quic c' = Some x -> pr_h3_stream_id q ∈ opened x)
  end -> conn_ok reqs P i c'.
Proof.
  intros Hok HW Hst E1 E2 E3 E4 Hqd Hr Er Hcase. pose proof HW as (W1 & W2 & W3 & W4 & W5 & W6 & W7).
  assert (EQ : reqs_of c' ≡ₚ (r :: reqs_of c)) by (unfold reqs_of; rewrite E1, E2; by rewrite <-Permutation_middle).
  constructor; rewrite ?E1, ?E2, ?E3, ?E4, ?W1, ?W2, ?W3, ?Hst; try done; try apply (co_origin _ _ _ _ _ _ Hok).
  - rewrite EQ. constructor; [done|by destruct Hok].
  - intros x Hx. rewrite EQ in Hx. apply elem_of_cons in Hx as [->|Hx]; apply (queued_wires _ _ _ c); try done; [by apply queued_any|by apply Hok].
  - cbn [length]. by rewrite (co_inflight _ _ _ _ _ _ Hok).
  - rewrite <-W1. apply (co_wire_after reqs P i c c' Hok HW).
    destruct (pc_proto c); [left; by destruct Hcase|by right|left; by destruct Hcase as (_ & ? & _)].
  - intros Hp. rewrite Hp in Hcase. destruct Hcase as (Ha & _ & h & Hh & Ho). rewrite Ha. split; [cbn; lia|].
    intros x Hx. apply elem_of_cons in Hx as [->|Hx]; [by exists q, h|by apply elem_of_nil in Hx].
  - intros Hp Hncl. rewrite Hp in Hcase. destruct Hcase as (_ & h & h' & Eh & -> & Hopen).
    pose proof (co_h2 _ _ _ _ _ _ Hok Hp ltac:(by rewrite Hst)) as B. rewrite Eh in B. destruct B as [B1 B2]. split.
    + rewrite B1, Hopen. cbn [map snd]. by rewrite Permutation_middle.
    + intros sid x qx Hin Ex. rewrite Hopen in Hin. apply elem_of_cons in Hin as [Hin|Hin]; [|by apply (B2 sid x)].
      injection Hin as -> ->. congruence.
  - intros Hp _. rewrite Hp in Hcase. destruct Hcase as (hc & hc' & F1 & F2 & F3 & F4 & F5 & F6).
    destruct (co_h3 _ _ _ _ _ _ Hok Hp Hst) as (hc2 & x & B1 & B2 & B3 & B4 & B5 & B6).
    assert (hc2 = hc) as -> by congruence. rewrite B2 in W7. destruct W7 as (y & Ey & Hsub & _).
    exists hc', y. repeat (split; [done|]). split; [by rewrite F3, B3|]. split; [cbn [length]; lia|]. split.
    + intros u qu Hu Eu. apply elem_of_cons in Hu as [->|Hu].
      * assert (qu = q) as -> by congruence. by apply F6.
      * by apply Hsub, (B5 u).
    + assert (Hnew : forall u qu, u ∈ pc_active c -> reqs !! u = Some qu -> pr_h3_stream_id qu <> pr_h3_stream_id q).
      { intros u qu Hu Eu Heq. apply (F5 x B2). rewrite <-Heq. by apply (B5 u). }
      intros u v qu qv Hu Hv Eu Ev Heq. apply elem_of_cons in Hu as [->|Hu]; apply elem_of_cons in Hv as [->|Hv]; try done.
      * assert (qu = q) as -> by congruence. by destruct (Hnew v qv Hv Ev).
      * assert (qv = q) as -> by congruence. by destruct (Hnew u qu Hu Eu).
      * by apply (B6 u v qu qv).
Qed.

Lemma submit_done F D s i c c' r q' : Inv (r :: F) D s -> p_pcs s !! i = Some c -> conn_after c c' ->
  reqs_of c' ≡ₚ (r :: reqs_of c) -> pr_responded q' = false ->
  (exists q, p_reqs s !! r = Some q /\ pr_retries_left q' = pr_retries_left q) -> r ∉ answered s ->
  conn_ok (p_reqs (putr r q' s)) (pend D i) i c' -> ends F D s tt (put i c' (putr r q' s)).
Proof.
  intros HI Ei Hc Hp Hf (q & Er & Hret) Hans Hok.
  assert (H1 : Inv (r :: F) D (putr r q' s)) by (apply inv_putr; [done|left|done|exists q; split; [done|lia]]).
  split.
  - apply (inv_move open opened (r :: F) F D D (putr r q' s) i c c'); try done; [rewrite Hp; solve_Permutation|].
    intros z qz _ Hz. by apply not_elem_of_cons in Hz as [_ ?].
  - eapply evolves_trans; [apply (evolves_putr F s r q'); by eapply floating_notin|].
    by apply (evolves_pc F (putr r q' s) i c c').
Qed.
Lemma reqs_of_push c c' r : pc_waiting c' = pc_waiting c -> pc_active c' = r :: pc_active c -> reqs_of c' ≡ₚ (r :: reqs_of c).
Proof. unfold reqs_of. intros -> ->. by rewrite Permutation_middle. Qed.
Lemma idle_inflight reqs P i c : conn_ok reqs P i c -> pc_idle c = true -> pc_inflight c = O.
Proof. intros Hok Hi. by rewrite (co_inflight _ _ _ _ _ _ Hok), (co_idle _ _ _ _ _ _ Hok Hi). Qed.
Lemma queued_putr reqs i c r q' : queued None reqs i c r -> (forall q, reqs !! r = Some q -> pr_params q' = pr_params q /\ pr_pc q' = pr_pc q /\
  pr_proto q' = pr_proto q /\ pr_responded q' = pr_responded q) -> queued None (<[r := q']> reqs) i c r.
Proof.
  intros (q & Er & A1 & A2 & A3 & A4) Hs. destruct (Hs q Er) as (B1 & B2 & B3 & B4). exists q'. rewrite lookup_insert_eq.
  unfold req_key in *. rewrite B1, B2, B3, B4. repeat (split; [done|]). split; [|done]. intros H. by specialize (A3 H).
Qed.
Lemma queued_fresh F D s r i c : Inv (r :: F) D s -> queued None (p_reqs s) i c r -> exists q, p_reqs s !! r = Some q /\
  pr_responded q = false /\ r ∉ answered s.
Proof.
  intros HI Hqd. pose proof Hqd as (q & Er & _). pose proof (queued_open _ _ _ _ _ Hqd Er) as Hf. exists q. split; [done|].
  split; [done|]. by apply (i_log _ _ _ _ _ HI r q).
Qed.
Lemma conn_ok_putr F D s i c r q' : Inv (r :: F) D s -> p_pcs s !! i = Some c -> conn_ok (p_reqs (putr r q' s)) (pend D i) i c.
Proof.
  intros HI Ei. apply (conn_ok_reqs open opened (p_reqs s)); [|by apply (i_conn _ _ _ _ _ HI)].
  intros x Hx. apply lookup_insert_ne. intros <-. by apply (floating_none F D s r i c HI Ei).
Qed.

Lemma conn_ok_h2 reqs P i c h h' : conn_ok reqs P i c -> pc_h2 c = Some h -> open h' ≡ₚ open h ->
  conn_ok reqs P i (set_pc_h2 (Some h') c).
Proof.
  intros [A1 A2 A3 A4 A5 A6 A0 A7 A8 A9 A10] Eh Ho. constructor; try done. cbn [pc_h2 set_pc_h2 pc_proto pc_state pc_active].
  intros Hp Hst. specialize (A9 Hp Hst). rewrite Eh in A9. destruct A9 as [B1 B2]. split; [by rewrite Ho|].
  intros sid r q Hin. rewrite Ho in Hin. by apply B2.
Qed.
Lemma conn_ok_rewired reqs P i c c' : conn_ok reqs P i c -> rewired c c' -> pc_idle c' = pc_idle c -> conn_ok reqs P i c'.
Proof.
  intros Hok (W & E1 & E2 & E3 & E4 & E5) E6. apply (conn_ok_wires reqs P i c c' Hok W); try done; [by left|by rewrite E3|].
  rewrite E6. apply Hok.
Qed.
Lemma rewired_after c c' : rewired c c' -> conn_after c c'.
Proof.
  intros (W & E1 & E2 & E3 & E4 & E5). apply wires_after; [done|by rewrite E1|by rewrite E2|done|].
  apply fuller_same; [by rewrite E5|done|by rewrite E2].
Qed.
Lemma rewired_reqs c c' : rewired c c' -> reqs_of c' = reqs_of c.
Proof. unfold rewired, reqs_of. by intros (_ & _ & _ & -> & -> & _). Qed.

(** A call of the HTTP/2 session that only sends. *)
Lemma wp_run_sends {A} acquire i (x : H2Run h2_session A) a h (Post : A -> Pool -> Prop) : run_sends x = Some (a, h) ->
  forall s c, p_pcs s !! i = Some c ->
  (forall c', rewired (set_pc_h2 (Some h) c) c' -> pc_idle c' = pc_idle c -> Post a (put i c' s)) ->
  wp (h2_run decode_content on_user acquire i x) Post s.
Proof.
  induction x as [a1 h1|d x IH|]; cbn [run_sends h2_run]; [intros [= -> ->]|intros Ex|done]; intros s c Ei HP.
  - apply wp_bind, (wp_upd i _ c); [done|]. apply wp_ret, HP; [|done]. split; [apply wires_refl|done].
  - apply wp_bind. unfold pool_tcp_send. apply (wp_upd i _ c); [done|].
    apply (IH Ex _ _ (put_lookup i _ s)). intros c' HR HId. rewrite put_put. apply HP; [|done].
    refine (rewired_trans _ _ _ _ HR). repeat split; try done; [|apply quic_after_refl]. cbn. by intros [t ->]; exists (tcp_send t d).
Qed.

Lemma wp_h2_submit acquire F D s i c r : Inv (r :: F) D s -> p_pcs s !! i = Some c -> queued None (p_reqs s) i c r ->
  pc_proto c = PoolProto_H2 -> pc_state c = PoolConnState_Ready ->
  wp (pool_h2_submit decode_content on_user acquire i r) (ends F D s) s.
Proof.
  intros HI Ei Hqd Hp Hst. destruct (queued_fresh F D s r i c HI Hqd) as (q & Er & Hf & Hans).
  pose proof (i_conn _ _ _ _ _ HI i c Ei) as Hok. pose proof (co_h2 _ _ _ _ _ _ Hok Hp ltac:(by rewrite Hst)) as B.
  destruct (pc_h2 c) as [h|] eqn:Eh; [|destruct B; congruence].
  unfold pool_h2_submit. apply wp_bind, (wp_get_req r q); [done|]. apply wp_bind, wp_pget.
  apply wp_bind, (wp_get_pc i c); [done|]. destruct (pool_build q _ _ _) as [hs body]. cbv zeta. rewrite Eh.
  match goal with |- context [h2_submit h ?m ?sc ?au ?pa ?hs ?b r] => destruct (h2_submit_calm Hcalm2 h m sc au pa hs b r) as [[sid h'] Es] end.
  pose proof (h2_submit_open open Hh2 _ _ _ _ _ _ _ _ _ _ Es) as Ho.
  pose proof (h2_submit_room open Hh2 _ _ _ _ _ _ _ _ _ _ Es) as Hroom. set (c1 := set_pc_h2 (Some h') c).
  assert (Hfull : fuller c c1).
  { split; [done|]. split; [done|]. intros h2 [= <-]. by exists h. }
  assert (Hnext : forall c2, rewired c1 c2 -> pc_idle c2 = pc_idle c1 ->
    wp (if sid <? 0 then pool_req_fail on_user r (lit "h2 submit failed")
        else upd_req r (set_pr_h2_stream_id sid);; pool_after_submit i r) (ends F D s) (put i c2 s)).
  { intros c2 R2 I2. destruct (sid <? 0) eqn:Hs.
    - assert (Hok2 : conn_ok (p_reqs s) (pend D i) i c2).
      { apply (conn_ok_rewired _ _ _ c1); try done. by apply (conn_ok_h2 _ _ _ c h h'). }
      assert (Hc2 : conn_after c c2).
      { apply (conn_after_trans _ c1); [|by apply rewired_after]. apply wires_after; [exact (wires_refl c)|cbn; by eauto|done|done|exact Hfull]. }
      destruct (inv_put (r :: F) D s i c c2 HI Ei ltac:(by rewrite (rewired_reqs _ _ R2)) Hc2 Hok2) as [Hi2 He2].
      eapply (wp_from _ (r :: F)); [apply sub_cons|exact He2|]. apply (wp_req_fail F D _ r q); [done|done|congruence].
    - apply wp_bind, (wp_updr r _ q); [done|]. set (q' := set_pr_h2_stream_id sid q). rewrite put_putr.
      apply (wp_after_submit i r q' c2); [apply putr_lookup|apply put_lookup| |].
      + destruct R2 as (_ & _ & _ & _ & _ & E5). rewrite I2, E5. apply (idle_inflight _ _ _ _ Hok).
      + intros c3 W3 G1 G2 G3 G4 G5 G6. rewrite put_put. destruct R2 as (W2 & R1 & R2 & R3 & R4 & R5).
        assert (W : wires c c3) by (apply (wires_trans c c2); [exact W2|done]).
        apply (submit_done F D s i c c3 r q'); try done; [| |by exists q|].
        * apply wires_after; [done|rewrite G1, R1; by eauto|by rewrite G2, R2|by rewrite G3, R3|].
          split; [rewrite G5, R5; cbn; lia|]. split; [by rewrite G2, R2|]. intros h2. rewrite G1, R1. by apply Hfull.
        * apply reqs_of_push; [by rewrite G3, R3|by rewrite G4, R4].
        * apply (conn_ok_submitted _ _ i c c3 r q'); try done; [by apply (conn_ok_putr F D s)|by rewrite G3, R3|by rewrite G4, R4|
            by rewrite G5, R5| |by apply (floating_none F D s r i c)|apply putr_lookup|].
          -- apply queued_putr; [done|]. intros q0 E0. assert (q0 = q) as -> by congruence. done.
          -- rewrite Hp. split; [by rewrite G2, R2|]. exists h, h'. split; [done|]. split; [by rewrite G1, R1|]. cbn. by rewrite Ho. }
  by apply wp_bind, (wp_run_sends _ i _ sid h' _ Es s c Ei).
Qed.

Lemma wp_h1_submit F D s i c r : Inv (r :: F) D s -> p_pcs s !! i = Some c -> queued None (p_reqs s) i c r ->
  pc_proto c = PoolProto_H1 -> pc_state c = PoolConnState_Ready -> pc_inflight c = O ->
  wp (pool_h1_submit on_user i r) (ends F D s) s.
Proof.
  intros HI Ei Hqd Hp Hst Hin. destruct (queued_fresh F D s r i c HI Hqd) as (q & Er & Hf & Hans).
  pose proof (i_conn _ _ _ _ _ HI i c Ei) as Hok.
  assert (Hact : pc_active c = []) by (apply nil_length_inv; by rewrite <-(co_inflight _ _ _ _ _ _ Hok)).
  unfold pool_h1_submit. apply wp_bind, (wp_get_req r q); [done|]. apply wp_bind, wp_pget.
  destruct (pool_build q _ _ _) as [hs body]. cbv zeta.
  destruct (h1_session_submit_request _ _ _ _ _ _ _ _) as [rc h1] eqn:Eh.
  assert (Hh1 : rc = 0 /\ h1_out h1 = []) by (unfold h1_session_submit_request in Eh; injection Eh as <- <-; done).
  destruct Hh1 as [-> Hout]. cbn [Z.ltb Z.compare].
  apply wp_bind, (wp_updr r _ q); [done|]. set (q' := set_pr_h1 (Some h1) q). apply wp_bind.
  assert (Hnext : forall c2, rewired c c2 -> pc_idle c2 = pc_idle c ->
    wp (pool_after_submit i r) (ends F D s) (put i c2 (putr r q' s))).
  { intros c2 (W2 & R1 & R2 & R3 & R4 & R5) I2.
    apply (wp_after_submit i r q' c2); [apply putr_lookup|apply put_lookup|rewrite I2, R5; apply (idle_inflight _ _ _ _ Hok)|].
    intros c3 W3 G1 G2 G3 G4 G5 G6. rewrite put_put. assert (W : wires c c3) by (by apply (wires_trans c c2)).
    apply (submit_done F D s i c c3 r q'); try done; [| |by exists q|].
    - apply wires_after; [done|by rewrite G1, R1|by rewrite G2, R2|by rewrite G3, R3|].
      apply fuller_same; [rewrite G5, R5; lia|by rewrite G1, R1|by rewrite G2, R2].
    - apply reqs_of_push; [by rewrite G3, R3|by rewrite G4, R4].
    - apply (conn_ok_submitted _ _ i c c3 r q'); try done; [by apply (conn_ok_putr F D s)|by rewrite G3, R3|by rewrite G4, R4|
        by rewrite G5, R5| |by apply (floating_none F D s r i c)|apply putr_lookup|].
      + apply queued_putr; [done|]. intros q0 E0. assert (q0 = q) as -> by congruence. done.
      + rewrite Hp. split; [done|]. split; [by rewrite G2, R2|]. exists h1. split; [done|]. unfold out_inv. rewrite Hout. cbn. lia. }
  apply (wp_tcp_sends i _ _ _ c); [exact Ei| |].
  - intros c2 R2 I2. by apply Hnext.
  - intros _. replace (putr r q' s) with (put i c (putr r q' s)).
    + apply Hnext; [|done]. split; [apply wires_refl|done].
    + unfold put, putr, set_p_pcs. cbn. rewrite insert_id by done. done.
Qed.

(** *** HTTP/3 streams *)
Lemma wires_quic c x y : pc_quic c = Some x -> opened x ⊆ opened y -> quic_in_recv y = quic_in_recv x -> wires c (set_pc_quic (Some y) c).
Proof. intros Ex Hs Hr. unfold wires. cbn. repeat split; try done. rewrite Ex. by exists y. Qed.
(** [c'] is [c] after streams were opened and written to. *)
Definition streamed c c' : Prop :=
  wires c c' /\ pc_h2 c' = pc_h2 c /\ pc_waiting c' = pc_waiting c /\ pc_active c' = pc_active c /\
  pc_inflight c' = pc_inflight c /\ pc_idle c' = pc_idle c /\
  exists hc hc', pc_h3c c = Some hc /\ pc_h3c c' = Some hc' /\ hc_streams hc' = hc_streams hc.
Lemma streamed_trans c1 c2 c3 : streamed c1 c2 -> streamed c2 c3 -> streamed c1 c3.
Proof.
  intros (W1 & A1 & A2 & A3 & A4 & A5 & h1 & h2 & A6 & A7 & A8) (W2 & B1 & B2 & B3 & B4 & B5 & h3 & h4 & B6 & B7 & B8).
  split; [by eapply wires_trans|]. repeat (split; [congruence|]). exists h1, h4. repeat (split; [done|]). congruence.
Qed.
Lemma streamed_quic c x y : is_Some (pc_h3c c) -> pc_quic c = Some x -> opened x ⊆ opened y -> quic_in_recv y = quic_in_recv x ->
  streamed c (set_pc_quic (Some y) c).
Proof. intros [hc Eh] Ex Hs Hr. split; [by apply (wires_quic c x)|]. repeat (split; [done|]). by exists hc, hc. Qed.
Lemma streamed_h3c c hc hc' : pc_h3c c = Some hc -> hc_streams hc' = hc_streams hc -> streamed c (set_pc_h3c (Some hc') c).
Proof. intros Eh Hs. split; [apply (wires_refl c)|]. repeat (split; [done|]). by exists hc, hc'. Qed.
Lemma conn_ok_streamed reqs P i c c' : conn_ok reqs P i c -> pc_proto c = PoolProto_H3 -> streamed c c' -> conn_ok reqs P i c'.
Proof.
  intros Hok Hp (W & A1 & A2 & A3 & A4 & A5 & hc & hc' & A6 & A7 & A8).
  apply (conn_ok_wires reqs P i c c' Hok W); try done.
  - right. by exists hc, hc'.
  - by rewrite A2.
  - rewrite A5. apply Hok.
Qed.
Lemma streamed_after c c' : streamed c c' -> conn_after c c'.
Proof.
  intros (W & A1 & A2 & A3 & A4 & A5 & hc & hc' & A6 & A7 & A8). apply wires_after; [done|by rewrite A1|rewrite A7; by eauto|done|].
  apply fuller_same; [by rewrite A4|done|rewrite A6; by eauto].
Qed.
Lemma streamed_reqs c c' : streamed c c' -> reqs_of c' = reqs_of c.
Proof. unfold reqs_of. by intros (_ & _ & -> & -> & _). Qed.
(** A connection that can be streamed on. *)
Definition h3_conn c : Prop := is_Some (pc_quic c) /\ is_Some (pc_h3c c).
Lemma h3_conn_streamed c c' : h3_conn c -> streamed c c' -> h3_conn c'.
Proof.
  intros [[x Ex] _] (W & _ & _ & _ & _ & _ & hc & hc' & _ & A7 & _). destruct W as (_ & _ & _ & _ & _ & _ & W).
  rewrite Ex in W. destruct W as (y & Ey & _). split; [by exists y|by exists hc'].
Qed.

Definition opens_more (f : Q -> option Z * Q) : Prop :=
  forall x o y, f x = (o, y) -> opened x ⊆ opened y /\ quic_in_recv y = quic_in_recv x.
Lemma wp_open_stream f i c (Post : option Z -> Pool -> Prop) s : opens_more f -> p_pcs s !! i = Some c -> h3_conn c ->
  (forall c' o x y, pc_quic c = Some x -> f x = (o, y) -> pc_quic c' = Some y -> streamed c c' -> Post o (put i c' s)) ->
  wp (pool_open_stream f i) Post s.
Proof.
  intros Hf Ei [[x Ex] Eh] HP. unfold pool_open_stream. apply wp_bind, (wp_get_pc i c); [done|]. rewrite Ex.
  destruct (f x) as [o y] eqn:Ef. destruct (Hf _ _ _ Ef) as [H1 H2]. apply wp_bind, (wp_upd i _ c); [done|]. apply wp_ret.
  apply (HP _ _ x y); try done. by apply (streamed_quic c x).
Qed.
Lemma wp_on_quic f i c (Post : unit -> Pool -> Prop) s :
  (forall x, opened x ⊆ opened (f x) /\ quic_in_recv (f x) = quic_in_recv x) -> p_pcs s !! i = Some c -> h3_conn c ->
  (forall c', streamed c c' -> Post tt (put i c' s)) -> wp (on_quic i f) Post s.
Proof.
  intros Hf Ei [[x Ex] Eh] HP. unfold on_quic. apply (wp_upd i _ c); [done|]. rewrite Ex. cbn [fmap option_fmap option_map].
  destruct (Hf x). apply HP. by apply (streamed_quic c x).
Qed.
Lemma wp_flushes acquire f i c (Post : unit -> Pool -> Prop) s :
  (forall x, opened x ⊆ opened (f x) /\ quic_in_recv (f x) = quic_in_recv x) -> (forall x, quic_send_closed (f x) = None) ->
  p_pcs s !! i = Some c -> h3_conn c ->
  (forall c', streamed c c' -> Post tt (put i c' s)) -> wp (pool_quic_flushes on_user acquire i f) Post s.
Proof.
  intros Hf Hn Ei [[x Ex] Eh] HP. unfold pool_quic_flushes, on_quic. apply wp_bind, (wp_upd i _ c); [done|]. rewrite Ex. cbn [fmap option_fmap option_map].
  eapply wp_bind, wp_get_pc; [apply put_lookup|]. cbn [pc_quic set_pc_quic mbind option_bind]. rewrite Hn.
  destruct (Hf x). apply wp_ret, HP. by apply (streamed_quic c x).
Qed.
Lemma wp_upd_h3c f i c hc (Post : unit -> Pool -> Prop) s : p_pcs s !! i = Some c -> pc_h3c c = Some hc ->
  Post tt (put i (set_pc_h3c (Some (f hc)) c) s) -> wp (upd_h3c i f) Post s.
Proof. intros Ei Eh HP. unfold upd_h3c. apply (wp_upd i _ c); [done|]. by rewrite Eh. Qed.
Lemma send_more sid data fin x : opened x ⊆ opened (quic_stream_send x sid data fin) /\
  quic_in_recv (quic_stream_send x sid data fin) = quic_in_recv x.
Proof. apply (quic_send_more opened Hq). Qed.

Lemma wp_stream_upd f i c (Post : unit -> Pool -> Prop) s : (forall hc, hc_streams (f hc) = hc_streams hc) ->
  p_pcs s !! i = Some c -> h3_conn c -> (forall c', streamed c c' -> Post tt (put i c' s)) -> wp (upd_h3c i f) Post s.
Proof.
  intros Hf Ei [_ [hc Eh]] HP. apply (wp_upd_h3c f i c hc); [done|done|]. apply HP. by apply (streamed_h3c c hc).
Qed.
(** The same rules on a connection already [put] in the state. *)
Lemma wp_open_put f i c (Post : option Z -> Pool -> Prop) s : opens_more f -> h3_conn c ->
  (forall c' o, streamed c c' -> Post o (put i c' s)) -> wp (pool_open_stream f i) Post (put i c s).
Proof.
  intros Hf Hh HP. apply (wp_open_stream f i c); [done|apply put_lookup|done|]. intros c' o x y _ _ _ Hs. rewrite put_put. by apply HP.
Qed.
Lemma wp_send_put acquire sid data fin i c (Post : unit -> Pool -> Prop) s : h3_conn c ->
  (forall c', streamed c c' -> Post tt (put i c' s)) -> wp (pool_stream_send on_user acquire i sid data fin) Post (put i c s).
Proof.
  intros Hh HP. apply (wp_flushes _ _ i c); [intros x; apply send_more|intros x; apply (quic_send_calm Hcalm3)|apply put_lookup|done|].
  intros c' Hs. rewrite put_put. by apply HP.
Qed.
Lemma wp_quic_put f i c (Post : unit -> Pool -> Prop) s : (forall x, opened x ⊆ opened (f x) /\ quic_in_recv (f x) = quic_in_recv x) ->
  h3_conn c -> (forall c', streamed c c' -> Post tt (put i c' s)) -> wp (on_quic i f) Post (put i c s).
Proof. intros Hf Hh HP. apply (wp_on_quic f i c); [done|apply put_lookup|done|]. intros c' Hs. rewrite put_put. by apply HP. Qed.
Lemma wp_upd_put f i c (Post : unit -> Pool -> Prop) s : (forall hc, hc_streams (f hc) = hc_streams hc) -> h3_conn c ->
  (forall c', streamed c c' -> Post tt (put i c' s)) -> wp (upd_h3c i f) Post (put i c s).
Proof. intros Hf Hh HP. apply (wp_stream_upd f i c); [done|apply put_lookup|done|]. intros c' Hs. rewrite put_put. by apply HP. Qed.

Ltac h3_open c' o :=
  apply wp_bind, wp_open_put; [intros ? ? ?; apply (quic_uni_more opened Hq)|eauto using h3_conn_streamed|intros c' o ?].
Ltac h3_step c' :=
  apply wp_bind; first
    [ apply wp_upd_put; [done|eauto using h3_conn_streamed|intros c' ?]
    | apply wp_send_put; [eauto using h3_conn_streamed|intros c' ?] ].
Lemma wp_h3_control acquire i hc prof sid c (Post : bool -> Pool -> Prop) s : h3_conn c ->
  (forall c' b, streamed c c' -> Post b (put i c' s)) -> wp (pool_h3_control on_user acquire i hc prof sid) Post (put i c s).
Proof.
  intros Hh HP. unfold pool_h3_control. destruct (negb (hc_control_opened hc)).
  - h3_open c1 o1. destruct o1 as [ctrl|]; [|by apply HP]. assert (K1 : h3_conn c1) by eauto using h3_conn_streamed.
    h3_step c2. assert (K2 : h3_conn c2) by eauto using h3_conn_streamed.
    h3_open c3 o3. assert (S3 : streamed c c3) by eauto using streamed_trans. destruct o3 as [enc|]; [|by apply HP].
    assert (K3 : h3_conn c3) by eauto using h3_conn_streamed.
    h3_step c4. assert (K4 : h3_conn c4) by eauto using h3_conn_streamed.
    h3_open c5 o5. assert (S5 : streamed c c5) by eauto using streamed_trans. destruct o5 as [dec|]; [|by apply HP].
    assert (K5 : h3_conn c5) by eauto using h3_conn_streamed.
    h3_step c6. assert (K6 : h3_conn c6) by eauto using h3_conn_streamed.
    h3_step c7. assert (K7 : h3_conn c7) by eauto using h3_conn_streamed.
    h3_step c8. assert (K8 : h3_conn c8) by eauto using h3_conn_streamed.
    h3_step c9. apply wp_ret, HP. eauto 6 using streamed_trans.
  - destruct (send_priority_update prof); cbn [pwhen].
    + h3_step c1. by apply wp_ret, HP.
    + apply wp_ret, HP. destruct Hh as [[x Ex] [hc0 E0]]. split; [apply wires_refl|]. repeat (split; [done|]). by exists hc0, hc0.
Qed.
Lemma streamed_refl c : h3_conn c -> streamed c c.
Proof. intros [_ [hc Eh]]. split; [apply wires_refl|]. repeat (split; [done|]). by exists hc, hc. Qed.
Lemma wp_send_frames acquire sid pbuf rbuf body i c (Post : unit -> Pool -> Prop) s : h3_conn c ->
  (forall c', streamed c c' -> Post tt (put i c' s)) -> wp (pool_send_frames on_user acquire i sid pbuf rbuf body) Post (put i c s).
Proof.
  intros Hh HP. unfold pool_send_frames. cbv zeta. h3_step c1. destruct (negb _); cbn [pwhen]; [|by apply wp_ret, HP].
  apply wp_send_put; [eauto using h3_conn_streamed|]. intros c2 S2. apply HP. by eapply streamed_trans.
Qed.

(** *** Retrying *)
Definition acq_spec (n : nat) (acquire : PoolProto -> nat -> PM unit) : Prop :=
  forall F D s r q, Inv (r :: F) D s -> p_reqs s !! r = Some q -> pr_responded q = false -> (pr_retries_left q < n)%nat ->
    wp (acquire (pr_proto q) r) (ends F D s) s.
Lemma wp_retry n acquire F D s r q err : acq_spec n acquire -> Inv (r :: F) D s -> p_reqs s !! r = Some q ->
  (pr_responded q = true -> r ∈ answered s) -> (pr_retries_left q <= n)%nat ->
  wp (pool_req_retry_or_fail on_user acquire r err) (ends F D s) s.
Proof.
  intros Hacq HI Er Hans Hn. unfold pool_req_retry_or_fail. apply wp_bind, (wp_get_req r q); [done|].
  destruct ((0 <? pr_retries_left q)%nat && negb (pr_responded q)) eqn:Hc.
  - bool_props. apply wp_bind, (wp_updr r _ q); [done|].
    assert (H1 : Inv (r :: F) D (putr r (pr_retry q) s)).
    { apply inv_putr; [done|left| |exists q; split; [done|cbn; lia]]. intros _. by apply (i_log _ _ _ _ _ HI r q). }
    eapply (wp_from _ F); [done|apply (evolves_putr F s r (pr_retry q)); by eapply floating_notin|].
    change (pr_proto q) with (pr_proto (pr_retry q)). apply (Hacq F D _ r (pr_retry q)); [done|apply putr_lookup|done|].
    cbn. lia.
  - apply wp_bind. eapply wp_mono; [by apply (wp_deliver_error F D s r q)|]. intros [] s1 (Hi & He & Hr).
    destruct (i_float _ _ _ _ _ Hi r ltac:(left)) as [q1 E1]. eapply (wp_from _ F); [done|exact He|].
    by apply (wp_req_done F D s1 r q1).
Qed.
Lemma wp_retry_all n acquire D err : acq_spec n acquire -> forall l F s, Inv (l ++ F) D s ->
  (forall r, r ∈ l -> exists q, p_reqs s !! r = Some q /\ (pr_responded q = true -> r ∈ answered s) /\ (pr_retries_left q <= n)%nat) ->
  wp (retry_all on_user acquire l err) (ends F D s) s.
Proof.
  intros Hacq. induction l as [|r l IH]; intros F s HI Hl; [split; [done|apply evolves_refl]|]. cbn [retry_all].
  destruct (Hl r ltac:(left)) as (q & Er & Ha & Hn). apply (wp_then _ _ (l ++ F) F D D); [set_solver|].
  eapply wp_mono; [by apply (wp_retry n acquire (l ++ F) D s r q)|]. intros [] s1 [Hi He]. split; [done|].
  apply IH; [done|]. intros x Hx. destruct (Hl x ltac:(by right)) as (qx & Ex & Hax & Hnx). destruct He as (_ & He2 & He3 & _).
  exists qx. rewrite He2 by (apply elem_of_app; by left). split; [done|]. split; [|done]. intros H0. by apply He3, Hax.
Qed.

Lemma streams_active reqs P i c hc : conn_ok reqs P i c -> pc_proto c = PoolProto_H3 -> pc_state c = PoolConnState_Ready ->
  pc_h3c c = Some hc -> hc_streams hc ≡ₚ pc_active c /\ is_Some (pc_quic c).
Proof.
  intros Hok Hp Hst Eh. destruct (co_h3 _ _ _ _ _ _ Hok Hp Hst) as (hc2 & x & B1 & B2 & B3 & _).
  assert (hc2 = hc) as -> by congruence. split; [done|by exists x].
Qed.
Lemma wp_h3_submit n acquire F D s i c r : acq_spec n acquire -> Inv (r :: F) D s -> p_pcs s !! i = Some c ->
  queued None (p_reqs s) i c r -> pc_proto c = PoolProto_H3 -> pc_state c = PoolConnState_Ready ->
  (pc_inflight c < POOL_H3_MAX_CONCURRENT)%nat -> (forall q, p_reqs s !! r = Some q -> (pr_retries_left q <= n)%nat) ->
  wp (pool_h3_submit on_user acquire i r) (ends F D s) s.
Proof.
  intros Hacq HI Ei Hqd Hp Hst Hcap Hn. destruct (queued_fresh F D s r i c HI Hqd) as (q & Er & Hf & Hans).
  specialize (Hn q Er). pose proof (i_conn _ _ _ _ _ HI i c Ei) as Hok.
  destruct (co_h3 _ _ _ _ _ _ Hok Hp Hst) as (hc & x & Eh & Ex & Hstreams & _).
  assert (Hlen : length (hc_streams hc) = pc_inflight c) by (by rewrite Hstreams, (co_inflight _ _ _ _ _ _ Hok)).
  assert (HnF : r ∉ F) by (exact (floating_notin F D s r HI)).
  unfold pool_h3_submit. apply wp_bind, (wp_get_req r q); [done|]. apply wp_bind, wp_pget.
  apply wp_bind, (wp_get_pc i c); [done|]. destruct (pool_build q _ _ _) as [hs body]. cbv zeta. rewrite Eh.
  (* a failure, once streams were opened *)
  assert (Hretry : forall c' q' err, streamed c c' -> pr_responded q' = false -> pr_retries_left q' = pr_retries_left q ->
    wp (pool_req_retry_or_fail on_user acquire r err) (ends F D s) (put i c' (putr r q' s))).
  { intros c' q' err Hs Hf' Hn'.
    assert (H1 : Inv (r :: F) D (putr r q' s)) by (apply inv_putr; [done|left|done|exists q; split; [done|lia]]).
    destruct (inv_put (r :: F) D (putr r q' s) i c c' H1 Ei ltac:(by rewrite (streamed_reqs _ _ Hs)) (streamed_after _ _ Hs)) as [Hi He].
    { apply (conn_ok_streamed _ _ _ c); [|done|done]. by apply (conn_ok_putr F D s). }
    eapply (wp_from _ F); [done|eapply evolves_trans; [by apply (evolves_putr F s r q')|eapply evolves_sub; [apply sub_cons|exact He]]|].
    apply (wp_retry n acquire F D _ r q'); [done|done|apply putr_lookup|congruence|lia]. }
  apply wp_bind. apply (wp_open_stream _ i c); [intros ? ? ?; apply (quic_bidi_more opened Hq)|done|split; [by exists x|by exists hc]|].
  intros c1 o x0 y Ex0 Eo Ey S1. assert (x0 = x) as -> by congruence.
  assert (Hsame : s = putr r q s) by (unfold putr, set_p_reqs; rewrite insert_id by done; by destruct s).
  destruct o as [sid|]; [|rewrite Hsame at 2; by apply Hretry].
  destruct (quic_bidi_fresh opened Hq _ _ _ Eo) as [Hfresh Hnew].
  apply wp_bind, (wp_updr r _ q); [done|]. set (q1 := set_pr_h3 sid (u8buf_init 0) (pr_h3_fin q) q). rewrite put_putr.
  assert (K1 : h3_conn c1) by (apply (h3_conn_streamed c); [split; [by exists x|by exists hc]|done]).
  apply wp_bind, wp_h3_control; [done|]. intros c2 b S2. assert (S02 : streamed c c2) by eauto using streamed_trans.
  destruct (negb b); [by apply Hretry|]. destruct (qpack_encode _ _ _) as [enc e].
  assert (K2 : h3_conn c2) by eauto using h3_conn_streamed.
  apply wp_bind, wp_upd_put; [done|done|]. intros c3 S3. assert (S03 : streamed c c3) by eauto using streamed_trans.
  assert (K3 : h3_conn c3) by eauto using h3_conn_streamed.
  destruct enc as [[pbuf rbuf]|]; [|by apply Hretry].
  apply wp_bind, wp_send_frames; [done|]. intros c4 S4. assert (S04 : streamed c c4) by eauto using streamed_trans.
  destruct S04 as (W4 & G1 & G2 & G3 & G4 & G5 & hc0 & hc4 & G6 & G7 & G8). assert (hc0 = hc) as -> by congruence.
  apply wp_bind, (wp_upd_h3c _ i c4 hc4); [apply put_lookup|done|]. rewrite put_put. rewrite G8, Hlen.
  replace (pc_inflight c <? H3_MAX_STREAMS)%nat with true by (symmetry; by apply Nat.ltb_lt).
  set (hc5 := set_hc_streams (hc_streams hc ++ [r]) hc4). set (c5 := set_pc_h3c (Some hc5) c4).
  apply (wp_after_submit i r q1 c5); [apply putr_lookup|apply put_lookup|cbn; rewrite G5, G4; apply (idle_inflight _ _ _ _ Hok)|].
  intros c6 W6 J1 J2 J3 J4 J5 J6. rewrite put_put. cbn in J1, J2, J3, J4, J5.
  assert (W : wires c c6) by (apply (wires_trans c c4); [done|exact W6]).
  apply (submit_done F D s i c c6 r q1); try done; [| |by exists q|].
  - apply wires_after; [done|by rewrite J1, G1|rewrite J2; by eauto|by rewrite J3, G2|].
    apply fuller_same; [rewrite J5, G4; lia|by rewrite J1, G1|rewrite Eh; by eauto].
  - apply reqs_of_push; [by rewrite J3, G2|by rewrite J4, G3].
  - apply (conn_ok_submitted _ _ i c c6 r q1); try done; [by apply (conn_ok_putr F D s)|by rewrite J3, G2|by rewrite J4, G3|
      by rewrite J5, G4| |by apply (floating_none F D s r i c)|apply putr_lookup|].
    + apply queued_putr; [done|]. intros q0 E0. assert (q0 = q) as -> by congruence. done.
    + rewrite Hp. exists hc, hc5. split; [done|]. split; [done|]. split; [unfold hc5; cbn; by rewrite <-Permutation_cons_append|].
      split; [by rewrite <-(co_inflight _ _ _ _ _ _ Hok)|]. split.
      * intros z Ez. assert (z = x) as -> by congruence. done.
      * intros z Ez. cbn. assert (S14 : streamed c1 c4) by eauto using streamed_trans.
        destruct S14 as ((_ & _ & _ & _ & _ & _ & W14) & _). destruct W6 as (_ & _ & _ & _ & _ & _ & W46). cbn in W46.
        rewrite Ey in W14. destruct W14 as (y4 & Ey4 & Hs4 & _). rewrite Ey4 in W46. destruct W46 as (y6 & Ey6 & Hs6 & _).
        assert (z = y6) as -> by congruence. by apply Hs6, Hs4.
Qed.

(** *** Queueing *)
Lemma scan_until_end l x r : (scan_until (l ++ x :: r) x <= length l)%nat.
Proof.
  induction l as [|y l IH]; cbn; [by rewrite Z.eqb_refl|]. destruct (y =? x); [lia|].
  lia.
Qed.
Lemma pool_key_fixed o : str8_cstring (pool_key (str8_cstring (pool_key o))) = str8_cstring (pool_key o).
Proof.
  unfold pool_key at 1. set (k := str8_cstring (pool_key o)).
  assert (Hn : c_string k) by (apply scan_until_notin).
  assert (Hl : (length k <= 255)%nat).
  { unfold k, str8_cstring, pool_key. rewrite length_take. pose proof (scan_until_end (take 255 o) 0 []) as He.
    rewrite length_take in He. lia. }
  rewrite take_ge by done. by apply cstring_terminated.
Qed.
Lemma conn_ok_parked reqs P i c l : conn_ok reqs P i c -> (forall r, r ∈ l -> queued P.2 reqs i c r) ->
  NoDup (l ++ pc_active c) -> pc_state c <> PoolConnState_Closing -> conn_ok reqs P i (set_pc_waiting l c).
Proof.
  intros [A1 A2 A3 A4 A5 A6 A0 A7 A8 A9 A10] Hl Hnd Hst. constructor; try done.
  cbn [pc_waiting pc_active set_pc_waiting reqs_of]. intros r Hr. apply elem_of_app in Hr as [Hr|Hr].
  - by apply Hl.
  - apply A2, elem_of_app. by right.
Qed.
(** [c] takes no request now. *)
Definition parks c : Prop := pool_conn_has_capacity c = false \/ pool_in_recv c = true.
Lemma parks_unready c : pc_state c <> PoolConnState_Ready -> parks c.
Proof. intros Hst. left. unfold pool_conn_has_capacity. by rewrite bool_decide_false by done. Qed.
Lemma wp_waiting_push F D s i c r : Inv (r :: F) D s -> p_pcs s !! i = Some c -> queued None (p_reqs s) i c r ->
  pc_state c <> PoolConnState_Closing -> pc_broken c = false -> parks c -> wp (pool_waiting_push i r) (ends F D s) s.
Proof.
  intros HI Ei Hqd Hst Hbr Hpk. destruct (queued_fresh F D s r i c HI Hqd) as (q & Er & Hf & Hans).
  pose proof (i_conn _ _ _ _ _ HI i c Ei) as Hok. pose proof (floating_none F D s r i c HI Ei) as Hr.
  unfold pool_waiting_push. apply wp_bind, (wp_get_req r q); [done|]. apply wp_bind, (wp_get_pc i c); [done|]. apply wp_bind.
  assert (Hlast : forall (Post : unit -> Pool -> Prop), Post tt s ->
    wp (match last (pc_waiting c) with Some t => q ← get_req t; pskip | None => pskip end) Post s).
  { intros Post HP. destruct (last (pc_waiting c)) as [t|] eqn:El; [|done].
    destruct (co_reqs _ _ _ _ _ _ Hok t) as (qt & Et & _); [apply elem_of_app; left; by apply last_Some_elem_of|].
    by apply wp_bind, (wp_get_req t qt). }
  apply Hlast, (wp_upd i _ c); [done|]. split; [|apply (evolves_pc F s i c); [done|]; unfold conn_after; cbn; repeat split; try done; [by rewrite Hbr|right; exact Hpk]].
  assert (Hp : reqs_of (set_pc_waiting (pc_waiting c ++ [r]) c) ≡ₚ (r :: reqs_of c)).
  { unfold reqs_of. cbn. solve_Permutation. }
  apply (inv_move open opened (r :: F) F D D s i c); try done; [rewrite Hp; solve_Permutation|intros z qz _ Hz; by apply not_elem_of_cons in Hz as [_ ?]|].
  apply conn_ok_parked; try done.
  - intros x Hx. apply elem_of_app in Hx as [Hx|Hx]; [apply Hok, elem_of_app; by left|].
    apply elem_of_cons in Hx as [->|Hx]; [by apply queued_any|by apply elem_of_nil in Hx].
  - unfold reqs_of in Hp. cbn in Hp. rewrite Hp. constructor; [done|apply Hok].
Qed.

(** A request about to join connection [i]. *)
Definition joins s i c r q : Prop :=
  p_pcs s !! i = Some c /\ p_reqs s !! r = Some q /\ pr_responded q = false /\ pr_proto q = pc_proto c /\
  req_key q = str8_cstring (pc_origin c) /\ pc_broken c = false.
Lemma joins_set F D s i c r q : Inv (r :: F) D s -> joins s i c r q ->
  Inv (r :: F) D (putr r (set_pr_pc (Some i) q) s) /\ evolves F s (putr r (set_pr_pc (Some i) q) s) /\
  queued None (p_reqs (putr r (set_pr_pc (Some i) q) s)) i c r.
Proof.
  intros HI (Ei & Er & Hf & Hp & Hk & _). split; [|split].
  - apply inv_putr; [done|left| |by exists q]. intros _. by apply (i_log _ _ _ _ _ HI r q).
  - apply (evolves_putr F), (floating_notin F D s r HI).
  - exists (set_pr_pc (Some i) q). rewrite putr_lookup. repeat (split; [done|]). split; [|done]. cbn. congruence.
Qed.
Lemma wp_park F D s i c r q : Inv (r :: F) D s -> joins s i c r q -> pc_state c <> PoolConnState_Closing -> parks c ->
  wp (pool_park i r) (ends F D s) s.
Proof.
  intros HI HJ Hst Hpk. destruct (joins_set F D s i c r q HI HJ) as (H1 & H2 & Hqd). destruct HJ as (Ei & Er & _ & _ & _ & Hbr).
  unfold pool_park. apply wp_bind, (wp_updr r _ q); [done|]. eapply (wp_from _ F); [done|exact H2|].
  by apply (wp_waiting_push F D _ i c).
Qed.
Lemma capacity_facts c : pool_conn_has_capacity c = true -> pc_state c = PoolConnState_Ready /\ pc_broken c = false /\
  (pc_proto c = PoolProto_H1 -> pc_inflight c = O) /\
  (pc_proto c = PoolProto_H3 -> (pc_inflight c < POOL_H3_MAX_CONCURRENT)%nat).
Proof.
  unfold pool_conn_has_capacity. destruct (negb _ || pc_broken c) eqn:Hc; [done|]. bool_props. case_bool_decide; [|done].
  intros Hcap. split; [done|]. split; [done|]. split; intros Hp; rewrite Hp in Hcap.
  - bool_props. lia.
  - destruct (pc_h3c c); [|done]. by apply Nat.ltb_lt.
Qed.
Lemma wp_submit n acquire F D s i c r q : acq_spec n acquire -> Inv (r :: F) D s -> joins s i c r q ->
  pc_state c = PoolConnState_Ready -> (pc_proto c = PoolProto_H1 -> pool_conn_has_capacity c = true) ->
  (pr_retries_left q <= n)%nat -> wp (pool_submit decode_content on_user acquire i r) (ends F D s) s.
Proof.
  intros Hacq HI HJ Hst Hcap Hn. destruct (joins_set F D s i c r q HI HJ) as (H1 & H2 & Hqd). destruct HJ as (Ei & Er & _ & _ & _ & Hbr).
  unfold pool_submit. apply wp_bind, (wp_updr r _ q); [done|]. eapply (wp_from _ F); [done|exact H2|].
  set (s1 := putr r (set_pr_pc (Some i) q) s) in *. apply wp_bind, (wp_get_pc i c); [done|].
  destruct (pool_in_recv c) eqn:Hrv; [apply (wp_waiting_push F D _ i c); [done|done|done|by rewrite Hst|done|by right]|].
  destruct (bool_decide (pc_proto c = PoolProto_H3) && negb (pool_conn_has_capacity c)) eqn:H3;
    [apply (wp_waiting_push F D _ i c); [done|done|done|by rewrite Hst|done|left; apply andb_true_iff in H3 as [_ H3]; by apply negb_true_iff]|].
  destruct (pc_proto c) eqn:Hp.
  - by apply (wp_h2_submit acquire F D s1 i c).
  - rewrite bool_decide_true in H3 by done. cbn [andb] in H3. apply negb_false_iff in H3.
    destruct (capacity_facts c H3) as (_ & _ & _ & H4).
    apply (wp_h3_submit n acquire F D s1 i c r); try done; [by apply H4|]. intros q0. unfold s1. rewrite putr_lookup. by intros [= <-].
  - destruct (capacity_facts c (Hcap eq_refl)) as (_ & _ & H4 & _). apply (wp_h1_submit F D s1 i c); try done. by apply H4.
Qed.

(** *** Choosing a connection *)
Definition usable s (proto : PoolProto) (origin : bytes) (i : nat) (st : PoolConnState) (c : PoolConn) : Prop :=
  p_pcs s !! i = Some c /\ pc_proto c = proto /\ origin = str8_cstring (pc_origin c) /\ pc_state c = st /\ pc_broken c = false.
Record scan_ok s (proto : PoolProto) (origin : bytes) (k : pool_scan) : Prop := {
  sk_reusable i : sc_reusable k = Some i ->
    exists c, usable s proto origin i PoolConnState_Ready c /\ pool_conn_has_capacity c = true;
  sk_any i : sc_reusable_any k = Some i -> exists c, usable s proto origin i PoolConnState_Ready c /\
    (sc_reusable k = None -> pool_conn_has_capacity c = false);
  sk_handshaking i : sc_handshaking k = Some i -> exists c, usable s proto origin i PoolConnState_Handshaking c
}.
Lemma or_first_some (o : option nat) i j : or_first o i = Some j -> o = Some j \/ j = i.
Proof. destruct o; cbn; intros [= <-]; auto. Qed.
Lemma scan_conn_ok s proto origin i c k : p_pcs s !! i = Some c -> scan_ok s proto origin k ->
  scan_ok s proto origin (scan_conn proto origin i c k).
Proof.
  intros Ei Hk. unfold scan_conn. destruct (negb _ || _ || _) eqn:H1; [done|]. destruct (negb (str8_match _ _)) eqn:H2; [done|].
  bprops. apply str8_match_eq in H2. destruct Hk as [K1 K2 K3].
  assert (HU : forall st, pc_state c = st -> usable s proto origin i st c) by done.
  destruct (pc_state c) eqn:Hst; constructor; cbn [sc_reusable sc_reusable_any sc_handshaking]; try done.
  - intros j Hj. apply or_first_some in Hj as [Hj| ->]; [by apply K3|]. exists c. by apply HU.
  - intros j Hj. destruct (pool_conn_has_capacity c) eqn:Hc; [|by apply K1].
    apply or_first_some in Hj as [Hj| ->]; [by apply K1|]. exists c. split; [by apply HU|done].
  - intros j Hj. apply or_first_some in Hj as [Hj| ->].
    + destruct (K2 j Hj) as (d & Hd & Hn). exists d. split; [done|]. destruct (pool_conn_has_capacity c); [|done].
      by destruct (sc_reusable k).
    + exists c. split; [by apply HU|]. destruct (pool_conn_has_capacity c); [|done]. by destruct (sc_reusable k).
Qed.
Lemma wp_scan s proto origin conns : (forall i, i ∈ conns -> is_Some (p_pcs s !! i)) -> forall k (Post : pool_scan -> Pool -> Prop),
  scan_ok s proto origin k -> (forall k, scan_ok s proto origin k -> Post k s) -> wp (scan proto origin conns k) Post s.
Proof.
  induction conns as [|i conns IH]; intros Hc k Post Hk HP; [by apply HP|]. cbn [scan].
  destruct (Hc i ltac:(left)) as [c Ei]. apply wp_bind, (wp_get_pc i c); [done|]. apply IH; [intros j Hj; apply Hc; by right| |done].
  by apply scan_conn_ok.
Qed.
Lemma joins_usable F D s s1 proto i st c r q : Inv F D s -> usable s proto (pp_origin (pr_params q)) i st c -> pr_proto q = proto ->
  p_reqs s1 !! r = Some q -> pr_responded q = false -> p_pcs s1 = p_pcs s -> joins s1 i c r q.
Proof.
  intros HI (Ei & Hp & Ho & Hst & Hb) Hpr Er Hf E1. unfold joins. rewrite E1. repeat (split; [congruence|]). split; [|done].
  destruct (co_origin _ _ _ _ _ _ (i_conn _ _ _ _ _ HI i c Ei)) as [o Eo]. unfold req_key. rewrite Ho, Eo. apply pool_key_fixed.
Qed.

(** *** Opening *)
Lemma wp_open acquire F D s r q proto : Inv (r :: F) D s -> p_reqs s !! r = Some q -> pr_responded q = false -> pr_proto q = proto ->
  (length (p_conns s) < POOL_MAX_CONNS)%nat ->
  wp (pool_conn_open on_user acquire proto r) (fun o s' => Inv (r :: F) D s' /\ evolves F s s' /\
    exists i c, o = Some i /\ joins s' i c r q /\ pc_state c = PoolConnState_Handshaking) s.
Proof.
  intros HI Er Hf Hp Hlen. unfold pool_conn_open. apply wp_bind, wp_pget. cbn [compose].
  replace (POOL_MAX_CONNS <=? length (p_conns s))%nat with false by (symmetry; apply Nat.leb_gt; lia).
  apply wp_bind, (wp_get_req r q); [done|]. apply wp_bind, wp_pget. apply wp_bind, wp_pget. cbv zeta.
  destruct (pool_setup _ _ _ _) as [cs cache]. apply wp_bind, wp_pupd. apply wp_bind, wp_pupd.
  set (s1 := set_p_client _ (set_p_client _ s)).
  match goal with |- wp (let '(_, _) := ?X in _) _ _ => destruct X as [c err] eqn:Ec end.
  assert (HC : err = None /\ pc_proto c = proto /\ pc_origin c = pool_key (pp_origin (pr_params q)) /\
    pc_state c = PoolConnState_Handshaking /\ pc_broken c = false /\ reqs_of c = [] /\ pc_inflight c = O /\ pc_active c = [] /\ pc_h3c c = None /\
    pc_h2 c = None /\ match proto with PoolProto_H3 => is_Some (pc_quic c) | _ => is_Some (pc_tcp c) end).
  { destruct proto.
    - pose proof (Htcp_async cs (str8_cstring (host (pp_parsed (pr_params q)) ++ [0])) (port (pp_parsed (pr_params q)))) as Ha.
      destruct (tcp_connect _ _ _) as [t e]. injection Ec as <- <-. cbn in Ha. subst e. repeat (split; [done|]). by exists t.
    - match type of Ec with context [quic_connect ?a ?b ?d ?e] => pose proof (Hquic_async a b d e) as Ha; destruct (quic_connect a b d e) as [t er] end.
      injection Ec as <- <-. cbn in Ha. subst er. repeat (split; [done|]). by exists t.
    - pose proof (Htcp_async cs (str8_cstring (host (pp_parsed (pr_params q)) ++ [0])) (port (pp_parsed (pr_params q)))) as Ha.
      destruct (tcp_connect _ _ _) as [t e]. injection Ec as <- <-. cbn in Ha. subst e. repeat (split; [done|]). by exists t. }
  destruct HC as (-> & C1 & C2 & C3 & C0 & C4 & C5 & C6 & C7 & C8 & C9).
  assert (Hok : forall reqs P, conn_ok reqs P (p_next_pc s) c).
  { intros reqs P. constructor; rewrite ?C4, ?C6, ?C5; try done.
    - constructor.
    - intros x Hx. by apply elem_of_nil in Hx.
    - by exists (pp_origin (pr_params q)).
    - rewrite C1. by destruct proto.
    - intros _. split; [cbn; lia|]. intros x Hx. by apply elem_of_nil in Hx.
    - intros _ _. rewrite C8. done.
    - intros _ Hr. congruence. }
  assert (Hi1 : Inv (r :: F) D s1) by (by apply (inv_same open opened (r :: F) D s)).
  apply wp_bind. unfold wp at 1. cbn [new_pc]. apply wp_bind, wp_pupd. apply wp_bind, wp_pupd. apply wp_bind. apply wp_ret. apply wp_ret.
  pose proof (inv_new_pc open opened (r :: F) D s1 c Hi1 Hlen C4 Hok) as Hi2. split; [exact Hi2|]. split.
  - split; [|split; [|done]]; cbn.
    + intros j d Ed. exists d. split; [|apply conn_after_refl]. rewrite lookup_insert_ne; [done|].
      intros Hj. pose proof (i_next_pc _ _ _ _ _ HI j ltac:(by exists d)). lia.
    + done.
  - exists (p_next_pc s), c. split; [done|]. split; [|done]. unfold joins. cbn. rewrite lookup_insert_eq.
    repeat (split; [congruence|]). unfold req_key. by rewrite C2, C0.
Qed.

Lemma wp_acquire_body n acquire F D s r q : acq_spec n acquire -> Inv (r :: F) D s -> p_reqs s !! r = Some q ->
  pr_responded q = false -> (pr_retries_left q <= n)%nat ->
  wp (pool_acquire_body decode_content on_user acquire (pr_proto q) r) (ends F D s) s.
Proof.
  intros Hacq HI Er Hf Hn. unfold pool_acquire_body. apply wp_bind, (wp_get_req r q); [done|]. apply wp_bind, wp_pget.
  apply wp_bind. apply wp_scan; [intros j Hj; by apply (i_conns _ _ _ _ _ HI)|constructor; done|]. intros k [K1 K2 K3].
  apply wp_bind, wp_pget. set (cl := p_client s). cbv zeta.
  assert (Hfail : forall err, wp (pool_req_fail on_user r err) (ends F D s) s).
  { intros err. apply (wp_req_fail F D s r q); [done|done|congruence]. }
  assert (Hsubmit : forall i c, usable s (pr_proto q) (pp_origin (pr_params q)) i PoolConnState_Ready c ->
    (pc_proto c = PoolProto_H1 -> pool_conn_has_capacity c = true) ->
    wp (upd_client count_reuse;; pool_submit decode_content on_user acquire i r) (ends F D s) s).
  { intros i c Hu Hc. apply wp_bind, wp_pupd. destruct (inv_upd_client (r :: F) D s (count_reuse (p_client s)) HI) as [Hi He].
    eapply (wp_from _ F); [done|eapply evolves_sub; [apply sub_cons|exact He]|].
    apply (wp_submit n acquire F D _ i c r q); try done; [|by destruct Hu as (_ & _ & _ & ? & _)].
    by apply (joins_usable (r :: F) D s _ (pr_proto q) i PoolConnState_Ready). }
  assert (Hpark : forall i c st s1, st <> PoolConnState_Closing -> Inv (r :: F) D s1 -> evolves F s s1 ->
    p_reqs s1 = p_reqs s -> p_pcs s1 = p_pcs s -> usable s (pr_proto q) (pp_origin (pr_params q)) i st c -> parks c ->
    wp (pool_park i r) (ends F D s) s1).
  { intros i c st s1 Hst Hi He E1 E2 Hu Hpk. eapply (wp_from _ F); [done|exact He|]. apply (wp_park F D s1 i c r q); [done| | |done].
    - apply (joins_usable (r :: F) D s _ (pr_proto q) i st); try done. by rewrite E1.
    - by destruct Hu as (_ & _ & _ & -> & _). }
  destruct (sc_reusable k) as [i|] eqn:Ek.
  { destruct (K1 i eq_refl) as (c & Hu & Hc). by apply (Hsubmit i c). }
  destruct (if negb _ then sc_handshaking k else None) as [i|] eqn:Eh.
  { destruct (negb _); [|done]. destruct (K3 i Eh) as (c & Hu).
    apply (Hpark i c PoolConnState_Handshaking s); try done; [apply evolves_refl|].
    apply parks_unready. by destruct Hu as (_ & _ & _ & -> & _). }
  destruct ((_ <? to_int _) && _) eqn:Ecap.
  - bool_props. apply wp_bind. eapply wp_mono; [by apply (wp_open acquire F D s r q (pr_proto q))|].
    intros o s1 (Hi & He & i & c & -> & Hj & Hst). eapply (wp_from _ F); [done|exact He|].
    apply (wp_park F D s1 i c r q); [done|done|by rewrite Hst|by apply parks_unready; rewrite Hst].
  - destruct (negb (bool_decide (pr_proto q = PoolProto_H1))) eqn:Hco.
    + destruct (sc_reusable_any k) as [i|] eqn:Ea; [|by apply Hfail]. destruct (K2 i eq_refl) as (c & Hu & _).
      apply (Hsubmit i c Hu). intros Hp. bprops. destruct Hu as (_ & Hu & _). congruence.
    + assert (Hcount : forall (m : PM unit), wp m (ends F D s) (set_p_client (count_reuse cl) s) -> wp (upd_client count_reuse;; m) (ends F D s) s).
      { intros m Hm. by apply wp_bind, wp_pupd. }
      destruct (inv_upd_client (r :: F) D s (count_reuse cl) HI) as [Hi He].
      assert (He' : evolves F s (set_p_client (count_reuse cl) s)) by (eapply evolves_sub; [apply sub_cons|exact He]).
      destruct (sc_handshaking k) as [i|] eqn:Ehs.
      * destruct (K3 i eq_refl) as (c & Hu). apply Hcount, (Hpark i c PoolConnState_Handshaking); try done.
        apply parks_unready. by destruct Hu as (_ & _ & _ & -> & _).
      * destruct (sc_reusable_any k) as [i|] eqn:Ea; [|by apply Hfail]. destruct (K2 i eq_refl) as (c & Hu & Hfullc).
        apply Hcount, (Hpark i c PoolConnState_Ready); try done. left. by apply Hfullc.
Qed.
Lemma wp_acquire_n n : acq_spec n (pool_acquire_n decode_content on_user n).
Proof.
  induction n as [|n IH]; intros F D s r q HI Er Hf Hn; [lia|]. cbn [pool_acquire_n].
  apply (wp_acquire_body n _ F D s r q); try done. lia.
Qed.

Lemma retries_left_in s r q : p_reqs s !! r = Some q -> (pr_retries_left q <= retries_left s)%nat.
Proof.
  intros Er. unfold retries_left. rewrite (map_fold_delete_L _ _ r q); [lia| |done]. intros. lia.
Qed.
(** The nest is always deep enough. *)
Lemma wp_acquire_any n : acq_spec n (pool_acquire decode_content on_user).
Proof.
  intros F D s r q HI Er Hf _. unfold pool_acquire. apply wp_bind, wp_pget. apply (wp_acquire_n (S (retries_left s)) F D s r q); try done.
  pose proof (retries_left_in s r q Er). lia.
Qed.
Lemma wp_acquire F D s r q : Inv (r :: F) D s -> p_reqs s !! r = Some q -> pr_responded q = false ->
  wp (pool_acquire decode_content on_user (pr_proto q) r) (ends F D s) s.
Proof.
  intros HI Er Hf. apply (wp_acquire_any (S (pr_retries_left q)) F D s r q); try done. lia.
Qed.
Lemma wp_rof F D s r q err : Inv (r :: F) D s -> p_reqs s !! r = Some q -> (pr_responded q = true -> r ∈ answered s) ->
  wp (pool_req_retry_or_fail on_user (pool_acquire decode_content on_user) r err) (ends F D s) s.
Proof.
  intros HI Er Ha. apply (wp_retry (S POOL_MAX_RETRIES) _ F D s r q); try done; [apply wp_acquire_any|].
  pose proof (i_retries _ _ _ _ _ HI r q Er). lia.
Qed.
Lemma calm_dispatch proto m url headers body user deadline order :
  calm (pool_dispatch decode_content on_user proto m url headers body user deadline order).
Proof.
  intros F D s HI. unfold pool_dispatch. cbv zeta. destruct (negb _ || negb _).
  - apply wp_bind. unfold wp at 1. cbn [new_refused].
    edestruct (inv_refused open opened F D s (Delivered (DeliverError (lit "invalid or non-https URL"))) HI) as [Hi He].
    eapply (wp_from _ F); [done|exact He|]. by apply Huser.
  - set (q := pool_req_new _ _). destruct (inv_new_req open opened F D s q HI ltac:(done)) as [Hi He].
    apply wp_bind. unfold wp at 1. cbn [new_req]. apply wp_bind, wp_pupd.
    destruct (inv_upd_client (p_next_req s :: F) D (with_req q s) (count_request (p_client s)) Hi) as [Hi2 He2].
    eapply (wp_from _ F); [done|eapply evolves_trans; [exact He|eapply evolves_sub; [apply sub_cons|exact He2]]|].
    change proto with (pr_proto q). apply (wp_acquire F D _ _ q); [exact Hi2|cbn; apply lookup_insert_eq|done].
Qed.

(** *** Queues *)
Lemma in_queue F D s i c r : D.2 = None -> Inv F D s -> p_pcs s !! i = Some c -> r ∈ reqs_of c ->
  exists q, p_reqs s !! r = Some q /\ pr_pc q = Some i /\ pr_proto q = pc_proto c /\ pr_responded q = false /\
    req_key q = str8_cstring (pc_origin c).
Proof.
  intros HD HI Ei Hr. destruct (co_reqs _ _ _ _ _ _ (i_conn _ _ _ _ _ HI i c Ei) r Hr) as (q & A1 & A2 & A3 & A4 & A5).
  exists q. repeat (split; [done|]). split; [|done]. cbn in A4. rewrite HD in A4. destruct (pr_responded q); [|done]. by specialize (A4 eq_refl).
Qed.
(** After a flush outside of a packet nothing waits while there is room. *)
Definition flushed (fuel i : nat) c s' : Prop :=
  exists c', p_pcs s' !! i = Some c' /\ (pool_in_recv c = false -> (length (pc_waiting c) <= fuel)%nat \/ pool_conn_has_capacity c = false ->
    pc_waiting c' = [] \/ pool_conn_has_capacity c' = false).
Lemma wp_flush_loop F D fuel : D.2 = None -> forall s i c, Inv F D s -> p_pcs s !! i = Some c ->
  wp (flush_loop decode_content on_user fuel i) (fun x s' => ends F D s x s' /\ flushed fuel i c s') s.
Proof.
  intros HD. induction fuel as [|fuel IH]; intros s i c HI Ei.
  { split; [split; [done|apply evolves_refl]|]. exists c. split; [done|]. intros _ [Hl|Hl]; [left|by right].
    apply nil_length_inv. lia. }
  cbn [flush_loop]. apply wp_bind, (wp_get_pc i c); [done|]. destruct (_ && _) eqn:Hc.
  2:{ split; [split; [done|apply evolves_refl]|]. exists c. split; [done|]. intros _ _. apply andb_false_iff in Hc as [Hc|Hc]; [left|by right].
      apply nil_length_inv. apply Nat.ltb_ge in Hc. lia. }
  apply andb_true_iff in Hc as [_ Hcap]. pose proof (i_conn _ _ _ _ _ HI i c Ei) as Hok.
  unfold pool_waiting_pop. apply wp_bind, wp_bind, (wp_get_pc i c); [done|].
  destruct (pc_waiting c) as [|r l] eqn:Ew.
  - apply wp_ret, wp_bind, wp_ret. eapply wp_mono; [by apply (IH s i c)|]. intros [] s2 [H1 (c2 & H2 & H3)]. split; [done|].
    exists c2. split; [done|]. intros Hrv _. apply H3; [done|]. left. rewrite Ew. cbn. lia.
  - destruct (in_queue F D s i c r HD HI Ei) as (q & Er & Hpc & Hpr & Hf & Hk); [unfold reqs_of; rewrite Ew; left|].
    assert (Hr : r ∈ reqs_of c) by (unfold reqs_of; rewrite Ew; left). apply wp_bind, (wp_get_req r q); [done|].
    apply wp_bind, (wp_upd i _ c); [done|]. set (c1 := set_pc_waiting l c). apply wp_ret.
    pose proof (co_nodup _ _ _ _ _ _ Hok) as Hnd. unfold reqs_of in Hnd. rewrite Ew in Hnd. cbn in Hnd.
    apply NoDup_cons in Hnd as [Hn1 Hn2]. destruct (capacity_facts c Hcap) as (Hst & Hbr & _ & _).
    assert (Hi1 : Inv (r :: F) D (put i c1 s)).
    { apply (inv_move open opened F (r :: F) D D s i c c1); try done.
      - unfold reqs_of, c1. cbn. rewrite Ew. solve_Permutation.
      - congruence.
      - apply conn_ok_parked; try done; [|by rewrite Hst]. intros x Hx. apply Hok. unfold reqs_of. rewrite Ew. cbn.
        right. apply elem_of_app. by left. }
    assert (Hc1 : conn_after c c1).
    { unfold conn_after. cbn. repeat split; try done; [by rewrite Hbr|]. left. rewrite Ew. cbn. lia. }
    assert (He1 : evolves F s (put i c1 s)) by (by apply (evolves_pc F s i c c1)).
    apply wp_bind. eapply (wp_mono _ (fun x s' => ends F D (put i c1 s) x s')).
    + apply (wp_submit (S POOL_MAX_RETRIES) _ F D _ i c1 r q); try done.
      * apply wp_acquire_any.
      * unfold joins. rewrite put_lookup. done.
      * pose proof (i_retries _ _ _ _ _ HI r q Er). lia.
    + intros [] s2 [Hi2 He2]. pose proof He2 as (He2' & _). destruct (He2' i c1 (put_lookup i c1 s)) as (c2 & Ei2 & Hc2).
      eapply wp_mono; [by apply (IH s2 i c2)|]. intros [] s3 [[Hi3 He3] (c3 & Ei3 & Hfl)]. split.
      * split; [done|]. eapply evolves_trans; [exact He1|]. by eapply evolves_trans.
      * exists c3. split; [done|]. intros Hrv Hlen. pose proof (conn_after_in_recv _ _ Hc2) as Hrv2.
        apply Hfl; [rewrite Hrv2; exact Hrv|]. destruct Hlen as [Hlen|Hlen]; [|congruence]. rewrite Ew in Hlen. cbn in Hlen.
        destruct Hc2 as (_ & _ & _ & _ & _ & _ & _ & _ & _ & _ & [Hl|[Hl|Hl]]); [left; cbn in Hl; lia|by right|].
        change (pool_in_recv c1) with (pool_in_recv c) in Hl. congruence.
Qed.
Lemma wp_flush_full F D s i c : D.2 = None -> Inv F D s -> p_pcs s !! i = Some c ->
  wp (pool_flush_waiting decode_content on_user i) (fun x s' => ends F D s x s' /\ flushed (length (pc_waiting c)) i c s') s.
Proof. intros HD HI Ei. unfold pool_flush_waiting. apply wp_bind, (wp_get_pc i c); [done|]. by apply (wp_flush_loop F D _ HD s i c). Qed.
Lemma wp_flush F D s i c : D.2 = None -> Inv F D s -> p_pcs s !! i = Some c -> wp (pool_flush_waiting decode_content on_user i) (ends F D s) s.
Proof. intros HD HI Ei. eapply wp_mono; [by apply (wp_flush_full F D s i c)|]. by intros x s' [? _]. Qed.

Lemma wp_reacquire D proto : forall l F s, Inv (l ++ F) D s ->
  (forall r, r ∈ l -> exists q, p_reqs s !! r = Some q /\ pr_responded q = false /\ pr_proto q = proto) ->
  wp (reacquire_all decode_content on_user proto l) (ends F D s) s.
Proof.
  induction l as [|r l IH]; intros F s HI Hl; [split; [done|apply evolves_refl]|]. cbn [reacquire_all].
  destruct (Hl r ltac:(left)) as (q & Er & Hf & Hp). apply wp_bind, (wp_updr r _ q); [done|].
  set (q1 := set_pr_pc None q). cbn in HI.
  assert (Hi1 : Inv (r :: l ++ F) D (putr r q1 s)).
  { apply inv_putr; [done|left| |by exists q]. intros _. by apply (i_log _ _ _ _ _ HI r q). }
  assert (He1 : evolves (l ++ F) s (putr r q1 s)) by (apply (evolves_putr (l ++ F)), (floating_notin (l ++ F) D s r HI)).
  eapply (wp_from _ (l ++ F)); [set_solver|exact He1|]. apply (wp_then _ _ (l ++ F) F D D); [set_solver|].
  eapply wp_mono; [rewrite <-Hp; change (pr_proto q) with (pr_proto q1);
    apply (wp_acquire (l ++ F) D _ r q1); [done|apply putr_lookup|done]|].
  intros [] s2 [Hi2 He2]. split; [done|]. apply IH; [done|]. intros x Hx.
  destruct (Hl x ltac:(by right)) as (qx & Ex & Hfx & Hpx). exists qx. split; [|done].
  destruct He2 as (_ & He2 & _). rewrite He2 by (apply elem_of_app; by left). destruct He1 as (_ & He1 & _).
  by rewrite He1 by (apply elem_of_app; by left).
Qed.

(** ** Closing *)
Lemma inv_pend F D D' s : (forall j, pend D' j = pend D j) -> Inv F D s -> Inv F D' s.
Proof.
  intros HD [A1 A2 A3 A4 A5 A6 A7 A8 A9 A10 A11 A12 A13 A14 A15 A16]. constructor; try done.
  - intros j c Ec. rewrite HD. by apply A6.
  - intros z q Hz. apply A16. pose proof (f_equal snd (HD O)) as E. cbn in E. congruence.
Qed.
(** A connection in the middle of a packet stays. *)
Definition reading s i : Prop := exists c x, p_pcs s !! i = Some c /\ pc_quic c = Some x /\ quic_in_recv x = true /\
  pc_proto c = PoolProto_H3.
Definition later F D s s' : Prop := Inv F D s' /\ forall i, reading s i -> reading s' i.
Lemma reading_evolves F s s' i : evolves F s s' -> reading s i -> reading s' i.
Proof.
  intros (He & _) (c & x & Ec & Ex & Hx). destruct (He i c Ec) as (c' & Ec' & Hp' & _ & _ & _ & _ & _ & _ & Hq' & _).
  rewrite Ex in Hq'. cbn in Hq'. destruct (pc_quic c') as [x'|] eqn:Ex'; [|done]. injection Hq' as Hq'. exists c', x'. by rewrite Hq', Hp'.
Qed.
Lemma ends_later F D s x s' : ends F D s x s' -> later F D s s'.
Proof. intros [Hi He]. split; [done|]. intros i. by apply (reading_evolves F). Qed.
Lemma later_trans F F' D D' s1 s2 s3 : later F D s1 s2 -> later F' D' s2 s3 -> later F' D' s1 s3.
Proof. intros [_ H1] [Hi H2]. split; [done|]. eauto. Qed.

(** What closing a connection does to the others. *)
Definition closes s s' i : Prop :=
  p_reqs s' = p_reqs s /\ p_log s' = p_log s /\ (forall j, j <> i -> p_pcs s' !! j = p_pcs s !! j) /\
  length (p_conns s') = (if decide (is_Some (p_pcs s' !! i)) then length (p_conns s) else length (p_conns s) - 1)%nat /\
  (forall j, j ∈ p_conns s' -> j ∈ p_conns s) /\
  (forall c', p_pcs s' !! i = Some c' -> pc_state c' = PoolConnState_Closing).
Lemma length_swap_remove x l : x ∈ l -> length (swap_remove x l) = (length l - 1)%nat.
Proof. intros Hx. rewrite (Permutation_length (swap_remove_perm x l Hx)). cbn. lia. Qed.
Lemma wp_fully_closed F D s i c (Post : unit -> Pool -> Prop) : Inv F D s -> p_pcs s !! i = Some c -> reqs_of c = [] ->
  (forall s', Inv F D s' -> p_reqs s' = p_reqs s -> p_log s' = p_log s -> p_pcs s' = delete i (p_pcs s) ->
    p_conns s' = swap_remove i (p_conns s) -> Post tt s') ->
  wp (c ← get_pc i; pool_remove_conn i;; arena_release_pc i) Post s.
Proof.
  intros HI Ei Hc HP. apply wp_bind, (wp_get_pc i c); [done|]. unfold pool_remove_conn, arena_release_pc.
  apply wp_bind, wp_bind, wp_pupd. apply wp_bind, wp_pget. apply wp_pupd. apply wp_pupd.
  set (s1 := set_p_conns _ s). set (s2 := if _ && _ then _ else _).
  assert (HS : p_conns s2 = swap_remove i (p_conns s) /\ p_pcs s2 = p_pcs s /\ p_reqs s2 = p_reqs s /\ p_next_req s2 = p_next_req s /\
    p_next_pc s2 = p_next_pc s /\ p_log s2 = p_log s).
  { unfold s2. by destruct (_ && _). }
  destruct HS as (S1 & S2 & S3 & S4 & S5 & S6).
  apply HP; try done; [|cbn; by rewrite S2].
  apply (inv_end_pc open opened F D s _ i c HI Ei Hc); cbn; rewrite ?S2; done.
Qed.
Lemma wp_close_gen F D s i c : p_pcs s !! i = Some c -> Inv F D (put i (set_pc_state PoolConnState_Closing c) s) -> reqs_of c = [] ->
  pc_state c <> PoolConnState_Closing ->
  wp (pool_close_conn i) (fun _ s' => later F D s s' /\ closes s s' i) s.
Proof.
  intros Ei HI Hc Hst. unfold pool_close_conn. apply wp_bind, (wp_get_pc i c); [done|].
  rewrite bool_decide_false by done. apply wp_bind, (wp_upd i _ c); [done|]. set (c1 := set_pc_state PoolConnState_Closing c).
  fold c1 in HI.
  assert (Hother : forall (c' : PoolConn) j, j <> i -> p_pcs (put i c' s) !! j = p_pcs s !! j).
  { intros c' j Hj. unfold put. cbn. by apply lookup_insert_ne. }
  assert (Hput : forall c', wires c1 c' -> pc_h2 c' = pc_h2 c1 -> pc_h3c c' = pc_h3c c1 -> pc_waiting c' = pc_waiting c1 ->
    pc_active c' = pc_active c1 -> pc_inflight c' = pc_inflight c1 -> pc_idle c' = pc_idle c1 ->
    Inv F D (put i c' s) /\ closes s (put i c' s) i).
  { intros c' W E1 E2 E3 E4 E5 E6.
    assert (HR : rewired c1 c') by done. split.
    - rewrite <-(put_put i c1). pose proof (i_conn _ _ _ _ _ HI i c1 (put_lookup i c1 s)) as Hok.
      apply (inv_put F D (put i c1 s) i c1 c' HI (put_lookup i c1 s)); [by rewrite (rewired_reqs _ _ HR)|by apply rewired_after|].
      by apply (conn_ok_rewired _ _ _ c1).
    - repeat split; try done; [by apply Hother|by rewrite decide_True by (rewrite put_lookup; by eexists)|].
      intros d. rewrite put_lookup. intros [= <-]. by destruct W as (_ & _ & -> & _). }
  destruct (negb (bool_decide (pc_proto c1 = PoolProto_H3))) eqn:Hp.
  - change (pc_proto c) with (pc_proto c1). rewrite Hp. apply (wp_upd i _ c1); [apply put_lookup|]. rewrite put_put.
    set (c2 := set_pc_tcp (tcp_close <$> pc_tcp c1) c1).
    assert (HW : wires c1 c2).
    { unfold wires, c2. cbn. repeat split; try done; [by intros [t ->]; exists (tcp_close t)|apply quic_after_refl]. }
    destruct (Hput c2 HW) as [Hi Hcl]; try done. split; [|done]. split; [done|]. intros j (d & x & Ed & Ex & Hx).
    destruct (decide (j = i)) as [->|Hj]; [|exists d, x; by rewrite Hother].
    exists c2, x. rewrite put_lookup. assert (d = c) as -> by congruence. done.
  - change (pc_proto c) with (pc_proto c1). rewrite Hp. bprops.
    destruct (pc_quic c) as [q|] eqn:Eq.
    2:{ destruct (Hput c1) as [Hi Hcl]; try done; [apply wires_refl|]. split; [|done]. split; [done|].
        intros j (d & x & Ed & Ex & Hx). destruct (decide (j = i)) as [->|Hj]; [congruence|]. exists d, x. by rewrite Hother. }
    destruct (quic_close q) as [q' now] eqn:Ecl. apply wp_bind, (wp_upd i _ c1); [apply put_lookup|]. rewrite put_put.
    set (c2 := set_pc_quic (Some q') c1).
    assert (Hok2 : Inv F D (put i c2 s) /\ closes s (put i c2 s) i).
    { split.
      - rewrite <-(put_put i c1). pose proof (i_conn _ _ _ _ _ HI i c1 (put_lookup i c1 s)) as Hok.
        apply (inv_move open opened F F D D (put i c1 s) i c1 c2 HI (put_lookup i c1 s)); try done.
        destruct Hok as [A1 A2 A3 A4 A5 A6 A0 A7 A8 A9 A10]. constructor; try done. change (pc_proto c2) with (pc_proto c1).
        rewrite Hp. by exists q'.
      - repeat split; try done; [by apply Hother|by rewrite decide_True by (rewrite put_lookup; by eexists)|].
        intros d. rewrite put_lookup. by intros [= <-]. }
    destruct Hok2 as [Hi2 Hcl2]. destruct now; cbn [pwhen].
    + apply (wp_fully_closed F D _ i c2 _ Hi2 (put_lookup i c2 s) Hc). intros s' Hi' R1 R2 R3 R4. split; [split; [done|]|].
      * intros j (d & x & Ed & Ex & Hx). destruct (decide (j = i)) as [->|Hj].
        -- assert (d = c) as -> by congruence. assert (x = q) as -> by congruence.
           destruct (quic_close_async opened Hq q (proj1 Hx)) as [H1 _]. rewrite Ecl in H1. done.
        -- exists d, x. rewrite R3, lookup_delete_ne, Hother by done. done.
      * assert (Hin : i ∈ p_conns s) by (apply (i_conns _ _ _ _ _ HI); rewrite put_lookup; by eexists).
        split; [done|]. split; [done|]. rewrite R3, R4. cbn [p_conns put set_p_pcs]. split; [|split; [|split]].
        -- intros j Hj. rewrite lookup_delete_ne, Hother by done. done.
        -- rewrite decide_False by (rewrite lookup_delete_eq; apply is_Some_None). by apply length_swap_remove.
        -- intros j Hj. rewrite (swap_remove_perm i (p_conns s) Hin). by right.
        -- intros d. by rewrite lookup_delete_eq.
    + split; [|done]. split; [done|]. intros j (d & x & Ed & Ex & Hx). destruct (decide (j = i)) as [->|Hj].
      * exists c2, q'. rewrite put_lookup. split; [done|]. split; [done|]. assert (d = c) as -> by congruence.
        assert (x = q) as -> by congruence. destruct (quic_close_async opened Hq q (proj1 Hx)) as [_ H2]. rewrite Ecl in H2. by split.
      * exists d, x. by rewrite Hother.
Qed.

Definition lates F D s (x : unit) s' : Prop := later F D s s'.
Lemma wp_later F F' D D' s s1 (m : PM unit) : later F D s s1 -> wp m (lates F' D' s1) s1 -> wp m (lates F' D' s) s1.
Proof. intros HL H. eapply wp_mono; [exact H|]. intros [] s2 H2. by eapply later_trans. Qed.
Lemma wp_lates m F D s : wp m (ends F D s) s -> wp m (lates F D s) s.
Proof. intros H. eapply wp_mono; [exact H|]. intros x s1. apply ends_later. Qed.
Lemma later_refl F D s : Inv F D s -> later F D s s.
Proof. by split. Qed.
(** After a part that only dispatches. *)
Lemma wp_ends_then {A} (m : PM A) (k : A -> PM unit) F F' D D' s :
  wp m (fun x s' => (Inv F D s' /\ evolves F s s') /\ wp (k x) (lates F' D' s') s') s -> wp (x ← m; k x) (lates F' D' s) s.
Proof.
  intros H. apply wp_bind. eapply wp_mono; [exact H|]. intros x s1 [He Hk]. eapply wp_later; [|exact Hk]. by apply (ends_later F D s tt).
Qed.
Lemma conn_ok_end reqs P P' i c c' : conn_ok reqs P i c -> pc_proto c' = pc_proto c -> pc_origin c' = pc_origin c ->
  pc_tcp c' = pc_tcp c -> pc_quic c' = pc_quic c -> pc_h3c c' = pc_h3c c -> reqs_of c' = [] -> pc_inflight c' = O ->
  pc_state c' = PoolConnState_Closing -> conn_ok reqs P' i c'.
Proof.
  intros Hok E1 E2 E3 E4 E5 E6 E7 E8. unfold reqs_of in E6. destruct (app_nil (pc_waiting c') (pc_active c')) as [E _].
  destruct (E E6) as [Ew Ea]. constructor; rewrite ?Ea, ?E1, ?E2, ?E3, ?E4, ?E5, ?E7, ?E8; unfold reqs_of; rewrite ?Ew, ?Ea; try done.
  - constructor.
  - intros r Hr. by apply elem_of_nil in Hr.
  - apply (co_origin _ _ _ _ _ _ Hok).
  - apply (co_wire _ _ _ _ _ _ Hok).
  - intros _. split; [cbn; lia|]. intros r Hr. by apply elem_of_nil in Hr.
Qed.
Lemma reqs_none reqs P i c : conn_ok reqs P i c -> reqs_of c = [] -> pc_inflight c = O.
Proof. intros Hok. rewrite (co_inflight _ _ _ _ _ _ Hok). unfold reqs_of. intros E. apply app_nil in E as [_ ->]. done. Qed.
Lemma reading_put i c c' s j : p_pcs s !! i = Some c -> pc_quic c' = pc_quic c -> pc_proto c' = pc_proto c ->
  reading s j -> reading (put i c' s) j.
Proof.
  intros Ei E Ep (d & x & Ed & Ex & Hx). destruct (decide (j = i)) as [->|Hj].
  - exists c', x. rewrite put_lookup, E, Ep. assert (d = c) as -> by congruence. done.
  - exists d, x. split; [|done]. unfold put. cbn. by rewrite lookup_insert_ne.
Qed.
Lemma wp_close F D s i c : Inv F D s -> p_pcs s !! i = Some c -> reqs_of c = [] ->
  wp (pool_close_conn i) (fun _ s' => later F D s s' /\ closes s s' i) s.
Proof.
  intros HI Ei Hc. destruct (decide (pc_state c = PoolConnState_Closing)) as [Hst|Hst].
  - unfold pool_close_conn. apply wp_bind, (wp_get_pc i c); [done|]. rewrite bool_decide_true by done. apply wp_ret.
    split; [by apply later_refl|]. repeat (split; [done|]). rewrite Ei. rewrite decide_True by done. split; [done|]. split; [done|].
    by intros d [= <-].
  - pose proof (i_conn _ _ _ _ _ HI i c Ei) as Hok. apply (wp_close_gen F D s i c); try done.
    apply (inv_move open opened F F D D s i c); try done.
    apply (conn_ok_end _ (pend D i) _ _ c); try done. cbn. by apply (reqs_none _ _ _ _ Hok).
Qed.
Lemma wp_fail_all F D s i c err : D.2 = None -> Inv F D s -> p_pcs s !! i = Some c ->
  wp (pool_conn_fail_all on_user (pool_acquire decode_content on_user) i err) (lates F D s) s.
Proof.
  intros HD HI Ei. pose proof (i_conn _ _ _ _ _ HI i c Ei) as Hok. unfold pool_conn_fail_all.
  apply wp_bind, (wp_get_pc i c); [done|]. case_bool_decide as Hst; [by apply wp_ret, later_refl|].
  apply wp_bind, (wp_upd i _ c); [done|]. set (c1 := set_pc_waiting [] _).
  set (F1 := pc_active c ++ pc_waiting c ++ F).
  assert (Hi1 : Inv F1 D (put i (set_pc_state PoolConnState_Closing c1) (put i c1 s))).
  { rewrite put_put. apply (inv_move open opened F F1 D D s i c); try done.
    - unfold F1, reqs_of. cbn. solve_Permutation.
    - congruence.
    - by apply (conn_ok_end _ (pend D i) _ _ c). }
  apply wp_bind. eapply wp_mono; [by apply (wp_close_gen F1 D (put i c1 s) i c1); [apply put_lookup| | |]|].
  intros [] s2 [[Hi2 Hr2] (E2 & E3 & _)].
  assert (HL2 : later F1 D s s2).
  { split; [done|]. intros j Hj. apply Hr2. by apply (reading_put i c). }
  assert (Hreq : forall r, r ∈ reqs_of c -> exists q, p_reqs s2 !! r = Some q /\ pr_responded q = false /\ (pr_retries_left q <= POOL_MAX_RETRIES)%nat).
  { intros r Hr. destruct (in_queue F D s i c r HD HI Ei Hr) as (q & Eq & _ & _ & Hf & _). exists q. rewrite E2.
    split; [exact Eq|]. split; [done|]. by apply (i_retries _ _ _ _ _ HI r). }
  assert (Hacq : acq_spec (S POOL_MAX_RETRIES) (pool_acquire decode_content on_user)) by apply wp_acquire_any.
  eapply wp_later; [exact HL2|]. apply (wp_ends_then _ _ (pc_waiting c ++ F) F D D).
  eapply wp_mono; [apply (wp_retry_all _ _ D err Hacq (pc_active c) (pc_waiting c ++ F) s2 Hi2)|].
  - intros r Hr. destruct (Hreq r) as (q & A1 & A2 & A3); [apply elem_of_app; by right|]. exists q. split; [done|]. split; [congruence|lia].
  - intros [] s3 [Hi3 He3]. split; [done|]. apply wp_lates, (wp_retry_all _ _ D err Hacq (pc_waiting c) F s3 Hi3).
    intros r Hr. destruct (Hreq r) as (q & A1 & A2 & A3); [apply elem_of_app; by left|]. exists q.
    destruct He3 as (_ & He3 & _). rewrite He3 by (apply elem_of_app; by left). split; [done|]. split; [congruence|lia].
Qed.

Lemma wp_update_idle F D s i c : D.2 = None -> Inv F D s -> p_pcs s !! i = Some c -> wp (pool_update_idle decode_content on_user i) (lates F D s) s.
Proof.
  intros HD HI Ei. pose proof (i_conn _ _ _ _ _ HI i c Ei) as Hok. unfold pool_update_idle.
  apply wp_bind, (wp_get_pc i c); [done|]. case_bool_decide as Hst; [by apply wp_ret, later_refl|].
  destruct (pc_broken c) eqn:Hb.
  - apply wp_bind, (wp_upd i _ c); [done|]. set (c1 := set_pc_waiting [] c). set (F1 := pc_waiting c ++ F).
    assert (Hi1 : Inv F1 D (put i c1 s)).
    { apply (inv_move open opened F F1 D D s i c); try done.
      - unfold F1, reqs_of. cbn. solve_Permutation.
      - congruence.
      - apply conn_ok_parked; try done; [intros r Hr; by apply elem_of_nil in Hr|].
        pose proof (co_nodup _ _ _ _ _ _ Hok) as Hn. by apply NoDup_app in Hn as (_ & _ & Hn). }
    assert (HL1 : later F1 D s (put i c1 s)) by (split; [done|]; intros j; by apply (reading_put i c)).
    eapply wp_later; [exact HL1|]. apply (wp_ends_then _ _ F F D D).
    eapply wp_mono; [apply (wp_reacquire D (pc_proto c) (pc_waiting c) F _ Hi1)|].
    + intros r Hr. destruct (in_queue F D s i c r HD HI Ei) as (q & A1 & _ & A3 & A4 & _); [apply elem_of_app; by left|]. by exists q.
    + intros [] s2 [Hi2 He2]. split; [done|]. destruct He2 as (He2 & _).
      destruct (He2 i c1 (put_lookup i c1 s)) as (c2 & Ei2 & _ & _ & _ & _ & _ & _ & _ & _ & Hw2 & _). specialize (Hw2 Hb).
      apply wp_bind, (wp_get_pc i c2); [done|]. destruct (pc_inflight c2 =? 0)%nat eqn:H0; [|by apply wp_ret, later_refl].
      eapply wp_mono; [apply (wp_close F D s2 i c2 Hi2 Ei2)|by intros [] s3 [? _]]. bool_props.
      unfold reqs_of. rewrite Hw2. cbn. apply nil_length_inv. by rewrite <-(co_inflight _ _ _ _ _ _ (i_conn _ _ _ _ _ Hi2 i c2 Ei2)).
  - destruct ((pc_inflight c =? 0)%nat && _ && _) eqn:Hc; [|by apply wp_ret, later_refl]. bool_props.
    assert (Ha : pc_active c = []) by (apply nil_length_inv; by rewrite <-(co_inflight _ _ _ _ _ _ Hok)).
    apply wp_bind, wp_pget, wp_bind, (wp_upd i _ c); [done|]. set (c1 := set_pc_idle true (p_now s) c).
    destruct (rewired_ref false c1) as (c2 & HR & E2 & Hwp). unfold pool_conn_unref. apply Hwp; [apply put_lookup|].
    rewrite put_put. destruct HR as (W & A1 & A2 & A3 & A4 & A5).
    assert (Hc2 : conn_after c c2) by (apply wires_after; [exact W|by rewrite A1|by rewrite A2|done|apply fuller_same; [by rewrite A5|done|by rewrite A2]]).
    apply (ends_later F D s tt). apply (inv_put F D s i c c2); try done; [unfold reqs_of; by rewrite A3, A4|].
    apply (conn_ok_wires _ _ i c c2 Hok); try done; [by left|by rewrite A3].
Qed.
Lemma wp_flush_idle F D s i c : D.2 = None -> Inv F D s -> p_pcs s !! i = Some c ->
  wp (pool_flush_waiting decode_content on_user i;; pool_update_idle decode_content on_user i) (lates F D s) s.
Proof.
  intros HD HI Ei. apply (wp_ends_then _ _ F F D D). eapply wp_mono; [by apply (wp_flush F D s i c)|].
  intros [] s1 [Hi He]. split; [done|]. destruct He as (He & _). destruct (He i c Ei) as (c1 & Ei1 & _). by apply (wp_update_idle F D s1 i c1).
Qed.

(** *** Handing the queue over *)
Lemma wp_hand_over D : forall l F s, Inv (l ++ F) D s ->
  (forall r, r ∈ l -> exists q, p_reqs s !! r = Some q /\ pr_responded q = false) ->
  wp (hand_over h2req_start l) (fun x s' => ends F D s x s' /\ p_pcs s' = p_pcs s) s.
Proof.
  induction l as [|r l IH]; intros F s HI Hl; [split; [split; [done|apply evolves_refl]|done]|]. cbn [hand_over].
  destruct (Hl r ltac:(left)) as (q & Er & Hf). apply wp_bind, (wp_get_req r q); [done|]. apply wp_bind.
  eapply wp_mono; [apply (Hstart (pr_params q) s)|]. intros [] s1 Hs1. pose proof (inv_same open opened _ _ _ _ Hs1 HI) as Hi1.
  destruct Hs1 as (_ & Epc & Ereq & En & En2 & Elog & _).
  apply wp_bind, wp_pupd, wp_bind. unfold pool_req_done. apply wp_bind, (wp_get_req r q); [cbn; by rewrite Ereq|]. apply wp_pupd.
  set (s2 := set_p_reqs _ _).
  destruct (inv_done open opened (l ++ F) D s1 s2 r Hi1) as [Hi2 He2]; try done.
  { right. split; [apply (i_log _ _ _ _ _ Hi1 r q); [by rewrite Ereq|done]|]. unfold answered. cbn. by rewrite fmap_app. }
  assert (He : evolves (l ++ F) s s2).
  { eapply evolves_trans; [|exact He2]. unfold evolves, answered. rewrite Epc, Ereq, En, Elog. split; [|done].
    intros j d Ed. exists d. split; [done|apply conn_after_refl]. }
  eapply wp_mono; [apply (IH F s2 Hi2)|].
  - intros x Hx. destruct (Hl x ltac:(by right)) as (qx & Ex & Hfx). exists qx. split; [|done].
    destruct He as (_ & He & _). by rewrite He by (apply elem_of_app; by left).
  - intros [] s3 [[Hi3 He3] E3]. split; [|by rewrite E3]. split; [done|]. eapply evolves_trans; [|exact He3].
    eapply evolves_sub; [|exact He]. set_solver.
Qed.
Lemma conn_ok_broken reqs P i c : conn_ok reqs P i c -> conn_ok reqs P i (set_pc_broken c).
Proof. intros []. by constructor. Qed.
Lemma later_put F' D' s i c c' : p_pcs s !! i = Some c -> pc_quic c' = pc_quic c -> pc_proto c' = pc_proto c -> Inv F' D' (put i c' s) -> later F' D' s (put i c' s).
Proof. intros Ei Eq Ep HI. split; [done|]. intros j. by apply (reading_put i c). Qed.
Lemma wp_fallback F D s i c : D.2 = None -> Inv F D s -> p_pcs s !! i = Some c -> pc_state c = PoolConnState_Handshaking ->
  wp (pool_conn_fallback_legacy h2req_start i) (lates F D s) s.
Proof.
  intros HD HI Ei Hst. pose proof (i_conn _ _ _ _ _ HI i c Ei) as Hok. destruct (co_handshaking _ _ _ _ _ _ Hok Hst) as [Ha _].
  unfold pool_conn_fallback_legacy. apply wp_bind, (wp_get_pc i c); [done|]. apply wp_bind, (wp_upd i _ c); [done|].
  set (c1 := set_pc_waiting [] c). set (F1 := pc_waiting c ++ F).
  assert (Hi1 : Inv F1 D (put i c1 s)).
  { apply (inv_move open opened F F1 D D s i c c1); try done.
    - unfold F1, reqs_of. cbn. rewrite Ha. solve_Permutation.
    - congruence.
    - apply conn_ok_parked; try done; [intros r Hr; by apply elem_of_nil in Hr|by rewrite Ha; constructor|by rewrite Hst]. }
  eapply wp_later; [apply (later_put F1 D s i c c1); done|]. apply (wp_ends_then _ _ F F D D).
  eapply wp_mono; [apply (wp_hand_over D (pc_waiting c) F _ Hi1)|].
  { intros r Hr. destruct (in_queue F D s i c r HD HI Ei) as (q & A1 & _ & _ & A4 & _); [apply elem_of_app; by left|]. by exists q. }
  intros [] s2 [[Hi2 He2] E2]. split; [done|]. assert (Ei2 : p_pcs s2 !! i = Some c1) by (rewrite E2; apply put_lookup).
  apply wp_bind, (wp_upd i _ c1); [done|]. set (c2 := set_pc_broken c1).
  assert (Hi3 : Inv F D (put i c2 s2)).
  { apply (inv_move open opened F F D D s2 i c1 c2); try done. by apply conn_ok_broken, (i_conn _ _ _ _ _ Hi2). }
  eapply wp_later; [apply (later_put F D s2 i c1 c2); done|].
  eapply wp_mono; [apply (wp_close F D _ i c2 Hi3 (put_lookup i c2 s2))|by intros [] s3 [? _]].
  unfold reqs_of. cbn. exact Ha.
Qed.

(** *** Sweeping and ending *)
(** No request waits on a connection that is about to be closed. *)
Definition settled (all : bool) s : Prop :=
  forall i c, p_pcs s !! i = Some c -> pc_inflight c = O -> all || pc_broken c || bool_decide (pc_state c = PoolConnState_Ready) = true ->
    pc_waiting c = [].
Lemma settled_closes F D all s s' i : settled all s -> closes s s' i -> Inv F D s' -> settled all s'.
Proof.
  intros Hs (_ & _ & H3 & _ & _ & H6) HI j c Ej Hin Hc. destruct (decide (j = i)) as [->|Hj].
  - pose proof (co_closing _ _ _ _ _ _ (i_conn _ _ _ _ _ HI i c Ej) (H6 c Ej)) as E. unfold reqs_of in E. by apply app_nil in E as [-> _].
  - rewrite H3 in Ej by done. by apply (Hs j c).
Qed.
Lemma settled_reqs F D all s i c : settled all s -> Inv F D s -> p_pcs s !! i = Some c -> pc_inflight c = O ->
  all || pc_broken c || bool_decide (pc_state c = PoolConnState_Ready) = true -> reqs_of c = [].
Proof.
  intros Hs HI Ei Hin Hc. unfold reqs_of. rewrite (Hs i c Ei Hin Hc). cbn [app]. apply nil_length_inv.
  by rewrite <-(co_inflight _ _ _ _ _ _ (i_conn _ _ _ _ _ HI i c Ei)).
Qed.
Lemma wp_sweep_loop F D idle fuel : forall i s, Inv F D s -> settled false s -> wp (sweep_loop fuel i idle) (lates F D s) s.
Proof.
  induction fuel as [|fuel IH]; intros i s HI Hs; [by apply wp_ret, later_refl|]. cbn [sweep_loop].
  apply wp_bind, wp_pget. destruct (p_conns s !! i) as [pc|] eqn:Ec; [|by apply wp_ret, later_refl].
  destruct (proj1 (i_conns _ _ _ _ _ HI pc)) as [c Ei]; [by apply (list_elem_of_lookup_2 _ i)|].
  apply wp_bind, (wp_get_pc pc c); [done|]. apply wp_bind, wp_pget. apply wp_bind.
  assert (Hskip : wp (sweep_loop fuel (S i) idle) (lates F D s) s) by (by apply IH).
  assert (Hclose : pc_inflight c = O -> false || pc_broken c || bool_decide (pc_state c = PoolConnState_Ready) = true ->
    wp (pool_close_conn pc) (fun _ s' => wp (sweep_loop fuel (S i) idle) (lates F D s) s') s).
  { intros Hin Hc. eapply wp_mono; [apply (wp_close F D s pc c HI Ei), (settled_reqs F D false s pc c Hs HI Ei Hin Hc)|].
    intros [] s1 [HL Hcl]. eapply wp_later; [exact HL|]. apply IH; [by destruct HL|]. eapply settled_closes; [done|exact Hcl|]. by destruct HL. }
  destruct (bool_decide (pc_state c = PoolConnState_Closing)); [exact Hskip|].
  destruct (pc_broken c && (pc_inflight c =? 0)%nat) eqn:H1.
  - bool_props. apply Hclose; [done|]. by destruct (pc_broken c).
  - destruct (bool_decide (pc_state c = PoolConnState_Ready) && (pc_inflight c =? 0)%nat && (idle <=? wrap64 (p_now s - pc_idle_since_ms c))) eqn:H2;
      [|exact Hskip].
    apply andb_true_iff in H2 as [H2 _]. apply andb_true_iff in H2 as [H2 H3]. apply Hclose; [by apply Nat.eqb_eq|].
    rewrite H2. apply orb_true_r.
Qed.
Lemma wp_sweep F D s : Inv F D s -> settled false s -> wp pool_sweep_cb (lates F D s) s.
Proof. intros HI Hs. unfold pool_sweep_cb. apply wp_bind, wp_pget, wp_bind, wp_pget. cbv zeta. by apply wp_sweep_loop. Qed.
Lemma inv_sweep F D s b1 b2 : Inv F D s -> Inv F D (set_p_sweep b1 b2 s).
Proof. intros HI. by apply (inv_same open opened F D s). Qed.
Lemma wp_drain_loop F D i : forall s, Inv F D s -> (forall j c, p_pcs s !! j = Some c -> reqs_of c = []) -> (i <= length (p_conns s))%nat ->
  wp (drain_loop i) (lates F D s) s.
Proof.
  induction i as [|i IH]; intros s HI Hs Hi; [by apply wp_ret, later_refl|]. cbn [drain_loop].
  apply wp_bind, wp_pget. destruct (lookup_lt_is_Some_2 (p_conns s) i) as [pc Ec]; [lia|]. rewrite Ec.
  destruct (proj1 (i_conns _ _ _ _ _ HI pc)) as [c Ei]; [by apply (list_elem_of_lookup_2 _ i)|]. apply wp_bind.
  eapply wp_mono; [apply (wp_close F D s pc c HI Ei), (Hs pc c Ei)|]. intros [] s1 [HL (_ & _ & H3 & H4 & _ & H6)].
  eapply wp_later; [exact HL|]. destruct HL as [Hi1 _]. apply IH; [done| |].
  - intros j d Ed. destruct (decide (j = pc)) as [->|Hj]; [|rewrite H3 in Ed by done; by apply (Hs j)].
    apply (co_closing _ _ _ _ _ _ (i_conn _ _ _ _ _ Hi1 pc d Ed)). by apply H6.
  - rewrite H4. destruct (decide _); lia.
Qed.
Lemma wp_drain F D s : Inv F D s -> (forall j c, p_pcs s !! j = Some c -> reqs_of c = []) -> wp pool_drain (lates F D s) s.
Proof.
  intros HI Hs. unfold pool_drain. apply wp_bind, wp_pget, wp_bind. eapply wp_mono; [by apply (wp_drain_loop F D)|].
  intros [] s1 HL. apply wp_pupd. destruct HL as [Hi1 Hr1]. destruct (p_sweep_inited s1); [|by split]. split; [by apply inv_sweep|done].
Qed.
Lemma wp_break F D l : forall s, Inv F D s -> settled true s -> (forall i, i ∈ l -> is_Some (p_pcs s !! i)) ->
  wp (break_loop l) (fun _ s' => later F D s s' /\ settled true s' /\ p_conns s' = p_conns s) s.
Proof.
  induction l as [|i l IH]; intros s HI Hs Hl; [by split; [apply later_refl|]|]. cbn [break_loop].
  destruct (Hl i ltac:(left)) as [c Ei]. apply wp_bind, (wp_get_pc i c); [done|].
  assert (Hl' : forall j, j ∈ l -> is_Some (p_pcs s !! j)) by (intros j Hj; apply Hl; by right).
  destruct (negb _); cbn [pwhen]; [|by apply IH].
  apply wp_bind, (wp_upd i _ c); [done|]. set (c1 := set_pc_broken c).
  assert (Hi1 : Inv F D (put i c1 s)).
  { apply (inv_move open opened F F D D s i c c1); try done. by apply conn_ok_broken, (i_conn _ _ _ _ _ HI). }
  pose proof (later_put F D s i c c1 Ei eq_refl eq_refl Hi1) as HL1. eapply wp_mono; [apply (IH (put i c1 s) Hi1)|].
  - intros j d Ed Hin _. destruct (decide (j = i)) as [->|Hj].
    + rewrite put_lookup in Ed. injection Ed as <-. by apply (Hs i c).
    + unfold put in Ed. cbn in Ed. rewrite lookup_insert_ne in Ed by done. by apply (Hs j d).
  - intros j Hj. unfold put. cbn. apply lookup_insert_is_Some'. right. by apply Hl'.
  - intros [] s2 (HL2 & Hs2 & E2). split; [by eapply later_trans|]. done.
Qed.
Lemma wp_evict_loop F D i : forall s, Inv F D s -> settled true s -> (i <= length (p_conns s))%nat -> wp (evict_loop i) (lates F D s) s.
Proof.
  induction i as [|i IH]; intros s HI Hs Hi; [by apply wp_ret, later_refl|]. cbn [evict_loop].
  apply wp_bind, wp_pget. destruct (lookup_lt_is_Some_2 (p_conns s) i) as [pc Ec]; [lia|]. rewrite Ec.
  destruct (proj1 (i_conns _ _ _ _ _ HI pc)) as [c Ei]; [by apply (list_elem_of_lookup_2 _ i)|].
  apply wp_bind, wp_bind, (wp_get_pc pc c); [done|]. destruct (pc_broken c && (pc_inflight c =? 0)%nat) eqn:Hc; cbn [pwhen].
  - bool_props. eapply wp_mono; [apply (wp_close F D s pc c HI Ei), (settled_reqs F D true s pc c Hs HI Ei); done|].
    intros [] s1 [HL Hcl]. eapply wp_later; [exact HL|]. destruct HL as [Hi1 _].
    apply IH; [done|by eapply settled_closes|]. destruct Hcl as (_ & _ & _ & H4 & _). rewrite H4. destruct (decide _); lia.
  - apply wp_ret, IH; [done|done|lia].
Qed.
Lemma wp_evict F D s : Inv F D s -> settled true s -> wp pool_evict_all (lates F D s) s.
Proof.
  intros HI Hs. unfold pool_evict_all. apply wp_bind, wp_pget, wp_bind.
  eapply wp_mono; [apply (wp_break F D (p_conns s) s HI Hs)|].
  - intros i Hi. by apply (i_conns _ _ _ _ _ HI).
  - intros [] s1 (HL & Hs1 & E1). eapply wp_later; [exact HL|]. apply wp_evict_loop; [by destruct HL|done|by rewrite E1].
Qed.

(** ** The end of a request on its connection *)
(** Every connection stays, in its state. *)
Definition stays c c' : Prop :=
  pc_proto c' = pc_proto c /\ pc_state c' = pc_state c /\
  (is_Some (pc_h2 c) -> is_Some (pc_h2 c')) /\ (is_Some (pc_h3c c) -> is_Some (pc_h3c c')) /\
  (quic_in_recv <$> pc_quic c') = (quic_in_recv <$> pc_quic c).
Definition keeps s s' : Prop := forall i c, p_pcs s !! i = Some c -> exists c', p_pcs s' !! i = Some c' /\ stays c c'.
Definition remains F D s (x : unit) s' : Prop := Inv F D s' /\ keeps s s'.
Lemma keeps_refl s : keeps s s.
Proof. intros i c Ec. exists c. by repeat split. Qed.
Lemma keeps_trans s1 s2 s3 : keeps s1 s2 -> keeps s2 s3 -> keeps s1 s3.
Proof.
  intros H1 H2 i c Ec. destruct (H1 i c Ec) as (c2 & Ec2 & A1 & A2 & A3 & A4 & A5).
  destruct (H2 i c2 Ec2) as (c3 & Ec3 & B1 & B2 & B3 & B4 & B5). exists c3. split; [done|].
  repeat split; try congruence; eauto.
Qed.
Lemma keeps_evolves F s s' : evolves F s s' -> keeps s s'.
Proof.
  intros (He & _) i c Ec. destruct (He i c Ec) as (c' & Ec' & A1 & _ & A3 & _ & A5 & A6 & A7 & A8 & _). exists c'.
  split; [done|]. repeat split; done.
Qed.
Lemma keeps_later F D s s' : Inv F D s' -> keeps s s' -> later F D s s'.
Proof.
  intros HI HK. split; [done|]. intros i (c & x & Ec & Ex & Hx). destruct (HK i c Ec) as (c' & Ec' & Hp' & _ & _ & _ & Hq').
  rewrite Ex in Hq'. cbn in Hq'. destruct (pc_quic c') as [x'|] eqn:Ex'; [|done]. injection Hq' as Hq'. exists c', x'. by rewrite Hq', Hp'.
Qed.
Lemma keeps_put i c c' s : p_pcs s !! i = Some c -> stays c c' -> keeps s (put i c' s).
Proof.
  intros Ei Hs j d Ed. destruct (decide (j = i)) as [->|Hj].
  - exists c'. rewrite put_lookup. split; [done|]. by assert (d = c) as -> by congruence.
  - exists d. unfold put. cbn. rewrite lookup_insert_ne by done. by repeat split.
Qed.
Lemma wires_stays c c' : wires c c' -> (is_Some (pc_h2 c) -> is_Some (pc_h2 c')) -> (is_Some (pc_h3c c) -> is_Some (pc_h3c c')) -> stays c c'.
Proof. intros (W1 & W2 & W3 & W4 & W5 & W6 & W7) H1 H2. repeat split; try done. by apply quic_after_recv. Qed.
Lemma wp_remains m F' D' s s1 : keeps s s1 -> wp m (ends F' D' s1) s1 -> wp m (remains F' D' s) s1.
Proof.
  intros HK H. eapply wp_mono; [exact H|]. intros [] s2 [Hi He]. split; [done|]. eapply keeps_trans; [exact HK|].
  by apply (keeps_evolves F').
Qed.

Lemma conn_ok_detached reqs P P' i c c' r : conn_ok reqs P i c -> wires c c' -> pc_waiting c' = pc_waiting c ->
  pc_active c ≡ₚ (r :: pc_active c') -> pc_inflight c' = (pc_inflight c - 1)%nat -> pc_idle c' = pc_idle c ->
  (P'.2 = P.2 \/ exists q, P.2 = Some (r, q)) ->
  match pc_proto c with
  | PoolProto_H1 => pc_h3c c' = pc_h3c c
  | PoolProto_H2 => pc_h3c c' = pc_h3c c /\ forall h, pc_h2 c = Some h -> exists h', pc_h2 c' = Some h' /\
      (P.1 ++ map snd (open h)) ≡ₚ (r :: (P'.1 ++ map snd (open h'))) /\ forall x, x ∈ open h' -> x ∈ open h
  | PoolProto_H3 => forall hc, pc_h3c c = Some hc -> exists hc', pc_h3c c' = Some hc' /\ hc_streams hc ≡ₚ (r :: hc_streams hc')
  end -> conn_ok reqs P' i c'.
Proof.
  intros Hok HW E1 E2 E3 E4 Hz Hcase. pose proof HW as (W1 & W2 & W3 & W4 & W5 & W6 & W7).
  assert (EQ : reqs_of c ≡ₚ (r :: reqs_of c')) by (unfold reqs_of; rewrite E1, E2; by rewrite <-Permutation_middle).
  assert (Hne : pc_active c <> []) by (intros E; rewrite E in E2; by apply Permutation_nil_cons in E2).
  assert (Hready : pc_state c = PoolConnState_Ready).
  { destruct (pc_state c) eqn:Hst; [|done|].
    - by destruct (co_handshaking _ _ _ _ _ _ Hok Hst).
    - pose proof (co_closing _ _ _ _ _ _ Hok Hst) as E. unfold reqs_of in E. by apply app_nil in E as [_ ?]. }
  assert (Hsub : forall x, x ∈ pc_active c' -> x ∈ pc_active c) by (intros x Hx; rewrite E2; by right).
  pose proof (co_nodup _ _ _ _ _ _ Hok) as Hn. rewrite EQ in Hn. apply NoDup_cons in Hn as [Hnr Hn].
  constructor; rewrite ?W1, ?W2, ?W3, ?Hready; try done.
  - intros x Hx. apply (queued_wires _ _ _ c); [done|done|].
    destruct (co_reqs _ _ _ _ _ _ Hok x) as (q & A1 & A2 & A3 & A4 & A5); [rewrite EQ; by right|].
    exists q. repeat (split; [done|]). split; [|done]. intros H. specialize (A4 H). destruct Hz as [->|[qr Hz]]; [done|].
    rewrite Hz in A4. injection A4 as -> _. done.
  - rewrite E3, (co_inflight _ _ _ _ _ _ Hok), E2. cbn. lia.
  - rewrite E4. intros Hi. by apply (co_idle _ _ _ _ _ _ Hok) in Hi.
  - apply (co_origin _ _ _ _ _ _ Hok).
  - rewrite <-W1. apply (co_wire_after reqs P i c c' Hok HW). destruct (pc_proto c); [left; by destruct Hcase|by right|by left].
  - intros Hp. destruct (co_h1 _ _ _ _ _ _ Hok Hp) as [Hl Ha]. split; [rewrite E2 in Hl; cbn in Hl; lia|].
    intros x Hx. by apply Ha, Hsub.
  - intros Hp _. rewrite Hp in Hcase. destruct Hcase as [_ Hcase].
    pose proof (co_h2 _ _ _ _ _ _ Hok Hp ltac:(by rewrite Hready)) as B. destruct (pc_h2 c) as [h|]; [|by destruct B].
    destruct (Hcase h eq_refl) as (h' & -> & Ho & Hin). destruct B as [B1 B2]. split.
    + rewrite B1, Ho in E2. symmetry in E2. by apply Permutation_cons_inv in E2.
    + intros sid x q Hx. by apply B2, Hin.
  - intros Hp _. rewrite Hp in Hcase. destruct (co_h3 _ _ _ _ _ _ Hok Hp Hready) as (hc & x & B1 & B2 & B3 & B4 & B5 & B6).
    destruct (Hcase hc B1) as (hc' & Ec' & Hs). rewrite B2 in W7. destruct W7 as (y & Ey & Hy & _). exists hc', y.
    split; [done|]. split; [done|]. split; [rewrite Hs, E2 in B3; by apply Permutation_cons_inv in B3|].
    split; [rewrite E2 in B4; cbn in B4; lia|]. split.
    + intros u q Hu Eu. apply Hy. by apply (B5 u q); [apply Hsub|].
    + intros u v qu qv Hu Hv. apply B6; by apply Hsub.
Qed.
Lemma inv_detach F D D' s i c c' r : Inv F D s -> p_pcs s !! i = Some c -> pc_waiting c' = pc_waiting c ->
  pc_active c ≡ₚ (r :: pc_active c') -> (forall j, j <> i -> pend D' j = pend D j) -> D.2 = None -> D'.2 = None ->
  conn_ok (p_reqs s) (pend D' i) i c' -> Inv (r :: F) D' (put i c' s).
Proof.
  intros HI Ei E1 E2 HD Z1 Z2 Hok. apply (inv_move open opened F (r :: F) D D' s i c c'); try done; [|congruence|congruence].
  unfold reqs_of. rewrite E1, E2. solve_Permutation.
Qed.
Lemma wp_active_remove i r c (Post : unit -> Pool -> Prop) s : p_pcs s !! i = Some c ->
  (forall x, x ∈ pc_active c -> is_Some (p_reqs s !! x)) ->
  Post tt (put i (set_pc_active (pc_inflight c) (unlink r (pc_active c)) c) s) -> wp (pool_active_remove i r) Post s.
Proof.
  intros Ei Hx HP. unfold pool_active_remove. apply wp_bind, (wp_get_pc i c); [done|]. apply wp_bind, wp_walk; [done|].
  by apply (wp_upd i _ c).
Qed.
Lemma queue_exists reqs P i c r : conn_ok reqs P i c -> r ∈ reqs_of c -> is_Some (reqs !! r).
Proof. intros Hok Hr. destruct (co_reqs _ _ _ _ _ _ Hok r Hr) as (q & Eq & _). by exists q. Qed.
Lemma active_exists reqs P i c r : conn_ok reqs P i c -> r ∈ pc_active c -> is_Some (reqs !! r).
Proof. intros Hok Hr. apply (queue_exists _ _ _ _ _ Hok), elem_of_app. by right. Qed.
Lemma wp_note_alt_svc r hs s : is_Some (p_reqs s !! r) -> wp (pool_note_alt_svc r hs) (fun _ s' => same_pool s s') s.
Proof.
  intros [q Er]. unfold pool_note_alt_svc. apply wp_bind, (wp_get_req r q); [done|]. apply wp_bind, wp_pget.
  by destruct (alt_svc_of hs).
Qed.
(** The requests [P] of connection [i] are closed in its session. *)
Definition closed (i : nat) (P : list nat) : Ctx := (Some (i, P), None).
Lemma pend_closed i P : pend (closed i P) i = (P, None).
Proof. unfold pend. cbn. by rewrite Nat.eqb_refl. Qed.
Lemma pend_closed_ne i j P P' : j <> i -> pend (closed i P) j = pend (closed i P') j.
Proof. intros Hj. unfold pend. cbn. by destruct (Nat.eqb_spec i j) as [->|]. Qed.

(** *** HTTP/2 *)
Lemma wp_h2_on_response F i P r hr s c : Inv F (closed i (r :: P)) s -> p_pcs s !! i = Some c -> pc_proto c = PoolProto_H2 ->
  r ∈ pc_active c -> wp (pool_h2_on_response decode_content on_user (pool_acquire decode_content on_user) r hr) (remains F (closed i P) s) s.
Proof.
  intros HI Ei Hp Hr. pose proof (i_conn _ _ _ _ _ HI i c Ei) as Hok. rewrite pend_closed in Hok.
  destruct (in_queue F (closed i (r :: P)) s i c r eq_refl HI Ei) as (q & Er & Hpc & _ & Hf & _); [apply elem_of_app; by right|].
  unfold pool_h2_on_response. apply wp_bind, (wp_get_req r q); [done|]. rewrite Hf, Hpc.
  apply wp_bind, (wp_active_remove i r c); [done|by intros x; apply (active_exists _ _ _ _ _ Hok)|]. unfold pool_dec_inflight.
  apply wp_bind, (wp_upd i _ _ _ _ (put_lookup i _ s)). rewrite put_put. set (c1 := set_pc_active _ _ _).
  assert (Hc1 : wires c c1) by apply (wires_refl c).
  assert (Hi1 : Inv (r :: F) (closed i P) (put i c1 s)).
  { apply (inv_detach F (closed i (r :: P)) _ s i c c1 r HI Ei); [done|by apply unlink_perm| |done|done|].
    - intros j Hj. by apply pend_closed_ne.
    - rewrite pend_closed. apply (conn_ok_detached _ (r :: P, None) _ i c c1 r Hok Hc1); try done; [by apply unlink_perm|by left|].
      rewrite Hp. split; [done|]. intros h Eh. exists h. by split. }
  assert (HK : keeps s (put i c1 s)) by (apply (keeps_put i c); [done|by apply wires_stays]).
  apply (wp_remains _ F); [done|]. destruct (negb (hr_ok hr) && (hr_status hr =? 0) && (0 <? pr_retries_left q)%nat).
  - apply (wp_rof F _ _ r q); [done|done|congruence].
  - apply (wp_respond F (closed i P) _ r q); [done|done|by apply (i_log _ _ _ _ _ Hi1 r q)|by apply wp_note_alt_svc|].
    intros s2 Hi2 He2 Hr2. destruct (i_float _ _ _ _ _ Hi2 r ltac:(left)) as [q2 Er2].
    eapply (wp_from _ F); [done|exact He2|]. by apply (wp_req_done F _ s2 r q2).
Qed.
(** The session of a connection is replaced in the middle of a call. *)
Lemma inv_session F i P P' o cl s c h' : Inv F (closed i P) s -> p_pcs s !! i = Some c -> pc_proto c = PoolProto_H2 ->
  (exists h, pc_h2 c = Some h /\ o ≡ₚ open h) -> pc_state c <> PoolConnState_Closing ->
  o ≡ₚ (cl ++ open h') -> (P ++ map snd cl) ≡ₚ P' ->
  Inv F (closed i P') (put i (set_pc_h2 (Some h') c) s) /\ keeps s (put i (set_pc_h2 (Some h') c) s).
Proof.
  intros HI Ei Hp (h & Eh & Ho) Hst Hcl HP. pose proof (i_conn _ _ _ _ _ HI i c Ei) as Hok. rewrite pend_closed in Hok. split.
  - apply (inv_move open opened F F (closed i P) _ s i c); try done; [intros j Hj; by apply pend_closed_ne|]. rewrite pend_closed.
    destruct Hok as [A1 A2 A3 A4 A5 A6 A0 A7 A8 A9 A10]. constructor; try done. intros Hp2 Hst2. specialize (A9 Hp2 Hst2). rewrite Eh in A9.
    destruct A9 as [B1 B2]. rewrite Ho in Hcl. cbn. split.
    + rewrite B1, <-HP, Hcl, map_app. cbn. by rewrite app_assoc.
    + intros sid r q Hin. apply B2. rewrite Hcl. apply elem_of_app. by right.
  - apply (keeps_put i c); [done|]. by repeat split.
Qed.
Lemma inv_tcp F D i s c t : Inv F D s -> p_pcs s !! i = Some c -> is_Some t ->
  Inv F D (put i (set_pc_tcp t c) s) /\ keeps s (put i (set_pc_tcp t c) s).
Proof.
  intros HI Ei Ht. pose proof (i_conn _ _ _ _ _ HI i c Ei) as Hok. split; [|by apply (keeps_put i c)].
  apply (inv_move open opened F F D D s i c); try done. destruct Hok as [A1 A2 A3 A4 A5 A6 A0 A7 A8 A9 A10]. constructor; try done.
  cbn. by destruct (pc_proto c); try destruct A7.
Qed.
(** A received chunk: each response is told where it comes. *)
Lemma wp_h2_run F i (x : H2Run h2_session Z) : forall P o s c, Inv F (closed i P) s -> p_pcs s !! i = Some c -> pc_proto c = PoolProto_H2 ->
  pc_state c = PoolConnState_Ready -> (exists h, pc_h2 c = Some h /\ o ≡ₚ open h) -> run_tells open P o x ->
  wp (h2_run decode_content on_user (pool_acquire decode_content on_user) i x) (fun _ s' => remains F quiet s tt s') s.
Proof.
  induction x as [a h|d x IH|h r hr k IH]; intros P o s c HI Ei Hp Hst Hs Hx; cbn [run_tells h2_run] in *.
  - destruct Hx as [-> Ho]. apply wp_bind, (wp_upd i _ c); [done|]. apply wp_ret.
    destruct (inv_session F i [] [] o [] s c h HI Ei Hp Hs ltac:(by rewrite Hst) Ho ltac:(done)) as [Hi HK]. split; [|done].
    apply (inv_pend F (closed i [])); [|done]. intros j. unfold pend. cbn. by destruct (Nat.eqb i j).
  - unfold pool_tcp_send. apply wp_bind, (wp_upd i _ c); [done|].
    pose proof (co_wire _ _ _ _ _ _ (i_conn _ _ _ _ _ HI i c Ei)) as Hw. rewrite Hp in Hw. destruct Hw as [[t Et] _].
    rewrite Et. cbn [fmap option_fmap option_map]. destruct (inv_tcp F _ i s c (Some (tcp_send t d)) HI Ei ltac:(by eexists)) as [Hi HK].
    eapply wp_mono; [exact (IH P o _ _ Hi (put_lookup i _ s) Hp Hst Hs Hx)|]. intros _ s2 [Hi2 HK2]. split; [done|exact (keeps_trans _ _ _ HK HK2)].
  - destruct Hx as (cl & P' & Hcl & HP & Hk). apply wp_bind, (wp_upd i _ c); [done|].
    destruct (inv_session F i P (r :: P') o cl s c h HI Ei Hp Hs ltac:(by rewrite Hst) Hcl HP) as [Hi HK]. set (c1 := set_pc_h2 (Some h) c) in *.
    assert (Hr : r ∈ pc_active c1).
    { pose proof (i_conn _ _ _ _ _ Hi i c1 (put_lookup i c1 s)) as Hok. rewrite pend_closed in Hok.
      pose proof (co_h2 _ _ _ _ _ _ Hok Hp ltac:(cbn; by rewrite Hst)) as B. cbn in B. destruct B as [B _]. change (pc_active c1) with (pc_active c). rewrite B. left. }
    apply wp_bind. eapply wp_mono; [exact (wp_h2_on_response F i P' r hr _ c1 Hi (put_lookup i c1 s) Hp Hr)|].
    intros [] s2 [Hi2 HK2]. destruct (HK2 i c1 (put_lookup i c1 s)) as (c2 & Ei2 & S1 & S2 & S3 & _).
    apply wp_bind, (wp_get_pc i c2); [done|]. destruct (S3 ltac:(by eexists)) as [h2 Eh2]. rewrite Eh2.
    eapply wp_mono; [apply (IH h2 P' (open h2) s2 c2 Hi2 Ei2); [by rewrite S1|by rewrite S2|by exists h2|apply Hk]|].
    intros _ s3 [Hi3 HK3]. split; [done|]. eapply keeps_trans; [exact HK|]. by eapply keeps_trans.
Qed.

(** *** Reading *)
Lemma wp_read i c (Post : bytes -> Pool -> Prop) s : p_pcs s !! i = Some c -> is_Some (pc_tcp c) ->
  (forall data c', rewired c c' -> pc_idle c' = pc_idle c -> Post data (put i c' s)) -> wp (pool_read i) Post s.
Proof.
  intros Ei [t Et] HP. unfold pool_read. apply wp_bind, (wp_get_pc i c); [done|]. rewrite Et. destruct (tcp_read t) as [data t'].
  apply wp_bind, (wp_upd i _ c); [done|]. apply wp_ret, HP; [|done].
  repeat split; try done; apply quic_after_refl.
Qed.
Lemma wp_ploop (round : PM (option bool)) (I : Pool -> Prop) (Post : bool -> Pool -> Prop) s : I s ->
  (forall s, I s -> wp round (fun o s' => match o with None => I s' | Some b => Post b s' end) s) -> (forall s, I s -> Post true s) ->
  wp (ploop round) Post s.
Proof.
  intros Hs Hround Hend. unfold wp, ploop.
  pose proof (loop_pow_inv (fun s => match round s with Some (None, s) => inl s | Some (Some b, s) => inr (Some (b, s)) | None => inr None end)
    I (fun r => match r with Some (b, s') => Post b s' | None => False end)) as HL.
  assert (HS : forall s1, I s1 -> match match round s1 with Some (None, s) => inl s | Some (Some b, s) => inr (Some (b, s)) | None => inr None end with
    inl s' => I s' | inr r => match r with Some (b, s') => Post b s' | None => False end end).
  { intros s1 H1. pose proof (Hround s1 H1) as W. unfold wp in W. by destruct (round s1) as [[[b|] s2]|]. }
  specialize (HL HS 64%nat s Hs).
  destruct (loop_pow _ _ s) as [s1|[[b s1]|]]; [by apply Hend|done|done].
Qed.
Lemma inv_rewired F D s i c c' : Inv F D s -> p_pcs s !! i = Some c -> rewired c c' -> pc_idle c' = pc_idle c ->
  Inv F D (put i c' s) /\ keeps s (put i c' s).
Proof.
  intros HI Ei HR HId. pose proof (i_conn _ _ _ _ _ HI i c Ei) as Hok.
  destruct (inv_put F D s i c c' HI Ei) as [Hi He]; [by rewrite (rewired_reqs _ _ HR)|by apply rewired_after|by apply (conn_ok_rewired _ _ _ c)|].
  split; [done|by apply (keeps_evolves F)].
Qed.
Lemma conn_ok_drain reqs P i c b : conn_ok reqs P i c -> conn_ok reqs P i (set_pc_in_drain b c).
Proof. intros []. by constructor. Qed.
Lemma inv_drain F D s i c b : Inv F D s -> p_pcs s !! i = Some c -> Inv F D (put i (set_pc_in_drain b c) s) /\
  keeps s (put i (set_pc_in_drain b c) s).
Proof.
  intros HI Ei. split; [|by apply (keeps_put i c)]. apply (inv_move open opened F F D D s i c); try done.
  by apply conn_ok_drain, (i_conn _ _ _ _ _ HI).
Qed.
Lemma inv_broken F D s i c : Inv F D s -> p_pcs s !! i = Some c -> Inv F D (put i (set_pc_broken c) s) /\ keeps s (put i (set_pc_broken c) s).
Proof.
  intros HI Ei. split; [|by apply (keeps_put i c)]. apply (inv_move open opened F F D D s i c); try done.
  by apply conn_ok_broken, (i_conn _ _ _ _ _ HI).
Qed.
(** The connection whose bytes are read, between two chunks. *)
Definition in_round F s0 s : Prop := Inv F quiet s /\ keeps s0 s.
Definition after_round F s0 (b : bool) s : Prop := if b then in_round F s0 s else later F quiet s0 s.
Lemma round_ends F s0 s i c0 c1 err : p_pcs s0 !! i = Some c0 -> in_round F s0 s -> p_pcs s !! i = Some c1 ->
  wp (upd_pc i (set_pc_in_drain false);; pool_conn_fail_all on_user (pool_acquire decode_content on_user) i err;; mret (Some false))
    (fun o s' => match o with None => in_round F s0 s' | Some b => after_round F s0 b s' end) s.
Proof.
  intros E0 [HI HK] E1. apply wp_bind, (wp_upd i _ c1); [done|]. destruct (inv_drain F quiet s i c1 false HI E1) as [Hi2 HK2].
  apply wp_bind. eapply wp_mono; [apply (wp_fail_all F quiet _ i _ err eq_refl Hi2 (put_lookup i _ s))|].
  intros [] s3 H3. apply wp_ret. eapply later_trans; [|exact H3]. apply (keeps_later F quiet); [done|by eapply keeps_trans].
Qed.

Lemma wp_h2_round F i s0 c0 s : p_pcs s0 !! i = Some c0 -> pc_proto c0 = PoolProto_H2 -> pc_state c0 = PoolConnState_Ready ->
  in_round F s0 s ->
  wp (pool_h2_drain_round decode_content on_user i)
    (fun o s' => match o with None => in_round F s0 s' | Some b => after_round F s0 b s' end) s.
Proof.
  intros E0 Hp0 Hst0 [HI HK]. destruct (HK i c0 E0) as (c & Ei & Hp & Hst & _). rewrite Hp0 in Hp. rewrite Hst0 in Hst.
  pose proof (i_conn _ _ _ _ _ HI i c Ei) as Hok. pose proof (co_wire _ _ _ _ _ _ Hok) as Hw. rewrite Hp in Hw. destruct Hw as [Hw _].
  pose proof (co_h2 _ _ _ _ _ _ Hok Hp ltac:(by rewrite Hst)) as B. destruct (pc_h2 c) as [h|] eqn:Eh; [|destruct B; congruence].
  unfold pool_h2_drain_round. apply wp_bind, (wp_read i c); [done|done|]. intros data c1 HR HId.
  destruct (inv_rewired F quiet s i c c1 HI Ei HR HId) as [Hi1 HK1].
  destruct (length data =? 0)%nat; [apply wp_ret; split; [done|by eapply keeps_trans]|].
  apply wp_bind, (wp_get_pc i c1); [apply put_lookup|]. pose proof HR as (W & R1 & R2 & R3 & R4 & R5). rewrite R1, Eh.
  pose proof (h2_recv_open open Hh2 h data) as Hx.
  assert (P1 : pc_proto c1 = pc_proto c /\ pc_state c1 = pc_state c) by (destruct W as (P1 & _ & P3 & _); by split). destruct P1 as [P1 P2].
  assert (Hi2 : Inv F (closed i []) (put i c1 s)).
  { apply (inv_pend F quiet); [|done]. intros j. unfold pend. cbn. by destruct (Nat.eqb i j). }
  apply wp_bind. eapply wp_mono; [apply (wp_h2_run F i _ [] (open h) _ c1 Hi2 (put_lookup i c1 s)); [congruence|congruence|by exists h; rewrite R1|done]|].
  intros rv s4 [Hi4 HK4]. assert (H4 : in_round F s0 s4).
  { split; [done|]. eapply keeps_trans; [exact HK|]. by eapply keeps_trans. }
  pose proof H4 as [_ HK5]. destruct (HK5 i c0 E0) as (c4 & Ei4 & _).
  destruct (rv <? 0); [by apply (round_ends F s0 s4 i c0 c4)|]. apply wp_bind, (wp_get_pc i c4); [done|].
  destruct (bool_decide _ || _); by apply wp_ret.
Qed.
Lemma keeps_lates F s s1 (m : PM unit) : Inv F quiet s1 -> keeps s s1 -> wp m (lates F quiet s1) s1 -> wp m (lates F quiet s) s1.
Proof. intros HI HK. apply (wp_later F F quiet quiet). by apply keeps_later. Qed.
Lemma wp_h2_drain F i s c : Inv F quiet s -> p_pcs s !! i = Some c -> pc_proto c = PoolProto_H2 -> pc_state c <> PoolConnState_Handshaking ->
  wp (pool_h2_drain decode_content on_user i) (lates F quiet s) s.
Proof.
  intros HI Ei Hp Hst. unfold pool_h2_drain. apply wp_bind, (wp_get_pc i c); [done|].
  case_bool_decide as Hcl; [by apply wp_ret, later_refl|]. assert (Hr : pc_state c = PoolConnState_Ready) by (by destruct (pc_state c)).
  apply wp_bind, (wp_upd i _ c); [done|]. destruct (inv_drain F quiet s i c true HI Ei) as [Hi1 HK1].
  set (s1 := put i _ s) in *. apply wp_bind.
  eapply wp_mono; [apply (wp_ploop _ (in_round F s) (after_round F s)); [by split| |done]|].
  { intros s2 H2. by apply (wp_h2_round F i s c). }
  intros [] s2 H2; cbn [negb]; [|by apply wp_ret]. destruct H2 as [Hi2 HK2]. destruct (HK2 i c Ei) as (c2 & Ei2 & _).
  apply wp_bind, (wp_upd i _ c2); [done|]. destruct (inv_drain F quiet s2 i c2 false Hi2 Ei2) as [Hi3 HK3].
  set (s3 := put i _ s2) in *. set (c3 := set_pc_in_drain false c2) in *. assert (Ei3 : p_pcs s3 !! i = Some c3) by apply put_lookup.
  apply wp_bind, (wp_get_pc i c3); [done|].
  assert (HK03 : keeps s s3) by (by eapply keeps_trans). apply wp_bind.
  destruct (match pc_h2 c3 with Some h => h2_goaway h | None => false end); cbn [pwhen].
  - apply (wp_upd i _ c3); [done|]. destruct (inv_broken F quiet s3 i c3 Hi3 Ei3) as [Hi4 HK4].
    apply keeps_lates; [done|by eapply keeps_trans|]. by apply (wp_flush_idle F quiet _ i _ eq_refl Hi4 (put_lookup i _ s3)).
  - apply wp_ret, keeps_lates; [done|done|]. by apply (wp_flush_idle F quiet _ i c3).
Qed.

(** *** Ready and closed *)
Lemma conn_ok_set_h2 reqs P i c h : conn_ok reqs P i c -> pc_state c = PoolConnState_Handshaking -> open h = [] -> P.1 = [] ->
  conn_ok reqs P i (set_pc_h2 (Some h) c).
Proof.
  intros Hok Hst Ho HP. destruct (co_handshaking _ _ _ _ _ _ Hok Hst) as [Ha _]. destruct Hok as [A1 A2 A3 A4 A5 A6 A0 A7 A8 A9 A10].
  constructor; try done. intros _ _. cbn. rewrite Ha, HP, Ho. split; [done|]. intros sid r q Hin. by apply elem_of_nil in Hin.
Qed.
Lemma conn_ok_ready reqs P i c : conn_ok reqs P i c -> pc_state c = PoolConnState_Handshaking ->
  (pc_proto c = PoolProto_H2 -> is_Some (pc_h2 c)) ->
  forall hc, match pc_proto c with PoolProto_H3 => exists h, hc = Some h /\ hc_streams h = [] | _ => hc = None end ->
  conn_ok reqs P i (set_pc_state PoolConnState_Ready (set_pc_h3c hc c)).
Proof.
  intros Hok Hst H2 hc Hhc. destruct (co_handshaking _ _ _ _ _ _ Hok Hst) as [Ha _]. destruct Hok as [A1 A2 A3 A4 A5 A6 A0 A7 A8 A9 A10].
  constructor; try done; cbn.
  - destruct (pc_proto c); [|done|]; destruct A7; by split.
  - intros Hp _. specialize (A9 Hp ltac:(by rewrite Hst)). by destruct (pc_h2 c); [|destruct (H2 Hp)].
  - intros Hp _. rewrite Hp in Hhc, A7. destruct Hhc as (h & -> & Hs). destruct A7 as [x Ex]. exists h, x. rewrite Ha, Hs.
    repeat (split; [done|]). split; [cbn; unfold POOL_H3_MAX_CONCURRENT; lia|]. split; intros r; intros; exfalso; by eapply not_elem_of_nil.
Qed.
Lemma set_h3c_id c : set_pc_h3c (pc_h3c c) c = c.
Proof. by destruct c. Qed.
Lemma inv_ready F D s i c c' : Inv F D s -> p_pcs s !! i = Some c -> reqs_of c' = reqs_of c -> conn_ok (p_reqs s) (pend D i) i c' ->
  pc_quic c' = pc_quic c -> pc_proto c' = pc_proto c -> later F D s (put i c' s).
Proof.
  intros HI Ei E1 Hok Eq Ep. apply (later_put F D s i c c' Ei Eq Ep). apply (inv_move open opened F F D D s i c c'); try done. by rewrite E1.
Qed.
Lemma wp_h2_on_ready F i s c err : Inv F quiet s -> p_pcs s !! i = Some c -> pc_proto c = PoolProto_H2 ->
  (err = None -> pc_state c = PoolConnState_Handshaking) ->
  wp (pool_h2_on_ready decode_content on_user h2req_start i err) (lates F quiet s) s.
Proof.
  intros HI Ei Hp Hst. destruct err as [e|]; [by apply (wp_fail_all F quiet s i c)|]. specialize (Hst eq_refl).
  pose proof (i_conn _ _ _ _ _ HI i c Ei) as Hok. pose proof (co_wire _ _ _ _ _ _ Hok) as Hw. rewrite Hp in Hw. destruct Hw as [[t Et] _].
  unfold pool_h2_on_ready. apply wp_bind, (wp_get_pc i c); [done|]. rewrite Et.
  destruct (negb _); [by apply (wp_fallback F quiet s i c)|]. destruct h2_alloc as [h|] eqn:Eh; [|by apply (wp_fail_all F quiet s i c)].
  destruct (h2_start h) as [[ok h'] sends] eqn:Es. pose proof (h2_start_open open Hh2 _ _ _ _ Eh Es) as Ho.
  apply wp_bind, (wp_upd i _ c); [done|]. set (c1 := set_pc_h2 (Some h') c). apply wp_bind.
  assert (Hok1 : conn_ok (p_reqs s) (pend quiet i) i c1) by (by apply conn_ok_set_h2).
  assert (Hnext : forall c2, rewired c1 c2 -> pc_idle c2 = pc_idle c1 ->
    wp (if negb ok then pool_conn_fail_all on_user (pool_acquire decode_content on_user) i (lit "h2 session init failed")
        else upd_pc i (set_pc_state PoolConnState_Ready);; pool_flush_waiting decode_content on_user i;; pool_h2_drain decode_content on_user i)
      (lates F quiet s) (put i c2 s)).
  { intros c2 HR HId. assert (Hok2 : conn_ok (p_reqs s) (pend quiet i) i c2) by (by apply (conn_ok_rewired _ _ _ c1)).
    destruct HR as (W & R1 & R2 & R3 & R4 & R5). destruct W as (W1 & W2 & W3 & W4 & W5 & W6 & W7).
    assert (HL2 : later F quiet s (put i c2 s)).
    { assert (HI2 : Inv F quiet (put i c2 s)).
      { apply (inv_move open opened F F quiet quiet s i c c2); try done. unfold reqs_of. by rewrite R3, R4. }
      apply keeps_later; [done|]. apply (keeps_put i c); [done|]. repeat split; [done|done|rewrite R1; by eexists|by rewrite R2|].
      by apply quic_after_recv. }
    eapply wp_later; [exact HL2|]. destruct HL2 as [HI2 _]. destruct ok; cbn [negb].
    2:{ by apply (wp_fail_all F quiet _ i c2 _ eq_refl HI2 (put_lookup i c2 s)). }
    apply wp_bind, (wp_upd i _ c2); [apply put_lookup|]. set (c3 := set_pc_state _ c2).
    assert (Hok3 : conn_ok (p_reqs s) (pend quiet i) i c3).
    { assert (E3 : pc_h3c c2 = None) by (rewrite R2; by destruct (co_handshaking _ _ _ _ _ _ Hok Hst)).
      unfold c3. rewrite <-(set_h3c_id c2), E3. apply (conn_ok_ready _ _ _ _ Hok2).
      - by rewrite W3.
      - intros _. rewrite R1. by eexists.
      - rewrite W1. cbn. by rewrite Hp. }
    pose proof (inv_ready F quiet (put i c2 s) i c2 c3 HI2 (put_lookup i c2 s) eq_refl Hok3 eq_refl eq_refl) as HL3.
    eapply wp_later; [exact HL3|]. destruct HL3 as [HI3 _]. rewrite put_put in *. apply (wp_ends_then _ _ F F quiet quiet).
    eapply wp_mono; [apply (wp_flush F quiet _ i c3 eq_refl HI3 (put_lookup i c3 s))|]. intros [] s4 [Hi4 He4]. split; [done|].
    pose proof He4 as (He4' & _). destruct (He4' i c3 (put_lookup i c3 s)) as (c4 & Ei4 & P1 & _ & P3 & _).
    apply (wp_h2_drain F i s4 c4 Hi4 Ei4); [rewrite P1; cbn; by rewrite W1|by rewrite P3]. }
  apply (wp_tcp_sends i sends _ _ c1); [apply put_lookup| |].
  - intros c2 HR HId. rewrite put_put. by apply Hnext.
  - intros _. apply Hnext; [|done]. split; [apply wires_refl|done].
Qed.
Lemma wp_on_closed F i s c e : Inv F quiet s -> p_pcs s !! i = Some c ->
  wp (c ← get_pc i; if bool_decide (pc_state c = PoolConnState_Closing) then pskip
      else pool_conn_fail_all on_user (pool_acquire decode_content on_user) i e) (lates F quiet s) s.
Proof.
  intros HI Ei. apply wp_bind, (wp_get_pc i c); [done|]. case_bool_decide; [by apply wp_ret, later_refl|].
  by apply (wp_fail_all F quiet s i c).
Qed.

(** *** HTTP/1.1 *)
Lemma wp_h1_on_response F i r hr s c : Inv F quiet s -> p_pcs s !! i = Some c -> pc_proto c = PoolProto_H1 ->
  r ∈ pc_active c -> wp (pool_h1_on_response decode_content on_user r hr) (remains F quiet s) s.
Proof.
  intros HI Ei Hp Hr. pose proof (i_conn _ _ _ _ _ HI i c Ei) as Hok.
  destruct (in_queue F quiet s i c r eq_refl HI Ei) as (q & Er & Hpc & _ & Hf & _); [apply elem_of_app; by right|].
  unfold pool_h1_on_response. apply wp_bind, (wp_get_req r q); [done|]. rewrite Hf, Hpc.
  apply wp_bind, (wp_active_remove i r c); [done|by intros x; apply (active_exists _ _ _ _ _ Hok)|]. unfold pool_dec_inflight.
  apply wp_bind, (wp_upd i _ _ _ _ (put_lookup i _ s)). rewrite put_put. set (c1 := set_pc_active _ _ _).
  assert (Hc1 : wires c c1) by apply (wires_refl c).
  assert (Hi1 : Inv (r :: F) quiet (put i c1 s)).
  { apply (inv_detach F quiet _ s i c c1 r HI Ei); [done|by apply unlink_perm|done|done|done|].
    apply (conn_ok_detached _ (pend quiet i) _ i c c1 r Hok Hc1); try done; [by apply unlink_perm|by left|]. by rewrite Hp. }
  assert (HK : keeps s (put i c1 s)) by (apply (keeps_put i c); [done|by apply wires_stays]).
  destruct (negb (H1.r_ok hr) && (H1.r_status hr =? 0) && (0 <? pr_retries_left q)%nat).
  - apply (wp_remains _ F); [done|]. apply (wp_rof F _ _ r q); [done|done|congruence].
  - apply (wp_respond F quiet _ r q); [done|done|by apply (i_log _ _ _ _ _ Hi1 r q)|by apply wp_note_alt_svc|].
    intros s2 Hi2 He2 Hr2. destruct (i_float _ _ _ _ _ Hi2 r ltac:(left)) as [q2 Er2].
    pose proof He2 as (He2' & _). destruct (He2' i c1 (put_lookup i c1 s)) as (c2 & Ei2 & _).
    apply wp_bind, (wp_get_pc i c2); [done|]. apply wp_bind. eapply wp_mono; [by apply (wp_req_done F quiet s2 r q2)|].
    intros [] s3 [Hi3 He3]. assert (HK3 : keeps s s3).
    { eapply keeps_trans; [exact HK|]. eapply keeps_trans; by eapply keeps_evolves. }
    destruct (negb _); cbn [pwhen]; [|by apply wp_ret]. pose proof He3 as (He3' & _). destruct (He3' i c2 Ei2) as (c3 & Ei3 & _).
    apply (wp_upd i _ c3); [done|]. destruct (inv_broken F quiet s3 i c3 Hi3 Ei3) as [Hi4 HK4]. split; [done|by eapply keeps_trans].
Qed.
Lemma wp_h1_responses F i r l s c : Inv F quiet s -> p_pcs s !! i = Some c -> pc_proto c = PoolProto_H1 -> r ∈ pc_active c ->
  (length l <= 1)%nat -> wp (h1_responses decode_content on_user r l) (remains F quiet s) s.
Proof.
  intros HI Ei Hp Hr Hl. destruct l as [|hr [|]]; [by split; [|apply keeps_refl]| |by (cbn in Hl; lia)]. cbn [h1_responses].
  apply wp_bind. eapply wp_mono; [by apply (wp_h1_on_response F i r hr s c)|]. by intros [] s1 H1.
Qed.
(** The session of a request in flight goes on. *)
Lemma inv_h1 F s r q h h' : Inv F quiet s -> p_reqs s !! r = Some q -> pr_responded q = false -> r ∉ F -> pr_h1 q = Some h -> (out_inv h -> out_inv h') ->
  Inv F quiet (putr r (set_pr_h1 (Some h') q) s) /\ keeps s (putr r (set_pr_h1 (Some h') q) s).
Proof.
  intros HI Er Hf HF Eh Ho. split; [|intros i c Ec; exists c; by repeat split].
  apply (inv_queued_req open opened F quiet s r q); try done. unfold similar. cbn. repeat split; try done.
  intros h0 E0 H0. exists h'. split; [done|]. apply Ho. congruence.
Qed.

Lemma out_inv_one (h h' : H1Session phr_chunk) : out_inv h' -> (length (drop (length (h1_out h)) (h1_out h')) <= 1)%nat.
Proof. unfold out_inv. rewrite length_drop. destruct (h1_delivered h'); lia. Qed.
(** The response the session gave with [h'], if it gave one. *)
Lemma wp_h1_outs F i r q h h' s c : Inv F quiet s -> p_pcs s !! i = Some c -> pc_proto c = PoolProto_H1 -> r ∈ pc_active c ->
  p_reqs s !! r = Some q -> pr_h1 q = Some h -> (out_inv h -> out_inv h') ->
  wp (upd_req r (set_pr_h1 (Some h'));; h1_responses decode_content on_user r (drop (length (h1_out h)) (h1_out h'))) (remains F quiet s) s.
Proof.
  intros HI Ei Hp Hr Er Eh Ho. pose proof (i_conn _ _ _ _ _ HI i c Ei) as Hok.
  destruct (in_queue F quiet s i c r eq_refl HI Ei) as (q2 & Er2 & _ & _ & Hf & _); [apply elem_of_app; by right|].
  assert (q2 = q) as -> by congruence.
  destruct (co_h1 _ _ _ _ _ _ Hok Hp) as [_ Ha]. destruct (Ha r Hr) as (q3 & h3 & E3 & Eh3 & Ho3).
  assert (q3 = q) as -> by congruence. assert (h3 = h) as -> by congruence.
  assert (HF : r ∉ F).
  { intros HF. apply (i_float_free _ _ _ _ _ HI r i c HF Ei), elem_of_app. by right. }
  destruct (inv_h1 F s r q h h' HI Er Hf HF Eh Ho) as [Hi1 HK1]. apply wp_bind, (wp_updr r _ q); [done|].
  eapply wp_mono; [apply (wp_h1_responses F i r _ _ c Hi1 Ei Hp Hr); by apply out_inv_one, Ho|].
  intros [] s2 [Hi2 HK2]. split; [done|exact (keeps_trans _ _ _ HK1 HK2)].
Qed.
Lemma wp_bind_assoc {A B C} (m : PM A) (f : A -> PM B) (g : B -> PM C) Post s :
  wp (y ← (x ← m; f x); g y) Post s -> wp (x ← m; y ← f x; g y) Post s.
Proof. unfold wp, mbind, PS_bind. by destruct (m s) as [[x s']|]. Qed.
Lemma in_round_stale F s0 r s : in_round F s0 s -> in_round F s0 (add_p_stale r s).
Proof. intros [[] HK]. split; [by constructor|exact HK]. Qed.
Lemma wp_h1_round F i s0 c0 s : p_pcs s0 !! i = Some c0 -> pc_proto c0 = PoolProto_H1 -> in_round F s0 s ->
  wp (pool_h1_drain_round decode_content on_user i)
    (fun o s' => match o with None => in_round F s0 s' | Some b => after_round F s0 b s' end) s.
Proof.
  intros E0 Hp0 [HI HK]. destruct (HK i c0 E0) as (c & Ei & Hp & _). rewrite Hp0 in Hp.
  pose proof (i_conn _ _ _ _ _ HI i c Ei) as Hok. pose proof (co_wire _ _ _ _ _ _ Hok) as Hw. rewrite Hp in Hw. destruct Hw as [Hw _].
  unfold pool_h1_drain_round. apply wp_bind, (wp_read i c); [done|done|]. intros data c1 HR HId.
  destruct (inv_rewired F quiet s i c c1 HI Ei HR HId) as [Hi1 HK1].
  assert (HR1 : in_round F s0 (put i c1 s)) by (split; [done|by eapply keeps_trans]).
  destruct (length data =? 0)%nat; [by apply wp_ret|]. apply wp_bind, (wp_get_pc i c1); [apply put_lookup|].
  pose proof (i_conn _ _ _ _ _ Hi1 i c1 (put_lookup i c1 s)) as Hok1.
  destruct HR as (W & R1 & R2 & R3 & R4 & R5). assert (Hp1 : pc_proto c1 = PoolProto_H1) by (destruct W as (-> & _); done).
  destruct (pc_active c1) as [|r l] eqn:Ea; [by apply wp_ret|].
  assert (Hr : r ∈ pc_active c1) by (rewrite Ea; left).
  destruct (co_h1 _ _ _ _ _ _ Hok1 Hp1) as [_ Ha]. destruct (Ha r Hr) as (q & h & Er & Eh & Ho).
  apply wp_bind, (wp_get_req r q); [done|]. rewrite Eh.
  pose proof (out_inv_recv phr_chunk_zero phr_consume_trailer phr_parse phr_decode h data) as Hrecv.
  destruct (h1_session_recv _ _ _ _ _) as [rv h']. cbn [snd] in Hrecv.
  apply wp_bind_assoc, wp_bind. eapply wp_mono; [exact (wp_h1_outs F i r q h h' _ c1 Hi1 (put_lookup i c1 s) Hp1 Hr Er Eh Hrecv)|]. intros [] s2 [Hi2 HK2].
  assert (HR2' : in_round F s0 s2) by (split; [done|destruct HR1 as [_ HR1]; exact (keeps_trans _ _ _ HR1 HK2)]).
  apply wp_bind, (wp_mono (pwhen _ _) (fun _ s' => in_round F s0 s')).
  { destruct (_ && _); cbn [pwhen]; [apply wp_pupd; by apply in_round_stale|by apply wp_ret]. }
  intros [] s3 HR2. clear s2 Hi2 HK2 HR2'. rename s3 into s2.
  pose proof HR2 as [_ HK02]. destruct (HK02 i c0 E0) as (c2 & Ei2 & _).
  destruct rv as [n|]; [|by apply (round_ends F s0 s2 i c0 c2)].
  apply wp_bind, (wp_get_pc i c2); [done|]. destruct (bool_decide _ || _); by apply wp_ret.
Qed.
Lemma wp_h1_drain F i s c : Inv F quiet s -> p_pcs s !! i = Some c -> pc_proto c = PoolProto_H1 ->
  wp (pool_h1_drain decode_content on_user i) (lates F quiet s) s.
Proof.
  intros HI Ei Hp. unfold pool_h1_drain. apply wp_bind, (wp_get_pc i c); [done|].
  destruct (bool_decide (pc_state c = PoolConnState_Closing)); [by apply wp_ret, later_refl|].
  apply wp_bind, (wp_upd i _ c); [done|]. destruct (inv_drain F quiet s i c true HI Ei) as [Hi1 HK1].
  set (s1 := put i _ s) in *. apply wp_bind.
  eapply wp_mono; [apply (wp_ploop _ (in_round F s) (after_round F s)); [by split| |done]|].
  { intros s2 H2. by apply (wp_h1_round F i s c). }
  intros [] s2 H2; cbn [negb]; [|by apply wp_ret]. destruct H2 as [Hi2 HK2]. destruct (HK2 i c Ei) as (c2 & Ei2 & _).
  apply wp_bind, (wp_upd i _ c2); [done|]. destruct (inv_drain F quiet s2 i c2 false Hi2 Ei2) as [Hi3 HK3].
  apply keeps_lates; [done|by eapply keeps_trans|]. by apply (wp_flush_idle F quiet _ i _ eq_refl Hi3 (put_lookup i _ s2)).
Qed.
Lemma wp_h1_on_ready F i s c err : Inv F quiet s -> p_pcs s !! i = Some c -> pc_proto c = PoolProto_H1 ->
  (err = None -> pc_state c = PoolConnState_Handshaking) -> wp (pool_h1_on_ready decode_content on_user i err) (lates F quiet s) s.
Proof.
  intros HI Ei Hp Hst. destruct err as [e|]; [by apply (wp_fail_all F quiet s i c)|]. specialize (Hst eq_refl).
  pose proof (i_conn _ _ _ _ _ HI i c Ei) as Hok. pose proof (co_wire _ _ _ _ _ _ Hok) as Hw. rewrite Hp in Hw. destruct Hw as [[t Et] E3].
  unfold pool_h1_on_ready. apply wp_bind, (wp_get_pc i c); [done|]. rewrite Et.
  destruct (_ && _); [by apply (wp_fail_all F quiet s i c)|]. apply wp_bind, (wp_upd i _ c); [done|]. set (c1 := set_pc_state _ c).
  assert (Hok1 : conn_ok (p_reqs s) (pend quiet i) i c1).
  { unfold c1. rewrite <-(set_h3c_id c), E3. apply (conn_ok_ready _ _ _ _ Hok Hst); [congruence|by rewrite Hp]. }
  pose proof (inv_ready F quiet s i c c1 HI Ei eq_refl Hok1 eq_refl eq_refl) as HL. eapply wp_later; [exact HL|]. destruct HL as [HI1 _].
  apply wp_lates. by apply (wp_flush F quiet _ i c1 eq_refl HI1 (put_lookup i c1 s)).
Qed.
Lemma wp_h1_on_closed F i s c e : Inv F quiet s -> p_pcs s !! i = Some c -> pc_proto c = PoolProto_H1 ->
  wp (pool_h1_on_closed decode_content on_user i e) (lates F quiet s) s.
Proof.
  intros HI Ei Hp. unfold pool_h1_on_closed. apply wp_bind, (wp_get_pc i c); [done|].
  destruct (bool_decide (pc_state c = PoolConnState_Closing)); [by apply wp_ret, later_refl|]. apply wp_bind.
  pose proof (i_conn _ _ _ _ _ HI i c Ei) as Hok.
  destruct (pc_active c) as [|r l] eqn:Ea; [by apply wp_ret, (wp_fail_all F quiet s i c)|].
  assert (Hr : r ∈ pc_active c) by (rewrite Ea; left).
  destruct (co_h1 _ _ _ _ _ _ Hok Hp) as [_ Ha]. destruct (Ha r Hr) as (q & h & Er & Eh & Ho).
  apply wp_bind, (wp_get_req r q); [done|]. rewrite Eh.
  eapply wp_mono; [apply (wp_h1_outs F i r q h (h1_session_eof h) s c HI Ei Hp Hr Er Eh)|].
  - intros H0. by apply (out_inv_step phr_chunk_zero phr_consume_trailer phr_parse phr_decode h h1_end).
  - intros [] s2 [Hi2 HK2]. destruct (HK2 i c Ei) as (c2 & Ei2 & _). apply keeps_lates; [done|done|].
    by apply (wp_fail_all F quiet s2 i c2).
Qed.

(** *** HTTP/3 *)
Lemma wp_h3_find sid : forall l i s (Post : option (nat * nat) -> Pool -> Prop), (forall r, r ∈ l -> is_Some (p_reqs s !! r)) ->
  (forall o, match o with
             | Some (j, r) => exists k q, j = (i + k)%nat /\ l !! k = Some r /\ p_reqs s !! r = Some q /\ pr_h3_stream_id q = sid
             | None => forall r q, r ∈ l -> p_reqs s !! r = Some q -> pr_h3_stream_id q <> sid
             end -> Post o s) -> wp (pool_h3_find l sid i) Post s.
Proof.
  induction l as [|r l IH]; intros i s Post Hl HP; cbn [pool_h3_find].
  { apply wp_ret, HP. intros r q Hr. by apply elem_of_nil in Hr. }
  destruct (Hl r ltac:(left)) as [q Er]. apply wp_bind, (wp_get_req r q); [done|]. destruct (Z.eqb_spec (pr_h3_stream_id q) sid) as [E|E].
  - apply wp_ret, HP. exists O, q. split; [lia|done].
  - apply IH; [intros x Hx; apply Hl; by right|]. intros [[j x]|] Ho; apply HP.
    + destruct Ho as (k & qx & -> & H1 & H2 & H3). exists (S k), qx. split; [lia|done].
    + intros x qx Hx Ex. apply elem_of_cons in Hx as [->|Hx]; [congruence|by apply (Ho x)].
Qed.
Lemma ready_h3 reqs P i c r : conn_ok reqs P i c -> pc_proto c = PoolProto_H3 -> r ∈ pc_active c -> pc_state c = PoolConnState_Ready /\
  exists hc, pc_h3c c = Some hc /\ hc_streams hc ≡ₚ pc_active c /\
    (forall r1 r2 q1 q2, r1 ∈ pc_active c -> r2 ∈ pc_active c -> reqs !! r1 = Some q1 -> reqs !! r2 = Some q2 ->
        pr_h3_stream_id q1 = pr_h3_stream_id q2 -> r1 = r2).
Proof.
  intros Hok Hp Hr. assert (Hst : pc_state c = PoolConnState_Ready).
  { destruct (pc_state c) eqn:Hst; [|done|].
    - destruct (co_handshaking _ _ _ _ _ _ Hok Hst) as [Ha _]. rewrite Ha in Hr. by apply elem_of_nil in Hr.
    - pose proof (co_closing _ _ _ _ _ _ Hok Hst) as E. unfold reqs_of in E. apply app_nil in E as [_ E]. rewrite E in Hr.
      by apply elem_of_nil in Hr. }
  split; [done|]. destruct (co_h3 _ _ _ _ _ _ Hok Hp Hst) as (hc & x & B1 & _ & B3 & _ & _ & B6). by exists hc.
Qed.
Lemma wp_h3_remove i c r q P (Post : unit -> Pool -> Prop) s : p_pcs s !! i = Some c -> conn_ok (p_reqs s) P i c -> pc_proto c = PoolProto_H3 ->
  r ∈ pc_active c -> p_reqs s !! r = Some q ->
  (forall hc l, pc_h3c c = Some hc -> hc_streams hc ≡ₚ (r :: l) -> Post tt (put i (set_pc_h3c (Some (set_hc_streams l hc)) c) s)) ->
  wp (pool_h3_remove_stream i (pr_h3_stream_id q)) Post s.
Proof.
  intros Ei Hok Hp Hr Er HP. destruct (ready_h3 _ _ _ _ r Hok Hp Hr) as (Hst & hc & Eh & Hs & Hu).
  unfold pool_h3_remove_stream. apply wp_bind, (wp_get_pc i c); [done|]. rewrite Eh. apply wp_bind.
  apply wp_h3_find; [intros x Hx; rewrite Hs in Hx; by apply (active_exists _ _ _ _ _ Hok)|]. intros [[j x]|] Ho.
  - destruct Ho as (k & qx & -> & H1 & H2 & H3). assert (x = r) as ->.
    { apply (Hu x r qx q); try done. rewrite <-Hs. by apply (list_elem_of_lookup_2 _ k). }
    apply (wp_upd_h3c _ i c hc); [done|done|]. apply HP; [done|]. by apply swap_remove_at_perm.
  - exfalso. apply (Ho r q); [by rewrite Hs|done|done].
Qed.
Lemma wp_h3_finish F i r s c q : Inv F quiet s -> p_pcs s !! i = Some c -> pc_proto c = PoolProto_H3 ->
  r ∈ pc_active c -> p_reqs s !! r = Some q -> wp (pool_h3_finish decode_content on_user i r) (remains F quiet s) s.
Proof.
  intros HI Ei Hp Hr Er. pose proof (i_conn _ _ _ _ _ HI i c Ei) as Hok.
  destruct (ready_h3 _ _ _ _ r Hok Hp Hr) as (Hst & hc & Eh & Hs & Hu).
  destruct (in_queue F quiet s i c r eq_refl HI Ei) as (q2 & Er2 & Hpc & _ & Hf & _); [apply elem_of_app; by right|].
  assert (q2 = q) as -> by congruence.
  unfold pool_h3_finish. apply wp_bind, (wp_get_pc i c); [done|]. apply wp_bind, (wp_get_req r q); [done|]. rewrite Eh, Hf.
  apply wp_bind, (wp_h3_remove i c r q (pend quiet i)); [done|done|done|done|done|]. intros hc1 l E1 Hl. assert (hc1 = hc) as -> by congruence.
  set (c1 := set_pc_h3c _ c).
  apply wp_bind, (wp_active_remove i r c1); [apply put_lookup|intros x; by apply (active_exists _ _ _ _ _ Hok)|].
  unfold pool_dec_inflight. apply wp_bind, (wp_upd i _ _ _ _ (put_lookup i _ _)). rewrite !put_put.
  destruct (parse_response _ _ _) as [[[status headers] qdec] body].
  apply wp_bind. eapply wp_upd_h3c; [apply put_lookup|reflexivity|]. rewrite put_put. set (c2 := set_pc_h3c _ _).
  assert (Hc2 : wires c c2) by apply (wires_refl c).
  assert (Hi1 : Inv (r :: F) quiet (put i c2 s)).
  { apply (inv_detach F quiet _ s i c c2 r HI Ei); [done|by apply unlink_perm|done|done|done|].
    apply (conn_ok_detached _ (pend quiet i) _ i c c2 r Hok Hc2); try done; [by apply unlink_perm|by left|]. rewrite Hp.
    intros hc2 E2. assert (hc2 = hc) as -> by congruence. eexists. split; [reflexivity|]. exact Hl. }
  assert (HK : keeps s (put i c2 s)).
  { apply (keeps_put i c); [done|]. apply wires_stays; [done|done|]. intros _. by eexists. }
  apply (wp_remains _ F); [done|]. destruct ((status =? 0) && (0 <? pr_retries_left q)%nat).
  - apply (wp_rof F _ _ r q); [done|done|congruence].
  - apply (wp_respond0 F quiet _ r q); [done|done|by apply (i_log _ _ _ _ _ Hi1 r q)|].
    intros s2 Hi2 He2 Hr2. destruct (i_float _ _ _ _ _ Hi2 r ltac:(left)) as [q3 Er3].
    eapply (wp_from _ F); [done|exact He2|]. by apply (wp_req_done F _ s2 r q3).
Qed.

Lemma inv_h3_in F i c s r q b fin : Inv F quiet s -> p_pcs s !! i = Some c -> r ∈ pc_active c -> p_reqs s !! r = Some q ->
  Inv F quiet (putr r (set_pr_h3 (pr_h3_stream_id q) b fin q) s) /\ keeps s (putr r (set_pr_h3 (pr_h3_stream_id q) b fin q) s).
Proof.
  intros HI Ei Hr Er. split; [|intros j d Ed; exists d; by repeat split]. apply (inv_queued_req open opened F quiet s r q); try done.
  - unfold similar. cbn. repeat split; eauto.
  - intros HF. destruct (i_float_free _ _ _ _ _ HI r i c HF Ei). apply elem_of_app. by right.
Qed.
Lemma wp_h3_find_stream i c hc sid (Post : option nat -> Pool -> Prop) s : conn_ok (p_reqs s) (pend quiet i) i c -> pc_proto c = PoolProto_H3 ->
  pc_h3c c = Some hc -> pc_state c = PoolConnState_Ready ->
  (forall o, match o with Some r => r ∈ pc_active c | None => True end -> Post o s) -> wp (pool_h3_find_stream hc sid) Post s.
Proof.
  intros Hok Hp Eh Hst HP. destruct (streams_active _ _ _ _ _ Hok Hp Hst Eh) as [Hs _]. unfold pool_h3_find_stream.
  apply wp_bind, wp_h3_find; [intros x Hx; rewrite Hs in Hx; by apply (active_exists _ _ _ _ _ Hok)|].
  intros [[j r]|] Ho; apply wp_ret, HP; cbn; [|done]. destruct Ho as (k & q & _ & H1 & _). rewrite <-Hs. by apply (list_elem_of_lookup_2 _ k).
Qed.
(** What an update of the HTTP/3 state leaves. *)
Lemma inv_h3c F s i c hc hc' : Inv F quiet s -> p_pcs s !! i = Some c -> pc_proto c = PoolProto_H3 -> pc_h3c c = Some hc ->
  hc_streams hc' = hc_streams hc -> Inv F quiet (put i (set_pc_h3c (Some hc') c) s) /\ keeps s (put i (set_pc_h3c (Some hc') c) s).
Proof.
  intros HI Ei Hp Eh Hs. pose proof (streamed_h3c c hc hc' Eh Hs) as HS.
  destruct (inv_put F quiet s i c _ HI Ei ltac:(by rewrite (streamed_reqs _ _ HS)) (streamed_after _ _ HS)) as [Hi He].
  - apply (conn_ok_streamed _ _ _ c); [by apply (i_conn _ _ _ _ _ HI)|done|done].
  - split; [done|by apply (keeps_evolves F)].
Qed.
Lemma wp_remains_trans m F s s1 : keeps s s1 -> wp m (remains F quiet s1) s1 -> wp m (remains F quiet s) s1.
Proof. intros HK H. eapply wp_mono; [exact H|]. intros [] s2 [Hi HK2]. split; [done|exact (keeps_trans _ _ _ HK HK2)]. Qed.
Lemma wp_h3_on_stream_data F i s c sid data fin : Inv F quiet s -> p_pcs s !! i = Some c -> pc_proto c = PoolProto_H3 ->
  pc_state c <> PoolConnState_Closing -> wp (pool_h3_on_stream_data decode_content on_user i sid data fin) (remains F quiet s) s.
Proof.
  intros HI Ei Hp Hcl. pose proof (i_conn _ _ _ _ _ HI i c Ei) as Hok. unfold pool_h3_on_stream_data.
  apply wp_bind, (wp_get_pc i c); [done|]. destruct (pc_h3c c) as [hc|] eqn:Eh; [|by apply wp_ret; split; [|apply keeps_refl]].
  assert (Hst : pc_state c = PoolConnState_Ready).
  { destruct (pc_state c) eqn:Hst; [|done|done]. destruct (co_handshaking _ _ _ _ _ _ Hok Hst). congruence. }
  apply wp_bind. apply (wp_h3_find_stream i c hc); try done. intros [r|] Ho.
  - destruct (active_exists _ _ _ _ _ Hok Ho) as [q Er]. apply wp_bind, (wp_updr r _ q); [done|].
    destruct (inv_h3_in F i c s r q (u8buf_append (pr_h3_in q) data) (pr_h3_fin q) HI Ei Ho Er) as [Hi1 HK1].
    set (q1 := set_pr_h3 _ _ _ q) in *. destruct fin; [|by apply wp_ret].
    apply wp_bind, (wp_updr r _ q1); [apply putr_lookup|].
    destruct (inv_h3_in F i c _ r q1 (pr_h3_in q1) true Hi1 Ei Ho ltac:(apply putr_lookup)) as [Hi2 HK2].
    apply (wp_remains_trans _ F s); [exact (keeps_trans _ _ _ HK1 HK2)|].
    exact (wp_h3_finish F i r _ c _ Hi2 Ei Hp Ho (putr_lookup _ _ _)).
  - destruct (uni_data _ _ _) as [us fed]. apply wp_bind, (wp_upd_h3c _ i c hc); [done|done|].
    destruct (inv_h3c F s i c hc (set_hc_uni us hc) HI Ei Hp Eh eq_refl) as [Hi1 HK1]. set (c1 := set_pc_h3c _ c) in *.
    destruct fed as [p|]; [|by apply wp_ret]. eapply wp_upd_h3c; [apply put_lookup|reflexivity|].
    destruct (inv_h3c F (put i c1 s) i c1 (set_hc_uni us hc) (set_hc_codec (hc_qenc hc) (qpack_read_encoder (hc_qdec hc) p) (set_hc_uni us hc))
      Hi1 (put_lookup i c1 s) Hp eq_refl eq_refl) as [Hi2 HK2]. split; [exact Hi2|exact (keeps_trans _ _ _ HK1 HK2)].
Qed.
Lemma wp_h3_on_stream_close F i s c sid : Inv F quiet s -> p_pcs s !! i = Some c -> pc_proto c = PoolProto_H3 ->
  pc_state c <> PoolConnState_Closing -> wp (pool_h3_on_stream_close decode_content on_user i sid) (remains F quiet s) s.
Proof.
  intros HI Ei Hp Hcl. pose proof (i_conn _ _ _ _ _ HI i c Ei) as Hok. unfold pool_h3_on_stream_close.
  apply wp_bind, (wp_get_pc i c); [done|]. destruct (pc_h3c c) as [hc|] eqn:Eh; [|by apply wp_ret; split; [|apply keeps_refl]].
  assert (Hst : pc_state c = PoolConnState_Ready).
  { destruct (pc_state c) eqn:Hst; [|done|done]. destruct (co_handshaking _ _ _ _ _ _ Hok Hst). congruence. }
  apply wp_bind. apply (wp_h3_find_stream i c hc); try done. intros [r|] Ho; [|by apply wp_ret; split; [|apply keeps_refl]].
  destruct (active_exists _ _ _ _ _ Hok Ho) as [q Er]. apply wp_bind, (wp_get_req r q); [done|].
  destruct (pr_h3_fin q); [by apply wp_ret; split; [|apply keeps_refl]|]. apply wp_bind, (wp_updr r _ q); [done|].
  destruct (inv_h3_in F i c s r q (pr_h3_in q) true HI Ei Ho Er) as [Hi1 HK1].
  apply (wp_remains_trans _ F s); [exact HK1|]. exact (wp_h3_finish F i r _ c _ Hi1 Ei Hp Ho (putr_lookup _ _ _)).
Qed.
Lemma wp_h3_on_ready F i s c err : Inv F quiet s -> p_pcs s !! i = Some c -> pc_proto c = PoolProto_H3 ->
  (err = None -> pc_state c = PoolConnState_Handshaking) -> wp (pool_h3_on_ready decode_content on_user i err) (lates F quiet s) s.
Proof.
  intros HI Ei Hp Hst. destruct err as [e|]; [by apply (wp_fail_all F quiet s i c)|]. specialize (Hst eq_refl).
  pose proof (i_conn _ _ _ _ _ HI i c Ei) as Hok. pose proof (co_wire _ _ _ _ _ _ Hok) as Hw. rewrite Hp in Hw. destruct Hw as [x Ex].
  unfold pool_h3_on_ready. apply wp_bind, (wp_get_pc i c); [done|]. rewrite Ex.
  destruct (negb _); [by apply (wp_fail_all F quiet s i c)|].
  destruct qpack_encoder_new as [e|]; [|by apply (wp_fail_all F quiet s i c)].
  destruct qpack_decoder_new as [d|]; [|by apply (wp_fail_all F quiet s i c)].
  apply wp_bind, (wp_upd i _ c); [done|]. apply wp_bind, (wp_upd i _ _ _ _ (put_lookup i _ _)). rewrite put_put.
  set (c1 := set_pc_state _ _).
  assert (Hok1 : conn_ok (p_reqs s) (pend quiet i) i c1).
  { apply (conn_ok_ready _ _ _ _ Hok Hst); [congruence|]. rewrite Hp. by eexists. }
  pose proof (inv_ready F quiet s i c c1 HI Ei eq_refl Hok1 eq_refl eq_refl) as HL. eapply wp_later; [exact HL|]. destruct HL as [HI1 _].
  destruct (negb (quic_in_recv x)); cbn [pwhen]; [|by apply wp_ret, later_refl].
  apply wp_lates. by apply (wp_flush F quiet _ i c1 eq_refl HI1 (put_lookup i c1 s)).
Qed.

(** *** Deadlines *)
Definition late r q : Ctx := (None, Some (r, q)).
Lemma cancelled_perm (l : list (Z * nat)) k v : NoDup l.*1 -> (k, v) ∈ l -> l ≡ₚ ((k, v) :: filter (fun x => (x.1) <> k) l).
Proof.
  induction l as [|[k' v'] l IH]; intros Hn Hin; [by apply elem_of_nil in Hin|]. cbn in Hn. apply NoDup_cons in Hn as [Hk Hn].
  assert (Hall : forall l : list (Z * nat), k ∉ l.*1 -> filter (fun x => (x.1) <> k) l = l).
  { clear. induction l as [|[k' v'] l IH]; intros Hk; [done|]. cbn in Hk. apply not_elem_of_cons in Hk as [Hk1 Hk2].
    rewrite filter_cons_True by (cbn; congruence). by rewrite IH. }
  apply elem_of_cons in Hin as [Hin|Hin].
  - injection Hin as <- <-. rewrite filter_cons_False by (cbn; naive_solver). by rewrite Hall.
  - assert (Hkk : k' <> k) by (intros ->; apply Hk; apply list_elem_of_fmap; by exists (k, v)).
    rewrite filter_cons_True by done. rewrite (IH Hn Hin) at 1. apply perm_swap.
Qed.
(** The request left its connection, [c'] now. *)
Definition left F s i r c (x : unit) s' : Prop := exists c', s' = put i c' s /\ stays c c' /\ Inv (r :: F) quiet (put i c' s).
Lemma leave_active F s i c c' r q : Inv F (late r q) s -> p_pcs s !! i = Some c -> pc_waiting c' = pc_waiting c ->
  pc_active c ≡ₚ (r :: pc_active c') -> conn_ok (p_reqs s) (pend quiet i) i c' -> stays c c' -> left F s i r c tt (put i c' s).
Proof.
  intros HI Ei E1 E2 Hok Hst. exists c'. split; [done|]. split; [done|].
  apply (inv_bury open opened F None s i c c' r q HI Ei); [|unfold reqs_of; rewrite E1, E2; solve_Permutation|done].
  apply elem_of_app. right. rewrite E2. left.
Qed.
(** The request leaves the list of those in flight, once its stream is closed. *)
Lemma wp_leave_active F s i c c1 r q : Inv F (late r q) s -> p_pcs s !! i = Some c -> r ∈ pc_active c -> wires c c1 ->
  pc_waiting c1 = pc_waiting c -> pc_active c1 = pc_active c -> pc_inflight c1 = pc_inflight c -> pc_idle c1 = pc_idle c ->
  (is_Some (pc_h2 c) -> is_Some (pc_h2 c1)) ->
  match pc_proto c with
  | PoolProto_H1 => pc_h3c c1 = pc_h3c c
  | PoolProto_H2 => pc_h3c c1 = pc_h3c c /\ forall h, pc_h2 c = Some h -> exists h', pc_h2 c1 = Some h' /\
      map snd (open h) ≡ₚ (r :: map snd (open h')) /\ forall x, x ∈ open h' -> x ∈ open h
  | PoolProto_H3 => forall hc, pc_h3c c = Some hc -> exists hc', pc_h3c c1 = Some hc' /\ hc_streams hc ≡ₚ (r :: hc_streams hc')
  end -> wp (pool_active_remove i r;; pool_dec_inflight i) (left F s i r c) (put i c1 s).
Proof.
  intros HI Ei Hr HW E1 E2 E3 E4 Hh2c Hcase. pose proof (i_conn _ _ _ _ _ HI i c Ei) as Hok.
  apply wp_bind, (wp_active_remove i r c1); [apply put_lookup|intros x; rewrite E2; by apply (active_exists _ _ _ _ _ Hok)|].
  unfold pool_dec_inflight. apply (wp_upd i _ _ _ _ (put_lookup i _ _)). rewrite !put_put. set (c2 := set_pc_active _ _ _).
  assert (HW2 : wires c c2) by exact HW.
  assert (Hperm : pc_active c ≡ₚ (r :: pc_active c2)) by (unfold c2; cbn; rewrite E2; by apply unlink_perm).
  apply (leave_active F s i c c2 r q HI Ei); [done|done| |].
  - apply (conn_ok_detached _ (pend (late r q) i) _ i c c2 r Hok HW2); try done; [by unfold c2; cbn; rewrite E3|right; by exists q].
  - apply wires_stays; [done|done|]. intros [hc Eh]. change (pc_h3c c2) with (pc_h3c c1). destruct (pc_proto c) eqn:Hp; [destruct Hcase as [-> _]; by exists hc| |rewrite Hcase; by exists hc].
    destruct (Hcase hc Eh) as (hc' & E & _). by exists hc'.
Qed.
Lemma wp_leave_h2 F s i c r q : Inv F (late r q) s -> p_pcs s !! i = Some c -> r ∈ pc_active c -> pc_proto c = PoolProto_H2 ->
  p_reqs s !! r = Some q ->
  wp ((match pc_h2 c with
       | Some h => h2_run decode_content on_user (pool_acquire decode_content on_user) i (h2_cancel h (pr_h2_stream_id q))
       | None => pskip
       end);; pool_active_remove i r;; pool_dec_inflight i) (left F s i r c) s.
Proof.
  intros HI Ei Hr Hp Er. pose proof (i_conn _ _ _ _ _ HI i c Ei) as Hok.
  assert (Hst : pc_state c <> PoolConnState_Closing).
  { intros Hst. pose proof (co_closing _ _ _ _ _ _ Hok Hst) as E. unfold reqs_of in E. apply app_nil in E as [_ E]. rewrite E in Hr.
    by apply elem_of_nil in Hr. }
  pose proof (co_h2 _ _ _ _ _ _ Hok Hp Hst) as B. destruct (pc_h2 c) as [h|] eqn:Eh.
  2:{ destruct B as [B _]. rewrite B in Hr. by apply elem_of_nil in Hr. }
  destruct B as [B1 B2]. cbn in B1. destruct (h2_cancel_calm Hcalm2 h (pr_h2_stream_id q)) as [[[] h'] Ec].
  pose proof (h2_cancel_open open Hh2 _ _ _ _ Ec) as Ho.
  assert (Hin : (pr_h2_stream_id q, r) ∈ open h).
  { rewrite B1 in Hr. apply (list_elem_of_fmap snd) in Hr as [[sid x] [-> Hin]]. cbn in *. by rewrite (B2 sid x q Hin Er). }
  pose proof (cancelled_perm _ _ _ (h2_open_sids open Hh2 h) Hin) as Hperm. rewrite <-Ho in Hperm.
  set (c1 := set_pc_h2 (Some h') c).
  assert (Hrest : forall c2, rewired c1 c2 -> pc_idle c2 = pc_idle c1 ->
    wp (pool_active_remove i r;; pool_dec_inflight i) (left F s i r c) (put i c2 s)).
  { intros c2 (W & R1 & R2 & R3 & R4 & R5) HId. apply (wp_leave_active F s i c c2 r q HI Ei Hr); try done.
    - by rewrite R1; eexists.
    - rewrite Hp. split; [done|]. intros h0 E0. assert (h0 = h) as -> by congruence. exists h'. split; [done|].
      split; [by rewrite Hperm|]. intros x Hx. rewrite Hperm. by right. }
  by apply wp_bind, (wp_run_sends _ i _ tt h' _ Ec s c Ei).
Qed.
Lemma wp_leave_stream F s i c r q : Inv F (late r q) s -> p_pcs s !! i = Some c -> r ∈ pc_active c -> pc_proto c <> PoolProto_H2 ->
  p_reqs s !! r = Some q ->
  wp ((pool_stream_reset on_user (pool_acquire decode_content on_user) i (pr_h3_stream_id q);;
       match pc_h3c c with Some _ => pool_h3_remove_stream i (pr_h3_stream_id q) | None => pskip end);;
      pool_active_remove i r;; pool_dec_inflight i) (left F s i r c) s.
Proof.
  intros HI Ei Hr Hp Er. pose proof (i_conn _ _ _ _ _ HI i c Ei) as Hok. unfold pool_stream_reset, pool_quic_flushes, on_quic.
  apply wp_bind, wp_bind, wp_bind, (wp_upd i _ c); [done|]. set (c1 := set_pc_quic _ c).
  eapply wp_bind, wp_get_pc; [apply put_lookup|].
  assert (Hn : (pc_quic c1 ≫= quic_send_closed) = None).
  { unfold c1. cbn. destruct (pc_quic c) as [x|]; [|done]. apply (quic_reset_calm Hcalm3). }
  rewrite Hn. apply wp_ret.
  assert (HW : wires c c1).
  { unfold wires, c1. cbn. repeat split; try done. destruct (pc_quic c) as [x|]; [|done]. eexists. split; [reflexivity|].
    apply (quic_reset_more opened Hq). }
  assert (Hok1 : conn_ok (p_reqs s) (pend (late r q) i) i c1).
  { apply (conn_ok_wires _ _ _ c c1 Hok HW); try done; [by left|]. apply Hok. }
  destruct (pc_h3c c) as [hc|] eqn:Eh.
  - assert (Hp3 : pc_proto c = PoolProto_H3).
    { pose proof (co_wire _ _ _ _ _ _ Hok) as W. destruct (pc_proto c); [by destruct W; congruence|done|by destruct W; congruence]. }
    apply (wp_h3_remove i c1 r q (pend (late r q) i)); [apply put_lookup|exact Hok1|done|done|done|].
    intros hc1 l E1 Hl. assert (hc1 = hc) as -> by (unfold c1 in E1; cbn in E1; congruence). rewrite put_put.
    apply (wp_leave_active F s i c _ r q HI Ei Hr); try done. rewrite Hp3. intros hc2 E2. assert (hc2 = hc) as -> by congruence.
    eexists. split; [reflexivity|]. exact Hl.
  - apply wp_ret, (wp_leave_active F s i c c1 r q HI Ei Hr); try done. destruct (pc_proto c) eqn:Hp3; [done| |done].
    intros hc E. congruence.
Qed.

Lemma wp_leave_waiting F s i c r q : Inv F (late r q) s -> p_pcs s !! i = Some c -> r ∈ pc_waiting c ->
  wp (pool_waiting_remove i r) (left F s i r c) s.
Proof.
  intros HI Ei Hr. pose proof (i_conn _ _ _ _ _ HI i c Ei) as Hok. unfold pool_waiting_remove.
  apply wp_bind, (wp_get_pc i c); [done|]. apply wp_bind, wp_walk.
  { intros x Hx. apply (queue_exists _ _ _ _ _ Hok), elem_of_app. by left. }
  apply (wp_upd i _ c); [done|]. set (c1 := set_pc_waiting _ c). exists c1. split; [done|]. split; [done|].
  assert (Hperm : reqs_of c ≡ₚ (r :: reqs_of c1)) by (unfold reqs_of, c1; cbn; by rewrite (unlink_perm r (pc_waiting c) Hr) at 1).
  apply (inv_bury open opened F None s i c c1 r q HI Ei); [by apply elem_of_app; left|done|].
  pose proof (co_nodup _ _ _ _ _ _ Hok) as Hn. rewrite Hperm in Hn. apply NoDup_cons in Hn as [Hnr Hn].
  destruct Hok as [A1 A2 A3 A4 A5 A6 A0 A7 A8 A9 A10]. constructor; try done.
  - intros x Hx. destruct (A2 x) as (qx & B1 & B2 & B3 & B4 & B5); [rewrite Hperm; by right|]. exists qx. repeat (split; [done|]).
    split; [|done]. intros H. specialize (B4 H). cbn in B4. injection B4 as <- _. done.
  - intros Hst. specialize (A4 Hst). rewrite A4 in Hperm. by apply Permutation_nil_cons in Hperm.
Qed.
Lemma wp_leave F s i c r q (Post : unit -> Pool -> Prop) : Inv F (late r q) s -> p_pcs s !! i = Some c -> r ∈ reqs_of c ->
  p_reqs s !! r = Some q -> pr_proto q = pc_proto c -> forall q0, pr_proto q0 = pr_proto q -> pr_h2_stream_id q0 = pr_h2_stream_id q ->
  pr_h3_stream_id q0 = pr_h3_stream_id q -> (forall s', left F s i r c tt s' -> Post tt s') ->
  wp (c ← get_pc i;
      walk (pc_active c);;
      if bool_decide (r ∈ pc_active c) then
        (match pr_proto q0 with
         | PoolProto_H2 =>
             match pc_h2 c with
             | Some h => h2_run decode_content on_user (pool_acquire decode_content on_user) i (h2_cancel h (pr_h2_stream_id q0))
             | None => pskip
             end
         | _ =>
             pool_stream_reset on_user (pool_acquire decode_content on_user) i (pr_h3_stream_id q0);;
             match pc_h3c c with Some _ => pool_h3_remove_stream i (pr_h3_stream_id q0) | None => pskip end
         end);;
        pool_active_remove i r;;
        pool_dec_inflight i
      else pool_waiting_remove i r) Post s.
Proof.
  intros HI Ei Hr Er Hp q0 -> -> -> HP. pose proof (i_conn _ _ _ _ _ HI i c Ei) as Hok. rewrite Hp.
  apply wp_bind, (wp_get_pc i c); [done|]. apply wp_bind, wp_walk; [by intros x; apply (active_exists _ _ _ _ _ Hok)|].
  case_bool_decide as Ha.
  - destruct (pc_proto c) eqn:Hpc.
    + eapply wp_mono; [by apply (wp_leave_h2 F s i c r q)|]. intros [] s'. apply HP.
    + eapply wp_mono; [apply (wp_leave_stream F s i c r q); [done|done|done|congruence|done]|]. intros [] s'. apply HP.
    + eapply wp_mono; [apply (wp_leave_stream F s i c r q); [done|done|done|congruence|done]|]. intros [] s'. apply HP.
  - apply elem_of_app in Hr as [Hr|Hr]; [|done]. eapply wp_mono; [by apply (wp_leave_waiting F s i c r q)|]. intros [] s'. apply HP.
Qed.
Lemma wp_timeout F s r q : Inv F quiet s -> p_reqs s !! r = Some q -> r ∉ F -> wp (pool_req_timeout decode_content on_user r) (lates F quiet s) s.
Proof.
  intros HI Er HF. unfold pool_req_timeout. apply wp_bind, (wp_get_req r q); [done|].
  destruct (pr_responded q) eqn:Hf; [by apply wp_ret, later_refl|].
  (* its caller is told *)
  apply wp_bind. unfold pool_req_deliver_error. apply wp_bind, (wp_get_req r q); [done|]. rewrite Hf.
  apply wp_bind, (wp_updr r _ q); [done|]. set (q1 := set_pr_responded q). unfold deliver. apply wp_bind, (wp_get_req r q1); [apply putr_lookup|].
  apply wp_bind, wp_pupd. pose proof (inv_late open opened F None s r q (Delivered (DeliverError (lit "timeout"))) HI Er Hf HF) as Hi1.
  change (set_p_reqs (<[r:=set_pr_responded q]> (p_reqs s)) s) with (putr r q1 s) in Hi1. set (s1 := add_p_log r _ _) in *.
  assert (Hr1 : r ∈ answered s1) by (unfold s1, answered; cbn; rewrite fmap_app; apply elem_of_app; right; left).
  assert (HK1 : keeps s s1) by (intros j d Ed; exists d; by repeat split).
  eapply wp_mono; [apply (Huser _ _ F (late r q1) s1 Hi1)|]. intros [] s2 [Hi2 He2].
  assert (HK2 : keeps s s2) by (eapply keeps_trans; [exact HK1|by eapply keeps_evolves]).
  assert (Hr2 : r ∈ answered s2) by (by apply He2).
  destruct (i_late _ _ _ _ _ Hi2 r q1 eq_refl) as [Er2 _].
  destruct (i_home _ _ _ _ _ Hi2 r q1 Er2) as [|(i & c & Hpc & Ei & Hin)]; [done|]. change (pr_pc q1) with (pr_pc q) in Hpc. rewrite Hpc.
  (* it leaves its connection *)
  destruct (co_reqs _ _ _ _ _ _ (i_conn _ _ _ _ _ Hi2 i c Ei) r Hin) as (q2 & E2 & _ & Hp & _). assert (q2 = q1) as -> by congruence.
  apply wp_bind. apply (wp_leave F s2 i c r q1 _ Hi2 Ei Hin Er2 Hp q); [done|done|done|].
  intros s3 (c3 & -> & Hst3 & Hi3). assert (HK3 : keeps s (put i c3 s2)) by (eapply keeps_trans; [exact HK2|by apply (keeps_put i c)]).
  apply wp_bind. eapply wp_mono; [by apply (wp_req_done F quiet _ r q1)|]. intros [] s4 [Hi4 He4].
  assert (HK4 : keeps s s4) by (eapply keeps_trans; [exact HK3|by eapply keeps_evolves]).
  pose proof He4 as (He4' & _). destruct (He4' i c3 (put_lookup i c3 s2)) as (c4 & Ei4 & _).
  apply wp_bind, (wp_get_pc i c4); [done|]. apply keeps_lates; [done|done|].
  destruct (bool_decide (pc_state c4 = PoolConnState_Closing)); [by apply wp_ret, later_refl|]. by apply (wp_flush_idle F quiet s4 i c4).
Qed.

(** ** What the environment does *)
(** The calls of a packet: [on_ready] at most once, when it is due. *)
Fixpoint items_ok (st : PoolConnState) (items : list QuicItem) : Prop :=
  match items with
  | [] => True
  | QuicReady _ :: items => st = PoolConnState_Handshaking /\ items_ok PoolConnState_Ready items
  | _ :: items => items_ok st items
  end.
(** The events that can happen in a state. A transport calls [on_ready] once
    and opens no more streams than it was asked to; a deadline passes only for
    a request that is there; a connection with waiting requests is not swept,
    evicted or drained. *)
Definition pool_enabled (ev : pool_event (T:=T) (Q:=Q)) (s : Pool) : Prop :=
  let tcp pc (P : PoolConn -> Prop) := exists c, p_pcs s !! pc = Some c /\ pc_proto c <> PoolProto_H3 /\ P c in
  let quic pc (x : Q) (P : PoolConn -> Prop) :=
    exists c x0, p_pcs s !! pc = Some c /\ pc_proto c = PoolProto_H3 /\ pc_quic c = Some x0 /\ opened x0 ⊆ opened x /\ P c in
  match ev with
  | EvDispatch _ _ _ _ _ _ _ _ | EvClient _ | EvNow _ => True
  | EvTcpReady pc _ err => tcp pc (fun c => err = None -> pc_state c = PoolConnState_Handshaking)
  | EvTcpReadable pc _ => tcp pc (fun c => pc_state c <> PoolConnState_Handshaking)
  | EvTcpClosed pc _ _ => tcp pc (fun _ => True)
  | EvQuicReady pc x err => quic pc x (fun c => err = None -> pc_state c = PoolConnState_Handshaking)
  | EvQuicRecv pc x items => quic pc x (fun c => quic_in_recv x = true /\ items_ok (pc_state c) items)
  | EvQuicClosed pc x _ => quic pc x (fun _ => True)
  | EvFullyClosed pc => exists c, p_pcs s !! pc = Some c /\ pc_state c = PoolConnState_Closing
  | EvTimeout r => exists q, p_reqs s !! r = Some q /\ pr_timeout q = true
  | EvSweep => settled false s
  | EvEvictAll => settled true s
  | EvDrain => forall i c, p_pcs s !! i = Some c -> reqs_of c = []
  end.

Lemma inv_set_tcp F s i c t : Inv F quiet s -> p_pcs s !! i = Some c -> Inv F quiet (put i (set_pc_tcp (Some t) c) s).
Proof.
  intros HI Ei. apply (inv_rewired F quiet s i c (set_pc_tcp (Some t) c) HI Ei); [|done].
  repeat split; try done. apply quic_after_refl.
Qed.
Lemma inv_set_quic F s i c x y : Inv F quiet s -> p_pcs s !! i = Some c -> pc_proto c = PoolProto_H3 -> pc_quic c = Some x ->
  opened x ⊆ opened y -> Inv F quiet (put i (set_pc_quic (Some y) c) s).
Proof.
  intros HI Ei Hp Ex Hsub. apply (inv_move open opened F F quiet quiet s i c); try done.
  pose proof (i_conn _ _ _ _ _ HI i c Ei) as Hok. destruct Hok as [A1 A2 A3 A4 A5 A6 A0 A7 A8 A9 A10].
  constructor; try done; cbn.
  - rewrite Hp. by exists y.
  - intros _ Hst. destruct (A10 Hp Hst) as (hc & x0 & B1 & B2 & B3 & B4 & B5 & B6). assert (x0 = x) as -> by congruence.
    exists hc, y. repeat (split; [done|]). split; [|done]. intros r q Hr Er. by apply Hsub, (B5 r).
Qed.
Lemma wp_quic_items F i : forall items s st, Inv F quiet s -> reading s i ->
  (forall c, p_pcs s !! i = Some c -> st = PoolConnState_Handshaking -> pc_state c = st \/ pc_state c = PoolConnState_Closing) ->
  items_ok st items -> wp (quic_items decode_content on_user i items) (lates F quiet s) s.
Proof.
  induction items as [|it items IH]; intros s st HI Hrd Hst Hit; [by apply wp_ret, later_refl|]. cbn [quic_items].
  pose proof Hrd as (c & x & Ei & _ & _ & Hp). apply wp_bind, (wp_get_pc i c); [done|].
  destruct (bool_decide (pc_state c = PoolConnState_Closing)) eqn:Hcl; [by apply wp_ret, later_refl|]. bprops. specialize (Hst c Ei).
  assert (Hnext : forall st' s', later F quiet s s' -> items_ok st' items ->
    (forall c, p_pcs s' !! i = Some c -> st' = PoolConnState_Handshaking -> pc_state c = st' \/ pc_state c = PoolConnState_Closing) ->
    wp (quic_items decode_content on_user i items) (lates F quiet s) s').
  { intros st' s' HL Hit' Hs'. eapply wp_later; [exact HL|]. destruct HL as [Hi' Hr']. apply (IH s' st'); auto. }
  assert (Hkeep : forall s', remains F quiet s tt s' -> items_ok st items -> wp (quic_items decode_content on_user i items) (lates F quiet s) s').
  { intros s' [Hi' HK'] Hit'. apply (Hnext st); [by apply keeps_later|done|]. intros c' Ei' E. destruct (Hst E) as [Hs|Hs]; [|done].
    destruct (HK' i c Ei) as (c2 & Ei2 & _ & S2 & _). assert (c2 = c') as -> by congruence. left. congruence. }
  apply wp_bind. destruct it as [err|sid data fin|sid].
  - destruct Hit as [Hs Hit]. eapply wp_mono; [apply (wp_h3_on_ready F i s c err HI Ei Hp)|].
    + intros _. by destruct (Hst Hs); [congruence|].
    + intros [] s' HL. by apply (Hnext PoolConnState_Ready).
  - eapply wp_mono; [by apply (wp_h3_on_stream_data F i s c)|]. intros [] s' H'. by apply Hkeep.
  - eapply wp_mono; [by apply (wp_h3_on_stream_close F i s c)|]. intros [] s' H'. by apply Hkeep.
Qed.
Lemma wp_recv F i s items st : Inv F quiet s -> reading s i ->
  (forall c, p_pcs s !! i = Some c -> st = PoolConnState_Handshaking -> pc_state c = st \/ pc_state c = PoolConnState_Closing) ->
  items_ok st items ->
  wp (quic_items decode_content on_user i items;; on_quic i quic_recv_end;; pool_h3_recv_done decode_content on_user i) (fun _ s' => Inv F quiet s') s.
Proof.
  intros HI Hrd Hst Hit. apply wp_bind. eapply wp_mono; [by apply (wp_quic_items F i items s st)|]. intros [] s1 [Hi1 Hr1].
  destruct (Hr1 i Hrd) as (c & x & Ei & Ex & _ & Hp). unfold on_quic. apply wp_bind, (wp_upd i _ c); [done|]. rewrite Ex. cbn [fmap option_fmap option_map].
  pose proof (inv_set_quic F s1 i c x (quic_recv_end x) Hi1 Ei Hp Ex (quic_recv_end_more opened Hq x)) as Hi2.
  unfold pool_h3_recv_done. eapply wp_mono; [apply (wp_flush_idle F quiet _ i _ eq_refl Hi2 (put_lookup i _ s1))|]. by intros [] s2 [? _].
Qed.
Lemma wp_lates_inv m F s s1 : wp m (lates F quiet s1) s -> wp m (fun _ s' => Inv F quiet s') s.
Proof. intros H. eapply wp_mono; [exact H|]. by intros [] s2 [? _]. Qed.

(** Every event keeps the invariant and uses no memory that was given back. *)
Lemma wp_handle ev s : Inv [] quiet s -> pool_enabled ev s ->
  wp (pool_handle decode_content on_user h2req_start ev) (fun _ s' => Inv [] quiet s') s.
Proof.
  intros HI Hev. destruct ev as [proto m url hs body user dl order|pc t err|pc t|pc t e|pc x err|pc x items|pc x e|pc|r| | | |cl|now];
    cbn [pool_handle]; cbn in Hev.
  - eapply wp_mono; [by apply (calm_dispatch _ _ _ _ _ _ _ _ [] quiet s)|]. by intros [] s2 [? _].
  - destruct Hev as (c & Ei & Hp & Hst). apply wp_bind, (wp_upd pc _ c); [done|]. pose proof (inv_set_tcp [] s pc c t HI Ei) as Hi1.
    eapply wp_bind, wp_get_pc; [apply put_lookup|]. set (c1 := set_pc_tcp _ c) in *. eapply wp_lates_inv. case_bool_decide as H1.
    + by apply (wp_h1_on_ready [] pc _ c1 err Hi1 (put_lookup pc c1 s)).
    + apply (wp_h2_on_ready [] pc _ c1 err Hi1 (put_lookup pc c1 s)); [|done]. change (pc_proto c1) with (pc_proto c) in *. by destruct (pc_proto c).
  - destruct Hev as (c & Ei & Hp & Hst). apply wp_bind, (wp_upd pc _ c); [done|]. pose proof (inv_set_tcp [] s pc c t HI Ei) as Hi1.
    eapply wp_bind, wp_get_pc; [apply put_lookup|]. set (c1 := set_pc_tcp _ c) in *. eapply wp_lates_inv. case_bool_decide as H1.
    + by apply (wp_h1_drain [] pc _ c1 Hi1 (put_lookup pc c1 s)).
    + apply (wp_h2_drain [] pc _ c1 Hi1 (put_lookup pc c1 s)); [|done]. change (pc_proto c1) with (pc_proto c) in *. by destruct (pc_proto c).
  - destruct Hev as (c & Ei & Hp & _). apply wp_bind, (wp_upd pc _ c); [done|]. pose proof (inv_set_tcp [] s pc c t HI Ei) as Hi1.
    eapply wp_bind, wp_get_pc; [apply put_lookup|]. set (c1 := set_pc_tcp _ c) in *. eapply wp_lates_inv. case_bool_decide as H1.
    + by apply (wp_h1_on_closed [] pc _ c1 e Hi1 (put_lookup pc c1 s)).
    + by apply (wp_on_closed [] pc _ c1 _ Hi1 (put_lookup pc c1 s)).
  - destruct Hev as (c & x0 & Ei & Hp & Ex & Hsub & Hst). apply wp_bind, (wp_upd pc _ c); [done|].
    pose proof (inv_set_quic [] s pc c x0 x HI Ei Hp Ex Hsub) as Hi1. eapply wp_lates_inv.
    by apply (wp_h3_on_ready [] pc _ _ err Hi1 (put_lookup pc _ s)).
  - destruct Hev as (c & x0 & Ei & Hp & Ex & Hsub & Hrv & Hit). apply wp_bind, (wp_upd pc _ c); [done|].
    pose proof (inv_set_quic [] s pc c x0 x HI Ei Hp Ex Hsub) as Hi1. apply (wp_recv [] pc _ items (pc_state c) Hi1); [| |done].
    + eexists _, x. by rewrite put_lookup.
    + intros c1. rewrite put_lookup. intros [= <-] _. by left.
  - destruct Hev as (c & x0 & Ei & Hp & Ex & Hsub & _). apply wp_bind, (wp_upd pc _ c); [done|].
    pose proof (inv_set_quic [] s pc c x0 x HI Ei Hp Ex Hsub) as Hi1. eapply wp_lates_inv.
    by apply (wp_on_closed [] pc _ _ _ Hi1 (put_lookup pc _ s)).
  - destruct Hev as (c & Ei & Hst). apply wp_bind, (wp_get_pc pc c); [done|].
    pose proof (co_closing _ _ _ _ _ _ (i_conn _ _ _ _ _ HI pc c Ei) Hst) as Hc.
    destruct (pc_proto c); apply (wp_fully_closed [] quiet s pc c _ HI Ei Hc); by intros s'.
  - destruct Hev as (q & Er & _). eapply wp_lates_inv. apply (wp_timeout [] s r q HI Er). apply not_elem_of_nil.
  - eapply wp_lates_inv. by apply (wp_sweep [] quiet s).
  - eapply wp_lates_inv. by apply (wp_evict [] quiet s).
  - eapply wp_lates_inv. by apply (wp_drain [] quiet s).
  - apply wp_pupd. by apply (inv_same open opened [] quiet s).
  - apply wp_pupd. by apply (inv_same open opened [] quiet s).
Qed.
End safe.
