(* ===== verification/PoolFrame.v ===== *)
(** * The connection pool, what it records of a released session

    [pool_h1_drain_round] records in [p_stale] that the code reads an HTTP/1.1
    session after its release. Every other operation leaves the record as it is. *)
From stdpp Require Import gmap.
From S2P Require Import Prelude String8 U8Buf GrowArr Header Url Redirect OriginCache Proxy ReqHeaders H1 H3Control TcpRequest.
From S2P Require Export PoolInv.

Section frame.
Context `{HSsl : BoringSSL} `{HPhr : PhrApi} `{HMux : H2Mux} `{HQpk : Qpack} {T Q : Type} `{HTcp : !TcpApi T} `{HStr : !QuicStreams Q} `{HQuic : !QuicApi Q}.
Context (decode_content : bytes -> bytes -> option bytes).
Abbreviation PM := (PM T Q).
Abbreviation Pool := (Pool T Q).
Implicit Types (s : Pool).

Definition steady {A} (m : PM A) : Prop := forall s x s', m s = Some (x, s') -> p_stale s' = p_stale s.

(** ** The parts of an operation *)
Lemma steady_ret {A} (x : A) : steady (mret x : PM A).
Proof. by intros s y s' [= _ <-]. Qed.
Lemma steady_bind {A B} (m : PM A) (k : A -> PM B) : steady m -> (forall x, steady (k x)) -> steady (x ← m; k x).
Proof.
  intros Hm Hk s y s'. unfold mbind, PS_bind. destruct (m s) as [[x s1]|] eqn:E; [|done]. intros E2.
  rewrite (Hk x _ _ _ E2). by apply (Hm _ _ _ E).
Qed.
Lemma steady_bad {A} : steady (bad : PM A).
Proof. done. Qed.
Lemma steady_pget {A} (f : Pool -> A) : steady (pget f).
Proof. by intros s x s' [= _ <-]. Qed.
Lemma steady_pupd f : (forall s, p_stale (f s) = p_stale s) -> steady (pupd f : PM unit).
Proof. intros Hf s x s' [= _ <-]. apply Hf. Qed.
Lemma steady_pwhen b (m : PM unit) : steady m -> steady (pwhen b m).
Proof. intros Hm. destruct b; [exact Hm|apply steady_ret]. Qed.
Lemma steady_get_req r : steady (get_req r : PM _).
Proof. intros s x s'. unfold get_req. destruct (p_reqs s !! r); [|done]. by intros [= _ <-]. Qed.
Lemma steady_upd_req r f : steady (upd_req r f : PM _).
Proof. intros s x s'. unfold upd_req. destruct (p_reqs s !! r); [|done]. by intros [= _ <-]. Qed.
Lemma steady_get_pc i : steady (get_pc i : PM _).
Proof. intros s x s'. unfold get_pc. destruct (p_pcs s !! i); [|done]. by intros [= _ <-]. Qed.
Lemma steady_upd_pc i f : steady (upd_pc i f : PM _).
Proof. intros s x s'. unfold upd_pc. destruct (p_pcs s !! i); [|done]. by intros [= _ <-]. Qed.
Lemma steady_new_req q : steady (new_req q : PM _).
Proof. by intros s x s' [= _ <-]. Qed.
Lemma steady_new_refused o : steady (new_refused o : PM _).
Proof. by intros s x s' [= _ <-]. Qed.
Lemma steady_new_pc c : steady (new_pc c : PM _).
Proof. by intros s x s' [= _ <-]. Qed.
Lemma steady_walk l : steady (walk l : PM _).
Proof. induction l as [|r l IH]; [apply steady_ret|]. apply steady_bind; [apply steady_get_req|done]. Qed.
Lemma steady_skip : steady (pskip : PM _).
Proof. apply steady_ret. Qed.
Lemma steady_ploop (round : PM (option bool)) : steady round -> steady (ploop round).
Proof.
  intros Hr s x s'. unfold ploop.
  pose proof (loop_pow_inv (fun s => match round s with Some (None, s) => inl s | Some (Some b, s) => inr (Some (b, s)) | None => inr None end)
    (fun s' => p_stale s' = p_stale s) (fun r => match r with Some (b, s') => p_stale s' = p_stale s | None => True end)) as HL.
  assert (HS : forall s1, p_stale s1 = p_stale s ->
    match match round s1 with Some (None, s) => inl s | Some (Some b, s) => inr (Some (b, s)) | None => inr None end with
    inl s' => p_stale s' = p_stale s | inr r => match r with Some (b, s') => p_stale s' = p_stale s | None => True end end).
  { intros s1 H1. destruct (round s1) as [[[b|] s2]|] eqn:E; [| |done]; by rewrite (Hr _ _ _ E). }
  specialize (HL HS 64%nat s eq_refl). destruct (loop_pow _ _ s) as [s1|[[b s1]|]]; [by intros [= _ <-]|by intros [= _ <-]|done].
Qed.

Create HintDb steady.
#[local] Hint Resolve steady_ret steady_bad steady_pget steady_get_req steady_upd_req steady_get_pc steady_upd_pc steady_new_req
  steady_new_refused steady_new_pc steady_walk steady_skip : steady.
(** Goes through an operation: binds, updates that leave the record, and the
    cases of its conditions. *)
Ltac steady :=
  repeat match goal with
  | |- steady (mbind _ _) => apply steady_bind; [|intros ?]
  | |- steady (pupd _) => apply steady_pupd; try (intros ?; try (by destruct_and?); repeat case_match; reflexivity)
  | |- steady (pwhen _ _) => apply steady_pwhen
  | |- steady _ => solve [eauto with steady]
  | |- steady (match ?x with _ => _ end) => destruct x
  | |- steady (let '(_, _) := ?x in _) => destruct x
  | |- steady (let _ := _ in _) => cbv zeta
  end.

(** ** The operations *)
Lemma steady_upd_client f : steady (upd_client f : PM _).
Proof. unfold upd_client. steady. Qed.
#[local] Hint Resolve steady_upd_client : steady.
Lemma steady_upd_cl f : steady (upd_cl f : PM _).
Proof. unfold upd_cl. steady. Qed.
Lemma steady_client : steady (client : PM _).
Proof. unfold client. steady. Qed.
Lemma steady_remove_conn i : steady (pool_remove_conn i : PM _).
Proof. unfold pool_remove_conn. steady. Qed.
Lemma steady_arm_sweep : steady (pool_arm_sweep : PM _).
Proof. unfold pool_arm_sweep. steady. Qed.
Lemma steady_tcp_send i d : steady (pool_tcp_send i d : PM _).
Proof. unfold pool_tcp_send. steady. Qed.
#[local] Hint Resolve steady_upd_cl steady_client steady_remove_conn steady_arm_sweep steady_tcp_send : steady.
Lemma steady_tcp_sends i l : steady (pool_tcp_sends i l : PM _).
Proof. induction l as [|d l IH]; cbn [pool_tcp_sends]; steady. Qed.
Lemma steady_arena_release i : steady (arena_release_pc i : PM _).
Proof. unfold arena_release_pc. steady. Qed.
#[local] Hint Resolve steady_tcp_sends steady_arena_release : steady.
Lemma steady_close i : steady (pool_close_conn i : PM _).
Proof. unfold pool_close_conn, pool_h3_on_fully_closed. steady. Qed.
Lemma steady_active_remove i r : steady (pool_active_remove i r : PM _).
Proof. unfold pool_active_remove. steady. Qed.
Lemma steady_waiting_push i r : steady (pool_waiting_push i r : PM _).
Proof. unfold pool_waiting_push. steady. Qed.
Lemma steady_waiting_pop i : steady (pool_waiting_pop i : PM _).
Proof. unfold pool_waiting_pop. steady. Qed.
Lemma steady_waiting_remove i r : steady (pool_waiting_remove i r : PM _).
Proof. unfold pool_waiting_remove. steady. Qed.
Lemma steady_note_alt_svc r hs : steady (pool_note_alt_svc r hs : PM _).
Proof. unfold pool_note_alt_svc. steady. Qed.
Lemma steady_req_done r : steady (pool_req_done r : PM _).
Proof. unfold pool_req_done. steady. Qed.
#[local] Hint Resolve steady_close steady_active_remove steady_waiting_push steady_waiting_pop steady_waiting_remove steady_note_alt_svc
  steady_req_done : steady.

Context (on_user : nat -> Delivery -> PM unit) (h2req_start : PoolParams -> PM unit).
Context (Huser : forall u d, steady (on_user u d)) (Hstart : forall p, steady (h2req_start p)).
#[local] Hint Resolve Huser Hstart : steady.
Lemma steady_deliver r d : steady (deliver on_user r d).
Proof. unfold deliver. steady. Qed.
#[local] Hint Resolve steady_deliver : steady.
Lemma steady_deliver_error r e : steady (pool_req_deliver_error on_user r e).
Proof. unfold pool_req_deliver_error. steady. Qed.
#[local] Hint Resolve steady_deliver_error : steady.
Lemma steady_req_fail r e : steady (pool_req_fail on_user r e).
Proof. unfold pool_req_fail. steady. Qed.
Lemma steady_pool_deliver r ok st hs b alpn : steady (pool_deliver decode_content on_user r ok st hs b alpn).
Proof. unfold pool_deliver. steady. Qed.
#[local] Hint Resolve steady_req_fail steady_pool_deliver : steady.

Section acquire.
Context (acquire : PoolProto -> nat -> PM unit) (Hacq : forall p r, steady (acquire p r)).
#[local] Hint Resolve Hacq : steady.
Lemma steady_retry r e : steady (pool_req_retry_or_fail on_user acquire r e).
Proof. unfold pool_req_retry_or_fail. steady. Qed.
#[local] Hint Resolve steady_retry : steady.
Lemma steady_retry_all l e : steady (retry_all on_user acquire l e).
Proof. induction l as [|r l IH]; cbn [retry_all]; steady. Qed.
#[local] Hint Resolve steady_retry_all : steady.
Lemma steady_fail_all i e : steady (pool_conn_fail_all on_user acquire i e).
Proof. unfold pool_conn_fail_all. steady. Qed.
#[local] Hint Resolve steady_fail_all : steady.
Lemma steady_h2_response r hr : steady (pool_h2_on_response decode_content on_user acquire r hr).
Proof. unfold pool_h2_on_response, pool_dec_inflight. steady. Qed.
#[local] Hint Resolve steady_h2_response : steady.
Lemma steady_h2_run {A} i (x : H2Run h2_session A) : steady (h2_run decode_content on_user acquire i x).
Proof. induction x as [a h|d x IH|h r hr k IH]; cbn [h2_run]; steady. Qed.
Lemma steady_h3_on_closed i e : steady (pool_h3_on_closed on_user acquire i e).
Proof. unfold pool_h3_on_closed. steady. Qed.
#[local] Hint Resolve @steady_h2_run steady_h3_on_closed : steady.
Lemma steady_quic_flushes i f : steady (pool_quic_flushes on_user acquire i f).
Proof. unfold pool_quic_flushes, on_quic. steady. Qed.
#[local] Hint Resolve steady_quic_flushes : steady.
Lemma steady_stream_send i sid d fin : steady (pool_stream_send on_user acquire i sid d fin).
Proof. unfold pool_stream_send. steady. Qed.
Lemma steady_open_stream f i : steady (pool_open_stream f i : PM _).
Proof. unfold pool_open_stream. steady. Qed.
Lemma steady_upd_h3c i f : steady (upd_h3c i f : PM _).
Proof. unfold upd_h3c. steady. Qed.
Lemma steady_after_submit i r : steady (pool_after_submit i r : PM _).
Proof. unfold pool_after_submit, pool_active_push, pool_conn_ref, pool_conn_set_ref. steady. Qed.
#[local] Hint Resolve steady_stream_send steady_open_stream steady_upd_h3c steady_after_submit : steady.
Lemma steady_h3_control i hc prof sid : steady (pool_h3_control on_user acquire i hc prof sid).
Proof. unfold pool_h3_control. steady. Qed.
Lemma steady_send_frames i sid p r b : steady (pool_send_frames on_user acquire i sid p r b).
Proof. unfold pool_send_frames. steady. Qed.
#[local] Hint Resolve steady_h3_control steady_send_frames : steady.
Lemma steady_submit i r : steady (pool_submit decode_content on_user acquire i r).
Proof. unfold pool_submit, pool_h2_submit, pool_h1_submit, pool_h3_submit. steady. Qed.
Lemma steady_scan proto o l k : steady (scan proto o l k : PM _).
Proof. revert k. induction l as [|i l IH]; intros k; cbn [scan]; steady. Qed.
Lemma steady_open proto r : steady (pool_conn_open on_user acquire proto r).
Proof. unfold pool_conn_open. steady. Qed.
Lemma steady_park i r : steady (pool_park i r : PM _).
Proof. unfold pool_park. steady. Qed.
#[local] Hint Resolve steady_submit steady_scan steady_open steady_park : steady.
Lemma steady_acquire_body proto r : steady (pool_acquire_body decode_content on_user acquire proto r).
Proof. unfold pool_acquire_body. steady. Qed.
End acquire.
#[local] Hint Resolve steady_retry steady_fail_all steady_h2_response steady_stream_send steady_h3_on_closed steady_submit steady_upd_h3c steady_acquire_body
  steady_quic_flushes : steady.
#[local] Hint Resolve @steady_h2_run : steady.
Lemma steady_acquire_n n : forall proto r, steady (pool_acquire_n decode_content on_user n proto r).
Proof. induction n as [|n IH]; intros proto r; cbn [pool_acquire_n]; [apply steady_bad|by apply steady_acquire_body]. Qed.
#[local] Hint Resolve steady_acquire_n : steady.
Lemma steady_acquire proto r : steady (pool_acquire decode_content on_user proto r).
Proof. unfold pool_acquire. steady. Qed.
#[local] Hint Resolve steady_acquire : steady.
Lemma steady_dispatch proto m url hs b u dl o : steady (pool_dispatch decode_content on_user proto m url hs b u dl o).
Proof. unfold pool_dispatch. steady. Qed.
Lemma steady_flush_loop fuel i : steady (flush_loop decode_content on_user fuel i).
Proof. induction fuel as [|fuel IH]; cbn [flush_loop]; steady. Qed.
#[local] Hint Resolve steady_dispatch steady_flush_loop : steady.
Lemma steady_flush i : steady (pool_flush_waiting decode_content on_user i).
Proof. unfold pool_flush_waiting. steady. Qed.
Lemma steady_reacquire proto l : steady (reacquire_all decode_content on_user proto l).
Proof. induction l as [|r l IH]; cbn [reacquire_all]; steady. Qed.
#[local] Hint Resolve steady_flush steady_reacquire : steady.
Lemma steady_update_idle i : steady (pool_update_idle decode_content on_user i).
Proof. unfold pool_update_idle, pool_conn_unref, pool_conn_set_ref. steady. Qed.
Lemma steady_hand_over l : steady (hand_over h2req_start l).
Proof. induction l as [|r l IH]; cbn [hand_over]; steady. Qed.
#[local] Hint Resolve steady_update_idle steady_hand_over : steady.
Lemma steady_h2_drain_round i : steady (pool_h2_drain_round decode_content on_user i).
Proof. unfold pool_h2_drain_round, pool_read. steady. Qed.
#[local] Hint Resolve steady_h2_drain_round steady_ploop : steady.
Lemma steady_h2_drain i : steady (pool_h2_drain decode_content on_user i).
Proof. unfold pool_h2_drain. steady. Qed.
#[local] Hint Resolve steady_h2_drain : steady.
Lemma steady_h2_on_ready i e : steady (pool_h2_on_ready decode_content on_user h2req_start i e).
Proof. unfold pool_h2_on_ready, pool_conn_fallback_legacy. steady. Qed.
Lemma steady_h1_on_ready i e : steady (pool_h1_on_ready decode_content on_user i e).
Proof. unfold pool_h1_on_ready. steady. Qed.
Lemma steady_h1_on_response r hr : steady (pool_h1_on_response decode_content on_user r hr).
Proof. unfold pool_h1_on_response, pool_dec_inflight. steady. Qed.
#[local] Hint Resolve steady_h1_on_response steady_h2_on_ready steady_h1_on_ready : steady.
Lemma steady_h1_responses r l : steady (h1_responses decode_content on_user r l).
Proof. induction l as [|hr l IH]; cbn [h1_responses]; steady. Qed.
Lemma steady_h3_find l sid i : steady (pool_h3_find l sid i : PM _).
Proof. revert i. induction l as [|r l IH]; intros i; cbn [pool_h3_find]; steady. Qed.
#[local] Hint Resolve steady_h1_responses steady_h3_find : steady.
Lemma steady_h3_find_stream hc sid : steady (pool_h3_find_stream hc sid : PM _).
Proof. unfold pool_h3_find_stream. steady. Qed.
Lemma steady_h3_remove i sid : steady (pool_h3_remove_stream i sid : PM _).
Proof. unfold pool_h3_remove_stream. steady. Qed.
#[local] Hint Resolve steady_h3_find_stream steady_h3_remove : steady.
Lemma steady_h3_finish i r : steady (pool_h3_finish decode_content on_user i r).
Proof. unfold pool_h3_finish, pool_dec_inflight. steady. Qed.
#[local] Hint Resolve steady_h3_finish : steady.
Lemma steady_h3_data i sid d fin : steady (pool_h3_on_stream_data decode_content on_user i sid d fin).
Proof. unfold pool_h3_on_stream_data. steady. Qed.
Lemma steady_h3_stream_close i sid : steady (pool_h3_on_stream_close decode_content on_user i sid).
Proof. unfold pool_h3_on_stream_close. steady. Qed.
Lemma steady_h3_on_ready i e : steady (pool_h3_on_ready decode_content on_user i e).
Proof. unfold pool_h3_on_ready. steady. Qed.
#[local] Hint Resolve steady_h3_data steady_h3_stream_close steady_h3_on_ready : steady.
Lemma steady_items i items : steady (quic_items decode_content on_user i items).
Proof. induction items as [|it items IH]; cbn [quic_items]; steady. Qed.
Lemma steady_timeout r : steady (pool_req_timeout decode_content on_user r).
Proof. unfold pool_req_timeout, pool_stream_reset, pool_dec_inflight. steady. Qed.
Lemma steady_sweep_loop fuel i t : steady (sweep_loop fuel i t : PM _).
Proof. revert i. induction fuel as [|fuel IH]; intros i; cbn [sweep_loop]; steady. Qed.
Lemma steady_drain_loop i : steady (drain_loop i : PM _).
Proof. induction i as [|i IH]; cbn [drain_loop]; steady. Qed.
Lemma steady_break_loop l : steady (break_loop l : PM _).
Proof. induction l as [|i l IH]; cbn [break_loop]; steady. Qed.
Lemma steady_evict_loop i : steady (evict_loop i : PM _).
Proof. induction i as [|i IH]; cbn [evict_loop]; steady. Qed.
#[local] Hint Resolve steady_items steady_timeout steady_sweep_loop steady_drain_loop steady_break_loop steady_evict_loop : steady.

(** ** The events *)
Definition reads_h1 (ev : pool_event (T:=T) (Q:=Q)) s : Prop :=
  exists i t c, ev = EvTcpReadable i t /\ p_pcs s !! i = Some c /\ pc_proto c = PoolProto_H1.
(** Only reading the bytes of an HTTP/1.1 connection reads a released session. *)
Lemma steady_handle ev s x s' : ~ reads_h1 ev s -> pool_handle decode_content on_user h2req_start ev s = Some (x, s') -> p_stale s' = p_stale s.
Proof.
  intros Hn. assert (Hs : (forall i t, ev <> EvTcpReadable i t) -> steady (pool_handle decode_content on_user h2req_start ev)).
  { intros Hr. destruct ev as [| |i t| | | | | | | | | | |]; try by destruct (Hr i t); cbn [pool_handle].
    all: cbn [pool_handle]; unfold pool_h1_on_closed, pool_h2_on_closed, on_quic, pool_h3_recv_done, pool_sweep_cb, pool_evict_all, pool_drain,
      pool_h1_on_fully_closed, pool_h2_on_fully_closed, pool_h3_on_fully_closed; steady. }
  assert (Hc : (forall i t, ev <> EvTcpReadable i t) \/ exists i t, ev = EvTcpReadable i t) by (destruct ev; by eauto).
  destruct Hc as [Hc|(i & t & ->)]; [by apply Hs|].
  cbn [pool_handle]. unfold mbind, PS_bind, upd_pc, get_pc. destruct (p_pcs s !! i) as [c|] eqn:Ei; [|done]. cbn. rewrite lookup_insert_eq. cbn.
  case_bool_decide as Hp; [by destruct Hn; exists i, t, c|]. intros E. by rewrite (steady_h2_drain i _ _ _ E).
Qed.
End frame.
