(* ===== verification/PoolProps.v ===== *)
(** * The connection pool, its guarantees

    The pool under the sequences of events that [pool_laws] and [pool_enabled]
    leave, and every program of its callers: no event uses a request or a
    connection that was given back, and no request is lost or answered twice.
    The runs at the end show what happens outside of these bounds. *)
From stdpp Require Import gmap relations.
From S2P Require Import Prelude String8 U8Buf GrowArr Header Url Redirect OriginCache Proxy ReqHeaders H1 H3Control TcpRequest.
From S2P Require Export PoolSafe PoolFrame.

Section props.
Context `{HSsl : BoringSSL} `{HPhr : PhrApi} `{HMux : H2Mux} `{HQpk : Qpack} {T Q : Type} `{HTcp : !TcpApi T} `{HStr : !QuicStreams Q} `{HQuic : !QuicApi Q}.
Context (decode_content : bytes -> bytes -> option bytes).
Context (open : h2_session -> list (Z * nat)) (opened : Q -> list Z).
Abbreviation PM := (PM T Q).
Abbreviation Pool := (Pool T Q).
Abbreviation PoolConn := (PoolConn T Q).
Implicit Types (s : Pool) (c : PoolConn) (q : PoolReq).

(** ** Callers

    A caller's program says which requests a callback dispatches; callbacks
    that are called inside of a dispatch nest, up to [n] deep. *)
Record PoolCall := mkCall {
  k_proto : PoolProto;
  k_method : Method;
  k_url : bytes;
  k_headers : list Header;
  k_body : bytes;
  k_user : nat;
  k_deadline : bool;
  k_order : bytes
}.
Context (prog : nat -> Delivery -> list PoolCall) (legacy : PoolParams -> PM unit).
Fixpoint run_calls (on_user : nat -> Delivery -> PM unit) (l : list PoolCall) : PM unit :=
  match l with
  | [] => pskip
  | k :: l =>
      pool_dispatch decode_content on_user (k_proto k) (k_method k) (k_url k) (k_headers k) (k_body k) (k_user k) (k_deadline k) (k_order k);;
      run_calls on_user l
  end.
Fixpoint caller (n : nat) (user : nat) (d : Delivery) : PM unit :=
  match n with O => pskip | S n => run_calls (caller n) (prog user d) end.

(** ** The states the pool goes through *)
Definition pool_run (n : nat) (ev : pool_event (T:=T) (Q:=Q)) (s : Pool) : option Pool :=
  snd <$> pool_handle decode_content (caller n) legacy ev s.
Inductive pool_step (n : nat) : Pool -> Pool -> Prop :=
| pool_step_event ev s s' : pool_enabled opened ev s -> pool_run n ev s = Some s' -> pool_step n s s'.

(** What the pool relies on. The sessions and transports keep to their
    documentation ([pl_h2], [pl_quic]). The rest are restrictions on the runs,
    each of which leaves out something that can happen: no HTTP/2 stream closes
    inside of a submission or a cancellation, no QUIC connection inside of a send
    or a reset, no connection fails before [conn_connect] returns, and the start
    of a request outside of the pool calls nobody back. *)
Record pool_laws : Prop := {
  pl_h2 : h2_laws open;
  pl_quic : quic_laws opened;
  pl_h2_calm : h2_calm;
  pl_quic_calm : quic_calm Q;
  pl_tcp_async cs host port : snd (tcp_connect (T:=T) cs host port) = None;
  pl_quic_async cs prof host port : snd (quic_connect (Q:=Q) cs prof host port) = None;
  pl_legacy p s : exists s', legacy p s = Some (tt, s') /\ same_pool s s'
}.

(** [r] waits or is in flight on a connection of its own. *)
Definition lives s (r : nat) q : Prop :=
  exists i c, pr_pc q = Some i /\ p_pcs s !! i = Some c /\ pc_state c <> PoolConnState_Closing /\ pr_responded q = false /\
    pr_proto q = pc_proto c /\ str8_cstring (pool_key (pp_origin (pr_params q))) = str8_cstring (pc_origin c) /\ r ∈ reqs_of c.

Lemma inv_alloc cl now : Inv open opened [] quiet (pool_alloc cl now : Pool).
Proof.
  constructor; cbn; try done.
  - constructor.
  - intros i. rewrite lookup_empty. split; [intros Hi; by apply elem_of_nil in Hi|intros Hi; by apply is_Some_None in Hi].
  - unfold POOL_MAX_CONNS. lia.
  - intros i Hi. rewrite lookup_empty in Hi. by apply is_Some_None in Hi.
  - intros i Hi. rewrite lookup_empty in Hi. by apply is_Some_None in Hi.
  - constructor.
  - intros r Hr. by apply elem_of_nil in Hr.
  - intros r Hr. lia.
  - constructor.
  - intros r Hr. by apply elem_of_nil in Hr.
Qed.
Lemma wp_some (m : PM unit) (Post : unit -> Pool -> Prop) s : wp m Post s -> exists s', m s = Some (tt, s') /\ Post tt s'.
Proof. unfold wp. destruct (m s) as [[[] s']|]; [|done]. by exists s'. Qed.

Lemma inv_lives s r q : Inv open opened [] quiet s -> p_reqs s !! r = Some q -> (r ∉ (p_log s).*1) /\ lives s r q.
Proof.
  intros HI Er. destruct (i_home _ _ _ _ _ HI r q Er) as [HF|(i & c & Hpc & Ei & Hin)]; [by apply elem_of_nil in HF|].
  destruct (in_queue open opened [] quiet s i c r eq_refl HI Ei Hin) as (q2 & E2 & _ & Hp & Hf & Hk). assert (q2 = q) as -> by congruence.
  split; [by apply (i_log _ _ _ _ _ HI r q)|]. exists i, c. repeat (split; [done|]). split; [|done].
  intros Hst. rewrite (co_closing _ _ _ _ _ _ (i_conn _ _ _ _ _ HI i c Ei) Hst) in Hin. by apply elem_of_nil in Hin.
Qed.

Section under_laws.
Context (HL : pool_laws).
Lemma legacy_wp p s : wp (legacy p) (fun _ s' => same_pool s s') s.
Proof. destruct (pl_legacy HL p s) as (s' & E & H). unfold wp. by rewrite E. Qed.
Lemma calm_skip : calm open opened (pskip : PM unit).
Proof. intros F D s HI. split; [done|apply evolves_refl]. Qed.
Lemma calm_calls on_user : (forall u d, calm open opened (on_user u d)) -> forall l, calm open opened (run_calls on_user l).
Proof.
  intros Hu. induction l as [|k l IH]; intros F D s HI; [by apply calm_skip|]. cbn [run_calls]. eapply wp_then; [done|].
  eapply wp_mono; [apply (calm_dispatch decode_content open opened (pl_h2 HL) (pl_quic HL) (pl_h2_calm HL) (pl_quic_calm HL) (pl_tcp_async HL) (pl_quic_async HL) on_user legacy Hu legacy_wp _ _ _ _ _ _ _ _ F D s HI)|].
  intros [] s1 [Hi He]. split; [done|]. by apply IH.
Qed.
Lemma calm_caller n u d : calm open opened (caller n u d).
Proof. revert u d. induction n as [|n IH]; intros u d; [apply calm_skip|]. cbn [caller]. by apply calm_calls. Qed.
Lemma steady_caller n u d : steady (caller n u d).
Proof.
  revert u d. induction n as [|n IH]; intros u d; cbn [caller]; [apply steady_skip|]. generalize (prog u d) as l.
  induction l as [|k l IHl]; cbn [run_calls]; [apply steady_skip|]. apply steady_bind; [by apply steady_dispatch|done].
Qed.
Lemma steady_legacy p : steady (legacy p).
Proof. intros s x s' E. destruct (pl_legacy HL p s) as (s1 & E1 & Hs). assert (s1 = s') as -> by congruence. apply Hs. Qed.
Lemma run_stale n ev s s' : ~ reads_h1 ev s -> pool_run n ev s = Some s' -> p_stale s' = p_stale s.
Proof.
  unfold pool_run. intros Hn E. destruct (pool_handle decode_content (caller n) legacy ev s) as [[x s1]|] eqn:E1; [|done]. injection E as <-.
  exact (steady_handle decode_content (caller n) legacy (steady_caller n) steady_legacy ev s x s1 Hn E1).
Qed.
Lemma run_inv n ev s : Inv open opened [] quiet s -> pool_enabled opened ev s ->
  exists s', pool_run n ev s = Some s' /\ Inv open opened [] quiet s'.
Proof.
  intros HI He. pose proof (wp_handle decode_content open opened (pl_h2 HL) (pl_quic HL) (pl_h2_calm HL) (pl_quic_calm HL) (pl_tcp_async HL) (pl_quic_async HL)
    (caller n) legacy (calm_caller n) legacy_wp ev s HI He) as W.
  apply wp_some in W as (s' & E & Hi). exists s'. unfold pool_run. by rewrite E.
Qed.
Lemma reaches_inv n cl now s : rtc (pool_step n) (pool_alloc cl now) s -> Inv open opened [] quiet s.
Proof.
  intros Hr. apply (rtc_ind_r (fun x => Inv open opened [] quiet x) (pool_alloc cl now)) with (z := s) in Hr; [done|apply inv_alloc|].
  intros y z _ Hyz HI. destruct Hyz as [ev y z He Hz]. destruct (run_inv n ev y HI He) as (z' & E & Hi). congruence.
Qed.
End under_laws.

(** ** Properties *)

(** C2. The pool does not use a request or a connection it gave back: from the
    empty pool, whatever requests are dispatched, by callbacks too, and whatever
    the transports, the timers and the peers do within [pool_laws], every event
    that [pool_enabled] allows runs to its end with all the requests and
    connections it touches still there; and unless it reads the bytes of an
    HTTP/1.1 connection it uses no released HTTP/1.1 session either ([p_stale]
    lists such reads). What this leaves out does go wrong in the code: the
    sweep, an eviction and a drain are taken only when no connection they close
    has waiting requests ([pool_evict_strands] is what happens otherwise), and
    the four restrictions of [pool_laws] exclude [conn_connect] failing before it
    returns, a stream closing inside of a submission or a cancellation
    ([pool_submit_answered]), a QUIC connection closing inside of a send
    ([pool_send_closes]), and a callback during the hand-over to the path
    outside of the pool. *)
Theorem pool_never_dangles n cl now s ev : pool_laws -> rtc (pool_step n) (pool_alloc cl now) s ->
  pool_enabled opened ev s -> exists s', pool_run n ev s = Some s' /\ (~ reads_h1 ev s -> p_stale s' = p_stale s).
Proof.
  intros HL Hr He. destruct (run_inv HL n ev s (reaches_inv HL n cl now s Hr) He) as (s' & E & _). exists s'.
  split; [done|]. intros Hn. by apply (run_stale HL n ev s s').
Qed.

(** C1. No request is lost and none is answered twice, in the runs that
    [pool_laws] and [pool_enabled] leave (see [pool_never_dangles] for what they
    exclude; an eviction outside of them does lose requests,
    [pool_evict_strands]): in every state of the pool a request that was
    dispatched either was answered (or handed over) exactly once and its memory
    is free, or it was not and is in exactly one place, the queue or the requests
    in flight of one connection that is not closing, of its own protocol and of
    its origin, as far as the 255 bytes a connection keeps of it tell. *)
Theorem pool_request_once n cl now s : pool_laws -> rtc (pool_step n) (pool_alloc cl now) s ->
  NoDup (p_log s).*1 /\
  (forall r, (r < p_next_req s)%nat ->
    match p_reqs s !! r with
    | Some q => (r ∉ (p_log s).*1) /\ lives s r q
    | None => r ∈ (p_log s).*1
    end) /\
  (forall i c, p_pcs s !! i = Some c -> NoDup (reqs_of c) /\ forall r, r ∈ reqs_of c -> exists q, p_reqs s !! r = Some q /\ pr_pc q = Some i).
Proof.
  intros HL Hr. pose proof (reaches_inv HL n cl now s Hr) as HI. split; [apply (i_once _ _ _ _ _ HI)|]. split.
  - intros r Hlt. destruct (p_reqs s !! r) as [q|] eqn:Er; [|by apply (i_freed _ _ _ _ _ HI)].
    by apply inv_lives.
  - intros i c Ei. pose proof (i_conn _ _ _ _ _ HI i c Ei) as Hok. split; [apply (co_nodup _ _ _ _ _ _ Hok)|].
    intros r Hin. destruct (co_reqs _ _ _ _ _ _ Hok r Hin) as (q & E & Hpc & _). by exists q.
Qed.

(** C15. The bounds of the pool, in the runs that [pool_laws] and [pool_enabled]
    leave (a response inside of its own submission, which they exclude, puts the
    count off by one): never more than 256 connections, at most one
    request in flight on an HTTP/1.1 connection and 16 on an HTTP/3 one, and
    the count of requests in flight is the length of the list of them. *)
Theorem pool_bounds n cl now s : pool_laws -> rtc (pool_step n) (pool_alloc cl now) s ->
  (length (p_conns s) <= POOL_MAX_CONNS)%nat /\
  forall i c, p_pcs s !! i = Some c -> i ∈ p_conns s /\ pc_inflight c = length (pc_active c) /\
    (pc_proto c = PoolProto_H1 -> (pc_inflight c <= 1)%nat) /\
    (pc_proto c = PoolProto_H3 -> (pc_inflight c <= POOL_H3_MAX_CONCURRENT)%nat).
Proof.
  intros HL Hr. pose proof (reaches_inv HL n cl now s Hr) as HI. split; [apply (i_cap _ _ _ _ _ HI)|].
  intros i c Ei. pose proof (i_conn _ _ _ _ _ HI i c Ei) as Hok.
  split; [apply (i_conns _ _ _ _ _ HI); by eexists|]. split; [apply (co_inflight _ _ _ _ _ _ Hok)|].
  rewrite (co_inflight _ _ _ _ _ _ Hok). split; intros Hp.
  - apply (co_h1 _ _ _ _ _ _ Hok Hp).
  - destruct (pc_state c) eqn:Hst.
    + destruct (co_handshaking _ _ _ _ _ _ Hok Hst) as [-> _]. cbn. lia.
    + by destruct (co_h3 _ _ _ _ _ _ Hok Hp Hst) as (_ & _ & _ & _ & _ & Hl & _).
    + pose proof (co_closing _ _ _ _ _ _ Hok Hst) as E. unfold reqs_of in E. apply app_nil in E as [_ ->]. cbn. lia.
Qed.

(** A flush of a connection that is not being read ends with nothing
    waiting or no room left: the requests it cannot submit do not keep it
    going, and none waits while it could be in flight. *)
Theorem pool_flush_drains n cl now s i c : pool_laws -> rtc (pool_step n) (pool_alloc cl now) s ->
  p_pcs s !! i = Some c -> pool_in_recv c = false ->
  exists s' c', pool_flush_waiting decode_content (caller n) i s = Some (tt, s') /\ p_pcs s' !! i = Some c' /\
    (pc_waiting c' = [] \/ pool_conn_has_capacity c' = false).
Proof.
  intros HL Hr Ei Hrv. pose proof (reaches_inv HL n cl now s Hr) as HI.
  pose proof (wp_flush_full decode_content open opened (pl_h2 HL) (pl_quic HL) (pl_h2_calm HL) (pl_quic_calm HL) (pl_tcp_async HL) (pl_quic_async HL) (caller n) legacy
    (calm_caller HL n) (legacy_wp HL) [] quiet s i c eq_refl HI Ei) as W.
  apply wp_some in W as (s' & E & _ & c' & Ei' & Hf). exists s', c'. split; [done|]. split; [done|]. apply Hf; [done|by left].
Qed.
End props.

(** ** Runs

    A world that keeps to the laws: the caller's bytes come in chunks, HTTP/2
    streams are numbered, nothing is sent. *)
#[local] Existing Instance demo_ssl.
#[local] Existing Instance demo_phr.
#[local] Existing Instance toy_qpack.
Record DemoTcp := mkDemoTcp { dt_alpn : bytes; dt_in : list bytes }.
#[local] Instance demo_tcp : TcpApi DemoTcp := {|
  tcp_connect _ _ _ := (mkDemoTcp [] [], None);
  tcp_close t := t;
  tcp_send t _ := t;
  tcp_read t := match dt_in t with [] => ([], t) | d :: l => (d, mkDemoTcp (dt_alpn t) l) end;
  tcp_alpn := dt_alpn;
  tcp_ref _ t := t
|}.
(** The streams opened, and whether a packet is being read. *)
Record DemoQuic := mkDemoQuic { dq_next : nat; dq_in_recv : bool }.
#[local] Instance demo_streams : QuicStreams DemoQuic := {|
  quic_open_bidi_stream q := (Some (Z.of_nat (dq_next q)), mkDemoQuic (S (dq_next q)) (dq_in_recv q));
  quic_open_uni_stream q := (Some (Z.of_nat (dq_next q)), mkDemoQuic (S (dq_next q)) (dq_in_recv q));
  quic_stream_send q _ _ _ := q
|}.
#[local] Instance demo_quic : QuicApi DemoQuic := {|
  quic_connect _ _ _ _ := (mkDemoQuic 0 false, None);
  quic_close q := (q, false);
  quic_reset_stream q _ := q;
  quic_send_closed _ := None;
  quic_in_recv := dq_in_recv;
  quic_recv_end q := mkDemoQuic (dq_next q) false;
  quic_alpn _ := lit "h3";
  quic_ref _ q := q
|}.
Definition demo_opened (q : DemoQuic) : list Z := map Z.of_nat (seq 0 (dq_next q)).
Lemma demo_quic_calm : quic_calm DemoQuic.
Proof. by constructor. Qed.
(** The callback of user 1 asks for one more request when it gets an error. *)
Definition demo_call (user : nat) (deadline : bool) : PoolCall :=
  mkCall PoolProto_H1 Method_GET (lit "https://a.b/") [] [] user deadline [].
Definition demo_prog (user : nat) (d : Delivery) : list PoolCall :=
  match user, d with 1%nat, DeliverError _ => [demo_call 2 false] | _, _ => [] end.

Lemma demo_opened_in z q : z ∈ demo_opened q <-> 0 <= z < Z.of_nat (dq_next q).
Proof.
  unfold demo_opened. rewrite list_elem_of_fmap. setoid_rewrite elem_of_seq. split.
  - intros (n & -> & Hn). lia.
  - intros Hz. exists (Z.to_nat z). lia.
Qed.
Lemma demo_quic_laws : quic_laws demo_opened.
Proof.
  constructor; cbn.
  - intros q id q' [= <- <-]. rewrite !demo_opened_in. cbn. lia.
  - intros q o q' [= <- <-]. split; [|done]. intros z. rewrite !demo_opened_in. cbn. lia.
  - intros q o q' [= <- <-]. split; [|done]. intros z. rewrite !demo_opened_in. cbn. lia.
  - done.
  - done.
  - done.
  - intros q z Hz. exact Hz.
  - done.
Qed.
(** *** Executions, over any HTTP/2 session *)
Section runs.
Context {mux : H2Mux}.
Abbreviation DPool := (Pool DemoTcp DemoQuic).
Definition demo_legacy (p : PoolParams) : PM DemoTcp DemoQuic unit := pskip.
Lemma demo_legacy_same p (s : DPool) : exists s', demo_legacy p s = Some (tt, s') /\ same_pool s s'.
Proof. by exists s. Qed.
(** The events of a run that can happen, for connections over TCP and QUIC. *)
Definition demo_can (ev : pool_event (T:=DemoTcp) (Q:=DemoQuic)) (s : DPool) : bool :=
  match ev with
  | EvDispatch _ _ _ _ _ _ _ _ => true
  | EvTcpReady pc _ err =>
      match p_pcs s !! pc with
      | Some c => negb (bool_decide (pc_proto c = PoolProto_H3)) && bool_decide (pc_state c = PoolConnState_Handshaking)
      | None => false
      end
  | EvTcpReadable pc _ =>
      match p_pcs s !! pc with
      | Some c => negb (bool_decide (pc_proto c = PoolProto_H3)) && negb (bool_decide (pc_state c = PoolConnState_Handshaking))
      | None => false
      end
  | EvQuicReady pc x _ =>
      match p_pcs s !! pc with
      | Some c => bool_decide (pc_proto c = PoolProto_H3) && bool_decide (pc_state c = PoolConnState_Handshaking) &&
          match pc_quic c with Some x0 => (dq_next x0 <=? dq_next x)%nat | None => false end
      | None => false
      end
  | EvQuicRecv pc x [QuicClose _] =>
      match p_pcs s !! pc with
      | Some c => bool_decide (pc_proto c = PoolProto_H3) && dq_in_recv x &&
          match pc_quic c with Some x0 => (dq_next x0 <=? dq_next x)%nat | None => false end
      | None => false
      end
  | EvTimeout r => match p_reqs s !! r with Some q => pr_timeout q | None => false end
  | _ => false
  end.
Lemma demo_opened_more x y : (dq_next x <=? dq_next y)%nat = true -> demo_opened x ⊆ demo_opened y.
Proof. intros H%Nat.leb_le z. rewrite !demo_opened_in. lia. Qed.
Lemma demo_can_enabled ev s : demo_can ev s = true -> pool_enabled demo_opened ev s.
Proof.
  destruct ev; cbn; try done.
  - destruct (p_pcs s !! pc) as [c|] eqn:E; [|done]. intros H. bool_props. rewrite bool_decide_eq_false, bool_decide_eq_true in *. by exists c.
  - destruct (p_pcs s !! pc) as [c|] eqn:E; [|done]. intros H. bool_props. rewrite !bool_decide_eq_false in *. by exists c.
  - destruct (p_pcs s !! pc) as [c|] eqn:E; [|done]. intros H. apply andb_true_iff in H as [H H3]. apply andb_true_iff in H as [H1 H2].
    apply bool_decide_eq_true in H1, H2. destruct (pc_quic c) as [x0|] eqn:Ex; [|done]. exists c, x0. by pose proof (demo_opened_more _ _ H3).
  - destruct items as [|[| |sid] [|]]; try done. destruct (p_pcs s !! pc) as [c|] eqn:E; [|done]. intros H.
    apply andb_true_iff in H as [H H3]. apply andb_true_iff in H as [H1 H2]. apply bool_decide_eq_true in H1.
    destruct (pc_quic c) as [x0|] eqn:Ex; [|done]. exists c, x0. by pose proof (demo_opened_more _ _ H3).
  - destruct (p_reqs s !! r) as [q|] eqn:E; [|done]. intros H. by exists q.
Qed.
Abbreviation demo_run := (pool_run (fun _ b => Some b) demo_prog demo_legacy 2).
Abbreviation demo_step := (pool_step (fun _ b => Some b) demo_opened demo_prog demo_legacy 2).
Fixpoint demo_exec (evs : list (pool_event (T:=DemoTcp) (Q:=DemoQuic))) (s : DPool) : option DPool :=
  match evs with
  | [] => Some s
  | ev :: evs => if demo_can ev s then match demo_run ev s with Some s => demo_exec evs s | None => None end else None
  end.
Definition demo_client : PoolClient :=
  mkPoolClient demo_tcp_client (mkProxy ProxyType_None [] 0 [] []) None tt demo_h3_profile [] [] 1 0 0 0 0.
Definition demo_pool : DPool := pool_alloc demo_client 0.
Definition demo_at (evs : list (pool_event (T:=DemoTcp) (Q:=DemoQuic))) : DPool := default demo_pool (demo_exec evs demo_pool).
Lemma demo_at_reached evs : (if demo_exec evs demo_pool is Some _ then true else false) = true -> rtc demo_step demo_pool (demo_at evs).
Proof.
  unfold demo_at. generalize demo_pool as s. intros s. revert s. induction evs as [|ev evs IH]; intros s; cbn [demo_exec]; [done|].
  destruct (demo_can ev s) eqn:Ec; [|done]. destruct (demo_run ev s) as [s1|] eqn:E1; [|done]. intros H.
  eapply rtc_l; [econstructor; [by apply demo_can_enabled|exact E1]|].
  specialize (IH s1 H). by destruct (demo_exec evs s1).
Qed.
End runs.
Abbreviation DPool := (Pool DemoTcp DemoQuic).
Abbreviation demo_run := (pool_run (fun _ b => Some b) demo_prog demo_legacy 2).
Abbreviation demo_step := (pool_step (fun _ b => Some b) demo_opened demo_prog demo_legacy 2).

(** *** A toy session *)
#[local] Instance demo_mux : H2Mux := {|
  h2_session := Z * gmap Z nat;
  h2_alloc := Some (1, ∅);
  h2_start h := (true, h, []);
  h2_submit h _ _ _ _ _ _ r :=
    match snd h !! fst h with
    | None => if 0 <? fst h then RunEnd (fst h) (fst h + 2, <[fst h := r]> (snd h)) else RunEnd (-1) h
    | Some _ => RunEnd (-1) h
    end;
  h2_recv h _ := RunEnd 0 h;
  h2_cancel h sid := RunEnd tt (fst h, delete sid (snd h));
  h2_goaway _ := false;
  h2_max_concurrent _ := 100
|}.
Definition demo_open (h : Z * gmap Z nat) : list (Z * nat) := map_to_list (snd h).
Lemma demo_h2_laws : h2_laws demo_open.
Proof.
  constructor; unfold demo_open; cbn.
  - intros h ok h' sends [= <-] [= <- <- <-]. apply map_to_list_empty.
  - intros [n m] me sc au pa hs b r sid h'. cbn. destruct (m !! n) eqn:Em.
    + by intros [= <- <-].
    + destruct (Z.ltb_spec 0 n); intros [= <- <-]; [|done]. rewrite (proj2 (Z.ltb_ge n 0)) by lia. cbn.
      by apply map_to_list_insert.
  - intros [n m] me sc au pa hs b r sid h'. cbn. destruct (m !! n); [by intros [= <- <-]|].
    destruct (0 <? n); by intros [= <- <-].
  - done.
  - intros [n m] sid x h' [= <- <-]. cbn. apply NoDup_Permutation.
    + apply NoDup_map_to_list.
    + apply NoDup_filter, NoDup_map_to_list.
    + intros [k v]. rewrite list_elem_of_filter, !elem_of_map_to_list, lookup_delete_Some. cbn. naive_solver.
  - intros h. apply NoDup_fst_map_to_list.
Qed.
Lemma demo_h2_calm : h2_calm.
Proof.
  constructor; cbn; [|by eexists]. intros [n m] me sc au pa hs b r. cbn. destruct (m !! n); [by eexists|]. destruct (0 <? n); by eexists.
Qed.
Lemma demo_laws : pool_laws demo_open demo_opened demo_legacy.
Proof. constructor; [apply demo_h2_laws|apply demo_quic_laws|apply demo_h2_calm|apply demo_quic_calm|done|done|apply demo_legacy_same]. Qed.

Definition demo_dispatch (user : nat) (deadline : bool) : pool_event (T:=DemoTcp) (Q:=DemoQuic) :=
  EvDispatch PoolProto_H1 Method_GET (lit "https://a.b/") [] [] user deadline [].
Definition demo_ready : pool_event (T:=DemoTcp) (Q:=DemoQuic) := EvTcpReady 0 (mkDemoTcp (lit "http/1.1") []) None.
Definition demo_bytes (b : bytes) : pool_event (T:=DemoTcp) (Q:=DemoQuic) := EvTcpReadable 0 (mkDemoTcp (lit "http/1.1") [b]).
(** The answered requests with the body each got. *)
Definition demo_bodies (s : DPool) : list (nat * option bytes) :=
  map (fun x => (fst x, match snd x with Delivered (DeliverResponse r _) => Some (Redirect.r_body r) | _ => None end)) (p_log s).
Definition demo_reply : bytes := [1; 2; 3] ++ lit "hi".
(** One request is answered, the next is in flight. *)
Definition demo_served : list (pool_event (T:=DemoTcp) (Q:=DemoQuic)) :=
  [demo_dispatch 1 true; demo_ready; demo_dispatch 0 true; demo_bytes demo_reply].

Lemma pool_never_dangles_witness :
  exists s', demo_run (EvTimeout 1) (demo_at demo_served) = Some s' /\ p_stale s' = p_stale (demo_at demo_served).
Proof.
  assert (Hn : ~ reads_h1 (EvTimeout 1 : pool_event (T:=DemoTcp) (Q:=DemoQuic)) (demo_at demo_served)) by by intros (i & t & c & H & _).
  cut (exists s', demo_run (EvTimeout 1) (demo_at demo_served) = Some s' /\
    (~ reads_h1 (EvTimeout 1) (demo_at demo_served) -> p_stale s' = p_stale (demo_at demo_served)));
    [intros (s' & H1 & H2); exists s'; split; [exact H1|exact (H2 Hn)]|].
  refine (pool_never_dangles (fun _ b => Some b) demo_open demo_opened demo_prog demo_legacy 2 demo_client 0 (demo_at demo_served)
    (EvTimeout 1) demo_laws (demo_at_reached demo_served _) (demo_can_enabled _ _ _)); vm_compute; reflexivity.
Defined.
Lemma pool_request_once_witness :
  demo_bodies (demo_at demo_served) = [(0%nat, Some (lit "hi"))] /\
  match p_reqs (demo_at demo_served) !! 1%nat with
  | Some q => (1%nat ∉ (p_log (demo_at demo_served)).*1) /\ lives (demo_at demo_served) 1 q
  | None => 1%nat ∈ (p_log (demo_at demo_served)).*1
  end.
Proof.
  split; [vm_compute; reflexivity|].
  refine (proj1 (proj2 (pool_request_once (fun _ b => Some b) demo_open demo_opened demo_prog demo_legacy 2 demo_client 0
    (demo_at demo_served) demo_laws (demo_at_reached demo_served _))) 1%nat _); [vm_compute; reflexivity|].
  apply Nat.ltb_lt. vm_compute. reflexivity.
Defined.
Lemma pool_bounds_witness : (length (p_conns (demo_at demo_served)) <= POOL_MAX_CONNS)%nat.
Proof.
  refine (proj1 (pool_bounds (fun _ b => Some b) demo_open demo_opened demo_prog demo_legacy 2 demo_client 0
    (demo_at demo_served) demo_laws (demo_at_reached demo_served _))). vm_compute. reflexivity.
Defined.
Definition demo_conn (s : DPool) (i : nat) : PoolConn DemoTcp DemoQuic :=
  default (mkPoolConn PoolProto_H1 [] None None None None PoolConnState_Closing false false false 0 0 [] []) (p_pcs s !! i).
Lemma demo_conn_at s i : (if p_pcs s !! i is Some _ then true else false) = true -> p_pcs s !! i = Some (demo_conn s i).
Proof. unfold demo_conn. by destruct (p_pcs s !! i). Qed.
Lemma pool_flush_drains_witness :
  exists s' c', pool_flush_waiting (fun _ b => Some b) (caller (fun _ b => Some b) demo_prog 2) 0 (demo_at demo_served) = Some (tt, s') /\ p_pcs s' !! 0%nat = Some c' /\
    (pc_waiting c' = [] \/ pool_conn_has_capacity c' = false).
Proof.
  refine (pool_flush_drains (fun _ b => Some b) demo_open demo_opened demo_prog demo_legacy 2 demo_client 0
    (demo_at demo_served) 0 (demo_conn (demo_at demo_served) 0) demo_laws (demo_at_reached demo_served _) (demo_conn_at _ _ _) _);
    vm_compute; reflexivity.
Defined.

(** An HTTP/1.1 request that times out leaves its connection in use: the
    connection counts as free, the next request to the origin is sent on it,
    and the response that was under way for the first is given to the second. *)
Theorem pool_h1_timeout_crosses :
  let evs := [demo_dispatch 0 true; demo_ready; EvTimeout 0; demo_dispatch 3 true; demo_bytes demo_reply] in
  rtc demo_step demo_pool (demo_at evs) /\ p_conns (demo_at evs) = [0%nat] /\
  demo_bodies (demo_at evs) = [(0%nat, None); (1%nat, Some (lit "hi"))].
Proof. cbv zeta. split; [apply demo_at_reached; vm_compute; reflexivity|]. split; vm_compute; reflexivity. Qed.

(** The response to a HEAD request is complete with its head:
    [h1_session_recv] reads the state of its session after
    [pool_h1_on_response] has released it. *)
Theorem pool_h1_reads_released :
  let evs := [EvDispatch PoolProto_H1 Method_HEAD (lit "https://a.b/") [] [] 0%nat false []; demo_ready; demo_bytes [1; 2; 3]] in
  rtc demo_step demo_pool (demo_at evs) /\ (p_log (demo_at evs)).*1 = [0%nat] /\ p_stale (demo_at evs) = [0%nat].
Proof. cbv zeta. split; [apply demo_at_reached; vm_compute; reflexivity|]. split; vm_compute; reflexivity. Qed.

(** Any events, over any transports. *)
Section anyhow.
Context {mux : H2Mux} {ta : TcpApi DemoTcp} {qa : QuicApi DemoQuic}.
Fixpoint runs_anyhow (evs : list (pool_event (T:=DemoTcp) (Q:=DemoQuic))) (s : Pool DemoTcp DemoQuic) : option (Pool DemoTcp DemoQuic) :=
  match evs with
  | [] => Some s
  | ev :: evs =>
      match pool_run (HMux:=mux) (HTcp:=ta) (HQuic:=qa) (fun _ b => Some b) demo_prog demo_legacy 2 ev s with
      | Some s => runs_anyhow evs s
      | None => None
      end
  end.
End anyhow.
Abbreviation demo_runs := (runs_anyhow (mux:=demo_mux) (ta:=demo_tcp) (qa:=demo_quic)).
(** Request 0 is still there, on no connection and without an outcome, and its
    deadline reads the connection it had. *)
Definition stranded (s : DPool) : bool :=
  (length (p_conns s) =? 0)%nat && (length (p_log s) =? 0)%nat && match p_reqs s !! 0%nat with Some _ => true | None => false end &&
  match demo_run (EvTimeout 0) s with None => true | Some _ => false end.

(** Changing the proxy loses the requests that wait for a connection to be
    set up: a connection with none in flight is closed with its queue, the
    requests in it are never answered, and a deadline of one of them uses the
    connection after it is freed. *)
Theorem pool_evict_strands :
  stranded <$> demo_runs [demo_dispatch 0 true; EvEvictAll; EvFullyClosed 0] demo_pool = Some true.
Proof. vm_compute. reflexivity. Qed.

(** A response stream that is reset before any bytes of a response. *)
Definition demo_reset (next : nat) (sid : Z) : pool_event (T:=DemoTcp) (Q:=DemoQuic) := EvQuicRecv 0 (mkDemoQuic next true) [QuicClose sid].

(** An HTTP/3 request is retried after its stream is reset, and then no
    longer hears of resets: the mark that its stream ended stays on, so when the
    stream of the retry is reset as well the request stays in flight, with
    retries left, and is not answered. *)
Theorem pool_h3_retry_deaf :
  let evs := [EvDispatch PoolProto_H3 Method_GET (lit "https://a.b/") [] [] 0%nat false [];
              EvQuicReady 0 (mkDemoQuic 0 false) None; demo_reset 4 0; demo_reset 5 4] in
  rtc demo_step demo_pool (demo_at evs) /\ demo_bodies (demo_at evs) = [] /\
  (fun q => (pr_h3_stream_id q, pr_h3_fin q, pr_retries_left q)) <$> (p_reqs (demo_at evs) !! 0%nat) = Some (4, true, 1%nat).
Proof. cbv zeta. split; [apply demo_at_reached; vm_compute; reflexivity|]. split; vm_compute; reflexivity. Qed.

(** *** Outside of the laws *)
(** A session that closes the stream inside of its submission. *)
Definition hasty_mux : H2Mux := {|
  h2_session := Z;
  h2_alloc := Some 1;
  h2_start h := (true, h, []);
  h2_submit h _ _ _ _ _ _ r := RunResponse (h + 2) r (mkH2Response h true 200 [] []) (fun h' => RunEnd h h');
  h2_recv h _ := RunEnd 0 h;
  h2_cancel h _ := RunEnd tt h;
  h2_goaway _ := false;
  h2_max_concurrent _ := 100
|}.
Definition used_freed (o : option (Pool DemoTcp DemoQuic)) : bool := match o with None => true | Some _ => false end.
(** A response inside of its own submission: the request is freed, and
    [pool_h2_submit] goes on with it. *)
Theorem pool_submit_answered :
  (match runs_anyhow (mux:=hasty_mux) (ta:=demo_tcp) (qa:=demo_quic)
    [EvDispatch PoolProto_H2 Method_GET (lit "https://a.b/") [] [] 0%nat false []; EvTcpReady 0 (mkDemoTcp (lit "h2") []) None]
    (pool_alloc demo_client 0) with None => true | Some _ => false end) = true.
Proof. vm_compute. reflexivity. Qed.
(** A QUIC connection whose sends fail, and that is not freed at once. *)
Definition failing_quic : QuicApi DemoQuic := {|
  quic_connect _ _ _ _ := (mkDemoQuic 0 false, None);
  quic_close q := (q, false);
  quic_reset_stream q _ := q;
  quic_send_closed _ := Some None;
  quic_in_recv := dq_in_recv;
  quic_recv_end q := mkDemoQuic (dq_next q) false;
  quic_alpn _ := lit "h3";
  quic_ref _ q := q
|}.
(** A send that closes its connection in the middle of a submission: the
    connection is closed, and the request is put on the list of its requests in
    flight all the same, where nothing answers it; once the connection is freed
    a deadline of the request uses freed memory. *)
Theorem pool_send_closes :
  let evs := [EvDispatch PoolProto_H3 Method_GET (lit "https://a.b/") [] [] 0%nat true []; EvQuicReady 0 (mkDemoQuic 0 false) None] in
  let run := runs_anyhow (mux:=demo_mux) (ta:=demo_tcp) (qa:=failing_quic) in
  (fun s => (map (fun c => (pc_state c, pc_active c)) (map snd (map_to_list (p_pcs s))), p_log s)) <$> run evs (pool_alloc demo_client 0) =
    Some ([(PoolConnState_Closing, [0%nat])], []) /\
  used_freed (run (evs ++ [EvFullyClosed 0; EvTimeout 0]) (pool_alloc demo_client 0)) = true.
Proof. cbv zeta. split; vm_compute; reflexivity. Qed.
(** A TCP transport that fails before [conn_connect] returns. *)
Definition refusing_tcp : TcpApi DemoTcp := {|
  tcp_connect _ _ _ := (mkDemoTcp [] [], Some (lit "refused"));
  tcp_close t := t;
  tcp_send t _ := t;
  tcp_read t := ([], t);
  tcp_alpn := dt_alpn;
  tcp_ref _ t := t
|}.
(** The request that opened such a connection waits on it, closed. *)
Theorem pool_connect_refused :
  (fun s => (map (fun c => (pc_state c, pc_waiting c)) (map snd (map_to_list (p_pcs s))), p_log s)) <$>
    runs_anyhow (mux:=demo_mux) (ta:=refusing_tcp) (qa:=demo_quic) [demo_dispatch 0 true] (pool_alloc demo_client 0) =
  Some ([(PoolConnState_Closing, [0%nat])], []).
Proof. vm_compute. reflexivity. Qed.
