(* ===== verification/H2Pool.v ===== *)
(** * The HTTP/2 session under the pool

    The pool is proved against the interface [H2Mux] and its laws. Here the
    session of h2/h2.c implements that interface: its operations, with the bytes
    sent and the responses given read off its calls, keep the laws the pool
    relies on, when nghttp2 keeps to its documentation. *)
From stdpp Require Import gmap.
From S2P Require Import Prelude String8 Header OriginCache Redirect Proxy H1 H3Control TcpRequest PoolState PoolInv PoolProps.
From S2P Require Export H2Props.

(** What nghttp2 does when it is called to send. [sending own m] holds from the
    call on, with [m] the limit of the peer on open streams, which only a
    received SETTINGS frame changes; [own] is the stream that is reset, if one
    is. *)
Record send_laws `{NgHttp2} (sending : option Z -> Z -> ng -> Prop) : Prop := {
  sd_kept own m : kept_by (sending own m);
  sd_submit n pri nva src r sid n' : ng_submit_request n pri nva src r = (sid, n') ->
    sending None (ng_remote_settings n NGHTTP2_SETTINGS_MAX_CONCURRENT_STREAMS) (ng_session_send n') /\
    ng_remote_settings n' NGHTTP2_SETTINGS_MAX_CONCURRENT_STREAMS = ng_remote_settings n NGHTTP2_SETTINGS_MAX_CONCURRENT_STREAMS;
  sd_cancel n sid err : exists m, sending (Some sid) m (ng_session_send (ng_submit_rst_stream (ng_set_user_data n sid None) sid err));
  sd_settings own m n : sending own m n -> ng_remote_settings n NGHTTP2_SETTINGS_MAX_CONCURRENT_STREAMS = m
}.
(** A restriction on the runs, not something nghttp2 promises: while it sends,
    no stream closes but the one that is reset. nghttp2 can close a new stream in
    the very send of its submission, and the pool does not withstand that
    ([PoolProps.pool_submit_answered]). *)
Definition send_calm `{NgHttp2} (sending : option Z -> Z -> ng -> Prop) : Prop :=
  forall own m n sid err n', sending own m n -> ng_next n = (NgStreamClose sid err, n') -> own = Some sid.

Section pool.
Context `{HNg : NgHttp2} `{HDec : StreamDec} `{HPush : !DecPush}.
Context (sources : ng -> gmap Z NgSource) (owed : option Z -> ng -> Z) (left : ng -> Z) (sending : option Z -> Z -> ng -> Prop).
Context (HS : session_laws sources owed left) (HDR : decoders_return) (HD : send_laws sending) (HC : send_calm sending).
Context (prog : H2Call -> list H2Op) (prof : Http2Profile).
Implicit Types (s : H2Session) (q : Req) (n : ng).
Let HL := HS None.
Abbreviation Inv := (Inv sources).

(** ** The open requests *)
(** The streams with the user of their request. *)
Definition open_map s : gmap Z nat := omap (fun r => rq_user <$> hs_reqs s !! r) (users s).
Definition no_ws s : Prop := forall sid r q, users s !! sid = Some r -> hs_reqs s !! r = Some q -> rq_is_ws q = false.
Definition responses (cs : list H2Call) : list (nat * H2Response) :=
  omap (fun c => match c with CallResponse _ user resp => Some (user, resp) | _ => None end) cs.
Definition sent (cs : list H2Call) : list bytes := omap (fun c => match c with CallSend d => Some d | _ => None end) cs.
Definition new_calls s s' : list H2Call := drop (length (hs_calls s)) (hs_calls s').
Definition fit s : Prop := Inv s /\ no_ws s.

Lemma open_map_lookup s sid : open_map s !! sid = (r ← users s !! sid; rq_user <$> hs_reqs s !! r).
Proof. unfold open_map. rewrite lookup_omap. by destruct (users s !! sid). Qed.
(** Two states with the same streams and the same requests on them. *)
Lemma open_map_closes ev s s' : Inv s -> no_ws s -> step sources (owed None) left 0 ev s s' -> open_map s' = closes ev (open_map s) /\ no_ws s'.
Proof.
  intros HI Hw (_ & _ & _ & _ & _ & U & _ & _ & _ & _ & Hr).
  assert (Hk : forall sid r q, closes ev (users s) !! sid = Some r -> hs_reqs s !! r = Some q ->
    exists q', hs_reqs s' !! r = Some q' /\ rq_user q' = rq_user q /\ rq_is_ws q' = rq_is_ws q).
  { intros sid r q Hu Er. destruct (Hr r q Er) as (q' & Er' & Ha).
    - intros (Hc & Hu' & _). destruct ev as [| |i e| | | |]; try done. cbn in Hu, Hu'. apply lookup_delete_Some in Hu as [Hn Hu].
      by pose proof (user_once _ s _ _ r HI Hu Hu').
    - exists q'. split; [done|]. destruct (applied_same ev s r q) as (_ & E2 & E3 & _). destruct Ha as (_ & _ & _ & _ & ? & _ & ? & _). split; congruence. }
  assert (Hsub : forall sid r, closes ev (users s) !! sid = Some r -> users s !! sid = Some r).
  { intros sid r. destruct ev; try done. cbn. by intros [_ ?]%lookup_delete_Some. }
  split.
  - apply map_eq. intros sid. rewrite open_map_lookup, U.
    assert (E : closes ev (open_map s) !! sid = (r ← closes ev (users s) !! sid; rq_user <$> hs_reqs s !! r)).
    { destruct ev as [| |i e| | | |]; try apply open_map_lookup. cbn. destruct (decide (i = sid)) as [->|Hn].
      - by rewrite !lookup_delete_eq.
      - rewrite !lookup_delete_ne by done. apply open_map_lookup. }
    rewrite E. destruct (closes ev (users s) !! sid) as [r|] eqn:Hu; [|done]. cbn.
    destruct (i_user _ _ HI sid r (Hsub _ _ Hu)) as (q & Er & _). destruct (Hk sid r q Hu Er) as (q' & Er' & E' & _).
    rewrite Er, Er'. cbn. by rewrite E'.
  - intros sid r q' Hu Er'. rewrite U in Hu. destruct (i_user _ _ HI sid r (Hsub _ _ Hu)) as (q & Er & _).
    destruct (Hk sid r q Hu Er) as (q1 & Er1 & _ & E). assert (q1 = q') as -> by congruence. rewrite E. by eapply Hw; [apply Hsub|].
Qed.
Lemma told_response ev s cs : Inv s -> no_ws s -> told ev s cs ->
  responses cs = match ev with NgStreamClose sid err =>
    match users s !! sid with Some r => match hs_reqs s !! r with Some q => [(rq_user q, response sid err q)] | None => [] end | None => [] end
  | _ => [] end.
Proof.
  intros HI Hw Ht. assert (Hn : answered_of cs = [] -> responses cs = []).
  { clear. induction cs as [|c cs IH]; [done|]. destruct c; cbn; try exact IH. done. }
  destruct ev as [| |sid err| | | |]; try by apply Hn. cbn in Ht. destruct (users s !! sid) as [r|] eqn:Hu; [|by subst].
  destruct (i_user _ _ HI sid r Hu) as (q & Er & _). specialize (Ht q Er). rewrite (Hw sid r q Hu Er) in Ht. rewrite Er. by subst.
Qed.

(** ** What an operation does to the open requests *)
(** From [s] to [s'], streams [closed] have ended, each with its response. *)
Definition progress s s' : Prop :=
  Inv s' /\ no_ws s' /\ (hs_goaway_received s = true -> hs_goaway_received s' = true) /\
  exists cs closed, hs_calls s' = hs_calls s ++ cs /\ map snd closed = map fst (responses cs) /\
    map_to_list (open_map s) ≡ₚ closed ++ map_to_list (open_map s').
Lemma responses_app cs1 cs2 : responses (cs1 ++ cs2) = responses cs1 ++ responses cs2.
Proof. apply omap_app. Qed.
Lemma progress_same s s' : Inv s' -> no_ws s' -> (hs_goaway_received s = true -> hs_goaway_received s' = true) ->
  hs_calls s' = hs_calls s -> open_map s' = open_map s -> progress s s'.
Proof.
  intros H1 H2 H3 H4 H5. split; [done|]. split; [done|]. split; [done|]. exists [], []. rewrite app_nil_r, H4, H5. done.
Qed.
Lemma progress_trans s1 s2 s3 : progress s1 s2 -> progress s2 s3 -> progress s1 s3.
Proof.
  intros (_ & _ & G1 & cs1 & l1 & E1 & F1 & P1) (HI & Hw & G2 & cs2 & l2 & E2 & F2 & P2). split; [done|]. split; [done|].
  split; [auto|]. exists (cs1 ++ cs2), (l1 ++ l2). rewrite E2, E1, app_assoc. split; [done|].
  rewrite responses_app, !map_app, F1, F2. split; [done|]. by rewrite P1, P2, app_assoc.
Qed.
Lemma progress_step ev s s' : Inv s -> no_ws s -> step sources (owed None) left 0 ev s s' -> Inv s' -> progress s s'.
Proof.
  intros HI Hw Hst HI'. destruct (open_map_closes ev s s' HI Hw Hst) as [Eo Hw'].
  destruct Hst as (_ & Hg & _ & _ & _ & _ & _ & _ & _ & (cs & Ec & Ht) & _). pose proof (told_response ev s cs HI Hw Ht) as Er.
  split; [done|]. split; [done|]. split; [done|]. exists cs. destruct ev as [| |sid err| | | |].
  3: { cbn [closes] in Eo. destruct (users s !! sid) as [r|] eqn:Hu.
    - destruct (i_user _ _ HI sid r Hu) as (q & Eq & _). rewrite Eq in Er. exists [(sid, rq_user q)]. split; [done|]. rewrite Er. split; [done|].
      rewrite Eo. cbn. rewrite map_to_list_delete; [done|]. rewrite open_map_lookup, Hu. cbn. by rewrite Eq.
    - exists []. rewrite Er, Eo. split; [done|]. split; [done|]. rewrite delete_id; [done|]. rewrite open_map_lookup, Hu. done. }
  all: exists []; rewrite Er, Eo; done.
Qed.
Lemma progress_chain evs s s' : Inv s -> no_ws s -> chain sources (owed None) left evs s s' -> progress s s'.
Proof.
  intros HI Hw Hc. revert HI Hw. induction Hc as [s|ev evs s s1 s' Hst HI1 _ IH]; intros HI Hw; [by apply progress_same|].
  pose proof (progress_step ev s s1 HI Hw Hst HI1) as P. eapply progress_trans; [exact P|]. apply IH; [done|]. by destruct P as (_ & ? & _).
Qed.
Lemma ops_open s s' : Inv s -> no_ws s -> ops_rel sources (owed None) left s s' -> open_map s' = open_map s /\ no_ws s'.
Proof.
  intros HI Hw H. pose proof H as (_ & _ & _ & _ & _ & _ & _ & _ & U & _). split.
  - apply map_eq. intros sid. rewrite !open_map_lookup, U. destruct (users s !! sid) as [r|] eqn:Hu; [|done]. cbn.
    destruct (i_user _ _ HI sid r Hu) as (q & Er & _). destruct (ops_some _ _ _ _ _ _ _ H Er) as (q' & Er' & Ha).
    rewrite Er, Er'. cbn. by destruct Ha as (_ & _ & _ & _ & -> & _).
  - intros sid r q' Hu Er'. rewrite U in Hu. destruct (i_user _ _ HI sid r Hu) as (q & Er & _).
    destruct (ops_some _ _ _ _ _ _ _ H Er) as (q1 & Er1 & Ha). assert (q1 = q') as -> by congruence.
    destruct Ha as (_ & _ & _ & _ & _ & _ & -> & _). by eapply Hw.
Qed.
Lemma progress_ops s s' : Inv s -> no_ws s -> ops_rel sources (owed None) left s s' -> progress s s'.
Proof.
  intros HI Hw H. destruct (ops_open s s' HI Hw H) as [E Hw']. pose proof H as (_ & _ & Hg & _ & _ & _ & Hc & _).
  apply progress_same; try done; [by eapply inv_ops|congruence].
Qed.
Lemma progress_quiet s s' : Inv s -> no_ws s -> quiet sources (owed None) s s' -> progress s s'.
Proof.
  intros HI Hw Hq. pose proof (inv_quiet _ _ _ _ HI Hq) as HI'. destruct Hq as (n' & _ & -> & U & _).
  apply progress_same; try done.
  - intros sid r q Hu. rewrite U in Hu. exact (Hw sid r q Hu).
  - apply map_eq. intros sid. rewrite !open_map_lookup, U. done.
Qed.
Lemma progress_called E s s' : Inv s -> no_ws s -> called sources (owed None) left E s s' -> progress s s'.
Proof.
  intros HI Hw (_ & _ & s0 & evs & Hq & (s1 & Hc & Ho) & _). pose proof (progress_quiet s s0 HI Hw Hq) as P0.
  pose proof P0 as (HI0 & Hw0 & _). pose proof (progress_chain evs s0 s1 HI0 Hw0 Hc) as P1. pose proof P1 as (HI1 & Hw1 & _).
  eapply progress_trans; [exact P0|]. eapply progress_trans; [exact P1|]. by apply progress_ops.
Qed.
(** No response when no stream ends. *)
Lemma progress_silent s0 s s' : hs_calls s = hs_calls s0 -> progress s s' -> open_map s' = open_map s -> responses (new_calls s0 s') = [].
Proof.
  intros E0 (_ & _ & _ & cs & closed & Ec & Em & P) Eo. unfold new_calls. rewrite Ec, E0, drop_app_length. rewrite Eo in P.
  apply Permutation_length in P. rewrite length_app in P. destruct closed as [|x closed]; [|cbn in P; lia]. cbn in Em. by destruct (responses cs).
Qed.
(** A call that closes no stream with a request. *)
Lemma chain_still evs s s' : Inv s -> no_ws s -> chain sources (owed None) left evs s s' ->
  Forall (fun ev => is_close ev = true -> users s !! stream_of ev = None) evs -> open_map s' = open_map s /\ Inv s' /\ no_ws s'.
Proof.
  intros HI Hw Hc. revert HI Hw. induction Hc as [s|ev evs s s1 s' Hst HI1 _ IH]; intros HI Hw HF; [done|].
  apply Forall_cons in HF as [He HF]. destruct (open_map_closes ev s s1 HI Hw Hst) as [Eo Hw1].
  assert (Hid : closes ev (users s) = users s /\ closes ev (open_map s) = open_map s).
  { destruct ev; try done. specialize (He eq_refl). cbn in He |- *. split; apply delete_id; [done|]. by rewrite open_map_lookup, He. }
  destruct Hid as [Hu Ho]. destruct (IH HI1 Hw1) as (E & ? & ?).
  - destruct Hst as (_ & _ & _ & _ & _ & U & _). by rewrite U, Hu.
  - rewrite E, Eo, Ho. done.
Qed.
Lemma called_still E s s' : Inv s -> no_ws s -> (forall ev, E ev -> is_close ev = true -> users s !! stream_of ev = None) ->
  called sources (owed None) left E s s' -> open_map s' = open_map s.
Proof.
  intros HI Hw HE (_ & _ & s0 & evs & Hq & (s1 & Hc & Ho) & HF). pose proof (progress_quiet s s0 HI Hw Hq) as (HI0 & Hw0 & _).
  destruct Hq as (n' & _ & E0 & U & _). destruct (chain_still evs s0 s1 HI0 Hw0 Hc) as (E1 & HI1 & Hw1).
  - eapply Forall_impl; [exact HF|]. intros ev Hev Hcl. rewrite U. by apply HE.
  - destruct (ops_open s1 s' HI1 Hw1 Ho) as [-> _]. rewrite E1. apply map_eq. intros sid. by rewrite !open_map_lookup, U, E0.
Qed.

(** ** The operations *)
Lemma no_session_wp {A} (m : PS H2Session A) x s (Post : A -> H2Session -> Prop) : m s = Some (x, s) -> Post x s -> wp m Post s.
Proof. unfold wp. by intros ->. Qed.
Lemma fit_start s : fit s -> wp (h2_session_start prog) (fun _ s' => progress s s') s.
Proof.
  intros [HI Hw]. destruct (hs_session s) as [n|] eqn:Hn.
  - eapply wp_mono; [apply (wp_start sources (owed None) left HL HDR prog s HI); by eexists|]. cbv beta. intros b s' (s1 & Hq & H).
    pose proof (progress_quiet s s1 HI Hw Hq) as P. pose proof P as (HI1 & Hw1 & _). destruct H as [->|H]; [done|].
    eapply progress_trans; [exact P|]. by eapply progress_called.
  - apply (no_session_wp _ false); [|by apply progress_same]. unfold h2_session_start, mbind, PS_bind, pget. by rewrite Hn.
Qed.
Lemma fit_recv data s : fit s -> wp (h2_session_recv prog data) (fun _ s' => progress s s') s.
Proof.
  intros [HI Hw]. destruct (hs_session s) as [n|] eqn:Hn.
  - eapply wp_mono; [apply (wp_h2_recv sources (owed None) left HL HDR prog data s HI); by eexists|]. cbv beta. intros b s' (s1 & H1 & H).
    pose proof (progress_called _ s s1 HI Hw H1) as P. pose proof P as (HI1 & Hw1 & _). destruct H as [->|H]; [done|].
    eapply progress_trans; [exact P|]. by eapply progress_called.
  - apply (no_session_wp _ (-1)); [|by apply progress_same]. unfold h2_session_recv, mbind, PS_bind, pget. by rewrite Hn.
Qed.
Lemma open_map_same s s' : users s' = users s -> hs_reqs s' = hs_reqs s -> open_map s' = open_map s /\ (no_ws s -> no_ws s').
Proof. intros U R. unfold open_map, no_ws. by rewrite U, R. Qed.
Lemma open_map_joined s s1 sid q src : Inv s -> no_ws s -> stream_joined sources (owed None) s s1 sid q src -> rq_is_ws q = false ->
  open_map s1 = <[sid := rq_user q]> (open_map s) /\ no_ws s1 /\ open_map s !! sid = None.
Proof.
  intros HI Hw (_ & Hu & U & _ & _ & _ & R & _) Hq. destruct (next_fresh _ s HI) as (Hf & _).
  assert (Hne : forall i r, users s !! i = Some r -> r <> hs_next s).
  { intros i r Hr ->. destruct (i_user _ _ HI i _ Hr) as (? & ? & _). congruence. }
  split; [|split].
  - apply map_eq. intros i. rewrite open_map_lookup, U, R. destruct (decide (i = sid)) as [->|Hn].
    + rewrite !lookup_insert_eq. cbn. by rewrite lookup_insert_eq.
    + rewrite !lookup_insert_ne by done. rewrite open_map_lookup. destruct (users s !! i) as [r|] eqn:Hr; [|done]. cbn.
      rewrite lookup_insert_ne; [done|]. apply not_eq_sym. by eapply Hne.
  - intros i r q'. rewrite U, R. intros [[<- <-]|[Hn Hr]]%lookup_insert_Some; [rewrite lookup_insert_eq; by intros [= <-]|].
    rewrite lookup_insert_ne by (apply not_eq_sym; by eapply Hne). by eapply Hw.
  - by rewrite open_map_lookup, Hu.
Qed.
Definition submitted s (sid : Z) (user : nat) s' : Prop :=
  fit s' /\ (hs_goaway_received s = true -> hs_goaway_received s' = true) /\
  h2_session_max_concurrent_streams s' = h2_session_max_concurrent_streams s /\ responses (new_calls s s') = [] /\
  if sid <? 0 then open_map s' = open_map s else open_map s !! sid = None /\ open_map s' = <[sid := user]> (open_map s).
Lemma fit_submit m sc au pa hs body user s : fit s ->
  wp (h2_session_submit_request prog m sc au pa hs body user None) (fun sid s' => submitted s sid user s') s.
Proof.
  intros [HI Hw]. destruct (hs_session s) as [n|] eqn:Hn.
  2: { apply (no_session_wp _ (-1)); [|unfold submitted, new_calls; by rewrite drop_all]. unfold h2_session_submit_request, mbind, PS_bind, pget. by rewrite Hn. }
  set (mx := ng_remote_settings n NGHTTP2_SETTINGS_MAX_CONCURRENT_STREAMS).
  assert (Emx : h2_session_max_concurrent_streams s = mx) by (unfold h2_session_max_concurrent_streams; by rewrite Hn).
  set (E := fun ev => is_close ev = true -> None = Some (stream_of ev)).
  eapply wp_mono; [apply (wp_session_submit sources (owed None) left HL HDR prog m sc au pa hs body user None (sending None mx)
    (fun n => ng_remote_settings n NGHTTP2_SETTINGS_MAX_CONCURRENT_STREAMS = mx) E s (sd_kept _ HD None mx)); [| |done|by eexists]|].
  - intros n1 ev n2 HK En _ Hc. destruct ev as [| |sid err| | | |]; try done. exact (HC _ _ _ _ _ _ HK En).
  - intros n1 nva src sid n' Hn1 En. assert (n1 = n) as -> by congruence. destruct (sd_submit _ HD _ _ _ _ _ _ _ En). done.
  - cbv beta. intros sid s' [(Hlt & Hk & HT)|(Hge & Hk & s1 & HJ & HI1 & Hc)]; unfold submitted.
    + pose proof (inv_turned_away _ _ _ _ _ HI HT) as HI'. destruct HT as ([n' Hn'] & U & _ & _ & _ & _ & _ & Cs & _ & G & R & _).
      destruct (open_map_same s s' U R) as [Eo Hw']. split; [split; auto|]. split; [by rewrite G|].
      unfold kept, on_ng in Hk. rewrite (proj2 (Z.ltb_lt _ _) Hlt), Emx. unfold h2_session_max_concurrent_streams, new_calls. rewrite Hn' in Hk |- *. rewrite Cs, drop_all. done.
    + destruct (open_map_joined s s1 sid _ _ HI Hw HJ eq_refl) as (E1 & Hw1 & Ef). pose proof (progress_called E s1 s' HI1 Hw1 Hc) as P. pose proof P as (HI' & Hw' & G & _).
      split; [done|]. destruct HJ as (_ & _ & _ & _ & _ & _ & _ & _ & _ & Cs & _ & _ & G1 & _). split; [intros ?; apply G; congruence|].
      assert (Hs' : is_Some (hs_session s')) by by destruct Hc as (_ & ? & _). destruct Hs' as [n' Hn'].
      unfold kept, on_ng in Hk. rewrite Hn' in Hk. split; [rewrite Emx; unfold h2_session_max_concurrent_streams; rewrite Hn'; by apply (sd_settings _ HD) in Hk|].
      assert (Eo : open_map s' = open_map s1) by (apply (called_still E s1 s' HI1 Hw1); [|done]; intros ev He Hcl; by specialize (He Hcl)).
      split; [by apply (progress_silent s s1)|]. rewrite (proj2 (Z.ltb_ge _ _) Hge), Eo. done.
Qed.
(** The pool cancels streams that are open. *)
Definition cancel_open (sid : Z) : PS H2Session unit :=
  o ← pget (fun s => users s !! sid); match o with Some _ => h2_session_cancel_stream prog sid | None => pskip end.
Lemma fit_cancel sid s : fit s -> wp (cancel_open sid) (fun _ s' => fit s' /\ open_map s' = delete sid (open_map s) /\ responses (new_calls s s') = []) s.
Proof.
  intros [HI Hw]. unfold cancel_open. apply wp_bind, wp_pget. destruct (users s !! sid) as [r|] eqn:Hu.
  2: { apply wp_ret. split; [done|]. unfold new_calls. rewrite drop_all. rewrite delete_id; [done|]. by rewrite open_map_lookup, Hu. }
  assert (Hs : is_Some (hs_session s)) by (unfold users, on_ng in Hu; destruct (hs_session s); [by eexists|done]). pose proof Hs as [n Hn].
  destruct (sd_cancel _ HD n sid NGHTTP2_CANCEL) as [m Hm]. set (E := fun ev => is_close ev = true -> Some sid = Some (stream_of ev)).
  eapply wp_mono; [apply (wp_cancel sources (owed None) left HL HDR prog (sending (Some sid) m) E sid s (sd_kept _ HD (Some sid) m));
    [| |done|done|by eexists]|].
  - intros n1 ev n2 HK En _ Hc. destruct ev as [| |sid' err| | | |]; try done. exact (HC _ _ _ _ _ _ HK En).
  - intros n1 Hn1. by assert (n1 = n) as -> by congruence.
  - cbv beta. intros [] s' (_ & s1 & (_ & U & _ & _ & _ & R & _ & _ & Cs & _) & HI1 & Hc).
    assert (Hw1 : no_ws s1) by (intros i r' q; rewrite U, R; intros [_ ?]%lookup_delete_Some; by eapply Hw).
    pose proof (progress_called E s1 s' HI1 Hw1 Hc) as P. pose proof P as (HI' & Hw' & _). split; [done|].
    assert (Eo : open_map s' = open_map s1).
    { apply (called_still E s1 s' HI1 Hw1); [|done]. intros ev He Hcl. specialize (He Hcl). injection He as <-. rewrite U. apply lookup_delete_eq. }
    split; [|by apply (progress_silent s s1)]. rewrite Eo.
    apply map_eq. intros i. rewrite open_map_lookup, U, R. destruct (decide (i = sid)) as [->|Hne]; [by rewrite !lookup_delete_eq|].
    rewrite !lookup_delete_ne by done. symmetry. apply open_map_lookup.
Qed.

(** ** The implementation of the interface *)
Definition PoolSession : Type := { s : H2Session | fit s }.
(** An operation on a session that is fit: it returns, and the session is fit
    again. *)
Definition ps_run {A} (m : PS H2Session A) (Hm : forall s, fit s -> wp m (fun _ s' => fit s') s) (h : PoolSession) : A * PoolSession :=
  (match m (`h) as o return (match o with Some (x, s') => fit s' | None => False end -> A * PoolSession) with
   | Some (x, s') => fun H => (x, exist _ s' H)
   | None => fun H => match H with end
   end) (Hm (`h) (proj2_sig h)).
Lemma progress_fit {A} (m : PS H2Session A) s : wp m (fun _ s' => progress s s') s -> wp m (fun _ s' => fit s') s.
Proof. intros H. eapply wp_mono; [exact H|]. cbv beta. intros _ s' (? & ? & _). done. Qed.
Lemma fit_alloc : fit (h2_session_alloc prof).
Proof.
  split; [by destruct (good_alloc sources owed left HS None prof)|]. intros sid r q _ Hr. cbn in Hr. by rewrite lookup_empty in Hr.
Qed.
Lemma run_start s : fit s -> wp (h2_session_start prog) (fun _ s' => fit s') s.
Proof. intros H. by apply progress_fit, fit_start. Qed.
Lemma run_recv data s : fit s -> wp (h2_session_recv prog data) (fun _ s' => fit s') s.
Proof. intros H. by apply progress_fit, fit_recv. Qed.
Lemma run_submit m sc au pa hs body user s : fit s ->
  wp (h2_session_submit_request prog m sc au pa hs body user None) (fun _ s' => fit s') s.
Proof. intros H. eapply wp_mono; [by apply fit_submit|]. by intros sid s' [? _]. Qed.
Lemma run_cancel sid s : fit s -> wp (cancel_open sid) (fun _ s' => fit s') s.
Proof. intros H. eapply wp_mono; [by apply fit_cancel|]. by intros [] s' [? _]. Qed.

(** A call of the session as the pool sees it, from the calls it made: sends and
    responses in their order. The session shown to a response callback is the one
    the call ends with: h2.c does not tell what it was in between. *)
Fixpoint calls_run {A} (cs : list H2Call) (a : A) (h : PoolSession) : H2Run PoolSession A :=
  match cs with
  | [] => RunEnd a h
  | CallSend d :: cs => RunSend d (calls_run cs a h)
  | CallResponse _ user resp :: cs => RunResponse h user resp (calls_run cs a)
  | _ :: cs => calls_run cs a h
  end.
Definition session_run {A} (h : PoolSession) (x : A * PoolSession) : H2Run PoolSession A :=
  calls_run (new_calls (proj1_sig h) (proj1_sig (snd x))) (fst x) (snd x).
#[local] Instance session_mux : H2Mux := {|
  h2_session := PoolSession;
  h2_alloc := Some (exist _ (h2_session_alloc prof) fit_alloc);
  h2_start h := let '(ok, h') := ps_run (h2_session_start prog) run_start h in (ok, h', sent (new_calls (`h) (`h')));
  h2_submit h m sc au pa hs body r :=
    session_run h (ps_run (h2_session_submit_request prog m sc au pa hs body r None) (run_submit m sc au pa hs body r) h);
  h2_recv h data := session_run h (ps_run (h2_session_recv prog data) (run_recv data) h);
  h2_cancel h sid := session_run h (ps_run (cancel_open sid) (run_cancel sid) h);
  h2_goaway h := h2_session_goaway_received (`h);
  h2_max_concurrent h := h2_session_max_concurrent_streams (`h)
|}.


End pool.

(** ** The pool over this session *)
Section over.
Context `{HNg : NgHttp2} `{HDec : StreamDec} `{HPush : !DecPush}.
Context `{HSsl : BoringSSL} `{HPhr : PhrApi} `{HQpk : Qpack} {T Q : Type} `{HTcp : !TcpApi T} `{HStr : !QuicStreams Q} `{HQuic : !QuicApi Q}.
Context (sources : ng -> gmap Z NgSource) (owed : option Z -> ng -> Z) (left : ng -> Z) (sending : option Z -> Z -> ng -> Prop).
Context (HS : session_laws sources owed left) (HDR : decoders_return) (HD : send_laws sending) (HC : send_calm sending).
Context (hprog : H2Call -> list H2Op) (prof : Http2Profile).
Let mux : H2Mux := session_mux sources owed left sending HS HDR HD HC hprog prof.
#[local] Existing Instance mux.
Context (decode_content : bytes -> bytes -> option bytes) (opened : Q -> list Z).
Context (prog : nat -> Delivery -> list PoolCall) (legacy : PoolParams -> PS (Pool T Q) unit).

End over.

(** ** A run over the toys *)
#[local] Existing Instance demo_ng.
#[local] Existing Instance demo_dec.
#[local] Existing Instance demo_push.
#[local] Existing Instance demo_ssl.
#[local] Existing Instance demo_phr.
#[local] Existing Instance toy_qpack.
#[local] Existing Instance demo_tcp.
#[local] Existing Instance demo_streams.
#[local] Existing Instance demo_quic.
Definition demo_sending (own : option Z) (m : Z) (n : DemoNg) : Prop := m = 100 /\ Forall (fun ev => is_close ev = false) (dn_events n).
Lemma demo_send_laws : send_laws demo_sending.
Proof.
  assert (Hs : forall own n, demo_sending own 100 (ng_session_send n)).
  { intros own n. split; [done|]. cbn. apply Forall_take, Forall_app. split; [|by repeat constructor].
    apply Forall_fmap, Forall_forall. by intros x _. }
  constructor.
  - intros own m. constructor; try done.
    + intros n ev n' Hn. cbn. unfold demo_next. destruct (dn_events n) as [|[] l] eqn:El; intros [= <- <-]; unfold demo_sending in *; cbn; by rewrite ?El in *.
    + intros n ev a [-> Hn]. split; [done|]. cbn. destruct (dn_events n); [done|]. by inversion Hn.
  - intros n pri nva src r sid n' _. split; [apply Hs|done].
  - intros n sid err. exists 100. apply Hs.
  - by intros own m n [-> _].
Qed.
Lemma demo_send_calm : send_calm demo_sending.
Proof.
  intros own m n sid err n' [_ HF]. cbn. unfold demo_next. destruct (dn_events n) as [|e l]; [done|]. apply Forall_cons in HF as [He _].
  destruct e; try done. by destruct (decide _).
Qed.
#[local] Instance toy_mux : H2Mux :=
  session_mux dn_sources dn_owes demo_left demo_sending demo_session_laws demo_decoders_return demo_send_laws demo_send_calm demo_h2_prog demo_h2_prof.
