(* ===== verification/Dispatch.v ===== *)
(** * The client: from a request to the transports (core/client.c, core/ech.c)

    A request of the caller is given its proxy and its headers, follows its
    redirects, may wait for the ECH configuration of its origin, and is handed to
    one of the transports: the connection pool, a TCP connection or a QUIC
    connection of its own. The transports are modelled elsewhere; here a start of
    one is recorded with the callback that its outcome calls, and it may be
    refused at once with an error. The states that wait for an outcome (a redirect
    chain, an ECH prefetch) live in stores by id, as in the arenas they own: an id
    that is not in its store is an arena that was released. *)
From stdpp Require Import gmap.
From S2P Require Import Prelude String8 Base64 Url GrowArr Header SecFetch Redirect OriginCache Proxy Json ReqHeaders TcpRequest.
From S2P Require Export PartialState PoolState.

(** ** ECH configurations out of DNS answers: core/ech.c *)
Definition ech_find_param (data : bytes) : bytes :=
  let i := str8_find data (lit " ech=") in
  if i <? 0 then []
  else
    let rest := str8_skip data (Z.to_nat i + 5) in
    match str8_index_of rest ch_space with
    | Some sp => str8_prefix rest sp
    | None => rest
    end.
(** [yyjson_get_int]: a number cut to an [int]. *)
Definition yyjson_get_int (v : option json) : Z := match v with Some (JInt z) => to_int (wrap64 z) | _ => 0 end.
Fixpoint ech_records (answer : list json) : bytes :=
  match answer with
  | [] => []
  | rec :: answer =>
      if negb (yyjson_get_int (yyjson_obj_get (Some rec) (lit "type")) =? 65) then ech_records answer
      else
        let ech := ech_find_param (json_obj_str (Some rec) (lit "data")) in
        if negb (length ech =? 0)%nat then base64_decode ech else ech_records answer
  end.
Definition ech_config_from_doh (json_parse : bytes -> option json) (body : bytes) : bytes :=
  match json_parse body with
  | None => []
  | Some doc =>
      match yyjson_obj_get (Some doc) (lit "Answer") with
      | Some (JArr answer) => ech_records answer
      | _ => []
      end
  end.

(** ** Data *)
#[export] Instance ProxyConfig_eq_dec : EqDecision ProxyConfig.
Proof. solve_decision. Defined.
(** The parts of the client that say where a request goes. [cc_proxy_ctx] is
    the TLS context for HTTPS proxies, with the verification it was built with. *)
Record ClientConf := mkConf {
  cc_ok : bool;
  cc_h3_ok : bool;              (* an h3 profile, and its context *)
  cc_http_version : HttpVersion;
  cc_proxy : ProxyConfig;
  cc_pool : bool;
  cc_max_conns_per_origin : Z;
  cc_alt_svc : list AltSvcEntry;
  cc_ech_cache : list EchConfigEntry;
  cc_ech_enabled : bool;
  cc_max_redirects : Z;
  cc_timeout_ms : Z;
  cc_proxy_pool : list ProxyConfig;
  cc_proxy_rr : nat;
  cc_proxy_ctx : option bool;
  cc_proxy_verify : bool
}.
Definition set_cc_ech_cache (v : list EchConfigEntry) (c : ClientConf) : ClientConf :=
  mkConf (cc_ok c) (cc_h3_ok c) (cc_http_version c) (cc_proxy c) (cc_pool c) (cc_max_conns_per_origin c) (cc_alt_svc c) v
    (cc_ech_enabled c) (cc_max_redirects c) (cc_timeout_ms c) (cc_proxy_pool c) (cc_proxy_rr c) (cc_proxy_ctx c) (cc_proxy_verify c).
Definition set_cc_proxy (v : ProxyConfig) (c : ClientConf) : ClientConf :=
  mkConf (cc_ok c) (cc_h3_ok c) (cc_http_version c) v (cc_pool c) (cc_max_conns_per_origin c) (cc_alt_svc c) (cc_ech_cache c)
    (cc_ech_enabled c) (cc_max_redirects c) (cc_timeout_ms c) (cc_proxy_pool c) (cc_proxy_rr c) (cc_proxy_ctx c) (cc_proxy_verify c).
Definition set_cc_proxy_pool (v : list ProxyConfig) (rr : nat) (c : ClientConf) : ClientConf :=
  mkConf (cc_ok c) (cc_h3_ok c) (cc_http_version c) (cc_proxy c) (cc_pool c) (cc_max_conns_per_origin c) (cc_alt_svc c) (cc_ech_cache c)
    (cc_ech_enabled c) (cc_max_redirects c) (cc_timeout_ms c) v rr (cc_proxy_ctx c) (cc_proxy_verify c).
Definition set_cc_proxy_ctx (v : option bool) (verify : bool) (c : ClientConf) : ClientConf :=
  mkConf (cc_ok c) (cc_h3_ok c) (cc_http_version c) (cc_proxy c) (cc_pool c) (cc_max_conns_per_origin c) (cc_alt_svc c) (cc_ech_cache c)
    (cc_ech_enabled c) (cc_max_redirects c) (cc_timeout_ms c) (cc_proxy_pool c) (cc_proxy_rr c) v verify.
Definition set_cc_limits (redirects timeout : Z) (ech : bool) (v : HttpVersion) (c : ClientConf) : ClientConf :=
  mkConf (cc_ok c) (cc_h3_ok c) v (cc_proxy c) (cc_pool c) (cc_max_conns_per_origin c) (cc_alt_svc c) (cc_ech_cache c)
    ech redirects timeout (cc_proxy_pool c) (cc_proxy_rr c) (cc_proxy_ctx c) (cc_proxy_verify c).
Definition set_cc_pool (pool : bool) (max : Z) (c : ClientConf) : ClientConf :=
  mkConf (cc_ok c) (cc_h3_ok c) (cc_http_version c) (cc_proxy c) pool max (cc_alt_svc c) (cc_ech_cache c)
    (cc_ech_enabled c) (cc_max_redirects c) (cc_timeout_ms c) (cc_proxy_pool c) (cc_proxy_rr c) (cc_proxy_ctx c) (cc_proxy_verify c).

(** What the outcome of a transport calls: the callback of request [id], the
    redirect chain or the ECH prefetch in the arena [id]. *)
Inductive RespCb := CbUser (id : nat) | CbRedirect (chain : nat) | CbEch (prefetch : nat).
Inductive Transport := ToPool (p : PoolProto) | ToTcp (v : HttpVersion) | ToQuic.
(** The arguments of [client_dispatch]. *)
Record Dispatch := mkDispatch {
  d_method : Method;
  d_url : bytes;
  d_headers : list Header;
  d_body : bytes;
  d_cb : RespCb;
  d_deadline_ns : Z;
  d_proxy : option ProxyConfig;
  d_on_chunk : option nat;
  d_header_order : bytes;
  d_req_version : HttpVersion
}.
Record EchPrefetch := mkPrefetch { pf_origin : bytes; pf_request : Dispatch }.
(** The [RedirectState] of client.c: the part of Redirect.v that changes with
    every hop, and what is sticky. *)
Record Chain := mkChain {
  ch_state : RedirectState;
  ch_user : nat;
  ch_deadline_ns : Z;
  ch_proxy : option ProxyConfig;
  ch_header_order : bytes;
  ch_req_version : HttpVersion
}.
Record RequestParams := mkRequest {
  par_method : Method;
  par_url : bytes;
  par_headers : list Header;
  par_body : bytes;
  par_fetch_mode : FetchMode;
  par_no_redirects : bool;
  par_deadline_ns : Z;
  par_proxy : bytes;
  par_on_chunk : option nat;
  par_header_order : bytes;
  par_http_version : HttpVersion
}.

(** [ds_starts] are the starts of transports, in order; [ds_flight] the
    callbacks of those whose outcome is awaited, by the number of the start;
    [ds_log] the calls of the callers' callbacks. *)
Record DState := mkDState {
  ds_conf : ClientConf;
  ds_now_ms : Z;
  ds_hrtime : Z;
  ds_prefetches : gmap nat EchPrefetch;
  ds_chains : gmap nat Chain;
  ds_next : nat;
  ds_flight : gmap nat RespCb;
  ds_starts : list (Transport * Dispatch);
  ds_requests : nat;
  ds_log : list (nat * Delivery);
  ds_in_callback : Z
}.
Definition set_ds_conf (v : ClientConf) (s : DState) : DState :=
  mkDState v (ds_now_ms s) (ds_hrtime s) (ds_prefetches s) (ds_chains s) (ds_next s) (ds_flight s) (ds_starts s) (ds_requests s) (ds_log s) (ds_in_callback s).
Definition set_ds_clock (now hr : Z) (s : DState) : DState :=
  mkDState (ds_conf s) now hr (ds_prefetches s) (ds_chains s) (ds_next s) (ds_flight s) (ds_starts s) (ds_requests s) (ds_log s) (ds_in_callback s).
Definition set_ds_prefetches (v : gmap nat EchPrefetch) (s : DState) : DState :=
  mkDState (ds_conf s) (ds_now_ms s) (ds_hrtime s) v (ds_chains s) (ds_next s) (ds_flight s) (ds_starts s) (ds_requests s) (ds_log s) (ds_in_callback s).
Definition set_ds_chains (v : gmap nat Chain) (s : DState) : DState :=
  mkDState (ds_conf s) (ds_now_ms s) (ds_hrtime s) (ds_prefetches s) v (ds_next s) (ds_flight s) (ds_starts s) (ds_requests s) (ds_log s) (ds_in_callback s).
Definition set_ds_next (v : nat) (s : DState) : DState :=
  mkDState (ds_conf s) (ds_now_ms s) (ds_hrtime s) (ds_prefetches s) (ds_chains s) v (ds_flight s) (ds_starts s) (ds_requests s) (ds_log s) (ds_in_callback s).
Definition set_ds_flight (v : gmap nat RespCb) (s : DState) : DState :=
  mkDState (ds_conf s) (ds_now_ms s) (ds_hrtime s) (ds_prefetches s) (ds_chains s) (ds_next s) v (ds_starts s) (ds_requests s) (ds_log s) (ds_in_callback s).
Definition set_ds_starts (v : list (Transport * Dispatch)) (s : DState) : DState :=
  mkDState (ds_conf s) (ds_now_ms s) (ds_hrtime s) (ds_prefetches s) (ds_chains s) (ds_next s) (ds_flight s) v (ds_requests s) (ds_log s) (ds_in_callback s).
Definition set_ds_requests (v : nat) (s : DState) : DState :=
  mkDState (ds_conf s) (ds_now_ms s) (ds_hrtime s) (ds_prefetches s) (ds_chains s) (ds_next s) (ds_flight s) (ds_starts s) v (ds_log s) (ds_in_callback s).
Definition set_ds_log (v : list (nat * Delivery)) (s : DState) : DState :=
  mkDState (ds_conf s) (ds_now_ms s) (ds_hrtime s) (ds_prefetches s) (ds_chains s) (ds_next s) (ds_flight s) (ds_starts s) (ds_requests s) v (ds_in_callback s).
Definition set_ds_in_callback (v : Z) (s : DState) : DState :=
  mkDState (ds_conf s) (ds_now_ms s) (ds_hrtime s) (ds_prefetches s) (ds_chains s) (ds_next s) (ds_flight s) (ds_starts s) (ds_requests s) (ds_log s) v.

(** ** The settings of the client *)
(** The TLS context for HTTPS proxies is built once. *)
Definition client_ensure_proxy_ctx (verify : bool) (c : ClientConf) : ClientConf :=
  match cc_proxy_ctx c with
  | Some _ => c
  | None => set_cc_proxy_ctx (Some verify) verify c
  end.
(** The proxy of a request: its own, or the next of the pool. *)
Definition client_resolve_proxy (override_url : bytes) (c : ClientConf) : option ProxyConfig * ClientConf :=
  let use (p : ProxyConfig) (c : ClientConf) :=
    (Some p, if bool_decide (px_type p = ProxyType_Https) then client_ensure_proxy_ctx (cc_proxy_verify c) c else c) in
  if negb (length override_url =? 0)%nat then
    match proxy_parse override_url with
    | None => (None, c)
    | Some p => use p c
    end
  else if negb (length (cc_proxy_pool c) =? 0)%nat then
    let p := nth (cc_proxy_rr c) (cc_proxy_pool c) (mkProxy ProxyType_None [] 0 [] []) in
    use p (set_cc_proxy_pool (cc_proxy_pool c) ((cc_proxy_rr c + 1) mod length (cc_proxy_pool c)) c)
  else (None, c).
(** Whether it succeeds, the client, and whether the pool is evicted. *)
Definition client_set_proxy (proxy_url : bytes) (verify_proxy : bool) (c : ClientConf) : bool * ClientConf * bool :=
  match (if (length proxy_url =? 0)%nat then Some (mkProxy ProxyType_None [] 0 [] []) else proxy_parse proxy_url) with
  | None => (false, c, false)
  | Some next =>
      if bool_decide (next = cc_proxy c) then (true, c, false)
      else
        let c := match cc_proxy_ctx c with Some _ => set_cc_proxy_ctx None (cc_proxy_verify c) c | None => c end in
        let c := set_cc_proxy next c in
        let c := if bool_decide (px_type next = ProxyType_Https) then client_ensure_proxy_ctx verify_proxy c else c in
        (true, c, cc_pool c)
  end.
Definition CLIENT_PROXY_POOL_MAX : nat := 64.
Definition client_add_proxy (proxy_url : bytes) (verify_proxy : bool) (c : ClientConf) : bool * ClientConf :=
  if (CLIENT_PROXY_POOL_MAX <=? length (cc_proxy_pool c))%nat then (false, c)
  else match (if (length proxy_url =? 0)%nat then None else proxy_parse proxy_url) with
  | None => (false, c)
  | Some pc =>
      let c := set_cc_proxy_pool (cc_proxy_pool c ++ [pc]) (cc_proxy_rr c) c in
      (true, if bool_decide (px_type pc = ProxyType_Https) then client_ensure_proxy_ctx verify_proxy c else c)
  end.
Definition client_get_proxy (c : ClientConf) : bytes := proxy_to_url (cc_proxy c).
Definition client_set_max_redirects (max : Z) (c : ClientConf) : ClientConf :=
  set_cc_limits max (cc_timeout_ms c) (cc_ech_enabled c) (cc_http_version c) c.
Definition client_set_timeout_ms (ms : Z) (c : ClientConf) : ClientConf :=
  set_cc_limits (cc_max_redirects c) ms (cc_ech_enabled c) (cc_http_version c) c.
Definition client_get_timeout_ms (c : ClientConf) : Z := cc_timeout_ms c.
Definition client_set_ech_enabled (on : bool) (c : ClientConf) : ClientConf :=
  set_cc_limits (cc_max_redirects c) (cc_timeout_ms c) on (cc_http_version c) c.
Definition client_set_http_version (v : HttpVersion) (c : ClientConf) : ClientConf :=
  set_cc_limits (cc_max_redirects c) (cc_timeout_ms c) (cc_ech_enabled c) v c.
(** The client, and whether its pool is drained. *)
Definition client_set_max_conns_per_origin (max : Z) (c : ClientConf) : ClientConf * bool :=
  if (0 <? max) && negb (cc_pool c) then (set_cc_pool true max c, false)
  else (set_cc_pool (cc_pool c) max c, (max =? 0) && cc_pool c).

(** ** Where a request goes *)
Inductive Route := RouteError (err : bytes) | RouteTo (t : Transport).
(** The proxy and the version in effect. *)
Definition d_px (c : ClientConf) (d : Dispatch) : ProxyConfig := default (cc_proxy c) (d_proxy d).
Definition d_version (c : ClientConf) (d : Dispatch) : HttpVersion :=
  match d_req_version d with HttpVersion_Auto => cc_http_version c | v => v end.
Definition d_use_pool (c : ClientConf) (d : Dispatch) : bool :=
  cc_pool c && negb (cc_max_conns_per_origin c =? 0) && negb (bool_decide (is_Some (d_proxy d))) && negb (bool_decide (is_Some (d_on_chunk d))).
Definition is_http_proxy (p : ProxyConfig) : bool :=
  match px_type p with ProxyType_Http | ProxyType_Https => true | _ => false end.
Definition client_route (c : ClientConf) (now_ms : Z) (d : Dispatch) : Route :=
  if negb (cc_ok c) then RouteError (lit "TLS context init failed")
  else
    let hv := d_version c d in
    let use_pool := d_use_pool c d in
    let h3 := if use_pool then ToPool PoolProto_H3 else ToQuic in
    if is_http_proxy (d_px c d) && bool_decide (hv = HttpVersion_H3)
    then RouteError (lit "HTTP/3 cannot be used through an HTTP/HTTPS proxy (use SOCKS5)")
    else match hv with
    | HttpVersion_H3 =>
        if cc_h3_ok c then RouteTo h3
        else RouteError (lit "HTTP/3 forced but client has no QUIC profile (build it with an h3 profile + HttpVersion_Auto/_H3)")
    | HttpVersion_H1 => RouteTo (if use_pool then ToPool PoolProto_H1 else ToTcp hv)
    | _ =>
        let pu := url_parse (d_url d) in
        if bool_decide (hv = HttpVersion_Auto) && negb (is_http_proxy (d_px c d)) && cc_h3_ok c &&
           ok pu && client_h3_available (cc_alt_svc c) (origin_of pu) now_ms
        then RouteTo h3
        else RouteTo (if use_pool then ToPool PoolProto_H2 else ToTcp hv)
    end.

(** ** Access *)
Abbreviation DM := (PS DState).
Definition get_pf (p : nat) : DM EchPrefetch := fun s => match ds_prefetches s !! p with Some x => Some (x, s) | None => None end.
Definition get_chain (i : nat) : DM Chain := fun s => match ds_chains s !! i with Some x => Some (x, s) | None => None end.
Definition release_pf (p : nat) : DM unit := x ← get_pf p; pupd (fun s => set_ds_prefetches (delete p (ds_prefetches s)) s).
Definition release_chain (i : nat) : DM unit := x ← get_chain i; pupd (fun s => set_ds_chains (delete i (ds_chains s)) s).
Definition new_pf (x : EchPrefetch) : DM nat :=
  fun s => Some (ds_next s, set_ds_next (S (ds_next s)) (set_ds_prefetches (<[ds_next s := x]> (ds_prefetches s)) s)).
Definition new_chain (x : Chain) : DM nat :=
  fun s => Some (ds_next s, set_ds_next (S (ds_next s)) (set_ds_chains (<[ds_next s := x]> (ds_chains s)) s)).
Definition resp_of (r : Delivery) : Response := match r with DeliverResponse r _ => r | DeliverError _ => mkResponse false 0 [] [] end.

(** ** Dispatch and its callbacks *)
Section dispatch.
Context (json_parse : bytes -> option json).
(** The error with which the start of that number is refused before it returns. *)
Context (refused : nat -> option bytes).
(** The caller's callback of request [id]: what it does. *)
Context (on_user : nat -> Delivery -> DM unit).

Section calls.
Context (call : RespCb -> Delivery -> DM unit).

Definition client_cb_enter : DM unit := pupd (fun s => set_ds_in_callback (ds_in_callback s + 1) s).
Definition client_cb_exit : DM unit := pupd (fun s => set_ds_in_callback (ds_in_callback s - 1) s).
(** An outcome: the callback between [client_cb_enter] and [client_cb_exit]. *)
Definition outcome (cb : RespCb) (r : Delivery) : DM unit := client_cb_enter;; call cb r;; client_cb_exit.

(** [pool_dispatch], [h2req_start] or [quicreq_start]. *)
Definition start (t : Transport) (d : Dispatch) : DM unit :=
  k ← pget (fun s => length (ds_starts s));
  pupd (fun s => set_ds_starts (ds_starts s ++ [(t, d)]) s);;
  match refused k with
  | Some e => outcome (d_cb d) (DeliverError e)
  | None => pupd (fun s => set_ds_flight (<[k := d_cb d]> (ds_flight s)) s)
  end.
Definition client_dispatch_inner (d : Dispatch) : DM unit :=
  c ← pget ds_conf;
  now ← pget ds_now_ms;
  match client_route c now d with
  | RouteError e => outcome (d_cb d) (DeliverError e)
  | RouteTo t => start t d
  end.

Definition ECH_DOH_ORIGIN : bytes := lit "dns.google:443".
Definition ech_doh_url (pu : ParsedUrl) : bytes :=
  lit "https://dns.google/resolve?name=" ++ str8_cstring (host pu ++ [0]) ++ lit "&type=HTTPS".
Definition client_ech_prefetch (d : Dispatch) (pu : ParsedUrl) : DM unit :=
  p ← new_pf (mkPrefetch (origin_of pu) d);
  client_dispatch_inner (mkDispatch Method_GET (ech_doh_url pu) [] [] (CbEch p) (d_deadline_ns d) None None [] HttpVersion_Auto).
Definition ech_wanted (c : ClientConf) (now_ms : Z) (pu : ParsedUrl) : bool :=
  cc_ech_enabled c && ok pu && https pu && negb (str8_match (origin_of pu) ECH_DOH_ORIGIN) &&
  negb (bool_decide (is_Some (ech_cache_get (cc_ech_cache c) (origin_of pu) now_ms))).
Definition client_dispatch (d : Dispatch) : DM unit :=
  c ← pget ds_conf;
  now ← pget ds_now_ms;
  if ech_wanted c now (url_parse (d_url d)) then client_ech_prefetch d (url_parse (d_url d)) else client_dispatch_inner d.

Definition client_ech_doh_cb (p : nat) (r : Delivery) : DM unit :=
  pf ← get_pf p;
  let r := resp_of r in
  let config := if r_ok r && negb (length (r_body r) =? 0)%nat then ech_config_from_doh json_parse (r_body r) else [] in
  pupd (fun s => set_ds_conf (set_cc_ech_cache (ech_cache_put (cc_ech_cache (ds_conf s)) (pf_origin pf) config (ds_now_ms s)) (ds_conf s)) s);;
  client_dispatch_inner (pf_request pf);;
  release_pf p.

(** A call of the caller's callback. *)
Definition user_cb (id : nat) (r : Delivery) : DM unit :=
  pupd (fun s => set_ds_log (ds_log s ++ [(id, r)]) s);; on_user id r.
Definition chain_dispatch (i : nat) (x : Chain) : Dispatch :=
  let st := ch_state x in
  mkDispatch (rs_method st) (rs_cur_url st) (rs_headers st) (rs_body st) (CbRedirect i) (ch_deadline_ns x) (ch_proxy x) None
    (ch_header_order x) (ch_req_version x).
Definition on_redirect (i : nat) (r : Delivery) : DM unit :=
  x ← get_chain i;
  match client_redirect_cb (ch_state x) (resp_of r) with
  | RA_dispatch st =>
      let x := mkChain st (ch_user x) (ch_deadline_ns x) (ch_proxy x) (ch_header_order x) (ch_req_version x) in
      pupd (fun s => set_ds_chains (<[i := x]> (ds_chains s)) s);;
      client_dispatch (chain_dispatch i x)
  | RA_deliver _ => user_cb (ch_user x) r;; release_chain i
  end.
End calls.

(** Callbacks call each other at most three deep. *)
Fixpoint client_cb (fuel : nat) (cb : RespCb) (r : Delivery) : DM unit :=
  match fuel with
  | O => bad
  | S fuel =>
      match cb with
      | CbUser id => user_cb id r
      | CbRedirect i => on_redirect (client_cb fuel) i r
      | CbEch p => client_ech_doh_cb (client_cb fuel) p r
      end
  end.
Definition CB_DEPTH : nat := 3.

(** ** Requests *)
Definition client_deadline (c : ClientConf) (hrtime : Z) : Z :=
  if negb (cc_timeout_ms c =? 0) then wrap64 (hrtime + wrap64 (cc_timeout_ms c * 1000000)) else 0.
Definition client_request (p : RequestParams) : DM unit :=
  id ← pget ds_requests;
  pupd (fun s => set_ds_requests (S id) s);;
  px ← (fun s => let '(px, c) := client_resolve_proxy (par_proxy p) (ds_conf s) in Some (px, set_ds_conf c s));
  let headers := match par_fetch_mode p with
                 | FetchMode_Default => par_headers p
                 | m => ga_list (sec_fetch_merge header_list_init m (par_url p) (par_headers p))
                 end in
  c ← pget ds_conf;
  hr ← pget ds_hrtime;
  let deadline := if negb (par_deadline_ns p =? 0) then par_deadline_ns p else client_deadline c hr in
  if par_no_redirects p || (cc_max_redirects c =? 0) || bool_decide (is_Some (par_on_chunk p)) then
    client_dispatch (client_cb CB_DEPTH)
      (mkDispatch (par_method p) (par_url p) headers (par_body p) (CbUser id) deadline px (par_on_chunk p) (par_header_order p) (par_http_version p))
  else
    let x := mkChain (mkRedirect (par_method p) headers (par_body p) (par_url p) (cc_max_redirects c)) id deadline px
               (par_header_order p) (par_http_version p) in
    i ← new_chain x;
    client_dispatch (client_cb CB_DEPTH) (chain_dispatch i x).
(** The outcome of start [k]. *)
Definition transport_done (k : nat) (r : Delivery) : DM unit :=
  cb ← (fun s => match ds_flight s !! k with Some cb => Some (cb, set_ds_flight (delete k (ds_flight s)) s) | None => None end);
  outcome (client_cb CB_DEPTH) cb r.
End dispatch.
