(* ===== verification/DispatchProps.v ===== *)
(** * The client, its guarantees

    Every request of a caller has one outcome: across its redirects, the ECH
    prefetch before a hop, the transports that refuse it at once and the requests
    its callbacks make, it is answered once or exactly one transport holds it. And
    where a request may go. *)
From stdpp Require Import gmap relations.
From S2P Require Import Prelude String8 Url GrowArr Header SecFetch Redirect OriginCache Proxy Json TcpRequest.
From S2P Require Export Dispatch.

(** ** What the stores hold, but for the arenas that are being finished *)
Section without.
Context {A : Type}.
Implicit Types (m : gmap nat A) (G : list nat).
Definition without G m : gmap nat A := filter (fun kv => kv.1 ∉ G) m.
Lemma without_lookup G m p : p ∉ G -> without G m !! p = m !! p.
Proof.
  intros Hp. destruct (m !! p) as [x|] eqn:E.
  - by apply map_lookup_filter_Some.
  - apply map_lookup_filter_None. by left.
Qed.
Lemma without_in G m p x : without G m !! p = Some x <-> m !! p = Some x /\ p ∉ G.
Proof. apply map_lookup_filter_Some. Qed.
Lemma without_cons G m p : without (p :: G) m = delete p (without G m).
Proof.
  apply map_eq. intros i. apply option_eq. intros x. rewrite lookup_delete_Some, !without_in, not_elem_of_cons. naive_solver.
Qed.
Lemma without_take G m p x : m !! p = Some x -> p ∉ G -> map_to_list (without G m) ≡ₚ (p, x) :: map_to_list (without (p :: G) m).
Proof. intros E Hp. rewrite without_cons. symmetry. apply map_to_list_delete. by rewrite without_lookup. Qed.
Lemma without_put G m p x : p ∉ G -> map_to_list (without G (<[p := x]> m)) ≡ₚ (p, x) :: map_to_list (without (p :: G) m).
Proof.
  intros Hp. rewrite (without_take G _ p x); [|apply lookup_insert_eq|done]. f_equiv. rewrite !without_cons.
  assert (E : delete p (without G (<[p := x]> m)) = delete p (without G m)); [|by rewrite E].
  apply map_eq. intros i. destruct (decide (i = p)) as [->|Hn]; [by rewrite !lookup_delete_eq|].
  rewrite !lookup_delete_ne by done. apply option_eq. intros y. by rewrite !without_in, lookup_insert_ne.
Qed.
Lemma without_fresh G m p : m !! p = None -> map_to_list (without (p :: G) m) = map_to_list (without G m).
Proof.
  intros E. rewrite without_cons, delete_id; [done|]. destruct (without G m !! p) as [x|] eqn:Ex; [|done].
  apply without_in in Ex as [? _]. congruence.
Qed.
Lemma without_delete G m p : without G (delete p m) = without (p :: G) m.
Proof.
  rewrite without_cons. apply map_eq. intros i. apply option_eq. intros x.
  rewrite without_in, !lookup_delete_Some, without_in. naive_solver.
Qed.
End without.

(** ** The invariant *)
Definition users_of : list RespCb -> list nat := omap (fun cb => match cb with CbUser id => Some id | _ => None end).
Definition chains_of : list RespCb -> list nat := omap (fun cb => match cb with CbRedirect i => Some i | _ => None end).
Definition echs_of : list RespCb -> list nat := omap (fun cb => match cb with CbEch p => Some p | _ => None end).
Implicit Types (s : DState) (F : list RespCb) (G C : list nat) (d : Dispatch) (r : Delivery).
Definition in_flight s : list RespCb := (map_to_list (ds_flight s)).*2.
Definition stashed G s : list RespCb := (fun kv => d_cb (pf_request kv.2)) <$> map_to_list (without G (ds_prefetches s)).
Definition chain_users C s : list nat := (fun kv => ch_user kv.2) <$> map_to_list (without C (ds_chains s)).
(** [F] are callbacks that are about to be called, [G] and [C] the prefetches
    and the chains that are being finished. *)
Record Inv F G C s : Prop := {
  v_users : users_of (F ++ in_flight s ++ stashed G s) ++ chain_users C s ++ (ds_log s).*1 ≡ₚ seq 0 (ds_requests s);
  v_chains : chains_of (F ++ in_flight s ++ stashed G s) ≡ₚ (map_to_list (without C (ds_chains s))).*1;
  v_echs : echs_of (F ++ in_flight s) ≡ₚ (map_to_list (without G (ds_prefetches s))).*1;
  v_stash p x : ds_prefetches s !! p = Some x -> match d_cb (pf_request x) with CbEch _ => False | _ => True end;
  v_G p : p ∈ G -> is_Some (ds_prefetches s !! p);
  v_C i : i ∈ C -> is_Some (ds_chains s !! i);
  v_next_pf p : is_Some (ds_prefetches s !! p) -> (p < ds_next s)%nat;
  v_next_chain i : is_Some (ds_chains s !! i) -> (i < ds_next s)%nat;
  v_starts k : is_Some (ds_flight s !! k) -> (k < length (ds_starts s))%nat
}.
Definition is_error r : bool := match r with DeliverError _ => true | _ => false end.
(** [m] keeps what is awaited, and the depth of callbacks. *)
Definition keeps_all F G C (m : PS DState unit) s : Prop :=
  wp m (fun _ s' => Inv F G C s' /\ ds_in_callback s' = ds_in_callback s) s.
Definition calm (m : PS DState unit) : Prop := forall F G C s, Inv F G C s -> keeps_all F G C m s.
(** A call uses up its callback. *)
Definition takes (P : RespCb -> Delivery -> Prop) (call : RespCb -> Delivery -> PS DState unit) : Prop :=
  forall cb r F G C s, P cb r -> Inv (cb :: F) G C s -> keeps_all F G C (call cb r) s.
Definition level (n : nat) (cb : RespCb) r : Prop :=
  match cb with
  | CbUser _ => (1 <= n)%nat
  | CbEch _ => (2 <= n)%nat
  | CbRedirect _ => if is_error r then (1 <= n)%nat else (3 <= n)%nat
  end.

Lemma users_app l1 l2 : users_of (l1 ++ l2) = users_of l1 ++ users_of l2.
Proof. apply omap_app. Qed.
Lemma chains_app l1 l2 : chains_of (l1 ++ l2) = chains_of l1 ++ chains_of l2.
Proof. apply omap_app. Qed.
Lemma echs_app l1 l2 : echs_of (l1 ++ l2) = echs_of l1 ++ echs_of l2.
Proof. apply omap_app. Qed.
#[local] Instance users_proper : Proper ((≡ₚ) ==> (≡ₚ)) users_of.
Proof. intros l1 l2 H. unfold users_of. by rewrite H. Qed.
#[local] Instance chains_proper : Proper ((≡ₚ) ==> (≡ₚ)) chains_of.
Proof. intros l1 l2 H. unfold chains_of. by rewrite H. Qed.
#[local] Instance echs_proper : Proper ((≡ₚ) ==> (≡ₚ)) echs_of.
Proof. intros l1 l2 H. unfold echs_of. by rewrite H. Qed.
(** States with the same stores. *)
Lemma dinv_same F G C s s' : Inv F G C s -> ds_prefetches s' = ds_prefetches s -> ds_chains s' = ds_chains s -> ds_next s' = ds_next s ->
  ds_flight s' = ds_flight s -> ds_starts s' = ds_starts s -> ds_requests s' = ds_requests s -> ds_log s' = ds_log s -> Inv F G C s'.
Proof.
  intros [A1 A2 A3 A4 A5 A6 A7 A8 A9] E1 E2 E3 E4 E5 E6 E7.
  constructor; unfold in_flight, stashed, chain_users in *; rewrite ?E1, ?E2, ?E3, ?E4, ?E5, ?E6, ?E7; done.
Qed.
(** ** The steps *)
Lemma dinv_perm F F' G C s : F ≡ₚ F' -> Inv F G C s -> Inv F' G C s.
Proof. intros HF [A1 A2 A3 A4 A5 A6 A7 A8 A9]. constructor; rewrite <-?HF; done. Qed.
Ltac inv_split A := destruct A as [A1 A2 A3 A4 A5 A6 A7 A8 A9].
Ltac perm H := etrans; [|exact H]; solve_Permutation.
Lemma inv_user id r F G C s : Inv (CbUser id :: F) G C s -> Inv F G C (set_ds_log (ds_log s ++ [(id, r)]) s).
Proof.
  intros A. inv_split A. constructor; try done. cbn. rewrite fmap_app. cbn.
  cbn in A1. perm A1.
Qed.
Lemma inv_fly t d F G C s : Inv (d_cb d :: F) G C s ->
  Inv F G C (set_ds_flight (<[length (ds_starts s) := d_cb d]> (ds_flight s)) (set_ds_starts (ds_starts s ++ [(t, d)]) s)).
Proof.
  intros A. inv_split A. assert (Hn : ds_flight s !! length (ds_starts s) = None).
  { destruct (ds_flight s !! length (ds_starts s)) eqn:E; [|done]. pose proof (A9 (length (ds_starts s)) ltac:(by eexists)). lia. }
  assert (E : in_flight (set_ds_flight (<[length (ds_starts s) := d_cb d]> (ds_flight s)) (set_ds_starts (ds_starts s ++ [(t, d)]) s)) ≡ₚ d_cb d :: in_flight s).
  { unfold in_flight. cbn. by rewrite map_to_list_insert. }
  assert (EF : forall l, F ++ (d_cb d :: in_flight s) ++ l ≡ₚ (d_cb d :: F) ++ in_flight s ++ l) by (intros; solve_Permutation).
  constructor; try done; cbn [ds_log ds_chains ds_prefetches ds_requests set_ds_flight set_ds_starts].
  - rewrite E, EF. exact A1.
  - rewrite E, EF. exact A2.
  - rewrite E. pose proof (EF []) as EF0. rewrite !app_nil_r in EF0. rewrite EF0. exact A3.
  - intros k. cbn. rewrite length_app. cbn. destruct (decide (k = length (ds_starts s))) as [->|Hk]; [intros _; lia|].
    rewrite lookup_insert_ne by done. intros ?%A9. lia.
Qed.
Lemma inv_land k cb F G C s : Inv F G C s -> ds_flight s !! k = Some cb -> Inv (cb :: F) G C (set_ds_flight (delete k (ds_flight s)) s).
Proof.
  intros A Hk. inv_split A. assert (E : in_flight s ≡ₚ cb :: in_flight (set_ds_flight (delete k (ds_flight s)) s)).
  { unfold in_flight. cbn. by rewrite <-(map_to_list_delete _ k cb Hk). }
  set (s' := set_ds_flight _ s) in *.
  assert (EF : forall l, F ++ (cb :: in_flight s') ++ l ≡ₚ (cb :: F) ++ in_flight s' ++ l) by (intros; solve_Permutation).
  constructor; try done.
  - rewrite <-EF, <-E. exact A1.
  - rewrite <-EF, <-E. exact A2.
  - pose proof (EF []) as EF0. rewrite !app_nil_r in EF0. rewrite <-EF0, <-E. exact A3.
  - intros j. cbn. intros [x [_ Hx]%lookup_delete_Some]. apply A9. by eexists.
Qed.
Lemma next_none {A} (m : gmap nat A) n : (forall p, is_Some (m !! p) -> (p < n)%nat) -> m !! n = None.
Proof. intros H. destruct (m !! n) eqn:E; [|done]. pose proof (H n ltac:(by eexists)). lia. Qed.
Lemma inv_new_pf o d F G C s : Inv (d_cb d :: F) G C s -> match d_cb d with CbEch _ => False | _ => True end ->
  Inv (CbEch (ds_next s) :: F) G C (set_ds_next (S (ds_next s)) (set_ds_prefetches (<[ds_next s := mkPrefetch o d]> (ds_prefetches s)) s)).
Proof.
  intros A Hd. inv_split A. pose proof (next_none _ _ A7) as Hn. set (s' := set_ds_next _ _).
  assert (HG : ds_next s ∉ G) by (intros Hin; apply A5 in Hin as [? ?]; congruence).
  assert (E : map_to_list (without G (ds_prefetches s')) ≡ₚ (ds_next s, mkPrefetch o d) :: map_to_list (without G (ds_prefetches s))).
  { cbn. rewrite without_put by done. by rewrite without_fresh. }
  assert (ES : stashed G s' ≡ₚ d_cb d :: stashed G s) by (unfold stashed; by rewrite E).
  assert (EF : F ++ in_flight s ++ (d_cb d :: stashed G s) ≡ₚ (d_cb d :: F) ++ in_flight s ++ stashed G s) by solve_Permutation.
  constructor; cbn [ds_log ds_chains ds_requests set_ds_next set_ds_prefetches s'] in *; try done.
  - rewrite <-app_comm_cons, ES. change (in_flight s') with (in_flight s). change (chain_users C s') with (chain_users C s).
    change (users_of (CbEch (ds_next s) :: ?l)) with (users_of l). rewrite EF. exact A1.
  - rewrite <-app_comm_cons, ES. change (in_flight s') with (in_flight s).
    change (chains_of (CbEch (ds_next s) :: ?l)) with (chains_of l). rewrite EF. exact A2.
  - change (in_flight s') with (in_flight s). rewrite E. cbn [fmap list_fmap]. rewrite <-A3.
    change (echs_of ((CbEch (ds_next s) :: F) ++ in_flight s)) with (ds_next s :: echs_of (F ++ in_flight s)). by destruct (d_cb d).
  - intros p x. cbn. intros [[<- <-]|[_ Hx]]%lookup_insert_Some; [done|by apply (A4 p)].
  - intros p Hp. cbn. destruct (decide (p = ds_next s)) as [->|Hne]; [rewrite lookup_insert_eq; by eexists|].
    rewrite lookup_insert_ne by done. by apply A5.
  - intros p. cbn. destruct (decide (p = ds_next s)) as [->|Hne]; [intros _; lia|]. rewrite lookup_insert_ne by done. intros ?%A7. lia.
  - intros i ?%A8. cbn. lia.
Qed.
Lemma inv_take_pf p F G C s : Inv (CbEch p :: F) G C s ->
  exists x, ds_prefetches s !! p = Some x /\ (p ∉ G) /\ Inv (d_cb (pf_request x) :: F) (p :: G) C s.
Proof.
  intros A. inv_split A. assert (Hp : p ∈ (map_to_list (without G (ds_prefetches s))).*1) by (rewrite <-A3; cbn; by left).
  apply list_elem_of_fmap in Hp as ([p' x] & -> & Hx). apply elem_of_map_to_list, without_in in Hx as [Hx Hp]. cbn [fst] in *.
  exists x. split; [done|]. split; [done|]. pose proof (without_take G _ _ _ Hx Hp) as E.
  assert (ES : stashed G s ≡ₚ d_cb (pf_request x) :: stashed (p' :: G) s) by (unfold stashed; by rewrite E).
  assert (EF : F ++ in_flight s ++ (d_cb (pf_request x) :: stashed (p' :: G) s) ≡ₚ (d_cb (pf_request x) :: F) ++ in_flight s ++ stashed (p' :: G) s) by solve_Permutation.
  constructor; try done.
  - rewrite <-EF, <-ES. exact A1.
  - rewrite <-EF, <-ES. exact A2.
  - rewrite E in A3. apply Permutation_cons_inv with (a := p'). etrans; [|exact A3]. cbn.
    pose proof (A4 p' x Hx) as Hd. by destruct (d_cb (pf_request x)).
  - intros q [->|Hq]%elem_of_cons; [by eexists|by apply A5].
Qed.
Lemma inv_release_pf p F G C s : Inv F (p :: G) C s -> p ∉ G -> Inv F G C (set_ds_prefetches (delete p (ds_prefetches s)) s).
Proof.
  intros A Hp. inv_split A. constructor; unfold stashed in *; cbn; rewrite ?without_delete; try done.
  - intros q x [_ Hx]%lookup_delete_Some. by apply (A4 q).
  - intros q Hq. rewrite lookup_delete_ne by (by intros ->). apply A5. by right.
  - intros q [x [_ Hx]%lookup_delete_Some]. apply A7. by eexists.
Qed.
Lemma inv_new_chain id x F G C s : Inv (CbUser id :: F) G C s -> ch_user x = id ->
  Inv (CbRedirect (ds_next s) :: F) G C (set_ds_next (S (ds_next s)) (set_ds_chains (<[ds_next s := x]> (ds_chains s)) s)).
Proof.
  intros A Hu. inv_split A. pose proof (next_none _ _ A8) as Hn. set (s' := set_ds_next _ _).
  assert (HC : ds_next s ∉ C) by (intros Hin; apply A6 in Hin as [? ?]; congruence).
  assert (E : map_to_list (without C (ds_chains s')) ≡ₚ (ds_next s, x) :: map_to_list (without C (ds_chains s))).
  { cbn. rewrite without_put by done. by rewrite without_fresh. }
  assert (EC : chain_users C s' ≡ₚ id :: chain_users C s) by (unfold chain_users; rewrite E; cbn; by rewrite Hu).
  constructor; cbn [ds_log ds_prefetches ds_requests set_ds_next set_ds_chains s'] in *; try done.
  - rewrite EC. change (users_of ((CbRedirect (ds_next s) :: F) ++ ?l)) with (users_of (F ++ l)). cbn in A1. perm A1.
  - change (chains_of ((CbRedirect (ds_next s) :: F) ++ ?l)) with (ds_next s :: chains_of (F ++ l)). rewrite E. cbn [fmap list_fmap].
    by rewrite <-A2.
  - intros i Hi. cbn. destruct (decide (i = ds_next s)) as [->|Hne]; [rewrite lookup_insert_eq; by eexists|].
    rewrite lookup_insert_ne by done. by apply A6.
  - intros p ?%A7. cbn. lia.
  - intros i. cbn. destruct (decide (i = ds_next s)) as [->|Hne]; [intros _; lia|]. rewrite lookup_insert_ne by done. intros ?%A8. lia.
Qed.
Lemma inv_chain_in i F G C s : Inv (CbRedirect i :: F) G C s -> exists x, ds_chains s !! i = Some x /\ (i ∉ C).
Proof.
  intros A. inv_split A. assert (Hp : i ∈ (map_to_list (without C (ds_chains s))).*1) by (rewrite <-A2; cbn; by left).
  apply list_elem_of_fmap in Hp as ([i' x] & -> & Hx). apply elem_of_map_to_list, without_in in Hx as [Hx Hp]. by exists x.
Qed.
Lemma inv_take_chain i x F G C s : Inv (CbRedirect i :: F) G C s -> ds_chains s !! i = Some x -> i ∉ C -> Inv (CbUser (ch_user x) :: F) G (i :: C) s.
Proof.
  intros A Hx Hp. inv_split A. pose proof (without_take C _ _ _ Hx Hp) as E.
  assert (EC : chain_users C s ≡ₚ ch_user x :: chain_users (i :: C) s) by (unfold chain_users; by rewrite E).
  constructor; try done.
  - change (users_of ((CbUser (ch_user x) :: F) ++ ?l)) with (ch_user x :: users_of (F ++ l)). rewrite EC in A1. cbn in A1. perm A1.
  - rewrite E in A2. by apply Permutation_cons_inv with (a := i).
  - intros j [->|Hj]%elem_of_cons; [by eexists|by apply A6].
Qed.
Lemma inv_release_chain i F G C s : Inv F G (i :: C) s -> i ∉ C -> Inv F G C (set_ds_chains (delete i (ds_chains s)) s).
Proof.
  intros A Hp. inv_split A. constructor; unfold chain_users in *; cbn; rewrite ?without_delete; try done.
  - intros j Hj. rewrite lookup_delete_ne by (by intros ->). apply A6. by right.
  - intros j [x [_ Hx]%lookup_delete_Some]. apply A8. by eexists.
Qed.
Lemma inv_put_chain i x y F G C s : Inv F G C s -> ds_chains s !! i = Some x -> i ∉ C -> ch_user y = ch_user x ->
  Inv F G C (set_ds_chains (<[i := y]> (ds_chains s)) s).
Proof.
  intros A Hx Hp Hu. inv_split A. pose proof (without_take C _ _ _ Hx Hp) as E. pose proof (without_put C (ds_chains s) i y Hp) as E'.
  constructor; unfold chain_users in *; cbn; try done.
  - rewrite E'. rewrite E in A1. cbn in *. by rewrite Hu.
  - rewrite E'. by rewrite E in A2.
  - intros j Hj. rewrite lookup_insert_ne by (by intros ->). by apply A6.
  - intros j. destruct (decide (j = i)) as [->|Hne]; [intros _; apply A8; by eexists|]. rewrite lookup_insert_ne by done. apply A8.
Qed.

(** ** The operations *)
Section ops.
Context (json_parse : bytes -> option json) (refused : nat -> option bytes) (on_user : nat -> Delivery -> PS DState unit).
Context (Huser : forall id r, calm (on_user id r)).

Section calls.
Context (P : RespCb -> Delivery -> Prop) (call : RespCb -> Delivery -> PS DState unit) (Hcall : takes P call).
Lemma outcome_ok cb r F G C s : P cb r -> Inv (cb :: F) G C s -> keeps_all F G C (outcome call cb r) s.
Proof.
  intros HP HI. unfold keeps_all, outcome, client_cb_enter, client_cb_exit. apply wp_bind, wp_pupd, wp_bind.
  eapply wp_mono; [apply (Hcall cb r F G C _ HP); by eapply dinv_same|]. cbv beta. intros [] s1 [HI1 E]. apply wp_pupd.
  split; [by eapply dinv_same|]. cbn in *. lia.
Qed.
Lemma start_ok t d F G C s : (forall e, P (d_cb d) (DeliverError e)) -> Inv (d_cb d :: F) G C s -> keeps_all F G C (start refused call t d) s.
Proof.
  intros HP HI. unfold keeps_all, start. apply wp_bind, wp_pget, wp_bind, wp_pupd.
  destruct (refused _) as [e|]; [|apply wp_pupd; split; [exact (inv_fly t d F G C s HI)|done]].
  assert (HI' : Inv (d_cb d :: F) G C (set_ds_starts (ds_starts s ++ [(t, d)]) s)).
  { inv_split HI. constructor; try done. intros k Hk. cbn in *. rewrite length_app. apply A9 in Hk. lia. }
  exact (outcome_ok (d_cb d) (DeliverError e) F G C _ (HP e) HI').
Qed.
Lemma inner_ok d F G C s : (forall e, P (d_cb d) (DeliverError e)) -> Inv (d_cb d :: F) G C s ->
  keeps_all F G C (client_dispatch_inner refused call d) s.
Proof.
  intros HP HI. unfold keeps_all, client_dispatch_inner. apply wp_bind, wp_pget, wp_bind, wp_pget.
  destruct (client_route _ _ _) as [e|t]; [by apply outcome_ok|by apply start_ok].
Qed.
Lemma dispatch_ok d F G C s : (forall e, P (d_cb d) (DeliverError e)) -> (forall p e, P (CbEch p) (DeliverError e)) ->
  match d_cb d with CbEch _ => False | _ => True end -> Inv (d_cb d :: F) G C s -> keeps_all F G C (client_dispatch refused call d) s.
Proof.
  intros HP HE Hd HI. unfold keeps_all, client_dispatch. apply wp_bind, wp_pget, wp_bind, wp_pget.
  destruct (ech_wanted _ _ _); [|by apply inner_ok]. unfold client_ech_prefetch. apply wp_bind. unfold wp at 1, new_pf.
  pose proof (inv_new_pf (origin_of (url_parse (d_url d))) d F G C s HI Hd) as HI1.
  eapply wp_mono; [apply inner_ok; [intros e; apply HE|exact HI1]|]. by intros [] s'.
Qed.
Lemma ech_doh_ok p r F G C s : (forall cb e, match cb with CbEch _ => False | _ => True end -> P cb (DeliverError e)) ->
  Inv (CbEch p :: F) G C s -> keeps_all F G C (client_ech_doh_cb json_parse refused call p r) s.
Proof.
  intros HP HI. destruct (inv_take_pf p F G C s HI) as (x & Ex & HpG & HI1). unfold keeps_all, client_ech_doh_cb.
  apply wp_bind. unfold wp at 1, get_pf. rewrite Ex. apply wp_bind, wp_pupd, wp_bind.
  pose proof (v_stash _ _ _ _ HI p x Ex) as Hd.
  eapply wp_mono; [apply inner_ok; [intros e; by apply HP|by eapply dinv_same]|]. cbv beta. intros [] s1 [HI2 E].
  destruct (v_G _ _ _ _ HI2 p ltac:(by left)) as [y Ey]. unfold release_pf. apply wp_bind. unfold wp at 1, get_pf. rewrite Ey.
  apply wp_pupd. split; [by apply inv_release_pf|done].
Qed.
End calls.
Lemma user_ok id r F G C s : Inv (CbUser id :: F) G C s -> keeps_all F G C (user_cb on_user id r) s.
Proof.
  intros HI. unfold keeps_all, user_cb. apply wp_bind, wp_pupd. exact (Huser id r F G C _ (inv_user id r F G C s HI)).
Qed.
Lemma redirect_cb_error st : client_redirect_cb st (mkResponse false 0 [] []) = RA_deliver (mkResponse false 0 [] []).
Proof. unfold client_redirect_cb. by destruct (0 <? rs_left st). Qed.
Lemma redirect_ok P call i r F G C s : takes P call -> Inv (CbRedirect i :: F) G C s ->
  (is_error r = false -> (forall e, P (CbRedirect i) (DeliverError e)) /\ (forall p e, P (CbEch p) (DeliverError e))) ->
  keeps_all F G C (on_redirect refused on_user call i r) s.
Proof.
  intros Hcall HI HP. destruct (inv_chain_in i F G C s HI) as (x & Ex & HC). unfold keeps_all, on_redirect.
  apply wp_bind. unfold wp at 1, get_chain. rewrite Ex. destruct (client_redirect_cb (ch_state x) (resp_of r)) as [st|rr] eqn:Er.
  - assert (He : is_error r = false) by (destruct r; [done|]; cbn in Er; by rewrite redirect_cb_error in Er).
    destruct (HP He) as [HP1 HP2]. apply wp_bind, wp_pupd.
    set (y := mkChain st _ _ _ _ _). pose proof (inv_put_chain i x y _ _ _ _ HI Ex HC eq_refl) as HI1.
    exact (dispatch_ok P call Hcall (chain_dispatch i y) F G C _ HP1 HP2 I HI1).
  - apply wp_bind. eapply wp_mono; [apply user_ok; by apply inv_take_chain|]. cbv beta. intros [] s1 [HI1 E].
    destruct (v_C _ _ _ _ HI1 i ltac:(by left)) as [y Ey]. unfold release_chain. apply wp_bind. unfold wp at 1, get_chain. rewrite Ey.
    apply wp_pupd. split; [by apply inv_release_chain|done].
Qed.
Abbreviation cb_at := (client_cb json_parse refused on_user).
Lemma client_cb_ok n : takes (level n) (cb_at n).
Proof.
  induction n as [|n IH]; intros cb r F G C s HL HI.
  - destruct cb; cbn in HL; [lia| |lia]. destruct (is_error r); lia.
  - cbn [client_cb]. destruct cb as [id|i|p]; cbn in HL.
    + by apply user_ok.
    + apply (redirect_ok (level n)); [done|done|]. intros He. rewrite He in HL. split; intros; cbn; lia.
    + apply (ech_doh_ok (level n)); [done| |done]. intros cb e Hcb. destruct cb; cbn in *; [lia|lia|done].
Qed.
Lemma request_ok p : calm (client_request json_parse refused on_user p).
Proof.
  intros F G C s HI. unfold keeps_all, client_request. apply wp_bind, wp_pget, wp_bind, wp_pupd, wp_bind.
  set (s1 := set_ds_requests _ s). assert (HI1 : Inv (CbUser (ds_requests s) :: F) G C s1).
  { inv_split HI. constructor; try done. cbn [ds_requests set_ds_requests s1]. rewrite seq_S. cbn. cbn in A1.
    change (users_of (CbUser (ds_requests s) :: ?l)) with (ds_requests s :: users_of l).
    etrans; [|apply Permutation_app_tail; exact A1]. unfold in_flight, stashed, chain_users. cbn. solve_Permutation. }
  unfold wp at 1. destruct (client_resolve_proxy (par_proxy p) (ds_conf s1)) as [px c]. apply wp_bind, wp_pget, wp_bind, wp_pget.
  set (hs := match par_fetch_mode p with FetchMode_Default => _ | _ => _ end). set (dl := if negb (par_deadline_ns p =? 0) then _ else _).
  assert (HI2 : Inv (CbUser (ds_requests s) :: F) G C (set_ds_conf c s1)) by by eapply dinv_same.
  pose proof (client_cb_ok CB_DEPTH) as HT. destruct (_ || _ || _).
  - eapply wp_mono; [eapply (dispatch_ok (level CB_DEPTH)); [exact HT|..|exact HI2]|]; [intros e; cbn; unfold CB_DEPTH; lia|intros p' e; cbn; unfold CB_DEPTH; lia|done|].
    by intros [] s'.
  - apply wp_bind. unfold wp at 1, new_chain. set (x := mkChain _ _ _ _ _ _).
    pose proof (inv_new_chain _ x F G C _ HI2 eq_refl) as HI3.
    eapply wp_mono; [eapply (dispatch_ok (level CB_DEPTH)); [exact HT|..|exact HI3]|]; [intros e; cbn; unfold CB_DEPTH; lia|intros p' e; cbn; unfold CB_DEPTH; lia|done|].
    by intros [] s'.
Qed.
Lemma done_ok k r s : Inv [] [] [] s -> is_Some (ds_flight s !! k) -> keeps_all [] [] [] (transport_done json_parse refused on_user k r) s.
Proof.
  intros HI [cb Hk]. unfold keeps_all, transport_done. apply wp_bind. unfold wp at 1. rewrite Hk.
  eapply wp_mono; [apply (outcome_ok (level CB_DEPTH) _ (client_cb_ok CB_DEPTH)); [|by apply inv_land]|].
  - destruct cb; cbn; try (unfold CB_DEPTH; lia). destruct (is_error r); unfold CB_DEPTH; lia.
  - by intros [] s'.
Qed.
End ops.

(** ** The states the client goes through *)
Section run.
Context (json_parse : bytes -> option json) (refused : nat -> option bytes).
(** A caller's program says which requests a callback makes; callbacks that
    are called inside of a request nest, up to [n] deep. *)
Context (prog : nat -> Delivery -> list RequestParams).
Fixpoint make_requests (on_user : nat -> Delivery -> PS DState unit) (l : list RequestParams) : PS DState unit :=
  match l with
  | [] => pskip
  | p :: l => client_request json_parse refused on_user p;; make_requests on_user l
  end.
Fixpoint user_runs (n : nat) (id : nat) (r : Delivery) : PS DState unit :=
  match n with O => pskip | S n => make_requests (user_runs n) (prog id r) end.
Inductive ClientEvent :=
| EvRequest (p : RequestParams)
| EvDone (k : nat) (r : Delivery)
| EvConf (f : ClientConf -> ClientConf)
| EvClock (now_ms hrtime : Z).
(** An outcome is that of a start that is in flight. *)
Definition client_enabled (ev : ClientEvent) s : Prop := match ev with EvDone k _ => is_Some (ds_flight s !! k) | _ => True end.
Definition client_handle (n : nat) (ev : ClientEvent) : PS DState unit :=
  match ev with
  | EvRequest p => client_request json_parse refused (user_runs n) p
  | EvDone k r => transport_done json_parse refused (user_runs n) k r
  | EvConf f => pupd (fun s => set_ds_conf (f (ds_conf s)) s)
  | EvClock now hr => pupd (set_ds_clock now hr)
  end.
Inductive client_step (n : nat) : DState -> DState -> Prop :=
| client_step_event ev s s' : client_enabled ev s -> client_handle n ev s = Some (tt, s') -> client_step n s s'.
Definition client_start (c : ClientConf) (now_ms hrtime : Z) : DState := mkDState c now_ms hrtime ∅ ∅ 0 ∅ [] 0 [] 0.

Lemma calm_requests on_user l : (forall id r, calm (on_user id r)) -> calm (make_requests on_user l).
Proof.
  intros Hu. induction l as [|p l IH]; intros F G C s HI; cbn [make_requests]; [by apply wp_ret|].
  unfold keeps_all. apply wp_bind. eapply wp_mono; [by apply request_ok|]. cbv beta. intros [] s1 [HI1 E].
  eapply wp_mono; [by apply IH|]. cbv beta. intros [] s2 [HI2 E2]. split; [done|congruence].
Qed.
Lemma calm_user n id r : calm (user_runs n id r).
Proof.
  revert id r. induction n as [|n IH]; intros id r; cbn [user_runs]; [|by apply calm_requests].
  intros F G C s HI. by apply wp_ret.
Qed.
Definition fine s : Prop := Inv [] [] [] s /\ ds_in_callback s = 0.
Lemma fine_handle n ev s : fine s -> client_enabled ev s -> wp (client_handle n ev) (fun _ s' => fine s') s.
Proof.
  intros [HI HC] He. destruct ev as [p|k r|f|now hr]; cbn [client_handle].
  - eapply wp_mono; [by apply request_ok; [apply calm_user|]|]. cbv beta. intros [] s' [? E]. split; [done|congruence].
  - eapply wp_mono; [by apply done_ok; [apply calm_user| |]|]. cbv beta. intros [] s' [? E]. split; [done|congruence].
  - apply wp_pupd. split; [by eapply dinv_same|done].
  - apply wp_pupd. split; [by eapply dinv_same|done].
Qed.
Lemma fine_start c now hr : fine (client_start c now hr).
Proof.
  split; [|done]. constructor; cbn; try done; unfold in_flight, stashed, chain_users, without; cbn; rewrite ?map_filter_empty, ?map_to_list_empty; try done.
  - intros p Hp. by apply elem_of_nil in Hp.
  - intros p Hp. by apply elem_of_nil in Hp.
  - intros p [x Hx]. by rewrite lookup_empty in Hx.
  - intros p [x Hx]. by rewrite lookup_empty in Hx.
  - intros p [x Hx]. by rewrite lookup_empty in Hx.
Qed.
Lemma fine_reached n c now hr s : rtc (client_step n) (client_start c now hr) s -> fine s.
Proof.
  intros Hr. apply (rtc_ind_r (fun x => fine x) (client_start c now hr)) with (z := s) in Hr; [done|apply fine_start|].
  intros y z _ Hyz HG. destruct Hyz as [ev y z He E]. exact (run_wp _ _ _ _ _ (fine_handle n ev y HG He) E).
Qed.

(** *** Whose outcome a start brings *)
Definition plain_owner s (cb : RespCb) : option nat :=
  match cb with CbUser id => Some id | CbRedirect i => ch_user <$> ds_chains s !! i | CbEch _ => None end.
Definition owner s (cb : RespCb) : option nat :=
  match cb with CbEch p => x ← ds_prefetches s !! p; plain_owner s (d_cb (pf_request x)) | _ => plain_owner s cb end.
Definition awaited s : list nat := omap (owner s) (in_flight s).
Lemma without_nil {A} (m : gmap nat A) : without [] m = m.
Proof. apply map_eq. intros i. rewrite without_lookup; [done|apply not_elem_of_nil]. Qed.
Lemma keys_values {A} (m : gmap nat A) (l : list nat) : l ≡ₚ (map_to_list m).*1 -> omap (fun i => m !! i) l ≡ₚ (map_to_list m).*2.
Proof.
  intros ->. assert (H : forall k x, (k, x) ∈ map_to_list m -> m !! k = Some x) by (intros k x; by rewrite elem_of_map_to_list).
  induction (map_to_list m) as [|[k x] l' IH]; [done|]. cbn. rewrite (H k x) by left. cbn. f_equiv. apply IH. intros k' x' ?. apply H. by right.
Qed.
Lemma owners_split s l : omap (owner s) l ≡ₚ
  users_of l ++ omap (fun i => ch_user <$> ds_chains s !! i) (chains_of l) ++
  omap (plain_owner s) (omap (fun p => (fun x => d_cb (pf_request x)) <$> ds_prefetches s !! p) (echs_of l)).
Proof.
  induction l as [|cb l IH]; [done|]. destruct cb as [id|i|p]; cbn.
  - by rewrite IH.
  - destruct (ds_chains s !! i); cbn; rewrite IH; [solve_Permutation|done].
  - destruct (ds_prefetches s !! p) as [x|]; cbn; [|done]. destruct (plain_owner s (d_cb (pf_request x))); rewrite IH; [solve_Permutation|done].
Qed.
Lemma omap_option_fmap {A B D} (f : A -> option B) (g : B -> D) (l : list A) : omap (fun x => g <$> f x) l = g <$> omap f l.
Proof. induction l as [|x l IH]; [done|]. cbn. destruct (f x); cbn; by rewrite IH. Qed.
#[local] Instance omap_proper {A B} (f : A -> option B) : Proper ((≡ₚ) ==> (≡ₚ)) (omap (M:=list) f).
Proof. intros l1 l2 H. by rewrite H. Qed.
Lemma plain_split s l : Forall (fun cb => match cb with CbEch _ => False | _ => True end) l ->
  omap (plain_owner s) l ≡ₚ users_of l ++ omap (fun i => ch_user <$> ds_chains s !! i) (chains_of l).
Proof.
  induction 1 as [|cb l Hcb _ IH]; [done|]. destruct cb as [id|i|p]; cbn; [by rewrite IH| |done].
  destruct (ds_chains s !! i); cbn; rewrite IH; [solve_Permutation|done].
Qed.
Lemma awaited_spec s : Inv [] [] [] s -> awaited s ++ (ds_log s).*1 ≡ₚ seq 0 (ds_requests s).
Proof.
  intros [A1 A2 A3 A4 _ _ _ _ _]. cbn [app] in *. etrans; [|exact A1]. unfold awaited. rewrite owners_split.
  assert (ES : omap (fun p => (fun x => d_cb (pf_request x)) <$> ds_prefetches s !! p) (echs_of (in_flight s)) ≡ₚ stashed [] s).
  { rewrite omap_option_fmap. rewrite without_nil in A3. rewrite (keys_values _ _ A3). unfold stashed. rewrite without_nil.
    rewrite <-list_fmap_compose. done. }
  rewrite (omap_proper _ _ _ ES), plain_split.
  2: { unfold stashed. apply Forall_fmap, Forall_forall. intros [p x] Hx. apply elem_of_map_to_list, without_in in Hx as [Hx _]. exact (A4 p x Hx). }
  assert (EC : omap (fun i => ch_user <$> ds_chains s !! i) (chains_of (in_flight s ++ stashed [] s)) ≡ₚ chain_users [] s).
  { rewrite omap_option_fmap. rewrite without_nil in A2. rewrite (keys_values _ _ A2). unfold chain_users. rewrite without_nil, <-list_fmap_compose. done. }
  rewrite chains_app, omap_app in EC. rewrite users_app, <-EC. solve_Permutation.
Qed.
Lemma awaited_each s : Inv [] [] [] s -> forall k cb, ds_flight s !! k = Some cb -> is_Some (owner s cb).
Proof.
  intros [A1 A2 A3 A4 _ _ _ _ _] k cb Hk. rewrite !without_nil in *.
  assert (Hin : cb ∈ in_flight s) by (unfold in_flight; apply list_elem_of_fmap; exists (k, cb); split; [done|by apply elem_of_map_to_list]).
  assert (Hch : forall i, i ∈ chains_of (in_flight s ++ stashed [] s) -> is_Some (ds_chains s !! i)).
  { intros i Hi. rewrite A2 in Hi. apply list_elem_of_fmap in Hi as ([i' x] & -> & Hx%elem_of_map_to_list). by eexists. }
  assert (Hpl : forall cb, cb ∈ in_flight s ++ stashed [] s -> match cb with CbEch _ => False | _ => True end -> is_Some (plain_owner s cb)).
  { intros [id|i|p] Hc Hne; [by eexists| |done]. cbn. rewrite fmap_is_Some. apply Hch. apply list_elem_of_omap. exists (CbRedirect i). done. }
  destruct cb as [id|i|p]; [by eexists| |].
  - apply (Hpl (CbRedirect i)); [by apply elem_of_app; left|done].
  - cbn. assert (Hp : p ∈ echs_of ([] ++ in_flight s)) by (apply list_elem_of_omap; by exists (CbEch p)).
    rewrite A3 in Hp. apply list_elem_of_fmap in Hp as ([p' x] & -> & Hx%elem_of_map_to_list). cbn [fst]. rewrite Hx. cbn.
    apply Hpl; [|by apply (A4 p')]. apply elem_of_app. right. unfold stashed. rewrite without_nil. apply list_elem_of_fmap. exists (p', x).
    split; [done|by apply elem_of_map_to_list].
Qed.

(** ** Properties *)

(** C4. A request made of the client has one outcome. In every state that requests
    (by callbacks too), outcomes of transports in any order, changes of the
    configuration and the passing of time lead to, every event runs to its end
    without the use of an arena that was released; the callers' callbacks that
    were called and the owners of the starts in flight are together each request
    once; each start in flight has an owner; and when nothing is in flight no
    redirect chain and no prefetch is left. *)
Theorem client_request_once n c now hr s ev : rtc (client_step n) (client_start c now hr) s -> client_enabled ev s ->
  (exists s', client_handle n ev s = Some (tt, s')) /\
  awaited s ++ (ds_log s).*1 ≡ₚ seq 0 (ds_requests s) /\
  (forall k cb, ds_flight s !! k = Some cb -> is_Some (owner s cb)) /\
  (ds_flight s = ∅ -> ds_prefetches s = ∅ /\ ds_chains s = ∅) /\
  ds_in_callback s = 0.
Proof.
  intros Hr He. pose proof (fine_reached n c now hr s Hr) as HG. pose proof HG as [HI HC]. split.
  { destruct (wp_run _ _ _ (fine_handle n ev s HG He)) as ([] & s' & E & _). by exists s'. }
  split; [by apply awaited_spec|]. split; [by apply awaited_each|]. split; [|done].
  intros Hf. inv_split HI. rewrite !without_nil in *. unfold in_flight in *. rewrite Hf, map_to_list_empty in *. cbn in *.
  assert (Hp : ds_prefetches s = ∅).
  { apply map_to_list_empty_iff. symmetry in A3. by apply Permutation_nil_r, fmap_nil_inv in A3. }
  split; [done|]. unfold stashed in A2. rewrite without_nil, Hp, map_to_list_empty in A2. cbn in A2.
  apply map_to_list_empty_iff. symmetry in A2. by apply Permutation_nil_r, fmap_nil_inv in A2.
Qed.
End run.
(** *** A run, for the witnesses: a parser of the one answer of the resolver, a
    program that makes a request when request 0 is answered, the fourth start
    refused *)
Definition demo_json (b : bytes) : option json :=
  if str8_match b (lit "doh") then
    Some (JObj [(lit "Answer", JArr [JObj [(lit "type", JInt 1); (lit "data", JStr (lit "1.2.3.4"))];
                                     JObj [(lit "type", JInt 65); (lit "data", JStr (lit "1 . alpn=h2 ech=AEX+ port=443"))]])])
  else None.
Definition demo_refused (k : nat) : option bytes := if (k =? 3)%nat then Some (lit "conn alloc failed") else None.
Definition demo_request (url : bytes) : RequestParams :=
  mkRequest Method_GET url [] [] FetchMode_Default false 0 [] None [] HttpVersion_Auto.
Definition demo_program (id : nat) (r : Delivery) : list RequestParams :=
  if (id =? 0)%nat then [demo_request (lit "http://c.example/")] else [].
Definition demo_conf : ClientConf :=
  mkConf true true HttpVersion_Auto (mkProxy ProxyType_None [] 0 [] []) true 4 [] [] true 2 30000 [] 0 None true.
Definition demo_can (ev : ClientEvent) (s : DState) : bool :=
  match ev with EvDone k _ => if ds_flight s !! k is Some _ then true else false | _ => true end.
Lemma demo_can_fires ev s : demo_can ev s = true -> client_enabled ev s.
Proof. destruct ev; cbn; try done. by destruct (ds_flight s !! k). Qed.
Fixpoint demo_exec (evs : list ClientEvent) (s : DState) : option DState :=
  match evs with
  | [] => Some s
  | ev :: evs =>
      if demo_can ev s then
        match client_handle demo_json demo_refused demo_program 2 ev s with Some (_, s) => demo_exec evs s | None => None end
      else None
  end.
Definition demo_first : DState := client_start demo_conf 1000 5000.
Definition demo_at (evs : list ClientEvent) : DState := default demo_first (demo_exec evs demo_first).
Lemma demo_at_runs evs : (if demo_exec evs demo_first is Some _ then true else false) = true ->
  rtc (client_step demo_json demo_refused demo_program 2) demo_first (demo_at evs).
Proof.
  unfold demo_at. generalize demo_first as s. intros s. revert s. induction evs as [|ev evs IH]; intros s; cbn [demo_exec]; [done|].
  destruct (demo_can ev s) eqn:Ec; [|done].
  destruct (client_handle demo_json demo_refused demo_program 2 ev s) as [[[] s1]|] eqn:E1; [|done]. intros H.
  eapply rtc_l; [econstructor; [by apply demo_can_fires|exact E1]|].
  specialize (IH s1 H). by destruct (demo_exec evs s1).
Qed.
(** A request that waits for an ECH configuration, and is then redirected. *)
Definition demo_moved : Delivery := DeliverResponse (mkResponse true 302 [mkHeader (lit "location") (lit "https://a.example/next") 0] []) [].
Definition demo_answer (b : bytes) : Delivery := DeliverResponse (mkResponse true 200 [] b) [].
Definition demo_evs : list ClientEvent :=
  [EvRequest (demo_request (lit "https://a.example/")); EvDone 0 (demo_answer (lit "doh")); EvDone 1 demo_moved].

(** C26. Which transport a request is handed to. It is refused without one only when
    the client has no TLS context, or for HTTP/3 through an HTTP or HTTPS proxy or
    without a QUIC profile. The QUIC transports get a request only of a client that
    has a QUIC profile, never through an HTTP or HTTPS proxy, and only when HTTP/3 was
    asked for or the origin advertised it; the pool never one with a proxy of
    its own or with a streamed body. The version of the request, or else that of the
    client, decides among them: HTTP/1.1 and HTTP/2 requests go to the pool of that
    version or to a TCP request that carries it, HTTP/3 ones to QUIC. (Which protocol the
    server then picks by ALPN is not decided here: a TCP request of version HTTP/2
    offers HTTP/1.1 as well, and takes it.) *)
Theorem client_route_spec c now d :
  match client_route c now d with
  | RouteError _ => cc_ok c = false \/ d_version c d = HttpVersion_H3 /\ (is_http_proxy (d_px c d) = true \/ cc_h3_ok c = false)
  | RouteTo t =>
      cc_ok c = true /\
      (t = ToQuic \/ t = ToPool PoolProto_H3 ->
         cc_h3_ok c = true /\ is_http_proxy (d_px c d) = false /\
         (d_version c d = HttpVersion_H3 \/
          d_version c d = HttpVersion_Auto /\ ok (url_parse (d_url d)) = true /\
          client_h3_available (cc_alt_svc c) (origin_of (url_parse (d_url d))) now = true)) /\
      (forall p, t = ToPool p -> cc_pool c = true /\ cc_max_conns_per_origin c <> 0 /\ d_proxy d = None /\ d_on_chunk d = None) /\
      (forall v, t = ToTcp v -> v = d_version c d /\ v <> HttpVersion_H3) /\
      (d_version c d = HttpVersion_H1 -> t = ToPool PoolProto_H1 \/ t = ToTcp HttpVersion_H1) /\
      (d_version c d = HttpVersion_H2 -> t = ToPool PoolProto_H2 \/ t = ToTcp HttpVersion_H2) /\
      (d_version c d = HttpVersion_H3 -> t = ToPool PoolProto_H3 \/ t = ToQuic)
  end /\
  d_version c d = (if bool_decide (d_req_version d = HttpVersion_Auto) then cc_http_version c else d_req_version d).
Proof.
  split; [|unfold d_version; by destruct (d_req_version d)].
  destruct (client_route c now d) as [e|t] eqn:H; revert H; unfold client_route;
    (destruct (cc_ok c); [|first [by intros _; left|by intros]]); cbn [negb].
  { intros H. right. destruct (is_http_proxy (d_px c d)), (d_version c d), (cc_h3_ok c); cbn in H; try done; auto;
      by destruct (ok _ && _) in H || destruct (_ && _) in H. }
  intros H.
  assert (HP : d_use_pool c d = true -> cc_pool c = true /\ cc_max_conns_per_origin c <> 0 /\ d_proxy d = None /\ d_on_chunk d = None).
  { clear H. unfold d_use_pool. intros H. repeat (apply andb_true_iff in H as [H ?]). bool_props. repeat split; [done|lia|..].
    - by destruct (d_proxy d).
    - by destruct (d_on_chunk d). }
  set (px := is_http_proxy (d_px c d)) in *. set (up := d_use_pool c d) in *. split; [done|].
  assert (HT : (if up then ToPool PoolProto_H3 else ToQuic) = t /\ cc_h3_ok c = true /\ px = false /\
      (d_version c d = HttpVersion_H3 \/ d_version c d = HttpVersion_Auto /\ ok (url_parse (d_url d)) = true /\
        client_h3_available (cc_alt_svc c) (origin_of (url_parse (d_url d))) now = true) \/
    (if up then ToPool PoolProto_H1 else ToTcp HttpVersion_H1) = t /\ d_version c d = HttpVersion_H1 \/
    (if up then ToPool PoolProto_H2 else ToTcp (d_version c d)) = t /\ (d_version c d = HttpVersion_Auto \/ d_version c d = HttpVersion_H2)).
  { destruct (d_version c d) eqn:Ev; cbn in H; rewrite ?andb_false_r, ?andb_true_r in H.
    - rewrite bool_decide_true in H by done. cbn [andb] in H.
      destruct (negb px && cc_h3_ok c && _ && _) eqn:Ec; [|injection H as H; auto].
      repeat (apply andb_true_iff in Ec as [Ec ?]). injection H as H. left. bool_props. auto 8.
    - injection H as H. auto.
    - injection H as H. auto.
    - destruct px; [done|]. destruct (cc_h3_ok c); [|done]. injection H as H. auto 8. }
  clear H. destruct HT as [(<- & H3 & Hp & Hv)|[(<- & Hv)|(<- & Hv)]]; destruct up eqn:Eu;
    (split; [intros [?|?]; simplify_eq; auto|]); (split; [intros p ?; simplify_eq; auto|]); (split; [intros v ?; simplify_eq; split; intuition congruence|]).
  all: repeat split; intros Hr; destruct_or?; destruct_and?; simplify_eq/=; try congruence; auto.
  all: right; congruence.
Qed.

(** Its answer calls back, the callback's request is refused at once. *)
Definition demo_last : ClientEvent := EvDone 2 (demo_answer (lit "hi")).
Lemma client_request_once_witness :
  map (fun x => (fst x, d_url (snd x))) (ds_starts (demo_at demo_evs)) =
    [(ToPool PoolProto_H2, lit "https://dns.google/resolve?name=a.example&type=HTTPS");
     (ToPool PoolProto_H2, lit "https://a.example/"); (ToPool PoolProto_H2, lit "https://a.example/next")] /\
  ds_log (demo_at (demo_evs ++ [demo_last])) = [(0%nat, demo_answer (lit "hi")); (1%nat, DeliverError (lit "conn alloc failed"))] /\
  (exists s', client_handle demo_json demo_refused demo_program 2 demo_last (demo_at demo_evs) = Some (tt, s')) /\
  (awaited (demo_at demo_evs) ++ (ds_log (demo_at demo_evs)).*1 ≡ₚ [0%nat]).
Proof.
  split; [vm_compute; reflexivity|]. split; [vm_compute; reflexivity|].
  refine ((fun H => conj (proj1 H) (proj1 (proj2 H))) (client_request_once demo_json demo_refused demo_program 2 demo_conf 1000 5000
    (demo_at demo_evs) demo_last (demo_at_runs demo_evs _) (demo_can_fires _ _ _))); vm_compute; reflexivity.
Defined.
(** A client that knows an HTTP/3 alternative of the origin, and a request of it
    through a proxy of its own. *)
Definition demo_conf_h3 : ClientConf :=
  mkConf true true HttpVersion_Auto (mkProxy ProxyType_None [] 0 [] []) true 4
    [mkAltEntry (lit "a.example:443") true 9000] [] false 2 30000 [] 0 None true.
Definition demo_dispatch (px : option ProxyConfig) : Dispatch :=
  mkDispatch Method_GET (lit "https://a.example/") [] [] (CbUser 0) 0 px None [] HttpVersion_Auto.
Example client_route_examples :
  client_route demo_conf_h3 1000 (demo_dispatch (Some (mkProxy ProxyType_Socks5 (lit "p.example") 1080 [] []))) = RouteTo ToQuic /\
  client_route demo_conf_h3 1000 (demo_dispatch (Some (mkProxy ProxyType_Http (lit "p.example") 8080 [] []))) = RouteTo (ToTcp HttpVersion_Auto) /\
  client_route demo_conf_h3 1000 (demo_dispatch None) = RouteTo (ToPool PoolProto_H3).
Proof. by vm_compute. Qed.
